(* ===== verification/_CoqProject ===== *)
-Q . S2P
Prelude.v
DataStruct.v
DataStructProps.v
Opcodes.v
Ustr.v
Buffer.v
Unicode.v
Lookup.v
Reader.v
ReaderSpec.v
ReaderCode.v
ReaderProps.v
CodeHash.v
CodeHashProps.v
Aarch64.v
Aarch64Isa.v
Aarch64Imm.v
Aarch64Props.v
Aarch64Load.v
Types.v
TypesProps.v
TypesText.v
Layout.v
LayoutProps.v
LayoutClass.v
LayoutSound.v
LayoutEnum.v
Sort.v
SortProps.v
Bytes.v
FreeList.v
HashMap.v
HashMapProps.v
HashMapSound.v
Allocator.v
AllocatorPage.v
AllocatorAlloc.v
AllocatorHeap.v
AllocatorMark.v
AllocatorSound.v
AllocatorProps.v
PageMap.v
RootTable.v
Marking.v
MarkingSound.v
MarkingShare.v
MarkingProps.v
RootTableProps.v
Incremental.v
IncrementalPages.v
IncrementalTrace.v
IncrementalDrain.v
IncrementalDirty.v
IncrementalAlloc.v
IncrementalSound.v
IncrementalCycle.v
IncrementalStep.v
IncrementalProps.v
Patch.v
PatchTraps.v
PatchChecks.v
PatchRead.v
PatchReadSound.v
PatchLayout.v
PatchTypes.v
PatchTypesSound.v
PatchProps.v
