(* ===== verification/Prelude.v ===== *)
(** * HashLink: a verification development

    HashLink is a virtual machine: it reads a bytecode file ([src/code.c]), links it
    ([src/module.c]), compiles it with one of several JIT back ends ([src/jit*.c]) and
    runs it on a runtime library ([src/std/*.c]) over a garbage collector ([src/gc.c]).
    A running program can be replaced by a new version ([src/hlpatch.c]), with the help of
    the program hashes of [code.c].  This library models, in Rocq definitions that can be
    evaluated, the parts that are algorithms rather than glue, and proves what they are
    for.

    ** Conventions

    A value of a C integer type is a [Z]; [int_of] is the identity on values that fit an
    [int] and [None] on those that do not (signed overflow), [u8], [u16], [u32], [u64]
    wrap, and [i32] reinterprets.  An array is a list with accesses [aget] and [aset] that
    are [None] outside it; a pointer into an array is an index or, for zero-terminated
    strings, the suffix it points at.  [None] is always undefined behaviour of the C
    program (an access out of bounds, a read of uninitialised memory, an overflow, a
    division by zero) or, in functions that take fuel, fuel run out; the theorems say that
    it does not happen.  A few signed expressions depart from this and wrap, since the code
    counts on the wrapped value: the product [223 * h] of the name hashes ([hash_chars],
    [hash_bytes]), shifts into the sign bit (in [hl_read_i32] and in parsing hexadecimal
    digits) and the negation of a parsed integer.  [Trap] is the same thing in the reader's
    monad, which also carries the first error message, as [r->error] does; there the kinds of undefined
    behaviour are told apart, and the theorem on whole files names those that can happen.  Pointers to shared or cyclic
    data (types, runtime objects) are indices into the tables of an explicit heap.
    Allocation succeeds; what fresh memory holds is an argument ([junk]).

    ** The parts and their files

    - [Prelude]: arrays, machine integers, loops ([afor], [loop_total]), binary search and
      the tactics the other files share.
    - [DataStruct], [DataStructProps]: [data_struct.c], the growable arrays and the sorted
      sets and maps used everywhere.  Theorems: histories of operations give the results a
      mathematical set or map gives, whatever fresh memory holds.
    - [Ustr], [Buffer], [Unicode]: [std/ucs2.c], [std/buffer.c], [std/string.c].  Theorems:
      buffers concatenate, UTF-16 and UTF-8 conversions and URL encoding round-trip.
    - [Lookup]: the sorted lookup tables and the name cache of [std/obj.c].  Theorems:
      insert and find refine a finite map; a hash determines the name it was made from.
    - [Opcodes], [Reader], [ReaderSpec], [ReaderCode], [ReaderProps]: [opcodes.h] and the
      reading half of [code.c].  [ReaderSpec] is a program logic for the reader's monad,
      [ReaderCode] applies it to whole files.  Theorems: reading any bytes ends, with an
      error, one of six named kinds of undefined behaviour, or a code that is well formed
      (type indices in range but for superclasses, strings inside their block, known opcodes
      with their operands, jumps but those of switches to opcodes); the check of jumps is
      exact, switches apart; the identities one section gives are unique, though not those of
      several sections; reading inverts writing.
    - [CodeHash], [CodeHashProps]: the hashing half of [code.c].  Theorems: hashing is
      total and does not depend on the order of types; remapping globals gives every global a
      slot with its signature and sends every access there (globals whose signatures are equal
      can share one).
    - [Aarch64], [Aarch64Isa], [Aarch64Imm], [Aarch64Props], [Aarch64Load]:
      [jit_aarch64_emit.c] against the instruction formats of the architecture.  Theorems:
      encoders produce words that decode to their operands, the test for logical
      immediates is exact, and [load_immediate] loads its constant.
    - [Types], [TypesProps], [TypesText]: [std/types.c] on a heap of descriptors.
      Theorems: type identity is an equivalence, [hl_safe_cast] is subtyping, printing
      terminates on cyclic types, identifiers round-trip.  ([sub] compares functions and
      packed types as the code does: two packed types of one structure are the same type, but
      not subtypes of each other.)
    - [Layout], [LayoutProps], [LayoutClass], [LayoutSound], [LayoutEnum]:
      [hl_get_obj_rt] and the lookups of [std/obj.c], [hl_init_virtual], [hl_init_enum].
      [rt_ok] is the invariant of one runtime object, [built] of all of them.  Theorems:
      the layout of any class of a well-formed program is computed; after any calls of
      [hl_get_obj_rt] fields do not overlap and the collector's bitmaps are exact ([pointer_at]
      says which words hold pointers without looking at bitmaps); fields are found.
    - [Sort], [SortProps]: the in-place merge sort of [std/sort.h].  Theorem: it terminates
      and permutes for any comparison, and is a stable sort for a weak order.
    - [Bytes]: [std/bytes.c].  Theorems: searches find the first and the last occurrence,
      strings compare lexicographically.
    - [FreeList], [HashMap], [HashMapProps], [HashMapSound]: the hash maps of [std/maps.h]
      and [std/maps.c].  [map_kind] is the interface of the template to a kind of key,
      [map_kind_ok] its laws, which the kinds of [maps.c] satisfy; [table] is the invariant
      that relates a table to a finite map.  Theorems: any history of calls answers as a
      finite map does, enumeration lists it, the free list stays in normal form.

    - [Allocator], [AllocatorPage], [AllocatorAlloc], [AllocatorHeap], [AllocatorMark],
      [AllocatorSound], [AllocatorProps]: [allocator.c] and the allocation buffers of
      [gc.c].  [item] lists what the blocks of a page are (objects, free runs, lost blocks),
      [page_inv] relates a page to its items and [heap_inv] all the lists of pages to theirs;
      [reachable] are the states of any history of allocations, refills and collections.
      Theorems: live memory does not overlap, every request is served, pointers find the
      object they point into, finalizers run once.
    - [PageMap]: from an address to its page ([gc_alloc_page], [gc_free_page] and the two
      levels of tables of [gc.c]).  Theorem: the lookup is exact in any history.
    - [RootTable], [RootTableProps]: the table of roots of [gc.c].  Theorem: any history of
      calls leaves the array of a plain list.
    - [Marking], [MarkingSound], [MarkingShare], [MarkingProps]: the marking of a stopped
      world in [gc.c].  [mark_step] are the steps of the parallel workers and [reach] the
      blocks reachable from the roots; [mark_inv] is the invariant of any interleaving.
      Theorems: marking ends and marks the reachable blocks, a collection frees exactly what
      is unreachable, sharing a mark stack among workers loses nothing.
    - [Incremental], [IncrementalPages], [IncrementalTrace], [IncrementalDrain],
      [IncrementalDirty], [IncrementalAlloc], [IncrementalSound], [IncrementalCycle],
      [IncrementalStep], [IncrementalProps]: [gc_incremental.c] and [gc_write_tracking.c], a
      collection in slices between which the program runs.  [gc_incremental_step] is a slice,
      [mutate] a step of the program (a write, the write barrier, a lazy sweep, an
      allocation), [history] any sequence of both.  [tinv] is the invariant of the tracer
      ([IncrementalTrace] and [IncrementalDrain] keep it), [binv] adds the queues of pages
      written to ([IncrementalDirty]), [cycle] is the invariant of the whole state, which
      the program keeps ([IncrementalAlloc], [IncrementalSound]) and each slice keeps or
      ends ([IncrementalCycle], [IncrementalStep]).  Theorems: the slice that completes a
      cycle has marked what is reachable then, no reachable object is freed after it, a slice
      that is not out of time completes its phase, allocation succeeds and marks.
    - [Patch], [PatchTraps], [PatchChecks], [PatchRead], [PatchReadSound], [PatchLayout],
      [PatchTypes], [PatchTypesSound], [PatchProps]: the patches of [hlpatch.c], from their
      bytes to their acceptance.  [PatchRead] is [hl_patch_read], whose outcomes are a patch, an
      error and the crash of freeing what a failed read leaves; [PatchReadSound] has triples for
      its readers.  [Patch] has the functions of a patch and the checks on them;
      [PatchTraps] compares [validate_traps] with the machine whose states are a place and a
      stack of traps, [PatchChecks] shows what the other checks establish.  [PatchLayout] is
      the table of functions and slots that a patch is checked against and that committing it
      makes the module's, [PatchTypes] the types it appends to the heap of [Types].
      Theorems: what is read is well formed, checking it reads nothing out of bounds and
      accepts only sound functions, balance of try regions is decided exactly, appended types
      are well formed, a commit gives the module the functions that were checked.

    ** How the parts interact

    The reader uses the array and string components; the runtime descriptors of [Types]
    are those the reader's tables become once the loader has turned indices into pointers;
    [Layout] calls the lookup tables of [Lookup] and the predicates of [Types], and its
    recursion through superclasses and packed structures goes through the state of
    runtime objects ([obj->rt]), as in the code.  [Marking] reads the pages of [Allocator]
    through its lookups of blocks, marks their bitmaps and, in [MarkingProps], meets
    [flush_free_list], which frees what was not marked; its search of a page is what [PageMap]
    computes, and its bitmaps of types are those [Layout] builds.  [Incremental] shares with
    [Marking] the pages, the stack and the lookup of a block; its preparation of a page and
    its allocations are those of [Allocator], whose [page_inv] holds of its pages all along,
    and [IncrementalProps] meets [flush_free_list] and [gc_page_is_empty] again after a cycle.
    [PatchTypes] extends the heap of [Types], keeping its invariant [heap_ok], and interns
    names with [Lookup]; its one gap (a structure packed into itself is accepted) is shown on
    [hl_get_obj_rt] of [Layout].  The operands of a patch's instructions and the checks on them
    follow the rows of [Opcodes], as the reader's do.

    ** Fuel and bounds

    Recursive C functions that are not structurally recursive take fuel.  Fuel is bounded
    in the theorems by something the caller knows: the number of types for printing
    ([hl_type_str]), three times the depth of the descriptors for casts, one more than the
    number of classes for layout, the number of entries for loops.  Where sizes are added up, the
    theorems bound them so that no [int] overflows: 2^28 bytes for an object, 2^29 entries
    for a table, 2^30 for the arrays of [data_struct.c],
    2^26 entries for a hash map, 2^28 roots, [MAX_ALLOC] bytes for an allocation.  A page has
    at most 65536 blocks.  Marking with one worker takes as much fuel as there are blocks not
    marked, since each is pushed once; a slice of an incremental cycle drains at most the
    blocks of the stack and those not marked, and walks at most the pages of the lists and
    their reads.  Its clock and the answers of the system are functions of the number of
    questions asked, so that the theorems hold for any of them.

    ** Not modelled

    Of the collector, the pacing of slices by allocation and by frames, the sweep of empty
    pages in slices after an incremental cycle, its profile, its independent check and its test mode without
    the system's bits, the
    classes of owners, the stopping of threads, the statistics and the census.  The JIT back ends except the AArch64 encoder,
    and the module loader manipulate machine code and OS threads; their
    algorithms need a model this library does not have.  Of the patcher, the hashes of the
    tables a patch was made for, its globals, the fields it adds to existing classes, the
    migrations, the guards and their search for holders, the debug tables, and compiling and
    installing its code.  The debugger,
    the profilers and the diagnostics are I/O.  The bindings of [src/std] to files,
    sockets, processes and threads call the operating system.  Third-party code under
    [include/] is not part of the program. *)
From stdpp Require Export base tactics option list list_numbers numbers gmap sets strings.
From Stdlib Require Export ZArith Lia.
Open Scope Z_scope.

#[global] Arguments Z.geb : simpl never.
#[global] Arguments Z.gtb : simpl never.
#[global] Arguments Z.leb : simpl never.
#[global] Arguments Z.ltb : simpl never.
#[global] Arguments Z.eqb : simpl never.
#[global] Arguments Z.shiftl : simpl never.
#[global] Arguments Z.shiftr : simpl never.
#[global] Arguments Z.land : simpl never.
#[global] Arguments Z.lor : simpl never.
#[global] Arguments Z.lxor : simpl never.
#[global] Arguments Z.pow : simpl never.
#[global] Arguments Z.of_nat : simpl never.
#[global] Arguments Z.to_nat : simpl never.

(** ** Outcomes of C code

    [Done a] : the call returns [a].
    [Raise msg] : the call leaves through [hl_error]/[hl_fatal] with that message.
    [Undef] : the C program has no defined behaviour here (an access outside an
    array, a null dereference, a signed overflow), or a loop ran out of the fuel
    the model gave it; theorems always establish [Done] or [Raise], never rely on
    [Undef]. *)
Inductive outcome (A : Type) : Type :=
  | Done (a : A)
  | Raise (msg : string)
  | Undef.
Arguments Done {A} a.
Arguments Raise {A} msg.
Arguments Undef {A}.

#[global] Instance outcome_ret : MRet outcome := fun A a => Done a.
#[global] Instance outcome_bind : MBind outcome := fun A B f m =>
  match m with Done a => f a | Raise e => Raise e | Undef => Undef end.
#[global] Instance outcome_fmap : FMap outcome := fun A B f m =>
  match m with Done a => Done (f a) | Raise e => Raise e | Undef => Undef end.

(** Pure array code has no error exit: it is written in [option], where [None]
    means undefined behaviour, and lifted here. *)
Definition ub {A} (o : option A) : outcome A :=
  match o with Some a => Done a | None => Undef end.

Lemma outcome_bind_Done {A B} (m : outcome A) (f : A -> outcome B) b :
  (m ≫= f) = Done b <-> exists a, m = Done a /\ f a = Done b.
Proof.
  destruct m as [a|e|]; simpl; split; try done; [eauto | naive_solver ..].
Qed.

Lemma ub_Done {A} (o : option A) a : ub o = Done a <-> o = Some a.
Proof. destruct o; simpl; naive_solver. Qed.

(** ** Machine integers

    A w-bit C integer is a [Z] in range.  [wrapN] reduces to the signed range
    (two's complement), [uN] to the unsigned one. *)
Definition uN (w z : Z) : Z := z mod 2 ^ w.
Definition wrapN (w z : Z) : Z := (z + 2 ^ (w - 1)) mod 2 ^ w - 2 ^ (w - 1).
Abbreviation u8 := (uN 8) (only parsing).
Abbreviation u16 := (uN 16) (only parsing).
Abbreviation u32 := (uN 32) (only parsing).
Abbreviation u64 := (uN 64) (only parsing).
Abbreviation i8 := (wrapN 8) (only parsing).
Abbreviation i32 := (wrapN 32) (only parsing).
Abbreviation i64 := (wrapN 64) (only parsing).

Definition INT_MAX : Z := 2147483647.
Definition INT_MIN : Z := -2147483648.
Definition in_i32 (z : Z) : Prop := INT_MIN <= z <= INT_MAX.
#[global] Instance in_i32_dec z : Decision (in_i32 z).
Proof. unfold in_i32. apply _. Defined.

(** Checked signed arithmetic: overflow is undefined. *)
Definition int_of (z : Z) : option Z := if decide (in_i32 z) then Some z else None.
Definition int_add (a b : Z) : option Z := int_of (a + b).

Lemma int_of_Some z : in_i32 z -> int_of z = Some z.
Proof. intros. unfold int_of. by rewrite decide_True. Qed.

Lemma uN_range w z : 0 <= w -> 0 <= uN w z < 2 ^ w.
Proof. intros. apply Z.mod_pos_bound. lia. Qed.

Lemma uN_small w z : 0 <= z < 2 ^ w -> uN w z = z.
Proof. intros. by apply Z.mod_small. Qed.

Lemma uN_land w z : 0 <= w -> uN w z = Z.land z (Z.ones w).
Proof. intros. unfold uN. by rewrite Z.land_ones. Qed.

Lemma wrapN_range w z : 0 < w -> - 2 ^ (w - 1) <= wrapN w z < 2 ^ (w - 1).
Proof.
  intros. unfold wrapN.
  assert (2 ^ w = 2 * 2 ^ (w - 1)) as Hw.
  { rewrite <- Z.pow_succ_r by lia. f_equal. lia. }
  assert (0 < 2 ^ w) by lia.
  pose proof (Z.mod_pos_bound (z + 2 ^ (w - 1)) (2 ^ w)). lia.
Qed.

Lemma wrapN_small w z : 0 < w -> - 2 ^ (w - 1) <= z < 2 ^ (w - 1) -> wrapN w z = z.
Proof.
  intros. unfold wrapN.
  assert (2 ^ w = 2 * 2 ^ (w - 1)) as Hw.
  { rewrite <- Z.pow_succ_r by lia. f_equal. lia. }
  rewrite Z.mod_small; lia.
Qed.

Lemma uN_wrapN w z : 0 < w -> uN w (wrapN w z) = uN w z.
Proof.
  intros. unfold uN, wrapN.
  rewrite Zminus_mod_idemp_l. f_equal. lia.
Qed.

Lemma wrapN_uN w z : 0 < w -> wrapN w (uN w z) = wrapN w z.
Proof. intros. unfold uN, wrapN. by rewrite Zplus_mod_idemp_l. Qed.

Lemma i32_in z : in_i32 (i32 z).
Proof.
  pose proof (wrapN_range 32 z). unfold in_i32, INT_MIN, INT_MAX.
  change (2 ^ (32 - 1)) with 2147483648 in *. lia.
Qed.

Lemma i32_small z : in_i32 z -> i32 z = z.
Proof.
  intros [??]. apply wrapN_small; [lia|]. change (2 ^ (32 - 1)) with 2147483648.
  unfold INT_MIN, INT_MAX in *. lia.
Qed.

(** ** Arrays

    A C array (or [malloc]ed block) is the list of its cells; indices are [Z] and
    an access outside it is undefined. *)
Definition alen {A} (l : list A) : Z := Z.of_nat (length l).
Definition aget {A} (l : list A) (i : Z) : option A :=
  if decide (0 <= i) then l !! Z.to_nat i else None.
Definition aset {A} (l : list A) (i : Z) (v : A) : option (list A) :=
  if decide (0 <= i < alen l) then Some (<[Z.to_nat i := v]> l) else None.

(** [memmove(l + dst, l + src, n cells)] and
    [memcpy(l + dst, m + src, n cells)]. *)
Definition amove {A} (l : list A) (dst src n : Z) : option (list A) :=
  if decide (0 <= n /\ 0 <= dst /\ 0 <= src /\ dst + n <= alen l /\ src + n <= alen l)
  then Some (take (Z.to_nat dst) l ++ take (Z.to_nat n) (drop (Z.to_nat src) l)
             ++ drop (Z.to_nat (dst + n)) l)
  else None.
Definition acopy {A} (l : list A) (dst : Z) (m : list A) (src n : Z) : option (list A) :=
  if decide (0 <= n /\ 0 <= dst /\ 0 <= src /\ dst + n <= alen l /\ src + n <= alen m)
  then Some (take (Z.to_nat dst) l ++ take (Z.to_nat n) (drop (Z.to_nat src) m)
             ++ drop (Z.to_nat (dst + n)) l)
  else None.
(** The [n] cells at [src], as one value. *)
Definition aslice {A} (l : list A) (src n : Z) : option (list A) :=
  if decide (0 <= n /\ 0 <= src /\ src + n <= alen l)
  then Some (take (Z.to_nat n) (drop (Z.to_nat src) l)) else None.

Section arrays.
Context {A : Type}.
Implicit Types l m : list A.

Lemma alen_nonneg l : 0 <= alen l.
Proof. unfold alen. lia. Qed.
Lemma alen_app l m : alen (l ++ m) = alen l + alen m.
Proof. unfold alen. rewrite length_app. lia. Qed.
Lemma alen_cons x l : alen (x :: l) = 1 + alen l.
Proof. unfold alen. simpl. lia. Qed.
Lemma alen_nil : alen (@nil A) = 0.
Proof. done. Qed.
Lemma alen_insert l i x : alen (<[i:=x]> l) = alen l.
Proof. unfold alen. by rewrite length_insert. Qed.
Lemma alen_replicate n (x : A) : alen (replicate n x) = Z.of_nat n.
Proof. unfold alen. by rewrite length_replicate. Qed.

Lemma aget_nat l (i : nat) : aget l (Z.of_nat i) = l !! i.
Proof. unfold aget. rewrite decide_True by lia. by rewrite Nat2Z.id. Qed.
Lemma aget_lookup l i : 0 <= i -> aget l i = l !! Z.to_nat i.
Proof. intros. unfold aget. by rewrite decide_True. Qed.
Lemma aget_Some_range l i x : aget l i = Some x -> 0 <= i < alen l.
Proof.
  unfold aget, alen. case_decide; [|done]. intros ?%lookup_lt_Some. lia.
Qed.
Lemma aget_is_Some l i : 0 <= i < alen l -> exists x, aget l i = Some x.
Proof.
  unfold aget, alen. intros. rewrite decide_True by lia.
  apply lookup_lt_is_Some_2. lia.
Qed.
Lemma aget_None l i : aget l i = None <-> i < 0 \/ alen l <= i.
Proof.
  unfold aget, alen. case_decide.
  - rewrite lookup_ge_None. lia.
  - split; [lia|done].
Qed.

Lemma aset_Some l i x : 0 <= i < alen l -> aset l i x = Some (<[Z.to_nat i := x]> l).
Proof. intros. unfold aset. by rewrite decide_True. Qed.
Lemma aset_inv l i x l' : aset l i x = Some l' ->
  0 <= i < alen l /\ l' = <[Z.to_nat i := x]> l.
Proof. unfold aset. case_decide; naive_solver. Qed.
Lemma aset_len l i x l' : aset l i x = Some l' -> alen l' = alen l.
Proof. intros [_ ->]%aset_inv. apply alen_insert. Qed.
Lemma aget_insert_eq l i x : 0 <= i < alen l -> aget (<[Z.to_nat i := x]> l) i = Some x.
Proof.
  unfold alen. intros. rewrite aget_lookup by lia. apply list_lookup_insert_eq. lia.
Qed.
Lemma aget_insert_ne l i j x : 0 <= i -> i <> j ->
  aget (<[Z.to_nat i := x]> l) j = aget l j.
Proof.
  intros. unfold aget. case_decide; [|done]. apply list_lookup_insert_ne. lia.
Qed.
Lemma aget_aset_eq l i x l' : aset l i x = Some l' -> aget l' i = Some x.
Proof. intros [? ->]%aset_inv. by apply aget_insert_eq. Qed.
Lemma aget_aset_ne l i j x l' : aset l i x = Some l' -> i <> j -> aget l' j = aget l j.
Proof. intros [? ->]%aset_inv ?. apply aget_insert_ne; lia. Qed.

Lemma aget_app_l l m i : i < alen l -> aget (l ++ m) i = aget l i.
Proof.
  unfold aget, alen. intros. case_decide; [|done]. apply lookup_app_l. lia.
Qed.
Lemma aget_app_r l m i : alen l <= i -> aget (l ++ m) i = aget m (i - alen l).
Proof.
  unfold aget, alen. intros. rewrite !decide_True by lia.
  rewrite lookup_app_r by lia. f_equal. lia.
Qed.
Lemma aget_take l (n : nat) i : i < Z.of_nat n -> aget (take n l) i = aget l i.
Proof.
  unfold aget. intros. case_decide; [|done]. apply lookup_take_lt. lia.
Qed.
Lemma aget_drop l (n : nat) i : 0 <= i -> aget (drop n l) i = aget l (Z.of_nat n + i).
Proof.
  unfold aget. intros. rewrite !decide_True by lia. rewrite lookup_drop. f_equal. lia.
Qed.
Lemma alen_take l (n : nat) : Z.of_nat n <= alen l -> alen (take n l) = Z.of_nat n.
Proof. unfold alen. intros. rewrite length_take. lia. Qed.
Lemma alen_drop l (n : nat) : Z.of_nat n <= alen l -> alen (drop n l) = alen l - Z.of_nat n.
Proof. unfold alen. intros. rewrite length_drop. lia. Qed.

Lemma amove_Some l dst src n :
  0 <= n -> 0 <= dst -> 0 <= src -> dst + n <= alen l -> src + n <= alen l ->
  amove l dst src n =
    Some (take (Z.to_nat dst) l ++ take (Z.to_nat n) (drop (Z.to_nat src) l)
          ++ drop (Z.to_nat (dst + n)) l).
Proof. intros. unfold amove. by rewrite decide_True. Qed.
Lemma alen_splice l m (d n : nat) :
  Z.of_nat (d + n) <= alen l -> alen m = Z.of_nat n ->
  alen (take d l ++ m ++ drop (d + n) l) = alen l.
Proof.
  unfold alen. intros. rewrite !length_app, length_take, length_drop. lia.
Qed.
Lemma aget_ext l m : alen l = alen m ->
  (forall i, 0 <= i < alen l -> aget l i = aget m i) -> l = m.
Proof.
  unfold alen. intros Hl H. apply list_eq. intros i.
  destruct (decide (i < length l)%nat).
  - rewrite <- !aget_nat. apply H. lia.
  - rewrite !lookup_ge_None_2 by lia. done.
Qed.
End arrays.

(** ** Loops

    [loop step fuel s] runs [while(true)] with the body [step]: [inl s'] goes round
    again, [inr r] leaves with [r], [None] is undefined.  [afor n i f s] is
    [for(;n>0;n--,i++) s = f(i,s)]. *)
Fixpoint loop {S R} (step : S -> option (S + R)) (fuel : nat) (s : S) : option R :=
  match fuel with
  | O => None
  | Datatypes.S fuel =>
      match step s with
      | Some (inl s') => loop step fuel s'
      | Some (inr r) => Some r
      | None => None
      end
  end.

Fixpoint afor {S} (f : Z -> S -> option S) (n : nat) (i : Z) (s : S) : option S :=
  match n with
  | O => Some s
  | Datatypes.S n => s' ← f i s; afor f n (i + 1) s'
  end.

(** Total correctness of a loop: an invariant, a measure that decreases, and
    fuel above the measure. *)
Lemma loop_total {S R} (step : S -> option (S + R)) (Inv : S -> Prop) (Q : R -> Prop)
    (m : S -> nat) :
  (forall s, Inv s ->
     (exists s', step s = Some (inl s') /\ Inv s' /\ (m s' < m s)%nat)
     \/ (exists r, step s = Some (inr r) /\ Q r)) ->
  forall fuel s, Inv s -> (m s < fuel)%nat -> exists r, loop step fuel s = Some r /\ Q r.
Proof.
  intros Hstep. induction fuel as [|fuel IH]; intros s Hs Hm; [lia|]. simpl.
  destruct (Hstep s Hs) as [(s' & -> & Hs' & Hlt) | (r & -> & Hr)].
  - apply IH; [done|lia].
  - eauto.
Qed.

(** More fuel never changes a result. *)
Lemma loop_fuel_mono {S R} (step : S -> option (S + R)) f1 f2 s r :
  loop step f1 s = Some r -> (f1 <= f2)%nat -> loop step f2 s = Some r.
Proof.
  revert f2 s. induction f1 as [|f1 IH]; intros [|f2] s; simpl; try done; [lia|].
  destruct (step s) as [[s'|?]|]; intros; try done. apply IH; [done|lia].
Qed.

Lemma loop_fuel_det {S R} (step : S -> option (S + R)) f1 f2 s r1 r2 :
  loop step f1 s = Some r1 -> loop step f2 s = Some r2 -> r1 = r2.
Proof.
  intros H1 H2. destruct (decide (f1 <= f2)%nat).
  - apply (loop_fuel_mono _ _ f2) in H1; [congruence|lia].
  - apply (loop_fuel_mono _ _ f1) in H2; [congruence|lia].
Qed.

(** Invariant rule of the counted loop. *)
Lemma afor_total {S} (f : Z -> S -> option S) (Inv : Z -> S -> Prop) (n : nat) i s :
  Inv i s ->
  (forall j s, i <= j < i + Z.of_nat n -> Inv j s -> exists s', f j s = Some s' /\ Inv (j + 1) s') ->
  exists s', afor f n i s = Some s' /\ Inv (i + Z.of_nat n) s'.
Proof.
  revert i s. induction n as [|n IH]; intros i s Hs Hf; simpl.
  - exists s. split; [done|]. by rewrite Z.add_0_r.
  - destruct (Hf i s) as (s' & -> & Hs'); [lia|done|]. simpl.
    destruct (IH (i + 1) s') as (s'' & -> & Hs''); [done| |].
    + intros j t Hj. apply Hf. lia.
    + exists s''. split; [done|]. replace (i + Z.of_nat (Datatypes.S n)) with (i + 1 + Z.of_nat n) by lia. done.
Qed.

(** ** Automation *)
Create HintDb hlarr.
Create Rewrite HintDb hlarr.
#[export] Hint Resolve alen_nonneg aset_Some : hlarr.
#[export] Hint Rewrite @alen_app @alen_cons @alen_nil @alen_insert @alen_replicate : hlarr.

(** Turn boolean tests of the code into arithmetic facts. *)
Ltac zbool :=
  repeat match goal with
  | H : (_ && _)%bool = true |- _ => apply andb_true_iff in H as [? ?]
  | H : (_ && _)%bool = false |- _ => apply andb_false_iff in H
  | H : (_ || _)%bool = false |- _ => apply orb_false_iff in H as [? ?]
  | H : (_ || _)%bool = true |- _ => apply orb_true_iff in H
  | H : negb _ = true |- _ => apply negb_true_iff in H
  | H : negb _ = false |- _ => apply negb_false_iff in H
  | H : (_ <? _) = true |- _ => apply Z.ltb_lt in H
  | H : (_ <? _) = false |- _ => apply Z.ltb_ge in H
  | H : (_ <=? _) = true |- _ => apply Z.leb_le in H
  | H : (_ <=? _) = false |- _ => apply Z.leb_gt in H
  | H : (_ >? _) = _ |- _ => rewrite Z.gtb_ltb in H
  | H : (_ >=? _) = _ |- _ => rewrite Z.geb_leb in H
  | H : (_ =? _) = true |- _ => apply Z.eqb_eq in H
  | H : (_ =? _) = false |- _ => apply Z.eqb_neq in H
  end.

(** Case split on the next [if] on a boolean. *)
Ltac case_if_bool :=
  match goal with
  | |- context [if ?b then _ else _] =>
      lazymatch type of b with bool => let E := fresh "E" in destruct b eqn:E; zbool end
  | H : context [if ?b then _ else _] |- _ =>
      lazymatch type of b with bool => let E := fresh "E" in destruct b eqn:E; zbool end
  end.

(** Resolve every [decide] of an arithmetic proposition that [lia] settles. *)
Ltac dec_lia := repeat first [rewrite decide_True by lia | rewrite decide_False by lia].

(** Midpoints of binary searches. *)
Lemma mid_bounds a b : a < b -> a <= Z.shiftr (a + b) 1 < b.
Proof.
  intros. rewrite Z.shiftr_div_pow2 by lia. change (2 ^ 1) with 2.
  split; [apply Z.div_le_lower_bound | apply Z.div_lt_upper_bound]; lia.
Qed.
Lemma mid_same a : Z.shiftr (a + a) 1 = a.
Proof.
  rewrite Z.shiftr_div_pow2 by lia. change (2 ^ 1) with 2.
  replace (a + a) with (a * 2) by lia. by apply Z.div_mul.
Qed.

Section moves.
Context {A : Type}.
Implicit Types l m : list A.

Lemma aget_splice l m (d n : nat) i :
  Z.of_nat (d + n) <= alen l -> alen m = Z.of_nat n ->
  aget (take d l ++ m ++ drop (d + n) l) i =
    if decide (Z.of_nat d <= i < Z.of_nat (d + n)) then aget m (i - Z.of_nat d) else aget l i.
Proof.
  intros Hl Hm. assert (alen (take d l) = Z.of_nat d) as Ht by (apply alen_take; lia).
  destruct (decide (i < Z.of_nat d)).
  - rewrite decide_False by lia. rewrite aget_app_l by lia. apply aget_take. lia.
  - rewrite aget_app_r by lia. rewrite Ht. case_decide.
    + rewrite aget_app_l by lia. done.
    + rewrite aget_app_r by lia. rewrite aget_drop by lia. f_equal. lia.
Qed.

Lemma amove_inv l dst src n l' : amove l dst src n = Some l' ->
  0 <= n /\ 0 <= dst /\ 0 <= src /\ dst + n <= alen l /\ src + n <= alen l /\
  alen l' = alen l /\
  forall i, aget l' i = if decide (dst <= i < dst + n) then aget l (src + (i - dst)) else aget l i.
Proof.
  unfold amove. case_decide as Hc; [|done]. intros [= <-].
  destruct Hc as (?&?&?&?&?).
  replace (Z.to_nat (dst + n)) with (Z.to_nat dst + Z.to_nat n)%nat by lia.
  assert (alen (take (Z.to_nat n) (drop (Z.to_nat src) l)) = Z.of_nat (Z.to_nat n)).
  { apply alen_take. rewrite alen_drop; lia. }
  repeat split; try lia.
  - apply alen_splice; lia.
  - intros i. rewrite aget_splice by lia. rewrite !Nat2Z.inj_add, !Z2Nat.id by lia.
    case_decide; [|done].
    rewrite aget_take, aget_drop by lia. f_equal. lia.
Qed.

Lemma amove_total l dst src n :
  0 <= n -> 0 <= dst -> 0 <= src -> dst + n <= alen l -> src + n <= alen l ->
  exists l', amove l dst src n = Some l' /\ alen l' = alen l /\
    forall i, aget l' i = if decide (dst <= i < dst + n) then aget l (src + (i - dst)) else aget l i.
Proof.
  intros. destruct (amove l dst src n) eqn:E.
  - eapply amove_inv in E as (?&?&?&?&?&?&?). eauto.
  - unfold amove in E. rewrite decide_True in E by lia. done.
Qed.

Lemma acopy_total l dst m src n :
  0 <= n -> 0 <= dst -> 0 <= src -> dst + n <= alen l -> src + n <= alen m ->
  exists l', acopy l dst m src n = Some l' /\ alen l' = alen l /\
    forall i, aget l' i = if decide (dst <= i < dst + n) then aget m (src + (i - dst)) else aget l i.
Proof.
  intros. unfold acopy. rewrite decide_True by lia. eexists. split; [done|].
  replace (Z.to_nat (dst + n)) with (Z.to_nat dst + Z.to_nat n)%nat by lia.
  assert (alen (take (Z.to_nat n) (drop (Z.to_nat src) m)) = Z.of_nat (Z.to_nat n)).
  { apply alen_take. rewrite alen_drop; lia. }
  split.
  - apply alen_splice; lia.
  - intros i. rewrite aget_splice by lia. rewrite !Nat2Z.inj_add, !Z2Nat.id by lia.
    case_decide; [|done].
    rewrite aget_take, aget_drop by lia. f_equal. lia.
Qed.

Lemma aslice_Some l src n : 0 <= n -> 0 <= src -> src + n <= alen l ->
  aslice l src n = Some (take (Z.to_nat n) (drop (Z.to_nat src) l)).
Proof. intros. unfold aslice. by rewrite decide_True. Qed.

Lemma aset_total l i x : 0 <= i < alen l ->
  exists l', aset l i x = Some l' /\ alen l' = alen l /\
    forall j, aget l' j = if decide (i = j) then Some x else aget l j.
Proof.
  intros. rewrite aset_Some by done. eexists. split; [done|]. split; [apply alen_insert|].
  intros j. case_decide as Hij; [subst; by apply aget_insert_eq|]. apply aget_insert_ne; lia.
Qed.
End moves.

(** ** Binary search

    The loop every sorted table of the runtime uses ([data_struct.c],
    [hl_lookup_find]): [inr mid] when the key is found, [inl pos] with the insertion
    point otherwise.  [get i] reads the key at index [i]. *)
Section search.
Context (get : Z -> option Z) (k : Z).

Definition search_step (s : Z * Z) : option (Z * Z + (Z + Z)) :=
  let '(min, max) := s in
  if min <? max then
    sum ← int_add min max;
    let mid := Z.shiftr sum 1 in
    k2 ← get mid;
    if k >? k2 then Some (inl (mid + 1, max))
    else if k2 >? k then Some (inl (min, mid))
    else Some (inr (inr mid))
  else
    sum ← int_add min max;
    Some (inr (inl (Z.shiftr sum 1))).

Definition search (n : Z) : option (Z + Z) :=
  loop search_step (S (Z.to_nat n)) (0, n).

(** The keys of [0..n) are all readable and strictly increasing. *)
Definition increasing (n : Z) : Prop :=
  (forall i, 0 <= i < n -> exists a, get i = Some a) /\
  (forall i j a b, 0 <= i -> i < j -> j < n -> get i = Some a -> get j = Some b -> a < b).

Definition search_result (n : Z) (r : Z + Z) : Prop :=
  match r with
  | inr mid => 0 <= mid < n /\ get mid = Some k
  | inl pos => 0 <= pos <= n /\
      (forall i a, 0 <= i < pos -> get i = Some a -> a < k) /\
      (forall i a, pos <= i < n -> get i = Some a -> k < a)
  end.

Lemma search_total n : 0 <= n -> 2 * n <= INT_MAX -> increasing n ->
  exists r, search n = Some r /\ search_result n r.
Proof.
  intros Hn Hmax [Htot Hinc]. unfold search.
  apply (loop_total search_step
    (fun '(min, max) => 0 <= min <= max /\ max <= n /\
       (forall i a, 0 <= i < min -> get i = Some a -> a < k) /\
       (forall i a, max <= i < n -> get i = Some a -> k < a))
    _ (fun '(min, max) => Z.to_nat (max - min))).
  2: { repeat split; try lia. } 2: lia.
  intros [min max] (Hmm & Hmn & Hlo & Hhi). unfold search_step, int_add.
  rewrite int_of_Some by (unfold in_i32, INT_MIN in *; lia). simpl.
  destruct (min <? max) eqn:E; zbool.
  - destruct (mid_bounds min max E) as [Hm1 Hm2].
    set (mid := Z.shiftr (min + max) 1) in *.
    destruct (Htot mid) as [k2 Hk2]; [lia|]. rewrite Hk2. simpl.
    destruct (k >? k2) eqn:E1; zbool; [left|].
    { exists (mid + 1, max). split; [done|]. split; [|lia].
      repeat split; try lia; [|done]. intros i a Hi Ha.
      destruct (decide (i = mid)); [simplify_eq; lia|].
      assert (a < k2) by (eapply (Hinc i mid); eauto; lia). lia. }
    destruct (k2 >? k) eqn:E2; zbool; [left|right].
    + exists (min, mid). split; [done|]. split; [|lia].
      repeat split; try lia; [done|]. intros i a Hi Ha.
      destruct (decide (i = mid)); [simplify_eq; lia|].
      destruct (decide (i < max)); [|apply (Hhi i); [lia|done]].
      assert (k2 < a) by (eapply (Hinc mid i); eauto; lia). lia.
    + eexists. split; [done|]. simpl. split; [lia|]. rewrite Hk2. f_equal. lia.
  - right. eexists. split; [done|]. replace max with min in * by lia.
    rewrite mid_same. simpl. repeat split; try lia; done.
Qed.
End search.

(** ** Bit fields

    An [or] of disjoint bit ranges is a sum, and a mask of ones is a remainder. *)
Lemma lor_add k a x : 0 <= k -> a mod 2 ^ k = 0 -> 0 <= x < 2 ^ k -> Z.lor a x = a + x.
Proof.
  intros Hk Ha Hx. rewrite <- Z.lxor_lor, <- Z.add_nocarry_lxor; [done|..];
    (apply Z.bits_inj'; intros i Hi; rewrite Z.land_spec, Z.bits_0; apply andb_false_iff;
     destruct (decide (i < k));
     [left; rewrite <- (Z.mod_pow2_bits_low a k i) by lia; by rewrite Ha, Z.bits_0
     |right; destruct (decide (x = 0)); [subst; apply Z.bits_0|];
      apply Z.bits_above_log2; [lia|]; apply Z.log2_lt_pow2; [lia|];
      assert (2 ^ k <= 2 ^ i) by (apply Z.pow_le_mono_r; lia); lia]).
Qed.

Lemma land_mask k x m : 0 <= k -> m = Z.ones k -> Z.land x m = x mod 2 ^ k.
Proof. intros ? ->. by apply Z.land_ones. Qed.

(** Testing a bit. *)
Lemma bit_test x k : 0 <= k -> negb (Z.land x (Z.shiftl 1 k) =? 0) = Z.testbit x k.
Proof.
  intros Hk. rewrite Z.shiftl_1_l. destruct (Z.testbit x k) eqn:E.
  - apply negb_true_iff, Z.eqb_neq. intros H. apply (f_equal (fun z => Z.testbit z k)) in H. rewrite Z.land_spec, E, Z.pow2_bits_true, Z.bits_0 in H by done. done.
  - apply negb_false_iff, Z.eqb_eq. apply Z.bits_inj'. intros i Hi. rewrite Z.land_spec, Z.bits_0. destruct (decide (i = k)) as [->|]; [by rewrite E|]. by rewrite Z.pow2_bits_false, andb_false_r by lia.
Qed.

(** [z_bits] turns masks, shifts and disjoint unions with literal operands into
    linear arithmetic with remainders. *)
Lemma shiftr_div k x : 0 <= k -> Z.shiftr x k = x / 2 ^ k.
Proof. intros. by apply Z.shiftr_div_pow2. Qed.
Lemma shiftl_mul k x : 0 <= k -> Z.shiftl x k = x * 2 ^ k.
Proof. intros. by apply Z.shiftl_mul_pow2. Qed.

Ltac norm_pow2 :=
  repeat match goal with
  | |- context [2 ^ ?k] => let v := eval vm_compute in (2 ^ k) in
      lazymatch v with Zpos _ => change (2 ^ k) with v end
  | H : context [2 ^ ?k] |- _ => let v := eval vm_compute in (2 ^ k) in
      lazymatch v with Zpos _ => change (2 ^ k) with v in H end
  end.
Ltac z_div := Z.to_euclidean_division_equations; lia.

(** A boolean property of a range of integers, by computation. *)
Lemma range_forall (P : Z -> bool) lo n :
  forallb P (seqZ lo n) = true -> forall x, lo <= x < lo + n -> P x = true.
Proof.
  intros H x Hx. rewrite forallb_forall in H. apply H. apply list_elem_of_In. apply elem_of_seqZ. done.
Qed.

(** [mapM] with a function that succeeds on every element. *)
Lemma mapM_total {A B} (f : A -> option B) (P : A -> B -> Prop) l :
  (forall x, x ∈ l -> exists y, f x = Some y /\ P x y) -> exists k, mapM f l = Some k /\ Forall2 P l k.
Proof.
  induction l as [|x l IH]; intros Hl; [exists []; by split|].
  destruct (Hl x) as (y & Hf & HP); [left|]. destruct IH as (k & Hk & HF).
  { intros z Hz. apply Hl. by right. }
  exists (y :: k). split; [|by constructor]. simpl. by rewrite Hf, Hk.
Qed.
Lemma Forall2_alen {A B} (P : A -> B -> Prop) l k : Forall2 P l k -> alen k = alen l.
Proof. intros H. unfold alen. by rewrite (Forall2_length _ _ _ H). Qed.
Lemma Forall2_aget {A B} (P : A -> B -> Prop) l k i x :
  Forall2 P l k -> aget l i = Some x -> exists y, aget k i = Some y /\ P x y.
Proof.
  intros HF Hx. pose proof (aget_Some_range _ _ _ Hx). rewrite aget_lookup in Hx by lia.
  destruct (Forall2_lookup_l _ _ _ _ _ HF Hx) as (y & Hy & HP). exists y. split; [|done]. by rewrite aget_lookup by lia.
Qed.

(** ** Arrays seen as a prefix, a cell and a suffix *)
Section cells.
Context {A : Type}.
Implicit Types l : list A.
Lemma aget_mid l1 x l2 i : i = alen l1 -> aget (l1 ++ x :: l2) i = Some x.
Proof. intros ->. rewrite aget_app_r by lia. by rewrite Z.sub_diag. Qed.
Lemma aset_mid l1 x l2 i y : i = alen l1 -> aset (l1 ++ x :: l2) i y = Some (l1 ++ y :: l2).
Proof.
  intros ->. unfold aset. pose proof (alen_nonneg l1). pose proof (alen_nonneg l2). rewrite decide_True by (rewrite alen_app, alen_cons; lia).
  unfold alen. rewrite Nat2Z.id. rewrite <- (Nat.add_0_r (length l1)). by rewrite insert_app_r.
Qed.
Lemma amove_delete l1 x l2 l3 i n : i = alen l1 -> n = alen l2 ->
  exists t, amove (l1 ++ x :: l2 ++ l3) i (i + 1) n = Some (l1 ++ l2 ++ t) /\ alen t = alen l3 + 1.
Proof.
  intros -> ->. pose proof (alen_nonneg l1). pose proof (alen_nonneg l2). pose proof (alen_nonneg l3).
  rewrite amove_Some by (rewrite ?alen_app, ?alen_cons, ?alen_app; lia).
  exists (drop (Z.to_nat (alen l1 + alen l2)) (l1 ++ x :: l2 ++ l3)). split.
  - do 2 f_equal; [apply take_app_length'; unfold alen; lia|]. f_equal.
    rewrite drop_app_ge by (unfold alen; lia). replace (Z.to_nat (alen l1 + 1) - length l1)%nat with 1%nat by (unfold alen; lia).
    cbn [drop]. apply take_app_length'. unfold alen. lia.
  - unfold alen in *. rewrite length_drop, length_app. cbn [length]. rewrite length_app. lia.
Qed.
Lemma amove_insert l1 l2 z l3 i n : i = alen l1 -> n = alen l2 ->
  exists w, amove (l1 ++ l2 ++ z :: l3) (i + 1) i n = Some (l1 ++ w :: l2 ++ l3).
Proof.
  intros -> ->. pose proof (alen_nonneg l1). pose proof (alen_nonneg l2). pose proof (alen_nonneg l3).
  rewrite amove_Some by (rewrite ?alen_app, ?alen_cons; lia).
  assert (exists w r, l2 ++ z :: l3 = w :: r) as (w & r & Hw) by (destruct l2; cbn; eauto). exists w. rewrite (app_assoc l1 l2), (drop_app_ge (l1 ++ l2) (z :: l3) (Z.to_nat (alen l1 + 1 + alen l2))) by (rewrite length_app; unfold alen; lia).
  replace (Z.to_nat (alen l1 + 1 + alen l2) - length (l1 ++ l2))%nat with 1%nat by (rewrite length_app; unfold alen; lia). cbn [drop].
  rewrite <- app_assoc. rewrite (drop_app_length' l1) by (unfold alen; lia). rewrite (take_app_length' l2) by (unfold alen; lia).
  rewrite Hw.
  replace (Z.to_nat (alen l1 + 1)) with (length l1 + 1)%nat by (unfold alen; lia). rewrite take_app_add. cbn [take]. rewrite <- app_assoc. done.
Qed.
End cells.
Lemma last_snoc_case {A} (l : list A) : l = [] \/ exists l' x, l = l' ++ [x].
Proof. destruct l as [|x l] using rev_ind; eauto. Qed.
(** Lengths of concatenations. *)
Ltac alens := repeat first [progress rewrite ?alen_app, ?alen_cons, ?alen_nil in *]; try lia.

(** ** More on lists and their accesses *)
Lemma aget_nil {A} i : aget (@nil A) i = None.
Proof. apply aget_None. change (alen (@nil A)) with 0. lia. Qed.
Lemma Forall_aget {A} (P : A -> Prop) l i x : Forall P l -> aget l i = Some x -> P x.
Proof.
  intros Hl Hi. pose proof (aget_Some_range _ _ _ Hi). rewrite aget_lookup in Hi by lia.
  by eapply Forall_lookup_1.
Qed.
Lemma alen_fmap {A B} (f : A -> B) l : alen (f <$> l) = alen l.
Proof. unfold alen. by rewrite length_fmap. Qed.
Lemma aget_fmap {A B} (f : A -> B) l i : aget (f <$> l) i = f <$> aget l i.
Proof. destruct (decide (0 <= i)); [rewrite !aget_lookup by done; apply list_lookup_fmap|]. rewrite !(proj2 (aget_None _ _)) by lia. done. Qed.
Lemma elem_of_aget {A} (x : A) l : x ∈ l -> exists i, aget l i = Some x.
Proof. intros Hx. apply list_elem_of_lookup_1 in Hx as [i Ei]. exists (Z.of_nat i). by rewrite aget_nat. Qed.
Lemma NoDup_aget {A} (l : list A) : (forall i j x, aget l i = Some x -> aget l j = Some x -> i = j) -> NoDup l.
Proof. intros H. apply NoDup_alt. intros i j x Ei Ej. rewrite <- aget_nat in Ei, Ej. specialize (H _ _ _ Ei Ej). lia. Qed.
Lemma existsb_false {A} (q : A -> bool) (s : list A) : existsb q s = false <-> forall x, x ∈ s -> q x = false.
Proof.
  split.
  - intros E x Hx. destruct (q x) eqn:Ep; [|done]. rewrite (proj2 (existsb_exists q s)) in E; [discriminate|]. exists x. by rewrite <- list_elem_of_In.
  - intros H. destruct (existsb q s) eqn:E; [|done]. apply existsb_exists in E as (x & Hx & Ex). rewrite (H x) in Ex by (by apply list_elem_of_In). done.
Qed.
Lemma int_of_inv z y : int_of z = Some y -> y = z.
Proof. unfold int_of. destruct (decide _); [congruence|discriminate]. Qed.
