(* ===== verification/DataStruct.v ===== *)
(** * Growable arrays, sorted sets and sorted maps ([src/data_struct.c])

    [data_struct.c] is a template included once per container.  Three of its
    configurations are modelled: [Unsorted] (neither S_SORTED nor S_MAP: [ptr_set],
    [int_arr], [byte_arr]), [SortedSet] (S_SORTED: [int_set]) and [SortedMap]
    (S_SORTED and S_MAP: [int_map], [ptr_map], [value_map]).  Theorems: the sorted
    containers implement finite sets and finite maps of integers, every operation
    keeps the representation invariant, and every loop terminates. *)
From S2P Require Import Prelude.

(** Capacity of a fresh array after growth: [max ? max << 1 : STRUCT_DEF_SIZE]. *)
Definition STRUCT_DEF_SIZE : Z := 2.
Definition grown_size (max : Z) : option Z :=
  if max =? 0 then Some STRUCT_DEF_SIZE else int_of (Z.shiftl max 1).

(** A [malloc]ed block of [n] cells: its contents are unspecified ([junk]); then the
    first [cur] cells are copied. *)
Definition regrow {A} (junk : A) (old : list A) (cur n : Z) : option (list A) :=
  acopy (replicate (Z.to_nat n) junk) 0 old 0 cur.

Lemma grown_size_spec max : 0 <= max -> 2 * max <= INT_MAX ->
  exists n, grown_size max = Some n /\ max < n /\ n <= 2 * max + 2.
Proof.
  intros. unfold grown_size, STRUCT_DEF_SIZE. case_if_bool.
  - exists 2. split; [done|lia].
  - rewrite Z.shiftl_mul_pow2 by lia. change (2 ^ 1) with 2.
    rewrite int_of_Some by (unfold in_i32, INT_MIN in *; lia).
    eexists. split; [done|lia].
Qed.

Lemma regrow_spec {A} (junk : A) old cur n :
  0 <= cur <= n -> cur <= alen old ->
  exists l, regrow junk old cur n = Some l /\ alen l = n /\
    forall i, i < cur -> aget l i = aget old i.
Proof.
  intros. unfold regrow.
  destruct (acopy_total (replicate (Z.to_nat n) junk) 0 old 0 cur) as (l & -> & Hl & Hget);
    autorewrite with hlarr; try lia.
  exists l. split; [done|]. autorewrite with hlarr in Hl. split; [lia|].
  intros i Hi. rewrite Hget. case_decide.
  - f_equal. lia.
  - assert (i < 0) by lia. unfold aget. by rewrite !decide_False by lia.
Qed.

(** Opening a gap at [pos] and writing there: the shared tail of the sorted inserts. *)
Definition insert_at {A} (l : list A) (pos cur : Z) (x : A) : option (list A) :=
  l1 ← amove l (pos + 1) pos (cur - pos);
  aset l1 pos x.
(** Closing the gap at [pos]: [memmove(p + pos, p + pos + 1, cur - pos - 1)]. *)
Definition remove_at {A} (l : list A) (pos cur : Z) : option (list A) :=
  amove l pos (pos + 1) (cur - pos - 1).

Lemma insert_at_spec {A} (l : list A) pos cur x :
  0 <= pos <= cur -> cur < alen l ->
  exists l', insert_at l pos cur x = Some l' /\ alen l' = alen l /\
    forall i, 0 <= i <= cur ->
      aget l' i = if decide (i = pos) then Some x
                  else if decide (i < pos) then aget l i else aget l (i - 1).
Proof.
  intros. unfold insert_at.
  destruct (amove_total l (pos + 1) pos (cur - pos)) as (l1 & -> & Hl1 & Hg1); try lia. simpl.
  destruct (aset_total l1 pos x) as (l2 & -> & Hl2 & Hg2); [lia|].
  exists l2. split; [done|]. split; [lia|]. intros i Hi. rewrite Hg2, Hg1.
  repeat case_decide; try lia; try done. f_equal. lia.
Qed.

Lemma remove_at_spec {A} (l : list A) pos cur :
  0 <= pos < cur -> cur <= alen l ->
  exists l', remove_at l pos cur = Some l' /\ alen l' = alen l /\
    forall i, 0 <= i < cur - 1 ->
      aget l' i = if decide (i < pos) then aget l i else aget l (i + 1).
Proof.
  intros. unfold remove_at.
  destruct (amove_total l pos (pos + 1) (cur - pos - 1)) as (l1 & -> & Hl1 & Hg1); try lia.
  exists l1. split; [done|]. split; [lia|]. intros i Hi. rewrite Hg1.
  repeat case_decide; try lia; try done. f_equal. lia.
Qed.

(** ** Unsorted arrays: [ptr_set], [int_arr], [byte_arr] *)
Module Unsorted.
Section unsorted.
Context {A : Type} `{!EqDecision A} (junk S_DEFVAL : A).

Record arr := Arr { cur : Z; max : Z; values : list A }.

Definition wf (st : arr) : Prop :=
  0 <= cur st <= max st /\ alen (values st) = max st.
(** The live cells. *)
Definition elems (st : arr) : list A := take (Z.to_nat (cur st)) (values st).

Definition check_size (st : arr) : option arr :=
  if cur st =? max st then
    n ← grown_size (max st);
    vals ← regrow junk (values st) (cur st) n;
    Some (Arr (cur st) n vals)
  else Some st.

Definition add_impl (st : arr) (k : A) : option arr :=
  st ← check_size st;
  vals ← aset (values st) (cur st) k;
  Some (Arr (cur st + 1) (max st) vals).

(** [for(i=0;i<cur;i++) if( keys[i] == k ) return i] *)
Definition scan (st : arr) (k : A) : option (option Z) :=
  loop (fun i => if i <? cur st then
                   x ← aget (values st) i;
                   if decide (x = k) then Some (inr (Some i)) else Some (inl (i + 1))
                 else Some (inr None))
       (S (Z.to_nat (cur st))) 0.

Definition exists_ (st : arr) (k : A) : option bool :=
  r ← scan st k; Some (bool_decide (is_Some r)).

Definition remove (st : arr) (k : A) : option (arr * bool) :=
  r ← scan st k;
  match r with
  | Some pos =>
      vals ← remove_at (values st) pos (cur st);
      Some (Arr (cur st - 1) (max st) vals, true)
  | None => Some (st, false)
  end.

Definition remove_range (st : arr) (pos count : Z) : option arr :=
  vals ← amove (values st) pos (pos + count) (cur st - pos - count);
  Some (Arr (cur st - count) (max st) vals).

(** [while( n < cur + count ) n <<= 1] *)
Definition reserve_size (n want : Z) : option Z :=
  loop (fun n => if n <? want then m ← int_of (Z.shiftl n 1); Some (inl m) else Some (inr n))
       (S (Z.to_nat want)) n.

(** Returns the index of the reserved cells. *)
Definition reserve_impl (st : arr) (count : Z) : option (arr * Z) :=
  want ← int_add (cur st) count;
  st ← (if want >? max st then
          n ← grown_size (max st);
          n ← reserve_size n want;
          vals ← regrow junk (values st) (cur st) n;
          Some (Arr (cur st) n vals)
        else Some st);
  Some (Arr (cur st + count) (max st) (values st), cur st).

Definition reset (st : arr) : arr := Arr 0 (max st) (values st).
Definition free (st : arr) : arr * list A := (Arr 0 0 [], values st).
Definition count (st : arr) : Z := cur st.
Definition get (st : arr) (idx : Z) : option A := aget (values st) idx.
Definition first (st : arr) : option A :=
  if cur st =? 0 then Some S_DEFVAL else aget (values st) 0.
Definition iter_next (st : arr) (idx : Z) : option (option A) :=
  if idx <? cur st then x ← aget (values st) idx; Some (Some x) else Some None.
Definition iter_prev (st : arr) (idx : Z) : option (option A) :=
  if idx >=? 0 then x ← aget (values st) idx; Some (Some x) else Some None.

Lemma check_size_spec st : wf st -> 2 * max st <= INT_MAX ->
  exists st', check_size st = Some st' /\ wf st' /\ cur st' = cur st /\ cur st' < max st' /\
    max st' <= 2 * max st + 2 /\ forall i, i < cur st -> aget (values st') i = aget (values st) i.
Proof.
  intros [Hc Hl] Hm. unfold check_size. case_if_bool.
  - destruct (grown_size_spec (max st)) as (n & -> & Hn1 & Hn2); [lia..|]. simpl.
    destruct (regrow_spec junk (values st) (cur st) n) as (l & -> & Hl' & Hg); [lia..|].
    eexists. split; [done|]. unfold wf. simpl. repeat split; try lia. done.
  - exists st. unfold wf. repeat split; try lia; done.
Qed.

Lemma elems_get st : wf st -> forall i, 0 <= i ->
  aget (elems st) i = if decide (i < cur st) then aget (values st) i else None.
Proof.
  intros [??] i Hi. unfold elems. case_decide.
  - rewrite aget_take by lia. done.
  - apply aget_None. rewrite alen_take; lia.
Qed.

Lemma add_impl_elems st k : wf st -> 2 * max st <= INT_MAX ->
  exists st', add_impl st k = Some st' /\ wf st' /\ elems st' = elems st ++ [k].
Proof.
  intros Hwf Hm. unfold add_impl.
  destruct (check_size_spec st Hwf Hm) as (st1 & -> & [Hc1 Hl1] & Hc & Hlt & _ & Hg). simpl.
  destruct (aset_total (values st1) (cur st1) k) as (l & -> & Hl & Hgl); [lia|].
  destruct Hwf as [Hwf1 Hwf2].
  eexists. split; [done|]. split; [unfold wf; simpl; lia|].
  assert (alen (elems st) = cur st) as He by (unfold elems; rewrite alen_take; lia).
  apply aget_ext.
  - unfold elems at 1; simpl. rewrite alen_take by lia. autorewrite with hlarr. lia.
  - intros i Hi. unfold elems at 1 in Hi; simpl in Hi. rewrite alen_take in Hi by lia.
    rewrite elems_get by (unfold wf; simpl; lia). simpl. rewrite decide_True by lia.
    rewrite Hgl. case_decide.
    + rewrite aget_app_r by lia. by replace (i - alen (elems st)) with 0 by lia.
    + rewrite aget_app_l by lia. rewrite elems_get by done || lia.
      rewrite decide_True by lia. apply Hg. lia.
Qed.

Lemma scan_spec st k : wf st ->
  exists r, scan st k = Some r /\
    match r with
    | Some i => 0 <= i < cur st /\ aget (values st) i = Some k /\
                forall j x, 0 <= j < i -> aget (values st) j = Some x -> x <> k
    | None => forall j x, 0 <= j < cur st -> aget (values st) j = Some x -> x <> k
    end.
Proof.
  intros [Hc Hl]. unfold scan.
  apply (loop_total _ (fun i => 0 <= i <= cur st /\
           forall j x, 0 <= j < i -> aget (values st) j = Some x -> x <> k)
           _ (fun i => Z.to_nat (cur st - i))); [|split; [lia|intros; lia]|lia].
  intros i [Hi Hno]. case_if_bool; zbool.
  - destruct (aget_is_Some (values st) i) as [x Hx]; [lia|]. rewrite Hx. simpl.
    case_decide as Hxk; [right|left].
    + subst x. eexists. split; [done|]. simpl. split; [lia|]. split; [done|]. intros; by eapply Hno.
    + eexists. split; [done|]. split; [|lia]. split; [lia|]. intros j y Hj Hy.
      destruct (decide (j = i)); [naive_solver|]. apply (Hno j); [lia|done].
  - right. eexists. split; [done|]. intros j x Hj. apply Hno. lia.
Qed.

Lemma remove_elems st k : wf st ->
  exists st' b, remove st k = Some (st', b) /\ wf st' /\
    match list_find (fun x => x = k) (elems st) with
    | Some (i, _) => b = true /\ elems st' = delete i (elems st)
    | None => b = false /\ st' = st
    end.
Proof.
  intros Hwf. pose proof Hwf as [Hc Hl]. unfold remove.
  destruct (scan_spec st k Hwf) as (r & -> & Hr). simpl.
  assert (forall j, (j < Z.to_nat (cur st))%nat -> elems st !! j = aget (values st) (Z.of_nat j)) as He.
  { intros j Hj. rewrite <- aget_nat, elems_get by done || lia. by rewrite decide_True by lia. }
  destruct r as [i|].
  - destruct Hr as (Hi & Hk & Hno).
    destruct (remove_at_spec (values st) i (cur st)) as (l & -> & Hll & Hgl); [lia..|].
    eexists _, _. split; [done|]. split; [unfold wf; simpl; lia|].
    assert (list_find (fun x => x = k) (elems st) = Some (Z.to_nat i, k)) as ->.
    { apply list_find_Some. split; [|split; [done|]].
      - rewrite He by lia. by rewrite Z2Nat.id by lia.
      - intros j y Hy Hj. eapply (Hno (Z.of_nat j)); [lia|]. rewrite <- He by lia. done. }
    split; [done|]. apply aget_ext.
    + unfold elems; simpl. rewrite alen_take by lia. unfold alen. rewrite length_delete by (apply lookup_lt_is_Some_2; rewrite length_take; unfold alen in *; lia).
      rewrite length_take. unfold alen in *. lia.
    + intros j Hj. unfold elems at 1 in Hj; simpl in Hj. rewrite alen_take in Hj by lia.
      rewrite elems_get by (unfold wf; simpl; lia). simpl. rewrite decide_True by lia.
      rewrite Hgl by lia. rewrite (aget_lookup (delete _ _)) by lia. case_decide.
      * rewrite list_lookup_delete_lt by lia. rewrite He by lia. f_equal. lia.
      * rewrite list_lookup_delete_ge by lia. rewrite He by lia. f_equal. lia.
  - eexists _, _. split; [done|]. split; [done|].
    destruct (list_find (fun x => x = k) (elems st)) as [[j y]|] eqn:E; [|done].
    apply list_find_Some in E as (Hy & -> & _). exfalso.
    assert (j < Z.to_nat (cur st))%nat as Hj.
    { apply lookup_lt_Some in Hy. unfold elems in Hy. rewrite length_take in Hy. lia. }
    rewrite He in Hy by done. apply (Hr (Z.of_nat j) k); [lia|done|done].
Qed.

Lemma reserve_size_spec n want : 0 < n -> 0 <= want -> 2 * want <= INT_MAX -> n <= INT_MAX ->
  exists m, reserve_size n want = Some m /\ n <= m /\ want <= m.
Proof.
  intros Hn Hw Hmax Hn'. unfold reserve_size.
  apply (loop_total _ (fun x => n <= x <= INT_MAX) _ (fun x => Z.to_nat (want - x))); [|lia|lia].
  intros x Hx. case_if_bool.
  - left. rewrite Z.shiftl_mul_pow2 by lia. change (2 ^ 1) with 2.
    rewrite int_of_Some by (unfold in_i32, INT_MIN in *; lia). simpl.
    eexists. split; [done|]. lia.
  - right. eexists. split; [done|]. lia.
Qed.

Lemma reserve_impl_spec st cnt : wf st -> 0 <= cnt -> 2 * (cur st + cnt) <= INT_MAX ->
  2 * max st <= INT_MAX ->
  exists st', reserve_impl st cnt = Some (st', cur st) /\ wf st' /\ cur st' = cur st + cnt /\
    take (Z.to_nat (cur st)) (elems st') = elems st.
Proof.
  intros Hwf Hcnt Hsum Hm. pose proof Hwf as [Hc Hl]. unfold reserve_impl, int_add.
  rewrite int_of_Some by (unfold in_i32, INT_MIN in *; lia). simpl.
  assert (exists st1, (if cur st + cnt >? max st then
          n ← grown_size (max st);
          n ← reserve_size n (cur st + cnt);
          vals ← regrow junk (values st) (cur st) n;
          Some (Arr (cur st) n vals)
        else Some st) = Some st1 /\ wf st1 /\ cur st1 = cur st /\ cur st + cnt <= max st1 /\
        forall i, i < cur st -> aget (values st1) i = aget (values st) i) as (st1 & -> & Hw1 & Hc1 & Hm1 & Hg1).
  { case_if_bool.
    - destruct (grown_size_spec (max st)) as (n & -> & Hn1 & Hn2); [lia..|]. simpl.
      destruct (reserve_size_spec n (cur st + cnt)) as (m & -> & Hm1 & Hm2); [lia..| |].
      { unfold INT_MAX in *. lia. }
      simpl. destruct (regrow_spec junk (values st) (cur st) m) as (l & -> & Hl' & Hg); [lia..|].
      eexists. split; [done|]. unfold wf; simpl. repeat split; try lia. done.
    - exists st. repeat split; try done; lia. }
  simpl. rewrite Hc1. eexists. split; [done|]. destruct Hw1.
  split; [unfold wf; simpl; lia|]. split; [done|].
  unfold elems. simpl. rewrite take_take. rewrite Nat.min_l by lia.
  apply aget_ext.
  - rewrite !alen_take; lia.
  - intros i Hi. rewrite alen_take in Hi by lia. rewrite !aget_take by lia. apply Hg1. lia.
Qed.
End unsorted.
Arguments arr : clear implicits.
End Unsorted.

(** ** Keys stay sorted across inserts and removals *)
Section increasing.
Context (get get' : Z -> option Z) (n pos : Z).

Lemma increasing_insert k :
  0 <= pos <= n -> increasing get n ->
  (forall i a, 0 <= i < pos -> get i = Some a -> a < k) ->
  (forall i a, pos <= i < n -> get i = Some a -> k < a) ->
  (forall i, 0 <= i <= n -> get' i = if decide (i = pos) then Some k
               else if decide (i < pos) then get i else get (i - 1)) ->
  increasing get' (n + 1).
Proof.
  intros Hp [Htot Hinc] Hlo Hhi Hg. split.
  - intros i Hi. rewrite Hg by lia. repeat case_decide; [eauto|apply Htot; lia..].
  - intros i j a b Hi Hij Hj Ha Hb. rewrite Hg in Ha, Hb by lia.
    destruct (decide (i = pos)), (decide (j = pos)); try lia.
    + simplify_eq. rewrite decide_False in Hb by lia. eapply (Hhi (j - 1)); [lia|done].
    + simplify_eq. rewrite decide_True in Ha by lia. eapply (Hlo i); [lia|done].
    + repeat case_decide; try lia;
        [eapply (Hinc i j)|eapply (Hinc i (j - 1))|eapply (Hinc (i - 1) (j - 1))]; eauto; lia.
Qed.

Lemma increasing_remove :
  0 <= pos < n -> increasing get n ->
  (forall i, 0 <= i < n - 1 -> get' i = if decide (i < pos) then get i else get (i + 1)) ->
  increasing get' (n - 1).
Proof.
  intros Hp [Htot Hinc] Hg. split.
  - intros i Hi. rewrite Hg by lia. case_decide; apply Htot; lia.
  - intros i j a b Hi Hij Hj Ha Hb. rewrite Hg in Ha, Hb by lia.
    repeat case_decide; try lia;
      [eapply (Hinc i j)|eapply (Hinc i (j + 1))|eapply (Hinc (i + 1) (j + 1))]; eauto; lia.
Qed.

Lemma increasing_inj i j a : increasing get n -> 0 <= i < n -> 0 <= j < n ->
  get i = Some a -> get j = Some a -> i = j.
Proof.
  intros [_ Hinc] Hi Hj Ha Hb. destruct (Z.lt_total i j) as [H|[H|H]]; [|done|].
  - assert (a < a) by (eapply (Hinc i j); eauto; lia). lia.
  - assert (a < a) by (eapply (Hinc j i); eauto; lia). lia.
Qed.
End increasing.

Lemma increasing_ext get get' n : (forall i, 0 <= i < n -> get' i = get i) ->
  increasing get n -> increasing get' n.
Proof.
  intros He [Htot Hinc]. split.
  - intros i Hi. rewrite He by lia. auto.
  - intros i j a b ??? Ha Hb. rewrite He in Ha, Hb by lia. eapply (Hinc i j); eauto.
Qed.

(** ** Sorted sets: [int_set] *)
Module SortedSet.
Section sorted_set.
Context (junk : Z).

Record set := Set_ { cur : Z; max : Z; values : list Z }.

Definition wf (st : set) : Prop :=
  0 <= cur st <= max st /\ alen (values st) = max st /\ increasing (aget (values st)) (cur st).
(** [st] holds the finite set [s]. *)
Definition repr (st : set) (s : gset Z) : Prop :=
  wf st /\ forall k, k ∈ s <-> exists i, 0 <= i < cur st /\ aget (values st) i = Some k.

Definition empty : set := Set_ 0 0 [].

Definition check_size (st : set) : option set :=
  if cur st =? max st then
    n ← grown_size (max st);
    vals ← regrow junk (values st) (cur st) n;
    Some (Set_ (cur st) n vals)
  else Some st.

Definition add_impl (st : set) (k : Z) : option (set * bool) :=
  r ← search (aget (values st)) k (cur st);
  match r with
  | inr _ => Some (st, false)
  | inl pos =>
      st ← check_size st;
      vals ← insert_at (values st) pos (cur st) k;
      Some (Set_ (cur st + 1) (max st) vals, true)
  end.

Definition exists_ (st : set) (k : Z) : option bool :=
  r ← search (aget (values st)) k (cur st);
  Some (match r with inr _ => true | inl _ => false end).

Definition remove (st : set) (k : Z) : option (set * bool) :=
  r ← search (aget (values st)) k (cur st);
  match r with
  | inr pos =>
      vals ← remove_at (values st) pos (cur st);
      Some (Set_ (cur st - 1) (max st) vals, true)
  | inl _ => Some (st, false)
  end.

Lemma set_check_size_spec st : wf st -> 2 * max st <= INT_MAX ->
  exists st', check_size st = Some st' /\ wf st' /\ cur st' = cur st /\ cur st' < max st' /\
    forall i, i < cur st -> aget (values st') i = aget (values st) i.
Proof.
  intros (Hc & Hl & Hi) Hm. unfold check_size. case_if_bool.
  - destruct (grown_size_spec (max st)) as (n & -> & Hn1 & Hn2); [lia..|]. simpl.
    destruct (regrow_spec junk (values st) (cur st) n) as (l & -> & Hl' & Hg); [lia..|].
    eexists. split; [done|]. unfold wf. simpl. repeat split; try lia; [| |done].
    + apply (increasing_ext (aget (values st))); [|done]. intros; apply Hg; lia.
    + intros i j a b ???. rewrite !Hg by lia. apply Hi; lia.
  - exists st. unfold wf. split; [done|]. repeat split; try done; try lia; apply Hi.
Qed.

Lemma set_empty_repr : repr empty ∅.
Proof.
  split; [|set_solver by lia]. unfold wf, empty; simpl. repeat split; try lia; intros; lia.
Qed.

Lemma mem_search st s k : repr st s -> 2 * max st <= INT_MAX ->
  exists r, search (aget (values st)) k (cur st) = Some r /\
    search_result (aget (values st)) k (cur st) r /\
    match r with inr _ => k ∈ s | inl _ => k ∉ s end.
Proof.
  intros [(Hc & Hl & Hi) Hs] Hm.
  destruct (search_total (aget (values st)) k (cur st)) as (r & Hr & Hres); [lia|lia|done|].
  exists r. split; [done|]. split; [done|]. destruct r as [pos|mid]; simpl in Hres.
  - rewrite Hs. intros (i & Hir & Hik). destruct Hres as (Hp & Hlo & Hhi).
    destruct (decide (i < pos)); [specialize (Hlo i k)|specialize (Hhi i k)]; naive_solver lia.
  - apply Hs. naive_solver.
Qed.

Lemma set_add_repr st s k : repr st s -> 2 * max st <= INT_MAX ->
  exists st', add_impl st k = Some (st', bool_decide (k ∉ s)) /\ repr st' ({[k]} ∪ s).
Proof.
  intros Hrep Hm. pose proof Hrep as [Hwf Hs]. unfold add_impl.
  destruct (mem_search st s k Hrep Hm) as (r & -> & Hres & Hmem). simpl.
  destruct r as [pos|mid].
  - destruct (set_check_size_spec st Hwf Hm) as (st1 & -> & Hwf1 & Hc & Hlt & Hg). simpl.
    destruct Hres as (Hp & Hlo & Hhi). pose proof Hwf1 as (Hc1 & Hl1 & Hi1).
    destruct (insert_at_spec (values st1) pos (cur st1) k) as (l & -> & Hl & Hgl); [lia..|]. simpl.
    rewrite bool_decide_true by done. eexists. split; [done|]. split.
    + unfold wf; simpl. repeat split; try lia;
        (eapply increasing_insert; [..|exact Hgl]; [lia|exact Hi1|..];
         intros i a Hir; rewrite Hg by lia; [apply Hlo|apply Hhi]; lia).
    + simpl. intros x. rewrite elem_of_union, elem_of_singleton, Hs. split.
      * intros [->|(i & Hi & Hx)].
        -- exists pos. split; [lia|]. rewrite Hgl by lia. by rewrite decide_True.
        -- destruct (decide (i < pos)).
           ++ exists i. split; [lia|]. rewrite Hgl by lia. rewrite decide_False, decide_True by lia.
              rewrite Hg by lia. done.
           ++ exists (i + 1). split; [lia|]. rewrite Hgl by lia. rewrite !decide_False by lia.
              replace (i + 1 - 1) with i by lia. rewrite Hg by lia. done.
      * intros (i & Hi & Hx). rewrite Hgl in Hx by lia. repeat case_decide; [naive_solver|right..].
        -- exists i. rewrite Hg in Hx by lia. split; [lia|done].
        -- exists (i - 1). rewrite Hg in Hx by lia. split; [lia|done].
  - rewrite bool_decide_false by naive_solver. eexists. split; [done|].
    replace ({[k]} ∪ s) with s by set_solver. done.
Qed.

Lemma set_remove_repr st s k : repr st s -> 2 * max st <= INT_MAX ->
  exists st', remove st k = Some (st', bool_decide (k ∈ s)) /\ repr st' (s ∖ {[k]}).
Proof.
  intros Hrep Hm. pose proof Hrep as [(Hc & Hl & Hi) Hs]. unfold remove.
  destruct (mem_search st s k Hrep Hm) as (r & -> & Hres & Hmem). simpl.
  destruct r as [pos|mid].
  - rewrite bool_decide_false by done. eexists. split; [done|].
    replace (s ∖ {[k]}) with s by set_solver. done.
  - rewrite bool_decide_true by done. destruct Hres as (Hr & Hk).
    destruct (remove_at_spec (values st) mid (cur st)) as (l & -> & Hll & Hg); [lia..|]. simpl.
    eexists. split; [done|]. split.
    + unfold wf; simpl. repeat split; try lia; (eapply increasing_remove; [| |exact Hg]; [lia|done]).
    + simpl. intros x. rewrite elem_of_difference, elem_of_singleton, Hs. split.
      * intros [(i & Hir & Hx) Hne]. assert (i <> mid) by naive_solver.
        destruct (decide (i < mid)).
        -- exists i. split; [lia|]. rewrite Hg by lia. by rewrite decide_True by lia.
        -- exists (i - 1). split; [lia|]. rewrite Hg by lia. rewrite decide_False by lia.
           by replace (i - 1 + 1) with i by lia.
      * intros (i & Hir & Hx). rewrite Hg in Hx by lia. case_decide; (split; [eexists; split; [|exact Hx]; lia|]);
          intros ->; [assert (i = mid)|assert (i + 1 = mid)]; try lia;
          eapply increasing_inj; eauto; lia.
Qed.

Lemma exists_repr st s k : repr st s -> 2 * max st <= INT_MAX ->
  exists_ st k = Some (bool_decide (k ∈ s)).
Proof.
  intros Hrep Hm. unfold exists_.
  destruct (mem_search st s k Hrep Hm) as (r & -> & _ & Hmem). simpl.
  destruct r; [by rewrite bool_decide_false|by rewrite bool_decide_true].
Qed.
End sorted_set.
End SortedSet.

(** ** Sorted maps: [int_map], [ptr_map], [value_map] *)
Module SortedMap.
Section sorted_map.
Context {V : Type} `{!EqDecision V} (junkk : Z) (junkv S_DEFVAL : V).

Record map := Map { cur : Z; max : Z; keys : list Z; values : list V }.

Definition wf (st : map) : Prop :=
  0 <= cur st <= max st /\ alen (keys st) = max st /\ alen (values st) = max st /\
  increasing (aget (keys st)) (cur st).
Definition repr (st : map) (m : gmap Z V) : Prop :=
  wf st /\ forall k v, m !! k = Some v <->
    exists i, 0 <= i < cur st /\ aget (keys st) i = Some k /\ aget (values st) i = Some v.

Definition empty : map := Map 0 0 [] [].

Definition check_size (st : map) : option map :=
  if cur st =? max st then
    n ← grown_size (max st);
    ks ← regrow junkk (keys st) (cur st) n;
    vs ← regrow junkv (values st) (cur st) n;
    Some (Map (cur st) n ks vs)
  else Some st.

(** The insertion shared by [add_impl] and [replace_impl]. *)
Definition insert_entry (st : map) (pos k : Z) (v : V) : option map :=
  st ← check_size st;
  ks ← insert_at (keys st) pos (cur st) k;
  vs ← insert_at (values st) pos (cur st) v;
  Some (Map (cur st + 1) (max st) ks vs).

Definition add_impl (st : map) (k : Z) (v : V) : option (map * bool) :=
  r ← search (aget (keys st)) k (cur st);
  match r with
  | inr _ => Some (st, false)
  | inl pos => st ← insert_entry st pos k v; Some (st, true)
  end.

Definition replace_impl (st : map) (k : Z) (v : V) : option (map * bool) :=
  r ← search (aget (keys st)) k (cur st);
  match r with
  | inr mid =>
      old ← aget (values st) mid;
      if decide (old = v) then Some (st, false)
      else vs ← aset (values st) mid v; Some (Map (cur st) (max st) (keys st) vs, true)
  | inl pos => st ← insert_entry st pos k v; Some (st, true)
  end.

Definition exists_ (st : map) (k : Z) : option bool :=
  r ← search (aget (keys st)) k (cur st);
  Some (match r with inr _ => true | inl _ => false end).

Definition find (st : map) (k : Z) : option V :=
  r ← search (aget (keys st)) k (cur st);
  match r with inr mid => aget (values st) mid | inl _ => Some S_DEFVAL end.

Definition remove (st : map) (k : Z) : option (map * bool) :=
  r ← search (aget (keys st)) k (cur st);
  match r with
  | inr pos =>
      ks ← remove_at (keys st) pos (cur st);
      vs ← remove_at (values st) pos (cur st);
      Some (Map (cur st - 1) (max st) ks vs, true)
  | inl _ => Some (st, false)
  end.

Definition reset (st : map) : map := Map 0 (max st) (keys st) (values st).
Definition free (st : map) : map * list V := (Map 0 0 [] [], values st).
Definition iter_next_key (st : map) (idx : Z) : option (option Z) :=
  if idx <? cur st then x ← aget (keys st) idx; Some (Some x) else Some None.

Lemma map_empty_repr : repr empty ∅.
Proof.
  split.
  - unfold wf, empty; simpl. repeat split; try lia; intros; lia.
  - intros k v. rewrite lookup_empty. split; [done|]. intros (i & ? & _). simpl in *. lia.
Qed.

Lemma map_check_size_spec st : wf st -> 2 * max st <= INT_MAX ->
  exists st', check_size st = Some st' /\ wf st' /\ cur st' = cur st /\ cur st' < max st' /\
    max st' <= 2 * max st + 2 /\
    (forall i, i < cur st -> aget (keys st') i = aget (keys st) i) /\
    (forall i, i < cur st -> aget (values st') i = aget (values st) i).
Proof.
  intros (Hc & Hl & Hl2 & Hi) Hm. unfold check_size. case_if_bool.
  - destruct (grown_size_spec (max st)) as (n & -> & Hn1 & Hn2); [lia..|]. simpl.
    destruct (regrow_spec junkk (keys st) (cur st) n) as (l & -> & Hl' & Hg); [lia..|]. simpl.
    destruct (regrow_spec junkv (values st) (cur st) n) as (l2 & -> & Hl2' & Hg2); [lia..|].
    eexists. split; [done|]. unfold wf. simpl. repeat split; try lia; try done.
    + apply (increasing_ext (aget (keys st))); [|done]. intros; apply Hg; lia.
    + intros i j a b ???. rewrite !Hg by lia. apply Hi; lia.
  - exists st. unfold wf. split; [done|]. repeat split; try done; try lia; apply Hi.
Qed.

Lemma map_search st m k : repr st m -> 2 * max st <= INT_MAX ->
  exists r, search (aget (keys st)) k (cur st) = Some r /\
    search_result (aget (keys st)) k (cur st) r /\
    match r with inr mid => m !! k = aget (values st) mid | inl _ => m !! k = None end.
Proof.
  intros [(Hc & Hl & Hl2 & Hi) Hm] Hmax.
  destruct (search_total (aget (keys st)) k (cur st)) as (r & Hr & Hres); [lia|lia|done|].
  exists r. split; [done|]. split; [done|]. destruct r as [pos|mid]; simpl in Hres.
  - apply eq_None_not_Some. intros [v (i & Hir & Hik & _)%Hm].
    destruct Hres as (Hp & Hlo & Hhi).
    destruct (decide (i < pos)); [specialize (Hlo i k)|specialize (Hhi i k)]; naive_solver lia.
  - destruct (aget_is_Some (values st) mid) as [v Hv]; [lia|]. rewrite Hv. apply Hm.
    exists mid. naive_solver.
Qed.

Lemma insert_entry_repr st m pos k v : repr st m -> 2 * max st <= INT_MAX ->
  search_result (aget (keys st)) k (cur st) (inl pos) -> m !! k = None ->
  exists st', insert_entry st pos k v = Some st' /\ repr st' (<[k := v]> m).
Proof.
  intros [Hwf Hm] Hmax (Hp & Hlo & Hhi) Hk. unfold insert_entry.
  destruct (map_check_size_spec st Hwf Hmax) as (st1 & -> & Hwf1 & Hc & Hlt & _ & Hg & Hgv). simpl.
  pose proof Hwf1 as (Hc1 & Hl1 & Hlv1 & Hi1).
  destruct (insert_at_spec (keys st1) pos (cur st1) k) as (ks & -> & Hl & Hgl); [lia..|]. simpl.
  destruct (insert_at_spec (values st1) pos (cur st1) v) as (vs & -> & Hlv & Hgvl); [lia..|]. simpl.
  eexists. split; [done|]. split.
  - unfold wf; simpl. repeat split; try lia;
      (eapply increasing_insert; [..|exact Hgl]; [lia|exact Hi1|..];
       intros i a Hir; rewrite Hg by lia; [apply Hlo|apply Hhi]; lia).
  - simpl. intros x y. rewrite lookup_insert. case_decide as Hxk.
    + subst x. split.
      * intros [= ->]. exists pos. rewrite Hgl, Hgvl by lia. rewrite !decide_True by done. split; [lia|done].
      * intros (i & Hir & Hik & Hiv). rewrite Hgl in Hik by lia. rewrite Hgvl in Hiv by lia.
        repeat case_decide; try congruence.
        -- rewrite Hg in Hik by lia. exfalso. assert (k < k) by (eapply (Hlo i); [lia|done]). lia.
        -- rewrite Hg in Hik by lia. exfalso. assert (k < k) by (eapply (Hhi (i - 1)); [lia|done]). lia.
    + rewrite Hm. split.
      * intros (i & Hir & Hik & Hiv). destruct (decide (i < pos)).
        -- exists i. split; [lia|]. rewrite Hgl, Hgvl by lia. dec_lia.
           rewrite Hg, Hgv by lia. auto.
        -- exists (i + 1). split; [lia|]. rewrite Hgl, Hgvl by lia. dec_lia.
           replace (i + 1 - 1) with i by lia. rewrite Hg, Hgv by lia. auto.
      * intros (i & Hir & Hik & Hiv). rewrite Hgl in Hik by lia. rewrite Hgvl in Hiv by lia.
        repeat case_decide; try congruence; rewrite Hg in Hik by lia; rewrite Hgv in Hiv by lia.
        -- exists i. split; [lia|auto].
        -- exists (i - 1). split; [lia|auto].
Qed.

Lemma map_add_repr st m k v : repr st m -> 2 * max st <= INT_MAX ->
  exists st', add_impl st k v = Some (st', bool_decide (m !! k = None)) /\
    repr st' (match m !! k with Some _ => m | None => <[k := v]> m end).
Proof.
  intros Hrep Hm. unfold add_impl.
  destruct (map_search st m k Hrep Hm) as (r & -> & Hres & Hmem). simpl. destruct r as [pos|mid].
  - rewrite Hmem. destruct (insert_entry_repr st m pos k v) as (st' & -> & Hr); [done..|]. simpl.
    eauto.
  - pose proof Hrep as [(Hc & Hl & Hl2 & Hi) _].
    destruct (aget_is_Some (values st) mid) as [w Hw]; [destruct Hres; lia|].
    rewrite Hmem, Hw. rewrite bool_decide_false by done. eauto.
Qed.

Lemma replace_impl_repr st m k v : repr st m -> 2 * max st <= INT_MAX ->
  exists st', replace_impl st k v = Some (st', bool_decide (m !! k <> Some v)) /\
    repr st' (<[k := v]> m).
Proof.
  intros Hrep Hm. unfold replace_impl.
  destruct (map_search st m k Hrep Hm) as (r & -> & Hres & Hmem). simpl. destruct r as [pos|mid].
  - destruct (insert_entry_repr st m pos k v) as (st' & -> & Hr); [done..|]. simpl.
    rewrite bool_decide_true by (by rewrite Hmem). eauto.
  - pose proof Hrep as [(Hc & Hl & Hl2 & Hi) Hmm]. destruct Hres as [Hr Hk].
    destruct (aget_is_Some (values st) mid) as [w Hw]; [lia|]. rewrite Hw. simpl.
    case_decide as Hwv.
    + subst w. rewrite bool_decide_false by (by rewrite Hmem, Hw; auto).
      eexists. split; [done|]. rewrite insert_id by congruence. done.
    + destruct (aset_total (values st) mid v) as (vs & -> & Hlvs & Hg); [lia|]. simpl.
      rewrite bool_decide_true by (rewrite Hmem, Hw; naive_solver).
      eexists. split; [done|]. split.
      { unfold wf; simpl. repeat split; try lia; apply Hi. }
      simpl. intros x y. rewrite lookup_insert. case_decide as Hxk.
      * subst x. split.
        -- intros [= ->]. exists mid. rewrite Hg, decide_True by done. done.
        -- intros (i & Hir & Hik & Hiv). assert (mid = i) as <- by (eapply increasing_inj; eauto).
           rewrite Hg, decide_True in Hiv by done. done.
      * rewrite Hmm. split; intros (i & Hir & Hik & Hiv); exists i; (split; [done|]; split; [done|]).
        -- rewrite Hg, decide_False; [done|]. intros <-. congruence.
        -- rewrite Hg, decide_False in Hiv; [done|]. intros <-. congruence.
Qed.

Lemma map_find_repr st m k : repr st m -> 2 * max st <= INT_MAX ->
  find st k = Some (default S_DEFVAL (m !! k)).
Proof.
  intros Hrep Hm. unfold find.
  destruct (map_search st m k Hrep Hm) as (r & -> & Hres & Hmem). simpl. destruct r as [pos|mid].
  - by rewrite Hmem.
  - rewrite Hmem. destruct Hrep as [(Hc & Hl & Hl2 & Hi) _]. destruct Hres as [Hr _].
    destruct (aget_is_Some (values st) mid) as [w ->]; [lia|done].
Qed.

Lemma map_remove_repr st m k : repr st m -> 2 * max st <= INT_MAX ->
  exists st', remove st k = Some (st', bool_decide (is_Some (m !! k))) /\ repr st' (delete k m).
Proof.
  intros Hrep Hm. unfold remove.
  destruct (map_search st m k Hrep Hm) as (r & -> & Hres & Hmem). simpl. destruct r as [pos|mid].
  - rewrite bool_decide_false by (rewrite Hmem; by intros [? ?]). eexists. split; [done|].
    by rewrite delete_id.
  - pose proof Hrep as [(Hc & Hl & Hl2 & Hi) Hmm]. destruct Hres as [Hr Hk].
    destruct (aget_is_Some (values st) mid) as [w Hw]; [lia|].
    rewrite bool_decide_true by (rewrite Hmem, Hw; eauto).
    destruct (remove_at_spec (keys st) mid (cur st)) as (ks & -> & Hlk & Hg); [lia..|]. simpl.
    destruct (remove_at_spec (values st) mid (cur st)) as (vs & -> & Hlv & Hgv); [lia..|]. simpl.
    eexists. split; [done|]. split.
    { unfold wf; simpl. repeat split; try lia; (eapply increasing_remove; [| |exact Hg]; [lia|done]). }
    simpl. intros x y. rewrite lookup_delete. case_decide as Hxk.
    + subst x. split; [done|]. intros (i & Hir & Hik & Hiv). rewrite Hg in Hik by lia.
      exfalso. case_decide; [assert (i = mid)|assert (i + 1 = mid)]; try lia;
        (eapply (increasing_inj (aget (keys st))); [done|lia|lia|done|done]).
    + rewrite Hmm. split.
      * intros (i & Hir & Hik & Hiv). assert (i <> mid) by naive_solver. destruct (decide (i < mid)).
        -- exists i. split; [lia|]. rewrite Hg, Hgv by lia. dec_lia. auto.
        -- exists (i - 1). split; [lia|]. rewrite Hg, Hgv by lia. dec_lia.
           replace (i - 1 + 1) with i by lia. auto.
      * intros (i & Hir & Hik & Hiv). rewrite Hg in Hik by lia. rewrite Hgv in Hiv by lia.
        case_decide; eexists; (split; [|split; [exact Hik|exact Hiv]]); lia.
Qed.
End sorted_map.
Arguments map : clear implicits.
End SortedMap.
