(* ===== verification/DataStructProps.v ===== *)
(** * The containers of [src/data_struct.c] implement their specifications

    Whole histories: a sequence of operations run on the C structure from empty gives
    the results the mathematical set, map or list gives. *)
From S2P Require Import Prelude DataStruct.

(** The bound that keeps every size computation inside [int]. *)
Definition max_history : Z := 2 ^ 27.

Module SetHistory.
Import SortedSet.
Inductive op := Add (k : Z) | Remove (k : Z) | Exists_ (k : Z).

Definition run_op (junk : Z) (st : set) (o : op) : option (set * bool) :=
  match o with
  | Add k => add_impl junk st k
  | Remove k => remove st k
  | Exists_ k => b ← exists_ st k; Some (st, b)
  end.
Fixpoint run (junk : Z) (st : set) (os : list op) : option (set * list bool) :=
  match os with
  | [] => Some (st, [])
  | o :: os => '(st, b) ← run_op junk st o; '(st, bs) ← run junk st os; Some (st, b :: bs)
  end.

Definition spec_op (s : gset Z) (o : op) : gset Z * bool :=
  match o with
  | Add k => ({[k]} ∪ s, bool_decide (k ∉ s))
  | Remove k => (s ∖ {[k]}, bool_decide (k ∈ s))
  | Exists_ k => (s, bool_decide (k ∈ s))
  end.
Fixpoint spec (s : gset Z) (os : list op) : gset Z * list bool :=
  match os with
  | [] => (s, [])
  | o :: os => let '(s, b) := spec_op s o in let '(s, bs) := spec s os in (s, b :: bs)
  end.

(** The capacity never exceeds twice the number of operations, plus two. *)
Lemma set_op_bound junk st o st' b n : wf st -> 0 <= n -> run_op junk st o = Some (st', b) ->
  cur st <= n -> max st <= 2 * n + 2 -> cur st' <= n + 1 /\ max st' <= 2 * (n + 1) + 2.
Proof.
  intros Hwf Hn H Hc Hm. destruct Hwf as (Hc1 & _). destruct o as [k|k|k]; simpl in H.
  - unfold add_impl in H. destruct (search _ _ _) as [[pos|mid]|]; simpl in H; [|simplify_eq; lia|done].
    unfold check_size in H. destruct (cur st =? max st) eqn:E; zbool; simpl in H.
    + unfold grown_size in H. destruct (max st =? 0) eqn:E0; zbool; simpl in H.
      * destruct (regrow _ _ _ _); simpl in H; [|done]. destruct (insert_at _ _ _ _); simpl in H; [|done].
        simplify_eq; simpl. unfold STRUCT_DEF_SIZE. lia.
      * unfold int_of in H. case_decide; simpl in H; [|done].
        destruct (regrow _ _ _ _); simpl in H; [|done]. destruct (insert_at _ _ _ _); simpl in H; [|done].
        simplify_eq; simpl. rewrite Z.shiftl_mul_pow2 by lia. change (2 ^ 1) with 2. lia.
    + destruct (insert_at _ _ _ _); simpl in H; [|done]. simplify_eq; simpl. lia.
  - unfold remove in H. destruct (search _ _ _) as [[pos|mid]|]; simpl in H; [simplify_eq; lia| |done].
    destruct (remove_at _ _ _); simpl in H; [|done]. simplify_eq; simpl. lia.
  - destruct (exists_ st k); simpl in H; [|done]. simplify_eq. lia.
Qed.

Lemma set_op_repr junk st s o : repr st s -> 2 * max st <= INT_MAX ->
  exists st', run_op junk st o = Some (st', (spec_op s o).2) /\ repr st' (spec_op s o).1.
Proof.
  intros Hr Hm. destruct o as [k|k|k]; simpl.
  - by apply set_add_repr.
  - by apply set_remove_repr.
  - rewrite (exists_repr st s k) by done. simpl. eauto.
Qed.

Lemma set_run_repr junk os : forall st s n, repr st s -> 0 <= n -> cur st <= n -> max st <= 2 * n + 2 ->
  n + alen os <= max_history ->
  exists st', run junk st os = Some (st', (spec s os).2) /\ repr st' (spec s os).1.
Proof.
  unfold max_history. norm_pow2.
  induction os as [|o os IH]; intros st s n Hr Hn Hc Hm Hlen; simpl; [eauto|].
  rewrite alen_cons in Hlen. pose proof (alen_nonneg os).
  destruct (set_op_repr junk st s o Hr) as (st1 & H1 & Hr1); [unfold INT_MAX; lia|]. rewrite H1. simpl.
  destruct (set_op_bound junk st o st1 _ n (proj1 Hr) Hn H1 Hc Hm).
  destruct (IH st1 (spec_op s o).1 (n + 1) Hr1) as (st2 & -> & Hr2); [lia..|].
  destruct (spec_op s o) as [s1 b]; simpl in *. destruct (spec s1 os) as [s2 bs]; simpl in *. eauto.
Qed.
End SetHistory.

Module MapHistory.
Import SortedMap.
Section map_history.
Context {V : Type} `{!EqDecision V} (junkk : Z) (junkv S_DEFVAL : V).

Inductive op := Add (k : Z) (v : V) | Replace (k : Z) (v : V) | Remove (k : Z) | Find (k : Z).
(** What an operation returns: a truth value, or the value found. *)
Definition answer : Type := bool + V.

Definition run_op (st : map V) (o : op) : option (map V * answer) :=
  match o with
  | Add k v => '(st, b) ← add_impl junkk junkv st k v; Some (st, inl b)
  | Replace k v => '(st, b) ← replace_impl junkk junkv st k v; Some (st, inl b)
  | Remove k => '(st, b) ← remove st k; Some (st, inl b)
  | Find k => v ← find S_DEFVAL st k; Some (st, inr v)
  end.
Fixpoint run (st : map V) (os : list op) : option (map V * list answer) :=
  match os with
  | [] => Some (st, [])
  | o :: os => '(st, b) ← run_op st o; '(st, bs) ← run st os; Some (st, b :: bs)
  end.

Definition spec_op (m : gmap Z V) (o : op) : gmap Z V * answer :=
  match o with
  | Add k v => (match m !! k with Some _ => m | None => <[k := v]> m end, inl (bool_decide (m !! k = None)))
  | Replace k v => (<[k := v]> m, inl (bool_decide (m !! k <> Some v)))
  | Remove k => (delete k m, inl (bool_decide (is_Some (m !! k))))
  | Find k => (m, inr (default S_DEFVAL (m !! k)))
  end.
Fixpoint spec (m : gmap Z V) (os : list op) : gmap Z V * list answer :=
  match os with
  | [] => (m, [])
  | o :: os => let '(m, b) := spec_op m o in let '(m, bs) := spec m os in (m, b :: bs)
  end.

Lemma insert_entry_bound st pos k v st' n : wf st -> 0 <= n -> insert_entry junkk junkv st pos k v = Some st' ->
  cur st <= n -> max st <= 2 * n + 2 -> cur st' <= n + 1 /\ max st' <= 2 * (n + 1) + 2.
Proof.
  intros (Hc1 & _) Hn H Hc Hm. unfold insert_entry in H. apply bind_Some in H as (st1 & Hsz & H).
  apply bind_Some in H as (ks & _ & H). apply bind_Some in H as (vs & _ & H). simplify_eq; simpl.
  unfold check_size in Hsz. destruct (cur st =? max st) eqn:E; zbool; [|simplify_eq; lia].
  apply bind_Some in Hsz as (n' & Hg & Hsz). apply bind_Some in Hsz as (? & _ & Hsz).
  apply bind_Some in Hsz as (? & _ & Hsz). simplify_eq; simpl.
  unfold grown_size, int_of in Hg. destruct (max st =? 0) eqn:E0; zbool; [|case_decide]; simplify_eq;
    unfold STRUCT_DEF_SIZE; rewrite ?Z.shiftl_mul_pow2 by lia; change (2 ^ 1) with 2; lia.
Qed.

Lemma map_op_bound st o st' b n : wf st -> 0 <= n -> run_op st o = Some (st', b) ->
  cur st <= n -> max st <= 2 * n + 2 -> cur st' <= n + 1 /\ max st' <= 2 * (n + 1) + 2.
Proof.
  intros Hwf Hn H Hc Hm. pose proof Hwf as (Hc1 & _). destruct o as [k v|k v|k|k]; simpl in H.
  - unfold add_impl in H. destruct (search _ _ _) as [[pos|mid]|]; simpl in H; [|simplify_eq; lia|done].
    destruct (insert_entry _ _ _ _ _ _) as [st1|] eqn:E; simpl in H; [|done]. simplify_eq. by eapply insert_entry_bound.
  - unfold replace_impl in H. destruct (search _ _ _) as [[pos|mid]|]; simpl in H; [| |done].
    + destruct (insert_entry _ _ _ _ _ _) as [st1|] eqn:E; simpl in H; [|done]. simplify_eq. by eapply insert_entry_bound.
    + destruct (aget _ mid); simpl in H; [|done]. case_decide; simpl in H; [simplify_eq; lia|].
      destruct (aset _ _ _); simpl in H; [|done]. simplify_eq; simpl. lia.
  - unfold remove in H. destruct (search _ _ _) as [[pos|mid]|]; simpl in H; [simplify_eq; lia| |done].
    apply bind_Some in H as (? & H1 & H). apply bind_Some in H1 as (? & _ & H1). apply bind_Some in H1 as (? & _ & H1).
    simplify_eq; simpl in *. simplify_eq; simpl. lia.
  - destruct (find _ st k); simpl in H; [|done]. simplify_eq. lia.
Qed.

Lemma map_op_repr st m o : repr st m -> 2 * max st <= INT_MAX ->
  exists st', run_op st o = Some (st', (spec_op m o).2) /\ repr st' (spec_op m o).1.
Proof.
  intros Hr Hm. destruct o as [k v|k v|k|k]; simpl.
  - destruct (map_add_repr junkk junkv st m k v Hr Hm) as (st' & -> & Hr'). simpl. eauto.
  - destruct (replace_impl_repr junkk junkv st m k v Hr Hm) as (st' & -> & Hr'). simpl. eauto.
  - destruct (map_remove_repr st m k Hr Hm) as (st' & -> & Hr'). simpl. eauto.
  - rewrite (map_find_repr S_DEFVAL st m k) by done. simpl. eauto.
Qed.

Lemma map_run_repr os : forall st m n, repr st m -> 0 <= n -> cur st <= n -> max st <= 2 * n + 2 ->
  n + alen os <= max_history ->
  exists st', run st os = Some (st', (spec m os).2) /\ repr st' (spec m os).1.
Proof.
  unfold max_history. norm_pow2.
  induction os as [|o os IH]; intros st m n Hr Hn Hc Hm Hlen; simpl; [eauto|].
  rewrite alen_cons in Hlen. pose proof (alen_nonneg os).
  destruct (map_op_repr st m o Hr) as (st1 & H1 & Hr1); [unfold INT_MAX; lia|]. rewrite H1. simpl.
  destruct (map_op_bound st o st1 _ n (proj1 Hr) Hn H1 Hc Hm).
  destruct (IH st1 (spec_op m o).1 (n + 1) Hr1) as (st2 & -> & Hr2); [lia..|].
  destruct (spec_op m o) as [m1 b]; simpl in *. destruct (spec m1 os) as [m2 bs]; simpl in *. eauto.
Qed.
End map_history.
Arguments op : clear implicits.
End MapHistory.

(** ** Properties *)
(** [int_set] implements finite sets.  Any history of up to 2^27 additions,
    removals and membership tests, run from the empty structure, completes without
    touching memory outside the arrays, returns exactly the booleans the mathematical
    set gives, and ends in a strictly sorted array of exactly the members. *)
Theorem int_set_implements_set junk os : alen os <= max_history ->
  exists st', SetHistory.run junk SortedSet.empty os = Some (st', (SetHistory.spec ∅ os).2) /\
    SortedSet.repr st' (SetHistory.spec ∅ os).1.
Proof.
  intros H. apply (SetHistory.set_run_repr junk os SortedSet.empty ∅ 0); [apply SortedSet.set_empty_repr|simpl; lia..].
Qed.

Lemma int_set_implements_set_witness :
  exists st', SetHistory.run 0 SortedSet.empty [SetHistory.Add 3; SetHistory.Add 1; SetHistory.Add 2; SetHistory.Remove 3] =
      Some (st', (SetHistory.spec ∅ [SetHistory.Add 3; SetHistory.Add 1; SetHistory.Add 2; SetHistory.Remove 3]).2) /\
    SortedSet.repr st' (SetHistory.spec ∅ [SetHistory.Add 3; SetHistory.Add 1; SetHistory.Add 2; SetHistory.Remove 3]).1.
Proof. apply int_set_implements_set. vm_compute. discriminate. Defined.

(** [int_map], [ptr_map] and [value_map] implement finite maps.  Any history of up
    to 2^27 insertions ([add_impl] keeps an existing binding, [replace_impl] overwrites
    it), removals and lookups returns exactly the answers of the mathematical map, and
    ends in parallel arrays that are exactly its sorted bindings. *)
Theorem int_map_implements_map {V} `{!EqDecision V} junkk (junkv dflt : V) os : alen os <= max_history ->
  exists st', MapHistory.run junkk junkv dflt SortedMap.empty os = Some (st', (MapHistory.spec dflt ∅ os).2) /\
    SortedMap.repr st' (MapHistory.spec dflt ∅ os).1.
Proof.
  intros H. apply (MapHistory.map_run_repr junkk junkv dflt os SortedMap.empty ∅ 0); [apply SortedMap.map_empty_repr|simpl; lia..].
Qed.

Lemma int_map_implements_map_witness :
  exists st', MapHistory.run 0 0 (-1) SortedMap.empty [MapHistory.Add 3 7; MapHistory.Replace 3 8; MapHistory.Find 3] =
      Some (st', (MapHistory.spec (-1) ∅ [MapHistory.Add 3 7; MapHistory.Replace 3 8; MapHistory.Find 3]).2) /\
    SortedMap.repr st' (MapHistory.spec (-1) ∅ [MapHistory.Add 3 7; MapHistory.Replace 3 8; MapHistory.Find 3]).1.
Proof. apply (int_map_implements_map 0 0 (-1)). vm_compute. discriminate. Defined.
