(* ===== verification/Opcodes.v ===== *)
(** * The instruction set ([src/opcodes.h])

    [hl_op] lists the opcodes in the order of the file, so that an opcode's number
    is its position; [hl_op_args] is the [OP(name,a,b,c)] row of each opcode and
    [hl_op_nargs] the macro [code.c] applies to that row. *)
From S2P Require Import Prelude.

Inductive hl_op : Set :=
  | OMov | OInt | OFloat | OBool | OBytes | OString | ONull | OAdd | OSub | OMul
  | OSDiv | OUDiv | OSMod | OUMod | OShl | OSShr | OUShr | OAnd | OOr | OXor | ONeg
  | ONot | OIncr | ODecr | OCall0 | OCall1 | OCall2 | OCall3 | OCall4 | OCallN
  | OCallMethod | OCallThis | OCallClosure | OStaticClosure | OInstanceClosure
  | OVirtualClosure | OGetGlobal | OSetGlobal | OField | OSetField | OGetThis
  | OSetThis | ODynGet | ODynSet | OJTrue | OJFalse | OJNull | OJNotNull | OJSLt
  | OJSGte | OJSGt | OJSLte | OJULt | OJUGte | OJNotLt | OJNotGte | OJEq | OJNotEq
  | OJAlways | OToDyn | OToSFloat | OToUFloat | OToInt | OSafeCast | OUnsafeCast
  | OToVirtual | OLabel | ORet | OThrow | ORethrow | OSwitch | ONullCheck | OTrap
  | OEndTrap | OGetI8 | OGetI16 | OGetMem | OGetArray | OSetI8 | OSetI16 | OSetMem
  | OSetArray | ONew | OArraySize | OType | OGetType | OGetTID | ORef | OUnref
  | OSetref | OMakeEnum | OEnumAlloc | OEnumIndex | OEnumField | OSetEnumField
  | OAssert | ORefData | ORefOffset | ONop | OPrefetch | OAsm | OCatch | OCleanupTrap
  | OEndCleanupTrap.

(** Every opcode, in declaration order. *)
Definition hl_ops : list hl_op :=
  [OMov; OInt; OFloat; OBool; OBytes; OString; ONull; OAdd; OSub; OMul; OSDiv; OUDiv;
   OSMod; OUMod; OShl; OSShr; OUShr; OAnd; OOr; OXor; ONeg; ONot; OIncr; ODecr;
   OCall0; OCall1; OCall2; OCall3; OCall4; OCallN; OCallMethod; OCallThis;
   OCallClosure; OStaticClosure; OInstanceClosure; OVirtualClosure; OGetGlobal;
   OSetGlobal; OField; OSetField; OGetThis; OSetThis; ODynGet; ODynSet; OJTrue;
   OJFalse; OJNull; OJNotNull; OJSLt; OJSGte; OJSGt; OJSLte; OJULt; OJUGte; OJNotLt;
   OJNotGte; OJEq; OJNotEq; OJAlways; OToDyn; OToSFloat; OToUFloat; OToInt; OSafeCast;
   OUnsafeCast; OToVirtual; OLabel; ORet; OThrow; ORethrow; OSwitch; ONullCheck;
   OTrap; OEndTrap; OGetI8; OGetI16; OGetMem; OGetArray; OSetI8; OSetI16; OSetMem;
   OSetArray; ONew; OArraySize; OType; OGetType; OGetTID; ORef; OUnref; OSetref;
   OMakeEnum; OEnumAlloc; OEnumIndex; OEnumField; OSetEnumField; OAssert; ORefData;
   ORefOffset; ONop; OPrefetch; OAsm; OCatch; OCleanupTrap; OEndCleanupTrap].

(** Argument kinds, with the values the macros give them. *)
Module OpKinds.
Definition X : Z := 0.
Definition R : Z := 1.
Definition R_NW : Z := 2.
Definition C : Z := 3.
Definition G : Z := 4.
Definition J : Z := 6.
Definition AR : Z := 5.
Definition VAR_ARGS : Z := -1.

(** The arguments of the [OP(..)] row of an opcode. *)
Definition hl_op_args (o : hl_op) : Z * Z * Z :=
match o with
| OMov => (R, R, X)
| OInt => (R, G, X)
| OFloat => (R, G, X)
| OBool => (R, C, X)
| OBytes => (R, G, X)
| OString => (R, G, X)
| ONull => (R, X, X)
| OAdd => (R, R, R)
| OSub => (R, R, R)
| OMul => (R, R, R)
| OSDiv => (R, R, R)
| OUDiv => (R, R, R)
| OSMod => (R, R, R)
| OUMod => (R, R, R)
| OShl => (R, R, R)
| OSShr => (R, R, R)
| OUShr => (R, R, R)
| OAnd => (R, R, R)
| OOr => (R, R, R)
| OXor => (R, R, R)
| ONeg => (R, R, X)
| ONot => (R, R, X)
| OIncr => (R, X, X)
| ODecr => (R, X, X)
| OCall0 => (R, C, X)
| OCall1 => (R, C, R)
| OCall2 => (R, AR, 4)
| OCall3 => (R, AR, 5)
| OCall4 => (R, AR, 6)
| OCallN => (R, AR, VAR_ARGS)
| OCallMethod => (R, AR, VAR_ARGS)
| OCallThis => (R, AR, VAR_ARGS)
| OCallClosure => (R, AR, VAR_ARGS)
| OStaticClosure => (R, G, X)
| OInstanceClosure => (R, C, R)
| OVirtualClosure => (R, R, G)
| OGetGlobal => (R, G, X)
| OSetGlobal => (G, R, X)
| OField => (R, R, G)
| OSetField => (R_NW, G, R)
| OGetThis => (R, G, X)
| OSetThis => (G, R, X)
| ODynGet => (R, R, C)
| ODynSet => (R_NW, C, R)
| OJTrue => (R_NW, J, X)
| OJFalse => (R_NW, J, X)
| OJNull => (R_NW, J, X)
| OJNotNull => (R_NW, J, X)
| OJSLt => (R_NW, R, J)
| OJSGte => (R_NW, R, J)
| OJSGt => (R_NW, R, J)
| OJSLte => (R_NW, R, J)
| OJULt => (R_NW, R, J)
| OJUGte => (R_NW, R, J)
| OJNotLt => (R_NW, R, J)
| OJNotGte => (R_NW, R, J)
| OJEq => (R_NW, R, J)
| OJNotEq => (R_NW, R, J)
| OJAlways => (J, X, X)
| OToDyn => (R, R, X)
| OToSFloat => (R, R, X)
| OToUFloat => (R, R, X)
| OToInt => (R, R, X)
| OSafeCast => (R, R, X)
| OUnsafeCast => (R, R, X)
| OToVirtual => (R, R, X)
| OLabel => (X, X, X)
| ORet => (R_NW, X, X)
| OThrow => (R_NW, X, X)
| ORethrow => (R_NW, X, X)
| OSwitch => (R_NW, AR, VAR_ARGS)
| ONullCheck => (R_NW, X, X)
| OTrap => (R_NW, J, X)
| OEndTrap => (R, X, X)
| OGetI8 => (R, R, R)
| OGetI16 => (R, R, R)
| OGetMem => (R, R, R)
| OGetArray => (R, R, R)
| OSetI8 => (R, R, R)
| OSetI16 => (R, R, R)
| OSetMem => (R, R, R)
| OSetArray => (R, R, R)
| ONew => (R, X, X)
| OArraySize => (R, R, X)
| OType => (R, G, X)
| OGetType => (R, R, X)
| OGetTID => (R, R, X)
| ORef => (R, R, X)
| OUnref => (R, R, X)
| OSetref => (R_NW, R, X)
| OMakeEnum => (R, AR, VAR_ARGS)
| OEnumAlloc => (R, R, X)
| OEnumIndex => (R, R, X)
| OEnumField => (R, AR, 4)
| OSetEnumField => (R_NW, R, C)
| OAssert => (X, X, X)
| ORefData => (R, R, X)
| ORefOffset => (R, R, C)
| ONop => (X, X, X)
| OPrefetch => (R_NW, C, C)
| OAsm => (C, C, C)
| OCatch => (J, X, X)
| OCleanupTrap => (R_NW, J, X)
| OEndCleanupTrap => (R, X, X)
end.

(** The macro that fills [hl_op_nargs] in [code.c]:
  [_b == AR ? _c : (_c == X ? (_b == X ? (_a == X ? 0 : 1) : 2) : 3)]. *)
Definition nargs_of (row : Z * Z * Z) : Z :=
let '(a, b, c) := row in
if b =? AR then c else if c =? X then (if b =? X then (if a =? X then 0 else 1) else 2) else 3.
End OpKinds.
Definition hl_op_nargs (o : hl_op) : Z := OpKinds.nargs_of (OpKinds.hl_op_args o).

(** [OLast], one more than the number of the last opcode. *)
Definition OLast : Z := alen hl_ops.

(** [(hl_op)n]: the opcode with number [n], if there is one. *)
Definition op_of_Z (n : Z) : option hl_op := aget hl_ops n.

(** [hl_op_names]: [#n] for each row. *)
Definition hl_op_names (o : hl_op) : string :=
  match o with
  | OMov => "OMov"
  | OInt => "OInt"
  | OFloat => "OFloat"
  | OBool => "OBool"
  | OBytes => "OBytes"
  | OString => "OString"
  | ONull => "ONull"
  | OAdd => "OAdd"
  | OSub => "OSub"
  | OMul => "OMul"
  | OSDiv => "OSDiv"
  | OUDiv => "OUDiv"
  | OSMod => "OSMod"
  | OUMod => "OUMod"
  | OShl => "OShl"
  | OSShr => "OSShr"
  | OUShr => "OUShr"
  | OAnd => "OAnd"
  | OOr => "OOr"
  | OXor => "OXor"
  | ONeg => "ONeg"
  | ONot => "ONot"
  | OIncr => "OIncr"
  | ODecr => "ODecr"
  | OCall0 => "OCall0"
  | OCall1 => "OCall1"
  | OCall2 => "OCall2"
  | OCall3 => "OCall3"
  | OCall4 => "OCall4"
  | OCallN => "OCallN"
  | OCallMethod => "OCallMethod"
  | OCallThis => "OCallThis"
  | OCallClosure => "OCallClosure"
  | OStaticClosure => "OStaticClosure"
  | OInstanceClosure => "OInstanceClosure"
  | OVirtualClosure => "OVirtualClosure"
  | OGetGlobal => "OGetGlobal"
  | OSetGlobal => "OSetGlobal"
  | OField => "OField"
  | OSetField => "OSetField"
  | OGetThis => "OGetThis"
  | OSetThis => "OSetThis"
  | ODynGet => "ODynGet"
  | ODynSet => "ODynSet"
  | OJTrue => "OJTrue"
  | OJFalse => "OJFalse"
  | OJNull => "OJNull"
  | OJNotNull => "OJNotNull"
  | OJSLt => "OJSLt"
  | OJSGte => "OJSGte"
  | OJSGt => "OJSGt"
  | OJSLte => "OJSLte"
  | OJULt => "OJULt"
  | OJUGte => "OJUGte"
  | OJNotLt => "OJNotLt"
  | OJNotGte => "OJNotGte"
  | OJEq => "OJEq"
  | OJNotEq => "OJNotEq"
  | OJAlways => "OJAlways"
  | OToDyn => "OToDyn"
  | OToSFloat => "OToSFloat"
  | OToUFloat => "OToUFloat"
  | OToInt => "OToInt"
  | OSafeCast => "OSafeCast"
  | OUnsafeCast => "OUnsafeCast"
  | OToVirtual => "OToVirtual"
  | OLabel => "OLabel"
  | ORet => "ORet"
  | OThrow => "OThrow"
  | ORethrow => "ORethrow"
  | OSwitch => "OSwitch"
  | ONullCheck => "ONullCheck"
  | OTrap => "OTrap"
  | OEndTrap => "OEndTrap"
  | OGetI8 => "OGetI8"
  | OGetI16 => "OGetI16"
  | OGetMem => "OGetMem"
  | OGetArray => "OGetArray"
  | OSetI8 => "OSetI8"
  | OSetI16 => "OSetI16"
  | OSetMem => "OSetMem"
  | OSetArray => "OSetArray"
  | ONew => "ONew"
  | OArraySize => "OArraySize"
  | OType => "OType"
  | OGetType => "OGetType"
  | OGetTID => "OGetTID"
  | ORef => "ORef"
  | OUnref => "OUnref"
  | OSetref => "OSetref"
  | OMakeEnum => "OMakeEnum"
  | OEnumAlloc => "OEnumAlloc"
  | OEnumIndex => "OEnumIndex"
  | OEnumField => "OEnumField"
  | OSetEnumField => "OSetEnumField"
  | OAssert => "OAssert"
  | ORefData => "ORefData"
  | ORefOffset => "ORefOffset"
  | ONop => "ONop"
  | OPrefetch => "OPrefetch"
  | OAsm => "OAsm"
  | OCatch => "OCatch"
  | OCleanupTrap => "OCleanupTrap"
  | OEndCleanupTrap => "OEndCleanupTrap"
  end.

(** [hl_op_name]: the printable name, total over all ints. *)
Definition hl_op_name (op : Z) : string :=
  if (op <? 0) || (op >=? OLast) then "UnknownOp"
  else match op_of_Z op with Some o => hl_op_names o | None => "UnknownOp" end.

(** The number of an opcode: its position in the enumeration. *)
Definition op_num (o : hl_op) : Z :=
  match o with
  | OMov => 0 | OInt => 1 | OFloat => 2 | OBool => 3 | OBytes => 4 | OString => 5
  | ONull => 6 | OAdd => 7 | OSub => 8 | OMul => 9 | OSDiv => 10 | OUDiv => 11
  | OSMod => 12 | OUMod => 13 | OShl => 14 | OSShr => 15 | OUShr => 16 | OAnd => 17
  | OOr => 18 | OXor => 19 | ONeg => 20 | ONot => 21 | OIncr => 22 | ODecr => 23
  | OCall0 => 24 | OCall1 => 25 | OCall2 => 26 | OCall3 => 27 | OCall4 => 28
  | OCallN => 29 | OCallMethod => 30 | OCallThis => 31 | OCallClosure => 32
  | OStaticClosure => 33 | OInstanceClosure => 34 | OVirtualClosure => 35
  | OGetGlobal => 36 | OSetGlobal => 37 | OField => 38 | OSetField => 39
  | OGetThis => 40 | OSetThis => 41 | ODynGet => 42 | ODynSet => 43 | OJTrue => 44
  | OJFalse => 45 | OJNull => 46 | OJNotNull => 47 | OJSLt => 48 | OJSGte => 49
  | OJSGt => 50 | OJSLte => 51 | OJULt => 52 | OJUGte => 53 | OJNotLt => 54
  | OJNotGte => 55 | OJEq => 56 | OJNotEq => 57 | OJAlways => 58 | OToDyn => 59
  | OToSFloat => 60 | OToUFloat => 61 | OToInt => 62 | OSafeCast => 63
  | OUnsafeCast => 64 | OToVirtual => 65 | OLabel => 66 | ORet => 67 | OThrow => 68
  | ORethrow => 69 | OSwitch => 70 | ONullCheck => 71 | OTrap => 72 | OEndTrap => 73
  | OGetI8 => 74 | OGetI16 => 75 | OGetMem => 76 | OGetArray => 77 | OSetI8 => 78
  | OSetI16 => 79 | OSetMem => 80 | OSetArray => 81 | ONew => 82 | OArraySize => 83
  | OType => 84 | OGetType => 85 | OGetTID => 86 | ORef => 87 | OUnref => 88
  | OSetref => 89 | OMakeEnum => 90 | OEnumAlloc => 91 | OEnumIndex => 92
  | OEnumField => 93 | OSetEnumField => 94 | OAssert => 95 | ORefData => 96
  | ORefOffset => 97 | ONop => 98 | OPrefetch => 99 | OAsm => 100 | OCatch => 101
  | OCleanupTrap => 102 | OEndCleanupTrap => 103
  end.

Lemma op_num_of o : op_of_Z (op_num o) = Some o.
Proof. destruct o; reflexivity. Qed.

#[global] Instance hl_op_eq_dec : EqDecision hl_op.
Proof.
  refine (fun a b => match Z.eq_dec (op_num a) (op_num b) with
                     | left H => left _ | right H => right _ end).
  - assert (Some a = Some b) as [= ?] by (rewrite <- !op_num_of; congruence). done.
  - congruence.
Defined.

Lemma hl_ops_complete o : o ∈ hl_ops.
Proof.
  eapply (list_elem_of_lookup_2 _ (Z.to_nat (op_num o))).
  pose proof (op_num_of o) as H. unfold op_of_Z, aget in H. case_decide; done.
Qed.

Lemma op_of_Z_range n : is_Some (op_of_Z n) <-> 0 <= n < OLast.
Proof.
  unfold op_of_Z, OLast. split.
  - intros [o Ho]. by eapply aget_Some_range.
  - intros. by apply aget_is_Some.
Qed.

Lemma op_of_Z_num n o : op_of_Z n = Some o -> n = op_num o.
Proof.
  intros Ho. assert (forallb (fun i => match op_of_Z (Z.of_nat i) with
                                       | Some o => op_num o =? Z.of_nat i
                                       | None => true end) (seq 0 (length hl_ops)) = true) as Hall
    by (vm_compute; reflexivity).
  assert (0 <= n < OLast) as Hn by (apply op_of_Z_range; eauto).
  rewrite forallb_forall in Hall. specialize (Hall (Z.to_nat n)).
  rewrite Z2Nat.id, Ho in Hall by lia. symmetry. apply Z.eqb_eq, Hall.
  apply in_seq. unfold OLast, alen in Hn. lia.
Qed.
