(* ===== verification/Ustr.v ===== *)
(** * Zero-terminated 16-bit strings ([src/std/ucs2.c])

    A pointer into a character array is the suffix of the array it points at:
    [*p++] takes the head, and reading past the end of the array is undefined.
    [cstring m s] says that the string at [m] is [s]. *)
From S2P Require Import Prelude.

Fixpoint ustrlen (str : list Z) : option Z :=
  match str with
  | [] => None
  | c :: p => if c =? 0 then Some 0 else n ← ustrlen p; Some (n + 1)
  end.

(** The number of bytes [utostr] needs, without the final zero. *)
Fixpoint ustrlen_utf8_from (str : list Z) (size : Z) : option Z :=
  match str with
  | [] => None
  | c :: str =>
      if c =? 0 then Some size
      else if c <? 128 then ustrlen_utf8_from str (size + 1)
      else if c <? 2048 then ustrlen_utf8_from str (size + 2)
      else if (c >=? 55296) && (c <=? 57343) then
        match str with [] => None | _ :: str => ustrlen_utf8_from str (size + 4) end
      else ustrlen_utf8_from str (size + 3)
  end.
Definition ustrlen_utf8 (str : list Z) : option Z := ustrlen_utf8_from str 0.

Definition ustrdup (junk : Z) (str : list Z) : option (list Z) :=
  len ← ustrlen str;
  acopy (replicate (Z.to_nat (len + 1)) junk) 0 str 0 (len + 1).

Fixpoint ucmp (a b : list Z) : option Z :=
  match a, b with
  | x :: a', y :: b' =>
      let d := i32 (u32 x - u32 y) in
      if negb (d =? 0) then Some d
      else if x =? 0 then Some 0
      else ucmp a' b'
  | _, _ => None
  end.

(** [strtol(buf,&bend,10)] on what [utoi] leaves in its buffer: an optional sign and
    decimal digits.  The value and the number of characters consumed. *)
Definition is_digit (c : Z) : bool := (c >=? 48) && (c <=? 57).
Definition digits_value (l : list Z) : Z := fold_left (fun v c => 10 * v + (c - 48)) l 0.
Definition strtol10 (buf : list Z) : Z * Z :=
  match buf with
  | c :: ds =>
      if (c =? 45) || (c =? 43) then
        (if decide (ds = []) then (0, 0)
         else ((if c =? 45 then - digits_value ds else digits_value ds), alen buf))
      else (digits_value buf, alen buf)
  | [] => (0, 0)
  end.

(** The integer and how far [end] is past [str]. *)
Definition utoi (str : list Z) : option (Z * Z) :=
  sign ← aget str 0;
  let i0 := if (sign =? 45) || (sign =? 43) then [sign] else [] in
  buf ← loop (fun buf =>
          let i := alen buf in
          if i <? 16 then
            c ← aget str i;
            if (c <? 48) || (c >? 57) then Some (inr buf) else Some (inl (buf ++ [c]))
          else Some (inr buf)) 17 i0;
  let '(v, bend) := strtol10 buf in
  Some (i32 v, bend).

(** ** UTF-8 output into a bounded buffer

    The bytes written before the final zero; [room] is [end - out]. *)
Definition utf8_3 (c : Z) : list Z :=
  [u8 (Z.lor 224 (Z.shiftr c 12)); u8 (Z.lor 128 (Z.land (Z.shiftr c 6) 63)); u8 (Z.lor 128 (Z.land c 63))].
Definition utf8_4 (k : Z) : list Z :=
  [u8 (Z.lor 240 (Z.shiftr k 18)); u8 (Z.lor 128 (Z.land (Z.shiftr k 12) 63));
   u8 (Z.lor 128 (Z.land (Z.shiftr k 6) 63)); u8 (Z.lor 128 (Z.land k 63))].
Definition utf8_2 (c : Z) : list Z := [u8 (Z.lor 192 (Z.shiftr c 6)); u8 (Z.lor 128 (Z.land c 63))].

Fixpoint utostr_from (room : Z) (str : list Z) : option (list Z) :=
  if 0 <? room then
    match str with
    | [] => None
    | c :: str =>
        if c =? 0 then Some []
        else if c <? 128 then r ← utostr_from (room - 1) str; Some (u8 c :: r)
        else if c <? 2048 then
          (if 2 >? room then Some [] else r ← utostr_from (room - 2) str; Some (utf8_2 c ++ r))
        else if (c >=? 55296) && (c <=? 57343) then
          (if 4 >? room then Some [] else
           match str with
           | [] => None
           | c2 :: str =>
               let full := u32 (Z.lor (Z.shiftl (c - 55296) 10) (u32 (c2 - 56320)) + 65536) in
               r ← utostr_from (room - 4) str; Some (utf8_4 full ++ r)
           end)
        else (if 3 >? room then Some [] else r ← utostr_from (room - 3) str; Some (utf8_3 c ++ r))
    end
  else Some [].

(** The bytes written, final zero included ([[]] when [out_size] leaves no room for
    it), and the returned length. *)
Definition utostr (out_size : Z) (str : list Z) : option (list Z * Z) :=
  if out_size <=? 0 then Some ([], 0)
  else r ← utostr_from (out_size - 1) str; Some (r ++ [0], alen r).

(** [utos]: a block of exactly [ustrlen_utf8 + 1] bytes. *)
Definition utos (s : list Z) : option (list Z) :=
  len ← ustrlen_utf8 s;
  '(out, n) ← utostr (len + 1) s;
  Some out.

(** ** What a pointer denotes *)
Definition cstring (m s : list Z) : Prop := Forall (fun c => c <> 0) s /\ exists rest, m = s ++ 0 :: rest.

Lemma cstring_cons m c s : cstring m (c :: s) -> exists m', m = c :: m' /\ c <> 0 /\ cstring m' s.
Proof. intros [Hs (rest & ->)]. inversion Hs; subst. eexists. split; [done|]. split; [done|]. split; eauto. Qed.
Lemma cstring_nil m : cstring m [] -> exists m', m = 0 :: m'.
Proof. intros [_ (rest & ->)]. eauto. Qed.
Lemma cstring_intro s rest : Forall (fun c => c <> 0) s -> cstring (s ++ 0 :: rest) s.
Proof. split; eauto. Qed.
Lemma cstring_inj m s1 s2 : cstring m s1 -> cstring m s2 -> s1 = s2.
Proof.
  revert m s2. induction s1 as [|c s1 IH]; intros m [|c2 s2] H1 H2; [done|..].
  - apply cstring_nil in H1 as (m' & ->). by apply cstring_cons in H2 as (? & [= <- <-] & ? & _).
  - apply cstring_nil in H2 as (m' & ->). by apply cstring_cons in H1 as (? & [= <- <-] & ? & _).
  - apply cstring_cons in H1 as (m1 & -> & ? & ?). apply cstring_cons in H2 as (? & [= <- <-] & ? & ?).
    f_equal. eauto.
Qed.

Lemma ustrlen_spec m s : cstring m s -> ustrlen m = Some (alen s).
Proof.
  revert m. induction s as [|c s IH]; intros m Hm.
  - by apply cstring_nil in Hm as (m' & ->).
  - apply cstring_cons in Hm as (m' & -> & Hc & Hm). simpl. rewrite (proj2 (Z.eqb_neq c 0)) by done.
    rewrite (IH m' Hm). simpl. rewrite alen_cons. f_equal. lia.
Qed.

Lemma ustrdup_spec junk m s : cstring m s -> ustrdup junk m = Some (s ++ [0]).
Proof.
  intros Hm. unfold ustrdup. rewrite (ustrlen_spec m s Hm). simpl.
  destruct Hm as [Hs (rest & ->)]. pose proof (alen_nonneg s). pose proof (alen_nonneg rest).
  unfold acopy. rewrite decide_True by (rewrite alen_replicate, alen_app, alen_cons; lia).
  rewrite Z.add_0_l, (drop_ge (replicate _ _)) by (rewrite length_replicate; lia).
  change (Z.to_nat 0) with 0%nat. rewrite app_nil_r, take_0, drop_0. simpl. f_equal.
  rewrite take_app_ge by (unfold alen in *; lia). f_equal.
  replace (Z.to_nat (alen s + 1) - length s)%nat with 1%nat by (unfold alen in *; lia). done.
Qed.

Definition uchars (s : list Z) : Prop := Forall (fun c => 0 <= c < 2 ^ 16) s.

(** Lexicographic comparison of 16-bit characters. *)
Fixpoint lexcmp (a b : list Z) : Z :=
  match a, b with
  | [], [] => 0
  | [], y :: _ => - y
  | x :: _, [] => x
  | x :: a, y :: b => if x =? y then lexcmp a b else x - y
  end.

Lemma lexcmp_eq a b : Forall (fun c => c <> 0) a -> Forall (fun c => c <> 0) b -> lexcmp a b = 0 <-> a = b.
Proof.
  intros Ha. revert b. induction Ha as [|x a Hx Ha IH]; intros b Hb; destruct Hb as [|y b Hy Hb]; simpl in *;
    try (split; [intros; exfalso; lia|done]); [done|].
  case_if_bool; [subst; rewrite (IH b Hb); naive_solver|]. split; [lia|]. naive_solver lia.
Qed.

Lemma ucmp_spec m1 m2 s1 s2 : cstring m1 s1 -> cstring m2 s2 -> uchars s1 -> uchars s2 ->
  ucmp m1 m2 = Some (lexcmp s1 s2).
Proof.
  intros H1 H2 U1. revert m1 m2 s2 H1 H2. unfold uchars in *. change (2 ^ 16) with 65536 in *.
  assert (forall x, 0 <= x < 65536 -> u32 x = x) as Hu by (intros; apply uN_small; change (2 ^ 32) with 4294967296; lia).
  assert (forall x, -65536 < x < 65536 -> i32 x = x) as Hi by
    (intros; apply i32_small; unfold in_i32, INT_MIN, INT_MAX; lia).
  induction U1 as [|x s1 Hx U1 IH]; intros m1 m2 s2 H1 H2 U2; destruct U2 as [|y s2 Hy U2];
    repeat match goal with
    | H : cstring _ [] |- _ => apply cstring_nil in H as (? & ->)
    | H : cstring _ (_ :: _) |- _ => apply cstring_cons in H as (? & -> & ? & ?)
    end; cbn [ucmp lexcmp]; rewrite !Hu by lia; rewrite Hi by lia; cbv zeta.
  - done.
  - rewrite (proj2 (Z.eqb_neq _ _)) by lia. done.
  - rewrite (proj2 (Z.eqb_neq _ _)) by lia. simpl. f_equal. lia.
  - destruct (x =? y) eqn:E; zbool.
    + subst y. rewrite Z.sub_diag. simpl. rewrite (proj2 (Z.eqb_neq x 0)) by done. eauto.
    + rewrite (proj2 (Z.eqb_neq _ _)) by lia. done.
Qed.
