(* ===== verification/Buffer.v ===== *)
(** * String buffers ([src/std/buffer.c], lines 75-183)

    A buffer is a list of chunks, newest first.  The abstraction [contents] is the
    text appended so far; every append operation is [++] on it and
    [hl_buffer_content] returns it, without ever writing outside a chunk. *)
From S2P Require Import Prelude Ustr.

(** [struct _stringitem]: [str] is the whole allocated block of [size] characters,
    of which the first [ilen] are used. *)
Record stringitem := Item { str : list Z; size : Z; ilen : Z }.
(** [struct hl_buffer]: the [next] links of the items are the list. *)
Record hl_buffer := Buf { totlen : Z; blen : Z; data : list stringitem }.

Section buffer.
(** What a freshly allocated, uninitialised character block holds. *)
Context (junk : Z).

Definition hl_alloc_buffer : hl_buffer := Buf 0 16 [].

(** [while( totlen >= (blen << 2) ) blen <<= 1] *)
Definition grow_blen (tot bl : Z) : option Z :=
  loop (fun bl =>
          lim ← int_of (Z.shiftl bl 2);
          if tot >=? lim then bl' ← int_of (Z.shiftl bl 1); Some (inl bl') else Some (inr bl))
       32 bl.

Definition buffer_append_new (b : hl_buffer) (s : list Z) (len : Z) : option hl_buffer :=
  bl ← grow_blen (totlen b) (blen b);
  let sz := if len <? bl then bl else len in
  st ← acopy (replicate (Z.to_nat sz) junk) 0 s 0 len;
  Some (Buf (totlen b) bl (Item st sz len :: data b)).

(** [s] is the memory the pointer argument points to; [None] for a null pointer. *)
Definition hl_buffer_str_sub (b : hl_buffer) (s : option (list Z)) (len : Z) : option hl_buffer :=
  match s with
  | None => Some b
  | Some s =>
      if len <=? 0 then Some b else
      tot ← int_add (totlen b) len;
      let b := Buf tot (blen b) (data b) in
      match data b with
      | it :: rest =>
          let free := size it - ilen it in
          if free >=? len then
            st ← acopy (str it) (ilen it) s 0 len;
            Some (Buf (totlen b) (blen b) (Item st (size it) (ilen it + len) :: rest))
          else
            st ← acopy (str it) (ilen it) s 0 free;
            let b := Buf (totlen b) (blen b) (Item st (size it) (ilen it + free) :: rest) in
            buffer_append_new b (drop (Z.to_nat free) s) (len - free)
      | [] => buffer_append_new b s len
      end
  end.

Definition ustr_null : list Z := [110; 117; 108; 108; 0].

Definition hl_buffer_str (b : hl_buffer) (s : option (list Z)) : option hl_buffer :=
  match s with
  | Some u => n ← ustrlen u; hl_buffer_str_sub b (Some u) n
  | None => hl_buffer_str_sub b (Some ustr_null) 4
  end.

Definition hl_buffer_char (b : hl_buffer) (c : Z) : option hl_buffer :=
  tot ← int_add (totlen b) 1;
  let b := Buf tot (blen b) (data b) in
  match data b with
  | it :: rest =>
      if ilen it =? size it then buffer_append_new b [c] 1
      else
        st ← aset (str it) (ilen it) c;
        Some (Buf (totlen b) (blen b) (Item st (size it) (ilen it + 1) :: rest))
  | [] => buffer_append_new b [c] 1
  end.

(** Copies the chunks from the end of the result backwards. *)
Fixpoint copy_items (buf : list Z) (s : Z) (its : list stringitem) : option (list Z) :=
  match its with
  | [] => Some buf
  | it :: rest =>
      let s := s - ilen it in
      buf ← acopy buf s (str it) 0 (ilen it);
      copy_items buf s rest
  end.

(** The zero-terminated text and its length. *)
Definition hl_buffer_content (b : hl_buffer) : option (list Z * Z) :=
  n ← int_add (totlen b) 1;
  buf ← aset (replicate (Z.to_nat n) junk) (totlen b) 0;
  buf ← copy_items buf (totlen b) (data b);
  Some (buf, totlen b).

Definition hl_buffer_length (b : hl_buffer) : Z := totlen b.

(** ** Abstraction and invariant *)
Definition item_text (it : stringitem) : list Z := take (Z.to_nat (ilen it)) (str it).
Fixpoint contents_of (its : list stringitem) : list Z :=
  match its with [] => [] | it :: rest => contents_of rest ++ item_text it end.
Definition contents (b : hl_buffer) : list Z := contents_of (data b).

Definition wf_item (it : stringitem) : Prop := 0 <= ilen it <= size it /\ alen (str it) = size it.
(** [blen] is a power of two, at least 16 and never more than the text needs. *)
Definition wf (b : hl_buffer) : Prop :=
  Forall wf_item (data b) /\ totlen b = alen (contents b) /\
  exists e, 4 <= e /\ blen b = 2 ^ e /\ (e = 4 \/ 2 ^ (e + 1) <= totlen b).

Lemma alloc_wf : wf hl_alloc_buffer /\ contents hl_alloc_buffer = [].
Proof.
  split; [|done]. split; [constructor|]. split; [done|]. exists 4. split; [lia|]. split; [done|by left].
Qed.

Lemma grow_blen_spec tot e : 4 <= e -> (e = 4 \/ 2 ^ (e + 1) <= tot) -> 0 <= tot <= INT_MAX - 1024 ->
  tot <= 2 ^ 29 ->
  exists bl e', grow_blen tot (2 ^ e) = Some bl /\ bl = 2 ^ e' /\ 4 <= e' /\
    (e' = 4 \/ 2 ^ (e' + 1) <= tot).
Proof.
  intros He Hinv Htot Hb. unfold grow_blen.
  assert (forall x, 4 <= x -> (x = 4 \/ 2 ^ (x + 1) <= tot) -> x <= 28) as Hx.
  { intros x Hx [->|H]; [lia|].
    assert (x + 1 <= 29) by (apply (Z.pow_le_mono_r_iff 2); lia). lia. }
  destruct (loop_total (fun bl =>
          lim ← int_of (Z.shiftl bl 2);
          if tot >=? lim then bl' ← int_of (Z.shiftl bl 1); Some (inl bl') else Some (inr bl))
    (fun bl => exists x, 4 <= x /\ bl = 2 ^ x /\ (x = 4 \/ 2 ^ (x + 1) <= tot))
    (fun bl => exists x, 4 <= x /\ bl = 2 ^ x /\ (x = 4 \/ 2 ^ (x + 1) <= tot))
    (fun bl => Z.to_nat (28 - Z.log2 bl))) with (fuel := 32%nat) (s := 2 ^ e) as (bl & Hbl & e' & ? & ? & ?).
  - intros bl (x & H4 & -> & Hinv'). pose proof (Hx x H4 Hinv') as H28.
    assert (2 ^ x <= 2 ^ 28) by (apply Z.pow_le_mono_r; lia).
    assert (0 < 2 ^ x) by (apply Z.pow_pos_nonneg; lia).
    rewrite !Z.shiftl_mul_pow2 by lia. change (2 ^ 2) with 4. change (2 ^ 1) with 2.
    change (2 ^ 28) with 268435456 in *.
    rewrite !int_of_Some by (unfold in_i32, INT_MIN, INT_MAX; lia). simpl.
    case_if_bool.
    + left.
      eexists. split; [done|].
      replace (2 ^ x * 2) with (2 ^ (x + 1)) by (rewrite Z.pow_add_r by lia; lia).
      assert (2 ^ (x + 1 + 1) <= tot).
      { rewrite !Z.pow_add_r by lia. change (2 ^ 1) with 2. lia. }
      split; [exists (x + 1); repeat split; try lia; by right|].
      rewrite !Z.log2_pow2 by lia.
      assert (x + 1 <= 28) by (apply Hx; [lia|by right]). lia.
    + right. eexists. split; [done|]. exists x. done.
  - exists e. done.
  - rewrite Z.log2_pow2 by lia. lia.
  - eauto 10.
Qed.

(** A new chunk holding [s] on top of well-formed chunks. *)
Lemma append_new_spec its tot e s len :
  Forall wf_item its -> 4 <= e -> (e = 4 \/ 2 ^ (e + 1) <= tot) ->
  0 <= tot <= 2 ^ 29 -> 0 <= len <= alen s ->
  exists b', buffer_append_new (Buf tot (2 ^ e) its) s len = Some b' /\
    Forall wf_item (data b') /\ totlen b' = tot /\
    contents b' = contents_of its ++ take (Z.to_nat len) s /\
    exists e', 4 <= e' /\ blen b' = 2 ^ e' /\ (e' = 4 \/ 2 ^ (e' + 1) <= tot).
Proof.
  intros Hits He Hinv Htot Hlen. unfold buffer_append_new. simpl.
  change (2 ^ 29) with 536870912 in *.
  destruct (grow_blen_spec tot e) as (bl & e' & -> & -> & He' & Hinv'); [done|done|unfold INT_MAX; lia|lia|].
  simpl. set (sz := if len <? 2 ^ e' then 2 ^ e' else len).
  assert (0 < 2 ^ e') by (apply Z.pow_pos_nonneg; lia).
  assert (len <= sz /\ 0 < sz) as [? ?] by (unfold sz; case_if_bool; lia).
  destruct (acopy_total (replicate (Z.to_nat sz) junk) 0 s 0 len) as (st & -> & Hl & Hg);
    autorewrite with hlarr; try lia. simpl. autorewrite with hlarr in Hl.
  eexists. split; [done|]. simpl. split; [constructor; [unfold wf_item; simpl; lia|done]|].
  split; [done|]. split; [|eauto]. unfold contents; simpl. f_equal. unfold item_text; simpl.
  apply aget_ext.
  - rewrite !alen_take; lia.
  - intros i Hi. rewrite alen_take in Hi by lia. rewrite !aget_take by lia. rewrite Hg. dec_lia.
    f_equal. lia.
Qed.

(** Filling the room of the newest chunk. *)
Lemma fill_item_spec it s n :
  wf_item it -> 0 <= n -> ilen it + n <= size it -> n <= alen s ->
  exists st, acopy (str it) (ilen it) s 0 n = Some st /\
    wf_item (Item st (size it) (ilen it + n)) /\
    item_text (Item st (size it) (ilen it + n)) = item_text it ++ take (Z.to_nat n) s.
Proof.
  intros [Hi Hl] Hn Hfit Hs.
  destruct (acopy_total (str it) (ilen it) s 0 n) as (st & -> & Hlst & Hg); try lia.
  exists st. split; [done|]. split; [unfold wf_item; simpl; lia|].
  unfold item_text; simpl. apply aget_ext.
  - rewrite alen_app, !alen_take; lia.
  - intros i Hir. rewrite alen_take in Hir by lia. rewrite aget_take by lia. rewrite Hg.
    destruct (decide (i < ilen it)).
    + rewrite aget_app_l by (rewrite alen_take; lia). rewrite aget_take by lia. dec_lia. done.
    + rewrite aget_app_r by (rewrite alen_take; lia). rewrite alen_take by lia.
      rewrite aget_take by lia. dec_lia. f_equal. lia.
Qed.

Lemma str_sub_spec b s len : wf b -> len <= alen s -> totlen b + Z.max 0 len <= 2 ^ 29 ->
  exists b', hl_buffer_str_sub b (Some s) len = Some b' /\ wf b' /\
    contents b' = contents b ++ take (Z.to_nat len) s.
Proof.
  intros (Hits & Htot & e & He & Hbl & Hinv) Hlen Hmax. unfold hl_buffer_str_sub.
  change (2 ^ 29) with 536870912 in *.
  case_if_bool.
  { exists b. split; [done|]. rewrite Z2Nat.nonpos by done. rewrite take_0, app_nil_r.
    split; [|done]. repeat split; eauto. }
  pose proof (alen_nonneg (contents b)).
  unfold int_add. rewrite int_of_Some by (unfold in_i32, INT_MIN, INT_MAX; lia). simpl.
  assert (e = 4 \/ 2 ^ (e + 1) <= totlen b + len) as Hinv2 by (destruct Hinv; [by left|right; lia]).
  assert (forall b' e', Forall wf_item (data b') -> totlen b' = totlen b + len ->
            contents b' = contents b ++ take (Z.to_nat len) s -> 4 <= e' -> blen b' = 2 ^ e' ->
            (e' = 4 \/ 2 ^ (e' + 1) <= totlen b + len) ->
            wf b' /\ contents b' = contents b ++ take (Z.to_nat len) s) as Hfin.
  { intros b' e' H1 H2 H3 H4 H5 H6. split; [|done]. split; [done|]. split.
    - rewrite H2, H3, alen_app, alen_take; lia.
    - exists e'. rewrite H2. done. }
  rewrite Hbl. unfold contents in *. destruct (data b) as [|it rest] eqn:Ed.
  - destruct (append_new_spec [] (totlen b + len) e s len) as (b' & -> & ? & ? & ? & e' & ? & ? & ?);
      try done; try (change (2 ^ 29) with 536870912); try lia.
    exists b'. split; [done|]. by apply (Hfin b' e').
  - inversion Hits as [|? ? Hit Hrest]; subst. case_if_bool.
    + destruct (fill_item_spec it s len) as (st & -> & Hwf & Htext); [done|lia..|]. simpl.
      eexists. split; [done|]. apply (Hfin _ e); simpl; try done.
      * by constructor.
      * unfold contents; simpl. rewrite Htext. by rewrite app_assoc.
    + destruct Hit as [Hit1 Hit2].
      destruct (fill_item_spec it s (size it - ilen it)) as (st & -> & Hwf & Htext); [done|lia..|]. simpl.
      destruct (append_new_spec (Item st (size it) (ilen it + (size it - ilen it)) :: rest)
                  (totlen b + len) e (drop (Z.to_nat (size it - ilen it)) s) (len - (size it - ilen it)))
        as (b' & -> & ? & ? & Hc & e' & ? & ? & ?); try done; try (change (2 ^ 29) with 536870912); try lia.
      { by constructor. } { rewrite alen_drop; lia. }
      exists b'. split; [done|]. unfold contents in Hc. apply (Hfin b' e'); try done. rewrite Hc. simpl. rewrite Htext.
      rewrite <- !app_assoc. do 2 f_equal.
      rewrite <- (take_drop (Z.to_nat (size it - ilen it)) (take (Z.to_nat len) s)) at 1.
      rewrite take_take, Nat.min_l by lia. f_equal. rewrite skipn_firstn_comm. f_equal. lia.
Qed.

Lemma char_spec b c : wf b -> totlen b + 1 <= 2 ^ 29 ->
  exists b', hl_buffer_char b c = Some b' /\ wf b' /\ contents b' = contents b ++ [c].
Proof.
  intros (Hits & Htot & e & He & Hbl & Hinv) Hmax. unfold hl_buffer_char.
  change (2 ^ 29) with 536870912 in *. pose proof (alen_nonneg (contents b)).
  unfold int_add. rewrite int_of_Some by (unfold in_i32, INT_MIN, INT_MAX; lia). simpl.
  assert (e = 4 \/ 2 ^ (e + 1) <= totlen b + 1) as Hinv2 by (destruct Hinv; [by left|right; lia]).
  assert (exists b', buffer_append_new (Buf (totlen b + 1) (blen b) (data b)) [c] 1 = Some b' /\
            wf b' /\ contents b' = contents b ++ [c]) as Hnew.
  { rewrite Hbl. destruct (append_new_spec (data b) (totlen b + 1) e [c] 1)
      as (b' & -> & H1 & H2 & Hc & e' & H3 & H4 & H5); try done;
      try (change (2 ^ 29) with 536870912); try (change (alen [c]) with 1); try lia.
    exists b'. split; [done|]. split; [|done]. split; [done|]. split.
    - rewrite Hc, H2, alen_app, Htot. done.
    - exists e'. by rewrite H2. }
  unfold contents in *. destruct (data b) as [|it rest] eqn:Ed; [done|].
  case_if_bool; [done|]. inversion Hits as [|? ? Hit Hrest]; subst. pose proof Hit as [Hi1 Hi2].
  destruct (aset_total (str it) (ilen it) c) as (st & -> & Hl & Hg); [lia|]. simpl.
  assert (item_text (Item st (size it) (ilen it + 1)) = item_text it ++ [c]) as Htext.
  { unfold item_text; simpl. apply aget_ext.
    - rewrite alen_app, !alen_take by lia. unfold alen; simpl; lia.
    - intros i Hir. rewrite alen_take in Hir by lia. rewrite aget_take by lia. rewrite Hg.
      assert (alen (take (Z.to_nat (ilen it)) (str it)) = ilen it) by (rewrite alen_take; lia).
      case_decide as Hic.
      + subst i. rewrite aget_app_r by (rewrite alen_take; lia). rewrite alen_take by lia.
        by replace (ilen it - Z.of_nat (Z.to_nat (ilen it))) with 0 by lia.
      + rewrite aget_app_l by (rewrite alen_take; lia). rewrite aget_take by lia. done. }
  eexists. split; [done|]. unfold wf, contents; simpl. rewrite Htext, app_assoc.
  split; [|done]. split; [constructor; [unfold wf_item; simpl; lia|done]|].
  split; [rewrite alen_app; change (alen [c]) with 1; simpl in Htot; lia|].
  exists e. done.
Qed.

Lemma copy_items_spec its : forall buf s,
  Forall wf_item its -> s = alen (contents_of its) -> s <= alen buf ->
  exists buf', copy_items buf s its = Some buf' /\
    buf' = contents_of its ++ drop (Z.to_nat s) buf.
Proof.
  induction its as [|it rest IH]; intros buf s Hits Hs Hb; simpl in *.
  - exists buf. split; [done|]. rewrite Hs. done.
  - inversion Hits as [|? ? [Hi1 Hi2] Hrest]; subst.
    assert (alen (item_text it) = ilen it) as Hti by (unfold item_text; rewrite alen_take; lia).
    rewrite alen_app, Hti in *. pose proof (alen_nonneg (contents_of rest)).
    replace (alen (contents_of rest) + ilen it - ilen it) with (alen (contents_of rest)) by lia.
    unfold acopy. rewrite decide_True by lia. simpl.
    destruct (IH (take (Z.to_nat (alen (contents_of rest))) buf ++
                  take (Z.to_nat (ilen it)) (drop (Z.to_nat 0) (str it)) ++
                  drop (Z.to_nat (alen (contents_of rest) + ilen it)) buf)
                 (alen (contents_of rest))) as (buf' & Hb' & ->); [done|done| |].
    { rewrite !alen_app, alen_take by lia. pose proof (alen_nonneg (drop (Z.to_nat (alen (contents_of rest) + ilen it)) buf)).
      pose proof (alen_nonneg (take (Z.to_nat (ilen it)) (drop (Z.to_nat 0) (str it)))). lia. }
    simpl in Hb'. eexists. split; [exact Hb'|].
    rewrite drop_app_ge by (rewrite length_take; unfold alen in *; lia).
    rewrite length_take. replace (_ - _)%nat with 0%nat by (unfold alen in *; lia).
    rewrite drop_0. unfold item_text. rewrite <- app_assoc. done.
Qed.

Lemma content_spec b : wf b -> totlen b < INT_MAX ->
  hl_buffer_content b = Some (contents b ++ [0], alen (contents b)).
Proof.
  intros (Hits & Htot & _) Hmax. unfold hl_buffer_content, int_add.
  pose proof (alen_nonneg (contents b)).
  rewrite int_of_Some by (unfold in_i32, INT_MIN; lia). simpl.
  rewrite aset_Some by (rewrite alen_replicate; lia). simpl.
  destruct (copy_items_spec (data b) (<[Z.to_nat (totlen b):=0]> (replicate (Z.to_nat (totlen b + 1)) junk))
              (totlen b)) as (buf' & -> & ->); [done|done| |].
  { rewrite alen_insert, alen_replicate. lia. }
  simpl. rewrite <- Htot. do 3 f_equal.
  apply aget_ext.
  - rewrite alen_drop by (rewrite alen_insert, alen_replicate; lia).
    rewrite alen_insert, alen_replicate. unfold alen; simpl. lia.
  - intros i Hi. rewrite alen_drop in Hi by (rewrite alen_insert, alen_replicate; lia).
    rewrite alen_insert, alen_replicate in Hi. assert (i = 0) as -> by lia.
    rewrite aget_drop by lia. replace (Z.of_nat (Z.to_nat (totlen b)) + 0) with (totlen b) by lia.
    rewrite aget_insert_eq; [done|]. rewrite alen_replicate. lia.
Qed.
End buffer.

(** ** The interface text producers are written against

    A sink takes characters one at a time and hands the whole text back. *)
Class TextSink (B : Type) := {
  sink_ok : B -> Z -> Prop;   (** well formed, with room for that many characters *)
  sink_text : B -> list Z;
  sink_char : B -> Z -> option B;
  sink_content : B -> option (list Z * Z);
  sink_char_spec : forall b n c, sink_ok b n -> 0 < n ->
    exists b', sink_char b c = Some b' /\ sink_ok b' (n - 1) /\ sink_text b' = sink_text b ++ [c];
  sink_content_spec : forall b n, sink_ok b n -> 0 <= n ->
    sink_content b = Some (sink_text b ++ [0], alen (sink_text b));
}.

(** Room for [n] more characters, below the 2^29 characters at which the size
    arithmetic of the code would overflow. *)
Definition buffer_ok (b : hl_buffer) (n : Z) : Prop := wf b /\ totlen b + n <= 2 ^ 29.

#[global] Instance hl_buffer_sink (junk : Z) : TextSink hl_buffer.
Proof.
  refine {| sink_ok := buffer_ok; sink_text := contents;
            sink_char := hl_buffer_char junk; sink_content := hl_buffer_content junk |}.
  - intros b n c [Hwf Hroom] Hn. destruct (char_spec junk b c Hwf) as (b' & Hc & Hwf' & Htxt); [lia|].
    exists b'. split; [done|]. split; [|done]. split; [done|].
    destruct Hwf' as (_ & -> & _). destruct Hwf as (_ & Ht & _). rewrite Htxt, alen_app.
    change (alen [c]) with 1. lia.
  - intros b n [Hwf Hroom] Hn. apply content_spec; [done|].
    change (2 ^ 29) with 536870912 in *. unfold INT_MAX. lia.
Defined.

(** ** Whole histories *)
Inductive buffer_op :=
  | Char (c : Z)
  | Sub (s : list Z) (len : Z)
  | Str (s : option (list Z)).

Definition buffer_step (junk : Z) (b : hl_buffer) (o : buffer_op) : option hl_buffer :=
  match o with
  | Char c => hl_buffer_char junk b c
  | Sub s len => hl_buffer_str_sub junk b (Some s) len
  | Str s => hl_buffer_str junk b s
  end.

(** What each operation appends; [None] for a call whose pointer does not hold the
    characters it promises. *)
Definition appended (o : buffer_op) (t : list Z) : Prop :=
  match o with
  | Char c => t = [c]
  | Sub s len => len <= alen s /\ t = take (Z.to_nat len) s
  | Str (Some m) => cstring m t
  | Str None => t = [110; 117; 108; 108]
  end.

Lemma buffer_step_spec junk b o t : wf b -> appended o t -> totlen b + alen t <= 2 ^ 29 ->
  exists b', buffer_step junk b o = Some b' /\ wf b' /\ contents b' = contents b ++ t.
Proof.
  intros Hwf Ho Hmax. pose proof (alen_nonneg t). destruct o as [c|s len|[m|]]; simpl in Ho; cbn [buffer_step].
  - subst t. by apply char_spec.
  - destruct Ho as [Hl ->]. apply str_sub_spec; [done|done|]. pose proof (alen_nonneg s).
    rewrite alen_take in Hmax by lia. lia.
  - unfold hl_buffer_str. rewrite (ustrlen_spec m t Ho). cbn [mbind option_bind]. destruct Ho as [_ (rest & ->)]. pose proof (alen_nonneg rest).
    destruct (str_sub_spec junk b (t ++ 0 :: rest) (alen t)) as (b' & -> & Hwf' & Hc);
      [done|rewrite alen_app, alen_cons; lia|lia|].
    exists b'. split; [done|]. split; [done|]. rewrite Hc. f_equal.
    apply take_app_length'. unfold alen. lia.
  - subst t. unfold hl_buffer_str. destruct (str_sub_spec junk b ustr_null 4) as (b' & -> & Hwf' & Hc);
      [done|by vm_compute|change (alen [110; 117; 108; 108]) with 4 in Hmax; lia|]. exists b'. done.
Qed.

Fixpoint buffer_run (junk : Z) (b : hl_buffer) (os : list buffer_op) : option hl_buffer :=
  match os with
  | [] => Some b
  | o :: os => b ← buffer_step junk b o; buffer_run junk b os
  end.

Lemma buffer_run_spec junk os ts : Forall2 appended os ts -> forall b, wf b ->
  totlen b + alen (concat ts) <= 2 ^ 29 ->
  exists b', buffer_run junk b os = Some b' /\ wf b' /\ contents b' = contents b ++ concat ts.
Proof.
  induction 1 as [|o t os ts Ho _ IH]; intros b Hwf Hmax; simpl.
  - exists b. by rewrite app_nil_r.
  - rewrite concat_cons, alen_app in Hmax. pose proof (alen_nonneg (concat ts)).
    destruct (buffer_step_spec junk b o t Hwf Ho) as (b1 & -> & Hwf1 & Hc1); [lia|]. simpl.
    destruct (IH b1 Hwf1) as (b2 & -> & Hwf2 & Hc2).
    { destruct Hwf1 as (_ & -> & _), Hwf as (_ & Ht & _). rewrite Hc1, alen_app. lia. }
    exists b2. split; [done|]. split; [done|]. by rewrite Hc2, Hc1, app_assoc.
Qed.

(** ** Properties *)
(** A string buffer is the concatenation of what was appended to it.  For any
    history of [hl_buffer_char], [hl_buffer_str_sub] and [hl_buffer_str] calls that
    together append at most 2^29 characters, every call completes inside its chunks,
    and [hl_buffer_content] returns the concatenated text, its terminating zero and
    its length. *)
Theorem buffer_content_is_concatenation junk os ts :
  Forall2 appended os ts -> alen (concat ts) <= 2 ^ 29 ->
  exists b, buffer_run junk hl_alloc_buffer os = Some b /\
    hl_buffer_content junk b = Some (concat ts ++ [0], alen (concat ts)).
Proof.
  intros Hos Hmax. destruct alloc_wf as [Hwf Hc0].
  destruct (buffer_run_spec junk os ts Hos hl_alloc_buffer Hwf) as (b & Hb & Hwf' & Hc); [simpl; lia|].
  exists b. split; [done|]. rewrite Hc0 in Hc. simpl in Hc. rewrite <- Hc. apply content_spec; [done|].
  destruct Hwf' as (_ & -> & _). rewrite Hc. change (2 ^ 29) with 536870912 in *. unfold INT_MAX. lia.
Qed.

Lemma buffer_content_is_concatenation_witness :
  exists b, buffer_run 7 hl_alloc_buffer [Char 97; Str None; Sub [1; 2; 3] 2; Str (Some [98; 0; 5])] = Some b /\
    hl_buffer_content 7 b = Some (concat [[97]; [110; 117; 108; 108]; [1; 2]; [98]] ++ [0],
      alen (concat [[97]; [110; 117; 108; 108]; [1; 2]; [98]])).
Proof.
  apply (buffer_content_is_concatenation 7).
  - repeat constructor; simpl; try lia; try discriminate. exists [5]. reflexivity.
  - vm_compute. discriminate.
Defined.
