(* ===== verification/Unicode.v ===== *)
(** * UTF-8, UTF-16 and URL encoding ([src/std/string.c])

    Pointers are array suffixes, as in [Ustr].  A block written through an output
    pointer is the list of the cells written.  The encoders are compared with the
    Unicode definitions [utf8] and [utf16] on lists of code points. *)
From S2P Require Import Prelude Ustr Buffer.

Fixpoint utf8_length_from (s : list Z) (len : Z) : option Z :=
  match s with
  | [] => None
  | c :: s =>
      let len := len + 1 in
      if c <? 128 then
        if c =? 0 then Some (len - 1) else utf8_length_from s len
      else if c <? 192 then Some (len - 1)
      else if c <? 224 then
        match s with
        | s1 :: s => if Z.land s1 128 =? 0 then Some (len - 1) else utf8_length_from s len
        | _ => None
        end
      else if c <? 240 then
        match s with
        | s1 :: s2 :: s => if Z.land (Z.land s1 s2) 128 =? 0 then Some (len - 1) else utf8_length_from s len
        | _ => None
        end
      else if c <? 248 then
        match s with
        | s1 :: s2 :: s3 :: s =>
            if Z.land (Z.land (Z.land s1 s2) s3) 128 =? 0 then Some (len - 1)
            else utf8_length_from s (len + 1)
        | _ => None
        end
      else Some len
  end.
Definition hl_utf8_length (s : list Z) (pos : Z) : option Z :=
  utf8_length_from (drop (Z.to_nat pos) s) 0.

(** The characters written to [out], the final zero included, and the result. *)
Fixpoint from_utf8_from (p outLen : Z) (str : list Z) : option (list Z * Z) :=
  if p <? outLen then
    let p := p + 1 in
    match str with
    | [] => None
    | c :: str =>
        if c <? 128 then
          if c =? 0 then Some ([0], p - 1)
          else '(out, r) ← from_utf8_from p outLen str; Some (u16 c :: out, r)
        else if c <? 224 then
          match str with
          | b1 :: str =>
              let c := Z.lor (Z.shiftl (Z.land c 63) 6) (Z.land b1 127) in
              '(out, r) ← from_utf8_from p outLen str; Some (u16 c :: out, r)
          | _ => None
          end
        else if c <? 240 then
          match str with
          | c2 :: b2 :: str =>
              let c := Z.lor (Z.lor (Z.shiftl (Z.land c 31) 12) (Z.shiftl (Z.land c2 127) 6)) (Z.land b2 127) in
              '(out, r) ← from_utf8_from p outLen str; Some (u16 c :: out, r)
          | _ => None
          end
        else
          match str with
          | c2 :: c3 :: b3 :: str =>
              let c := u32 (Z.lor (Z.lor (Z.lor (Z.shiftl (Z.land c 15) 18) (Z.shiftl (Z.land c2 127) 12))
                              (Z.shiftl (Z.land c3 127) 6)) (Z.land b3 127) - 65536) in
              if p =? outLen then Some ([0], p)
              else
                '(out, r) ← from_utf8_from (p + 1) outLen str;
                Some (u16 (Z.shiftr c 10 + 55296) :: u16 (Z.lor (Z.land c 1023) 56320) :: out, r)
          | _ => None
          end
    end
  else Some ([0], p).
Definition hl_from_utf8 (outLen : Z) (str : list Z) : option (list Z * Z) := from_utf8_from 0 outLen str.

(** What is left in a block of [n] cells after [out] was written at its start. *)
Definition block_write (junk n : Z) (out : list Z) : option (list Z) :=
  acopy (replicate (Z.to_nat n) junk) 0 out 0 (alen out).

Definition hl_to_utf16 (junk : Z) (str : list Z) : option (list Z) :=
  len ← hl_utf8_length str 0;
  '(out, _) ← hl_from_utf8 len str;
  block_write junk (len + 1) out.

(** The characters, and [*size] in bytes. *)
Definition hl_utf8_to_utf16 (junk : Z) (str : list Z) (pos : Z) : option (list Z * Z) :=
  ulen ← hl_utf8_length str pos;
  '(s, _) ← hl_from_utf8 ulen (drop (Z.to_nat pos) str);
  s ← block_write junk (ulen + 1) s;
  size ← int_of (Z.shiftl ulen 1);
  Some (s, size).

(** [end - c] when [end] is not null: the loop leaves when it is exactly zero. *)
Definition at_end (left : option Z) : bool := bool_decide (left = Some 0).
Definition advance (left : option Z) : option Z := (fun n => n - 1) <$> left.
Definition no_end (left : option Z) : bool := bool_decide (left = None).

Fixpoint utf8_bytes_from (left : option Z) (c : list Z) (n : Z) : option Z :=
  if at_end left then Some n else
  match c with
  | [] => None
  | v :: c =>
      if (v =? 0) && no_end left then Some n
      else if v <? 128 then utf8_bytes_from (advance left) c (n + 1)
      else if v <? 2048 then utf8_bytes_from (advance left) c (n + 2)
      else if (v >=? 55296) && (v <=? 57343) then
        match c with
        | _ :: c => utf8_bytes_from (advance (advance left)) c (n + 4)
        | [] => None
        end
      else utf8_bytes_from (advance left) c (n + 3)
  end.

Fixpoint utf16_to_utf8_from (left : option Z) (c : list Z) : option (list Z) :=
  if at_end left then Some [] else
  match c with
  | [] => None
  | v :: c =>
      if v <? 128 then
        if (v =? 0) && no_end left then Some [u8 v]
        else out ← utf16_to_utf8_from (advance left) c; Some (u8 v :: out)
      else if v <? 2048 then
        out ← utf16_to_utf8_from (advance left) c; Some (utf8_2 v ++ out)
      else if (v >=? 55296) && (v <=? 57343) then
        match c with
        | v2 :: c =>
            let k := Z.lor (Z.shiftl (v - 55296) 10) (v2 - 56320) + 65536 in
            out ← utf16_to_utf8_from (advance (advance left)) c; Some (utf8_4 k ++ out)
        | [] => None
        end
      else
        out ← utf16_to_utf8_from (advance left) c; Some (utf8_3 v ++ out)
  end.

(** The block returned and [*size]. *)
Definition hl_utf16_to_utf8 (junk : Z) (str : list Z) (len : Z) : option (list Z * Z) :=
  let left := if len =? 0 then None else Some len in
  utf8bytes ← utf8_bytes_from left str 0;
  out ← utf16_to_utf8_from left str;
  out ← block_write junk (utf8bytes + 1) out;
  Some (out, utf8bytes).

Definition hl_to_utf8 (junk : Z) (bytes : list Z) : option (list Z) :=
  '(out, _) ← hl_utf16_to_utf8 junk bytes 0; Some out.

Definition hl_buffer_cstr (junk : Z) (b : hl_buffer) (s : option (list Z)) : option hl_buffer :=
  match s with
  | Some s =>
      len ← hl_utf8_length s 0;
      '(out, _) ← hl_from_utf8 len s;
      out ← block_write junk (len + 1) out;
      hl_buffer_str_sub junk b (Some out) len
  | None => hl_buffer_str_sub junk b (Some ustr_null) 4
  end.

(** ** URL encoding, into any text sink *)
Definition hex : list Z := [48; 49; 50; 51; 52; 53; 54; 55; 56; 57; 65; 66; 67; 68; 69; 70].

Definition decode_hex_char (c : Z) : Z :=
  if (c >=? 48) && (c <=? 57) then u16 (c - 48)
  else if (c >=? 97) && (c <=? 102) then u16 (c - (97 - 10))
  else if (c >=? 65) && (c <=? 70) then u16 (c - (65 - 10))
  else 65535.

(** The value (65535 when a digit is missing) and the pointer after it. *)
Definition decode_hex (cstr : list Z) : option (Z * list Z) :=
  match cstr with
  | [] => None
  | c0 :: rest =>
      let p1 := decode_hex_char c0 in
      if p1 =? 65535 then Some (p1, cstr) else
      match rest with
      | [] => None
      | c1 :: rest =>
          let p2 := decode_hex_char c1 in
          if p2 =? 65535 then Some (p2, cstr)
          else Some (u16 (Z.lor (Z.shiftl p1 4) p2), rest)
      end
  end.

Section url.
Context {B : Type} {sink : TextSink B} (alloc_buffer : B).

Definition hl_buffer_hex (b : B) (c : Z) : option B :=
  b ← sink_char b 37;
  hi ← aget hex (Z.shiftr c 4);
  b ← sink_char b hi;
  lo ← aget hex (Z.land c 15);
  sink_char b lo.

Definition hex_seq (b : B) (cs : list Z) : option B :=
  foldl (fun b c => b ← b; hl_buffer_hex b c) (Some b) cs.

Definition unreserved (c : Z) : bool :=
  ((c >=? 65) && (c <=? 90)) || ((c >=? 97) && (c <=? 122)) || ((c >=? 48) && (c <=? 57))
  || (c =? 95) || (c =? 45) || (c =? 46).

Definition seq2 (c : Z) : list Z := [Z.lor 192 (Z.shiftr c 6); Z.lor 128 (Z.land c 63)].
Definition seq3 (c : Z) : list Z :=
  [Z.lor 224 (Z.shiftr c 12); Z.lor 128 (Z.land (Z.shiftr c 6) 63); Z.lor 128 (Z.land c 63)].
Definition seq4 (c : Z) : list Z :=
  [Z.lor 240 (Z.shiftr c 18); Z.lor 128 (Z.land (Z.shiftr c 12) 63);
   Z.lor 128 (Z.land (Z.shiftr c 6) 63); Z.lor 128 (Z.land c 63)].

Fixpoint url_encode_loop (cstr : list Z) (b : B) : option B :=
  match cstr with
  | [] => None
  | c :: cstr =>
      if c =? 0 then Some b
      else if unreserved c then b ← sink_char b (u16 c); url_encode_loop cstr b
      else if c <? 128 then b ← hl_buffer_hex b c; url_encode_loop cstr b
      else if c <? 2048 then b ← hex_seq b (seq2 c); url_encode_loop cstr b
      else if (c >=? 55296) && (c <=? 56319) then
        match cstr with
        | [] => None
        | sur :: rest =>
            if (sur >=? 56320) && (sur <? 57343) then
              let c := Z.lor (Z.shiftl (c - 55296) 10) (sur - 56320) + 65536 in
              b ← hex_seq b (seq4 c); url_encode_loop rest b
            else b ← hex_seq b (seq3 c); url_encode_loop cstr b
        end
      else b ← hex_seq b (seq3 c); url_encode_loop cstr b
  end.
Definition hl_url_encode (str : list Z) : option (list Z * Z) :=
  b ← url_encode_loop str alloc_buffer; sink_content b.

(** [if( *cstr++ != '%' ) break; p = decode_hex(&cstr); if( p < 0 ) break;]: the
    second test is on an unsigned 16-bit value and never succeeds.  The outer
    [option] is undefined behaviour, the inner one the [break]. *)
Definition decode_next (cstr : list Z) : option (option (Z * list Z)) :=
  match cstr with
  | [] => None
  | c :: cstr =>
      if negb (c =? 37) then Some None else
      '(p, cstr) ← decode_hex cstr;
      if p <? 0 then Some None else Some (Some (p, cstr))
  end.

(** One turn of the decoding loop. *)
Definition url_decode_step (s : list Z * B) : option (list Z * B + outcome (list Z * Z)) :=
  let '(cstr, b) := s in
  match cstr with
  | [] => None
  | c :: cstr =>
      let emit b c cstr := b ← sink_char b c; Some (inl (cstr, b)) in
      let malformed := Some (inr (Raise "Malformed URL encoded")) in
      if c =? 0 then r ← sink_content b; Some (inr (Done r))
      else if c =? 43 then emit b 32 cstr
      else if c =? 37 then
        '(p1, cstr) ← decode_hex cstr;
        if p1 =? 65535 then emit b 37 cstr
        else if p1 <? 128 then emit b p1 cstr
        else if p1 <? 224 then
          r2 ← decode_next cstr;
          match r2 with
          | None => malformed
          | Some (p2, cstr) => emit b (u16 (Z.lor (Z.shiftl (Z.land p1 63) 6) (Z.land p2 127))) cstr
          end
        else if p1 <? 240 then
          r2 ← decode_next cstr;
          match r2 with
          | None => malformed
          | Some (p2, cstr) =>
              r3 ← decode_next cstr;
              match r3 with
              | None => malformed
              | Some (p3, cstr) =>
                  emit b (u16 (Z.lor (Z.lor (Z.shiftl (Z.land p1 31) 12) (Z.shiftl (Z.land p2 127) 6))
                                 (Z.land p3 127))) cstr
              end
          end
        else
          r2 ← decode_next cstr;
          match r2 with
          | None => malformed
          | Some (p2, cstr) =>
              r3 ← decode_next cstr;
              match r3 with
              | None => malformed
              | Some (p3, cstr) =>
                  r4 ← decode_next cstr;
                  match r4 with
                  | None => malformed
                  | Some (p4, cstr) =>
                      let k := Z.lor (Z.lor (Z.lor (Z.shiftl (Z.land p1 15) 18) (Z.shiftl (Z.land p2 127) 12))
                                        (Z.shiftl (Z.land p3 127) 6)) (Z.land p4 127) - 65536 in
                      b ← sink_char b (u16 (Z.shiftr k 10 + 55296));
                      emit b (u16 (Z.lor (Z.land k 1023) 56320)) cstr
                  end
              end
          end
      else emit b c cstr
  end.
Definition hl_url_decode (str : list Z) : outcome (list Z * Z) :=
  match loop url_decode_step (S (length str)) (str, alloc_buffer) with
  | Some r => r
  | None => Undef
  end.
End url.

(** ** The Unicode encodings *)
(** A non-zero Unicode scalar value. *)
Definition scalar (c : Z) : Prop := 0 < c < 55296 \/ 57344 <= c < 1114112.
Definition utf8_cp (c : Z) : list Z :=
  if c <? 128 then [c]
  else if c <? 2048 then [192 + c / 64; 128 + c mod 64]
  else if c <? 65536 then [224 + c / 4096; 128 + c / 64 mod 64; 128 + c mod 64]
  else [240 + c / 262144; 128 + c / 4096 mod 64; 128 + c / 64 mod 64; 128 + c mod 64].
Definition utf16_cp (c : Z) : list Z :=
  if c <? 65536 then [c]
  else [55296 + (c - 65536) / 1024; 56320 + (c - 65536) mod 1024].
Definition utf8 (cs : list Z) : list Z := concat (utf8_cp <$> cs).
Definition utf16 (cs : list Z) : list Z := concat (utf16_cp <$> cs).

Lemma utf8_cons c cs : utf8 (c :: cs) = utf8_cp c ++ utf8 cs.
Proof. done. Qed.
Lemma utf16_cons c cs : utf16 (c :: cs) = utf16_cp c ++ utf16 cs.
Proof. done. Qed.

Ltac z_masks :=
  rewrite ?(land_mask 3 _ 7), ?(land_mask 4 _ 15), ?(land_mask 5 _ 31), ?(land_mask 6 _ 63),
    ?(land_mask 7 _ 127), ?(land_mask 10 _ 1023) by (lia || reflexivity);
  rewrite ?shiftr_div, ?shiftl_mul by lia; unfold uN; norm_pow2.
(** [l] is [a + x] by disjointness above bit [k]. *)
Ltac lor_in k m := rewrite (lor_add k (_ * m)) by (norm_pow2; z_div).
Ltac lor_at k := rewrite (lor_add k) by (norm_pow2; z_div).

Lemma land_128 a : 128 <= a < 256 -> Z.land a 128 = 128.
Proof.
  intros H. apply Z.eqb_eq. apply (range_forall (fun a => Z.land a 128 =? 128) 128 128); [by vm_compute|lia].
Qed.

Lemma cmp_true_lt a b : a < b -> (a <? b) = true. Proof. apply Z.ltb_lt. Qed.
Lemma cmp_false_lt a b : b <= a -> (a <? b) = false. Proof. apply Z.ltb_ge. Qed.

(** Decide the next integer test of the goal with [lia]. *)
Ltac z_test :=
  match goal with
  | |- context [?a <? ?b] =>
      first [rewrite (proj2 (Z.ltb_lt a b)) by z_div | rewrite (proj2 (Z.ltb_ge a b)) by z_div]
  | |- context [?a =? ?b] =>
      first [rewrite (proj2 (Z.eqb_eq a b)) by z_div | rewrite (proj2 (Z.eqb_neq a b)) by z_div]
  | |- context [?a <=? ?b] =>
      first [rewrite (proj2 (Z.leb_le a b)) by z_div | rewrite (proj2 (Z.leb_gt a b)) by z_div]
  | |- context [?a >=? ?b] => rewrite (Z.geb_leb a b)
  | |- context [?a >? ?b] => rewrite (Z.gtb_ltb a b)
  end.
Ltac z_tests := repeat (z_test; cbn [andb orb negb]).

Lemma length_step c m n : scalar c ->
  utf8_length_from (utf8_cp c ++ m) n = utf8_length_from m (n + alen (utf16_cp c)).
Proof.
  intros Hc. unfold scalar in Hc. unfold utf8_cp, utf16_cp. repeat case_if_bool; cbn [app utf8_length_from]; z_tests;
    rewrite <- ?Z.land_assoc, ?land_128 by z_div; z_tests; unfold alen; simpl; f_equal; lia.
Qed.

Lemma from_utf8_step c m p outLen out r : scalar c -> p + alen (utf16_cp c) <= outLen ->
  from_utf8_from (p + alen (utf16_cp c)) outLen m = Some (out, r) ->
  from_utf8_from p outLen (utf8_cp c ++ m) = Some (utf16_cp c ++ out, r).
Proof.
  intros Hc. unfold scalar in Hc. unfold utf8_cp, utf16_cp, alen.
  change (Z.of_nat 1) with 1. change (Z.of_nat 2) with 2.
  repeat case_if_bool; try lia; cbn [app from_utf8_from length]; intros Hp Hm; z_tests; z_masks;
    replace (p + 1 + 1) with (p + 2) by lia;
    change (Z.of_nat 1) with 1 in Hm; change (Z.of_nat 2) with 2 in Hm;
    rewrite Hm; cbn -[Z.div Z.modulo Z.mul].
  - rewrite (Z.mod_small c) by lia. done.
  - lor_at 6. do 3 f_equal. z_div.
  - lor_in 12 4096. lor_at 6. do 3 f_equal. z_div.
  - lor_in 18 262144. rewrite (lor_add 12 (_ + _) (_ * 64)) by z_div.
    rewrite (lor_add 6 _ (_ mod 128)) by z_div.
    match goal with |- context [(?v - 65536) mod 4294967296] => assert (v = c) as -> by z_div end.
    rewrite (Z.mod_small (c - 65536)) by lia.
    rewrite (Z.lor_comm _ 56320), (lor_add 10 56320) by z_div. do 3 f_equal; [z_div|f_equal; z_div].
Qed.

Lemma utf8_bytes_step c m n : scalar c ->
  utf8_bytes_from None (utf16_cp c ++ m) n = utf8_bytes_from None m (n + alen (utf8_cp c)).
Proof.
  intros Hc. unfold utf8_cp, utf16_cp. destruct Hc; repeat case_if_bool; try lia; cbn [app utf8_bytes_from];
    change (at_end None) with false; change (no_end None) with true; cbn [advance fmap option_fmap option_map];
    z_tests; unfold alen; simpl; f_equal; lia.
Qed.

Lemma utf16_to_utf8_step c m out : scalar c -> utf16_to_utf8_from None m = Some out ->
  utf16_to_utf8_from None (utf16_cp c ++ m) = Some (utf8_cp c ++ out).
Proof.
  intros Hc Hm. unfold utf8_cp, utf16_cp. destruct Hc; repeat case_if_bool; try lia; cbn [app utf16_to_utf8_from];
    change (at_end None) with false; change (no_end None) with true; cbn [advance fmap option_fmap option_map];
    z_tests; rewrite Hm; cbn -[Z.div Z.modulo Z.mul]; unfold utf8_2, utf8_3, utf8_4; f_equal.
  all: z_masks.
  all: try (f_equal; z_div).
  all: try (rewrite (lor_add 10 (_ * 1024)) by z_div;
    match goal with |- context [Z.lor 240 (?v / _)] => assert (v = c) as -> by z_div end).
  all: rewrite ?(lor_add 3 240), ?(lor_add 4 224), ?(lor_add 6 192), ?(lor_add 6 128) by z_div; cbn -[Z.div Z.modulo Z.mul].
  all: repeat match goal with
    | |- ?a :: _ = ?b :: _ => replace a with b by z_div; apply f_equal
    end; done.
Qed.

(** *** Whole strings *)
Lemma utf8_length_spec cs m n : Forall scalar cs ->
  utf8_length_from (utf8 cs ++ 0 :: m) n = Some (n + alen (utf16 cs)).
Proof.
  intros H. revert n. induction H as [|c cs Hc _ IH]; intros n.
  - simpl. f_equal. change (alen (utf16 [])) with 0. lia.
  - rewrite utf8_cons, utf16_cons, <- app_assoc, length_step, IH, alen_app by done. f_equal. lia.
Qed.

Lemma from_utf8_spec cs m p outLen : Forall scalar cs -> outLen = p + alen (utf16 cs) ->
  from_utf8_from p outLen (utf8 cs ++ 0 :: m) = Some (utf16 cs ++ [0], outLen).
Proof.
  intros H. revert p. induction H as [|c cs Hc _ IH]; intros p Hp.
  - change (alen (utf16 [])) with 0 in Hp. simpl. rewrite (proj2 (Z.ltb_ge _ _)) by lia.
    simpl. do 2 f_equal. lia.
  - rewrite utf16_cons, alen_app in Hp. pose proof (alen_nonneg (utf16 cs)).
    rewrite utf8_cons, utf16_cons, <- !app_assoc. apply from_utf8_step; [done|lia|]. apply IH. lia.
Qed.

Lemma utf8_bytes_spec cs m n : Forall scalar cs ->
  utf8_bytes_from None (utf16 cs ++ 0 :: m) n = Some (n + alen (utf8 cs)).
Proof.
  intros H. revert n. induction H as [|c cs Hc _ IH]; intros n.
  - simpl. f_equal. change (alen (utf8 [])) with 0. lia.
  - rewrite utf8_cons, utf16_cons, <- app_assoc, utf8_bytes_step, IH, alen_app by done. f_equal. lia.
Qed.

Lemma utf16_to_utf8_from_spec cs m : Forall scalar cs ->
  utf16_to_utf8_from None (utf16 cs ++ 0 :: m) = Some (utf8 cs ++ [0]).
Proof.
  induction 1 as [|c cs Hc _ IH]; [done|].
  rewrite utf8_cons, utf16_cons, <- !app_assoc. by apply utf16_to_utf8_step.
Qed.

Lemma block_write_full junk n out : n = alen out -> block_write junk n out = Some out.
Proof.
  intros ->. unfold block_write, acopy. pose proof (alen_nonneg out).
  rewrite decide_True by (rewrite alen_replicate; lia). f_equal.
  rewrite Z.add_0_l, (drop_ge (replicate _ _)) by (rewrite length_replicate; lia).
  change (Z.to_nat 0) with 0%nat. rewrite app_nil_r, take_0, drop_0. simpl.
  apply take_ge. unfold alen. lia.
Qed.

Lemma utf16_to_utf8_spec junk cs m : Forall scalar cs ->
  hl_utf16_to_utf8 junk (utf16 cs ++ 0 :: m) 0 = Some (utf8 cs ++ [0], alen (utf8 cs)).
Proof.
  intros H. unfold hl_utf16_to_utf8. simpl. rewrite utf8_bytes_spec, utf16_to_utf8_from_spec by done. simpl.
  rewrite Z.add_0_l, block_write_full by (rewrite alen_app; change (alen [0]) with 1; lia). done.
Qed.

Lemma utf8_to_utf16_spec junk pre cs m : Forall scalar cs -> 2 * alen (utf16 cs) <= INT_MAX ->
  hl_utf8_to_utf16 junk (pre ++ utf8 cs ++ 0 :: m) (alen pre) = Some (utf16 cs ++ [0], 2 * alen (utf16 cs)).
Proof.
  intros H Hmax. unfold hl_utf8_to_utf16, hl_utf8_length, hl_from_utf8.
  replace (Z.to_nat (alen pre)) with (length pre) by (unfold alen; lia). rewrite drop_app_length.
  rewrite utf8_length_spec by done. simpl. pose proof (alen_nonneg (utf16 cs)).
  rewrite from_utf8_spec by (done || lia). simpl.
  rewrite Z.add_0_l, block_write_full by (rewrite alen_app; change (alen [0]) with 1; lia). simpl.
  rewrite shiftl_mul by lia. norm_pow2. rewrite int_of_Some by (unfold in_i32, INT_MIN in *; lia). simpl.
  do 2 f_equal. lia.
Qed.

Lemma utf8_injective cs1 cs2 m1 m2 : Forall scalar cs1 -> Forall scalar cs2 ->
  utf8 cs1 ++ 0 :: m1 = utf8 cs2 ++ 0 :: m2 -> utf16 cs1 = utf16 cs2.
Proof.
  intros H1 H2 He.
  pose proof (utf8_length_spec cs1 m1 0 H1) as L1. rewrite He, utf8_length_spec in L1 by done.
  assert (alen (utf16 cs2) = alen (utf16 cs1)) as Hl by (injection L1; lia).
  pose proof (from_utf8_spec cs1 m1 0 (alen (utf16 cs1)) H1 ltac:(lia)) as D1.
  rewrite He, from_utf8_spec in D1 by (done || lia).
  injection D1 as D1. by apply app_inj_tail in D1 as [-> _].
Qed.

(** ** URL encoding *)
Section url_proofs.
Context {B : Type} {sink : TextSink B}.
Implicit Types b : B.

(** What the encoder writes for each character it consumes. *)
Definition pct (c : Z) : list Z :=
  [37; default 0 (aget hex (Z.shiftr c 4)); default 0 (aget hex (Z.land c 15))].
Definition pcts (cs : list Z) : list Z := concat (pct <$> cs).
Fixpoint url_text (s : list Z) : list Z :=
  match s with
  | [] => []
  | c :: s =>
      if unreserved c then c :: url_text s
      else if c <? 128 then pct c ++ url_text s
      else if c <? 2048 then pcts (seq2 c) ++ url_text s
      else if (c >=? 55296) && (c <=? 56319) then
        match s with
        | [] => pcts (seq3 c)
        | sur :: rest =>
            if (sur >=? 56320) && (sur <? 57343) then
              pcts (seq4 (Z.lor (Z.shiftl (c - 55296) 10) (sur - 56320) + 65536)) ++ url_text rest
            else pcts (seq3 c) ++ url_text s
        end
      else pcts (seq3 c) ++ url_text s
  end.

(** [f] appends [txt] to any sink with room for it. *)
Definition appends (f : B -> option B) (txt : list Z) : Prop :=
  forall b n, sink_ok b (n + alen txt) -> 0 <= n ->
    exists b', f b = Some b' /\ sink_ok b' n /\ sink_text b' = sink_text b ++ txt.

Lemma appends_char c : appends (fun b => sink_char b c) [c].
Proof.
  intros b n Hb Hn. destruct (sink_char_spec b (n + alen [c]) c Hb) as (b' & Hc & Hok & Ht).
  { change (alen [c]) with 1. lia. }
  exists b'. change (alen [c]) with 1 in Hok. replace (n + 1 - 1) with n in Hok by lia. done.
Qed.
Lemma appends_seq f g t1 t2 : appends f t1 -> appends g t2 -> appends (fun b => b ← f b; g b) (t1 ++ t2).
Proof.
  intros Hf Hg b n Hb Hn. rewrite alen_app in Hb. pose proof (alen_nonneg t2).
  destruct (Hf b (n + alen t2)) as (b1 & -> & H1 & Ht1); [by replace (n + alen t2 + alen t1) with (n + (alen t1 + alen t2)) by lia|lia|].
  simpl. destruct (Hg b1 n H1 Hn) as (b2 & -> & H2 & Ht2). exists b2. split; [done|]. split; [done|].
  by rewrite Ht2, Ht1, app_assoc.
Qed.
Lemma appends_ext f g t : (forall b, f b = g b) -> appends f t -> appends g t.
Proof. intros He Hf b n Hb Hn. rewrite <- He. by apply Hf. Qed.

Lemma appends_hex c : 0 <= c < 256 -> appends (fun b => hl_buffer_hex b c) (pct c).
Proof.
  intros Hc. unfold pct.
  assert (0 <= Z.shiftr c 4 < 16 /\ 0 <= Z.land c 15 < 16) as [H1 H2] by (z_masks; z_div).
  destruct (aget_is_Some hex (Z.shiftr c 4)) as [hi Hhi]; [by change (alen hex) with 16|].
  destruct (aget_is_Some hex (Z.land c 15)) as [lo Hlo]; [by change (alen hex) with 16|].
  rewrite Hhi, Hlo.
  eapply (appends_ext (fun b => b ← sink_char b 37; b ← sink_char b hi; sink_char b lo)).
  { intros b. unfold hl_buffer_hex. destruct (sink_char b 37); [simpl|done]. rewrite Hhi. simpl.
    destruct (sink_char _ hi); [simpl|done]. by rewrite Hlo. }
  simpl. apply (appends_seq _ _ [37] [hi; lo]); [apply appends_char|].
  apply (appends_seq _ _ [hi] [lo]); apply appends_char.
Qed.

Lemma hex_seq_none cs : foldl (fun (b : option B) c => b ← b; hl_buffer_hex b c) None cs = None.
Proof. by induction cs. Qed.
Lemma appends_hex_seq cs : Forall (fun c => 0 <= c < 256) cs -> appends (fun b => hex_seq b cs) (pcts cs).
Proof.
  induction 1 as [|c cs Hc _ IH].
  - intros b n Hb Hn. exists b. change (alen (pcts [])) with 0 in Hb. rewrite Z.add_0_r in Hb.
    split; [done|]. split; [done|]. by rewrite app_nil_r.
  - change (pcts (c :: cs)) with (pct c ++ pcts cs).
    eapply (appends_ext (fun b => b ← hl_buffer_hex b c; hex_seq b cs)).
    { intros b. unfold hex_seq. simpl. destruct (hl_buffer_hex b c); simpl; [done|]. by rewrite hex_seq_none. }
    apply appends_seq; [by apply appends_hex|done].
Qed.

Lemma seq_bytes c : 0 <= c < 65536 ->
  (c < 2048 -> Forall (fun c => 0 <= c < 256) (seq2 c)) /\ Forall (fun c => 0 <= c < 256) (seq3 c).
Proof.
  intros Hc. unfold seq2, seq3. split; [intros|]; repeat constructor; z_masks;
    rewrite ?(lor_add 4 224), ?(lor_add 5 192), ?(lor_add 6 128) by z_div; z_div.
Qed.
Lemma seq4_bytes c : 65536 <= c < 1114112 -> Forall (fun c => 0 <= c < 256) (seq4 c).
Proof.
  intros Hc. unfold seq4. repeat constructor; z_masks;
    rewrite ?(lor_add 3 240), ?(lor_add 6 128) by z_div; z_div.
Qed.

(** The code point of a surrogate pair, as the C expression computes it. *)
Lemma pair_value c d : 55296 <= c < 56320 -> 56320 <= d < 57344 ->
  Z.lor (Z.shiftl (c - 55296) 10) (d - 56320) + 65536 = (c - 55296) * 1024 + (d - 56320) + 65536.
Proof. intros. z_masks. rewrite (lor_add 10) by (norm_pow2; z_div). done. Qed.

Lemma url_encode_loop_spec s m : uchars s -> Forall (fun c => c <> 0) s ->
  appends (url_encode_loop (s ++ 0 :: m)) (url_text s).
Proof.
  remember (length s) as n eqn:Hn. revert s Hn. induction n as [n IH] using lt_wf_ind.
  intros [|c s] Hn Hu Hz.
  { intros b k Hb Hk. simpl in *. exists b. rewrite Z.add_0_r in Hb. rewrite app_nil_r. done. }
  inversion Hu as [|? ? Hc Hu']; inversion Hz as [|? ? Hcz Hz']; subst. norm_pow2.
  assert (forall f t, appends f t -> appends (fun b => b ← f b; url_encode_loop (s ++ 0 :: m) b) (t ++ url_text s)) as Hone.
  { intros f t' Hf. apply appends_seq; [done|]. apply (IH (length s)); [simpl; lia|done..]. }
  pose proof (seq_bytes c Hc) as [Hs2 Hs3]. specialize (Hone (fun b => sink_char b c) [c] (appends_char c)) as Hchar.
  cbn [app url_encode_loop url_text]. rewrite (proj2 (Z.eqb_neq c 0)) by done.
  assert (u16 c = c) as Hu16 by (apply uN_small; norm_pow2; lia).
  destruct (unreserved c). { rewrite Hu16. done. }
  case_if_bool. { apply (Hone _ (pct c)), appends_hex. lia. }
  case_if_bool. { apply Hone, appends_hex_seq. apply Hs2. lia. }
  pose proof (Hone _ _ (appends_hex_seq _ Hs3)) as H3.
  destruct ((c >=? 55296) && (c <=? 56319)) eqn:E1; [|done]. zbool.
  destruct s as [|sur s]; cbn [app] in *; [by rewrite app_nil_r in H3|].
  destruct ((sur >=? 56320) && (sur <? 57343)) eqn:E2; [|done]. zbool.
  inversion Hu' as [|? ? Hsu Hu'']; inversion Hz' as [|? ? ? Hz'']; subst. norm_pow2.
  rewrite pair_value by lia. apply appends_seq; [apply appends_hex_seq, seq4_bytes; lia|].
  apply (IH (length s)); [simpl; lia|done..].
Qed.

(** *** Decoding *)
(** One turn of the decoder reads [txt] and emits [u]. *)
Definition decodes (txt u : list Z) : Prop :=
  txt <> [] /\ forall rest b n, sink_ok b (n + alen u) -> 0 <= n ->
    exists b', url_decode_step (txt ++ rest, b) = Some (inl (rest, b')) /\ sink_ok b' n /\
      sink_text b' = sink_text b ++ u.

Lemma decode_hex_pct c rest : 0 <= c < 256 ->
  decode_hex (tail (pct c) ++ rest) = Some (c, rest).
Proof.
  intros Hc.
  pose proof (range_forall (fun c => match tail (pct c) with
    | [a; b] => bool_decide (decode_hex_char a <> 65535) && bool_decide (decode_hex_char b <> 65535) &&
        bool_decide (u16 (Z.lor (Z.shiftl (decode_hex_char a) 4) (decode_hex_char b)) = c)
    | _ => false end) 0 256 ltac:(by vm_compute) c ltac:(lia)) as H.
  unfold pct in *. cbn [tail app] in *. apply andb_true_iff in H as [[H1 H2]%andb_true_iff H3].
  apply bool_decide_eq_true in H1, H2, H3. cbn [decode_hex].
  rewrite (proj2 (Z.eqb_neq _ _)) by done. rewrite (proj2 (Z.eqb_neq _ _)) by done. by rewrite H3.
Qed.
Lemma decode_next_pct c rest : 0 <= c < 256 -> decode_next (pct c ++ rest) = Some (Some (c, rest)).
Proof.
  intros Hc. change (pct c ++ rest) with (37 :: (tail (pct c) ++ rest)). unfold decode_next.
  rewrite (proj2 (Z.eqb_eq 37 37)) by done. cbn [negb]. rewrite decode_hex_pct by done. simpl.
  rewrite (proj2 (Z.ltb_ge c 0)) by lia. done.
Qed.

Lemma decodes_plain c : unreserved c = true -> decodes [c] [c].
Proof.
  intros Hc. split; [done|]. intros rest b n Hb Hn. cbn [app url_decode_step].
  unfold unreserved in Hc. assert (c <> 0 /\ c <> 43 /\ c <> 37) as (? & ? & ?).
  { rewrite !orb_true_iff, !andb_true_iff in Hc. rewrite !Z.geb_leb, !Z.leb_le, !Z.eqb_eq in Hc. lia. }
  rewrite !(proj2 (Z.eqb_neq _ _)) by done.
  destruct (appends_char c b n Hb Hn) as (b' & Hs & Hok & Ht). cbv beta in Hs. rewrite Hs. simpl. eauto.
Qed.

(** The first byte of an escape sequence. *)
Lemma decode_step_pct c rest b : 0 <= c < 256 ->
  url_decode_step (pct c ++ rest, b) =
    (let emit b c cstr := b ← sink_char b c; Some (inl (cstr, b)) in
     let malformed := Some (inr (Raise "Malformed URL encoded")) in
     if c <? 128 then emit b c rest
     else if c <? 224 then
       r2 ← decode_next rest;
       match r2 with
       | None => malformed
       | Some (p2, cstr) => emit b (u16 (Z.lor (Z.shiftl (Z.land c 63) 6) (Z.land p2 127))) cstr
       end
     else if c <? 240 then
       r2 ← decode_next rest;
       match r2 with
       | None => malformed
       | Some (p2, cstr) =>
           r3 ← decode_next cstr;
           match r3 with
           | None => malformed
           | Some (p3, cstr) =>
               emit b (u16 (Z.lor (Z.lor (Z.shiftl (Z.land c 31) 12) (Z.shiftl (Z.land p2 127) 6))
                              (Z.land p3 127))) cstr
           end
       end
     else
       r2 ← decode_next rest;
       match r2 with
       | None => malformed
       | Some (p2, cstr) =>
           r3 ← decode_next cstr;
           match r3 with
           | None => malformed
           | Some (p3, cstr) =>
               r4 ← decode_next cstr;
               match r4 with
               | None => malformed
               | Some (p4, cstr) =>
                   let k := Z.lor (Z.lor (Z.lor (Z.shiftl (Z.land c 15) 18) (Z.shiftl (Z.land p2 127) 12))
                                     (Z.shiftl (Z.land p3 127) 6)) (Z.land p4 127) - 65536 in
                   b ← sink_char b (u16 (Z.shiftr k 10 + 55296));
                   emit b (u16 (Z.lor (Z.land k 1023) 56320)) cstr
               end
           end
       end).
Proof.
  intros Hc. change (pct c ++ rest) with (37 :: (tail (pct c) ++ rest)). unfold url_decode_step at 1.
  rewrite (proj2 (Z.eqb_neq 37 0)), (proj2 (Z.eqb_neq 37 43)), (proj2 (Z.eqb_eq 37 37)) by done.
  rewrite decode_hex_pct by done. simpl. rewrite (proj2 (Z.eqb_neq c 65535)) by lia. done.
Qed.

(** Emitting the decoded character ends the turn. *)
Lemma emit_spec b c rest n : sink_ok b (n + 1) -> 0 <= n ->
  exists b', (b ← sink_char b c; Some (inl (rest, b')) ) = (Some (inl (rest, b')) : option (list Z * B + outcome (list Z * Z)))
    /\ sink_ok b' n /\ sink_text b' = sink_text b ++ [c] /\ sink_char b c = Some b'.
Proof.
  intros Hb Hn. destruct (appends_char c b n Hb Hn) as (b' & Hs & Hok & Ht). cbv beta in Hs.
  exists b'. rewrite Hs. done.
Qed.

Lemma decodes_1 c : 0 <= c < 128 -> decodes (pct c) [c].
Proof.
  intros Hc. split; [done|]. intros rest b n Hb Hn. rewrite decode_step_pct by lia. cbv zeta.
  rewrite (proj2 (Z.ltb_lt c 128)) by lia.
  destruct (emit_spec b c rest n Hb Hn) as (b' & _ & Hok & Ht & ->). simpl. eauto.
Qed.

Lemma decodes_2 c : 128 <= c < 2048 -> decodes (pcts (seq2 c)) [c].
Proof.
  intros Hc. split; [done|]. intros rest b n Hb Hn.
  pose proof (seq_bytes c ltac:(lia)) as [Hs2 _]. specialize (Hs2 ltac:(lia)). unfold seq2 in *.
  inversion Hs2 as [|? ? Ha Hs']; inversion Hs' as [|? ? Hb' _]; subst. clear Hs2 Hs'.
  change (pcts [?x; ?y]) with (pct x ++ pct y ++ []). rewrite app_nil_r, <- app_assoc.
  rewrite decode_step_pct, decode_next_pct by done. cbv zeta. cbn [mbind option_bind].
  assert (Z.lor 192 (Z.shiftr c 6) = 192 + c / 64) as -> by (z_masks; rewrite (lor_add 5 192) by z_div; done).
  assert (Z.lor 128 (Z.land c 63) = 128 + c mod 64) as -> by (z_masks; rewrite (lor_add 6 128) by z_div; done).
  z_tests.
  assert (u16 (Z.lor (Z.shiftl (Z.land (192 + c / 64) 63) 6) (Z.land (128 + c mod 64) 127)) = c) as ->
    by (z_masks; rewrite (lor_add 6) by z_div; z_div).
  destruct (emit_spec b c rest n Hb Hn) as (b' & _ & Hok & Ht & ->). simpl. eauto.
Qed.

Lemma decodes_3 c : 2048 <= c < 65536 -> decodes (pcts (seq3 c)) [c].
Proof.
  intros Hc. split; [done|]. intros rest b n Hb Hn.
  pose proof (seq_bytes c ltac:(lia)) as [_ Hs]. unfold seq3 in *.
  inversion Hs as [|? ? Ha Hs']; inversion Hs' as [|? ? Hb' Hs'']; inversion Hs'' as [|? ? Hc' _]; subst.
  clear Hs Hs' Hs''.
  change (pcts [?x; ?y; ?z]) with (pct x ++ pct y ++ pct z ++ []). rewrite app_nil_r, <- !app_assoc.
  rewrite decode_step_pct, !decode_next_pct by done. cbv zeta. cbn [mbind option_bind]. rewrite decode_next_pct by done. cbn [mbind option_bind].
  assert (Z.lor 224 (Z.shiftr c 12) = 224 + c / 4096) as -> by (z_masks; rewrite (lor_add 4 224) by z_div; done).
  assert (Z.lor 128 (Z.land (Z.shiftr c 6) 63) = 128 + c / 64 mod 64) as ->
    by (z_masks; rewrite (lor_add 6 128) by z_div; done).
  assert (Z.lor 128 (Z.land c 63) = 128 + c mod 64) as -> by (z_masks; rewrite (lor_add 6 128) by z_div; done).
  z_tests.
  assert (u16 (Z.lor (Z.lor (Z.shiftl (Z.land (224 + c / 4096) 31) 12)
            (Z.shiftl (Z.land (128 + c / 64 mod 64) 127) 6)) (Z.land (128 + c mod 64) 127)) = c) as ->
    by (z_masks; rewrite (lor_add 12 (_ * 4096)) by z_div; rewrite (lor_add 6 (_ + _)) by z_div; z_div).
  destruct (emit_spec b c rest n Hb Hn) as (b' & _ & Hok & Ht & ->). simpl. eauto.
Qed.

Lemma decodes_4 c d : 55296 <= c < 56320 -> 56320 <= d < 57344 ->
  decodes (pcts (seq4 ((c - 55296) * 1024 + (d - 56320) + 65536))) [c; d].
Proof.
  intros Hc Hd. split; [done|]. intros rest b n Hb Hn. set (k := (c - 55296) * 1024 + (d - 56320) + 65536).
  assert (65536 <= k < 1114112) as Hk by lia.
  pose proof (seq4_bytes k Hk) as Hs. unfold seq4 in *.
  inversion Hs as [|? ? Hq1 Hs1]; inversion Hs1 as [|? ? Hq2 Hs2]; inversion Hs2 as [|? ? Hq3 Hs3];
    inversion Hs3 as [|? ? Hq4 _]; subst. clear Hs Hs1 Hs2 Hs3.
  change (pcts [?x; ?y; ?z; ?w]) with (pct x ++ pct y ++ pct z ++ pct w ++ []). rewrite app_nil_r, <- !app_assoc.
  rewrite decode_step_pct, decode_next_pct by done. cbv zeta. cbn [mbind option_bind]. rewrite decode_next_pct by done. cbn [mbind option_bind].
  rewrite decode_next_pct by done. cbn [mbind option_bind].
  assert (Z.lor 240 (Z.shiftr k 18) = 240 + k / 262144) as -> by (z_masks; rewrite (lor_add 3 240) by z_div; done).
  assert (Z.lor 128 (Z.land (Z.shiftr k 12) 63) = 128 + k / 4096 mod 64) as ->
    by (z_masks; rewrite (lor_add 6 128) by z_div; done).
  assert (Z.lor 128 (Z.land (Z.shiftr k 6) 63) = 128 + k / 64 mod 64) as ->
    by (z_masks; rewrite (lor_add 6 128) by z_div; done).
  assert (Z.lor 128 (Z.land k 63) = 128 + k mod 64) as -> by (z_masks; rewrite (lor_add 6 128) by z_div; done).
  z_tests.
  assert (Z.lor (Z.lor (Z.lor (Z.shiftl (Z.land (240 + k / 262144) 15) 18)
                (Z.shiftl (Z.land (128 + k / 4096 mod 64) 127) 12))
             (Z.shiftl (Z.land (128 + k / 64 mod 64) 127) 6)) (Z.land (128 + k mod 64) 127) = k) as ->.
  { z_masks. rewrite (lor_add 18 (_ * 262144)) by z_div. rewrite (lor_add 12 (_ + _) (_ * 64)) by z_div.
    rewrite (lor_add 6 (_ + _)) by z_div. z_div. }
  assert (u16 (Z.shiftr (k - 65536) 10 + 55296) = c) as -> by (unfold k; z_masks; z_div).
  assert (u16 (Z.lor (Z.land (k - 65536) 1023) 56320) = d) as ->
    by (unfold k; rewrite Z.lor_comm; z_masks; rewrite (lor_add 10 56320) by z_div; z_div).
  change (alen [c; d]) with 2 in Hb.
  destruct (emit_spec b c rest (n + 1)) as (b' & _ & Hok & Ht & ->); [by replace (n + 1 + 1) with (n + 2) by lia|lia|].
  simpl. destruct (emit_spec b' d rest n Hok Hn) as (b'' & _ & Hok' & Ht' & ->). simpl.
  exists b''. split; [done|]. split; [done|]. rewrite Ht', Ht, <- app_assoc. done.
Qed.

(** An encoded string is a sequence of decodable units. *)
Inductive encoding : list Z -> list Z -> Prop :=
  | enc_nil : encoding [] []
  | enc_unit u txt s t : decodes txt u -> encoding s t -> encoding (u ++ s) (txt ++ t).

Lemma url_text_encoding s : uchars s -> Forall (fun c => c <> 0) s -> encoding s (url_text s).
Proof.
  remember (length s) as n eqn:Hn. revert s Hn. induction n as [n IH] using lt_wf_ind.
  intros [|c s] Hn Hu Hz; [constructor|].
  inversion Hu as [|? ? Hc Hu']; inversion Hz as [|? ? Hcz Hz']; subst. norm_pow2.
  assert (forall t, decodes t [c] -> encoding (c :: s) (t ++ url_text s)) as Hone.
  { intros t Ht. apply (enc_unit [c]); [done|]. apply (IH (length s)); [simpl; lia|done..]. }
  cbn [url_text]. destruct (unreserved c) eqn:Eu. { apply (Hone [c]). by apply decodes_plain. }
  case_if_bool. { apply Hone, decodes_1. lia. }
  case_if_bool. { apply Hone, decodes_2. lia. }
  pose proof (Hone _ (decodes_3 c ltac:(lia))) as H3.
  destruct ((c >=? 55296) && (c <=? 56319)) eqn:E1; [|done]. zbool.
  destruct s as [|sur s]; [by rewrite app_nil_r in H3|].
  destruct ((sur >=? 56320) && (sur <? 57343)) eqn:E2; [|done]. zbool.
  inversion Hu' as [|? ? Hsu Hu'']; inversion Hz' as [|? ? ? Hz'']; subst. norm_pow2.
  rewrite pair_value by lia. apply (enc_unit [c; sur]); [apply decodes_4; lia|].
  apply (IH (length s)); [simpl; lia|done..].
Qed.

Lemma url_decode_loop_spec s t m : encoding s t -> forall fuel b n,
  (length (t ++ 0%Z :: m) < fuel)%nat -> sink_ok b (n + alen s) -> 0 <= n ->
  loop url_decode_step fuel (t ++ 0 :: m, b) =
    Some (Done (sink_text b ++ s ++ [0], alen (sink_text b ++ s))).
Proof.
  induction 1 as [|u txt s t Hd _ IH]; intros fuel b n Hf Hb Hn; (destruct fuel as [|fuel]; [lia|]).
  - cbn [app loop url_decode_step]. change (0 =? 0) with true. cbv iota.
    rewrite (sink_content_spec b n) by (done || by rewrite Z.add_0_r in Hb). simpl. by rewrite app_nil_r.
  - destruct Hd as [Hne Hstep]. rewrite alen_app in Hb. rewrite <- app_assoc in *. cbn [loop].
    pose proof (alen_nonneg s).
    destruct (Hstep (t ++ 0 :: m) b (n + alen s)) as (b' & -> & Hok & Ht);
      [by replace (n + alen s + alen u) with (n + (alen u + alen s)) by lia|lia|].
    rewrite (IH fuel b' n); [|destruct txt; [done|]; simpl in Hf; rewrite length_app in Hf; simpl in *; lia|done..].
    rewrite Ht, <- !app_assoc. done.
Qed.
End url_proofs.

(** ** Properties *)
(** C26. UTF-16 text survives the trip through UTF-8.  For every list [cs] of non-zero
    Unicode scalar values, [hl_utf16_to_utf8] on the zero-terminated UTF-16 form
    returns exactly the standard UTF-8 form and its length in bytes, and
    [hl_utf8_to_utf16], at any position of a larger block, returns exactly the
    standard UTF-16 form; neither reads or writes outside its blocks. *)
Theorem utf16_utf8_roundtrip junk pre cs m :
  Forall scalar cs -> 2 * alen (utf16 cs) <= INT_MAX ->
  exists bytes, hl_utf16_to_utf8 junk (utf16 cs ++ 0 :: m) 0 = Some (bytes, alen (utf8 cs)) /\
    bytes = utf8 cs ++ [0] /\
    hl_utf8_to_utf16 junk (pre ++ bytes ++ m) (alen pre) = Some (utf16 cs ++ [0], 2 * alen (utf16 cs)).
Proof.
  intros H Hmax. exists (utf8 cs ++ [0]). split; [by apply utf16_to_utf8_spec|]. split; [done|].
  rewrite <- app_assoc. by apply utf8_to_utf16_spec.
Qed.

Lemma utf16_utf8_roundtrip_witness :
  exists bytes, hl_utf16_to_utf8 7 (utf16 [72; 233; 8364; 128512] ++ [0]) 0 = Some (bytes, 10) /\
    bytes = utf8 [72; 233; 8364; 128512] ++ [0] /\
    hl_utf8_to_utf16 7 ([1; 2] ++ bytes ++ []) 2 = Some (utf16 [72; 233; 8364; 128512] ++ [0], 10).
Proof.
  apply (utf16_utf8_roundtrip 7 [1; 2] [72; 233; 8364; 128512] []).
  - repeat constructor; unfold scalar; lia.
  - vm_compute. discriminate.
Defined.

(** URL decoding inverts URL encoding: for every zero-terminated 16-bit string
    (lone surrogates included), written through string buffers with room for the
    text, [hl_url_decode] on what [hl_url_encode] returned gives the string back
    with its length; the decoder never reports a malformed input on it. *)
Theorem url_roundtrip junk s m :
  uchars s -> Forall (fun c => c <> 0) s -> alen s + alen (url_text s) <= 2 ^ 29 ->
  exists enc, hl_url_encode (sink := hl_buffer_sink junk) hl_alloc_buffer (s ++ 0 :: m) = Some (enc, alen (url_text s)) /\
    hl_url_decode (sink := hl_buffer_sink junk) hl_alloc_buffer (enc ++ m) = Done (s ++ [0], alen s).
Proof.
  intros Hu Hz Hmax. pose proof (alen_nonneg s). pose proof (alen_nonneg (url_text s)).
  destruct alloc_wf as [Hwf Hc0].
  assert (forall n, n <= 2 ^ 29 -> sink_ok (TextSink := hl_buffer_sink junk) hl_alloc_buffer n) as Hok
    by (intros n Hn; split; [done|simpl; lia]).
  destruct (url_encode_loop_spec (sink := hl_buffer_sink junk) s m Hu Hz hl_alloc_buffer 0)
    as (b & Hb & Hbok & Ht); [apply Hok; lia|lia|].
  exists (url_text s ++ [0]). split.
  - unfold hl_url_encode. rewrite Hb. cbn [mbind option_bind].
    rewrite (sink_content_spec b 0) by (done || lia). rewrite Ht. done.
  - unfold hl_url_decode. rewrite <- app_assoc.
    rewrite (url_decode_loop_spec (sink := hl_buffer_sink junk) s (url_text s) m) with (n := 0);
      [done|by apply url_text_encoding|simpl; lia|apply Hok; lia|lia].
Qed.

Lemma url_roundtrip_witness :
  exists enc, hl_url_encode (sink := hl_buffer_sink 7) hl_alloc_buffer [97; 32; 233; 8364; 55357; 56832; 0] = Some (enc, 31) /\
    hl_url_decode (sink := hl_buffer_sink 7) hl_alloc_buffer (enc ++ []) = Done ([97; 32; 233; 8364; 55357; 56832] ++ [0], 6).
Proof.
  apply (url_roundtrip 7 [97; 32; 233; 8364; 55357; 56832] []).
  - unfold uchars. repeat constructor; norm_pow2; lia.
  - repeat constructor; lia.
  - vm_compute. discriminate.
Defined.

(** The low surrogate 0xDFFF is not recognised: the pair is written as two
    three-byte sequences instead of the four bytes of its code point. *)
Lemma url_encode_dfff :
  hl_url_encode (sink := hl_buffer_sink 0) hl_alloc_buffer [55356; 57343; 0] =
    Some (pcts (seq3 55356 ++ seq3 57343) ++ [0], 18) /\
  hl_url_encode (sink := hl_buffer_sink 0) hl_alloc_buffer [55356; 57342; 0] =
    Some (pcts (seq4 127998) ++ [0], 12).
Proof. split; vm_compute; reflexivity. Qed.

(** A malformed escape inside a multi-byte sequence is accepted: the test [p2 < 0] is
    on an unsigned value. *)
Lemma url_decode_malformed :
  hl_url_decode (sink := hl_buffer_sink 0) hl_alloc_buffer [37; 67; 51; 37; 0] = Done ([255; 0], 1).
Proof. vm_compute. reflexivity. Qed.
