(* ===== verification/Lookup.v ===== *)
(** * Field lookup tables and the field name cache ([src/std/obj.c])

    [hl_field_lookup] tables are arrays sorted by hashed name; [repr] says which
    finite map from hashes a table stands for.  The global name cache
    ([hl_cache], [hl_hash_gen], [hl_field_name]) is one such table: it interns
    names, so that a hash determines the name it was generated from even when two
    names collide.  [hash_chars] wraps where the code multiplies an [int] past its range:
    the C standard leaves that undefined, and every build relies on the wrapped value. *)
From S2P Require Import Prelude DataStruct Ustr.

(** ** Sorted lookup tables *)
Section lookup.
Context {T : Type}.

Record hl_field_lookup := FieldLookup { t : T; hashed_name : Z; field_index : Z }.
Implicit Types l : list hl_field_lookup.

Definition hash_at l (i : Z) : option Z := hashed_name <$> aget l i.

(** The lower-bound search of [hl_lookup_insert]. *)
Definition lower_bound (l : list hl_field_lookup) (size hash : Z) : option Z :=
  loop (fun '(min, max) =>
          if min <? max then
            sum ← int_add min max;
            let mid := Z.shiftr sum 1 in
            h ← hash_at l mid;
            if h <? hash then Some (inl (mid + 1, max)) else Some (inl (min, mid))
          else sum ← int_add min max; Some (inr (Z.shiftr sum 1)))
       (S (Z.to_nat size)) (0, size).

(** The new table and the index of the new entry. *)
Definition hl_lookup_insert (l : list hl_field_lookup) (size hash : Z) (ty : T) (index : Z)
    : option (list hl_field_lookup * Z) :=
  pos ← lower_bound l size hash;
  l ← insert_at l pos size (FieldLookup ty hash index);
  Some (l, pos).

(** The index of the entry found, [None] for a null pointer. *)
Definition hl_lookup_find (l : list hl_field_lookup) (size hash : Z) : option (option Z) :=
  r ← search (hash_at l) hash size;
  Some (match r with inr mid => Some mid | inl _ => None end).

Definition hl_lookup_find_index (l : list hl_field_lookup) (size hash : Z) : option Z :=
  r ← search (hash_at l) hash size;
  Some (match r with inr mid => mid | inl pos => pos end).

(** The table holds [size] entries with strictly increasing hashes, those of [m]. *)
Definition table_ok l (size : Z) : Prop :=
  0 <= size <= alen l /\ increasing (hash_at l) size.
Definition repr l (size : Z) (m : gmap Z (T * Z)) : Prop :=
  table_ok l size /\ forall h ty ix, m !! h = Some (ty, ix) <->
    exists i, 0 <= i < size /\ aget l i = Some (FieldLookup ty h ix).

Lemma lookup_empty_repr l : repr l 0 ∅.
Proof.
  pose proof (alen_nonneg l). split; [split; [lia|split; intros; lia]|].
  intros h ty ix. rewrite lookup_empty. split; [done|]. intros (i & ? & _). lia.
Qed.

Lemma lower_bound_spec l size hash : table_ok l size -> 2 * size <= INT_MAX ->
  exists pos, lower_bound l size hash = Some pos /\ 0 <= pos <= size /\
    (forall i a, 0 <= i < pos -> hash_at l i = Some a -> a < hash) /\
    (forall i a, pos <= i < size -> hash_at l i = Some a -> hash <= a).
Proof.
  intros [Hn [Htot Hinc]] Hmax. unfold lower_bound.
  match goal with |- context [loop ?st _ _] =>
    destruct (loop_total st
      (fun '(min, max) => 0 <= min <= max /\ max <= size /\
         (forall i a, 0 <= i < min -> hash_at l i = Some a -> a < hash) /\
         (forall i a, max <= i < size -> hash_at l i = Some a -> hash <= a))
      (fun pos => 0 <= pos <= size /\
         (forall i a, 0 <= i < pos -> hash_at l i = Some a -> a < hash) /\
         (forall i a, pos <= i < size -> hash_at l i = Some a -> hash <= a))
      (fun '(min, max) => Z.to_nat (max - min))) with (fuel := S (Z.to_nat size)) (s := (0, size))
      as (r & Hr & HQ) end.
  - intros [min max] (Hmm & Hmn & Hlo & Hhi). unfold int_add.
    rewrite int_of_Some by (unfold in_i32, INT_MIN in *; lia). simpl. case_if_bool.
    + left. destruct (mid_bounds min max) as [Hm1 Hm2]; [done|].
      set (mid := Z.shiftr (min + max) 1) in *.
      destruct (Htot mid) as [h Hh]; [lia|]. rewrite Hh. simpl. case_if_bool.
      * eexists. split; [done|]. simpl. split; [|lia]. repeat split; try lia; [|done]. intros i a Hi Ha.
        destruct (decide (i = mid)); [simplify_eq; lia|].
        assert (a < h) by (eapply (Hinc i mid); eauto; lia). lia.
      * eexists. split; [done|]. simpl. split; [|lia]. repeat split; try lia; [done|]. intros i a Hi Ha.
        destruct (decide (i = mid)); [simplify_eq; lia|].
        destruct (decide (i < max)); [|apply (Hhi i); [lia|done]].
        assert (h < a) by (eapply (Hinc mid i); eauto; lia). lia.
    + right. eexists. split; [done|]. replace max with min in * by lia.
      rewrite mid_same. simpl. repeat split; try lia; done.
  - simpl. repeat split; try lia.
  - simpl. lia.
  - eauto.
Qed.

Lemma lookup_find_repr l size m hash : repr l size m -> 2 * size <= INT_MAX ->
  (m !! hash = None /\ hl_lookup_find l size hash = Some None) \/
  exists i ty ix, m !! hash = Some (ty, ix) /\ hl_lookup_find l size hash = Some (Some i) /\
    aget l i = Some (FieldLookup ty hash ix).
Proof.
  intros [[Hn Hinc] Hm] Hmax. unfold hl_lookup_find.
  destruct (search_total (hash_at l) hash size) as (r & -> & Hres); [lia|lia|done|]. simpl.
  destruct r as [pos|mid]; simpl in Hres.
  - left. split; [|done]. apply eq_None_not_Some. intros [[ty ix] (i & Hir & Hi)%Hm].
    destruct Hres as (Hp & Hlo & Hhi). assert (hash_at l i = Some hash) by (unfold hash_at; by rewrite Hi).
    destruct (decide (i < pos)); [specialize (Hlo i hash)|specialize (Hhi i hash)]; naive_solver lia.
  - right. destruct Hres as [Hr Hg]. unfold hash_at in Hg.
    destruct (aget l mid) as [[ty h ix]|] eqn:E; [|done]. simpl in Hg. simplify_eq.
    exists mid, ty, ix. split; [|done]. apply Hm. eauto.
Qed.

Lemma insert_repr l size m hash ty ix :
  repr l size m -> 2 * size <= INT_MAX -> size < alen l -> m !! hash = None ->
  exists l' pos, hl_lookup_insert l size hash ty ix = Some (l', pos) /\ alen l' = alen l /\
    aget l' pos = Some (FieldLookup ty hash ix) /\ repr l' (size + 1) (<[hash := (ty, ix)]> m).
Proof.
  intros [Hok Hm] Hmax Hroom Hnone. unfold hl_lookup_insert.
  destruct (lower_bound_spec l size hash Hok Hmax) as (pos & -> & Hp & Hlo & Hhi0). simpl.
  assert (forall i a, pos <= i < size -> hash_at l i = Some a -> hash < a) as Hhi.
  { intros i a Hi Ha. pose proof (Hhi0 i a Hi Ha). enough (a <> hash) by lia. intros ->.
    unfold hash_at in Ha. destruct (aget l i) as [[ty' h ix']|] eqn:E; [|done]. simpl in Ha. simplify_eq.
    assert (m !! hash = Some (ty', ix')) by (apply Hm; exists i; split; [lia|done]). congruence. }
  destruct (insert_at_spec l pos size (FieldLookup ty hash ix)) as (l' & -> & Hl & Hg); [lia..|]. simpl.
  eexists _, _. split; [done|]. split; [done|]. split; [rewrite Hg by lia; by dec_lia|].
  assert (forall i, 0 <= i <= size -> hash_at l' i = if decide (i = pos) then Some hash
            else if decide (i < pos) then hash_at l i else hash_at l (i - 1)) as Hg'.
  { intros i Hi. unfold hash_at. rewrite Hg by lia. repeat case_decide; done. }
  split; [split; [lia|]; eapply increasing_insert; [..|exact Hg']; try done; apply Hok|].
  intros h ty' ix'. rewrite lookup_insert. case_decide as Hhh; [subst h|].
  - split.
    + intros [= -> ->]. exists pos. rewrite Hg by lia. dec_lia. split; [lia|done].
    + intros (i & Hi & Ha). destruct (decide (i = pos)); [rewrite Hg, decide_True in Ha by lia; congruence|].
      exfalso. assert (hash_at l' i = Some hash) as Hh by (unfold hash_at; by rewrite Ha).
      rewrite Hg', decide_False in Hh by lia. case_decide.
      * pose proof (Hlo i hash ltac:(lia) Hh). lia.
      * pose proof (Hhi (i - 1) hash ltac:(lia) Hh). lia.
  - rewrite Hm. split; intros (i & Hi & Ha).
    + destruct (decide (i < pos)); [exists i|exists (i + 1)]; (split; [lia|]); rewrite Hg by lia; dec_lia;
        [done|by replace (i + 1 - 1) with i by lia].
    + rewrite Hg in Ha by lia. repeat case_decide; simplify_eq; try done;
        [exists i|exists (i - 1)]; (split; [lia|done]).
Qed.

(** A larger block whose first [size] cells are the same represents the same map. *)
Lemma repr_ext l l' size m : (forall i, 0 <= i < size -> aget l' i = aget l i) -> size <= alen l' ->
  repr l size m -> repr l' size m.
Proof.
  intros He Hs [[Hn Hinc] Hm]. split; [split; [lia|]|].
  - eapply increasing_ext; [|exact Hinc]. intros i Hi. unfold hash_at. by rewrite He.
  - intros h ty ix. rewrite Hm. split; intros (i & Hi & Ha); exists i; (split; [done|]);
      [rewrite He|rewrite <- He]; done.
Qed.
End lookup.
Arguments hl_field_lookup : clear implicits.
Arguments FieldLookup {T}.

(** ** Name hashing *)
(** [h = 223 * h + *name] in wrapping 32-bit arithmetic; then C's [%], whose sign is
    that of the dividend. *)
Fixpoint hash_chars (h : Z) (name : list Z) : option Z :=
  match name with
  | [] => None
  | c :: name => if c =? 0 then Some h else hash_chars (i32 (223 * h + c)) name
  end.

(** [char] is signed: a byte above 127 contributes its negative value. *)
Fixpoint hash_bytes (h : Z) (name : list Z) : option Z :=
  match name with
  | [] => None
  | c :: name => if c =? 0 then Some h else hash_bytes (i32 (223 * h + i8 c)) name
  end.
Definition hl_hash_utf8 (name : list Z) : option Z :=
  h ← hash_bytes 0 name; Some (Z.rem h 536870779).

(** The globals [hl_cache], [hl_cache_count] and [hl_cache_size]; [t] holds the name. *)
Record hash_cache := HashCache
  { hl_cache : list (hl_field_lookup (list Z)); hl_cache_count : Z; hl_cache_size : Z }.
Definition hl_cache_init : hash_cache := HashCache [] 0 0.

Section hash_gen.
Context (junk : Z) (junkl : hl_field_lookup (list Z)).

(** The probe: the first hash at or after [h] that is free or already [oname]'s.
    The boolean says whether it is [oname]'s. *)
Definition probe_step (c : hash_cache) (oname : list Z) (h : Z) : option (Z + Z * bool) :=
  l ← hl_lookup_find (hl_cache c) (hl_cache_count c) h;
  match l with
  | None => Some (inr (h, false))
  | Some i =>
      e ← aget (hl_cache c) i;
      d ← ucmp (t e) oname;
      if negb (d =? 0) then h ← int_add h 1; Some (inl h) else Some (inr (h, true))
  end.
Definition probe (c : hash_cache) (oname : list Z) (h : Z) : option (Z * bool) :=
  loop (probe_step c oname) (S (S (Z.to_nat (hl_cache_count c)))) h.

Definition cache_grow (c : hash_cache) : option hash_cache :=
  if hl_cache_size c =? hl_cache_count c then
    newsize ← (if hl_cache_size c =? 0 then Some 16
               else x ← int_of (hl_cache_size c * 3); Some (Z.shiftr x 1));
    cache ← acopy (replicate (Z.to_nat newsize) junkl) 0 (hl_cache c) 0 (hl_cache_count c);
    Some (HashCache cache (hl_cache_count c) newsize)
  else Some c.

Definition hl_hash_gen (c : hash_cache) (name : list Z) (cache_name : bool) : option (Z * hash_cache) :=
  h ← hash_chars 0 name;
  let h := Z.rem h 536870779 in
  if cache_name then
    '(h, found) ← probe c name h;
    if (found : bool) then Some (h, c) else
    c ← cache_grow c;
    copy ← ustrdup junk name;
    '(cache, _) ← hl_lookup_insert (hl_cache c) (hl_cache_count c) h copy 0;
    count ← int_add (hl_cache_count c) 1;
    Some (h, HashCache cache count (hl_cache_size c))
  else Some (h, c).

Definition unknown_name : list Z := [63; 63; 63; 0].
Definition hl_field_name (c : hash_cache) (hash : Z) : option (list Z) :=
  l ← hl_lookup_find (hl_cache c) (hl_cache_count c) hash;
  match l with Some i => e ← aget (hl_cache c) i; Some (t e) | None => Some unknown_name end.

(** The blocks freed, and the cache left. *)
Definition hl_cache_free (c : hash_cache) : option (list (list Z) * hash_cache) :=
  freed ← mapM (fun i => e ← aget (hl_cache c) (Z.of_nat i); Some (t e)) (seq 0 (Z.to_nat (hl_cache_count c)));
  Some (freed, HashCache [] 0 0).

(** *** Abstraction: which name each hash stands for *)
Definition hash0 (s : list Z) : Z :=
  Z.rem (fold_left (fun h c => i32 (223 * h + c)) s 0) 536870779.

(** [names] is the interning table: every name sits at or after its own hash, and
    all hashes in between belong to other names. *)
Definition interns (names : gmap Z (list Z)) : Prop :=
  forall h s, names !! h = Some s -> uchars s /\ Forall (fun c => c <> 0) s /\ hash0 s <= h /\
    forall h', hash0 s <= h' < h -> exists s', names !! h' = Some s' /\ s' <> s.
Definition cache_repr (c : hash_cache) (names : gmap Z (list Z)) : Prop :=
  0 <= hl_cache_count c <= hl_cache_size c /\
  (alen (hl_cache c) = hl_cache_size c /\ (hl_cache_size c = 0 \/ 16 <= hl_cache_size c)) /\
  Z.of_nat (size names) = hl_cache_count c /\
  repr (hl_cache c) (hl_cache_count c) ((fun s => (s ++ [0], 0)) <$> names) /\ interns names.

Lemma hash_chars_spec m s h : cstring m s ->
  hash_chars h m = Some (fold_left (fun h c => i32 (223 * h + c)) s h).
Proof.
  revert m h. induction s as [|c s IH]; intros m h Hm.
  - by apply cstring_nil in Hm as (? & ->).
  - apply cstring_cons in Hm as (m' & -> & Hc & Hm'). cbn [hash_chars fold_left].
    rewrite (proj2 (Z.eqb_neq _ _)) by done. auto.
Qed.

Lemma hash0_bound s : -536870779 < hash0 s < 536870779.
Proof.
  unfold hash0. pose proof (Z.rem_bound_abs (fold_left (fun h c => i32 (223 * h + c)) s 0) 536870779). lia.
Qed.

Lemma cstring_closed s : Forall (fun c => c <> 0) s -> cstring (s ++ [0]) s.
Proof. intros. by apply cstring_intro. Qed.

Lemma field_name_repr c names h : cache_repr c names -> 2 * hl_cache_count c <= INT_MAX ->
  hl_field_name c h = Some (match names !! h with Some s => s ++ [0] | None => unknown_name end).
Proof.
  intros (Hcnt & Hlen & Hsz & Hrep & Hint) Hmax. unfold hl_field_name.
  destruct (lookup_find_repr _ _ _ h Hrep Hmax) as [[Hn ->]|(i & ty & ix & Hs & -> & Ha)]; simpl;
    rewrite lookup_fmap in *.
  - destruct (names !! h); done.
  - rewrite Ha. simpl. destruct (names !! h); simpl in *; by simplify_eq.
Qed.

(** The probe stops at the first hash from [h] on that is free or [s]'s own. *)
Lemma probe_spec c names m s h0 : cache_repr c names -> 2 * hl_cache_count c <= INT_MAX ->
  cstring m s -> uchars s -> h0 + hl_cache_count c <= INT_MAX -> INT_MIN <= h0 ->
  exists h b, probe c m h0 = Some (h, b) /\ h0 <= h <= h0 + hl_cache_count c /\
    (forall h', h0 <= h' < h -> exists s', names !! h' = Some s' /\ s' <> s) /\
    (if b then names !! h = Some s else names !! h = None).
Proof.
  intros (Hcnt & Hlen & Hsz & Hrep & Hint) Hmax Hm Hu Hov Hlow. unfold probe.
  (* the hashes already passed are distinct keys of [names], so there are at most [count] *)
  assert (forall h, h0 <= h -> (forall h', h0 <= h' < h -> exists s', names !! h' = Some s' /\ s' <> s) ->
            h <= h0 + hl_cache_count c) as Hpigeon.
  { intros h Hh Hall. rewrite <- Hsz.
    assert (list_to_set (seqZ h0 (h - h0)) ⊆@{gset Z} dom names) as Hsub.
    { intros x. rewrite elem_of_list_to_set, elem_of_seqZ, elem_of_dom. intros Hx.
      destruct (Hall x) as (s' & -> & _); [lia|eauto]. }
    apply subseteq_size in Hsub. rewrite size_list_to_set, length_seqZ, size_dom in Hsub by apply NoDup_seqZ.
    lia. }
  destruct (loop_total (probe_step c m)
    (fun h => h0 <= h /\ forall h', h0 <= h' < h -> exists s', names !! h' = Some s' /\ s' <> s)
    (fun '(h, b) => h0 <= h /\ (forall h', h0 <= h' < h -> exists s', names !! h' = Some s' /\ s' <> s) /\
       (if b : bool then names !! h = Some s else names !! h = None))
    (fun h => Z.to_nat (h0 + hl_cache_count c + 1 - h))) with (fuel := S (S (Z.to_nat (hl_cache_count c)))) (s := h0)
    as ([h b] & Hp & Hge & Hpre & Hend).
  - intros h [Hge Hpre]. unfold probe_step. pose proof (Hpigeon h Hge Hpre).
    destruct (lookup_find_repr _ _ _ h Hrep Hmax) as [[Hn ->]|(i & ty & ix & Hs & -> & Ha)]; simpl; rewrite lookup_fmap in *.
    + right. eexists. split; [done|]. simpl. split; [done|]. split; [done|]. destruct (names !! h); done.
    + rewrite Ha. simpl. destruct (names !! h) as [s'|] eqn:Es; simpl in Hs; [|done]. simplify_eq.
      destruct (Hint _ _ Es) as (Hus & Hns & _).
      rewrite (ucmp_spec _ _ s' s) by (done || by apply cstring_closed). simpl.
      destruct (Z.eqb_spec (lexcmp s' s) 0) as [Hl|Hl]; simpl; rewrite lexcmp_eq in Hl by (done || apply Hm).
      * subst s'. right. eexists. split; [done|]. simpl. done.
      * left. assert (forall h', h0 <= h' < h + 1 -> exists s', names !! h' = Some s' /\ s' <> s) as Hpre'.
        { intros h' Hh'. destruct (decide (h' = h)); [subst; eauto|]. apply Hpre. lia. }
        pose proof (Hpigeon (h + 1) ltac:(lia) Hpre').
        unfold int_add. rewrite int_of_Some by (unfold in_i32, INT_MIN in *; lia). simpl.
        eexists. split; [done|]. split; [split; [lia|done]|]. lia.
  - split; [lia|]. intros h' ?. lia.
  - lia.
  - exists h, b. split; [done|]. split; [split; [done|by apply Hpigeon]|]. done.
Qed.

Lemma cache_grow_spec c names : cache_repr c names -> hl_cache_size c * 3 <= INT_MAX ->
  exists c', cache_grow c = Some c' /\ cache_repr c' names /\ hl_cache_count c' = hl_cache_count c /\
    hl_cache_count c' < hl_cache_size c'.
Proof.
  intros (Hcnt & [Hlen Hcap] & Hsz & Hrep & Hint) Hmax. unfold cache_grow. case_if_bool.
  2: { exists c. split; [done|]. split; [done|]. split; [done|lia]. }
  assert (exists n, (if hl_cache_size c =? 0 then Some 16
            else x ← int_of (hl_cache_size c * 3); Some (Z.shiftr x 1)) = Some n /\ hl_cache_count c < n /\ 16 <= n)
    as (n & -> & Hn & Hn16).
  { case_if_bool; [eexists; split; [done|lia]|].
    rewrite int_of_Some by (unfold in_i32, INT_MIN in *; lia). simpl. eexists. split; [done|].
    rewrite Z.shiftr_div_pow2 by lia. change (2 ^ 1) with 2. Z.to_euclidean_division_equations; lia. }
  simpl.
  destruct (acopy_total (replicate (Z.to_nat n) junkl) 0 (hl_cache c) 0 (hl_cache_count c))
    as (l & -> & Hl & Hg); rewrite ?alen_replicate in *; [lia..|]. simpl.
  eexists. split; [done|]. split; [|done]. split; [simpl; lia|]. split; [simpl; lia|]. split; [done|].
  split; [|done]. simpl. apply (repr_ext (hl_cache c)); [|lia|done].
  intros i Hi. rewrite Hg. dec_lia. f_equal. lia.
Qed.

(** What [hl_hash_gen(name,true)] does to the interning table. *)
Lemma hash_gen_spec c names m s : cache_repr c names -> hl_cache_size c * 3 <= INT_MAX - 536870779 ->
  cstring m s -> uchars s ->
  exists h c' names', hl_hash_gen c m true = Some (h, c') /\ cache_repr c' names' /\
    names' = <[h := s]> names /\ (names !! h = Some s \/ names !! h = None) /\
    (forall h', names !! h' = Some s -> h = h') /\ hl_cache_count c' <= hl_cache_count c + 1.
Proof.
  intros Hc Hmax Hm Hu. pose proof (hash0_bound s) as Hb. pose proof Hc as (Hcnt & [Hlen Hcap] & Hsz & Hrep & Hint).
  unfold hl_hash_gen. rewrite (hash_chars_spec m s 0 Hm). simpl. fold (hash0 s).
  unfold INT_MAX in *.
  destruct (probe_spec c names m s (hash0 s) Hc) as (h & b & -> & Hh & Hpre & Hend);
    [unfold INT_MAX, INT_MIN; lia|done|done|unfold INT_MAX; lia|unfold INT_MIN; lia|]. simpl.
  assert (forall h', names !! h' = Some s -> h = h') as Huniq.
  { intros h' Hh'. destruct (Hint _ _ Hh') as (_ & _ & Hle & Hbefore).
    destruct (Z.lt_total h h') as [Hlt|[->|Hlt]]; [|done|].
    - destruct (Hbefore h) as (s' & Hs' & Hne); [lia|]. destruct b; congruence.
    - destruct (Hpre h') as (s' & Hs' & Hne); [lia|]. congruence. }
  destruct b.
  { exists h, c, names. rewrite insert_id by done. split; [done|]. split; [done|]. split; [done|].
    split; [by left|]. split; [done|lia]. }
  destruct (cache_grow_spec c names Hc) as (c' & -> & Hc' & Hcc & Hroom); [unfold INT_MAX; lia|]. simpl.
  rewrite (ustrdup_spec junk m s Hm). simpl.
  destruct Hc' as (Hcnt' & [Hlen' Hcap'] & Hsz' & Hrep' & _).
  destruct (insert_repr _ _ _ h (s ++ [0]) 0 Hrep') as (l' & pos & -> & Hl' & _ & Hrepl);
    [unfold INT_MAX; lia|lia|by rewrite lookup_fmap, Hend|]. simpl.
  unfold int_add. rewrite int_of_Some by (unfold in_i32, INT_MIN, INT_MAX; lia). simpl.
  exists h. eexists _, _. split; [done|]. split; [|split; [done|split; [by right|split; [done|simpl; lia]]]].
  split; [simpl; lia|]. split; [simpl; lia|]. split.
  { simpl. rewrite map_size_insert_None by done. lia. }
  split; [simpl; by rewrite fmap_insert|].
  intros h' s'. rewrite lookup_insert. case_decide as Hhh.
  - intros [= <-]. subst h'. split; [done|]. split; [apply Hm|]. split; [lia|]. intros h' Hh'.
    destruct (Hpre h' Hh') as (s' & Hs' & Hne). exists s'. rewrite lookup_insert_ne by lia. done.
  - intros Hs'. destruct (Hint _ _ Hs') as (? & ? & ? & Hbefore). repeat split; try done.
    intros h'' Hh''. destruct (Hbefore h'' Hh'') as (s'' & Hs'' & Hne). exists s''.
    rewrite lookup_insert. case_decide; [congruence|done].
Qed.

Lemma init_repr : cache_repr hl_cache_init ∅.
Proof.
  split; [done|]. split; [split; [done|by left]|]. split; [done|]. split.
  - rewrite fmap_empty. apply lookup_empty_repr.
  - intros h s. by rewrite lookup_empty.
Qed.
End hash_gen.

(** ** Properties *)
(** C27. The name cache interns field names.  [hl_hash_gen(name,true)] always returns;
    the hash it returns maps back to that very name through [hl_field_name] in the
    new cache, every name cached before keeps its hash, and a name that was already
    cached gets its old hash again: hashes determine names even when the 32-bit hash
    function collides. *)
Theorem hl_hash_gen_interns junk junkl c names m s :
  cache_repr c names -> hl_cache_size c * 3 <= INT_MAX - 536870779 -> cstring m s -> uchars s ->
  exists h c', hl_hash_gen junk junkl c m true = Some (h, c') /\ cache_repr c' (<[h := s]> names) /\
    hl_field_name c' h = Some (s ++ [0]) /\
    (forall h' s', names !! h' = Some s' -> hl_field_name c' h' = Some (s' ++ [0])) /\
    (forall h', names !! h' = Some s -> h' = h).
Proof.
  intros Hc Hmax Hm Hu.
  destruct (hash_gen_spec junk junkl c names m s Hc Hmax Hm Hu) as (h & c' & ? & Hg & Hc' & -> & Hold & Huniq & Hcnt).
  exists h, c'. split; [done|]. split; [done|].
  destruct Hc as (? & ? & _).
  assert (2 * hl_cache_count c' <= INT_MAX) by (unfold INT_MAX in *; lia).
  split; [rewrite (field_name_repr _ _ h Hc') by done; by rewrite lookup_insert_eq|]. split.
  - intros h' s' Hs'. rewrite (field_name_repr _ _ h' Hc') by done. rewrite lookup_insert.
    case_decide as Hh; [subst h'; destruct Hold; congruence|]. by rewrite Hs'.
  - intros h' Hh'. symmetry. by apply Huniq.
Qed.

Lemma hl_hash_gen_interns_witness :
  exists h c', hl_hash_gen 0 (FieldLookup [] 0 0) hl_cache_init [120; 0] true = Some (h, c') /\
    cache_repr c' (<[h := [120]]> ∅) /\ hl_field_name c' h = Some ([120] ++ [0]) /\
    (forall h' s', (∅ : gmap Z (list Z)) !! h' = Some s' -> hl_field_name c' h' = Some (s' ++ [0])) /\
    (forall h', (∅ : gmap Z (list Z)) !! h' = Some [120] -> h' = h).
Proof.
  apply (hl_hash_gen_interns 0 (FieldLookup [] 0 0) hl_cache_init ∅ [120; 0] [120]).
  - apply init_repr.
  - vm_compute. discriminate.
  - split; [repeat constructor; lia|by exists []].
  - unfold uchars. repeat constructor; vm_compute; intuition discriminate.
Defined.

(** C28. Field lookup tables implement finite maps from hashes.  On a table that
    represents [m], [hl_lookup_find] returns the entry of the hash or null exactly
    when [m] has none, and [hl_lookup_insert] of a new hash keeps the table sorted,
    touches no cell outside it, and represents [m] with the new entry, which
    [hl_lookup_find] then returns. *)
Theorem lookup_insert_find {T} (l : list (hl_field_lookup T)) size m hash (ty : T) ix :
  repr l size m -> 2 * (size + 1) <= INT_MAX -> size < alen l -> m !! hash = None ->
  exists l' pos, hl_lookup_insert l size hash ty ix = Some (l', pos) /\ alen l' = alen l /\
    repr l' (size + 1) (<[hash := (ty, ix)]> m) /\
    hl_lookup_find l size hash = Some None /\
    hl_lookup_find l' (size + 1) hash = Some (Some pos) /\ aget l' pos = Some (FieldLookup ty hash ix).
Proof.
  intros Hr Hmax Hroom Hn.
  destruct (insert_repr l size m hash ty ix Hr) as (l' & pos & Hi & Hl & Hp & Hr'); [lia|done|done|].
  exists l', pos. split; [done|]. split; [done|]. split; [done|].
  destruct (lookup_find_repr l size m hash Hr ltac:(lia)) as [[_ Hf]|(i & ty' & ix' & Hs & _)]; [|congruence].
  split; [done|]. split; [|done].
  destruct (lookup_find_repr l' (size + 1) _ hash Hr' Hmax) as [[Hf' _]|(i & ty' & ix' & Hs & Hf' & Ha)].
  - by rewrite lookup_insert_eq in Hf'.
  - rewrite Hf'. do 2 f_equal. pose proof Hr' as [[Hn' Hinc] _].
    pose proof (aget_Some_range _ _ _ Ha). pose proof (aget_Some_range _ _ _ Hp).
    unfold hl_lookup_find in Hf'. destruct (search_total (hash_at l') hash (size + 1)) as (r & Hsr & Hres); [lia..|done|].
    rewrite Hsr in Hf'. simpl in Hf'. destruct r as [?|mid]; [done|]. simplify_eq. destruct Hres as [Hri _].
    unfold hl_lookup_insert in Hi. destruct Hr as [Hok _].
    destruct (lower_bound_spec l size hash Hok ltac:(lia)) as (pos' & Hlb & Hpr & _). rewrite Hlb in Hi. simpl in Hi.
    destruct (insert_at l pos' size _); [|done]. simpl in Hi. simplify_eq.
    eapply (increasing_inj (hash_at l')); [exact Hinc|lia|lia|..]; unfold hash_at; [by rewrite Ha|by rewrite Hp].
Qed.

Lemma lookup_insert_find_witness :
  exists l' pos, hl_lookup_insert [FieldLookup 1 5 0; FieldLookup 0 0 0] 1 3 2 7 = Some (l', pos) /\ alen l' = 2 /\
    repr l' 2 (<[3 := (2, 7)]> {[5 := (1, 0)]}) /\
    hl_lookup_find [FieldLookup 1 5 0; FieldLookup 0 0 0] 1 3 = Some None /\
    hl_lookup_find l' 2 3 = Some (Some pos) /\ aget l' pos = Some (FieldLookup 2 3 7).
Proof.
  apply (lookup_insert_find [FieldLookup 1 5 0; FieldLookup 0 0 0] 1 {[5 := (1, 0)]} 3 2 7).
  - split; [split; [split; by vm_compute|]|].
    + split; [intros i Hi; assert (i = 0) as -> by lia; by exists 5|intros; lia].
    + intros h ty ix. rewrite lookup_singleton. split.
      * case_decide; [|done]. intros [= <- <-]. subst h. exists 0. by vm_compute.
      * intros (i & Hi & Ha). assert (i = 0) as -> by lia. by injection Ha as <- <- <-.
  - by vm_compute.
  - by vm_compute.
  - by vm_compute.
Defined.
