(* ===== verification/Reader.v ===== *)
(** * The bytecode reader ([src/code.c], lines 27-668)

    [hl_code_read] turns the bytes of a [.hl] file into the tables of an [hl_code].
    The reader's state is threaded through a monad; [ERROR] only records the first
    message, so reading goes on after an error, as in the code, until a
    [CHK_ERROR].  What the program does outside any defined behaviour is a [Trap]
    that says why, so that memory safety can be stated apart from the arithmetic
    of sizes. *)
From S2P Require Import Prelude Opcodes Ustr Unicode Lookup.

(** Why a run has no defined result. *)
Inductive trap :=
  | OutOfBounds    (** an access outside a block or through a null pointer *)
  | BadString      (** such an access while decoding a string in [hl_get_ustring] *)
  | DebugOverrun   (** such an access while filling the array of [hl_read_debug_infos] *)
  | UninitString   (** such a read in [hl_read_strings], of a block [hl_read_bytes] did not fill *)
  | BadAlloc       (** an allocation size that is not a non-negative [int] *)
  | IntOverflow    (** a signed overflow *)
  | Uninit         (** a read of memory nothing was written to *)
  | CacheFull      (** more than 2^29 names in the global name cache *)
  | NoFuel.        (** the bound the model puts on a loop; shown unreachable *)

(** ** The tables read *)
Record hl_type_fun := TypeFun { fun_nargs : Z; fun_args : list Z; fun_ret : Z }.
(** Types are indices into [code->types]; names are zero-terminated blocks. *)
Record hl_obj_field := ObjField { f_name : list Z; f_t : Z; f_hashed_name : Z }.
Record hl_obj_proto := ObjProto { p_name : list Z; p_findex : Z; p_pindex : Z; p_hashed_name : Z }.
Record hl_type_obj := TypeObj
  { o_nfields : Z; o_nproto : Z; o_nbindings : Z; o_name : list Z; o_super : option Z;
    o_fields : list hl_obj_field; o_proto : list hl_obj_proto; o_bindings : list (Z * Z);
    o_global_value : Z }.
Record hl_enum_construct := EnumConstruct { c_name : list Z; c_nparams : Z; c_params : list Z }.
Record hl_type_enum := TypeEnum
  { e_name : list Z; e_nconstructs : Z; e_constructs : list hl_enum_construct; e_global_value : Z }.

(** The union of [hl_type], by what [hl_read_type] stores for the kind. *)
Inductive type_data :=
  | TNone
  | TFun (f : hl_type_fun)
  | TObj (o : hl_type_obj)
  | TVirt (fields : list hl_obj_field)
  | TAbs (name : list Z)
  | TEnum (e : hl_type_enum)
  | TParam (t : Z).
Record hl_type := Type_ { kind : Z; tdata : type_data }.

Definition HVOID := 0.
Definition HUI8 := 1.
Definition HUI16 := 2.
Definition HI32 := 3.
Definition HI64 := 4.
Definition HF32 := 5.
Definition HF64 := 6.
Definition HBOOL := 7.
Definition HBYTES := 8.
Definition HDYN := 9.
Definition HFUN := 10.
Definition HOBJ := 11.
Definition HARRAY := 12.
Definition HTYPE := 13.
Definition HREF := 14.
Definition HVIRTUAL := 15.
Definition HDYNOBJ := 16.
Definition HABSTRACT := 17.
Definition HENUM := 18.
Definition HNULL := 19.
Definition HMETHOD := 20.
Definition HSTRUCT := 21.
Definition HPACKED := 22.
Definition HGUID := 23.
Definition HLAST := 24.

(** [None] is a field nothing was stored in ([falloc] memory is not cleared). *)
Inductive op_extra :=
  | ExtraNone
  | ExtraInt (i : Z)
  | ExtraArr (l : list Z).
Record hl_opcode := Opcode { op : Z; p1 : option Z; p2 : option Z; p3 : option Z; extra : op_extra }.

Record hl_function := Function
  { findex : Z; nregs : Z; nops : Z; ftype : Z; regs : list Z; ops : list hl_opcode;
    debug : list (Z * Z); nassigns : Z; assigns : list (Z * Z * Z) }.
Record hl_native := Native { lib : Z; n_name : Z; n_t : Z; n_findex : Z }.
Record hl_constant := Constant { global : Z; k_nfields : Z; k_fields : list Z }.
Record hl_debug_section := DebugSection
  { s_kind : Z; s_version : Z; s_flags : Z; s_size : Z; s_data : list Z }.

(** A string table: the block and the offset and length of each string in it. *)
Record string_table := Strings { sbase : list Z; spos : list Z; slens : list Z }.

(** ** The reader monad *)
(** [r_b] is the [size] bytes at [data]; [r_pos] and [r_error] are the fields of
    [hl_reader]; [r_ustrings] is the lazily filled [code->ustrings] and [r_cache] the
    global field name cache, both of which reading a name updates. *)
Record reader := Reader
  { r_b : list Z; r_pos : Z; r_error : option string;
    r_ustrings : list (option (list Z)); r_cache : hash_cache }.

Inductive result (A : Type) : Type :=
  | Ok (a : A) (r : reader)
  | Trap (t : trap).
Arguments Ok {A} a r.
Arguments Trap {A} t.

Definition rd (A : Type) : Type := reader -> result A.
#[global] Instance rd_ret : MRet rd := fun A a r => Ok a r.
#[global] Instance rd_bind : MBind rd := fun A B f m r =>
  match m r with Ok a r => f a r | Trap t => Trap t end.

Definition trap_ {A} (t : trap) : rd A := fun _ => Trap t.
Definition lift {A} (t : trap) (o : option A) : rd A := fun r =>
  match o with Some a => Ok a r | None => Trap t end.
Definition get_pos : rd Z := fun r => Ok (r_pos r) r.
Definition get_error : rd (option string) := fun r => Ok (r_error r) r.
Definition set_pos (p : Z) : rd unit := fun r =>
  Ok () (Reader (r_b r) p (r_error r) (r_ustrings r) (r_cache r)).
Definition get_ustrings : rd (list (option (list Z))) := fun r => Ok (r_ustrings r) r.
Definition set_ustrings us : rd unit := fun r =>
  Ok () (Reader (r_b r) (r_pos r) (r_error r) us (r_cache r)).
Definition get_cache : rd hash_cache := fun r => Ok (r_cache r) r.
Definition set_cache c : rd unit := fun r =>
  Ok () (Reader (r_b r) (r_pos r) (r_error r) (r_ustrings r) c).
Definition r_size : rd Z := fun r => Ok (alen (r_b r)) r.
Definition r_byte (i : Z) : rd Z := fun r => lift OutOfBounds (aget (r_b r) i) r.

(** [#define ERROR(msg) if( !r->error ) { r->error = msg; ... }] *)
Definition ERROR (msg : string) : rd unit := fun r =>
  Ok () (match r_error r with
         | Some _ => r
         | None => Reader (r_b r) (r_pos r) (Some msg) (r_ustrings r) (r_cache r)
         end).

(** [for(i=0;i<n;i++) v[i] = body(i)] *)
Fixpoint rd_list {A} (body : Z -> rd A) (n : nat) (i : Z) : rd (list A) :=
  match n with
  | O => mret []
  | S n => x ← body i; xs ← rd_list body n (i + 1); mret (x :: xs)
  end.
Definition rd_array {A} (body : Z -> rd A) (n : Z) : rd (list A) := rd_list body (Z.to_nat n) 0.

(** [hl_malloc(alloc, count * size)]: the size argument is an [int], padded to the
    next multiple of 8.  On any other size the code goes on with the size truncated to
    an [int], that is with a block smaller than the array it then fills (or, for a
    negative string block, with the allocator's cursor moved backwards).  The model
    stops there: a [BadAlloc] run is one about which nothing more is said. *)
Definition hl_malloc (count size : Z) : rd unit :=
  if decide (0 <= count * size <= INT_MAX - 7) then mret () else trap_ BadAlloc.

(** ** Primitive reads *)
Definition hl_read_b : rd Z :=
  pos ← get_pos;
  size ← r_size;
  if pos >=? size then ERROR "No more data";; mret 0
  else b ← r_byte pos; set_pos (pos + 1);; mret b.

(** The bytes copied to [data]; [None] when nothing is. *)
Definition hl_read_bytes (size : Z) : rd (option (list Z)) :=
  if size <? 0 then ERROR "Invalid size";; mret None else
  pos ← get_pos;
  rsize ← r_size;
  last ← lift IntOverflow (int_add pos size);
  if last >? rsize then ERROR "No more data";; mret None
  else
    data ← (fun r => lift OutOfBounds (aslice (r_b r) pos size) r);
    set_pos (pos + size);;
    mret (Some data).

(** The bit pattern of the double: floating-point values are not interpreted. *)
Definition bytes_le (l : list Z) : Z := foldr (fun b v => b + 256 * v) 0 l.
Definition hl_read_double : rd Z :=
  d ← hl_read_bytes 8;
  mret (match d with Some l => bytes_le l | None => 0 end).

Definition hl_read_i32 : rd Z :=
  pos ← get_pos;
  size ← r_size;
  last ← lift IntOverflow (int_add pos 4);
  if last >? size then ERROR "No more data";; mret 0
  else
    a ← r_byte pos; b ← r_byte (pos + 1); c ← r_byte (pos + 2); d ← r_byte (pos + 3);
    set_pos (pos + 4);;
    mret (i32 (Z.lor (Z.lor (Z.lor a (Z.shiftl b 8)) (Z.shiftl c 16)) (Z.shiftl d 24))).

Definition hl_read_index : rd Z :=
  b ← hl_read_b;
  if Z.land b 128 =? 0 then mret (Z.land b 127)
  else if Z.land b 64 =? 0 then
    lo ← hl_read_b;
    let v := Z.lor lo (Z.shiftl (Z.land b 31) 8) in
    mret (if Z.land b 32 =? 0 then v else - v)
  else
    c ← hl_read_b; d ← hl_read_b; e ← hl_read_b;
    let v := Z.lor (Z.lor (Z.lor (Z.shiftl (Z.land b 31) 24) (Z.shiftl c 16)) (Z.shiftl d 8)) e in
    mret (if Z.land b 32 =? 0 then v else - v).

Definition hl_read_uindex : rd Z :=
  i ← hl_read_index;
  if i <? 0 then ERROR "Negative index";; mret 0 else mret i.

(** ** Reads that need the header *)
(** What the rest of the reader needs of [r->code]; fixed once the header and the
    string tables are read.  [junk] is what uninitialised memory holds. *)
Record header := Header
  { version : Z; ntypes : Z; nstrings : Z; ndebugfiles : Z; strings : string_table; junk : Z;
    junkl : hl_field_lookup (list Z) }.

Section reads.
Context (h : header).

Definition hl_get_type : rd Z :=
  i ← hl_read_index;
  if (i <? 0) || (i >=? ntypes h) then ERROR "Invalid type index";; mret 0 else mret i.

(** The string's offset in the string block; [None] is the empty string literal. *)
Definition hl_read_string : rd (option Z) :=
  i ← hl_read_index;
  if (i <? 0) || (i >=? nstrings h) then ERROR "Invalid string index";; mret None
  else p ← lift OutOfBounds (aget (spos (strings h)) i); mret (Some p).

(** Decodes the string the first time it is used. *)
Definition hl_get_ustring (index : Z) : rd (list Z) :=
  us ← get_ustrings;
  str ← lift BadString (aget us index);
  match str with
  | Some u => mret u
  | None =>
      p ← lift OutOfBounds (aget (spos (strings h)) index);
      let s := drop (Z.to_nat p) (sbase (strings h)) in
      size ← lift BadString (hl_utf8_length s 0);
      hl_malloc (size + 1) 2;;
      '(out, _) ← lift BadString (hl_from_utf8 size s);
      u ← lift OutOfBounds (block_write (junk h) (size + 1) out);
      us ← lift OutOfBounds (aset us index (Some u));
      set_ustrings us;;
      mret u
  end.

Definition hl_read_ustring : rd (list Z) :=
  i ← hl_read_index;
  i ← (if (i <? 0) || (i >=? nstrings h) then ERROR "Invalid string index";; mret 0 else mret i);
  hl_get_ustring i.

(** [hl_hash_gen(name,true)] on the global cache. *)
Definition hash_name (name : list Z) : rd Z :=
  c ← get_cache;
  if hl_cache_size c * 3 >? INT_MAX - 536870779 then trap_ CacheFull else
  '(x, c) ← lift OutOfBounds (hl_hash_gen (junk h) (junkl h) c name true);
  set_cache c;;
  mret x.

(** ** Types *)
Definition read_field (_ : Z) : rd hl_obj_field :=
  name ← hl_read_ustring; hash ← hash_name name; t ← hl_get_type; mret (ObjField name t hash).
Definition read_proto (_ : Z) : rd hl_obj_proto :=
  name ← hl_read_ustring; hash ← hash_name name; fi ← hl_read_uindex; pi ← hl_read_index;
  mret (ObjProto name fi pi hash).
Definition read_binding (_ : Z) : rd (Z * Z) :=
  a ← hl_read_uindex; b ← hl_read_uindex; mret (a, b).
Definition read_construct (_ : Z) : rd hl_enum_construct :=
  name ← hl_read_ustring;
  nparams ← hl_read_uindex;
  hl_malloc nparams 8;; hl_malloc nparams 4;;
  params ← rd_array (fun _ => hl_get_type) nparams;
  mret (EnumConstruct name nparams params).

Definition hl_read_type : rd hl_type :=
  k ← hl_read_b;
  d ← (if (k =? HFUN) || (k =? HMETHOD) then
         nargs ← hl_read_b;
         args ← rd_array (fun _ => hl_get_type) nargs;
         ret ← hl_get_type;
         mret (TFun (TypeFun nargs args ret))
       else if (k =? HOBJ) || (k =? HSTRUCT) then
         name ← hl_read_ustring;
         super ← hl_read_index;
         glob ← hl_read_uindex;
         nfields ← hl_read_uindex;
         nproto ← hl_read_uindex;
         nbindings ← hl_read_uindex;
         hl_malloc nfields 24;; hl_malloc nproto 24;; hl_malloc (nbindings * 2) 4;;
         fields ← rd_array read_field nfields;
         proto ← rd_array read_proto nproto;
         bindings ← rd_array read_binding nbindings;
         mret (TObj (TypeObj nfields nproto nbindings name (if super <? 0 then None else Some super)
                       fields proto bindings glob))
       else if k =? HVIRTUAL then
         nfields ← hl_read_uindex;
         hl_malloc nfields 24;;
         fields ← rd_array read_field nfields;
         mret (TVirt fields)
       else if k =? HABSTRACT then name ← hl_read_ustring; mret (TAbs name)
       else if k =? HENUM then
         name ← hl_read_ustring;
         glob ← hl_read_uindex;
         nconstructs ← hl_read_uindex;
         hl_malloc nconstructs 40;;
         constructs ← rd_array read_construct nconstructs;
         mret (TEnum (TypeEnum name nconstructs constructs glob))
       else if (k =? HREF) || (k =? HNULL) || (k =? HPACKED) then
         t ← hl_get_type; mret (TParam t)
       else if k >=? HLAST then ERROR "Invalid type";; mret TNone
       else mret TNone);
  mret (Type_ k d).

(** ** Opcodes and functions *)
Definition read_extra (n : Z) (idx : rd Z) : rd op_extra :=
  hl_malloc n 4;; l ← rd_array (fun _ => idx) n; mret (ExtraArr l).

Definition hl_read_opcode : rd hl_opcode :=
  c ← hl_read_b;
  match op_of_Z c with
  | None => ERROR "Invalid opcode";; mret (Opcode c None None None ExtraNone)
  | Some o =>
      match hl_op_nargs o with
      | 0 => mret (Opcode c None None None ExtraNone)
      | 1 => a ← hl_read_index; mret (Opcode c (Some a) None None ExtraNone)
      | 2 => a ← hl_read_index; b ← hl_read_index; mret (Opcode c (Some a) (Some b) None ExtraNone)
      | 3 =>
          a ← hl_read_index; b ← hl_read_index; d ← hl_read_index;
          mret (Opcode c (Some a) (Some b) (Some d) ExtraNone)
      | 4 =>
          a ← hl_read_index; b ← hl_read_index; d ← hl_read_index; e ← hl_read_index;
          mret (Opcode c (Some a) (Some b) (Some d) (ExtraInt e))
      | -1 =>
          match o with
          | OCallN | OCallClosure | OCallMethod | OCallThis | OMakeEnum =>
              a ← hl_read_index; b ← hl_read_index; n ← hl_read_b;
              ex ← read_extra n hl_read_index;
              mret (Opcode c (Some a) (Some b) (Some n) ex)
          | OSwitch =>
              a ← hl_read_uindex; n ← hl_read_uindex;
              ex ← read_extra n hl_read_uindex;
              e ← hl_read_uindex;
              mret (Opcode c (Some a) (Some n) (Some e) ex)
          | _ => ERROR "Don't know how to process opcode";; mret (Opcode c None None None ExtraNone)
          end
      | n =>
          a ← hl_read_index; b ← hl_read_index; d ← hl_read_index;
          ex ← read_extra (n - 3) hl_read_index;
          mret (Opcode c (Some a) (Some b) (Some d) ex)
      end
  end.

(** Early return on an error leaves [ops] null, here empty. *)
Definition hl_read_function : rd hl_function :=
  t ← hl_get_type;
  fi ← hl_read_uindex;
  nr ← hl_read_uindex;
  no ← hl_read_uindex;
  hl_malloc nr 8;;
  rs ← rd_array (fun _ => hl_get_type) nr;
  err ← get_error;
  match err with
  | Some _ => mret (Function fi nr no t rs [] [] 0 [])
  | None =>
      hl_malloc no 24;;
      os ← rd_array (fun _ => hl_read_opcode) no;
      mret (Function fi nr no t rs os [] 0 [])
  end.
End reads.

(** ** Control-flow validation

    [inl t]: undefined; [inr None]: accepted; [inr (Some msg)]: rejected. *)
Definition need (o : option Z) : trap + Z := match o with Some z => inr z | None => inl Uninit end.
Definition VALID_TARGET (nops i offset : Z) : bool := (i + 1 + offset >=? 0) && (i + 1 + offset <? nops).

Definition check_target (o : option Z) (ok : Z -> bool) (msg : string) : trap + option string :=
  match need o with inl t => inl t | inr p => inr (if ok p then None else Some msg) end.

Definition validate_op (nops i : Z) (x : hl_opcode) : trap + option string :=
  match op_of_Z (op x) with
  | Some OJAlways => check_target (p1 x) (VALID_TARGET nops i) "Invalid jump target"
  | Some (OJTrue | OJFalse | OJNull | OJNotNull) =>
      check_target (p2 x) (VALID_TARGET nops i) "Invalid conditional jump target"
  | Some (OJSLt | OJSGte | OJSGt | OJSLte | OJULt | OJUGte | OJNotLt | OJNotGte | OJEq | OJNotEq) =>
      check_target (p3 x) (VALID_TARGET nops i) "Invalid comparison jump target"
  | Some (OTrap | OCleanupTrap) =>
      check_target (p2 x) (fun p => negb (p <? 0) && VALID_TARGET nops i p) "Invalid trap target"
  | _ => inr None
  end.

Fixpoint validate_ops (nops i : Z) (l : list hl_opcode) : trap + option string :=
  match l with
  | [] => inr None
  | x :: l =>
      match validate_op nops i x with
      | inr None => validate_ops nops (i + 1) l
      | r => r
      end
  end.
Definition hl_validate_function_control_flow (f : hl_function) : trap + option string :=
  validate_ops (nops f) 0 (ops f).

(** ** String tables and debug information *)
(** Advances over the strings: their offsets and lengths, or the invalid string exit.
    [block] is what [sbase] points to, [None] when [hl_read_bytes] copied nothing there:
    the error it records is not checked before the loop, so that the test of [*sdata]
    then reads a byte nobody wrote. *)
Fixpoint read_string_entries (size : Z) (block : option (list Z)) (n : nat) (sdata : Z)
    : rd (option (list (Z * Z))) :=
  match n with
  | O => mret (Some [])
  | S n =>
      sz ← hl_read_uindex;
      let pos := sdata in
      let sdata := sdata + sz in
      bad ← (if sdata >=? size then mret true
             else match block with
                  | None => trap_ UninitString
                  | Some block => c ← lift OutOfBounds (aget block sdata); mret (negb (c =? 0))
                  end);
      if (bad : bool) then ERROR "Invalid string";; mret None
      else
        r ← read_string_entries size block n (sdata + 1);
        mret (match r with Some l => Some ((pos, sz) :: l) | None => None end)
  end.

(** The first [None] of the result is the null pointer returned on error. *)
Definition hl_read_strings (nstrings : Z) : rd (option string_table) :=
  size ← hl_read_i32;
  hl_malloc size 1;;
  block ← hl_read_bytes size;
  hl_malloc nstrings 8;; hl_malloc nstrings 4;;
  l ← read_string_entries size block (Z.to_nat nstrings) 0;
  mret (match l with Some l => Some (Strings (default [] block) l.*1 l.*2) | None => None end).

(** The debug array under construction: [nops] (file, line) pairs. *)
Record debug_state := DebugState { d_i : Z; d_file : Z; d_line : Z; d_out : list (Z * Z) }.

(** [count] times: write the current position at [i] and advance. *)
Fixpoint debug_fill (count : nat) (s : debug_state) : option debug_state :=
  match count with
  | O => Some s
  | S n =>
      out ← aset (d_out s) (d_i s) (d_file s, d_line s);
      debug_fill n (DebugState (d_i s + 1) (d_file s) (d_line s) out)
  end.

(** One turn of [while( i < nops )], on its first byte [c]. *)
Definition debug_body (ndebugfiles nops : Z) (s : debug_state) (c : Z) : rd debug_state :=
  if negb (Z.land c 1 =? 0) then
    b ← hl_read_b;
    let curfile := Z.lor (Z.shiftl (Z.shiftr c 1) 8) b in
    (if curfile >=? ndebugfiles then ERROR "Invalid debug file" else mret ());;
    mret (DebugState (d_i s) curfile (d_line s) (d_out s))
  else if negb (Z.land c 2 =? 0) then
    let delta := Z.shiftr c 6 in
    let count := Z.land (Z.shiftr c 2) 15 in
    (if d_i s + count >? nops then ERROR "Outside range" else mret ());;
    s ← lift DebugOverrun (debug_fill (Z.to_nat count) s);
    line ← lift IntOverflow (int_add (d_line s) delta);
    mret (DebugState (d_i s) (d_file s) line (d_out s))
  else if negb (Z.land c 4 =? 0) then
    line ← lift IntOverflow (int_add (d_line s) (Z.shiftr c 3));
    lift OutOfBounds (debug_fill 1 (DebugState (d_i s) (d_file s) line (d_out s)))
  else
    b2 ← hl_read_b;
    b3 ← hl_read_b;
    let line := Z.lor (Z.lor (Z.shiftr c 3) (Z.shiftl b2 5)) (Z.shiftl b3 13) in
    lift OutOfBounds (debug_fill 1 (DebugState (d_i s) (d_file s) line (d_out s))).

Definition debug_step (ndebugfiles nops : Z) (s : debug_state) : rd debug_state :=
  c ← hl_read_b; debug_body ndebugfiles nops s c.

Fixpoint debug_loop (ndebugfiles nops : Z) (fuel : nat) (s : debug_state) : rd debug_state :=
  if d_i s <? nops then
    match fuel with
    | O => trap_ NoFuel
    | S fuel => s ← debug_step ndebugfiles nops s; debug_loop ndebugfiles nops fuel s
    end
  else mret s.

(** Every turn consumes a byte or fills an entry, so the bytes left and [nops] bound
    the turns. *)
Definition hl_read_debug_infos (junk ndebugfiles nops : Z) : rd (list (Z * Z)) :=
  hl_malloc (nops * 2) 4;;
  pos ← get_pos;
  size ← r_size;
  s ← debug_loop ndebugfiles nops (Z.to_nat (size - pos) + Z.to_nat nops + 1)
        (DebugState 0 (-1) 0 (replicate (Z.to_nat nops) (junk, junk)));
  mret (d_out s).

(** ** Stable function identities *)
(** The three tables beside [code->functions] that identities fill. *)
Record identities := Identities
  { function_stable_ids : list Z; function_names : list (option (list Z)); function_names_lens : list Z }.

(** [max_findex] over the functions read. *)
Definition max_findex (fs : list hl_function) : Z :=
  fold_left (fun m f => if findex f >? m then findex f else m) fs (-1).

(** [by_findex]: the first function of each index, [-1] where there is none. *)
Fixpoint index_functions (tbl : list Z) (j : Z) (fs : list hl_function) : option (list Z) :=
  match fs with
  | [] => Some tbl
  | f :: fs =>
      old ← aget tbl (findex f);
      tbl ← (if old <? 0 then aset tbl (findex f) j else Some tbl);
      index_functions tbl (j + 1) fs
  end.

(** [while( set_size < 2 * count ) set_size *= 2], from 16. *)
Definition seen_size (count : Z) : option Z :=
  let count := if count >? 0 then count else 1 in
  loop (fun s => want ← int_of (2 * count);
                 if s <? want then s ← int_of (s * 2); Some (inl s) else Some (inr s)) 32 16.

Definition hash_slot (stable_id set_size : Z) : Z :=
  Z.land (u32 (stable_id * 2654435761)) (u32 (set_size - 1)).

(** The first slot from [slot] on that is free or already holds the ID. *)
Definition find_slot (seen : list Z) (set_size stable_id slot : Z) : option Z :=
  loop (fun slot =>
          x ← aget seen slot;
          if (x >=? 0) && negb (x =? stable_id)
          then Some (inl (Z.land (u32 (slot + 1)) (u32 (set_size - 1))))
          else Some (inr slot))
       (S (length seen)) slot.

(** Skips the three strings of an entry; the first is the qualified name (the bytes
    [qualified_name] points at).  [inl] is the [return] after the error. *)
Fixpoint identity_strings (n : nat) (name : option (list Z)) : rd (unit + option (list Z)) :=
  match n with
  | O => mret (inr name)
  | S n =>
      length ← hl_read_uindex;
      pos ← get_pos;
      size ← r_size;
      last ← lift IntOverflow (int_add pos length);
      if (length <? 0) || (last >? size) then mret (inl ())
      else
        bytes ← (fun r => lift OutOfBounds (aslice (r_b r) pos length) r);
        set_pos (pos + length);;
        identity_strings n (match name with None => Some bytes | s => s end)
  end.

(** One entry of the section, read with the section's own reader.  [inl msg] is the
    error set on the outer reader before returning. *)
Definition identity_entry (by_findex : list Z) (maxf set_size : Z) (seen : list Z) (tbl : identities)
    : rd (string + list Z * identities) :=
  stable_id ← hl_read_uindex;
  function_index ← hl_read_uindex;
  target ← (if (function_index >=? 0) && (function_index <=? maxf)
            then lift OutOfBounds (aget by_findex function_index) else mret (-1));
  name ← identity_strings 3 None;
  match name with
  | inl _ => mret (inl "Invalid function identity string")
  | inr name =>
      hl_read_index;; hl_read_index;; hl_read_uindex;; hl_read_uindex;;
      seen' ← (if stable_id >=? 0 then
                 slot ← lift NoFuel (find_slot seen set_size stable_id (hash_slot stable_id set_size));
                 x ← lift OutOfBounds (aget seen slot);
                 if x =? stable_id then mret None
                 else s ← lift OutOfBounds (aset seen slot stable_id); mret (Some s)
               else mret (Some seen));
      match seen' with
      | None => mret (inl "Duplicate stable function identity")
      | Some seen =>
          err ← get_error;
          taken ← (if bool_decide (is_Some err) || (target <? 0) then mret true
                   else old ← lift OutOfBounds (aget (function_stable_ids tbl) target); mret (old >=? 0));
          if (taken : bool) then mret (inl "Invalid function identity")
          else
            bytes ← lift OutOfBounds name;
            let nl := alen bytes in
            ids ← lift OutOfBounds (aset (function_stable_ids tbl) target stable_id);
            hl_malloc (nl + 1) 1;;
            names ← lift OutOfBounds (aset (function_names tbl) target (Some (bytes ++ [0])));
            lens ← lift OutOfBounds (aset (function_names_lens tbl) target nl);
            mret (inr (seen, Identities ids names lens))
      end
  end.

Fixpoint identity_entries (by_findex : list Z) (maxf set_size : Z) (n : nat) (seen : list Z) (tbl : identities)
    : rd (string + identities) :=
  match n with
  | O => mret (inr tbl)
  | S n =>
      r ← identity_entry by_findex maxf set_size seen tbl;
      match r with
      | inl msg => mret (inl msg)
      | inr (seen, tbl) => identity_entries by_findex maxf set_size n seen tbl
      end
  end.

(** The section after its count, with the section's own reader: the error to report, or
    the new tables and whether bytes are left. *)
Definition read_identities (fs : list hl_function) (tbl : identities) (count : Z) : rd (string + identities * bool) :=
  let maxf := max_findex fs in
  hl_malloc (if maxf + 1 >? 0 then maxf + 1 else 1) 4;;
  by_findex ← lift OutOfBounds (index_functions (replicate (Z.to_nat (maxf + 1)) (-1)) 0 fs);
  set_size ← lift IntOverflow (seen_size count);
  hl_malloc set_size 4;;
  res ← identity_entries by_findex maxf set_size (Z.to_nat count) (replicate (Z.to_nat set_size) (-1)) tbl;
  pos ← get_pos;
  size ← r_size;
  mret (match res with
        | inl msg => inl msg
        | inr tbl => inr (tbl, negb (pos =? size))
        end).

(** Reads the section [data] with a reader of its own; the outer reader only gets the
    error, after which [hl_code_read] frees everything: the entries written before the
    error are dropped here. *)
Definition hl_read_function_identities (fs : list hl_function) (data : list Z) (tbl : identities) : rd identities :=
  fun r =>
    match (count ← hl_read_uindex; read_identities fs tbl count) (Reader data 0 None [] (r_cache r)) with
    | Trap t => Trap t
    | Ok (inl msg) _ => (ERROR msg;; mret tbl) r
    | Ok (inr (tbl', true)) _ => (ERROR "Trailing function identity data";; mret tbl') r
    | Ok (inr (tbl', false)) _ => Ok tbl' r
    end.

(** ** The whole file *)
Record hl_code := Code
  { c_version : Z; c_hasdebug : bool; c_entrypoint : Z;
    c_ints : list Z; c_floats : list Z;
    c_strings : string_table; c_bytes : option (list Z) * list Z;
    c_debugfiles : option string_table;
    c_types : list hl_type; types_capacity : Z;
    c_globals : list Z; c_natives : list hl_native;
    c_functions : list hl_function; functions_capacity : Z; c_identities : identities;
    c_constants : list hl_constant; c_debugsections : list hl_debug_section;
    c_ustrings : list (option (list Z)) }.

(** [#define CHK_ERROR() if( r->error ) { ...; *error_msg = r->error; return NULL; }]:
    the rest of the function is the argument.  [inl] is a null result. *)
Definition CHK_ERROR {A} (k : rd (string + A)) : rd (string + A) :=
  e ← get_error;
  match e with Some msg => mret (inl msg) | None => k end.
(** [#define EXIT(msg) { ERROR(msg); CHK_ERROR(); }] *)
Definition EXIT {A} (msg : string) : rd (string + A) :=
  ERROR msg;; e ← get_error; mret (inl (default msg e)).
Definition ALLOC := hl_malloc.

(** The counts at the start of the file. *)
Record counts := Counts
  { k_version : Z; k_flags : Z; k_nints : Z; k_nfloats : Z; k_nstrings : Z; k_nbytes : Z; k_ntypes : Z;
    k_nglobals : Z; k_nnatives : Z; k_nfunctions : Z; k_nconstants : Z; k_entrypoint : Z }.
Definition max_version : Z := 7.
Definition read_counts : rd (string + counts) :=
  a ← hl_read_b;
  ok ← (if negb (a =? 72) then mret false
        else b ← hl_read_b;
             if negb (b =? 76) then mret false else c ← hl_read_b; mret (c =? 66));
  if negb ok then EXIT "Invalid HL bytecode header" else
  version ← hl_read_b;
  if (version <=? 1) || (version >? max_version) then EXIT "Unsupported bytecode version" else
  flags ← hl_read_uindex;
  nints ← hl_read_uindex;
  nfloats ← hl_read_uindex;
  nstrings ← hl_read_uindex;
  nbytes ← (if version >=? 5 then hl_read_uindex else mret 0);
  ntypes ← hl_read_uindex;
  nglobals ← hl_read_uindex;
  nnatives ← hl_read_uindex;
  nfunctions ← hl_read_uindex;
  nconstants ← (if version >=? 4 then hl_read_uindex else mret 0);
  entrypoint ← hl_read_uindex;
  CHK_ERROR (mret (inr (Counts version flags nints nfloats nstrings nbytes ntypes nglobals nnatives
                          nfunctions nconstants entrypoint))).

(** [for(...) { x = body(); CHK_ERROR(); }] *)
Fixpoint rd_list_chk {A} (body : rd (string + A)) (n : nat) : rd (string + list A) :=
  match n with
  | O => mret (inr [])
  | S n =>
      x ← body;
      match x with
      | inl msg => mret (inl msg)
      | inr x => xs ← rd_list_chk body n;
                 mret (match xs with inl msg => inl msg | inr xs => inr (x :: xs) end)
      end
  end.

Definition read_native (h : header) (_ : Z) : rd (option Z * option Z * Z * Z) :=
  l ← hl_read_string h; n ← hl_read_string h; t ← hl_get_type h; fi ← hl_read_uindex; mret (l, n, t, fi).

Definition read_assign (version : Z) (_ : Z) : rd (Z * Z * Z) :=
  a ← hl_read_uindex;
  b ← hl_read_index;
  c ← (if version >=? 6 then c ← hl_read_index; mret (c - 1) else mret (-1));
  mret (a, b - 1, c).

(** One turn of the loop over the functions. *)
Definition read_checked_function (h : header) (hasdebug : bool) : rd (string + hl_function) :=
  f ← hl_read_function h;
  CHK_ERROR (
  match hl_validate_function_control_flow f with
  | inl t => trap_ t
  | inr (Some msg) => EXIT msg
  | inr None =>
      if hasdebug then
        dbg ← hl_read_debug_infos (junk h) (ndebugfiles h) (nops f);
        if version h >=? 3 then
          nassigns ← hl_read_uindex;
          assigns ← rd_array (read_assign (version h)) nassigns;
          mret (inr (Function (findex f) (nregs f) (nops f) (ftype f) (regs f) (ops f) dbg nassigns assigns))
        else mret (inr (Function (findex f) (nregs f) (nops f) (ftype f) (regs f) (ops f) dbg 0 []))
      else mret (inr f)
  end).

Definition read_constant : rd (string + hl_constant) :=
  g ← hl_read_uindex;
  n ← hl_read_uindex;
  ALLOC n 4;;
  fields ← rd_array (fun _ => hl_read_uindex) n;
  CHK_ERROR (mret (inr (Constant g n fields))).

Fixpoint read_sections (fs : list hl_function) (n : nat) (ids : identities)
    : rd (string + list hl_debug_section * identities) :=
  match n with
  | O => mret (inr ([], ids))
  | S n =>
      kind ← hl_read_uindex;
      version ← hl_read_uindex;
      flags ← hl_read_uindex;
      size ← hl_read_uindex;
      CHK_ERROR (
      if (kind <=? 0) || (version <=? 0) then EXIT "Invalid debug section header" else
      hl_malloc size 1;;
      data ← hl_read_bytes size;
      CHK_ERROR (
      let data := default [] data in
      ids ← (if (kind =? 1) && (version =? 1) then hl_read_function_identities fs data ids else mret ids);
      CHK_ERROR (
      r ← read_sections fs n ids;
      mret (match r with
            | inl msg => inl msg
            | inr (ss, ids) => inr (DebugSection kind version flags size data :: ss, ids)
            end))))
  end.

(** [function_stable_ids[i] < 0] is replaced by the function's index. *)
Definition default_ids (fs : list hl_function) (ids : list Z) : list Z :=
  zip_with (fun f id => if id <? 0 then findex f else id) fs ids.

Definition HL_PATCH_TYPE_RESERVE : Z := 65536.
Definition HL_PATCH_FUNCTION_RESERVE : Z := 4096.
Definition capacity_of (n reserve used : Z) : Z := if n >? 2147483647 - reserve - used then n else n + reserve.

Definition native_of (x : option Z * option Z * Z * Z) : hl_native :=
  let '(l, n, t, fi) := x in Native (default (-1) l) (default (-1) n) t fi.

(** Everything after the string tables. *)
Definition read_tables (k : counts) (ints floats : list Z) (bytes : option (list Z) * list Z)
    (debugfiles : option string_table) (h : header) : rd (string + hl_code) :=
  let hasdebug := negb (Z.land (k_flags k) 1 =? 0) in
  let tcap := capacity_of (k_ntypes k) HL_PATCH_TYPE_RESERVE 0 in
  ALLOC tcap 40;;
  types ← rd_list_chk (t ← hl_read_type h; CHK_ERROR (mret (inr t))) (Z.to_nat (k_ntypes k));
  match types with
  | inl msg => mret (inl msg)
  | inr types =>
      ALLOC (k_nglobals k) 8;;
      globals ← rd_array (fun _ => hl_get_type h) (k_nglobals k);
      CHK_ERROR (
      ALLOC (k_nnatives k) 32;;
      natives ← rd_array (read_native h) (k_nnatives k);
      CHK_ERROR (
      let fcap := capacity_of (k_nfunctions k) HL_PATCH_FUNCTION_RESERVE (k_nnatives k) in
      ALLOC fcap 80;; ALLOC fcap 4;; ALLOC fcap 8;; ALLOC fcap 4;;
      functions ← rd_list_chk (read_checked_function h hasdebug) (Z.to_nat (k_nfunctions k));
      match functions with
      | inl msg => mret (inl msg)
      | inr functions =>
          CHK_ERROR (
          ALLOC (k_nconstants k) 16;;
          constants ← rd_list_chk read_constant (Z.to_nat (k_nconstants k));
          match constants with
          | inl msg => mret (inl msg)
          | inr constants =>
              let n := length functions in
              let ids := Identities (replicate n (-1)) (replicate n None) (replicate n 0) in
              r ← (if version h >=? 7 then
                     nsections ← hl_read_uindex;
                     CHK_ERROR (ALLOC nsections 24;; read_sections functions (Z.to_nat nsections) ids)
                   else mret (inr ([], ids)));
              match r with
              | inl msg => mret (inl msg)
              | inr (sections, ids) =>
                  us ← get_ustrings;
                  mret (inr (Code (version h) hasdebug (k_entrypoint k) ints floats (strings h) bytes debugfiles
                               types tcap globals (native_of <$> natives) functions fcap
                               (Identities (default_ids functions (function_stable_ids ids))
                                  (function_names ids) (function_names_lens ids))
                               constants sections us))
              end
          end)
      end))
  end.

Definition read_code (junk : Z) (junkl : hl_field_lookup (list Z)) : rd (string + hl_code) :=
  k ← read_counts;
  match k with
  | inl msg => mret (inl msg)
  | inr k =>
      ALLOC (k_nints k) 4;;
      ints ← rd_array (fun _ => hl_read_i32) (k_nints k);
      CHK_ERROR (
      ALLOC (k_nfloats k) 8;;
      floats ← rd_array (fun _ => hl_read_double) (k_nfloats k);
      CHK_ERROR (
      strs ← hl_read_strings (k_nstrings k);
      ALLOC (k_nstrings k) 8;;
      CHK_ERROR (
      strs ← lift OutOfBounds strs;
      set_ustrings (replicate (Z.to_nat (k_nstrings k)) None);;
      let version := k_version k in
      r ← (if version >=? 5 then
             size ← hl_read_i32;
             hl_malloc size 1;;
             data ← hl_read_bytes size;
             ALLOC (k_nbytes k) 4;;
             CHK_ERROR (
             pos ← rd_array (fun _ => hl_read_uindex) (k_nbytes k);
             CHK_ERROR (mret (inr (data, pos))))
           else mret (inr (None, [])));
      match r with
      | inl msg => mret (inl msg)
      | inr bytes =>
          let hasdebug := negb (Z.land (k_flags k) 1 =? 0) in
          r ← (if hasdebug then
                 nfiles ← hl_read_uindex;
                 files ← hl_read_strings nfiles;
                 CHK_ERROR (mret (inr (nfiles, files)))
               else mret (inr (0, None)));
          match r with
          | inl msg => mret (inl msg)
          | inr (nfiles, files) =>
              read_tables k ints floats bytes files
                (Header version (k_ntypes k) (k_nstrings k) nfiles strs junk junkl)
          end
      end)))
  end.

(** The code or the error message, and the reader state left. *)
Definition hl_code_read (junk : Z) (junkl : hl_field_lookup (list Z)) (cache : hash_cache) (data : list Z)
    : result (string + hl_code) :=
  read_code junk junkl (Reader data 0 None [] cache).

(** ** Names and deallocation *)
Definition hl_code_function_name (nfunctions : Z) (functions : list hl_function) (names : option (list (option (list Z))))
    (at_ : option Z) (fi : Z) : option (option (list Z)) :=
  match names with
  | None => Some None
  | Some names =>
      direct ← match at_ with
               | Some a => f ← aget functions a; Some (bool_decide (findex f = fi))
               | None => Some false
               end;
      match at_, (direct : bool) with
      | Some a, true => aget names a
      | _, _ =>
          loop (fun i => if i <? nfunctions then
                           f ← aget functions i;
                           if findex f =? fi then n ← aget names i; Some (inr n) else Some (inl (i + 1))
                         else Some (inr None))
               (S (Z.to_nat nfunctions)) 0
      end
  end.
