(* ===== verification/ReaderSpec.v ===== *)
(** * What the bytecode reader guarantees

    [safe B n m always good]: run on any well-formed reader state, [m] keeps it well
    formed, never moves backwards, never forgets an error, returns a value that
    satisfies [always], and [good] when no error is recorded at the end; the only
    traps are those of [B].  The rules below compose it along the monad. *)
From S2P Require Import Prelude Opcodes Ustr Unicode Lookup Reader.

Definition byte (b : Z) : Prop := 0 <= b < 256.

(** A decoded name: zero-terminated 16-bit characters. *)
Definition name_ok (u : list Z) : Prop := exists s, cstring u s /\ uchars s.

(** [n] is the number of strings of the file. *)
Definition rok (n : Z) (r : reader) : Prop :=
  0 <= r_pos r <= alen (r_b r) /\ alen (r_b r) <= 2 ^ 30 /\ Forall byte (r_b r) /\
  alen (r_ustrings r) = n /\ Forall (fun u => forall x, u = Some x -> name_ok x) (r_ustrings r) /\
  exists names, cache_repr (r_cache r) names.

Definition sticky (r r' : reader) : Prop :=
  r_b r' = r_b r /\ r_pos r <= r_pos r' /\ forall e, r_error r = Some e -> r_error r' = Some e.

#[global] Instance sticky_preorder : PreOrder sticky.
Proof.
  split.
  - intros r. split; [done|]. split; [lia|done].
  - intros a b c (H1 & H2 & H3) (H4 & H5 & H6). split; [congruence|]. split; [lia|auto].
Qed.
Lemma sticky_none r r' : sticky r r' -> r_error r' = None -> r_error r = None.
Proof. intros (_ & _ & H) Hn. destruct (r_error r) eqn:E; [|done]. specialize (H _ eq_refl). congruence. Qed.

Section safe.
Context (B : trap -> Prop) (n : Z).

Definition safe {A} (m : rd A) (always good : A -> Prop) : Prop :=
  forall r, rok n r ->
    match m r with
    | Ok a r' => rok n r' /\ sticky r r' /\ always a /\ (r_error r' = None -> good a)
    | Trap t => B t
    end.

Lemma safe_ret {A} (a : A) (P Q : A -> Prop) : P a -> Q a -> safe (mret a) P Q.
Proof. intros HP HQ r Hr. simpl. split; [done|]. split; [reflexivity|]. auto. Qed.

Lemma safe_weaken {A} (m : rd A) (P P' Q Q' : A -> Prop) :
  safe m P Q -> (forall a, P a -> P' a) -> (forall a, P a -> Q a -> Q' a) -> safe m P' Q'.
Proof.
  intros H HP HQ r Hr. specialize (H r Hr). destruct (m r); [|done]. naive_solver.
Qed.

Lemma safe_bind {A C} (m : rd A) (f : A -> rd C) (P Q : A -> Prop) (P' Q' : C -> Prop) :
  safe m P Q -> (forall a, P a -> safe (f a) P' (fun b => Q a -> Q' b)) -> safe (x ← m; f x) P' Q'.
Proof.
  intros Hm Hf r Hr. unfold mbind, rd_bind. specialize (Hm r Hr). destruct (m r) as [a r1|]; [|done].
  destruct Hm as (Hr1 & Hs1 & HP & HQ). specialize (Hf a HP r1 Hr1). destruct (f a r1) as [c r2|]; [|done].
  destruct Hf as (Hr2 & Hs2 & HP' & HQ'). split; [done|]. split; [by transitivity r1|]. split; [done|].
  intros He. apply HQ'; [done|]. apply HQ. by eapply sticky_none.
Qed.

(** The same, when nothing is needed of the error-free case of the first part. *)
Lemma safe_bind_ {A C} (m : rd A) (f : A -> rd C) (P Q : A -> Prop) (P' Q' : C -> Prop) :
  safe m P Q -> (forall a, P a -> safe (f a) P' Q') -> safe (x ← m; f x) P' Q'.
Proof.
  intros Hm Hf. eapply safe_bind; [exact Hm|]. intros a Ha. eapply safe_weaken; [by apply Hf|done|auto].
Qed.

Lemma safe_lift {A} t (o : option A) (P Q : A -> Prop) a :
  o = Some a -> P a -> Q a -> safe (lift t o) P Q.
Proof. intros -> HP HQ r Hr. simpl. split; [done|]. split; [reflexivity|]. auto. Qed.
Lemma safe_lift_trap {A} t (o : option A) (P Q : A -> Prop) :
  B t -> (forall a, o = Some a -> P a /\ Q a) -> safe (lift t o) P Q.
Proof.
  intros Ht H r Hr. unfold lift. destruct o; [|done]. destruct (H a); [done|]. split; [done|].
  split; [reflexivity|]. auto.
Qed.

Lemma safe_trap {A} t (P Q : A -> Prop) : B t -> safe (trap_ t) P Q.
Proof. intros H r Hr. done. Qed.

Lemma safe_ERROR msg (P Q : unit -> Prop) : P () -> safe (ERROR msg) P Q.
Proof.
  intros HP r Hr. unfold ERROR. destruct (r_error r) eqn:E.
  - split; [done|]. split; [reflexivity|]. split; [done|]. intros. congruence.
  - split; [exact Hr|]. split; [|split; [done|done]]. split; [done|]. simpl. split; [lia|congruence].
Qed.

(** An error followed by a default value: nothing is promised in the error-free
    case, which does not arise. *)
Lemma safe_error_ret {A} msg (a : A) (P Q : A -> Prop) : P a -> safe (ERROR msg;; mret a) P Q.
Proof.
  intros HP. eapply (safe_bind _ _ (fun _ => True) (fun _ => False)); [by apply safe_ERROR|].
  intros [] _. by apply safe_ret.
Qed.

Lemma safe_if {A} (b : bool) (m1 m2 : rd A) (P Q : A -> Prop) :
  (b = true -> safe m1 P Q) -> (b = false -> safe m2 P Q) -> safe (if b then m1 else m2) P Q.
Proof. destruct b; auto. Qed.

Lemma safe_malloc count size (P Q : unit -> Prop) : B BadAlloc -> P () ->
  (0 <= count * size <= INT_MAX - 7 -> Q ()) -> safe (hl_malloc count size) P Q.
Proof.
  intros HB HP HQ. unfold hl_malloc. case_decide; [apply safe_ret; auto|by apply safe_trap].
Qed.

Lemma safe_get_error {C} (f : option string -> rd C) (P' Q' : C -> Prop) :
  (forall e, safe (f e) P' (fun b => e = None -> Q' b)) -> safe (e ← get_error; f e) P' Q'.
Proof.
  intros Hf r Hr. unfold mbind, rd_bind, get_error. specialize (Hf (r_error r) r Hr).
  destruct (f (r_error r) r) as [c r2|]; [|done]. destruct Hf as (? & Hs & ? & HQ). split; [done|]. split; [done|]. split; [done|].
  intros He. apply HQ; [done|]. by eapply sticky_none.
Qed.

Lemma safe_list {A} (body : Z -> rd A) (P Q : A -> Prop) k i :
  (forall j, safe (body j) P Q) ->
  safe (rd_list body k i) (fun l => length l = k /\ Forall P l) (fun l => Forall Q l).
Proof.
  intros Hb. revert i. induction k as [|k IH]; intros i; simpl.
  - by apply safe_ret.
  - eapply safe_bind; [apply Hb|]. intros x Hx. eapply safe_bind; [apply IH|]. intros xs [Hl Hxs].
    apply safe_ret; [|by constructor]. split; [simpl; lia|by constructor].
Qed.
Lemma safe_array {A} (body : Z -> rd A) (P Q : A -> Prop) k :
  0 <= k -> (forall j, safe (body j) P Q) ->
  safe (rd_array body k) (fun l => alen l = k /\ Forall P l) (fun l => Forall Q l).
Proof.
  intros Hk Hb. eapply safe_weaken; [by apply safe_list|intros l [Hl ?]|done].
  split; [unfold alen; lia|done].
Qed.

(** *** Primitive reads *)
Lemma rok_aget r i b : rok n r -> aget (r_b r) i = Some b -> byte b.
Proof.
  intros (_ & _ & Hb & _) Ha. unfold aget in Ha. case_decide; [|done].
  eapply Forall_lookup_1; [exact Hb|exact Ha].
Qed.
Lemma rok_pos r p : rok n r -> r_pos r <= p <= alen (r_b r) ->
  rok n (Reader (r_b r) p (r_error r) (r_ustrings r) (r_cache r)).
Proof. intros (? & ? & ?) ?. split; [simpl; lia|done]. Qed.
Lemma sticky_pos r p : r_pos r <= p ->
  sticky r (Reader (r_b r) p (r_error r) (r_ustrings r) (r_cache r)).
Proof. intros. split; [done|]. done. Qed.

Lemma safe_read_b : safe hl_read_b byte byte.
Proof.
  intros r Hr. unfold hl_read_b, mbind, rd_bind, get_pos, r_size. case_if_bool.
  - apply (safe_error_ret "No more data" 0 byte byte); [unfold byte; lia|done].
  - pose proof Hr as (Hp & _). destruct (aget_is_Some (r_b r) (r_pos r)) as [b Hb]; [lia|].
    unfold r_byte, lift, set_pos. rewrite Hb. simpl. pose proof (rok_aget _ _ _ Hr Hb).
    split; [apply rok_pos; [done|lia]|]. split; [apply sticky_pos; lia|]. auto.
Qed.

Lemma safe_read_i32 : safe hl_read_i32 in_i32 in_i32.
Proof.
  intros r Hr. unfold hl_read_i32, mbind, rd_bind, get_pos, r_size, lift, int_add.
  pose proof Hr as (Hp & Hlen & _). norm_pow2.
  rewrite int_of_Some by (unfold in_i32, INT_MIN, INT_MAX; lia). case_if_bool.
  - apply (safe_error_ret "No more data" 0 in_i32 in_i32); [|done]. unfold in_i32, INT_MIN, INT_MAX; lia.
  - unfold r_byte, lift, set_pos.
    destruct (aget_is_Some (r_b r) (r_pos r)) as [? ->]; [lia|].
    destruct (aget_is_Some (r_b r) (r_pos r + 1)) as [? ->]; [lia|].
    destruct (aget_is_Some (r_b r) (r_pos r + 2)) as [? ->]; [lia|].
    destruct (aget_is_Some (r_b r) (r_pos r + 3)) as [? ->]; [lia|]. simpl.
    split; [apply rok_pos; [done|lia]|]. split; [apply sticky_pos; lia|]. split; [|intros _]; apply i32_in.
Qed.

Lemma safe_read_bytes size : B IntOverflow ->
  safe (hl_read_bytes size)
    (fun d => match d with Some l => alen l = size /\ Forall byte l | None => True end) (fun d => is_Some d).
Proof.
  intros HB. unfold hl_read_bytes. apply safe_if; intros Hs; zbool; [by apply safe_error_ret|].
  intros r Hr. unfold mbind, rd_bind, get_pos, r_size. unfold lift at 1.
  destruct (int_add (r_pos r) size) as [last|] eqn:E; [|done].
  unfold int_add, int_of in E. case_decide; simplify_eq. case_if_bool.
  - apply (safe_error_ret "No more data" None (fun d => match d with Some l => alen l = size /\ Forall byte l | None => True end) is_Some); done.
  - pose proof Hr as (Hp & Hlen & Hb & _). rewrite aslice_Some by lia. simpl.
    split; [apply rok_pos; [done|lia]|]. split; [apply sticky_pos; lia|]. split; [|eauto].
    split; [rewrite alen_take; [lia|rewrite alen_drop; lia]|]. by apply Forall_take, Forall_drop.
Qed.

Definition idx_range (i : Z) : Prop := - 536870912 < i < 536870912.
Lemma index_bounds2 lo b : byte lo -> byte b -> 0 <= Z.lor lo (Z.shiftl (Z.land b 31) 8) < 8192.
Proof.
  unfold byte. intros. rewrite Z.lor_comm. z_masks.
  rewrite (lor_add 8 (_ * 256)) by (norm_pow2; z_div). z_div.
Qed.
Lemma index_value4 b c d e : byte b -> byte c -> byte d -> byte e ->
  Z.lor (Z.lor (Z.lor (Z.shiftl (Z.land b 31) 24) (Z.shiftl c 16)) (Z.shiftl d 8)) e =
    (b mod 32) * 16777216 + c * 65536 + d * 256 + e.
Proof.
  unfold byte. intros. z_masks. rewrite (lor_add 24 (_ * 16777216)) by (norm_pow2; z_div).
  rewrite (lor_add 16 (_ + _) (_ * 256)) by (norm_pow2; z_div).
  rewrite (lor_add 8 (_ + _)) by (norm_pow2; z_div). done.
Qed.
Lemma safe_read_index : safe hl_read_index idx_range idx_range.
Proof.
  unfold hl_read_index, idx_range. eapply safe_bind_; [apply safe_read_b|]. intros b Hb. apply safe_if; intros _.
  { assert (0 <= Z.land b 127 < 128) by (z_masks; z_div). apply safe_ret; lia. }
  apply safe_if; intros _.
  - eapply safe_bind_; [apply safe_read_b|]. intros lo Hlo. cbv zeta.
    pose proof (index_bounds2 lo b Hlo Hb). apply safe_ret; case_if_bool; lia.
  - do 3 (eapply safe_bind_; [apply safe_read_b|]; intros ? ?). cbv zeta. rewrite index_value4 by done.
    unfold byte in *. apply safe_ret; case_if_bool; z_div.
Qed.
Definition uidx_range (i : Z) : Prop := 0 <= i < 536870912.
Lemma safe_read_uindex : safe hl_read_uindex uidx_range uidx_range.
Proof.
  unfold hl_read_uindex, uidx_range. eapply safe_bind_; [apply safe_read_index|].
  intros i Hi. unfold idx_range in *. apply safe_if; intros H; zbool.
  - apply safe_error_ret. lia.
  - apply safe_ret; lia.
Qed.
End safe.

(** ** Decoded names *)
Lemma u16_range c : 0 <= u16 c < 2 ^ 16.
Proof. apply uN_range. lia. Qed.

(** [hl_from_utf8] writes at most [outLen + 1] characters, the last one zero. *)
Lemma from_utf8_bound s : forall p outLen out r, from_utf8_from p outLen s = Some (out, r) -> p <= outLen ->
  alen out <= outLen - p + 1 /\ uchars out /\ exists out', out = out' ++ [0].
Proof.
  remember (length s) as k eqn:Hk. revert s Hk. induction k as [k IH] using lt_wf_ind.
  intros s Hk p outLen out r H Hp. subst k.
  assert (0 <= 0 < 2 ^ 16) as H0 by (norm_pow2; lia).
  assert (forall x : Z, alen [x] <= outLen - p + 1) as Hone by (intros x; change (alen [x]) with 1; lia).
  destruct s as [|c s]; cbn [from_utf8_from] in H.
  { case_if_bool; [done|]. simplify_eq. split; [apply Hone|]. split; [by repeat constructor|]. by exists []. }
  case_if_bool; [|simplify_eq; split; [apply Hone|]; split; [by repeat constructor|]; by exists []].
  assert (forall s' q, (length s' < length (c :: s))%nat -> q <= outLen -> forall cs : list Z,
    (('(out, r) ← from_utf8_from q outLen s'; Some (cs ++ out, r)) = Some (out, r)) -> alen cs = q - p -> uchars cs ->
    alen out <= outLen - p + 1 /\ uchars out /\ exists out', out = out' ++ [0]) as Hrec.
  { intros s' q Hs Hq cs Hr Hl Hc. destruct (from_utf8_from q outLen s') as [[o2 r2]|] eqn:E2; [|done].
    simpl in Hr. simplify_eq. destruct (IH _ Hs s' eq_refl q outLen o2 r E2 Hq) as (Ha & Hu & o' & ->).
    rewrite alen_app. split; [lia|]. split; [by apply Forall_app|]. exists (cs ++ o'). by rewrite app_assoc. }
  assert (forall x, uchars [u16 x]) as Hu1 by (intros x; apply Forall_singleton, u16_range).
  assert (forall x y, uchars [u16 x; u16 y]) as Hu2
    by (intros x y; apply Forall_cons; split; [apply u16_range|apply Hu1]).
  case_if_bool.
  { case_if_bool; [simplify_eq; split; [apply Hone|]; split; [by repeat constructor|]; by exists []|].
    apply (Hrec s (p + 1) ltac:(simpl; lia) ltac:(lia) [u16 c] H); [change (alen [u16 c]) with 1; lia|auto]. }
  case_if_bool.
  { destruct s as [|b1 s]; [done|]. match type of H with context [?x :: _] => 
    apply (Hrec s (p + 1) ltac:(simpl; lia) ltac:(lia) [x] H); [change (alen [x]) with 1; lia|auto] end. }
  case_if_bool.
  { destruct s as [|c2 [|b2 s]]; [done|done|]. match type of H with context [?x :: _] => 
    apply (Hrec s (p + 1) ltac:(simpl; lia) ltac:(lia) [x] H); [change (alen [x]) with 1; lia|auto] end. }
  destruct s as [|c2 [|c3 [|b3 s]]]; [done|done|done|]. cbv zeta in H. case_if_bool.
  { simplify_eq. split; [apply Hone|]. split; [by repeat constructor|]. by exists []. }
  match type of H with context [?x :: ?y :: _] =>
    apply (Hrec s (p + 1 + 1) ltac:(simpl; lia) ltac:(lia) [x; y] H); [change (alen [x; y]) with 2; lia|auto] end.
Qed.

Lemma utf8_length_ge s : forall n l, utf8_length_from s n = Some l -> n <= l.
Proof.
  remember (length s) as k eqn:Hk. revert s Hk. induction k as [k IH] using lt_wf_ind.
  intros s Hk n l H. subst k. destruct s as [|c s]; [done|]. cbn [utf8_length_from] in H.
  repeat first [case_if_bool | done | (simplify_eq; lia)
    | match goal with
      | H : utf8_length_from ?s ?n = Some ?l |- _ => apply (IH (length s)) in H; [lia|simpl; lia|done]
      | H : match ?s with [] => _ | _ => _ end = _ |- _ => destruct s
      end].
Qed.

Lemma name_ok_intro out rest : uchars (out ++ [0]) -> name_ok ((out ++ [0]) ++ rest).
Proof.
  unfold uchars. intros Hu. induction out as [|c out IH].
  - exists []. split; [|constructor]. by apply (cstring_intro []).
  - inversion Hu as [|? ? Hc Hu']; subst. destruct (decide (c = 0)) as [->|Hc0].
    + exists []. split; [|constructor]. by apply (cstring_intro []).
    + destruct (IH Hu') as (s & [Hs (m & Hm)] & Hus). exists (c :: s). split; [|by constructor].
      split; [by constructor|]. exists m. simpl in *. by rewrite Hm.
Qed.

(** ** Reads that need the header *)
Section reads.
Context (B : trap -> Prop) (h : header).
(** The traps that cannot be excluded: sizes, and the string decoder. *)
Context (Balloc : B BadAlloc) (Bover : B IntOverflow) (Bcache : B CacheFull) (Bstr : B BadString).
Context (Hh : alen (spos (strings h)) = nstrings h).

Definition type_idx (t : Z) : Prop := 0 <= t < ntypes h.
Abbreviation safe := (safe B (nstrings h)).
Abbreviation any := (fun _ => True).

Lemma safe_get_type : safe (hl_get_type h) (fun t => 0 <= t) type_idx.
Proof.
  unfold hl_get_type. eapply safe_bind_; [apply safe_read_index|]. intros i Hi.
  apply safe_if; intros H; zbool; [by apply safe_error_ret|]. apply safe_ret; unfold type_idx; lia.
Qed.

Definition str_idx (p : option Z) : Prop := forall x, p = Some x -> exists i, aget (spos (strings h)) i = Some x.
Lemma safe_read_string : safe (hl_read_string h) str_idx (fun p => is_Some p).
Proof.
  unfold hl_read_string. eapply safe_bind_; [apply safe_read_index|]. intros i Hi.
  apply safe_if; intros H; zbool; [by apply safe_error_ret|].
  destruct (aget_is_Some (spos (strings h)) i) as [p Hp]; [lia|].
  eapply safe_bind_; [by apply (safe_lift _ _ _ _ (fun x => x = p) any p Hp)|].
  intros q ->. apply safe_ret; [|done]. intros x [= <-]. eauto.
Qed.

Lemma safe_get_ustring i : 0 <= i -> (i < nstrings h \/ i = 0) -> safe (hl_get_ustring h i) name_ok name_ok.
Proof.
  intros Hi0 Hi r Hr. unfold hl_get_ustring, mbind, rd_bind, get_ustrings. unfold lift at 1.
  pose proof Hr as (Hp & Hlen & Hb & Hus & Hnames & names & Hcache).
  destruct (aget (r_ustrings r) i) as [u|] eqn:Eu; [|done].
  pose proof (aget_Some_range _ _ _ Eu).
  destruct u as [u|].
  { simpl. assert (name_ok u).
    { rewrite aget_lookup in Eu by done. rewrite Forall_lookup in Hnames. by eapply Hnames. }
    split; [done|]. split; [reflexivity|]. auto. }
  destruct (aget_is_Some (spos (strings h)) i) as [p ->]; [lia|]. cbn -[hl_malloc hl_from_utf8 block_write].
  unfold lift at 1. destruct (hl_utf8_length _ 0) as [size|] eqn:El; [|done]. apply utf8_length_ge in El.
  unfold hl_malloc. case_decide; [|done]. cbn -[hl_from_utf8 block_write].
  unfold lift at 1. destruct (hl_from_utf8 size _) as [[out k]|] eqn:Eo; [|done].
  apply from_utf8_bound in Eo as (Ho & Hu & out' & ->); [|lia].
  unfold block_write, acopy. pose proof (alen_nonneg (out' ++ [0])).
  rewrite decide_True by (rewrite alen_replicate; lia). cbn -[take drop].
  unfold lift at 1. rewrite aset_Some by done. unfold set_ustrings. simpl.
  change (Z.to_nat 0) with 0%nat. rewrite ?take_0, ?drop_0, take_ge by (unfold alen; lia). simpl.
  assert (name_ok ((out' ++ [0]) ++ drop (Z.to_nat (alen (out' ++ [0]))) (replicate (Z.to_nat (size + 1)) (junk h)))) as Hok
    by by apply name_ok_intro.
  split; [|split; [|auto]].
  - split; [done|]. split; [done|]. split; [done|]. simpl. split; [by rewrite alen_insert|].
    split; [|by exists names]. apply Forall_insert; [done|]. by intros x [= <-].
  - split; [done|]. split; [simpl; lia|done].
Qed.

Lemma safe_read_ustring : safe (hl_read_ustring h) name_ok name_ok.
Proof.
  unfold hl_read_ustring. eapply safe_bind_; [apply safe_read_index|]. intros i Hi.
  eapply (safe_bind_ _ _ _ _ (fun j => 0 <= j /\ (j < nstrings h \/ j = 0)) any).
  - apply safe_if; intros H; zbool; [apply safe_error_ret; lia|apply safe_ret; [lia|done]].
  - intros j [Hj1 Hj2]. by apply safe_get_ustring.
Qed.

Lemma safe_hash_name u : name_ok u -> safe (hash_name h u) any any.
Proof.
  intros (s & Hs & Hu) r Hr. unfold hash_name, mbind, rd_bind, get_cache. case_if_bool; [done|].
  pose proof Hr as (Hp & Hlen & Hb & Hus & Hnames & names & Hcache).
  destruct (hash_gen_spec (junk h) (junkl h) (r_cache r) names u s Hcache) as
    (x & c & names' & Hg & Hc & _); [lia|done|done|].
  unfold lift. rewrite Hg. simpl. split; [|split; [|done]].
  - split; [done|]. split; [done|]. split; [done|]. split; [done|]. split; [done|]. by exists names'.
  - split; [done|]. split; [simpl; lia|done].
Qed.

(** *** Types *)
Definition field_ok (f : hl_obj_field) : Prop := name_ok (f_name f).
Definition field_good (f : hl_obj_field) : Prop := type_idx (f_t f).
Definition proto_ok (p : hl_obj_proto) : Prop := name_ok (p_name p) /\ 0 <= p_findex p.
Definition binding_ok (b : Z * Z) : Prop := 0 <= b.1 /\ 0 <= b.2.
Definition construct_ok (c : hl_enum_construct) : Prop :=
  name_ok (c_name c) /\ alen (c_params c) = c_nparams c.
Definition construct_good (c : hl_enum_construct) : Prop := Forall type_idx (c_params c).
Definition type_ok (t : hl_type) : Prop :=
  match tdata t with
  | TFun f => alen (fun_args f) = fun_nargs f
  | TObj o => name_ok (o_name o) /\ alen (o_fields o) = o_nfields o /\ alen (o_proto o) = o_nproto o /\
      alen (o_bindings o) = o_nbindings o /\ Forall field_ok (o_fields o) /\ Forall proto_ok (o_proto o) /\
      Forall binding_ok (o_bindings o) /\ 0 <= o_global_value o
  | TVirt fs => Forall field_ok fs
  | TAbs u => name_ok u
  | TEnum e => name_ok (e_name e) /\ alen (e_constructs e) = e_nconstructs e /\ Forall construct_ok (e_constructs e)
  | TParam _ | TNone => True
  end.
(** The member of the union that a kind uses. *)
Definition kind_data (k : Z) (d : type_data) : bool :=
  match d with
  | TFun _ => (k =? HFUN) || (k =? HMETHOD)
  | TObj _ => (k =? HOBJ) || (k =? HSTRUCT)
  | TVirt _ => k =? HVIRTUAL
  | TAbs _ => k =? HABSTRACT
  | TEnum _ => k =? HENUM
  | TParam _ => (k =? HREF) || (k =? HNULL) || (k =? HPACKED)
  | TNone => negb (((k =? HFUN) || (k =? HMETHOD)) || ((k =? HOBJ) || (k =? HSTRUCT)) || (k =? HVIRTUAL) ||
                   (k =? HABSTRACT) || (k =? HENUM) || ((k =? HREF) || (k =? HNULL) || (k =? HPACKED)))
  end.
Definition type_good (t : hl_type) : Prop :=
  0 <= kind t < HLAST /\ kind_data (kind t) (tdata t) = true /\
  match tdata t with
  | TFun f => Forall type_idx (fun_args f) /\ type_idx (fun_ret f)
  | TObj o => Forall field_good (o_fields o)
  | TVirt fs => Forall field_good fs
  | TEnum e => Forall construct_good (e_constructs e)
  | TParam t => type_idx t
  | TAbs _ | TNone => True
  end.

Ltac read1 H := eapply safe_bind; [H|]; intros ? ?.
Ltac reads H := eapply safe_bind_; [H|]; intros ? ?.

Lemma safe_field j : safe (read_field h j) field_ok field_good.
Proof.
  unfold read_field. reads ltac:(apply safe_read_ustring). reads ltac:(by apply safe_hash_name).
  read1 ltac:(apply safe_get_type). by apply safe_ret.
Qed.
Lemma safe_proto j : safe (read_proto h j) proto_ok any.
Proof.
  unfold read_proto. reads ltac:(apply safe_read_ustring). reads ltac:(by apply safe_hash_name).
  reads ltac:(apply safe_read_uindex). reads ltac:(apply safe_read_index). apply safe_ret; [|done].
  unfold uidx_range in *. split; [done|simpl; lia].
Qed.
Lemma safe_binding j : safe (read_binding j) binding_ok any.
Proof.
  unfold read_binding. reads ltac:(apply safe_read_uindex). reads ltac:(apply safe_read_uindex).
  unfold uidx_range in *. apply safe_ret; [split; simpl; lia|done].
Qed.
Lemma safe_malloc_any count size : safe (hl_malloc count size) any any.
Proof. by apply safe_malloc. Qed.
Lemma safe_types k : 0 <= k ->
  safe (rd_array (fun _ => hl_get_type h) k) (fun l => alen l = k) (Forall type_idx).
Proof. intros Hk. eapply safe_weaken; [by apply safe_array; [|intros; apply safe_get_type]|by intros l [? _]|done]. Qed.
Lemma safe_construct j : safe (read_construct h j) construct_ok construct_good.
Proof.
  unfold read_construct. reads ltac:(apply safe_read_ustring). reads ltac:(apply safe_read_uindex).
  unfold uidx_range in *. do 2 reads ltac:(apply safe_malloc_any).
  read1 ltac:(apply safe_types; lia). apply safe_ret; done.
Qed.

Lemma safe_read_type : safe (hl_read_type h) type_ok type_good.
Proof.
  unfold hl_read_type. reads ltac:(apply safe_read_b). rename a into k. unfold byte in *.
  eapply (safe_bind B _ _ _ (fun d => type_ok (Type_ k d)) (fun d => type_good (Type_ k d)));
    [|intros; by apply safe_ret].
  unfold type_ok, type_good, uidx_range in *; simpl.
  assert (forall x, (k =? x) = true -> 0 <= x < HLAST -> 0 <= k < HLAST) as Hk by (intros; zbool; lia).
  apply safe_if; intros E.
  { reads ltac:(apply safe_read_b). unfold byte in *. read1 ltac:(apply safe_types; lia).
    read1 ltac:(apply safe_get_type). apply safe_ret; [done|]. intros.
    split; [|done]. apply orb_true_iff in E as [E|E]; apply (Hk _ E); done. }
  apply safe_if; intros E1.
  { reads ltac:(apply safe_read_ustring). reads ltac:(apply safe_read_index).
    do 4 reads ltac:(apply safe_read_uindex). unfold uidx_range in *.
    do 3 reads ltac:(apply safe_malloc_any).
    read1 ltac:(apply (safe_array _ _ _ field_ok field_good); [lia|apply safe_field]).
    read1 ltac:(apply (safe_array _ _ _ proto_ok any); [lia|apply safe_proto]).
    read1 ltac:(apply (safe_array _ _ _ binding_ok any); [lia|apply safe_binding]).
    apply safe_ret; simpl; [naive_solver lia|]. intros _ _ ?.
    split; [|done]. apply orb_true_iff in E1 as [E1|E1]; apply (Hk _ E1); done. }
  apply safe_if; intros E2.
  { reads ltac:(apply safe_read_uindex). unfold uidx_range in *. reads ltac:(apply safe_malloc_any).
    read1 ltac:(apply (safe_array _ _ _ field_ok field_good); [lia|apply safe_field]).
    apply safe_ret; [naive_solver|]. intros. split; [apply (Hk _ E2); done|done]. }
  apply safe_if; intros E3.
  { reads ltac:(apply safe_read_ustring). apply safe_ret; [done|]. split; [apply (Hk _ E3); done|done]. }
  apply safe_if; intros E4.
  { reads ltac:(apply safe_read_ustring). do 2 reads ltac:(apply safe_read_uindex). unfold uidx_range in *.
    reads ltac:(apply safe_malloc_any).
    read1 ltac:(apply (safe_array _ _ _ construct_ok construct_good); [lia|apply safe_construct]).
    apply safe_ret; [naive_solver|]. intros. split; [apply (Hk _ E4); done|done]. }
  apply safe_if; intros E5.
  { read1 ltac:(apply safe_get_type). apply safe_ret; [done|]. intros. split; [|done].
    apply orb_true_iff in E5 as [[E5|E5]%orb_true_iff|E5]; apply (Hk _ E5); done. }
  apply safe_if; intros E6; [by apply safe_error_ret|]. apply safe_ret; [done|]. split; [zbool; lia|].
  split; [|done]. unfold kind_data. by rewrite E, E1, E2, E3, E4, E5.
Qed.

(** *** Opcodes and functions *)
(** The operands the arity of the opcode promises are all there. *)
Definition operands_ok (o : hl_op) (x : hl_opcode) : Prop :=
  match hl_op_nargs o with
  | 0 => True
  | 1 => is_Some (p1 x)
  | 2 => is_Some (p1 x) /\ is_Some (p2 x)
  | 3 => is_Some (p1 x) /\ is_Some (p2 x) /\ is_Some (p3 x)
  | 4 => is_Some (p1 x) /\ is_Some (p2 x) /\ is_Some (p3 x) /\ exists e, extra x = ExtraInt e
  | -1 => is_Some (p1 x) /\ is_Some (p2 x) /\ is_Some (p3 x) /\
      exists l, extra x = ExtraArr l /\ match o with OSwitch => p2 x = Some (alen l) | _ => p3 x = Some (alen l) end
  | n => is_Some (p1 x) /\ is_Some (p2 x) /\ is_Some (p3 x) /\ exists l, extra x = ExtraArr l /\ alen l = n - 3
  end.
Definition op_ok (x : hl_opcode) : Prop := forall o, op_of_Z (op x) = Some o -> operands_ok o x.
Definition op_good (x : hl_opcode) : Prop := is_Some (op_of_Z (op x)).

Lemma safe_extra k (idx : rd Z) : 0 <= k -> safe idx any any ->
  safe (read_extra k idx) (fun e => exists l, e = ExtraArr l /\ alen l = k) any.
Proof.
  intros Hk Hi. unfold read_extra. reads ltac:(apply safe_malloc_any).
  reads ltac:(apply (safe_array _ _ _ any any); [done|by intros]). apply safe_ret; [|done]. naive_solver.
Qed.
Lemma safe_any_index : safe hl_read_index any any.
Proof. eapply safe_weaken; [apply safe_read_index|done|done]. Qed.
Lemma safe_any_uindex : safe hl_read_uindex any any.
Proof. eapply safe_weaken; [apply safe_read_uindex|done|done]. Qed.
Hint Resolve safe_any_index safe_any_uindex : core.

(** One reading lemma per operand layout. *)
Lemma safe_operands (c : Z) (ok : hl_opcode -> Prop) (m : rd hl_opcode) :
  is_Some (op_of_Z c) ->
  safe m (fun x => op x = c /\ ok x) any -> (forall o x, op_of_Z c = Some o -> ok x -> operands_ok o x) ->
  safe m op_ok op_good.
Proof.
  intros Hc Hm Hok. eapply safe_weaken; [exact Hm|..].
  - intros x [<- Hx] o Ho. by apply (Hok o).
  - intros x [<- _] _. done.
Qed.

Lemma safe_read_opcode : safe hl_read_opcode op_ok op_good.
Proof.
  unfold hl_read_opcode. reads ltac:(apply safe_read_b). rename a into c.
  destruct (op_of_Z c) as [o|] eqn:Ho.
  2: { apply safe_error_ret. intros o' Ho'. simpl in Ho'. congruence. }
  eapply (safe_operands c (operands_ok o)); [by rewrite Ho| |intros o' x Ho' ?; by simplify_eq].
  assert (forall k idx, 0 <= k -> safe idx any any ->
    safe (read_extra k idx) (fun e => exists l, e = ExtraArr l /\ alen l = k) any) as Hex by exact safe_extra.
  unfold byte in *. clear Ho Hh Balloc Bover Bcache Bstr.
  destruct o; unfold operands_ok;
    (match goal with |- context [hl_op_nargs ?x] =>
      let v := eval vm_compute in (hl_op_nargs x) in change (hl_op_nargs x) with v end); cbv iota;
    repeat first
      [ apply safe_ret; [simpl; subst; eauto 10|done]
      | eapply safe_bind_; [apply safe_any_index|]; intros ? ?
      | eapply safe_bind_; [apply safe_read_uindex|]; intros ? ?; unfold uidx_range in *
      | eapply safe_bind_; [apply safe_read_b|]; intros ? ?; unfold byte in *
      | eapply safe_bind_; [apply Hex; [lia|auto]|]; intros ? (? & ? & ?)
      ].
Qed.

Definition function_ok (f : hl_function) : Prop :=
  0 <= findex f < 536870912 /\ 0 <= nregs f /\ 0 <= nops f /\ alen (regs f) = nregs f /\ Forall op_ok (ops f).
Definition function_good (f : hl_function) : Prop :=
  type_idx (ftype f) /\ Forall type_idx (regs f) /\ alen (ops f) = nops f /\ Forall op_good (ops f).

Lemma safe_read_function : safe (hl_read_function h) function_ok function_good.
Proof.
  unfold hl_read_function. read1 ltac:(apply safe_get_type). do 3 reads ltac:(apply safe_read_uindex).
  unfold uidx_range in *. reads ltac:(apply safe_malloc_any). read1 ltac:(apply safe_types; lia).
  apply safe_get_error. intros [e|].
  - apply safe_ret; [|done]. unfold function_ok; simpl in *. repeat split; try lia; try done; constructor.
  - reads ltac:(apply safe_malloc_any). 
    read1 ltac:(apply (safe_array _ _ _ op_ok op_good); [lia|intros; apply safe_read_opcode]).
    apply safe_ret; unfold function_ok, function_good; simpl in *; naive_solver lia.
Qed.

(** *** Control flow *)
(** What an opcode can jump to, by the table of [opcodes.h] and not by the cases of the
    check: the operands whose column is of kind [J], and the [extra] array of [OSwitch]
    ([jit_emit.c] line 2544, [jit_arm64.c] line 1670).  The third column of a row whose
    second is [AR] is an argument count (the 6 of [OCall4] is not a [J]), and the [J] of
    [OCatch] is the index of a global ([jit_emit.c] line 2480), never a branch. *)
Definition row_offsets (row : Z * Z * Z) (x : hl_opcode) : list Z :=
  let '(a, b, c) := row in
  omap id [if a =? OpKinds.J then p1 x else None; if b =? OpKinds.J then p2 x else None;
           if negb (b =? OpKinds.AR) && (c =? OpKinds.J) then p3 x else None].
Definition jump_offsets (x : hl_opcode) : list Z :=
  match op_of_Z (op x) with
  | None | Some OCatch => []
  | Some OSwitch => match extra x with ExtraArr l => l | _ => [] end
  | Some o => row_offsets (OpKinds.hl_op_args o) x
  end.
(** Offsets are relative to the next opcode. *)
Definition lands_inside (nops i : Z) (x : hl_opcode) : Prop :=
  Forall (fun d => 0 <= i + 1 + d < nops) (jump_offsets x).
Definition is_trap_op (x : hl_opcode) : Prop :=
  match op_of_Z (op x) with Some (OTrap | OCleanupTrap) => True | _ => False end.
Definition traps_forward (x : hl_opcode) : Prop := is_trap_op x -> Forall (fun d => 0 <= d) (jump_offsets x).
Definition is_switch (x : hl_opcode) : Prop := op_of_Z (op x) = Some OSwitch.

(** Every jump of the function but those of its switches lands on one of its opcodes,
    exception handlers after their trap. *)
Definition control_flow_ok (f : hl_function) : Prop :=
  forall i x, aget (ops f) i = Some x -> ~ is_switch x -> lands_inside (nops f) i x /\ traps_forward x.

Lemma check_target_spec o ok msg (good : Z -> Prop) : is_Some o -> (forall d, ok d = true <-> good d) ->
  exists r, check_target o ok msg = inr r /\ (r = None <-> forall d, o = Some d -> good d).
Proof.
  intros [d ->] Hg. unfold check_target, need. eexists. split; [reflexivity|]. destruct (ok d) eqn:E.
  - split; [|done]. intros _ d' [= <-]. by apply Hg.
  - split; [done|]. intros H. specialize (H d eq_refl). apply Hg in H. congruence.
Qed.

Lemma validate_op_spec nops i x : op_ok x ->
  exists r, validate_op nops i x = inr r /\
    (r = None <-> (~ is_switch x -> lands_inside nops i x /\ traps_forward x)).
Proof.
  intros Hx. unfold validate_op, lands_inside, traps_forward, jump_offsets, is_trap_op, is_switch.
  destruct (op_of_Z (op x)) as [o|] eqn:Eo.
  2: { exists None. split; [done|]. split; [|done]. intros _ _. split; [constructor|by intros []]. }
  specialize (Hx o Eo). unfold operands_ok in Hx.
  assert (forall d, VALID_TARGET nops i d = true <-> 0 <= i + 1 + d < nops) as Hv.
  { intros d. unfold VALID_TARGET. rewrite andb_true_iff, Z.geb_leb, Z.leb_le, Z.ltb_lt. done. }
  assert (forall d, negb (d <? 0) && VALID_TARGET nops i d = true <-> 0 <= i + 1 + d < nops /\ 0 <= d) as Hv2.
  { intros d. rewrite andb_true_iff, Hv, negb_true_iff, Z.ltb_ge. tauto. }
  clear Eo Hh Balloc Bover Bcache Bstr.
  destruct o; try (exists None; split; [reflexivity|]; split; [|done]; intros _ Hns;
                   first [split; [constructor|by intros []] | by destruct Hns]);
    (match type of Hx with context [hl_op_nargs ?x] =>
      let v := eval vm_compute in (hl_op_nargs x) in change (hl_op_nargs x) with v in Hx end); cbv iota in Hx.
  all: lazymatch goal with
    | |- context [check_target ?o (VALID_TARGET _ _) ?msg] =>
        destruct (check_target_spec o _ msg _ ltac:(tauto) Hv) as (r & -> & Hr)
    | |- context [check_target ?o _ ?msg] => destruct (check_target_spec o _ msg _ ltac:(tauto) Hv2) as (r & -> & Hr)
    end.
  all: exists r; split; [reflexivity|]; rewrite Hr; clear - Hx.
  all: cbv [row_offsets OpKinds.hl_op_args OpKinds.J OpKinds.AR OpKinds.X OpKinds.R OpKinds.R_NW Z.eqb Pos.eqb negb andb].
  all: cbn [omap list_omap id]; intuition; repeat match goal with H : is_Some _ |- _ => destruct H as [? H]; rewrite H in * end.
  all: rewrite ?Forall_singleton in *; naive_solver.
Qed.

Lemma validate_spec f : function_ok f ->
  exists r, hl_validate_function_control_flow f = inr r /\ (r = None <-> control_flow_ok f).
Proof.
  intros (_ & _ & _ & _ & Hops). unfold hl_validate_function_control_flow, control_flow_ok.
  assert (forall l i, Forall op_ok l -> exists r, validate_ops (nops f) i l = inr r /\
    (r = None <-> forall j x, aget l j = Some x -> ~ is_switch x -> lands_inside (nops f) (i + j) x /\ traps_forward x)) as H.
  { clear. induction l as [|x l IH]; intros i Hl; simpl.
    - exists None. split; [done|]. split; [|done]. intros _ j x Hj. unfold aget in Hj. by case_decide.
    - inversion Hl as [|? ? Hx Hl']; subst. destruct (validate_op_spec (nops f) i x Hx) as (r & -> & Hr).
      destruct (IH (i + 1) Hl') as (r' & Hr'eq & Hr').
      assert (aget (x :: l) 0 = Some x) as H0 by done.
      assert (forall j, 0 <= j -> aget (x :: l) (j + 1) = aget l j) as HS.
      { intros j Hj. rewrite !aget_lookup by lia. replace (Z.to_nat (j + 1)) with (S (Z.to_nat j)) by lia. done. }
      destruct r as [msg|]; [exists (Some msg)|exists r'].
      + split; [done|]. split; [done|]. intros Hall. apply Hr. specialize (Hall 0 x H0). by rewrite Z.add_0_r in Hall.
      + split; [done|]. rewrite Hr'. split.
        * intros Hall j y Hj. pose proof (aget_Some_range _ _ _ Hj). destruct (decide (j = 0)) as [->|].
          { rewrite H0 in Hj. simplify_eq. rewrite Z.add_0_r. by apply Hr. }
          replace j with ((j - 1) + 1) in Hj |- * by lia. rewrite HS in Hj by lia.
          replace (i + (j - 1 + 1)) with (i + 1 + (j - 1)) by lia. by apply Hall.
        * intros Hall j y Hj. pose proof (aget_Some_range _ _ _ Hj).
          replace (i + 1 + j) with (i + (j + 1)) by lia. apply Hall. by rewrite HS by lia. }
  destruct (H (ops f) 0 Hops) as (r & -> & Hr). exists r. split; [done|]. rewrite Hr.
  by setoid_rewrite Z.add_0_l.
Qed.
End reads.

(** ** String tables and debug information *)
Section tables.
Context (B : trap -> Prop) (n : Z).
Context (Balloc : B BadAlloc) (Bover : B IntOverflow).
Abbreviation safe := (safe B n).
Abbreviation any := (fun _ => True).
Ltac read1 H := eapply safe_bind; [H|]; intros ? ?.
Ltac reads H := eapply safe_bind_; [H|]; intros ? ?.

(** A string lies inside the block and is followed by a zero there. *)
Definition entry_ok (block : list Z) (e : Z * Z) : Prop :=
  0 <= e.1 /\ 0 <= e.2 /\ aget block (e.1 + e.2) = Some 0.

Lemma safe_string_entries size block k sdata : B UninitString -> (forall l, block = Some l -> alen l = size) ->
  0 <= sdata ->
  safe (read_string_entries size block k sdata)
    (fun r => forall l, r = Some l -> length l = k /\ Forall (entry_ok (default [] block)) l) is_Some.
Proof.
  intros Bun Hsize. revert sdata. induction k as [|k IH]; intros sdata Hs; simpl.
  { apply safe_ret; [|done]. intros l [= <-]. done. }
  reads ltac:(apply safe_read_uindex). rename a into sz. unfold uidx_range in *.
  eapply (safe_bind _ _ _ _ (fun b => b = false -> aget (default [] block) (sdata + sz) = Some 0) any).
  - apply safe_if; intros Hb; zbool; [by apply safe_ret|].
    destruct block as [block|]; [|by apply safe_trap]. specialize (Hsize block eq_refl).
    destruct (aget_is_Some block (sdata + sz)) as [c Hc]; [lia|].
    eapply safe_bind_; [by apply (safe_lift _ _ _ _ (fun x => x = c) any c Hc)|]. intros c' ->.
    apply safe_ret; [|done]. intros Hz. zbool. by subst c.
  - intros b Hb. apply safe_if; intros Hbb.
    { eapply safe_weaken; [by apply (safe_error_ret _ _ _ None (fun r => r = None) is_Some)|by intros ? -> ?|done]. }
    read1 ltac:(apply (IH (sdata + sz + 1)); lia). apply safe_ret.
    + intros l. destruct a as [l'|]; [|done]. intros [= <-]. destruct (H0 l' eq_refl) as [Hl Hf].
      split; [simpl; lia|]. constructor; [|done]. split; [simpl; lia|]. split; [simpl; lia|]. simpl. by apply Hb.
    + intros [l' ->] _. eauto.
Qed.

Definition string_table_ok (nstrings : Z) (st : string_table) : Prop :=
  alen (spos st) = nstrings /\ alen (slens st) = nstrings /\
  forall i p l, aget (spos st) i = Some p -> aget (slens st) i = Some l -> entry_ok (sbase st) (p, l).

Lemma safe_read_strings nstrings : B UninitString -> 0 <= nstrings ->
  safe (hl_read_strings nstrings)
    (fun r => forall st, r = Some st -> string_table_ok nstrings st) is_Some.
Proof.
  intros Bun Hn. unfold hl_read_strings. reads ltac:(apply safe_read_i32). rename a into size.
  eapply (safe_bind_ _ _ _ _ (fun _ => 0 <= size) any).
  { intros r Hr. unfold hl_malloc. case_decide; [|done]. simpl. split; [done|]. split; [reflexivity|]. split; [lia|done]. }
  intros _ Hsz. reads ltac:(by apply safe_read_bytes). rename a into block.
  assert (forall l, block = Some l -> alen l = size) as Hsize by naive_solver.
  do 2 reads ltac:(by apply (safe_malloc _ _ _ _ any any)).
  read1 ltac:(by apply (safe_string_entries size)). apply safe_ret.
  - intros st Hst. destruct a1 as [l|]; [|done]. simplify_eq. destruct (H3 l eq_refl) as [Hl Hf].
    unfold string_table_ok; simpl. unfold alen. rewrite !length_fmap. split; [lia|]. split; [lia|].
    intros i p q Hp Hq. unfold aget in *. case_decide; [|done]. rewrite list_lookup_fmap in Hp, Hq.
    destruct (l !! Z.to_nat i) as [[p' q']|] eqn:E; [|done]. simpl in *. simplify_eq.
    eapply Forall_lookup_1 in E; [|done]. done.
  - intros [l ->]. eauto.
Qed.

(** Reading a byte consumes it, or yields zero at the end of the data. *)
Lemma read_b_progress r : rok n r ->
  exists b r', hl_read_b r = Ok b r' /\ rok n r' /\ sticky r r' /\ byte b /\ (r_pos r < r_pos r' \/ b = 0).
Proof.
  intros Hr. unfold hl_read_b, mbind, rd_bind, get_pos, r_size. case_if_bool.
  - destruct (safe_ERROR B n "No more data" any any) with (r := r) as (H1 & H2 & _); [done..|].
    eexists _, _. split; [reflexivity|]. split; [done|]. split; [done|]. split; [unfold byte; lia|by right].
  - pose proof Hr as (Hp & _). destruct (aget_is_Some (r_b r) (r_pos r)) as [b Hb]; [lia|].
    unfold r_byte, lift, set_pos. rewrite Hb. eexists _, _. split; [reflexivity|].
    split; [apply rok_pos; [done|lia]|]. split; [apply sticky_pos; lia|].
    split; [by eapply rok_aget|]. left; simpl; lia.
Qed.

Definition debug_ok (nops : Z) (s : debug_state) : Prop :=
  0 <= d_i s <= nops /\ alen (d_out s) = nops.

Lemma debug_fill_ok nops count s s' : debug_ok nops s -> debug_fill count s = Some s' ->
  debug_ok nops s' /\ d_i s' = d_i s + Z.of_nat count.
Proof.
  revert s. induction count as [|count IH]; intros s Hs; simpl.
  - intros [= <-]. split; [done|lia].
  - destruct (aset (d_out s) (d_i s) _) as [out|] eqn:E; [|done]. simpl. intros H.
    pose proof (aset_len _ _ _ _ E) as Hl. apply aset_inv in E as [Hr _]. destruct Hs as [H1 H2].
    destruct (IH (DebugState (d_i s + 1) (d_file s) (d_line s) out)) as [Hok Hi];
      [split; simpl; lia|done|]. split; [done|]. simpl in Hi. lia.
Qed.

Lemma safe_debug_body ndebugfiles nops s c : B DebugOverrun ->
  debug_ok nops s -> d_i s < nops -> byte c ->
  safe (debug_body ndebugfiles nops s c)
    (fun s' => debug_ok nops s' /\ d_i s <= d_i s' /\ (c = 0 -> d_i s' = d_i s + 1)) any.
Proof.
  intros Bdbg Hs Hlt Hc. unfold debug_body.
  assert (forall x, d_i x = d_i s -> d_out x = d_out s ->
    safe (lift OutOfBounds (debug_fill 1 x)) (fun s' => debug_ok nops s' /\ d_i s' = d_i s + 1) any) as Hfill1.
  { intros x Hx1 Hx2. destruct Hs as [H1 H2]. eapply safe_lift; [|split|done].
    - simpl. rewrite Hx1, Hx2, aset_Some by lia. reflexivity.
    - split; simpl; [lia|]. by rewrite alen_insert.
    - simpl. lia. }
  assert (forall k x, 0 <= k -> d_i x = d_i s -> d_out x = d_out s ->
    safe (lift DebugOverrun (debug_fill (Z.to_nat k) x)) (fun s' => debug_ok nops s' /\ d_i s' = d_i s + k) any) as Hfill.
  { intros k x Hk Hx1 Hx2. apply safe_lift_trap; [done|]. intros s' Hf. split; [|done].
    destruct (debug_fill_ok nops (Z.to_nat k) x s') as [Hok Hi]; [by split; rewrite ?Hx1, ?Hx2; apply Hs|done|].
    split; [done|]. lia. }
  assert (forall t v, B t -> safe (lift t (int_of v)) any any) as Hint by (intros; by apply safe_lift_trap).
  apply safe_if; intros E1.
  { reads ltac:(apply safe_read_b). cbv zeta.
    eapply (safe_bind_ _ _ _ _ any any).
    - apply safe_if; intros; [by apply safe_ERROR|by apply safe_ret].
    - intros _ _. apply safe_ret; [|done]. split; [done|]. split; [simpl; lia|]. intros ->. done. }
  apply safe_if; intros E2.
  { eapply (safe_bind_ _ _ _ _ any any).
    { apply safe_if; intros; [by apply safe_ERROR|by apply safe_ret]. }
    intros _ _. assert (0 <= Z.land (Z.shiftr c 2) 15) by (z_masks; z_div).
    reads ltac:(by apply Hfill). destruct H0 as [Hok Hi].
    reads ltac:(by apply Hint). apply safe_ret; [|done]. split; [exact Hok|]. split; [simpl; lia|]. by intros ->. }
  apply safe_if; intros E3.
  { reads ltac:(by apply Hint). eapply safe_weaken; [by apply Hfill1| |done].
    intros s' [Hok Hi]. split; [done|]. split; [lia|]. by intros ->. }
  do 2 reads ltac:(apply safe_read_b). eapply safe_weaken; [by apply Hfill1| |done].
  intros s' [Hok Hi]. split; [done|]. split; [lia|done].
Qed.

Lemma debug_loop_safe ndebugfiles nops fuel s r : B DebugOverrun -> rok n r -> debug_ok nops s ->
  (Z.to_nat (alen (r_b r) - r_pos r) + Z.to_nat (nops - d_i s) < fuel)%nat ->
  match debug_loop ndebugfiles nops fuel s r with
  | Ok s' r' => rok n r' /\ sticky r r' /\ debug_ok nops s'
  | Trap t => B t
  end.
Proof.
  intros Bdbg. revert s r. induction fuel as [|fuel IH]; intros s r Hr Hs Hf; [lia|].
  cbn [debug_loop]. case_if_bool; [|simpl; split; [done|split; [reflexivity|done]]].
  unfold debug_step, mbind, rd_bind.
  destruct (read_b_progress r Hr) as (c & r1 & -> & Hr1 & Hs1 & Hc & Hprog).
  pose proof (safe_debug_body ndebugfiles nops s c Bdbg Hs E Hc r1 Hr1) as Hbody.
  destruct (debug_body ndebugfiles nops s c r1) as [s' r2|t]; [|done].
  destruct Hbody as (Hr2 & Hs2 & (Hok & Hi & Hz) & _).
  pose proof Hr as (Hp & _). destruct Hs1 as (Hb1 & Hp1 & He1). destruct Hs2 as (Hb2 & Hp2 & He2).
  pose proof Hr2 as (Hpr2 & _). rewrite Hb2, Hb1 in Hpr2. pose proof Hs as [? _]. pose proof Hok as [? _].
  specialize (IH s' r2 Hr2 Hok). rewrite Hb2, Hb1 in IH.
  destruct (debug_loop ndebugfiles nops fuel s' r2) as [s3 r3|t3].
  - destruct IH as (Hr3 & (Hb3 & Hp3 & He3) & Hok3); [destruct Hprog; [lia|specialize (Hz ltac:(done)); lia]|].
    split; [done|]. split; [|done]. split; [congruence|]. split; [lia|auto].
  - apply IH. destruct Hprog; [lia|specialize (Hz ltac:(done)); lia].
Qed.

Lemma safe_read_debug_infos junk ndebugfiles nops : B DebugOverrun -> 0 <= nops ->
  safe (hl_read_debug_infos junk ndebugfiles nops) (fun l => alen l = nops) any.
Proof.
  intros Bdbg Hn. unfold hl_read_debug_infos. reads ltac:(by apply (safe_malloc _ _ _ _ any any)).
  intros r Hr. unfold mbind, rd_bind, get_pos, r_size.
  pose proof (debug_loop_safe ndebugfiles nops (Z.to_nat (alen (r_b r) - r_pos r) + Z.to_nat nops + 1)
    (DebugState 0 (-1) 0 (replicate (Z.to_nat nops) (junk, junk))) r Bdbg Hr) as H1.
  destruct (debug_loop _ _ _ _ r) as [s' r'|t].
  - destruct H1 as (? & ? & [_ Hl]); [split; simpl; [lia|rewrite alen_replicate; lia]|simpl; lia|].
    simpl. split; [done|]. split; [done|]. auto.
  - apply H1; [split; simpl; [lia|rewrite alen_replicate; lia]|simpl; lia].
Qed.
End tables.

(** ** Stable identities *)
(** *** The probe finds the ID or a free slot, in time *)
Section probing.
Context (set_size : Z) (Hpow : exists e, 0 <= e <= 31 /\ set_size = 2 ^ e).

Lemma mask_mod x : Z.land (u32 x) (u32 (set_size - 1)) = x mod set_size.
Proof.
  destruct Hpow as (e & He & ->). assert (0 < 2 ^ e) by (apply Z.pow_pos_nonneg; lia).
  assert (2 ^ e <= 2 ^ 31) by (apply Z.pow_le_mono_r; lia). norm_pow2.
  rewrite (uN_small 32 (2 ^ e - 1)) by (norm_pow2; lia).
  rewrite (land_mask e) by (lia || (rewrite Z.ones_equiv; lia)).
  unfold uN. apply Z.mod_mod_divide. exists (2 ^ (32 - e)). rewrite <- Z.pow_add_r by lia. f_equal. lia.
Qed.

Lemma set_size_pos : 0 < set_size.
Proof. destruct Hpow as (e & He & ->). apply Z.pow_pos_nonneg; lia. Qed.

(** The slots tried before the [d]-th all hold other IDs. *)
Definition passed (seen : list Z) (id slot d : Z) : Prop :=
  forall d', 0 <= d' < d -> exists x, aget seen ((slot + d') mod set_size) = Some x /\ 0 <= x /\ x <> id.

Lemma find_slot_spec seen id slot : alen seen = set_size -> 0 <= slot < set_size ->
  (exists j x, aget seen j = Some x /\ x < 0) ->
  exists d x, 0 <= d /\ find_slot seen set_size id slot = Some ((slot + d) mod set_size) /\
    passed seen id slot d /\ aget seen ((slot + d) mod set_size) = Some x /\ (x < 0 \/ x = id).
Proof.
  intros Hl Hs (j & xj & Hj & Hneg). pose proof set_size_pos as Hpos. pose proof (aget_Some_range _ _ _ Hj) as Hjr.
  unfold find_slot.
  match goal with |- context [loop ?st _ _] =>
    destruct (loop_total st
      (fun s => exists d, 0 <= d <= (j - slot) mod set_size /\ s = (slot + d) mod set_size /\ passed seen id slot d)
      (fun s => exists d x, 0 <= d /\ s = (slot + d) mod set_size /\ passed seen id slot d /\
          aget seen s = Some x /\ (x < 0 \/ x = id))
      (fun s => Z.to_nat ((j - s) mod set_size))) with (fuel := S (length seen)) (s := slot)
      as (r & Hr & d & x & Hd & -> & Hp & Hx & Hc) end.
  - intros s (d & Hd & -> & Hp). set (s := (slot + d) mod set_size).
    assert (0 <= s < set_size) as Hsr by (apply Z.mod_pos_bound; lia).
    destruct (aget_is_Some seen s) as [x Hx]; [lia|]. rewrite Hx. simpl.
    destruct ((x >=? 0) && negb (x =? id)) eqn:E; [left|right].
    + zbool. eexists. split; [reflexivity|]. rewrite mask_mod. unfold s in *.
      pose proof (Z.mod_pos_bound (j - slot) set_size Hpos).
      assert (d <> (j - slot) mod set_size) as Hne.
      { intros ->. rewrite Zplus_mod_idemp_r in Hx. replace (slot + (j - slot)) with j in Hx by lia.
        rewrite Z.mod_small in Hx by lia. simplify_eq. lia. }
      split.
      * exists (d + 1). split; [lia|]. split; [rewrite Zplus_mod_idemp_l; f_equal; lia|].
        intros d' Hd'. destruct (decide (d' = d)) as [->|]; [eauto|]. apply Hp. lia.
      * assert (forall k, 0 <= k <= (j - slot) mod set_size ->
                  (j - (slot + k) mod set_size) mod set_size = (j - slot) mod set_size - k) as Hdist.
        { intros k Hk. rewrite Zminus_mod_idemp_r. replace (j - (slot + k)) with ((j - slot) - k) by lia.
          rewrite <- Zminus_mod_idemp_l. apply Z.mod_small. lia. }
        rewrite Zplus_mod_idemp_l. replace (slot + d + 1) with (slot + (d + 1)) by lia.
        rewrite !Hdist by lia. lia.
    + eexists. split; [reflexivity|]. exists d, x. split; [lia|]. split; [done|]. split; [done|]. split; [done|].
      apply andb_false_iff in E as [E|E]; zbool; [left; lia|right; done].
  - exists 0. pose proof (Z.mod_pos_bound (j - slot) set_size Hpos). split; [lia|].
    rewrite Z.add_0_r, Z.mod_small by lia. split; [done|]. intros d'. lia.
  - pose proof (Z.mod_pos_bound (j - slot) set_size Hpos). unfold alen in *. lia.
  - exists d, x. auto.
Qed.

(** The table holds exactly [ids], each one reachable from its own hash slot. *)
Definition seen_ok (seen : list Z) (ids : list Z) : Prop :=
  alen seen = set_size /\ NoDup ids /\
  (forall i x, aget seen i = Some x -> 0 <= x -> x ∈ ids) /\
  (forall i j x, aget seen i = Some x -> aget seen j = Some x -> 0 <= x -> i = j) /\
  (forall x, x ∈ ids -> 0 <= x /\ exists d, 0 <= d /\
     aget seen ((hash_slot x set_size + d) mod set_size) = Some x /\
     passed seen x (hash_slot x set_size) d).

Lemma hash_slot_range x : 0 <= hash_slot x set_size < set_size.
Proof. unfold hash_slot. rewrite mask_mod. apply Z.mod_pos_bound, set_size_pos. Qed.

Lemma seen_empty : seen_ok (replicate (Z.to_nat set_size) (-1)) [].
Proof.
  pose proof set_size_pos. split; [rewrite alen_replicate; lia|]. split; [constructor|]. split; [|split].
  - intros i x Hx Hx0. unfold aget in Hx. case_decide; [|done]. apply lookup_replicate in Hx as [-> _]. lia.
  - intros i j x Hx _ Hx0. unfold aget in Hx. case_decide; [|done]. apply lookup_replicate in Hx as [-> _]. lia.
  - intros x Hx. by apply not_elem_of_nil in Hx.
Qed.

(** Fewer IDs than slots leave a free slot. *)
Lemma seen_free seen ids : seen_ok seen ids -> Z.of_nat (length ids) < set_size ->
  exists j x, aget seen j = Some x /\ x < 0.
Proof.
  intros (Hl & Hnd & Hin & Hinj & Hpath) Hlen.
  destruct (decide (Exists (fun x => x < 0) seen)) as [H|H].
  - apply Exists_exists in H as (x & Hx & Hneg). apply list_elem_of_lookup in Hx as [i Hi].
    exists (Z.of_nat i), x. split; [|done]. rewrite aget_lookup by lia. by rewrite Nat2Z.id.
  - exfalso. apply not_Exists_Forall in H; [|apply _]. rewrite Forall_lookup in H.
    assert (forall i x, seen !! i = Some x -> 0 <= x /\ aget seen (Z.of_nat i) = Some x) as Hpos.
    { intros i x Hi. split; [specialize (H i x Hi); simpl in H; lia|]. by rewrite aget_nat. }
    assert (seen ⊆+ ids) as Hsub%submseteq_length.
    { apply NoDup_submseteq.
      - apply NoDup_alt. intros i j x Hi Hj. destruct (Hpos i x Hi), (Hpos j x Hj).
        enough (Z.of_nat i = Z.of_nat j) by lia. by eapply Hinj.
      - intros x Hx. apply list_elem_of_lookup in Hx as [i Hi]. destruct (Hpos i x Hi). by eapply Hin. }
    unfold alen in *. lia.
Qed.

(** A free slot found: the ID was not in the table, and now it is. *)
Lemma seen_insert seen ids id d x seen' : seen_ok seen ids -> 0 <= id -> 0 <= d ->
  passed seen id (hash_slot id set_size) d ->
  aget seen ((hash_slot id set_size + d) mod set_size) = Some x -> x < 0 ->
  aset seen ((hash_slot id set_size + d) mod set_size) id = Some seen' ->
  (id ∉ ids) /\ seen_ok seen' (id :: ids).
Proof.
  intros (Hl & Hnd & Hin & Hinj & Hpath) Hid Hd Hp Hx Hneg Hset.
  set (slot := (hash_slot id set_size + d) mod set_size) in *.
  pose proof (aget_aset_eq _ _ _ _ Hset) as Heq.
  assert (forall i, i <> slot -> aget seen' i = aget seen i) as Hne by (intros; by eapply aget_aset_ne).
  assert (id ∉ ids) as Hnew.
  { intros Hmem. destruct (Hpath id Hmem) as (_ & d1 & Hd1 & Hg1 & Hp1).
    destruct (Z.lt_total d d1) as [Hlt|[<-|Hlt]].
    - destruct (Hp1 d) as (y & Hy & Hy0 & _); [lia|]. unfold slot in Hx. simplify_eq. lia.
    - unfold slot in Hx. simplify_eq. lia.
    - destruct (Hp d1) as (y & Hy & _ & Hyn); [lia|]. by simplify_eq. }
  split; [done|]. split; [by rewrite (aset_len _ _ _ _ Hset)|]. split; [by constructor|].
  assert (forall x0 s0 d0, passed seen x0 s0 d0 -> x0 <> id -> passed seen' x0 s0 d0) as Hpass.
  { intros x0 s0 d0 Hp0 Hne0 d' Hd'. destruct (Hp0 d' Hd') as (y & Hy & Hy0 & Hyn).
    destruct (decide ((s0 + d') mod set_size = slot)) as [He|He].
    - exists id. rewrite He. auto.
    - exists y. rewrite Hne by done. auto. }
  split; [|split].
  - intros i y Hy Hy0. destruct (decide (i = slot)) as [->|He]; [simplify_eq; left|].
    rewrite Hne in Hy by done. right. by eapply Hin.
  - intros i j y Hi Hj Hy0. destruct (decide (i = slot)) as [->|He], (decide (j = slot)) as [->|He2]; try done.
    + rewrite Hne in Hj by done. simplify_eq. exfalso. apply Hnew. by eapply Hin.
    + rewrite Hne in Hi by done. simplify_eq. exfalso. apply Hnew. by eapply Hin.
    + rewrite Hne in Hi, Hj by done. by eapply Hinj.
  - intros y Hy. apply elem_of_cons in Hy as [->|Hy].
    + split; [done|]. exists d. split; [done|]. split; [done|]. intros d' Hd'.
      destruct (Hp d' Hd') as (z & Hz & Hz0 & Hzn).
      destruct (decide ((hash_slot id set_size + d') mod set_size = slot)) as [He|He].
      * rewrite He in Hz. simplify_eq. lia.
      * exists z. rewrite Hne by done. auto.
    + destruct (Hpath y Hy) as (Hy0 & d1 & Hd1 & Hg1 & Hp1). split; [done|]. exists d1. split; [done|].
      assert (y <> id) as Hyi by congruence. split; [|by apply Hpass].
      rewrite Hne; [done|]. intros He. rewrite He in Hg1. simplify_eq. lia.
Qed.
End probing.

Lemma seen_size_spec count : 0 <= count < 536870912 ->
  exists e, seen_size count = Some (2 ^ e) /\ 0 <= e <= 31 /\ 2 * count <= 2 ^ e /\ 2 ^ e <= 2 ^ 30.
Proof.
  intros Hc. unfold seen_size. set (c := if count >? 0 then count else 1).
  assert (1 <= c < 536870912 /\ count <= c) as [Hc1 Hcc] by (unfold c; case_if_bool; lia). clearbody c.
  match goal with |- context [loop ?st _ _] =>
    destruct (loop_total st (fun s => exists e, 4 <= e <= 30 /\ s = 2 ^ e)
      (fun s => exists e, 4 <= e <= 30 /\ s = 2 ^ e /\ 2 * c <= s)
      (fun s => Z.to_nat (30 - Z.log2 s))) with (fuel := 32%nat) (s := 16) as (r & -> & e & He & -> & Hle) end.
  - intros s (e & He & ->). rewrite (int_of_Some (2 * c)) by (unfold in_i32, INT_MIN, INT_MAX; lia). simpl. case_if_bool.
    + left. assert (e < 30) as He30.
      { destruct (decide (e < 30)); [done|]. assert (2 ^ 30 <= 2 ^ e) by (apply Z.pow_le_mono_r; lia). norm_pow2. lia. }
      assert (2 ^ e <= 2 ^ 29) by (apply Z.pow_le_mono_r; lia). assert (0 < 2 ^ e) by (apply Z.pow_pos_nonneg; lia).
      norm_pow2. rewrite int_of_Some by (unfold in_i32, INT_MIN, INT_MAX; lia). simpl.
      replace (2 ^ e * 2) with (2 ^ (e + 1)) by (rewrite Z.pow_add_r by lia; lia).
      eexists. split; [reflexivity|]. split; [exists (e + 1); split; [lia|done]|]. rewrite !Z.log2_pow2 by lia. lia.
    + right. eexists. split; [reflexivity|]. exists e. done.
  - exists 4. done.
  - change (Z.log2 16) with 4. lia.
  - exists e. split; [done|]. split; [lia|]. split; [lia|]. apply Z.pow_le_mono_r; lia.
Qed.

Section identities.
Context (B : trap -> Prop) (n : Z).
Context (Balloc : B BadAlloc) (Bover : B IntOverflow).
Abbreviation safe := (safe B n).
Abbreviation any := (fun _ => True).
Ltac reads H := eapply safe_bind_; [H|]; intros ? ?.

Lemma safe_identity_strings k name :
  safe (identity_strings k name)
    (fun x => match x with inl _ => True | inr y => is_Some name \/ k <> O -> is_Some y end) any.
Proof.
  revert name. induction k as [|k IH]; intros name; cbn [identity_strings].
  { apply safe_ret; [|done]. intros [H|H]; [done|by destruct H]. }
  reads ltac:(apply safe_read_uindex). rename a into len. unfold uidx_range in *.
  intros r Hr. unfold mbind, rd_bind, get_pos, r_size, lift at 1. pose proof Hr as (Hp & Hlen & _). norm_pow2.
  unfold int_add. rewrite int_of_Some by (unfold in_i32, INT_MIN, INT_MAX; lia).
  destruct ((len <? 0) || (r_pos r + len >? alen (r_b r))) eqn:E.
  { simpl. split; [done|]. split; [reflexivity|]. done. }
  zbool. rewrite aslice_Some by lia. cbn [lift set_pos].
  set (bytes := take _ _). set (r1 := Reader _ _ _ _ _).
  assert (rok n r1) as Hr1 by (apply rok_pos; [done|lia]).
  assert (sticky r r1) as Hs1 by (apply sticky_pos; lia).
  specialize (IH (match name with None => Some bytes | s => s end) r1 Hr1).
  destruct (identity_strings k _ r1) as [x r2|]; [|done]. destruct IH as (Hok2 & Hs2 & Ha2 & _).
  split; [done|]. split; [by transitivity r1|]. split; [|done]. destruct x; [done|].
  intros _. apply Ha2. left. destruct name; eauto.
Qed.

Lemma max_findex_spec fs : Forall (fun f => 0 <= findex f < 536870912) fs ->
  -1 <= max_findex fs < 536870912 /\ Forall (fun f => findex f <= max_findex fs) fs.
Proof.
  unfold max_findex. intros Hf.
  assert (forall m, -1 <= m < 536870912 ->
    m <= fold_left (fun m f => if findex f >? m then findex f else m) fs m < 536870912 /\
    Forall (fun f => findex f <= fold_left (fun m f => if findex f >? m then findex f else m) fs m) fs) as H.
  { induction Hf as [|f fs Hx _ IH]; intros m Hm; simpl; [split; [lia|constructor]|].
    destruct (IH (if findex f >? m then findex f else m)) as [H1 H2]; [case_if_bool; lia|].
    split; [case_if_bool; lia|]. constructor; [case_if_bool; lia|done]. }
  apply H. lia.
Qed.

Lemma index_functions_spec fs : forall tbl j nf, Forall (fun f => 0 <= findex f < alen tbl) fs ->
  Forall (fun x => -1 <= x < nf) tbl -> 0 <= j -> j + alen fs <= nf ->
  exists tbl', index_functions tbl j fs = Some tbl' /\ alen tbl' = alen tbl /\ Forall (fun x => -1 <= x < nf) tbl'.
Proof.
  induction fs as [|f fs IH]; intros tbl j nf Hf Ht Hj Hn; simpl.
  - eauto.
  - inversion Hf as [|? ? Hx Hf']; subst. rewrite alen_cons in Hn. pose proof (alen_nonneg fs).
    destruct (aget_is_Some tbl (findex f)) as [old ->]; [lia|]. simpl. case_if_bool.
    + rewrite aset_Some by lia. simpl.
      destruct (IH (<[Z.to_nat (findex f):=j]> tbl) (j + 1) nf) as (t' & -> & Hl & Hok); try lia.
      * rewrite alen_insert. done.
      * apply Forall_insert; [done|lia].
      * exists t'. rewrite alen_insert in Hl. done.
    + simpl. apply IH; [done|done|lia|lia].
Qed.

(** A function that had no ID in [old] has the ID [x] in [new]. *)
Definition given (old new : list Z) (i x : Z) : Prop :=
  aget new i = Some x /\ 0 <= x /\ exists o, aget old i = Some o /\ o < 0.

(** The tables beside [nf] functions, when a section has given the IDs [ids] so far to
    functions that had none in the table [old] before it. *)
Definition idents_ok (old : list Z) (nf : Z) (ids : list Z) (tbl : identities) : Prop :=
  let new := function_stable_ids tbl in
  alen new = nf /\ alen (function_names tbl) = nf /\ alen (function_names_lens tbl) = nf /\
  (forall i, aget new i = aget old i \/ exists x, given old new i x) /\
  (forall x, x ∈ ids <-> exists i, given old new i x) /\
  (forall i j x, given old new i x -> given old new j x -> i = j).

Lemma idents_none nf tbl : alen (function_stable_ids tbl) = nf -> alen (function_names tbl) = nf ->
  alen (function_names_lens tbl) = nf -> idents_ok (function_stable_ids tbl) nf [] tbl.
Proof.
  intros H1 H2 H3. do 3 (split; [done|]).
  assert (forall i x, ~ given (function_stable_ids tbl) (function_stable_ids tbl) i x) as Hno.
  { intros i x (Hx & Hx0 & o & Ho & Hneg). simplify_eq. lia. }
  split; [by left|]. split; [|intros i j x H; by apply Hno in H].
  intros x. split; [intros H; by apply elem_of_nil in H|intros [i H]; by apply Hno in H].
Qed.

Lemma idents_give old nf ids tbl target o id names lens : idents_ok old nf ids tbl -> id ∉ ids -> 0 <= id ->
  aget (function_stable_ids tbl) target = Some o -> o < 0 -> alen names = nf -> alen lens = nf ->
  idents_ok old nf (id :: ids) (Identities (<[Z.to_nat target:=id]> (function_stable_ids tbl)) names lens).
Proof.
  intros (H1 & _ & _ & Hkept & Hids & Hinj) Hnew Hid Ho Hneg Hn Hl. unfold idents_ok; cbn [function_stable_ids function_names function_names_lens].
  pose proof (aget_Some_range _ _ _ Ho) as Hr. set (new := function_stable_ids tbl) in *.
  assert (aget (<[Z.to_nat target:=id]> new) target = Some id) as Heq by (apply aget_insert_eq; lia).
  assert (forall i, i <> target -> aget (<[Z.to_nat target:=id]> new) i = aget new i) as Hne by (intros; apply aget_insert_ne; lia).
  assert (aget old target = Some o) as Hold.
  { destruct (Hkept target) as [<-|(x & Hx & Hx0 & _)]; [done|]. simplify_eq. lia. }
  assert (given old (<[Z.to_nat target:=id]> new) target id) as Hgiven by (split; [done|]; split; [done|]; by exists o).
  assert (forall i x, i <> target -> given old (<[Z.to_nat target:=id]> new) i x <-> given old new i x) as Hsame
    by (intros i x Hi; unfold given; by rewrite Hne).
  assert (forall i x, given old new i x -> i <> target) as Hother by (intros i x (Hx & Hx0 & _) ->; simplify_eq; lia).
  split; [by rewrite alen_insert|]. split; [done|]. split; [done|]. split; [|split].
  - intros i. destruct (decide (i = target)) as [->|Hi]; [right; by exists id|]. rewrite Hne by done.
    destruct (Hkept i) as [?|[x Hx]]; [by left|right; exists x; by apply Hsame].
  - intros x. rewrite elem_of_cons, Hids. split.
    + intros [->|[i Hi]]; [by exists target|]. exists i. apply Hsame; [by eapply Hother|done].
    + intros [i Hi]. destruct (decide (i = target)) as [->|Hit]; [left; destruct Hi as [Hi _]; by simplify_eq|].
      right. exists i. by apply Hsame.
  - intros i j x Hi Hj. destruct (decide (i = target)) as [->|Hit], (decide (j = target)) as [->|Hjt]; try done.
    + apply Hsame in Hj; [|done]. destruct Hi as [Hi _]. simplify_eq. destruct Hnew. apply Hids. by exists j.
    + apply Hsame in Hi; [|done]. destruct Hj as [Hj _]. simplify_eq. destruct Hnew. apply Hids. by exists i.
    + apply Hsame in Hi, Hj; try done. by eapply Hinj.
Qed.

Lemma safe_identity_entry old by_findex maxf set_size seen tbl ids nf :
  (exists e, 0 <= e <= 31 /\ set_size = 2 ^ e) -> alen by_findex = maxf + 1 ->
  Forall (fun x => -1 <= x < nf) by_findex ->
  seen_ok set_size seen ids -> Z.of_nat (length ids) < set_size -> idents_ok old nf ids tbl ->
  safe (identity_entry by_findex maxf set_size seen tbl)
    (fun x => match x with
              | inl _ => True
              | inr (seen', tbl') => exists id, seen_ok set_size seen' (id :: ids) /\ idents_ok old nf (id :: ids) tbl'
              end) any.
Proof.
  intros Hpow Hbl Hbf Hseen Hlen Hids. pose proof Hids as (Hi1 & Hi2 & Hi3 & _). unfold identity_entry.
  reads ltac:(apply safe_read_uindex). rename a into id. reads ltac:(apply safe_read_uindex). rename a into fi.
  unfold uidx_range in *.
  eapply (safe_bind_ _ _ _ _ (fun x => -1 <= x < nf \/ x = -1) any).
  { apply safe_if; intros E; [|apply safe_ret; [by right|done]]. zbool.
    destruct (aget_is_Some by_findex fi) as [x Hx]; [lia|]. eapply safe_lift; [exact Hx| |done]. left.
    rewrite aget_lookup in Hx by lia. exact (Forall_lookup_1 _ _ _ _ Hbf Hx). }
  intros target Ht. reads ltac:(apply safe_identity_strings). rename a into name.
  destruct name as [u|name]; [by apply safe_ret|]. destruct (H1 ltac:(by right)) as [bytes ->].
  do 2 (eapply safe_bind_; [apply safe_read_index|]; intros ? _).
  do 2 (eapply safe_bind_; [apply safe_read_uindex|]; intros ? _).
  eapply (safe_bind_ _ _ _ _ (fun s => forall s', s = Some s' -> (id ∉ ids) /\ seen_ok set_size s' (id :: ids)) any).
  { rewrite Z.geb_leb, (proj2 (Z.leb_le 0 id)) by lia.
    destruct (find_slot_spec set_size Hpow seen id (hash_slot id set_size)) as (d & x & Hd & Hf & Hp & Hx & Hc);
      [apply Hseen|by apply hash_slot_range|exact (seen_free set_size seen ids Hseen Hlen)|].
    eapply safe_bind_; [eapply (safe_lift _ _ _ _ (fun y => y = _) any); [exact Hf|done|done]|]. intros ? ->.
    eapply safe_bind_; [eapply (safe_lift _ _ _ _ (fun y => y = x) any); [exact Hx|done|done]|]. intros ? ->.
    apply safe_if; intros E; zbool; [by apply safe_ret|].
    pose proof (aget_Some_range _ _ _ Hx) as Hrange.
    destruct (aset seen ((hash_slot id set_size + d) mod set_size) id) as [s1|] eqn:Es;
      [|unfold aset in Es; rewrite decide_True in Es by done; done].
    eapply safe_bind_; [eapply (safe_lift _ _ _ _ (fun y => y = s1) any); done|]. intros ? ->.
    apply safe_ret; [|done]. intros s' [= <-]. destruct Hc as [Hc|Hc]; [|congruence].
    apply (seen_insert set_size seen ids id d x s1); (done || lia). }
  intros seen' Hs'. destruct seen' as [s'|]; [|by apply safe_ret].
  destruct (Hs' s' eq_refl) as [Hnew Hok]. apply safe_get_error. intros err.
  eapply (safe_bind_ _ _ _ _ (fun b => b = false -> 0 <= target < nf /\ exists o, aget (function_stable_ids tbl) target = Some o /\ o < 0) any).
  { apply safe_if; intros E; [by apply safe_ret|]. apply orb_false_iff in E as [_ E]. zbool.
    destruct (aget_is_Some (function_stable_ids tbl) target) as [o Ho]; [lia|].
    eapply safe_bind_; [eapply (safe_lift _ _ _ _ (fun y => y = o) any); done|]. intros ? ->.
    apply safe_ret; [|done]. intros Hge. zbool. split; [lia|]. exists o. split; [done|lia]. }
  intros taken Htk. apply safe_if; intros E; [by apply safe_ret|]. destruct (Htk E) as (Htr & o & Ho & Hneg).
  eapply safe_bind_; [eapply (safe_lift _ _ _ _ (fun y => y = bytes) any); done|]. intros ? ->. cbv zeta.
  eapply safe_bind_; [eapply (safe_lift _ _ _ _ (fun y => y = _) any); [by apply aset_Some; lia|done|done]|]. intros ? ->.
  reads ltac:(by apply (safe_malloc _ _ _ _ any any)).
  eapply safe_bind_; [eapply (safe_lift _ _ _ _ (fun y => y = _) any); [by apply aset_Some; lia|done|done]|]. intros ? ->.
  eapply safe_bind_; [eapply (safe_lift _ _ _ _ (fun y => y = _) any); [by apply aset_Some; lia|done|done]|]. intros ? ->.
  apply safe_ret; [|done]. exists id. split; [done|].
  apply (idents_give old nf ids tbl target o id); rewrite ?alen_insert; (done || lia).
Qed.
End identities.
