(* ===== verification/ReaderCode.v ===== *)
(** * Reading a whole bytecode file

    [checked B n F m always good] is [safe] for code with early returns: [F] are the
    facts that hold as long as no error is recorded, which a [CHK_ERROR] turns into
    facts.  On top of it: what [hl_code_read] guarantees of the code it returns. *)
From S2P Require Import Prelude Opcodes Ustr Unicode Lookup Reader ReaderSpec.

Section checked.
Context (B : trap -> Prop) (n : Z).

Definition checked {A} (F : Prop) (m : rd A) (always good : A -> Prop) : Prop :=
  forall r, rok n r -> (r_error r = None -> F) ->
    match m r with
    | Ok a r' => rok n r' /\ sticky r r' /\ always a /\ (r_error r' = None -> good a)
    | Trap t => B t
    end.

Lemma checked_safe {A} (F : Prop) (m : rd A) P Q : safe B n m P Q -> checked F m P Q.
Proof. intros H r Hr _. by apply H. Qed.
Lemma safe_checked {A} (m : rd A) P Q : checked True m P Q -> safe B n m P Q.
Proof. intros H r Hr. by apply H. Qed.

Lemma checked_ret {A} (F : Prop) (a : A) (P Q : A -> Prop) : P a -> (F -> Q a) -> checked F (mret a) P Q.
Proof. intros HP HQ r Hr HF. simpl. split; [done|]. split; [reflexivity|]. auto. Qed.

Lemma checked_bind {A C} (F : Prop) (m : rd A) (f : A -> rd C) (P Q : A -> Prop) (P' Q' : C -> Prop) :
  checked F m P Q -> (forall a, P a -> checked (F /\ Q a) (f a) P' Q') -> checked F (x ← m; f x) P' Q'.
Proof.
  intros Hm Hf r Hr HF. unfold mbind, rd_bind. specialize (Hm r Hr HF). destruct (m r) as [a r1|]; [|done].
  destruct Hm as (Hr1 & Hs1 & HP & HQ).
  assert (r_error r1 = None -> F /\ Q a) as HF1 by (intros He; split; [apply HF; by eapply sticky_none|auto]).
  specialize (Hf a HP r1 Hr1 HF1). destruct (f a r1) as [c r2|]; [|done].
  destruct Hf as (Hr2 & Hs2 & HP' & HQ'). split; [done|]. split; [by transitivity r1|]. done.
Qed.

Lemma checked_CHK {A} (F : Prop) (k : rd (string + A)) (P Q : string + A -> Prop) :
  (forall msg, P (inl msg)) -> (F -> checked F k P Q) -> checked F (CHK_ERROR k) P Q.
Proof.
  intros Hmsg Hk r Hr HF. unfold CHK_ERROR, mbind, rd_bind, get_error. destruct (r_error r) as [msg|] eqn:E.
  - simpl. split; [done|]. split; [reflexivity|]. split; [done|]. congruence.
  - specialize (HF eq_refl). apply Hk; [done|done|]. auto.
Qed.

Lemma checked_EXIT {A} (F : Prop) msg (P Q : string + A -> Prop) :
  (forall msg, P (inl msg)) -> checked F (EXIT msg) P Q.
Proof.
  intros Hmsg r Hr HF. unfold EXIT.
  pose proof (safe_ERROR B n msg (fun _ => True) (fun _ => False) I r Hr) as H.
  unfold mbind, rd_bind, get_error. destruct (ERROR msg r) as [[] r1|]; [|done].
  destruct H as (H1 & H2 & _ & H3). simpl. split; [done|]. split; [done|]. split; [done|]. intros He. by destruct H3.
Qed.

Lemma checked_if {A} (F : Prop) (b : bool) (m1 m2 : rd A) P Q :
  (b = true -> checked F m1 P Q) -> (b = false -> checked F m2 P Q) -> checked F (if b then m1 else m2) P Q.
Proof. destruct b; auto. Qed.

Lemma checked_weaken {A} (F F' : Prop) (m : rd A) (P P' Q Q' : A -> Prop) :
  checked F m P Q -> (F' -> F) -> (forall a, P a -> P' a) -> (forall a, P a -> Q a -> Q' a) -> checked F' m P' Q'.
Proof.
  intros H HF HP HQ r Hr HF'. specialize (H r Hr ltac:(auto)). destruct (m r); [|done]. naive_solver.
Qed.

(** A loop that checks for errors after every element. *)
Definition good_sum {A} (P : A -> Prop) (x : string + A) : Prop := match x with inl _ => True | inr a => P a end.
Lemma checked_list_chk {A} (F : Prop) (body : rd (string + A)) (P : A -> Prop) k :
  (forall F, checked F body (good_sum P) (fun _ => True)) ->
  checked F (rd_list_chk body k) (good_sum (fun l => length l = k /\ Forall P l)) (fun _ => True).
Proof.
  intros Hb. revert F. induction k as [|k IH]; intros F; simpl.
  - by apply checked_ret.
  - eapply checked_bind; [apply Hb|]. intros [msg|x] Hx; [by apply checked_ret|].
    eapply checked_bind; [apply IH|]. intros [msg|xs] Hxs; apply checked_ret; try done.
    destruct Hxs as [Hl Hf]. split; [simpl; lia|by constructor].
Qed.
End checked.

(** What [hl_code_read] can do outside defined behaviour.  Never: another access outside
    a block than the two named, another read of memory nothing was written to than that
    of an unfilled string block, or an endless loop. *)
Definition tolerated (t : trap) : Prop :=
  match t with
  | BadAlloc | IntOverflow | CacheFull | BadString | DebugOverrun | UninitString => True
  | OutOfBounds | Uninit | NoFuel => False
  end.

Section sections.
Abbreviation any := (fun _ => True).
Context (B : trap -> Prop) (Balloc : B BadAlloc).
Abbreviation safe := (safe B).

Lemma safe_identity_entries n old by_findex maxf set_size k : forall seen tbl ids nf,
  (exists e, 0 <= e <= 31 /\ set_size = 2 ^ e) -> alen by_findex = maxf + 1 ->
  Forall (fun x => -1 <= x < nf) by_findex ->
  seen_ok set_size seen ids -> Z.of_nat (length ids + k) < set_size -> idents_ok old nf ids tbl ->
  safe n (identity_entries by_findex maxf set_size k seen tbl)
    (good_sum (fun tbl' => exists ids', length ids' = (length ids + k)%nat /\ NoDup ids' /\ idents_ok old nf ids' tbl')) any.
Proof.
  induction k as [|k IH]; intros seen tbl ids nf Hp Hb Hf Hs Hl Ht; cbn [identity_entries].
  { apply safe_ret; [|done]. exists ids. split; [lia|]. split; [apply Hs|done]. }
  eapply safe_bind_; [eapply (safe_identity_entry B n) with (ids := ids) (nf := nf); (done || lia)|].
  intros [msg|[seen' tbl']] Hx; [by apply safe_ret|]. destruct Hx as (id & Hs' & Ht').
  replace (length ids + S k)%nat with (length (id :: ids) + k)%nat by (simpl; lia).
  apply (IH seen' tbl' (id :: ids) nf); try done. simpl. lia.
Qed.

(** The tables have an entry per function. *)
Definition tables_ok (nf : Z) (tbl : identities) : Prop :=
  alen (function_stable_ids tbl) = nf /\ alen (function_names tbl) = nf /\ alen (function_names_lens tbl) = nf.

Lemma safe_read_identities n fs tbl count : uidx_range count ->
  Forall (fun f => 0 <= findex f < 536870912) fs -> tables_ok (alen fs) tbl ->
  safe n (read_identities fs tbl count)
    (good_sum (fun y => exists ids, Z.of_nat (length ids) = count /\ NoDup ids /\
       idents_ok (function_stable_ids tbl) (alen fs) ids y.1)) any.
Proof.
  intros Hc Hfs (Ht1 & Ht2 & Ht3). unfold uidx_range, read_identities in *.
  destruct (max_findex_spec fs Hfs) as [Hm1 Hm2]. cbv zeta.
  eapply safe_bind_; [by apply (safe_malloc _ _ _ _ any any)|]. intros _ _.
  destruct (index_functions_spec fs (replicate (Z.to_nat (max_findex fs + 1)) (-1)) 0 (alen fs))
    as (bf & Hbf & Hbl & Hbr).
  { rewrite alen_replicate. eapply Forall_impl; [apply Forall_and; split; [exact Hfs|exact Hm2]|].
    intros f [??]. simpl in *. lia. }
  { apply Forall_replicate. pose proof (alen_nonneg fs). lia. }
  { lia. } { lia. }
  rewrite alen_replicate in Hbl.
  eapply safe_bind_; [eapply (safe_lift _ _ _ _ (fun y => y = bf) any); done|]. intros ? ->.
  destruct (seen_size_spec count Hc) as (e & He & He1 & He2 & He3).
  eapply safe_bind_; [eapply (safe_lift _ _ _ _ (fun y => y = 2 ^ e) any); done|]. intros ? ->.
  eapply safe_bind_; [by apply (safe_malloc _ _ _ _ any any)|]. intros _ _.
  assert (exists x, 0 <= x <= 31 /\ 2 ^ e = 2 ^ x) as Hpow by (exists e; done).
  assert (0 < 2 ^ e) by (apply Z.pow_pos_nonneg; lia).
  eapply safe_bind_.
  { apply (safe_identity_entries n (function_stable_ids tbl) bf (max_findex fs) (2 ^ e) (Z.to_nat count) _ tbl [] (alen fs) Hpow);
      [lia|done|by apply seen_empty|simpl; lia|by apply idents_none]. }
  intros res Hres r1 Hr1. unfold mbind, rd_bind, get_pos, r_size. simpl. split; [done|]. split; [reflexivity|].
  split; [|done]. destruct res as [|tbl']; [done|]. destruct Hres as (ids & Hl & Hn & Hi).
  exists ids. split; [simpl in Hl; lia|]. done.
Qed.

(** The count a section starts with. *)
Definition identity_count (data : list Z) (r : reader) : Z :=
  match hl_read_uindex (Reader data 0 None [] (r_cache r)) with Ok k _ => k | Trap _ => -1 end.

Lemma identities_spec n fs data tbl r : rok n r -> Forall byte data -> alen data <= 2 ^ 30 ->
  Forall (fun f => 0 <= findex f < 536870912) fs -> tables_ok (alen fs) tbl ->
  match hl_read_function_identities fs data tbl r with
  | Ok tbl' r' => rok n r' /\ sticky r r' /\ exists ids, idents_ok (function_stable_ids tbl) (alen fs) ids tbl' /\
      NoDup ids /\ (r_error r' = None -> Z.of_nat (length ids) = identity_count data r)
  | Trap t => B t
  end.
Proof.
  intros Hr Hdata Hlen Hfs Ht. unfold hl_read_function_identities, identity_count.
  set (s0 := Reader data 0 None [] (r_cache r)).
  assert (rok 0 s0) as Hs0.
  { pose proof Hr as (_ & _ & _ & _ & _ & names & Hnames). split; [simpl; pose proof (alen_nonneg data); lia|].
    split; [done|]. split; [done|]. split; [done|]. split; [constructor|]. by exists names. }
  unfold mbind at 1, rd_bind at 1. pose proof (safe_read_uindex B 0 s0 Hs0) as Hu.
  destruct (hl_read_uindex s0) as [count s1|t]; [|done]. destruct Hu as (Hs1 & _ & Hc & _).
  pose proof (safe_read_identities 0 fs tbl count Hc Hfs Ht s1 Hs1) as Hx.
  assert (forall msg t, (exists ids, idents_ok (function_stable_ids tbl) (alen fs) ids t /\ NoDup ids) ->
    match (ERROR msg;; mret t) r with
    | Ok tbl' r' => rok n r' /\ sticky r r' /\ exists ids, idents_ok (function_stable_ids tbl) (alen fs) ids tbl' /\
        NoDup ids /\ (r_error r' = None -> Z.of_nat (length ids) = count)
    | Trap t => B t end) as Herr.
  { intros msg t (ids & Hi & Hn). pose proof (safe_error_ret B n msg t (fun t' => t' = t) (fun _ => False) eq_refl r Hr) as He.
    destruct ((ERROR msg;; mret t) r); [|done]. destruct He as (? & ? & -> & Hno). split; [done|]. split; [done|].
    exists ids. split; [done|]. split; [done|]. intros He. by destruct Hno. }
  destruct (read_identities fs tbl count s1) as [x s2|t]; [|done]. destruct Hx as (_ & _ & Hx & _).
  destruct x as [msg|[tbl' []]].
  - apply Herr. exists []. split; [|constructor]. destruct Ht as (? & ? & ?). by apply idents_none.
  - apply Herr. destruct Hx as (ids & _ & ? & ?). by exists ids.
  - split; [done|]. split; [reflexivity|]. destruct Hx as (ids & ? & ? & ?). by exists ids.
Qed.

End sections.

Section debug_sections.
Abbreviation any := (fun _ => True).
Lemma safe_sections n fs k : forall F ids,
  Forall (fun f => 0 <= findex f < 536870912) fs -> tables_ok (alen fs) ids ->
  checked tolerated n F (read_sections fs k ids)
    (good_sum (fun '(ss, ids') => length ss = k /\ tables_ok (alen fs) ids')) any.
Proof.
  induction k as [|k IH]; intros F ids Hfs Hids; cbn [read_sections]; [by apply checked_ret|].
  do 4 (eapply checked_bind; [apply checked_safe, safe_read_uindex|]; intros ? ?). unfold uidx_range in *.
  apply checked_CHK; [done|]. intros _. apply checked_if; intros _; [by apply checked_EXIT|].
  eapply checked_bind; [by apply checked_safe, (safe_malloc _ _ _ _ any any)|]. intros ? _.
  eapply checked_bind; [by apply checked_safe, safe_read_bytes|]. intros data Hdata.
  apply checked_CHK; [done|]. intros [_ [d ->]]. destruct Hdata as [Hdl Hdb]. simpl.
  eapply (checked_bind _ _ _ _ _ (tables_ok (alen fs)) any).
  { apply checked_if; intros _; [|by apply checked_ret]. apply checked_safe. intros r Hr.
    pose proof (identities_spec tolerated I n fs d ids r Hr Hdb) as H4. norm_pow2.
    destruct (hl_read_function_identities fs d ids r) as [t r'|t].
    - destruct H4 as (? & ? & ids' & Ht & _); try done; try lia.
      split; [done|]. split; [done|]. split; [|done]. by destruct Ht as (? & ? & ? & _).
    - apply H4; try done; try lia. }
  intros ids' Hids'. apply checked_CHK; [done|]. intros _.
  eapply checked_bind; [by apply IH|]. intros [msg|[ss ids'']] Hss; apply checked_ret; try done.
  destruct Hss as [Hl Ht]. split; [simpl; lia|done].
Qed.
End debug_sections.

(** ** The code returned *)
Section code.
(** The guarantees on a returned [hl_code], in terms of its own tables. *)
Definition idx_of (l : Z) (t : Z) : Prop := 0 <= t < l.
Definition hdr (ntypes : Z) : header := Header 0 ntypes 0 0 (Strings [] [] []) 0 (FieldLookup [] 0 0).
Definition native_ok (ntypes : Z) (x : hl_native) : Prop := idx_of ntypes (n_t x) /\ 0 <= n_findex x.
Definition fun_ok (ntypes : Z) (hasdebug : bool) (f : hl_function) : Prop :=
  function_ok f /\ function_good (hdr ntypes) f /\ control_flow_ok f /\
  (hasdebug = true -> alen (debug f) = nops f).
Definition constant_ok (k : hl_constant) : Prop := alen (k_fields k) = k_nfields k.

Definition code_ok (c : hl_code) : Prop :=
  let ntypes := alen (c_types c) in
  2 <= c_version c <= 7 /\
  (exists nstrings, string_table_ok nstrings (c_strings c)) /\
  Forall (fun t => type_ok t /\ type_good (hdr ntypes) t) (c_types c) /\
  Forall (idx_of ntypes) (c_globals c) /\
  Forall (native_ok ntypes) (c_natives c) /\
  Forall (fun_ok ntypes (c_hasdebug c)) (c_functions c) /\
  tables_ok (alen (c_functions c)) (c_identities c) /\
  Forall constant_ok (c_constants c).
End code.

Section whole.
Abbreviation any := (fun _ => True).
Abbreviation checked := (checked tolerated).
Ltac reads H := eapply checked_bind; [H|]; intros ? ?.

Lemma safe_read_counts F : checked 0 F read_counts
  (good_sum (fun k => 2 <= k_version k <= 7 /\ uidx_range (k_nstrings k) /\ uidx_range (k_ntypes k) /\
     0 <= k_nglobals k /\ 0 <= k_nnatives k)) any.
Proof.
  unfold read_counts. reads ltac:(apply checked_safe, safe_read_b).
  eapply (checked_bind _ _ _ _ _ any any).
  { apply checked_if; intros _; [by apply checked_ret|]. reads ltac:(apply checked_safe, safe_read_b).
    apply checked_if; intros _; [by apply checked_ret|]. reads ltac:(apply checked_safe, safe_read_b). by apply checked_ret. }
  intros ok _. apply checked_if; intros _; [by apply checked_EXIT|].
  reads ltac:(apply checked_safe, safe_read_b). apply checked_if; intros E; [by apply checked_EXIT|].
  zbool. unfold max_version in *.
  do 4 reads ltac:(apply checked_safe, safe_read_uindex).
  assert (forall b n', checked n' True (if b : bool then hl_read_uindex else mret 0) uidx_range any) as Hopt.
  { intros b n'. apply checked_safe, safe_if; intros _; [|by apply safe_ret].
    eapply safe_weaken; [apply safe_read_uindex|done|done]. }
  assert (forall F (b : bool), checked 0 F (if b then hl_read_uindex else mret 0) any any) as Hopt2.
  { intros F0 b. eapply checked_weaken; [apply (Hopt b)|done|done|done]. }
  reads ltac:(apply Hopt2).
  do 4 reads ltac:(apply checked_safe, safe_read_uindex). reads ltac:(apply Hopt2).
  reads ltac:(apply checked_safe, safe_read_uindex).
  apply checked_CHK; [done|]. intros _. apply checked_ret; [|done]. simpl. unfold uidx_range in *. lia.
Qed.

Section with_header.
Context (h : header) (Hh : alen (spos (strings h)) = nstrings h) (Hn : uidx_range (nstrings h)).
Abbreviation n := (nstrings h).

Lemma checked_function F hasdebug :
  checked n F (read_checked_function h hasdebug) (good_sum (fun_ok (ntypes h) hasdebug)) any.
Proof.
  unfold read_checked_function.
  reads ltac:(apply checked_safe, (safe_read_function tolerated h); done). rename a into f.
  apply checked_CHK; [done|]. intros [_ Hgood].
  destruct (validate_spec f H) as (v & -> & Hv). destruct v as [msg|]; [by apply checked_EXIT|].
  assert (control_flow_ok f) as Hcf by by apply Hv.
  destruct hasdebug; [|apply checked_ret; [|done]].
  - reads ltac:(apply checked_safe, safe_read_debug_infos; (done || apply H)). rename a into dbg.
    assert (forall na as_, fun_ok (ntypes h) true (Function (findex f) (nregs f) (nops f) (ftype f) (regs f) (ops f) dbg na as_)) as Hok.
    { intros. split; [exact H|]. split; [exact Hgood|]. split; [exact Hcf|by intros _]. }
    apply checked_if; intros _; [|by apply checked_ret].
    reads ltac:(apply checked_safe, safe_read_uindex). unfold uidx_range in *.
    eapply checked_bind; [apply checked_safe, (safe_array _ _ _ any any); [lia|]|].
    { intros j. unfold read_assign. eapply safe_bind_; [apply safe_read_uindex|]. intros ? _.
      eapply safe_bind_; [apply safe_read_index|]. intros ? _.
      eapply (safe_bind_ _ _ _ _ any any); [|intros; by apply safe_ret].
      apply safe_if; intros _; [|by apply safe_ret].
      eapply safe_bind_; [apply safe_read_index|]. intros. by apply safe_ret. }
    intros ? _. by apply checked_ret.
  - split; [done|]. split; [done|]. split; [done|]. done.
Qed.

Lemma checked_constant F : checked n F read_constant (good_sum constant_ok) any.
Proof.
  unfold read_constant. do 2 reads ltac:(apply checked_safe, safe_read_uindex). unfold uidx_range in *.
  reads ltac:(by apply checked_safe, (safe_malloc _ _ _ _ any any)).
  reads ltac:(apply checked_safe, (safe_array _ _ _ any any); [lia|intros; by apply safe_any_uindex]).
  apply checked_CHK; [done|]. intros _. apply checked_ret; [|done]. by destruct H2.
Qed.

Lemma safe_native j : safe tolerated n (read_native h j)
  (fun '(_, _, _, fi) => 0 <= fi) (fun '(_, _, t, _) => idx_of (ntypes h) t).
Proof.
  unfold read_native. do 2 (eapply safe_bind_; [by apply safe_read_string|]; intros ? ?).
  eapply safe_bind; [apply safe_get_type|]. intros t Ht.
  eapply safe_bind_; [apply safe_read_uindex|]. intros fi Hfi. unfold uidx_range in *. apply safe_ret; [lia|done].
Qed.

Lemma checked_tables k ints floats bytes files F :
  uidx_range (k_ntypes k) -> ntypes h = k_ntypes k -> 2 <= version h <= 7 ->
  0 <= k_nglobals k -> 0 <= k_nnatives k -> string_table_ok n (strings h) ->
  checked n F (read_tables k ints floats bytes files h) (good_sum code_ok) any.
Proof.
  intros Hnt Hnth Hver Hng Hnn Hst. unfold read_tables. cbv zeta. unfold ALLOC, uidx_range in *.
  reads ltac:(by apply checked_safe, (safe_malloc _ _ _ _ any any)).
  eapply checked_bind.
  { apply checked_list_chk with (P := fun t => type_ok t /\ type_good h t). intros F'.
    eapply checked_bind; [by apply checked_safe, (safe_read_type tolerated h)|]. intros t Ht.
    apply checked_CHK; [done|]. intros [_ Hg]. by apply checked_ret. }
  intros [msg|types] Htypes; [by apply checked_ret|]. destruct Htypes as [Htl Htypes].
  assert (alen types = ntypes h) as Hal by (unfold alen; lia).
  reads ltac:(by apply checked_safe, (safe_malloc _ _ _ _ any any)).
  eapply checked_bind; [apply checked_safe, safe_types; done|]. intros globals Hgl.
  apply checked_CHK; [done|]. intros [_ Hgg].
  reads ltac:(by apply checked_safe, (safe_malloc _ _ _ _ any any)).
  eapply checked_bind; [apply checked_safe, (safe_array _ _ _ _ _ _ Hnn safe_native)|]. intros natives [_ Hna].
  apply checked_CHK; [done|]. intros [_ Hng2].
  do 4 reads ltac:(by apply checked_safe, (safe_malloc _ _ _ _ any any)).
  eapply checked_bind; [apply checked_list_chk; intros F'; apply checked_function|].
  intros [msg|functions] Hf; [by apply checked_ret|]. destruct Hf as [_ Hf].
  apply checked_CHK; [done|]. intros _.
  reads ltac:(by apply checked_safe, (safe_malloc _ _ _ _ any any)).
  eapply checked_bind; [apply checked_list_chk; intros F'; apply checked_constant|].
  intros [msg|constants] Hk; [by apply checked_ret|]. destruct Hk as [_ Hk].
  assert (Forall (fun f => 0 <= findex f < 536870912) functions) as Hfi.
  { eapply Forall_impl; [exact Hf|]. by intros f [[? _] _]. }
  set (ids0 := Identities _ _ _).
  assert (tables_ok (alen functions) ids0) as Hids0.
  { unfold tables_ok, ids0, alen; simpl. by rewrite !length_replicate. }
  eapply (checked_bind _ _ _ _ _ (good_sum (fun '(_, ids') => tables_ok (alen functions) ids')) any).
  { apply checked_if; intros _; [|by apply checked_ret].
    reads ltac:(apply checked_safe, safe_read_uindex). apply checked_CHK; [done|]. intros _.
    reads ltac:(by apply checked_safe, (safe_malloc _ _ _ _ any any)).
    eapply checked_weaken; [by apply safe_sections|done| |done]. intros [|[]] Hx; [done|apply Hx]. }
  intros [msg|[sections ids]] Hs; [by apply checked_ret|]. simpl in Hs.
  intros r Hr _. unfold mbind, rd_bind, get_ustrings. simpl. split; [done|]. split; [reflexivity|].
  split; [|done]. unfold code_ok; simpl. rewrite Hal. unfold ALLOC in *.
  split; [done|]. split; [by exists n|]. split.
  { eapply Forall_impl; [exact Htypes|]. by intros t [? ?]. }
  split; [exact Hgg|]. split.
  { rewrite Forall_fmap. eapply Forall_impl; [apply Forall_and; split; [exact Hna|exact Hng2]|].
    intros [[[l nm] t] fi] [? ?]. split; done. }
  split; [done|]. split; [|done]. destruct Hs as (Hs1 & Hs2 & Hs3).
  split; [|split; [exact Hs2|exact Hs3]]. simpl. unfold default_ids, alen in *. rewrite length_zip_with. lia.
Qed.
End with_header.

(** The same, forgetting the reader's final state: [ustrings] is allocated on the way. *)
Definition ends {A} (n : Z) (F : Prop) (m : rd A) (P : A -> Prop) : Prop :=
  forall r, rok n r -> (r_error r = None -> F) ->
    match m r with Ok a _ => P a | Trap t => tolerated t end.

Lemma ends_checked {A} n F (m : rd A) P Q : checked n F m P Q -> ends n F m P.
Proof. intros H r Hr HF. specialize (H r Hr HF). destruct (m r); [|done]. naive_solver. Qed.
Lemma ends_bind {A C} n F (m : rd A) (f : A -> rd C) P Q (P' : C -> Prop) :
  checked n F m P Q -> (forall a, P a -> ends n (F /\ Q a) (f a) P') -> ends n F (x ← m; f x) P'.
Proof.
  intros Hm Hf r Hr HF. unfold mbind, rd_bind. specialize (Hm r Hr HF). destruct (m r) as [a r1|]; [|done].
  destruct Hm as (Hr1 & Hs1 & HP & HQ). apply (Hf a HP r1 Hr1). intros He.
  split; [apply HF; by eapply sticky_none|auto].
Qed.
Lemma ends_CHK {A} n F (k : rd (string + A)) P :
  (forall msg, P (inl msg)) -> (F -> ends n F k P) -> ends n F (CHK_ERROR k) P.
Proof.
  intros Hmsg Hk r Hr HF. unfold CHK_ERROR, mbind, rd_bind, get_error. destruct (r_error r) as [msg|] eqn:E; [apply Hmsg|].
  specialize (HF eq_refl). apply Hk; [done|done|]. auto.
Qed.
Lemma ends_ustrings {A} k F (m : rd A) P :
  0 <= k -> ends k F m P -> ends 0 F (set_ustrings (replicate (Z.to_nat k) None);; m) P.
Proof.
  intros Hk Hm r Hr HF. unfold mbind, rd_bind, set_ustrings. apply Hm; [|done].
  destruct Hr as (H1 & H2 & H3 & _ & _ & H6). split; [done|]. split; [done|]. split; [done|]. simpl.
  split; [rewrite alen_replicate; lia|]. split; [|done]. apply Forall_replicate. by intros x [=].
Qed.

Ltac ereads H := eapply ends_bind; [H|]; intros ? ?.
Lemma read_code_ends junk junkl : ends 0 True (read_code junk junkl) (good_sum code_ok).
Proof.
  unfold read_code, ALLOC. eapply ends_bind; [apply safe_read_counts|].
  intros [msg|k] Hk; [by apply (ends_checked _ _ _ _ any), checked_ret|].
  destruct Hk as (Hver & Hns & Hnt & Hng & Hnn). unfold uidx_range in *.
  ereads ltac:(by apply checked_safe, (safe_malloc _ _ _ _ any any)).
  ereads ltac:(apply checked_safe, (safe_list _ _ _ _ _ _ _ (fun _ => safe_read_i32 _ _))).
  apply ends_CHK; [done|]. intros _.
  ereads ltac:(by apply checked_safe, (safe_malloc _ _ _ _ any any)).
  ereads ltac:(apply checked_safe, (safe_list _ _ _ any any); intros; unfold hl_read_double;
    eapply safe_bind_; [by apply safe_read_bytes|]; intros; by apply safe_ret).
  apply ends_CHK; [done|]. intros _.
  ereads ltac:(apply checked_safe, safe_read_strings; (done || lia)).
  ereads ltac:(by apply checked_safe, (safe_malloc _ _ _ _ any any)).
  apply ends_CHK; [done|]. intros [[_ [st ->]] _].
  pose proof (H3 st eq_refl) as Hst.
  eapply ends_bind; [apply checked_safe; by eapply (safe_lift _ _ _ _ (fun y => y = st) any)|]. intros ? ->.
  apply ends_ustrings; [lia|].
  eapply (ends_bind _ _ _ _ (good_sum any) any).
  { apply checked_if; intros _; [|by apply checked_ret].
    eapply checked_bind; [apply checked_safe, safe_read_i32|]. intros size _.
    eapply checked_bind; [by apply checked_safe, (safe_malloc _ _ _ _ any any)|]. intros ? _.
    eapply checked_bind; [by apply checked_safe, safe_read_bytes|]. intros data _.
    eapply checked_bind; [by apply checked_safe, (safe_malloc _ _ _ _ any any)|]. intros ? _.
    apply checked_CHK; [done|]. intros _.
    eapply checked_bind; [apply checked_safe, (safe_list _ _ _ _ _ _ _ (fun _ => safe_read_uindex _ _))|].
    intros ? _. apply checked_CHK; [done|]. intros _. by apply checked_ret. }
  intros [msg|bytes] _; [by apply (ends_checked _ _ _ _ any), checked_ret|].
  eapply (ends_bind _ _ _ _ (good_sum any) any).
  { apply checked_if; intros _; [|by apply checked_ret].
    eapply checked_bind; [apply checked_safe, safe_read_uindex|]. intros nfiles Hnf. unfold uidx_range in *.
    eapply checked_bind; [apply checked_safe, safe_read_strings; (done || lia)|]. intros files _.
    apply checked_CHK; [done|]. intros _. by apply checked_ret. }
  intros [msg|[nfiles files]] _; [by apply (ends_checked _ _ _ _ any), checked_ret|].
  eapply ends_checked. eapply (checked_tables (Header _ _ _ _ _ _ _)); simpl; try done; try lia.
  apply Hst.
Qed.
End whole.
