(* ===== verification/ReaderProps.v ===== *)
(** * Theorems on the bytecode reader

    Reading inverts writing (indices, opcodes, functions), and the guarantees on
    whole files. *)
From S2P Require Import Prelude Opcodes Ustr Unicode Lookup Reader ReaderSpec ReaderCode.

(** ** Exact parsing

    [parses bs m a]: from a reader with no error whose next bytes are [bs], [m] returns
    [a], consumes exactly [bs] and changes nothing else. *)
Definition at_bytes (r : reader) (bs : list Z) : Prop :=
  r_error r = None /\ exists pre post, r_b r = pre ++ bs ++ post /\ r_pos r = alen pre.
Definition advanced (r : reader) (k : Z) : reader :=
  Reader (r_b r) (r_pos r + k) (r_error r) (r_ustrings r) (r_cache r).
Definition parses {A} (bs : list Z) (m : rd A) (a : A) : Prop :=
  forall r, at_bytes r bs -> m r = Ok a (advanced r (alen bs)).

Lemma parses_ret {A} (a : A) : parses [] (mret a) a.
Proof. intros [] _. unfold advanced; simpl. by rewrite Z.add_0_r. Qed.

Lemma at_bytes_app r b1 b2 : at_bytes r (b1 ++ b2) -> at_bytes r b1 /\ at_bytes (advanced r (alen b1)) b2.
Proof.
  intros [He (pre & post & Hb & Hp)]. split; (split; [done|]).
  - exists pre, (b2 ++ post). by rewrite Hb, <- app_assoc.
  - exists (pre ++ b1), post. simpl. split; [by rewrite Hb, <- !app_assoc|]. rewrite alen_app. lia.
Qed.

Lemma parses_bind {A C} b1 b2 (m : rd A) (f : A -> rd C) a c :
  parses b1 m a -> parses b2 (f a) c -> parses (b1 ++ b2) (x ← m; f x) c.
Proof.
  intros Hm Hf r Hr. destruct (at_bytes_app _ _ _ Hr) as [H1 H2].
  unfold mbind, rd_bind. rewrite (Hm r H1), (Hf _ H2). unfold advanced; simpl. rewrite alen_app. do 2 f_equal. lia.
Qed.
Lemma parses_bind_last {A C} bs (m : rd A) (f : A -> C) a :
  parses bs m a -> parses bs (x ← m; mret (f x)) (f a).
Proof. intros H. rewrite <- (app_nil_r bs). eapply parses_bind; [exact H|apply parses_ret]. Qed.

Lemma parses_array {A} (body : Z -> rd A) (enc : A -> list Z) l :
  (forall j a, a ∈ l -> parses (enc a) (body j) a) -> parses (concat (enc <$> l)) (rd_array body (alen l)) l.
Proof.
  unfold rd_array, alen. rewrite Nat2Z.id. generalize 0. induction l as [|a l IH]; intros i H; simpl.
  - apply parses_ret.
  - eapply parses_bind; [apply H; left|]. apply parses_bind_last with (f := fun xs => a :: xs).
    apply IH. intros j b Hb. apply H. by right.
Qed.

Lemma parses_malloc {C} bs count size (m : rd C) c : 0 <= count * size <= INT_MAX - 7 ->
  parses bs m c -> parses bs (hl_malloc count size;; m) c.
Proof. intros Hs Hm r Hr. unfold hl_malloc. rewrite decide_True by done. apply (Hm r Hr). Qed.

Lemma parses_no_error {C} bs (m : option string -> rd C) c :
  parses bs (m None) c -> parses bs (e ← get_error; m e) c.
Proof. intros Hm r Hr. unfold mbind, rd_bind, get_error. rewrite (proj1 Hr). by apply Hm. Qed.

Lemma parses_b b : parses [b] hl_read_b b.
Proof.
  intros r [He (pre & post & Hb & Hp)]. unfold hl_read_b, mbind, rd_bind, get_pos, r_size.
  pose proof (alen_nonneg pre). pose proof (alen_nonneg post).
  assert (alen (r_b r) = alen pre + 1 + alen post) as Hl
    by (rewrite Hb, !alen_app; change (alen [b]) with 1; lia).
  rewrite Z.geb_leb, (proj2 (Z.leb_gt _ _)) by lia.
  unfold r_byte, lift, set_pos. rewrite Hb, Hp. rewrite aget_app_r by lia. rewrite Z.sub_diag. simpl.
  unfold advanced. rewrite Hb, Hp. done.
Qed.

(** ** Indices *)
(** The shortest encoding of a signed 29-bit index. *)
Definition write_index (v : Z) : list Z :=
  let sign := if v <? 0 then 32 else 0 in
  let a := Z.abs v in
  if (0 <=? v) && (v <? 128) then [v]
  else if a <? 8192 then [128 + sign + a / 256; a mod 256]
  else [192 + sign + a / 16777216; a / 65536 mod 256; a / 256 mod 256; a mod 256].

(** The flag bits of the first byte. *)
Lemma flag_bits x k : 0 <= k -> Z.land x (2 ^ k) = (x / 2 ^ k mod 2) * 2 ^ k.
Proof.
  intros Hk. apply Z.bits_inj'. intros i Hi. rewrite Z.land_spec, Z.pow2_bits_eqb by lia.
  rewrite Z.mul_pow2_bits by lia. destruct (Z.eqb_spec k i) as [->|Hne].
  - rewrite andb_true_r, Z.sub_diag. change 2 with (2 ^ 1) at 2. rewrite Z.mod_pow2_bits_low by lia.
    rewrite Z.div_pow2_bits by lia. done.
  - rewrite andb_false_r. destruct (decide (i < k)); [by rewrite Z.testbit_neg_r by lia|].
    change 2 with (2 ^ 1) at 2. rewrite Z.mod_pow2_bits_high by lia. done.
Qed.

Lemma parses_index v : - 2 ^ 29 < v < 2 ^ 29 -> parses (write_index v) hl_read_index v.
Proof.
  intros Hv. norm_pow2. unfold write_index, hl_read_index.
  assert (forall b, Z.land b 128 = b / 128 mod 2 * 128) as F7 by (intros; by apply (flag_bits _ 7)).
  assert (forall b, Z.land b 64 = b / 64 mod 2 * 64) as F6 by (intros; by apply (flag_bits _ 6)).
  assert (forall b, Z.land b 32 = b / 32 mod 2 * 32) as F5 by (intros; by apply (flag_bits _ 5)).
  destruct ((0 <=? v) && (v <? 128)) eqn:E; zbool.
  { rewrite <- (app_nil_r [v]). eapply parses_bind; [apply parses_b|]. rewrite F7.
    rewrite (proj2 (Z.eqb_eq _ 0)) by z_div. rewrite (land_mask 7 _ 127) by done. norm_pow2.
    rewrite Z.mod_small by lia. apply parses_ret. }
  set (sign := if v <? 0 then 32 else 0).
  assert ((sign = 32 /\ v < 0) \/ (sign = 0 /\ 0 <= v)) as Hsign by (unfold sign; case_if_bool; [left|right]; lia).
  clearbody sign. assert (v < 0 \/ 128 <= v) as Hv2 by (destruct E; lia). clear E.
  case_if_bool.
  - change ([?a; ?b]) with ([a] ++ [b] ++ []). eapply parses_bind; [apply parses_b|]. rewrite F7, F6, F5.
    rewrite (proj2 (Z.eqb_neq _ 0)) by z_div. rewrite (proj2 (Z.eqb_eq _ 0)) by z_div.
    eapply parses_bind; [apply parses_b|]. cbv zeta.
    assert (Z.lor (Z.abs v mod 256) (Z.shiftl (Z.land (128 + sign + Z.abs v / 256) 31) 8) = Z.abs v) as ->.
    { rewrite Z.lor_comm. z_masks. rewrite (lor_add 8 (_ * 256)) by (norm_pow2; z_div). z_div. }
    destruct Hsign as [[-> ?]|[-> ?]].
    + rewrite (proj2 (Z.eqb_neq _ 0)) by z_div. replace (- Z.abs v) with v by lia. apply parses_ret.
    + rewrite (proj2 (Z.eqb_eq _ 0)) by z_div. replace (Z.abs v) with v by lia. apply parses_ret.
  - change ([?a; ?b; ?c; ?d]) with ([a] ++ [b] ++ [c] ++ [d] ++ []).
    eapply parses_bind; [apply parses_b|]. rewrite F7, F6, F5.
    rewrite (proj2 (Z.eqb_neq _ 0)) by z_div. rewrite (proj2 (Z.eqb_neq _ 0)) by z_div.
    do 3 (eapply parses_bind; [apply parses_b|]). cbv zeta.
    rewrite index_value4 by (unfold byte; z_div).
    replace ((192 + sign + Z.abs v / 16777216) mod 32 * 16777216 + Z.abs v / 65536 mod 256 * 65536 +
             Z.abs v / 256 mod 256 * 256 + Z.abs v mod 256) with (Z.abs v) by z_div.
    destruct Hsign as [[-> ?]|[-> ?]].
    + rewrite (proj2 (Z.eqb_neq _ 0)) by z_div. replace (- Z.abs v) with v by lia. apply parses_ret.
    + rewrite (proj2 (Z.eqb_eq _ 0)) by z_div. replace (Z.abs v) with v by lia. apply parses_ret.
Qed.

Lemma parses_uindex v : 0 <= v < 2 ^ 29 -> parses (write_index v) hl_read_uindex v.
Proof.
  intros Hv. unfold hl_read_uindex. rewrite <- (app_nil_r (write_index v)).
  eapply parses_bind; [apply parses_index; lia|]. rewrite (proj2 (Z.ltb_ge v 0)) by lia. apply parses_ret.
Qed.

Lemma parses_type h t : 0 <= t < ntypes h -> ntypes h <= 2 ^ 29 -> parses (write_index t) (hl_get_type h) t.
Proof.
  intros Ht Hn. unfold hl_get_type. rewrite <- (app_nil_r (write_index t)).
  eapply parses_bind; [apply parses_index; lia|].
  rewrite (proj2 (Z.ltb_ge t 0)), Z.geb_leb, (proj2 (Z.leb_gt _ _)) by lia. apply parses_ret.
Qed.

(** ** Opcodes and functions *)
Definition write_operand (o : option Z) : list Z := match o with Some v => write_index v | None => [] end.
Definition write_extra (e : op_extra) : list Z :=
  match e with ExtraNone => [] | ExtraInt i => write_index i | ExtraArr l => concat (write_index <$> l) end.

(** The bytes the compiler writes for an opcode. *)
Definition write_opcode (x : hl_opcode) : list Z :=
  match op_of_Z (op x) with
  | Some OSwitch => op x :: write_operand (p1 x) ++ write_operand (p2 x) ++ write_extra (extra x) ++ write_operand (p3 x)
  | Some o =>
      if hl_op_nargs o =? -1
      then op x :: write_operand (p1 x) ++ write_operand (p2 x) ++ [default 0 (p3 x)] ++ write_extra (extra x)
      else op x :: write_operand (p1 x) ++ write_operand (p2 x) ++ write_operand (p3 x) ++ write_extra (extra x)
  | None => [op x]
  end.

Definition index_ok (v : Z) : Prop := - 2 ^ 29 < v < 2 ^ 29.
(** An opcode with exactly the operands of its arity, all of them representable. *)
Definition writable (x : hl_opcode) : Prop :=
  exists o, op_of_Z (op x) = Some o /\
  match hl_op_nargs o with
  | 0 => p1 x = None /\ p2 x = None /\ p3 x = None /\ extra x = ExtraNone
  | 1 => (exists a, p1 x = Some a /\ index_ok a) /\ p2 x = None /\ p3 x = None /\ extra x = ExtraNone
  | 2 => (exists a b, p1 x = Some a /\ p2 x = Some b /\ index_ok a /\ index_ok b) /\ p3 x = None /\ extra x = ExtraNone
  | 3 => (exists a b c, p1 x = Some a /\ p2 x = Some b /\ p3 x = Some c /\ index_ok a /\ index_ok b /\ index_ok c) /\
      extra x = ExtraNone
  | 4 => exists a b c d, p1 x = Some a /\ p2 x = Some b /\ p3 x = Some c /\ extra x = ExtraInt d /\
      index_ok a /\ index_ok b /\ index_ok c /\ index_ok d
  | -1 => exists a b c l, p1 x = Some a /\ p2 x = Some b /\ p3 x = Some c /\ extra x = ExtraArr l /\
      (if bool_decide (o = OSwitch) then
         0 <= a < 2 ^ 29 /\ b = alen l /\ 0 <= c < 2 ^ 29 /\ b < 2 ^ 28 /\ Forall (fun v => 0 <= v < 2 ^ 29) l
       else index_ok a /\ index_ok b /\ c = alen l /\ c < 256 /\ Forall index_ok l)
  | n => exists a b c l, p1 x = Some a /\ p2 x = Some b /\ p3 x = Some c /\ extra x = ExtraArr l /\
      index_ok a /\ index_ok b /\ index_ok c /\ alen l = n - 3 /\ Forall index_ok l
  end.

Lemma parses_extra k (idx : rd Z) (P : Z -> Prop) l : 0 <= k -> alen l = k -> k < 2 ^ 28 ->
  (forall v, P v -> parses (write_index v) idx v) -> Forall P l ->
  parses (concat (write_index <$> l)) (read_extra k idx) (ExtraArr l).
Proof.
  intros Hk Hl Hmax Hidx Hf. unfold read_extra. norm_pow2. apply parses_malloc; [unfold INT_MAX; lia|].
  apply parses_bind_last with (f := ExtraArr). rewrite <- Hl. apply parses_array. intros j v Hv.
  apply Hidx. rewrite Forall_forall in Hf. by apply Hf.
Qed.

Ltac parse_step :=
  first
    [ apply parses_ret
    | eapply parses_bind; [first [apply parses_index; done | apply parses_uindex; done | apply parses_b]|]
    | (match goal with |- parses ?l _ _ => rewrite <- (app_nil_r l) end);
      eapply parses_bind; [first [apply parses_index; done | apply parses_uindex; done]|] ].

Lemma parses_opcode x : writable x -> parses (write_opcode x) hl_read_opcode x.
Proof.
  destruct x as [c a b d e]. intros (o & Ho & Hx). unfold write_opcode, hl_read_opcode; simpl in Ho |- *.
  rewrite Ho.
  destruct o;
    (match type of Hx with context [hl_op_nargs ?x] =>
        let v := eval vm_compute in (hl_op_nargs x) in change (hl_op_nargs x) with v in *; cbv iota in Hx end);
    simpl in Hx; destruct_and?;
    repeat match goal with H : exists _, _ |- _ => destruct H as [? H]; destruct_and? end; subst;
    try (match goal with |- context [?a =? -1] =>
        let v := eval vm_compute in (a =? -1) in change (a =? -1) with v end); cbv iota;
    cbn [write_operand write_extra default app];
    (match goal with |- parses (?c :: ?l) _ _ => change (c :: l) with ([c] ++ l) end);
    (eapply parses_bind; [apply parses_b|]); rewrite Ho;
    (match goal with |- context [hl_op_nargs ?x] =>
        let v := eval vm_compute in (hl_op_nargs x) in change (hl_op_nargs x) with v end); cbv iota.
  all: repeat parse_step.
  all: try (match goal with |- parses (id ?k :: ?t) _ _ => change (id k :: t) with ([k] ++ t) end;
            eapply parses_bind; [apply parses_b|]).
  all: try (match goal with |- parses (_ ++ _) _ _ => idtac | |- parses ?l _ _ => rewrite <- (app_nil_r l) end;
    eapply parses_bind; [eapply (parses_extra _ _ index_ok); [(apply alen_nonneg || lia)|lia|norm_pow2; lia|apply parses_index|done]|apply parses_ret]).
  (* OSwitch *)
  pose proof (alen_nonneg x2). norm_pow2.
  eapply parses_bind; [apply parses_uindex; norm_pow2; lia|].
  eapply parses_bind; [eapply (parses_extra _ _ (fun v => 0 <= v < 2 ^ 29)); norm_pow2; try done; apply parses_uindex|].
  rewrite <- (app_nil_r (write_index _)). eapply parses_bind; [by apply parses_uindex|apply parses_ret].
Qed.

(** ** Functions *)
Definition write_function (f : hl_function) : list Z :=
  write_index (ftype f) ++ write_index (findex f) ++ write_index (nregs f) ++ write_index (nops f) ++
  concat (write_index <$> regs f) ++ concat (write_opcode <$> ops f).

Definition function_writable (ntypes : Z) (f : hl_function) : Prop :=
  0 <= ftype f < ntypes /\ 0 <= findex f < 2 ^ 29 /\ nregs f = alen (regs f) /\ nregs f < 2 ^ 26 /\
  nops f = alen (ops f) /\ nops f < 2 ^ 26 /\ Forall (fun t => 0 <= t < ntypes) (regs f) /\ Forall writable (ops f) /\
  debug f = [] /\ nassigns f = 0 /\ assigns f = [].

Lemma parses_function h f : ntypes h <= 2 ^ 29 -> function_writable (ntypes h) f ->
  parses (write_function f) (hl_read_function h) f.
Proof.
  intros Hn. destruct f as [fi nr no t rs os dbg na as_]. unfold function_writable, write_function; simpl.
  intros (Ht & Hfi & -> & Hnr & -> & Hno & Hrs & Hos & -> & -> & ->). unfold hl_read_function.
  pose proof (alen_nonneg rs). pose proof (alen_nonneg os). norm_pow2.
  eapply parses_bind; [apply parses_type; norm_pow2; done|].
  do 3 (eapply parses_bind; [apply parses_uindex; norm_pow2; lia|]).
  apply parses_malloc; [unfold INT_MAX; lia|].
  eapply parses_bind.
  { apply parses_array. intros j v Hv. rewrite Forall_forall in Hrs. apply parses_type; norm_pow2; auto. }
  apply parses_no_error. apply parses_malloc; [unfold INT_MAX; lia|].
  rewrite <- (app_nil_r (concat (write_opcode <$> os))). eapply parses_bind; [|apply parses_ret].
  apply parses_array. intros j x Hx. rewrite Forall_forall in Hos. by apply parses_opcode, Hos.
Qed.

(** ** Properties *)
(** C1. Reading a bytecode file ends, and what it returns is well formed.  For any bytes
    (up to 2^30), [hl_code_read] ends in one of three ways.  It returns an error message.
    Or it returns a code in which every type index is in the type table, except the
    superclass of a class, which the code does not check; every string lies in the string
    block and is followed by a zero there; every function has as many registers and
    opcodes as it declares, only known opcodes with all the operands of their arity,
    jumps other than those of [OSwitch] that land inside it, and, with debug
    information, as many positions as opcodes.  Or its behaviour is undefined, in one of
    six ways and no other: an access outside a block in the UTF-8 decoder ([BadString])
    or in the run-length loop of the debug positions ([DebugOverrun]); a read of the
    string block after it could not be filled ([UninitString]); an allocation whose size
    is truncated to an [int] ([BadAlloc], about the rest of which run nothing is said); a
    signed overflow ([IntOverflow]); or a name cache of 2^29 entries ([CacheFull]).  So
    no other access leaves its block, nothing else uninitialised is read, and no loop
    runs forever. *)
Theorem hl_code_read_safe junk junkl cache names data :
  cache_repr cache names -> Forall byte data -> alen data <= 2 ^ 30 ->
  match hl_code_read junk junkl cache data with
  | Ok (inl msg) _ => True
  | Ok (inr c) _ => code_ok c
  | Trap t => t = BadString \/ t = DebugOverrun \/ t = UninitString \/ t = BadAlloc \/ t = IntOverflow \/ t = CacheFull
  end.
Proof.
  intros Hc Hd Hl. unfold hl_code_read.
  assert (rok 0 (Reader data 0 None [] cache)) as Hr.
  { split; [simpl; pose proof (alen_nonneg data); lia|]. split; [done|]. split; [done|]. split; [done|].
    split; [constructor|]. by exists names. }
  pose proof (read_code_ends junk junkl _ Hr ltac:(done)) as H.
  destruct (read_code junk junkl _) as [[msg|c] r|t]; [done|exact H|]. destruct t; by auto 10.
Qed.

(** A version 7 file: one string, the types void and fun():void, two functions with
    debug positions, and stable identities for both of them. *)
Definition sample_file : list Z :=
  [72; 76; 66; 7] ++ (* counts *) [1; 1; 0; 1; 0; 2; 0; 0; 2; 0; 0] ++
  (* ints *) [42; 0; 0; 0] ++ (* strings *) [3; 0; 0; 0; 104; 105; 0; 2] ++
  (* bytes *) [0; 0; 0; 0] ++ (* debug files *) [1; 2; 0; 0; 0; 97; 0; 1] ++
  (* types *) [0] ++ [10; 0; 0] ++
  (* functions *)
  [1; 0; 1; 2; 0; op_num OInt; 0; 0; op_num ORet; 0] ++ [1; 0; 10; 0] ++
  [1; 1; 1; 2; 0; op_num OLabel; op_num OJAlways; 128 + 32; 2] ++ [1; 0; 10; 0] ++
  (* sections *) [1; 1; 1; 0; 20] ++ [2; 5; 0; 1; 102; 0; 0; 0; 0; 0; 0; 9; 1; 0; 0; 0; 0; 0; 0; 0].

Lemma sample_file_read :
  match hl_code_read 0 (FieldLookup [] 0 0) hl_cache_init sample_file with
  | Ok (inr c) _ => function_stable_ids (c_identities c) = [5; 9] /\ length (c_functions c) = 2%nat
  | _ => False
  end.
Proof. vm_compute. done. Qed.

Lemma hl_code_read_safe_witness :
  match hl_code_read 0 (FieldLookup [] 0 0) hl_cache_init sample_file with
  | Ok (inl msg) _ => True
  | Ok (inr c) _ => code_ok c
  | Trap t => t = BadString \/ t = DebugOverrun \/ t = UninitString \/ t = BadAlloc \/ t = IntOverflow \/ t = CacheFull
  end.
Proof.
  apply (hl_code_read_safe 0 (FieldLookup [] 0 0) hl_cache_init ∅ sample_file).
  - apply init_repr.
  - unfold byte. apply (Forall_impl (fun b => (0 <=? b) && (b <? 256) = true)); [|intros; zbool; lia].
    repeat constructor.
  - vm_compute. discriminate.
Defined.

(** The undefined behaviours do happen, on short files.  A file without strings whose type
    names string 0 dereferences the null table of decoded strings, right after recording
    the error. *)
Definition no_strings_file : list Z := [72; 76; 66; 4; 0; 0; 0; 0; 1; 0; 0; 0; 0; 0; 0; 0; 0; 0; HABSTRACT; 0].
(** A function of one opcode whose debug data repeats a position twice. *)
Definition overrun_file : list Z :=
  [72; 76; 66; 4; 1; 0; 0; 0; 1; 0; 0; 1; 0; 0; 0; 0; 0; 0; 0; 0; 0; 0; 0; HVOID; 0; 0; 0; 1; op_num OLabel; 10].
(** A version 4 file up to its strings, without integers. *)
Definition short_file (nfloats : list Z) (nstrings ntypes : Z) (rest : list Z) : list Z :=
  [72; 76; 66; 4; 0; 0] ++ nfloats ++ [nstrings; ntypes; 0; 0; 0; 0; 0] ++ rest.
(** A string block of five bytes of which one is there; 2^29 - 1 floats; a string block
    of 2^31 - 8 bytes. *)
Definition truncated_strings_file : list Z := short_file [0] 1 0 [5; 0; 0; 0; 0].
Definition many_floats_file : list Z := short_file [223; 255; 255; 255] 0 0 [].
Definition huge_strings_file : list Z := short_file [0] 0 0 [248; 255; 255; 127].
Definition read0 (data : list Z) : result (string + hl_code) := hl_code_read 0 (FieldLookup [] 0 0) hl_cache_init data.
Lemma hl_code_read_undefined :
  read0 no_strings_file = Trap BadString /\ read0 overrun_file = Trap DebugOverrun /\
  read0 truncated_strings_file = Trap UninitString /\ read0 many_floats_file = Trap BadAlloc /\
  read0 huge_strings_file = Trap IntOverflow.
Proof. repeat split; vm_compute; reflexivity. Qed.

(** The only class of a file, with type 9 as its superclass. *)
Definition wild_super_file : list Z := short_file [0] 1 1 [2; 0; 0; 0; 65; 0; 1; HOBJ; 0; 9; 0; 0; 0; 0].
Lemma superclass_not_checked :
  match read0 wild_super_file with
  | Ok (inr c) _ => exists o, tdata <$> c_types c = [TObj o] /\ o_super o = Some 9
  | _ => False
  end.
Proof. vm_compute. by eexists. Qed.

(** C21. Reading a function inverts writing it.  For every function all of whose
    operands are representable (29-bit indices, 8-bit argument counts) and whose
    types exist, [hl_read_function] on the bytes the compiler writes for it returns
    exactly that function, consumes exactly those bytes, records no error, and leaves
    the name tables alone. *)
Theorem hl_read_function_roundtrip h f pre post us cache :
  ntypes h <= 2 ^ 29 -> function_writable (ntypes h) f ->
  hl_read_function h (Reader (pre ++ write_function f ++ post) (alen pre) None us cache) =
    Ok f (Reader (pre ++ write_function f ++ post) (alen pre + alen (write_function f)) None us cache).
Proof. intros Hn Hf. apply (parses_function h f Hn Hf). split; [done|]. by exists pre, post. Qed.

Definition sample_header : header := Header 7 2 0 0 (Strings [] [] []) 0 (FieldLookup [] 0 0).
Definition sample_function : hl_function :=
  Function 300 2 3 1 [0; 1]
    [Opcode (op_num OCallN) (Some 1) (Some (-5)) (Some 2) (ExtraArr [0; 1000]);
     Opcode (op_num OSwitch) (Some 0) (Some 1) (Some 70000) (ExtraArr [1]);
     Opcode (op_num ORet) (Some 1) None None ExtraNone] [] 0 [].
Lemma sample_function_writable : function_writable 2 sample_function.
Proof.
  unfold function_writable, index_ok; simpl. norm_pow2. repeat split; try lia.
  - repeat constructor; lia.
  - apply Forall_cons; split; [|apply Forall_cons; split; [|apply Forall_cons; split; [|constructor]]].
    + exists OCallN. split; [by vm_compute|]. change (hl_op_nargs OCallN) with (-1). cbv iota.
      exists 1, (-5), 2, [0; 1000]. repeat split; rewrite ?bool_decide_false by done; unfold index_ok; norm_pow2; try lia.
      repeat split; try lia; try done. repeat constructor; lia.
    + exists OSwitch. split; [by vm_compute|]. change (hl_op_nargs OSwitch) with (-1). cbv iota.
      exists 0, 1, 70000, [1]. repeat split; rewrite ?bool_decide_true by done; norm_pow2; try lia.
      repeat split; try lia; try done. repeat constructor; lia.
    + exists ORet. split; [by vm_compute|]. change (hl_op_nargs ORet) with 1. cbv iota.
      split; [exists 1; split; [done|unfold index_ok; norm_pow2; lia]|done].
Qed.

Lemma hl_read_function_roundtrip_witness :
  hl_read_function sample_header (Reader ([7] ++ write_function sample_function ++ [9]) 1 None [] hl_cache_init) =
    Ok sample_function (Reader ([7] ++ write_function sample_function ++ [9])
                          (1 + alen (write_function sample_function)) None [] hl_cache_init).
Proof.
  apply (hl_read_function_roundtrip sample_header sample_function [7] [9] [] hl_cache_init).
  - vm_compute. discriminate.
  - exact sample_function_writable.
Defined.



(** A function of two opcodes that switches to opcode 1001 is accepted. *)
Definition wild_switch : hl_function :=
  Function 0 1 2 0 [0]
    [Opcode (op_num OSwitch) (Some 0) (Some 1) (Some 0) (ExtraArr [1000]);
     Opcode (op_num ORet) (Some 0) None None ExtraNone] [] 0 [].
Lemma switch_targets_not_checked :
  hl_validate_function_control_flow wild_switch = inr None /\
  jump_offsets <$> aget (ops wild_switch) 0 = Some [1000] /\ nops wild_switch = 2.
Proof. repeat split. Qed.

(** C24. The stable identities of a section are unique.  On tables with one entry per
    function, whatever identities earlier sections left in them,
    [hl_read_function_identities] finishes (the open-addressing probe never runs around
    a full table), the only undefined behaviour being an allocation that does not fit
    an [int].  It never changes the identity of a function that has one; the identities
    it gives are pairwise different and each goes to one function; and, unless it
    records an error, it gives as many as the section announces.  Identities given by
    different sections may be equal: each section has a table of its own. *)
Theorem function_identities_unique n fs data tbl r :
  rok n r -> Forall byte data -> alen data <= 2 ^ 30 ->
  Forall (fun f => 0 <= findex f < 536870912) fs -> tables_ok (alen fs) tbl ->
  match hl_read_function_identities fs data tbl r with
  | Ok tbl' r' =>
      let old := function_stable_ids tbl in
      let new := function_stable_ids tbl' in
      tables_ok (alen fs) tbl' /\
      (forall i, aget new i = aget old i \/ exists x, given old new i x) /\
      (forall i j x, given old new i x -> given old new j x -> i = j) /\
      exists ids, NoDup ids /\ (forall x, x ∈ ids <-> exists i, given old new i x) /\
        (r_error r' = None -> Z.of_nat (length ids) = identity_count data r)
  | Trap t => t = BadAlloc
  end.
Proof.
  intros Hr Hd Hl Hfs Ht.
  pose proof (identities_spec (fun t => t = BadAlloc) eq_refl n fs data tbl r Hr Hd Hl Hfs Ht) as H.
  destruct (hl_read_function_identities fs data tbl r) as [tbl' r'|t]; [|done].
  destruct H as (_ & _ & ids & (H1 & H2 & H3 & Hkept & Hids & Hinj) & Hn & Hlen). cbv zeta.
  split; [done|]. split; [done|]. split; [done|]. by exists ids.
Qed.

Definition identity_section : list Z := [2; 5; 0; 1; 102; 0; 0; 0; 0; 0; 0; 9; 1; 0; 0; 0; 0; 0; 0; 0].
Definition three_functions : list hl_function := [Function 0 0 0 0 [] [] [] 0 []; Function 1 0 0 0 [] [] [] 0 []; Function 2 0 0 0 [] [] [] 0 []].
(** The third function has identity 5 from an earlier section. *)
Definition earlier : identities := Identities [-1; -1; 5] [None; None; Some [0]] [0; 0; 0].
Lemma function_identities_unique_witness :
  match hl_read_function_identities three_functions identity_section earlier (Reader [] 0 None [] hl_cache_init) with
  | Ok tbl' r' =>
      let old := function_stable_ids earlier in
      let new := function_stable_ids tbl' in
      tables_ok 3 tbl' /\
      (forall i, aget new i = aget old i \/ exists x, given old new i x) /\
      (forall i j x, given old new i x -> given old new j x -> i = j) /\
      exists ids, NoDup ids /\ (forall x, x ∈ ids <-> exists i, given old new i x) /\
        (r_error r' = None -> Z.of_nat (length ids) = identity_count identity_section (Reader [] 0 None [] hl_cache_init))
  | Trap t => t = BadAlloc
  end.
Proof.
  apply (function_identities_unique 0 three_functions identity_section earlier (Reader [] 0 None [] hl_cache_init)).
  - split; [vm_compute; intuition discriminate|]. split; [vm_compute; discriminate|]. split; [constructor|].
    split; [done|]. split; [constructor|]. exists ∅. apply init_repr.
  - unfold byte. repeat constructor; lia.
  - vm_compute. discriminate.
  - repeat constructor; simpl; lia.
  - repeat split; reflexivity.
Defined.

(** On those tables the section leaves 5, 9, 5; and a whole file with two sections, each
    giving identity 5 to one function, is accepted. *)
Definition two_sections_file : list Z :=
  take (length sample_file - 25) sample_file ++ [2] ++
  [1; 1; 0; 10] ++ [1; 5; 0; 0; 0; 0; 0; 0; 0; 0] ++ [1; 1; 0; 10] ++ [1; 5; 1; 0; 0; 0; 0; 0; 0; 0].
Lemma identities_of_two_sections :
  match hl_read_function_identities three_functions identity_section earlier (Reader [] 0 None [] hl_cache_init) with
  | Ok tbl r => function_stable_ids tbl = [5; 9; 5] /\ r_error r = None
  | _ => False
  end /\
  match read0 two_sections_file with
  | Ok (inr c) _ => function_stable_ids (c_identities c) = [5; 5]
  | _ => False
  end.
Proof. vm_compute. repeat split; reflexivity. Qed.

