(* ===== verification/CodeHash.v ===== *)
(** * Program hashes for hot reload ([src/code.c], lines 656-1236)

    [hl_code_hash_alloc] and [hl_code_hash_finalize] give every type, global and
    function of a program a 32-bit signature; [hl_code_hash_remap_globals] renumbers
    the globals of a new version of a program so that those it shares with the old
    version keep their slots.  An access outside an array, or to memory nothing was
    written to, is [None]. *)
From S2P Require Import Prelude Opcodes Ustr Unicode Lookup Reader.

(** ** The hash step *)
Definition crc32_table : list Z :=
  [0x00000000; 0x04c11db7; 0x09823b6e; 0x0d4326d9; 0x130476dc; 0x17c56b6b; 0x1a864db2; 0x1e475005;
   0x2608edb8; 0x22c9f00f; 0x2f8ad6d6; 0x2b4bcb61; 0x350c9b64; 0x31cd86d3; 0x3c8ea00a; 0x384fbdbd;
   0x4c11db70; 0x48d0c6c7; 0x4593e01e; 0x4152fda9; 0x5f15adac; 0x5bd4b01b; 0x569796c2; 0x52568b75;
   0x6a1936c8; 0x6ed82b7f; 0x639b0da6; 0x675a1011; 0x791d4014; 0x7ddc5da3; 0x709f7b7a; 0x745e66cd;
   0x9823b6e0; 0x9ce2ab57; 0x91a18d8e; 0x95609039; 0x8b27c03c; 0x8fe6dd8b; 0x82a5fb52; 0x8664e6e5;
   0xbe2b5b58; 0xbaea46ef; 0xb7a96036; 0xb3687d81; 0xad2f2d84; 0xa9ee3033; 0xa4ad16ea; 0xa06c0b5d;
   0xd4326d90; 0xd0f37027; 0xddb056fe; 0xd9714b49; 0xc7361b4c; 0xc3f706fb; 0xceb42022; 0xca753d95;
   0xf23a8028; 0xf6fb9d9f; 0xfbb8bb46; 0xff79a6f1; 0xe13ef6f4; 0xe5ffeb43; 0xe8bccd9a; 0xec7dd02d;
   0x34867077; 0x30476dc0; 0x3d044b19; 0x39c556ae; 0x278206ab; 0x23431b1c; 0x2e003dc5; 0x2ac12072;
   0x128e9dcf; 0x164f8078; 0x1b0ca6a1; 0x1fcdbb16; 0x018aeb13; 0x054bf6a4; 0x0808d07d; 0x0cc9cdca;
   0x7897ab07; 0x7c56b6b0; 0x71159069; 0x75d48dde; 0x6b93dddb; 0x6f52c06c; 0x6211e6b5; 0x66d0fb02;
   0x5e9f46bf; 0x5a5e5b08; 0x571d7dd1; 0x53dc6066; 0x4d9b3063; 0x495a2dd4; 0x44190b0d; 0x40d816ba;
   0xaca5c697; 0xa864db20; 0xa527fdf9; 0xa1e6e04e; 0xbfa1b04b; 0xbb60adfc; 0xb6238b25; 0xb2e29692;
   0x8aad2b2f; 0x8e6c3698; 0x832f1041; 0x87ee0df6; 0x99a95df3; 0x9d684044; 0x902b669d; 0x94ea7b2a;
   0xe0b41de7; 0xe4750050; 0xe9362689; 0xedf73b3e; 0xf3b06b3b; 0xf771768c; 0xfa325055; 0xfef34de2;
   0xc6bcf05f; 0xc27dede8; 0xcf3ecb31; 0xcbffd686; 0xd5b88683; 0xd1799b34; 0xdc3abded; 0xd8fba05a;
   0x690ce0ee; 0x6dcdfd59; 0x608edb80; 0x644fc637; 0x7a089632; 0x7ec98b85; 0x738aad5c; 0x774bb0eb;
   0x4f040d56; 0x4bc510e1; 0x46863638; 0x42472b8f; 0x5c007b8a; 0x58c1663d; 0x558240e4; 0x51435d53;
   0x251d3b9e; 0x21dc2629; 0x2c9f00f0; 0x285e1d47; 0x36194d42; 0x32d850f5; 0x3f9b762c; 0x3b5a6b9b;
   0x0315d626; 0x07d4cb91; 0x0a97ed48; 0x0e56f0ff; 0x1011a0fa; 0x14d0bd4d; 0x19939b94; 0x1d528623;
   0xf12f560e; 0xf5ee4bb9; 0xf8ad6d60; 0xfc6c70d7; 0xe22b20d2; 0xe6ea3d65; 0xeba91bbc; 0xef68060b;
   0xd727bbb6; 0xd3e6a601; 0xdea580d8; 0xda649d6f; 0xc423cd6a; 0xc0e2d0dd; 0xcda1f604; 0xc960ebb3;
   0xbd3e8d7e; 0xb9ff90c9; 0xb4bcb610; 0xb07daba7; 0xae3afba2; 0xaafbe615; 0xa7b8c0cc; 0xa379dd7b;
   0x9b3660c6; 0x9ff77d71; 0x92b45ba8; 0x9675461f; 0x8832161a; 0x8cf30bad; 0x81b02d74; 0x857130c3;
   0x5d8a9099; 0x594b8d2e; 0x5408abf7; 0x50c9b640; 0x4e8ee645; 0x4a4ffbf2; 0x470cdd2b; 0x43cdc09c;
   0x7b827d21; 0x7f436096; 0x7200464f; 0x76c15bf8; 0x68860bfd; 0x6c47164a; 0x61043093; 0x65c52d24;
   0x119b4be9; 0x155a565e; 0x18197087; 0x1cd86d30; 0x029f3d35; 0x065e2082; 0x0b1d065b; 0x0fdc1bec;
   0x3793a651; 0x3352bbe6; 0x3e119d3f; 0x3ad08088; 0x2497d08d; 0x2056cd3a; 0x2d15ebe3; 0x29d4f654;
   0xc5a92679; 0xc1683bce; 0xcc2b1d17; 0xc8ea00a0; 0xd6ad50a5; 0xd26c4d12; 0xdf2f6bcb; 0xdbee767c;
   0xe3a1cbc1; 0xe760d676; 0xea23f0af; 0xeee2ed18; 0xf0a5bd1d; 0xf464a0aa; 0xf9278673; 0xfde69bc4;
   0x89b8fd09; 0x8d79e0be; 0x803ac667; 0x84fbdbd0; 0x9abc8bd5; 0x9e7d9662; 0x933eb0bb; 0x97ffad0c;
   0xafb010b1; 0xab710d06; 0xa6322bdf; 0xa2f33668; 0xbcb4666d; 0xb8757bda; 0xb5365d03; 0xb1f740b4].

(** [#define H(b) hash = (hash >> 8) ^ crc32_table[(hash ^ (b)) & 0xFF]]: [hash] is an
    [int], so the shift keeps its sign; the unsigned result is stored back in an [int]. *)
Definition H (hash b : Z) : option Z :=
  x ← aget crc32_table (Z.land (Z.lxor hash b) 255);
  Some (i32 (Z.lxor (Z.shiftr hash 8) x)).
Definition H32 (hash i : Z) : option Z :=
  hash ← H hash (Z.land i 255);
  hash ← H hash (Z.land (Z.shiftr i 8) 255);
  hash ← H hash (Z.land (Z.shiftr i 16) 255);
  H hash (Z.shiftr (u32 i) 24).
(** [while( *_c ) H( *_c++ )], on the cells from the pointer to the end of its block. *)
Fixpoint HSTR (hash : Z) (s : list Z) : option Z :=
  match s with
  | [] => None
  | c :: s => if c =? 0 then Some hash else hash ← H hash c; HSTR hash s
  end.

(** [for(i=0;i<n;i++) hash = f(l[i])] *)
Definition hash_each {A} (f : Z -> A -> option Z) (l : list A) (n hash : Z) : option Z :=
  afor (fun i hash => x ← aget l i; f hash x) (Z.to_nat n) 0 hash.

(** The members of the unions of [hl_type] and [hl_opcode]. *)
Definition as_fun (t : hl_type) : option hl_type_fun := match tdata t with TFun f => Some f | _ => None end.
Definition as_obj (t : hl_type) : option hl_type_obj := match tdata t with TObj o => Some o | _ => None end.
Definition as_virt (t : hl_type) : option (list hl_obj_field) := match tdata t with TVirt f => Some f | _ => None end.
Definition as_abs (t : hl_type) : option (list Z) := match tdata t with TAbs n => Some n | _ => None end.
Definition as_enum (t : hl_type) : option hl_type_enum := match tdata t with TEnum e => Some e | _ => None end.
Definition as_param (t : hl_type) : option Z := match tdata t with TParam t => Some t | _ => None end.
Definition extra_arr (x : hl_opcode) : option (list Z) := match extra x with ExtraArr l => Some l | _ => None end.
Definition extra_int (x : hl_opcode) : option Z := match extra x with ExtraInt i => Some i | _ => None end.

(** ** Hashes of types *)
(** The body of [hash_type_first]; [htype hash t] is its macro [HTYPE]. *)
Definition hash_type_body (htype : Z -> Z -> option Z) (t : hl_type) : option Z :=
  hash ← H (-1) (kind t);
  let k := kind t in
  if (k =? HFUN) || (k =? HMETHOD) then
    f ← as_fun t;
    hash ← H hash (fun_nargs f);
    hash ← hash_each htype (fun_args f) (fun_nargs f) hash;
    htype hash (fun_ret f)
  else if (k =? HOBJ) || (k =? HSTRUCT) then
    o ← as_obj t;
    hash ← HSTR hash (o_name o);
    hash ← H32 hash (o_nfields o);
    hash ← H32 hash (o_nproto o);
    hash_each (fun hash f => hash ← H32 hash (f_hashed_name f); htype hash (f_t f)) (o_fields o) (o_nfields o) hash
  else if (k =? HREF) || (k =? HNULL) then
    p ← as_param t; htype hash p
  else if k =? HVIRTUAL then
    fs ← as_virt t;
    hash ← H32 hash (alen fs);
    hash_each (fun hash f => hash ← H32 hash (f_hashed_name f); htype hash (f_t f)) fs (alen fs) hash
  else if k =? HENUM then
    e ← as_enum t;
    hash ← HSTR hash (e_name e);
    hash_each (fun hash c =>
        hash ← H hash (c_nparams c);
        hash ← HSTR hash (c_name c);
        hash_each htype (c_params c) (c_nparams c) hash)
      (e_constructs e) (e_nconstructs e) hash
  else if k =? HABSTRACT then
    n ← as_abs t; HSTR hash n
  else Some hash.

(** [if( !isrec ) H32(hash_type_first(t,true))]: the recursion stops at depth one. *)
Definition hash_type_first (types : list hl_type) (isrec : bool) (t : hl_type) : option Z :=
  if isrec then hash_type_body (fun hash _ => Some hash) t
  else hash_type_body (fun hash i =>
         ti ← aget types i;
         x ← hash_type_body (fun hash _ => Some hash) ti;
         H32 hash x) t.

(** [#define HTYPE(t) H32(h->types_hashes[t - h->code->types])] *)
Definition htype (types_hashes : list Z) (hash t : Z) : option Z :=
  x ← aget types_hashes t; H32 hash x.

Definition hash_type_rec (types_hashes : list Z) (t : hl_type) : option Z :=
  let k := kind t in
  let htype := htype types_hashes in
  if (k =? HFUN) || (k =? HMETHOD) then
    f ← as_fun t;
    hash ← hash_each htype (fun_args f) (fun_nargs f) (-1);
    htype hash (fun_ret f)
  else if (k =? HOBJ) || (k =? HSTRUCT) then
    o ← as_obj t; hash_each (fun hash f => htype hash (f_t f)) (o_fields o) (o_nfields o) (-1)
  else if (k =? HREF) || (k =? HNULL) then
    p ← as_param t; htype (-1) p
  else if k =? HVIRTUAL then
    fs ← as_virt t; hash_each (fun hash f => htype hash (f_t f)) fs (alen fs) (-1)
  else if k =? HENUM then
    e ← as_enum t;
    hash_each (fun hash c => hash_each htype (c_params c) (c_nparams c) hash) (e_constructs e) (e_nconstructs e) (-1)
  else Some (-1).

Definition hl_code_hash_type (types_hashes : list Z) (t : Z) : option Z := htype types_hashes (-1) t.

(** [h->types_hashes] once both passes are done: the second pass goes into a second
    buffer, so that it only reads results of the first one. *)
Definition hash_types (types : list hl_type) : option (list Z) :=
  first ← mapM (hash_type_first types false) types;
  mapM (fun '(t, x) => y ← hash_type_rec first t; Some (Z.lxor x y)) (zip types first).

(** ** Hashes of functions *)
(** What [f->obj], [f->field] and [f->ref] hold once the module is set up: a method or
    field of an object, a closure of such a function, or neither. *)
Inductive fun_field :=
  | FObj (obj_name field_name : list Z)
  | FRef (obj_name field_name : list Z) (ref : Z)
  | FNone.

Record hl_code_hash := CodeHash
  { types_hashes : list Z; globals_signs : list Z;
    functions_signs : list Z; functions_hashes : list Z;
    functions_indexes : list (option Z) (* [None]: [malloc]ed and not written *) }.

(** [c->strings[i]]: the cells of the string block from the string on. *)
Definition c_string (c : hl_code) (i : Z) : option (list Z) :=
  p ← aget (spos (c_strings c)) i; Some (drop (Z.to_nat p) (sbase (c_strings c))).

Section functions.
Context (c : hl_code) (h : hl_code_hash).

(** [libname] and [fname] of a native are offsets in the string block. *)
Definition block_at (p : Z) : list Z := drop (Z.to_nat p) (sbase (c_strings c)).

Definition hash_native (n : hl_native) : option Z :=
  hash ← HSTR (-1) (block_at (lib n));
  hash ← HSTR hash (block_at (n_name n));
  htype (types_hashes h) hash (n_t n).

Definition hash_fun_sign (f : hl_function) (field : fun_field) : option Z :=
  hash ← htype (types_hashes h) (-1) (ftype f);
  match field with
  | FObj o n => hash ← HSTR hash o; HSTR hash n
  | FRef o n ref => hash ← HSTR hash o; hash ← HSTR hash n; H32 hash ref
  | FNone => Some hash
  end.

(** [#define HFUN(idx) H32(h->functions_signs[h->functions_indexes[idx]])] *)
Definition hfun (hash idx : Z) : option Z :=
  i ← aget (functions_indexes h) idx; i ← i; x ← aget (functions_signs h) i; H32 hash x.

(** Half [w] of the float at [i]: [((int* )c->floats)[(i<<1)|w]]. *)
Definition float_word (i w : Z) : option Z :=
  x ← aget (c_floats c) i; Some (i32 (Z.shiftr x (32 * w))).

(** The operands of the opcodes without a case of their own, by arity. *)
Definition hash_operands (hash : Z) (k : hl_op) (o : hl_opcode) : option Z :=
  match hl_op_nargs k with
  | 0 => Some hash
  | 1 => a ← p1 o; H32 hash a
  | 2 => a ← p1 o; hash ← H32 hash a; b ← p2 o; H32 hash b
  | 3 => a ← p1 o; hash ← H32 hash a; b ← p2 o; hash ← H32 hash b; d ← p3 o; H32 hash d
  | 4 => a ← p1 o; hash ← H32 hash a; b ← p2 o; hash ← H32 hash b; d ← p3 o; hash ← H32 hash d;
         e ← extra_int o; H32 hash e
  | -1 =>
      match k with
      | OCallClosure | OCallMethod | OCallThis | OMakeEnum =>
          a ← p1 o; hash ← H32 hash a; b ← p2 o; hash ← H32 hash b; d ← p3 o; hash ← H32 hash d;
          ex ← extra_arr o; hash_each H32 ex d hash
      | OSwitch =>
          a ← p1 o; hash ← H32 hash a; b ← p2 o; hash ← H32 hash b;
          ex ← extra_arr o; hash ← hash_each H32 ex b hash; d ← p3 o; H32 hash d
      | _ => Some hash (* printf("Don't know how to process opcode %d",o->op) *)
      end
  | n =>
      a ← p1 o; hash ← H32 hash a; b ← p2 o; hash ← H32 hash b; d ← p3 o; hash ← H32 hash d;
      ex ← extra_arr o; hash_each H32 ex (n - 3) hash
  end.

Definition hash_opcode (hash : Z) (o : hl_opcode) : option Z :=
  hash ← H hash (op o);
  k ← op_of_Z (op o);
  match k with
  | OInt => a ← p1 o; hash ← H32 hash a; b ← p2 o; x ← aget (c_ints c) b; H32 hash x
  | OFloat => a ← p1 o; hash ← H32 hash a; b ← p2 o;
      x ← float_word b 0; hash ← H32 hash x; x ← float_word b 1; H32 hash x
  | OString => a ← p1 o; hash ← H32 hash a; b ← p2 o; s ← c_string c b; HSTR hash s
  | OType => a ← p1 o; hash ← H32 hash a; b ← p2 o; htype (types_hashes h) hash b
  | OCall0 | OStaticClosure => a ← p1 o; hash ← H32 hash a; b ← p2 o; hfun hash b
  | OCall1 | OInstanceClosure =>
      a ← p1 o; hash ← H32 hash a; b ← p2 o; hash ← hfun hash b; d ← p3 o; H32 hash d
  | OCall2 =>
      a ← p1 o; hash ← H32 hash a; b ← p2 o; hash ← hfun hash b; d ← p3 o; hash ← H32 hash d;
      e ← extra_int o; H32 hash e
  | OCall3 =>
      a ← p1 o; hash ← H32 hash a; b ← p2 o; hash ← hfun hash b; d ← p3 o; hash ← H32 hash d;
      ex ← extra_arr o; hash_each H32 ex 2 hash
  | OCall4 =>
      a ← p1 o; hash ← H32 hash a; b ← p2 o; hash ← hfun hash b; d ← p3 o; hash ← H32 hash d;
      ex ← extra_arr o; hash_each H32 ex 3 hash
  | OCallN =>
      a ← p1 o; hash ← H32 hash a; b ← p2 o; hash ← hfun hash b; d ← p3 o; hash ← H32 hash d;
      ex ← extra_arr o; hash_each H32 ex d hash
  | ODynGet => a ← p1 o; hash ← H32 hash a; b ← p2 o; hash ← H32 hash b; d ← p3 o; s ← c_string c d; HSTR hash s
  | ODynSet => a ← p1 o; hash ← H32 hash a; b ← p2 o; s ← c_string c b; hash ← HSTR hash s; d ← p3 o; H32 hash d
  | _ => hash_operands hash k o
  end.

Definition hash_fun (f : hl_function) : option Z :=
  hash ← hash_each (htype (types_hashes h)) (regs f) (nregs f) (-1);
  hash_each hash_opcode (ops f) (nops f) hash.
End functions.

(** [fields] is what the module loader stored in each function. *)
Definition hl_code_hash_finalize (c : hl_code) (fields : list fun_field) (h : hl_code_hash) : option hl_code_hash :=
  fsigns ← mapM (fun '(f, fd) => hash_fun_sign h f fd) (zip (c_functions c) fields);
  nsigns ← mapM (hash_native c h) (c_natives c);
  let h1 := CodeHash (types_hashes h) (globals_signs h) (fsigns ++ nsigns) (functions_hashes h) (functions_indexes h) in
  hashes ← mapM (hash_fun c h1) (c_functions c);
  Some (CodeHash (types_hashes h) (globals_signs h) (fsigns ++ nsigns) hashes (functions_indexes h)).

(** ** Allocation: signatures of types and globals *)
(** [for(i...) indexes[findex] = base + i] *)
Definition index_all (fis : list Z) (base : Z) (ix : list (option Z)) : option (list (option Z)) :=
  afor (fun i ix => fi ← aget fis i; aset ix fi (Some (base + i))) (length fis) 0 ix.

Definition function_indexes (c : hl_code) : option (list (option Z)) :=
  let n := alen (c_functions c) + alen (c_natives c) in
  ix ← index_all (findex <$> c_functions c) 0 (replicate (Z.to_nat n) None);
  index_all (n_findex <$> c_natives c) (alen (c_functions c)) ix.

(** The initial sign: the index, marked; or the hash of an abstract. *)
Definition global_sign0 (c : hl_code) (th : list Z) (i g : Z) : option Z :=
  t ← aget (c_types c) g;
  if kind t =? HABSTRACT then hl_code_hash_type th g else Some (i32 (Z.lor i 0x80000000)).

Definition global_value_of (t : hl_type) : option Z :=
  if (kind t =? HOBJ) || (kind t =? HSTRUCT) then o ← as_obj t; Some (o_global_value o)
  else if kind t =? HENUM then e ← as_enum t; Some (e_global_value e)
  else Some 0.
(** The globals that hold a class or an enum. *)
Definition sign_types (c : hl_code) (th signs : list Z) : option (list Z) :=
  afor (fun i signs =>
      t ← aget (c_types c) i;
      g ← global_value_of t;
      if g =? 0 then Some signs
      else x ← hl_code_hash_type th i; aset signs (g - 1) x)
    (length (c_types c)) 0 signs.

Definition hash_constant (c : hl_code) (k : hl_constant) : option Z :=
  g ← aget (c_globals c) (global k);
  t ← aget (c_types c) g;
  afor (fun j hash =>
      index ← aget (k_fields k) j;
      o ← as_obj t;
      f ← aget (o_fields o) j;
      ft ← aget (c_types c) (f_t f);
      if kind ft =? HI32 then x ← aget (c_ints c) index; H32 hash x
      else if kind ft =? HBYTES then s ← c_string c index; HSTR hash s
      else Some hash)
    (Z.to_nat (k_nfields k)) 0 (-1).
Definition sign_constants (c : hl_code) (signs : list Z) : option (list Z) :=
  afor (fun i signs =>
      k ← aget (c_constants c) i; x ← hash_constant c k; aset signs (global k) x)
    (length (c_constants c)) 0 signs.

(** The boot code: a global set from the [OInt] and [OGetArray] three and two
    opcodes before is a constant enum constructor. *)
Definition sign_boot_op (c : hl_code) (os : list hl_opcode) (i : Z) (signs : list Z) : option (list Z) :=
  o ← aget os i;
  if op o =? op_num OSetGlobal then
    a ← p1 o;
    g ← aget (c_globals c) a;
    t ← aget (c_types c) g;
    if kind t =? HENUM then
      o2 ← aget os (i - 2);
      if op o2 =? op_num OGetArray then
        o3 ← aget os (i - 3);
        if op o3 =? op_num OInt then
          b ← p2 o3; x ← aget (c_ints c) b; aset signs a x
        else Some signs
      else Some signs
    else Some signs
  else Some signs.
Definition sign_boot (c : hl_code) (ix : list (option Z)) (signs : list Z) : option (list Z) :=
  i ← aget ix (c_entrypoint c); i ← i;
  f ← aget (c_functions c) i;
  afor (sign_boot_op c (ops f)) (Z.to_nat (nops f - 4)) 4 signs.

Definition hl_code_hash_alloc (c : hl_code) : option hl_code_hash :=
  ix ← function_indexes c;
  th ← hash_types (c_types c);
  signs ← mapM (fun '(i, g) => global_sign0 c th i g) (zip (seqZ 0 (alen (c_globals c))) (c_globals c));
  signs ← sign_types c th signs;
  signs ← sign_constants c signs;
  signs ← sign_boot c ix signs;
  signs ← mapM (fun '(s, g) => x ← hl_code_hash_type th g; Some (Z.lxor s x)) (zip signs (c_globals c));
  Some (CodeHash th signs [] [] ix).

(** ** Remapping globals *)
Section remap.
(** [G] is the type of pointers to types: after a remap the globals point to types of
    both programs, and to [hlt_void]. *)
Context {G : Type} (hlt_void : G).

(** [for(k=old_start;k<old_count;k++) if( hold->globals_signs[k] == h ) ...] *)
Definition remap_scan (old_signs : list Z) (h old_start : Z) : option (option Z) :=
  loop (fun k => if k <? alen old_signs then
                   s ← aget old_signs k;
                   if s =? h then Some (inr (Some k)) else Some (inl (k + 1))
                 else Some (inr None))
       (S (length old_signs)) old_start.
Definition remap_step (old_signs signs : list Z) (i : Z) (st : Z * list Z) : option (Z * list Z) :=
  let '(old_start, remap) := st in
  h ← aget signs i;
  r ← remap_scan old_signs h old_start;
  match r with
  | Some k => Some (if k =? old_start then old_start + 1 else old_start, remap ++ [k])
  | None => Some (old_start, remap ++ [-1])
  end.
Definition remap_known (old_signs signs : list Z) : option (list Z) :=
  '(_, remap) ← afor (remap_step old_signs signs) (length signs) 0 (0, []);
  Some remap.
(** [if( remap[i] == -1 ) remap[i] = old_count + extra++] *)
Definition remap_new (old_count extra : Z) (remap : list Z) : option (Z * list Z) :=
  afor (fun i '(extra, remap) =>
      k ← aget remap i;
      if k =? -1 then remap ← aset remap i (old_count + extra); Some (extra + 1, remap)
      else Some (extra, remap))
    (length remap) 0 (extra, remap).
Definition remap_table (old_signs signs : list Z) : option (Z * list Z) :=
  remap ← remap_known old_signs signs;
  let extra := alen old_signs - alen signs in
  remap_new (alen old_signs) (if extra <? 0 then 0 else extra) remap.

(** [for(i=0;i<n;i++) dst[remap[i]] = src[i]] *)
Definition scatter {A} (remap : list Z) (src dst : list A) : option (list A) :=
  afor (fun i dst => k ← aget remap i; x ← aget src i; aset dst k x) (length src) 0 dst.

(** [if( p ) p = remap[p - 1] + 1] *)
Definition remap_value (remap : list Z) (v : Z) : option Z :=
  if v =? 0 then Some 0 else k ← aget remap (v - 1); Some (k + 1).
Definition remap_type (remap : list Z) (t : hl_type) : option hl_type :=
  if (kind t =? HSTRUCT) || (kind t =? HOBJ) then
    o ← as_obj t;
    v ← remap_value remap (o_global_value o);
    Some (Type_ (kind t) (TObj (TypeObj (o_nfields o) (o_nproto o) (o_nbindings o) (o_name o) (o_super o)
                                  (o_fields o) (o_proto o) (o_bindings o) v)))
  else if kind t =? HENUM then
    e ← as_enum t;
    v ← remap_value remap (e_global_value e);
    Some (Type_ (kind t) (TEnum (TypeEnum (e_name e) (e_nconstructs e) (e_constructs e) v)))
  else Some t.
Definition remap_constant (remap : list Z) (k : hl_constant) : option hl_constant :=
  g ← aget remap (global k); Some (Constant g (k_nfields k) (k_fields k)).
Definition remap_opcode (remap : list Z) (o : hl_opcode) : option hl_opcode :=
  if op o =? op_num OGetGlobal then
    b ← p2 o; g ← aget remap b; Some (Opcode (op o) (p1 o) (Some g) (p3 o) (extra o))
  else if op o =? op_num OSetGlobal then
    a ← p1 o; g ← aget remap a; Some (Opcode (op o) (Some g) (p2 o) (p3 o) (extra o))
  else Some o.
Definition remap_function (remap : list Z) (f : hl_function) : option hl_function :=
  os ← mapM (remap_opcode remap) (ops f);
  Some (Function (findex f) (nregs f) (nops f) (ftype f) (regs f) os (debug f) (nassigns f) (assigns f)).

(** The new program, its globals and their signatures. *)
Record remapped := Remapped
  { r_types : list hl_type; r_constants : list hl_constant; r_functions : list hl_function;
    r_globals : list G; r_signs : list Z }.

Definition hl_code_hash_remap_globals (c : hl_code) (globals : list G) (signs : list Z)
    (old_globals : list G) (old_signs : list Z) : option remapped :=
  '(extra, remap) ← remap_table old_signs signs;
  let fresh {A} (x : A) := replicate (Z.to_nat extra) x in
  nglobals ← scatter remap globals (old_globals ++ fresh hlt_void);
  nsigns ← scatter remap signs (old_signs ++ fresh (-1));
  types ← mapM (remap_type remap) (c_types c);
  constants ← mapM (remap_constant remap) (c_constants c);
  functions ← mapM (remap_function remap) (c_functions c);
  Some (Remapped types constants functions nglobals nsigns).
End remap.
