(* ===== verification/CodeHashProps.v ===== *)
(** * Theorems on the program hashes

    The hash step loses no information (a change of one word always changes the
    hash); hashes of types do not depend on the order of the type table; remapping
    the globals of a new program keeps every access on its global and every global
    the old program has in its slot. *)
From S2P Require Import Prelude Opcodes Ustr Unicode Lookup Reader ReaderSpec ReaderCode CodeHash.

(** ** The hash step *)
(** One row of the table: the byte at the top of a 32-bit register, shifted out bit by
    bit with the polynomial of CRC-32. *)
Definition crc_poly : Z := 0x04c11db7.
Definition crc_bit (x : Z) : Z :=
  if Z.testbit x 31 then Z.lxor (u32 (Z.shiftl x 1)) crc_poly else Z.shiftl x 1.
Definition crc_row (i : Z) : Z := Nat.iter 8 crc_bit (Z.shiftl i 24).

Lemma crc_row_range i : 0 <= i < 256 -> aget crc32_table i = Some (crc_row i) /\ 0 <= crc_row i < 2 ^ 32.
Proof.
  intros Hi. assert (match aget crc32_table i with Some x => x =? crc_row i | None => false end &&
    ((0 <=? crc_row i) && (crc_row i <? 2 ^ 32)) = true) as H1.
  { revert i Hi. apply (range_forall _ 0 256). vm_compute. reflexivity. }
  zbool. destruct (aget crc32_table i); [|done]. zbool. by subst.
Qed.

Lemma crc_row_high i k : 0 <= i < 256 -> 32 <= k -> Z.testbit (crc_row i) k = false.
Proof.
  intros Hi Hk. destruct (crc_row_range i Hi) as [_ Hr].
  assert (2 ^ 32 <= 2 ^ k) by (apply Z.pow_le_mono_r; lia).
  destruct (decide (crc_row i = 0)) as [->|]; [apply Z.bits_0|].
  apply Z.bits_above_log2; [lia|]. apply Z.log2_lt_pow2; lia.
Qed.

Lemma land_255 x : 0 <= Z.land x 255 < 256.
Proof. rewrite (land_mask 8) by done. apply Z.mod_pos_bound. done. Qed.

Definition step (hash b : Z) : Z :=
  i32 (Z.lxor (Z.shiftr hash 8) (crc_row (Z.land (Z.lxor hash b) 255))).
Lemma H_step hash b : H hash b = Some (step hash b).
Proof. unfold H. by rewrite (proj1 (crc_row_range _ (land_255 _))). Qed.

(** Bits of signed 32-bit integers. *)
Lemma i32_bits x k : 0 <= k < 32 -> Z.testbit (i32 x) k = Z.testbit x k.
Proof.
  intros Hk. rewrite <- (Z.mod_pow2_bits_low (i32 x) 32 k), <- (Z.mod_pow2_bits_low x 32 k) by lia.
  f_equal. by apply (uN_wrapN 32).
Qed.
Lemma in_i32_sign x k : in_i32 x -> 31 <= k -> Z.testbit x k = (x <? 0).
Proof.
  unfold in_i32, INT_MIN, INT_MAX. intros Hx Hk.
  assert (2 ^ 31 <= 2 ^ k) by (apply Z.pow_le_mono_r; lia). norm_pow2.
  destruct (x <? 0) eqn:E; zbool.
  - rewrite <- (Z.lnot_involutive x), Z.lnot_spec by lia. apply negb_true_iff.
    rewrite Z.bits_above_log2; [done|unfold Z.lnot; lia|].
    destruct (decide (Z.lnot x = 0)) as [->|]; [simpl; lia|]. apply Z.log2_lt_pow2; unfold Z.lnot in *; lia.
  - destruct (decide (x = 0)) as [->|]; [apply Z.bits_0|].
    apply Z.bits_above_log2; [lia|]. apply Z.log2_lt_pow2; lia.
Qed.
Lemma i32_ext x y : in_i32 x -> in_i32 y ->
  (forall k, 0 <= k < 32 -> Z.testbit x k = Z.testbit y k) -> x = y.
Proof.
  intros Hx Hy Hb. apply Z.bits_inj'. intros k Hk. destruct (decide (k < 32)); [apply Hb; lia|].
  rewrite !in_i32_sign by (done || lia). rewrite <- (in_i32_sign x 31), <- (in_i32_sign y 31) by (done || lia).
  apply Hb. lia.
Qed.

Lemma step_in hash b : in_i32 (step hash b).
Proof. apply i32_in. Qed.
Lemma step_bits hash b k : 0 <= k < 32 ->
  Z.testbit (step hash b) k = xorb (Z.testbit hash (k + 8)) (Z.testbit (crc_row (Z.land (Z.lxor hash b) 255)) k).
Proof. intros. unfold step. rewrite i32_bits by done. by rewrite Z.lxor_spec, Z.shiftr_spec by lia. Qed.

(** The nine top bits of a step determine the table row and the sign it started from. *)
Definition top9 (s : bool) (i : Z) : Z := Z.lxor (Z.shiftr (crc_row i) 23) (if s then 511 else 0).
Definition rows9 (s : bool) : list (Z * Z) := (fun i => (i, top9 s i)) <$> seqZ 0 256.
Lemma rows9_in s i : 0 <= i < 256 -> In (i, top9 s i) (rows9 s).
Proof.
  intros Hi. apply list_elem_of_In. unfold rows9. apply list_elem_of_fmap. exists i. split; [done|].
  apply elem_of_seqZ. lia.
Qed.
Lemma top9_inj s i t j : 0 <= i < 256 -> 0 <= j < 256 -> top9 s i = top9 t j -> s = t /\ i = j.
Proof.
  intros Hi Hj.
  assert (forall s t, let rt := rows9 t in forallb (fun '(i, a) => forallb (fun '(j, b) =>
      implb (a =? b) (Bool.eqb s t && (i =? j))) rt) (rows9 s) = true) as Hc.
  { intros [] []; vm_compute; reflexivity. }
  intros He. specialize (Hc s t). cbv zeta in Hc. rewrite forallb_forall in Hc.
  specialize (Hc _ (rows9_in s i Hi)). cbv beta iota in Hc. rewrite forallb_forall in Hc.
  specialize (Hc _ (rows9_in t j Hj)). cbv beta iota in Hc. rewrite (proj2 (Z.eqb_eq _ _) He) in Hc.
  cbn [implb] in Hc. zbool. split; [by apply Bool.eqb_prop|done].
Qed.

(** Two states agree on the bits from [n] on. *)
Definition agree (n x y : Z) : Prop := forall k, n <= k < 32 -> Z.testbit x k = Z.testbit y k.

Lemma step_agree n x b y c : in_i32 x -> in_i32 y -> 0 <= n <= 23 ->
  agree n (step x b) (step y c) ->
  agree (n + 8) x y /\ Z.land (Z.lxor x b) 255 = Z.land (Z.lxor y c) 255.
Proof.
  intros Hx Hy Hn Ha.
  assert (top9 (x <? 0) (Z.land (Z.lxor x b) 255) = top9 (y <? 0) (Z.land (Z.lxor y c) 255)) as Ht.
  { unfold top9. apply Z.bits_inj'. intros k Hk. rewrite !Z.lxor_spec, !Z.shiftr_spec by lia.
    destruct (decide (k < 9)) as [Hk9|Hk9].
    - assert (forall s : bool, Z.testbit (if s then 511 else 0) k = s) as Hs.
      { intros []; [|apply Z.bits_0]. change 511 with (Z.ones 9). apply Z.ones_spec_low. lia. }
      rewrite !Hs. specialize (Ha (k + 23) ltac:(lia)). rewrite !step_bits in Ha by lia.
      rewrite (in_i32_sign x), (in_i32_sign y) in Ha by (done || lia).
      by rewrite (xorb_comm _ (x <? 0)), (xorb_comm _ (y <? 0)).
    - rewrite !crc_row_high by (apply land_255 || lia).
      assert (forall s : bool, Z.testbit (if s then 511 else 0) k = false) as Hs.
      { intros []; [|apply Z.bits_0]. change 511 with (Z.ones 9). apply Z.ones_spec_high. lia. }
      by rewrite !Hs. }
  apply top9_inj in Ht as [_ Hi]; [|apply land_255..]. split; [|done].
  intros k Hk. specialize (Ha (k - 8) ltac:(lia)). rewrite !step_bits, Hi in Ha by lia.
  replace (k - 8 + 8) with k in Ha by lia.
  by destruct (Z.testbit x k), (Z.testbit y k), (Z.testbit (crc_row _) _).
Qed.
Lemma agree_0 x y : in_i32 x -> in_i32 y -> agree 0 x y -> x = y.
Proof. intros. by apply i32_ext. Qed.

Lemma step_inj x b y b' : in_i32 x -> in_i32 y -> step x b = step y b' ->
  Z.land (Z.lxor x b) 255 = Z.land (Z.lxor y b') 255 /\ agree 8 x y.
Proof.
  intros Hx Hy He. destruct (step_agree 0 x b y b' Hx Hy ltac:(lia)) as [Ha Hi]; [|done].
  intros k Hk. by rewrite He.
Qed.
(** The low byte of the index decides the low bits. *)
Lemma index_bits x b y c k : Z.land (Z.lxor x b) 255 = Z.land (Z.lxor y c) 255 -> 0 <= k < 8 ->
  xorb (Z.testbit x k) (Z.testbit b k) = xorb (Z.testbit y k) (Z.testbit c k).
Proof.
  intros He Hk. apply (f_equal (fun z => Z.testbit z k)) in He. rewrite !Z.land_spec, !Z.lxor_spec in He.
  change 255 with (Z.ones 8) in He. rewrite Z.ones_spec_low, !andb_true_r in He by lia. done.
Qed.
Lemma step_inj_hash x y b : in_i32 x -> in_i32 y -> step x b = step y b -> x = y.
Proof.
  intros Hx Hy He. destruct (step_inj x b y b Hx Hy He) as [Hi Ha]. apply agree_0; [done..|].
  intros k Hk. destruct (decide (k < 8)); [|apply Ha; lia].
  pose proof (index_bits _ _ _ _ k Hi ltac:(lia)) as Hb.
  by destruct (Z.testbit x k), (Z.testbit y k), (Z.testbit b k).
Qed.

(** From one state, the top byte of a step determines the row: 128 to 255 differ
    from 0 to 127 there, and so on for each bit of the index. *)
Lemma top8_inj i j : 0 <= i < 256 -> 0 <= j < 256 -> Z.shiftr (crc_row i) 24 = Z.shiftr (crc_row j) 24 -> i = j.
Proof.
  intros Hi Hj He.
  assert (let rt := (fun i => (i, Z.shiftr (crc_row i) 24)) <$> seqZ 0 256 in
    forallb (fun '(i, a) => forallb (fun '(j, b) => implb (a =? b) (i =? j)) rt) rt = true) as Hc
    by (vm_compute; reflexivity).
  cbv zeta in Hc. rewrite forallb_forall in Hc.
  assert (forall i, 0 <= i < 256 -> In (i, Z.shiftr (crc_row i) 24) ((fun i => (i, Z.shiftr (crc_row i) 24)) <$> seqZ 0 256)) as Hin.
  { intros k Hk. apply list_elem_of_In, list_elem_of_fmap. exists k. split; [done|]. apply elem_of_seqZ. lia. }
  specialize (Hc _ (Hin i Hi)). cbv beta iota in Hc. rewrite forallb_forall in Hc.
  specialize (Hc _ (Hin j Hj)). cbv beta iota in Hc. rewrite (proj2 (Z.eqb_eq _ _) He) in Hc. cbn [implb] in Hc. by zbool.
Qed.
Lemma top_row x b c : agree 24 (step x b) (step x c) -> Z.land (Z.lxor x b) 255 = Z.land (Z.lxor x c) 255.
Proof.
  intros Ha. apply top8_inj; [apply land_255..|]. apply Z.bits_inj'. intros k Hk. rewrite !Z.shiftr_spec by lia.
  destruct (decide (k < 8)).
  - specialize (Ha (k + 24) ltac:(lia)). rewrite !step_bits in Ha by lia.
    by destruct (Z.testbit x (k + 24 + 8)), (Z.testbit (crc_row _) _), (Z.testbit (crc_row _) _).
  - by rewrite !crc_row_high by (apply land_255 || lia).
Qed.
#[global] Opaque step.
(** A word is hashed byte by byte. *)
Definition word_byte (i k : Z) : Z := Z.land (Z.shiftr i (8 * k)) 255.
Definition step32 (hash i : Z) : Z :=
  step (step (step (step hash (word_byte i 0)) (word_byte i 1)) (word_byte i 2)) (word_byte i 3).
Lemma H32_step hash i : H32 hash i = Some (step32 hash i).
Proof.
  unfold H32. rewrite H_step; cbn [mbind option_bind]. rewrite H_step; cbn [mbind option_bind].
  rewrite H_step; cbn [mbind option_bind]. rewrite H_step.
  assert (Z.shiftr (u32 i) 24 = word_byte i 3) as ->.
  { unfold word_byte. rewrite (land_mask 8 _ 255) by done. unfold uN. rewrite !shiftr_div by lia.
    change (8 * 3) with 24. norm_pow2. z_div. }
  assert (Z.land i 255 = word_byte i 0) as -> by (unfold word_byte; by rewrite Z.shiftr_0_r).
  change (Z.land (Z.shiftr i 8) 255) with (word_byte i 1). change (Z.land (Z.shiftr i 16) 255) with (word_byte i 2).
  unfold step32. reflexivity.
Qed.
Lemma step32_in hash i : in_i32 (step32 hash i).
Proof. apply step_in. Qed.
Lemma step32_inj_hash x y i : in_i32 x -> in_i32 y -> step32 x i = step32 y i -> x = y.
Proof. intros Hx Hy He. unfold step32 in He. do 4 (apply step_inj_hash in He; [|first [apply step_in|assumption]..]). exact He. Qed.

Lemma agree_weaken n m x y : n <= m -> agree n x y -> agree m x y.
Proof. intros Hn Ha k Hk. apply Ha. lia. Qed.
Lemma word_byte_bits i k j : 0 <= k -> 0 <= j < 8 -> Z.testbit (word_byte i k) j = Z.testbit i (8 * k + j).
Proof.
  intros. unfold word_byte. rewrite Z.land_spec, Z.shiftr_spec by lia. change 255 with (Z.ones 8).
  rewrite Z.ones_spec_low, andb_true_r by lia. f_equal. lia.
Qed.
(** From equal states, equal rows come from equal bytes. *)
Lemma same_byte x i j k : 0 <= k ->
  Z.land (Z.lxor x (word_byte i k)) 255 = Z.land (Z.lxor x (word_byte j k)) 255 -> word_byte i k = word_byte j k.
Proof.
  intros Hk He. apply Z.bits_inj'. intros n Hn. destruct (decide (n < 8)) as [Hn8|Hn8].
  - pose proof (index_bits _ _ _ _ n He ltac:(lia)) as Hb.
    by destruct (Z.testbit x n), (Z.testbit (word_byte i k) n), (Z.testbit (word_byte j k) n).
  - unfold word_byte. rewrite !Z.land_spec. change 255 with (Z.ones 8).
    rewrite Z.ones_spec_high by lia. by rewrite !andb_false_r.
Qed.

(** The high bits that survive each step pin the bytes down, from the first one on. *)
Lemma step32_inj hash i j : in_i32 hash -> in_i32 i -> in_i32 j -> step32 hash i = step32 hash j -> i = j.
Proof.
  intros Hh Hi Hj He. unfold step32 in He.
  set (a1 := step hash (word_byte i 0)) in *. set (b1 := step hash (word_byte j 0)) in *.
  set (a2 := step a1 (word_byte i 1)) in *. set (b2 := step b1 (word_byte j 1)) in *.
  set (a3 := step a2 (word_byte i 2)) in *. set (b3 := step b2 (word_byte j 2)) in *.
  assert (in_i32 a1 /\ in_i32 b1 /\ in_i32 a2 /\ in_i32 b2 /\ in_i32 a3 /\ in_i32 b3) as (?&?&?&?&?&?)
    by (split_and!; apply step_in).
  destruct (step_inj a3 _ b3 _ ltac:(assumption) ltac:(assumption) He) as [_ A3].
  destruct (step_agree 8 a2 (word_byte i 2) b2 (word_byte j 2)) as [A2 _]; [done|done|lia|exact A3|].
  destruct (step_agree 16 a1 (word_byte i 1) b1 (word_byte j 1)) as [A1 _]; [done|done|lia|exact A2|].
  assert (word_byte i 0 = word_byte j 0) as E0.
  { apply (same_byte hash). { lia. } apply (top_row hash). exact A1. }
  assert (a1 = b1) as E1 by (unfold a1, b1; by rewrite E0).
  assert (word_byte i 1 = word_byte j 1) as E2.
  { apply (same_byte a1); [lia|]. rewrite E1 at 2. apply (step_agree 16); done || lia. }
  assert (a2 = b2) as E3 by (unfold a2, b2; by rewrite E1, E2).
  assert (word_byte i 2 = word_byte j 2) as E4.
  { apply (same_byte a2); [lia|]. rewrite E3 at 2. apply (step_agree 8); done || lia. }
  assert (a3 = b3) as E5 by (unfold a3, b3; by rewrite E3, E4).
  assert (word_byte i 3 = word_byte j 3) as E6.
  { apply (same_byte a3); [lia|]. rewrite E5 at 2. apply step_inj; done. }
  apply i32_ext; [done..|]. intros k Hk.
  destruct (decide (k < 8)); [|destruct (decide (k < 16)); [|destruct (decide (k < 24))]].
  - replace k with (8 * 0 + k) by lia. by rewrite <- !word_byte_bits, E0 by lia.
  - replace k with (8 * 1 + (k - 8)) by lia. by rewrite <- !word_byte_bits, E2 by lia.
  - replace k with (8 * 2 + (k - 16)) by lia. by rewrite <- !word_byte_bits, E4 by lia.
  - replace k with (8 * 3 + (k - 24)) by lia. by rewrite <- !word_byte_bits, E6 by lia.
Qed.

Lemma hash_words h : forall l, hash_each H32 l (alen l) h = Some (foldl step32 h l).
Proof.
  intros l. unfold hash_each, alen. rewrite Nat2Z.id.
  assert (forall l pre h, afor (fun i hash => x ← aget (pre ++ l) i; H32 hash x) (length l) (alen pre) h =
    Some (foldl step32 h l)) as Hg; [|by apply (Hg l [])].
  clear. induction l as [|x l IH]; intros pre h; [done|]. simpl.
  rewrite aget_app_r, Z.sub_diag by lia. simpl. rewrite H32_step. simpl.
  rewrite <- (IH (pre ++ [x])), <- app_assoc, alen_app. done.
Qed.
Lemma foldl_step_inj l : forall x y, in_i32 x -> in_i32 y -> foldl step32 x l = foldl step32 y l -> x = y.
Proof.
  induction l as [|a l IH]; intros x y Hx Hy; [done|]. simpl. intros He.
  apply IH in He; [|apply step32_in..]. by apply step32_inj_hash in He.
Qed.

(** ** Remapping globals *)
(** [k] is the first index of [x] in [l], or -1. *)
Definition first_index (l : list Z) (x k : Z) : Prop :=
  (k = -1 /\ x ∉ l) \/ (aget l k = Some x /\ forall j, j < k -> aget l j <> Some x).

Lemma aget_elem {A} (l : list A) x : x ∈ l <-> exists i, aget l i = Some x.
Proof.
  rewrite list_elem_of_lookup. split.
  - intros [i Hi]. exists (Z.of_nat i). by rewrite aget_nat.
  - intros [i Hi]. pose proof (aget_Some_range _ _ _ Hi). exists (Z.to_nat i).
    by rewrite <- aget_nat, Z2Nat.id by lia.
Qed.

Lemma remap_scan_spec olds h start : 0 <= start <= alen olds ->
  exists r, remap_scan olds h start = Some r /\
    match r with
    | Some k => start <= k /\ aget olds k = Some h /\ forall j, start <= j < k -> aget olds j <> Some h
    | None => forall j, start <= j -> aget olds j <> Some h
    end.
Proof.
  intros Hs. unfold remap_scan.
  apply (loop_total _ (fun k => start <= k <= alen olds /\ forall j, start <= j < k -> aget olds j <> Some h)
    _ (fun k => Z.to_nat (alen olds - k))); [|split; [lia|]; intros; lia|unfold alen; lia].
  intros k [Hk Hno]. case_if_bool.
  - destruct (aget_is_Some olds k) as [s Hg]; [lia|]. rewrite Hg. simpl. case_if_bool; subst.
    + right. eexists. split; [done|]. split_and!; [lia|done|done].
    + left. eexists. split; [done|]. split; [|lia]. split; [lia|]. intros j Hj.
      destruct (decide (j = k)) as [->|]; [congruence|]. apply Hno. lia.
  - right. eexists. split; [done|]. intros j Hj. destruct (decide (j < k)); [apply Hno; lia|].
    rewrite (proj2 (aget_None olds j)) by lia. done.
Qed.

(** No other entry is equal to the [i]-th, [x]. *)
Definition only_at (l : list Z) (x i : Z) : Prop := aget l i = Some x /\ forall j, aget l j = Some x -> j = i.

(** The old slot of a global, or -1: it carries its signature; a global gets none only
    when earlier ones took all that do; and if no other global has its signature, it is
    the first that does. *)
Definition known_slot (olds signs remap : list Z) (i s k : Z) : Prop :=
  aget remap i = Some k /\
  (k = -1 /\ (forall q, aget olds q = Some s -> exists j, j < i /\ aget remap j = Some q) \/ aget olds k = Some s) /\
  (only_at signs s i -> first_index olds s k).

Lemma remap_known_spec olds signs :
  exists remap, remap_known olds signs = Some remap /\ alen remap = alen signs /\
    forall i s, aget signs i = Some s -> exists k, known_slot olds signs remap i s k.
Proof.
  unfold remap_known.
  destruct (afor_total (remap_step olds signs) (fun i '(start, remap) =>
      0 <= start <= alen olds /\ alen remap = i /\
      (forall k, 0 <= k < start -> exists j, j < i /\ aget remap j = Some k) /\
      (forall j s, j < i -> aget signs j = Some s -> exists k, known_slot olds signs remap j s k))
    (length signs) 0 (0, [])) as ([start remap] & -> & Hr & Hl & _ & Hf).
  - pose proof (alen_nonneg olds). split_and!; [lia|lia|done|intros k Hk; lia|].
    intros j s Hj Ho. apply aget_Some_range in Ho. lia.
  - intros i [start remap] Hi (Hs & Hl & Hused & Hf). unfold remap_step.
    destruct (aget_is_Some signs i) as [h Hh]; [unfold alen; lia|]. rewrite Hh. cbn [mbind option_bind].
    assert (forall k, k < start -> aget olds k = Some h -> ~ only_at signs h i) as Hfresh.
    { intros k Hk Ho [_ Honly]. pose proof (aget_Some_range _ _ _ Ho). destruct (Hused k ltac:(lia)) as (j & Hj & Hjk).
      pose proof (aget_Some_range _ _ _ Hjk). destruct (aget_is_Some signs j) as [t Ht]; [apply aget_Some_range in Hh; lia|].
      destruct (Hf j t Hj Ht) as (k' & Hk' & [[-> _]|Hok] & _); [assert (k = -1) by congruence; lia|].
      assert (k' = k) as -> by congruence. assert (t = h) as -> by congruence. specialize (Honly j Ht). lia. }
    assert (forall x j k, aget remap j = Some k -> aget (remap ++ [x]) j = Some k) as Hmore.
    { intros x j k Hj. pose proof (aget_Some_range _ _ _ Hj). by rewrite aget_app_l by lia. }
    assert (forall x, aget (remap ++ [x]) i = Some x) as Hlast by (intros x; by rewrite aget_app_r, Hl, Z.sub_diag by lia).
    assert (forall x, known_slot olds signs (remap ++ [x]) i h x ->
       forall j s, j < i + 1 -> aget signs j = Some s -> exists k, known_slot olds signs (remap ++ [x]) j s k) as Hext.
    { intros x Hx j s Hj Hsj. destruct (decide (j = i)) as [->|]; [exists x; by replace s with h by congruence|].
      destruct (Hf j s ltac:(lia) Hsj) as (k & Hk & Hc & Hfirst). exists k. split; [by apply Hmore|]. split; [|done].
      destruct Hc as [[-> Htaken]|]; [left|by right]. split; [done|]. intros q Hq. destruct (Htaken q Hq) as (j' & ? & ?).
      exists j'. split; [done|]. by apply Hmore. }
    assert (forall x start', (forall k, 0 <= k < start' -> k < start \/ k = x) ->
       forall k, 0 <= k < start' -> exists j, j < i + 1 /\ aget (remap ++ [x]) j = Some k) as Htake.
    { intros x start' Hstart k Hk. destruct (Hstart k Hk) as [Hlt| ->]; [|exists i; split; [lia|done]].
      destruct (Hused k ltac:(lia)) as (j & ? & ?). exists j. split; [lia|]. by apply Hmore. }
    destruct (remap_scan_spec olds h start) as (r & -> & Hr); [done|]. cbn [mbind option_bind].
    destruct r as [k|].
    + destruct Hr as (Hk & Hok & Hno). eexists. split; [done|]. pose proof (aget_Some_range _ _ _ Hok).
      split; [case_if_bool; lia|]. split; [rewrite alen_app; change (alen [k]) with 1; lia|].
      split; [apply Htake; intros q Hq; case_if_bool; lia|]. apply Hext. split; [done|]. split; [by right|]. intros Honly.
      right. split; [done|]. intros j Hj Hoj. destruct (decide (j < start)); [by eapply Hfresh|by eapply Hno; [|done]; lia].
    + eexists. split; [done|]. split; [lia|]. split; [rewrite alen_app; change (alen [-1]) with 1; lia|].
      split; [apply Htake; intros q Hq; lia|]. apply Hext. split; [done|]. split.
      * left. split; [done|]. intros q Hq. destruct (decide (q < start)); [|by destruct (Hr q ltac:(lia))].
        destruct (Hused q) as (j & ? & ?); [apply aget_Some_range in Hq; lia|]. exists j. split; [done|]. by apply Hmore.
      * intros Honly. left. split; [done|]. intros [j Hj]%aget_elem.
        destruct (decide (j < start)); [by eapply Hfresh|by eapply Hr; [|done]; lia].
  - simpl. eexists. split; [done|]. split; [unfold alen in *; lia|]. intros i s Hi. apply Hf; [|done].
    apply aget_Some_range in Hi. unfold alen in *. lia.
Qed.

Lemma remap_new_spec base remap e : 0 <= e ->
  exists e' r, remap_new base e remap = Some (e', r) /\ e <= e' /\ alen r = alen remap /\
    (forall j k, aget remap j = Some k -> k <> -1 -> aget r j = Some k) /\
    (forall j, aget remap j = Some (-1) -> exists k, aget r j = Some k /\ base + e <= k < base + e' /\
       forall i k', i < j -> aget remap i = Some (-1) -> aget r i = Some k' -> k' < k) /\
    ((forall j, aget remap j <> Some (-1)) -> e' = e).
Proof.
  intros He. unfold remap_new.
  match goal with |- context [afor ?f _ _ _] => destruct (afor_total f (fun i '(e', r) =>
      e <= e' /\ alen r = alen remap /\
      (forall j, i <= j -> aget r j = aget remap j) /\
      (forall j k, j < i -> aget remap j = Some k -> k <> -1 -> aget r j = Some k) /\
      (forall j, j < i -> aget remap j = Some (-1) -> exists k, aget r j = Some k /\ base + e <= k < base + e' /\
         forall i k', i < j -> aget remap i = Some (-1) -> aget r i = Some k' -> k' < k) /\
      ((forall j, aget remap j <> Some (-1)) -> e' = e))
    (length remap) 0 (e, remap)) as ([e' r] & -> & H1 & H2 & _ & H3 & H4 & H5) end.
  - split_and!; [lia|done|done| | |done]; intros ? ?; [intros ? Hj|intros Hj]; apply aget_Some_range in Hj; lia.
  - intros i [e' r] Hi (H1 & H2 & H3 & H4 & H5 & H6). destruct (aget_is_Some remap i) as [k Hk]; [unfold alen; lia|].
    rewrite (H3 i), Hk by lia. cbn [mbind option_bind]. case_if_bool.
    + subst. destruct (aset_total r i (base + e')) as (r' & -> & Hl & Hg); [unfold alen in *; lia|].
      cbn [mbind option_bind]. eexists. split; [done|]. split_and!; [lia|lia|..].
      * intros j Hj. rewrite Hg, decide_False by lia. apply H3. lia.
      * intros j k Hj Hjk Hk1. destruct (decide (i = j)) as [->|]; [congruence|]. rewrite Hg, decide_False by done.
        apply H4; [lia|done|done].
      * intros j Hj Hjk. destruct (decide (i = j)) as [->|].
        -- exists (base + e'). rewrite Hg, decide_True by done. split; [done|]. split; [lia|].
           intros a k' Ha Hka Hk'. rewrite Hg, decide_False in Hk' by lia.
           destruct (H5 a Ha Hka) as (k2 & Hk2 & Hk2r & _). assert (k' = k2) by congruence. lia.
        -- destruct (H5 j ltac:(lia) Hjk) as (k & Hk1 & Hkr & Hlt). exists k. rewrite Hg, decide_False by done.
           split; [done|]. split; [lia|]. intros a k' Ha Hka Hk'. rewrite Hg, decide_False in Hk' by lia. by eapply Hlt.
      * intros Hno. destruct (Hno i Hk).
    + eexists. split; [done|]. split_and!; [lia|done|..].
      * intros j Hj. apply H3. lia.
      * intros j k' Hj Hjk Hk1. destruct (decide (i = j)) as [->|]; [rewrite H3 by lia; done|]. apply H4; [lia|done|done].
      * intros j Hj Hjk. apply H5; [|done]. destruct (decide (i = j)) as [->|]; [congruence|lia].
      * done.
  - exists e', r. split; [done|]. split; [lia|]. split; [done|].
    assert (forall j k, aget remap j = Some k -> j < 0 + Z.of_nat (length remap)) as Hr.
    { intros j k Hj. apply aget_Some_range in Hj. unfold alen in *. lia. }
    split_and!; [|..|done].
    + intros j k Hj Hk. eapply H3; eauto.
    + intros j Hj. apply H4; eauto.
Qed.

(** The slot of each global: an old slot with its signature, or a slot of its own past
    the old ones. *)
Definition slots (olds signs remap : list Z) (extra : Z) : Prop :=
  alen remap = alen signs /\ 0 <= extra /\
  (forall i s, aget signs i = Some s -> exists k, aget remap i = Some k /\
     (aget olds k = Some s \/ alen olds <= k < alen olds + extra /\
        forall q, aget olds q = Some s -> exists j, j < i /\ aget remap j = Some q) /\
     (only_at signs s i -> s ∈ olds -> first_index olds s k)) /\
  (forall i j k, alen olds <= k -> aget remap i = Some k -> aget remap j = Some k -> i = j).

Lemma remap_table_spec olds signs :
  exists extra remap, remap_table olds signs = Some (extra, remap) /\ slots olds signs remap extra /\
    ((forall i s, aget signs i = Some s -> only_at signs s i /\ s ∈ olds) -> extra = Z.max 0 (alen olds - alen signs)).
Proof.
  unfold remap_table. destruct (remap_known_spec olds signs) as (r0 & -> & Hl0 & Hr0).
  cbn [mbind option_bind]. set (e := alen olds - alen signs).
  assert ((if e <? 0 then 0 else e) = Z.max 0 e) as -> by (case_if_bool; lia).
  destruct (remap_new_spec (alen olds) r0 (Z.max 0 e)) as (e' & r & -> & He' & Hl & Hknown & Hnew & Hsame); [lia|].
  exists e', r. split; [done|].
  assert (forall i, 0 <= i < alen signs -> exists s k, aget signs i = Some s /\ known_slot olds signs r0 i s k) as Hall.
  { intros i Hi. destruct (aget_is_Some signs i) as [s Hs]; [done|]. destruct (Hr0 i s Hs) as (k & ?). eauto. }
  assert (forall j q s, aget olds q = Some s -> aget r0 j = Some q -> aget r j = Some q) as Hold.
  { intros j q s Hq Hj. apply Hknown; [done|]. apply aget_Some_range in Hq. lia. }
  split.
  - split; [lia|]. split; [lia|]. split.
    + intros i s Hs. destruct (Hr0 i s Hs) as (k & Hk & [[-> Htaken]|Ho] & Hfirst).
      * destruct (Hnew i Hk) as (k & Hk' & Hkr & _). exists k. split; [done|]. split.
        -- right. split; [lia|]. intros q Hq. destruct (Htaken q Hq) as (j & ? & ?). exists j. split; [done|]. by eapply Hold.
        -- intros Honly Hin. destruct (Hfirst Honly) as [[_ Hno]|[Ha _]]; [done|]. apply aget_Some_range in Ha. lia.
      * exists k. split; [by eapply Hold|]. split; [by left|]. auto.
    + assert (forall i k, alen olds <= k -> aget r i = Some k -> aget r0 i = Some (-1)) as Hfresh.
      { intros i k Hk Hi. pose proof (aget_Some_range _ _ _ Hi). destruct (Hall i ltac:(lia)) as (s & a & _ & Ha & [[-> _]|Ho] & _); [done|].
        pose proof (Hold i a s Ho Ha). assert (a = k) as -> by congruence. apply aget_Some_range in Ho. lia. }
      intros i j k Hk Hi Hj. pose proof (Hfresh i k Hk Hi) as Hai. pose proof (Hfresh j k Hk Hj) as Hbj.
      destruct (Hnew i Hai) as (k1 & Hk1 & _ & Hlt1), (Hnew j Hbj) as (k2 & Hk2 & _ & Hlt2).
      assert (k1 = k) as -> by congruence. assert (k2 = k) as -> by congruence.
      destruct (decide (i < j)); [specialize (Hlt2 i k ltac:(lia) Hai Hi); lia|].
      destruct (decide (j < i)); [specialize (Hlt1 j k ltac:(lia) Hbj Hj); lia|]. lia.
  - intros Hsub. apply Hsame. intros j Hj. pose proof (aget_Some_range _ _ _ Hj).
    destruct (Hall j ltac:(lia)) as (s & k & Hs & Hk & _ & Hfirst). assert (k = -1) as -> by congruence.
    destruct (Hsub j s Hs) as [Honly Hin]. destruct (Hfirst Honly) as [[_ Hno]|[Ho _]]; [done|].
    by apply aget_Some_range in Ho; lia.
Qed.

(** Of the sources with one destination, the last is kept. *)
Lemma scatter_spec {A} remap (src dst : list A) :
  alen remap = alen src -> (forall i k, aget remap i = Some k -> 0 <= k < alen dst) ->
  exists d, scatter remap src dst = Some d /\ alen d = alen dst /\
    (forall i k, aget remap i = Some k -> exists j, i <= j /\ aget remap j = Some k /\ aget d k = aget src j) /\
    (forall k, (forall i, aget remap i <> Some k) -> aget d k = aget dst k).
Proof.
  intros Hl Hin. unfold scatter.
  match goal with |- context [afor ?f _ _ _] => destruct (afor_total f (fun n d =>
      alen d = alen dst /\
      (forall i k, i < n -> aget remap i = Some k -> exists j, i <= j /\ aget remap j = Some k /\ aget d k = aget src j) /\
      (forall k, (forall i, aget remap i <> Some k) -> aget d k = aget dst k))
    (length src) 0 dst) as (d & -> & H1 & H2 & H3) end.
  - split_and!; [done| |done]. intros i k Hi Hk. apply aget_Some_range in Hk. lia.
  - intros n d Hn (H1 & H2 & H3). destruct (aget_is_Some remap n) as [k Hk]; [unfold alen in *; lia|].
    destruct (aget_is_Some src n) as [x Hx]; [unfold alen; lia|]. rewrite Hk, Hx. cbn [mbind option_bind].
    destruct (aset_total d k x) as (d' & -> & Hl' & Hg); [rewrite H1; by eapply Hin|].
    eexists. split; [done|]. split_and!; [lia|..].
    + intros i k' Hi Hk'. rewrite Hg. destruct (decide (k = k')) as [<-|Hne].
      * exists n. split; [lia|]. split; [done|congruence].
      * apply H2; [|done]. destruct (decide (i = n)) as [->|]; [congruence|lia].
    + intros k' Hk'. rewrite Hg, decide_False; [by apply H3|]. intros ->. by destruct (Hk' n).
  - exists d. split; [done|]. split; [done|]. split; [|done]. intros i k Hk. apply H2; [|done].
    apply aget_Some_range in Hk. unfold alen in *. lia.
Qed.

(** What moving the globals means for the rest of the program; [slot] gives the new
    index of a global. *)
Definition op_moved (slot : Z -> option Z) (o o' : hl_opcode) : Prop :=
  if op o =? op_num OGetGlobal then
    exists b b', p2 o = Some b /\ slot b = Some b' /\ o' = Opcode (op o) (p1 o) (Some b') (p3 o) (extra o)
  else if op o =? op_num OSetGlobal then
    exists a a', p1 o = Some a /\ slot a = Some a' /\ o' = Opcode (op o) (Some a') (p2 o) (p3 o) (extra o)
  else o' = o.
Definition function_moved (slot : Z -> option Z) (f f' : hl_function) : Prop :=
  exists os, Forall2 (op_moved slot) (ops f) os /\
    f' = Function (findex f) (nregs f) (nops f) (ftype f) (regs f) os (debug f) (nassigns f) (assigns f).
Definition constant_moved (slot : Z -> option Z) (k k' : hl_constant) : Prop :=
  exists g, slot (global k) = Some g /\ k' = Constant g (k_nfields k) (k_fields k).
Definition set_global_value (t : hl_type) (v : Z) : hl_type :=
  match tdata t with
  | TObj o => Type_ (kind t) (TObj (TypeObj (o_nfields o) (o_nproto o) (o_nbindings o) (o_name o) (o_super o)
                                      (o_fields o) (o_proto o) (o_bindings o) v))
  | TEnum e => Type_ (kind t) (TEnum (TypeEnum (e_name e) (e_nconstructs e) (e_constructs e) v))
  | _ => t
  end.
Definition type_moved (slot : Z -> option Z) (t t' : hl_type) : Prop :=
  exists v, global_value_of t = Some v /\
    (v = 0 /\ t' = t \/ v <> 0 /\ exists g, slot (v - 1) = Some g /\ t' = set_global_value t (g + 1)).

(** The references of a program to its [n] globals are in range. *)
Definition refs_ok (n : Z) (c : hl_code) : Prop :=
  Forall (fun t => exists v, global_value_of t = Some v /\ 0 <= v <= n) (c_types c) /\
  Forall (fun k => 0 <= global k < n) (c_constants c) /\
  Forall (fun f => Forall (fun o =>
    (op o = op_num OGetGlobal -> exists b, p2 o = Some b /\ 0 <= b < n) /\
    (op o = op_num OSetGlobal -> exists a, p1 o = Some a /\ 0 <= a < n)) (ops f)) (c_functions c).

Section moved.
Context (remap : list Z).
Abbreviation slot := (aget remap).

Lemma remap_opcode_moved o :
  (op o = op_num OGetGlobal -> exists b, p2 o = Some b /\ 0 <= b < alen remap) ->
  (op o = op_num OSetGlobal -> exists a, p1 o = Some a /\ 0 <= a < alen remap) ->
  exists o', remap_opcode remap o = Some o' /\ op_moved slot o o'.
Proof.
  intros Hget Hset. unfold remap_opcode, op_moved. case_if_bool; [|case_if_bool].
  - destruct (Hget E) as (b & Hb & Hr). destruct (aget_is_Some remap b Hr) as [g Hg]. rewrite Hb. simpl. rewrite Hg.
    simpl. eauto 8.
  - destruct (Hset E0) as (a & Ha & Hr). destruct (aget_is_Some remap a Hr) as [g Hg]. rewrite Ha. simpl. rewrite Hg.
    simpl. eauto 8.
  - eauto.
Qed.

Lemma remap_type_moved t v : global_value_of t = Some v -> 0 <= v <= alen remap ->
  exists t', remap_type remap t = Some t' /\ type_moved slot t t'.
Proof.
  intros Hv Hr.
  cut (exists t', remap_type remap t = Some t' /\
    (v = 0 /\ t' = t \/ v <> 0 /\ exists g, slot (v - 1) = Some g /\ t' = set_global_value t (g + 1))).
  { intros (t' & Ht & Hc). exists t'. split; [done|]. by exists v. }
  assert (exists v', remap_value remap v = Some v' /\
    (v = 0 /\ v' = 0 \/ v <> 0 /\ exists g, slot (v - 1) = Some g /\ v' = g + 1)) as (v' & Hv' & Hc).
  { unfold remap_value. case_if_bool; [eauto|].
    destruct (aget_is_Some remap (v - 1)) as [g Hg]; [lia|]. rewrite Hg. simpl. eauto 8. }
  unfold remap_type, global_value_of, as_obj, as_enum in *.
  rewrite (orb_comm (kind t =? HSTRUCT)). destruct t as [k d]; simpl in *.
  destruct ((k =? HOBJ) || (k =? HSTRUCT)); [|destruct (k =? HENUM)].
  - destruct d as [| |[]| | | |]; simpl in *; try done. injection Hv as ->. rewrite Hv'. simpl.
    eexists. split; [done|]. destruct Hc as [[-> ->]|(? & g & Hg & ->)]; [by left|right; eauto].
  - destruct d as [| | | | |[]|]; simpl in *; try done. injection Hv as ->. rewrite Hv'. simpl.
    eexists. split; [done|]. destruct Hc as [[-> ->]|(? & g & Hg & ->)]; [by left|right; eauto].
  - injection Hv as <-. eexists. split; [done|]. by left.
Qed.

Lemma remap_program_moved c : refs_ok (alen remap) c ->
  exists ts ks fs, mapM (remap_type remap) (c_types c) = Some ts /\
    mapM (remap_constant remap) (c_constants c) = Some ks /\
    mapM (remap_function remap) (c_functions c) = Some fs /\
    Forall2 (type_moved slot) (c_types c) ts /\ Forall2 (constant_moved slot) (c_constants c) ks /\
    Forall2 (function_moved slot) (c_functions c) fs.
Proof.
  intros (Ht & Hk & Hf). rewrite Forall_forall in Ht; rewrite Forall_forall in Hk; rewrite Forall_forall in Hf.
  destruct (mapM_total (remap_type remap) (type_moved slot) (c_types c)) as (ts & Hts & ?).
  { intros t Hin. destruct (Ht t Hin) as (v & Hv & Hr). by eapply remap_type_moved. }
  destruct (mapM_total (remap_constant remap) (constant_moved slot) (c_constants c)) as (ks & Hks & ?).
  { intros k Hin. destruct (aget_is_Some remap (global k) (Hk k Hin)) as [g Hg].
    unfold remap_constant. rewrite Hg. simpl. eexists. split; [done|]. by exists g. }
  destruct (mapM_total (remap_function remap) (function_moved slot) (c_functions c)) as (fs & Hfs & ?).
  { intros f Hin. specialize (Hf f Hin). rewrite Forall_forall in Hf.
    destruct (mapM_total (remap_opcode remap) (op_moved slot) (ops f)) as (os & Hos & ?).
    { intros o Ho. destruct (Hf o Ho). by apply remap_opcode_moved. }
    unfold remap_function. rewrite Hos. simpl. eexists. split; [done|]. by exists os. }
  exists ts, ks, fs. done.
Qed.
End moved.

(** What the remapped program [r] promises, for [slot] the place of each of its globals. *)
Definition keeps_globals {G} (c : hl_code) (globals : list G) (signs : list Z) (oldg : list G) (olds : list Z)
    (slot : Z -> option Z) (r : remapped) : Prop :=
  (* every global has a slot, which carries its signature and the type of a global with
     that signature: its own, unless a later global has the same slot *)
  (forall i s, aget signs i = Some s -> exists k, slot i = Some k /\ aget (r_signs r) k = Some s /\
     exists j, i <= j /\ slot j = Some k /\ aget signs j = Some s /\ aget (r_globals r) k = aget globals j) /\
  (* only globals with the same signature share a slot, and it is an old one *)
  (forall i j k, slot i = Some k -> slot j = Some k -> i = j \/ aget signs i = aget signs j /\ k < alen olds) /\
  (* a slot is one of the old program with that signature, or a new one when earlier
     globals have taken all of these *)
  (forall i s k, aget signs i = Some s -> slot i = Some k ->
     aget olds k = Some s \/ alen olds <= k /\ forall q, aget olds q = Some s -> exists j, j < i /\ slot j = Some q) /\
  (* and the first of them, if no other global of the new program has the signature *)
  (forall i s, only_at signs s i -> s ∈ olds -> exists k, slot i = Some k /\ first_index olds s k) /\
  (* the other slots of the old program are left to it *)
  (forall k, (forall i, slot i <> Some k) -> k < alen oldg -> aget (r_globals r) k = aget oldg k) /\
  (* and every reference to a global follows it *)
  Forall2 (type_moved slot) (c_types c) (r_types r) /\
  Forall2 (constant_moved slot) (c_constants c) (r_constants r) /\
  Forall2 (function_moved slot) (c_functions c) (r_functions r).

Lemma remap_globals_spec {G} (void : G) c globals signs oldg olds :
  alen signs = alen globals -> alen olds = alen oldg -> refs_ok (alen globals) c ->
  exists extra remap r, remap_table olds signs = Some (extra, remap) /\
    hl_code_hash_remap_globals void c globals signs oldg olds = Some r /\
    slots olds signs remap extra /\ alen (r_globals r) = alen oldg + extra /\ alen (r_signs r) = alen olds + extra /\
    keeps_globals c globals signs oldg olds (aget remap) r.
Proof.
  intros Hls Hlo Hrefs. destruct (remap_table_spec olds signs) as (extra & remap & Ht & Hslots & _).
  exists extra, remap. pose proof Hslots as (Hl & He & Hs & Hinj).
  unfold hl_code_hash_remap_globals. rewrite Ht. cbn [mbind option_bind].
  assert (forall i k, aget remap i = Some k -> exists s, aget signs i = Some s /\
    (aget olds k = Some s \/ alen olds <= k < alen olds + extra)) as Hin.
  { intros i k Hk. pose proof (aget_Some_range _ _ _ Hk). destruct (aget_is_Some signs i) as [s Hsi]; [lia|]. exists s. split; [done|].
    destruct (Hs i s Hsi) as (k' & Hk' & Hc & _). assert (k' = k) as -> by congruence. destruct Hc as [?|[? _]]; [by left|by right]. }
  assert (forall i k, aget remap i = Some k -> 0 <= k < alen olds + extra) as Hrange.
  { intros i k Hk. pose proof (alen_nonneg olds). destruct (Hin i k Hk) as (s & _ & [Ho|?]); [apply aget_Some_range in Ho; lia|lia]. }
  assert (forall i j k, aget remap i = Some k -> aget remap j = Some k -> i = j \/ aget signs i = aget signs j /\ k < alen olds) as Hshare.
  { intros i j k Hi Hj. destruct (Hin i k Hi) as (s & Hsi & [Ho|?]); [|left; eapply (Hinj i j k); (done || lia)].
    destruct (Hin j k Hj) as (t & Htj & [Ho'|?]); [right|left; eapply (Hinj i j k); (done || lia)].
    pose proof (aget_Some_range _ _ _ Ho). split; [congruence|lia]. }
  destruct (scatter_spec remap globals (oldg ++ replicate (Z.to_nat extra) void)) as (ng & -> & Hgl & Hg1 & Hg2);
    [lia|intros i k Hk; rewrite alen_app, alen_replicate; specialize (Hrange i k Hk); lia|].
  destruct (scatter_spec remap signs (olds ++ replicate (Z.to_nat extra) (-1))) as (ns & -> & Hsl & Hs1 & Hs2);
    [lia|intros i k Hk; rewrite alen_app, alen_replicate; specialize (Hrange i k Hk); lia|].
  cbn [mbind option_bind].
  destruct (remap_program_moved remap c) as (ts & ks & fs & -> & -> & -> & Hts & Hks & Hfs); [by rewrite Hl, Hls|].
  cbn [mbind option_bind]. eexists. split; [done|]. split; [done|]. split; [done|]. cbn [r_globals r_signs].
  rewrite alen_app, alen_replicate in Hgl; rewrite alen_app, alen_replicate in Hsl. split; [lia|]. split; [lia|].
  assert (forall i j k, aget remap i = Some k -> aget remap j = Some k -> aget signs i = aget signs j) as Hsame.
  { intros i j k Hi Hj. destruct (Hshare i j k Hi Hj) as [->|[? _]]; done. }
  unfold keeps_globals; cbn [r_globals r_signs r_types r_constants r_functions].
  split_and!; try done.
  - intros i s Hsi. destruct (Hs i s Hsi) as (k & Hk & _). exists k. split; [done|]. split.
    + destruct (Hs1 i k Hk) as (j & _ & Hj & ->). by rewrite (Hsame j i k Hj Hk).
    + destruct (Hg1 i k Hk) as (j & Hij & Hj & ->). exists j. split; [done|]. split; [done|]. split; [|done].
      by rewrite (Hsame j i k Hj Hk).
  - intros i s k Hsi Hk. destruct (Hs i s Hsi) as (k' & Hk' & Hc & _). assert (k' = k) as -> by congruence.
    destruct Hc as [?|[[? _] ?]]; [by left|by right].
  - intros i s Honly Ho. destruct (Hs i s (proj1 Honly)) as (k & Hk & _ & Hf). exists k. auto.
  - intros k Hno Hk. rewrite Hg2 by done. by apply aget_app_l.
Qed.

(** ** Hashes of types *)
(** A type with its references renumbered. *)
Definition rename_field (rho : Z -> Z) (f : hl_obj_field) : hl_obj_field := ObjField (f_name f) (rho (f_t f)) (f_hashed_name f).
Definition rename_construct (rho : Z -> Z) (c : hl_enum_construct) : hl_enum_construct :=
  EnumConstruct (c_name c) (c_nparams c) (rho <$> c_params c).
Definition rename_type (rho : Z -> Z) (t : hl_type) : hl_type :=
  Type_ (kind t) match tdata t with
    | TFun f => TFun (TypeFun (fun_nargs f) (rho <$> fun_args f) (rho (fun_ret f)))
    | TObj o => TObj (TypeObj (o_nfields o) (o_nproto o) (o_nbindings o) (o_name o) (rho <$> o_super o)
                        (rename_field rho <$> o_fields o) (o_proto o) (o_bindings o) (o_global_value o))
    | TVirt fs => TVirt (rename_field rho <$> fs)
    | TEnum e => TEnum (TypeEnum (e_name e) (e_nconstructs e) (rename_construct rho <$> e_constructs e) (e_global_value e))
    | TParam p => TParam (rho p)
    | TAbs u => TAbs u
    | TNone => TNone
    end.

Lemma HSTR_total u : name_ok u -> forall h, exists x, HSTR h u = Some x.
Proof.
  intros (s & Hs & _). revert u Hs. induction s as [|c s IH]; intros u Hs h.
  - apply cstring_nil in Hs as [m' ->]. by exists h.
  - apply cstring_cons in Hs as (m' & -> & Hc & Hs). simpl. rewrite (proj2 (Z.eqb_neq _ _) Hc), H_step. simpl. by apply IH.
Qed.

(** [f] on a list and [f'] on its renumbering run to the same hash. *)
Definition same_hash (m m' : option Z) : Prop := exists x, m = Some x /\ m' = Some x.
Lemma same_bind m m' f f' : same_hash m m' -> (forall x, same_hash (f x) (f' x)) -> same_hash (x ← m; f x) (x ← m'; f' x).
Proof. intros (x & -> & ->) Hf. apply Hf. Qed.
Lemma same_H h b : same_hash (H h b) (H h b).
Proof. rewrite H_step. by eexists. Qed.
Lemma same_H32 h b : same_hash (H32 h b) (H32 h b).
Proof. rewrite H32_step. by eexists. Qed.
Lemma same_HSTR h u : name_ok u -> same_hash (HSTR h u) (HSTR h u).
Proof. intros Hu. destruct (HSTR_total u Hu h) as [x ->]. by eexists. Qed.
Lemma same_each {A} (f f' : Z -> A -> option Z) (g : A -> A) l n :
  alen l = n -> (forall h x, x ∈ l -> same_hash (f h x) (f' h (g x))) ->
  forall h, same_hash (hash_each f l n h) (hash_each f' (g <$> l) n h).
Proof.
  intros <- Hf. unfold hash_each, alen. rewrite Nat2Z.id.
  assert (forall l' pre h, l = pre ++ l' ->
    same_hash (afor (fun i h => x ← aget l i; f h x) (length l') (alen pre) h)
              (afor (fun i h => x ← aget (g <$> l) i; f' h x) (length l') (alen pre) h)) as Hg.
  { induction l' as [|x l' IH]; intros pre h Hl; [by eexists|]. simpl.
    assert (aget l (alen pre) = Some x) as Hx by (subst l; by rewrite aget_app_r, Z.sub_diag by lia).
    rewrite aget_fmap, Hx. simpl. apply same_bind; [apply Hf; subst l; set_solver|].
    intros y. specialize (IH (pre ++ [x]) y). rewrite alen_app in IH. apply IH. by rewrite <- app_assoc. }
  intros h. by apply (Hg l []).
Qed.

Section rename.
Context (n : Z) (rho : Z -> Z).
(** A type the reader accepts in a table of [n] types. *)
Definition table_type (t : hl_type) : Prop := type_ok t /\ type_good (hdr n) t.

Lemma same_fields (f f' : Z -> Z -> option Z) (step : Z -> hl_obj_field -> option Z) fs :
  (forall h x, step h (rename_field rho x) = step h x) ->
  (forall h x, x ∈ fs -> same_hash (step h x) (step h x)) ->
  (forall h i, 0 <= i < n -> same_hash (f h i) (f' h (rho i))) ->
  Forall (field_good (hdr n)) fs -> forall h,
  same_hash (hash_each (fun h x => h ← step h x; f h (f_t x)) fs (alen fs) h)
            (hash_each (fun h x => h ← step h x; f' h (f_t x)) (rename_field rho <$> fs) (alen fs) h).
Proof.
  intros Hs Hst Hf Hg h. rewrite Forall_forall in Hg. apply same_each; [done|]. intros h' x Hx. rewrite Hs.
  apply same_bind; [by apply Hst|]. intros y. apply Hf. by apply Hg.
Qed.

(** Split the kinds that carry a given member, and evaluate the tests on them. *)
Ltac eval_kind := cbv [HFUN HMETHOD HOBJ HSTRUCT HREF HNULL HVIRTUAL HENUM HABSTRACT HPACKED Z.eqb Pos.eqb orb].
Ltac no_kind Hk :=
  let E1 := fresh in let E2 := fresh in let E3 := fresh in let E4 := fresh in let E5 := fresh in let E6 := fresh in
  apply negb_true_iff in Hk;
  apply orb_false_iff in Hk as [[[[[E1 E2]%orb_false_iff E3]%orb_false_iff E4]%orb_false_iff E5]%orb_false_iff
                                 [E6 _]%orb_false_iff];
  rewrite ?E1, ?E2, ?E3, ?E4, ?E5, ?E6.
Ltac split_kind Hk :=
  repeat first [apply orb_true_iff in Hk as [Hk|Hk]]; apply Z.eqb_eq in Hk; subst; eval_kind.

Lemma same_ids (f f' : Z -> Z -> option Z) l m : alen l = m ->
  (forall h i, 0 <= i < n -> same_hash (f h i) (f' h (rho i))) -> Forall (type_idx (hdr n)) l ->
  forall h, same_hash (hash_each f l m h) (hash_each f' (rho <$> l) m h).
Proof.
  intros Hm Hf Hl h. rewrite Forall_forall in Hl. apply same_each; [done|]. intros h' x Hx. by apply Hf, Hl.
Qed.

Lemma same_body f f' t : table_type t -> (forall h i, 0 <= i < n -> same_hash (f h i) (f' h (rho i))) ->
  same_hash (hash_type_body f t) (hash_type_body f' (rename_type rho t)).
Proof.
  intros [Ho Hg] Hf. unfold hash_type_body. apply same_bind; [apply same_H|]. intros h.
  destruct t as [k d]. unfold type_ok, type_good, rename_type, as_fun, as_obj, as_virt, as_enum, as_abs, as_param in *.
  cbn [kind tdata] in *. destruct Hg as (_ & Hk & Hg). unfold kind_data in Hk.
  destruct d as [|[na args ret]|[nf np nb name sup fs ps bs gv]|fs|u|[name nc cs gv]|p]; cbn in Ho, Hg.
  - no_kind Hk. by eexists.
  - destruct Hg as [Hg Hret]. split_kind Hk; cbn; (apply same_bind; [apply same_H|]; intros; apply same_bind; [by apply same_ids|]; intros; by apply Hf).
  - destruct Ho as (Hn & Hl & _).
    split_kind Hk; (apply same_bind; [by apply same_HSTR|]; intros; apply same_bind; [apply same_H32|]; intros;
      apply same_bind; [apply same_H32|]; intros; cbn; apply same_fields; auto using same_H32).
  - split_kind Hk. cbn. apply same_bind.
    { unfold alen. rewrite length_fmap. apply same_H32. }
    intros. replace (alen (rename_field rho <$> fs)) with (alen fs) by (unfold alen; by rewrite length_fmap).
    apply same_fields; auto using same_H32.
  - split_kind Hk. by apply same_HSTR.
  - destruct Ho as (Hn & Hl & Hc). rewrite Forall_forall in Hc. rewrite Forall_forall in Hg.
    split_kind Hk. cbn. apply same_bind; [by apply same_HSTR|]. intros. apply same_each; [done|].
    intros h' c Hin. destruct (Hc c Hin). cbn. apply same_bind; [apply same_H|]. intros.
    apply same_bind; [by apply same_HSTR|]. intros. apply same_ids; [done|done|by apply Hg].
  - split_kind Hk; [by apply Hf..|by eexists].
Qed.

Lemma same_rec th th' t : table_type t ->
  (forall h i, 0 <= i < n -> same_hash (htype th h i) (htype th' h (rho i))) ->
  same_hash (hash_type_rec th t) (hash_type_rec th' (rename_type rho t)).
Proof.
  intros [Ho Hg] Hf. unfold hash_type_rec.
  destruct t as [k d]. unfold type_ok, type_good, rename_type, as_fun, as_obj, as_virt, as_enum, as_abs, as_param in *.
  cbn [kind tdata] in *. destruct Hg as (_ & Hk & Hg). unfold kind_data in Hk.
  destruct d as [|[na args ret]|[nf np nb name sup fs ps bs gv]|fs|u|[name nc cs gv]|p]; cbn in Ho, Hg.
  - no_kind Hk. by eexists.
  - destruct Hg as [Hg Hret]. split_kind Hk; cbn; (apply same_bind; [by apply same_ids|]; intros; by apply Hf).
  - destruct Ho as (Hn & Hl & _). rewrite Forall_forall in Hg.
    split_kind Hk; cbn; (apply same_each; [done|]; intros; by apply Hf, Hg).
  - rewrite Forall_forall in Hg. split_kind Hk. cbn.
    replace (alen (rename_field rho <$> fs)) with (alen fs) by (unfold alen; by rewrite length_fmap).
    apply same_each; [done|]. intros. by apply Hf, Hg.
  - split_kind Hk. by eexists.
  - destruct Ho as (Hn & Hl & Hc). rewrite Forall_forall in Hc. rewrite Forall_forall in Hg.
    split_kind Hk. cbn. apply same_each; [done|]. intros h' c Hin. destruct (Hc c Hin). cbn.
    apply same_ids; [done|done|by apply Hg].
  - split_kind Hk; [by apply Hf..|by eexists].
Qed.

(** Two type tables that are the same up to renumbering by [rho]. *)
Definition renumbered (types types' : list hl_type) : Prop :=
  Forall table_type types /\ alen types = n /\ alen types' = n /\
  (forall i, 0 <= i < n -> 0 <= rho i < n) /\ (forall j, 0 <= j < n -> exists i, 0 <= i < n /\ rho i = j) /\
  (forall i t, aget types i = Some t -> aget types' (rho i) = Some (rename_type rho t)).

(** A table computed entry by entry, on both sides. *)
Lemma renumbered_table (g g' : hl_type -> option Z) types types' : renumbered types types' ->
  (forall i t, aget types i = Some t -> same_hash (g t) (g' (rename_type rho t))) ->
  exists l l', mapM g types = Some l /\ mapM g' types' = Some l' /\ alen l = n /\ alen l' = n /\
    forall i, 0 <= i < n -> exists t x, aget types i = Some t /\ g t = Some x /\ aget l i = Some x /\ aget l' (rho i) = Some x.
Proof.
  intros (_ & Hl & Hl' & Hin & Hsurj & Hmap) Hg.
  destruct (mapM_total g (fun t x => g t = Some x) types) as (l & Hml & HF).
  { intros t [i Hi]%aget_elem. destruct (Hg i t Hi) as (x & -> & _). eauto. }
  destruct (mapM_total g' (fun t x => g' t = Some x) types') as (l' & Hml' & HF').
  { intros t' [j Hj]%aget_elem. destruct (Hsurj j) as (i & Hi & <-); [apply aget_Some_range in Hj; lia|].
    destruct (aget_is_Some types i) as [t Ht]; [lia|]. rewrite (Hmap i t Ht) in Hj. injection Hj as <-.
    destruct (Hg i t Ht) as (x & _ & ->). eauto. }
  exists l, l'. rewrite Hml, Hml', (Forall2_alen _ _ _ HF), (Forall2_alen _ _ _ HF'). split_and!; try done.
  intros i Hi. destruct (aget_is_Some types i) as [t Ht]; [lia|]. destruct (Hg i t Ht) as (x & Hgx & Hgx').
  exists t, x. split; [done|]. split; [done|].
  destruct (Forall2_aget _ _ _ _ _ HF Ht) as (y & Hy & Hgy).
  destruct (Forall2_aget _ _ _ _ _ HF' (Hmap i t Ht)) as (y' & Hy' & Hgy'). split; congruence.
Qed.

Lemma aget_zip {A B} (l : list A) (k : list B) i x y :
  aget l i = Some x -> aget k i = Some y -> aget (zip l k) i = Some (x, y).
Proof.
  intros Hx Hy. pose proof (aget_Some_range _ _ _ Hx). rewrite aget_lookup in Hx by lia.
  rewrite aget_lookup in Hy by lia. rewrite aget_lookup by lia. apply lookup_zip_with_Some. by exists x, y.
Qed.
Lemma mapM_zip {A B} (f : A -> B -> option Z) (l : list A) (k : list B) : alen k = alen l ->
  (forall i x y, aget l i = Some x -> aget k i = Some y -> is_Some (f x y)) ->
  exists m, mapM (fun '(x, y) => f x y) (zip l k) = Some m /\ alen m = alen l /\
    forall i x y, aget l i = Some x -> aget k i = Some y -> aget m i = f x y.
Proof.
  intros Hl Hf. destruct (mapM_total (fun '(x, y) => f x y) (fun p z => f p.1 p.2 = Some z) (zip l k)) as (m & Hm & HF).
  { intros [x y] [i Hi]%aget_elem. pose proof (aget_Some_range _ _ _ Hi). rewrite aget_lookup in Hi by lia.
    apply lookup_zip_with_Some in Hi as (x' & y' & [= <- <-] & Hx & Hy).
    destruct (Hf i x y) as [z Hz]; [by rewrite aget_lookup by lia..|]. exists z. by split. }
  exists m. split; [done|]. split.
  - rewrite (Forall2_alen _ _ _ HF). unfold alen in *. rewrite length_zip_with. lia.
  - intros i x y Hx Hy. destruct (Forall2_aget _ _ _ _ _ HF (aget_zip _ _ _ _ _ Hx Hy)) as (z & Hz & Hfz).
    simpl in Hfz. congruence.
Qed.

Lemma hash_types_renumbered types types' : renumbered types types' ->
  exists hs hs', hash_types types = Some hs /\ hash_types types' = Some hs' /\ alen hs = n /\ alen hs' = n /\
    forall i, 0 <= i < n -> aget hs' (rho i) = aget hs i.
Proof.
  intros Hr. pose proof Hr as (Htt & Hl & Hl' & Hin & Hsurj & Hmap). rewrite Forall_forall in Htt.
  assert (forall i t, aget types i = Some t -> table_type t) as Ht by (intros i t Hi; apply Htt, aget_elem; eauto).
  destruct (renumbered_table (hash_type_first types false) (hash_type_first types' false) types types' Hr)
    as (fs & fs' & Hfs & Hfs' & Hlf & Hlf' & Hfi).
  { intros i t Hi. apply same_body; [by eapply Ht|]. intros h j Hj.
    destruct (aget_is_Some types j) as [u Hu]; [lia|]. rewrite Hu, (Hmap j u Hu). cbn [mbind option_bind].
    apply same_bind; [|intros; apply same_H32]. apply same_body; [by eapply Ht|]. intros. by eexists. }
  assert (forall i t, aget types i = Some t -> same_hash (hash_type_rec fs t) (hash_type_rec fs' (rename_type rho t))) as Hrec.
  { intros i t Hi. apply same_rec; [by eapply Ht|]. intros h j Hj. unfold htype.
    destruct (Hfi j Hj) as (u & x & _ & _ & -> & ->). apply same_H32. }
  destruct (mapM_zip (fun t x => y ← hash_type_rec fs t; Some (Z.lxor x y)) types fs) as (hs & Hhs & Hlh & Hgh); [lia|..].
  { intros i t x Hi _. destruct (Hrec i t Hi) as (y & -> & _). by eexists. }
  destruct (mapM_zip (fun t x => y ← hash_type_rec fs' t; Some (Z.lxor x y)) types' fs') as (hs' & Hhs' & Hlh' & Hgh'); [lia|..].
  { intros j t' x Hj _. destruct (Hsurj j) as (i & Hi & <-); [apply aget_Some_range in Hj; lia|].
    destruct (aget_is_Some types i) as [t Hti]; [lia|]. rewrite (Hmap i t Hti) in Hj. injection Hj as <-.
    destruct (Hrec i t Hti) as (y & _ & ->). by eexists. }
  exists hs, hs'. unfold hash_types. rewrite Hfs, Hfs'. cbn [mbind option_bind]. rewrite Hhs, Hhs'.
  split; [done|]. split; [done|]. split; [lia|]. split; [lia|]. intros i Hi.
  destruct (Hfi i Hi) as (t & x & Hti & _ & Hx & Hx').
  rewrite (Hgh i t x Hti Hx), (Hgh' (rho i) _ x (Hmap i t Hti) Hx').
  destruct (Hrec i t Hti) as (y & -> & ->). done.
Qed.
End rename.

Lemma rename_id t : rename_type (fun i => i) t = t.
Proof.
  assert (forall fs : list hl_obj_field, rename_field (fun i => i) <$> fs = fs) as Hf.
  { intros fs. rewrite <- (list_fmap_id fs) at 2. apply list_fmap_ext. by intros _ [] _. }
  destruct t as [k [|[]|[]|fs|u|[]|p]]; unfold rename_type; simpl; try done.
  - do 3 f_equal. apply list_fmap_id.
  - do 3 f_equal; [by destruct o_super|apply Hf].
  - do 2 f_equal. apply Hf.
  - do 3 f_equal. rewrite <- (list_fmap_id e_constructs) at 2. apply list_fmap_ext. intros _ [] _.
    unfold rename_construct; simpl. f_equal. apply list_fmap_id.
Qed.

(** ** Properties *)
(** The table is the CRC-32 table: row [i] is what eight steps of the shift
    register with the polynomial 0x04c11db7 make of the byte [i] at its top. *)
Theorem crc32_table_rows : crc32_table = crc_row <$> seqZ 0 256.
Proof. vm_compute. reflexivity. Qed.

(** A change of one word is always seen.  Hashing two lists of words that differ
    in exactly one place, from the same state, never gives the same hash, although
    the step shifts the sign of the state in and uses a table made for the other bit
    order. *)
Theorem hash_words_change h l a b m :
  in_i32 h -> in_i32 a -> in_i32 b -> a <> b ->
  exists x y, hash_each H32 (l ++ a :: m) (alen (l ++ a :: m)) h = Some x /\
    hash_each H32 (l ++ b :: m) (alen (l ++ b :: m)) h = Some y /\ x <> y.
Proof.
  intros Hh Ha Hb Hne. rewrite !hash_words. do 2 eexists. split; [done|]. split; [done|].
  rewrite !foldl_app. cbn [foldl]. intros He. apply foldl_step_inj in He; [|apply step32_in..].
  apply step32_inj in He; [done| |done..]. clear - Hh. revert h Hh.
  induction l as [|x l IH]; intros h Hh; [done|]. apply IH, step32_in.
Qed.
Lemma hash_words_change_witness :
  exists x y, hash_each H32 ([3] ++ (-1) :: [7; 8]) (alen ([3] ++ (-1) :: [7; 8])) (-1) = Some x /\
    hash_each H32 ([3] ++ 5 :: [7; 8]) (alen ([3] ++ 5 :: [7; 8])) (-1) = Some y /\ x <> y.
Proof. apply (hash_words_change (-1) [3] (-1) 5 [7; 8]); unfold in_i32, INT_MIN, INT_MAX; lia. Defined.

(** C29. The hash of a type does not depend on where it is in the table: reordering
    the type table (and every reference to it) moves the hashes along. *)
Theorem hash_types_order_independent rho types types' :
  renumbered (alen types) rho types types' ->
  exists hs hs', hash_types types = Some hs /\ hash_types types' = Some hs' /\
    alen hs = alen types /\ alen hs' = alen types /\
    forall i, 0 <= i < alen types -> aget hs' (rho i) = aget hs i.
Proof. apply hash_types_renumbered. Qed.

Definition sample_types : list hl_type :=
  [Type_ HVOID TNone; Type_ HI32 TNone; Type_ HFUN (TFun (TypeFun 1 [1] 0));
   Type_ HVIRTUAL (TVirt [ObjField [102; 0] 2 9])].
Definition swapped_types : list hl_type :=
  [Type_ HVIRTUAL (TVirt [ObjField [102; 0] 1 9]); Type_ HFUN (TFun (TypeFun 1 [2] 3));
   Type_ HI32 TNone; Type_ HVOID TNone].
Lemma sample_types_renumbered : renumbered (alen sample_types) (fun i => 3 - i) sample_types swapped_types.
Proof.
  assert (name_ok [102; 0]) as Hn.
  { exists [102]. split; [apply (cstring_intro [102] [])|]; repeat constructor; lia. }
  unfold renumbered. change (alen sample_types) with 4. split_and!; try done; try lia.
  - repeat constructor; unfold type_idx, field_good, field_ok; simpl; try done; try lia.
  - intros j Hj. exists (3 - j). lia.
  - intros i t Hi. pose proof (aget_Some_range _ _ _ Hi) as Hr. change (alen sample_types) with 4 in Hr.
    assert (i = 0 \/ i = 1 \/ i = 2 \/ i = 3) as [->|[->|[->| ->]]] by lia; vm_compute in Hi; injection Hi as <-; done.
Qed.
Lemma hash_types_order_independent_witness :
  exists hs hs', hash_types sample_types = Some hs /\ hash_types swapped_types = Some hs' /\
    alen hs = alen sample_types /\ alen hs' = alen sample_types /\
    forall i, 0 <= i < alen sample_types -> aget hs' (3 - i) = aget hs i.
Proof. apply (hash_types_order_independent (fun i => 3 - i)). exact sample_types_renumbered. Defined.

(** Every program the reader returns has type hashes: hashing its types never
    reads outside a table or a name. *)
Theorem hash_types_total c : code_ok c ->
  exists hs, hash_types (c_types c) = Some hs /\ alen hs = alen (c_types c).
Proof.
  intros (_ & _ & Ht & _). destruct (hash_types_renumbered (alen (c_types c)) (fun i => i) (c_types c) (c_types c))
    as (hs & _ & H1 & _ & H2 & _); [|eauto].
  split_and!; try done; [intros j Hj; eauto|]. intros i t Hi. by rewrite rename_id.
Qed.

Lemma op_ok_intro x o : op_of_Z (op x) = Some o -> operands_ok o x -> op_ok x.
Proof. intros Ho Hok o' Ho'. congruence. Qed.
Definition sample_code : hl_code :=
  Code 4 false 0 [7] [] (Strings [] [] []) (None, []) None sample_types 4 [0; 3] []
    [Function 0 1 3 2 [0]
       [Opcode (op_num OGetGlobal) (Some 0) (Some 1) None ExtraNone; Opcode (op_num OSetGlobal) (Some 0) (Some 0) None ExtraNone;
        Opcode (op_num ORet) (Some 0) None None ExtraNone] [] 0 []] 1
    (Identities [0] [None] [0]) [Constant 1 0 []] [] [].
Lemma sample_code_ok : code_ok sample_code.
Proof.
  destruct sample_types_renumbered as (Ht & _). split_and!; simpl; try lia.
  - exists 0. split; [done|]. split; [done|]. intros i p l Hi.
    apply aget_Some_range in Hi. unfold alen in Hi; simpl in Hi. lia.
  - exact Ht.
  - repeat constructor; unfold idx_of, alen; simpl; lia.
  - constructor.
  - constructor; [|constructor]. split; [|split; [|split; [|done]]].
    + unfold function_ok; simpl. split_and!; try lia; [done|]. apply Forall_cons. split.
      { apply (op_ok_intro _ OGetGlobal); [by vm_compute|]. split; by eexists. }
      apply Forall_cons. split.
      { apply (op_ok_intro _ OSetGlobal); [by vm_compute|]. split; by eexists. }
      apply Forall_cons. split; [|constructor]. apply (op_ok_intro _ ORet); [by vm_compute|]. by eexists.
    + unfold function_good, type_idx, alen; simpl. split_and!; try lia; [repeat constructor; simpl; lia|].
      repeat constructor; vm_compute; eauto.
    + intros i x Hx. cbn [ops] in Hx. pose proof (aget_Some_range _ _ _ Hx) as Hr. unfold alen in Hr; simpl in Hr.
      assert (i = 0 \/ i = 1 \/ i = 2) as [->|[->| ->]] by lia; vm_compute in Hx; injection Hx as <-;
        (intros _; split; [by vm_compute|intros Ht'; by vm_compute in Ht']).
  - done.
  - repeat constructor.
Qed.
Lemma hash_types_total_witness :
  exists hs, hash_types (c_types sample_code) = Some hs /\ alen hs = alen (c_types sample_code).
Proof. apply (hash_types_total sample_code). exact sample_code_ok. Defined.

(** C12. Remapping the globals of a new version of a program onto an old one.  When the
    program refers to globals it has, the remap always succeeds.  Every global gets a
    slot that carries its signature, and the type of a global with that signature.
    Globals with different signatures never share a slot, so a global whose signature no
    other has keeps its own type; globals with one signature can share an old slot, and
    then only the last of them keeps its type.  A global takes an old slot with its
    signature (the first one, if the signature is its own), and a new slot of its own
    only if earlier globals have taken every old one.  The other old slots are left
    alone, and every opcode, constant and type that names a global names its new slot. *)
Theorem hl_code_hash_remap_globals_correct {G} (void : G) c globals signs oldg olds :
  alen signs = alen globals -> alen olds = alen oldg -> refs_ok (alen globals) c ->
  exists r slot, hl_code_hash_remap_globals void c globals signs oldg olds = Some r /\
    keeps_globals c globals signs oldg olds slot r.
Proof.
  intros Hls Hlo Hr. destruct (remap_globals_spec void c globals signs oldg olds Hls Hlo Hr)
    as (e & remap & r & _ & Hrun & _ & _ & _ & Hk). by exists r, (aget remap).
Qed.

Lemma sample_code_refs : refs_ok 2 sample_code.
Proof.
  split_and!.
  - repeat constructor; exists 0; split; (done || lia).
  - repeat constructor; simpl; lia.
  - apply Forall_cons_2; [|constructor]. repeat (apply Forall_cons_2; [|]); [..|constructor];
      (split; intros He; try (by vm_compute in He); eexists; (split; [done|lia])).
Qed.
(** The old program has the signatures 50 and 60; global 1 of the new one is its
    first global, global 0 is new. *)
Lemma hl_code_hash_remap_globals_correct_witness :
  exists r slot, hl_code_hash_remap_globals (-1) sample_code [0; 3] [70; 50] [10; 11] [50; 60] = Some r /\
    keeps_globals sample_code [0; 3] [70; 50] [10; 11] [50; 60] slot r.
Proof.
  apply (hl_code_hash_remap_globals_correct (-1) sample_code [0; 3] [70; 50] [10; 11] [50; 60]).
  - reflexivity.
  - reflexivity.
  - exact sample_code_refs.
Defined.
Lemma sample_remap :
  (fun r => (r_globals r, r_signs r, (fun f => ops f) <$> r_functions r)) <$>
    hl_code_hash_remap_globals (-1) sample_code [0; 3] [70; 50] [10; 11] [50; 60] =
  Some ([3; 11; 0], [50; 60; 70],
        [[Opcode (op_num OGetGlobal) (Some 0) (Some 0) None ExtraNone; Opcode (op_num OSetGlobal) (Some 2) (Some 0) None ExtraNone;
          Opcode (op_num ORet) (Some 0) None None ExtraNone]]).
Proof. vm_compute. reflexivity. Qed.

Lemma first_index_NoDup l i s k : NoDup l -> aget l i = Some s -> first_index l s k -> k = i.
Proof.
  intros Hnd Hi [[-> Hno]|[Hk _]]; [destruct Hno; apply aget_elem; eauto|].
  pose proof (aget_Some_range _ _ _ Hi). pose proof (aget_Some_range _ _ _ Hk).
  rewrite aget_lookup in Hi by lia. rewrite aget_lookup in Hk by lia. pose proof (NoDup_lookup _ _ _ _ Hnd Hi Hk). lia.
Qed.
Lemma Forall2_same {A} (P : A -> A -> Prop) l k : (forall x y, P x y -> y = x) -> Forall2 P l k -> k = l.
Proof. intros HP. induction 1; f_equal; auto. Qed.

Section unmoved.
Context (slot : Z -> option Z) (Hslot : forall i k, slot i = Some k -> k = i).
Lemma op_unmoved o o' : op_moved slot o o' -> o' = o.
Proof using Hslot.
  unfold op_moved. destruct o as [q a b d e]; simpl. case_if_bool; [|case_if_bool]; [..|done].
  - intros (x & x' & -> & Hx & ->). by rewrite (Hslot _ _ Hx).
  - intros (x & x' & -> & Hx & ->). by rewrite (Hslot _ _ Hx).
Qed.
Lemma function_unmoved f f' : function_moved slot f f' -> f' = f.
Proof using Hslot.
  intros (os & Hos & ->). rewrite (Forall2_same _ _ _ op_unmoved Hos). by destruct f.
Qed.
Lemma constant_unmoved k k' : constant_moved slot k k' -> k' = k.
Proof using Hslot. intros (g & Hg & ->). rewrite (Hslot _ _ Hg). by destruct k. Qed.
Lemma type_unmoved t t' : type_moved slot t t' -> t' = t.
Proof using Hslot.
  intros (v & Hv & [[_ ->]|(Hv0 & g & Hg & ->)]); [done|]. rewrite (Hslot _ _ Hg). replace (v - 1 + 1) with v by lia.
  unfold global_value_of, as_obj, as_enum, set_global_value in *. destruct t as [k d]; simpl in *.
  destruct ((k =? HOBJ) || (k =? HSTRUCT)); [|destruct (k =? HENUM); [|congruence]].
  - destruct d as [| |[]| | | |]; simpl in *; try done. congruence.
  - destruct d as [| | | | |[]|]; simpl in *; try done. congruence.
Qed.
End unmoved.

(** Reloading an unchanged program changes nothing: when the old program has the
    same signatures, all distinct, the remap keeps every index, type, constant and
    function, and adds no global. *)
Theorem hl_code_hash_remap_globals_self {G} (void : G) c globals signs oldg :
  NoDup signs -> alen signs = alen globals -> alen oldg = alen globals -> refs_ok (alen globals) c ->
  hl_code_hash_remap_globals void c globals signs oldg signs =
    Some (Remapped (c_types c) (c_constants c) (c_functions c) globals signs).
Proof.
  intros Hnd Hls Hlo Hr.
  destruct (remap_globals_spec void c globals signs oldg signs Hls ltac:(lia) Hr)
    as (e & remap & r & Ht & -> & Hsl & Hlg & Hlsg & H1 & _ & _ & H3 & _ & Hts & Hks & Hfs).
  destruct (remap_table_spec signs signs) as (e' & remap' & Ht' & _ & Hext).
  assert (forall i s, aget signs i = Some s -> only_at signs s i /\ s ∈ signs) as Honly.
  { intros i s Hi. split; [split; [done|]|apply aget_elem; eauto]. intros j Hj. pose proof (aget_Some_range _ _ _ Hi). pose proof (aget_Some_range _ _ _ Hj).
    rewrite aget_lookup in Hi, Hj by lia. pose proof (NoDup_lookup _ _ _ _ Hnd Hi Hj). lia. }
  rewrite Ht in Ht'. injection Ht' as <- <-. specialize (Hext Honly). assert (e = 0) as -> by lia.
  destruct Hsl as (Hl & _ & Hs & _).
  assert (forall i k, aget remap i = Some k -> k = i) as Hslot.
  { intros i k Hk. pose proof (aget_Some_range _ _ _ Hk). destruct (aget_is_Some signs i) as [s Hsi]; [lia|].
    destruct (Honly i s Hsi) as [Ho Hin]. destruct (H3 i s Ho Hin) as (k' & Hk' & Hf).
    pose proof (first_index_NoDup _ _ _ _ Hnd Hsi Hf). congruence. }
  f_equal. destruct r as [ts ks fs gs ss]; simpl in *.
  rewrite (Forall2_same _ _ _ (type_unmoved _ Hslot) Hts), (Forall2_same _ _ _ (constant_unmoved _ Hslot) Hks),
    (Forall2_same _ _ _ (function_unmoved _ Hslot) Hfs).
  f_equal; apply aget_ext; try lia; intros i Hi; (destruct (aget_is_Some signs i) as [s Hsi]; [lia|]);
    destruct (H1 i s Hsi) as (k & Hk & Hsk & j & _ & Hj & _ & Hgk); apply Hslot in Hk as ->, Hj as ->; congruence.
Qed.
Lemma hl_code_hash_remap_globals_self_witness :
  hl_code_hash_remap_globals (-1) sample_code [0; 3] [70; 50] [10; 11] [70; 50] =
    Some (Remapped (c_types sample_code) (c_constants sample_code) (c_functions sample_code) [0; 3] [70; 50]).
Proof.
  apply (hl_code_hash_remap_globals_self (-1) sample_code [0; 3] [70; 50] [10; 11]).
  - apply NoDup_cons_2; [set_solver|]. apply NoDup_cons_2; [set_solver|constructor].
  - reflexivity.
  - reflexivity.
  - exact sample_code_refs.
Defined.

(** The signatures of globals that hold abstracts are not distinct: the hash of the
    type is stored first and then xor-ed with itself.  Two such globals of a new
    program can end up in one slot. *)
Definition abstract_code : hl_code :=
  Code 4 false 0 [] [] (Strings [] [] []) (None, []) None
    [Type_ HVOID TNone; Type_ HABSTRACT (TAbs [97; 0]); Type_ HABSTRACT (TAbs [98; 0]); Type_ HFUN (TFun (TypeFun 0 [] 0))] 4
    [1; 2] [] [Function 0 0 0 3 [] [] [] 0 []] 1 (Identities [0] [None] [0]) [] [] [].
Lemma abstract_signs_zero : globals_signs <$> hl_code_hash_alloc abstract_code = Some [0; 0].
Proof. vm_compute. reflexivity. Qed.
Lemma remap_same_slot : remap_table [9; 0; 0] [0; 0] = Some (1, [1; 1]).
Proof. vm_compute. reflexivity. Qed.
(** Their type is then that of the last: the type of the first is nowhere in the table. *)
Lemma remap_loses_a_type :
  r_globals <$> hl_code_hash_remap_globals (-1) abstract_code [1; 2] [0; 0] [7; 8; 9] [9; 0; 0] = Some [7; 2; 9; -1].
Proof. vm_compute. reflexivity. Qed.
