(* ===== verification/Aarch64.v ===== *)
(** * The AArch64 instruction encoder ([src/jit_aarch64_emit.c])

    One definition per encoding function, over the code buffer (the [byte_arr] of
    [DataStruct]); an emission past the reserved space is [None].  [load_immediate]
    and the encoding of logical immediates are the algorithms of the file. *)
From S2P Require Import Prelude DataStruct.

(** The code buffer of [code_ctx]: [ctx->code]. *)
Abbreviation code_buf := (Unsorted.arr Z).

(** [BITS(val,start,len)] and [BIT(val,pos)], on [unsigned int]. *)
Definition BITS (val start len : Z) : Z := u32 (Z.shiftl (Z.land (u32 val) (Z.shiftl 1 len - 1)) start).
Definition BIT (val pos : Z) : Z := u32 (Z.shiftl (Z.land (u32 val) 1) pos).

(** The four bytes of a word, least significant first. *)
Definition le32 (w : Z) : list Z :=
  [Z.land w 255; Z.land (Z.shiftr w 8) 255; Z.land (Z.shiftr w 16) 255; Z.land (Z.shiftr w 24) 255].
Definition EMIT32 (ctx : code_buf) (val : Z) : option code_buf :=
  vals ← acopy (Unsorted.values ctx) (Unsorted.cur ctx) (le32 (u32 val)) 0 4;
  Some (Unsorted.Arr (Unsorted.cur ctx + 4) (Unsorted.max ctx) vals).

(** Bitwise or of the fields of an instruction. *)
Declare Scope insn_scope.
Delimit Scope insn_scope with insn.
Infix "∣∣" := Z.lor (at level 50, left associativity) : insn_scope.
Open Scope insn_scope.

(** ** Encoders *)
(** Register 31: the zero register or the stack pointer, depending on the instruction. *)
Definition XZR : Z := 31.

Definition encode_add_sub_imm ctx (sf op S shift imm12 Rn Rd : Z) :=
  EMIT32 ctx (BIT sf 31 ∣∣ BIT op 30 ∣∣ BIT S 29 ∣∣ BITS 0x22 23 6 ∣∣ BIT shift 22 ∣∣ BITS imm12 10 12 ∣∣
              BITS Rn 5 5 ∣∣ BITS Rd 0 5).
Definition encode_add_sub_reg ctx (sf op S shift Rm imm6 Rn Rd : Z) :=
  EMIT32 ctx (BIT sf 31 ∣∣ BITS op 30 1 ∣∣ BIT S 29 ∣∣ BITS 0x0B 24 5 ∣∣ BITS shift 22 2 ∣∣ BITS Rm 16 5 ∣∣
              BITS imm6 10 6 ∣∣ BITS Rn 5 5 ∣∣ BITS Rd 0 5).
Definition encode_add_sub_ext ctx (sf op S Rm option imm3 Rn Rd : Z) :=
  EMIT32 ctx (BIT sf 31 ∣∣ BITS op 30 1 ∣∣ BIT S 29 ∣∣ BITS 0x0B 24 5 ∣∣ BITS 1 21 2 ∣∣ BITS Rm 16 5 ∣∣
              BITS option 13 3 ∣∣ BITS imm3 10 3 ∣∣ BITS Rn 5 5 ∣∣ BITS Rd 0 5).
Definition encode_logical_imm ctx (sf opc N immr imms Rn Rd : Z) :=
  EMIT32 ctx (BIT sf 31 ∣∣ BITS opc 29 2 ∣∣ BITS 0x24 23 6 ∣∣ BIT N 22 ∣∣ BITS immr 16 6 ∣∣ BITS imms 10 6 ∣∣
              BITS Rn 5 5 ∣∣ BITS Rd 0 5).
Definition encode_logical_reg ctx (sf opc shift N Rm imm6 Rn Rd : Z) :=
  EMIT32 ctx (BIT sf 31 ∣∣ BITS opc 29 2 ∣∣ BITS 0x0A 24 5 ∣∣ BITS shift 22 2 ∣∣ BIT N 21 ∣∣ BITS Rm 16 5 ∣∣
              BITS imm6 10 6 ∣∣ BITS Rn 5 5 ∣∣ BITS Rd 0 5).
Definition encode_mov_wide_imm ctx (sf opc hw imm16 Rd : Z) :=
  EMIT32 ctx (BIT sf 31 ∣∣ BITS opc 29 2 ∣∣ BITS 0x25 23 6 ∣∣ BITS hw 21 2 ∣∣ BITS imm16 5 16 ∣∣ BITS Rd 0 5).
Definition encode_madd_msub ctx (sf op Rm Ra Rn Rd : Z) :=
  EMIT32 ctx (BIT sf 31 ∣∣ BITS 0xD8 21 8 ∣∣ BITS Rm 16 5 ∣∣ BIT op 15 ∣∣ BITS Ra 10 5 ∣∣ BITS Rn 5 5 ∣∣ BITS Rd 0 5).
Definition encode_div ctx (sf U Rm Rn Rd : Z) :=
  EMIT32 ctx (BIT sf 31 ∣∣ BITS 0xD6 21 8 ∣∣ BITS Rm 16 5 ∣∣ BITS (Z.lor 0x2 U) 10 6 ∣∣ BITS Rn 5 5 ∣∣ BITS Rd 0 5).
Definition encode_shift_reg ctx (sf op2 Rm Rn Rd : Z) :=
  EMIT32 ctx (BIT sf 31 ∣∣ BITS 0xD6 21 8 ∣∣ BITS Rm 16 5 ∣∣ BITS (Z.lor 0x08 op2) 10 6 ∣∣ BITS Rn 5 5 ∣∣ BITS Rd 0 5).
Definition encode_ldr_str_imm ctx (size V opc imm12 Rn Rt : Z) :=
  EMIT32 ctx (BITS size 30 2 ∣∣ BITS 7 27 3 ∣∣ BIT V 26 ∣∣ BITS 1 24 2 ∣∣ BITS opc 22 2 ∣∣ BITS imm12 10 12 ∣∣
              BITS Rn 5 5 ∣∣ BITS Rt 0 5).
Definition encode_ldr_str_reg ctx (size V opc Rm option S Rn Rt : Z) :=
  EMIT32 ctx (BITS size 30 2 ∣∣ BITS 7 27 3 ∣∣ BIT V 26 ∣∣ BITS 0 24 2 ∣∣ BITS opc 22 2 ∣∣ BIT 1 21 ∣∣ BITS Rm 16 5 ∣∣
              BITS option 13 3 ∣∣ BIT S 12 ∣∣ BITS 2 10 2 ∣∣ BITS Rn 5 5 ∣∣ BITS Rt 0 5).
Definition encode_ldur_stur ctx (size V opc imm9 Rn Rt : Z) :=
  EMIT32 ctx (BITS size 30 2 ∣∣ BITS 7 27 3 ∣∣ BIT V 26 ∣∣ BITS 0 24 2 ∣∣ BITS opc 22 2 ∣∣ BIT 0 21 ∣∣
              BITS (Z.land imm9 0x1FF) 12 9 ∣∣ BITS 0 10 2 ∣∣ BITS Rn 5 5 ∣∣ BITS Rt 0 5).

(** The addressing mode and the load bit that [mode] stands for. *)
Definition ldp_mode (mode : Z) : Z * Z :=
  if negb (Z.land mode 0x10 =? 0) then (Z.land mode 3, 0)
  else if mode =? 0x03 then (3, 0)
  else if mode =? 0x01 then (1, 1)
  else (Z.land mode 3, 1).
Definition encode_ldp_stp ctx (opc V mode imm7 Rt2 Rn Rt : Z) :=
  let '(addr_mode, L) := ldp_mode mode in
  EMIT32 ctx (BITS opc 30 2 ∣∣ BITS 5 27 3 ∣∣ BIT V 26 ∣∣ BITS addr_mode 23 2 ∣∣ BIT L 22 ∣∣ BITS imm7 15 7 ∣∣
              BITS Rt2 10 5 ∣∣ BITS Rn 5 5 ∣∣ BITS Rt 0 5).

Definition encode_adrp ctx (immlo immhi Rd : Z) :=
  EMIT32 ctx (BITS 1 31 1 ∣∣ BITS immlo 29 2 ∣∣ BITS 0x10 24 5 ∣∣ BITS immhi 5 19 ∣∣ BITS Rd 0 5).
Definition encode_adr ctx (immlo immhi Rd : Z) :=
  EMIT32 ctx (BITS 0 31 1 ∣∣ BITS immlo 29 2 ∣∣ BITS 0x10 24 5 ∣∣ BITS immhi 5 19 ∣∣ BITS Rd 0 5).
Definition encode_branch_cond ctx (imm19 cond : Z) :=
  EMIT32 ctx (BITS 0x54 24 8 ∣∣ BITS imm19 5 19 ∣∣ BITS cond 0 4).
Definition encode_branch_uncond ctx (imm26 : Z) := EMIT32 ctx (BITS 0x05 26 6 ∣∣ BITS imm26 0 26).
Definition encode_branch_link ctx (imm26 : Z) := EMIT32 ctx (BITS 0x25 26 6 ∣∣ BITS imm26 0 26).
Definition encode_branch_reg ctx (opc Rn : Z) :=
  EMIT32 ctx (BITS 0x6B0 21 11 ∣∣ BITS opc 21 2 ∣∣ BITS 0x1F 16 5 ∣∣ BITS Rn 5 5).
Definition encode_cbz_cbnz ctx (sf op imm19 Rt : Z) :=
  EMIT32 ctx (BIT sf 31 ∣∣ BITS 0x1A 25 6 ∣∣ BIT op 24 ∣∣ BITS imm19 5 19 ∣∣ BITS Rt 0 5).
Definition encode_tbz_tbnz ctx (b5 op b40 imm14 Rt : Z) :=
  EMIT32 ctx (BIT b5 31 ∣∣ BITS 0x1B 25 6 ∣∣ BIT op 24 ∣∣ BITS b40 19 5 ∣∣ BITS imm14 5 14 ∣∣ BITS Rt 0 5).
Definition encode_fp_arith ctx (M S type Rm opcode Rn Rd : Z) :=
  EMIT32 ctx (BIT M 31 ∣∣ BIT S 29 ∣∣ BITS 0x1E 24 5 ∣∣ BITS type 22 2 ∣∣ BITS 1 21 1 ∣∣ BITS Rm 16 5 ∣∣
              BITS opcode 12 4 ∣∣ BITS 2 10 2 ∣∣ BITS Rn 5 5 ∣∣ BITS Rd 0 5).
Definition encode_fp_1src ctx (M S type opcode Rn Rd : Z) :=
  EMIT32 ctx (BIT M 31 ∣∣ BIT S 29 ∣∣ BITS 0x1E 24 5 ∣∣ BITS type 22 2 ∣∣ BITS 1 21 1 ∣∣ BITS opcode 15 6 ∣∣
              BITS 0x10 10 5 ∣∣ BITS Rn 5 5 ∣∣ BITS Rd 0 5).
Definition encode_fp_compare ctx (M S type Rm op Rn : Z) :=
  EMIT32 ctx (BIT M 31 ∣∣ BIT S 29 ∣∣ BITS 0x1E 24 5 ∣∣ BITS type 22 2 ∣∣ BITS 1 21 1 ∣∣ BITS Rm 16 5 ∣∣
              BITS op 14 2 ∣∣ BITS 8 10 4 ∣∣ BITS Rn 5 5).
Definition encode_fcvt_int ctx (sf S type rmode opc Rn Rd : Z) :=
  EMIT32 ctx (BIT sf 31 ∣∣ BIT S 29 ∣∣ BITS 0x1E 24 5 ∣∣ BITS type 22 2 ∣∣ BITS 1 21 1 ∣∣ BITS rmode 19 2 ∣∣
              BITS opc 16 3 ∣∣ BITS Rn 5 5 ∣∣ BITS Rd 0 5).
Definition encode_int_fcvt ctx (sf S type rmode opc Rn Rd : Z) :=
  EMIT32 ctx (BIT sf 31 ∣∣ BIT S 29 ∣∣ BITS 0x1E 24 5 ∣∣ BITS type 22 2 ∣∣ BITS 1 21 1 ∣∣ BITS rmode 19 2 ∣∣
              BITS opc 16 3 ∣∣ BITS Rn 5 5 ∣∣ BITS Rd 0 5).
Definition encode_cond_select ctx (sf op Rm cond op2 Rn Rd : Z) :=
  EMIT32 ctx (BIT sf 31 ∣∣ BIT op 30 ∣∣ BITS 0xD4 21 8 ∣∣ BITS Rm 16 5 ∣∣ BITS cond 12 4 ∣∣ BITS op2 10 2 ∣∣
              BITS Rn 5 5 ∣∣ BITS Rd 0 5).

(** ** Logical immediates *)
(** The compiler's [__builtin_ctzll] and [__builtin_clzll]: undefined at 0. *)
Definition ctzll (x : Z) : option Z := list_find (fun i => Z.testbit x i = true) (seqZ 0 64) ≫= fun p => Some p.2.
Definition clzll (x : Z) : option Z :=
  p ← list_find (fun i => Z.testbit x (63 - i) = true) (seqZ 0 64); Some p.2.

Definition rotate_right_64 (val rotation : Z) : Z :=
  Z.lor (Z.shiftr val (Z.land rotation 63)) (u64 (Z.shiftl val (Z.land (- rotation) 63))).

(** The fields [N], [immr] and [imms], or [None] when the value cannot be encoded; the
    outer option is undefined behaviour. *)
Definition is_logical_immediate_64 (val : Z) : option (option (Z * Z * Z)) :=
  if (val =? 0) || (u64 (Z.lnot val) =? 0) then Some None else
  let tmp := Z.land val (u64 (val + 1)) in
  rotation ← (if tmp =? 0 then Some 0 else ctzll tmp);
  let normalized := rotate_right_64 val rotation in
  zeroes ← clzll normalized;
  ones ← ctzll (u64 (Z.lnot normalized));
  let size := zeroes + ones in
  if negb (rotate_right_64 val size =? val) then Some None else
  Some (Some (Z.shiftr size 6, Z.land (- rotation) (size - 1),
              Z.land (Z.lor (- Z.shiftl size 1) (ones - 1)) 0x3f)).

Definition is_logical_immediate_32 (val : Z) : option (option (Z * Z * Z)) :=
  if (val =? 0) || (val =? 0xFFFFFFFF) then Some None else
  r ← is_logical_immediate_64 (Z.lor (Z.shiftl val 32) val);
  match r with
  | Some (N, immr, imms) => Some (if negb (N =? 0) then None else Some (N, immr, imms))
  | None => Some None
  end.

(** ** Loading an immediate *)
Definition halfword (uval i : Z) : Z := Z.land (Z.shiftr uval (i * 16)) 0xFFFF.
Definition count_hw (uval total : Z) (p : Z -> bool) : Z :=
  Z.of_nat (length (filter (fun i => p (halfword uval i) = true) (seqZ 0 total))).

(** The loops over the halfwords: the first one that differs from [skip] sets the
    register with [opc] (on [f] of it), the others patch it with MOVK. *)
Definition mov_sequence (sf opc uval total dst skip : Z) (f : Z -> Z) (ctx : code_buf) : option code_buf :=
  '(_, ctx) ← afor (fun i '((first, ctx) : bool * code_buf) =>
      let hw_val := halfword uval i in
      if hw_val =? skip then Some (first, ctx)
      else if first then ctx ← encode_mov_wide_imm ctx sf opc i (f hw_val) dst; Some (false, ctx)
      else ctx ← encode_mov_wide_imm ctx sf 3 i hw_val dst; Some (false, ctx))
    (Z.to_nat total) 0 (true, ctx);
  Some ctx.

(** [val] is an [int64_t]. *)
Definition load_immediate (ctx : code_buf) (val dst : Z) (is_64bit : bool) : option code_buf :=
  let sf := if is_64bit then 1 else 0 in
  if val =? 0 then encode_logical_reg ctx sf 1 0 0 XZR 0 XZR dst
  else if (negb is_64bit && (val =? 0xFFFFFFFF)) || (is_64bit && (val =? -1)) then
    encode_mov_wide_imm ctx sf 0 0 0 dst
  else if (val <? 0) && (val >=? -65536) then
    encode_mov_wide_imm ctx sf 0 0 (Z.land (i32 (Z.lnot val)) 0xFFFF) dst
  else if (val >? 0) && (val <=? 65535) then encode_mov_wide_imm ctx sf 2 0 val dst
  else
    can_encode ← (if is_64bit then is_logical_immediate_64 (u64 val) else is_logical_immediate_32 (u32 val));
    match can_encode with
    | Some (N, immr, imms) => encode_logical_imm ctx sf 1 N immr imms XZR dst
    | None =>
        let uval := u64 val in
        let total_hw := if is_64bit then 4 else 2 in
        let nonzero_count := count_hw uval total_hw (fun x => negb (x =? 0)) in
        let ones_count := count_hw uval total_hw (fun x => x =? 0xFFFF) in
        if ones_count >? nonzero_count then
          mov_sequence sf 0 uval total_hw dst 0xFFFF (fun x => Z.land (Z.lnot x) 0xFFFF) ctx
        else mov_sequence sf 2 uval total_hw dst 0 (fun x => x) ctx
    end.
