(* ===== verification/Aarch64Isa.v ===== *)
(** * The AArch64 instruction formats and the moves, as the architecture manual has them

    The abstract specification of [Aarch64]: the layout of each instruction class as a
    sequence of fixed and operand fields, decoding by these layouts, and the effect on
    the registers of the instructions [load_immediate] uses. *)
From S2P Require Import Prelude.

(** ** Layouts *)
Inductive piece := Fix (len v : Z) | Op (len : Z).
Abbreviation layout := (list piece).

(** Fields from the most significant one; operands are taken modulo their width. *)
Fixpoint assemble (l : layout) (ops : list Z) (w : Z) : Z :=
  match l, ops with
  | Fix n v :: l, ops => assemble l ops (w * 2 ^ n + v)
  | Op n :: l, x :: ops => assemble l ops (w * 2 ^ n + x mod 2 ^ n)
  | _, _ => w
  end.
Definition width (p : piece) : Z := match p with Fix n _ | Op n => n end.
Definition total (l : layout) : Z := foldr (fun p z => width p + z) 0 l.
(** The operands of [w], if its fixed fields are those of the layout. *)
Fixpoint extract (l : layout) (w : Z) : option (list Z) :=
  match l with
  | [] => Some []
  | p :: l =>
      let v := w / 2 ^ total l mod 2 ^ width p in
      match p with
      | Fix _ c => if v =? c then extract l w else None
      | Op _ => xs ← extract l w; Some (v :: xs)
      end
  end.

Inductive class :=
  | AddSubImm | AddSubReg | AddSubExt | LogicalImm | LogicalReg | MovWide | MulAdd | Div | ShiftReg
  | LoadStoreImm | LoadStoreReg | LoadStoreUnscaled | LoadStorePair | Adrp | Adr
  | BCond | B | BL | BReg | CompareBranch | TestBranch
  | FpArith | Fp1 | FpCompare | FpInt | CondSelect.
#[global] Instance class_eq_dec : EqDecision class.
Proof. solve_decision. Defined.

Definition layout_of (c : class) : layout :=
  match c with
  | AddSubImm => [Op 1; Op 1; Op 1; Fix 6 0x22; Op 1; Op 12; Op 5; Op 5]
  | AddSubReg => [Op 1; Op 1; Op 1; Fix 5 0xb; Op 2; Fix 1 0; Op 5; Op 6; Op 5; Op 5]
  | AddSubExt => [Op 1; Op 1; Op 1; Fix 5 0xb; Fix 2 0; Fix 1 1; Op 5; Op 3; Op 3; Op 5; Op 5]
  | LogicalImm => [Op 1; Op 2; Fix 6 0x24; Op 1; Op 6; Op 6; Op 5; Op 5]
  | LogicalReg => [Op 1; Op 2; Fix 5 0xa; Op 2; Op 1; Op 5; Op 6; Op 5; Op 5]
  | MovWide => [Op 1; Op 2; Fix 6 0x25; Op 2; Op 16; Op 5]
  | MulAdd => [Op 1; Fix 2 0; Fix 5 0x1b; Fix 3 0; Op 5; Op 1; Op 5; Op 5; Op 5]
  | Div => [Op 1; Fix 2 0; Fix 8 0xd6; Op 5; Fix 5 1; Op 1; Op 5; Op 5]
  | ShiftReg => [Op 1; Fix 2 0; Fix 8 0xd6; Op 5; Fix 4 2; Op 2; Op 5; Op 5]
  | LoadStoreImm => [Op 2; Fix 3 7; Op 1; Fix 2 1; Op 2; Op 12; Op 5; Op 5]
  | LoadStoreReg => [Op 2; Fix 3 7; Op 1; Fix 2 0; Op 2; Fix 1 1; Op 5; Op 3; Op 1; Fix 2 2; Op 5; Op 5]
  | LoadStoreUnscaled => [Op 2; Fix 3 7; Op 1; Fix 2 0; Op 2; Fix 1 0; Op 9; Fix 2 0; Op 5; Op 5]
  | LoadStorePair => [Op 2; Fix 3 5; Op 1; Fix 1 0; Op 2; Op 1; Op 7; Op 5; Op 5; Op 5]
  | Adrp => [Fix 1 1; Op 2; Fix 5 0x10; Op 19; Op 5]
  | Adr => [Fix 1 0; Op 2; Fix 5 0x10; Op 19; Op 5]
  | BCond => [Fix 8 0x54; Op 19; Fix 1 0; Op 4]
  | B => [Fix 6 5; Op 26]
  | BL => [Fix 6 0x25; Op 26]
  | BReg => [Fix 9 0x1ac; Op 2; Fix 5 0x1f; Fix 6 0; Op 5; Fix 5 0]
  | CompareBranch => [Op 1; Fix 6 0x1a; Op 1; Op 19; Op 5]
  | TestBranch => [Op 1; Fix 6 0x1b; Op 1; Op 5; Op 14; Op 5]
  | FpArith => [Op 1; Fix 1 0; Op 1; Fix 5 0x1e; Op 2; Fix 1 1; Op 5; Op 4; Fix 2 2; Op 5; Op 5]
  | Fp1 => [Op 1; Fix 1 0; Op 1; Fix 5 0x1e; Op 2; Fix 1 1; Op 6; Fix 5 0x10; Op 5; Op 5]
  | FpCompare => [Op 1; Fix 1 0; Op 1; Fix 5 0x1e; Op 2; Fix 1 1; Op 5; Op 2; Fix 4 8; Op 5; Fix 5 0]
  | FpInt => [Op 1; Fix 1 0; Op 1; Fix 5 0x1e; Op 2; Fix 1 1; Op 2; Op 3; Fix 6 0; Op 5; Op 5]
  | CondSelect => [Op 1; Op 1; Fix 1 0; Fix 8 0xd4; Op 5; Op 4; Op 2; Op 5; Op 5]
  end.
Definition classes : list class :=
  [AddSubImm; AddSubReg; AddSubExt; LogicalImm; LogicalReg; MovWide; MulAdd; Div; ShiftReg;
   LoadStoreImm; LoadStoreReg; LoadStoreUnscaled; LoadStorePair; Adrp; Adr; BCond; B; BL; BReg;
   CompareBranch; TestBranch; FpArith; Fp1; FpCompare; FpInt; CondSelect].

Fixpoint first_match (cs : list class) (w : Z) : option (class * list Z) :=
  match cs with
  | [] => None
  | c :: cs => match extract (layout_of c) w with Some ops => Some (c, ops) | None => first_match cs w end
  end.
Definition decode (w : Z) : option (class * list Z) := first_match classes w.

(** ** Assembling and extracting *)
Definition valid_piece (p : piece) : Prop := match p with Fix n v => 0 <= n /\ 0 <= v < 2 ^ n | Op n => 0 <= n end.
(** The operands modulo their widths. *)
Fixpoint reduce (l : layout) (ops : list Z) : list Z :=
  match l, ops with
  | Fix _ _ :: l, ops => reduce l ops
  | Op n :: l, x :: ops => x mod 2 ^ n :: reduce l ops
  | _, _ => []
  end.
Fixpoint arity (l : layout) : nat :=
  match l with [] => O | Fix _ _ :: l => arity l | Op _ :: l => S (arity l) end.

Lemma total_nonneg l : Forall valid_piece l -> 0 <= total l.
Proof. induction 1 as [|[n v|n] l Hp _ IH]; simpl in *; lia. Qed.

Lemma assemble_shift l : Forall valid_piece l -> forall ops w,
  length ops = arity l ->
  assemble l ops w = w * 2 ^ total l + assemble l ops 0 /\ 0 <= assemble l ops 0 < 2 ^ total l.
Proof.
  induction 1 as [|p l Hp Hl IH]; intros ops w Ha; [destruct ops; simpl; lia|].
  pose proof (total_nonneg l Hl).
  destruct p as [n v|n]; simpl in *.
  - destruct (IH ops (w * 2 ^ n + v) Ha) as [-> Hb]. destruct (IH ops (0 * 2 ^ n + v) Ha) as [-> _].
    rewrite Z.pow_add_r by lia. nia.
  - destruct ops as [|x ops]; [done|]. simpl in Ha. injection Ha as Ha.
    destruct (IH ops (w * 2 ^ n + x mod 2 ^ n) Ha) as [-> Hb]. destruct (IH ops (0 * 2 ^ n + x mod 2 ^ n) Ha) as [-> _].
    assert (0 <= x mod 2 ^ n < 2 ^ n) by (apply Z.mod_pos_bound; lia).
    rewrite Z.pow_add_r by lia. nia.
Qed.

(** What is above the layout does not matter. *)
Lemma extract_high l : Forall valid_piece l -> forall w h, extract l (h * 2 ^ total l + w) = extract l w.
Proof.
  induction 1 as [|p l Hp Hl IH]; intros w h; [done|]. pose proof (total_nonneg l Hl). simpl.
  assert (0 <= width p) by (destruct p; simpl in *; lia).
  assert ((h * 2 ^ (width p + total l) + w) / 2 ^ total l mod 2 ^ width p = w / 2 ^ total l mod 2 ^ width p) as ->.
  { rewrite Z.pow_add_r by lia. replace (h * (2 ^ width p * 2 ^ total l)) with (h * 2 ^ width p * 2 ^ total l) by ring.
    rewrite Z.div_add_l by lia. by rewrite Z.add_comm, Z.mod_add by lia. }
  assert (extract l (h * 2 ^ (width p + total l) + w) = extract l w) as ->; [|done].
  rewrite Z.pow_add_r, Z.mul_assoc by lia. apply IH.
Qed.

Lemma extract_assemble l : Forall valid_piece l -> forall ops, length ops = arity l ->
  extract l (assemble l ops 0) = Some (reduce l ops).
Proof.
  induction 1 as [|p l Hp Hl IH]; intros ops Ha; [by destruct ops|]. pose proof (total_nonneg l Hl).
  destruct p as [n v|n]; simpl in *.
  - destruct (assemble_shift l Hl ops (0 * 2 ^ n + v) Ha) as [-> Hb].
    rewrite Z.div_add_l, Z.div_small, Z.add_0_r by lia. replace ((0 * 2 ^ n + v) mod 2 ^ n) with v by (rewrite Z.mod_small; lia).
    rewrite Z.eqb_refl, extract_high by done. by apply IH.
  - destruct ops as [|x ops]; [done|]. simpl in Ha. injection Ha as Ha.
    destruct (assemble_shift l Hl ops (0 * 2 ^ n + x mod 2 ^ n) Ha) as [-> Hb].
    assert (0 <= x mod 2 ^ n < 2 ^ n) by (apply Z.mod_pos_bound; lia).
    rewrite Z.div_add_l, Z.div_small, Z.add_0_r by lia. rewrite extract_high, IH by done. simpl.
    do 2 f_equal. rewrite Z.mod_small; lia.
Qed.

(** *** Distinct classes *)
(** The value a layout fixes for bit [k], if it fixes one. *)
Fixpoint fixed_bit (l : layout) (k : Z) : option bool :=
  match l with
  | [] => None
  | p :: l =>
      if k <? total l then fixed_bit l k
      else match p with
           | Fix n v => if k <? total l + n then Some (Z.testbit v (k - total l)) else None
           | Op _ => None
           end
  end.
Lemma extract_fixed l w ops k b : Forall valid_piece l -> 0 <= k -> extract l w = Some ops ->
  fixed_bit l k = Some b -> Z.testbit w k = b.
Proof.
  intros Hl Hk. revert ops. induction Hl as [|p l Hp Hl IH]; intros ops He Hf; [done|].
  pose proof (total_nonneg l Hl). simpl in He, Hf. destruct (k <? total l) eqn:E; zbool.
  - destruct p as [n v|n]; simpl in He.
    + case_if_bool; [|done]. by eapply IH.
    + destruct (extract l w) eqn:E2; [|done]. by eapply IH.
  - destruct p as [n v|n]; [|done]. simpl in He, Hp. destruct (k <? total l + n) eqn:E3; zbool; [|done].
    injection Hf as <-. case_if_bool; [|done]. subst v.
    rewrite Z.mod_pow2_bits_low by lia. rewrite Z.div_pow2_bits by lia. f_equal. lia.
Qed.

Definition distinct (l l' : layout) : bool :=
  existsb (fun k => match fixed_bit l k, fixed_bit l' k with Some b, Some b' => xorb b b' | _, _ => false end) (seqZ 0 32).
Lemma layouts_valid c : Forall valid_piece (layout_of c) /\ total (layout_of c) = 32.
Proof. destruct c; (split; [repeat constructor; simpl; lia|reflexivity]). Qed.
Lemma layouts_distinct c c' : c <> c' -> distinct (layout_of c) (layout_of c') = true.
Proof.
  intros Hne. assert (forallb (fun c => forallb (fun c' => bool_decide (c = c') || distinct (layout_of c) (layout_of c')) classes) classes = true)
    as Hc by (vm_compute; reflexivity).
  assert (forall c, In c classes) as Hin by (intros []; repeat (left; reflexivity) || right; vm_compute; tauto).
  rewrite forallb_forall in Hc. specialize (Hc c (Hin c)). rewrite forallb_forall in Hc. specialize (Hc c' (Hin c')).
  apply orb_true_iff in Hc as [Hc|Hc]; [|done]. by apply bool_decide_eq_true in Hc.
Qed.

Lemma first_match_unique c w ops cs : In c cs -> extract (layout_of c) w = Some ops ->
  first_match cs w = Some (c, ops).
Proof.
  intros Hin He. induction cs as [|c' cs IH]; [done|]. simpl.
  destruct (decide (c' = c)) as [->|Hne]; [by rewrite He|].
  destruct (extract (layout_of c') w) as [ops'|] eqn:E; [|apply IH; by destruct Hin].
  pose proof (layouts_distinct c' c Hne) as Hd. unfold distinct in Hd. rewrite existsb_exists in Hd.
  destruct Hd as (k & Hk & Hb). apply list_elem_of_In, elem_of_seqZ in Hk.
  destruct (fixed_bit (layout_of c') k) as [b'|] eqn:E1; [|done]. destruct (fixed_bit (layout_of c) k) as [b|] eqn:E2; [|done].
  pose proof (extract_fixed _ _ _ k b' (proj1 (layouts_valid c')) ltac:(lia) E E1).
  pose proof (extract_fixed _ _ _ k b (proj1 (layouts_valid c)) ltac:(lia) He E2).
  subst. by destruct (Z.testbit w k).
Qed.

(** Decoding recovers the class and the operands. *)
Lemma decode_assemble c ops : length ops = arity (layout_of c) ->
  decode (assemble (layout_of c) ops 0) = Some (c, reduce (layout_of c) ops).
Proof.
  intros Ha. apply first_match_unique; [destruct c; vm_compute; tauto|].
  apply extract_assemble; [apply layouts_valid|done].
Qed.

(** ** Effects *)
(** [DecodeBitMasks]: [S + 1] ones in an element of [2^len] bits, rotated right by [R]
    and replicated over 64 bits. *)
Definition HighestSetBit (x : Z) : Z := Z.log2 x.
Definition decode_bit_masks (N imms immr : Z) : option Z :=
  let nimms := Z.lor (Z.shiftl N 6) (Z.land (Z.lnot imms) 63) in
  if nimms <=? 1 then None else
  let len := HighestSetBit nimms in
  let levels := Z.ones len in
  if Z.land imms levels =? levels then None else
  let S := Z.land imms levels in
  let R := Z.land immr levels in
  let esize := 2 ^ len in
  Some (foldr (fun i m => if (i + R) mod esize <=? S then Z.setbit m i else m) 0 (seqZ 0 64)).

(** Registers 0 to 30; 31 reads as zero and ignores writes (except in ORR immediate,
    where it would be the stack pointer, which is not modelled).  32-bit results are
    zero-extended. *)
Definition regs : Type := Z -> Z.
Definition read (rf : regs) (r : Z) : Z := if r =? 31 then 0 else rf r.
Definition write (rf : regs) (sf r v : Z) : regs :=
  fun q => if (q =? r) && negb (r =? 31) then v mod 2 ^ (if sf =? 1 then 64 else 32) else rf q.

Definition exec (w : Z) (rf : regs) : option regs :=
  match decode w with
  | Some (MovWide, [sf; opc; hw; imm16; Rd]) =>
      if (sf =? 0) && (hw >=? 2) then None else
      let v := imm16 * 2 ^ (16 * hw) in
      if opc =? 2 then Some (write rf sf Rd v)
      else if opc =? 0 then Some (write rf sf Rd (Z.lnot v))
      else if opc =? 3 then
        let old := read rf Rd in
        let kept := old / 2 ^ (16 * hw + 16) * 2 ^ (16 * hw + 16) + old mod 2 ^ (16 * hw) in
        Some (write rf sf Rd (kept + v))
      else None
  | Some (LogicalReg, [sf; opc; shift; N; Rm; imm6; Rn; Rd]) =>
      if (opc =? 1) && (shift =? 0) && (N =? 0) && (imm6 =? 0) then Some (write rf sf Rd (Z.lor (read rf Rn) (read rf Rm)))
      else None
  | Some (LogicalImm, [sf; opc; N; immr; imms; Rn; Rd]) =>
      if (opc =? 1) && negb (Rd =? 31) && ((sf =? 1) || (N =? 0)) then
        m ← decode_bit_masks N imms immr; Some (write rf sf Rd (Z.lor (read rf Rn) m))
      else None
  | _ => None
  end.
Fixpoint run (ws : list Z) (rf : regs) : option regs :=
  match ws with [] => Some rf | w :: ws => rf ← exec w rf; run ws rf end.
