(* ===== verification/Aarch64Imm.v ===== *)
(** * Logical immediates are encoded exactly

    [is_logical_immediate_64] succeeds on exactly the values the architecture can
    encode, and its three fields decode to the value. *)
From S2P Require Import Prelude DataStruct Aarch64 Aarch64Isa.

(** ** Counting zeros *)
Lemma find_bit (f : Z -> bool) i z :
  list_find (fun i => f i = true) (seqZ 0 64) = Some (i, z) <->
  z = Z.of_nat i /\ 0 <= z < 64 /\ f z = true /\ forall j, 0 <= j < z -> f j = false.
Proof.
  rewrite list_find_Some. split.
  - intros (Hl & Hf & Hno). apply lookup_seqZ in Hl as [-> Hi]. split; [lia|]. split; [lia|]. split; [done|].
    intros j Hj. apply not_true_iff_false. apply (Hno (Z.to_nat j)); [apply lookup_seqZ; lia|lia].
  - intros (-> & Hz & Hf & Hno). split; [apply lookup_seqZ; lia|]. split; [done|].
    intros j y Hy Hji. apply lookup_seqZ in Hy as [-> Hj]. apply not_true_iff_false, Hno. lia.
Qed.
Lemma find_bit_total (f : Z -> bool) k : 0 <= k < 64 -> f k = true ->
  exists i z, list_find (fun i => f i = true) (seqZ 0 64) = Some (i, z).
Proof.
  intros Hk Hf. destruct (list_find (fun i => f i = true) (seqZ 0 64)) as [[i z]|] eqn:E; [eauto|].
  apply list_find_None in E. rewrite Forall_forall in E. destruct (E k); [apply elem_of_seqZ; lia|done].
Qed.
Lemma ctzll_spec x j : 0 <= j < 64 -> Z.testbit x j = true ->
  exists k, ctzll x = Some k /\ 0 <= k < 64 /\ Z.testbit x k = true /\ forall j, 0 <= j < k -> Z.testbit x j = false.
Proof.
  intros Hj Hx. destruct (find_bit_total (Z.testbit x) j Hj Hx) as (i & z & Hf). unfold ctzll. rewrite Hf.
  apply find_bit in Hf as (_ & ? & ? & ?). by exists z.
Qed.
Lemma clzll_spec x j : 0 <= j < 64 -> Z.testbit x j = true ->
  exists k, clzll x = Some k /\ 0 <= k < 64 /\ Z.testbit x (63 - k) = true /\ forall j, 63 - k < j < 64 -> Z.testbit x j = false.
Proof.
  intros Hj Hx. destruct (find_bit_total (fun i => Z.testbit x (63 - i)) (63 - j)) as (i & z & Hf); [lia|by replace (63 - (63 - j)) with j by lia|].
  unfold clzll. rewrite Hf. apply find_bit in Hf as (_ & ? & ? & Hno). exists z. split; [done|]. split; [done|]. split; [done|].
  intros k Hk. specialize (Hno (63 - k) ltac:(lia)). cbv beta in Hno. by replace (63 - (63 - k)) with k in Hno by lia.
Qed.

(** ** 64-bit words as bits *)
Lemma bits64_high v k : 0 <= v < 2 ^ 64 -> 64 <= k -> Z.testbit v k = false.
Proof.
  intros Hv Hk. destruct (decide (v = 0)) as [->|]; [apply Z.bits_0|]. apply Z.bits_above_log2; [lia|].
  assert (2 ^ 64 <= 2 ^ k) by (apply Z.pow_le_mono_r; lia). apply Z.log2_lt_pow2; lia.
Qed.
Lemma bits64_range x : 0 <= x -> (forall k, 64 <= k -> Z.testbit x k = false) -> 0 <= x < 2 ^ 64.
Proof.
  intros Hx Hb. assert (x mod 2 ^ 64 = x) as <-; [|apply Z.mod_pos_bound; lia].
  apply Z.bits_inj'. intros k Hk. destruct (decide (k < 64)).
  - by rewrite Z.mod_pow2_bits_low by lia.
  - rewrite Z.mod_pow2_bits_high by lia. rewrite Hb by lia. done.
Qed.
Lemma bits64_ext v w : 0 <= v < 2 ^ 64 -> 0 <= w < 2 ^ 64 ->
  (forall k, 0 <= k < 64 -> Z.testbit v k = Z.testbit w k) -> v = w.
Proof.
  intros Hv Hw Hb. apply Z.bits_inj'. intros k Hk. destruct (decide (k < 64)); [apply Hb; lia|].
  by rewrite !bits64_high by (done || lia).
Qed.
Lemma bits64_pos v : 0 <= v < 2 ^ 64 -> v <> 0 -> exists k, 0 <= k < 64 /\ Z.testbit v k = true.
Proof.
  intros Hv Hne. exists (Z.log2 v). split; [|apply Z.bit_log2; lia]. split; [apply Z.log2_nonneg|].
  apply Z.log2_lt_pow2; lia.
Qed.
Lemma lnot64_bits v k : 0 <= k < 64 -> Z.testbit (u64 (Z.lnot v)) k = negb (Z.testbit v k).
Proof. intros Hk. unfold uN. rewrite Z.mod_pow2_bits_low by lia. apply Z.lnot_spec. lia. Qed.

Lemma rotate_bits v r i : 0 <= v < 2 ^ 64 -> 0 <= i < 64 ->
  Z.testbit (rotate_right_64 v r) i = Z.testbit v ((i + r) mod 64).
Proof.
  intros Hv Hi. unfold rotate_right_64. rewrite !(land_mask 6) by done. change (2 ^ 6) with 64.
  rewrite Z.lor_spec, Z.shiftr_spec by lia. unfold uN. rewrite Z.mod_pow2_bits_low by lia. rewrite Z.shiftl_spec by lia.
  rewrite <- (Zplus_mod_idemp_r r i 64). pose proof (Z.mod_pos_bound r 64 ltac:(lia)).
  assert ((- r) mod 64 = if r mod 64 =? 0 then 0 else 64 - r mod 64) as ->.
  { case_if_bool; [apply Z_mod_zero_opp_full; lia|apply Z_mod_nz_opp_full; lia]. }
  generalize dependent (r mod 64). intros s Hs. case_if_bool.
  - subst s. rewrite Z.add_0_r, Z.sub_0_r, orb_diag. f_equal. symmetry. apply Z.mod_small. lia.
  - destruct (decide (i + s < 64)).
    + rewrite (Z.testbit_neg_r v (i - _)), orb_false_r by lia. f_equal. symmetry. apply Z.mod_small. lia.
    + rewrite (bits64_high v (i + s)) by (done || lia). simpl. f_equal.
      rewrite <- (Z.mod_small (i - (64 - s)) 64) by lia. replace (i + s) with (i - (64 - s) + 1 * 64) by lia.
      by rewrite Z_mod_plus_full.
Qed.
Lemma rotate_range v r : 0 <= v < 2 ^ 64 -> 0 <= rotate_right_64 v r < 2 ^ 64.
Proof.
  intros Hv. unfold rotate_right_64. rewrite !(land_mask 6) by done. change (2 ^ 6) with 64.
  pose proof (Z.mod_pos_bound r 64 ltac:(lia)). pose proof (uN_range 64 (Z.shiftl v ((- r) mod 64)) ltac:(lia)).
  assert (0 <= Z.shiftr v (r mod 64) < 2 ^ 64).
  { rewrite shiftr_div by lia. split; [apply Z.div_pos; lia|]. apply Z.div_lt_upper_bound; [lia|]. nia. }
  apply bits64_range; [apply Z.lor_nonneg; lia|]. intros k Hk. by rewrite Z.lor_spec, !bits64_high by (done || lia).
Qed.

(** ** The rotation brings the start of a run of ones to bit 0 *)
Lemma succ_bits v t k : 0 <= v -> 0 <= t -> (forall j, 0 <= j < t -> Z.testbit v j = true) -> Z.testbit v t = false ->
  t < k -> Z.testbit (v + 1) k = Z.testbit v k.
Proof.
  intros Hv Ht Hones Hz Hk.
  assert (v mod 2 ^ (t + 1) = 2 ^ t - 1) as Hm.
  { replace (2 ^ t - 1) with (Z.ones t) by (rewrite Z.ones_equiv; lia). apply Z.bits_inj'. intros j Hj. destruct (decide (j < t)).
    - rewrite Z.mod_pow2_bits_low, Z.ones_spec_low by lia. apply Hones. lia.
    - rewrite Z.ones_spec_high by lia. destruct (decide (j = t)) as [->|].
      + by rewrite Z.mod_pow2_bits_low by lia.
      + apply Z.mod_pow2_bits_high. lia. }
  assert (2 ^ (t + 1) = 2 * 2 ^ t) as Hp by (rewrite Z.pow_add_r by lia; lia).
  replace k with (k - (t + 1) + (t + 1)) by lia. rewrite <- !Z.div_pow2_bits by lia. f_equal.
  pose proof (Z.div_mod v (2 ^ (t + 1)) ltac:(lia)) as Hd. rewrite Hm in Hd.
  symmetry. apply (Z.div_unique _ _ _ (2 ^ t)); [lia|]. lia.
Qed.

Section immediate.
Context (val : Z) (Hval : 0 <= val < 2 ^ 64) (Hnz : val <> 0) (Hno : u64 (Z.lnot val) <> 0).
Definition rotation : option Z :=
  let tmp := Z.land val (u64 (val + 1)) in if tmp =? 0 then Some 0 else ctzll tmp.

Lemma rotation_spec : exists r, rotation = Some r /\ 0 <= r < 64 /\ Z.testbit val r = true /\ Z.testbit val ((r + 63) mod 64) = false.
Proof using All.
  destruct (bits64_pos (u64 (Z.lnot val))) as (k0 & Hk0 & Hb0); [apply uN_range; lia|done|].
  destruct (ctzll_spec _ k0 Hk0 Hb0) as (t & _ & Ht & Hbt & Hones). rewrite lnot64_bits in Hbt by lia. apply negb_true_iff in Hbt.
  assert (forall j, 0 <= j < t -> Z.testbit val j = true) as Hones'.
  { intros j Hj. specialize (Hones j Hj). rewrite lnot64_bits in Hones by lia. by apply negb_false_iff in Hones. }
  clear Hones. assert (val + 1 < 2 ^ 64) as Hs.
  { destruct (decide (val = 2 ^ 64 - 1)) as [E|]; [|lia]. exfalso. rewrite E in Hbt.
    change (2 ^ 64 - 1) with (Z.ones 64) in Hbt. rewrite Z.ones_spec_low in Hbt by lia. done. }
  unfold rotation. rewrite (uN_small 64) by lia.
  assert (forall k, t < k -> Z.testbit (Z.land val (val + 1)) k = Z.testbit val k) as Hhigh.
  { intros k Hk. rewrite Z.land_spec, (succ_bits val t) by (done || lia). apply andb_diag. }
  assert (forall k, 0 <= k <= t -> Z.testbit (Z.land val (val + 1)) k = false) as Hlow.
  { intros k Hk. rewrite Z.land_spec. destruct (decide (k = t)) as [->|]; [by rewrite Hbt|].
    apply andb_false_iff. right.
    assert (Z.testbit (val + 1) k = Z.testbit ((val + 1) mod 2 ^ t) k) as -> by (by rewrite Z.mod_pow2_bits_low by lia).
    assert (val mod 2 ^ t = Z.ones t) as Hm.
    { apply Z.bits_inj'. intros j Hj. destruct (decide (j < t)).
      - rewrite Z.mod_pow2_bits_low, Z.ones_spec_low by lia. apply Hones'. lia.
      - rewrite Z.ones_spec_high by lia. apply Z.mod_pow2_bits_high. lia. }
    rewrite <- Zplus_mod_idemp_l, Hm, Z.ones_equiv.
    replace (Z.pred (2 ^ t) + 1) with (1 * 2 ^ t) by lia. rewrite Z.mod_mul by lia. apply Z.bits_0. }
  case_if_bool.
  - exists 0. split; [done|]. split; [lia|]. change ((0 + 63) mod 64) with 63.
    assert (forall k, t < k -> Z.testbit val k = false) as Hz by (intros k Hk; by rewrite <- Hhigh, E, Z.bits_0 by lia).
    split.
    + destruct (decide (t = 0)) as [->|]; [|apply Hones'; lia]. exfalso. apply Hnz. apply Z.bits_inj'. intros k Hk.
      rewrite Z.bits_0. destruct (decide (k = 0)) as [->|]; [done|]. apply Hz. lia.
    + destruct (decide (t = 63)) as [<-|]; [done|]. apply Hz. lia.
  - destruct (bits64_pos (Z.land val (val + 1))) as (j & Hj & Hbj); [|done|].
    { apply bits64_range; [apply Z.land_nonneg; lia|]. intros k Hk. by rewrite Z.land_spec, bits64_high by done. }
    destruct (ctzll_spec _ j Hj Hbj) as (r & -> & Hr & Hbr & Hlr). exists r. split; [done|]. split; [done|].
    assert (t < r). { destruct (decide (t < r)); [done|]. rewrite Hlow in Hbr by lia. done. }
    rewrite Hhigh in Hbr by lia. split; [done|].
    replace ((r + 63) mod 64) with (r - 1) by (replace (r + 63) with (r - 1 + 1 * 64) by lia; rewrite Z_mod_plus_full, Z.mod_small; lia).
    destruct (decide (r - 1 = t)) as [->|]; [done|]. rewrite <- Hhigh by lia. apply Hlr. lia.
Qed.
End immediate.

(** ** Rotation invariance forces a power-of-two period *)
Section period.
Context (f : Z -> bool).
Lemma period_nat p : (forall i, f (i + p) = f i) -> forall (k : nat) i, f (i + Z.of_nat k * p) = f i.
Proof.
  intros Hp k. induction k as [|k IH]; intros i; [f_equal; lia|].
  rewrite <- (IH i), <- (Hp (i + Z.of_nat k * p)). f_equal. lia.
Qed.
Lemma period_mul p : (forall i, f (i + p) = f i) -> forall k i, f (i + k * p) = f i.
Proof.
  intros Hp k i. destruct (decide (0 <= k)).
  - rewrite <- (Z2Nat.id k) by lia. by apply period_nat.
  - rewrite <- (period_nat p Hp (Z.to_nat (- k)) (i + k * p)). f_equal. rewrite Z2Nat.id by lia. lia.
Qed.
Lemma period_gcd p q : (forall i, f (i + p) = f i) -> (forall i, f (i + q) = f i) -> forall i, f (i + Z.gcd p q) = f i.
Proof.
  intros Hp Hq i. destruct (Z.gcd_bezout p q _ eq_refl) as (a & b & <-).
  rewrite Z.add_assoc. by rewrite (period_mul q Hq), (period_mul p Hp).
Qed.

(** A run of [z] zeros followed by [o] ones, repeated with period [z + o] in a word of 64 bits. *)
Lemma period_divides z o : 1 <= z -> 1 <= o ->
  (forall i, f (i + 64) = f i) -> (forall i, f (i + (z + o)) = f i) ->
  (forall i, - z <= i < 0 -> f i = false) -> (forall i, 0 <= i < o -> f i = true) ->
  (z + o | 64) /\ forall i, f i = (i mod (z + o) <? o).
Proof.
  intros Hz Ho H64 Hp Hzero Hone.
  pose proof (period_gcd _ _ Hp H64) as Hg. set (g := Z.gcd (z + o) 64) in *.
  assert (0 < g) by (assert (0 <= g) by apply Z.gcd_nonneg; assert (g <> 0) by (intros E; apply Z.gcd_eq_0 in E; lia); lia).
  destruct (Z.gcd_divide_l (z + o) 64) as [q Hq]. fold g in Hq.
  assert (g = z + o) as Heq.
  { destruct (decide (q = 1)); [lia|]. assert (2 * g <= z + o) by nia. exfalso.
    destruct (decide (g <= o)).
    - specialize (Hg (-1)). rewrite (Hone (-1 + g)), (Hzero (-1)) in Hg by lia. done.
    - specialize (Hg (- g)). rewrite (Hzero (- g)), Z.add_opp_diag_l, (Hone 0) in Hg by lia. done. }
  split; [rewrite <- Heq; apply Z.gcd_divide_r|]. intros i.
  assert (f i = f (i mod (z + o))) as ->.
  { rewrite <- (period_mul (z + o) Hp (i / (z + o)) (i mod (z + o))). f_equal.
    rewrite Z.add_comm, Z.mul_comm. apply Z.div_mod. lia. }
  pose proof (Z.mod_pos_bound i (z + o) ltac:(lia)). generalize dependent (i mod (z + o)). intros j Hj.
  destruct (j <? o) eqn:E; zbool; [apply Hone; lia|].
  rewrite <- (Hp (j - (z + o))) at 1 || idtac. specialize (Hp (j - (z + o))). replace (j - (z + o) + (z + o)) with j in Hp by lia.
  rewrite Hp. apply Hzero. lia.
Qed.
End period.

(** ** The encoded fields decode to the value *)
(** [o] ones in every [size] bits, rotated left by [r]. *)
Definition pattern (size o r : Z) : Z :=
  foldr (fun i m => if (i - r) mod size <? o then Z.setbit m i else m) 0 (seqZ 0 64).
Definition encode_fields (size o r : Z) : Z * Z * Z :=
  (Z.shiftr size 6, Z.land (- r) (size - 1), Z.land (Z.lor (- Z.shiftl size 1) (o - 1)) 0x3f).

Lemma fold_bits (p : Z -> bool) l : (forall i, i ∈ l -> 0 <= i) -> forall k, 0 <= k ->
  Z.testbit (foldr (fun i m => if p i then Z.setbit m i else m) 0 l) k = bool_decide (k ∈ l) && p k.
Proof.
  induction l as [|i l IH]; intros Hl k Hk; simpl; [by rewrite Z.bits_0|].
  assert (0 <= i) by (apply Hl; left).
  assert (Z.testbit (foldr (fun i m => if p i then Z.setbit m i else m) 0 l) k = bool_decide (k ∈ l) && p k) as IHk.
  { apply IH; [|done]. intros j Hj. apply Hl. by right. }
  destruct (p i) eqn:Ei.
  - rewrite Z.setbit_eqb by lia. rewrite IHk. destruct (Z.eqb_spec i k) as [->|Hne]; simpl.
    + rewrite Ei, andb_true_r. symmetry. apply bool_decide_eq_true. left.
    + f_equal. apply bool_decide_ext. rewrite elem_of_cons. naive_solver.
  - rewrite IHk. destruct (decide (k = i)) as [->|Hne]; [by rewrite Ei, !andb_false_r|].
    f_equal. apply bool_decide_ext. rewrite elem_of_cons. naive_solver.
Qed.
Lemma pattern_bits size o r k : 0 <= k < 64 -> Z.testbit (pattern size o r) k = ((k - r) mod size <? o).
Proof.
  intros Hk. unfold pattern. rewrite (fold_bits (fun i => (i - r) mod size <? o)).
  - rewrite bool_decide_true; [done|]. apply elem_of_seqZ. lia.
  - intros i Hi%elem_of_seqZ. lia.
  - lia.
Qed.
Lemma fold_range (p : Z -> bool) : 0 <= foldr (fun i m => if p i then Z.setbit m i else m) 0 (seqZ 0 64) < 2 ^ 64.
Proof.
  apply bits64_range.
  - induction (seqZ 0 64) as [|i l IH]; simpl; [lia|]. destruct (p i); [|done].
    rewrite Z.setbit_spec'. apply Z.lor_nonneg. split; [done|]. apply Z.pow_nonneg. lia.
  - intros k Hk. rewrite fold_bits; [|intros i Hi%elem_of_seqZ; lia|lia].
    rewrite bool_decide_false; [done|]. rewrite elem_of_seqZ. lia.
Qed.

(** The element size and the run length a pair [N:imms] stands for. *)
Definition element (N imms : Z) : option (Z * Z) :=
  let nimms := Z.lor (Z.shiftl N 6) (Z.land (Z.lnot imms) 63) in
  if nimms <=? 1 then None else
  let len := HighestSetBit nimms in
  let S := Z.land imms (Z.ones len) in
  if S =? Z.ones len then None else Some (2 ^ len, S + 1).
Definition sizes : list Z := [2; 4; 8; 16; 32; 64].
Lemma elements_good N imms : 0 <= N < 2 -> 0 <= imms < 64 ->
  match element N imms with Some (size, o) => size ∈ sizes /\ 1 <= o < size | None => True end.
Proof.
  intros HN Hi.
  assert (forallb (fun N => forallb (fun imms => match element N imms with
    Some (size, o) => existsb (Z.eqb size) sizes && (1 <=? o) && (o <? size) | None => true end) (seqZ 0 64)) (seqZ 0 2) = true) as Hc
    by (vm_compute; reflexivity).
  pose proof (range_forall _ _ _ Hc N ltac:(lia)) as Hc1. cbv beta in Hc1. pose proof (range_forall _ _ _ Hc1 imms ltac:(lia)) as Hc2. cbv beta in Hc2.
  destruct (element N imms) as [[size o]|]; [|done]. apply andb_true_iff in Hc2 as [Hc2 ?]. apply andb_true_iff in Hc2 as [Hs ?].
  apply existsb_exists in Hs as (x & Hx & ->%Z.eqb_eq). zbool. split; [by apply list_elem_of_In|lia].
Qed.
Lemma encode_element size o r : size ∈ sizes -> 1 <= o < size ->
  let '(N, immr, imms) := encode_fields size o r in
  element N imms = Some (size, o) /\ 0 <= N < 2 /\ 0 <= imms < 64 /\ (N = 0 <-> size < 64).
Proof.
  intros Hs Ho.
  assert (forallb (fun s => forallb (fun o => let '(N, immr, imms) := encode_fields s o r in
    match element N imms with Some (s', o') => (s' =? s) && (o' =? o) | None => false end &&
    ((0 <=? N) && (N <? 2) && (0 <=? imms) && (imms <? 64) && Bool.eqb (N =? 0) (s <? 64))) (seqZ 1 (s - 1))) sizes = true) as Hc
    by (vm_compute; reflexivity).
  rewrite forallb_forall in Hc. specialize (Hc size ltac:(by apply list_elem_of_In)).
  pose proof (range_forall _ 1 (size - 1) Hc o ltac:(lia)) as Hc'. cbv beta in Hc'. unfold encode_fields in Hc' |- *.
  apply andb_true_iff in Hc' as [He Hr]. destruct (element _ _) as [[s' o']|]; [|done]. apply andb_true_iff in He as [->%Z.eqb_eq ->%Z.eqb_eq].
  apply andb_true_iff in Hr as [Hr Hb%eqb_prop]. zbool. split; [done|]. split; [lia|]. split; [lia|].
  rewrite <- Z.eqb_eq, Hb, Z.ltb_lt. done.
Qed.
Lemma sizes_pow size : size ∈ sizes -> exists len, 1 <= len <= 6 /\ size = 2 ^ len.
Proof.
  intros Hs. unfold sizes in Hs. set_unfold in Hs.
  destruct Hs as [->|[->|[->|[->|[->|[->|[]]]]]]]; [by exists 1|by exists 2|by exists 3|by exists 4|by exists 5|by exists 6].
Qed.
(** The mask is the pattern of its element. *)
Lemma decode_element N imms immr : decode_bit_masks N imms immr = '(size, o) ← element N imms; Some (pattern size o (- immr)).
Proof.
  unfold decode_bit_masks, element. cbv zeta. set (nimms := Z.lor _ _). destruct (nimms <=? 1) eqn:E; [done|].
  set (len := HighestSetBit nimms). assert (0 <= len) by apply Z.log2_nonneg.
  destruct (_ =? Z.ones len); [done|]. cbn [mbind option_bind]. f_equal. unfold pattern.
  assert (0 < 2 ^ len) by (apply Z.pow_pos_nonneg; lia).
  induction (seqZ 0 64) as [|i l IH]; [done|]. simpl. rewrite IH. rewrite !(land_mask len _ (Z.ones len)) by done.
  rewrite Zplus_mod_idemp_r. replace (i - - immr) with (i + immr) by lia.
  assert (((i + immr) mod 2 ^ len <=? imms mod 2 ^ len) = ((i + immr) mod 2 ^ len <? imms mod 2 ^ len + 1)) as ->; [|done].
  apply eq_iff_eq_true. rewrite Z.leb_le, Z.ltb_lt. lia.
Qed.
Lemma pattern_mod size o r r' : 0 < size -> r mod size = r' mod size -> pattern size o r = pattern size o r'.
Proof.
  intros Hs Hr. unfold pattern. induction (seqZ 0 64) as [|i l IH]; [done|]. simpl. rewrite IH.
  by rewrite <- (Zminus_mod_idemp_r i r), Hr, Zminus_mod_idemp_r.
Qed.
Lemma encode_decode size o r : size ∈ sizes -> 1 <= o < size ->
  let '(N, immr, imms) := encode_fields size o r in
  0 <= N < 2 /\ 0 <= immr < 64 /\ 0 <= imms < 64 /\ decode_bit_masks N imms immr = Some (pattern size o r).
Proof.
  intros Hs Ho. pose proof (encode_element size o r Hs Ho) as He. unfold encode_fields in He |- *. destruct He as (He & HN & Hi & _).
  destruct (sizes_pow size Hs) as (len & Hlen & Hsz).
  assert (Z.land (- r) (size - 1) = (- r) mod size) as Hr by (rewrite Hsz; apply (land_mask len); [lia|]; rewrite Z.ones_equiv; lia).
  assert (0 < size <= 64) as Hs64 by (unfold sizes in Hs; set_unfold in Hs; lia).
  rewrite Hr. pose proof (Z.mod_pos_bound (- r) size ltac:(lia)). split; [done|]. split; [lia|]. split; [done|].
  rewrite decode_element, He. cbn [mbind option_bind]. f_equal. apply pattern_mod; [lia|].
  rewrite <- Z.sub_0_l, Zminus_mod_idemp_r, Z.sub_0_l. f_equal. lia.
Qed.

(** ** What the algorithm finds *)
(** The rotation [r], the leading zeros [z] and the trailing ones [o]. *)
Definition run_at (val r z o : Z) : Prop :=
  let f := fun i => Z.testbit val ((i + r) mod 64) in
  0 <= r < 64 /\ 1 <= z <= 63 /\ 1 <= o <= 63 /\
  f (63 - z) = true /\ (forall i, 63 - z < i < 64 -> f i = false) /\
  f o = false /\ (forall i, 0 <= i < o -> f i = true).
Lemma is_logical_run val : 0 <= val < 2 ^ 64 -> val <> 0 -> u64 (Z.lnot val) <> 0 ->
  exists r z o, run_at val r z o /\
    is_logical_immediate_64 val = Some (if negb (rotate_right_64 val (z + o) =? val) then None else Some (encode_fields (z + o) o r)).
Proof.
  intros Hv E0 E1. unfold is_logical_immediate_64.
  rewrite (proj2 (Z.eqb_neq val 0) E0), (proj2 (Z.eqb_neq _ 0) E1). cbn [orb].
  destruct (rotation_spec val Hv E0 E1) as (r & Hrot & Hr & Hb1 & Hb0). unfold rotation in Hrot. cbv zeta in Hrot |- *.
  rewrite Hrot. cbn [mbind option_bind]. set (n := rotate_right_64 val r).
  assert (forall i, 0 <= i < 64 -> Z.testbit n i = Z.testbit val ((i + r) mod 64)) as Hn by (intros; by apply rotate_bits).
  assert (Z.testbit n 0 = true) as Hn0 by (rewrite Hn by lia; by rewrite Z.mod_small by lia).
  assert (Z.testbit n 63 = false) as Hn63 by (rewrite Hn by lia; by rewrite Z.add_comm).
  destruct (clzll_spec n 0 ltac:(lia) Hn0) as (z & -> & Hz & Hbz & Hlz).
  destruct (ctzll_spec (u64 (Z.lnot n)) 63 ltac:(lia)) as (o & -> & Ho & Hbo & Hlo); [by rewrite lnot64_bits, Hn63 by lia|].
  rewrite lnot64_bits in Hbo by lia. apply negb_true_iff in Hbo.
  assert (forall j, 0 <= j < o -> Z.testbit n j = true) as Hones.
  { intros j Hj. specialize (Hlo j Hj). rewrite lnot64_bits in Hlo by lia. by apply negb_false_iff in Hlo. }
  assert (z <> 0) by (intros ->; change (63 - 0) with 63 in Hbz; congruence).
  assert (o <> 0) by (intros ->; congruence).
  cbn [mbind option_bind]. exists r, z, o. split.
  - unfold run_at. cbv zeta. split_and!; try lia; try (by rewrite <- Hn by lia).
    + intros i Hi. rewrite <- Hn by lia. by apply Hlz.
    + intros i Hi. rewrite <- Hn by lia. by apply Hones.
  - by destruct (negb (_ =? val)).
Qed.

(** An accepted value is the pattern its fields stand for. *)
Lemma run_pattern val r z o : 0 <= val < 2 ^ 64 -> run_at val r z o -> rotate_right_64 val (z + o) = val ->
  z + o ∈ sizes /\ val = pattern (z + o) o r.
Proof.
  intros Hv (Hr & Hz & Ho & Hbz & Hlz & Hbo & Hones) E2.
  set (f := fun i => Z.testbit val ((i + r) mod 64)).
  destruct (period_divides f z o) as [Hdiv Hf]; [lia|lia|..].
  - intros i. unfold f. f_equal. replace (i + 64 + r) with (i + r + 1 * 64) by lia. apply Z_mod_plus_full.
  - intros i. unfold f. rewrite <- E2 at 2. rewrite rotate_bits by (done || (apply Z.mod_pos_bound; lia)). f_equal.
    rewrite Zplus_mod_idemp_l. f_equal. lia.
  - intros i Hi. unfold f. replace (i + r) with (i + 64 + r + (-1) * 64) by lia. rewrite Z_mod_plus_full. apply Hlz. lia.
  - intros i Hi. by apply Hones.
  - split.
    + assert (2 <= z + o <= 64) as Hb by (pose proof (Z.divide_pos_le (z + o) 64 ltac:(lia) Hdiv); lia).
      assert (64 mod (z + o) = 0) as Hm by (by apply Z.mod_divide; [lia|]).
      assert (forallb (fun s => implb (64 mod s =? 0) (bool_decide (s ∈ sizes))) (seqZ 2 63) = true) as Hc
        by (vm_compute; reflexivity).
      pose proof (range_forall _ _ _ Hc (z + o) ltac:(lia)) as Hc'. cbv beta in Hc'. rewrite Hm in Hc'.
      by apply bool_decide_eq_true in Hc'.
    + apply bits64_ext; [done|apply fold_range|]. intros k Hk. rewrite pattern_bits by done. rewrite <- Hf. unfold f.
      f_equal. replace (k - r + r) with k by lia. symmetry. by apply Z.mod_small.
Qed.

(** ** Every pattern is accepted *)
Lemma divides_64 size : size ∈ sizes -> exists q, 64 = q * size /\ 0 < size.
Proof. intros Hs. unfold sizes in Hs. set_unfold in Hs. exists (64 / size). destruct Hs as [->|[->|[->|[->|[->|[->|[]]]]]]]; done. Qed.
Lemma mod_64_mod size i : size ∈ sizes -> (i mod 64) mod size = i mod size.
Proof. intros Hs. destruct (divides_64 size Hs) as (q & Hq & Hp). apply Z.mod_mod_divide. by exists q. Qed.
Lemma pattern_bits_mod size o r k : size ∈ sizes -> Z.testbit (pattern size o r) (k mod 64) = ((k - r) mod size <? o).
Proof.
  intros Hs. rewrite pattern_bits by (apply Z.mod_pos_bound; lia). f_equal.
  by rewrite <- (Zminus_mod_idemp_l (k mod 64)), mod_64_mod, Zminus_mod_idemp_l by done.
Qed.
Lemma pattern_run size o r r' z o' : size ∈ sizes -> 1 <= o < size -> run_at (pattern size o r) r' z o' -> z + o' = size.
Proof.
  intros Hs Ho (Hr & Hz & Ho' & Hbz & Hlz & Hbo & Hones). destruct (divides_64 size Hs) as (q & Hq & Hp).
  (* the run starts at the rotation *)
  set (d := (r' - r) mod size).
  assert (forall i, Z.testbit (pattern size o r) ((i + r') mod 64) = ((i + d) mod size <? o)) as Hf.
  { intros i. rewrite pattern_bits_mod by done. f_equal. unfold d. rewrite Zplus_mod_idemp_r. f_equal. lia. }
  pose proof (Z.mod_pos_bound (r' - r) size Hp) as Hd. fold d in Hd.
  assert (d = 0) as Hd0.
  { pose proof (Hones 0 ltac:(lia)) as H0. rewrite Hf in H0. pose proof (Hlz 63 ltac:(lia)) as H63. rewrite Hf in H63. zbool.
    rewrite Z.mod_small in H0 by lia. destruct (decide (d = 0)); [done|].
    replace (63 + d) with (d - 1 + q * size) in H63 by lia. rewrite Z_mod_plus_full, Z.mod_small in H63; lia. }
  rewrite Hd0 in *. clear Hd0 Hd.
  assert (o' = o) as ->.
  { destruct (decide (o' < o)).
    - rewrite Hf, Z.add_0_r, Z.mod_small in Hbo by lia. zbool. lia.
    - destruct (decide (o < o')); [|lia]. pose proof (Hones o ltac:(lia)) as Hx. rewrite Hf, Z.add_0_r, Z.mod_small in Hx by lia. zbool. lia. }
  assert (forall i, 0 <= i < size -> Z.testbit (pattern size o r) ((64 - size + i + r') mod 64) = (i <? o)) as Htop.
  { intros i Hi. rewrite Hf, Z.add_0_r. replace (64 - size + i) with (i + (q - 1) * size) by lia. by rewrite Z_mod_plus_full, Z.mod_small by lia. }
  assert (z = size - o); [|lia].
  destruct (decide (z < size - o)).
  - pose proof (Htop (size - 1 - z) ltac:(lia)) as Ht. replace (64 - size + (size - 1 - z)) with (63 - z) in Ht by lia.
    rewrite Hbz in Ht. symmetry in Ht. zbool. lia.
  - destruct (decide (size - o < z)); [|lia]. pose proof (Htop (o - 1) ltac:(lia)) as Ht. rewrite Hlz in Ht by lia. symmetry in Ht. zbool. lia.
Qed.
Lemma pattern_accepted size o r : size ∈ sizes -> 1 <= o < size -> exists f, is_logical_immediate_64 (pattern size o r) = Some (Some f).
Proof.
  intros Hs Ho. pose proof (fold_range (fun i => (i - r) mod size <? o)) as Hv. fold (pattern size o r) in Hv.
  destruct (divides_64 size Hs) as (q & Hq & Hp).
  assert (Z.testbit (pattern size o r) (r mod 64) = true) as H1 by (rewrite pattern_bits_mod by done; rewrite Z.sub_diag, Z.mod_small by lia; apply Z.ltb_lt; lia).
  assert (Z.testbit (pattern size o r) ((r - 1) mod 64) = false) as H0.
  { rewrite pattern_bits_mod by done. replace (r - 1 - r) with (size - 1 + (-1) * size) by lia. rewrite Z_mod_plus_full, Z.mod_small by lia. apply Z.ltb_ge. lia. }
  destruct (is_logical_run (pattern size o r)) as (r' & z & o' & Hrun & ->); [done|intros E; rewrite E, Z.bits_0 in H1; done|..].
  { intros E. assert (Z.testbit (u64 (Z.lnot (pattern size o r))) ((r - 1) mod 64) = true) as Hx.
    { rewrite lnot64_bits by (apply Z.mod_pos_bound; lia). by rewrite H0. }
    rewrite E, Z.bits_0 in Hx. done. }
  pose proof (pattern_run size o r r' z o' Hs Ho Hrun) as Hsize.
  assert (rotate_right_64 (pattern size o r) (z + o') = pattern size o r) as ->.
  { apply bits64_ext; [by apply rotate_range|done|]. intros k Hk. rewrite rotate_bits by done. rewrite pattern_bits_mod, pattern_bits by done.
    rewrite Hsize. f_equal. replace (k + size - r) with (k - r + 1 * size) by lia. apply Z_mod_plus_full. }
  rewrite Z.eqb_refl. by eexists.
Qed.

(** The answer: the fields of the value, or that no fields have it. *)
Lemma is_logical_immediate_spec val : 0 <= val < 2 ^ 64 ->
  exists r, is_logical_immediate_64 val = Some r /\
    match r with
    | Some (N, immr, imms) =>
        0 <= N < 2 /\ 0 <= immr < 64 /\ 0 <= imms < 64 /\ decode_bit_masks N imms immr = Some val
    | None => forall N immr imms, 0 <= N < 2 -> 0 <= immr < 64 -> 0 <= imms < 64 ->
        decode_bit_masks N imms immr <> Some val
    end.
Proof.
  intros Hv.
  assert (forall r, is_logical_immediate_64 val = Some r -> (forall f, r <> Some f) -> forall N immr imms, 0 <= N < 2 -> 0 <= immr < 64 -> 0 <= imms < 64 ->
        decode_bit_masks N imms immr <> Some val) as Hno.
  { intros r Hr Hf N immr imms HN Hir His Hd. rewrite decode_element in Hd. pose proof (elements_good N imms HN His) as He.
    destruct (element N imms) as [[size o]|]; [|done]. simpl in Hd. injection Hd as <-. destruct He as [Hs Ho].
    destruct (pattern_accepted size o (- immr) Hs Ho) as [f Hacc]. rewrite Hr in Hacc. injection Hacc as ->. by destruct (Hf f). }
  destruct (decide (val = 0 \/ u64 (Z.lnot val) = 0)) as [Ht|Ht].
  { assert (is_logical_immediate_64 val = Some None) as Hn.
    { unfold is_logical_immediate_64. destruct Ht as [-> | ->]; [done|]. by rewrite orb_true_r. }
    eexists. split; [exact Hn|]. cbv beta iota. by eapply Hno. }
  destruct (is_logical_run val Hv) as (r & z & o & Hrun & Hres); [lia|lia|]. rewrite Hres. eexists. split; [done|].
  destruct (rotate_right_64 val (z + o) =? val) eqn:E; cbn [negb] in *; [|by eapply Hno].
  apply Z.eqb_eq in E. destruct (run_pattern val r z o Hv Hrun E) as [Hs Hpat].
  destruct Hrun as (_ & Hz & Ho & _). pose proof (encode_decode (z + o) o r Hs ltac:(lia)) as He.
  rewrite <- Hpat in He. exact He.
Qed.
