(* ===== verification/Aarch64Props.v ===== *)
(** * Theorems on the AArch64 encoder

    Every encoding function writes the word the architecture manual gives for its
    operands, and [load_immediate] emits code that puts its value in the register. *)
From S2P Require Import Prelude DataStruct Aarch64 Aarch64Isa.

(** ** Words *)
Lemma BITS_val x s l : 0 <= s -> 0 <= l -> s + l <= 32 -> BITS x s l = x mod 2 ^ l * 2 ^ s.
Proof.
  intros Hs Hl Hsl. unfold BITS. rewrite (Z.shiftl_1_l l), (land_mask l) by (rewrite ?Z.ones_equiv; lia).
  rewrite shiftl_mul by lia. unfold uN.
  rewrite Z.mod_mod_divide by (exists (2 ^ (32 - l)); rewrite <- Z.pow_add_r by lia; f_equal; lia).
  apply Z.mod_small. pose proof (Z.mod_pos_bound x (2 ^ l) ltac:(lia)).
  assert (2 ^ 32 = 2 ^ (32 - s - l) * 2 ^ l * 2 ^ s) as -> by (rewrite <- !Z.pow_add_r by lia; f_equal; lia).
  assert (0 < 2 ^ (32 - s - l)) by lia. assert (0 < 2 ^ s) by lia.
  generalize dependent (x mod 2 ^ l). intros v Hv. assert (0 <= v * 2 ^ s < 2 ^ l * 2 ^ s) by nia. nia.
Qed.
Lemma BIT_BITS x p : BIT x p = BITS x p 1.
Proof. reflexivity. Qed.
Lemma lor_horner a p x l s : 0 <= s -> 0 <= l -> s + l <= p ->
  Z.lor (a * 2 ^ p) (x mod 2 ^ l * 2 ^ s) = (a * 2 ^ (p - s - l) * 2 ^ l + x mod 2 ^ l) * 2 ^ s.
Proof.
  intros Hs Hl Hp. pose proof (Z.mod_pos_bound x (2 ^ l) ltac:(lia)).
  assert (2 ^ p = 2 ^ (p - s - l) * 2 ^ l * 2 ^ s) as Hpp by (rewrite <- !Z.pow_add_r by lia; f_equal; lia).
  rewrite (lor_add (s + l)); [|lia| |].
  - rewrite Hpp. ring.
  - rewrite Z.pow_add_r, Hpp by lia. replace (a * (2 ^ (p - s - l) * 2 ^ l * 2 ^ s)) with (a * 2 ^ (p - s - l) * (2 ^ s * 2 ^ l)) by ring.
    apply Z.mod_mul. nia.
  - rewrite Z.pow_add_r by lia. nia.
Qed.

(** [word]: an or of fields from the top down is the Horner sum of its fields. *)
Ltac word_lor :=
  repeat rewrite lor_horner by lia;
  cbn [assemble layout_of];
  repeat match goal with
    | |- context [Zpos ?a mod 2 ^ Zpos ?b] =>
        let v := eval vm_compute in (Zpos a mod 2 ^ Zpos b) in change (Zpos a mod 2 ^ Zpos b) with v
    | |- context [0 mod ?b] => rewrite (Z.mod_0_l b) by done
    end;
  repeat match goal with |- context [2 ^ ?k] => let v := eval vm_compute in (2 ^ k) in change (2 ^ k) with v end;
  lia.

Ltac word := rewrite ?BIT_BITS, !BITS_val by lia; word_lor.

(** The instructions the encoders write. *)
Inductive insn :=
  | I_add_sub_imm (sf op s shift imm12 Rn Rd : Z)
  | I_add_sub_reg (sf op s shift Rm imm6 Rn Rd : Z)
  | I_add_sub_ext (sf op s Rm option imm3 Rn Rd : Z)
  | I_logical_imm (sf opc N immr imms Rn Rd : Z)
  | I_logical_reg (sf opc shift N Rm imm6 Rn Rd : Z)
  | I_mov_wide_imm (sf opc hw imm16 Rd : Z)
  | I_madd_msub (sf op Rm Ra Rn Rd : Z)
  | I_div (sf U Rm Rn Rd : Z)
  | I_shift_reg (sf op2 Rm Rn Rd : Z)
  | I_ldr_str_imm (size V opc imm12 Rn Rt : Z)
  | I_ldr_str_reg (size V opc Rm option s Rn Rt : Z)
  | I_ldur_stur (size V opc imm9 Rn Rt : Z)
  | I_ldp_stp (opc V mode imm7 Rt2 Rn Rt : Z)
  | I_adrp (immlo immhi Rd : Z)
  | I_adr (immlo immhi Rd : Z)
  | I_branch_cond (imm19 cond : Z)
  | I_branch_uncond (imm26 : Z)
  | I_branch_link (imm26 : Z)
  | I_branch_reg (opc Rn : Z)
  | I_cbz_cbnz (sf op imm19 Rt : Z)
  | I_tbz_tbnz (b5 op b40 imm14 Rt : Z)
  | I_fp_arith (M s type Rm opcode Rn Rd : Z)
  | I_fp_1src (M s type opcode Rn Rd : Z)
  | I_fp_compare (M s type Rm op Rn : Z)
  | I_fcvt_int (sf s type rmode opc Rn Rd : Z)
  | I_int_fcvt (sf s type rmode opc Rn Rd : Z)
  | I_cond_select (sf op Rm cond op2 Rn Rd : Z).

Definition emit (ctx : code_buf) (i : insn) : option code_buf :=
  match i with
  | I_add_sub_imm sf op s shift imm12 Rn Rd => encode_add_sub_imm ctx sf op s shift imm12 Rn Rd
  | I_add_sub_reg sf op s shift Rm imm6 Rn Rd => encode_add_sub_reg ctx sf op s shift Rm imm6 Rn Rd
  | I_add_sub_ext sf op s Rm option imm3 Rn Rd => encode_add_sub_ext ctx sf op s Rm option imm3 Rn Rd
  | I_logical_imm sf opc N immr imms Rn Rd => encode_logical_imm ctx sf opc N immr imms Rn Rd
  | I_logical_reg sf opc shift N Rm imm6 Rn Rd => encode_logical_reg ctx sf opc shift N Rm imm6 Rn Rd
  | I_mov_wide_imm sf opc hw imm16 Rd => encode_mov_wide_imm ctx sf opc hw imm16 Rd
  | I_madd_msub sf op Rm Ra Rn Rd => encode_madd_msub ctx sf op Rm Ra Rn Rd
  | I_div sf U Rm Rn Rd => encode_div ctx sf U Rm Rn Rd
  | I_shift_reg sf op2 Rm Rn Rd => encode_shift_reg ctx sf op2 Rm Rn Rd
  | I_ldr_str_imm size V opc imm12 Rn Rt => encode_ldr_str_imm ctx size V opc imm12 Rn Rt
  | I_ldr_str_reg size V opc Rm option s Rn Rt => encode_ldr_str_reg ctx size V opc Rm option s Rn Rt
  | I_ldur_stur size V opc imm9 Rn Rt => encode_ldur_stur ctx size V opc imm9 Rn Rt
  | I_ldp_stp opc V mode imm7 Rt2 Rn Rt => encode_ldp_stp ctx opc V mode imm7 Rt2 Rn Rt
  | I_adrp immlo immhi Rd => encode_adrp ctx immlo immhi Rd
  | I_adr immlo immhi Rd => encode_adr ctx immlo immhi Rd
  | I_branch_cond imm19 cond => encode_branch_cond ctx imm19 cond
  | I_branch_uncond imm26 => encode_branch_uncond ctx imm26
  | I_branch_link imm26 => encode_branch_link ctx imm26
  | I_branch_reg opc Rn => encode_branch_reg ctx opc Rn
  | I_cbz_cbnz sf op imm19 Rt => encode_cbz_cbnz ctx sf op imm19 Rt
  | I_tbz_tbnz b5 op b40 imm14 Rt => encode_tbz_tbnz ctx b5 op b40 imm14 Rt
  | I_fp_arith M s type Rm opcode Rn Rd => encode_fp_arith ctx M s type Rm opcode Rn Rd
  | I_fp_1src M s type opcode Rn Rd => encode_fp_1src ctx M s type opcode Rn Rd
  | I_fp_compare M s type Rm op Rn => encode_fp_compare ctx M s type Rm op Rn
  | I_fcvt_int sf s type rmode opc Rn Rd => encode_fcvt_int ctx sf s type rmode opc Rn Rd
  | I_int_fcvt sf s type rmode opc Rn Rd => encode_int_fcvt ctx sf s type rmode opc Rn Rd
  | I_cond_select sf op Rm cond op2 Rn Rd => encode_cond_select ctx sf op Rm cond op2 Rn Rd
  end.

(** The class and the operands the manual gives for it, in the order of the layout. *)
Definition fields (i : insn) : class * list Z :=
  match i with
  | I_add_sub_imm sf op s shift imm12 Rn Rd => (AddSubImm, [sf; op; s; shift; imm12; Rn; Rd])
  | I_add_sub_reg sf op s shift Rm imm6 Rn Rd => (AddSubReg, [sf; op; s; shift; Rm; imm6; Rn; Rd])
  | I_add_sub_ext sf op s Rm option imm3 Rn Rd => (AddSubExt, [sf; op; s; Rm; option; imm3; Rn; Rd])
  | I_logical_imm sf opc N immr imms Rn Rd => (LogicalImm, [sf; opc; N; immr; imms; Rn; Rd])
  | I_logical_reg sf opc shift N Rm imm6 Rn Rd => (LogicalReg, [sf; opc; shift; N; Rm; imm6; Rn; Rd])
  | I_mov_wide_imm sf opc hw imm16 Rd => (MovWide, [sf; opc; hw; imm16; Rd])
  | I_madd_msub sf op Rm Ra Rn Rd => (MulAdd, [sf; Rm; op; Ra; Rn; Rd])
  | I_div sf U Rm Rn Rd => (Div, [sf; Rm; U; Rn; Rd])
  | I_shift_reg sf op2 Rm Rn Rd => (ShiftReg, [sf; Rm; op2; Rn; Rd])
  | I_ldr_str_imm size V opc imm12 Rn Rt => (LoadStoreImm, [size; V; opc; imm12; Rn; Rt])
  | I_ldr_str_reg size V opc Rm option s Rn Rt => (LoadStoreReg, [size; V; opc; Rm; option; s; Rn; Rt])
  | I_ldur_stur size V opc imm9 Rn Rt => (LoadStoreUnscaled, [size; V; opc; imm9; Rn; Rt])
  | I_ldp_stp opc V mode imm7 Rt2 Rn Rt =>
      (LoadStorePair, [opc; V; (ldp_mode mode).1; (ldp_mode mode).2; imm7; Rt2; Rn; Rt])
  | I_adrp immlo immhi Rd => (Adrp, [immlo; immhi; Rd])
  | I_adr immlo immhi Rd => (Adr, [immlo; immhi; Rd])
  | I_branch_cond imm19 cond => (BCond, [imm19; cond])
  | I_branch_uncond imm26 => (B, [imm26])
  | I_branch_link imm26 => (BL, [imm26])
  | I_branch_reg opc Rn => (BReg, [opc; Rn])
  | I_cbz_cbnz sf op imm19 Rt => (CompareBranch, [sf; op; imm19; Rt])
  | I_tbz_tbnz b5 op b40 imm14 Rt => (TestBranch, [b5; op; b40; imm14; Rt])
  | I_fp_arith M s type Rm opcode Rn Rd => (FpArith, [M; s; type; Rm; opcode; Rn; Rd])
  | I_fp_1src M s type opcode Rn Rd => (Fp1, [M; s; type; opcode; Rn; Rd])
  | I_fp_compare M s type Rm op Rn => (FpCompare, [M; s; type; Rm; op; Rn])
  | I_fcvt_int sf s type rmode opc Rn Rd => (FpInt, [sf; s; type; rmode; opc; Rn; Rd])
  | I_int_fcvt sf s type rmode opc Rn Rd => (FpInt, [sf; s; type; rmode; opc; Rn; Rd])
  | I_cond_select sf op Rm cond op2 Rn Rd => (CondSelect, [sf; op; Rm; cond; op2; Rn; Rd])
  end.
(** Operands are taken modulo their widths, except the two that are or-ed into a
    constant first. *)
Definition insn_ok (i : insn) : Prop :=
  match i with I_div _ U _ _ _ => U = 0 \/ U = 1 | I_shift_reg _ op2 _ _ _ => 0 <= op2 < 4 | _ => True end.

Definition insn_word (i : insn) : Z := assemble (layout_of (fields i).1) (fields i).2 0.

Lemma emit_word ctx i : insn_ok i -> emit ctx i = EMIT32 ctx (insn_word i).
Proof.
  intros Hok. destruct i; unfold emit, insn_word, fields; cbn [fst snd];
    [unfold encode_add_sub_imm|unfold encode_add_sub_reg|unfold encode_add_sub_ext|unfold encode_logical_imm
    |unfold encode_logical_reg|unfold encode_mov_wide_imm|unfold encode_madd_msub|unfold encode_div|unfold encode_shift_reg
    |unfold encode_ldr_str_imm|unfold encode_ldr_str_reg|unfold encode_ldur_stur|unfold encode_ldp_stp
    |unfold encode_adrp|unfold encode_adr|unfold encode_branch_cond|unfold encode_branch_uncond|unfold encode_branch_link
    |unfold encode_branch_reg|unfold encode_cbz_cbnz|unfold encode_tbz_tbnz|unfold encode_fp_arith|unfold encode_fp_1src
    |unfold encode_fp_compare|unfold encode_fcvt_int|unfold encode_int_fcvt|unfold encode_cond_select].
  8: { destruct Hok as [-> | ->]; (change (Z.lor 2 0) with 2 || change (Z.lor 2 1) with 3); f_equal; word. }
  8: { simpl in Hok. assert (op2 = 0 \/ op2 = 1 \/ op2 = 2 \/ op2 = 3) as [-> |[-> |[-> | ->]]] by lia;
       (change (Z.lor 8 0) with 8 || change (Z.lor 8 1) with 9 || change (Z.lor 8 2) with 10 || change (Z.lor 8 3) with 11);
       f_equal; word. }
  10: { rewrite (land_mask 9) by done. f_equal. rewrite ?BIT_BITS, !BITS_val, Zmod_mod by lia. word_lor. }
  10: { destruct (ldp_mode mode) as [m L]; cbn [fst snd]. f_equal; word. }
  15: { change (BITS 0x6B0 21 11) with (BITS 0x1AC 23 9). f_equal; word. }
  all: f_equal; word.
Qed.

(** ** The code buffer *)
Definition read_word (ctx : code_buf) (p : Z) : option Z :=
  a ← aget (Unsorted.values ctx) p; b ← aget (Unsorted.values ctx) (p + 1);
  c ← aget (Unsorted.values ctx) (p + 2); d ← aget (Unsorted.values ctx) (p + 3);
  Some (a + 256 * b + 65536 * c + 16777216 * d).
(** [ctx'] is [ctx] with the words [ws] appended. *)
Definition appended (ctx : code_buf) (ws : list Z) (ctx' : code_buf) : Prop :=
  Unsorted.cur ctx' = Unsorted.cur ctx + 4 * alen ws /\
  Unsorted.max ctx' = Unsorted.max ctx /\ alen (Unsorted.values ctx') = alen (Unsorted.values ctx) /\
  (forall i w, aget ws i = Some w -> read_word ctx' (Unsorted.cur ctx + 4 * i) = Some w) /\
  (forall i, i < Unsorted.cur ctx -> aget (Unsorted.values ctx') i = aget (Unsorted.values ctx) i).
(** The space the caller reserved. *)
Definition room (ctx : code_buf) (n : Z) : Prop :=
  0 <= Unsorted.cur ctx /\ Unsorted.cur ctx + 4 * n <= alen (Unsorted.values ctx).

Lemma EMIT32_spec ctx w : room ctx 1 -> 0 <= w < 2 ^ 32 -> exists ctx', EMIT32 ctx w = Some ctx' /\ appended ctx [w] ctx'.
Proof.
  intros [Hc Hr] Hw. unfold EMIT32. rewrite (uN_small 32) by done.
  destruct (acopy_total (Unsorted.values ctx) (Unsorted.cur ctx) (le32 w) 0 4) as (l & -> & Hl & Hg); try (change (alen (le32 w)) with 4); try lia.
  cbn [mbind option_bind]. eexists. split; [done|]. unfold appended; simpl. change (alen [w]) with 1.
  split; [lia|]. split; [done|]. split; [done|]. split.
  - intros i w' Hi. pose proof (aget_Some_range _ _ _ Hi) as Hi'. change (alen [w]) with 1 in Hi'. assert (i = 0) as -> by lia.
    injection Hi as <-. unfold read_word; simpl. rewrite !Hg. dec_lia.
    replace (0 + (Unsorted.cur ctx + 4 * 0 - Unsorted.cur ctx)) with 0 by lia.
    replace (0 + (Unsorted.cur ctx + 4 * 0 + 1 - Unsorted.cur ctx)) with 1 by lia.
    replace (0 + (Unsorted.cur ctx + 4 * 0 + 2 - Unsorted.cur ctx)) with 2 by lia.
    replace (0 + (Unsorted.cur ctx + 4 * 0 + 3 - Unsorted.cur ctx)) with 3 by lia.
    change (aget (le32 w) 0) with (Some (Z.land w 255)). change (aget (le32 w) 1) with (Some (Z.land (Z.shiftr w 8) 255)).
    change (aget (le32 w) 2) with (Some (Z.land (Z.shiftr w 16) 255)). change (aget (le32 w) 3) with (Some (Z.land (Z.shiftr w 24) 255)).
    cbn [mbind option_bind]. f_equal. rewrite !(land_mask 8) by done. rewrite !shiftr_div by lia. norm_pow2. z_div.
  - intros i Hi. rewrite Hg. by dec_lia.
Qed.

Lemma read_word_same ctx ctx' p : Unsorted.cur ctx = p + 4 ->
  (forall i, i < Unsorted.cur ctx -> aget (Unsorted.values ctx') i = aget (Unsorted.values ctx) i) ->
  read_word ctx' p = read_word ctx p.
Proof. intros Hc Hs. unfold read_word. by rewrite !Hs by lia. Qed.

Lemma appended_app ctx ws1 ctx1 ws2 ctx2 :
  appended ctx ws1 ctx1 -> appended ctx1 ws2 ctx2 -> appended ctx (ws1 ++ ws2) ctx2.
Proof.
  intros (H1 & H2 & H3 & H4 & H5) (K1 & K2 & K3 & K4 & K5). pose proof (alen_nonneg ws1).
  split; [rewrite alen_app; lia|]. split; [congruence|]. split; [congruence|]. split.
  - intros i w Hi. pose proof (aget_Some_range _ _ _ Hi). destruct (decide (i < alen ws1)).
    + rewrite aget_app_l in Hi by done. specialize (H4 i w Hi). rewrite <- H4.
      unfold read_word. by rewrite !K5 by lia.
    + rewrite aget_app_r in Hi by lia. specialize (K4 _ _ Hi). rewrite <- K4. f_equal. lia.
  - intros i Hi. rewrite K5 by lia. by apply H5.
Qed.
Lemma appended_nil ctx : appended ctx [] ctx.
Proof. split; [change (alen (@nil Z)) with 0; lia|]. split; [done|]. split; [done|]. split; [|done]. intros i w Hi. apply aget_Some_range in Hi. change (alen (@nil Z)) with 0 in Hi. lia. Qed.
Lemma appended_room ctx ws ctx' n : appended ctx ws ctx' -> room ctx (alen ws + n) -> room ctx' n.
Proof. intros (H1 & _ & H3 & _) [Hc Hr]. pose proof (alen_nonneg ws). split; lia. Qed.

Lemma fields_arity i : length (fields i).2 = arity (layout_of (fields i).1).
Proof. by destruct i. Qed.
Lemma insn_word_range i : 0 <= insn_word i < 2 ^ 32.
Proof.
  unfold insn_word. destruct (layouts_valid (fields i).1) as [Hv Ht]. rewrite <- Ht.
  by destruct (assemble_shift _ Hv (fields i).2 0 (fields_arity i)).
Qed.
Lemma emit_appends ctx i : insn_ok i -> room ctx 1 -> exists ctx', emit ctx i = Some ctx' /\ appended ctx [insn_word i] ctx'.
Proof. intros Hok Hr. rewrite emit_word by done. apply EMIT32_spec; [done|apply insn_word_range]. Qed.
Lemma decode_insn i : decode (insn_word i) = Some ((fields i).1, reduce (layout_of (fields i).1) (fields i).2).
Proof. apply decode_assemble, fields_arity. Qed.

(** C31. Every encoding function writes the instruction of the architecture manual.
    Whenever four bytes are reserved it appends exactly one word, in little-endian
    order, and decoding that word by the layouts of the manual gives the class of the
    instruction and the operands it was called with (modulo the widths of their
    fields); no two classes share a word. *)
Theorem encoders_decode ctx i :
  insn_ok i -> room ctx 1 ->
  exists ctx' w, emit ctx i = Some ctx' /\ appended ctx [w] ctx' /\
    decode w = Some ((fields i).1, reduce (layout_of (fields i).1) (fields i).2).
Proof.
  intros Hok Hr. destruct (emit_appends ctx i Hok Hr) as (ctx' & He & Ha). exists ctx', (insn_word i).
  split; [done|]. split; [done|]. apply decode_insn.
Qed.
Definition empty_code : code_buf := Unsorted.Arr 0 32 (replicate 32 0).
Lemma encoders_decode_witness :
  exists ctx' w, emit empty_code (I_ldr_str_imm 3 0 1 5 29 0) = Some ctx' /\ appended empty_code [w] ctx' /\
    decode w = Some (LoadStoreImm, [3; 0; 1; 5; 29; 0]).
Proof. apply (encoders_decode empty_code (I_ldr_str_imm 3 0 1 5 29 0)); [exact I|split; vm_compute; discriminate]. Defined.
