(* ===== verification/Aarch64Load.v ===== *)
(** * Loading constants into registers ([load_immediate])

    The encoding of logical immediates is exact, and the instructions
    [load_immediate] emits compute the constant whatever sequence is chosen. *)
From S2P Require Import Prelude DataStruct Aarch64 Aarch64Isa Aarch64Imm Aarch64Props.

(** C30. The logical immediates are exactly the ones of the architecture.  For every
    64-bit value [is_logical_immediate_64] answers (its two bit counts are never
    applied to zero); when it accepts, the three fields are in range and the mask the
    architecture decodes from them is the value; when it refuses, no fields decode to
    the value. *)
Theorem is_logical_immediate_64_exact val : 0 <= val < 2 ^ 64 ->
  exists r, is_logical_immediate_64 val = Some r /\
    match r with
    | Some (N, immr, imms) =>
        0 <= N < 2 /\ 0 <= immr < 64 /\ 0 <= imms < 64 /\ decode_bit_masks N imms immr = Some val
    | None => forall N immr imms, 0 <= N < 2 -> 0 <= immr < 64 -> 0 <= imms < 64 ->
        decode_bit_masks N imms immr <> Some val
    end.
Proof. apply is_logical_immediate_spec. Qed.
Lemma is_logical_immediate_64_exact_witness :
  exists r, is_logical_immediate_64 0x00FF00FF00FF00FF = Some r /\
    match r with
    | Some (N, immr, imms) =>
        0 <= N < 2 /\ 0 <= immr < 64 /\ 0 <= imms < 64 /\ decode_bit_masks N imms immr = Some 0x00FF00FF00FF00FF
    | None => forall N immr imms, 0 <= N < 2 -> 0 <= immr < 64 -> 0 <= imms < 64 ->
        decode_bit_masks N imms immr <> Some 0x00FF00FF00FF00FF
    end.
Proof. apply is_logical_immediate_64_exact. lia. Defined.
Example is_logical_immediate_64_0x00FF : is_logical_immediate_64 0x00FF00FF00FF00FF = Some (Some (0, 0, 0x27)).
Proof. vm_compute. reflexivity. Qed.

(** The 32-bit form: [N] is 0 and the mask repeats the value. *)
Lemma is_logical_immediate_32_spec val : 0 <= val < 2 ^ 32 ->
  exists r, is_logical_immediate_32 val = Some r /\
    match r with
    | Some (N, immr, imms) =>
        N = 0 /\ 0 <= immr < 64 /\ 0 <= imms < 64 /\ decode_bit_masks N imms immr = Some (val * 2 ^ 32 + val)
    | None => True
    end.
Proof.
  intros Hv. unfold is_logical_immediate_32. destruct ((val =? 0) || (val =? 0xFFFFFFFF)); [by eexists|].
  assert (Z.lor (Z.shiftl val 32) val = val * 2 ^ 32 + val) as ->.
  { rewrite shiftl_mul by lia. apply (lor_add 32); [lia|apply Z.mod_mul; lia|done]. }
  destruct (is_logical_immediate_spec (val * 2 ^ 32 + val) ltac:(lia)) as ([[[N immr] imms]|] & -> & Hr);
    cbn [mbind option_bind]; [|by eexists].
  destruct (N =? 0) eqn:E; simpl; zbool; [|by eexists]. eexists. split; [done|]. cbv beta iota. naive_solver.
Qed.

(** ** What the emitted instructions do *)
Section exec.
Context (rf : regs) (sf : Z) (Rd : Z) (Hsf : 0 <= sf < 2) (HRd : 0 <= Rd < 31).
Let bits := if sf =? 1 then 64 else 32.

Lemma exec_mov_wide opc hw imm : opc = 0 \/ opc = 2 \/ opc = 3 -> 0 <= hw < 4 -> (sf = 0 -> hw < 2) -> 0 <= imm < 65536 ->
  exec (insn_word (I_mov_wide_imm sf opc hw imm Rd)) rf =
    Some (write rf sf Rd (if opc =? 2 then imm * 2 ^ (16 * hw) else if opc =? 0 then Z.lnot (imm * 2 ^ (16 * hw))
      else rf Rd / 2 ^ (16 * hw + 16) * 2 ^ (16 * hw + 16) + rf Rd mod 2 ^ (16 * hw) + imm * 2 ^ (16 * hw))).
Proof.
  intros Hopc Hhw Hhw' Himm. unfold exec. rewrite decode_insn. cbn [fields fst snd layout_of reduce].
  rewrite !Z.mod_small by lia. destruct ((sf =? 0) && (hw >=? 2)) eqn:E; [zbool; lia|].
  unfold read. replace (Rd =? 31) with false by (symmetry; apply Z.eqb_neq; lia).
  destruct Hopc as [-> | [-> | ->]]; simpl; done.
Qed.
Lemma exec_logical_imm N immr imms m : 0 <= N < 2 -> (sf = 0 -> N = 0) -> 0 <= immr < 64 -> 0 <= imms < 64 ->
  decode_bit_masks N imms immr = Some m ->
  exec (insn_word (I_logical_imm sf 1 N immr imms XZR Rd)) rf = Some (write rf sf Rd m).
Proof.
  intros HN HN' Hr Hs Hm. unfold exec. rewrite decode_insn. cbn [fields fst snd layout_of reduce].
  rewrite !(Z.mod_small _ _) by (unfold XZR; lia). change (1 mod 2 ^ 2 =? 1) with true. change (1 =? 1) with true.
  replace (Rd =? 31) with false by (symmetry; apply Z.eqb_neq; lia).
  assert ((sf =? 1) || (N =? 0) = true) as ->.
  { destruct (sf =? 1) eqn:E; zbool; simpl; [done|]. apply Z.eqb_eq, HN'. lia. }
  cbn [andb negb]. rewrite Hm. cbn [mbind option_bind]. by rewrite Z.lor_0_l.
Qed.
Lemma exec_zero : exec (insn_word (I_logical_reg sf 1 0 0 XZR 0 XZR Rd)) rf = Some (write rf sf Rd 0).
Proof.
  unfold exec. rewrite decode_insn. cbn [fields fst snd layout_of reduce].
  rewrite !(Z.mod_small _ _) by (unfold XZR; lia). done.
Qed.
Lemma write_eq v : write rf sf Rd v Rd = v mod 2 ^ bits.
Proof. unfold write, bits. rewrite Z.eqb_refl. replace (Rd =? 31) with false by (symmetry; apply Z.eqb_neq; lia). done. Qed.
Lemma write_ne v q : q <> Rd -> write rf sf Rd v q = rf q.
Proof. intros Hq. unfold write. by replace (q =? Rd) with false by (symmetry; apply Z.eqb_neq; lia). Qed.
End exec.
Lemma run_app ws1 ws2 rf : run (ws1 ++ ws2) rf = rf' ← run ws1 rf; run ws2 rf'.
Proof. revert rf. induction ws1 as [|w ws IH]; intros rf; simpl; [done|]. destruct (exec w rf) as [rf'|]; simpl; [apply IH|done]. Qed.

(** ** The MOVZ/MOVK sequence *)
Lemma halfword_range u i : 0 <= halfword u i < 65536.
Proof. unfold halfword. rewrite (land_mask 16) by done. apply Z.mod_pos_bound. lia. Qed.
Lemma halfword_split u i : 0 <= u -> 0 <= i -> u mod 2 ^ (16 * (i + 1)) = u mod 2 ^ (16 * i) + halfword u i * 2 ^ (16 * i).
Proof.
  intros Hu Hi. unfold halfword. rewrite (land_mask 16) by done. rewrite shiftr_div by lia.
  replace (16 * (i + 1)) with (16 * i + 16) by lia. rewrite Z.pow_add_r by lia.
  rewrite Z.rem_mul_r by lia. rewrite (Z.mul_comm i 16). lia.
Qed.
Lemma filter_le {A} (p q : A -> bool) (l : list A) : (forall x, p x = true -> q x = true) ->
  (length (filter (fun x => p x = true) l) <= length (filter (fun x => q x = true) l))%nat.
Proof.
  intros Hpq. induction l as [|x l IH]; [done|]. rewrite !filter_cons.
  destruct (decide (p x = true)) as [Hp|Hp]; [rewrite decide_True by auto; simpl; lia|].
  destruct (decide (q x = true)); simpl; lia.
Qed.
(** MOVN is never chosen: every halfword of ones is a halfword that is not zero. *)
Lemma movn_never_chosen u total :
  (count_hw u total (fun x => x =? 0xFFFF) >? count_hw u total (fun x => negb (x =? 0))) = false.
Proof.
  unfold count_hw. pose proof (filter_le (fun i => halfword u i =? 0xFFFF) (fun i => negb (halfword u i =? 0)) (seqZ 0 total)) as Hle.
  assert (forall x, (halfword u x =? 0xFFFF) = true -> negb (halfword u x =? 0) = true) as Himp.
  { intros x Hx. zbool. by rewrite Hx. }
  specialize (Hle Himp). cbv beta in Hle |- *. rewrite Z.gtb_ltb. apply Z.ltb_ge. lia.
Qed.

(** What a sequence of words does to register [dst]. *)
Definition loads (ws : list Z) (dst v : Z) : Prop :=
  forall rf, exists rf', run ws rf = Some rf' /\ rf' dst = v /\ forall q, q <> dst -> rf' q = rf q.

Definition movz_state (ctx : code_buf) (u dst i : Z) (st : bool * code_buf) : Prop :=
  exists ws, appended ctx ws st.2 /\ alen ws <= i /\
    if st.1 then ws = [] /\ u mod 2 ^ (16 * i) = 0 else loads ws dst (u mod 2 ^ (16 * i)).

Lemma kept_small v i : 0 <= i -> 0 <= v < 2 ^ (16 * i) -> v / 2 ^ (16 * i + 16) * 2 ^ (16 * i + 16) + v mod 2 ^ (16 * i) = v.
Proof.
  intros Hi Hv. rewrite (Z.mod_small v) by done. rewrite Z.div_small; [lia|]. rewrite Z.pow_add_r by lia. lia.
Qed.
Lemma movz_step ctx sf u dst i st total :
  0 <= sf < 2 -> total = (if sf =? 1 then 4 else 2) -> 0 <= dst < 31 -> 0 <= u -> room ctx 4 -> 0 <= i < total ->
  movz_state ctx u dst i st ->
  exists st', (let '(first, ctx) := st in let hw_val := halfword u i in
      if hw_val =? 0 then Some (first, ctx)
      else if first then ctx ← encode_mov_wide_imm ctx sf 2 i hw_val dst; Some (false, ctx)
      else ctx ← encode_mov_wide_imm ctx sf 3 i hw_val dst; Some (false, ctx)) = Some st' /\
    movz_state ctx u dst (i + 1) st'.
Proof.
  intros Hsf -> Hdst Hu Hroom Hi (ws & Ha & Hlen & Hst). destruct st as [first ctx1]. simpl in *.
  pose proof (halfword_range u i) as Hh. pose proof (halfword_split u i Hu ltac:(lia)) as Hsplit.
  assert (i < 4 /\ (sf = 0 -> i < 2)) as [Hi4 Hi2] by (destruct (sf =? 1) eqn:E; zbool; lia).
  assert (0 <= u mod 2 ^ (16 * i) < 2 ^ (16 * i)) as Hmod by (apply Z.mod_pos_bound; lia).
  assert (room ctx1 1) as Hr1.
  { apply (appended_room ctx ws); [done|]. destruct Hroom. split; lia. }
  assert (forall rf v, 0 <= v -> v = u mod 2 ^ (16 * (i + 1)) -> write rf sf dst v dst = v) as Hw.
  { intros rf v Hv0 Hv. rewrite write_eq by done. apply Z.mod_small. split; [done|]. rewrite Hv.
    apply Z.lt_le_trans with (2 ^ (16 * (i + 1))); [apply Z.mod_pos_bound; lia|]. apply Z.pow_le_mono_r; [lia|].
    destruct (sf =? 1); lia. }
  case_if_bool.
  - eexists. split; [done|]. exists ws. simpl. split; [done|]. split; [lia|].
    replace (u mod 2 ^ (16 * (i + 1))) with (u mod 2 ^ (16 * i)) by lia. done.
  - destruct first.
    + destruct Hst as [-> Hz]. destruct (emit_appends ctx1 (I_mov_wide_imm sf 2 i (halfword u i) dst) I Hr1) as (ctx2 & He & Ha2).
      cbn [emit] in He. rewrite He. cbn [mbind option_bind]. eexists. split; [done|]. eexists. simpl.
      split; [exact (appended_app _ _ _ _ _ Ha Ha2)|]. split; [unfold alen; simpl; lia|].
      intros rf. simpl. rewrite exec_mov_wide by (auto || lia). simpl. eexists. split; [done|].
      split; [|by apply write_ne]. rewrite Hw; lia.
    + destruct (emit_appends ctx1 (I_mov_wide_imm sf 3 i (halfword u i) dst) I Hr1) as (ctx2 & He & Ha2).
      cbn [emit] in He. rewrite He. cbn [mbind option_bind]. eexists. split; [done|]. exists (ws ++ [insn_word (I_mov_wide_imm sf 3 i (halfword u i) dst)]). simpl.
      split; [exact (appended_app _ _ _ _ _ Ha Ha2)|]. split; [rewrite alen_app; unfold alen in Hlen |- *; simpl; lia|].
      intros rf. destruct (Hst rf) as (rf1 & Hrun & Hd & Hq). rewrite run_app, Hrun. cbn [mbind option_bind run].
      rewrite exec_mov_wide by (auto || lia). simpl. eexists. split; [done|]. rewrite Hd, kept_small by (done || lia).
      split; [rewrite Hw; lia|]. intros q Hne. rewrite write_ne by done. by apply Hq.
Qed.

Lemma movz_sequence ctx sf u dst total :
  0 <= sf < 2 -> total = (if sf =? 1 then 4 else 2) -> 0 <= dst < 31 -> 0 <= u -> room ctx 4 -> u mod 2 ^ (16 * total) <> 0 ->
  exists ctx' ws, mov_sequence sf 2 u total dst 0 (fun x => x) ctx = Some ctx' /\ appended ctx ws ctx' /\ alen ws <= 4 /\
    loads ws dst (u mod 2 ^ (16 * total)).
Proof.
  intros Hsf Ht Hdst Hu Hroom Hnz. unfold mov_sequence. assert (2 <= total <= 4) by (destruct (sf =? 1); lia).
  match goal with |- context [afor ?f ?n _ _] =>
    edestruct (afor_total f (movz_state ctx u dst) n 0 (true, ctx)) as (st & -> & Hst) end;
    [|intros j s Hj; apply (movz_step ctx sf u dst j s total); first [exact Ht|done|lia]|].
  - exists []. simpl. split; [apply appended_nil|]. split; [by unfold alen|]. split; [done|]. by rewrite Z.mod_1_r.
  - destruct st as [first ctx']. cbn [mbind option_bind]. destruct Hst as (ws & Ha & Hlen & Hst). simpl in *.
    rewrite Z2Nat.id in Hst, Hlen by lia. exists ctx', ws. split; [done|]. split; [done|]. split; [lia|].
    destruct first; [by destruct Hst|done].
Qed.

(** C13. [load_immediate] loads its argument.  For every constant, destination register
    and operand size, when four instructions fit in the buffer, it emits at most four
    words; running them leaves the constant, modulo the operand size, in the
    destination and every other register unchanged.  This covers the special cases,
    the logical immediates and the MOVZ/MOVK sequence. *)
Theorem load_immediate_correct ctx val dst (is_64bit : bool) :
  - 2 ^ 63 <= val < 2 ^ 63 -> (is_64bit = false -> - 2 ^ 31 <= val < 2 ^ 32) -> 0 <= dst < 31 -> room ctx 4 ->
  exists ctx' ws, load_immediate ctx val dst is_64bit = Some ctx' /\ appended ctx ws ctx' /\ alen ws <= 4 /\
    loads ws dst (val mod 2 ^ (if is_64bit then 64 else 32)).
Proof.
  intros Hval Hval32 Hdst Hroom. unfold load_immediate. set (sf := if is_64bit then 1 else 0).
  assert (0 <= sf < 2) as Hsf by (unfold sf; destruct is_64bit; lia).
  set (bits := if is_64bit then 64 else 32).
  assert ((if sf =? 1 then 64 else 32) = bits) as Hbits by (unfold sf, bits; by destruct is_64bit).
  assert (room ctx 1) as Hr1 by (destruct Hroom; split; lia).
  (* one instruction *)
  assert (forall i v, insn_ok i -> (forall rf, exec (insn_word i) rf = Some (write rf sf dst v)) -> v mod 2 ^ bits = val mod 2 ^ bits ->
    exists ctx' ws, emit ctx i = Some ctx' /\ appended ctx ws ctx' /\ alen ws <= 4 /\ loads ws dst (val mod 2 ^ bits)) as Hone.
  { intros i v Hi He Hv. destruct (emit_appends ctx i Hi Hr1) as (ctx' & Hem & Ha). exists ctx', [insn_word i].
    split; [done|]. split; [done|]. split; [done|]. intros rf. simpl. rewrite He. simpl. eexists. split; [done|].
    split; [rewrite write_eq by done; by rewrite Hbits|]. intros q Hq. by apply write_ne. }
  case_if_bool; [subst val; eapply (Hone (I_logical_reg sf 1 0 0 XZR 0 XZR dst)); [done|intros; by apply exec_zero|done]|].
  destruct ((negb is_64bit && (val =? 0xFFFFFFFF)) || (is_64bit && (val =? -1))) eqn:E1.
  { eapply (Hone (I_mov_wide_imm sf 0 0 0 dst)); [done|intros rf; rewrite exec_mov_wide by (auto || lia); simpl; reflexivity|].
    unfold bits. destruct is_64bit; simpl in E1; rewrite ?orb_false_r in E1; apply Z.eqb_eq in E1; rewrite E1; reflexivity. }
  destruct ((val <? 0) && (val >=? -65536)) eqn:E2.
  { zbool. assert (Z.land (i32 (Z.lnot val)) 0xFFFF = - val - 1) as ->.
    { rewrite i32_small by (unfold in_i32, INT_MIN, INT_MAX, Z.lnot; lia). rewrite (land_mask 16) by done. unfold Z.lnot. rewrite Z.mod_small by lia. lia. }
    eapply (Hone (I_mov_wide_imm sf 0 0 (- val - 1) dst)); [done|intros rf; rewrite exec_mov_wide by (auto || lia); simpl; reflexivity|].
    rewrite Z.mul_1_r. unfold Z.lnot. f_equal. lia. }
  destruct ((val >? 0) && (val <=? 65535)) eqn:E3.
  { zbool. eapply (Hone (I_mov_wide_imm sf 2 0 val dst)); [done|intros rf; rewrite exec_mov_wide by (auto || lia); simpl; reflexivity|].
    by rewrite Z.mul_1_r. }
  assert (exists r, (if is_64bit then is_logical_immediate_64 (u64 val) else is_logical_immediate_32 (u32 val)) = Some r /\
    match r with
    | Some (N, immr, imms) => 0 <= N < 2 /\ (sf = 0 -> N = 0) /\ 0 <= immr < 64 /\ 0 <= imms < 64 /\
        exists m, decode_bit_masks N imms immr = Some m /\ m mod 2 ^ bits = val mod 2 ^ bits
    | None => True
    end) as (r & -> & Hr).
  { unfold sf, bits. destruct is_64bit.
    - destruct (is_logical_immediate_spec (u64 val) ltac:(by apply uN_range)) as ([[[N immr] imms]|] & -> & Hr); [|by eexists].
      eexists. split; [done|]. cbv beta iota. destruct Hr as (?&?&?&Hd). split_and!; try lia. eexists. split; [exact Hd|].
      unfold uN. by rewrite Z.mod_mod.
    - destruct (is_logical_immediate_32_spec (u32 val) ltac:(by apply uN_range)) as ([[[N immr] imms]|] & -> & Hr); [|by eexists].
      eexists. split; [done|]. cbv beta iota. destruct Hr as (?&?&?&Hd). split_and!; try lia. eexists. split; [exact Hd|].
      rewrite Z.add_comm, Z_mod_plus_full. unfold uN. by rewrite Z.mod_mod. }
  cbn [mbind option_bind]. destruct r as [[[N immr] imms]|].
  - destruct Hr as (HN & HN0 & Hir & His & m & Hm & Hmv).
    eapply (Hone (I_logical_imm sf 1 N immr imms XZR dst)); [done|intros rf; by apply exec_logical_imm|done].
  - cbv zeta. rewrite movn_never_chosen.
    assert ((if is_64bit then 4 else 2) = (if sf =? 1 then 4 else 2)) as Ht by (unfold sf; by destruct is_64bit).
    assert (u64 val mod 2 ^ (16 * (if is_64bit then 4 else 2)) = val mod 2 ^ bits) as Hu.
    { unfold bits, uN. destruct is_64bit; [by rewrite Z.mod_mod|]. change (16 * 2) with 32.
      rewrite Z.mod_mod_divide; [done|]. by exists (2 ^ 32). }
    rewrite <- Hu. apply movz_sequence; [done|done|done|by apply uN_range|done|]. rewrite Hu. unfold bits.
    destruct is_64bit.
    + intros Hz. apply Z.mod_divide in Hz as [q Hq]; lia.
    + specialize (Hval32 eq_refl). intros Hz. apply Z.mod_divide in Hz as [q Hq]; lia.
Qed.
Lemma load_immediate_correct_witness :
  exists ctx' ws, load_immediate empty_code 0x123456789ABCDEF0 3 true = Some ctx' /\ appended empty_code ws ctx' /\ alen ws <= 4 /\
    loads ws 3 (0x123456789ABCDEF0 mod 2 ^ 64).
Proof. apply (load_immediate_correct empty_code 0x123456789ABCDEF0 3 true); [lia|discriminate|lia|split; vm_compute; discriminate]. Defined.
