(* ===== verification/Types.v ===== *)
(** * Runtime types ([src/std/types.c])

    The type descriptors a running program sees: a heap of [hl_type] and of the
    structures they point to.  Pointers are indices into the tables of the heap, so
    that comparing pointers is comparing indices; a name also carries its address,
    since the code compares names by address.  [None] is an access the C program
    does not define (a wrong union member, a bad pointer) or an exhausted fuel. *)
From S2P Require Import Prelude Ustr Buffer Reader.

(** ** Type descriptors *)
(** A zero-terminated name: its address, and the block of characters there. *)
Record uname := UName { u_ptr : Z; u_chars : list Z }.
(** An array and the count that goes with it ([nargs], [nfields], ...) are one list. *)
Record hl_type_fun := TypeFun { args : list Z; ret : Z }.
Record hl_obj_field := ObjField { f_name : uname; f_t : Z; f_hashed_name : Z }.
Record hl_obj_proto := ObjProto { p_name : uname; p_findex : Z; p_pindex : Z; p_hashed_name : Z }.
Record hl_type_obj := TypeObj
  { o_name : uname; o_super : option Z; o_fields : list hl_obj_field;
    o_proto : list hl_obj_proto; o_bindings : list (Z * Z); o_global : option Z }.
Record hl_enum_construct := EnumConstruct { c_name : uname; c_params : list Z }.
Record hl_type_enum := TypeEnum
  { e_name : option uname; e_constructs : list hl_enum_construct; e_global : option Z }.

(** [obj], [virt] and [tenum] point into the heap; [fun] is only ever read through. *)
Inductive type_data :=
  | TNone
  | TFun (f : hl_type_fun)
  | TObj (o : Z)
  | TVirt (v : Z)
  | TAbs (name : uname)
  | TEnum (e : Z)
  | TParam (t : Z).
Record hl_type := Type_ { kind : Z; tdata : type_data }.

Record heap := Heap
  { types : list hl_type; objs : list hl_type_obj; virts : list (list hl_obj_field);
    enums : list hl_type_enum }.

#[global] Instance uname_eq_dec : EqDecision uname.
Proof. solve_decision. Defined.

Definition HL_WSIZE : Z := 8.

Section types.
Context (h : heap).

Definition type_at (t : Z) : option hl_type := aget (types h) t.
Definition kind_of (t : Z) : option Z := kind <$> type_at t.
(** The union members, as the code reads them for a kind. *)
Definition fun_of (t : Z) : option hl_type_fun :=
  ty ← type_at t; match tdata ty with TFun f => Some f | _ => None end.
Definition obj_ptr (t : Z) : option Z :=
  ty ← type_at t; match tdata ty with TObj o => Some o | _ => None end.
Definition virt_ptr (t : Z) : option Z :=
  ty ← type_at t; match tdata ty with TVirt v => Some v | _ => None end.
Definition abs_name (t : Z) : option uname :=
  ty ← type_at t; match tdata ty with TAbs n => Some n | _ => None end.
Definition enum_ptr (t : Z) : option Z :=
  ty ← type_at t; match tdata ty with TEnum e => Some e | _ => None end.
Definition tparam (t : Z) : option Z :=
  ty ← type_at t; match tdata ty with TParam p => Some p | _ => None end.
Definition obj_of (t : Z) : option hl_type_obj := o ← obj_ptr t; aget (objs h) o.
Definition virt_of (t : Z) : option (list hl_obj_field) := v ← virt_ptr t; aget (virts h) v.
Definition enum_of (t : Z) : option hl_type_enum := e ← enum_ptr t; aget (enums h) e.

(** ** Sizes and alignments *)
Definition T_SIZES : list Z :=
  [0; 1; 2; 4; 8; 4; 8; 1; HL_WSIZE; HL_WSIZE; HL_WSIZE; HL_WSIZE; HL_WSIZE; HL_WSIZE; HL_WSIZE;
   HL_WSIZE; HL_WSIZE; HL_WSIZE; HL_WSIZE; HL_WSIZE; HL_WSIZE; HL_WSIZE; 0; 8].
Definition hl_type_size (t : Z) : option Z := k ← kind_of t; aget T_SIZES k.

(** The alignments are those of the x86-64 and AArch64 ABIs. *)
Definition align_of (k : Z) : Z :=
  if k =? HUI8 then 1 else if k =? HUI16 then 2 else if k =? HI32 then 4
  else if (k =? HI64) || (k =? HGUID) then 8 else if k =? HF32 then 4 else if k =? HF64 then 8
  else if k =? HBOOL then 1 else HL_WSIZE.
Definition hl_pad_struct (size t : Z) : option Z :=
  k ← kind_of t;
  if k =? HVOID then Some 0 else
  neg ← int_of (- size); Some (Z.land neg (align_of k - 1)).

Definition T_IS_DYNAMIC : list bool :=
  [false; false; false; false; false; false; false; false; false; true; true; true; true; false; false;
   true; true; false; true; true; false; false; false; false].
Definition hl_is_dynamic (t : Z) : option bool := k ← kind_of t; aget T_IS_DYNAMIC k.
Definition T_IS_PTR : list bool :=
  [false; false; false; false; false; false; false; false; true; true; true; true; true; true; true;
   true; true; true; true; true; true; true; true; false].
Definition hl_is_ptr (t : Z) : option bool := k ← kind_of t; aget T_IS_PTR k.

(** ** The string type *)
Definition ustr_String : list Z := [83; 116; 114; 105; 110; 103; 0].
(** [string_type] is [hl_string_type], [t] may be a null pointer. *)
Definition hl_is_string_type (string_type t : option Z) : option bool :=
  if decide (t = string_type) then Some (match t with Some _ => true | None => false end) else
  match t with
  | None => Some false
  | Some t =>
      k ← kind_of t;
      if negb (k =? HOBJ) then Some false else
      o ← obj_of t;
      if (match o_super o with Some _ => false | None => true end) && (alen (o_fields o) =? 2) then
        c ← ucmp (u_chars (o_name o)) ustr_String;
        if negb (c =? 0) then Some false else
        f0 ← aget (o_fields o) 0; k0 ← kind_of (f_t f0);
        if negb (k0 =? HBYTES) then Some false else
        f1 ← aget (o_fields o) 1; k1 ← kind_of (f_t f1);
        Some (k1 =? HI32)
      else Some false
  end.
Definition hl_register_string_type (string_type : option Z) (t : Z) : option (option Z) :=
  match string_type with
  | Some _ => Some string_type
  | None => b ← hl_is_string_type string_type (Some t); Some (if b : bool then Some t else string_type)
  end.

(** ** Type identity *)
(** [for(i=0;i<n;i++) if( !f(i) ) return false; return true] *)
Fixpoint all_of (f : Z -> option bool) (n : nat) (i : Z) : option bool :=
  match n with
  | O => Some true
  | S n => b ← f i; if (b : bool) then all_of f n (i + 1) else Some false
  end.

(** The kinds without data. *)
Definition plain_kind (k : Z) : bool :=
  bool_decide (k ∈ [HVOID; HUI8; HUI16; HI32; HI64; HF32; HF64; HBOOL; HTYPE; HBYTES; HDYN; HARRAY; HDYNOBJ; HGUID]).

Fixpoint hl_same_type (fuel : nat) (a b : Z) : option bool :=
  if a =? b then Some true else
  match fuel with
  | O => None
  | S fuel =>
      ka ← kind_of a; kb ← kind_of b;
      if negb (ka =? kb) then Some false
      else if plain_kind ka then Some true
      else if (ka =? HREF) || (ka =? HNULL) || (ka =? HPACKED) then
        pa ← tparam a; pb ← tparam b; hl_same_type fuel pa pb
      else if (ka =? HFUN) || (ka =? HMETHOD) then
        fa ← fun_of a; fb ← fun_of b;
        if negb (alen (args fa) =? alen (args fb)) then Some false else
        same ← all_of (fun i => x ← aget (args fa) i; y ← aget (args fb) i; hl_same_type fuel x y)
                 (length (args fa)) 0;
        if (same : bool) then hl_same_type fuel (ret fa) (ret fb) else Some false
      else if (ka =? HOBJ) || (ka =? HSTRUCT) then oa ← obj_ptr a; ob ← obj_ptr b; Some (oa =? ob)
      else if ka =? HVIRTUAL then va ← virt_ptr a; vb ← virt_ptr b; Some (va =? vb)
      else if ka =? HABSTRACT then na ← abs_name a; nb ← abs_name b; Some (u_ptr na =? u_ptr nb)
      else if ka =? HENUM then ea ← enum_ptr a; eb ← enum_ptr b; Some (ea =? eb)
      else Some false
  end.

(** ** Casts that need no conversion *)
(** [while( true )] over the superclasses of [o]. *)
Definition super_chain (o oto : Z) : option bool :=
  loop (fun o =>
          d ← aget (objs h) o; dto ← aget (objs h) oto;
          if (o =? oto) || (u_ptr (o_name d) =? u_ptr (o_name dto)) then Some (inr true) else
          match o_super d with
          | None => Some (inr false)
          | Some s => o ← obj_ptr s; Some (inl o)
          end)
       (S (length (objs h))) o.

Section cast.
Context (string_type : option Z).
Fixpoint hl_safe_cast (fuel : nat) (t to : Z) : option bool :=
  if t =? to then Some true else
  match fuel with
  | O => None
  | S fuel =>
      kto ← kind_of to;
      if kto =? HDYN then hl_is_dynamic t else
      k ← kind_of t;
      if negb (k =? kto) then Some false
      else if k =? HVIRTUAL then
        vt ← virt_of t; vto ← virt_of to;
        if alen vto <? alen vt then
          same ← all_of (fun i => f1 ← aget vt i; f2 ← aget vto i;
                     if negb (f_hashed_name f1 =? f_hashed_name f2) then Some false
                     else hl_same_type fuel (f_t f1) (f_t f2)) (length vto) 0;
          if (same : bool) then Some true else hl_same_type fuel t to
        else hl_same_type fuel t to
      else if (k =? HOBJ) || (k =? HSTRUCT) then
        o ← obj_ptr t; oto ← obj_ptr to;
        st ← hl_is_string_type string_type (Some t);
        both ← (if (st : bool) then hl_is_string_type string_type (Some to) else Some false);
        if (both : bool) then Some true else super_chain o oto
      else if (k =? HFUN) || (k =? HMETHOD) then
        f ← fun_of t; fto ← fun_of to;
        if alen (args f) =? alen (args fto) then
          r ← hl_safe_cast fuel (ret f) (ret fto);
          if negb r then Some false else
          all_of (fun i =>
              t1 ← aget (args f) i; t2 ← aget (args fto) i;
              c ← hl_safe_cast fuel t2 t1;
              if (c : bool) then Some true else
              k1 ← kind_of t1;
              if negb (k1 =? HDYN) then Some false else hl_is_dynamic t2)
            (length (args f)) 0
        else hl_same_type fuel t to
      else if k =? HPACKED then p ← tparam t; hl_safe_cast fuel p to
      else hl_same_type fuel t to
  end.
End cast.

(** ** Printing types *)
Definition USTR (s : string) : list Z := map (fun c => Z.of_nat (Ascii.nat_of_ascii c)) (String.list_ascii_of_string s) ++ [0].
Definition TSTR : list (option (list Z)) :=
  [Some (USTR "void"); Some (USTR "ui8"); Some (USTR "ui16"); Some (USTR "i32"); Some (USTR "i64");
   Some (USTR "f32"); Some (USTR "f64"); Some (USTR "bool"); Some (USTR "bytes"); Some (USTR "dynamic");
   None; None; Some (USTR "array"); Some (USTR "type"); None; None; Some (USTR "dynobj");
   None; None; None; None; None; None; Some (USTR "guid")].

Section str.
Context (junk : Z).
Let put (s : list Z) (b : hl_buffer) := hl_buffer_str junk b (Some s).
Let putc (c : Z) (b : hl_buffer) := hl_buffer_char junk b c.

(** [parents] is the list of the types being printed, innermost first. *)
Fixpoint hl_type_str_rec (fuel : nat) (b : hl_buffer) (t : Z) (parents : list Z) : option hl_buffer :=
  k ← kind_of t; c ← aget TSTR k;
  match c with
  | Some c => put c b
  | None =>
      if decide (t ∈ parents) then put (USTR "<...>") b else
      match fuel with
      | O => None
      | S fuel =>
          let l := t :: parents in
          if (k =? HFUN) || (k =? HMETHOD) then
            f ← fun_of t;
            b ← putc 40 b; b ← hl_type_str_rec fuel b (ret f) l; b ← putc 32 b; b ← putc 40 b;
            b ← afor (fun i b => b ← (if i =? 0 then Some b else putc 44 b);
                       a ← aget (args f) i; hl_type_str_rec fuel b a l) (length (args f)) 0 b;
            b ← putc 41 b; putc 41 b
          else if (k =? HSTRUCT) || (k =? HOBJ) then
            b ← (if k =? HSTRUCT then putc 64 b else Some b);
            o ← obj_of t; put (u_chars (o_name o)) b
          else if k =? HREF then
            b ← put (USTR "ref<") b; p ← tparam t; b ← hl_type_str_rec fuel b p l; putc 62 b
          else if k =? HVIRTUAL then
            v ← virt_of t;
            b ← put (USTR "virtual<") b;
            b ← afor (fun i b => b ← (if i =? 0 then Some b else putc 44 b);
                       f ← aget v i;
                       b ← put (u_chars (f_name f)) b; b ← putc 58 b;
                       hl_type_str_rec fuel b (f_t f) l) (length v) 0 b;
            putc 62 b
          else if k =? HABSTRACT then n ← abs_name t; put (u_chars n) b
          else if k =? HENUM then
            e ← enum_of t;
            b ← put (USTR "enum") b;
            match e_name e with
            | Some n => b ← putc 60 b; b ← put (u_chars n) b; putc 62 b
            | None => Some b
            end
          else if k =? HNULL then
            b ← put (USTR "null<") b; p ← tparam t; b ← hl_type_str_rec fuel b p l; putc 62 b
          else if k =? HPACKED then
            b ← put (USTR "packed<") b; p ← tparam t; b ← hl_type_str_rec fuel b p l; putc 62 b
          else put (USTR "???") b
      end
  end.

Definition hl_type_str (fuel : nat) (t : Z) : option (list Z) :=
  k ← kind_of t; c ← aget TSTR k;
  match c with
  | Some c => Some c
  | None => b ← hl_type_str_rec fuel hl_alloc_buffer t []; r ← hl_buffer_content junk b; Some r.1
  end.
End str.

Definition hl_type_name (t : Z) : option (option uname) :=
  k ← kind_of t;
  if (k =? HOBJ) || (k =? HSTRUCT) then o ← obj_of t; Some (Some (o_name o))
  else if k =? HENUM then e ← enum_of t; Some (e_name e)
  else if k =? HABSTRACT then n ← abs_name t; Some (Some n)
  else Some None.
Definition hl_type_args_count (t : Z) : option Z :=
  k ← kind_of t;
  if (k =? HFUN) || (k =? HMETHOD) then f ← fun_of t; Some (alen (args f)) else Some 0.
(** [None] inside is [&hlt_void]. *)
Definition hl_type_super (t : Z) : option (option Z) :=
  k ← kind_of t;
  if (k =? HOBJ) || (k =? HSTRUCT) then o ← obj_of t; Some (o_super o) else Some None.

(** ** Global values *)
(** [globals] is the memory [global_value] points into; a value is a pointer or null. *)
Definition hl_type_get_global (globals : list (option Z)) (t : Z) : option (option Z) :=
  k ← kind_of t;
  if (k =? HOBJ) || (k =? HSTRUCT) then
    o ← obj_of t; match o_global o with Some p => aget globals p | None => Some None end
  else if k =? HENUM then e ← enum_of t; p ← e_global e; aget globals p
  else Some None.
Definition hl_type_set_global (globals : list (option Z)) (t : Z) (v : option Z) : option (list (option Z) * bool) :=
  k ← kind_of t;
  if (k =? HOBJ) || (k =? HSTRUCT) then
    o ← obj_of t;
    match o_global o with Some p => globals ← aset globals p v; Some (globals, true) | None => Some (globals, false) end
  else if k =? HENUM then
    e ← enum_of t;
    match e_global e with Some p => globals ← aset globals p v; Some (globals, true) | None => Some (globals, false) end
  else Some (globals, false).
End types.

(** ** Identifiers *)
Definition GUID_CHARS : list Z := removelast (USTR "#&0123456789ABCDEFGHIJKLMNOPQRSTUVWXYZabcdefghijklmnopqrstuvwxyz").
(** [name] is the registered name of the identifier, [buf] the caller's 14 characters. *)
Definition hl_guid_str (name : option (list Z)) (guid : Z) (buf : list Z) : option (list Z) :=
  match name with
  | Some n => Some n
  | None =>
      if guid =? 0 then Some (USTR "0") else
      '(pos, buf) ← afor (fun i '(pos, buf) =>
          '(pos, buf) ← (if (i =? 4) || (i =? 8) then buf ← aset buf pos 45; Some (pos + 1, buf) else Some (pos, buf));
          c ← aget GUID_CHARS (Z.land (Z.shiftr guid (60 - i * 6)) 63);
          buf ← aset buf pos c; Some (pos + 1, buf)) 11 0 (0, buf);
      aset buf pos 0
  end.
