(* ===== verification/TypesProps.v ===== *)
(** * Type identity, casts and printing are sound

    [heap_ok] is what the bytecode reader and the module loader establish: every
    descriptor carries the data of its kind and every pointer leads somewhere.
    [ranked] excludes descriptors that contain themselves through type parameters
    or function signatures, on which the C functions would not terminate. *)
From S2P Require Import Prelude Ustr Buffer Lookup Reader Types.

(** ** Well-formed heaps *)
Definition name_ok (n : uname) : Prop := exists s, cstring (u_chars n) s.

Section heap_ok.
Context (h : heap).
Definition valid (t : Z) : Prop := 0 <= t < alen (types h).
Definition data_ok (k : Z) (d : type_data) : Prop :=
  match d with
  | TNone => plain_kind k = true
  | TFun f => (k = HFUN \/ k = HMETHOD) /\ Forall valid (args f) /\ valid (ret f)
  | TObj o => (k = HOBJ \/ k = HSTRUCT) /\ 0 <= o < alen (objs h)
  | TVirt v => k = HVIRTUAL /\ 0 <= v < alen (virts h)
  | TAbs n => k = HABSTRACT /\ name_ok n
  | TEnum e => k = HENUM /\ 0 <= e < alen (enums h)
  | TParam p => (k = HREF \/ k = HNULL \/ k = HPACKED) /\ valid p
  end.
Definition is_class (t : Z) : Prop := exists k o, type_at h t = Some (Type_ k (TObj o)).
Definition field_ok (f : hl_obj_field) : Prop := valid (f_t f) /\ name_ok (f_name f).
Record obj_ok (o : hl_type_obj) : Prop := {
  obj_name_ok : name_ok (o_name o) /\ uchars (u_chars (o_name o));
  obj_super_ok : forall s, o_super o = Some s -> is_class s;
  obj_fields_ok : Forall field_ok (o_fields o);
}.
Definition enum_ok (e : hl_type_enum) : Prop :=
  (forall n, e_name e = Some n -> name_ok n) /\ Forall (fun c => Forall valid (c_params c)) (e_constructs e).
Record heap_ok : Prop := {
  types_ok : Forall (fun ty => data_ok (kind ty) (tdata ty)) (types h);
  objs_ok : Forall obj_ok (objs h);
  virts_ok : Forall (Forall field_ok) (virts h);
  enums_ok : Forall enum_ok (enums h);
}.
End heap_ok.

Section heap.
Context (h : heap) (Hok : heap_ok h).

Lemma valid_type t : valid h t -> exists ty, type_at h t = Some ty /\ data_ok h (kind ty) (tdata ty).
Proof.
  intros Ht. destruct (aget_is_Some (types h) t Ht) as [ty Hty]. exists ty. split; [done|].
  by apply (Forall_aget (fun ty => data_ok h (kind ty) (tdata ty)) _ _ _ (types_ok h Hok) Hty).
Qed.

(** The kind and the data of a descriptor, in one step. *)
Lemma type_cases t ty : type_at h t = Some ty -> kind_of h t = Some (kind ty) /\
  match tdata ty with
  | TNone => True
  | TFun f => fun_of h t = Some f
  | TObj o => obj_ptr h t = Some o
  | TVirt v => virt_ptr h t = Some v
  | TAbs n => abs_name h t = Some n
  | TEnum e => enum_ptr h t = Some e
  | TParam p => tparam h t = Some p
  end.
Proof.
  intros Ht. unfold kind_of, fun_of, obj_ptr, virt_ptr, abs_name, enum_ptr, tparam. rewrite Ht. simpl.
  split; [done|]. by destruct (tdata ty).
Qed.

(** [hl_same_type] on two different descriptors, by their data. *)
Definition same_body (rec : Z -> Z -> option bool) (a b : hl_type) : option bool :=
  if negb (kind a =? kind b) then Some false else
  match tdata a, tdata b with
  | TNone, TNone => Some true
  | TParam p, TParam q => rec p q
  | TFun f, TFun g =>
      if negb (alen (args f) =? alen (args g)) then Some false else
      same ← all_of (fun i => x ← aget (args f) i; y ← aget (args g) i; rec x y) (length (args f)) 0;
      if (same : bool) then rec (ret f) (ret g) else Some false
  | TObj p, TObj q => Some (p =? q)
  | TVirt p, TVirt q => Some (p =? q)
  | TAbs m, TAbs n => Some (u_ptr m =? u_ptr n)
  | TEnum p, TEnum q => Some (p =? q)
  | _, _ => Some false
  end.
Lemma plain_cases k : plain_kind k = true ->
  k ∈ [HVOID; HUI8; HUI16; HI32; HI64; HF32; HF64; HBOOL; HTYPE; HBYTES; HDYN; HARRAY; HDYNOBJ; HGUID].
Proof. intros Hk. unfold plain_kind in Hk. by apply bool_decide_eq_true in Hk. Qed.

Lemma same_unfold fuel a b ta tb : type_at h a = Some ta -> type_at h b = Some tb -> a <> b ->
  data_ok h (kind ta) (tdata ta) -> data_ok h (kind tb) (tdata tb) ->
  hl_same_type h (S fuel) a b = same_body (hl_same_type h fuel) ta tb.
Proof.
  intros Ha Hb Hne Hda Hdb. cbn [hl_same_type]. destruct (Z.eqb_spec a b) as [|_]; [done|].
  destruct (type_cases a ta Ha) as [Hka Hca], (type_cases b tb Hb) as [Hkb Hcb].
  rewrite Hka, Hkb. cbn [mbind option_bind]. unfold same_body. destruct (Z.eqb_spec (kind ta) (kind tb)) as [Hk|_]; [|done].
  cbn [negb]. rewrite <- Hk in Hdb. destruct ta as [k da]. cbn [kind tdata] in *.
  destruct da; simpl in Hda; [rewrite Hda|..]; (destruct (tdata tb); simpl in Hdb; cbn [kind] in *;
    repeat match goal with H : _ /\ _ |- _ => destruct H | H : _ \/ _ |- _ => destruct H | H : plain_kind _ = true |- _ => apply plain_cases in H; set_unfold in H end;
    subst; try discriminate; try congruence; try (by rewrite ?Hca, ?Hcb)).
Qed.

(** ** Termination *)
(** Parameters, arguments and results are strictly below the type they are part of. *)
Definition ranked (rank : Z -> nat) : Prop := forall t ty, type_at h t = Some ty ->
  match tdata ty with
  | TParam p => (rank p < rank t)%nat
  | TFun f => Forall (fun a => (rank a < rank t)%nat) (args f) /\ (rank (ret f) < rank t)%nat
  | _ => True
  end.
Lemma all_of_total (f : Z -> option bool) n i : (forall j, i <= j < i + Z.of_nat n -> exists b, f j = Some b) ->
  exists b, all_of f n i = Some b /\ (b = true -> forall j, i <= j < i + Z.of_nat n -> f j = Some true).
Proof.
  revert i. induction n as [|n IH]; intros i Hf; simpl.
  - exists true. split; [done|]. intros _ j Hj. lia.
  - destruct (Hf i ltac:(lia)) as [b Hb]. rewrite Hb. simpl. destruct b; [|by exists false].
    destruct (IH (i + 1)) as (b & Hb' & Hall); [intros j Hj; apply Hf; lia|]. exists b. split; [done|].
    intros -> j Hj. destruct (decide (j = i)) as [->|]; [done|]. apply Hall; [done|lia].
Qed.
Lemma all_of_true (f : Z -> option bool) n i :
  (forall j, i <= j < i + Z.of_nat n -> f j = Some true) -> all_of f n i = Some true.
Proof.
  revert i. induction n as [|n IH]; intros i Hf; simpl; [done|]. rewrite Hf by lia. simpl. apply IH. intros j Hj. apply Hf. lia.
Qed.
Lemma all_of_inv (f : Z -> option bool) n i : all_of f n i = Some true -> forall j, i <= j < i + Z.of_nat n -> f j = Some true.
Proof.
  revert i. induction n as [|n IH]; intros i Hf j Hj; simpl in Hf; [lia|]. destruct (f i) as [[|]|] eqn:E; try done.
  simpl in Hf. destruct (decide (j = i)) as [->|]; [done|]. apply (IH (i + 1)); [done|lia].
Qed.
(** Two tests that agree wherever the first one answers. *)
Lemma all_of_mono (f g : Z -> option bool) n i b : all_of f n i = Some b ->
  (forall j b, i <= j < i + Z.of_nat n -> f j = Some b -> g j = Some b) -> all_of g n i = Some b.
Proof.
  revert i. induction n as [|n IH]; intros i Hf Hg; simpl in *; [done|]. destruct (f i) as [c|] eqn:E; [|done]. simpl in Hf.
  rewrite (Hg i c) by (done || lia). simpl. destruct c; [|done]. apply IH; [done|]. intros j b' Hj. apply Hg. lia.
Qed.

Context (rank : Z -> nat) (Hrank : ranked rank).

Lemma valid_args ty f : data_ok h (kind ty) (tdata ty) -> tdata ty = TFun f -> forall i a, aget (args f) i = Some a -> valid h a.
Proof. intros Hd Hf i a Ha. rewrite Hf in Hd. destruct Hd as (_ & Hd & _). by eapply Forall_aget in Ha. Qed.
Lemma rank_args t ty f : type_at h t = Some ty -> tdata ty = TFun f -> forall i a, aget (args f) i = Some a -> (rank a < rank t)%nat.
Proof. intros Ht Hf i a Ha. pose proof (Hrank t ty Ht) as Hr. rewrite Hf in Hr. destruct Hr as [Hr _]. exact (Forall_aget _ _ _ _ Hr Ha). Qed.

Lemma same_type_total fuel : forall a b, valid h a -> valid h b -> (rank a < fuel)%nat -> exists r, hl_same_type h fuel a b = Some r.
Proof.
  induction fuel as [|fuel IH]; intros a b Ha Hb Hf; [lia|].
  destruct (decide (a = b)) as [->|Hne]; [exists true; simpl; by rewrite Z.eqb_refl|].
  destruct (valid_type a Ha) as (ta & Hta & Hda), (valid_type b Hb) as (tb & Htb & Hdb).
  rewrite (same_unfold _ _ _ _ _ Hta Htb Hne Hda Hdb). unfold same_body.
  destruct (negb _); [by eexists|]. pose proof (Hrank a ta Hta) as Hra.
  destruct (tdata ta) as [|f| | | | |p] eqn:Ea, (tdata tb) as [|g| | | | |q] eqn:Eb; try (by eexists).
  - destruct (alen (args f) =? alen (args g)) eqn:El; zbool; [|by eexists]. cbn [negb].
    destruct Hra as [_ Hrr]. simpl in Hda, Hdb.
    destruct (all_of_total (fun i => x ← aget (args f) i; y ← aget (args g) i; hl_same_type h fuel x y) (length (args f)) 0) as (s & Hs & _).
    { intros j Hj. destruct (aget_is_Some (args f) j) as [x Hx]; [unfold alen; lia|]. destruct (aget_is_Some (args g) j) as [y Hy]; [unfold alen in *; lia|].
      rewrite Hx, Hy. simpl. pose proof (rank_args a ta f Hta Ea _ _ Hx). apply IH; [|..|lia].
      - destruct Hda as (_ & Hda & _). exact (Forall_aget _ _ _ _ Hda Hx).
      - destruct Hdb as (_ & Hdb & _). exact (Forall_aget _ _ _ _ Hdb Hy). }
    rewrite Hs. simpl. destruct s; [|by eexists]. apply IH; [naive_solver..|lia].
  - apply IH; [naive_solver..|lia].
Qed.

(** ** An equivalence *)
Lemma same_refl fuel a : hl_same_type h fuel a a = Some true.
Proof. destruct fuel; simpl; by rewrite Z.eqb_refl. Qed.

(** What a positive answer on two different types says. *)
Lemma same_true fuel a b : valid h a -> valid h b -> hl_same_type h fuel a b = Some true -> a <> b ->
  exists fuel' ta tb, fuel = S fuel' /\ type_at h a = Some ta /\ type_at h b = Some tb /\
    data_ok h (kind ta) (tdata ta) /\ data_ok h (kind tb) (tdata tb) /\
    kind ta = kind tb /\ same_body (hl_same_type h fuel') ta tb = Some true.
Proof.
  intros Ha Hb Hs Hne. destruct (valid_type a Ha) as (ta & Hta & Hda), (valid_type b Hb) as (tb & Htb & Hdb).
  destruct fuel as [|fuel]; [simpl in Hs; destruct (Z.eqb_spec a b); [done|done]|].
  rewrite (same_unfold _ _ _ _ _ Hta Htb Hne Hda Hdb) in Hs. exists fuel, ta, tb. repeat split; try done.
  unfold same_body in Hs. by destruct (Z.eqb_spec (kind ta) (kind tb)).
Qed.
Lemma fun_args_valid ty f i a : data_ok h (kind ty) (tdata ty) -> tdata ty = TFun f -> aget (args f) i = Some a -> valid h a.
Proof. intros. by eapply valid_args. Qed.

Lemma same_sym fuel : forall a b, valid h a -> valid h b -> hl_same_type h fuel a b = Some true -> hl_same_type h fuel b a = Some true.
Proof.
  induction fuel as [|fuel IH]; intros a b Ha Hb Hs; (destruct (decide (a = b)) as [->|Hne]; [apply same_refl|]).
  { simpl in Hs. by destruct (Z.eqb_spec a b). }
  destruct (same_true _ a b Ha Hb Hs Hne) as (fuel' & ta & tb & [= <-] & Hta & Htb & Hda & Hdb & Hk & Hbody).
  rewrite (same_unfold _ _ _ _ _ Htb Hta (not_eq_sym Hne) Hdb Hda). unfold same_body in Hbody |- *. rewrite Hk, Z.eqb_refl in Hbody |- *. cbn [negb] in *.
  destruct (tdata ta) as [|f| | | | |p] eqn:Ea, (tdata tb) as [|g| | | | |q] eqn:Eb; simpl in Hda, Hdb; try done; try (by rewrite Z.eqb_sym).
  - destruct (alen (args f) =? alen (args g)) eqn:El; [|done]. rewrite Z.eqb_sym, El. zbool. cbn [negb] in *.
    destruct (all_of _ _ _) as [[|]|] eqn:Eall; try done. simpl in Hbody.
    rewrite (all_of_true _ (length (args g)) 0); [simpl; naive_solver|].
    intros j Hj. pose proof (all_of_inv _ _ _ Eall j ltac:(unfold alen in *; lia)) as Hj'. cbv beta in Hj'.
    destruct (aget (args f) j) as [x|] eqn:Ex; [|done]. destruct (aget (args g) j) as [y|] eqn:Ey; [|done]. simpl in *.
    apply IH; [| |done]; [exact (Forall_aget _ _ _ _ (proj1 (proj2 Hda)) Ex)|exact (Forall_aget _ _ _ _ (proj1 (proj2 Hdb)) Ey)].
  - apply IH; naive_solver.
Qed.

Lemma same_trans fuel : forall a b c, valid h a -> valid h b -> valid h c ->
  hl_same_type h fuel a b = Some true -> hl_same_type h fuel b c = Some true -> hl_same_type h fuel a c = Some true.
Proof.
  induction fuel as [|fuel IH]; intros a b c Ha Hb Hc Hab Hbc;
    (destruct (decide (a = b)) as [->|Hne]; [done|]; destruct (decide (b = c)) as [->|Hne']; [done|];
     destruct (decide (a = c)) as [->|Hne'']; [apply same_refl|]).
  { simpl in Hab. by destruct (Z.eqb_spec a b). }
  destruct (same_true _ a b Ha Hb Hab Hne) as (fuel' & ta & tb & [= <-] & Hta & Htb & Hda & Hdb & Hk & Hbody).
  destruct (same_true _ b c Hb Hc Hbc Hne') as (fuel' & tb' & tc & [= <-] & Htb' & Htc & _ & Hdc & Hk' & Hbody').
  rewrite Htb in Htb'. injection Htb' as <-.
  rewrite (same_unfold _ _ _ _ _ Hta Htc Hne'' Hda Hdc). unfold same_body in Hbody, Hbody' |- *.
  rewrite Hk, Z.eqb_refl in Hbody. rewrite Hk', Z.eqb_refl in Hbody'. rewrite Hk, Hk', Z.eqb_refl. cbn [negb] in *.
  destruct (tdata ta) as [|f| | | | |p] eqn:Ea, (tdata tb) as [|g| | | | |q] eqn:Eb; try done;
    destruct (tdata tc) as [|k| | | | |r] eqn:Ec; simpl in Hda, Hdb, Hdc; try done;
    try (injection Hbody as Hbody; injection Hbody' as Hbody'; zbool; by rewrite Hbody, Hbody', Z.eqb_refl).
  - destruct (alen (args f) =? alen (args g)) eqn:El; [|done]. destruct (alen (args g) =? alen (args k)) eqn:El'; [|done]. zbool.
    rewrite El, El', Z.eqb_refl. cbn [negb] in *.
    destruct (all_of _ (length (args f)) _) as [[|]|] eqn:Eall; try done. destruct (all_of _ (length (args g)) _) as [[|]|] eqn:Eall'; try done. simpl in Hbody, Hbody'.
    rewrite (all_of_true _ (length (args f)) 0); [simpl; apply (IH _ (ret g)); naive_solver|].
    intros j Hj. pose proof (all_of_inv _ _ _ Eall j Hj) as Hj1. pose proof (all_of_inv _ _ _ Eall' j ltac:(unfold alen in *; lia)) as Hj2. cbv beta in Hj1, Hj2.
    destruct (aget (args f) j) as [x|] eqn:Ex; [|done]. destruct (aget (args g) j) as [y|] eqn:Ey; [|done].
    destruct (aget (args k) j) as [z|] eqn:Ez; [|done]. simpl in *.
    apply (IH x y z); try done; [exact (Forall_aget _ _ _ _ (proj1 (proj2 Hda)) Ex)|exact (Forall_aget _ _ _ _ (proj1 (proj2 Hdb)) Ey)|exact (Forall_aget _ _ _ _ (proj1 (proj2 Hdc)) Ez)].
  - apply (IH p q r); naive_solver.
Qed.
Lemma same_kind fuel a b : valid h a -> valid h b -> hl_same_type h fuel a b = Some true -> kind_of h a = kind_of h b.
Proof.
  intros Ha Hb Hs. destruct (decide (a = b)) as [->|Hne]; [done|].
  destruct (same_true _ a b Ha Hb Hs Hne) as (? & ta & tb & _ & Hta & Htb & _ & _ & Hk & _).
  unfold kind_of. rewrite Hta, Htb. simpl. by rewrite Hk.
Qed.

(** A higher fuel does not change an answer. *)
Lemma same_mono fuel : forall a b r, valid h a -> valid h b -> hl_same_type h fuel a b = Some r -> hl_same_type h (S fuel) a b = Some r.
Proof.
  induction fuel as [|fuel IH]; intros a b r Ha Hb Hs; (destruct (decide (a = b)) as [->|Hne]; [by rewrite same_refl in Hs |- *|]).
  { simpl in Hs. by destruct (Z.eqb_spec a b). }
  destruct (valid_type a Ha) as (ta & Hta & Hda), (valid_type b Hb) as (tb & Htb & Hdb).
  rewrite (same_unfold _ _ _ _ _ Hta Htb Hne Hda Hdb) in Hs. rewrite (same_unfold _ _ _ _ _ Hta Htb Hne Hda Hdb).
  unfold same_body in Hs |- *. destruct (negb (kind ta =? kind tb)); [done|].
  destruct (tdata ta) as [|f| | | | |p] eqn:Ea, (tdata tb) as [|g| | | | |q] eqn:Eb; try done; simpl in Hda, Hdb; [|apply IH; naive_solver].
  destruct (negb (alen (args f) =? alen (args g))); [done|]. destruct (all_of _ _ _) as [s|] eqn:Eall; [|done]. simpl in Hs.
  erewrite all_of_mono; [|exact Eall|].
  - simpl. destruct s; [apply IH; naive_solver|done].
  - intros j b' Hj Hb'. cbv beta in Hb' |- *. destruct (aget (args f) j) as [x|] eqn:Ex; [|done]. destruct (aget (args g) j) as [y|] eqn:Ey; [|done]. simpl in *.
    apply IH; [| |done]; [exact (Forall_aget _ _ _ _ (proj1 (proj2 Hda)) Ex)|exact (Forall_aget _ _ _ _ (proj1 (proj2 Hdb)) Ey)].
Qed.
Lemma same_lower fuel a b : valid h a -> valid h b -> (rank a < fuel)%nat ->
  hl_same_type h (S fuel) a b = Some true -> hl_same_type h fuel a b = Some true.
Proof.
  intros Ha Hb Hf Hs. destruct (same_type_total fuel a b Ha Hb Hf) as [r Hr]. pose proof (same_mono fuel a b r Ha Hb Hr). congruence.
Qed.

(** ** Superclasses *)
Inductive superclass : Z -> Z -> Prop :=
  | super_self o : superclass o o
  | super_step o d s o1 o2 : aget (objs h) o = Some d -> o_super d = Some s -> obj_ptr h s = Some o1 ->
      superclass o1 o2 -> superclass o o2.
(** Every chain of superclasses ends. *)
Definition classes_ranked (orank : Z -> nat) : Prop :=
  (forall o, orank o <= length (objs h))%nat /\
  forall o d s o1, aget (objs h) o = Some d -> o_super d = Some s -> obj_ptr h s = Some o1 -> (orank o1 < orank o)%nat.
Definition same_name (o oto : Z) : Prop :=
  exists d dto, aget (objs h) o = Some d /\ aget (objs h) oto = Some dto /\ u_ptr (o_name d) = u_ptr (o_name dto).

Lemma super_obj o d s : aget (objs h) o = Some d -> o_super d = Some s ->
  exists o1, obj_ptr h s = Some o1 /\ 0 <= o1 < alen (objs h).
Proof.
  intros Ho Hs. pose proof (Forall_aget _ _ _ _ (objs_ok h Hok) Ho) as Hd.
  destruct (obj_super_ok h d Hd s Hs) as (k & o1 & Ht). exists o1. unfold obj_ptr. rewrite Ht. split; [done|].
  pose proof (Forall_aget _ _ _ _ (types_ok h Hok) Ht) as Hd'. simpl in Hd'. by destruct Hd'.
Qed.
Lemma super_chain_spec orank o oto : classes_ranked orank -> 0 <= o < alen (objs h) -> 0 <= oto < alen (objs h) ->
  exists r, super_chain h o oto = Some r /\ (r = true <-> exists o', superclass o o' /\ (o' = oto \/ same_name o' oto)).
Proof.
  intros Hr Ho Hoto. unfold super_chain. destruct (aget_is_Some _ _ Hoto) as [dto Hdto].
  match goal with |- context [loop ?st _ _] =>
    destruct (loop_total st
      (fun x => 0 <= x < alen (objs h) /\ ((exists o', superclass o o' /\ (o' = oto \/ same_name o' oto)) <-> (exists o', superclass x o' /\ (o' = oto \/ same_name o' oto))))
      (fun r => r = true <-> exists o', superclass o o' /\ (o' = oto \/ same_name o' oto))
      orank) with (fuel := S (length (objs h))) (s := o) as (r & Hl & HQ) end.
  2: by split.
  3: by exists r.
  2: { pose proof (proj1 Hr o). lia. }
  intros x [Hx Hiff]. destruct (aget_is_Some _ _ Hx) as [d Hd]. rewrite Hd, Hdto. cbn [mbind option_bind].
  destruct ((x =? oto) || (u_ptr (o_name d) =? u_ptr (o_name dto))) eqn:E.
  { right. eexists. split; [done|]. split; [intros _|done]. apply Hiff. exists x. split; [constructor|].
    apply orb_true_iff in E as [E%Z.eqb_eq|E%Z.eqb_eq]; [by left|right; by exists d, dto]. }
  assert (~ (x = oto \/ same_name x oto)) as Hno.
  { apply orb_false_iff in E as [E1%Z.eqb_neq E2%Z.eqb_neq]. intros [?|(d' & dto' & Hd' & Hdto' & He)]; [done|]. congruence. }
  destruct (o_super d) as [s|] eqn:Es.
  - left. destruct (super_obj x d s Hd Es) as (o1 & Ho1 & Hv1). rewrite Ho1. simpl. eexists. split; [done|].
    split; [|exact (proj2 Hr x d s o1 Hd Es Ho1)]. split; [done|]. rewrite Hiff. split.
    + intros (o' & Hsup & Ho'). inversion Hsup as [|? d' s' o1' ? Hd' Hs' Ho1' Hrest]; subst; [by destruct Hno|].
      exists o'. split; [|done]. congruence.
    + intros (o' & Hsup & Ho'). exists o'. split; [|done]. by econstructor.
  - right. eexists. split; [done|]. split; [done|]. rewrite Hiff. intros (o' & Hsup & Ho').
    inversion Hsup as [|? d' s' o1' ? Hd' Hs' Ho1' Hrest]; subst; [done|congruence].
Qed.


(** ** Casts *)
Context (string_type : option Z).

(** [hl_safe_cast] on two different descriptors of the same kind, by their data. *)
Definition cast_body (fuel : nat) (t to : Z) (a b : hl_type) : option bool :=
  match tdata a, tdata b with
  | TVirt v, TVirt w =>
      vt ← aget (virts h) v; vto ← aget (virts h) w;
      if alen vto <? alen vt then
        same ← all_of (fun i => f1 ← aget vt i; f2 ← aget vto i;
                   if negb (f_hashed_name f1 =? f_hashed_name f2) then Some false
                   else hl_same_type h fuel (f_t f1) (f_t f2)) (length vto) 0;
        if (same : bool) then Some true else hl_same_type h fuel t to
      else hl_same_type h fuel t to
  | TObj o, TObj oto =>
      st ← hl_is_string_type h string_type (Some t);
      both ← (if (st : bool) then hl_is_string_type h string_type (Some to) else Some false);
      if (both : bool) then Some true else super_chain h o oto
  | TFun f, TFun g =>
      if alen (args f) =? alen (args g) then
        r ← hl_safe_cast h string_type fuel (ret f) (ret g);
        if negb r then Some false else
        all_of (fun i => t1 ← aget (args f) i; t2 ← aget (args g) i;
            c ← hl_safe_cast h string_type fuel t2 t1;
            if (c : bool) then Some true else
            k1 ← kind_of h t1;
            if negb (k1 =? HDYN) then Some false else hl_is_dynamic h t2)
          (length (args f)) 0
      else hl_same_type h fuel t to
  | TParam p, TParam _ => if kind a =? HPACKED then hl_safe_cast h string_type fuel p to else hl_same_type h fuel t to
  | _, _ => hl_same_type h fuel t to
  end.
Lemma kind_data k d e : data_ok h k d -> data_ok h k e ->
  match d, e with
  | TNone, TNone | TFun _, TFun _ | TObj _, TObj _ | TVirt _, TVirt _ | TAbs _, TAbs _ | TEnum _, TEnum _ | TParam _, TParam _ => True
  | _, _ => False
  end.
Proof.
  intros Hd He. destruct d, e; simpl in *; try done;
    repeat match goal with H : _ /\ _ |- _ => destruct H | H : _ \/ _ |- _ => destruct H end; subst; done.
Qed.
Lemma virt_of_ptr t v : virt_ptr h t = Some v -> virt_of h t = aget (virts h) v.
Proof. intros Hv. unfold virt_of. by rewrite Hv. Qed.
Lemma cast_unfold fuel t to a b : type_at h t = Some a -> type_at h to = Some b -> t <> to ->
  data_ok h (kind a) (tdata a) -> data_ok h (kind b) (tdata b) ->
  hl_safe_cast h string_type (S fuel) t to =
    if kind b =? HDYN then hl_is_dynamic h t
    else if negb (kind a =? kind b) then Some false else cast_body fuel t to a b.
Proof.
  intros Ha Hb Hne Hda Hdb. cbn [hl_safe_cast]. destruct (Z.eqb_spec t to) as [|_]; [done|].
  destruct (type_cases t a Ha) as [Hka Hca], (type_cases to b Hb) as [Hkb Hcb]. rewrite Hka, Hkb. cbn [mbind option_bind].
  destruct (kind b =? HDYN); [done|]. destruct (Z.eqb_spec (kind a) (kind b)) as [Hk|_]; [|done]. cbn [negb].
  rewrite <- Hk in Hdb. pose proof (kind_data _ _ _ Hda Hdb) as Hsame. clear Hk. unfold cast_body.
  destruct (tdata a) as [|f|o|v|n|e|p]; destruct (tdata b) as [|f'|o'|v'|n'|e'|p']; try done; simpl in Hda;
    repeat match goal with H : _ /\ _ |- _ => destruct H | H : _ \/ _ |- _ => destruct H end.
  1: { apply plain_cases in Hda. unfold HVOID, HUI8, HUI16, HI32, HI64, HF32, HF64, HBOOL, HTYPE, HBYTES, HDYN, HARRAY, HDYNOBJ, HGUID in Hda. set_unfold in Hda. repeat destruct Hda as [Hda|Hda]; rewrite ?Hda; done. }
  all: match goal with H : kind _ = _ |- _ => rewrite H end.
  all: rewrite ?(virt_of_ptr _ _ Hca), ?(virt_of_ptr _ _ Hcb), ?Hca, ?Hcb; try reflexivity.
Qed.

(** ** Subtyping, as a relation *)
Definition same (a b : Z) : Prop := exists fuel, hl_same_type h fuel a b = Some true.
(** The fields of [vto] are a proper prefix of those of [vt]. *)
Definition field_prefix (vt vto : list hl_obj_field) : Prop :=
  alen vto < alen vt /\ forall i f1 f2, aget vt i = Some f1 -> aget vto i = Some f2 ->
    f_hashed_name f1 = f_hashed_name f2 /\ same (f_t f1) (f_t f2).
Definition class_of (t k o : Z) : Prop := type_at h t = Some (Type_ k (TObj o)).
(** Functions are compared by their arguments and results alone, and a packed type only
    with itself and with the packed types it is made of: two packed types of one
    structure are the same type, but not subtypes of each other. *)
Definition by_identity (t : Z) : Prop := forall k, kind_of h t = Some k -> k <> HFUN /\ k <> HMETHOD /\ k <> HPACKED.
Inductive sub : Z -> Z -> Prop :=
  | sub_refl t : sub t t
  | sub_same t to : same t to -> by_identity t -> sub t to
  | sub_dyn t to : kind_of h to = Some HDYN -> hl_is_dynamic h t = Some true -> sub t to
  | sub_virt t to v w vt vto : type_at h t = Some (Type_ HVIRTUAL (TVirt v)) -> type_at h to = Some (Type_ HVIRTUAL (TVirt w)) ->
      aget (virts h) v = Some vt -> aget (virts h) w = Some vto -> field_prefix vt vto -> sub t to
  | sub_class t to k o oto o' : class_of t k o -> class_of to k oto -> superclass o o' -> o' = oto \/ same_name o' oto -> sub t to
  | sub_string t to k o oto : class_of t k o -> class_of to k oto ->
      hl_is_string_type h string_type (Some t) = Some true -> hl_is_string_type h string_type (Some to) = Some true -> sub t to
  | sub_fun t to k f g : type_at h t = Some (Type_ k (TFun f)) -> type_at h to = Some (Type_ k (TFun g)) ->
      alen (args f) = alen (args g) ->
      (forall i x y, aget (args f) i = Some x -> aget (args g) i = Some y -> sub y x) ->
      sub (ret f) (ret g) -> sub t to
  | sub_packed t to p : type_at h t = Some (Type_ HPACKED (TParam p)) -> kind_of h to = Some HPACKED -> sub p to -> sub t to.

Lemma all_kinds (P : Z -> bool) k : forallb P (seqZ 0 24) = true -> 0 <= k < 24 -> P k = true.
Proof. intros Hc Hk. exact (range_forall P 0 24 Hc k Hk). Qed.
Lemma kind_range k d : data_ok h k d -> 0 <= k < 24.
Proof.
  intros Hd. destruct d; simpl in Hd; repeat match goal with H : _ /\ _ |- _ => destruct H | H : _ \/ _ |- _ => destruct H end;
    unfold HFUN, HMETHOD, HOBJ, HSTRUCT, HVIRTUAL, HABSTRACT, HENUM, HREF, HNULL, HPACKED in *; try lia.
  apply plain_cases in Hd. unfold HVOID, HUI8, HUI16, HI32, HI64, HF32, HF64, HBOOL, HTYPE, HBYTES, HDYN, HARRAY, HDYNOBJ, HGUID in Hd.
  set_unfold in Hd. lia.
Qed.
Lemma valid_kind t : valid h t -> exists k, kind_of h t = Some k /\ 0 <= k < 24.
Proof.
  intros Ht. destruct (valid_type t Ht) as (ty & Hty & Hd). exists (kind ty). split; [by apply type_cases|by eapply kind_range].
Qed.
Lemma is_dynamic_total t : valid h t -> exists b, hl_is_dynamic h t = Some b.
Proof.
  intros Ht. destruct (valid_kind t Ht) as (k & Hk & Hr). unfold hl_is_dynamic. rewrite Hk. simpl.
  apply aget_is_Some. change (alen T_IS_DYNAMIC) with 24. lia.
Qed.
Lemma obj_of_class t k o : class_of t k o -> obj_of h t = aget (objs h) o.
Proof. intros Ht. unfold obj_of, obj_ptr. by rewrite Ht. Qed.
Lemma block_uchars m s : cstring m s -> uchars m -> uchars s.
Proof. intros [_ (rest & ->)] Hm. by apply Forall_app in Hm as [? _]. Qed.
Lemma is_string_total t : valid h t -> exists b, hl_is_string_type h string_type (Some t) = Some b.
Proof.
  intros Ht. unfold hl_is_string_type. case_decide; [by eexists|].
  destruct (valid_type t Ht) as (ty & Hty & Hd). destruct (type_cases t ty Hty) as [Hk Hc]. rewrite Hk. cbn [mbind option_bind].
  destruct (kind ty =? HOBJ) eqn:E; cbn [negb]; [|by eexists]. apply Z.eqb_eq in E. rewrite E in Hd.
  destruct (tdata ty) as [|f|o|v|n|e|p] eqn:Ed; simpl in Hd; try done;
    try (by destruct Hd as [Hd _]; unfold HOBJ, HFUN, HMETHOD, HVIRTUAL, HABSTRACT, HENUM, HREF, HNULL, HPACKED in Hd; lia).
  destruct Hd as [_ Ho]. destruct (aget_is_Some _ _ Ho) as [ob Hob]. unfold obj_of. rewrite Hc. cbn [mbind option_bind]. rewrite Hob. cbn [mbind option_bind].
  pose proof (Forall_aget _ _ _ _ (objs_ok h Hok) Hob) as [[[s Hs] Hu] _ Hf].
  destruct (_ && (alen (o_fields ob) =? 2)) eqn:E2; [|by eexists]. apply andb_true_iff in E2 as [_ E2%Z.eqb_eq].
  change ustr_String with ([83; 116; 114; 105; 110; 103] ++ [0]).
  rewrite (ucmp_spec _ _ _ _ Hs (cstring_closed [83; 116; 114; 105; 110; 103] ltac:(repeat constructor; discriminate)) (block_uchars _ _ Hs Hu)
    ltac:(repeat constructor; lia)). cbn [mbind option_bind].
  destruct (negb _); [by eexists|].
  destruct (aget_is_Some (o_fields ob) 0) as [f0 Hf0]; [lia|]. destruct (aget_is_Some (o_fields ob) 1) as [f1 Hf1]; [lia|].
  rewrite Hf0, Hf1. cbn [mbind option_bind].
  destruct (valid_kind (f_t f0)) as (k0 & -> & _); [exact (proj1 (Forall_aget _ _ _ _ Hf Hf0))|].
  destruct (valid_kind (f_t f1)) as (k1 & -> & _); [exact (proj1 (Forall_aget _ _ _ _ Hf Hf1))|]. cbn [mbind option_bind].
  destruct (negb _); by eexists.
Qed.
Lemma same_iff fuel a b : valid h a -> valid h b -> (rank a < fuel)%nat -> hl_same_type h fuel a b = Some true <-> same a b.
Proof.
  intros Ha Hb Hf. split; [by exists fuel|]. intros [fuel' Hs]. destruct (same_type_total fuel a b Ha Hb Hf) as [r Hr].
  assert (forall n r x, hl_same_type h x a b = Some r -> hl_same_type h (n + x) a b = Some r) as Hm.
  { induction n as [|n IH]; intros r' x Hx; [done|]. simpl plus. by apply same_mono, IH. }
  pose proof (Hm fuel' _ _ Hr) as H1. pose proof (Hm fuel _ _ Hs) as H2. rewrite Nat.add_comm in H2. congruence.
Qed.
Lemma same_decides fuel a b : valid h a -> valid h b -> (rank a < fuel)%nat ->
  exists r, hl_same_type h fuel a b = Some r /\ (r = true <-> same a b).
Proof.
  intros Ha Hb Hf. destruct (same_type_total fuel a b Ha Hb Hf) as [r Hr]. exists r. split; [done|].
  rewrite <- (same_iff fuel a b Ha Hb Hf), Hr. split; [by intros ->|by intros [= ->]].
Qed.
Lemma same_valid_kind a b : valid h a -> valid h b -> same a b -> kind_of h a = kind_of h b.
Proof. intros Ha Hb [fuel Hs]. by eapply same_kind. Qed.

Lemma sub_kinds t to : valid h t -> valid h to -> sub t to ->
  (kind_of h to = Some HDYN /\ hl_is_dynamic h t = Some true) \/ kind_of h t = kind_of h to.
Proof.
  intros Ht Hto Hs. destruct Hs as [t|t to Hsame _|t to Hk Hd|t to v w vt vto Hv Hw _ _ _|t to k o oto o' Ho Hoto _ _|t to k o oto Ho Hoto _ _|t to k f g Hf Hg _ _ _|t to p Hp Hk _].
  - by right.
  - right. by apply same_valid_kind.
  - by left.
  - right. unfold kind_of. by rewrite Hv, Hw.
  - right. unfold class_of, kind_of in *. by rewrite Ho, Hoto.
  - right. unfold class_of, kind_of in *. by rewrite Ho, Hoto.
  - right. unfold kind_of. by rewrite Hf, Hg.
  - right. rewrite Hk. unfold kind_of. by rewrite Hp.
Qed.
Lemma sub_same_at t to a : type_at h t = Some a -> kind a <> HFUN -> kind a <> HMETHOD -> kind a <> HPACKED -> same t to -> sub t to.
Proof. intros Ha H1 H2 H3 Hs. apply sub_same; [done|]. intros k Hk. unfold kind_of in Hk. rewrite Ha in Hk. by injection Hk as <-. Qed.

(** For the descriptors that are compared by identity, subtyping is identity. *)
Lemma sub_plain t to a : type_at h t = Some a -> kind_of h to <> Some HDYN -> kind a <> HPACKED ->
  match tdata a with TNone | TAbs _ | TEnum _ | TParam _ => True | _ => False end -> sub t to <-> same t to.
Proof.
  intros Ha Hk Hnp Hd. pose proof (Forall_aget _ _ _ _ (types_ok h Hok) Ha) as Hda. split.
  - intros Hs. destruct Hs as [t|t to Hsame _|t to Hk' _|t to v w vt vto Hv Hw _ _ _|t to k o oto o' Ho Hoto _ _|t to k o oto Ho Hoto _ _|t to k f g Hf Hg _ _ _|t to p Hp _ _]; try done;
      [exists 0%nat; apply same_refl|unfold class_of in *; rewrite Ha in *; simplify_eq; simpl in Hd; done..].
  - assert (kind a <> HFUN /\ kind a <> HMETHOD) as [H1 H2]; [|by eapply sub_same_at].
    destruct a as [k []]; simpl in Hda, Hd; try done; cbn [kind];
      repeat match goal with H : _ /\ _ |- _ => destruct H | H : _ \/ _ |- _ => destruct H end; try (by subst).
    apply plain_cases in Hda. unfold HVOID, HUI8, HUI16, HI32, HI64, HF32, HF64, HBOOL, HTYPE, HBYTES, HDYN, HARRAY, HDYNOBJ, HGUID in Hda.
    unfold HFUN, HMETHOD. set_unfold in Hda. lia.
Qed.
Lemma same_class t to k o oto : class_of t k o -> class_of to k oto -> same t to -> superclass o oto.
Proof.
  intros Ho Hoto [fuel Hs]. destruct (decide (t = to)) as [->|Hne].
  { unfold class_of in *. rewrite Ho in Hoto. injection Hoto as ->. constructor. }
  destruct fuel as [|fuel]; [simpl in Hs; by destruct (Z.eqb_spec t to)|].
  pose proof (Forall_aget _ _ _ _ (types_ok h Hok) Ho) as Hd. pose proof (Forall_aget _ _ _ _ (types_ok h Hok) Hoto) as Hd'.
  rewrite (same_unfold _ _ _ _ _ Ho Hoto Hne Hd Hd') in Hs. unfold same_body in Hs. simpl in Hs. rewrite Z.eqb_refl in Hs. simpl in Hs.
  injection Hs as Hs%Z.eqb_eq. subst oto. constructor.
Qed.
Lemma sub_class_iff t to k o oto : class_of t k o -> class_of to k oto ->
  sub t to <-> (hl_is_string_type h string_type (Some t) = Some true /\ hl_is_string_type h string_type (Some to) = Some true) \/
    exists o', superclass o o' /\ (o' = oto \/ same_name o' oto).
Proof.
  intros Ho Hoto. pose proof (Forall_aget _ _ _ _ (types_ok h Hok) Ho) as [Hk _]. simpl in Hk. split.
  - intros Hs. destruct Hs as [t|t to Hsame _|t to Hk' _|t to v w vt vto Hv Hw _ _ _|t to k' o1 oto' o' Ho1 Hoto1 Hsup Ho'|t to k' o1 oto' Ho1 Hoto1 H1 H2|t to k' f g Hf Hg _ _ _|t to p Hp _ _];
      unfold class_of in *; rewrite ?Ho, ?Hoto in *; simplify_eq.
    + right. exists oto. split; [constructor|by left].
    + right. exists oto. split; [by eapply same_class|by left].
    + unfold kind_of in Hk'. rewrite Hoto in Hk'. simpl in Hk'. simplify_eq. unfold HDYN, HOBJ, HSTRUCT in Hk. lia.
    + right. by exists o'.
    + by left.
  - intros [[H1 H2]|(o' & Hsup & Ho')]; [by eapply sub_string|by eapply sub_class].
Qed.
Lemma sub_virt_iff t to v w vt vto : type_at h t = Some (Type_ HVIRTUAL (TVirt v)) -> type_at h to = Some (Type_ HVIRTUAL (TVirt w)) ->
  aget (virts h) v = Some vt -> aget (virts h) w = Some vto -> sub t to <-> same t to \/ field_prefix vt vto.
Proof.
  intros Hv Hw Hvt Hvto. split.
  - intros Hs. destruct Hs as [t|t to Hsame _|t to Hk' _|t to v' w' vt' vto' Hv' Hw' Hvt' Hvto' Hp|t to k' o1 oto' o' Ho1 Hoto1 Hsup Ho'|t to k' o1 oto' Ho1 Hoto1 H1 H2|t to k' f g Hf Hg _ _ _|t to p Hp _ _];
      unfold class_of in *; rewrite ?Hv, ?Hw in *; simplify_eq.
    + left. exists 0%nat. apply same_refl.
    + by left.
    + unfold kind_of in Hk'. rewrite Hw in Hk'. simpl in Hk'. done.
    + by right.
  - intros [Hs|Hp]; [by apply (sub_same_at t to _ Hv)|by eapply sub_virt].
Qed.
Lemma sub_fun_iff t to k f g : type_at h t = Some (Type_ k (TFun f)) -> type_at h to = Some (Type_ k (TFun g)) -> t <> to ->
  sub t to <-> (alen (args f) = alen (args g) /\
    (forall i x y, aget (args f) i = Some x -> aget (args g) i = Some y -> sub y x) /\ sub (ret f) (ret g)).
Proof.
  intros Hf Hg Hne. pose proof (Forall_aget _ _ _ _ (types_ok h Hok) Hf) as [Hk _]. simpl in Hk. split.
  - intros Hs. destruct Hs as [t|t to Hsame Hid|t to Hk' _|t to v' w' vt' vto' Hv' Hw' Hvt' Hvto' Hp|t to k' o1 oto' o' Ho1 Hoto1 Hsup Ho'|t to k' o1 oto' Ho1 Hoto1 H1 H2|t to k' f' g' Hf' Hg' Hl Ha Hr|t to p Hp _ _];
      unfold class_of in *; rewrite ?Hf, ?Hg in *; simplify_eq.
    + destruct (Hid k) as (? & ? & _); [unfold kind_of; by rewrite Hf|]. destruct Hk; done.
    + unfold kind_of in Hk'. rewrite Hg in Hk'. simpl in Hk'. simplify_eq. unfold HDYN, HFUN, HMETHOD in Hk. lia.
    + done.
  - intros (Hl & Ha & Hr). by eapply sub_fun.
Qed.

Lemma all_of_iff (f : Z -> option bool) (P : Z -> Prop) n i :
  (forall j, i <= j < i + Z.of_nat n -> exists b, f j = Some b /\ (b = true <-> P j)) ->
  exists b, all_of f n i = Some b /\ (b = true <-> forall j, i <= j < i + Z.of_nat n -> P j).
Proof.
  revert i. induction n as [|n IH]; intros i Hf; simpl.
  - exists true. split; [done|]. split; [intros _ j Hj; lia|done].
  - destruct (Hf i ltac:(lia)) as (b & Hb & HP). rewrite Hb. simpl. destruct b.
    + destruct (IH (i + 1)) as (b & Hb' & Hall); [intros j Hj; apply Hf; lia|]. exists b. split; [done|]. rewrite Hall. split.
      * intros Hr j Hj. destruct (decide (j = i)) as [->|]; [by apply HP|apply Hr; lia].
      * intros Hr j Hj. apply Hr. lia.
    + exists false. split; [done|]. split; [done|]. intros Hr. apply HP. apply Hr. lia.
Qed.
Lemma same_fun t to k f g : type_at h t = Some (Type_ k (TFun f)) -> type_at h to = Some (Type_ k (TFun g)) -> t <> to -> same t to ->
  alen (args f) = alen (args g) /\ (forall i x y, aget (args f) i = Some x -> aget (args g) i = Some y -> same x y) /\ same (ret f) (ret g).
Proof.
  intros Hf Hg Hne [[|fuel] Hs]; [simpl in Hs; by destruct (Z.eqb_spec t to)|].
  pose proof (Forall_aget _ _ _ _ (types_ok h Hok) Hf) as Hd. pose proof (Forall_aget _ _ _ _ (types_ok h Hok) Hg) as Hd'.
  rewrite (same_unfold _ _ _ _ _ Hf Hg Hne Hd Hd') in Hs. unfold same_body in Hs. cbn [kind tdata] in Hs. rewrite Z.eqb_refl in Hs. cbn [negb] in Hs.
  destruct (Z.eqb_spec (alen (args f)) (alen (args g))) as [Hl|]; [|done]. cbn [negb] in Hs.
  destruct (all_of _ _ _) as [[|]|] eqn:Eall; try done. simpl in Hs. split; [done|]. split; [|by exists fuel].
  intros i x y Hx Hy. exists fuel. pose proof (aget_Some_range _ _ _ Hx). pose proof (all_of_inv _ _ _ Eall i ltac:(unfold alen in *; lia)) as Hi.
  cbv beta in Hi. by rewrite Hx, Hy in Hi.
Qed.
Lemma same_sym' a b : valid h a -> valid h b -> same a b -> same b a.
Proof. intros Ha Hb [fuel Hs]. exists fuel. by apply same_sym. Qed.

(** Without packed types, the same types are subtypes of each other. *)
Definition no_packed : Prop := forall t ty, type_at h t = Some ty -> kind ty <> HPACKED.
Lemma same_sub n : no_packed -> forall t to, valid h t -> valid h to -> (rank t + rank to < n)%nat -> same t to -> sub t to.
Proof.
  intros Hnp. induction n as [|n IH]; intros t to Ht Hto Hn Hs; [lia|].
  destruct (decide (t = to)) as [->|Hne]; [constructor|].
  destruct (valid_type t Ht) as ([k d] & Ha & Hda), (valid_type to Hto) as ([k' d'] & Hb & Hdb).
  pose proof (same_valid_kind t to Ht Hto Hs) as Hk. unfold kind_of in Hk. rewrite Ha, Hb in Hk. simpl in Hk. injection Hk as <-.
  pose proof (Hnp t _ Ha) as Hp. cbn [kind tdata] in *.
  destruct (decide (k = HFUN \/ k = HMETHOD)) as [Hf|Hf]; [|apply (sub_same_at t to _ Ha); simpl; tauto].
  assert (exists f, d = TFun f) as [f ->].
  { destruct d; simpl in Hda; try (by eexists); destruct Hf as [->| ->]; repeat match goal with H : _ /\ _ |- _ => destruct H | H : _ \/ _ |- _ => destruct H end; done. }
  pose proof (kind_data _ _ _ Hda Hdb) as Hdata. destruct d' as [|g| | | | |]; try done.
  destruct (same_fun t to k f g Ha Hb Hne Hs) as (Hl & Hargs & Hret). destruct Hda as (_ & Hvf & Hrf), Hdb as (_ & Hvg & Hrg).
  destruct (Hrank t _ Ha) as [Hka Hkr], (Hrank to _ Hb) as [Hla Hlr].
  apply (sub_fun t to k f g Ha Hb Hl); [|apply IH; (done || lia)].
  intros i x y Hx Hy. pose proof (Forall_aget _ _ _ _ Hvf Hx) as Hvx. pose proof (Forall_aget _ _ _ _ Hvg Hy) as Hvy.
  pose proof (Forall_aget _ _ _ _ Hka Hx) as Hkx. pose proof (Forall_aget _ _ _ _ Hla Hy) as Hky. cbv beta in *.
  apply IH; [done|done|lia|]. apply same_sym'; [done|done|]. by apply (Hargs i).
Qed.

Section cast.
Context (orank : Z -> nat) (Horank : classes_ranked orank).

Lemma cast_virt fuel t to v w : type_at h t = Some (Type_ HVIRTUAL (TVirt v)) -> type_at h to = Some (Type_ HVIRTUAL (TVirt w)) ->
  valid h t -> valid h to -> (rank t < fuel)%nat -> (forall x, valid h x -> (rank x < fuel)%nat) ->
  exists r, cast_body fuel t to (Type_ HVIRTUAL (TVirt v)) (Type_ HVIRTUAL (TVirt w)) = Some r /\ (r = true <-> sub t to).
Proof.
  intros Hv Hw Ht Hto Hf Hfuel. unfold cast_body. cbn [tdata].
  pose proof (Forall_aget _ _ _ _ (types_ok h Hok) Hv) as [_ Hd]. pose proof (Forall_aget _ _ _ _ (types_ok h Hok) Hw) as [_ Hd'].
  destruct (aget_is_Some _ _ Hd) as [vt Hvt], (aget_is_Some _ _ Hd') as [vto Hvto]. rewrite Hvt, Hvto. cbn [mbind option_bind].
  destruct (same_decides fuel t to Ht Hto Hf) as (r & Hr & Hri).
  pose proof (Forall_aget _ _ _ _ (virts_ok h Hok) Hvt) as Hft. pose proof (Forall_aget _ _ _ _ (virts_ok h Hok) Hvto) as Hfto. cbv beta in Hft, Hfto.
  pose proof (sub_virt_iff _ _ _ _ _ _ Hv Hw Hvt Hvto) as Hsub.
  destruct (alen vto <? alen vt) eqn:El; zbool.
  - match goal with |- context [all_of ?f _ _] => destruct (all_of_iff f (fun i => forall f1 f2, aget vt i = Some f1 -> aget vto i = Some f2 ->
      f_hashed_name f1 = f_hashed_name f2 /\ same (f_t f1) (f_t f2)) (length vto) 0) as (b & Hb & Hbi) end.
    { intros i Hi. destruct (aget_is_Some vt i) as [f1 Hf1]; [unfold alen in *; lia|]. destruct (aget_is_Some vto i) as [f2 Hf2]; [unfold alen; lia|].
      rewrite Hf1, Hf2. cbn [mbind option_bind]. destruct (Z.eqb_spec (f_hashed_name f1) (f_hashed_name f2)) as [He|He]; cbn [negb].
      - pose proof (proj1 (Forall_aget _ _ _ _ Hft Hf1)) as Hv1. pose proof (proj1 (Forall_aget _ _ _ _ Hfto Hf2)) as Hv2.
        destruct (same_decides fuel _ _ Hv1 Hv2) as (r' & Hr' & Hri'); [by apply Hfuel|]. exists r'. split; [done|]. rewrite Hri'. naive_solver.
      - exists false. split; [done|]. split; [done|]. intros Hx. destruct (Hx f1 f2 eq_refl eq_refl). done. }
    rewrite Hb. cbn [mbind option_bind].
    assert (b = true <-> field_prefix vt vto) as Hbp.
    { rewrite Hbi. split; [intros Hx; split; [done|]; intros i f1 f2 Hf1 Hf2; apply (Hx i); [pose proof (aget_Some_range _ _ _ Hf2); unfold alen in *; lia|done..]|intros [_ Hx] i _; apply Hx]. }
    destruct b.
    + exists true. split; [done|]. split; [intros _; apply Hsub; right; by apply Hbp|done].
    + exists r. split; [done|]. rewrite Hri, Hsub. split; [by left|]. intros [?|Hp]; [done|]. by apply Hbp in Hp.
  - exists r. split; [done|]. rewrite Hri, Hsub. split; [by left|]. intros [?|[? _]]; [done|lia].
Qed.
Lemma cast_class fuel t to k o oto : class_of t k o -> class_of to k oto -> valid h t -> valid h to ->
  exists r, cast_body fuel t to (Type_ k (TObj o)) (Type_ k (TObj oto)) = Some r /\ (r = true <-> sub t to).
Proof.
  intros Ho Hoto Ht Hto. unfold cast_body. cbn [tdata]. pose proof (sub_class_iff t to k o oto Ho Hoto) as Hsub.
  pose proof (Forall_aget _ _ _ _ (types_ok h Hok) Ho) as [_ Hd]. pose proof (Forall_aget _ _ _ _ (types_ok h Hok) Hoto) as [_ Hd'].
  destruct (is_string_total t Ht) as [st Hst], (is_string_total to Hto) as [sto Hsto]. rewrite Hst. cbn [mbind option_bind].
  destruct (super_chain_spec orank o oto Horank Hd Hd') as (r & Hr & Hri).
  destruct st; [rewrite Hsto; destruct sto|]; cbn [mbind option_bind].
  - exists true. split; [done|]. rewrite Hsub. split; [by left|done].
  - exists r. split; [done|]. rewrite Hri, Hsub. split; [by right|]. intros [[_ ?]|?]; [congruence|done].
  - exists r. split; [done|]. rewrite Hri, Hsub. split; [by right|]. intros [[? _]|?]; [congruence|done].
Qed.

Lemma cast_fun fuel t to k f g : type_at h t = Some (Type_ k (TFun f)) -> type_at h to = Some (Type_ k (TFun g)) -> t <> to ->
  valid h t -> valid h to -> (rank t < fuel)%nat ->
  (forall x y, valid h x -> valid h y -> (rank x + rank y < rank t + rank to)%nat ->
     exists r, hl_safe_cast h string_type fuel x y = Some r /\ (r = true <-> sub x y)) ->
  exists r, cast_body fuel t to (Type_ k (TFun f)) (Type_ k (TFun g)) = Some r /\ (r = true <-> sub t to).
Proof.
  intros Hf Hg Hne Ht Hto Hfuel IH. unfold cast_body. cbn [tdata]. pose proof (sub_fun_iff t to k f g Hf Hg Hne) as Hsub.
  pose proof (Forall_aget _ _ _ _ (types_ok h Hok) Hf) as (_ & Hvf & Hrf). pose proof (Forall_aget _ _ _ _ (types_ok h Hok) Hg) as (_ & Hvg & Hrg).
  destruct (Hrank t _ Hf) as [Hka Hkr], (Hrank to _ Hg) as [Hla Hlr].
  destruct (Z.eqb_spec (alen (args f)) (alen (args g))) as [Hl|Hl].
  2: { destruct (same_decides fuel t to Ht Hto Hfuel) as (r & Hr & Hri). exists r. split; [done|]. rewrite Hri, Hsub. split; [|by intros [? _]].
       intros Hs. by destruct (same_fun t to k f g Hf Hg Hne Hs). }
  destruct (IH (ret f) (ret g) Hrf Hrg ltac:(lia)) as (r & Hr & Hri). rewrite Hr. cbn [mbind option_bind].
  match goal with |- context [all_of ?F _ _] => destruct (all_of_iff F (fun i => forall x y, aget (args f) i = Some x -> aget (args g) i = Some y -> sub y x)
    (length (args f)) 0) as (b & Hb & Hbi) end.
  { intros i Hi. destruct (aget_is_Some (args f) i) as [x Hx]; [unfold alen in *; lia|]. destruct (aget_is_Some (args g) i) as [y Hy]; [unfold alen in *; lia|].
    rewrite Hx, Hy. cbn [mbind option_bind]. pose proof (Forall_aget _ _ _ _ Hvf Hx) as Hvx. pose proof (Forall_aget _ _ _ _ Hvg Hy) as Hvy. cbv beta in Hvx, Hvy.
    pose proof (Forall_aget _ _ _ _ Hka Hx) as Hkx. pose proof (Forall_aget _ _ _ _ Hla Hy) as Hky. cbv beta in Hkx, Hky.
    destruct (IH y x Hvy Hvx ltac:(lia)) as (c & Hc & Hci). rewrite Hc. cbn [mbind option_bind].
    destruct c; [exists true; split; [done|]; split; [intros _ x' y' [= <-] [= <-]; by apply Hci|done]|].
    destruct (valid_kind x Hvx) as (kx & Hkx' & _). rewrite Hkx'. cbn [mbind option_bind].
    assert (~ sub y x) as Hns by (intros ?%Hci; done). exists false. split; [|split; [done|intros Hxy; by destruct (Hns (Hxy x y eq_refl eq_refl))]].
    destruct (Z.eqb_spec kx HDYN) as [->|]; cbn [negb]; [|done]. destruct (is_dynamic_total y Hvy) as [d Hd]. rewrite Hd.
    destruct d; [by destruct Hns; apply sub_dyn|done]. }
  destruct r; cbn [negb].
  - rewrite Hb. exists b. split; [done|]. rewrite Hbi, Hsub. split.
    + intros Hall. split; [done|]. split; [|by apply Hri]. intros i x y Hx Hy. apply (Hall i); [|done..].
      pose proof (aget_Some_range _ _ _ Hx). unfold alen in *. lia.
    + intros (_ & Ha & _) i _. exact (Ha i).
  - exists false. split; [done|]. rewrite Hsub. split; [done|]. intros (_ & _ & Hret). by apply Hri in Hret.
Qed.
(** A packed type reaches the packed types it is made of. *)
Lemma cast_packed fuel t to p q : type_at h t = Some (Type_ HPACKED (TParam p)) -> type_at h to = Some (Type_ HPACKED (TParam q)) -> t <> to ->
  (exists r, hl_safe_cast h string_type fuel p to = Some r /\ (r = true <-> sub p to)) ->
  exists r, cast_body fuel t to (Type_ HPACKED (TParam p)) (Type_ HPACKED (TParam q)) = Some r /\ (r = true <-> sub t to).
Proof.
  intros Hp Hq Hne (r & Hr & Hri). exists r. split; [exact Hr|]. rewrite Hri. assert (kind_of h to = Some HPACKED) as Hk by (unfold kind_of; by rewrite Hq).
  split; [intros Hs; by apply (sub_packed t to p)|]. clear Hr Hri.
  intros Hs. destruct Hs as [t|t to Hsame Hid|t to Hk' _|t to v' w' vt' vto' Hv' Hw' Hvt' Hvto' Hpre|t to k' o1 oto' o' Ho1 Hoto1 Hsup Ho'|t to k' o1 oto' Ho1 Hoto1 H1 H2|t to k' f' g' Hf' Hg' Hl Ha Hr|t to p' Hp' _ Hs];
    unfold class_of in *; rewrite ?Hp in *; simplify_eq; try done.
  by destruct (Hid HPACKED) as (_ & _ & ?); [unfold kind_of; by rewrite Hp|].
Qed.

Lemma cast_spec fuel : (forall x, valid h x -> (rank x < fuel)%nat) -> forall n t to, valid h t -> valid h to ->
  (rank t + rank to < n)%nat -> exists r, hl_safe_cast h string_type (n + fuel) t to = Some r /\ (r = true <-> sub t to).
Proof.
  intros Hfuel. induction n as [|n IH]; intros t to Ht Hto Hn; [lia|].
  destruct (decide (t = to)) as [->|Hne].
  { exists true. split; [simpl; by rewrite Z.eqb_refl|]. split; [intros _; constructor|done]. }
  destruct (valid_type t Ht) as (a & Ha & Hda), (valid_type to Hto) as (b & Hb & Hdb). change (S n + fuel)%nat with (S (n + fuel)).
  rewrite (cast_unfold (n + fuel) t to a b Ha Hb Hne Hda Hdb).
  assert (kind_of h to = Some (kind b)) as Hkb by (by apply type_cases). assert (kind_of h t = Some (kind a)) as Hka by (by apply type_cases).
  destruct (Z.eqb_spec (kind b) HDYN) as [Hdyn|Hdyn].
  { destruct (is_dynamic_total t Ht) as [d Hd]. exists d. split; [done|]. split; [intros ->; by apply sub_dyn; [congruence|]|].
    intros Hs. destruct (sub_kinds t to Ht Hto Hs) as [[_ Hd']|Hk]; [congruence|].
    assert (hl_is_dynamic h t = Some true) as Hd' by (unfold hl_is_dynamic; rewrite Hk, Hkb, Hdyn; reflexivity). congruence. }
  destruct (Z.eqb_spec (kind a) (kind b)) as [Hk|Hk]; cbn [negb].
  2: { exists false. split; [done|]. split; [done|]. intros Hs. destruct (sub_kinds t to Ht Hto Hs) as [[Hd' _]|Hk']; congruence. }
  assert (forall x, valid h x -> (rank x < n + fuel)%nat) as Hfuel' by (intros x Hx; specialize (Hfuel x Hx); lia).
  assert (kind_of h to <> Some HDYN) as Hnd by congruence.
  assert (match tdata a with TNone | TAbs _ | TEnum _ | TParam _ => True | _ => False end -> kind a <> HPACKED -> (rank t < n + fuel)%nat ->
    exists r, hl_same_type h (n + fuel) t to = Some r /\ (r = true <-> sub t to)) as Hplain'.
  { intros Hd Hnp Hf. destruct (same_decides (n + fuel) t to Ht Hto Hf) as (r & Hr & Hri). exists r. split; [done|].
    by rewrite Hri, (sub_plain t to a Ha Hnd Hnp Hd). }
  destruct a as [k da], b as [k' db]. cbn [kind tdata] in *. subst k'.
  pose proof (kind_data _ _ _ Hda Hdb) as Hdata.
  destruct da as [|f|o|v|m|e|p], db as [|g|o'|w|m'|e'|q]; try done.
  - assert (k <> HPACKED) as Hnp by (simpl in Hda; apply plain_cases in Hda; intros ->; vm_compute in Hda; set_unfold in Hda; naive_solver).
    unfold cast_body. cbn [tdata]. apply Hplain'; [exact I|exact Hnp|]. auto.
  - apply (cast_fun _ t to k f g); auto. intros x y Hx Hy Hxy. apply IH; [done|done|lia].
  - by apply cast_class.
  - destruct Hda as [-> _]. by apply cast_virt; auto.
  - unfold cast_body. cbn [tdata]. apply Hplain'; [exact I|by destruct Hda as [-> _]|]. auto.
  - unfold cast_body. cbn [tdata]. apply Hplain'; [exact I|by destruct Hda as [-> _]|]. auto.
  - destruct (decide (k = HPACKED)) as [->|Hnp].
    + apply cast_packed; [done..|]. pose proof (Hrank t _ Ha) as Hrp. simpl in Hrp. destruct Hda as [_ Hvp]. apply IH; [done|done|lia].
    + unfold cast_body. cbn [tdata kind]. rewrite (proj2 (Z.eqb_neq _ _) Hnp). apply Hplain'; [exact I|exact Hnp|]. auto.
Qed.
End cast.
End heap.
(** Type identity is an equivalence.  On a well-formed heap whose types do not
    contain themselves, with fuel above the nesting depth, [hl_same_type] answers on
    every pair of types, and "same type" is reflexive, symmetric and transitive; the
    same types have the same kind, hence the same size. *)
Theorem hl_same_type_equivalence h rank fuel a b c :
  heap_ok h -> ranked h rank -> (forall t, valid h t -> (rank t < fuel)%nat) -> valid h a -> valid h b -> valid h c ->
  (exists r, hl_same_type h fuel a b = Some r) /\
  hl_same_type h fuel a a = Some true /\
  (hl_same_type h fuel a b = Some true -> hl_same_type h fuel b a = Some true) /\
  (hl_same_type h fuel a b = Some true -> hl_same_type h fuel b c = Some true -> hl_same_type h fuel a c = Some true) /\
  (hl_same_type h fuel a b = Some true -> hl_type_size h a = hl_type_size h b).
Proof.
  intros Hok Hrank Hfuel Ha Hb Hc. split; [by apply (same_type_total h Hok rank Hrank); auto|]. split; [apply same_refl|].
  split; [by apply same_sym|]. split; [by apply same_trans|]. intros Hs. unfold hl_type_size. by rewrite (same_kind h Hok fuel a b).
Qed.

(** A small program: two classes, two function types, two virtuals. *)
Definition named (p : Z) (s : string) : uname := UName p (USTR s).
Definition sample_heap : heap := Heap
  [Type_ HVOID TNone; Type_ HI32 TNone; Type_ HDYN TNone; Type_ HOBJ (TObj 0); Type_ HOBJ (TObj 1);
   Type_ HFUN (TFun (TypeFun [3] 4)); Type_ HFUN (TFun (TypeFun [4] 3)); Type_ HREF (TParam 1);
   Type_ HVIRTUAL (TVirt 0); Type_ HVIRTUAL (TVirt 1); Type_ HABSTRACT (TAbs (named 90 "handle")); Type_ HENUM (TEnum 0);
   Type_ HREF (TParam 1)]
  [TypeObj (named 10 "A") None [ObjField (named 20 "x") 1 120] [] [] None;
   TypeObj (named 11 "B") (Some 3) [ObjField (named 21 "next") 4 121; ObjField (named 22 "view") 8 122] [] [] None]
  [[ObjField (named 20 "x") 1 120]; [ObjField (named 20 "x") 1 120; ObjField (named 23 "f") 5 123]]
  [TypeEnum (Some (named 30 "E")) [EnumConstruct (named 31 "Nil") []; EnumConstruct (named 32 "Cons") [1; 11]] None].
Definition sample_rank (t : Z) : nat := if bool_decide (t ∈ [5; 6; 7; 12]) then 1 else 0.
Lemma named_ok p s : Forall (fun c => c <> 0) (removelast (USTR s)) -> name_ok (named p s).
Proof.
  intros Hs. exists (removelast (USTR s)). unfold named; cbn [u_chars]. unfold USTR in *.
  rewrite removelast_last in *. by apply cstring_closed.
Qed.
Ltac small_name := apply named_ok; vm_compute; repeat constructor; discriminate.
Ltac small_valid := unfold valid; simpl; vm_compute; split; [discriminate|reflexivity].
Lemma sample_heap_ok : heap_ok sample_heap.
Proof.
  split.
  - repeat constructor; simpl; try small_valid; try small_name; auto; try lia.
  - repeat constructor; simpl; try small_valid; try small_name; try (by vm_compute); try discriminate.
    intros s [= <-]. by exists HOBJ, 0.
  - repeat constructor; simpl; try small_valid; try small_name; lia.
  - repeat constructor; simpl; try small_valid; try lia. intros n [= <-]. small_name.
Qed.
Lemma sample_ranked : ranked sample_heap sample_rank.
Proof.
  intros t ty Ht. pose proof (aget_Some_range _ _ _ Ht) as Hr. change (alen (types sample_heap)) with 13 in Hr.
  assert (t ∈ seqZ 0 13) as Hin by (apply elem_of_seqZ; lia). vm_compute in Hin. set_unfold in Hin.
  repeat destruct Hin as [->|Hin]; try done; vm_compute in Ht; injection Ht as <-; simpl; vm_compute; repeat constructor.
Qed.
Lemma sample_rank_bound t : (sample_rank t <= 1)%nat.
Proof. unfold sample_rank. case_bool_decide; lia. Qed.
Lemma hl_same_type_equivalence_witness :
  (exists r, hl_same_type sample_heap 2 7 12 = Some r) /\
  hl_same_type sample_heap 2 7 7 = Some true /\
  (hl_same_type sample_heap 2 7 12 = Some true -> hl_same_type sample_heap 2 12 7 = Some true) /\
  (hl_same_type sample_heap 2 7 12 = Some true -> hl_same_type sample_heap 2 12 5 = Some true -> hl_same_type sample_heap 2 7 5 = Some true) /\
  (hl_same_type sample_heap 2 7 12 = Some true -> hl_type_size sample_heap 7 = hl_type_size sample_heap 12).
Proof.
  apply (hl_same_type_equivalence sample_heap sample_rank 2 7 12 5 sample_heap_ok sample_ranked).
  - intros t _. pose proof (sample_rank_bound t). lia.
  - vm_compute. split; [discriminate|reflexivity].
  - vm_compute. split; [discriminate|reflexivity].
  - vm_compute. split; [discriminate|reflexivity].
Defined.
Example same_7_12 : hl_same_type sample_heap 2 7 12 = Some true.
Proof. reflexivity. Qed.

(** A dynamic value is a pointer, like every value of type [HDYN]. *)
Definition dynamic_as_dyn (k : Z) : bool :=
  implb (bool_decide (aget T_IS_DYNAMIC k = Some true))
    (bool_decide (aget T_SIZES k = aget T_SIZES HDYN) && bool_decide (aget T_IS_PTR k = aget T_IS_PTR HDYN)).
Lemma dynamic_repr k : 0 <= k < 24 -> aget T_IS_DYNAMIC k = Some true ->
  aget T_SIZES k = aget T_SIZES HDYN /\ aget T_IS_PTR k = aget T_IS_PTR HDYN.
Proof.
  intros Hk Hd. assert (dynamic_as_dyn k = true) as Ht by (apply all_kinds; [vm_compute; reflexivity|done]).
  unfold dynamic_as_dyn in Ht. rewrite (bool_decide_true _ Hd) in Ht. apply andb_true_iff in Ht as [H1 H2].
  apply bool_decide_eq_true in H1. apply bool_decide_eq_true in H2. done.
Qed.

(** C17. Casts without conversion are exactly subtyping.  On a well-formed heap with
    no cyclic types or classes, [hl_safe_cast] answers for every pair of types and says
    yes exactly when [sub] holds: one descriptor, or the same type (functions and packed
    types apart), a dynamic value seen as [HDYN], a virtual with the fields of the target
    as a proper prefix, a class and one of its superclasses (compared by name), two
    string classes, functions with contravariant arguments and a covariant result, or a
    packed type and a packed type it is made of.  A cast it accepts keeps the size of the
    value and whether it is a pointer.  On a heap without packed types it accepts every
    two descriptors of the same type; with them it does not. *)
Theorem hl_safe_cast_is_subtyping h string_type rank orank M t to :
  heap_ok h -> ranked h rank -> classes_ranked h orank ->
  (forall x, valid h x -> rank x <= M)%nat -> valid h t -> valid h to ->
  exists r, hl_safe_cast h string_type (3 * M + 2) t to = Some r /\
    (r = true <-> sub h string_type t to) /\
    (r = true -> hl_type_size h t = hl_type_size h to /\ hl_is_ptr h t = hl_is_ptr h to) /\
    (no_packed h -> same h t to -> r = true).
Proof.
  intros Hok Hrank Horank HM Ht Hto.
  destruct (cast_spec h Hok rank Hrank string_type orank Horank (M + 1)) with (n := (2 * M + 1)%nat) (t := t) (to := to) as (r & Hr & Hri); try done.
  - intros x Hx. specialize (HM x Hx). lia.
  - pose proof (HM t Ht). pose proof (HM to Hto). lia.
  - exists r. replace (3 * M + 2)%nat with (2 * M + 1 + (M + 1))%nat by lia. split; [done|]. split; [done|]. split.
    + intros Hsub%Hri.
      unfold hl_type_size, hl_is_ptr. destruct (sub_kinds h Hok string_type t to Ht Hto Hsub) as [[-> Hd]| ->]; [|done].
      destruct (valid_kind h Hok t Ht) as (k & Hk & Hkr). unfold hl_is_dynamic in Hd. rewrite Hk in Hd |- *. cbn [mbind option_bind] in *.
      exact (dynamic_repr k Hkr Hd).
    + intros Hnp Hs. apply Hri. apply (same_sub h Hok rank Hrank string_type (S (rank t + rank to))); (done || lia).
Qed.
Lemma hl_safe_cast_is_subtyping_witness :
  exists r, hl_safe_cast sample_heap None (3 * 1 + 2) 5 6 = Some r /\
    (r = true <-> sub sample_heap None 5 6) /\
    (r = true -> hl_type_size sample_heap 5 = hl_type_size sample_heap 6 /\ hl_is_ptr sample_heap 5 = hl_is_ptr sample_heap 6) /\
    (no_packed sample_heap -> same sample_heap 5 6 -> r = true).
Proof.
  apply (hl_safe_cast_is_subtyping sample_heap None sample_rank (fun o => if Z.eqb o 1 then 1%nat else 0%nat) 1 5 6 sample_heap_ok sample_ranked).
  - split; [intros o; destruct (Z.eqb o 1); simpl; repeat constructor|]. intros o d s o1 Ho Hs Ho1.
    pose proof (aget_Some_range _ _ _ Ho) as Hr. change (alen (objs sample_heap)) with 2 in Hr.
    assert (o = 0 \/ o = 1) as [-> | ->] by lia; vm_compute in Ho; injection Ho as <-; simpl in Hs; simplify_eq.
    vm_compute in Ho1. simplify_eq. vm_compute. repeat constructor.
  - intros x _. apply sample_rank_bound.
  - vm_compute. split; [discriminate|reflexivity].
  - vm_compute. split; [discriminate|reflexivity].
Defined.
Example cast_5_6 : hl_safe_cast sample_heap None 5 5 6 = Some true.
Proof. reflexivity. Qed.

(** Two packed types of one structure are the same type, yet no cast leads from one to
    the other: the case of [HPACKED] comes after the test that the kinds are equal, so
    its recursive call compares the structure with a packed type. *)
Definition packed_heap : heap := Heap [Type_ HSTRUCT (TObj 0); Type_ HPACKED (TParam 0); Type_ HPACKED (TParam 0)]
  [TypeObj (named 10 "S") None [] [] [] None] [] [].
Lemma packed_same_not_cast : hl_same_type packed_heap 5 1 2 = Some true /\ hl_safe_cast packed_heap None 5 1 2 = Some false /\
  hl_safe_cast packed_heap None 5 1 0 = Some false.
Proof. repeat split. Qed.
(** A packed type made of a packed type is cast to it. *)
Lemma packed_chain_cast :
  hl_safe_cast (Heap [Type_ HSTRUCT (TObj 0); Type_ HPACKED (TParam 0); Type_ HPACKED (TParam 1)] (objs packed_heap) [] []) None 5 2 1 = Some true.
Proof. reflexivity. Qed.
