(* ===== verification/TypesText.v ===== *)
(** * Printing types and identifiers

    [hl_type_str] ends on every well-formed heap, cyclic types included: a type met
    again inside itself is printed as ["<...>"].  [type_text] is the text it prints. *)
From S2P Require Import Prelude Ustr Buffer Lookup Reader Types TypesProps.

(** ** The text of a type *)
(** The characters before the terminating zero. *)
Fixpoint ctext (m : list Z) : list Z := match m with [] => [] | c :: m => if c =? 0 then [] else c :: ctext m end.
Fixpoint sep_by (sep : Z) (l : list (list Z)) : list Z :=
  match l with [] => [] | [x] => x | x :: l => x ++ sep :: sep_by sep l end.

Section text.
Context (h : heap).
Fixpoint type_text (fuel : nat) (t : Z) (parents : list Z) : option (list Z) :=
  ty ← type_at h t; c ← aget TSTR (kind ty);
  match c with
  | Some c => Some (ctext c)
  | None =>
      if decide (t ∈ parents) then Some (ctext (USTR "<...>")) else
      match fuel with
      | O => None
      | S fuel =>
          let rec := fun a => type_text fuel a (t :: parents) in
          match tdata ty with
          | TFun f => r ← rec (ret f); a ← mapM rec (args f); Some (40 :: r ++ [32; 40] ++ sep_by 44 a ++ [41; 41])
          | TObj o =>
              d ← aget (objs h) o;
              Some ((if kind ty =? HSTRUCT then [64] else []) ++ ctext (u_chars (o_name d)))
          | TVirt v =>
              fs ← aget (virts h) v;
              l ← mapM (fun f => s ← rec (f_t f); Some (ctext (u_chars (f_name f)) ++ 58 :: s)) fs;
              Some (ctext (USTR "virtual<") ++ sep_by 44 l ++ [62])
          | TAbs n => Some (ctext (u_chars n))
          | TEnum e =>
              d ← aget (enums h) e;
              Some (ctext (USTR "enum") ++ match e_name d with Some n => 60 :: ctext (u_chars n) ++ [62] | None => [] end)
          | TParam p =>
              s ← rec p;
              Some (ctext (USTR (if kind ty =? HREF then "ref<" else if kind ty =? HNULL then "null<" else "packed<")) ++ s ++ [62])
          | TNone => None
          end
      end
  end.
End text.

Lemma ctext_cstring m s : cstring m s -> ctext m = s.
Proof.
  intros [Hs (rest & ->)]. induction Hs as [|c s Hc _ IH]; simpl; [done|].
  rewrite (proj2 (Z.eqb_neq _ _) Hc). by rewrite IH.
Qed.
Lemma name_cstring n : name_ok n -> cstring (u_chars n) (ctext (u_chars n)).
Proof. intros [s Hs]. by rewrite (ctext_cstring _ _ Hs). Qed.
Lemma ustr_cstring s : Forall (fun c => c <> 0) (removelast (USTR s)) -> cstring (USTR s) (ctext (USTR s)).
Proof. intros Hs. apply (name_cstring (UName 0 (USTR s))). by apply (named_ok 0). Qed.

(** ** Writing to the buffer *)
Section emits.
Context (junk : Z).
(** [f] appends exactly [s] to any buffer with room for it. *)
Definition emits (f : hl_buffer -> option hl_buffer) (s : list Z) : Prop :=
  forall b, wf b -> totlen b + alen s <= 2 ^ 29 -> exists b', f b = Some b' /\ wf b' /\ contents b' = contents b ++ s.
Lemma emits_seq f g s1 s2 : emits f s1 -> emits g s2 -> emits (fun b => b ← f b; g b) (s1 ++ s2).
Proof.
  intros Hf Hg b Hb Hm. rewrite alen_app in Hm. pose proof (alen_nonneg s1). pose proof (alen_nonneg s2).
  destruct (Hf b Hb ltac:(lia)) as (b1 & -> & Hb1 & Hc1). cbn [mbind option_bind].
  destruct (Hg b1 Hb1) as (b2 & -> & Hb2 & Hc2).
  { destruct Hb1 as (_ & -> & _), Hb as (_ & Ht & _). rewrite Hc1, alen_app. lia. }
  exists b2. split; [done|]. split; [done|]. by rewrite Hc2, Hc1, app_assoc.
Qed.
Lemma emits_nil : emits (fun b => Some b) [].
Proof. intros b Hb _. exists b. by rewrite app_nil_r. Qed.
Lemma emits_char c : emits (fun b => hl_buffer_char junk b c) [c].
Proof. intros b Hb Hm. change (alen [c]) with 1 in Hm. by apply char_spec. Qed.
Lemma emits_str m s : cstring m s -> emits (fun b => hl_buffer_str junk b (Some m)) s.
Proof. intros Hs b Hb Hm. by apply (buffer_step_spec junk b (Str (Some m)) s). Qed.
Lemma emits_ext f g s : (forall b, f b = g b) -> emits f s -> emits g s.
Proof. intros Hfg Hf b Hb Hm. rewrite <- Hfg. by apply Hf. Qed.

(** The loops that separate their items with commas. *)
Lemma emits_list {A} (l : list A) (item : Z -> hl_buffer -> option hl_buffer) (texts : list (list Z)) :
  alen texts = alen l -> (forall i s, aget texts i = Some s -> emits (item i) s) ->
  emits (afor (fun i b => b ← (if i =? 0 then Some b else hl_buffer_char junk b 44); item i b) (length l) 0) (sep_by 44 texts).
Proof.
  intros Hl Hi. assert (length l = length texts) as -> by (unfold alen in Hl; lia). clear Hl.
  assert (forall ts k, (forall j s, aget ts j = Some s -> emits (item (k + 1 + j)) s) -> 0 <= k ->
    emits (afor (fun i b => b ← (if i =? 0 then Some b else hl_buffer_char junk b 44); item i b) (length ts) (k + 1))
      (concat (map (cons 44) ts))) as Htail.
  { induction ts as [|t ts IH]; intros k Hk Hk0; [apply emits_nil|]. simpl.
    apply emits_seq with (s1 := 44 :: t).
    - apply emits_seq with (s1 := [44]); [|specialize (Hk 0 t eq_refl); by rewrite Z.add_0_r in Hk].
      rewrite (proj2 (Z.eqb_neq (k + 1) 0)) by lia. apply emits_char.
    - apply IH; [|lia]. intros j s Hj. replace (k + 1 + 1 + j) with (k + 1 + (1 + j)) by lia. apply Hk.
      pose proof (aget_Some_range _ _ _ Hj). rewrite aget_lookup in Hj |- * by lia. by replace (Z.to_nat (1 + j)) with (S (Z.to_nat j)) by lia. }
  destruct texts as [|t ts]; [apply emits_nil|].
  assert (sep_by 44 (t :: ts) = t ++ concat (map (cons 44) ts)) as ->.
  { clear. revert t. induction ts as [|u ts IH]; intros t; [by rewrite app_nil_r|]. simpl. rewrite <- (IH u). done. }
  simpl. apply emits_seq; [|apply (Htail ts 0); [|lia]].
  - apply (emits_ext (item 0)); [done|]. by apply Hi.
  - intros j s Hj. apply Hi. pose proof (aget_Some_range _ _ _ Hj). rewrite aget_lookup in Hj |- * by lia.
    by replace (Z.to_nat (0 + 1 + j)) with (S (Z.to_nat j)) by lia.
Qed.
End emits.

(** ** The printer writes the text *)
#[local] Arguments ctext : simpl never.
#[local] Arguments USTR : simpl never.
Section print.
Context (h : heap) (Hok : heap_ok h) (junk : Z).

(** The kinds printed by name, and those printed by structure. *)
Lemma printed_kind k : 0 <= k < 24 ->
  match aget TSTR k with
  | Some (Some c) => cstring c (ctext c)
  | Some None => plain_kind k = false
  | None => False
  end.
Proof.
  intros Hk. assert (k ∈ seqZ 0 24) as Hin by (apply elem_of_seqZ; lia). vm_compute in Hin. set_unfold in Hin.
  repeat destruct Hin as [->|Hin]; try done;
    match goal with |- match aget TSTR ?k with _ => _ end => destruct (aget TSTR k) as [[c|]|] eqn:E; vm_compute in E; try done; injection E as <- end;
    (split; [repeat constructor; discriminate|by exists []]).
Qed.
Lemma mapM_texts {A} (f : A -> option (list Z)) l texts : mapM f l = Some texts ->
  alen texts = alen l /\ forall i s, aget texts i = Some s -> exists x, aget l i = Some x /\ f x = Some s.
Proof.
  intros Hm%mapM_Some. split; [by apply Forall2_alen in Hm|]. intros i s Hs.
  assert (Forall2 (fun y x => f x = Some y) texts l) as Hm' by (by apply Forall2_flip).
  by apply (Forall2_aget _ _ _ _ _ Hm') in Hs.
Qed.
Ltac ustr := apply ustr_cstring; repeat constructor; discriminate.

(** One level of printing, given that the types inside are printed. *)
Section level.
Context (fuel : nat) (t : Z) (ty : hl_type) (parents : list Z).
Context (Hty : type_at h t = Some ty) (Hd : data_ok h (kind ty) (tdata ty)).
Context (IH : forall t s, valid h t -> type_text h fuel t parents = Some s ->
  emits (fun b => hl_type_str_rec h junk fuel b t parents) s).

Lemma emits_fun f r a : tdata ty = TFun f -> type_text h fuel (ret f) parents = Some r ->
  mapM (fun a => type_text h fuel a parents) (args f) = Some a ->
  emits (fun b => b ← hl_buffer_char junk b 40; b ← hl_type_str_rec h junk fuel b (ret f) parents;
      b ← hl_buffer_char junk b 32; b ← hl_buffer_char junk b 40;
      b ← afor (fun i b => b ← (if i =? 0 then Some b else hl_buffer_char junk b 44);
                 a ← aget (args f) i; hl_type_str_rec h junk fuel b a parents) (length (args f)) 0 b;
      b ← hl_buffer_char junk b 41; hl_buffer_char junk b 41)
    (40 :: r ++ [32; 40] ++ sep_by 44 a ++ [41; 41]).
Proof.
  intros Hf Hr Ha. rewrite Hf in Hd. destruct Hd as (_ & Hva & Hvr). destruct (mapM_texts _ _ _ Ha) as [Hl Hi].
  apply (emits_seq _ _ [40]); [apply emits_char|]. apply emits_seq; [by apply IH|].
  apply (emits_seq _ _ [32] ([40] ++ _)); [apply emits_char|]. apply emits_seq; [apply emits_char|].
  apply emits_seq; [|apply (emits_seq _ _ [41] [41]); apply emits_char].
  apply (emits_list junk (args f) (fun i b => a ← aget (args f) i; hl_type_str_rec h junk fuel b a parents)); [done|].
  intros i s Hs. destruct (Hi i s Hs) as (x & Hx & Htx). apply (emits_ext (fun b => hl_type_str_rec h junk fuel b x parents)).
  - intros b. by rewrite Hx.
  - apply IH; [exact (Forall_aget _ _ _ _ Hva Hx)|done].
Qed.
Lemma emits_virtual fs l : Forall (field_ok h) fs ->
  mapM (fun f => s ← type_text h fuel (f_t f) parents; Some (ctext (u_chars (f_name f)) ++ 58 :: s)) fs = Some l ->
  emits (fun b => b ← hl_buffer_str junk b (Some (USTR "virtual<"));
      b ← afor (fun i b => b ← (if i =? 0 then Some b else hl_buffer_char junk b 44);
                 f ← aget fs i;
                 b ← hl_buffer_str junk b (Some (u_chars (f_name f))); b ← hl_buffer_char junk b 58;
                 hl_type_str_rec h junk fuel b (f_t f) parents) (length fs) 0 b;
      hl_buffer_char junk b 62)
    (ctext (USTR "virtual<") ++ sep_by 44 l ++ [62]).
Proof.
  intros Hfs Hl. destruct (mapM_texts _ _ _ Hl) as [Hlen Hi].
  apply emits_seq; [apply emits_str; ustr|]. apply emits_seq; [|apply emits_char].
  apply (emits_list junk fs (fun i b => f ← aget fs i; b ← hl_buffer_str junk b (Some (u_chars (f_name f))); b ← hl_buffer_char junk b 58;
    hl_type_str_rec h junk fuel b (f_t f) parents)); [done|].
  intros i s Hs. destruct (Hi i s Hs) as (f & Hf & Hts). destruct (type_text h fuel (f_t f) parents) as [ts|] eqn:Et; [|done].
  cbn [mbind option_bind] in Hts. injection Hts as <-. destruct (Forall_aget _ _ _ _ Hfs Hf) as [Hvf Hnf].
  apply (emits_ext (fun b => b ← hl_buffer_str junk b (Some (u_chars (f_name f))); b ← hl_buffer_char junk b 58;
    hl_type_str_rec h junk fuel b (f_t f) parents)).
  - intros b. by rewrite Hf.
  - apply emits_seq; [by apply emits_str, name_cstring|]. apply (emits_seq _ _ [58]); [apply emits_char|by apply IH].
Qed.
Lemma emits_param p s open : cstring open (ctext open) -> valid h p -> type_text h fuel p parents = Some s ->
  emits (fun b => b ← hl_buffer_str junk b (Some open); b ← hl_type_str_rec h junk fuel b p parents; hl_buffer_char junk b 62)
    (ctext open ++ s ++ [62]).
Proof.
  intros Ho Hp Hs. apply emits_seq; [by apply emits_str|]. apply emits_seq; [by apply IH|apply emits_char].
Qed.
End level.

Lemma type_str_emits fuel : forall t parents s, valid h t -> type_text h fuel t parents = Some s ->
  emits (fun b => hl_type_str_rec h junk fuel b t parents) s.
Proof.
  induction fuel as [|fuel IH]; intros t parents s Ht Hs;
    destruct (valid_type h Hok t Ht) as (ty & Hty & Hd); pose proof (printed_kind _ (kind_range h _ _ Hd)) as Hp;
    destruct (type_cases h t ty Hty) as [Hk Hc]; cbn [type_text hl_type_str_rec] in *; rewrite Hty in Hs; cbn [mbind option_bind] in Hs;
    rewrite Hk; cbn [mbind option_bind]; destruct (aget TSTR (kind ty)) as [[c|]|] eqn:Ec; try done; cbn [mbind option_bind] in Hs |- *.
  - apply (inj Some) in Hs as <-. by apply emits_str.
  - case_decide; [|done]. apply (inj Some) in Hs as <-. apply emits_str. ustr.
  - apply (inj Some) in Hs as <-. by apply emits_str.
  - case_decide; [apply (inj Some) in Hs as <-; apply emits_str; ustr|].
    assert (IH' : forall t0 s, valid h t0 -> type_text h fuel t0 (t :: parents) = Some s ->
      emits (fun b => hl_type_str_rec h junk fuel b t0 (t :: parents)) s) by (intros; by apply IH). clear IH.
    pose proof Hd as Hd'. destruct (tdata ty) as [|f|o|v|n|e|p] eqn:Ed; simpl in Hd'.
    + done.
    + destruct Hd' as [Hkind _]. destruct (type_text h fuel (ret f) (t :: parents)) as [r|] eqn:Er; [|done]. cbn [mbind option_bind] in Hs.
      destruct (mapM _ (args f)) as [a|] eqn:Ea; [|done]. cbn [mbind option_bind] in Hs. apply (inj Some) in Hs as <-.
      destruct Hkind as [Hkk|Hkk]; rewrite Hkk; cbn -[contents wf sep_by]; rewrite Hc;
        by apply (emits_fun fuel ty (t :: parents) ltac:(by rewrite Ed) IH').
    + destruct Hd' as [Hkind Ho]. destruct (aget_is_Some _ _ Ho) as [d Hd0]. rewrite Hd0 in Hs. cbn [mbind option_bind] in Hs. apply (inj Some) in Hs as <-.
      assert (obj_of h t = Some d) as Hobj by (unfold obj_of; by rewrite Hc). destruct (obj_name_ok h d (Forall_aget _ _ _ _ (objs_ok h Hok) Hd0)) as [Hn _].
      destruct Hkind as [-> | ->]; cbn -[ctext USTR app contents wf sep_by]; rewrite Hobj; [by apply emits_str, name_cstring|].
      apply (emits_seq _ _ [64]); [apply emits_char|by apply emits_str, name_cstring].
    + destruct Hd' as [Hkind Hv]. destruct (aget_is_Some _ _ Hv) as [fs Hfs]. rewrite Hfs in Hs. cbn [mbind option_bind] in Hs.
      destruct (mapM _ fs) as [l|] eqn:El; [|done]. cbn [mbind option_bind] in Hs. apply (inj Some) in Hs as <-.
      assert (virt_of h t = Some fs) as Hvo by (unfold virt_of; by rewrite Hc). rewrite Hkind; cbn -[ctext USTR app contents wf sep_by]; rewrite Hvo.
      apply (emits_virtual fuel (t :: parents) IH'); [exact (Forall_aget _ _ _ _ (virts_ok h Hok) Hfs)|done].
    + destruct Hd' as [Hkind Hn]. apply (inj Some) in Hs as <-. rewrite Hkind; cbn -[ctext USTR app contents wf sep_by]; rewrite Hc. by apply emits_str, name_cstring.
    + destruct Hd' as [Hkind He]. destruct (aget_is_Some _ _ He) as [d Hd0]. rewrite Hd0 in Hs. cbn [mbind option_bind] in Hs. apply (inj Some) in Hs as <-.
      assert (enum_of h t = Some d) as Heo by (unfold enum_of; by rewrite Hc). rewrite Hkind; cbn -[ctext USTR app contents wf sep_by]; rewrite Heo. cbn [mbind option_bind].
      destruct (Forall_aget _ _ _ _ (enums_ok h Hok) Hd0) as [Hn _]. apply emits_seq; [apply emits_str; ustr|].
      destruct (e_name d) as [n|]; [|apply emits_nil]. apply (emits_seq _ _ [60]); [apply emits_char|].
      apply emits_seq; [apply emits_str, name_cstring; by apply Hn|apply emits_char].
    + destruct Hd' as [Hkind Hp']. destruct (type_text h fuel p (t :: parents)) as [ts|] eqn:Et; [|done]. cbn [mbind option_bind] in Hs. apply (inj Some) in Hs as <-.
      destruct Hkind as [-> | [-> | ->]]; cbn -[ctext USTR app contents wf sep_by]; rewrite Hc; (apply (emits_param fuel (t :: parents) IH'); [ustr|done|done]).
Qed.

(** The recursion is never deeper than there are types: a printed type is not one of
    its parents. *)
Lemma parents_full t parents : NoDup parents -> Forall (valid h) parents -> valid h t -> (length (types h) <= length parents)%nat -> t ∈ parents.
Proof.
  intros Hnd Hv Ht Hl. destruct (decide (t ∈ parents)) as [|Hn]; [done|]. exfalso.
  assert (NoDup (t :: parents)) as Hnd' by (by constructor).
  assert ((t :: parents) ⊆+ seqZ 0 (alen (types h))) as Hsub.
  { apply NoDup_submseteq; [done|]. intros x Hx. apply elem_of_seqZ. apply elem_of_cons in Hx as [->|Hx]; [done|].
    rewrite Forall_forall in Hv. by apply Hv. }
  apply submseteq_length in Hsub. rewrite length_seqZ in Hsub. simpl in Hsub. unfold alen in Hsub. lia.
Qed.
Lemma mapM_is_Some {A B} (f : A -> option B) l : Forall (fun x => exists y, f x = Some y) l -> exists k, mapM f l = Some k.
Proof.
  intros Hl. rewrite Forall_forall in Hl. destruct (mapM_total f (fun _ _ => True) l) as (k & Hk & _); [|by exists k].
  intros x Hx. destruct (Hl x Hx) as [y Hy]. by exists y.
Qed.
Lemma type_text_total fuel : forall t parents, valid h t -> NoDup parents -> Forall (valid h) parents ->
  (length (types h) <= fuel + length parents)%nat -> exists s, type_text h fuel t parents = Some s.
Proof.
  induction fuel as [|fuel IH]; intros t parents Ht Hnd Hv Hf;
    destruct (valid_type h Hok t Ht) as (ty & Hty & Hd); pose proof (printed_kind _ (kind_range h _ _ Hd)) as Hp;
    cbn [type_text]; rewrite Hty; cbn [mbind option_bind]; destruct (aget TSTR (kind ty)) as [[c|]|]; try done; cbn [mbind option_bind]; try (by eexists).
  - rewrite decide_True; [by eexists|]. by apply parents_full.
  - case_decide as Hin; [by eexists|].
    assert (IH' : forall a, valid h a -> exists s, type_text h fuel a (t :: parents) = Some s).
    { intros a Ha. apply IH; [done|by constructor|by constructor|simpl; lia]. }
    destruct (tdata ty) as [|f|o|v|n|e|p] eqn:Ed; simpl in Hd.
    + congruence.
    + destruct Hd as (_ & Hva & Hvr). destruct (IH' (ret f) Hvr) as [r ->]. cbn [mbind option_bind].
      destruct (mapM_is_Some (fun a => type_text h fuel a (t :: parents)) (args f)) as [k ->]; [|by eexists].
      eapply Forall_impl; [exact Hva|]. intros a Ha. by apply IH'.
    + destruct (aget_is_Some _ _ (proj2 Hd)) as [d ->]. by eexists.
    + destruct (aget_is_Some _ _ (proj2 Hd)) as [fs Hfs]. rewrite Hfs. cbn [mbind option_bind].
      match goal with |- context [mapM ?g fs] => destruct (mapM_is_Some g fs) as [k ->]; [|by eexists] end.
      eapply Forall_impl; [exact (Forall_aget _ _ _ _ (virts_ok h Hok) Hfs)|]. intros f [Hvf _]. destruct (IH' (f_t f) Hvf) as [s ->]. by eexists.
    + by eexists.
    + destruct (aget_is_Some _ _ (proj2 Hd)) as [d ->]. by eexists.
    + destruct (IH' p (proj2 Hd)) as [s ->]. by eexists.
Qed.
End print.

(** C33. Printing a type always ends.  On every well-formed heap, cyclic types
    included, the recursion of [hl_type_str] is never deeper than the number of types;
    when the text fits in a buffer (2^29 characters), [hl_type_str] returns exactly
    that text and its terminating zero. *)
Theorem hl_type_str_total h junk t :
  heap_ok h -> valid h t ->
  exists s, type_text h (length (types h)) t [] = Some s /\
    (alen s <= 2 ^ 29 -> hl_type_str h junk (length (types h)) t = Some (s ++ [0])).
Proof.
  intros Hok Ht. destruct (type_text_total h Hok (length (types h)) t []) as [s Hs]; [done|constructor|constructor|simpl; lia|].
  exists s. split; [done|]. intros Hlen. unfold hl_type_str. destruct (valid_type h Hok t Ht) as (ty & Hty & Hd).
  pose proof (type_str_emits h Hok junk _ _ _ _ Ht Hs) as Hem. pose proof (printed_kind _ (kind_range h _ _ Hd)) as Hp.
  destruct (type_cases h t ty Hty) as [-> _]. cbn [mbind option_bind].
  destruct (aget TSTR (kind ty)) as [[c|]|] eqn:Ec; [|..|done]; cbn [mbind option_bind].
  - destruct (length (types h)); cbn [type_text] in Hs; rewrite Hty in Hs; cbn [mbind option_bind] in Hs; rewrite Ec in Hs; injection Hs as <-; f_equal;
      assert (c ∈ omap id TSTR) as Hin by (apply list_elem_of_omap; exists (Some c); split; [|done]; rewrite aget_lookup in Ec by (by apply (kind_range h _ _ Hd)); by eapply list_elem_of_lookup_2);
      vm_compute in Hin; set_unfold in Hin; repeat destruct Hin as [->|Hin]; done.
  - destruct alloc_wf as [Hwf Hc0]. destruct (Hem hl_alloc_buffer Hwf) as (b & -> & Hb & Hcb); [simpl; lia|]. cbn [mbind option_bind].
    rewrite content_spec; [|done|].
    + cbn [mbind option_bind fst]. by rewrite Hcb, Hc0.
    + destruct Hb as (_ & -> & _). rewrite Hcb, Hc0. simpl. change (2 ^ 29) with 536870912 in Hlen. unfold INT_MAX. lia.
Qed.
Lemma hl_type_str_total_witness :
  exists s, type_text sample_heap (length (types sample_heap)) 9 [] = Some s /\
    (alen s <= 2 ^ 29 -> hl_type_str sample_heap 7 (length (types sample_heap)) 9 = Some (s ++ [0])).
Proof. apply (hl_type_str_total sample_heap 7 9 sample_heap_ok). vm_compute. split; [discriminate|reflexivity]. Defined.
Example type_str_5 : hl_type_str sample_heap 7 13 5 = Some (USTR "(B (A))").
Proof. vm_compute. reflexivity. Qed.
(** A virtual that contains itself. *)
Example type_str_cyclic :
  hl_type_str (Heap [Type_ HVIRTUAL (TVirt 0)] [] [[ObjField (named 20 "next") 0 120]] []) 7 1 0 = Some (USTR "virtual<next:<...>>").
Proof. vm_compute. reflexivity. Qed.

(** ** Identifiers *)
Definition guid_char (d : Z) : Z := match aget GUID_CHARS d with Some c => c | None => 0 end.
(** The value of a character, the position it has in [CHARS]. *)
Definition guid_index (c : Z) : Z := match list_find (fun x => x = c) GUID_CHARS with Some (i, _) => Z.of_nat i | None => 0 end.
(** Reading a printed identifier back: its digits in base 64, dashes skipped. *)
Definition guid_read (v c : Z) : Z := if (c =? 45) || (c =? 0) then v else 64 * v + guid_index c.
Definition guid_value (s : list Z) : Z := wrapN 64 (foldl guid_read 0 s).

Lemma guid_char_spec d : 0 <= d < 64 ->
  aget GUID_CHARS d = Some (guid_char d) /\ guid_index (guid_char d) = d /\ guid_char d <> 45 /\ guid_char d <> 0.
Proof.
  intros Hd. assert (forallb (fun d => match aget GUID_CHARS d with Some c => c =? guid_char d | None => false end &&
    (guid_index (guid_char d) =? d) && negb (guid_char d =? 45) && negb (guid_char d =? 0)) (seqZ 0 64) = true) as Hc by (vm_compute; reflexivity).
  pose proof (range_forall _ 0 64 Hc d ltac:(lia)) as Hc'. cbv beta in Hc'.
  destruct (aget GUID_CHARS d) as [c|]; [|discriminate Hc']. zbool. subst c. split; [exact eq_refl|]. split; [assumption|]. split; assumption.
Qed.
#[local] Opaque guid_char guid_index.
(** The digits of [g], most significant first. *)
Definition guid_digit (g i : Z) : Z := (g / 2 ^ (60 - i * 6)) mod 64.
Lemma guid_digit_range g i : 0 <= guid_digit g i < 64.
Proof. apply Z.mod_pos_bound. lia. Qed.
Definition guid_prefix (g n : Z) : Z := (g / 2 ^ (66 - 6 * n)) mod 2 ^ (6 * n).
Lemma guid_step g n : 0 <= n <= 10 -> 64 * guid_prefix g n + guid_digit g n = guid_prefix g (n + 1).
Proof.
  intros Hn. unfold guid_prefix, guid_digit. replace (66 - 6 * (n + 1)) with (60 - n * 6) by lia.
  replace (66 - 6 * n) with (60 - n * 6 + 6) by lia. replace (6 * (n + 1)) with (6 + 6 * n) by lia.
  rewrite !(Z.pow_add_r 2 _ 6), (Z.pow_add_r 2 6) by lia. change (2 ^ 6) with 64.
  rewrite <- Z.div_div by (try apply Z.pow_nonzero; lia). rewrite Z.rem_mul_r by (try apply Z.pow_nonzero; lia). lia.
Qed.
Lemma guid_bits g i : 0 <= i <= 10 -> Z.land (Z.shiftr g (60 - i * 6)) 63 = guid_digit g i.
Proof. intros Hi. rewrite shiftr_div by lia. by rewrite (land_mask 6). Qed.

Lemma guid_str_text g buf : alen buf = 14 -> g <> 0 ->
  hl_guid_str None g buf = Some (map (fun i => guid_char (guid_digit g i)) [0; 1; 2; 3] ++ [45] ++
    map (fun i => guid_char (guid_digit g i)) [4; 5; 6; 7] ++ [45] ++ map (fun i => guid_char (guid_digit g i)) [8; 9; 10] ++ [0]).
Proof.
  intros Hb Hg. unfold hl_guid_str. rewrite (proj2 (Z.eqb_neq g 0) Hg).
  do 14 (destruct buf as [|? buf]; [discriminate|]). destruct buf as [|? buf]; [|exfalso; rewrite !alen_cons in Hb; pose proof (alen_nonneg buf); lia].
  assert (forall i, 0 <= i <= 10 -> aget GUID_CHARS (Z.land (Z.shiftr g (60 - i * 6)) 63) = Some (guid_char (guid_digit g i))) as Hc.
  { intros i Hi. rewrite guid_bits by done. apply guid_char_spec, guid_digit_range. }
  cbn [afor]. rewrite !Hc by lia. reflexivity.
Qed.

(** Printed identifiers determine the identifier.  For every 64-bit identifier
    other than 0 and every caller's buffer of 14 characters, [hl_guid_str] fills the
    buffer exactly: 13 characters and a terminating zero; reading the characters back
    as base-64 digits gives the identifier, so two identifiers never print alike. *)
Theorem hl_guid_str_roundtrip guid buf :
  - 2 ^ 63 <= guid < 2 ^ 63 -> guid <> 0 -> alen buf = 14 ->
  exists s, hl_guid_str None guid buf = Some s /\ alen s = 14 /\ cstring s (take 13 s) /\ guid_value s = guid.
Proof.
  intros Hr Hg Hb. rewrite (guid_str_text guid buf Hb Hg). eexists. split; [done|]. split; [done|].
  assert (forall v i, guid_read v (guid_char (guid_digit guid i)) = 64 * v + guid_digit guid i) as Hd.
  { intros v i. unfold guid_read. destruct (guid_char_spec _ (guid_digit_range guid i)) as (_ & H1 & H2 & H3).
    by rewrite H1, (proj2 (Z.eqb_neq _ _) H2), (proj2 (Z.eqb_neq _ _) H3). }
  assert (forall v, guid_read v 45 = v) as Hdash by done. assert (forall v, guid_read v 0 = v) as Hend by done.
  split.
  - split; [|by exists []]. cbn [map app take]. repeat (apply Forall_cons_2; [first [discriminate|by apply guid_char_spec, guid_digit_range]|]). apply Forall_nil_2.
  - unfold guid_value. cbn [map app foldl].
    rewrite !Hd, !Hdash, Hend.
    assert (0 = guid_prefix guid 0) as H0 by (unfold guid_prefix; change (2 ^ (6 * 0)) with 1; by rewrite Z.mod_1_r).
    replace (64 * 0) with (64 * guid_prefix guid 0) by (by rewrite <- H0). rewrite !guid_step by lia.
    change (0 + 1 + 1 + 1 + 1 + 1 + 1 + 1 + 1 + 1 + 1 + 1) with 11. unfold guid_prefix. change (66 - 6 * 11) with 0. rewrite Z.div_1_r.
    rewrite <- wrapN_uN by lia. unfold uN. rewrite Z.mod_mod_divide by (by exists 4). fold (uN 64 guid). rewrite wrapN_uN by lia. by apply wrapN_small.
Qed.
Lemma hl_guid_str_roundtrip_witness :
  exists s, hl_guid_str None (-81985529216486896) (replicate 14 0) = Some s /\ alen s = 14 /\ cstring s (take 13 s) /\
    guid_value s = -81985529216486896.
Proof. apply hl_guid_str_roundtrip; [lia|discriminate|reflexivity]. Defined.

(** ** Global values *)
(** Every [global_value] points into the globals of the program. *)
Definition globals_ok (h : heap) (globals : list (option Z)) : Prop :=
  Forall (fun o => forall p, o_global o = Some p -> 0 <= p < alen globals) (objs h) /\
  Forall (fun e => forall p, e_global e = Some p -> 0 <= p < alen globals) (enums h).
(** The slot of a type, for the kinds that have one. *)
Definition global_slot (h : heap) (t : Z) : option Z :=
  ty ← type_at h t;
  match tdata ty with
  | TObj o => d ← aget (objs h) o; o_global d
  | TEnum e => d ← aget (enums h) e; e_global d
  | _ => None
  end.

(** The union of a descriptor with a global slot, case by case. *)
Ltac by_data Hd Hk Hty := rewrite Hk, Hty; cbn [mbind option_bind];
  match goal with |- context [tdata ?ty] => destruct (tdata ty) end; simpl in Hd;
  repeat match goal with H : _ /\ _ |- _ => destruct H | H : _ \/ _ |- _ => destruct H end;
  try match goal with H : kind _ = _ |- _ => rewrite H end; try reflexivity;
  [apply plain_cases in Hd; set_unfold in Hd; repeat destruct Hd as [Hd|Hd]; rewrite ?Hd; done|..].
Lemma get_global_slot h g u : heap_ok h -> valid h u -> hl_type_get_global h g u =
  match global_slot h u with Some p => aget g p | None => if decide (kind_of h u = Some HENUM) then None else Some None end.
Proof.
  intros Hok Hu. unfold hl_type_get_global, global_slot, obj_of, enum_of. destruct (valid_type h Hok u Hu) as (ty & Hty & Hd).
  destruct (type_cases h u ty Hty) as [Hk Hc]. by_data Hd Hk Hty; rewrite Hc; cbn [mbind option_bind];
    [destruct (aget_is_Some (objs h) o) as [d ->]; [lia|done]..|].
  destruct (aget_is_Some (enums h) e) as [d ->]; [lia|]. cbn [mbind option_bind]. by destruct (e_global d).
Qed.
Lemma set_global_slot h g t v : heap_ok h -> valid h t -> hl_type_set_global h g t v =
  match global_slot h t with Some p => g ← aset g p v; Some (g, true) | None => Some (g, false) end.
Proof.
  intros Hok Ht. unfold hl_type_set_global, global_slot, obj_of, enum_of. destruct (valid_type h Hok t Ht) as (ty & Hty & Hd).
  destruct (type_cases h t ty Hty) as [Hk Hc]. by_data Hd Hk Hty; rewrite Hc; cbn [mbind option_bind];
    [destruct (aget_is_Some (objs h) o) as [d ->]; [lia|done]..|].
  destruct (aget_is_Some (enums h) e) as [d ->]; [lia|]. done.
Qed.
Lemma global_slot_range h globals u p : globals_ok h globals -> global_slot h u = Some p -> 0 <= p < alen globals.
Proof.
  intros [Hgo Hge] Hp. unfold global_slot in Hp. destruct (type_at h u) as [ty|]; [|done]. cbn [mbind option_bind] in Hp.
  destruct (tdata ty); try done; [destruct (aget (objs h) o) as [d|] eqn:E|destruct (aget (enums h) e) as [d|] eqn:E]; try done; cbn [mbind option_bind] in Hp.
  - exact (Forall_aget _ _ _ _ Hgo E p Hp).
  - exact (Forall_aget _ _ _ _ Hge E p Hp).
Qed.

(** Global values of types.  [hl_type_set_global] succeeds exactly on the types
    that have a slot; then [hl_type_get_global] returns the stored value, and the
    slots of other types are unchanged; on the others it changes nothing.
    [hl_type_get_global] is defined on every type but an enum without a slot. *)
Theorem type_globals h globals t v :
  heap_ok h -> globals_ok h globals -> valid h t ->
  exists globals', hl_type_set_global h globals t v = Some (globals', bool_decide (is_Some (global_slot h t))) /\
    (is_Some (global_slot h t) -> hl_type_get_global h globals' t = Some v) /\
    (global_slot h t = None -> globals' = globals /\ (kind_of h t <> Some HENUM -> hl_type_get_global h globals t = Some None)) /\
    (forall u, valid h u -> global_slot h u <> global_slot h t -> hl_type_get_global h globals' u = hl_type_get_global h globals u).
Proof.
  intros Hok Hg Ht. rewrite set_global_slot by done. pose proof (get_global_slot h) as Hget. destruct (global_slot h t) as [p|] eqn:Ep.
  - destruct (aset_total globals p v (global_slot_range _ _ _ _ Hg Ep)) as (g & -> & _ & Hgg). cbn [mbind option_bind]. exists g.
    split; [by rewrite bool_decide_true by eauto|]. split; [intros _; rewrite Hget, Ep, Hgg by done; by rewrite decide_True|]. split; [done|].
    intros u Hu Hne. rewrite !Hget by done. destruct (global_slot h u) as [q|]; [|done]. rewrite Hgg, decide_False; [done|congruence].
  - exists globals. split; [rewrite bool_decide_false; [done|by intros [? ?]]|]. split; [by intros [? ?]|]. split; [|done].
    intros _. split; [done|]. intros Hk. rewrite Hget, Ep by done. by rewrite decide_False.
Qed.
Definition global_heap : heap := Heap [Type_ HOBJ (TObj 0); Type_ HENUM (TEnum 0); Type_ HENUM (TEnum 1)]
  [TypeObj (named 10 "A") None [] [] [] (Some 1)] []
  [TypeEnum None [] (Some 0); TypeEnum None [] None].
Lemma global_heap_ok : heap_ok global_heap.
Proof.
  split; repeat constructor; simpl; try small_name; try lia; try (by vm_compute); try discriminate; auto.
Qed.
Lemma type_globals_witness :
  exists globals', hl_type_set_global global_heap [None; None] 0 (Some 77) = Some (globals', bool_decide (is_Some (global_slot global_heap 0))) /\
    (is_Some (global_slot global_heap 0) -> hl_type_get_global global_heap globals' 0 = Some (Some 77)) /\
    (global_slot global_heap 0 = None -> globals' = [None; None] /\ (kind_of global_heap 0 <> Some HENUM -> hl_type_get_global global_heap [None; None] 0 = Some None)) /\
    (forall u, valid global_heap u -> global_slot global_heap u <> global_slot global_heap 0 ->
       hl_type_get_global global_heap globals' u = hl_type_get_global global_heap [None; None] u).
Proof.
  apply (type_globals global_heap [None; None] 0 (Some 77) global_heap_ok).
  - split; repeat (apply Forall_nil_2 || apply Forall_cons_2); intros p Hp; cbn in Hp; simplify_eq; vm_compute; split; congruence.
  - vm_compute. split; [discriminate|reflexivity].
Defined.
(** An enum without a global is read through a null pointer. *)
Lemma get_global_null_enum : hl_type_set_global global_heap [None; None] 2 (Some 77) = Some ([None; None], false) /\
  hl_type_get_global global_heap [None; None] 2 = None.
Proof. split; reflexivity. Qed.
