(* ===== verification/Layout.v ===== *)
(** * Memory layout of objects, virtuals and enums ([src/std/obj.c], [src/std/types.c])

    [hl_get_obj_rt] computes, once per class, the offsets of the fields, the sorted
    table that finds fields and methods by hashed name, and the bitmap of the words
    that hold pointers; [hl_init_virtual] and [hl_init_enum] do the same for virtuals
    and enum constructors.  The runtime objects built so far are a state: [st_rt] is
    [obj->rt], by class, and [st_marks] is [type->mark_bits], by type. *)
From S2P Require Import Prelude DataStruct Ustr Buffer Lookup Reader Types.

(** [hl_pad_size(size,t)] of [hl.h]. *)
Definition hl_pad_size (h : heap) (size t : Z) : option Z :=
  k ← kind_of h t; if k =? HVOID then Some 0 else
  neg ← int_of (- size); s ← hl_type_size h t; Some (Z.land neg (s - 1)).
Definition hl_mark_size (data_size : Z) : option Z :=
  n ← int_of (data_size + HL_WSIZE - 1);
  let ptr_count := Z.quot n HL_WSIZE in
  m ← int_of (ptr_count + 31); int_of (Z.shiftr m 5 * 4).
(** [mark[w] |= 1 << b] on 32-bit words. *)
Definition mark_word (mark : list Z) (w b : Z) : option (list Z) :=
  old ← aget mark w; aset mark w (Z.lor old (u32 (Z.shiftl 1 b))).
(** [mark[pos >> 5] |= 1 << (pos & 31)] *)
Definition set_mark (mark : list Z) (pos : Z) : option (list Z) := mark_word mark (Z.shiftr pos 5) (Z.land pos 31).
(** [hl_zalloc(alloc, n)] for an array of 32-bit words. *)
Definition zalloc_words (n : Z) : list Z := replicate (Z.to_nat (n / 4)) 0.

Definition HL_PROTO_TYPED_ENTRY : Z := -2.

(** [struct hl_runtime_obj], without the parts [hl_get_obj_proto] fills in later.
    [rt_t] is the type; [rt_parent] is the class of the parent. *)
Record hl_runtime_obj := RuntimeObj
  { rt_t : Z; rt_nfields : Z; rt_nproto : Z; rt_size : Z; rt_nmethods : Z; rt_nbindings : Z;
    rt_pad_size : Z; rt_largest_field : Z; rt_hasPtr : bool; rt_fields_indexes : list Z;
    rt_parent : option Z; rt_compareFun : option Z; rt_nlookup : Z; rt_lookup : list (hl_field_lookup Z) }.
Record rt_state := RtState { st_rt : gmap Z hl_runtime_obj; st_marks : gmap Z (list Z) }.

Section layout.
Context (h : heap).
(** [o->m->functions_types], by class; what uninitialised memory holds. *)
Context (functions_types : Z -> list Z) (junk : hl_field_lookup Z).

(** ** Counting the entries *)
(** [for(j=0;j<pp->nbindings;j++) if( pp->bindings[j<<1] == fid )], up the classes. *)
Fixpoint binding_found (fuel : nat) (pp : option Z) (fid : Z) : option bool :=
  match pp with
  | None => Some false
  | Some o =>
      match fuel with
      | O => None
      | S fuel =>
          d ← aget (objs h) o;
          if existsb (fun b => b.1 =? fid) (o_bindings d) then Some true else
          match o_super d with
          | None => Some false
          | Some s => o' ← obj_ptr h s; binding_found fuel (Some o') fid
          end
      end
  end.
(** Does the [i]-th prototype entry get a lookup entry of its own? *)
Definition own_proto (p : option hl_runtime_obj) (pr : hl_obj_proto) : bool :=
  negb (p_pindex pr =? HL_PROTO_TYPED_ENTRY) &&
  match p with
  | None => true
  | Some p => negb ((p_pindex pr >=? 0) && (p_pindex pr <? rt_nproto p))
  end.
Definition count_lookup (p : option hl_runtime_obj) (d : hl_type_obj) : Z :=
  alen (o_fields d) + alen (filter (fun pr => own_proto p pr = true) (o_proto d)).
Definition count_bindings (p : option hl_runtime_obj) (d : hl_type_obj) : option Z :=
  match p with
  | None => Some (alen (o_bindings d))
  | Some p =>
      po ← obj_ptr h (rt_t p);
      new ← mapM (fun b => binding_found (S (length (objs h))) (Some po) (b.1)) (o_bindings d);
      Some (rt_nbindings p + alen (filter (fun f => f = false) new))
  end.

(** ** Field offsets *)
(** The variables of the loop over the fields: [size], [largest_field], [t->hasPtr],
    [t->fields_indexes], [t->lookup], [nlookup] and [t->nlookup]. *)
Record field_acc := FieldAcc
  { fa_st : rt_state; fa_size : Z; fa_largest : Z; fa_hasPtr : bool; fa_indexes : list Z;
    fa_lookup : list (hl_field_lookup Z); fa_n : Z; fa_nlookup : Z }.

(** [build] is [hl_get_obj_rt], called on the structures packed into this one.  The
    offset of the field, and the largest alignment so far. *)
Definition field_place (build : rt_state -> Z -> option (rt_state * Z)) (f : hl_obj_field) (a : field_acc)
    : option (rt_state * Z * Z) :=
  k ← kind_of h (f_t f);
  if k =? HPACKED then
    (* align on packed largest field *)
    tp ← tparam h (f_t f); '(st, po) ← build (fa_st a) tp; rts ← st_rt st !! po;
    let large := rt_largest_field rts in
    if large =? 0 then None else
    let pad := Z.rem (fa_size a) large in
    size ← (if negb (pad =? 0) then int_of (fa_size a + (large - pad)) else Some (fa_size a));
    Some (st, size, if large >? fa_largest a then large else fa_largest a)
  else
    pad ← hl_pad_struct h (fa_size a) (f_t f); size ← int_of (fa_size a + pad); Some (fa_st a, size, fa_largest a).
(** Only the fields with a name are entered in the table. *)
Definition field_lookup (f : hl_obj_field) (size : Z) (a : field_acc) : option (list (hl_field_lookup Z) * Z * Z) :=
  c ← aget (u_chars (f_name f)) 0;
  if negb (c =? 0) then
    '(lookup, _) ← hl_lookup_insert (fa_lookup a) (fa_n a) (f_hashed_name f) (f_t f) size;
    Some (lookup, fa_n a + 1, fa_nlookup a)
  else Some (fa_lookup a, fa_n a, fa_nlookup a - 1).
(** The space the field takes: [size], [largest_field] and [t->hasPtr] after it. *)
Definition field_advance (build : rt_state -> Z -> option (rt_state * Z)) (f : hl_obj_field) (st : rt_state)
    (size largest : Z) (hasPtr : bool) : option (rt_state * Z * Z * bool) :=
  k ← kind_of h (f_t f);
  if k =? HPACKED then
    tp ← tparam h (f_t f); '(st, po) ← build st tp; rts ← st_rt st !! po;
    size ← int_of (size + rt_size rts);
    Some (st, size, largest, hasPtr || rt_hasPtr rts)
  else
    sz ← hl_type_size h (f_t f);
    size ← int_of (size + sz);
    ptr ← (if hasPtr then Some true else hl_is_ptr h (f_t f));
    Some (st, size, if sz >? largest then sz else largest, ptr).
Definition field_step (build : rt_state -> Z -> option (rt_state * Z)) (d : hl_type_obj) (start i : Z) (a : field_acc)
    : option field_acc :=
  f ← aget (o_fields d) i;
  '(st, off, largest) ← field_place build f a;
  indexes ← aset (fa_indexes a) (i + start) off;
  '(lookup, n, nlookup) ← field_lookup f off a;
  '(st, size, largest, hasPtr) ← field_advance build f st off largest (fa_hasPtr a);
  Some (FieldAcc st size largest hasPtr indexes lookup n nlookup).

(** ** Methods *)
Definition ustr_compare : list Z := USTR "__compare".
Record proto_acc := ProtoAcc
  { pa_lookup : list (hl_field_lookup Z); pa_n : Z; pa_nmethods : Z; pa_nproto : Z; pa_compare : option Z }.
Definition proto_step (o compareHash : Z) (p : option hl_runtime_obj) (d : hl_type_obj) (i : Z) (a : proto_acc) : option proto_acc :=
  pr ← aget (o_proto d) i;
  if negb (own_proto p pr) then Some a else
  let method_index := pa_nmethods a in
  nproto ← (if p_pindex pr >=? pa_nproto a then int_of (p_pindex pr + 1) else Some (pa_nproto a));
  mt ← aget (functions_types o) (p_findex pr);
  '(lookup, _) ← hl_lookup_insert (pa_lookup a) (pa_n a) (p_hashed_name pr) mt (- (method_index + 1));
  is_compare ← (if negb (p_hashed_name pr =? compareHash) then Some false else
     f ← fun_of h mt;
     if negb (alen (args f) =? 2) then Some false else
     a1 ← aget (args f) 1; k1 ← kind_of h a1;
     if negb (k1 =? HDYN) then Some false else
     kr ← kind_of h (ret f); Some (kr =? HI32));
  Some (ProtoAcc lookup (pa_n a + 1) (method_index + 1) nproto (if (is_compare : bool) then Some (p_findex pr) else pa_compare a)).

(** ** Pointer bitmaps *)
(** [for(k=0;k<nwords;k++) if( nested[k>>5] & (1<<(k&31)) ) mark[(pos+k)>>5] |= ...] *)
Definition nested_marks (nested : list Z) (nwords pos : Z) (mark : list Z) : option (list Z) :=
  afor (fun k mark => w ← aget nested (Z.shiftr k 5);
          if negb (Z.land w (u32 (Z.shiftl 1 (Z.land k 31))) =? 0) then set_mark mark (pos + k) else Some mark)
       (Z.to_nat nwords) 0 mark.
Definition mark_step (build : rt_state -> Z -> option (rt_state * Z)) (d : hl_type_obj) (indexes : list Z) (start i : Z)
    (s : rt_state * list Z) : option (rt_state * list Z) :=
  let '(st, mark) := s in
  f ← aget (o_fields d) i;
  ptr ← hl_is_ptr h (f_t f);
  if negb ptr then Some s else
  off ← aget indexes (i + start);
  let pos := Z.quot off HL_WSIZE in
  k ← kind_of h (f_t f);
  if k =? HPACKED then
    tp ← tparam h (f_t f); '(st, po) ← build st tp; rts ← st_rt st !! po;
    match st_marks st !! rt_t rts with
    | Some nested => mark ← nested_marks nested (Z.quot (rt_size rts) HL_WSIZE) pos mark; Some (st, mark)
    | None => Some (st, mark)
    end
  else mark ← set_mark mark pos; Some (st, mark).

(** [p->t->mark_bits], when there is a parent and it has some. *)
Definition parent_marks (st : rt_state) (p : option hl_runtime_obj) : option (list Z) :=
  match p with Some p => st_marks st !! rt_t p | None => None end.
Definition build_marks (build : rt_state -> Z -> option (rt_state * Z)) (ot : Z) (d : hl_type_obj) (p : option hl_runtime_obj)
    (start : Z) (indexes : list Z) (size : Z) (st : rt_state) : option rt_state :=
  ms ← hl_mark_size size;
  let mark := zalloc_words ms in
  (* [ot->mark_bits = mark]: the block is filled in place *)
  mark ← match parent_marks st p, p with
         | Some pm, Some p => pms ← hl_mark_size (rt_size p); acopy mark 0 pm 0 (pms / 4)
         | _, _ => Some mark
         end;
  '(st, mark) ← afor (mark_step build d indexes start) (length (o_fields d)) 0 (st, mark);
  Some (RtState (st_rt st) (<[ot := mark]> (st_marks st))).

(** ** The whole computation *)
Definition compareHash : option Z := r ← hl_hash_gen 0 (FieldLookup [] 0 0) hl_cache_init ustr_compare false; Some r.1.

(** What a class starts from: the parent's part of the object. *)
Definition base_fields (p : option (Z * hl_runtime_obj)) : Z := match p with Some (_, p) => rt_nfields p | None => 0 end.
Definition base_size (kt : Z) (p : option (Z * hl_runtime_obj)) : Z :=
  match p with Some (_, p) => rt_size p - rt_pad_size p | None => if kt =? HSTRUCT then 0 else HL_WSIZE end.
Definition base_largest (kt : Z) (p : option (Z * hl_runtime_obj)) : Z :=
  match p with Some (_, p) => rt_largest_field p | None => base_size kt p end.
Definition base_hasptr (p : option (Z * hl_runtime_obj)) : bool := match p with Some (_, p) => rt_hasPtr p | None => false end.

(** The part under the lock: the class [o] has the descriptor [d] and the parent [p]. *)
Definition build_class (build : rt_state -> Z -> option (rt_state * Z)) (ot o : Z) (d : hl_type_obj) (st : rt_state)
    (p : option (Z * hl_runtime_obj)) : option (rt_state * Z) :=
  let prt := snd <$> p in
  let start := base_fields p in
  kt ← kind_of h ot;
  nfields ← int_of (alen (o_fields d) + start);
  nbindings ← count_bindings prt d;
  let nlookup := count_lookup prt d in
  indexes ← match prt with
            | Some p => acopy (replicate (Z.to_nat nfields) 0) 0 (rt_fields_indexes p) 0 (rt_nfields p)
            | None => Some (replicate (Z.to_nat nfields) 0)
            end;
  a ← afor (field_step build d start) (length (o_fields d)) 0
        (FieldAcc st (base_size kt p) (base_largest kt p) (base_hasptr p) indexes (replicate (Z.to_nat nlookup) junk) 0 nlookup);
  let largest := fa_largest a in
  (* align size on largest field size to match C *)
  let pad := if largest >? 0 then Z.rem (fa_size a) largest else 0 in
  let pad_size := if negb (pad =? 0) then u8 (largest - pad) else 0 in
  size ← int_of (fa_size a + pad_size);
  ch ← compareHash;
  pa ← afor (proto_step o ch prt d) (length (o_proto d)) 0
         (ProtoAcc (fa_lookup a) (fa_n a) (match prt with Some p => rt_nmethods p | None => 0 end)
            (match prt with Some p => rt_nproto p | None => 0 end) None);
  let t := RuntimeObj ot nfields (pa_nproto pa) size (pa_nmethods pa) nbindings pad_size (u8 largest)
             (fa_hasPtr a) (fa_indexes a) (fst <$> p) (pa_compare pa) (fa_nlookup a) (pa_lookup pa) in
  (* [o->rt = t] *)
  let st := RtState (<[o := t]> (st_rt (fa_st a))) (st_marks (fa_st a)) in
  st ← (if rt_hasPtr t then build_marks build ot d prt start (fa_indexes a) size st else Some st);
  Some (st, o).

(** The class is [o]; the result is the class whose [rt] is returned. *)
Fixpoint hl_get_obj_rt (fuel : nat) (st : rt_state) (ot : Z) : option (rt_state * Z) :=
  o ← obj_ptr h ot; d ← aget (objs h) o;
  match st_rt st !! o with
  | Some _ => Some (st, o)
  | None =>
      match fuel with
      | O => None
      | S fuel =>
          '(st, p) ← match o_super d with
                     | None => Some (st, None)
                     | Some s => '(st, po) ← hl_get_obj_rt fuel st s; rt ← st_rt st !! po; Some (st, Some (po, rt))
                     end;
          match st_rt st !! o with
          | Some _ => Some (st, o)
          | None => build_class (hl_get_obj_rt fuel) ot o d st p
          end
      end
  end.

(** ** Finding fields *)
(** [do { ... rt = rt->parent } while( rt )]: the entry of the nearest class that has one. *)
Fixpoint resolve_from (fuel : nat) (st : rt_state) (o hfield : Z) : option (option (hl_field_lookup Z)) :=
  match fuel with
  | O => None
  | S fuel =>
      rt ← st_rt st !! o;
      f ← hl_lookup_find (rt_lookup rt) (rt_nlookup rt) hfield;
      match f with
      | Some i => e ← aget (rt_lookup rt) i; Some (Some e)
      | None => match rt_parent rt with Some p => resolve_from fuel st p hfield | None => Some None end
      end
  end.
Definition obj_resolve_field (st : rt_state) (o hfield : Z) : option (option (hl_field_lookup Z)) :=
  resolve_from (S (length (objs h))) st o hfield.

(** [while( rt->parent && fid < rt->parent->nfields ) rt = rt->parent] *)
Fixpoint declaring_class (fuel : nat) (st : rt_state) (rt : hl_runtime_obj) (fid : Z) : option (hl_runtime_obj * Z) :=
  match rt_parent rt with
  | None => Some (rt, 0)
  | Some p =>
      prt ← st_rt st !! p;
      if fid <? rt_nfields prt then
        match fuel with O => None | S fuel => declaring_class fuel st prt fid end
      else Some (rt, rt_nfields prt)
  end.
Definition hl_obj_field_fetch (fuel : nat) (st : rt_state) (t fid : Z) : option (rt_state * option hl_obj_field) :=
  k ← kind_of h t;
  if negb (k =? HOBJ) && negb (k =? HSTRUCT) then Some (st, None) else
  '(st, o) ← hl_get_obj_rt fuel st t; rt ← st_rt st !! o;
  if (fid <? 0) || (fid >=? rt_nfields rt) then Some (st, None) else
  '(rt, start) ← declaring_class (length (objs h)) st rt fid;
  d ← obj_of h (rt_t rt);
  f ← aget (o_fields d) (fid - start); Some (st, Some f).

Definition hl_type_data_size (fuel : nat) (st : rt_state) (t : Z) : option (rt_state * Z) :=
  k ← kind_of h t;
  if (k =? HSTRUCT) || (k =? HOBJ) then
    '(st, o) ← hl_get_obj_rt fuel st t; rt ← st_rt st !! o; Some (st, rt_size rt)
  else Some (st, -1).

(** ** Virtuals *)
(** [sizeof(vvirtual)]: type, value and next. *)
Definition VVIRTUAL_SIZE : Z := 3 * HL_WSIZE.
Record virtual_layout := VirtualLayout { v_dataSize : Z; v_indexes : list Z; v_lookup : list (hl_field_lookup Z); v_marks : list Z }.
Definition hl_init_virtual (vt : Z) : option virtual_layout :=
  fs ← virt_of h vt;
  let n := alen fs in
  vsize ← int_of (VVIRTUAL_SIZE + HL_WSIZE * n);
  '(l, indexes, size) ← afor (fun i '(l, indexes, size) =>
      f ← aget fs i;
      '(l, _) ← hl_lookup_insert l i (f_hashed_name f) (f_t f) i;
      pad ← hl_pad_struct h size (f_t f); size ← int_of (size + pad);
      indexes ← aset indexes i size;
      sz ← hl_type_size h (f_t f); size ← int_of (size + sz);
      Some (l, indexes, size)) (length fs) 0 (replicate (length fs) junk, replicate (length fs) 0, vsize);
  ms ← hl_mark_size size;
  mark ← aset (zalloc_words ms) 0 (Z.lor 2 4);
  mark ← afor (fun i mark =>
      f ← aget fs i; ptr ← hl_is_ptr h (f_t f);
      if (ptr : bool) then off ← aget indexes i; set_mark mark (Z.quot off HL_WSIZE) else Some mark) (length fs) 0 mark;
  Some (VirtualLayout (size - vsize) indexes l mark).

(** ** Enums *)
(** [size], [hasptr] and [offsets] of a constructor. *)
Record construct_layout := ConstructLayout { c_size : Z; c_hasptr : bool; c_offsets : list Z }.
Definition construct_step (c : hl_enum_construct) : option construct_layout :=
  '(size, hasptr, offsets) ← afor (fun j '(size, hasptr, offsets) =>
      t ← aget (c_params c) j;
      pad ← hl_pad_struct h size t; size ← int_of (size + pad);
      offsets ← aset offsets j size;
      ptr ← hl_is_ptr h t; sz ← hl_type_size h t; size ← int_of (size + sz);
      Some (size, hasptr || ptr, offsets))
    (length (c_params c)) 0 (HL_WSIZE + 4, false, replicate (length (c_params c)) 0);
  Some (ConstructLayout size hasptr offsets).
Definition enum_mark_size (ls : list construct_layout) : option Z :=
  '(_, m) ← afor (fun i '(_, mark_size) =>
      c ← aget ls i;
      if c_hasptr c then
        ms ← hl_mark_size (c_size c - HL_WSIZE * 2); max_pos ← int_of (i * 4 + ms);
        Some (i, if max_pos >? mark_size then max_pos else mark_size)
      else Some (i, mark_size)) (length ls) 0 (0, 0);
  Some m.
Definition hl_init_enum (et : Z) : option (list construct_layout * list Z) :=
  e ← enum_of h et;
  ls ← mapM construct_step (e_constructs e);
  mark_size ← enum_mark_size ls;
  mark ← afor (fun i mark =>
      l ← aget ls i; c ← aget (e_constructs e) i;
      if negb (c_hasptr l) then Some mark else
      afor (fun j mark =>
          t ← aget (c_params c) j; ptr ← hl_is_ptr h t;
          if (ptr : bool) then
            off ← aget (c_offsets l) j;
            let pos := Z.quot off HL_WSIZE - 2 in
            mark_word mark (i + Z.shiftr pos 5) (Z.land pos 31)
          else Some mark) (length (c_params c)) 0 mark)
    (length ls) 0 (zalloc_words mark_size);
  Some (ls, mark).
End layout.
