(* ===== verification/LayoutProps.v ===== *)
(** * Objects are laid out soundly

    Fields are placed in declaration order after those of the parent class, each at
    the first aligned offset; sizes are multiples of the largest alignment, so that a
    structure stays aligned inside another one. *)
From S2P Require Import Prelude DataStruct Ustr Buffer Lookup Reader Types TypesProps TypesText Layout.

(** ** Alignment arithmetic *)
Definition pow2_8 (a : Z) : Prop := a = 1 \/ a = 2 \/ a = 4 \/ a = 8.
Lemma pow2_land a x : pow2_8 a -> Z.land x (a - 1) = x mod a.
Proof. intros [->|[->|[-> | ->]]]; [apply (land_mask 0)|apply (land_mask 1)|apply (land_mask 2)|apply (land_mask 3)]; done. Qed.
(** The first multiple of [a] at or after [size]. *)
Definition align_up (size a : Z) : Z := size + (- size) mod a.
Lemma align_up_spec size a : 0 < a -> size <= align_up size a < size + a /\ align_up size a mod a = 0.
Proof.
  intros Ha. unfold align_up. pose proof (Z.mod_pos_bound (- size) a Ha). split; [lia|].
  rewrite Zplus_mod_idemp_r. by rewrite Z.add_opp_diag_r, Z.mod_0_l by lia.
Qed.
Lemma align_up_rem size a : 0 <= size -> 0 < a ->
  align_up size a = if Z.rem size a =? 0 then size else size + (a - Z.rem size a).
Proof.
  intros Hs Ha. rewrite Z.rem_mod_nonneg by lia. unfold align_up. case_if_bool.
  - rewrite Z_mod_zero_opp_full by done. lia.
  - rewrite Z_mod_nz_opp_full by done. lia.
Qed.
Lemma pow2_divide a b : pow2_8 a -> pow2_8 b -> a <= b -> (a | b).
Proof.
  intros Ha Hb Hab. unfold pow2_8 in *.
  assert (exists q, b = q * a) as [q ->]; [|by exists q].
  destruct Ha as [->|[->|[-> | ->]]], Hb as [->|[->|[-> | ->]]]; try lia;
    first [by exists 1|by exists 2|by exists 4|by exists 8].
Qed.

(** ** The kinds and their alignment *)
Definition kind_align (k : Z) : Z := if k =? HVOID then 1 else align_of k.
Definition align_size_ok (k : Z) : bool :=
  match aget T_SIZES k with
  | Some s => (k =? HPACKED) || ((0 <=? s) && (s <=? 8) && ((s =? 0) || (s =? kind_align k)) && ((k =? HVOID) || (s >? 0)))
  | None => false
  end && existsb (Z.eqb (kind_align k)) [1; 2; 4; 8].
Lemma kind_sizes k : 0 <= k < 24 -> exists s, aget T_SIZES k = Some s /\ pow2_8 (kind_align k) /\
  (k <> HPACKED -> 0 <= s <= 8 /\ (s = 0 \/ s = kind_align k) /\ (k <> HVOID -> 0 < s)).
Proof.
  intros Hk. assert (align_size_ok k = true) as Ht by (apply all_kinds; [vm_compute; reflexivity|done]).
  unfold align_size_ok in Ht. apply andb_true_iff in Ht as [H1 H2]. destruct (aget T_SIZES k) as [s|]; [|done]. exists s. split; [done|].
  split.
  - apply existsb_exists in H2 as (x & Hx & ->%Z.eqb_eq). apply list_elem_of_In in Hx. unfold pow2_8. set_unfold in Hx. lia.
  - intros Hp. apply orb_true_iff in H1 as [H1|H1]; [apply Z.eqb_eq in H1; done|]. zbool.
    split; [lia|]. split; [destruct (s =? 0) eqn:E; zbool; [by left|right; simpl in *; zbool; lia]|].
    intros Hv. destruct (k =? HVOID) eqn:E; zbool; [done|]. simpl in *. zbool. lia.
Qed.
Lemma hl_pad_struct_spec h size t k : kind_of h t = Some k -> 0 <= k < 24 -> 0 <= size <= INT_MAX ->
  exists p, hl_pad_struct h size t = Some p /\ size + p = align_up size (kind_align k).
Proof.
  intros Hk Hr Hs. unfold hl_pad_struct, kind_align. rewrite Hk. cbn [mbind option_bind].
  destruct (kind_sizes k Hr) as (_ & _ & Ha & _). unfold kind_align in Ha. destruct (k =? HVOID) eqn:E.
  - exists 0. split; [done|]. unfold align_up. rewrite Z.mod_1_r. done.
  - rewrite int_of_Some by (unfold in_i32, INT_MIN, INT_MAX in *; lia). cbn [mbind option_bind]. eexists. split; [done|].
    unfold align_up. by rewrite pow2_land.
Qed.

(** ** Placing fields *)
Section layout_ok.
Context (h : heap).
(** The runtime object of the structure packed in a field. *)
Definition packed_rt (st : rt_state) (f : hl_obj_field) : option hl_runtime_obj :=
  tp ← tparam h (f_t f); po ← obj_ptr h tp; st_rt st !! po.
Definition is_packed (f : hl_obj_field) : bool := bool_decide (kind_of h (f_t f) = Some HPACKED).
Definition field_size (st : rt_state) (f : hl_obj_field) : option Z :=
  if is_packed f then rts ← packed_rt st f; Some (rt_size rts) else hl_type_size h (f_t f).
Definition field_align (st : rt_state) (f : hl_obj_field) : option Z :=
  if is_packed f then rts ← packed_rt st f; Some (rt_largest_field rts)
  else k ← kind_of h (f_t f); Some (kind_align k).
Definition field_hasptr (st : rt_state) (f : hl_obj_field) : option bool :=
  if is_packed f then rts ← packed_rt st f; Some (rt_hasPtr rts) else hl_is_ptr h (f_t f).

(** [fs] are at [offs], each at the first aligned offset after the one before it,
    between [lo] and [hi]. *)
Inductive placed (st : rt_state) : list hl_obj_field -> list Z -> Z -> Z -> Prop :=
  | placed_nil lo : placed st [] [] lo lo
  | placed_snoc fs offs lo hi f a s : placed st fs offs lo hi ->
      field_align st f = Some a -> 0 < a -> field_size st f = Some s -> 0 <= s ->
      placed st (fs ++ [f]) (offs ++ [align_up hi a]) lo (align_up hi a + s).

(** What the field at index [i] of a placed list satisfies. *)
Lemma placed_bounds st fs offs lo hi : placed st fs offs lo hi ->
  alen offs = alen fs /\ lo <= hi /\
  (forall i f off, aget fs i = Some f -> aget offs i = Some off -> exists a s,
     field_align st f = Some a /\ 0 < a /\ field_size st f = Some s /\ 0 <= s /\
     off mod a = 0 /\ lo <= off /\ off + s <= hi) /\
  (forall i j fi offi offj si, i < j -> aget fs i = Some fi -> field_size st fi = Some si ->
     aget offs i = Some offi -> aget offs j = Some offj -> offi + si <= offj).
Proof.
  induction 1 as [lo|fs offs lo hi f a s Hp (Hl & Hlh & Hin & Hdis) Ha Hapos Hs Hspos].
  - split; [done|]. split; [lia|]. split; [intros i f off Hi; apply aget_Some_range in Hi; unfold alen in Hi; simpl in Hi; lia|].
    intros i j fi oi oj si _ Hi. apply aget_Some_range in Hi. unfold alen in Hi; simpl in Hi; lia.
  - destruct (align_up_spec hi a Hapos) as [Hb Hm].
    split; [rewrite !alen_app, Hl; done|]. split; [lia|].
    assert (forall (A : Type) (l : list A) x i y, aget (l ++ [x]) i = Some y -> (i < alen l /\ aget l i = Some y) \/ (i = alen l /\ y = x)) as Hsnoc.
    { intros A l x i y Hi. pose proof (aget_Some_range _ _ _ Hi) as Hr. rewrite alen_app in Hr. change (alen [x]) with 1 in Hr.
      destruct (decide (i < alen l)); [left; rewrite aget_app_l in Hi by lia; done|right]. assert (i = alen l) as -> by lia.
      rewrite aget_app_r, Z.sub_diag in Hi by lia. by injection Hi as <-. }
    split.
    + intros i g off Hg Hoff. destruct (Hsnoc _ _ _ _ _ Hg) as [[Hi Hg']|[-> ->]], (Hsnoc _ _ _ _ _ Hoff) as [[Hi' Hoff']|[Hi' ->]]; try lia.
      * destruct (Hin i g off Hg' Hoff') as (a' & s' & ? & ? & ? & ? & ? & ? & ?). exists a', s'. split_and!; try done. lia.
      * exists a, s. split_and!; try done; lia.
    + intros i j fi oi oj si Hij Hfi Hsi Hoi Hoj.
      pose proof (aget_Some_range _ _ _ Hoj) as Hr. rewrite alen_app in Hr. change (alen [align_up hi a]) with 1 in Hr.
      destruct (Hsnoc _ _ _ _ _ Hfi) as [[Hi Hfi']|[-> ->]]; [|lia]. destruct (Hsnoc _ _ _ _ _ Hoi) as [[Hi' Hoi']|[Hi' ->]]; [|lia].
      destruct (Hsnoc _ _ _ _ _ Hoj) as [[Hj Hoj']|[Hj ->]]; [exact (Hdis i j fi oi oj si Hij Hfi' Hsi Hoi' Hoj')|].
      destruct (Hin i fi oi Hfi' Hoi') as (a' & s' & _ & _ & Hs' & _ & _ & _ & Hhi). rewrite Hsi in Hs'. injection Hs' as <-. lia.
Qed.

(** States only grow: what is built stays, with its bitmap. *)
Definition extends (st st' : rt_state) : Prop :=
  st_rt st ⊆ st_rt st' /\ forall o rt, st_rt st !! o = Some rt -> st_marks st' !! rt_t rt = st_marks st !! rt_t rt.
#[global] Instance extends_preorder : PreOrder extends.
Proof.
  split; [by intros st|]. intros s1 s2 s3 [H1 H2] [H3 H4]. split; [by etrans|]. intros o rt Ho.
  rewrite (H4 o rt); [by eapply H2|]. by eapply lookup_weaken.
Qed.
Lemma packed_rt_mono st st' f rts : extends st st' -> packed_rt st f = Some rts -> packed_rt st' f = Some rts.
Proof.
  intros [He _] Hp. unfold packed_rt in *. destruct (tparam h (f_t f)) as [tp|]; [|done]. cbn [mbind option_bind] in *.
  destruct (obj_ptr h tp) as [po|]; [|done]. cbn [mbind option_bind] in *. by eapply lookup_weaken.
Qed.
Lemma field_mono st st' f : extends st st' ->
  (forall s, field_size st f = Some s -> field_size st' f = Some s) /\
  (forall a, field_align st f = Some a -> field_align st' f = Some a) /\
  (forall b, field_hasptr st f = Some b -> field_hasptr st' f = Some b).
Proof.
  intros He. unfold field_size, field_align, field_hasptr. destruct (is_packed f); [|done].
  destruct (packed_rt st f) as [rts|] eqn:Ep; [|done]. by rewrite (packed_rt_mono _ _ _ _ He Ep).
Qed.
Lemma placed_mono st st' fs offs lo hi : extends st st' -> placed st fs offs lo hi -> placed st' fs offs lo hi.
Proof.
  intros He. induction 1 as [lo|fs offs lo hi f a s _ IH Ha Hap Hs Hsp]; [constructor|].
  destruct (field_mono st st' f He) as (H1 & H2 & _). apply placed_snoc; auto.
Qed.
End layout_ok.

(** ** Bitmaps of words *)
Definition mark_bit (mark : list Z) (w : Z) : bool :=
  match aget mark (w / 32) with Some x => Z.testbit x (w mod 32) | None => false end.
Lemma hl_mark_size_spec n : 0 <= n <= 2 ^ 30 -> exists ms, hl_mark_size n = Some ms /\ 0 <= ms /\ ms mod 4 = 0 /\ n <= 8 * (32 * (ms / 4)) /\
  alen (zalloc_words ms) = ms / 4 /\ ms / 4 = ((n + 7) / 8 + 31) / 32.
Proof.
  intros Hn. change (2 ^ 30) with 1073741824 in Hn. unfold hl_mark_size, HL_WSIZE.
  rewrite int_of_Some by (unfold in_i32, INT_MIN, INT_MAX; lia). cbn [mbind option_bind]. rewrite Z.quot_div_nonneg by lia.
  replace (n + 8 - 1) with (n + 7) by lia. assert (0 <= (n + 7) / 8 <= 134217729) by z_div.
  rewrite int_of_Some by (unfold in_i32, INT_MIN, INT_MAX; lia). cbn [mbind option_bind]. rewrite shiftr_div by lia. change (2 ^ 5) with 32.
  assert (0 <= ((n + 7) / 8 + 31) / 32 <= 4194305) by z_div.
  rewrite int_of_Some by (unfold in_i32, INT_MIN, INT_MAX; lia). eexists. split; [done|]. rewrite Z.mod_mul, Z.div_mul by lia.
  split; [lia|]. split; [done|]. split; [z_div|]. split; [|done]. unfold zalloc_words. rewrite alen_replicate, Z.div_mul by lia. lia.
Qed.
Lemma mark_bit_zero n w : mark_bit (zalloc_words n) w = false.
Proof.
  unfold mark_bit. destruct (aget (zalloc_words n) (w / 32)) as [x|] eqn:E; [|done]. pose proof (aget_Some_range _ _ _ E).
  rewrite aget_lookup in E by lia. unfold zalloc_words in E. apply lookup_replicate in E as [-> _]. apply Z.bits_0.
Qed.
Lemma mark_word_spec mark w b : 0 <= w < alen mark -> 0 <= b < 32 -> exists mark', mark_word mark w b = Some mark' /\ alen mark' = alen mark /\
  forall v, 0 <= v -> mark_bit mark' v = (v =? 32 * w + b) || mark_bit mark v.
Proof.
  intros Hw Hb. unfold mark_word. destruct (aget_is_Some _ _ Hw) as [x Hx]. rewrite Hx. cbn [mbind option_bind].
  destruct (aset_total mark w (Z.lor x (u32 (Z.shiftl 1 b))) Hw) as (m' & Hm' & Hl & Hg). rewrite Hm'. exists m'. split; [done|]. split; [done|].
  intros v Hv. unfold mark_bit. rewrite Hg. pose proof (Z.mod_pos_bound v 32 ltac:(lia)) as Hvm. pose proof (Z.div_mod v 32 ltac:(lia)) as Hvd.
  case_decide as Hq.
  - replace (v / 32) with w by lia. rewrite Hx, Z.lor_spec, orb_comm. f_equal. rewrite shiftl_mul, Z.mul_1_l by lia. unfold uN. rewrite Z.mod_small.
    + rewrite Z.pow2_bits_eqb by lia. apply eq_iff_eq_true. rewrite !Z.eqb_eq. lia.
    + split; [apply Z.pow_nonneg; lia|apply Z.pow_lt_mono_r; lia].
  - replace (v =? 32 * w + b) with false by (symmetry; apply Z.eqb_neq; intros ->; apply Hq; apply (Z.div_unique _ _ _ b); lia). done.
Qed.
Lemma set_mark_spec mark pos : 0 <= pos < 32 * alen mark -> exists mark', set_mark mark pos = Some mark' /\ alen mark' = alen mark /\
  forall v, 0 <= v -> mark_bit mark' v = (v =? pos) || mark_bit mark v.
Proof.
  intros Hp. unfold set_mark. rewrite shiftr_div, (land_mask 5) by (done || lia). change (2 ^ 5) with 32.
  pose proof (Z.mod_pos_bound pos 32 ltac:(lia)). pose proof (Z.div_mod pos 32 ltac:(lia)) as Hd.
  destruct (mark_word_spec mark (pos / 32) (pos mod 32)) as (m' & Hm & Hl & Hb); [split; [apply Z.div_pos; lia|apply Z.div_lt_upper_bound; lia]|lia|].
  exists m'. split; [done|]. split; [done|]. intros v Hv. by rewrite Hb, <- Hd.
Qed.
Lemma nested_bit x b : 0 <= b < 32 -> negb (Z.land x (u32 (Z.shiftl 1 b)) =? 0) = Z.testbit x b.
Proof.
  intros Hb. rewrite shiftl_mul, Z.mul_1_l by lia. unfold uN. rewrite Z.mod_small by (split; [apply Z.pow_nonneg; lia|apply Z.pow_lt_mono_r; lia]).
  destruct (Z.testbit x b) eqn:E.
  - apply negb_true_iff, Z.eqb_neq. intros H0. assert (Z.testbit (Z.land x (2 ^ b)) b = false) as Hf by (rewrite H0; apply Z.bits_0).
    rewrite Z.land_spec, E, Z.pow2_bits_true in Hf by lia. done.
  - apply negb_false_iff, Z.eqb_eq. apply Z.bits_inj'. intros n Hn. rewrite Z.land_spec, Z.bits_0, Z.pow2_bits_eqb by lia.
    destruct (Z.eqb_spec b n) as [->|]; [by rewrite E|by rewrite andb_false_r].
Qed.
Lemma nested_marks_spec nested nwords pos mark : 0 <= nwords <= 32 * alen nested -> 0 <= pos -> pos + nwords <= 32 * alen mark ->
  exists mark', nested_marks nested nwords pos mark = Some mark' /\ alen mark' = alen mark /\
    forall v, 0 <= v -> mark_bit mark' v = ((pos <=? v) && (v <? pos + nwords) && mark_bit nested (v - pos)) || mark_bit mark v.
Proof.
  intros Hn Hp Hm. unfold nested_marks.
  match goal with |- context [afor ?f _ _ _] => destruct (afor_total f (fun k m => alen m = alen mark /\
    forall v, 0 <= v -> mark_bit m v = ((pos <=? v) && (v <? pos + k) && mark_bit nested (v - pos)) || mark_bit mark v) (Z.to_nat nwords) 0 mark) as (m' & Hm' & Hl & Hb) end.
  - split; [done|]. intros v Hv. replace (v <? pos + 0) with (negb (pos <=? v)) by (apply eq_iff_eq_true; rewrite negb_true_iff, Z.leb_gt, Z.ltb_lt; lia).
    by destruct (pos <=? v).
  - intros k m Hk [Hl Hb]. rewrite shiftr_div, (land_mask 5) by (done || lia). change (2 ^ 5) with 32.
    pose proof (Z.mod_pos_bound k 32 ltac:(lia)). destruct (aget_is_Some nested (k / 32)) as [x Hx]; [split; [apply Z.div_pos; lia|apply Z.div_lt_upper_bound; lia]|].
    rewrite Hx. cbn [mbind option_bind]. rewrite nested_bit by lia.
    assert (mark_bit nested k = Z.testbit x (k mod 32)) as Hbit by (unfold mark_bit; by rewrite Hx).
    assert (forall v, 0 <= v -> ((pos <=? v) && (v <? pos + (k + 1)) && mark_bit nested (v - pos)) =
      ((v =? pos + k) && mark_bit nested k) || ((pos <=? v) && (v <? pos + k) && mark_bit nested (v - pos))) as Hsplit.
    { intros v Hv. destruct (Z.eqb_spec v (pos + k)) as [->|Hne].
      - replace (pos + k - pos) with k by lia. replace (pos <=? pos + k) with true by (symmetry; apply Z.leb_le; lia).
        replace (pos + k <? pos + (k + 1)) with true by (symmetry; apply Z.ltb_lt; lia). replace (pos + k <? pos + k) with false by (symmetry; apply Z.ltb_ge; lia).
        simpl. by rewrite orb_false_r.
      - simpl. do 2 f_equal. apply eq_iff_eq_true. rewrite !Z.ltb_lt. lia. }
    destruct (Z.testbit x (k mod 32)).
    + destruct (set_mark_spec m (pos + k)) as (m' & -> & Hl' & Hb'); [lia|]. exists m'. split; [done|]. split; [lia|].
      intros v Hv. rewrite Hb', Hb, Hsplit, Hbit, andb_true_r by done. by rewrite orb_assoc.
    + exists m. split; [done|]. split; [done|]. intros v Hv. rewrite Hb, Hsplit, Hbit, andb_false_r by done. done.
  - exists m'. split; [done|]. split; [done|]. rewrite Z2Nat.id in Hb by lia. exact Hb.
Qed.

(** ** Programs whose classes can be laid out *)
Definition named_field (f : hl_obj_field) : Prop := exists c, aget (u_chars (f_name f)) 0 = Some c /\ c <> 0.
Section program.
Context (h : heap) (functions_types : Z -> list Z) (crank : Z -> nat) (B : Z -> Z).
(** What a field may add to the size of its class: itself and its padding. *)
Definition field_cost (f : hl_obj_field) : Z :=
  if is_packed h f then match tparam h (f_t f) ≫= obj_ptr h with Some po => 7 + B po | None => 0 end else 15.
Definition base_bound (d : hl_type_obj) : Z :=
  match o_super d with None => 8 | Some s => match obj_ptr h s with Some po => B po | None => 0 end end.
Definition costs (fs : list hl_obj_field) : Z := foldr (fun f z => field_cost f + z) 0 fs.
(** A structure that can be packed has a field with a size, hence an alignment. *)
Definition packable (o : Z) : Prop :=
  exists d j g k, aget (objs h) o = Some d /\ aget (o_fields d) j = Some g /\ kind_of h (f_t g) = Some k /\ k <> HVOID /\ k <> HPACKED.
Record program_ok : Prop := {
  prog_heap : heap_ok h;
  (* the rank decreases towards superclasses and packed structures *)
  rank_bound : forall o, (crank o <= length (objs h))%nat;
  rank_super : forall o d s o1, aget (objs h) o = Some d -> o_super d = Some s -> obj_ptr h s = Some o1 -> (crank o1 < crank o)%nat;
  rank_packed : forall o d i f tp, aget (objs h) o = Some d -> aget (o_fields d) i = Some f ->
    kind_of h (f_t f) = Some HPACKED -> tparam h (f_t f) = Some tp ->
    exists po, obj_ptr h tp = Some po /\ 0 <= po < alen (objs h) /\ (crank po < crank o)%nat /\ packable po;
  (* sizes stay far below the range of [int] *)
  size_bound : forall o d, aget (objs h) o = Some d -> base_bound d + costs (o_fields d) + 7 <= B o <= 2 ^ 28;
  few_protos : forall o d, aget (objs h) o = Some d -> alen (o_proto d) <= 2 ^ 28;
  (* members of one class have different hashed names *)
  names_fields : forall o d i j f g, aget (objs h) o = Some d -> aget (o_fields d) i = Some f -> aget (o_fields d) j = Some g ->
    named_field f -> named_field g -> f_hashed_name f = f_hashed_name g -> i = j;
  names_protos : forall o d i j p q, aget (objs h) o = Some d -> aget (o_proto d) i = Some p -> aget (o_proto d) j = Some q ->
    p_hashed_name p = p_hashed_name q -> p_pindex p <> HL_PROTO_TYPED_ENTRY -> p_pindex q <> HL_PROTO_TYPED_ENTRY -> i = j;
  names_both : forall o d i j f q, aget (objs h) o = Some d -> aget (o_fields d) i = Some f -> aget (o_proto d) j = Some q ->
    named_field f -> p_pindex q <> HL_PROTO_TYPED_ENTRY -> f_hashed_name f <> p_hashed_name q;
  (* methods are functions of the module *)
  protos_ok : forall o d i p, aget (objs h) o = Some d -> aget (o_proto d) i = Some p -> p_pindex p <> HL_PROTO_TYPED_ENTRY ->
    p_pindex p < INT_MAX /\
    exists mt f, aget (functions_types o) (p_findex p) = Some mt /\ fun_of h mt = Some f /\ Forall (valid h) (args f) /\ valid h (ret f);
}.
End program.

Section build.
Context (h : heap) (functions_types : Z -> list Z) (junk : hl_field_lookup Z) (crank : Z -> nat) (B : Z -> Z).
Context (Hprog : program_ok h functions_types crank B).
Let Hok : heap_ok h := prog_heap _ _ _ _ Hprog.

(** The part of the object that belongs to the parent class. *)
Definition base_of (st : rt_state) (rt : hl_runtime_obj) : Z * Z * Z * bool :=
  match rt_parent rt with
  | Some p => match st_rt st !! p with
              | Some prt => (rt_nfields prt, rt_size prt - rt_pad_size prt, rt_largest_field prt, rt_hasPtr prt)
              | None => (0, 0, 0, false)
              end
  | None => (0, (if decide (kind_of h (rt_t rt) = Some HSTRUCT) then 0 else 8), (if decide (kind_of h (rt_t rt) = Some HSTRUCT) then 0 else 8), false)
  end.
Definition alignment (a : Z) : Prop := a = 0 \/ pow2_8 a.

(** The words of an object that hold pointers: those of the parent, those of its own
    pointer fields, and those of the structures packed into it. *)
Definition field_word (st : rt_state) (f : hl_obj_field) (off w : Z) : Prop :=
  if is_packed h f then exists rts nested, packed_rt h st f = Some rts /\ st_marks st !! rt_t rts = Some nested /\
    0 <= w - off / 8 < rt_size rts / 8 /\ mark_bit nested (w - off / 8) = true
  else hl_is_ptr h (f_t f) = Some true /\ w = off / 8.
Definition parent_word (st : rt_state) (p : option Z) (w : Z) : Prop :=
  exists po prt pm, p = Some po /\ st_rt st !! po = Some prt /\ st_marks st !! rt_t prt = Some pm /\ mark_bit pm w = true.
Definition pointer_word (st : rt_state) (d : hl_type_obj) (p : option Z) (base : Z) (idx : list Z) (w : Z) : Prop :=
  parent_word st p w \/ exists i f off, aget (o_fields d) i = Some f /\ aget idx (base + i) = Some off /\ field_word st f off w.

(** What [hl_get_obj_rt] establishes of the runtime object of a class. *)
Record rt_ok (st : rt_state) (o : Z) (d : hl_type_obj) (rt : hl_runtime_obj) : Prop := {
  ok_class : aget (objs h) o = Some d;
  ok_type : obj_ptr h (rt_t rt) = Some o;
  ok_parent : match o_super d with
              | None => rt_parent rt = None
              | Some s => exists po, obj_ptr h s = Some po /\ rt_parent rt = Some po /\ is_Some (st_rt st !! po)
              end;
  ok_nfields : rt_nfields rt = (base_of st rt).1.1.1 + alen (o_fields d) /\ 0 <= (base_of st rt).1.1.1;
  ok_indexes : alen (rt_fields_indexes rt) = rt_nfields rt;
  (* the fields of the parent keep their offsets *)
  ok_prefix : forall p prt i, rt_parent rt = Some p -> st_rt st !! p = Some prt -> 0 <= i < rt_nfields prt ->
    aget (rt_fields_indexes rt) i = aget (rt_fields_indexes prt) i;
  (* its own fields come after, each at the first aligned offset *)
  ok_placed : exists offs, placed h st (o_fields d) offs (base_of st rt).1.1.2 (rt_size rt - rt_pad_size rt) /\
    forall i off, aget offs i = Some off -> aget (rt_fields_indexes rt) ((base_of st rt).1.1.1 + i) = Some off;
  ok_base : 0 <= (base_of st rt).1.1.2;
  ok_largest : alignment (rt_largest_field rt) /\ (base_of st rt).1.2 <= rt_largest_field rt;
  ok_aligns : forall i f a s, aget (o_fields d) i = Some f -> field_align h st f = Some a -> field_size h st f = Some s -> 0 < s ->
    a <= rt_largest_field rt;
  ok_pad : 0 <= rt_pad_size rt < 8;
  ok_counts : 0 <= rt_nproto rt /\ 0 <= rt_nmethods rt;
  ok_size : (0 < rt_largest_field rt -> rt_size rt mod rt_largest_field rt = 0) /\ rt_size rt <= B o /\ rt_nfields rt <= B o;
  ok_align_up : (0 < rt_largest_field rt -> rt_size rt = align_up (rt_size rt - rt_pad_size rt) (rt_largest_field rt)) /\
    (rt_largest_field rt = 0 -> rt_pad_size rt = 0);
  ok_hasptr : rt_hasPtr rt = true <->
    (base_of st rt).2 = true \/ exists i f, aget (o_fields d) i = Some f /\ field_hasptr h st f = Some true;
  (* the bitmap has one bit per word and says which hold pointers *)
  ok_marks : if rt_hasPtr rt then exists mark, st_marks st !! rt_t rt = Some mark /\
      alen mark = ((rt_size rt + 7) / 8 + 31) / 32 /\
      forall w, 0 <= w -> mark_bit mark w = true <-> pointer_word st d (rt_parent rt) (base_of st rt).1.1.1 (rt_fields_indexes rt) w
    else st_marks st !! rt_t rt = None;
  (* the table finds the named fields at their offsets; methods have negative indices *)
  ok_lookup : exists m, repr (rt_lookup rt) (rt_nlookup rt) m /\ alen (rt_lookup rt) <= 2 ^ 29 /\
    (forall i f off, aget (o_fields d) i = Some f -> named_field f -> aget (rt_fields_indexes rt) ((base_of st rt).1.1.1 + i) = Some off ->
      m !! f_hashed_name f = Some (f_t f, off)) /\
    (forall x ty ix, m !! x = Some (ty, ix) -> 0 <= ix -> exists i f, aget (o_fields d) i = Some f /\ named_field f /\
      f_hashed_name f = x /\ ty = f_t f /\ aget (rt_fields_indexes rt) ((base_of st rt).1.1.1 + i) = Some ix);
}.
Definition built (st : rt_state) : Prop :=
  (forall o rt, st_rt st !! o = Some rt -> exists d, rt_ok st o d rt) /\
  (forall t m, st_marks st !! t = Some m -> exists o, obj_ptr h t = Some o /\ is_Some (st_rt st !! o)).
(** [st'] adds only classes of rank below [c]. *)
Definition grows (c : nat) (st st' : rt_state) : Prop :=
  extends st st' /\ forall o, (c <= crank o)%nat -> st_rt st' !! o = st_rt st !! o.
Lemma grows_trans c st1 st2 st3 : grows c st1 st2 -> grows c st2 st3 -> grows c st1 st3.
Proof. intros [H1 H2] [H3 H4]. split; [by etrans|]. intros o Ho. by rewrite H4, H2. Qed.
Lemma grows_refl c st : grows c st st.
Proof. split; [done|]. done. Qed.

(** ** One field *)
Section class.
Context (o : Z) (d : hl_type_obj) (Hd : aget (objs h) o = Some d).
Context (build : rt_state -> Z -> option (rt_state * Z)).
Context (Hbuild : forall st tp po, obj_ptr h tp = Some po -> 0 <= po < alen (objs h) -> (crank po < crank o)%nat -> built st ->
  exists st', build st tp = Some (st', po) /\ built st' /\ grows (crank o) st st' /\ is_Some (st_rt st' !! po)).
Context (Hcached : forall st tp po, obj_ptr h tp = Some po -> 0 <= po < alen (objs h) -> is_Some (st_rt st !! po) -> build st tp = Some (st, po)).

Lemma packable_largest st po rt : built st -> packable h po -> st_rt st !! po = Some rt -> pow2_8 (rt_largest_field rt).
Proof.
  intros [Hb _] (pd & j & g & k & Hpd & Hg & Hk & Hkv & Hkp) Hrt. destruct (Hb po rt Hrt) as [d' Hrtok].
  pose proof (ok_class _ _ _ _ Hrtok) as Hd'. rewrite Hpd in Hd'. injection Hd' as <-.
  destruct (ok_largest _ _ _ _ Hrtok) as [[Hz|Hp] _]; [|done]. exfalso.
  pose proof (proj1 (Forall_aget _ _ _ _ (obj_fields_ok h _ (Forall_aget _ _ _ _ (objs_ok h Hok) Hpd)) Hg)) as Hv.
  destruct (valid_kind h Hok _ Hv) as (k' & Hk' & Hr). rewrite Hk in Hk'. injection Hk' as <-.
  destruct (kind_sizes k Hr) as (s & Hs & Ha & Hs'). destruct (Hs' Hkp) as (_ & _ & Hpos). specialize (Hpos Hkv).
  assert (is_packed h g = false) as Hnp by (unfold is_packed; rewrite Hk; apply bool_decide_false; congruence).
  pose proof (ok_aligns _ _ _ _ Hrtok j g (kind_align k) s Hg) as Hal. unfold field_align, field_size in Hal. rewrite Hnp, Hk in Hal.
  unfold hl_type_size in Hal. rewrite Hk in Hal. cbn [mbind option_bind] in Hal. specialize (Hal eq_refl Hs Hpos). unfold pow2_8 in Ha. lia.
Qed.

(** The rank, the descriptor and the built runtime object of a packed field. *)
Lemma packed_field st i f : built st -> aget (o_fields d) i = Some f -> is_packed h f = true ->
  exists tp po st' rts, kind_of h (f_t f) = Some HPACKED /\ tparam h (f_t f) = Some tp /\ obj_ptr h tp = Some po /\ 0 <= po < alen (objs h) /\
    build st tp = Some (st', po) /\ built st' /\ grows (crank o) st st' /\ st_rt st' !! po = Some rts /\
    packed_rt h st' f = Some rts /\ pow2_8 (rt_largest_field rts) /\ 0 <= rt_size rts <= B po /\
    (forall st'', extends st' st'' -> build st'' tp = Some (st'', po) /\ st_rt st'' !! po = Some rts) /\
    field_cost h B f = 7 + B po.
Proof.
  intros Hb Hf Hp. unfold is_packed in Hp. apply bool_decide_eq_true in Hp.
  pose proof (proj1 (Forall_aget _ _ _ _ (obj_fields_ok h _ (Forall_aget _ _ _ _ (objs_ok h Hok) Hd)) Hf)) as Hv.
  destruct (valid_type h Hok _ Hv) as (ty & Hty & Hdata). destruct (type_cases h _ _ Hty) as [Hk Hc]. rewrite Hp in Hk. injection Hk as Hk.
  rewrite <- Hk in Hdata. destruct (tdata ty) as [|g|o'|v|n|e|tp]; simpl in Hdata; try done;
    try (destruct Hdata as [Hdata _]; unfold HPACKED, HFUN, HMETHOD, HOBJ, HSTRUCT, HVIRTUAL, HABSTRACT, HENUM in Hdata; lia).
  destruct (rank_packed _ _ _ _ Hprog o d i f tp Hd Hf Hp Hc) as (po & Hpo & Hpr & Hrank & Hpk).
  destruct (Hbuild st tp po Hpo Hpr Hrank Hb) as (st' & Hst' & Hb' & Hg & [rts Hrts]).
  exists tp, po, st', rts. do 8 (split; [done|]). split; [|split; [|split; [|split]]].
  - unfold packed_rt. rewrite Hc. cbn [mbind option_bind]. rewrite Hpo. done.
  - by eapply packable_largest.
  - destruct (proj1 Hb' po rts Hrts) as [pd Hrt]. destruct (ok_placed _ _ _ _ Hrt) as (offs & Hpl & _).
    pose proof (placed_bounds h _ _ _ _ _ Hpl) as (_ & Hle & _). pose proof (ok_base _ _ _ _ Hrt). pose proof (ok_pad _ _ _ _ Hrt).
    destruct (ok_size _ _ _ _ Hrt) as (_ & ? & _). lia.
  - intros st'' Hext. assert (st_rt st'' !! po = Some rts) as Hx by (eapply lookup_weaken; [exact Hrts|apply Hext]).
    split; [|done]. apply Hcached; [done|done|by eexists].
  - unfold field_cost, is_packed. rewrite bool_decide_true by done. rewrite Hc. cbn [mbind option_bind]. by rewrite Hpo.
Qed.

(** Where a field goes, and what it adds. *)
Lemma field_place_spec i f a : built (fa_st a) -> aget (o_fields d) i = Some f ->
  alignment (fa_largest a) -> 0 <= fa_size a -> fa_size a + field_cost h B f <= 2 ^ 28 ->
  exists st al s, field_place h build f a = Some (st, align_up (fa_size a) al, if is_packed h f then Z.max (fa_largest a) al else fa_largest a) /\
    built st /\ grows (crank o) (fa_st a) st /\ field_align h st f = Some al /\ pow2_8 al /\ field_size h st f = Some s /\
    0 <= s /\ align_up (fa_size a) al + s <= fa_size a + field_cost h B f /\
    (is_packed h f = false -> s = 0 \/ s = al) /\
    exists b, field_hasptr h st f = Some b /\
    forall size hp largest, size = align_up (fa_size a) al -> field_advance h build f st size largest hp =
      Some (st, size + s, if is_packed h f then largest else Z.max largest s, hp || b).
Proof.
  intros Hb Hf Hl Hs Hcost. change (2 ^ 28) with 268435456 in Hcost. destruct (is_packed h f) eqn:Hp.
  - destruct (packed_field _ i f Hb Hf Hp) as (tp & po & st' & rts & Hk & Htp & Hpo & _ & Hst' & Hb' & Hg & Hrts & Hprt & Hal & Hsz & Hagain & Hc).
    destruct (Hagain st' ltac:(done)) as [Hst'' _]. pose proof (align_up_spec (fa_size a) (rt_largest_field rts) ltac:(unfold pow2_8 in Hal; lia)) as [Hau _].
    assert (rt_largest_field rts <= 8) by (unfold pow2_8 in Hal; lia).
    exists st', (rt_largest_field rts), (rt_size rts). split.
    { unfold field_place. rewrite Hk. cbn [mbind option_bind]. change (HPACKED =? HPACKED) with true. cbn iota. rewrite Htp. cbn [mbind option_bind].
      rewrite Hst'. cbn [mbind option_bind]. rewrite Hrts. cbn [mbind option_bind].
      rewrite (proj2 (Z.eqb_neq (rt_largest_field rts) 0)) by (unfold pow2_8 in Hal; lia).
      pose proof (align_up_rem (fa_size a) (rt_largest_field rts) Hs ltac:(unfold pow2_8 in Hal; lia)) as Har.
      assert ((rt_largest_field rts >? fa_largest a) = true <-> fa_largest a < rt_largest_field rts) as Hgt by (rewrite Z.gtb_ltb; apply Z.ltb_lt).
      assert ((if rt_largest_field rts >? fa_largest a then rt_largest_field rts else fa_largest a) = Z.max (fa_largest a) (rt_largest_field rts)) as ->.
      { destruct (rt_largest_field rts >? fa_largest a) eqn:E; [|assert (~ fa_largest a < rt_largest_field rts) by (rewrite <- Hgt; done)]; lia. }
      destruct (Z.rem (fa_size a) (rt_largest_field rts) =? 0); cbn [negb].
      - cbn [mbind option_bind]. by rewrite Har.
      - rewrite Har in Hau. rewrite int_of_Some by (unfold in_i32, INT_MIN, INT_MAX; lia). cbn [mbind option_bind]. by rewrite Har. }
    split; [done|]. split; [done|]. split; [unfold field_align; by rewrite Hp, Hprt|]. split; [done|].
    split; [unfold field_size; by rewrite Hp, Hprt|]. split; [lia|]. split; [lia|]. split; [done|].
    exists (rt_hasPtr rts). split; [unfold field_hasptr; by rewrite Hp, Hprt|].
    intros size hp largest ->. unfold field_advance. rewrite Hk. cbn [mbind option_bind]. change (HPACKED =? HPACKED) with true. cbn iota.
    rewrite Htp. cbn [mbind option_bind]. rewrite Hst''. cbn [mbind option_bind]. rewrite Hrts. cbn [mbind option_bind].
    rewrite int_of_Some by (unfold in_i32, INT_MIN, INT_MAX; lia). done.
  - pose proof (proj1 (Forall_aget _ _ _ _ (obj_fields_ok h _ (Forall_aget _ _ _ _ (objs_ok h Hok) Hd)) Hf)) as Hv.
    destruct (valid_kind h Hok _ Hv) as (k & Hk & Hr). assert (k <> HPACKED) as Hnp.
    { intros ->. unfold is_packed in Hp. apply bool_decide_eq_false in Hp. done. }
    destruct (kind_sizes k Hr) as (s & Hts & Hal & Hss). destruct (Hss Hnp) as (Hsr & Hsa & _).
    assert (field_cost h B f = 15) as Hc by (unfold field_cost; by rewrite Hp).
    pose proof (align_up_spec (fa_size a) (kind_align k) ltac:(unfold pow2_8 in Hal; lia)) as [Hau _].
    assert (kind_align k <= 8) by (unfold pow2_8 in Hal; lia).
    assert (hl_type_size h (f_t f) = Some s) as Hsize by (unfold hl_type_size; by rewrite Hk).
    assert (exists b, hl_is_ptr h (f_t f) = Some b) as [b Hbp].
    { unfold hl_is_ptr. rewrite Hk. cbn [mbind option_bind]. apply aget_is_Some. change (alen T_IS_PTR) with 24. lia. }
    exists (fa_st a), (kind_align k), s. split.
    { unfold field_place. rewrite Hk. cbn [mbind option_bind]. rewrite (proj2 (Z.eqb_neq _ _) Hnp).
      destruct (hl_pad_struct_spec h (fa_size a) (f_t f) k Hk Hr) as (p & -> & Hpad); [unfold INT_MAX; lia|]. cbn [mbind option_bind].
      rewrite Hpad, int_of_Some by (unfold in_i32, INT_MIN, INT_MAX; lia). done. }
    split; [done|]. split; [apply grows_refl|]. split; [unfold field_align; by rewrite Hp, Hk|]. split; [done|].
    split; [unfold field_size; by rewrite Hp|]. split; [lia|]. split; [lia|]. split; [done|].
    exists b. split; [unfold field_hasptr; by rewrite Hp|].
    intros size hp largest ->. unfold field_advance. rewrite Hk. cbn [mbind option_bind]. rewrite (proj2 (Z.eqb_neq _ _) Hnp), Hsize. cbn [mbind option_bind].
    rewrite int_of_Some by (unfold in_i32, INT_MIN, INT_MAX; lia). cbn [mbind option_bind].
    assert ((if s >? largest then s else largest) = Z.max largest s) as -> by (case_if_bool; lia).
    destruct hp; [done|]. by rewrite Hbp.
Qed.

(** ** All the fields *)
(** The entries of the first [i] fields, at the offsets of [idx]. *)
Definition field_entry (base i : Z) (idx : list Z) (x ty ix : Z) : Prop :=
  exists j f, 0 <= j < i /\ aget (o_fields d) j = Some f /\ named_field f /\ f_hashed_name f = x /\ ty = f_t f /\
    aget idx (base + j) = Some ix.
Record fields_inv (st0 : rt_state) (base size0 largest0 nl : Z) (hp0 : bool) (idx0 : list Z) (i : Z) (a : field_acc) : Prop := {
  fi_built : built (fa_st a) /\ grows (crank o) st0 (fa_st a);
  fi_placed : exists offs, placed h (fa_st a) (take (Z.to_nat i) (o_fields d)) offs size0 (fa_size a) /\
    forall j off, aget offs j = Some off -> aget (fa_indexes a) (base + j) = Some off;
  fi_len : alen (fa_indexes a) = base + alen (o_fields d);
  fi_prefix : forall j, j < base -> aget (fa_indexes a) j = aget idx0 j;
  fi_size : fa_size a <= size0 + costs h B (take (Z.to_nat i) (o_fields d));
  fi_largest : alignment (fa_largest a) /\ largest0 <= fa_largest a;
  fi_aligns : forall j f al s, 0 <= j < i -> aget (o_fields d) j = Some f -> field_align h (fa_st a) f = Some al ->
    field_size h (fa_st a) f = Some s -> 0 < s -> al <= fa_largest a;
  fi_hasptr : fa_hasPtr a = true <-> hp0 = true \/ exists j f, 0 <= j < i /\ aget (o_fields d) j = Some f /\ field_hasptr h (fa_st a) f = Some true;
  fi_total : forall j f, 0 <= j < i -> aget (o_fields d) j = Some f -> exists al s b,
    field_align h (fa_st a) f = Some al /\ field_size h (fa_st a) f = Some s /\ field_hasptr h (fa_st a) f = Some b;
  fi_table : alen (fa_lookup a) = nl /\ 0 <= fa_n a <= i /\ fa_nlookup a = nl - i + fa_n a /\
    exists m, repr (fa_lookup a) (fa_n a) m /\
      forall x ty ix, m !! x = Some (ty, ix) <-> field_entry base i (fa_indexes a) x ty ix;
}.

Lemma take_snoc {A} (l : list A) i x : aget l i = Some x -> take (Z.to_nat (i + 1)) l = take (Z.to_nat i) l ++ [x].
Proof.
  intros Hx. pose proof (aget_Some_range _ _ _ Hx). rewrite aget_lookup in Hx by lia.
  replace (Z.to_nat (i + 1)) with (S (Z.to_nat i)) by lia. by apply take_S_r.
Qed.
Lemma costs_app l f : costs h B (l ++ [f]) = costs h B l + field_cost h B f.
Proof. induction l as [|g l IH]; simpl; [lia|]. rewrite IH. lia. Qed.
Lemma obj_B_nonneg o' d' : aget (objs h) o' = Some d' -> 0 <= B o'.
Proof.
  revert d'. induction o' as [o' IH] using (well_founded_induction (Wf_nat.well_founded_ltof _ crank)). intros d' Hd'.
  pose proof (size_bound _ _ _ _ Hprog o' d' Hd') as [Hb _].
  assert (0 <= base_bound h B d') as Hbase.
  { unfold base_bound. destruct (o_super d') as [s|] eqn:Es; [|lia]. destruct (super_obj h Hok o' d' s Hd' Es) as (o1 & Ho1 & Hr). rewrite Ho1.
    destruct (aget_is_Some _ _ Hr) as [d1 Hd1]. apply (IH o1) with d1; [|done]. exact (rank_super _ _ _ _ Hprog o' d' s o1 Hd' Es Ho1). }
  assert (forall fs, (forall f, In f fs -> exists i, aget (o_fields d') i = Some f) -> 0 <= costs h B fs) as Hc.
  { induction fs as [|f fs IHf]; intros Hin; simpl; [lia|]. pose proof (IHf ltac:(intros g Hg; apply Hin; by right)).
    destruct (Hin f ltac:(by left)) as [i Hi]. enough (0 <= field_cost h B f) by lia. unfold field_cost. destruct (is_packed h f) eqn:Ep; [|lia].
    destruct (tparam h (f_t f)) as [tp|] eqn:Et; [|simpl; lia]. simpl. unfold is_packed in Ep. apply bool_decide_eq_true in Ep.
    destruct (rank_packed _ _ _ _ Hprog o' d' i f tp Hd' Hi Ep Et) as (po & Hpo & Hpr & Hrank & _). rewrite Hpo.
    destruct (aget_is_Some _ _ Hpr) as [pd Hpd]. pose proof (IH po Hrank pd Hpd). lia. }
  assert (0 <= costs h B (o_fields d')); [|lia]. apply Hc. intros f Hf. apply list_elem_of_In, list_elem_of_lookup in Hf as [i Hi].
  exists (Z.of_nat i). by rewrite aget_nat.
Qed.
Lemma field_cost_pos i f : aget (o_fields d) i = Some f -> 7 <= field_cost h B f.
Proof.
  intros Hf. unfold field_cost. destruct (is_packed h f) eqn:Ep; [|lia].
  pose proof (proj1 (Forall_aget _ _ _ _ (obj_fields_ok h _ (Forall_aget _ _ _ _ (objs_ok h Hok) Hd)) Hf)) as Hv.
  unfold is_packed in Ep. apply bool_decide_eq_true in Ep.
  destruct (valid_type h Hok _ Hv) as (ty & Hty & Hdata). destruct (type_cases h _ _ Hty) as [Hk Hc]. rewrite Ep in Hk. injection Hk as Hk.
  rewrite <- Hk in Hdata. destruct (tdata ty) as [|g|o'|v|n|e|tp]; simpl in Hdata; try done;
    try (destruct Hdata as [Hdata _]; unfold HPACKED, HFUN, HMETHOD, HOBJ, HSTRUCT, HVIRTUAL, HABSTRACT, HENUM in Hdata; lia).
  destruct (rank_packed _ _ _ _ Hprog o d i f tp Hd Hf Ep Hc) as (po & Hpo & Hpr & _ & _). rewrite Hc. simpl. rewrite Hpo.
  destruct (aget_is_Some _ _ Hpr) as [pd Hpd]. pose proof (obj_B_nonneg po pd Hpd). lia.
Qed.
Lemma costs_mono_take i j : 0 <= i <= j -> costs h B (take (Z.to_nat i) (o_fields d)) <= costs h B (take (Z.to_nat j) (o_fields d)).
Proof.
  intros [Hi Hij]. revert j Hij.
  apply (Zlt_lower_bound_ind (fun j => costs h B (take (Z.to_nat i) (o_fields d)) <= costs h B (take (Z.to_nat j) (o_fields d)))).
  intros j IH Hij. destruct (decide (j = i)) as [->|]; [lia|]. specialize (IH (j - 1) ltac:(lia)).
  destruct (aget (o_fields d) (j - 1)) as [f|] eqn:E.
  - pose proof (take_snoc _ _ _ E) as Ht. replace (j - 1 + 1) with j in Ht by lia. rewrite Ht, costs_app. pose proof (field_cost_pos _ _ E). lia.
  - apply aget_None in E. rewrite (take_ge _ (Z.to_nat (j - 1))) in IH by (unfold alen in E; lia).
    rewrite (take_ge _ (Z.to_nat j)) by (unfold alen in E; lia). done.
Qed.

Lemma field_entry_snoc base i f idx off idx' x ty ix : 0 <= i -> aget (o_fields d) i = Some f -> aset idx (i + base) off = Some idx' ->
  field_entry base (i + 1) idx' x ty ix <->
    field_entry base i idx x ty ix \/ (named_field f /\ f_hashed_name f = x /\ ty = f_t f /\ ix = off).
Proof.
  intros Hi Hf Hset. unfold field_entry. split.
  - intros (j & g & Hj & Hg & Hn & Hx & Hty & Hix). destruct (decide (j = i)) as [->|].
    + right. rewrite Hf in Hg. injection Hg as <-. rewrite Z.add_comm, (aget_aset_eq _ _ _ _ Hset) in Hix. injection Hix as <-. done.
    + left. exists j, g. split; [lia|]. rewrite (aget_aset_ne _ _ (base + j) _ _ Hset) in Hix by lia. done.
  - intros [(j & g & Hj & Hg & Hn & Hx & Hty & Hix)|(Hn & Hx & Hty & ->)].
    + exists j, g. split; [lia|]. split_and!; try done. by rewrite (aget_aset_ne _ _ (base + j) _ _ Hset) by lia.
    + exists i, f. split; [lia|]. split_and!; try done. by rewrite Z.add_comm, (aget_aset_eq _ _ _ _ Hset).
Qed.

Lemma field_lookup_spec base i f a idx' off nl : aget (o_fields d) i = Some f -> 0 <= i -> nl <= 2 ^ 29 -> i < nl ->
  aset (fa_indexes a) (i + base) off = Some idx' ->
  alen (fa_lookup a) = nl -> 0 <= fa_n a <= i -> fa_nlookup a = nl - i + fa_n a ->
  (exists m, repr (fa_lookup a) (fa_n a) m /\ forall x ty ix, m !! x = Some (ty, ix) <-> field_entry base i (fa_indexes a) x ty ix) ->
  exists l n nlk, field_lookup f off a = Some (l, n, nlk) /\ alen l = nl /\ 0 <= n <= i + 1 /\ nlk = nl - (i + 1) + n /\
    exists m, repr l n m /\ forall x ty ix, m !! x = Some (ty, ix) <-> field_entry base (i + 1) idx' x ty ix.
Proof.
  intros Hf Hi Hnl Hil Hset Hl Hn Hnlk (m & Hrepr & Hm). change (2 ^ 29) with 536870912 in Hnl. unfold field_lookup.
  pose proof (Forall_aget _ _ _ _ (obj_fields_ok h _ (Forall_aget _ _ _ _ (objs_ok h Hok) Hd)) Hf) as [_ [sn Hsn]].
  destruct (aget_is_Some (u_chars (f_name f)) 0) as [c Hc].
  { destruct Hsn as [_ (rest & ->)]. rewrite alen_app, alen_cons. pose proof (alen_nonneg sn). pose proof (alen_nonneg rest). lia. }
  rewrite Hc. cbn [mbind option_bind]. destruct (c =? 0) eqn:E; zbool; cbn [negb].
  - subst c. eexists _, _, _. split; [done|]. split; [done|]. split; [lia|]. split; [lia|]. exists m. split; [done|].
    intros x ty ix. rewrite Hm, (field_entry_snoc base i f (fa_indexes a) off idx') by done. split; [by left|]. intros [?|((c & Hc' & Hne) & _)]; [done|congruence].
  - assert (named_field f) as Hnf by (by exists c).
    assert (m !! f_hashed_name f = None) as Hfresh.
    { apply eq_None_not_Some. intros [[ty ix] (j & g & Hj & Hg & Hng & Hx & _ & _)%Hm].
      pose proof (names_fields _ _ _ _ Hprog o d j i g f Hd Hg Hf Hng Hnf Hx). lia. }
    destruct (insert_repr (fa_lookup a) (fa_n a) m (f_hashed_name f) (f_t f) off Hrepr) as (l' & pos & -> & Hl' & _ & Hrepr');
      [unfold INT_MAX; lia|lia|done|]. cbn [mbind option_bind]. eexists _, _, _. split; [done|]. split; [by rewrite Hl'|]. split; [lia|]. split; [lia|].
    eexists. split; [exact Hrepr'|]. intros x ty ix. rewrite (field_entry_snoc base i f (fa_indexes a) off idx') by done.
    rewrite lookup_insert. case_decide as Hx.
    + subst x. split; [intros [= -> ->]; by right|]. intros [He|(_ & _ & -> & ->)]; [|done].
      assert (m !! f_hashed_name f = Some (ty, ix)) by (by apply Hm). congruence.
    + rewrite Hm. split; [by left|]. intros [?|(_ & ? & _)]; done.
Qed.

Lemma fields_inv_step st0 base size0 largest0 nl hp0 idx0 i a : 0 <= base -> 0 <= size0 -> 0 <= i < alen (o_fields d) ->
  alen (o_fields d) <= nl <= 2 ^ 29 -> size0 + costs h B (o_fields d) + 7 <= 2 ^ 28 ->
  fields_inv st0 base size0 largest0 nl hp0 idx0 i a ->
  exists a', field_step h build d base i a = Some a' /\ fields_inv st0 base size0 largest0 nl hp0 idx0 (i + 1) a'.
Proof.
  intros Hbase Hs0 Hi Hnl Hbound [[Hb Hg] (offs & Hpl & Hoffs) Hlen Hpre Hsize [Hal Hal0] Haligns Hhp Htot (Hl & Hn & Hnlk & Htab)].
  destruct (aget_is_Some _ _ Hi) as [f Hf]. unfold field_step. rewrite Hf. cbn [mbind option_bind].
  destruct (placed_bounds h _ _ _ _ _ Hpl) as (Hlo & Hle & _ & _).
  pose proof (take_snoc _ _ _ Hf) as Htake. pose proof (costs_mono_take (i + 1) (alen (o_fields d)) ltac:(lia)) as Hcm.
  rewrite Htake, costs_app in Hcm. rewrite (take_ge _ (Z.to_nat (alen _))) in Hcm by (unfold alen; lia).
  destruct (field_place_spec i f a Hb Hf Hal) as (st & al & s & -> & Hb' & Hg' & Hfa & Hpow & Hfs & Hs & Hadd & Hsal & b & Hfb & Hadv); [lia|lia|].
  cbn [mbind option_bind]. set (off := align_up (fa_size a) al) in *. set (largest := if is_packed h f then _ else _).
  destruct (aset_total (fa_indexes a) (i + base) off) as (idx' & Hset & Hlen' & _); [lia|]. rewrite Hset. cbn [mbind option_bind].
  destruct (field_lookup_spec base i f a idx' off nl Hf ltac:(lia) ltac:(lia) ltac:(lia) Hset Hl Hn Hnlk Htab) as (l & n & nlk & -> & Hl' & Hn' & Hnlk' & Htab').
  cbn [mbind option_bind]. rewrite (Hadv off (fa_hasPtr a) largest eq_refl). cbn [mbind option_bind].
  pose proof Hg' as [Hext _]. assert (0 < al <= 8) as Hal8 by (unfold pow2_8 in Hpow; lia).
  assert (forall j g, 0 <= j < i + 1 -> aget (o_fields d) j = Some g -> j = i /\ g = f \/ 0 <= j < i) as Hcase.
  { intros j g Hj Hgj. destruct (decide (j = i)) as [->|]; [left; split; [done|congruence]|right; lia]. }
  eexists. split; [done|]. split; cbn [fa_st fa_size fa_largest fa_hasPtr fa_indexes fa_lookup fa_n fa_nlookup].
  - split; [done|]. by eapply grows_trans.
  - exists (offs ++ [off]). rewrite Htake. split; [apply placed_snoc; [by eapply placed_mono|done|lia|done|lia]|].
    intros j off' Hj. pose proof (aget_Some_range _ _ _ Hj) as Hjr. rewrite alen_app in Hjr. change (alen [off]) with 1 in Hjr.
    assert (alen offs = i) as Hoi by (rewrite Hlo, alen_take by lia; lia).
    destruct (decide (j = i)) as [->|].
    + rewrite aget_app_r, Hoi, Z.sub_diag in Hj by lia. injection Hj as <-. rewrite Z.add_comm. exact (aget_aset_eq _ _ _ _ Hset).
    + rewrite aget_app_l in Hj by lia. rewrite (aget_aset_ne _ _ _ _ _ Hset) by lia. by apply Hoffs.
  - lia.
  - intros j Hj. rewrite (aget_aset_ne _ _ _ _ _ Hset) by lia. by apply Hpre.
  - rewrite Htake, costs_app. lia.
  - unfold largest. unfold alignment, pow2_8 in *. destruct (is_packed h f) eqn:Ep; [lia|]. destruct (Hsal eq_refl); lia.
  - intros j g al' s' Hj Hgj Ha' Hs' Hpos. destruct (Hcase j g Hj Hgj) as [[-> ->]|Hj'].
    + rewrite Hfa in Ha'. injection Ha' as <-. rewrite Hfs in Hs'. injection Hs' as <-. unfold largest. destruct (is_packed h f) eqn:Ep; [lia|]. destruct (Hsal eq_refl); lia.
    + destruct (Htot j g Hj' Hgj) as (al1 & s1 & b1 & H1 & H2 & H3). destruct (field_mono h _ _ g Hext) as (M1 & M2 & _).
      rewrite (M2 _ H1) in Ha'. rewrite (M1 _ H2) in Hs'. simplify_eq. pose proof (Haligns j g _ _ Hj' Hgj H1 H2 Hpos). unfold largest. destruct (is_packed h f); lia.
  - rewrite orb_true_iff, Hhp. split.
    + intros [[?|(j & g & Hj & Hgj & Hp)]| ->]; [by left| |right; exists i, f; split; [lia|done]].
      right. exists j, g. split; [lia|]. split; [done|]. by apply (field_mono h _ _ g Hext).
    + intros [?|(j & g & Hj & Hgj & Hp)]; [by left; left|]. destruct (Hcase j g Hj Hgj) as [[-> ->]|Hj']; [right; congruence|].
      left. right. exists j, g. split; [done|]. split; [done|]. destruct (Htot j g Hj' Hgj) as (_ & _ & b1 & _ & _ & H3).
      pose proof (proj2 (proj2 (field_mono h _ _ g Hext)) _ H3). congruence.
  - intros j g Hj Hgj. destruct (Hcase j g Hj Hgj) as [[-> ->]|Hj']; [by exists al, s, b|].
    destruct (Htot j g Hj' Hgj) as (al1 & s1 & b1 & H1 & H2 & H3). destruct (field_mono h _ _ g Hext) as (M1 & M2 & M3). exists al1, s1, b1. auto.
  - split; [done|]. split; [lia|]. split; [lia|]. done.
Qed.

(** ** Methods *)
(** The table after the fields and the first [i] prototype entries. *)
Record protos_inv (p : option hl_runtime_obj) (base nl n0 : Z) (idx : list Z) (i : Z) (a : proto_acc) : Prop := {
  pi_len : alen (pa_lookup a) = nl;
  pi_n : pa_n a = n0 + alen (filter (fun pr => own_proto p pr = true) (take (Z.to_nat i) (o_proto d)));
  pi_counts : 0 <= pa_nproto a /\ 0 <= pa_nmethods a;
  pi_table : exists m, repr (pa_lookup a) (pa_n a) m /\
    (forall x ty ix, 0 <= ix -> m !! x = Some (ty, ix) <-> field_entry base (alen (o_fields d)) idx x ty ix) /\
    (forall x ty ix, m !! x = Some (ty, ix) -> ix < 0 -> exists j pr, 0 <= j < i /\ aget (o_proto d) j = Some pr /\ p_pindex pr <> HL_PROTO_TYPED_ENTRY /\ p_hashed_name pr = x);
}.
Lemma is_compare_total mt f : fun_of h mt = Some f -> Forall (valid h) (args f) -> valid h (ret f) ->
  exists b, (f ← fun_of h mt;
     if negb (alen (args f) =? 2) then Some false else
     a1 ← aget (args f) 1; k1 ← kind_of h a1;
     if negb (k1 =? HDYN) then Some false else
     kr ← kind_of h (ret f); Some (kr =? HI32)) = Some b.
Proof.
  intros Hf Ha Hr. rewrite Hf. cbn [mbind option_bind]. destruct (Z.eqb_spec (alen (args f)) 2) as [Hl|]; cbn [negb]; [|by eexists].
  destruct (aget_is_Some (args f) 1) as [a1 Ha1]; [lia|]. rewrite Ha1. cbn [mbind option_bind].
  destruct (valid_kind h Hok a1) as (k1 & Hk1 & _); [exact (Forall_aget _ _ _ _ Ha Ha1)|]. rewrite Hk1. cbn [mbind option_bind]. destruct (negb _); [by eexists|].
  destruct (valid_kind h Hok _ Hr) as (kr & Hkr & _). rewrite Hkr. by eexists.
Qed.
Lemma protos_inv_step p base nl n0 idx ch i a : 0 <= base -> nl <= 2 ^ 29 -> 0 <= n0 <= alen (o_fields d) ->
  nl = count_lookup p d -> 0 <= i < alen (o_proto d) ->
  (forall x ty ix, field_entry base (alen (o_fields d)) idx x ty ix -> 0 <= ix) ->
  protos_inv p base nl n0 idx i a ->
  exists a', proto_step h functions_types o ch p d i a = Some a' /\ protos_inv p base nl n0 idx (i + 1) a'.
Proof.
  intros Hbase Hnl Hn0 Hcount Hi Hpos [Hlen Hn [Hnp Hnm] (m & Hrepr & Hfields & Hmeth)]. change (2 ^ 29) with 536870912 in Hnl.
  destruct (aget_is_Some _ _ Hi) as [pr Hpr]. unfold proto_step. rewrite Hpr. cbn [mbind option_bind].
  assert (take (Z.to_nat (i + 1)) (o_proto d) = take (Z.to_nat i) (o_proto d) ++ [pr]) as Htake by (by apply take_snoc).
  destruct (own_proto p pr) eqn:Eown; cbn [negb].
  2: { exists a. split; [done|]. split; [done| |done|].
       - rewrite Htake, filter_app, alen_app. rewrite (filter_cons_False _ pr []) by (by rewrite Eown). by rewrite filter_nil, alen_nil, Z.add_0_r.
       - exists m. split; [done|]. split; [done|]. intros x ty ix Hx Hix. destruct (Hmeth x ty ix Hx Hix) as (j & q & Hj & Hq). exists j, q. split; [lia|done]. }
  assert (p_pindex pr <> HL_PROTO_TYPED_ENTRY) as Hnt.
  { intros He. unfold own_proto in Eown. rewrite He in Eown. done. }
  destruct (protos_ok _ _ _ _ Hprog o d i pr Hd Hpr Hnt) as (Hpi & mt & f & Hmt & Hf & Ha & Hr).
  assert (exists np, (if p_pindex pr >=? pa_nproto a then int_of (p_pindex pr + 1) else Some (pa_nproto a)) = Some np /\ 0 <= np) as (np & -> & Hnp').
  { destruct (p_pindex pr >=? pa_nproto a) eqn:E; zbool; [|by eexists]. rewrite int_of_Some by (unfold in_i32, INT_MIN, INT_MAX in *; lia). eexists. split; [done|lia]. }
  cbn [mbind option_bind]. rewrite Hmt. cbn [mbind option_bind].
  assert (m !! p_hashed_name pr = None) as Hfresh.
  { apply eq_None_not_Some. intros [[ty ix] Hx]. destruct (decide (0 <= ix)) as [Hix|Hix].
    - apply Hfields in Hx as (j & g & Hj & Hg & Hng & Hh & _); [|done]. exact (names_both _ _ _ _ Hprog o d j i g pr Hd Hg Hpr Hng Hnt Hh).
    - destruct (Hmeth _ _ _ Hx ltac:(lia)) as (j & q & Hj & Hq & Hqt & Hh). pose proof (names_protos _ _ _ _ Hprog o d j i q pr Hd Hq Hpr Hh Hqt Hnt). lia. }
  assert (alen (filter (fun pr => own_proto p pr = true) (take (Z.to_nat i) (o_proto d) ++ [pr])) =
    alen (filter (fun pr => own_proto p pr = true) (take (Z.to_nat i) (o_proto d))) + 1) as Hfl.
  { rewrite filter_app, alen_app. f_equal. rewrite filter_cons, decide_True by done. done. }
  assert (alen (filter (fun pr => own_proto p pr = true) (take (Z.to_nat (i + 1)) (o_proto d))) <= alen (filter (fun pr => own_proto p pr = true) (o_proto d))) as Hfle.
  { rewrite <- (take_drop (Z.to_nat (i + 1)) (o_proto d)) at 2. rewrite filter_app, alen_app.
    pose proof (alen_nonneg (filter (fun pr => own_proto p pr = true) (drop (Z.to_nat (i + 1)) (o_proto d)))). lia. }
  rewrite Htake, Hfl in Hfle. unfold count_lookup in Hcount.
  pose proof (alen_nonneg (filter (fun pr => own_proto p pr = true) (take (Z.to_nat i) (o_proto d)))).
  destruct (insert_repr (pa_lookup a) (pa_n a) m (p_hashed_name pr) mt (- (pa_nmethods a + 1)) Hrepr) as (l' & pos & -> & Hl' & _ & Hrepr');
    [unfold INT_MAX; lia|lia|done|]. cbn [mbind option_bind].
  assert (exists b, (if negb (p_hashed_name pr =? ch) then Some false else
     f ← fun_of h mt;
     if negb (alen (args f) =? 2) then Some false else
     a1 ← aget (args f) 1; k1 ← kind_of h a1;
     if negb (k1 =? HDYN) then Some false else
     kr ← kind_of h (ret f); Some (kr =? HI32)) = Some b) as [b Hb].
  { destruct (negb _); [by eexists|]. by eapply is_compare_total. }
  rewrite Hb. cbn [mbind option_bind]. eexists. split; [done|]. split; cbn [pa_lookup pa_n pa_nproto pa_nmethods].
  - by rewrite Hl'.
  - rewrite Htake, Hfl. lia.
  - lia.
  - eexists. split; [exact Hrepr'|]. split.
    + intros x ty ix Hix. rewrite lookup_insert. case_decide as Hx; [|by apply Hfields]. subst x. split; [intros [= _ <-]; lia|].
      intros He. pose proof (proj2 (Hfields _ ty ix Hix) He). congruence.
    + intros x ty ix. rewrite lookup_insert. case_decide as Hx; [subst x; intros _ _; exists i, pr; split; [lia|done]|].
      intros Hm Hix. destruct (Hmeth x ty ix Hm Hix) as (j & q & Hj & Hq). exists j, q. split; [lia|done].
Qed.

(** ** The bitmap of a class *)
Definition ptr_size_ok (k : Z) : bool :=
  implb (bool_decide (aget T_IS_PTR k = Some true)) ((k =? HPACKED) || bool_decide (aget T_SIZES k = Some 8)).
Lemma pointer_size f k : kind_of h (f_t f) = Some k -> 0 <= k < 24 -> is_packed h f = false -> hl_is_ptr h (f_t f) = Some true ->
  hl_type_size h (f_t f) = Some 8.
Proof.
  intros Hk Hr Hp Hptr. unfold hl_is_ptr, hl_type_size in *. rewrite Hk in *. cbn [mbind option_bind] in *.
  assert (ptr_size_ok k = true) as Hc by (apply all_kinds; [vm_compute; reflexivity|done]). unfold ptr_size_ok in Hc.
  rewrite (bool_decide_true _ Hptr) in Hc. simpl in Hc. apply orb_true_iff in Hc as [Hc|Hc]; [|by apply bool_decide_eq_true in Hc].
  apply Z.eqb_eq in Hc. subst k. unfold is_packed in Hp. rewrite Hk in Hp. apply bool_decide_eq_false in Hp. done.
Qed.
Lemma packed_facts st i f : built st -> aget (o_fields d) i = Some f -> is_packed h f = true -> packed_rt h st f <> None ->
  exists tp po rts d', kind_of h (f_t f) = Some HPACKED /\ tparam h (f_t f) = Some tp /\ obj_ptr h tp = Some po /\ 0 <= po < alen (objs h) /\
    st_rt st !! po = Some rts /\ packed_rt h st f = Some rts /\ rt_ok st po d' rts.
Proof.
  intros Hb Hf Hp Hne. destruct (packed_field st i f Hb Hf Hp) as (tp & po & st' & rts & Hk & Htp & Hpo & Hr & _).
  unfold packed_rt in Hne |- *. rewrite Htp in Hne |- *. cbn [mbind option_bind] in *. rewrite Hpo in Hne |- *. cbn [mbind option_bind] in *.
  destruct (st_rt st !! po) as [rts'|] eqn:E; [|done]. destruct (proj1 Hb po rts' E) as [d' Hrt]. exists tp, po, rts', d'. done.
Qed.

(** The state while the bitmap is filled: [o] has its runtime object, not its bitmap. *)
Lemma mark_loop_spec st t st1 base idx size lo hi offs mark :
  built st -> st1 = RtState (<[o:=t]> (st_rt st)) (st_marks st) -> st_rt st !! o = None -> 0 <= lo ->
  placed h st (o_fields d) offs lo hi -> hi <= size ->
  (forall i off, aget offs i = Some off -> aget idx (base + i) = Some off) -> size <= 8 * (32 * alen mark) ->
  exists mark', afor (mark_step h build d idx base) (length (o_fields d)) 0 (st1, mark) = Some (st1, mark') /\ alen mark' = alen mark /\
    forall w, 0 <= w -> mark_bit mark' w = true <->
      mark_bit mark w = true \/ exists i f off, aget (o_fields d) i = Some f /\ aget idx (base + i) = Some off /\ field_word st f off w.
Proof.
  intros Hb -> Hnew Hlo Hpl Hhi Hoffs Hsz. destruct (placed_bounds h _ _ _ _ _ Hpl) as (Hal & _ & Hin & _). set (st1 := RtState _ _).
  destruct (afor_total (mark_step h build d idx base) (fun i s => s.1 = st1 /\ alen s.2 = alen mark /\
    forall w, 0 <= w -> mark_bit s.2 w = true <-> mark_bit mark w = true \/
      exists j f off, j < i /\ aget (o_fields d) j = Some f /\ aget idx (base + j) = Some off /\ field_word st f off w)
    (length (o_fields d)) 0 (st1, mark)) as ([st2 mark'] & Hloop & Hst & Hl & Hbits).
  - split; [done|]. split; [done|]. intros w Hw. split; [by left|]. intros [?|(j & f & off & Hj & Hf & _)]; [done|]. apply aget_Some_range in Hf. lia.
  - intros i [st2 m] Hi (Hst2 & Hl & Hbits). cbn [fst snd] in Hst2, Hl, Hbits. subst st2. unfold mark_step.
    destruct (aget_is_Some (o_fields d) i) as [f Hf]; [unfold alen; lia|]. destruct (aget_is_Some offs i) as [off Hoff]; [rewrite Hal; unfold alen; lia|].
    pose proof (Hoffs i off Hoff) as Hidx. destruct (Hin i f off Hf Hoff) as (al & s & Hfa & Hap & Hfs & Hs & Hmod & Hlow & Hup).
    assert (forall w, (exists j g off', j < i + 1 /\ aget (o_fields d) j = Some g /\ aget idx (base + j) = Some off' /\ field_word st g off' w) <->
      (exists j g off', j < i /\ aget (o_fields d) j = Some g /\ aget idx (base + j) = Some off' /\ field_word st g off' w) \/ field_word st f off w) as Hsnoc.
    { intros w. split.
      - intros (j & g & off' & Hj & Hg & Hix & Hw). destruct (decide (j = i)) as [->|]; [right; congruence|left; exists j, g, off'; split; [lia|done]].
      - intros [(j & g & off' & Hj & Hg)|Hw]; [exists j, g, off'; split; [lia|done]|exists i, f, off; split; [lia|done]]. }
    rewrite Hf. cbn [mbind option_bind].
    pose proof (proj1 (Forall_aget _ _ _ _ (obj_fields_ok h _ (Forall_aget _ _ _ _ (objs_ok h Hok) Hd)) Hf)) as Hv.
    destruct (valid_kind h Hok _ Hv) as (k & Hk & Hr).
    assert (exists b, hl_is_ptr h (f_t f) = Some b) as [b Hptr].
    { unfold hl_is_ptr. rewrite Hk. cbn [mbind option_bind]. apply aget_is_Some. change (alen T_IS_PTR) with 24. lia. }
    rewrite Hptr. cbn [mbind option_bind]. destruct b; cbn [negb].
    2: { exists (st1, m). split; [done|]. split; [done|]. split; [done|]. intros w Hw. simpl. rewrite Hbits, Hsnoc by done.
         assert (~ field_word st f off w) as Hno; [|tauto]. unfold field_word. destruct (is_packed h f) eqn:Ep; [|naive_solver congruence].
         unfold is_packed in Ep. apply bool_decide_eq_true in Ep. unfold hl_is_ptr in Hptr. rewrite Ep in Hptr. done. }
    rewrite (Z.add_comm i base), Hidx. cbn [mbind option_bind]. unfold HL_WSIZE. rewrite Z.quot_div_nonneg by lia. rewrite Hk. cbn [mbind option_bind].
    destruct (is_packed h f) eqn:Ep.
    + assert (packed_rt h st f <> None) as Hne by (unfold field_size in Hfs; rewrite Ep in Hfs; by destruct (packed_rt h st f)).
      destruct (packed_facts st i f Hb Hf Ep Hne) as (tp & po & rts & d' & Hkp & Htp & Hpo & Hpr & Hrts & Hprt & Hrtok).
      rewrite Hkp in Hk. injection Hk as <-. change (HPACKED =? HPACKED) with true. cbn iota. rewrite Htp. cbn [mbind option_bind].
      assert (st_rt st1 !! po = Some rts) as Hrts1 by (simpl; rewrite lookup_insert_ne; [done|intros ->; congruence]).
      rewrite (Hcached st1 tp po Hpo Hpr) by eauto. cbn [mbind option_bind]. rewrite Hrts1. cbn [mbind option_bind].
      unfold field_size in Hfs. rewrite Ep, Hprt in Hfs. injection Hfs as <-.
      assert (forall w, field_word st f off w <-> exists nested, st_marks st !! rt_t rts = Some nested /\ 0 <= w - off / 8 < rt_size rts / 8 /\ mark_bit nested (w - off / 8) = true) as Hfw.
      { intros w. unfold field_word. rewrite Ep. split; [intros (r & n & Hr' & Hn); rewrite Hprt in Hr'; injection Hr' as <-; eauto|intros (n & Hn); by exists rts, n]. }
      change (st_marks st1) with (st_marks st). pose proof (ok_marks _ _ _ _ Hrtok) as Hm. destruct (st_marks st !! rt_t rts) as [nested|] eqn:En.
      * destruct (rt_hasPtr rts); [|done]. destruct Hm as (n & [= <-] & Hnl & _). rewrite Z.quot_div_nonneg by lia.
        destruct (nested_marks_spec nested (rt_size rts / 8) (off / 8) m) as (m' & -> & Hl' & Hb'); [rewrite Hnl; z_div|z_div|z_div|]. cbn [mbind option_bind].
        exists (st1, m'). split; [done|]. split; [done|]. split; [simpl; lia|]. intros w Hw. simpl.
        rewrite Hb', orb_true_iff, Hbits, Hsnoc, Hfw, !andb_true_iff, Z.leb_le, Z.ltb_lt by done.
        split; [intros [[[? ?] ?]|[?|?]]; [|by left|by right; left]|intros [?|[?|(n' & [= <-] & ? & ?)]]; [by right; left|by right; right|left; split; [lia|done]]].
        right. right. exists nested. split; [done|]. split; [lia|done].
      * exists (st1, m). split; [done|]. split; [done|]. split; [done|]. intros w Hw. simpl. rewrite Hbits, Hsnoc, Hfw by done.
        split; [tauto|]. intros [?|[?|(n' & ? & _)]]; [by left|by right|congruence].
    + assert (k <> HPACKED) as Hnp by (intros ->; unfold is_packed in Ep; apply bool_decide_eq_false in Ep; done).
      rewrite (proj2 (Z.eqb_neq _ _) Hnp). unfold field_size in Hfs. rewrite Ep, (pointer_size f k Hk Hr Ep Hptr) in Hfs. injection Hfs as <-.
      destruct (set_mark_spec m (off / 8)) as (m' & -> & Hl' & Hb'); [z_div|]. cbn [mbind option_bind].
      exists (st1, m'). split; [done|]. split; [done|]. split; [simpl; lia|]. intros w Hw. simpl.
      rewrite Hb', orb_true_iff, Hbits, Hsnoc, Z.eqb_eq by done. unfold field_word. rewrite Ep.
      split; [intros [?|[?|?]]; auto|intros [?|[?|[_ ?]]]; auto].
  - simpl in *. subst st2. exists mark'. split; [done|]. split; [done|]. intros w Hw. rewrite Hbits by done.
    split; (intros [?|(j & f & off & Hrest)]; [by left|right; exists j, f, off]); [tauto|].
    destruct Hrest as (Hf & Hrest). pose proof (aget_Some_range _ _ _ Hf). unfold alen in *. split; [lia|done].
Qed.

Lemma build_marks_spec st t st1 ot p base idx size lo hi offs :
  built st -> st1 = RtState (<[o:=t]> (st_rt st)) (st_marks st) -> st_rt st !! o = None -> 0 <= lo ->
  placed h st (o_fields d) offs lo hi -> hi <= size -> size <= 2 ^ 30 ->
  (forall i off, aget offs i = Some off -> aget idx (base + i) = Some off) ->
  (forall prt, p = Some prt -> exists po d', rt_ok st po d' prt /\ 0 <= rt_size prt <= size) ->
  exists mark, build_marks h build ot d p base idx size st1 = Some (RtState (st_rt st1) (<[ot:=mark]> (st_marks st1))) /\
    alen mark = ((size + 7) / 8 + 31) / 32 /\
    forall w, 0 <= w -> mark_bit mark w = true <->
      (exists prt pm, p = Some prt /\ st_marks st !! rt_t prt = Some pm /\ mark_bit pm w = true) \/
      exists i f off, aget (o_fields d) i = Some f /\ aget idx (base + i) = Some off /\ field_word st f off w.
Proof.
  intros Hb Hst1 Hnew Hlo Hpl Hhi Hmax Hoffs Hpar. pose proof (placed_bounds h _ _ _ _ _ Hpl) as (_ & Hle & _).
  unfold build_marks. destruct (hl_mark_size_spec size ltac:(lia)) as (ms & -> & Hms & _ & Hcap & Hlen & Hwords). cbn [mbind option_bind].
  assert (exists mark0, (match parent_marks st1 p, p with
         | Some pm, Some p => pms ← hl_mark_size (rt_size p); acopy (zalloc_words ms) 0 pm 0 (pms / 4)
         | _, _ => Some (zalloc_words ms) end) = Some mark0 /\ alen mark0 = ms / 4 /\
      forall w, 0 <= w -> mark_bit mark0 w = true <-> exists prt pm, p = Some prt /\ st_marks st !! rt_t prt = Some pm /\ mark_bit pm w = true) as (mark0 & Hm0 & Hl0 & Hb0).
  { rewrite Hst1. unfold parent_marks. cbn [st_marks]. destruct p as [prt|].
    2: { eexists. split; [done|]. split; [done|]. intros w Hw. rewrite mark_bit_zero. split; [done|]. by intros (? & ? & ? & _). }
    destruct (st_marks st !! rt_t prt) as [pm|] eqn:Epm.
    2: { eexists. split; [done|]. split; [done|]. intros w Hw. rewrite mark_bit_zero. split; [done|]. intros (? & ? & [= <-] & ? & _). congruence. }
    destruct (Hpar prt eq_refl) as (po & d' & Hrtok & Hps). pose proof (ok_marks _ _ _ _ Hrtok) as Hm. destruct (rt_hasPtr prt); [|congruence].
    destruct Hm as (pm' & Hpm' & Hpl' & _). rewrite Epm in Hpm'. injection Hpm' as <-.
    destruct (hl_mark_size_spec (rt_size prt) ltac:(lia)) as (pms & -> & Hpms & _ & _ & _ & Hpw). cbn [mbind option_bind]. rewrite <- Hpw in Hpl'.
    assert (pms / 4 <= ms / 4) by (rewrite Hpw, Hwords; apply Z.div_le_mono; [lia|]; apply Z.add_le_mono_r, Z.div_le_mono; lia).
    assert (0 <= pms / 4) by (apply Z.div_pos; lia).
    destruct (acopy_total (zalloc_words ms) 0 pm 0 (pms / 4)) as (m & Hm & Hml & Hg); try lia. exists m. split; [done|]. split; [lia|].
    intros w Hw. assert (0 <= w / 32) by (apply Z.div_pos; lia). assert (mark_bit m w = mark_bit pm w) as ->.
    { unfold mark_bit. rewrite Hg. case_decide; [by replace (0 + (w / 32 - 0)) with (w / 32) by lia|].
      pose proof (mark_bit_zero ms w) as Hz. unfold mark_bit in Hz. rewrite Hz. destruct (aget pm (w / 32)) as [x|] eqn:E; [|done].
      apply aget_Some_range in E. lia. }
    split; [intros ?; by exists prt, pm|]. intros (? & ? & [= <-] & Hpm & ?). rewrite Epm in Hpm. by injection Hpm as <-. }
  rewrite Hm0. cbn [mbind option_bind].
  destruct (mark_loop_spec st t st1 base idx size lo hi offs mark0 Hb Hst1 Hnew Hlo Hpl Hhi Hoffs) as (mark & -> & Hl & Hbits); [rewrite Hl0; lia|].
  cbn [mbind option_bind]. exists mark. split; [done|]. split; [lia|]. intros w Hw. by rewrite Hbits, Hb0.
Qed.
End class.

(** ** Growing states keep what is built *)
Lemma own_packed st o d rt i f : rt_ok st o d rt -> aget (o_fields d) i = Some f -> is_packed h f = true -> exists rts, packed_rt h st f = Some rts.
Proof.
  intros Hrt Hf Hp. destruct (ok_placed _ _ _ _ Hrt) as (offs & Hpl & _). destruct (placed_bounds h _ _ _ _ _ Hpl) as (Hl & _ & Hin & _).
  pose proof (aget_Some_range _ _ _ Hf). destruct (aget_is_Some offs i) as [off Hoff]; [lia|].
  destruct (Hin i f off Hf Hoff) as (_ & s & _ & _ & Hs & _). unfold field_size in Hs. rewrite Hp in Hs. destruct (packed_rt h st f) as [rts|]; [by exists rts|done].
Qed.
Lemma field_same st st' f : extends st st' -> (is_packed h f = true -> exists rts, packed_rt h st f = Some rts) ->
  field_size h st' f = field_size h st f /\ field_align h st' f = field_align h st f /\ field_hasptr h st' f = field_hasptr h st f /\
  forall off w, field_word st' f off w <-> field_word st f off w.
Proof.
  intros He Hp. unfold field_size, field_align, field_hasptr, field_word. destruct (is_packed h f); [|done].
  destruct (Hp eq_refl) as [rts Hrts]. rewrite Hrts, (packed_rt_mono h _ _ _ _ He Hrts). split_and!; try done. intros off w.
  assert (st_marks st' !! rt_t rts = st_marks st !! rt_t rts) as Hm.
  { unfold packed_rt in Hrts. destruct (tparam h (f_t f)) as [tp|]; [|done]. cbn [mbind option_bind] in Hrts. destruct (obj_ptr h tp) as [po|]; [|done].
    by apply (proj2 He po). }
  split; intros (r & n & [= <-] & Hn & Hrest); exists rts, n; (split; [done|]); (split; [congruence|done]).
Qed.
Lemma base_same st st' o d rt : extends st st' -> rt_ok st o d rt -> base_of st' rt = base_of st rt.
Proof.
  intros He Hrt. unfold base_of. pose proof (ok_parent _ _ _ _ Hrt) as Hp. destruct (o_super d) as [s|].
  - destruct Hp as (po & _ & -> & [prt Hprt]). by rewrite Hprt, (lookup_weaken _ _ _ _ Hprt (proj1 He)).
  - by rewrite Hp.
Qed.
Lemma pointer_word_same st st' o d rt base idx w : extends st st' -> rt_ok st o d rt ->
  pointer_word st' d (rt_parent rt) base idx w <-> pointer_word st d (rt_parent rt) base idx w.
Proof.
  intros He Hrt. unfold pointer_word. apply Morphisms_Prop.or_iff_morphism.
  - unfold parent_word. pose proof (ok_parent _ _ _ _ Hrt) as Hp. destruct (o_super d) as [s|].
    + destruct Hp as (po & _ & -> & [prt Hprt]). pose proof (lookup_weaken _ _ _ _ Hprt (proj1 He)) as Hprt'. pose proof (proj2 He po prt Hprt) as Hm.
      split; intros (po' & prt' & pm & [= <-] & Hx & Hpm & Hw); exists po, prt, pm; (split; [done|]); (split; [done|]); (split; [congruence|done]).
    + rewrite Hp. split; by intros (? & ? & ? & ? & _).
  - split; intros (i & f & off & Hf & Hoff & Hw); exists i, f, off; (split; [done|]); (split; [done|]); apply (field_same st st' f He); try done; intros Ep; by eapply own_packed.
Qed.
Lemma rt_ok_mono st st' o d rt : extends st st' -> st_rt st !! o = Some rt -> rt_ok st o d rt -> rt_ok st' o d rt.
Proof.
  intros He Ho Hrt. pose proof (base_same _ _ _ _ _ He Hrt) as Hbase.
  assert (forall i f, aget (o_fields d) i = Some f -> is_packed h f = true -> exists rts, packed_rt h st f = Some rts) as Hown by (intros; by eapply own_packed).
  pose proof Hrt as []. split; rewrite ?Hbase; try done.
  - destruct (o_super d); [|done]. destruct ok_parent0 as (po & ? & ? & [prt Hprt]). exists po. split; [done|]. split; [done|].
    exists prt. by eapply lookup_weaken; [|apply He].
  - intros p prt i Hp Hprt Hi. apply ok_prefix0 with p; try done. destruct (o_super d); [|congruence].
    destruct ok_parent0 as (po & _ & Hpo & [prt' Hprt']). rewrite Hp in Hpo. injection Hpo as ->. pose proof (lookup_weaken _ _ _ _ Hprt' (proj1 He)). congruence.
  - destruct ok_placed0 as (offs & Hpl & Hoffs). exists offs. split; [by eapply placed_mono|done].
  - intros i f a s Hf Ha Hs. destruct (field_same st st' f He (Hown i f Hf)) as (H1 & H2 & _). rewrite H1 in Hs. rewrite H2 in Ha. by eapply ok_aligns0.
  - rewrite ok_hasptr0. split; (intros [?|(i & f & Hf & Hp)]; [by left|right; exists i, f; split; [done|]]);
      destruct (field_same st st' f He (Hown i f Hf)) as (_ & _ & H3 & _); congruence.
  - destruct (rt_hasPtr rt); [|by rewrite (proj2 He o rt Ho)]. destruct ok_marks0 as (mark & Hm & Hl & Hw). exists mark. rewrite (proj2 He o rt Ho).
    split; [done|]. split; [done|]. intros w Hw0. rewrite Hw by done. symmetry. by eapply pointer_word_same.
Qed.

(** ** The computation *)
Lemma binding_found_total fuel : forall pp fid, (forall o, pp = Some o -> 0 <= o < alen (objs h) /\ (crank o < fuel)%nat) ->
  exists b, binding_found h fuel pp fid = Some b.
Proof.
  induction fuel as [|fuel IH]; intros [o|] fid Hpp; try (by eexists); destruct (Hpp o eq_refl) as [Ho Hr]; [lia|].
  simpl. destruct (aget_is_Some _ _ Ho) as [d Hd]. rewrite Hd. cbn [mbind option_bind]. destruct (existsb _ _); [by eexists|].
  destruct (o_super d) as [s|] eqn:Es; [|by eexists]. destruct (super_obj h Hok o d s Hd Es) as (o1 & Ho1 & Hv1). rewrite Ho1. cbn [mbind option_bind].
  apply IH. intros o2 [= <-]. split; [done|]. pose proof (rank_super _ _ _ _ Hprog o d s o1 Hd Es Ho1). lia.
Qed.
Lemma count_bindings_total prt d : (forall p, prt = Some p -> exists po, obj_ptr h (rt_t p) = Some po /\ 0 <= po < alen (objs h)) ->
  exists n, count_bindings h prt d = Some n.
Proof.
  intros Hp. unfold count_bindings. destruct prt as [p|]; [|by eexists]. destruct (Hp p eq_refl) as (po & Hpo & Hr). rewrite Hpo. cbn [mbind option_bind].
  destruct (mapM_is_Some (fun b : Z * Z => binding_found h (S (length (objs h))) (Some po) b.1) (o_bindings d)) as [l ->]; [|by eexists].
  apply Forall_forall. intros b _. apply binding_found_total. intros o [= <-]. split; [done|]. pose proof (rank_bound _ _ _ _ Hprog po). lia.
Qed.
Lemma costs_count o d : aget (objs h) o = Some d -> alen (o_fields d) <= costs h B (o_fields d).
Proof.
  intros Hd. assert (forall fs, (forall f, In f fs -> exists i, aget (o_fields d) i = Some f) -> alen fs <= costs h B fs) as Hc.
  { induction fs as [|f fs IHf]; intros Hin; [done|]. rewrite alen_cons. pose proof (IHf ltac:(intros g Hg; apply Hin; by right)).
    destruct (Hin f ltac:(by left)) as [i Hi]. pose proof (field_cost_pos o d Hd i f Hi). simpl. lia. }
  apply Hc. intros f Hf. apply list_elem_of_In, list_elem_of_lookup in Hf as [i Hi]. exists (Z.of_nat i). by rewrite aget_nat.
Qed.
Definition compare_hash : Z := Eval vm_compute in match compareHash with Some c => c | None => 0 end.
Lemma compareHash_val : compareHash = Some compare_hash.
Proof. vm_compute. reflexivity. Qed.

(** The parent of a class, built. *)
Definition parent_rt (st : rt_state) (d : hl_type_obj) (p : option (Z * hl_runtime_obj)) : Prop :=
  match o_super d, p with
  | None, None => True
  | Some s, Some (po, prt) => obj_ptr h s = Some po /\ 0 <= po < alen (objs h) /\ st_rt st !! po = Some prt
  | _, _ => False
  end.
Lemma base_facts st o d kt p : built st -> aget (objs h) o = Some d -> parent_rt st d p ->
  0 <= base_fields p /\ base_fields p <= base_bound h B d /\ 0 <= base_size kt p <= base_bound h B d /\ alignment (base_largest kt p).
Proof.
  intros Hb Hd Hp. unfold parent_rt in Hp. unfold base_bound, base_fields, base_largest, base_size. destruct (o_super d) as [s|], p as [[po prt]|]; try done.
  - destruct Hp as (Hpo & Hr & Hprt). rewrite Hpo. destruct (proj1 Hb po prt Hprt) as [d' Hrt].
    destruct (ok_size _ _ _ _ Hrt) as (_ & H1 & H2). destruct (ok_nfields _ _ _ _ Hrt) as [H3 H4]. pose proof (ok_pad _ _ _ _ Hrt). pose proof (ok_base _ _ _ _ Hrt).
    destruct (ok_placed _ _ _ _ Hrt) as (offs & Hpl & _). destruct (placed_bounds h _ _ _ _ _ Hpl) as (_ & Hle & _). destruct (ok_largest _ _ _ _ Hrt) as [? _].
    pose proof (alen_nonneg (o_fields d')). split; [lia|]. split; [lia|]. split; [lia|done].
  - unfold HL_WSIZE, alignment, pow2_8. destruct (kt =? HSTRUCT); lia.
Qed.
Lemma align_up_mono lo hi a b : 0 < a -> 0 < b -> (a | b) -> lo <= hi -> align_up lo a <= align_up hi b.
Proof.
  intros Ha Hb [q ->] Hle. destruct (align_up_spec lo a Ha) as [H1 H2]. destruct (align_up_spec hi (q * a) Hb) as [H3 H4].
  apply Z.mod_divide in H2 as [x Hx]; [|lia]. apply Z.mod_divide in H4 as [y Hy]; [|lia].
  rewrite Hx in H1 |- *. rewrite Hy in H3 |- *. enough (x <= y * q) by nia. nia.
Qed.
End build.
