(* ===== verification/LayoutClass.v ===== *)
(** * Building the runtime object of a class

    The loops of [hl_get_obj_rt] put together: every class of a well-formed program
    gets a runtime object, and every object built is laid out soundly. *)
From S2P Require Import Prelude DataStruct Ustr Buffer Lookup Reader Types TypesProps TypesText Layout LayoutProps.

(** ** The final size *)
Lemma final_size size largest : 0 <= size <= 2 ^ 28 -> alignment largest ->
  let pad := if largest >? 0 then Z.rem size largest else 0 in
  let pad_size := if negb (pad =? 0) then u8 (largest - pad) else 0 in
  0 <= pad_size < 8 /\ int_of (size + pad_size) = Some (size + pad_size) /\ u8 largest = largest /\
  (0 < largest -> size + pad_size = align_up size largest) /\ (largest = 0 -> pad_size = 0).
Proof.
  intros Hs Hl pad pad_size. change (2 ^ 28) with 268435456 in Hs. assert (0 <= largest <= 8) as Hl8 by (unfold alignment, pow2_8 in Hl; lia).
  assert (0 <= pad_size < 8 /\ (0 < largest -> size + pad_size = align_up size largest) /\ (largest = 0 -> pad_size = 0)) as (H1 & H2 & H3).
  { unfold pad_size, pad. destruct (decide (largest = 0)) as [->|Hne]; [split; [|split]; simpl; lia|].
    rewrite (proj2 (Z.gtb_lt _ _)) by lia. pose proof (align_up_rem size largest ltac:(lia) ltac:(lia)) as Ha. rewrite Ha.
    rewrite Z.rem_mod_nonneg in * by lia. pose proof (Z.mod_pos_bound size largest ltac:(lia)). destruct (size mod largest =? 0) eqn:E; zbool; cbn [negb].
    - split; [lia|]. split; lia.
    - assert (u8 (largest - size mod largest) = largest - size mod largest) as -> by (unfold uN; apply Z.mod_small; lia). split; [lia|]. split; lia. }
  split; [done|]. split; [apply int_of_Some; unfold in_i32, INT_MIN, INT_MAX; lia|]. split; [unfold uN; apply Z.mod_small; lia|done].
Qed.

Section finish.
Context (h : heap) (functions_types : Z -> list Z) (junk : hl_field_lookup Z) (crank : Z -> nat) (B : Z -> Z).
Context (Hprog : program_ok h functions_types crank B).
Context (o : Z) (d : hl_type_obj) (Hd : aget (objs h) o = Some d).
Context (build : rt_state -> Z -> option (rt_state * Z)).
Context (Hbuild : forall st tp po, obj_ptr h tp = Some po -> 0 <= po < alen (objs h) -> (crank po < crank o)%nat -> built h B st ->
  exists st', build st tp = Some (st', po) /\ built h B st' /\ grows crank (crank o) st st' /\ is_Some (st_rt st' !! po)).
Context (Hcached : forall st tp po, obj_ptr h tp = Some po -> 0 <= po < alen (objs h) -> is_Some (st_rt st !! po) -> build st tp = Some (st, po)).
Context (st0 : rt_state) (p : option (Z * hl_runtime_obj)) (ot kt : Z).
Context (Hb : built h B st0) (Hp : parent_rt h st0 d p) (Hot : obj_ptr h ot = Some o) (Hkt : kind_of h ot = Some kt).
Let base := base_fields p.
Let nl := count_lookup (snd <$> p) d.

Lemma parent_facts prt : snd <$> p = Some prt -> exists po d', p = Some (po, prt) /\ st_rt st0 !! po = Some prt /\ rt_ok h B st0 po d' prt /\ obj_ptr h (rt_t prt) = Some po /\ 0 <= po < alen (objs h).
Proof.
  intros Hprt. destruct p as [[po prt']|]; [|done]. injection Hprt as ->. unfold parent_rt in Hp. destruct (o_super d); [|done].
  destruct Hp as (Hpo & Hr & Hprt). destruct (proj1 Hb po prt Hprt) as [d' Hrt]. exists po, d'. split; [done|]. split; [done|]. split; [done|].
  split; [exact (ok_type _ _ _ _ _ _ Hrt)|done].
Qed.
Lemma table_size : alen (o_fields d) <= nl <= 2 ^ 29.
Proof.
  unfold nl, count_lookup. pose proof (size_bound _ _ _ _ Hprog o d Hd). pose proof (few_protos _ _ _ _ Hprog o d Hd).
  pose proof (costs_count h functions_types crank B Hprog o d Hd). destruct (base_facts h B st0 o d kt p Hb Hd Hp) as (? & ? & _).
  match goal with |- context [filter ?P ?l] => pose proof (length_filter P l) as Hf; pose proof (alen_nonneg (filter P l)) end.
  unfold alen in *. change (2 ^ 29) with 536870912. change (2 ^ 28) with 268435456 in *. lia.
Qed.
Lemma fields_loop idx0 : alen idx0 = base + alen (o_fields d) ->
  exists a, afor (field_step h build d base) (length (o_fields d)) 0
      (FieldAcc st0 (base_size kt p) (base_largest kt p) (base_hasptr p) idx0 (replicate (Z.to_nat nl) junk) 0 nl) = Some a /\
    fields_inv h crank B o d st0 base (base_size kt p) (base_largest kt p) nl (base_hasptr p) idx0 (alen (o_fields d)) a.
Proof.
  intros Hidx. pose proof (size_bound _ _ _ _ Hprog o d Hd). destruct (base_facts h B st0 o d kt p Hb Hd Hp) as (Hbf & Hbb & Hbs & Hbl). pose proof table_size as Hnl.
  apply afor_total.
  - split; cbn [fa_st fa_size fa_largest fa_hasPtr fa_indexes fa_lookup fa_n fa_nlookup].
    + split; [done|apply grows_refl].
    + exists []. split; [constructor|]. intros j off Hj. apply aget_Some_range in Hj. unfold alen in Hj; simpl in Hj; lia.
    + done.
    + done.
    + simpl. lia.
    + done.
    + lia.
    + split; [by left|]. intros [?|(j & f & Hj & _)]; [done|lia].
    + lia.
    + split; [rewrite alen_replicate; unfold alen in *; lia|]. split; [lia|]. split; [lia|]. exists ∅. split; [apply lookup_empty_repr|].
      intros x ty ix. rewrite lookup_empty. split; [done|]. intros (j & f & Hj & _). lia.
  - intros i a Hi Ha. apply fields_inv_step with functions_types; try done; lia.
Qed.
Lemma protos_loop a idx0 ch : fields_inv h crank B o d st0 base (base_size kt p) (base_largest kt p) nl (base_hasptr p) idx0 (alen (o_fields d)) a ->
  exists pa, afor (proto_step h functions_types o ch (snd <$> p) d) (length (o_proto d)) 0
      (ProtoAcc (fa_lookup a) (fa_n a) (match snd <$> p with Some p => rt_nmethods p | None => 0 end)
        (match snd <$> p with Some p => rt_nproto p | None => 0 end) None) = Some pa /\
    protos_inv d (snd <$> p) base nl (fa_n a) (fa_indexes a) (alen (o_proto d)) pa.
Proof.
  intros Ha. destruct (fi_table _ _ _ _ _ _ _ _ _ _ _ _ _ _ Ha) as (Hl & Hn & Hnlk & m & Hm & Hentry).
  destruct (base_facts h B st0 o d kt p Hb Hd Hp) as (Hbf & Hbb & Hbs & Hbl).
  destruct (fi_placed _ _ _ _ _ _ _ _ _ _ _ _ _ _ Ha) as (offs & Hpl & Hoffs). rewrite take_ge in Hpl by (unfold alen; lia).
  destruct (placed_bounds h _ _ _ _ _ Hpl) as (Halen & _ & Hin & _).
  assert (forall x ty ix, field_entry d base (alen (o_fields d)) (fa_indexes a) x ty ix -> 0 <= ix) as Hpos.
  { intros x ty ix (j & f & Hj & Hf & _ & _ & _ & Hix). destruct (aget_is_Some offs j) as [off Hoff]; [lia|].
    rewrite (Hoffs j off Hoff) in Hix. injection Hix as <-. destruct (Hin j f off Hf Hoff) as (? & ? & ? & ? & ? & ? & ? & ? & ?). lia. }
  apply afor_total.
  - split; cbn [pa_lookup pa_n pa_nproto pa_nmethods].
    + done.
    + rewrite take_0, filter_nil, alen_nil. lia.
    + destruct (snd <$> p) as [prt|] eqn:E; [|lia]. destruct (parent_facts prt E) as (po & d' & _ & _ & Hrt & _). destruct (ok_counts _ _ _ _ _ _ Hrt). lia.
    + exists m. split; [done|]. split; [intros x ty ix _; apply Hentry|]. intros x ty ix Hx Hneg. apply Hentry, Hpos in Hx. lia.
  - intros i pa Hi Hpa. pose proof table_size. apply (protos_inv_step h functions_types crank B Hprog o d Hd (snd <$> p) base nl (fa_n a) (fa_indexes a) ch i pa); try done; unfold alen in *; lia.
Qed.

(** ** The new object *)
Lemma base_of_new st rt : extends st0 st -> rt_t rt = ot -> rt_parent rt = fst <$> p ->
  base_of h st rt = (base, base_size kt p, base_largest kt p, base_hasptr p).
Proof.
  intros He Ht Hpar. unfold base_of, base, base_fields, base_size, base_largest, base_hasptr, base_size. rewrite Hpar, Ht, Hkt.
  unfold parent_rt in Hp. destruct (o_super d) as [s|], p as [[po prt]|]; try done.
  - destruct Hp as (_ & _ & Hprt). simpl. by rewrite (lookup_weaken _ _ _ _ Hprt (proj1 He)).
  - simpl. destruct (Z.eqb_spec kt HSTRUCT) as [->|Hne]; repeat case_decide; first [done|congruence].
Qed.
Lemma parent_of_new st : extends st0 st -> match o_super d with
    | None => fst <$> p = None
    | Some s => exists po, obj_ptr h s = Some po /\ fst <$> p = Some po /\ is_Some (st_rt st !! po)
    end.
Proof.
  intros He. unfold parent_rt in Hp. destruct (o_super d) as [s|], p as [[po prt]|]; try done. destruct Hp as (Hpo & _ & Hprt). exists po.
  split; [done|]. split; [done|]. exists prt. by eapply lookup_weaken; [|apply He].
Qed.
Context (a : field_acc) (idx0 : list Z) (pa : proto_acc).
Context (Ha : fields_inv h crank B o d st0 base (base_size kt p) (base_largest kt p) nl (base_hasptr p) idx0 (alen (o_fields d)) a).
Context (Hpa : protos_inv d (snd <$> p) base nl (fa_n a) (fa_indexes a) (alen (o_proto d)) pa).
Context (Hidx0 : forall prt i, snd <$> p = Some prt -> 0 <= i < base -> aget idx0 i = aget (rt_fields_indexes prt) i).
Context (pad_size nbindings : Z) (compare : option Z).
Context (Hpad : 0 <= pad_size < 8) (Hal : 0 < fa_largest a -> fa_size a + pad_size = align_up (fa_size a) (fa_largest a)) (Hal0 : fa_largest a = 0 -> pad_size = 0).
Let rt := RuntimeObj ot (alen (o_fields d) + base) (pa_nproto pa) (fa_size a + pad_size) (pa_nmethods pa) nbindings pad_size (fa_largest a)
             (fa_hasPtr a) (fa_indexes a) (fst <$> p) compare (fa_nlookup a) (pa_lookup pa).

Lemma own_offsets : exists offs, placed h (fa_st a) (o_fields d) offs (base_size kt p) (fa_size a) /\
  forall j off, aget offs j = Some off -> aget (fa_indexes a) (base + j) = Some off.
Proof.
  destruct (fi_placed _ _ _ _ _ _ _ _ _ _ _ _ _ _ Ha) as (offs & Hpl & Hoffs). rewrite take_ge in Hpl by (unfold alen; lia). by exists offs.
Qed.
Lemma class_size : 0 <= base /\ 0 <= base_size kt p <= fa_size a /\ fa_size a + pad_size <= B o /\ B o <= 2 ^ 28 /\ alen (o_fields d) + base <= B o.
Proof.
  pose proof (size_bound _ _ _ _ Hprog o d Hd). destruct (base_facts h B st0 o d kt p Hb Hd Hp) as (Hbf & Hbb & Hbs & Hbl).
  pose proof (fi_size _ _ _ _ _ _ _ _ _ _ _ _ _ _ Ha) as Hs. rewrite take_ge in Hs by (unfold alen; lia).
  destruct own_offsets as (offs & Hpl & _). destruct (placed_bounds h _ _ _ _ _ Hpl) as (_ & Hle & _).
  pose proof (costs_count h functions_types crank B Hprog o d Hd). unfold base in *. lia.
Qed.
Lemma own_packed_fields i f : aget (o_fields d) i = Some f -> is_packed h f = true -> exists rts, packed_rt h (fa_st a) f = Some rts.
Proof.
  intros Hf Hpk. pose proof (aget_Some_range _ _ _ Hf). destruct (fi_total _ _ _ _ _ _ _ _ _ _ _ _ _ _ Ha i f ltac:(lia) Hf) as (al & s & b & _ & Hs & _).
  unfold field_size in Hs. rewrite Hpk in Hs. destruct (packed_rt h (fa_st a) f) as [rts|]; [by exists rts|done].
Qed.

(** The object is sound in a state [st] with the bitmap of the class, if it has one. *)
Definition marks_done (st : rt_state) : Prop :=
  if fa_hasPtr a then exists mark, st_marks st !! ot = Some mark /\ alen mark = ((fa_size a + pad_size + 7) / 8 + 31) / 32 /\
    forall w, 0 <= w -> mark_bit mark w = true <-> pointer_word h (fa_st a) d (fst <$> p) base (fa_indexes a) w
  else st_marks st !! ot = None.
Lemma parent_largest : base_largest kt p <= fa_largest a.
Proof. apply (fi_largest _ _ _ _ _ _ _ _ _ _ _ _ _ _ Ha). Qed.
Lemma parent_word_same st w : extends (fa_st a) st -> parent_word st (fst <$> p) w <-> parent_word (fa_st a) (fst <$> p) w.
Proof.
  intros He. pose proof (proj1 (proj2 (fi_built _ _ _ _ _ _ _ _ _ _ _ _ _ _ Ha))) as He0.
  unfold parent_word. pose proof parent_facts as Hpf. destruct p as [[po prt]|]; [|split; by intros (? & ? & ? & ? & _)].
  destruct (Hpf prt eq_refl) as (po' & d' & Hpo & Hprt & _). injection Hpo as <-.
  pose proof (lookup_weaken _ _ _ _ Hprt (proj1 He0)) as Hprt1. pose proof (lookup_weaken _ _ _ _ Hprt1 (proj1 He)) as Hprt2.
  pose proof (proj2 He po prt Hprt1) as Hm. simpl.
  split; intros (po1 & prt1 & pm & [= <-] & Hx & Hpm & Hw); exists po, prt, pm; (split; [done|]); (split; [done|]); (split; [congruence|done]).
Qed.
Lemma new_rt_ok st : extends (fa_st a) st -> marks_done st -> rt_ok h B st o d rt.
Proof.
  intros He Hmarks. pose proof (proj1 (proj2 (fi_built _ _ _ _ _ _ _ _ _ _ _ _ _ _ Ha))) as He0.
  assert (extends st0 st) as Hext by (by etrans). pose proof (base_of_new st rt Hext eq_refl eq_refl) as Hbase.
  destruct class_size as (Hbf & Hbs & Hsz & HB & Hnf). destruct own_offsets as (offs & Hpl & Hoffs).
  destruct (placed_bounds h _ _ _ _ _ Hpl) as (Halen & Hle & Hin & _).
  assert (forall i f, aget (o_fields d) i = Some f -> field_size h st f = field_size h (fa_st a) f /\ field_align h st f = field_align h (fa_st a) f /\
    field_hasptr h st f = field_hasptr h (fa_st a) f /\ forall off w, field_word h st f off w <-> field_word h (fa_st a) f off w) as Hsame.
  { intros i f Hf. apply field_same; [done|]. by apply own_packed_fields with i. }
  split; rewrite ?Hbase; cbn [fst snd rt rt_t rt_nfields rt_nproto rt_size rt_nmethods rt_pad_size rt_largest_field rt_hasPtr rt_fields_indexes rt_parent rt_nlookup rt_lookup].
  - done.
  - done.
  - by apply parent_of_new.
  - lia.
  - rewrite (fi_len _ _ _ _ _ _ _ _ _ _ _ _ _ _ Ha). lia.
  - intros po prt i Hpo Hprt Hi. assert (p = Some (po, prt)) as E.
    { apply fmap_Some in Hpo as ([po' prt'] & E & ->). cbn [fst] in *. destruct (parent_facts prt') as (po1 & d' & Hpo1 & Hprt' & _); [by rewrite E|].
      rewrite E in Hpo1. injection Hpo1 as <-. pose proof (lookup_weaken _ _ _ _ Hprt' (proj1 Hext)). congruence. }
    assert (base = rt_nfields prt) as Hbn by (unfold base, base_fields; by rewrite E).
    rewrite (fi_prefix _ _ _ _ _ _ _ _ _ _ _ _ _ _ Ha) by lia. apply Hidx0; [rewrite E; reflexivity|lia].
  - exists offs. replace (fa_size a + pad_size - pad_size) with (fa_size a) by lia. split; [by apply (placed_mono h (fa_st a))|done].
  - lia.
  - split; [apply (fi_largest _ _ _ _ _ _ _ _ _ _ _ _ _ _ Ha)|apply parent_largest].
  - intros i f al s Hf Hfa Hfs Hs. destruct (Hsame i f Hf) as (H1 & H2 & _). rewrite H1 in Hfs. rewrite H2 in Hfa. pose proof (aget_Some_range _ _ _ Hf).
    apply (fi_aligns _ _ _ _ _ _ _ _ _ _ _ _ _ _ Ha i f al s); try done; lia.
  - done.
  - exact (pi_counts _ _ _ _ _ _ _ _ Hpa).
  - split; [|lia]. intros Hl. rewrite Hal by done. by apply align_up_spec.
  - replace (fa_size a + pad_size - pad_size) with (fa_size a) by lia. done.
  - rewrite (fi_hasptr _ _ _ _ _ _ _ _ _ _ _ _ _ _ Ha). split; (intros [?|(i & f & Hrest)]; [by left|right; exists i, f]).
    + destruct Hrest as (_ & Hf & Hfp). split; [done|]. destruct (Hsame i f Hf) as (_ & _ & H3 & _). congruence.
    + destruct Hrest as (Hf & Hfp). pose proof (aget_Some_range _ _ _ Hf). split; [lia|]. split; [done|]. destruct (Hsame i f Hf) as (_ & _ & H3 & _). congruence.
  - unfold marks_done in Hmarks. destruct (fa_hasPtr a); [|done]. destruct Hmarks as (mark & Hm & Hl & Hw). exists mark. split; [done|]. split; [done|].
    intros w Hw0. rewrite Hw by done. unfold pointer_word. apply Morphisms_Prop.or_iff_morphism; [symmetry; by apply parent_word_same|].
    split; intros (i & f & off & Hf & Hoff & Hfw); exists i, f, off; (split; [done|]); (split; [done|]); by apply (Hsame i f Hf).
  - destruct (fi_table _ _ _ _ _ _ _ _ _ _ _ _ _ _ Ha) as (Hl & Hn & Hnlk & _). destruct (pi_table _ _ _ _ _ _ _ _ Hpa) as (m & Hm & Hfields & Hmeth).
    exists m. split.
    { pose proof (pi_n _ _ _ _ _ _ _ _ Hpa) as Hpn. rewrite take_ge in Hpn by (unfold alen; lia). unfold nl, count_lookup in Hnlk.
      replace (fa_nlookup a) with (pa_n pa) by lia. done. }
    split; [rewrite (pi_len _ _ _ _ _ _ _ _ Hpa); apply table_size|]. split.
    + intros i f off Hf Hnf' Hoff. pose proof (aget_Some_range _ _ _ Hf). apply Hfields.
      * destruct (aget_is_Some offs i) as [off' Hoff']; [lia|]. rewrite (Hoffs i off' Hoff') in Hoff. injection Hoff as <-.
        destruct (Hin i f off' Hf Hoff') as (? & ? & ? & ? & ? & ? & ? & ? & ?). lia.
      * exists i, f. split; [lia|done].
    + intros x ty ix Hx Hix. apply Hfields in Hx as (i & f & _ & Hf & Hnf' & Hh & Hty & Hix'); [|done]. by exists i, f.
Qed.
Lemma parent_fits prt : snd <$> p = Some prt -> exists po d', rt_ok h B (fa_st a) po d' prt /\ 0 <= rt_size prt <= fa_size a + pad_size.
Proof.
  intros Hprt. destruct (parent_facts prt Hprt) as (po & d' & E & Hpo & Hrt & _).
  pose proof (proj1 (proj2 (fi_built _ _ _ _ _ _ _ _ _ _ _ _ _ _ Ha))) as He0. exists po, d'. split; [by apply (rt_ok_mono h B st0)|].
  destruct class_size as (_ & Hsz & _). pose proof parent_largest as Hpl. unfold base_size, base_largest in Hsz, Hpl. rewrite E in Hsz, Hpl.
  destruct (fi_largest _ _ _ _ _ _ _ _ _ _ _ _ _ _ Ha) as [Hfl _]. destruct (ok_largest _ _ _ _ _ _ Hrt) as [Hprl _].
  pose proof (ok_pad _ _ _ _ _ _ Hrt). destruct (ok_align_up _ _ _ _ _ _ Hrt) as [Hau Hz].
  destruct Hprl as [Hzero|Hpow]; [rewrite (Hz Hzero) in *; lia|]. split; [lia|].
  assert (0 < rt_largest_field prt) as Hpos by (unfold pow2_8 in Hpow; lia). assert (pow2_8 (fa_largest a)) as Hpow' by (destruct Hfl; [lia|done]).
  rewrite Hau, Hal by lia. apply align_up_mono; [done|lia|by apply pow2_divide|lia].
Qed.
Lemma add_class st : st_rt (fa_st a) !! o = None -> st_rt st = <[o:=rt]> (st_rt (fa_st a)) ->
  (forall t, t <> ot -> st_marks st !! t = st_marks (fa_st a) !! t) -> marks_done st ->
  built h B st /\ grows crank (S (crank o)) st0 st /\ is_Some (st_rt st !! o).
Proof.
  intros Hnew Hst Hmarks Hdone. destruct (fi_built _ _ _ _ _ _ _ _ _ _ _ _ _ _ Ha) as [[Hbr Hbm] [He0 Hg0]].
  assert (extends (fa_st a) st) as He.
  { split; [rewrite Hst; by apply insert_subseteq|]. intros o' rt' Ho'. apply Hmarks. intros Ht.
    destruct (Hbr o' rt' Ho') as [d' Hrt]. pose proof (ok_type _ _ _ _ _ _ Hrt) as Hty. rewrite Ht, Hot in Hty. injection Hty as <-. congruence. }
  split; [split|split; [split; [by etrans|]|]].
  - intros o' rt' Ho'. destruct (decide (o' = o)) as [->|Hne].
    + rewrite Hst, lookup_insert_eq in Ho'. injection Ho' as <-. exists d. by apply new_rt_ok.
    + rewrite Hst, lookup_insert_ne in Ho' by done. destruct (Hbr o' rt' Ho') as [d' Hrt]. exists d'. by apply (rt_ok_mono h B (fa_st a)).
  - intros t m Ht. rewrite Hst. destruct (decide (t = ot)) as [->|Hne].
    + exists o. split; [done|]. rewrite lookup_insert_eq. by eexists.
    + rewrite Hmarks in Ht by done. destruct (Hbm t m Ht) as (o' & Ho' & Hs). exists o'. split; [done|]. apply lookup_insert_is_Some'. by right.
  - intros o' Ho'. rewrite Hst, lookup_insert_ne by (intros ->; lia). apply Hg0. lia.
  - rewrite Hst, lookup_insert_eq. by eexists.
Qed.
End finish.

Section compute.
Context (h : heap) (functions_types : Z -> list Z) (junk : hl_field_lookup Z) (crank : Z -> nat) (B : Z -> Z).
Context (Hprog : program_ok h functions_types crank B).
Let Hok : heap_ok h := prog_heap _ _ _ _ Hprog.

Lemma obj_ptr_kind ot o : obj_ptr h ot = Some o -> exists k, kind_of h ot = Some k.
Proof. unfold obj_ptr, kind_of. destruct (type_at h ot); [by eexists|done]. Qed.

(** A class whose parent is built gets a sound runtime object. *)
Lemma build_class_ok build ot o d st p : aget (objs h) o = Some d -> obj_ptr h ot = Some o -> built h B st -> st_rt st !! o = None ->
  parent_rt h st d p ->
  (forall st tp po, obj_ptr h tp = Some po -> 0 <= po < alen (objs h) -> (crank po < crank o)%nat -> built h B st ->
    exists st', build st tp = Some (st', po) /\ built h B st' /\ grows crank (crank o) st st' /\ is_Some (st_rt st' !! po)) ->
  (forall st tp po, obj_ptr h tp = Some po -> 0 <= po < alen (objs h) -> is_Some (st_rt st !! po) -> build st tp = Some (st, po)) ->
  exists st', build_class h functions_types junk build ot o d st p = Some (st', o) /\ built h B st' /\
    grows crank (S (crank o)) st st' /\ is_Some (st_rt st' !! o).
Proof.
  intros Hd Hot Hb Hnew Hp Hbuild Hcached. destruct (obj_ptr_kind ot o Hot) as [kt Hkt].
  unfold build_class. rewrite Hkt. cbn [mbind option_bind].
  destruct (base_facts h B st o d kt p Hb Hd Hp) as (Hbf & Hbb & Hbs & Hbl). pose proof (size_bound _ _ _ _ Hprog o d Hd) as Hsb.
  pose proof (costs_count h functions_types crank B Hprog o d Hd) as Hcc. change (2 ^ 28) with 268435456 in Hsb. pose proof (alen_nonneg (o_fields d)).
  rewrite int_of_Some by (unfold in_i32, INT_MIN, INT_MAX; lia). cbn [mbind option_bind].
  destruct (count_bindings_total h functions_types crank B Hprog (snd <$> p) d) as [nb ->].
  { intros prt Hprt. destruct (parent_facts h B d st p Hb Hp prt Hprt) as (po & d' & _ & _ & _ & Hpo & Hr). by exists po. }
  cbn [mbind option_bind].
  set (nfields := alen (o_fields d) + base_fields p). set (zeros := replicate (Z.to_nat nfields) 0). assert (alen zeros = nfields) as Hz by (unfold zeros, nfields; rewrite alen_replicate; lia).
  assert (exists idx0, (match snd <$> p with Some p => acopy zeros 0 (rt_fields_indexes p) 0 (rt_nfields p) | None => Some zeros end) = Some idx0 /\
    alen idx0 = base_fields p + alen (o_fields d) /\
    forall prt i, snd <$> p = Some prt -> 0 <= i < base_fields p -> aget idx0 i = aget (rt_fields_indexes prt) i) as (idx0 & -> & Hl0 & Hidx0).
  { destruct (snd <$> p) as [prt|] eqn:E; [|exists zeros; split; [done|]; split; [lia|]; by intros]. 
    destruct (parent_facts h B d st p Hb Hp prt E) as (po & d' & -> & _ & Hrt & _). pose proof (ok_indexes _ _ _ _ _ _ Hrt) as Hoi. simpl in Hbf, nfields.
    destruct (acopy_total zeros 0 (rt_fields_indexes prt) 0 (rt_nfields prt)) as (l & Hl & Hll & Hg); [lia..|]. exists l. split; [done|]. split; [simpl; lia|].
    intros prt' i [= <-] Hi. simpl in Hi. rewrite Hg, decide_True by lia. f_equal. lia. }
  cbn [mbind option_bind].
  destruct (fields_loop h functions_types junk crank B Hprog o d Hd build Hbuild Hcached st p kt Hb Hp idx0 Hl0) as (a & -> & Ha). cbn [mbind option_bind].
  destruct (class_size h functions_types crank B Hprog o d Hd) with (1 := Hb) (2 := Hp) (3 := Ha) (pad_size := 0) as (_ & Hfs & Hfb & _); try done.
  pose proof (final_size (fa_size a) (fa_largest a) ltac:(change (2 ^ 28) with 268435456; lia) (proj1 (fi_largest _ _ _ _ _ _ _ _ _ _ _ _ _ _ Ha))) as Hfin.
  cbv zeta in Hfin |- *.
  set (pad_size := if negb ((if fa_largest a >? 0 then Z.rem (fa_size a) (fa_largest a) else 0) =? 0) then _ else _) in *.
  destruct Hfin as (Hpad & -> & -> & Hal & Hal0). cbn [mbind option_bind]. rewrite compareHash_val. cbn [mbind option_bind].
  destruct (protos_loop h functions_types crank B Hprog o d Hd) with (1 := Hb) (2 := Hp) (ch := compare_hash) (3 := Ha) as (pa & -> & Hpa).
  cbn [mbind option_bind rt_hasPtr].
  destruct (fi_built _ _ _ _ _ _ _ _ _ _ _ _ _ _ Ha) as [Hba Hga].
  assert (st_rt (fa_st a) !! o = None) as Hnew' by (rewrite (proj2 Hga) by lia; done).
  destruct (own_offsets h crank B o d st p kt a idx0 Ha) as (offs & Hpl & Hoffs).
  destruct (class_size h functions_types crank B Hprog o d Hd) with (1 := Hb) (2 := Hp) (3 := Ha) (pad_size := pad_size) as (_ & Hfs' & Hfb' & _); try done.
  set (t := RuntimeObj _ _ _ _ _ _ _ _ _ _ _ _ _ _).
  pose proof (add_class h functions_types crank B Hprog o d Hd build Hbuild st p ot kt Hb Hp Hot Hkt a idx0 pa Ha Hpa Hidx0 pad_size nb (pa_compare pa) Hpad Hal Hal0) as Hadd.
  destruct (fa_hasPtr a) eqn:Ehp; cbn [mbind option_bind].
  - destruct (build_marks_spec h functions_types crank B Hprog o d Hd build Hbuild Hcached (fa_st a) t _ ot (snd <$> p) (base_fields p) (fa_indexes a) (fa_size a + pad_size)
      (base_size kt p) (fa_size a) offs Hba eq_refl Hnew') as (mark & -> & Hml & Hmb); try done; try lia.
    { intros prt Hprt. by apply (parent_fits h functions_types crank B Hprog o d Hd st p kt Hb Hp a idx0 Ha pad_size Hpad Hal Hal0). }
    cbn [mbind option_bind]. eexists. split; [done|]. apply Hadd; try done.
    + intros t' Ht'. by apply lookup_insert_ne.
    + unfold marks_done. rewrite Ehp. exists mark. split; [apply lookup_insert_eq|]. split; [done|]. intros w Hw. rewrite Hmb by done.
      unfold pointer_word. apply Morphisms_Prop.or_iff_morphism; [|done].
      split.
      * intros (prt & pm & Hprt & Hpm & Hbit). destruct (parent_facts h B d st p Hb Hp prt Hprt) as (po & d' & -> & Hpo & _). exists po, prt, pm.
        split; [done|]. split; [by eapply lookup_weaken; [|apply Hga]|]. done.
      * intros (po & prt & pm & Hpo & Hprt & Hpm & Hbit). destruct p as [[po' prt']|] eqn:E; [|done]. injection Hpo as ->.
        destruct (parent_facts h B d st p) with (prt := prt') as (po1 & d' & E1 & Hprt' & _); [done|by rewrite E|by rewrite E|]. rewrite E in E1. injection E1 as <-.
        assert (prt' = prt) as -> by (pose proof (lookup_weaken _ _ _ _ Hprt' (proj1 (proj1 Hga))); congruence). exists prt, pm. done.
  - eexists. split; [done|]. apply Hadd; try done. unfold marks_done. rewrite Ehp. apply eq_None_not_Some. intros [m Hm].
    destruct (proj2 Hba ot m Hm) as (o' & Ho' & Hs). rewrite Hot in Ho'. injection Ho' as <-. rewrite Hnew' in Hs. by apply is_Some_None in Hs.
Qed.

Lemma get_obj_rt_cached fuel st ot o : obj_ptr h ot = Some o -> 0 <= o < alen (objs h) -> is_Some (st_rt st !! o) ->
  hl_get_obj_rt h functions_types junk fuel st ot = Some (st, o).
Proof.
  intros Hot Ho [rt Hrt]. destruct (aget_is_Some _ _ Ho) as [d Hd].
  destruct fuel; simpl; rewrite Hot; cbn [mbind option_bind]; rewrite Hd; cbn [mbind option_bind]; by rewrite Hrt.
Qed.
(** With more fuel than the rank of the class, the computation returns, whatever is
    built already; what it leaves is sound. *)
Lemma get_obj_rt_ok fuel : forall st ot o, obj_ptr h ot = Some o -> 0 <= o < alen (objs h) -> (crank o < fuel)%nat -> built h B st ->
  exists st', hl_get_obj_rt h functions_types junk fuel st ot = Some (st', o) /\ built h B st' /\ grows crank (S (crank o)) st st' /\ is_Some (st_rt st' !! o).
Proof.
  induction fuel as [|fuel IH]; intros st ot o Hot Ho Hr Hb; [lia|]. destruct (aget_is_Some _ _ Ho) as [d Hd].
  destruct (st_rt st !! o) as [rt|] eqn:Ert.
  { exists st. split; [apply get_obj_rt_cached; by eauto|]. split; [done|]. split; [apply grows_refl|]. by rewrite Ert. }
  assert (forall st tp po, obj_ptr h tp = Some po -> 0 <= po < alen (objs h) -> (crank po < crank o)%nat -> built h B st ->
    exists st', hl_get_obj_rt h functions_types junk fuel st tp = Some (st', po) /\ built h B st' /\ grows crank (crank o) st st' /\ is_Some (st_rt st' !! po)) as Hbuild.
  { intros st1 tp po Htp Hpo Hpr Hb1. destruct (IH st1 tp po Htp Hpo ltac:(lia) Hb1) as (st' & Hst' & Hb' & [He Hg] & Hs).
    exists st'. split; [done|]. split; [done|]. split; [split; [done|]|done]. intros o' Ho'. apply Hg. lia. }
  simpl. rewrite Hot. cbn [mbind option_bind]. rewrite Hd. cbn [mbind option_bind]. rewrite Ert.
  assert (exists st1 p, (match o_super d with
      | None => Some (st, None)
      | Some s => '(st, po) ← hl_get_obj_rt h functions_types junk fuel st s; rt ← st_rt st !! po; Some (st, Some (po, rt)) end) = Some (st1, p) /\
      built h B st1 /\ grows crank (crank o) st st1 /\ parent_rt h st1 d p) as (st1 & p & -> & Hb1 & Hg1 & Hp).
  { unfold parent_rt. destruct (o_super d) as [s|] eqn:Es; [|exists st, None; split; [done|]; split; [done|]; split; [apply grows_refl|done]].
    destruct (super_obj h Hok o d s Hd Es) as (po & Hpo & Hpr). pose proof (rank_super _ _ _ _ Hprog o d s po Hd Es Hpo) as Hrank.
    destruct (Hbuild st s po Hpo Hpr Hrank Hb) as (st1 & -> & Hb1 & Hg1 & [prt Hprt]). cbn [mbind option_bind]. rewrite Hprt. cbn [mbind option_bind].
    exists st1, (Some (po, prt)). split; [done|]. split; [done|]. split; [done|]. done. }
  cbn [mbind option_bind]. assert (st_rt st1 !! o = None) as Hnew by (rewrite (proj2 Hg1) by lia; done). rewrite Hnew.
  destruct (build_class_ok (hl_get_obj_rt h functions_types junk fuel) ot o d st1 p Hd Hot Hb1 Hnew Hp Hbuild) as (st' & Hst' & Hb' & Hg' & Hs).
  { intros st2 tp po Htp Hpo Hs. by apply get_obj_rt_cached. }
  exists st'. split; [done|]. split; [done|]. split; [|done]. eapply grows_trans; [|done].
  split; [apply Hg1|]. intros o' Ho'. apply Hg1. lia.
Qed.
End compute.
