(* ===== verification/LayoutSound.v ===== *)
(** * What a runtime object guarantees

    The fields of a class with those of its superclasses, as one list: their offsets,
    the bitmap the collector reads, and the functions that look fields up. *)
From S2P Require Import Prelude DataStruct Ustr Buffer Lookup Reader Types TypesProps TypesText Layout LayoutProps LayoutClass.

(** The fields of a class, those of its superclasses first. *)
Inductive flat (h : heap) : Z -> list hl_obj_field -> Prop :=
  | flat_root o d : aget (objs h) o = Some d -> o_super d = None -> flat h o (o_fields d)
  | flat_sub o d s po fs : aget (objs h) o = Some d -> o_super d = Some s -> obj_ptr h s = Some po -> flat h po fs ->
      flat h o (fs ++ o_fields d).

Lemma placed_app h st fs offs lo mid hi gs offs' : placed h st fs offs lo mid -> placed h st gs offs' mid hi ->
  placed h st (fs ++ gs) (offs ++ offs') lo hi.
Proof.
  intros H1 H2. induction H2 as [mid|gs offs' mid hi f a s _ IH Ha Hap Hs Hsp]; [by rewrite !app_nil_r|].
  rewrite !app_assoc. apply placed_snoc; [exact (IH H1)|done..].
Qed.
Lemma app_of_parts {A} (l l1 l2 : list A) : alen l = alen l1 + alen l2 -> (forall i x, aget l1 i = Some x -> aget l i = Some x) ->
  (forall i x, aget l2 i = Some x -> aget l (alen l1 + i) = Some x) -> l = l1 ++ l2.
Proof.
  intros Hl H1 H2. apply aget_ext; [by rewrite alen_app|]. intros i Hi. destruct (decide (i < alen l1)).
  - rewrite aget_app_l by done. destruct (aget_is_Some l1 i) as [x Hx]; [lia|]. rewrite Hx. by apply H1.
  - rewrite aget_app_r by lia. destruct (aget_is_Some l2 (i - alen l1)) as [x Hx]; [lia|]. rewrite Hx. specialize (H2 _ _ Hx).
    by replace (alen l1 + (i - alen l1)) with i in H2 by lia.
Qed.

(** Before any layout was computed. *)
Definition no_classes : rt_state := RtState ∅ ∅.
Lemma no_classes_built h B : built h B no_classes.
Proof. split; [intros o rt Ho; simpl in Ho; by rewrite lookup_empty in Ho|intros t m Ht; simpl in Ht; by rewrite lookup_empty in Ht]. Qed.

Section sound.
Context (h : heap) (functions_types : Z -> list Z) (junk : hl_field_lookup Z) (crank : Z -> nat) (B : Z -> Z).
Context (Hprog : program_ok h functions_types crank B).
Let Hok : heap_ok h := prog_heap _ _ _ _ Hprog.

Lemma flat_total o : 0 <= o < alen (objs h) -> exists fs, flat h o fs.
Proof.
  induction o as [o IH] using (well_founded_induction (Wf_nat.well_founded_ltof _ crank)). intros Ho. destruct (aget_is_Some _ _ Ho) as [d Hd].
  destruct (o_super d) as [s|] eqn:Es; [|eexists; by eapply flat_root].
  destruct (super_obj h Hok o d s Hd Es) as (po & Hpo & Hpr). destruct (IH po) as [fs Hfs]; [exact (rank_super _ _ _ _ Hprog o d s po Hd Es Hpo)|done|].
  eexists. by eapply flat_sub.
Qed.
Lemma flat_kind o fs : flat h o fs -> forall i f, aget fs i = Some f -> exists k, kind_of h (f_t f) = Some k /\ 0 <= k < 24.
Proof.
  assert (forall o d i f, aget (objs h) o = Some d -> aget (o_fields d) i = Some f -> exists k, kind_of h (f_t f) = Some k /\ 0 <= k < 24) as Hown.
  { intros o1 d i f Hd Hf. apply (valid_kind h Hok). exact (proj1 (Forall_aget _ _ _ _ (obj_fields_ok h _ (Forall_aget _ _ _ _ (objs_ok h Hok) Hd)) Hf)). }
  induction 1 as [o d Hd Hs|o d s po fs Hd Hs Hpo Hfs IH]; intros i f Hf; [by eapply Hown|].
  destruct (decide (i < alen fs)); [rewrite aget_app_l in Hf by done; by eapply IH|rewrite aget_app_r in Hf by lia; by eapply Hown].
Qed.
(** The first word of an object is its type, unless its root class is a structure. *)
Definition header (st : rt_state) (o lo : Z) : Prop :=
  lo = 8 \/ lo = 0 /\ exists r rrt, superclass h o r /\ st_rt st !! r = Some rrt /\ rt_parent rrt = None /\ kind_of h (rt_t rrt) = Some HSTRUCT.
Lemma field_align_pow2 st o d i f a : built h B st -> aget (objs h) o = Some d -> aget (o_fields d) i = Some f -> field_align h st f = Some a -> pow2_8 a.
Proof.
  intros Hb Hd Hf Ha. unfold field_align in Ha. destruct (is_packed h f) eqn:Ep.
  - unfold packed_rt in Ha. destruct (tparam h (f_t f)) as [tp|] eqn:Etp; [|done]. cbn [mbind option_bind] in Ha.
    destruct (obj_ptr h tp) as [po|] eqn:Epo; [|done]. cbn [mbind option_bind] in Ha. destruct (st_rt st !! po) as [rts|] eqn:Er; [|done]. injection Ha as <-.
    unfold is_packed in Ep. apply bool_decide_eq_true in Ep. destruct (rank_packed _ _ _ _ Hprog o d i f tp Hd Hf Ep Etp) as (po' & Hpo' & _ & _ & Hpk).
    rewrite Epo in Hpo'. injection Hpo' as <-. by eapply packable_largest.
  - pose proof (proj1 (Forall_aget _ _ _ _ (obj_fields_ok h _ (Forall_aget _ _ _ _ (objs_ok h Hok) Hd)) Hf)) as Hv.
    destruct (valid_kind h Hok _ Hv) as (k & Hk & Hr). rewrite Hk in Ha. injection Ha as <-. by destruct (kind_sizes k Hr) as (_ & _ & ? & _).
Qed.

(** The offsets of a class are a placement of all its fields. *)
Lemma layout_flat st o fs : built h B st -> flat h o fs -> forall rt, st_rt st !! o = Some rt -> exists lo,
  placed h st fs (rt_fields_indexes rt) lo (rt_size rt - rt_pad_size rt) /\ header st o lo /\ rt_nfields rt = alen fs /\
  (forall i f a s, aget fs i = Some f -> field_align h st f = Some a -> field_size h st f = Some s -> 0 < s -> pow2_8 a /\ a <= rt_largest_field rt) /\
  (rt_hasPtr rt = true <-> exists i f, aget fs i = Some f /\ field_hasptr h st f = Some true).
Proof.
  intros Hb. induction 1 as [o d Hd Hs|o d s po fs Hd Hs Hpo Hfs IH]; intros rt Hrt; destruct (proj1 Hb o rt Hrt) as [d' Hro];
    (assert (d' = d) as -> by (pose proof (ok_class _ _ _ _ _ _ Hro); congruence)); pose proof (ok_parent _ _ _ _ _ _ Hro) as Hpar; rewrite Hs in Hpar.
  - destruct (ok_placed _ _ _ _ _ _ Hro) as (offs & Hpl & Hoffs). destruct (placed_bounds h _ _ _ _ _ Hpl) as (Hl & _).
    pose proof (ok_nfields _ _ _ _ _ _ Hro) as [Hn _]. pose proof (ok_indexes _ _ _ _ _ _ Hro) as Hi. pose proof (ok_hasptr _ _ _ _ _ _ Hro) as Hhp.
    unfold base_of in *. rewrite Hpar in *. cbn [fst snd] in *.
    assert (rt_fields_indexes rt = offs) as ->.
    { apply aget_ext; [lia|]. intros i Hir. destruct (aget_is_Some offs i) as [x Hx]; [lia|]. rewrite Hx. by apply Hoffs in Hx. }
    eexists. split; [exact Hpl|]. split.
    { destruct (decide _) as [Hk|Hk]; [right; split; [done|]; exists o, rt; split; [constructor|done]|by left]. }
    split; [lia|]. split.
    + intros i f a sz Hf Ha Hsz Hpos. split; [by eapply field_align_pow2|]. by eapply ok_aligns.
    + rewrite Hhp. split; [intros [?|?]; [done|done]|by right].
  - destruct Hpar as (po' & Hpo' & Hpar & [prt Hprt]). rewrite Hpo in Hpo'. injection Hpo' as <-.
    destruct (IH prt Hprt) as (lo & Hpl & Hh & Hn & Hal & Hhp). destruct (ok_placed _ _ _ _ _ _ Hro) as (offs & Hpl2 & Hoffs).
    destruct (placed_bounds h _ _ _ _ _ Hpl) as (Hl1 & _). destruct (placed_bounds h _ _ _ _ _ Hpl2) as (Hl2 & _).
    pose proof (ok_nfields _ _ _ _ _ _ Hro) as [Hn2 _]. pose proof (ok_indexes _ _ _ _ _ _ Hro) as Hi. pose proof (ok_hasptr _ _ _ _ _ _ Hro) as Hhp2.
    pose proof (ok_largest _ _ _ _ _ _ Hro) as [_ Hbl].
    unfold base_of in *. rewrite Hpar, Hprt in *. cbn [fst snd] in *. exists lo.
    assert (rt_fields_indexes rt = rt_fields_indexes prt ++ offs) as ->.
    { apply app_of_parts; [lia| |].
      - intros i x Hx. rewrite (ok_prefix _ _ _ _ _ _ Hro po prt i Hpar Hprt); [done|]. apply aget_Some_range in Hx. lia.
      - intros i x Hx. rewrite Hl1. rewrite <- Hn. by apply Hoffs. }
    split; [by eapply placed_app|]. split; [|split; [rewrite alen_app; lia|split]].
    + destruct Hh as [?|(? & r & rrt & Hsup & ?)]; [by left|right]. split; [done|]. exists r, rrt. split; [by eapply super_step|done].
    + intros i f a sz Hf Ha Hsz Hpos. destruct (decide (i < alen fs)) as [Hlt|Hge].
      * rewrite aget_app_l in Hf by done. destruct (Hal i f a sz Hf Ha Hsz Hpos). split; [done|lia].
      * rewrite aget_app_r in Hf by lia. split; [by eapply field_align_pow2|]. by eapply ok_aligns.
    + rewrite Hhp2, Hhp. split.
      * intros [(i & f & Hf & Hp)|(i & f & Hf & Hp)]; [exists i, f|exists (alen fs + i), f]; (split; [|done]); pose proof (aget_Some_range _ _ _ Hf);
          [by rewrite aget_app_l by lia|rewrite aget_app_r by lia; by replace (alen fs + i - alen fs) with i by lia].
      * intros (i & f & Hf & Hp). destruct (decide (i < alen fs)); [left; rewrite aget_app_l in Hf by done|right; rewrite aget_app_r in Hf by lia]; eauto.
Qed.

(** ** The bitmap *)
Definition marked (st : rt_state) (rt : hl_runtime_obj) (w : Z) : bool :=
  match st_marks st !! rt_t rt with Some mark => mark_bit mark w | None => false end.
Lemma field_word_hasptr st f off w : built h B st -> field_word h st f off w -> field_hasptr h st f = Some true.
Proof.
  intros Hb Hw. unfold field_word, field_hasptr in *. destruct (is_packed h f); [|by destruct Hw].
  destruct Hw as (rts & nested & Hp & Hm & _). rewrite Hp. cbn [mbind option_bind]. f_equal.
  unfold packed_rt in Hp. destruct (tparam h (f_t f)) as [tp|]; [|done]. cbn [mbind option_bind] in Hp. destruct (obj_ptr h tp) as [po|]; [|done]. cbn [mbind option_bind] in Hp.
  destruct (proj1 Hb po rts Hp) as [d Hrt]. pose proof (ok_marks _ _ _ _ _ _ Hrt) as Hmk. destruct (rt_hasPtr rts); [done|congruence].
Qed.
Lemma flat_marked st o fs : built h B st -> flat h o fs -> forall rt, st_rt st !! o = Some rt -> forall w, 0 <= w ->
  marked st rt w = true <-> exists i f off, aget fs i = Some f /\ aget (rt_fields_indexes rt) i = Some off /\ field_word h st f off w.
Proof.
  intros Hb Hfl. pose proof Hfl as Hfl0. induction Hfl0 as [o d Hd Hs|o d s po fs Hd Hs Hpo Hfs IH]; intros rt Hrt w Hw;
    destruct (layout_flat st o _ Hb Hfl rt Hrt) as (_ & _ & _ & _ & _ & Hhp); destruct (proj1 Hb o rt Hrt) as [d' Hro];
    (assert (d' = d) as -> by (pose proof (ok_class _ _ _ _ _ _ Hro); congruence)); pose proof (ok_parent _ _ _ _ _ _ Hro) as Hpar; rewrite Hs in Hpar;
    pose proof (ok_marks _ _ _ _ _ _ Hro) as Hm; unfold marked.
  all: destruct (rt_hasPtr rt); [|rewrite Hm; split; [done|]; intros (i & f & off & Hf & _ & Hfw); apply (field_word_hasptr _ _ _ _ Hb) in Hfw; exfalso; enough (false = true) by done; apply Hhp; eauto].
  all: destruct Hm as (mark & -> & _ & Hbits); rewrite Hbits by done; unfold pointer_word, parent_word, base_of.
  - rewrite Hpar. cbn [fst]. split; [|by right]. intros [(? & ? & ? & ? & _)|?]; done.
  - destruct Hpar as (po' & Hpo' & Hpar & [prt Hprt]). rewrite Hpo in Hpo'. injection Hpo' as <-. rewrite Hpar, Hprt. cbn [fst snd].
    destruct (layout_flat st po fs Hb Hfs prt Hprt) as (lo & Hpl & _ & Hn & _). destruct (placed_bounds h _ _ _ _ _ Hpl) as (Hl & _).
    specialize (IH Hfs prt Hprt w Hw). unfold marked in IH.
    assert (forall i, 0 <= i < alen fs -> aget (rt_fields_indexes rt) i = aget (rt_fields_indexes prt) i) as Hpre.
    { intros i Hi. apply (ok_prefix _ _ _ _ _ _ Hro po prt i Hpar Hprt). lia. }
    split.
    + intros [(po' & prt' & pm & [= <-] & Hx & Hpm & Hbit)|(i & f & off & Hf & Hoff & Hfw)].
      * rewrite Hprt in Hx. injection Hx as <-. rewrite Hpm in IH. destruct (proj1 IH Hbit) as (i & f & off & Hf & Hoff & Hfw). pose proof (aget_Some_range _ _ _ Hf).
        exists i, f, off. rewrite aget_app_l, Hpre by lia. done.
      * pose proof (aget_Some_range _ _ _ Hf). exists (alen fs + i), f, off. rewrite aget_app_r by lia. replace (alen fs + i - alen fs) with i by lia. by rewrite <- Hn.
    + intros (i & f & off & Hf & Hoff & Hfw). pose proof (aget_Some_range _ _ _ Hf). destruct (decide (i < alen fs)).
      * left. rewrite aget_app_l in Hf by done. rewrite Hpre in Hoff by lia. destruct (st_marks st !! rt_t prt) as [pm|] eqn:Epm; [|assert (false = true) by (apply IH; by exists i, f, off); done].
        exists po, prt, pm. split; [done|]. split; [done|]. split; [done|]. apply IH. by exists i, f, off.
      * right. rewrite aget_app_r in Hf by lia. exists (i - alen fs), f, off. rewrite Hn. by replace (alen fs + (i - alen fs)) with i by lia.
Qed.

(** ** Finding fields *)
Lemma resolve_own st o d rt x : rt_ok h B st o d rt -> exists m : gmap Z (Z * Z),
  (forall i f off, aget (o_fields d) i = Some f -> named_field f -> aget (rt_fields_indexes rt) ((base_of h st rt).1.1.1 + i) = Some off ->
      m !! f_hashed_name f = Some (f_t f, off)) /\
  (forall x ty ix, m !! x = Some (ty, ix) -> 0 <= ix -> exists i f, aget (o_fields d) i = Some f /\ named_field f /\
      f_hashed_name f = x /\ ty = f_t f /\ aget (rt_fields_indexes rt) ((base_of h st rt).1.1.1 + i) = Some ix) /\
  ((m !! x = None /\ hl_lookup_find (rt_lookup rt) (rt_nlookup rt) x = Some None) \/
   exists i ty ix, m !! x = Some (ty, ix) /\ hl_lookup_find (rt_lookup rt) (rt_nlookup rt) x = Some (Some i) /\
     aget (rt_lookup rt) i = Some (FieldLookup ty x ix)).
Proof.
  intros Hro. destruct (ok_lookup _ _ _ _ _ _ Hro) as (m & Hm & Hl & H1 & H2). exists m. split; [done|]. split; [done|].
  apply lookup_find_repr; [done|]. destruct Hm as [[Hn _] _]. change (2 ^ 29) with 536870912 in Hl. unfold INT_MAX. lia.
Qed.
(** An entry of the tables of a class names a field of the class. *)
Definition entry_names (fs : list hl_obj_field) (idx : list Z) (x : Z) (e : hl_field_lookup Z) : Prop :=
  exists i f, aget fs i = Some f /\ named_field f /\ f_hashed_name f = x /\ t e = f_t f /\ aget idx i = Some (field_index e).
Lemma entry_names_app fs idx gs idx' x e : (forall i, 0 <= i < alen fs -> aget idx' i = aget idx i) ->
  entry_names fs idx x e -> entry_names (fs ++ gs) idx' x e.
Proof.
  intros Hpre (i & f & Hf & Hn & Hx & Ht & Hi). pose proof (aget_Some_range _ _ _ Hf). exists i, f. rewrite aget_app_l, Hpre by lia. done.
Qed.
Lemma resolve_flat st x : built h B st -> forall fuel o fs rt, flat h o fs -> st_rt st !! o = Some rt -> (crank o < fuel)%nat ->
  exists r, resolve_from fuel st o x = Some r /\
    (forall e, r = Some e -> hashed_name e = x /\ (0 <= field_index e -> entry_names fs (rt_fields_indexes rt) x e)) /\
    (r = None -> forall i f, aget fs i = Some f -> named_field f -> f_hashed_name f <> x).
Proof.
  intros Hb. induction fuel as [|fuel IH]; intros o fs rt Hfl Hrt Hf; [lia|]. simpl. rewrite Hrt. cbn [mbind option_bind].
  destruct (proj1 Hb o rt Hrt) as [d Hro]. pose proof (ok_class _ _ _ _ _ _ Hro) as Hd. destruct (resolve_own st o d rt x Hro) as (m & Hin & Hout & Hfind).
  pose proof (ok_parent _ _ _ _ _ _ Hro) as Hpar. unfold base_of in Hin, Hout.
  destruct Hfind as [(Hno & ->)|(i & ty & ix & Hyes & -> & He)]; cbn [mbind option_bind].
  - assert (forall i f off, aget (o_fields d) i = Some f -> named_field f -> aget (rt_fields_indexes rt) (rt_nfields rt - alen (o_fields d) + i) = Some off -> f_hashed_name f <> x) as Hown.
    { intros i f off Hfi Hnf Hoff Hx. pose proof (ok_nfields _ _ _ _ _ _ Hro) as [Hn _]. unfold base_of in Hn.
      replace (rt_nfields rt - alen (o_fields d) + i) with ((rt_nfields rt - alen (o_fields d)) + i) in Hoff by lia.
      rewrite Hn, Z.add_simpl_r in Hoff. rewrite (Hin i f off Hfi Hnf Hoff) in Hno || (rewrite <- Hx, (Hin i f off Hfi Hnf Hoff) in Hno). done. }
    assert (forall i f, aget (o_fields d) i = Some f -> named_field f -> f_hashed_name f <> x) as Hown'.
    { intros i f Hfi Hnf. pose proof (ok_indexes _ _ _ _ _ _ Hro) as Hlen. pose proof (ok_nfields _ _ _ _ _ _ Hro) as [Hn Hn0]. pose proof (aget_Some_range _ _ _ Hfi).
      destruct (aget_is_Some (rt_fields_indexes rt) (rt_nfields rt - alen (o_fields d) + i)) as [off Hoff]; [lia|]. by eapply Hown. }
    inversion Hfl as [o' d' Hd' Hs|o' d' s po gs Hd' Hs Hpo Hgs]; subst; rewrite Hd in Hd'; injection Hd' as <-; rewrite Hs in Hpar.
    + rewrite Hpar. exists None. split; [done|]. split; [done|]. intros _. exact Hown'.
    + destruct Hpar as (po' & Hpo' & Hpar & [prt Hprt]). rewrite Hpo in Hpo'. injection Hpo' as <-. rewrite Hpar.
      pose proof (rank_super _ _ _ _ Hprog o d s po Hd Hs Hpo). destruct (IH po gs prt Hgs Hprt ltac:(lia)) as (r & Hr & Hsome & Hnone).
      destruct (layout_flat st po gs Hb Hgs prt Hprt) as (_ & _ & _ & Hn & _).
      exists r. split; [done|]. split.
      * intros e He. destruct (Hsome e He) as [Hx Hname]. split; [done|]. intros Hi. eapply entry_names_app; [|exact (Hname Hi)].
        intros i Hir. apply (ok_prefix _ _ _ _ _ _ Hro po prt i Hpar Hprt). lia.
      * intros -> i f Hfi. destruct (decide (i < alen gs)) as [Hlt|Hge]; [rewrite aget_app_l in Hfi by done; by eapply Hnone|].
        rewrite aget_app_r in Hfi by lia. by eapply Hown'.
  - rewrite He. cbn [mbind option_bind]. eexists. split; [done|]. split; [|done]. intros e [= <-]. split; [done|]. cbn [field_index]. intros Hix.
    destruct (Hout x ty ix Hyes Hix) as (j & f & Hfj & Hnf & Hx & Ht & Hoff). pose proof (aget_Some_range _ _ _ Hfj).
    inversion Hfl as [o' d' Hd' Hs|o' d' s po gs Hd' Hs Hpo Hgs]; subst; rewrite Hd in Hd'; injection Hd' as <-; rewrite Hs in Hpar.
    + rewrite Hpar in Hoff. exists j, f. done.
    + destruct Hpar as (po' & Hpo' & Hpar & [prt Hprt]). rewrite Hpo in Hpo'. injection Hpo' as <-. rewrite Hpar, Hprt in Hoff.
      destruct (layout_flat st po gs Hb Hgs prt Hprt) as (_ & _ & _ & Hn & _). cbn [fst] in Hoff. rewrite Hn in Hoff.
      exists (alen gs + j), f. rewrite aget_app_r by lia. replace (alen gs + j - alen gs) with j by lia. done.
Qed.
Lemma declaring_flat st : built h B st -> forall fuel o fs rt fid, flat h o fs -> st_rt st !! o = Some rt -> (crank o <= fuel)%nat ->
  0 <= fid < alen fs ->
  exists rt' start d, declaring_class fuel st rt fid = Some (rt', start) /\ obj_of h (rt_t rt') = Some d /\ aget (o_fields d) (fid - start) = aget fs fid.
Proof.
  intros Hb fuel. induction fuel as [|fuel IH]; intros o fs rt fid Hfl Hrt Hf Hfid; destruct (proj1 Hb o rt Hrt) as [d Hro];
    pose proof (ok_class _ _ _ _ _ _ Hro) as Hd; pose proof (ok_parent _ _ _ _ _ _ Hro) as Hpar;
    (assert (obj_of h (rt_t rt) = Some d) as Hobj by (unfold obj_of; by rewrite (ok_type _ _ _ _ _ _ Hro)));
    inversion Hfl as [o' d' Hd' Hs|o' d' s po gs Hd' Hs Hpo Hgs]; subst; rewrite Hd in Hd'; injection Hd' as <-; rewrite Hs in Hpar; simpl.
  - rewrite Hpar. exists rt, 0, d. by rewrite Z.sub_0_r.
  - pose proof (rank_super _ _ _ _ Hprog o d s po Hd Hs Hpo). lia.
  - rewrite Hpar. exists rt, 0, d. by rewrite Z.sub_0_r.
  - destruct Hpar as (po' & Hpo' & Hpar & [prt Hprt]). rewrite Hpo in Hpo'. injection Hpo' as <-. rewrite Hpar, Hprt. cbn [mbind option_bind].
    destruct (layout_flat st po gs Hb Hgs prt Hprt) as (_ & _ & _ & Hn & _). rewrite Hn. pose proof (rank_super _ _ _ _ Hprog o d s po Hd Hs Hpo).
    destruct (fid <? alen gs) eqn:E; zbool.
    + destruct (IH po gs prt fid Hgs Hprt ltac:(lia) ltac:(lia)) as (rt' & start & d' & H1 & H2 & H3). exists rt', start, d'. by rewrite aget_app_l by lia.
    + exists rt, (alen gs), d. by rewrite aget_app_r by lia.
Qed.

(** ** The guarantees *)
(** C7. Computing the layout of a class succeeds and changes nothing built before.  In a
    well-formed program (classes ranked, sizes below 2^28, distinct member names), from
    any sound state, [hl_get_obj_rt] with fuel one above the number of classes returns
    the class of the type, in a state where every runtime object (the new ones, and those
    of its superclasses and packed structures it had to build) is sound, the earlier ones
    are the same, and so are their bitmaps; a second call returns at once. *)
Theorem hl_get_obj_rt_builds st ot o : obj_ptr h ot = Some o -> 0 <= o < alen (objs h) -> built h B st ->
  exists st', hl_get_obj_rt h functions_types junk (S (length (objs h))) st ot = Some (st', o) /\
    built h B st' /\ extends st st' /\ is_Some (st_rt st' !! o) /\
    hl_get_obj_rt h functions_types junk (S (length (objs h))) st' ot = Some (st', o).
Proof.
  intros Hot Ho Hb. pose proof (rank_bound _ _ _ _ Hprog o).
  destruct (get_obj_rt_ok h functions_types junk crank B Hprog (S (length (objs h))) st ot o Hot Ho ltac:(lia) Hb) as (st' & Hr & Hb' & [He _] & Hs).
  exists st'. do 4 (split; [done|]). by apply get_obj_rt_cached.
Qed.
(** ** Sequences of calls *)
(** [hl_get_obj_rt] called on each type in turn, each call as if by a new caller. *)
Fixpoint get_all_rt (st : rt_state) (ots : list Z) : option rt_state :=
  match ots with
  | [] => Some st
  | ot :: ots => '(st, _) ← hl_get_obj_rt h functions_types junk (S (length (objs h))) st ot; get_all_rt st ots
  end.
Definition class_type (ot : Z) : Prop := exists o, obj_ptr h ot = Some o /\ 0 <= o < alen (objs h).
Definition laid_out (st : rt_state) (ot : Z) : Prop := exists o, obj_ptr h ot = Some o /\ is_Some (st_rt st !! o).
Lemma laid_out_extends st st' ot : extends st st' -> laid_out st ot -> laid_out st' ot.
Proof. intros He (o & Ho & rt & Hrt). exists o. split; [done|]. exists rt. by apply (lookup_weaken (st_rt st)), He. Qed.
Lemma get_all_rt_ok ots : forall st, Forall class_type ots -> built h B st ->
  exists st', get_all_rt st ots = Some st' /\ built h B st' /\ extends st st' /\ Forall (laid_out st') ots.
Proof.
  induction ots as [|ot ots IH]; intros st Hots Hb; [by exists st|]. inversion Hots as [|? ? (o & Hot & Ho) Hots']; subst. cbn [get_all_rt].
  pose proof (rank_bound _ _ _ _ Hprog o).
  destruct (get_obj_rt_ok h functions_types junk crank B Hprog (S (length (objs h))) st ot o Hot Ho ltac:(lia) Hb) as (st1 & -> & Hb1 & [He1 _] & Hs1).
  cbn [mbind option_bind]. destruct (IH st1 Hots' Hb1) as (st2 & -> & Hb2 & He2 & Hall). exists st2. split; [done|]. split; [done|].
  split; [by etrans|]. constructor; [|done]. apply (laid_out_extends st1); [done|]. by exists o.
Qed.

(** The words of an object that hold pointers: those of its pointer fields, and those of
    the structures packed into it, whatever the bitmaps say. *)
Inductive pointer_at (st : rt_state) : Z -> Z -> Prop :=
  | pointer_field o fs rt i f off : flat h o fs -> st_rt st !! o = Some rt -> aget fs i = Some f ->
      aget (rt_fields_indexes rt) i = Some off -> is_packed h f = false -> hl_is_ptr h (f_t f) = Some true ->
      pointer_at st o (off / 8)
  | pointer_packed o fs rt i f off tp po w : flat h o fs -> st_rt st !! o = Some rt -> aget fs i = Some f ->
      aget (rt_fields_indexes rt) i = Some off -> is_packed h f = true -> tparam h (f_t f) = Some tp -> obj_ptr h tp = Some po ->
      pointer_at st po w -> pointer_at st o (off / 8 + w).
Lemma flat_inj o fs fs' : flat h o fs -> flat h o fs' -> fs = fs'.
Proof.
  intros H1. revert fs'. induction H1 as [o d Hd Hs|o d s po fs Hd Hs Hpo _ IH]; intros fs' H2; inversion H2; subst; simplify_eq; [done|].
  f_equal. by apply IH.
Qed.
Lemma marked_inside st o fs rt w : built h B st -> flat h o fs -> st_rt st !! o = Some rt -> 0 <= w -> marked st rt w = true ->
  8 * w + 8 <= rt_size rt.
Proof.
  intros Hb Hfl Hrt Hw (i & f & off & Hf & Hoff & Hfw)%(flat_marked st o fs Hb Hfl rt Hrt w Hw).
  destruct (layout_flat st o fs Hb Hfl rt Hrt) as (lo & Hpl & _ & _ & _).
  destruct (proj1 Hb o rt Hrt) as [d Hro]. pose proof (ok_pad _ _ _ _ _ _ Hro).
  destruct (placed_bounds h _ _ _ _ _ Hpl) as (_ & _ & Hin & _). destruct (Hin i f off Hf Hoff) as (a & s & Ha & Hapos & Hs & Hs0 & Hmod & Hlo & Hhi).
  unfold field_word, field_size in *. destruct (is_packed h f) eqn:Ep.
  - destruct Hfw as (rts & nested & Hp & _ & Hrange & _). rewrite Hp in Hs. injection Hs as <-. z_div.
  - destruct Hfw as [Hptr ->]. destruct (flat_kind o fs Hfl i f Hf) as (k & Hk & Hkr). rewrite (pointer_size h f k Hk Hkr Ep Hptr) in Hs. injection Hs as <-. z_div.
Qed.
(** Fields start at non-negative offsets. *)
Lemma offset_nonneg st o fs rt i off : built h B st -> flat h o fs -> st_rt st !! o = Some rt -> aget (rt_fields_indexes rt) i = Some off -> 0 <= off.
Proof.
  intros Hb Hfl Hrt Hoff. destruct (layout_flat st o fs Hb Hfl rt Hrt) as (lo & Hpl & Hh & Hn & _).
  destruct (placed_bounds h _ _ _ _ _ Hpl) as (Hl & _ & Hin & _). pose proof (aget_Some_range _ _ _ Hoff).
  destruct (aget_is_Some fs i) as [f Hf]; [lia|]. destruct (Hin i f off Hf Hoff) as (a & s & _ & _ & _ & _ & _ & Hlo & _).
  destruct Hh as [->|[-> _]]; lia.
Qed.
Lemma pointer_at_nonneg st o w : built h B st -> pointer_at st o w -> 0 <= w.
Proof.
  intros Hb. induction 1 as [o fs rt i f off Hfl Hrt Hf Hoff _ _|o fs rt i f off tp po w Hfl Hrt Hf Hoff _ _ _ _ IH];
    pose proof (offset_nonneg st o fs rt i off Hb Hfl Hrt Hoff); z_div.
Qed.

Lemma marked_pointers st : built h B st -> forall o fs rt w, flat h o fs -> st_rt st !! o = Some rt -> 0 <= w ->
  marked st rt w = true <-> pointer_at st o w.
Proof.
  intros Hb o. induction o as [o IH] using (well_founded_induction (Wf_nat.well_founded_ltof _ crank)). intros fs rt w Hfl Hrt Hw.
  assert (forall i f tp po, aget fs i = Some f -> is_packed h f = true -> tparam h (f_t f) = Some tp -> obj_ptr h tp = Some po ->
    (crank po < crank o)%nat /\ 0 <= po < alen (objs h)) as Hrank.
  { clear IH rt Hrt. induction Hfl as [o d Hd Hs|o d s so fs Hd Hs Hso Hfl IHf]; intros i f tp po Hf Hp Htp Hpo;
      unfold is_packed in Hp; pose proof Hp as Hpk; apply bool_decide_eq_true in Hpk.
    - destruct (rank_packed _ _ _ _ Hprog o d i f tp Hd Hf Hpk Htp) as (po' & Hpo' & ? & ? & _). by simplify_eq.
    - destruct (decide (i < alen fs)).
      + rewrite aget_app_l in Hf by done. destruct (IHf i f tp po Hf Hp Htp Hpo). pose proof (rank_super _ _ _ _ Hprog o d s so Hd Hs Hso). lia.
      + rewrite aget_app_r in Hf by lia. destruct (rank_packed _ _ _ _ Hprog o d _ f tp Hd Hf Hpk Htp) as (po' & Hpo' & ? & ? & _). by simplify_eq. }
  rewrite (flat_marked st o fs Hb Hfl rt Hrt w Hw). split.
  - intros (i & f & off & Hf & Hoff & Hfw). unfold field_word in Hfw. destruct (is_packed h f) eqn:Ep.
    + destruct Hfw as (rts & nested & Hp & Hm & Hr & Hbit). unfold packed_rt in Hp. destruct (tparam h (f_t f)) as [tp|] eqn:Etp; [|done]. cbn [mbind option_bind] in Hp.
      destruct (obj_ptr h tp) as [po|] eqn:Epo; [|done]. cbn [mbind option_bind] in Hp. destruct (Hrank i f tp po Hf Ep Etp Epo) as [Hlt Hpo].
      destruct (flat_total po Hpo) as [fs' Hfl']. replace w with (off / 8 + (w - off / 8)) by lia.
      apply (pointer_packed st o fs rt i f off tp po); try done. apply (IH po Hlt fs' rts); [done|done|lia|]. unfold marked. by rewrite Hm.
    + destruct Hfw as [Hptr ->]. by apply (pointer_field st o fs rt i f off).
  - intros Hp. destruct Hp as [o fs' rt' i f off Hfl' Hrt' Hf Hoff Ep Hptr|o fs' rt' i f off tp po w Hfl' Hrt' Hf Hoff Ep Htp Hpo Hpw];
      rewrite (flat_inj o fs' fs Hfl' Hfl) in *; simplify_eq; exists i, f, off; (split; [done|]); (split; [done|]); unfold field_word; rewrite Ep; [done|].
    pose proof (pointer_at_nonneg st po w Hb Hpw) as Hw0. destruct (Hrank i f tp po Hf Ep Htp Hpo) as [Hlt Hr]. destruct (flat_total po Hr) as [gs Hgs].
    assert (is_Some (st_rt st !! po)) as [rts Hrts] by (by inversion Hpw; subst; eexists).
    assert (marked st rts w = true) as Hm by (by apply (IH po Hlt gs rts)).
    pose proof (marked_inside st po gs rts w Hb Hgs Hrts Hw0 Hm). unfold marked in Hm. destruct (st_marks st !! rt_t rts) as [nested|] eqn:En; [|done].
    exists rts, nested. unfold packed_rt. rewrite Htp. cbn [mbind option_bind]. rewrite Hpo. cbn [mbind option_bind].
    replace (off / 8 + w - off / 8) with w by lia. split; [done|]. split; [done|]. split; [z_div|done].
Qed.

(** C19. Fields do not overlap.  After any sequence of calls of [hl_get_obj_rt] on the
    classes of a well-formed program, from the state where no layout was computed, every
    class asked for has a layout; and in the layout of any class (those of superclasses
    and of packed structures included) the offsets of its fields, inherited ones first,
    are aligned, lie after the header and before the padding at the end, and no two
    fields share a byte; the size is a multiple of every field's alignment, so that
    elements of an array of structures are aligned too. *)
Theorem object_fields_disjoint ots : Forall class_type ots ->
  exists st, get_all_rt no_classes ots = Some st /\ Forall (laid_out st) ots /\
  forall o fs rt, flat h o fs -> st_rt st !! o = Some rt ->
  alen (rt_fields_indexes rt) = alen fs /\
  exists lo, header st o lo /\
  (forall i f off, aget fs i = Some f -> aget (rt_fields_indexes rt) i = Some off -> exists a s,
     field_align h st f = Some a /\ field_size h st f = Some s /\ 0 <= s /\ off mod a = 0 /\
     lo <= off /\ off + s <= rt_size rt - rt_pad_size rt /\ (0 < s -> rt_size rt mod a = 0)) /\
  (forall i j f offi offj s, i < j -> aget fs i = Some f -> field_size h st f = Some s ->
     aget (rt_fields_indexes rt) i = Some offi -> aget (rt_fields_indexes rt) j = Some offj -> offi + s <= offj).
Proof.
  intros Hots. destruct (get_all_rt_ok ots no_classes Hots (no_classes_built h B)) as (st & Hst & Hb & _ & Hall).
  exists st. split; [done|]. split; [done|]. intros o fs rt Hfl Hrt. destruct (layout_flat st o fs Hb Hfl rt Hrt) as (lo & Hpl & Hh & _ & Hal & _).
  destruct (placed_bounds h _ _ _ _ _ Hpl) as (Hl & _ & Hin & Hdis). split; [done|]. exists lo. split; [done|]. split; [|exact Hdis].
  intros i f off Hf Hoff. destruct (Hin i f off Hf Hoff) as (a & s & Ha & Hapos & Hs & Hs0 & Hmod & Hlo & Hhi).
  exists a, s. do 6 (split; [done|]). intros Hpos. destruct (Hal i f a s Hf Ha Hs Hpos) as [Hpow Hle].
  destruct (proj1 Hb o rt Hrt) as [d Hro]. destruct (ok_size _ _ _ _ _ _ Hro) as [Hm _]. destruct (ok_largest _ _ _ _ _ _ Hro) as [[Hz|Hpl2] _]; [lia|].
  specialize (Hm ltac:(lia)). apply Z.mod_divide; [lia|]. apply Z.mod_divide in Hm; [|lia]. etrans; [|exact Hm]. by apply pow2_divide.
Qed.
(** C18. The collector's bitmap is exact.  After any sequence of calls of
    [hl_get_obj_rt] on the classes of a well-formed program, from the state where no
    layout was computed, every class asked for has a layout; and in the layout of any
    class the bit of a word is set exactly when the word holds a pointer: a field of the
    class, inherited or its own, is a pointer there, or a structure packed into it holds
    one there, to any depth.  Every marked word lies inside the object. *)
Theorem object_bitmap_exact ots : Forall class_type ots ->
  exists st, get_all_rt no_classes ots = Some st /\ Forall (laid_out st) ots /\
  forall o fs rt w, flat h o fs -> st_rt st !! o = Some rt -> 0 <= w ->
  (marked st rt w = true <-> pointer_at st o w) /\ (marked st rt w = true -> 8 * w + 8 <= rt_size rt).
Proof.
  intros Hots. destruct (get_all_rt_ok ots no_classes Hots (no_classes_built h B)) as (st & Hst & Hb & _ & Hall).
  exists st. split; [done|]. split; [done|]. intros o fs rt w Hfl Hrt Hw.
  split; [by apply (marked_pointers st Hb o fs)|by apply (marked_inside st o fs)].
Qed.
(** Looking fields up by index or by name agrees with the declarations.  In a class
    that [hl_get_obj_rt] built, [hl_obj_field_fetch] returns the field at an index of the
    list of all fields, and null at any other index; [obj_resolve_field] answers for every
    hash: an entry it returns has that hash and, when its index is that of a field, the
    type and the offset of a field of that name; it returns null only if no field of the
    class or of a superclass has the name. *)
Theorem obj_fields_found st o fs rt ot : built h B st -> flat h o fs -> st_rt st !! o = Some rt -> obj_ptr h ot = Some o ->
  kind_of h ot = Some HOBJ \/ kind_of h ot = Some HSTRUCT ->
  (forall fid, hl_obj_field_fetch h functions_types junk (S (length (objs h))) st ot fid = Some (st, aget fs fid)) /\
  (forall x, exists r, obj_resolve_field h st o x = Some r /\
    (forall e, r = Some e -> hashed_name e = x /\ (0 <= field_index e -> entry_names fs (rt_fields_indexes rt) x e)) /\
    (r = None -> forall i f, aget fs i = Some f -> named_field f -> f_hashed_name f <> x)).
Proof.
  intros Hb Hfl Hrt Hot Hk. pose proof (rank_bound _ _ _ _ Hprog o). split.
  - intros fid. unfold hl_obj_field_fetch.
    assert (exists k, kind_of h ot = Some k /\ negb (k =? HOBJ) && negb (k =? HSTRUCT) = false) as (k & -> & Hkk) by (destruct Hk as [-> | ->]; by eexists).
    cbn [mbind option_bind]. rewrite Hkk. destruct (proj1 Hb o rt Hrt) as [d Hro]. pose proof (aget_Some_range _ _ _ (ok_class _ _ _ _ _ _ Hro)).
    rewrite (get_obj_rt_cached h functions_types junk (S (length (objs h))) st ot o Hot) by (done || by eexists). cbn [mbind option_bind]. rewrite Hrt. cbn [mbind option_bind].
    destruct (layout_flat st o fs Hb Hfl rt Hrt) as (_ & _ & _ & Hn & _). rewrite Hn.
    destruct ((fid <? 0) || (fid >=? alen fs)) eqn:E; zbool.
    + rewrite (proj2 (aget_None fs fid)) by lia. done.
    + destruct (declaring_flat st Hb (length (objs h)) o fs rt fid Hfl Hrt) as (rt' & start & d' & -> & Hobj & Hget); [done|lia|]. cbn [mbind option_bind].
      rewrite Hobj. cbn [mbind option_bind]. rewrite Hget. destruct (aget_is_Some fs fid) as [f ->]; [lia|]. done.
  - intros x. unfold obj_resolve_field. apply resolve_flat; try done. lia.
Qed.
End sound.

(** ** A small program: a structure packed into a class, and a subclass *)
Definition class_heap : heap := Heap
  [Type_ HVOID TNone; Type_ HI32 TNone; Type_ HDYN TNone; Type_ HSTRUCT (TObj 0); Type_ HPACKED (TParam 3); Type_ HOBJ (TObj 1);
   Type_ HOBJ (TObj 2); Type_ HFUN (TFun (TypeFun [5] 1)); Type_ HF64 TNone; Type_ HUI8 TNone]
  [TypeObj (named 10 "P") None [ObjField (named 20 "a") 1 120; ObjField (named 21 "b") 2 121] [] [] None;
   TypeObj (named 11 "A") None [ObjField (named 22 "flag") 9 122; ObjField (named 23 "pos") 4 123] [ObjProto (named 24 "foo") 0 0 124] [] None;
   TypeObj (named 12 "B") (Some 5) [ObjField (named 25 "x") 8 125; ObjField (named 26 "next") 5 126]
     [ObjProto (named 24 "foo") 1 0 124; ObjProto (named 27 "bar") 1 (-1) 127] [] None]
  [] [].
Definition class_functions : Z -> list Z := fun _ => [7; 7].
Definition class_rank (o : Z) : nat := if o =? 1 then 1 else if o =? 2 then 2 else 0.
Definition class_bound (o : Z) : Z := if o =? 0 then 45 else if o =? 1 then 82 else 119.
Definition no_entry : hl_field_lookup Z := FieldLookup 0 0 0.
Lemma aget_cons_cases {A} (x : A) l i y : aget (x :: l) i = Some y -> (i = 0 /\ y = x) \/ (1 <= i /\ aget l (i - 1) = Some y).
Proof.
  intros Hi. pose proof (aget_Some_range _ _ _ Hi). destruct (decide (i = 0)) as [->|]; [left; by injection Hi|right]. split; [lia|].
  change (x :: l) with ([x] ++ l) in Hi. by rewrite aget_app_r in Hi by (change (alen [x]) with 1; lia).
Qed.
Lemma aget_nil_none {A} i (y : A) : aget [] i = Some y -> False.
Proof. intros Hi. apply aget_Some_range in Hi. change (alen (@nil A)) with 0 in Hi. lia. Qed.
(** Which entry of a literal list a successful access read. *)
Ltac pick H := cbn [objs o_fields o_proto class_heap] in H; repeat (apply aget_cons_cases in H as [[? ->]|[? H]]); try (by apply aget_nil_none in H).
Lemma class_heap_ok : heap_ok class_heap.
Proof.
  split; [| |constructor..].
  - repeat apply Forall_cons_2; try apply Forall_nil_2; simpl; split_and?; auto; try small_valid; try lia; constructor; [small_valid|constructor].
  - repeat constructor; simpl; try small_valid; try small_name; try (by vm_compute); try discriminate.
    intros s [= <-]. by exists HOBJ, 1.
Qed.
Lemma class_program_ok : program_ok class_heap class_functions class_rank class_bound.
Proof.
  split.
  - exact class_heap_ok.
  - intros o. unfold class_rank. simpl. repeat case_if_bool; lia.
  - intros o d s o1 Hd Hs Ho1. pick Hd; try discriminate. injection Hs as <-. vm_compute in Ho1. injection Ho1 as <-.
    replace o with 2 by lia. vm_compute. lia.
  - intros o d i f tp Hd Hf Hk Htp. pick Hd; pick Hf; vm_compute in Hk; try discriminate. vm_compute in Htp. injection Htp as <-. exists 0.
    split; [done|]. split; [by vm_compute|]. split; [replace o with 1 by lia; vm_compute; lia|].
    eexists _, 0, _, HI32. by vm_compute.
  - intros o d Hd. pick Hd; [replace o with 0 by lia|replace o with 1 by lia|replace o with 2 by lia]; vm_compute; split; discriminate.
  - intros o d Hd. pick Hd; by vm_compute.
  - intros o d i j f g Hd Hf Hg _ _ Hx. pick Hd; pick Hf; pick Hg; simpl in Hx; lia.
  - intros o d i j f g Hd Hf Hg Hx _ _. pick Hd; pick Hf; pick Hg; simpl in Hx; lia.
  - intros o d i j f g Hd Hf Hg _ _. pick Hd; pick Hf; pick Hg; simpl; lia.
  - intros o d i p Hd Hp _. pick Hd; pick Hp; (split; [by vm_compute|]); exists 7, (TypeFun [5] 1); (split; [by vm_compute|]); (split; [by vm_compute|]);
      (split; [apply Forall_cons_2; [small_valid|by apply Forall_nil_2]|small_valid]).
Qed.

Definition class_state : rt_state :=
  Eval vm_compute in match hl_get_obj_rt class_heap class_functions no_entry 4 no_classes 6 with Some (st, _) => st | None => no_classes end.
Lemma class_state_built : built class_heap class_bound class_state.
Proof.
  destruct (get_obj_rt_ok class_heap class_functions no_entry class_rank class_bound class_program_ok 4 no_classes 6 2) as (st & Hst & Hb & _);
    [done|by vm_compute|vm_compute; lia|apply no_classes_built|].
  assert (hl_get_obj_rt class_heap class_functions no_entry 4 no_classes 6 = Some (class_state, 2)) as Hc by (vm_compute; reflexivity).
  rewrite Hc in Hst. by injection Hst as <-.
Qed.
(** [B] has its fields after the flag and the packed structure of [A], and two words of
    the collector's map. *)
Example class_offsets : rt_fields_indexes <$> st_rt class_state !! 2 = Some [8; 16; 32; 40].
Proof. reflexivity. Qed.
Definition class_fields (o : Z) : list hl_obj_field := match aget (objs class_heap) o with Some d => o_fields d | None => [] end.
Lemma class_flat : flat class_heap 2 (class_fields 1 ++ class_fields 2).
Proof.
  apply (flat_sub class_heap 2 (TypeObj (named 12 "B") (Some 5) (class_fields 2)
     [ObjProto (named 24 "foo") 1 0 124; ObjProto (named 27 "bar") 1 (-1) 127] [] None) 5 1); [done..|].
  by apply (flat_root class_heap 1 (TypeObj (named 11 "A") None (class_fields 1) [ObjProto (named 24 "foo") 0 0 124] [] None)).
Qed.
Definition class_rt : hl_runtime_obj :=
  Eval vm_compute in match st_rt class_state !! 2 with Some rt => rt | None => RuntimeObj 0 0 0 0 0 0 0 0 false [] None None 0 [] end.
Lemma class_rt_of : st_rt class_state !! 2 = Some class_rt.
Proof. vm_compute. reflexivity. Qed.

Lemma hl_get_obj_rt_builds_witness :
  exists st', hl_get_obj_rt class_heap class_functions no_entry 4 no_classes 6 = Some (st', 2) /\
    built class_heap class_bound st' /\ extends no_classes st' /\ is_Some (st_rt st' !! 2) /\
    hl_get_obj_rt class_heap class_functions no_entry 4 st' 6 = Some (st', 2).
Proof.
  apply (hl_get_obj_rt_builds class_heap class_functions no_entry class_rank class_bound class_program_ok no_classes 6 2);
    [reflexivity|split; [discriminate|reflexivity]|apply no_classes_built].
Defined.
Lemma class_types : Forall (class_type class_heap) [6; 3].
Proof. repeat constructor; [exists 2|exists 0]; vm_compute; repeat split; discriminate. Qed.
Lemma object_fields_disjoint_witness :
  exists st, get_all_rt class_heap class_functions no_entry no_classes [6; 3] = Some st /\ Forall (laid_out class_heap st) [6; 3] /\
  forall o fs rt, flat class_heap o fs -> st_rt st !! o = Some rt ->
  alen (rt_fields_indexes rt) = alen fs /\
  exists lo, header class_heap st o lo /\
  (forall i f off, aget fs i = Some f -> aget (rt_fields_indexes rt) i = Some off -> exists a s,
     field_align class_heap st f = Some a /\ field_size class_heap st f = Some s /\ 0 <= s /\ off mod a = 0 /\
     lo <= off /\ off + s <= rt_size rt - rt_pad_size rt /\ (0 < s -> rt_size rt mod a = 0)) /\
  (forall i j f offi offj s, i < j -> aget fs i = Some f -> field_size class_heap st f = Some s ->
     aget (rt_fields_indexes rt) i = Some offi -> aget (rt_fields_indexes rt) j = Some offj -> offi + s <= offj).
Proof.
  exact (object_fields_disjoint class_heap class_functions no_entry class_rank class_bound class_program_ok [6; 3] class_types).
Defined.
Lemma object_bitmap_exact_witness :
  exists st, get_all_rt class_heap class_functions no_entry no_classes [6; 3] = Some st /\ Forall (laid_out class_heap st) [6; 3] /\
  forall o fs rt w, flat class_heap o fs -> st_rt st !! o = Some rt -> 0 <= w ->
  (marked st rt w = true <-> pointer_at class_heap st o w) /\ (marked st rt w = true -> 8 * w + 8 <= rt_size rt).
Proof.
  exact (object_bitmap_exact class_heap class_functions no_entry class_rank class_bound class_program_ok [6; 3] class_types).
Defined.
(** The two calls lay out three classes: the second finds the structure built by the first. *)
Example class_calls : get_all_rt class_heap class_functions no_entry no_classes [6; 3] = Some class_state.
Proof. reflexivity. Qed.
(** The pointer inside the packed structure is in word 3, [next] in word 5. *)
Example class_map : map (fun w => marked class_state class_rt w) [0; 1; 2; 3; 4; 5] = [false; false; false; true; false; true].
Proof. reflexivity. Qed.
Lemma obj_fields_found_witness :
  (forall fid, hl_obj_field_fetch class_heap class_functions no_entry 4 class_state 6 fid = Some (class_state, aget (class_fields 1 ++ class_fields 2) fid)) /\
  (forall x, exists r, obj_resolve_field class_heap class_state 2 x = Some r /\
    (forall e, r = Some e -> hashed_name e = x /\ (0 <= field_index e -> entry_names (class_fields 1 ++ class_fields 2) (rt_fields_indexes class_rt) x e)) /\
    (r = None -> forall i f, aget (class_fields 1 ++ class_fields 2) i = Some f -> named_field f -> f_hashed_name f <> x)).
Proof.
  apply (obj_fields_found class_heap class_functions no_entry class_rank class_bound class_program_ok class_state 2 _ class_rt 6 class_state_built class_flat class_rt_of);
    [reflexivity|left; reflexivity].
Defined.
