(* ===== verification/LayoutEnum.v ===== *)
(** * Virtuals and enum constructors are laid out soundly

    [hl_init_virtual] and [hl_init_enum] place fields like [hl_get_obj_rt], without
    packed structures, and record where the pointers are. *)
From S2P Require Import Prelude DataStruct Ustr Buffer Lookup Reader Types TypesProps TypesText Layout LayoutProps LayoutClass LayoutSound.

Section plain.
Context (h : heap) (Hok : heap_ok h).

(** No runtime object is needed: the fields are not packed. *)
Definition plain_type (t : Z) : Prop := valid h t /\ kind_of h t <> Some HPACKED.
Lemma plain_place t f size : plain_type t -> f_t f = t -> 0 <= size <= 2 ^ 29 -> exists pad s a b,
  hl_pad_struct h size t = Some pad /\ size + pad = align_up size a /\ field_align h no_classes f = Some a /\ 0 < a <= 8 /\
  hl_type_size h t = Some s /\ field_size h no_classes f = Some s /\ 0 <= s <= 8 /\ hl_is_ptr h t = Some b /\ (b = true -> s = 8 /\ a = 8).
Proof.
  intros [Hv Hnp] <- Hs. change (2 ^ 29) with 536870912 in Hs. destruct (valid_kind h Hok _ Hv) as (k & Hk & Hr).
  assert (k <> HPACKED) as Hkp by congruence. assert (is_packed h f = false) as Hpk by (unfold is_packed; apply bool_decide_false; congruence).
  destruct (kind_sizes k Hr) as (s & Hts & Hal & Hss). destruct (Hss Hkp) as (Hsr & Hsa & _).
  destruct (hl_pad_struct_spec h size (f_t f) k Hk Hr) as (pad & Hpad & Hp); [unfold INT_MAX; lia|].
  assert (exists b, hl_is_ptr h (f_t f) = Some b) as [b Hb].
  { unfold hl_is_ptr. rewrite Hk. cbn [mbind option_bind]. apply aget_is_Some. change (alen T_IS_PTR) with 24. lia. }
  assert (hl_type_size h (f_t f) = Some s) as Hsize by (unfold hl_type_size; by rewrite Hk).
  exists pad, s, (kind_align k), b. do 2 (split; [done|]). split; [unfold field_align; by rewrite Hpk, Hk|]. split; [unfold pow2_8 in Hal; lia|].
  split; [done|]. split; [unfold field_size; by rewrite Hpk|]. split; [lia|]. split; [done|]. intros ->.
  pose proof (pointer_size h f k Hk Hr Hpk Hb). assert (s = 8) by congruence. split; [done|lia].
Qed.

(** ** Virtuals *)
(** The table, the offsets and the size after [i] fields. *)
Definition virtual_inv (fs : list hl_obj_field) (lo i : Z) (s : list (hl_field_lookup Z) * list Z * Z) : Prop :=
  let '(l, indexes, size) := s in
  alen l = alen fs /\ alen indexes = alen fs /\ size <= lo + 15 * i /\
  (exists offs, placed h no_classes (take (Z.to_nat i) fs) offs lo size /\ forall j off, aget offs j = Some off -> aget indexes j = Some off) /\
  exists m, repr l i m /\ forall x ty ix, m !! x = Some (ty, ix) <-> exists f, 0 <= ix < i /\ aget fs ix = Some f /\ f_hashed_name f = x /\ f_t f = ty.
Definition distinct_names (fs : list hl_obj_field) : Prop :=
  forall i j f g, aget fs i = Some f -> aget fs j = Some g -> f_hashed_name f = f_hashed_name g -> i = j.
Lemma virtual_step fs lo i s : Forall (fun f => plain_type (f_t f)) fs -> distinct_names fs -> alen fs <= 2 ^ 24 -> 0 <= lo <= 2 ^ 28 -> 0 <= i < alen fs ->
  virtual_inv fs lo i s -> exists s', (fun i '(l, indexes, size) =>
      f ← aget fs i;
      '(l, _) ← hl_lookup_insert l i (f_hashed_name f) (f_t f) i;
      pad ← hl_pad_struct h size (f_t f); size ← int_of (size + pad);
      indexes ← aset indexes i size;
      sz ← hl_type_size h (f_t f); size ← int_of (size + sz);
      Some (l, indexes, size)) i s = Some s' /\ virtual_inv fs lo (i + 1) s'.
Proof.
  intros Hfs Hnames Hlen Hlo Hi. destruct s as [[l indexes] size]. intros (Hl & Hil & Hsize & (offs & Hpl & Hoffs) & m & Hm & Hmm).
  change (2 ^ 24) with 16777216 in Hlen. change (2 ^ 28) with 268435456 in Hlo.
  destruct (aget_is_Some fs i Hi) as [f Hf]. rewrite Hf. cbn [mbind option_bind].
  assert (m !! f_hashed_name f = None) as Hfresh.
  { apply eq_None_not_Some. intros [[ty ix] (g & Hg & Hgi & Hx & _)%Hmm]. pose proof (Hnames ix i g f Hgi Hf Hx). lia. }
  destruct (insert_repr l i m (f_hashed_name f) (f_t f) i Hm) as (l' & pos & -> & Hl' & _ & Hm'); [unfold INT_MAX; lia|lia|done|]. cbn [mbind option_bind].
  destruct (placed_bounds h _ _ _ _ _ Hpl) as (Hlo' & Hle & _). assert (alen offs = i) as Hoi by (rewrite Hlo', alen_take by lia; lia).
  destruct (plain_place (f_t f) f size (Forall_aget _ _ _ _ Hfs Hf) eq_refl) as (pad & s & a & b & -> & Hpad & Ha & Har & Hs & Hfsz & Hsr & _); [change (2 ^ 29) with 536870912; lia|].
  cbn [mbind option_bind]. destruct (align_up_spec size a ltac:(lia)) as [Hau _].
  rewrite int_of_Some by (unfold in_i32, INT_MIN, INT_MAX; lia). cbn [mbind option_bind].
  destruct (aset_total indexes i (size + pad)) as (ix' & Hset & Hil' & _); [lia|]. rewrite Hset. cbn [mbind option_bind]. rewrite Hs. cbn [mbind option_bind].
  rewrite int_of_Some by (unfold in_i32, INT_MIN, INT_MAX; lia). cbn [mbind option_bind]. eexists. split; [done|].
  split; [lia|]. split; [lia|]. split; [lia|]. split.
  - exists (offs ++ [align_up size a]). rewrite (take_snoc _ _ _ Hf), Hpad. split; [apply placed_snoc; (done || lia)|].
    intros j off Hj. pose proof (aget_Some_range _ _ _ Hj) as Hjr. rewrite alen_app in Hjr. change (alen [_]) with 1 in Hjr. destruct (decide (j = i)) as [->|].
    + rewrite aget_app_r, Hoi, Z.sub_diag in Hj by lia. injection Hj as <-. rewrite <- Hpad. exact (aget_aset_eq _ _ _ _ Hset).
    + rewrite aget_app_l in Hj by lia. rewrite (aget_aset_ne _ _ _ _ _ Hset) by lia. by apply Hoffs.
  - eexists. split; [exact Hm'|]. intros x ty ix. rewrite lookup_insert. case_decide as Hx.
    + subst x. split; [intros [= <- <-]; exists f; split; [lia|done]|]. intros (g & Hg & Hgi & Hx & <-). pose proof (Hnames ix i g f Hgi Hf Hx). subst ix. congruence.
    + rewrite Hmm. split; intros (g & Hg & Hgi & Hgx & Hty); exists g; (split; [|done]); [lia|]. destruct (decide (ix = i)) as [->|]; [congruence|lia].
Qed.
(** A bitmap with one more bit per pointer field. *)
Definition marks_upto (fs : list hl_obj_field) (idx mark0 : list Z) (i : Z) (mark : list Z) : Prop :=
  alen mark = alen mark0 /\ forall w, 0 <= w -> mark_bit mark w = true <-> mark_bit mark0 w = true \/
    exists j f off, 0 <= j < i /\ aget fs j = Some f /\ aget idx j = Some off /\ hl_is_ptr h (f_t f) = Some true /\ w = off / 8.
Lemma marks_snoc fs idx mark0 i mark mark' f off : 0 <= i -> aget fs i = Some f -> aget idx i = Some off -> marks_upto fs idx mark0 i mark -> alen mark' = alen mark ->
  (forall w, 0 <= w -> mark_bit mark' w = true <-> mark_bit mark w = true \/ (hl_is_ptr h (f_t f) = Some true /\ w = off / 8)) ->
  marks_upto fs idx mark0 (i + 1) mark'.
Proof.
  intros Hi Hf Hoff [Hl Hm] Hl' Hw. split; [lia|]. intros w Hw0. rewrite Hw, Hm by done. split.
  - intros [[?|(j & g & off' & Hj & Hrest)]|Hrest]; [by left|right; exists j, g, off'; split; [lia|done]|right; exists i, f, off; split; [lia|done]].
  - intros [?|(j & g & off' & Hj & Hg & Ho & Hrest)]; [by left; left|]. destruct (decide (j = i)) as [->|]; [right; simplify_eq; done|].
    left. right. exists j, g, off'. split; [lia|done].
Qed.
Lemma virtual_marks fs indexes mark0 lo hi : Forall (fun f => plain_type (f_t f)) fs -> 0 <= lo -> placed h no_classes fs indexes lo hi ->
  hi <= 8 * (32 * alen mark0) ->
  exists mark, afor (fun i mark =>
      f ← aget fs i; ptr ← hl_is_ptr h (f_t f);
      if (ptr : bool) then off ← aget indexes i; set_mark mark (Z.quot off HL_WSIZE) else Some mark) (length fs) 0 mark0 = Some mark /\
    marks_upto fs indexes mark0 (alen fs) mark.
Proof.
  intros Hfs Hlo Hpl Hhi. destruct (placed_bounds h _ _ _ _ _ Hpl) as (Hl & _ & Hin & _).
  apply (afor_total _ (marks_upto fs indexes mark0)).
  - split; [done|]. intros w Hw. split; [by left|]. intros [?|(j & f & off & Hj & _)]; [done|lia].
  - intros i mark Hi Hm. destruct (aget_is_Some fs i) as [f Hf]; [unfold alen; lia|]. destruct (aget_is_Some indexes i) as [off Hoff]; [rewrite Hl; unfold alen; lia|].
    destruct (Hin i f off Hf Hoff) as (a & s & Ha & _ & Hs & _ & Hmod & Hlow & Hup).
    destruct (plain_place (f_t f) f 0 (Forall_aget _ _ _ _ Hfs Hf) eq_refl) as (_ & s' & a' & b & _ & _ & Ha' & _ & _ & Hs' & _ & Hb & Hbs); [lia|].
    assert (s' = s) as -> by congruence. assert (a' = a) as -> by congruence.
    rewrite Hf. cbn [mbind option_bind]. rewrite Hb. cbn [mbind option_bind]. destruct b.
    + rewrite Hoff. cbn [mbind option_bind]. destruct (Hbs eq_refl) as [-> ->]. unfold HL_WSIZE. rewrite Z.quot_div_nonneg by lia.
      destruct (set_mark_spec mark (off / 8)) as (mark' & -> & Hl' & Hb'); [rewrite (proj1 Hm); z_div|]. exists mark'. split; [done|].
      eapply marks_snoc; try done; [lia|]. intros w Hw. rewrite Hb', orb_true_iff, Z.eqb_eq by done. tauto.
    + exists mark. split; [done|]. eapply marks_snoc; try done; [lia|]. intros w Hw. rewrite Hb. split; [by left|]. intros [?|[? _]]; done.
Qed.

(** Virtuals are laid out soundly.  [hl_init_virtual] succeeds on every virtual type
    without packed fields whose field names are distinct; the inline fields follow the
    header and the table of field pointers, each aligned, none overlapping; the table
    finds the position of a field by its hash and nothing else; and the bitmap marks
    exactly [value], [next] and the fields that hold pointers (not the table of field
    pointers, which points into the object or its value). *)
Theorem hl_init_virtual_layout junk vt fs : virt_of h vt = Some fs -> Forall (fun f => plain_type (f_t f)) fs -> distinct_names fs -> alen fs <= 2 ^ 24 ->
  exists v, hl_init_virtual h junk vt = Some v /\ alen (v_indexes v) = alen fs /\
    (forall i f off, aget fs i = Some f -> aget (v_indexes v) i = Some off -> exists a s,
      field_align h no_classes f = Some a /\ field_size h no_classes f = Some s /\ off mod a = 0 /\
      24 + 8 * alen fs <= off /\ off + s <= 24 + 8 * alen fs + v_dataSize v) /\
    (forall i j f offi offj s, i < j -> aget fs i = Some f -> field_size h no_classes f = Some s ->
      aget (v_indexes v) i = Some offi -> aget (v_indexes v) j = Some offj -> offi + s <= offj) /\
    (forall x, exists r, hl_lookup_find (v_lookup v) (alen fs) x = Some r /\
      (forall p, r = Some p -> exists i f, aget (v_lookup v) p = Some (FieldLookup (f_t f) x i) /\ aget fs i = Some f /\ f_hashed_name f = x) /\
      (r = None -> forall i f, aget fs i = Some f -> f_hashed_name f <> x)) /\
    (forall w, 0 <= w -> mark_bit (v_marks v) w = true <->
      w = 1 \/ w = 2 \/ exists i f off, aget fs i = Some f /\ aget (v_indexes v) i = Some off /\ hl_is_ptr h (f_t f) = Some true /\ w = off / 8).
Proof.
  intros Hvt Hfs Hnames Hlen. change (2 ^ 24) with 16777216 in Hlen. pose proof (alen_nonneg fs). set (lo := 24 + 8 * alen fs).
  unfold hl_init_virtual. rewrite Hvt. cbn [mbind option_bind]. unfold VVIRTUAL_SIZE, HL_WSIZE. replace (3 * 8 + 8 * alen fs) with lo by done.
  rewrite int_of_Some by (unfold in_i32, INT_MIN, INT_MAX; lia). cbn [mbind option_bind].
  match goal with |- context [afor ?f _ _ _ ≫= _] => destruct (afor_total f (virtual_inv fs lo) (length fs) 0 (replicate (length fs) junk, replicate (length fs) 0, lo)) as ([[l indexes] size] & -> & Hinv) end.
  { split; [by rewrite alen_replicate|]. split; [by rewrite alen_replicate|]. split; [lia|]. split; [exists []; split; [constructor|]|].
    - intros j off Hj. by apply aget_nil_none in Hj.
    - exists ∅. split; [apply lookup_empty_repr|]. intros x ty ix. rewrite lookup_empty. split; [done|]. intros (f & Hf & _). lia. }
  { intros i s Hi Hs. apply virtual_step; try done; change (2 ^ 28) with 268435456; change (2 ^ 24) with 16777216; unfold alen in *; lia. }
  cbn [mbind option_bind]. destruct Hinv as (Hl & Hil & Hsize & (offs & Hpl & Hoffs) & m & Hm & Hmm). rewrite take_ge in Hpl by lia.
  destruct (placed_bounds h _ _ _ _ _ Hpl) as (Hol & Hle & Hin & Hdis).
  assert (indexes = offs) as ->. { apply aget_ext; [lia|]. intros i Hi. destruct (aget_is_Some offs i) as [x Hx]; [lia|]. rewrite Hx. by apply Hoffs. }
  change (Z.of_nat (length fs)) with (alen fs) in *.
  destruct (hl_mark_size_spec size) as (ms & -> & _ & _ & Hcap & Hml & _); [change (2 ^ 30) with 1073741824; lia|]. cbn [mbind option_bind].
  destruct (aset_total (zalloc_words ms) 0 (Z.lor 2 4)) as (mark0 & Hmark0 & Hl0 & Hg0); [lia|]. rewrite Hmark0. cbn [mbind option_bind].
  destruct (virtual_marks fs offs mark0 lo size Hfs ltac:(lia) Hpl) as (mark & Hloop & _ & Hbits); [lia|].
  unfold HL_WSIZE in Hloop. rewrite Hloop. cbn [mbind option_bind]. eexists. split; [done|]. cbn [v_dataSize v_indexes v_lookup v_marks].
  split; [done|]. split; [|split; [exact Hdis|split]].
  - intros i f off Hf Hoff. destruct (Hin i f off Hf Hoff) as (a & s & Ha & _ & Hs & _ & Hmod & Hlow & Hup). exists a, s. do 3 (split; [done|]). split; [done|lia].
  - intros x. destruct (lookup_find_repr l (alen fs) m x Hm) as [[Hno ->]|(i & ty & ix & Hyes & -> & He)]; [unfold INT_MAX; lia| |].
    + exists None. split; [done|]. split; [done|]. intros _ i f Hf Hx. pose proof (aget_Some_range _ _ _ Hf).
      assert (m !! x = Some (f_t f, i)) by (apply Hmm; exists f; done). congruence.
    + exists (Some i). split; [done|]. split; [|done]. intros p [= <-]. apply Hmm in Hyes as (f & _ & Hf & Hx & <-). exists ix, f. done.
  - intros w Hw. rewrite Hbits by done.
    assert (mark_bit mark0 w = true <-> w = 1 \/ w = 2) as ->.
    { unfold mark_bit. rewrite Hg0. pose proof (Z.div_mod w 32 ltac:(lia)). pose proof (Z.mod_pos_bound w 32 ltac:(lia)). case_decide as Hq.
      - change (Z.lor 2 4) with 6. assert (w mod 32 = w) as -> by lia. split; [|by intros [-> | ->]].
        intros Hb. assert (Z.testbit 6 w = false \/ w = 1 \/ w = 2) as [?|?]; [|congruence|done].
        destruct (decide (w = 0)) as [->|]; [by left|]. destruct (decide (w = 1)); [by right; left|]. destruct (decide (w = 2)); [by right; right|].
        left. apply Z.bits_above_log2; [done|]. change (Z.log2 6) with 2. lia.
      - pose proof (mark_bit_zero ms w) as Hz. unfold mark_bit in Hz. rewrite Hz. split; [done|]. intros [-> | ->]; by destruct Hq. }
    split.
    + intros [[?|?]|(i & f & off & _ & Hrest)]; [by left|by right; left|right; right; by exists i, f, off].
    + intros [?|[?|(i & f & off & Hf & Hrest)]]; [by left; left|by left; right|right]. exists i, f, off. pose proof (aget_Some_range _ _ _ Hf). split; [lia|done].
Qed.

(** ** Enums *)
(** A parameter, seen as a field. *)
Definition as_field (t : Z) : hl_obj_field := ObjField (UName 0 []) t 0.
Definition has_pointer (c : hl_enum_construct) : Prop := exists j t, aget (c_params c) j = Some t /\ hl_is_ptr h t = Some true.
Definition construct_ok (c : hl_enum_construct) (l : construct_layout) : Prop :=
  placed h no_classes (map as_field (c_params c)) (c_offsets l) 12 (c_size l) /\ c_size l <= 12 + 15 * alen (c_params c) /\
  (c_hasptr l = true <-> has_pointer c).
Definition small_construct (c : hl_enum_construct) : Prop := Forall plain_type (c_params c) /\ alen (c_params c) <= 2 ^ 16.
Lemma aget_as_field ts j : aget (map as_field ts) j = as_field <$> aget ts j.
Proof.
  destruct (decide (0 <= j)) as [Hj|Hj]; [rewrite !aget_lookup by done; apply list_lookup_fmap|].
  rewrite (proj2 (aget_None (map as_field ts) j)), (proj2 (aget_None ts j)) by lia. done.
Qed.
Lemma alen_as_field ts : alen (map as_field ts) = alen ts.
Proof. unfold alen. by rewrite length_map. Qed.

Definition construct_inv (ts : list Z) (j : Z) (s : Z * bool * list Z) : Prop :=
  let '(size, hasptr, offsets) := s in
  alen offsets = alen ts /\ size <= 12 + 15 * j /\
  (exists offs, placed h no_classes (take (Z.to_nat j) (map as_field ts)) offs 12 size /\ forall i off, aget offs i = Some off -> aget offsets i = Some off) /\
  (hasptr = true <-> exists i t, i < j /\ aget ts i = Some t /\ hl_is_ptr h t = Some true).
Lemma construct_loop_step c j s : small_construct c -> 0 <= j < alen (c_params c) -> construct_inv (c_params c) j s ->
  exists s', (fun j '(size, hasptr, offsets) =>
      t ← aget (c_params c) j;
      pad ← hl_pad_struct h size t; size ← int_of (size + pad);
      offsets ← aset offsets j size;
      ptr ← hl_is_ptr h t; sz ← hl_type_size h t; size ← int_of (size + sz);
      Some (size, hasptr || ptr, offsets)) j s = Some s' /\ construct_inv (c_params c) (j + 1) s'.
Proof.
  intros [Hts Hlen] Hj. destruct s as [[size hasptr] offsets]. intros (Hol & Hsize & (offs & Hpl & Hoffs) & Hhp). change (2 ^ 16) with 65536 in Hlen.
  destruct (aget_is_Some (c_params c) j Hj) as [t Ht]. rewrite Ht. cbn [mbind option_bind].
  destruct (placed_bounds h _ _ _ _ _ Hpl) as (Hlo' & Hle & _). assert (alen offs = j) as Hoi by (rewrite Hlo', alen_take by (rewrite alen_as_field; lia); lia).
  destruct (plain_place t (as_field t) size (Forall_aget _ _ _ _ Hts Ht) eq_refl) as (pad & s & a & b & -> & Hpad & Ha & Har & Hs & Hfsz & Hsr & Hb & _); [change (2 ^ 29) with 536870912; lia|].
  cbn [mbind option_bind]. destruct (align_up_spec size a ltac:(lia)) as [Hau _].
  rewrite int_of_Some by (unfold in_i32, INT_MIN, INT_MAX; lia). cbn [mbind option_bind].
  destruct (aset_total offsets j (size + pad)) as (ix' & Hset & Hil' & _); [lia|]. rewrite Hset. cbn [mbind option_bind]. rewrite Hb. cbn [mbind option_bind]. rewrite Hs. cbn [mbind option_bind].
  rewrite int_of_Some by (unfold in_i32, INT_MIN, INT_MAX; lia). cbn [mbind option_bind]. eexists. split; [done|].
  split; [lia|]. split; [lia|]. split.
  - exists (offs ++ [align_up size a]). assert (aget (map as_field (c_params c)) j = Some (as_field t)) as Hf by (by rewrite aget_as_field, Ht).
    rewrite (take_snoc _ _ _ Hf), Hpad. split; [apply placed_snoc; (done || lia)|].
    intros i off Hi. pose proof (aget_Some_range _ _ _ Hi) as Hir. rewrite alen_app in Hir. change (alen [_]) with 1 in Hir. destruct (decide (i = j)) as [->|].
    + rewrite aget_app_r, Hoi, Z.sub_diag in Hi by lia. injection Hi as <-. rewrite <- Hpad. exact (aget_aset_eq _ _ _ _ Hset).
    + rewrite aget_app_l in Hi by lia. rewrite (aget_aset_ne _ _ _ _ _ Hset) by lia. by apply Hoffs.
  - rewrite orb_true_iff, Hhp. split.
    + intros [(i & t' & Hi & Hrest)| ->]; [exists i, t'; split; [lia|done]|exists j, t; split; [lia|done]].
    + intros (i & t' & Hi & Hti & Hp). destruct (decide (i = j)) as [->|]; [right; congruence|left; exists i, t'; split; [lia|done]].
Qed.
Lemma construct_step_ok c : small_construct c -> exists l, construct_step h c = Some l /\ construct_ok c l.
Proof.
  intros Hc. unfold construct_step, HL_WSIZE. change (8 + 4) with 12.
  match goal with |- context [afor ?f _ _ _ ≫= _] => destruct (afor_total f (construct_inv (c_params c)) (length (c_params c)) 0 (12, false, replicate (length (c_params c)) 0)) as ([[size hasptr] offsets] & -> & Hinv) end.
  - split; [by rewrite alen_replicate|]. split; [lia|]. split; [exists []; split; [constructor|]|].
    + intros i off Hi. by apply aget_nil_none in Hi.
    + split; [done|]. intros (i & t & Hi & Ht & _). apply aget_Some_range in Ht. lia.
  - intros j s Hj Hs. apply construct_loop_step; try done.
  - cbn [mbind option_bind]. eexists. split; [done|]. destruct Hinv as (Hol & Hsize & (offs & Hpl & Hoffs) & Hhp).
    change (0 + Z.of_nat (length (c_params c))) with (alen (c_params c)) in *. rewrite take_ge in Hpl by (rewrite length_map; unfold alen; lia).
    destruct (placed_bounds h _ _ _ _ _ Hpl) as (Hlo & _). rewrite alen_as_field in Hlo.
    assert (offsets = offs) as ->. { apply aget_ext; [lia|]. intros i Hi. destruct (aget_is_Some offs i) as [x Hx]; [lia|]. rewrite Hx. by apply Hoffs. }
    split; [done|]. split; [done|]. simpl. rewrite Hhp. split; intros (j & t & Hrest); exists j, t; [tauto|]. destruct Hrest as [Ht Hp]. pose proof (aget_Some_range _ _ _ Ht). split; [lia|done].
Qed.

Lemma pointer_param c l j t off : construct_ok c l -> small_construct c -> aget (c_params c) j = Some t -> aget (c_offsets l) j = Some off ->
  hl_is_ptr h t = Some true -> 0 <= off / 8 - 2 /\ 8 * (off / 8 - 2) + 8 <= c_size l - 16 /\ c_hasptr l = true.
Proof.
  intros (Hpl & _ & Hhp) [Hts _] Ht Hoff Hptr. destruct (placed_bounds h _ _ _ _ _ Hpl) as (_ & _ & Hin & _).
  destruct (Hin j (as_field t) off) as (a & s & Ha & _ & Hs & _ & Hmod & Hlo & Hhi); [by rewrite aget_as_field, Ht|done|].
  destruct (plain_place t (as_field t) 0 (Forall_aget _ _ _ _ Hts Ht) eq_refl) as (_ & s' & a' & b & _ & _ & Ha' & _ & _ & Hs' & _ & Hb & Hbs); [lia|].
  rewrite Hptr in Hb. injection Hb as <-. destruct (Hbs eq_refl) as [-> ->]. rewrite Ha in Ha'. injection Ha' as ->. rewrite Hs in Hs'. injection Hs' as ->.
  pose proof (Z.div_mod off 8 ltac:(lia)). split; [lia|]. split; [lia|]. apply Hhp. by exists j, t.
Qed.
Definition construct_at (cs : list hl_enum_construct) (ls : list construct_layout) (i : Z) (c : hl_enum_construct) (l : construct_layout) : Prop :=
  aget cs i = Some c /\ aget ls i = Some l.
(** Bit [w] stands for a pointer parameter of constructor [i]. *)
Definition enum_word (cs : list hl_enum_construct) (ls : list construct_layout) (i j w : Z) : Prop :=
  exists c l t off, construct_at cs ls i c l /\ aget (c_params c) j = Some t /\ hl_is_ptr h t = Some true /\
    aget (c_offsets l) j = Some off /\ w = 32 * i + (off / 8 - 2).
Section enum.
Context (cs : list hl_enum_construct) (ls : list construct_layout).
Context (Hcs : Forall small_construct cs) (Hls : Forall2 construct_ok cs ls) (Hn : alen cs <= 2 ^ 16).
Lemma construct_case i : 0 <= i < alen ls -> exists c l, construct_at cs ls i c l /\ small_construct c /\ construct_ok c l.
Proof.
  intros Hi. destruct (aget_is_Some ls i Hi) as [l Hl]. assert (alen cs = alen ls) as Hlen by (unfold alen; by rewrite (Forall2_length _ _ _ Hls)).
  destruct (aget_is_Some cs i ltac:(lia)) as [c Hc]. exists c, l. split; [done|]. split; [exact (Forall_aget _ _ _ _ Hcs Hc)|]. destruct (Forall2_aget _ _ _ _ _ Hls Hc) as (l' & Hl' & ?). congruence.
Qed.
Lemma enum_mark_size_ok : exists m, enum_mark_size ls = Some m /\ 0 <= m /\ m mod 4 = 0 /\
  forall i l, aget ls i = Some l -> c_hasptr l = true -> c_size l - 16 <= 8 * (32 * (m / 4 - i)).
Proof.
  assert (alen ls <= 65536) as Hll by (unfold alen in *; rewrite <- (Forall2_length _ _ _ Hls); exact Hn). unfold enum_mark_size.
  match goal with |- context [afor ?f _ _ _ ≫= _] => destruct (afor_total f (fun i s => 0 <= s.2 /\ s.2 mod 4 = 0 /\
    forall i' l, i' < i -> aget ls i' = Some l -> c_hasptr l = true -> c_size l - 16 <= 8 * (32 * (s.2 / 4 - i'))) (length ls) 0 (0, 0)) as ([x m] & -> & Hm) end.
  - split; [done|]. split; [done|]. intros i' l Hi Hl. apply aget_Some_range in Hl. lia.
  - intros i [x m] Hi (Hm0 & Hmod & Hm). simpl in Hm0, Hmod, Hm. destruct (construct_case i) as (c & l & [_ Hl] & Hsm & Hcok); [unfold alen; lia|].
    pose proof Hcok as (Hpl & Hsz & Hhp). pose proof Hsm as [_ Hcl]. change (2 ^ 16) with 65536 in Hcl. rewrite Hl. cbn [mbind option_bind]. destruct (c_hasptr l) eqn:Ehp.
    + destruct (placed_bounds h _ _ _ _ _ Hpl) as (_ & Hle & _).
      assert (16 < c_size l) as Hbig.
      { destruct (proj1 Hhp eq_refl) as (j & t & Ht & Hp). pose proof (aget_Some_range _ _ _ Ht). destruct (placed_bounds h _ _ _ _ _ Hpl) as (Hlen & _). rewrite alen_as_field in Hlen.
        destruct (aget_is_Some (c_offsets l) j) as [off Hoff]; [lia|]. destruct (pointer_param c l j t off Hcok Hsm Ht Hoff Hp) as (? & ? & _). lia. }
      unfold HL_WSIZE. destruct (hl_mark_size_spec (c_size l - 8 * 2)) as (ms & -> & Hms & Hms4 & Hcap & _ & Hw); [change (2 ^ 30) with 1073741824; lia|]. cbn [mbind option_bind].
      assert (ms <= 2000000) by z_div. assert (i < 65536) by (unfold alen in Hll; lia). rewrite int_of_Some by (unfold in_i32, INT_MIN, INT_MAX; lia). cbn [mbind option_bind]. eexists. split; [done|]. cbn [fst snd].
      destruct (Z.gtb_spec (i * 4 + ms) m) as [Hgt|Hle2].
      * split; [lia|]. split; [z_div|]. intros i' l' Hi' Hl' Hp'. destruct (decide (i' = i)) as [->|]; [assert (l' = l) as -> by congruence; z_div|].
        specialize (Hm i' l' ltac:(lia) Hl' Hp'). z_div.
      * split; [lia|]. split; [done|]. intros i' l' Hi' Hl' Hp'. destruct (decide (i' = i)) as [->|]; [assert (l' = l) as -> by congruence; z_div|].
        exact (Hm i' l' ltac:(lia) Hl' Hp').
    + eexists. split; [done|]. cbn [fst snd]. split; [done|]. split; [done|]. intros i' l' Hi' Hl' Hp'. destruct (decide (i' = i)) as [->|]; [congruence|].
      exact (Hm i' l' ltac:(lia) Hl' Hp').
  - cbn [mbind option_bind fst snd] in *. destruct Hm as (H1 & H2 & H3). exists m. split; [done|]. split; [done|]. split; [done|]. intros i l Hl Hp. apply H3; [|done|done].
    apply aget_Some_range in Hl. unfold alen in Hl. lia.
Qed.

(** The bits after the parameters before [j] of constructor [i]. *)
Definition enum_upto (i j : Z) (mark0 mark : list Z) : Prop :=
  alen mark = alen mark0 /\ forall w, 0 <= w -> mark_bit mark w = true <->
    mark_bit mark0 w = true \/ exists j', 0 <= j' < j /\ enum_word cs ls i j' w.
Lemma construct_marks i c l mark0 : construct_at cs ls i c l -> 0 <= i -> small_construct c -> construct_ok c l ->
  c_size l - 16 <= 8 * (32 * (alen mark0 - i)) ->
  exists mark, afor (fun j mark =>
          t ← aget (c_params c) j; ptr ← hl_is_ptr h t;
          if (ptr : bool) then
            off ← aget (c_offsets l) j;
            mark_word mark (i + Z.shiftr (Z.quot off HL_WSIZE - 2) 5) (Z.land (Z.quot off HL_WSIZE - 2) 31)
          else Some mark) (length (c_params c)) 0 mark0 = Some mark /\ enum_upto i (alen (c_params c)) mark0 mark.
Proof.
  intros Hat Hi Hsm Hcok Hcap. pose proof Hcok as (Hpl & _). destruct (placed_bounds h _ _ _ _ _ Hpl) as (Hlen & _). rewrite alen_as_field in Hlen.
  apply (afor_total _ (fun j mark => enum_upto i j mark0 mark)).
  - split; [done|]. intros w Hw. split; [by left|]. intros [?|(j & Hj & _)]; [done|lia].
  - intros j mark Hj [Hl Hm]. destruct (aget_is_Some (c_params c) j) as [t Ht]; [unfold alen; lia|]. destruct (aget_is_Some (c_offsets l) j) as [off Hoff]; [rewrite Hlen; unfold alen; lia|].
    destruct (plain_place t (as_field t) 0 (Forall_aget _ _ _ _ (proj1 Hsm) Ht) eq_refl) as (_ & _ & _ & b & _ & _ & _ & _ & _ & _ & _ & Hb & _); [lia|].
    rewrite Ht. cbn [mbind option_bind]. rewrite Hb. cbn [mbind option_bind].
    assert (forall w, enum_word cs ls i j w <-> b = true /\ w = 32 * i + (off / 8 - 2)) as Hword.
    { intros w. split.
      - intros (c' & l' & t' & off' & [Hc' Hl'] & Ht' & Hp & Ho & ->). destruct Hat as [Hc Hll]. simplify_eq. done.
      - intros [-> ->]. by exists c, l, t, off. }
    assert (forall w, (exists j', 0 <= j' < j + 1 /\ enum_word cs ls i j' w) <-> (exists j', 0 <= j' < j /\ enum_word cs ls i j' w) \/ enum_word cs ls i j w) as Hsnoc.
    { intros w. split.
      - intros (j' & Hj' & Hw). destruct (decide (j' = j)) as [->|]; [by right|left; exists j'; split; [lia|done]].
      - intros [(j' & Hj' & Hw)|Hw]; [exists j'; split; [lia|done]|exists j; split; [lia|done]]. }
    destruct b.
    + rewrite Hoff. cbn [mbind option_bind]. destruct (pointer_param c l j t off Hcok Hsm Ht Hoff Hb) as (Hp0 & Hp1 & _).
      assert (0 <= off) by z_div. unfold HL_WSIZE. rewrite Z.quot_div_nonneg by lia. cbv zeta. set (pos := off / 8 - 2) in *.
      rewrite shiftr_div, (land_mask 5) by (done || lia). change (2 ^ 5) with 32.
      destruct (mark_word_spec mark (i + pos / 32) (pos mod 32)) as (mark' & -> & Hl' & Hb'); [rewrite Hl; z_div|apply Z.mod_pos_bound; lia|].
      exists mark'. split; [done|]. split; [lia|]. intros w Hw. rewrite Hb', orb_true_iff, Hm, Z.eqb_eq by done. rewrite (Hsnoc w), (Hword w).
      replace (32 * (i + pos / 32) + pos mod 32) with (32 * i + pos) by z_div. tauto.
    + exists mark. split; [done|]. split; [done|]. intros w Hw. rewrite Hm by done. rewrite (Hsnoc w), (Hword w). split; [tauto|]. intros [?|[?|[? _]]]; [by left|by right|done].
Qed.
Lemma enum_marks_ok mark0 : (forall w, 0 <= w -> mark_bit mark0 w = false) ->
  (forall i l, aget ls i = Some l -> c_hasptr l = true -> c_size l - 16 <= 8 * (32 * (alen mark0 - i))) ->
  exists mark, afor (fun i mark =>
      l ← aget ls i; c ← aget cs i;
      if negb (c_hasptr l) then Some mark else
      afor (fun j mark =>
          t ← aget (c_params c) j; ptr ← hl_is_ptr h t;
          if (ptr : bool) then
            off ← aget (c_offsets l) j;
            let pos := Z.quot off HL_WSIZE - 2 in
            mark_word mark (i + Z.shiftr pos 5) (Z.land pos 31)
          else Some mark) (length (c_params c)) 0 mark)
    (length ls) 0 mark0 = Some mark /\ alen mark = alen mark0 /\
    forall w, 0 <= w -> mark_bit mark w = true <-> exists i j, enum_word cs ls i j w.
Proof.
  intros Hz Hcap.
  match goal with |- exists _, afor ?f _ _ _ = _ /\ _ => destruct (afor_total f (fun i mark => alen mark = alen mark0 /\
    forall w, 0 <= w -> mark_bit mark w = true <-> exists i' j, i' < i /\ enum_word cs ls i' j w) (length ls) 0 mark0) as (mark & -> & Hl & Hm) end.
  - split; [done|]. intros w Hw. rewrite Hz by done. split; [done|]. intros (i & j & Hi & c & l & t & off & [Hc _] & _). apply aget_Some_range in Hc. lia.
  - intros i mark Hi [Hl Hm]. destruct (construct_case i) as (c & l & [Hc Hll] & Hsm & Hcok); [unfold alen; lia|]. rewrite Hll. cbn [mbind option_bind]. rewrite Hc. cbn [mbind option_bind].
    pose proof Hcok as (Hpl & _ & Hhp). destruct (c_hasptr l) eqn:Ehp; cbn [negb].
    + destruct (construct_marks i c l mark (conj Hc Hll) ltac:(lia) Hsm Hcok) as (mark' & -> & Hl' & Hm'); [rewrite Hl; by apply Hcap|].
      exists mark'. split; [done|]. split; [lia|]. intros w Hw. rewrite Hm', Hm by done. split.
      * intros [(i' & j & Hi' & Hw')|(j & _ & Hw')]; [exists i', j; split; [lia|done]|exists i, j; split; [lia|done]].
      * intros (i' & j & Hi' & Hw'). destruct (decide (i' = i)) as [->|]; [right|left; exists i', j; split; [lia|done]]. exists j. split; [|done].
        destruct Hw' as (c' & l' & t & off & [Hc' _] & Ht & _). assert (c' = c) as -> by congruence. by apply aget_Some_range in Ht.
    + exists mark. split; [done|]. split; [done|]. intros w Hw. rewrite Hm by done. split; intros (i' & j & Hi' & Hw'); exists i', j; [split; [lia|done]|].
      split; [|done]. destruct (decide (i' = i)) as [->|]; [|lia]. destruct Hw' as (c' & l' & t & off & [Hc' Hl'] & Ht & Hp & _).
      assert (c' = c) as -> by congruence. enough (false = true) by done. apply Hhp. by exists j, t.
  - exists mark. split; [done|]. split; [done|]. intros w Hw. rewrite Hm by done. split; intros (i & j & Hrest); exists i, j; [tauto|]. split; [|done].
    destruct Hrest as (c & l & t & off & [_ Hl'] & _). apply aget_Some_range in Hl'. unfold alen in Hl'. lia.
Qed.
End enum.

(** C32. Enum constructors are laid out soundly.  [hl_init_enum] succeeds on every enum
    without packed parameters; the parameters of a constructor follow its type and index,
    each aligned, none overlapping, inside its size; [hasptr] says whether one is a
    pointer.  The collector reads the bits of constructor [i] from word [i] of the bitmap,
    without the two words of the header: the bit of every pointer parameter is set there,
    and inside the bitmap.  When no constructor has more than 32 words of parameters, no
    other bit of its word is set. *)
Theorem hl_init_enum_covers et e : enum_of h et = Some e -> Forall small_construct (e_constructs e) -> alen (e_constructs e) <= 2 ^ 16 ->
  exists ls mark, hl_init_enum h et = Some (ls, mark) /\ alen ls = alen (e_constructs e) /\
    (forall i c l, construct_at (e_constructs e) ls i c l ->
      (forall j t off, aget (c_params c) j = Some t -> aget (c_offsets l) j = Some off -> exists a s,
        field_align h no_classes (as_field t) = Some a /\ hl_type_size h t = Some s /\ off mod a = 0 /\ 12 <= off /\ off + s <= c_size l) /\
      (forall j k t offj offk s, j < k -> aget (c_params c) j = Some t -> hl_type_size h t = Some s ->
        aget (c_offsets l) j = Some offj -> aget (c_offsets l) k = Some offk -> offj + s <= offk) /\
      (c_hasptr l = true <-> has_pointer c) /\
      (forall j t off, aget (c_params c) j = Some t -> aget (c_offsets l) j = Some off -> hl_is_ptr h t = Some true ->
        mark_bit mark (32 * i + (off / 8 - 2)) = true /\ 32 * i + (off / 8 - 2) < 32 * alen mark)) /\
    ((forall i l, aget ls i = Some l -> c_size l <= 16 + 32 * 8) -> forall i c l p, construct_at (e_constructs e) ls i c l -> 0 <= p < 32 ->
      mark_bit mark (32 * i + p) = true <->
      exists j t off, aget (c_params c) j = Some t /\ aget (c_offsets l) j = Some off /\ hl_is_ptr h t = Some true /\ p = off / 8 - 2).
Proof.
  intros He Hsm Hn. set (cs := e_constructs e) in *. unfold hl_init_enum. rewrite He. cbn [mbind option_bind].
  destruct (mapM_total (construct_step h) construct_ok cs) as (ls & Hm & Hls).
  { intros c Hc. apply construct_step_ok. by eapply Forall_forall. }
  fold cs. rewrite Hm. cbn [mbind option_bind]. destruct (enum_mark_size_ok cs ls Hsm Hls Hn) as (m & -> & Hm0 & Hm4 & Hcap). cbn [mbind option_bind].
  assert (alen (zalloc_words m) = m / 4) as Hz by (unfold zalloc_words; rewrite alen_replicate; z_div).
  destruct (enum_marks_ok cs ls Hsm Hls (zalloc_words m)) as (mark & Hloop & Hml & Hbits); [intros w _; apply mark_bit_zero|rewrite Hz; exact Hcap|].
  fold cs. cbv zeta in Hloop |- *. rewrite Hloop. cbn [mbind option_bind]. exists ls, mark. split; [done|].
  assert (alen ls = alen cs) as Hlen by (unfold alen; by rewrite (Forall2_length _ _ _ Hls)). split; [done|].
  assert (forall i c l, construct_at cs ls i c l -> small_construct c /\ construct_ok c l) as Hat.
  { intros i c l [Hc Hl]. split; [exact (Forall_aget _ _ _ _ Hsm Hc)|]. destruct (Forall2_aget _ _ _ _ _ Hls Hc) as (l' & Hl' & ?). congruence. }
  assert (forall c l j t off, small_construct c -> construct_ok c l -> aget (c_params c) j = Some t -> aget (c_offsets l) j = Some off -> exists a s,
      field_align h no_classes (as_field t) = Some a /\ field_size h no_classes (as_field t) = Some s /\ hl_type_size h t = Some s /\ off mod a = 0 /\ 12 <= off /\ off + s <= c_size l) as Hin.
  { intros c l j t off [Hts _] (Hpl & _) Ht Hoff. destruct (placed_bounds h _ _ _ _ _ Hpl) as (_ & _ & Hin & _).
    destruct (Hin j (as_field t) off) as (a & s & Ha & _ & Hs & _ & Hmod & Hlo & Hhi); [by rewrite aget_as_field, Ht|done|]. exists a, s.
    destruct (plain_place t (as_field t) 0 (Forall_aget _ _ _ _ Hts Ht) eq_refl) as (_ & s' & _ & _ & _ & _ & _ & _ & Hs1 & Hs2 & _); [lia|].
    rewrite Hs in Hs2. injection Hs2 as <-. done. }
  split.
  - intros i c l Hat'. destruct (Hat i c l Hat') as [Hc Hok']. pose proof Hok' as (Hpl & _ & Hhp). split; [|split; [|split; [done|]]].
    + intros j t off Ht Hoff. destruct (Hin c l j t off Hc Hok' Ht Hoff) as (a & s & ? & _ & ? & ?). by exists a, s.
    + intros j k t offj offk s Hjk Ht Hs Hj Hk. destruct (placed_bounds h _ _ _ _ _ Hpl) as (_ & _ & _ & Hdis).
      apply (Hdis j k (as_field t) offj offk s Hjk); [by rewrite aget_as_field, Ht| |done|done].
      destruct (Hin c l j t offj Hc Hok' Ht Hj) as (_ & s' & _ & Hs' & Hs'' & _). congruence.
    + intros j t off Ht Hoff Hp. destruct (pointer_param c l j t off Hok' Hc Ht Hoff Hp) as (Hp0 & Hp1 & Hptr).
      pose proof (aget_Some_range _ _ _ (proj1 Hat')). split.
      * apply Hbits; [lia|]. exists i, j. by exists c, l, t, off.
      * rewrite Hml, Hz. pose proof (Hcap i l (proj2 Hat') Hptr). lia.
  - intros Hsmall i c l p Hat' Hp. destruct (Hat i c l Hat') as [Hc Hok']. pose proof (aget_Some_range _ _ _ (proj1 Hat')). rewrite Hbits by lia. split.
    + intros (i' & j & c' & l' & t & off & Hat2 & Ht & Hptr & Hoff & Hw). destruct (Hat i' c' l' Hat2) as [Hc' Hok2].
      destruct (pointer_param c' l' j t off Hok2 Hc' Ht Hoff Hptr) as (Hp0 & Hp1 & _). pose proof (Hsmall i' l' (proj2 Hat2)).
      assert (i' = i) as -> by lia. assert (c' = c) as -> by (destruct Hat2, Hat'; congruence). assert (l' = l) as -> by (destruct Hat2, Hat'; congruence).
      exists j, t, off. do 3 (split; [done|]). lia.
    + intros (j & t & off & Ht & Hoff & Hptr & ->). exists i, j. by exists c, l, t, off.
Qed.
End plain.

(** A constructor with more than 32 words of parameters sets bits of the next one's word:
    here the 33rd parameter of the first marks the integers of the second. *)
Definition wide_heap : heap := Heap [Type_ HVOID TNone; Type_ HI32 TNone; Type_ HDYN TNone; Type_ HENUM (TEnum 0); Type_ HVIRTUAL (TVirt 0)] []
  [[ObjField (named 20 "x") 1 120; ObjField (named 21 "y") 2 121]]
  [TypeEnum None [EnumConstruct (named 31 "Wide") (replicate 33 2); EnumConstruct (named 32 "Pair") [1; 1; 1; 2]] None].
Lemma wide_enum_overlap : (m ← snd <$> hl_init_enum wide_heap 3; Some (map (mark_bit m) [32 + 0; 32 + 1; 32 + 2])) = Some [true; true; false].
Proof. reflexivity. Qed.
Lemma wide_heap_ok : heap_ok wide_heap.
Proof.
  split.
  - repeat apply Forall_cons_2; try apply Forall_nil_2; simpl; split_and?; auto; solve [vm_compute; discriminate|vm_compute; reflexivity].
  - constructor.
  - repeat apply Forall_cons_2; try apply Forall_nil_2; simpl; (split; [small_valid|small_name]).
  - repeat apply Forall_cons_2; try apply Forall_nil_2. split; [done|]. repeat apply Forall_cons_2; try apply Forall_nil_2; simpl; small_valid.
Qed.
Lemma plain_wide t : t = 1 \/ t = 2 -> plain_type wide_heap t.
Proof. intros [-> | ->]; (split; [small_valid|done]). Qed.
Lemma hl_init_virtual_layout_witness :
  exists v, hl_init_virtual wide_heap no_entry 4 = Some v /\ alen (v_indexes v) = 2 /\
    (forall i f off, aget [ObjField (named 20 "x") 1 120; ObjField (named 21 "y") 2 121] i = Some f -> aget (v_indexes v) i = Some off -> exists a s,
      field_align wide_heap no_classes f = Some a /\ field_size wide_heap no_classes f = Some s /\ off mod a = 0 /\
      40 <= off /\ off + s <= 40 + v_dataSize v) /\
    (forall i j f offi offj s, i < j -> aget [ObjField (named 20 "x") 1 120; ObjField (named 21 "y") 2 121] i = Some f -> field_size wide_heap no_classes f = Some s ->
      aget (v_indexes v) i = Some offi -> aget (v_indexes v) j = Some offj -> offi + s <= offj) /\
    (forall x, exists r, hl_lookup_find (v_lookup v) 2 x = Some r /\
      (forall p, r = Some p -> exists i f, aget (v_lookup v) p = Some (FieldLookup (f_t f) x i) /\
        aget [ObjField (named 20 "x") 1 120; ObjField (named 21 "y") 2 121] i = Some f /\ f_hashed_name f = x) /\
      (r = None -> forall i f, aget [ObjField (named 20 "x") 1 120; ObjField (named 21 "y") 2 121] i = Some f -> f_hashed_name f <> x)) /\
    (forall w, 0 <= w -> mark_bit (v_marks v) w = true <->
      w = 1 \/ w = 2 \/ exists i f off, aget [ObjField (named 20 "x") 1 120; ObjField (named 21 "y") 2 121] i = Some f /\
        aget (v_indexes v) i = Some off /\ hl_is_ptr wide_heap (f_t f) = Some true /\ w = off / 8).
Proof.
  apply (hl_init_virtual_layout wide_heap wide_heap_ok no_entry 4 [ObjField (named 20 "x") 1 120; ObjField (named 21 "y") 2 121]).
  - reflexivity.
  - apply Forall_cons_2; [apply plain_wide; by left|]. apply Forall_cons_2; [apply plain_wide; by right|]. by apply Forall_nil_2.
  - intros i j f g Hf Hg Hx. pick Hf; pick Hg; simpl in Hx; lia.
  - discriminate.
Defined.
Definition wide_enum : hl_type_enum := TypeEnum None [EnumConstruct (named 31 "Wide") (replicate 33 2); EnumConstruct (named 32 "Pair") [1; 1; 1; 2]] None.
Lemma hl_init_enum_covers_witness :
  exists ls mark, hl_init_enum wide_heap 3 = Some (ls, mark) /\ alen ls = 2 /\
    (forall i c l, construct_at (e_constructs wide_enum) ls i c l ->
      (forall j t off, aget (c_params c) j = Some t -> aget (c_offsets l) j = Some off -> exists a s,
        field_align wide_heap no_classes (as_field t) = Some a /\ hl_type_size wide_heap t = Some s /\ off mod a = 0 /\ 12 <= off /\ off + s <= c_size l) /\
      (forall j k t offj offk s, j < k -> aget (c_params c) j = Some t -> hl_type_size wide_heap t = Some s ->
        aget (c_offsets l) j = Some offj -> aget (c_offsets l) k = Some offk -> offj + s <= offk) /\
      (c_hasptr l = true <-> has_pointer wide_heap c) /\
      (forall j t off, aget (c_params c) j = Some t -> aget (c_offsets l) j = Some off -> hl_is_ptr wide_heap t = Some true ->
        mark_bit mark (32 * i + (off / 8 - 2)) = true /\ 32 * i + (off / 8 - 2) < 32 * alen mark)) /\
    ((forall i l, aget ls i = Some l -> c_size l <= 16 + 32 * 8) -> forall i c l p, construct_at (e_constructs wide_enum) ls i c l -> 0 <= p < 32 ->
      mark_bit mark (32 * i + p) = true <->
      exists j t off, aget (c_params c) j = Some t /\ aget (c_offsets l) j = Some off /\ hl_is_ptr wide_heap t = Some true /\ p = off / 8 - 2).
Proof.
  apply (hl_init_enum_covers wide_heap wide_heap_ok 3 wide_enum).
  - reflexivity.
  - apply Forall_cons_2; [|apply Forall_cons_2; [|by apply Forall_nil_2]]; (split; [|by vm_compute]).
    + apply Forall_forall. intros t Ht. simpl in Ht. apply plain_wide. right. apply list_elem_of_In in Ht. simpl in Ht. lia.
    + repeat apply Forall_cons_2; try apply Forall_nil_2; apply plain_wide; auto.
  - discriminate.
Defined.
