(* ===== verification/Sort.v ===== *)
(** * The in-place merge sort ([src/std/sort.h], [src/std/bytes.c])

    [sort.h] is included once per element type; the definitions are over any type of
    elements and any comparison.  The comparison is a closure of the program: here a
    function of the two elements.  Sorting moves elements by rotating blocks in place,
    so the whole state is the array. *)
From S2P Require Import Prelude.

(** [static int ms_gcd( int m, int n )] *)
Definition ms_gcd (m n : Z) : option Z :=
  loop (fun '(m, n) => if n =? 0 then Some (inr m) else Some (inl (n, Z.rem m n))) (S (S (Z.to_nat n))) (m, n).

Section sort.
Context {A : Type} (cmp : A -> A -> Z).

Definition ms_compare (arr : list A) (a b : Z) : option Z := x ← aget arr a; y ← aget arr b; Some (cmp x y).
Definition ms_swap (arr : list A) (a b : Z) : option (list A) :=
  tmp ← aget arr a; y ← aget arr b; arr ← aset arr a y; aset arr b tmp.

(** ** Binary search in a sorted run *)
Definition ms_lower (arr : list A) (from to val : Z) : option Z :=
  loop (fun '(from, len) =>
      if len >? 0 then
        let half := Z.shiftr len 1 in
        let mid := from + half in
        c ← ms_compare arr mid val;
        if c <? 0 then Some (inl (mid + 1, len - half - 1)) else Some (inl (from, half))
      else Some (inr from)) (S (Z.to_nat (to - from))) (from, to - from).
Definition ms_upper (arr : list A) (from to val : Z) : option Z :=
  loop (fun '(from, len) =>
      if len >? 0 then
        let half := Z.shiftr len 1 in
        let mid := from + half in
        c ← ms_compare arr val mid;
        if c <? 0 then Some (inl (from, half)) else Some (inl (mid + 1, len - half - 1))
      else Some (inr from)) (S (Z.to_nat (to - from))) (from, to - from).

(** ** Rotation *)
(** One turn of [while (n-- != 0)]: the elements [shift] apart from [from + n] on. *)
Definition rotate_cycle (arr : list A) (from mid to n : Z) : option (list A) :=
  val ← aget arr (from + n);
  let shift := mid - from in
  loop (fun '(arr, p1, p2) =>
      if negb (p2 =? from + n) then
        x ← aget arr p2; arr ← aset arr p1 x;
        Some (inl (arr, p2, if to - p2 >? shift then p2 + shift else from + (shift - (to - p2))))
      else arr ← aset arr p1 val; Some (inr arr))
    (S (Z.to_nat (to - from))) (arr, from + n, from + n + shift).
Fixpoint rotate_cycles (n : nat) (arr : list A) (from mid to : Z) : option (list A) :=
  match n with
  | O => Some arr
  | S n => arr ← rotate_cycle arr from mid to (Z.of_nat n); rotate_cycles n arr from mid to
  end.
Definition ms_rotate (arr : list A) (from mid to : Z) : option (list A) :=
  if (from =? mid) || (mid =? to) then Some arr else
  n ← ms_gcd (to - from) (mid - from); rotate_cycles (Z.to_nat n) arr from mid to.

(** ** Merging two runs that follow each other *)
Fixpoint ms_do_merge (fuel : nat) (arr : list A) (from pivot to len1 len2 : Z) : option (list A) :=
  match fuel with
  | O => None
  | S fuel =>
      if (len1 =? 0) || (len2 =? 0) then Some arr
      else if len1 + len2 =? 2 then
        c ← ms_compare arr pivot from; if c <? 0 then ms_swap arr pivot from else Some arr
      else
        '(len11, len22, first_cut, second_cut) ←
          (if len1 >? len2 then
             let len11 := Z.shiftr len1 1 in
             let first_cut := from + len11 in
             second_cut ← ms_lower arr pivot to first_cut;
             Some (len11, second_cut - pivot, first_cut, second_cut)
           else
             let len22 := Z.shiftr len2 1 in
             let second_cut := pivot + len22 in
             first_cut ← ms_upper arr from pivot second_cut;
             Some (first_cut - from, len22, first_cut, second_cut));
        arr ← ms_rotate arr first_cut pivot second_cut;
        let new_mid := first_cut + len22 in
        arr ← ms_do_merge fuel arr from first_cut new_mid len11 len22;
        ms_do_merge fuel arr new_mid second_cut to (len1 - len11) (len2 - len22)
  end.

(** ** The sort *)
(** [while( j > from )]: the element at [j] goes down to its place. *)
Definition insert_down (arr : list A) (from j : Z) : option (list A) :=
  loop (fun '(arr, j) =>
      if j >? from then
        c ← ms_compare arr j (j - 1);
        if c <? 0 then arr ← ms_swap arr (j - 1) j; Some (inl (arr, j - 1)) else Some (inr arr)
      else Some (inr arr)) (S (Z.to_nat (j - from))) (arr, j).
Fixpoint merge_sort_rec (fuel : nat) (arr : list A) (from to : Z) : option (list A) :=
  match fuel with
  | O => None
  | S fuel =>
      if to - from <? 12 then
        if to <=? from then Some arr else
        afor (fun i arr => insert_down arr from i) (Z.to_nat (to - from - 1)) (from + 1) arr
      else
        sum ← int_add from to;
        let middle := Z.shiftr sum 1 in
        arr ← merge_sort_rec fuel arr from middle;
        arr ← merge_sort_rec fuel arr middle to;
        ms_do_merge (S (Z.to_nat (to - from))) arr from middle to (middle - from) (to - middle)
  end.
(** [hl_bsort_i32], [hl_bsort_f64], [hl_bsort_i64], on the elements from [pos] on. *)
Definition hl_bsort (arr : list A) (len : Z) : option (list A) := merge_sort_rec (S (Z.to_nat len)) arr 0 len.
End sort.

Example sort_9 : hl_bsort Z.sub [5; 3; 9; 1; 1; 7; 0; 2; 8; 4; 6; 3; 2; 9; 1; 5; 0] 17 = Some [0; 0; 1; 1; 1; 2; 2; 3; 3; 4; 5; 5; 6; 7; 8; 9; 9].
Proof. vm_compute. reflexivity. Qed.
Example rotate_3 : ms_rotate [9; 1; 2; 3; 4; 5; 6; 9] 1 3 7 = Some [9; 3; 4; 5; 6; 1; 2; 9].
Proof. vm_compute. reflexivity. Qed.

(** ** Rotation moves the second block before the first *)
Lemma ms_gcd_spec m n : 0 <= m -> 0 <= n -> ms_gcd m n = Some (Z.gcd m n).
Proof.
  intros Hm Hn. unfold ms_gcd.
  edestruct (loop_total (fun '(m, n) => if n =? 0 then Some (inr m) else Some (inl (n, Z.rem m n)))
    (fun s : Z * Z => 0 <= s.1 /\ 0 <= s.2 /\ Z.gcd s.1 s.2 = Z.gcd m n) (fun r => r = Z.gcd m n) (fun s => S (Z.to_nat s.2))) as (r & -> & ->); [| | |done].
  - intros [a b] (Ha & Hb & Hg). simpl in *. destruct (b =? 0) eqn:E; zbool.
    + right. subst b. rewrite Z.gcd_0_r, Z.abs_eq in Hg by done. by exists a.
    + left. eexists. split; [done|]. simpl. rewrite Z.rem_mod_nonneg by lia. pose proof (Z.mod_pos_bound a b ltac:(lia)).
      split; [|lia]. split; [lia|]. split; [lia|]. rewrite <- Hg, Z.gcd_comm, Z.gcd_mod by lia. apply Z.gcd_comm.
  - done.
  - simpl. lia.
Qed.

Section rotation.
Context {A : Type}.
(** The window of the array: [L] elements from [from] on, moved by [s]. *)
Context (from L s : Z) (Hfrom : 0 <= from) (Hs : 0 < s < L).
Definition at_step (n i : Z) : Z := from + (n + i * s) mod L.
Lemma at_step_range n i : from <= at_step n i < from + L.
Proof. unfold at_step. pose proof (Z.mod_pos_bound (n + i * s) L ltac:(lia)). lia. Qed.
(** [p2 += shift], or around the end. *)
Lemma next_step n i : 0 <= n -> (if from + L - at_step n i >? s then at_step n i + s else from + (s - (from + L - at_step n i))) = at_step n (i + 1).
Proof.
  intros Hn. unfold at_step. pose proof (Z.mod_pos_bound (n + i * s) L ltac:(lia)) as Hb. set (r := (n + i * s) mod L) in *.
  replace (n + (i + 1) * s) with (n + i * s + s) by lia. rewrite <- Z.add_mod_idemp_l by lia. fold r.
  destruct (Z.gtb_spec (from + L - (from + r)) s).
  - rewrite Z.mod_small by lia. lia.
  - rewrite <- (Z.mod_unique_pos (r + s) L 1 (r + s - L)) by lia. lia.
Qed.
Lemma at_step_diff n i j : 0 <= n < L -> i <= j -> at_step n i = at_step n j -> at_step n (j - i) = from + n.
Proof.
  unfold at_step. intros Hn Hij He. f_equal. assert ((n + i * s) mod L = (n + j * s) mod L) as Hm by lia.
  replace (n + (j - i) * s) with (n + j * s - (n + i * s) + n) by lia. rewrite Zplus_mod, Zminus_mod, Hm, Z.sub_diag, Z.mod_0_l, Z.add_0_l, Z.mod_mod by lia.
  by apply Z.mod_small.
Qed.

(** After [k] moves of the cycle of [n]. *)
Definition cycle_inv (arr0 : list A) (n k : Z) (st : list A * Z * Z) : Prop :=
  let '(arr, p1, p2) := st in
  0 <= k < L /\ p1 = at_step n k /\ p2 = at_step n (k + 1) /\ alen arr = alen arr0 /\
  (forall i, 1 <= i <= k -> at_step n i <> from + n) /\
  (forall i, 0 <= i < k -> aget arr (at_step n i) = aget arr0 (at_step n (i + 1))) /\
  (forall j, (forall i, 0 <= i < k -> j <> at_step n i) -> aget arr j = aget arr0 j).
Lemma cycle_distinct n k : 0 <= n < L -> (forall i, 1 <= i <= k -> at_step n i <> from + n) ->
  forall i j, 0 <= i -> i < j <= k -> at_step n i <> at_step n j.
Proof.
  intros Hn Hne i j Hi Hj He. apply (Hne (j - i)); [lia|]. apply at_step_diff; [done|lia|done].
Qed.
Definition cycle_done (arr0 : list A) (n : Z) (arr : list A) : Prop :=
  exists K, 0 < K /\ (K * s) mod L = 0 /\ alen arr = alen arr0 /\
    (forall i, 0 <= i < K -> aget arr (at_step n i) = aget arr0 (at_step n (i + 1))) /\
    (forall j, (forall i, 0 <= i < K -> j <> at_step n i) -> aget arr j = aget arr0 j).
Lemma cycle_loop arr0 n val : 0 <= n < L -> from + L <= alen arr0 -> aget arr0 (from + n) = Some val -> forall fuel k st,
  cycle_inv arr0 n k st -> (Z.to_nat (L - k) <= fuel)%nat ->
  exists arr, loop (fun '(arr, p1, p2) =>
      if negb (p2 =? from + n) then
        x ← aget arr p2; arr ← aset arr p1 x;
        Some (inl (arr, p2, if from + L - p2 >? s then p2 + s else from + (s - (from + L - p2))))
      else arr ← aset arr p1 val; Some (inr arr)) fuel st = Some arr /\ cycle_done arr0 n arr.
Proof.
  intros Hn Hlen Hval. induction fuel as [|fuel IH]; intros k [[arr p1] p2] (Hk & -> & -> & Hl & Hne & Hmoved & Hrest) Hfuel; [lia|].
  pose proof (at_step_range n k). pose proof (at_step_range n (k + 1)). simpl. destruct (Z.eqb_spec (at_step n (k + 1)) (from + n)) as [He|Hne1]; cbn [negb].
  - destruct (aset_total arr (at_step n k) val) as (arr' & Hset & Hl' & Hg); [lia|]. rewrite Hset. cbn [mbind option_bind].
    exists arr'. split; [done|]. exists (k + 1). split; [lia|]. split.
    { unfold at_step in He. assert ((n + (k + 1) * s) mod L = n) as Hm by lia. replace ((k + 1) * s) with (n + (k + 1) * s - n) by lia.
      by rewrite Zminus_mod, Hm, (Z.mod_small n), Z.sub_diag, Z.mod_0_l by lia. }
    split; [lia|]. split.
    + intros i Hi. rewrite Hg. case_decide as Hd.
      * destruct (decide (i = k)) as [->|]; [by rewrite He, Hval|]. exfalso. exact (cycle_distinct n k Hn Hne i k ltac:(lia) ltac:(lia) (eq_sym Hd)).
      * destruct (decide (i = k)) as [->|]; [done|]. apply Hmoved. lia.
    + intros j Hj. rewrite Hg. rewrite decide_False by (apply not_eq_sym, Hj; lia). apply Hrest. intros i Hi. apply Hj. lia.
  - assert (forall i, 1 <= i <= k + 1 -> at_step n i <> from + n) as Hne'.
    { intros i Hi. destruct (decide (i = k + 1)) as [->|]; [done|]. apply Hne. lia. }
    assert (k + 1 < L) as HkL.
    { destruct (decide (k + 1 < L)); [done|]. exfalso. apply Hne1. assert (k + 1 = L) as -> by lia. unfold at_step. rewrite Z.mul_comm, Z_mod_plus_full, Z.mod_small by lia. done. }
    pose proof (cycle_distinct n (k + 1) Hn Hne') as Hdist.
    destruct (aget_is_Some arr (at_step n (k + 1))) as [x Hx]; [lia|]. rewrite Hx. cbn [mbind option_bind].
    destruct (aset_total arr (at_step n k) x) as (arr' & Hset & Hl' & Hg); [lia|]. rewrite Hset. cbn [mbind option_bind].
    rewrite (next_step n (k + 1)) by lia. apply (IH (k + 1)); [|lia]. split; [lia|]. split; [done|]. split; [done|]. split; [lia|]. split; [done|]. split.
    + intros i Hi. rewrite Hg. case_decide as Hd.
      * destruct (decide (i = k)) as [->|]; [|exfalso; exact (Hdist i k ltac:(lia) ltac:(lia) (eq_sym Hd))].
        rewrite <- Hx. apply Hrest. intros i Hi'. symmetry. apply Hdist; lia.
      * destruct (decide (i = k)) as [->|]; [done|]. apply Hmoved. lia.
    + intros j Hj. rewrite Hg, decide_False by (apply not_eq_sym, Hj; lia). apply Hrest. intros i Hi'. apply Hj. lia.
Qed.
(** The cycle of [n] is the class of [n] modulo the greatest common divisor. *)
Lemma cycle_class n K j : 0 <= n < Z.gcd L s -> 0 < K -> (K * s) mod L = 0 -> from <= j < from + L ->
  (j - from) mod Z.gcd L s = n <-> exists i, 0 <= i < K /\ j = at_step n i.
Proof.
  intros Hn HK HKs Hj. set (g := Z.gcd L s) in *. assert ((g | L)) as HgL by apply Z.gcd_divide_l. assert ((g | s)) as Hgs by apply Z.gcd_divide_r.
  split.
  - intros Hq. destruct (Z.gcd_bezout L s g eq_refl) as (u & v & Huv). set (t := (j - from) / g).
    assert (j - from = n + t * g) as Hjt by (unfold t; pose proof (Z.div_mod (j - from) g ltac:(lia)); lia).
    exists ((t * v) mod K). split; [apply Z.mod_pos_bound; lia|]. unfold at_step.
    enough ((n + (t * v) mod K * s) mod L = j - from) by lia.
    apply Z.mod_divide in HKs as [w Hw]; [|lia].
    assert (n + (t * v) mod K * s = (j - from) + (- (t * u) - (t * v) / K * w) * L) as ->.
    { rewrite Z.mod_eq, Hjt, <- Huv by lia. set (q := (t * v) / K). assert (q * (K * s) = q * (w * L)) by (by rewrite Hw). lia. }
    rewrite Z_mod_plus_full. apply Z.mod_small. lia.
  - intros (i & _ & ->). unfold at_step. rewrite Z.add_simpl_l. rewrite Z.mod_mod_divide by done.
    destruct Hgs as [q Hq]. rewrite Hq, Z.mul_assoc, Z_mod_plus_full. apply Z.mod_small. lia.
Qed.
(** One cycle moves the elements of its class, and only these. *)
Lemma rotate_cycle_spec (arr0 : list A) n : 0 <= n < Z.gcd L s -> from + L <= alen arr0 ->
  exists arr, rotate_cycle arr0 from (from + s) (from + L) n = Some arr /\ alen arr = alen arr0 /\
    forall j, aget arr j = if decide (from <= j < from + L /\ (j - from) mod Z.gcd L s = n) then aget arr0 (from + (j - from + s) mod L) else aget arr0 j.
Proof.
  intros Hn Hlen. assert (Z.gcd L s <= s) as Hgs by (apply Z.divide_pos_le; [lia|apply Z.gcd_divide_r]).
  assert (Z.gcd L s <= L - s) as Hgs2 by (apply Z.divide_pos_le; [lia|apply Z.divide_sub_r; [apply Z.gcd_divide_l|apply Z.gcd_divide_r]]).
  unfold rotate_cycle. destruct (aget_is_Some arr0 (from + n)) as [val Hval]; [lia|]. rewrite Hval. cbn [mbind option_bind].
  replace (from + s - from) with s by lia. replace (from + L - from) with L by lia. cbv zeta.
  destruct (cycle_loop arr0 n val ltac:(lia) Hlen Hval (S (Z.to_nat L)) 0 (arr0, from + n, from + n + s)) as (arr & -> & K & HK & HKs & Hl & Hmoved & Hrest); [|lia|].
  - assert (at_step n 0 = from + n) as H0 by (unfold at_step; rewrite Z.mul_0_l, Z.add_0_r, Z.mod_small by lia; done).
    split; [lia|]. split; [done|]. split; [|split; [done|]; split; [lia|]; split; [lia|done]].
    rewrite <- (next_step n 0) by lia. rewrite H0. destruct (Z.gtb_spec (from + L - (from + n)) s); [done|lia].
  - exists arr. split; [done|]. split; [done|]. intros j. case_decide as Hd.
    + destruct Hd as [Hj Hc]. apply (cycle_class n K j Hn HK HKs Hj) in Hc as (i & Hi & ->). rewrite Hmoved by done. unfold at_step. rewrite Z.add_simpl_l, Z.add_mod_idemp_l by lia.
      do 3 f_equal. lia.
    + apply Hrest. intros i Hi ->. apply Hd. split; [apply at_step_range|]. apply (cycle_class n K _ Hn HK HKs (at_step_range n i)). by exists i.
Qed.
Lemma rotate_cycles_spec (arr0 : list A) k : (Z.of_nat k <= Z.gcd L s) -> from + L <= alen arr0 -> forall arr, alen arr = alen arr0 ->
  (forall j, aget arr j = if decide (from <= j < from + L /\ Z.of_nat k <= (j - from) mod Z.gcd L s) then aget arr0 (from + (j - from + s) mod L) else aget arr0 j) ->
  exists arr', rotate_cycles k arr from (from + s) (from + L) = Some arr' /\ alen arr' = alen arr0 /\
    forall j, aget arr' j = if decide (from <= j < from + L) then aget arr0 (from + (j - from + s) mod L) else aget arr0 j.
Proof.
  assert (0 < Z.gcd L s) as Hg by (pose proof (Z.gcd_nonneg L s); assert (Z.gcd L s <> 0) by (intros Hz%Z.gcd_eq_0_l; lia); lia).
  intros Hk Hlen. induction k as [|k IH]; intros arr Hl Harr.
  - exists arr. split; [done|]. split; [done|]. intros j. rewrite Harr. pose proof (Z.mod_pos_bound (j - from) (Z.gcd L s) Hg). repeat case_decide; try done; lia.
  - cbn [rotate_cycles]. destruct (rotate_cycle_spec arr (Z.of_nat k) ltac:(lia) ltac:(lia)) as (arr1 & -> & Hl1 & Harr1). cbn [mbind option_bind].
    apply IH; [lia|lia|]. intros j. rewrite Harr1.
    assert (forall q, from <= q < from + L -> (from + (q - from + s) mod L - from) mod Z.gcd L s = (q - from) mod Z.gcd L s) as Hclass.
    { intros q Hq. rewrite Z.add_simpl_l, Z.mod_mod_divide by apply Z.gcd_divide_l. destruct (Z.gcd_divide_r L s) as [w Hw]. rewrite Hw at 1. apply Z_mod_plus_full. }
    pose proof (Z.mod_pos_bound (j - from + s) L ltac:(lia)).
    case_decide as Hd.
    + destruct Hd as [Hj Hc]. rewrite Harr, decide_False by (rewrite Hclass by done; lia). by rewrite decide_True by lia.
    + rewrite Harr. repeat case_decide; try done; lia.
Qed.
End rotation.

Lemma ms_rotate_spec {A} (pre l1 l2 post : list A) :
  ms_rotate (pre ++ l1 ++ l2 ++ post) (alen pre) (alen pre + alen l1) (alen pre + alen l1 + alen l2) = Some (pre ++ l2 ++ l1 ++ post).
Proof.
  unfold ms_rotate. pose proof (alen_nonneg pre). pose proof (alen_nonneg l1) as H1. pose proof (alen_nonneg l2) as H2.
  destruct (Z.eqb_spec (alen pre) (alen pre + alen l1)) as [He1|Hne1].
  { assert (l1 = []) as -> by (destruct l1; [done|rewrite alen_cons in He1; pose proof (alen_nonneg l1); lia]). done. }
  destruct (Z.eqb_spec (alen pre + alen l1) (alen pre + alen l1 + alen l2)) as [He2|Hne2].
  { assert (l2 = []) as -> by (destruct l2; [done|rewrite alen_cons in He2; pose proof (alen_nonneg l2); lia]). done. }
  cbn [orb]. rewrite ms_gcd_spec by lia. cbn [mbind option_bind].
  replace (alen pre + alen l1 + alen l2 - alen pre) with (alen l1 + alen l2) by lia. replace (alen pre + alen l1 - alen pre) with (alen l1) by lia.
  rewrite <- (Z.add_assoc (alen pre)). set (L := alen l1 + alen l2). set (s := alen l1). assert (L = alen l1 + alen l2) as HL by done. assert (s = alen l1) as Hs by done. clearbody L s.
  set (arr := pre ++ l1 ++ l2 ++ post). assert (alen arr = alen pre + L + alen post) as Hlen by (unfold arr; rewrite !alen_app; lia). pose proof (alen_nonneg post).
  destruct (rotate_cycles_spec (alen pre) L s ltac:(lia) ltac:(lia) arr (Z.to_nat (Z.gcd L s))) with (arr := arr) as (arr' & Hr & Hl & Harr); [pose proof (Z.gcd_nonneg L s); lia|lia|done| |].
  { intros j. pose proof (Z.gcd_nonneg L s). case_decide as Hd; [|done]. destruct Hd as [Hj Hc]. pose proof (Z.mod_pos_bound (j - alen pre) (Z.gcd L s)).
    assert (Z.gcd L s <> 0) by (intros Hz%Z.gcd_eq_0_l; lia). lia. }
  rewrite Hr. f_equal. apply aget_ext; [rewrite Hl, Hlen, !alen_app; lia|]. intros j Hj. rewrite Harr. unfold arr. case_decide as Hd.
  - pose proof (Z.mod_pos_bound (j - alen pre + s) L ltac:(lia)). rewrite (aget_app_r pre (l1 ++ l2 ++ post)), (aget_app_r pre (l2 ++ l1 ++ post)), Z.add_simpl_l by lia.
    destruct (decide (j - alen pre < alen l2)).
    + rewrite Z.mod_small by lia. rewrite aget_app_r by lia. replace (j - alen pre + s - alen l1) with (j - alen pre) by lia. by rewrite !aget_app_l by lia.
    + rewrite <- (Z.mod_unique_pos (j - alen pre + s) L 1 (j - alen pre - alen l2)) by lia. rewrite aget_app_l by lia. rewrite aget_app_r by lia. by rewrite aget_app_l by lia.
  - destruct (decide (j < alen pre)); [by rewrite !aget_app_l by lia|]. rewrite !aget_app_r by lia. f_equal. lia.
Qed.
