(* ===== verification/SortProps.v ===== *)
(** * The merge sort is a stable sort

    For any comparison at all the sort ends, stays inside its range and permutes the
    elements; when the comparison is a strict weak order the result is sorted and equal
    elements keep their order. *)
From stdpp Require Import sorting.
From S2P Require Import Prelude Sort.

Section sorting.
Context {A : Type} (cmp : A -> A -> Z).
Definition lt (x y : A) : Prop := cmp x y < 0.
Definition le (x y : A) : Prop := ~ lt y x.
#[export] Instance lt_dec x y : Decision (lt x y).
Proof. unfold lt. apply _. Defined.
#[export] Instance le_dec x y : Decision (le x y).
Proof. unfold le. apply _. Defined.
(** What the documentation asks of a comparison. *)
Record weak_order : Prop := {
  lt_asym x y : lt x y -> ~ lt y x;
  le_trans x y z : le x y -> le y z -> le x z;
}.
(** Elements the comparison does not tell apart. *)
Definition eqv (x y : A) : Prop := le x y /\ le y x.
#[export] Instance eqv_dec x y : Decision (eqv x y).
Proof. unfold eqv. apply _. Defined.
Definition sorted (l : list A) : Prop := StronglySorted le l.
Definition stable (l l' : list A) : Prop := forall x, filter (eqv x) l = filter (eqv x) l'.
#[export] Instance stable_equiv : Equivalence stable.
Proof. split; [by intros l x|by intros l l' H x|intros l1 l2 l3 H1 H2 x; by rewrite H1, H2]. Qed.
Lemma stable_app l1 l1' l2 l2' : stable l1 l1' -> stable l2 l2' -> stable (l1 ++ l2) (l1' ++ l2').
Proof. intros H1 H2 x. by rewrite !filter_app, H1, H2. Qed.

Section order.
Context (Hord : weak_order).
Lemma le_of_lt x y : lt x y -> le x y.
Proof. apply Hord. Qed.
Lemma lt_le_trans x y z : lt x y -> le y z -> lt x z.
Proof. intros Hxy Hyz. destruct (decide (lt x z)) as [|Hn]; [done|]. exfalso. apply (le_trans Hord y z x Hyz Hn Hxy). Qed.
Lemma le_lt_trans x y z : le x y -> lt y z -> lt x z.
Proof. intros Hxy Hyz. destruct (decide (lt x z)) as [|Hn]; [done|]. exfalso. exact (le_trans Hord z x y Hn Hxy Hyz). Qed.
(** Blocks of which every element of one comes strictly before every element of the
    other can be exchanged. *)
Lemma stable_swap l1 l2 : (forall a b, a ∈ l1 -> b ∈ l2 -> lt b a) -> stable (l1 ++ l2) (l2 ++ l1).
Proof.
  intros Hlt x. rewrite !filter_app. destruct (filter (eqv x) l1) as [|a fa] eqn:E1; [by rewrite app_nil_r|].
  assert (filter (eqv x) l2 = []) as ->; [|by rewrite app_nil_r].
  assert (a ∈ filter (eqv x) l1) as Ha by (rewrite E1; left). apply list_elem_of_filter in Ha as [[H1 H2] Ha].
  destruct (filter (eqv x) l2) as [|b fb] eqn:E2; [done|]. assert (b ∈ filter (eqv x) l2) as Hb by (rewrite E2; left).
  apply list_elem_of_filter in Hb as [[H3 H4] Hb]. exfalso. exact (le_trans Hord a x b H2 H3 (Hlt a b Ha Hb)).
Qed.
End order.

(** ** Binary search *)
(** The test of [ms_lower] or [ms_upper] at [mid]: go right or not. *)
Lemma bisect (step : Z * Z -> option (Z * Z + Z)) (P : Z -> Prop) from to :
  (forall f len, from <= f -> 0 <= len -> f + len <= to ->
     (len = 0 -> step (f, len) = Some (inr f)) /\
     (0 < len -> (step (f, len) = Some (inl (f + Z.shiftr len 1 + 1, len - Z.shiftr len 1 - 1)) /\ P (f + Z.shiftr len 1)) \/
                 (step (f, len) = Some (inl (f, Z.shiftr len 1)) /\ ~ P (f + Z.shiftr len 1)))) ->
  from <= to -> exists r, loop step (S (Z.to_nat (to - from))) (from, to - from) = Some r /\ from <= r <= to /\
    ((forall i j, from <= i <= j -> j < to -> P j -> P i) -> (forall i, from <= i < r -> P i) /\ (forall i, r <= i < to -> ~ P i)).
Proof.
  intros Hstep Hft.
  apply (loop_total step (fun s => from <= s.1 /\ 0 <= s.2 /\ s.1 + s.2 <= to /\
      ((forall i j, from <= i <= j -> j < to -> P j -> P i) -> (forall i, from <= i < s.1 -> P i) /\ (forall i, s.1 + s.2 <= i < to -> ~ P i)))
    (fun r => from <= r <= to /\ ((forall i j, from <= i <= j -> j < to -> P j -> P i) -> (forall i, from <= i < r -> P i) /\ (forall i, r <= i < to -> ~ P i)))
    (fun s => Z.to_nat s.2)).
  - intros [f len] (Hf & Hl & Hto & Hinv). simpl in *. destruct (Hstep f len Hf Hl Hto) as [H0 Hpos]. destruct (decide (len = 0)) as [->|Hne].
    + right. exists f. split; [by apply H0|]. split; [lia|]. by rewrite Z.add_0_r in Hinv.
    + left. rewrite shiftr_div in * by lia. change (2 ^ 1) with 2 in *. assert (0 <= len / 2 < len) as Hh by z_div.
      destruct (Hpos ltac:(lia)) as [[Hs HP]|[Hs HP]]; (eexists; split; [exact Hs|]; simpl; split; [|lia]; split; [lia|]; split; [lia|]; split; [lia|]).
      * intros Hmono. destruct (Hinv Hmono) as [H1 H2]. split; [|intros i Hi; apply H2; lia]. intros i Hi. apply (Hmono i (f + len / 2)); [lia|lia|done].
      * intros Hmono. destruct (Hinv Hmono) as [H1 H2]. split; [done|]. intros i Hi HPi. apply HP. apply (Hmono (f + len / 2) i); [lia|lia|done].
  - simpl. split; [lia|]. split; [lia|]. split; [lia|]. intros _. split; intros i Hi; lia.
  - simpl. lia.
Qed.
Lemma ms_compare_Some arr a b x y : aget arr a = Some x -> aget arr b = Some y -> ms_compare cmp arr a b = Some (cmp x y).
Proof. intros H1 H2. unfold ms_compare. by rewrite H1, H2. Qed.
Definition holds_at (arr : list A) (P : A -> Prop) (i : Z) : Prop := exists x, aget arr i = Some x /\ P x.
Lemma ms_lower_spec arr from to val v : 0 <= from <= to -> to <= alen arr -> aget arr val = Some v -> exists r,
  ms_lower cmp arr from to val = Some r /\ from <= r <= to /\
  ((forall i j, from <= i <= j -> j < to -> holds_at arr (fun x => lt x v) j -> holds_at arr (fun x => lt x v) i) ->
   (forall i, from <= i < r -> holds_at arr (fun x => lt x v) i) /\ (forall i, r <= i < to -> ~ holds_at arr (fun x => lt x v) i)).
Proof.
  intros Hf Hto Hv. unfold ms_lower. apply bisect; [|lia]. intros f len Hff Hl Hfl. split; [intros ->; done|]. intros Hpos.
  rewrite (proj2 (Z.gtb_lt _ _)) by lia. cbv zeta. rewrite shiftr_div by lia. change (2 ^ 1) with 2. assert (0 <= len / 2 < len) by z_div.
  destruct (aget_is_Some arr (f + len / 2)) as [x Hx]; [lia|]. rewrite (ms_compare_Some _ _ _ _ _ Hx Hv). cbn [mbind option_bind].
  destruct (Z.ltb_spec (cmp x v) 0) as [Hlt|Hge]; [left|right]; (split; [done|]); [by exists x|]. intros (x' & Hx' & Hl'). unfold lt in Hl'. rewrite Hx in Hx'. injection Hx' as <-. lia.
Qed.
Lemma ms_upper_spec arr from to val v : 0 <= from <= to -> to <= alen arr -> aget arr val = Some v -> exists r,
  ms_upper cmp arr from to val = Some r /\ from <= r <= to /\
  ((forall i j, from <= i <= j -> j < to -> holds_at arr (fun x => le x v) j -> holds_at arr (fun x => le x v) i) ->
   (forall i, from <= i < r -> holds_at arr (fun x => le x v) i) /\ (forall i, r <= i < to -> ~ holds_at arr (fun x => le x v) i)).
Proof.
  intros Hf Hto Hv. unfold ms_upper. apply bisect; [|lia]. intros f len Hff Hl Hfl. split; [intros ->; done|]. intros Hpos.
  rewrite (proj2 (Z.gtb_lt _ _)) by lia. cbv zeta. rewrite shiftr_div by lia. change (2 ^ 1) with 2. assert (0 <= len / 2 < len) by z_div.
  destruct (aget_is_Some arr (f + len / 2)) as [x Hx]; [lia|]. rewrite (ms_compare_Some _ _ _ _ _ Hv Hx). cbn [mbind option_bind].
  destruct (Z.ltb_spec (cmp v x) 0) as [Hlt|Hge]; [right|left]; (split; [done|]).
  - intros (x' & Hx' & Hl'). rewrite Hx in Hx'. injection Hx' as <-. by apply Hl'.
  - exists x. split; [done|]. unfold le, lt. lia.
Qed.

(** ** Merging *)
Definition merge_ok (l1 l2 l : list A) : Prop :=
  l ≡ₚ l1 ++ l2 /\ (weak_order -> sorted l1 -> sorted l2 -> sorted l /\ stable l (l1 ++ l2)).
Lemma merge_join a1 a2 b1 b2 c1 c2 : merge_ok a1 b1 c1 -> merge_ok a2 b2 c2 ->
  (weak_order -> sorted (a1 ++ a2) -> sorted (b1 ++ b2) ->
     (forall x y, x ∈ a1 ++ b1 -> y ∈ a2 ++ b2 -> le x y) /\ (forall a b, a ∈ a2 -> b ∈ b1 -> lt b a)) ->
  merge_ok (a1 ++ a2) (b1 ++ b2) (c1 ++ c2).
Proof.
  intros [Hp1 Hs1] [Hp2 Hs2] Hcut. split.
  - rewrite Hp1, Hp2. rewrite <- !app_assoc. apply Permutation_app_head. rewrite !app_assoc. apply Permutation_app_tail, Permutation_app_comm.
  - intros Hord Ha Hb. destruct (Hcut Hord Ha Hb) as [Hle Hlt].
    pose proof (StronglySorted_app_1_l _ _ _ Ha) as Ha1. pose proof (StronglySorted_app_1_r _ _ _ Ha) as Ha2.
    pose proof (StronglySorted_app_1_l _ _ _ Hb) as Hb1. pose proof (StronglySorted_app_1_r _ _ _ Hb) as Hb2.
    destruct (Hs1 Hord Ha1 Hb1) as [Hc1 Hst1]. destruct (Hs2 Hord Ha2 Hb2) as [Hc2 Hst2]. split.
    + apply StronglySorted_app_2; [|done|done]. intros x y Hx Hy. rewrite Hp1 in Hx. rewrite Hp2 in Hy. by apply Hle.
    + etrans; [by apply stable_app|]. rewrite <- !app_assoc. apply stable_app; [done|]. rewrite !app_assoc. apply stable_app; [|done].
      symmetry. by apply stable_swap.
Qed.
(** What the binary searches find, on the list of the run. *)
Lemma holds_at_app pre l post P i x : aget l i = Some x -> holds_at (pre ++ l ++ post) P (alen pre + i) <-> P x.
Proof.
  intros Hx. pose proof (aget_Some_range _ _ _ Hx). unfold holds_at. rewrite aget_app_r by lia. rewrite aget_app_l by lia.
  replace (alen pre + i - alen pre) with i by lia. rewrite Hx. split; [intros (y & [= <-] & ?); done|intros ?; by exists x].
Qed.
Lemma sorted_le l i j x y : weak_order -> sorted l -> i <= j -> aget l i = Some x -> aget l j = Some y -> le x y.
Proof.
  intros Hord Hs Hij Hx Hy. destruct (decide (i = j)) as [->|Hne].
  - rewrite Hx in Hy. injection Hy as <-. intros Hlt. exact (lt_asym Hord _ _ Hlt Hlt).
  - pose proof (aget_Some_range _ _ _ Hx). pose proof (aget_Some_range _ _ _ Hy). rewrite <- (take_drop (Z.to_nat j) l) in Hs, Hx, Hy.
    rewrite aget_app_l in Hx by (rewrite alen_take; lia). rewrite aget_app_r in Hy by (rewrite alen_take; lia).
    apply (StronglySorted_app_1_elem_of _ _ _ x y Hs); apply list_elem_of_lookup.
    + exists (Z.to_nat i). rewrite <- aget_lookup by lia. done.
    + rewrite alen_take in Hy by lia. rewrite aget_lookup in Hy by lia. by eexists.
Qed.
Lemma cut_at pre l post (P : A -> Prop) r : alen pre <= r <= alen pre + alen l ->
  (forall i, alen pre <= i < r -> holds_at (pre ++ l ++ post) P i) -> (forall i, r <= i < alen pre + alen l -> ~ holds_at (pre ++ l ++ post) P i) ->
  (forall x, x ∈ take (Z.to_nat (r - alen pre)) l -> P x) /\ (forall x, x ∈ drop (Z.to_nat (r - alen pre)) l -> ~ P x).
Proof.
  intros Hr H1 H2. split; intros x Hx; apply list_elem_of_lookup in Hx as [k Hk].
  - apply lookup_take_Some in Hk as [Hk Hlt]. rewrite <- aget_nat in Hk. apply (holds_at_app pre l post P (Z.of_nat k) x Hk). apply H1. lia.
  - rewrite lookup_drop in Hk. rewrite <- aget_nat in Hk. pose proof (aget_Some_range _ _ _ Hk). intros HP.
    apply (holds_at_app pre l post P _ x Hk) in HP. revert HP. apply H2. lia.
Qed.
Lemma split_at (l : list A) r : 0 <= r <= alen l -> exists l1 l2, l = l1 ++ l2 /\ alen l1 = r /\ l1 = take (Z.to_nat r) l /\ l2 = drop (Z.to_nat r) l.
Proof.
  intros Hr. exists (take (Z.to_nat r) l), (drop (Z.to_nat r) l). split; [by rewrite take_drop|]. split; [rewrite alen_take; lia|done].
Qed.
Lemma lower_cut pre l post val v : aget (pre ++ l ++ post) val = Some v -> exists b1 b2, l = b1 ++ b2 /\
  ms_lower cmp (pre ++ l ++ post) (alen pre) (alen pre + alen l) val = Some (alen pre + alen b1) /\
  (weak_order -> sorted l -> (forall b, b ∈ b1 -> lt b v) /\ (forall b, b ∈ b2 -> le v b)).
Proof.
  intros Hv. pose proof (alen_nonneg pre). pose proof (alen_nonneg l). pose proof (alen_nonneg post).
  destruct (ms_lower_spec (pre ++ l ++ post) (alen pre) (alen pre + alen l) val v) as (r & Hr & Hrange & Hsplit); [lia|rewrite !alen_app; lia|done|].
  destruct (split_at l (r - alen pre)) as (b1 & b2 & Hl & Hb & Hb1 & Hb2); [lia|]. exists b1, b2. split; [done|].
  split; [rewrite Hr; f_equal; lia|]. intros Hord Hs. destruct Hsplit as [Hbelow Habove].
  - intros i j Hij Hj. replace j with (alen pre + (j - alen pre)) by lia. replace i with (alen pre + (i - alen pre)) by lia.
    destruct (aget_is_Some l (j - alen pre)) as [y Hy]; [lia|]. destruct (aget_is_Some l (i - alen pre)) as [x Hx]; [lia|].
    rewrite (holds_at_app pre l post _ _ _ Hx), (holds_at_app pre l post _ _ _ Hy). apply (le_lt_trans Hord). by apply (sorted_le l (i - alen pre) (j - alen pre)); [| |lia| |].
  - destruct (cut_at pre l post (fun x => lt x v) r) as [H3 H4]; [lia|done|done|]. subst b1 b2. split; [done|]. intros b Hb'. by apply H4.
Qed.
Lemma upper_cut pre l post val v : aget (pre ++ l ++ post) val = Some v -> exists a1 a2, l = a1 ++ a2 /\
  ms_upper cmp (pre ++ l ++ post) (alen pre) (alen pre + alen l) val = Some (alen pre + alen a1) /\
  (weak_order -> sorted l -> (forall a, a ∈ a1 -> le a v) /\ (forall a, a ∈ a2 -> lt v a)).
Proof.
  intros Hv. pose proof (alen_nonneg pre). pose proof (alen_nonneg l). pose proof (alen_nonneg post).
  destruct (ms_upper_spec (pre ++ l ++ post) (alen pre) (alen pre + alen l) val v) as (r & Hr & Hrange & Hsplit); [lia|rewrite !alen_app; lia|done|].
  destruct (split_at l (r - alen pre)) as (a1 & a2 & Hl & Hb & Hb1 & Hb2); [lia|]. exists a1, a2. split; [done|].
  split; [rewrite Hr; f_equal; lia|]. intros Hord Hs. destruct Hsplit as [Hbelow Habove].
  - intros i j Hij Hj. replace j with (alen pre + (j - alen pre)) by lia. replace i with (alen pre + (i - alen pre)) by lia.
    destruct (aget_is_Some l (j - alen pre)) as [y Hy]; [lia|]. destruct (aget_is_Some l (i - alen pre)) as [x Hx]; [lia|].
    rewrite (holds_at_app pre l post _ _ _ Hx), (holds_at_app pre l post _ _ _ Hy). apply (le_trans Hord). by apply (sorted_le l (i - alen pre) (j - alen pre)); [| |lia| |].
  - destruct (cut_at pre l post (fun x => le x v) r) as [H3 H4]; [lia|done|done|]. subst a1 a2. split; [done|]. intros a Ha.
    destruct (decide (lt v a)) as [|Hn]; [done|]. exfalso. by apply (H4 a Ha).
Qed.

Lemma middle_le a1 a2 x : weak_order -> sorted (a1 ++ a2) -> aget (a1 ++ a2) (alen a1) = Some x -> (forall a, a ∈ a1 -> le a x) /\ (forall a, a ∈ a2 -> le x a).
Proof.
  intros Hord Hs Hx. rewrite aget_app_r, Z.sub_diag in Hx by lia. destruct a2 as [|y a2]; [done|]. injection Hx as <-.
  apply StronglySorted_app in Hs as (Hcross & _ & Hs2). split; [intros a Ha; apply Hcross; [done|left]|].
  apply StronglySorted_cons in Hs2 as [Hall _]. rewrite Forall_forall in Hall. intros a [->|Ha]%elem_of_cons; [|by apply Hall].
  intros Hlt. exact (lt_asym Hord _ _ Hlt Hlt).
Qed.
(** The two cuts of [ms_do_merge]. *)
Lemma merge_cuts pre l1 l2 post : alen l1 <> 0 -> alen l2 <> 0 -> alen l1 + alen l2 <> 2 -> exists a1 a2 b1 b2, l1 = a1 ++ a2 /\ l2 = b1 ++ b2 /\
  (length a1 + length b1 < length l1 + length l2)%nat /\ (length a2 + length b2 < length l1 + length l2)%nat /\
  (if alen l1 >? alen l2 then
     second_cut ← ms_lower cmp (pre ++ l1 ++ l2 ++ post) (alen pre + alen l1) (alen pre + alen l1 + alen l2) (alen pre + Z.shiftr (alen l1) 1);
     Some (Z.shiftr (alen l1) 1, second_cut - (alen pre + alen l1), alen pre + Z.shiftr (alen l1) 1, second_cut)
   else
     first_cut ← ms_upper cmp (pre ++ l1 ++ l2 ++ post) (alen pre) (alen pre + alen l1) (alen pre + alen l1 + Z.shiftr (alen l2) 1);
     Some (first_cut - alen pre, Z.shiftr (alen l2) 1, first_cut, alen pre + alen l1 + Z.shiftr (alen l2) 1)) =
    Some (alen a1, alen b1, alen pre + alen a1, alen pre + alen l1 + alen b1) /\
  (weak_order -> sorted (a1 ++ a2) -> sorted (b1 ++ b2) ->
    (forall x y, x ∈ a1 ++ b1 -> y ∈ a2 ++ b2 -> le x y) /\ (forall a b, a ∈ a2 -> b ∈ b1 -> lt b a)).
Proof.
  intros H1 H2 Htwo. pose proof (alen_nonneg pre). pose proof (alen_nonneg l1). pose proof (alen_nonneg l2).
  assert (forall a1 a2 b1 b2 v, weak_order -> (forall a, a ∈ a1 -> le a v) -> (forall a, a ∈ a2 -> le v a) -> (forall b, b ∈ b1 -> le b v) -> (forall b, b ∈ b2 -> le v b) ->
    forall x y, x ∈ a1 ++ b1 -> y ∈ a2 ++ b2 -> le x y) as Hthrough.
  { intros a1 a2 b1 b2 v Hord Ha1 Ha2 Hb1 Hb2 x y Hx Hy. apply (le_trans Hord x v y).
    - apply elem_of_app in Hx as [Hx|Hx]; [by apply Ha1|by apply Hb1].
    - apply elem_of_app in Hy as [Hy|Hy]; [by apply Ha2|by apply Hb2]. }
  rewrite !shiftr_div by lia. change (2 ^ 1) with 2. destruct (Z.gtb_spec (alen l1) (alen l2)).
  - destruct (split_at l1 (alen l1 / 2)) as (a1 & a2 & Hl1 & Hla & _); [z_div|]. destruct (aget_is_Some l1 (alen l1 / 2)) as [x Hx]; [z_div|].
    destruct (lower_cut (pre ++ l1) l2 post (alen pre + alen l1 / 2) x) as (b1 & b2 & Hl2 & Hlow & Hcross).
    { rewrite <- app_assoc, aget_app_r by z_div. rewrite aget_app_l by z_div. by replace (alen pre + alen l1 / 2 - alen pre) with (alen l1 / 2) by lia. }
    rewrite <- app_assoc, alen_app in Hlow. exists a1, a2, b1, b2. split; [done|]. split; [done|].
    assert (length l1 = length a1 + length a2)%nat as Hn1 by (by rewrite Hl1, length_app). assert (length l2 = length b1 + length b2)%nat as Hn2 by (by rewrite Hl2, length_app).
    assert (0 < alen l1 / 2 < alen l1) by z_div. split; [unfold alen in *; lia|]. split; [unfold alen in *; lia|]. split.
    + rewrite Hlow. cbn [mbind option_bind]. rewrite Hla. do 2 f_equal. f_equal. f_equal. lia.
    + intros Hord Hs1 Hs2. assert (aget (a1 ++ a2) (alen a1) = Some x) as Hx' by (rewrite <- Hl1, Hla; done). destruct (middle_le a1 a2 x Hord Hs1 Hx') as [Ha1 Ha2]. destruct (Hcross Hord ltac:(by rewrite Hl2)) as [Hb1 Hb2].
      split; [|intros a b Ha Hb; apply (lt_le_trans Hord b x a); [by apply Hb1|by apply Ha2]].
      apply (Hthrough a1 a2 b1 b2 x Hord Ha1 Ha2); [|done]. intros b Hb. apply le_of_lt; [done|by apply Hb1].
  - destruct (split_at l2 (alen l2 / 2)) as (b1 & b2 & Hl2 & Hlb & _); [z_div|]. destruct (aget_is_Some l2 (alen l2 / 2)) as [y Hy]; [z_div|].
    destruct (upper_cut pre l1 (l2 ++ post) (alen pre + alen l1 + alen l2 / 2) y) as (a1 & a2 & Hl1 & Hup & Hcross).
    { rewrite aget_app_r, aget_app_r by z_div. rewrite aget_app_l by z_div. by replace (alen pre + alen l1 + alen l2 / 2 - alen pre - alen l1) with (alen l2 / 2) by lia. }
    exists a1, a2, b1, b2. split; [done|]. split; [done|].
    assert (length l1 = length a1 + length a2)%nat as Hn1 by (by rewrite Hl1, length_app). assert (length l2 = length b1 + length b2)%nat as Hn2 by (by rewrite Hl2, length_app).
    assert (0 < alen l2 / 2 < alen l2) by z_div. split; [unfold alen in *; lia|]. split; [unfold alen in *; lia|]. split.
    + rewrite Hup. cbn [mbind option_bind]. rewrite Hlb. do 2 f_equal. f_equal. f_equal. lia.
    + intros Hord Hs1 Hs2. assert (aget (b1 ++ b2) (alen b1) = Some y) as Hy' by (rewrite <- Hl2, Hlb; done). destruct (middle_le b1 b2 y Hord Hs2 Hy') as [Hb1 Hb2]. destruct (Hcross Hord ltac:(by rewrite Hl1)) as [Ha1 Ha2].
      split; [|intros a b Ha Hb; apply (le_lt_trans Hord b y a); [by apply Hb1|by apply Ha2]].
      apply (Hthrough a1 a2 b1 b2 y Hord Ha1); [|done|done]. intros a Ha. apply le_of_lt; [done|by apply Ha2].
Qed.
Lemma do_merge_spec fuel : forall pre l1 l2 post, (length l1 + length l2 < fuel)%nat -> exists l,
  ms_do_merge cmp fuel (pre ++ l1 ++ l2 ++ post) (alen pre) (alen pre + alen l1) (alen pre + alen l1 + alen l2) (alen l1) (alen l2) = Some (pre ++ l ++ post) /\
  merge_ok l1 l2 l.
Proof.
  induction fuel as [|fuel IH]; intros pre l1 l2 post Hf; [lia|]. cbn [ms_do_merge]. pose proof (alen_nonneg pre) as Hpre.
  destruct (Z.eqb_spec (alen l1) 0) as [Hz1|Hz1].
  { exists l2. assert (l1 = []) as -> by (destruct l1; [done|rewrite alen_cons in Hz1; pose proof (alen_nonneg l1); lia]). split; [done|]. split; done. }
  destruct (Z.eqb_spec (alen l2) 0) as [Hz2|Hz2].
  { exists l1. assert (l2 = []) as -> by (destruct l2; [done|rewrite alen_cons in Hz2; pose proof (alen_nonneg l2); lia]). split; [done|].
    split; [by rewrite app_nil_r|]. intros _ ? _. by rewrite app_nil_r. }
  cbn [orb]. pose proof (alen_nonneg l1). pose proof (alen_nonneg l2). destruct (Z.eqb_spec (alen l1 + alen l2) 2) as [Htwo|Htwo].
  { destruct l1 as [|x [|x' l1]]; [done| |unfold alen in *; simpl in *; lia].
    destruct l2 as [|y [|y' l2]]; [done| |unfold alen in *; simpl in *; lia].
    change (alen [x]) with 1 in *. change (alen [y]) with 1 in *. change (pre ++ [x] ++ [y] ++ post) with (pre ++ x :: y :: post).
    assert (aget (pre ++ x :: y :: post) (alen pre) = Some x) as Hx by (rewrite aget_app_r, Z.sub_diag by lia; done).
    assert (aget (pre ++ x :: y :: post) (alen pre + 1) = Some y) as Hy by (rewrite aget_app_r by lia; replace (alen pre + 1 - alen pre) with 1 by lia; done).
    rewrite (ms_compare_Some _ _ _ _ _ Hy Hx). cbn [mbind option_bind]. destruct (Z.ltb_spec (cmp y x) 0) as [Hlt|Hge].
    - exists [y; x]. split.
      + unfold ms_swap. rewrite Hy. cbn [mbind option_bind]. rewrite Hx. cbn [mbind option_bind].
        rewrite aset_Some by (rewrite alen_app, !alen_cons; pose proof (alen_nonneg post); lia). cbn [mbind option_bind].
        rewrite aset_Some by (rewrite alen_insert, alen_app, !alen_cons; pose proof (alen_nonneg post); lia). f_equal.
        replace (Z.to_nat (alen pre + 1)) with (length pre + 1)%nat by (unfold alen; lia). replace (Z.to_nat (alen pre)) with (length pre + 0)%nat by (unfold alen; lia).
        by rewrite !insert_app_r.
      + split; [apply Permutation_swap|]. intros Hord _ _. split.
        * apply StronglySorted_cons. split; [|apply StronglySorted_cons; split; constructor]. apply Forall_singleton. by apply le_of_lt.
        * symmetry. apply (stable_swap Hord [x] [y]). intros a b ->%list_elem_of_singleton ->%list_elem_of_singleton. done.
    - exists [x; y]. split; [done|]. split; [done|]. intros Hord _ _. split; [|done].
      apply StronglySorted_cons. split; [|apply StronglySorted_cons; split; constructor]. apply Forall_singleton. unfold le, lt. lia. }
  destruct (merge_cuts pre l1 l2 post Hz1 Hz2 Htwo) as (a1 & a2 & b1 & b2 & -> & -> & Hm1 & Hm2 & Hcuts & Hcross).
  cbv zeta. rewrite Hcuts. cbn [mbind option_bind].
  replace (pre ++ (a1 ++ a2) ++ (b1 ++ b2) ++ post) with ((pre ++ a1) ++ a2 ++ b1 ++ (b2 ++ post)) by (by rewrite <- !app_assoc).
  pose proof (ms_rotate_spec (pre ++ a1) a2 b1 (b2 ++ post)) as Hrot. rewrite alen_app in Hrot.
  replace (alen pre + alen (a1 ++ a2)) with (alen pre + alen a1 + alen a2) by (rewrite alen_app; lia). rewrite Hrot. cbn [mbind option_bind].
  rewrite !length_app in Hm1, Hm2, Hf.
  destruct (IH pre a1 b1 (a2 ++ b2 ++ post)) as (c1 & Hc1 & Hok1); [lia|]. rewrite <- !app_assoc. rewrite Hc1. cbn [mbind option_bind].
  destruct (IH (pre ++ c1) a2 b2 post) as (c2 & Hc2 & Hok2); [lia|].
  assert (alen c1 = alen a1 + alen b1) as Hlc1 by (unfold alen; rewrite (Permutation_length (proj1 Hok1)), length_app; lia).
  exists (c1 ++ c2). split; [|by apply merge_join].
  rewrite <- !app_assoc in Hc2. rewrite !alen_app, Hlc1 in Hc2. rewrite !alen_app. rewrite <- !app_assoc. rewrite <- Hc2. f_equal; lia.
Qed.

(** ** Insertion *)
Definition sort_ok (l l' : list A) : Prop := l' ≡ₚ l /\ (weak_order -> sorted l' /\ stable l' l).
Lemma insert_down_loop l1 : forall fuel pre x post, (length l1 < fuel)%nat -> exists p1 p2, l1 = p1 ++ p2 /\
  loop (fun '(arr, j) =>
      if j >? alen pre then
        c ← ms_compare cmp arr j (j - 1);
        if c <? 0 then arr ← ms_swap arr (j - 1) j; Some (inl (arr, j - 1)) else Some (inr arr)
      else Some (inr arr)) fuel (pre ++ l1 ++ x :: post, alen pre + alen l1) = Some (pre ++ p1 ++ x :: p2 ++ post) /\
  (forall y, y ∈ p2 -> lt x y) /\ (forall p1' y, p1 = p1' ++ [y] -> le y x).
Proof.
  induction l1 as [|y l1 IH] using rev_ind; intros fuel pre x post Hf; (destruct fuel as [|fuel]; [lia|]); cbn [loop].
  - exists [], []. split; [done|]. rewrite alen_nil. destruct (Z.gtb_spec (alen pre + 0) (alen pre)); [lia|]. split; [done|]. split; [by intros y Hy%not_elem_of_nil|].
    intros p1' y Hn. by destruct p1'.
  - rewrite alen_app. change (alen [y]) with 1. pose proof (alen_nonneg l1). pose proof (alen_nonneg pre). pose proof (alen_nonneg post).
    destruct (Z.gtb_spec (alen pre + (alen l1 + 1)) (alen pre)); [|lia]. rewrite <- (app_assoc l1). change ([y] ++ x :: post) with (y :: x :: post).
    assert (aget (pre ++ l1 ++ y :: x :: post) (alen pre + (alen l1 + 1)) = Some x) as Hx.
    { rewrite !aget_app_r by lia. by replace (alen pre + (alen l1 + 1) - alen pre - alen l1) with 1 by lia. }
    assert (aget (pre ++ l1 ++ y :: x :: post) (alen pre + (alen l1 + 1) - 1) = Some y) as Hy.
    { rewrite !aget_app_r by lia. by replace (alen pre + (alen l1 + 1) - 1 - alen pre - alen l1) with 0 by lia. }
    rewrite (ms_compare_Some _ _ _ _ _ Hx Hy). cbn [mbind option_bind]. destruct (Z.ltb_spec (cmp x y) 0) as [Hlt|Hge].
    + assert (ms_swap (pre ++ l1 ++ y :: x :: post) (alen pre + (alen l1 + 1) - 1) (alen pre + (alen l1 + 1)) = Some (pre ++ l1 ++ x :: y :: post)) as ->.
      { unfold ms_swap. rewrite Hy. cbn [mbind option_bind]. rewrite Hx. cbn [mbind option_bind].
        rewrite aset_Some by (rewrite !alen_app, !alen_cons; lia). cbn [mbind option_bind].
        rewrite aset_Some by (rewrite alen_insert, !alen_app, !alen_cons; lia). f_equal.
        replace (Z.to_nat (alen pre + (alen l1 + 1) - 1)) with (length pre + (length l1 + 0))%nat by (unfold alen; lia).
        replace (Z.to_nat (alen pre + (alen l1 + 1))) with (length pre + (length l1 + 1))%nat by (unfold alen; lia). by rewrite !insert_app_r. }
      cbn [mbind option_bind]. rewrite length_app in Hf. simpl in Hf. destruct (IH fuel pre x (y :: post) ltac:(lia)) as (p1 & p2 & -> & Hl & Hp2 & Hp1).
      exists p1, (p2 ++ [y]). split; [by rewrite app_assoc|]. replace (alen pre + (alen (p1 ++ p2) + 1) - 1) with (alen pre + alen (p1 ++ p2)) by lia.
      rewrite <- (app_assoc p2). split; [exact Hl|]. split; [|done]. intros z [Hz| ->%list_elem_of_singleton]%elem_of_app; [by apply Hp2|done].
    + exists (l1 ++ [y]), []. split; [by rewrite app_nil_r|]. split; [by rewrite <- app_assoc|]. split; [by intros z Hz%not_elem_of_nil|].
      intros p1' z Heq. apply app_inj_tail in Heq as [_ <-]. unfold le, lt. lia.
Qed.
Lemma insert_down_spec pre l x post c : sort_ok l c -> exists c',
  insert_down cmp (pre ++ c ++ x :: post) (alen pre) (alen pre + alen c) = Some (pre ++ c' ++ post) /\ sort_ok (l ++ [x]) c'.
Proof.
  intros [Hperm Hsort]. unfold insert_down. pose proof (alen_nonneg c).
  destruct (insert_down_loop c (S (Z.to_nat (alen pre + alen c - alen pre))) pre x post) as (p1 & p2 & -> & Hl & Hp2 & Hp1); [unfold alen; lia|].
  exists (p1 ++ x :: p2). split; [rewrite Hl; by rewrite <- !app_assoc|]. split.
  - rewrite <- Hperm. rewrite <- app_assoc. apply Permutation_app_head. apply Permutation_cons_append.
  - intros Hord. destruct (Hsort Hord) as [Hs Hst]. apply StronglySorted_app in Hs as (Hcross & Hs1 & Hs2). split.
    + apply StronglySorted_app_2; [|done|].
      * intros a b Ha Hb. assert (le a x) as Hax.
        { destruct p1 as [|y p1 _] using rev_ind; [by apply not_elem_of_nil in Ha|]. pose proof (Hp1 p1 y eq_refl) as Hyx.
          apply elem_of_app in Ha as [Ha| ->%list_elem_of_singleton]; [|done]. apply (le_trans Hord a y x); [|done].
          apply StronglySorted_app in Hs1 as (Hc & _). apply Hc; [done|]. by apply list_elem_of_singleton. }
        apply elem_of_cons in Hb as [->|Hb]; [done|]. by apply Hcross.
      * apply StronglySorted_cons. split; [|done]. apply Forall_forall. intros b Hb. apply le_of_lt; [done|by apply Hp2].
    + etrans; [|apply (stable_app (p1 ++ p2) l [x] [x] Hst); done]. rewrite <- app_assoc. apply stable_app; [done|]. symmetry. apply (stable_swap Hord p2 [x]). intros a b Ha ->%list_elem_of_singleton. by apply Hp2.
Qed.
Lemma insert_sort_spec pre l post : l <> [] -> exists l',
  afor (fun i arr => insert_down cmp arr (alen pre) i) (Z.to_nat (alen l - 1)) (alen pre + 1) (pre ++ l ++ post) = Some (pre ++ l' ++ post) /\ sort_ok l l'.
Proof.
  intros Hne. destruct l as [|x l]; [done|]. rewrite alen_cons. replace (Z.to_nat (1 + alen l - 1)) with (length l) by (unfold alen; lia).
  destruct (afor_total (fun i arr => insert_down cmp arr (alen pre) i) (fun i arr => exists c, let k := Z.to_nat (i - alen pre - 1) in
    arr = pre ++ c ++ drop k l ++ post /\ sort_ok (x :: take k l) c) (length l) (alen pre + 1) (pre ++ (x :: l) ++ post)) as (arr & -> & c & -> & Hc).
  - exists [x]. replace (alen pre + 1 - alen pre - 1) with 0 by lia. cbn [Z.to_nat drop take]. split; [done|]. split; [done|]. intros _. split; [apply StronglySorted_cons; split; constructor|done].
  - intros i arr Hi (c & Harr & Hc). pose proof (alen_nonneg pre). set (k := Z.to_nat (i - alen pre - 1)) in *. cbv zeta in Harr. subst arr.
    assert (exists y, l !! k = Some y) as [y Hy] by (apply lookup_lt_is_Some_2; lia). rewrite (drop_S _ _ _ Hy). cbn [app].
    destruct (insert_down_spec pre (x :: take k l) y (drop (S k) l ++ post) c Hc) as (c' & Hd & Hc').
    assert (alen c = i - alen pre) as Hlc.
    { unfold alen at 1. rewrite (Permutation_length (proj1 Hc)). simpl. rewrite length_take. lia. }
    rewrite Hlc in Hd. replace (alen pre + (i - alen pre)) with i in Hd by lia. rewrite Hd. eexists. split; [done|]. exists c'.
    replace (Z.to_nat (i + 1 - alen pre - 1)) with (S k) by lia. split; [done|]. by rewrite (take_S_r _ _ _ Hy).
  - replace (Z.to_nat (alen pre + 1 + Z.of_nat (length l) - alen pre - 1)) with (length l) in * by lia.
    exists c. rewrite drop_ge by lia. split; [done|]. by rewrite take_ge in Hc by lia.
Qed.

(** ** The whole sort *)
Lemma sort_rec_spec fuel : forall pre l post, (length l < fuel)%nat -> alen pre + alen l <= 2 ^ 30 -> exists l',
  merge_sort_rec cmp fuel (pre ++ l ++ post) (alen pre) (alen pre + alen l) = Some (pre ++ l' ++ post) /\ sort_ok l l'.
Proof.
  induction fuel as [|fuel IH]; intros pre l post Hf Hmax; [lia|]. change (2 ^ 30) with 1073741824 in Hmax. pose proof (alen_nonneg pre). pose proof (alen_nonneg l).
  cbn [merge_sort_rec]. replace (alen pre + alen l - alen pre) with (alen l) by lia. destruct (Z.ltb_spec (alen l) 12).
  - destruct (Z.leb_spec (alen pre + alen l) (alen pre)).
    + exists l. split; [done|]. split; [done|]. intros _. assert (l = []) as -> by (destruct l; [done|rewrite alen_cons in *; pose proof (alen_nonneg l); lia]). split; [constructor|done].
    + apply insert_sort_spec. intros ->. rewrite alen_nil in *. lia.
  - unfold int_add. rewrite int_of_Some by (unfold in_i32, INT_MIN, INT_MAX; lia). cbn [mbind option_bind]. rewrite shiftr_div by lia. change (2 ^ 1) with 2.
    destruct (split_at l ((alen pre + (alen pre + alen l)) / 2 - alen pre)) as (l1 & l2 & -> & Hl1 & _); [z_div|]. rewrite alen_app in *. rewrite length_app in Hf.
    assert (alen l1 = (alen l1 + alen l2) / 2) as Hhalf by z_div.
    replace ((alen pre + (alen pre + (alen l1 + alen l2))) / 2) with (alen pre + alen l1) by lia. cbv zeta.
    assert (0 < alen l1 < alen l1 + alen l2) by z_div. rewrite <- app_assoc.
    destruct (IH pre l1 (l2 ++ post)) as (c1 & -> & Hp1 & Hs1); [unfold alen in *; lia|change (2 ^ 30) with 1073741824; lia|]. cbn [mbind option_bind].
    assert (alen c1 = alen l1) as Hlc1 by (unfold alen; by rewrite (Permutation_length Hp1)).
    destruct (IH (pre ++ c1) l2 post) as (c2 & Hc2 & Hp2 & Hs2); [unfold alen in *; lia|rewrite alen_app; change (2 ^ 30) with 1073741824; lia|].
    rewrite alen_app, <- !app_assoc, Hlc1 in Hc2. rewrite Z.add_assoc, Hc2. cbn [mbind option_bind].
    assert (alen c2 = alen l2) as Hlc2 by (unfold alen; by rewrite (Permutation_length Hp2)).
    destruct (do_merge_spec (S (Z.to_nat (alen l1 + alen l2))) pre c1 c2 post) as (c & Hc & Hpc & Hsc); [unfold alen in *; lia|]. rewrite Hlc1, Hlc2 in Hc.
    replace (alen pre + alen l1 - alen pre) with (alen l1) by lia. replace (alen pre + alen l1 + alen l2 - (alen pre + alen l1)) with (alen l2) by lia.
    rewrite Hc. exists c. split; [done|]. split; [by rewrite Hpc, Hp1, Hp2|]. intros Hord. destruct (Hs1 Hord) as [Hso1 Hst1]. destruct (Hs2 Hord) as [Hso2 Hst2].
    destruct (Hsc Hord Hso1 Hso2) as [Hsorted Hstable]. split; [done|]. etrans; [exact Hstable|]. by apply stable_app.
Qed.
End sorting.

(** C25. Sorting in place is a stable sort.  For every comparison, even one that is not
    consistent, [hl_bsort] on the first [len] elements of a buffer ends within the stated
    fuel, reads and writes only these elements and permutes them; when the comparison is
    a strict weak order, the result is sorted and elements it does not distinguish keep
    their order.  The rotations of the merge (cycles of the greatest common divisor) and
    the two binary searches are part of the statement. *)
Theorem hl_bsort_stable {A} (cmp : A -> A -> Z) (l post : list A) : alen l <= 2 ^ 30 ->
  exists l', hl_bsort cmp (l ++ post) (alen l) = Some (l' ++ post) /\ l' ≡ₚ l /\
    (weak_order cmp -> sorted cmp l' /\ stable cmp l' l).
Proof.
  intros Hl. unfold hl_bsort. pose proof (alen_nonneg l).
  destruct (sort_rec_spec cmp (S (Z.to_nat (alen l))) [] l post) as (l' & Hl' & Hp & Hs); [unfold alen; lia|done|]. exists l'. done.
Qed.
Lemma hl_bsort_stable_witness : exists l', hl_bsort (fun x y => x / 10 - y / 10) ([52; 31; 90; 11; 10] ++ [1; 2]) 5 = Some (l' ++ [1; 2]) /\ l' ≡ₚ [52; 31; 90; 11; 10] /\
  (weak_order (fun x y : Z => x / 10 - y / 10) -> sorted (fun x y => x / 10 - y / 10) l' /\ stable (fun x y => x / 10 - y / 10) l' [52; 31; 90; 11; 10]).
Proof. apply (hl_bsort_stable (fun x y => x / 10 - y / 10) [52; 31; 90; 11; 10] [1; 2]). discriminate. Defined.
Example tens_order : weak_order (fun x y : Z => x / 10 - y / 10).
Proof. split; unfold le, lt; intros; lia. Qed.
Example bsort_tens : hl_bsort (fun x y => x / 10 - y / 10) [52; 31; 90; 11; 10; 1; 2] 5 = Some [11; 10; 31; 52; 90; 1; 2].
Proof. reflexivity. Qed.
