(* ===== verification/Bytes.v ===== *)
(** * Byte blocks ([src/std/bytes.c])

    A block of bytes is a list; a pointer into one is an offset.  [memcmp] is used for
    its sign only.  The sorts of the file are in [Sort]. *)
From S2P Require Import Prelude Ustr.

(** ** Copying, filling, comparing *)
Definition hl_copy_bytes (ptr : list Z) (size : Z) : option (list Z) := aslice ptr 0 size.
(** [memmove] within one block, and between two. *)
Definition hl_bytes_blit (dst : list Z) (dpos : Z) (src : option (list Z)) (spos len : Z) : option (list Z) :=
  match src with
  | None => amove dst dpos spos len
  | Some src => acopy dst dpos src spos len
  end.
Definition hl_bytes_fill (bytes : list Z) (pos len value : Z) : option (list Z) :=
  acopy bytes pos (replicate (Z.to_nat len) (u8 value)) 0 len.
(** The first difference of [n] cells from [apos] and [bpos] on. *)
Fixpoint first_diff (n : nat) (a : list Z) (apos : Z) (b : list Z) (bpos : Z) : option (option (Z * Z)) :=
  match n with
  | O => Some None
  | S n => x ← aget a apos; y ← aget b bpos; if x =? y then first_diff n a (apos + 1) b (bpos + 1) else Some (Some (x, y))
  end.
Definition memcmp (a : list Z) (apos : Z) (b : list Z) (bpos len : Z) : option Z :=
  d ← first_diff (Z.to_nat len) a apos b bpos;
  Some (match d with None => 0 | Some (x, y) => if x <? y then -1 else 1 end).
Definition hl_bytes_compare (a : list Z) (apos : Z) (b : list Z) (bpos len : Z) : option Z := memcmp a apos b bpos len.
(** On 16-bit cells. *)
Definition hl_bytes_compare16 (a b : list Z) (len : Z) : option Z :=
  d ← first_diff (Z.to_nat len) a 0 b 0; Some (match d with None => 0 | Some (x, y) => x - y end).
(** On the bytes of [len] 16-bit cells. *)
Definition hl_string_compare (a b : list Z) (len : Z) : option Z := memcmp a 0 b 0 (u64 (len * 2)).
Definition hl_string_compare_full (a b : list Z) : option Z :=
  al ← ustrlen a; bl ← ustrlen b; al ← int_of al; bl ← int_of bl;
  let len := if al <? bl then al else bl in
  cmp ← hl_bytes_compare16 a b len;
  if negb (cmp =? 0) then Some cmp else int_of (al - bl).

(** ** Searching *)
(** The inner loop: does the whole pattern match? *)
Definition match_at (mem : list Z) (match_base : Z) (pat : list Z) (wpos pattern_size : Z) : option bool :=
  loop (fun match_size =>
      x ← aget mem (match_base + match_size); y ← aget pat (wpos + match_size);
      if x =? y then if match_size + 1 >=? pattern_size then Some (inr true) else Some (inl (match_size + 1))
      else Some (inr false)) (Z.to_nat pattern_size) 0.
Definition shift_table (pat : list Z) (wpos pattern_size : Z) : option (list Z) :=
  afor (fun byte_nbr shift => c ← aget pat (wpos + byte_nbr); aset shift c (pattern_size - byte_nbr))
    (Z.to_nat pattern_size) 0 (replicate 256 (pattern_size + 1)).
(** The offset of the match in [mem]; the sizes are [size_t]. *)
Definition memfind_rb (mem : list Z) (block block_size : Z) (pat : list Z) (wpos pattern_size : Z) : option (option Z) :=
  if block_size <? pattern_size then Some None
  else if pattern_size =? 0 then Some (Some block)
  else
    shift ← shift_table pat wpos pattern_size;
    let limit := block + (block_size - pattern_size + 1) in
    loop (fun match_base =>
        if match_base <? limit then
          m ← match_at mem match_base pat wpos pattern_size;
          if (m : bool) then Some (inr (Some match_base)) else
          c ← aget mem (match_base + pattern_size); s ← aget shift c; Some (inl (match_base + s))
        else Some (inr None)) (S (Z.to_nat (block_size - pattern_size + 1))) block.
Definition hl_bytes_find (where_ : list Z) (pos len : Z) (which : list Z) (wpos wlen : Z) : option Z :=
  found ← memfind_rb where_ pos (u64 len) which wpos (u64 wlen);
  Some (match found with None => -1 | Some p => i32 p end).
Definition hl_bytes_rfind (where_ : list Z) (len : Z) (which : list Z) (wlen : Z) : option Z :=
  if wlen >? len then Some (-1)
  else if wlen =? 0 then Some len
  else loop (fun pos =>
      if pos >=? 0 then c ← memcmp where_ pos which 0 wlen; if c =? 0 then Some (inr pos) else Some (inl (pos - 1))
      else Some (inr (-1))) (S (S (Z.to_nat (len - wlen)))) (len - wlen).

(** ** Parsing *)
Definition is_space_char (c : Z) : bool := (c =? 32) || ((c >? 8) && (c <? 14)).
Definition has_hex_prefix (c : list Z) (len : Z) (is_signed : bool) : option bool :=
  if is_signed then
    if len >=? 3 then a ← aget c 1; if a =? 48 then b ← aget c 2; Some ((b =? 120) || (b =? 88)) else Some false else Some false
  else if len >=? 2 then a ← aget c 0; if a =? 48 then b ← aget c 1; Some ((b =? 120) || (b =? 88)) else Some false else Some false.
Fixpoint skip_spaces (c : list Z) : option (list Z) :=
  match c with [] => None | k :: c' => if is_space_char k then skip_spaces c' else Some c end.
Definition hex_value (k : Z) : option Z :=
  if (k >=? 48) && (k <=? 57) then Some (k - 48)
  else if (k >=? 65) && (k <=? 70) then Some (k - 65 + 10)
  else if (k >=? 97) && (k <=? 102) then Some (k - 97 + 10)
  else None.
(** [while( *c )]: shifts past the sign bit wrap. *)
Fixpoint parse_hex (c : list Z) (h : Z) : option Z :=
  match c with
  | [] => None
  | k :: c' => if k =? 0 then Some h else match hex_value k with Some d => parse_hex c' (i32 (Z.lor (i32 (Z.shiftl h 4)) d)) | None => Some h end
  end.
(** The text starts at [str]; the result is null when there is no number. *)
Definition hl_parse_int (str : list Z) (len : Z) : option (option Z) :=
  c ← skip_spaces str;
  sign ← aget c 0;
  let is_signed := (sign =? 45) || (sign =? 43) in
  hex ← has_hex_prefix c (len - (alen str - alen c)) is_signed;
  if (hex : bool) then
    h ← parse_hex (drop (if is_signed then 3 else 2) c) 0;
    Some (Some (if sign =? 45 then i32 (- h) else h))
  else
    '(h, used) ← utoi c;
    if used =? 0 then Some None else Some (Some h).

(** ** Pointers as numbers *)
Definition hl_bytes_offset (src offset : Z) : Z := src + offset.
Definition hl_bytes_subtract (a b : Z) : Z := i32 (a - b).
(** [*high] and the result, for an address of 64 bits. *)
Definition hl_bytes_address (a : Z) : Z * Z := (i32 (Z.shiftr (u64 a) 32), i32 a).
Definition hl_bytes_from_address (low high : Z) : Z := u32 low + 2 ^ 32 * u32 high.

(** * Searching finds the first, or the last, occurrence *)
Section search.
Context (mem pat : list Z) (wpos n : Z).
Definition occurs (i : Z) : Prop := forall k, 0 <= k < n -> aget mem (i + k) = aget pat (wpos + k).
Lemma match_at_spec i : 0 < n -> 0 <= i -> i + n <= alen mem -> 0 <= wpos -> wpos + n <= alen pat ->
  exists b, match_at mem i pat wpos n = Some b /\ (b = true <-> occurs i).
Proof.
  intros Hn Hi Hmem Hw Hpat. unfold match_at.
  apply (loop_total _ (fun k => 0 <= k < n /\ forall j, 0 <= j < k -> aget mem (i + j) = aget pat (wpos + j)) (fun b => b = true <-> occurs i) (fun k => Z.to_nat (n - 1 - k))).
  - intros k (Hk & Heq). destruct (aget_is_Some mem (i + k)) as [x Hx]; [lia|]. destruct (aget_is_Some pat (wpos + k)) as [y Hy]; [lia|].
    rewrite Hx. cbn [mbind option_bind]. rewrite Hy. cbn [mbind option_bind]. destruct (Z.eqb_spec x y) as [->|Hne].
    + assert (forall j, 0 <= j < k + 1 -> aget mem (i + j) = aget pat (wpos + j)) as Heq'.
      { intros j Hj. destruct (decide (j = k)) as [->|]; [congruence|apply Heq; lia]. }
      destruct (Z.geb_spec (k + 1) n).
      * right. exists true. split; [done|]. split; [intros _ j Hj; apply Heq'; lia|done].
      * left. exists (k + 1). split; [done|]. split; [split; [lia|done]|lia].
    + right. exists false. split; [done|]. split; [done|]. intros Hocc. specialize (Hocc k Hk). congruence.
  - split; [lia|]. intros j Hj. lia.
  - lia.
Qed.
End search.
Definition bytes (l : list Z) : Prop := Forall (fun c => 0 <= c < 256) l.
Lemma bytes_aget l i c : bytes l -> aget l i = Some c -> 0 <= c < 256.
Proof. intros Hl Hi. pose proof (aget_Some_range _ _ _ Hi). rewrite aget_lookup in Hi by lia. by eapply Forall_lookup_1 in Hl. Qed.
(** A shift never jumps over an alignment of its byte with the pattern. *)
Lemma shift_table_spec pat wpos n : bytes pat -> 0 <= n -> 0 <= wpos -> wpos + n <= alen pat -> exists t, shift_table pat wpos n = Some t /\ alen t = 256 /\
  forall c s, aget t c = Some s -> 1 <= s <= n + 1 /\ forall k, 0 <= k < n -> aget pat (wpos + k) = Some c -> s <= n - k.
Proof.
  intros Hb Hn Hw Hpat. unfold shift_table.
  destruct (afor_total (fun byte_nbr shift => c ← aget pat (wpos + byte_nbr); aset shift c (n - byte_nbr))
    (fun i t => alen t = 256 /\ forall c s, aget t c = Some s -> (1 <= s <= n + 1) /\ forall k, 0 <= k < i -> aget pat (wpos + k) = Some c -> s <= n - k)
    (Z.to_nat n) 0 (replicate 256 (n + 1))) as (t & Ht & Hl & Hs).
  - split; [done|]. intros c s Hc. pose proof (aget_Some_range _ _ _ Hc). rewrite aget_lookup in Hc by lia. apply lookup_replicate in Hc as [-> _]. split; [lia|]. intros k Hk. lia.
  - intros i t Hi (Hl & Hs). destruct (aget_is_Some pat (wpos + i)) as [x Hx]; [lia|]. rewrite Hx. cbn [mbind option_bind].
    destruct (aset_total t x (n - i)) as (t' & Ht & Hl' & Hg); [pose proof (bytes_aget _ _ _ Hb Hx); lia|]. exists t'. split; [done|]. split; [lia|].
    intros c s Hc. rewrite Hg in Hc. case_decide as Hd.
    + subst x. injection Hc as <-. split; [lia|]. intros k Hk _. lia.
    + destruct (Hs c s Hc) as [Hr Hk]. split; [done|]. intros k Hki Hkc. apply Hk; [|done]. destruct (decide (k = i)) as [->|]; [congruence|lia].
  - exists t. split; [done|]. split; [done|]. intros c s Hc. destruct (Hs c s Hc) as [Hr Hk]. split; [done|]. intros k Hki. apply Hk. lia.
Qed.
(** C34. Searching bytes forwards finds the first occurrence.  On a range of a block that
    one more byte follows, [hl_bytes_find] returns the offset of the first occurrence of
    the pattern that lies in the range, and -1 when there is none; an empty pattern is
    found at the start.  The jumps of the shift table skip no occurrence.  (The byte that
    follows the range is read: without it the search is undefined.) *)
Theorem hl_bytes_find_first mem pos len pat wpos wlen : bytes mem -> bytes pat -> 0 <= pos -> 0 <= len -> pos + len < alen mem ->
  0 <= wpos -> 0 <= wlen -> wpos + wlen <= alen pat -> alen mem <= INT_MAX -> alen pat <= INT_MAX ->
  exists r, hl_bytes_find mem pos len pat wpos wlen = Some r /\
    ((r = -1 /\ forall i, pos <= i -> i + wlen <= pos + len -> ~ occurs mem pat wpos wlen i) \/
     (pos <= r /\ r + wlen <= pos + len /\ occurs mem pat wpos wlen r /\ forall i, pos <= i < r -> ~ occurs mem pat wpos wlen i)).
Proof.
  intros Hbm Hbp Hpos Hlen Hmem Hw Hwl Hpat Hmax Hpmax. unfold INT_MAX in *. unfold hl_bytes_find.
  rewrite !uN_small by (change (2 ^ 64) with 18446744073709551616; lia). unfold memfind_rb.
  destruct (Z.ltb_spec len wlen).
  { exists (-1). split; [done|]. left. split; [done|]. lia. }
  destruct (Z.eqb_spec wlen 0) as [->|Hne].
  { cbn [mbind option_bind]. rewrite i32_small by (unfold in_i32, INT_MIN, INT_MAX; lia). exists pos. split; [done|]. right. split; [lia|]. split; [lia|]. split; [intros k; lia|intros i; lia]. }
  destruct (shift_table_spec pat wpos wlen Hbp Hwl Hw Hpat) as (t & -> & Hlt & Hshift). cbn [mbind option_bind]. cbv zeta.
  match goal with |- context [loop ?f ?n ?s] => destruct (fun H => loop_total f
    (fun m => pos <= m /\ forall i, pos <= i < m -> i + wlen <= pos + len -> ~ occurs mem pat wpos wlen i)
    (fun r => match r with
       | None => forall i, pos <= i -> i + wlen <= pos + len -> ~ occurs mem pat wpos wlen i
       | Some m => pos <= m /\ m + wlen <= pos + len /\ occurs mem pat wpos wlen m /\ forall i, pos <= i < m -> ~ occurs mem pat wpos wlen i end)
    (fun m => Z.to_nat (pos + (len - wlen + 1) - m)) H n s) as (r & -> & Hr) end.
  - intros m (Hm & Hnone). destruct (Z.ltb_spec m (pos + (len - wlen + 1))) as [Hlim|Hlim].
    + destruct (match_at_spec mem pat wpos wlen m) as (b & -> & Hb); try lia. cbn [mbind option_bind]. destruct b.
      * right. eexists. split; [done|]. split; [done|]. split; [lia|]. split; [by apply Hb|]. intros i Hi. apply Hnone; lia.
      * left. destruct (aget_is_Some mem (m + wlen)) as [c Hc]; [lia|]. rewrite Hc. cbn [mbind option_bind].
        destruct (aget_is_Some t c) as [s Hs]; [pose proof (bytes_aget _ _ _ Hbm Hc); lia|]. rewrite Hs. cbn [mbind option_bind]. destruct (Hshift c s Hs) as [Hsr Hsk].
        eexists. split; [done|]. split; [|lia]. split; [lia|]. intros i Hi Hil Hocc. destruct (decide (i < m)) as [Hlt'|Hge]; [by apply (Hnone i); [lia| |]|].
        destruct (decide (i = m)) as [->|Him]; [apply Hb in Hocc; done|].
        assert (s <= wlen - (m + wlen - i)); [|lia]. apply Hsk; [lia|]. rewrite <- Hocc by lia. by replace (i + (m + wlen - i)) with (m + wlen) by lia.
    + right. eexists. split; [done|]. intros i Hi Hil. apply Hnone; lia.
  - split; [lia|]. intros i Hi. lia.
  - lia.
  - cbn [mbind option_bind]. eexists. split; [done|]. destruct r as [m|]; [right|by left].
    destruct Hr as (H1 & H2 & H3 & H4). rewrite i32_small by (unfold in_i32, INT_MIN, INT_MAX; lia). done.
Qed.
Lemma hl_bytes_find_first_witness :
  exists r, hl_bytes_find [1; 2; 1; 2; 3; 9; 0] 0 6 [7; 1; 2; 3] 1 3 = Some r /\
    ((r = -1 /\ forall i, 0 <= i -> i + 3 <= 0 + 6 -> ~ occurs [1; 2; 1; 2; 3; 9; 0] [7; 1; 2; 3] 1 3 i) \/
     (0 <= r /\ r + 3 <= 0 + 6 /\ occurs [1; 2; 1; 2; 3; 9; 0] [7; 1; 2; 3] 1 3 r /\ forall i, 0 <= i < r -> ~ occurs [1; 2; 1; 2; 3; 9; 0] [7; 1; 2; 3] 1 3 i)).
Proof. apply (hl_bytes_find_first [1; 2; 1; 2; 3; 9; 0] 0 6 [7; 1; 2; 3] 1 3); first [discriminate|reflexivity|repeat constructor; discriminate]. Defined.
Example find_2 : hl_bytes_find [1; 2; 1; 2; 3; 9; 0] 0 6 [7; 1; 2; 3] 1 3 = Some 2.
Proof. reflexivity. Qed.
(** On a whole block, the search reads the byte after it. *)
Lemma find_reads_past : hl_bytes_find [1; 2; 3] 0 3 [9] 0 1 = None.
Proof. reflexivity. Qed.

Lemma first_diff_spec n : forall a apos b bpos, 0 <= apos -> 0 <= bpos -> apos + Z.of_nat n <= alen a -> bpos + Z.of_nat n <= alen b ->
  exists d, first_diff n a apos b bpos = Some d /\
    match d with
    | None => forall k, 0 <= k < Z.of_nat n -> aget a (apos + k) = aget b (bpos + k)
    | Some (x, y) => x <> y /\ exists k, 0 <= k < Z.of_nat n /\ aget a (apos + k) = Some x /\ aget b (bpos + k) = Some y /\
        forall j, 0 <= j < k -> aget a (apos + j) = aget b (bpos + j)
    end.
Proof.
  induction n as [|n IH]; intros a apos b bpos Ha Hb Hal Hbl; [exists None; split; [done|]; intros k; lia|]. cbn [first_diff].
  destruct (aget_is_Some a apos) as [x Hx]; [lia|]. destruct (aget_is_Some b bpos) as [y Hy]; [lia|]. rewrite Hx. cbn [mbind option_bind]. rewrite Hy. cbn [mbind option_bind].
  destruct (Z.eqb_spec x y) as [->|Hne].
  - destruct (IH a (apos + 1) b (bpos + 1)) as (d & -> & Hd); try lia. exists d. split; [done|].
    assert (forall m, (forall j, 0 <= j < m - 1 -> aget a (apos + 1 + j) = aget b (bpos + 1 + j)) -> forall k, 0 <= k < m -> aget a (apos + k) = aget b (bpos + k)) as Hshift.
    { intros m Hm k Hk. destruct (decide (k = 0)) as [->|]; [rewrite !Z.add_0_r; congruence|].
      specialize (Hm (k - 1) ltac:(lia)). by replace (apos + 1 + (k - 1)) with (apos + k) in Hm by lia; replace (bpos + 1 + (k - 1)) with (bpos + k) in Hm by lia. }
    destruct d as [[x' y']|].
    + destruct Hd as (Hne & k & Hk & Hxk & Hyk & Hj). split; [done|]. exists (k + 1). split; [lia|].
      replace (apos + (k + 1)) with (apos + 1 + k) by lia. replace (bpos + (k + 1)) with (bpos + 1 + k) by lia. split; [done|]. split; [done|].
      intros j Hjk. apply (Hshift (k + 1)); [|done]. intros i Hi. apply Hj. lia.
    + intros k Hk. apply (Hshift (Z.of_nat (S n))); [|done]. intros j Hj. apply Hd. lia.
  - exists (Some (x, y)). split; [done|]. split; [done|]. exists 0. rewrite !Z.add_0_r. split; [lia|]. split; [done|]. split; [done|]. intros j Hj. lia.
Qed.
(** Searching bytes backwards finds the last occurrence of the pattern, or -1. *)
Theorem hl_bytes_rfind_last mem len pat wlen : 0 <= len <= alen mem -> 0 <= wlen <= alen pat ->
  exists r, hl_bytes_rfind mem len pat wlen = Some r /\
    ((r = -1 /\ forall i, 0 <= i -> i + wlen <= len -> ~ occurs mem pat 0 wlen i) \/
     (0 <= r /\ r + wlen <= len /\ occurs mem pat 0 wlen r /\ forall i, r < i -> i + wlen <= len -> ~ occurs mem pat 0 wlen i)).
Proof.
  intros Hlen Hwl. unfold hl_bytes_rfind. destruct (Z.gtb_spec wlen len).
  { exists (-1). split; [done|]. left. split; [done|]. lia. }
  destruct (Z.eqb_spec wlen 0) as [->|Hne].
  { exists len. split; [done|]. right. split; [lia|]. split; [lia|]. split; [intros k; lia|lia]. }
  match goal with |- context [loop ?f ?n ?s] => apply (fun H => loop_total f
    (fun p => -1 <= p <= len - wlen /\ forall i, p < i -> i + wlen <= len -> ~ occurs mem pat 0 wlen i)
    (fun r => (r = -1 /\ forall i, 0 <= i -> i + wlen <= len -> ~ occurs mem pat 0 wlen i) \/
     (0 <= r /\ r + wlen <= len /\ occurs mem pat 0 wlen r /\ forall i, r < i -> i + wlen <= len -> ~ occurs mem pat 0 wlen i))
    (fun p => Z.to_nat (p + 1)) H n s) end.
  - intros p (Hp & Hnone). destruct (Z.geb_spec p 0) as [Hge|Hlt].
    + unfold memcmp. destruct (first_diff_spec (Z.to_nat wlen) mem p pat 0) as (d & -> & Hd); [lia|lia|lia|lia|]. cbn [mbind option_bind]. rewrite Z2Nat.id in Hd by lia.
      destruct d as [[x y]|].
      * left. exists (p - 1). split; [by destruct (x <? y)|]. split; [|lia]. split; [lia|]. intros i Hi Hil. destruct (decide (i = p)) as [->|]; [|apply Hnone; lia].
        destruct Hd as (Hxy & k & Hk & Hx & Hy & _). intros Hocc. specialize (Hocc k Hk). rewrite Hx in Hocc. rewrite Z.add_0_l in Hocc, Hy. congruence.
      * right. exists p. split; [done|]. right. split; [lia|]. split; [lia|]. split; [exact Hd|done].
    + right. exists (-1). split; [done|]. left. split; [done|]. intros i Hi. apply Hnone. lia.
  - split; [lia|]. intros i Hi. lia.
  - lia.
Qed.
Lemma hl_bytes_rfind_last_witness :
  exists r, hl_bytes_rfind [1; 2; 1; 2; 3] 5 [1; 2] 2 = Some r /\
    ((r = -1 /\ forall i, 0 <= i -> i + 2 <= 5 -> ~ occurs [1; 2; 1; 2; 3] [1; 2] 0 2 i) \/
     (0 <= r /\ r + 2 <= 5 /\ occurs [1; 2; 1; 2; 3] [1; 2] 0 2 r /\ forall i, r < i -> i + 2 <= 5 -> ~ occurs [1; 2; 1; 2; 3] [1; 2] 0 2 i)).
Proof. apply (hl_bytes_rfind_last [1; 2; 1; 2; 3] 5 [1; 2] 2); split; discriminate. Defined.

(** Where two strings first differ decides their order; else the shorter one is first. *)
Lemma lexcmp_diff s t k x y : aget s k = Some x -> aget t k = Some y -> x <> y -> (forall j, 0 <= j < k -> aget s j = aget t j) -> lexcmp s t = x - y.
Proof.
  revert t k. induction s as [|c s IH]; intros [|d t] k Hx Hy Hne Hj;
    try (pose proof (aget_Some_range _ _ _ Hx) as Hr; unfold alen in Hr; simpl in Hr; lia);
    try (pose proof (aget_Some_range _ _ _ Hy) as Hr; unfold alen in Hr; simpl in Hr; lia).
  pose proof (aget_Some_range _ _ _ Hx) as Hk. cbn [lexcmp]. destruct (decide (k = 0)) as [->|Hk0].
  { rewrite aget_lookup in Hx, Hy by lia. injection Hx as ->. injection Hy as ->. by rewrite (proj2 (Z.eqb_neq x y)). }
  assert (forall (l : list Z) c j, 0 <= j -> aget (c :: l) (j + 1) = aget l j) as Htl.
  { intros l e j Hj0. rewrite !aget_lookup by lia. by replace (Z.to_nat (j + 1)) with (S (Z.to_nat j)) by lia. }
  assert (c = d) as ->. { specialize (Hj 0 ltac:(lia)). rewrite !aget_lookup in Hj by lia. injection Hj as Hj. done. }
  rewrite Z.eqb_refl. apply (IH t (k - 1)); [| |done|].
  - rewrite <- (Htl s d) by lia. by replace (k - 1 + 1) with k by lia.
  - rewrite <- (Htl t d) by lia. by replace (k - 1 + 1) with k by lia.
  - intros j Hjk. specialize (Hj (j + 1) ltac:(lia)). by rewrite !Htl in Hj by lia.
Qed.
Lemma lexcmp_prefix s : forall t, Forall (fun c => c <> 0) s -> Forall (fun c => c <> 0) t -> uchars s -> uchars t ->
  (forall j, 0 <= j < Z.min (alen s) (alen t) -> aget s j = aget t j) -> Z.sgn (lexcmp s t) = Z.sgn (alen s - alen t).
Proof.
  induction s as [|c s IH]; intros [|d t] Hs Ht Us Ut Hj; [done|..]; cbn [lexcmp].
  - inversion Ht; inversion Ut; subst. unfold alen. simpl. lia.
  - inversion Hs; inversion Us; subst. unfold alen. simpl. lia.
  - rewrite !alen_cons in *. pose proof (alen_nonneg s). pose proof (alen_nonneg t).
    assert (c = d) as ->. { specialize (Hj 0 ltac:(lia)). rewrite !aget_lookup in Hj by lia. injection Hj as Hj. done. }
    rewrite Z.eqb_refl. replace (alen s + 1 - (alen t + 1)) with (alen s - alen t) by lia.
    inversion Hs; inversion Ht; inversion Us; inversion Ut; subst. rewrite (IH t); try done.
    + f_equal; lia.
    + intros j Hjk. specialize (Hj (j + 1) ltac:(lia)). rewrite !aget_lookup in Hj by lia.
      replace (Z.to_nat (j + 1)) with (S (Z.to_nat j)) in Hj by lia. cbn in Hj. by rewrite !aget_lookup by lia.
Qed.
(** Comparing two whole strings gives an [int] with the sign of the lexicographic
    order, the one [ucmp] computes, with no read past either zero. *)
Theorem hl_string_compare_full_order a b s t : cstring a s -> cstring b t -> uchars s -> uchars t -> alen s <= 2 ^ 30 -> alen t <= 2 ^ 30 ->
  exists c d, hl_string_compare_full a b = Some c /\ ucmp a b = Some d /\ in_i32 c /\ Z.sgn c = Z.sgn d.
Proof.
  intros Ha Hb Us Ut Hsl Htl. change (2 ^ 30) with 1073741824 in *. rewrite (ucmp_spec a b s t Ha Hb Us Ut). unfold hl_string_compare_full.
  rewrite (ustrlen_spec a s Ha). cbn [mbind option_bind]. rewrite (ustrlen_spec b t Hb). cbn [mbind option_bind]. pose proof (alen_nonneg s). pose proof (alen_nonneg t).
  unfold in_i32, INT_MIN, INT_MAX.
  rewrite (int_of_Some (alen s)) by (unfold in_i32, INT_MIN, INT_MAX; lia). cbn [mbind option_bind].
  rewrite (int_of_Some (alen t)) by (unfold in_i32, INT_MIN, INT_MAX; lia). cbn [mbind option_bind]. cbv zeta.
  replace (if alen s <? alen t then alen s else alen t) with (Z.min (alen s) (alen t)) by (destruct (Z.ltb_spec (alen s) (alen t)); lia).
  destruct Ha as [Hns (ra & ->)], Hb as [Hnt (rb & ->)]. unfold hl_bytes_compare16.
  destruct (first_diff_spec (Z.to_nat (Z.min (alen s) (alen t))) (s ++ 0 :: ra) 0 (t ++ 0 :: rb) 0) as (d & -> & Hd);
    [lia|lia|rewrite alen_app; pose proof (alen_nonneg (0 :: ra)); lia|rewrite alen_app; pose proof (alen_nonneg (0 :: rb)); lia|].
  rewrite Z2Nat.id in Hd by lia. cbn [mbind option_bind].
  assert (forall k, 0 <= k < Z.min (alen s) (alen t) -> aget (s ++ 0 :: ra) (0 + k) = aget s k /\ aget (t ++ 0 :: rb) (0 + k) = aget t k) as Hin.
  { intros k Hk. rewrite Z.add_0_l, !aget_app_l by lia. done. }
  destruct d as [[x y]|].
  - destruct Hd as (Hxy & k & Hk & Hx & Hy & Hj). destruct (Hin k Hk) as [E1 E2]. rewrite E1 in Hx. rewrite E2 in Hy.
    rewrite (proj2 (Z.eqb_neq (x - y) 0)) by lia. cbn [negb]. exists (x - y), (lexcmp s t). split; [done|]. split; [done|].
    rewrite (lexcmp_diff s t k x y Hx Hy Hxy) by (intros j Hjk; destruct (Hin j ltac:(lia)) as [F1 F2]; rewrite <- F1, <- F2; by apply Hj).
    assert (0 <= x < 2 ^ 16 /\ 0 <= y < 2 ^ 16) as [Rx Ry].
    { pose proof (aget_Some_range _ _ _ Hx). pose proof (aget_Some_range _ _ _ Hy). rewrite aget_lookup in Hx, Hy by lia. split; [by eapply Forall_lookup_1 in Us|by eapply Forall_lookup_1 in Ut]. }
    change (2 ^ 16) with 65536 in *. split; [lia|done].
  - rewrite Z.eqb_refl. cbn [negb]. rewrite int_of_Some by (unfold in_i32, INT_MIN, INT_MAX; lia). eexists _, _. split; [done|]. split; [done|]. split; [lia|].
    symmetry. apply lexcmp_prefix; try done. intros j Hj. destruct (Hin j Hj) as [F1 F2]. rewrite <- F1, <- F2. by apply Hd.
Qed.
Lemma hl_string_compare_full_order_witness :
  exists c d, hl_string_compare_full [97; 98; 0; 7] [97; 98; 99; 0] = Some c /\ ucmp [97; 98; 0; 7] [97; 98; 99; 0] = Some d /\ in_i32 c /\ Z.sgn c = Z.sgn d.
Proof.
  apply (hl_string_compare_full_order [97; 98; 0; 7] [97; 98; 99; 0] [97; 98] [97; 98; 99]); try (vm_compute; discriminate);
    first [apply (cstring_intro [97; 98] [7])|apply (cstring_intro [97; 98; 99] [])|idtac]; repeat constructor; discriminate.
Defined.
(** [hl_string_compare] compares bytes, low byte first: its sign is not that order. *)
Lemma string_compare_bytes : hl_string_compare [0; 1] [97; 0] 1 = Some (-1) /\ hl_string_compare_full [256; 0] [97; 0] = Some 159.
Proof. split; reflexivity. Qed.
