(* ===== verification/FreeList.v ===== *)
(** * The free list of the hash maps ([hl_free_list] of [src/std/maps.c])

    The free positions of a table are kept as ranges.  While there is a single range and
    no array was ever needed, the record itself is the range: [head] is its start and
    [nbuckets] its length.  Afterwards [buckets] is an array of [nbuckets] cells whose
    first [head] hold the ranges. *)
From S2P Require Import Prelude.

(** A range: [pos] and [count]. *)
Abbreviation hl_free_bucket := (Z * Z)%type (only parsing).
Record hl_free_list := FL { buckets : option (list hl_free_bucket); head : Z; nbuckets : Z }.

Section free_list.
Context (junk : hl_free_bucket).

Definition hl_freelist_resize (f : hl_free_list) (newsize : Z) : option hl_free_list :=
  b ← acopy (replicate (Z.to_nat newsize) junk) 0 (default [] (buckets f)) 0 (head f);
  Some (FL (Some b) (head f) newsize).
Definition hl_freelist_init : hl_free_list := FL None 0 0.

(** [while( b < f->buckets + f->head )]: the first range after [pos]. *)
Definition find_bucket (bs : list hl_free_bucket) (head pos : Z) : option Z :=
  loop (fun b => if b <? head then x ← aget bs b; if x.1 >? pos then Some (inr b) else Some (inl (b + 1)) else Some (inr b))
    (S (Z.to_nat head)) 0.
(** [prev && prev->pos + prev->count == p], where [prev] is the range before [b]. *)
Definition prev_ends_at (bs : list hl_free_bucket) (b p : Z) : option bool :=
  if b =? 0 then Some false else x ← aget bs (b - 1); Some (x.1 + x.2 =? p).
Definition grow_prev (bs : list hl_free_bucket) (b count : Z) : option (list hl_free_bucket) :=
  x ← aget bs (b - 1); aset bs (b - 1) (x.1, x.2 + count).
(** The range [b] starts where the new one ends. *)
Definition extend_down (f : hl_free_list) (bs : list hl_free_bucket) (b count : Z) : option hl_free_list :=
  x ← aget bs b;
  let x := (x.1 - count, x.2 + count) in
  bs ← aset bs b x;
  merge ← prev_ends_at bs b x.1;
  if (merge : bool) then
    bs ← grow_prev bs b x.2;
    bs ← amove bs b (b + 1) (head f - (b + 1));
    Some (FL (Some bs) (head f - 1) (nbuckets f))
  else Some (FL (Some bs) (head f) (nbuckets f)).
Definition insert_bucket (f : hl_free_list) (b pos count : Z) : option hl_free_list :=
  f ← (if head f =? nbuckets f then n3 ← int_of (nbuckets f * 3 + 1); hl_freelist_resize f (Z.shiftr n3 1) else Some f);
  let bs := default [] (buckets f) in
  bs ← amove bs (b + 1) b (head f - b);
  bs ← aset bs b (pos, count);
  Some (FL (Some bs) (head f + 1) (nbuckets f)).
(** From [while( b < f->buckets + f->head )] on. *)
Definition add_to_buckets (f : hl_free_list) (bs : list hl_free_bucket) (pos count : Z) : option hl_free_list :=
  b ← find_bucket bs (head f) pos;
  next ← (if b <? head f then x ← aget bs b; Some (x.1 =? pos + count) else Some false);
  if (next : bool) then extend_down f bs b count
  else
    merge ← prev_ends_at bs b pos;
    if (merge : bool) then bs ← grow_prev bs b count; Some (FL (Some bs) (head f) (nbuckets f))
    else insert_bucket f b pos count.
(** The inner call, once there are buckets, never tests for the range form again. *)
Definition hl_freelist_add_range (f : hl_free_list) (pos count : Z) : option hl_free_list :=
  match buckets f with
  | Some bs => add_to_buckets f bs pos count
  | None =>
      if nbuckets f =? 0 then Some (FL None pos count)
      else if head f + nbuckets f =? pos then Some (FL None (head f) (nbuckets f + count))
      else if pos + count =? head f then Some (FL None (head f - count) (nbuckets f + count))
      else
        let cur_pos := head f in
        let cur_count := nbuckets f in
        f ← hl_freelist_resize (FL None 0 0) 2;
        f ← (if negb (cur_count =? 0) then add_to_buckets f (default [] (buckets f)) cur_pos cur_count else Some f);
        add_to_buckets f (default [] (buckets f)) pos count
  end.
Definition hl_freelist_add (f : hl_free_list) (pos : Z) : option hl_free_list := hl_freelist_add_range f pos 1.
(** The position and the list left. *)
Definition hl_freelist_get (f : hl_free_list) : option (Z * hl_free_list) :=
  match buckets f with
  | None =>
      if nbuckets f =? 0 then Some (-1, f)
      else Some (head f, FL None (head f + 1) (nbuckets f - 1))
  | Some bs =>
      if head f =? 0 then Some (-1, f)
      else
        let b := head f - 1 in
        x ← aget bs b;
        let count := x.2 - 1 in
        bs ← aset bs b (x.1, count);
        let p := x.1 + count in
        if count =? 0 then
          let f := FL (Some bs) (head f - 1) (nbuckets f) in
          if head f <? Z.shiftr (nbuckets f) 1 then f ← hl_freelist_resize f (Z.shiftr (nbuckets f) 1); Some (p, f)
          else Some (p, f)
        else Some (p, FL (Some bs) (head f) (nbuckets f))
  end.
End free_list.

(** * The ranges of a free list *)
Definition ranges (f : hl_free_list) : list hl_free_bucket :=
  match buckets f with
  | None => if nbuckets f =? 0 then [] else [(head f, nbuckets f)]
  | Some bs => take (Z.to_nat (head f)) bs
  end.
(** The free positions, in increasing order. *)
Definition positions_of (l : list hl_free_bucket) : list Z := concat ((fun r : hl_free_bucket => seqZ r.1 r.2) <$> l).
Definition positions (f : hl_free_list) : list Z := positions_of (ranges f).
(** Ranges from [lo] on: not empty, increasing, and never two that touch. *)
Fixpoint maximal_ranges (lo : Z) (l : list hl_free_bucket) : Prop :=
  match l with
  | [] => True
  | r :: l => lo <= r.1 /\ 0 < r.2 /\ maximal_ranges (r.1 + r.2 + 1) l
  end.
Definition fl_ok (f : hl_free_list) : Prop :=
  maximal_ranges 0 (ranges f) /\
  match buckets f with
  | None => 0 <= nbuckets f
  | Some bs => 0 <= head f <= nbuckets f /\ 0 < nbuckets f /\ alen bs = nbuckets f
  end.

(** ** Lists of ranges *)
Lemma maximal_weaken lo lo' l : lo' <= lo -> maximal_ranges lo l -> maximal_ranges lo' l.
Proof. destruct l; simpl; [done|]. intros ? (?&?&?). split; [lia|done]. Qed.
Lemma maximal_app lo l1 l2 : maximal_ranges lo (l1 ++ l2) <->
  maximal_ranges lo l1 /\ maximal_ranges (match last l1 with Some r => r.1 + r.2 + 1 | None => lo end) l2.
Proof.
  revert lo. induction l1 as [|r l1 IH]; intros lo; [simpl; naive_solver|]. simpl. rewrite IH. destruct l1 as [|r' l1]; simpl; [naive_solver|]. 
  assert (exists z, last (r' :: l1) = Some z) as [z ->]; [|naive_solver]. destruct (last (r' :: l1)) eqn:E; [eauto|]. by apply last_None in E.
Qed.
Lemma positions_app l1 l2 : positions_of (l1 ++ l2) = positions_of l1 ++ positions_of l2.
Proof. unfold positions_of. by rewrite fmap_app, concat_app. Qed.
Lemma seqZ_join a n m : 0 <= n -> 0 <= m -> seqZ a n ++ seqZ (a + n) m = seqZ a (n + m).
Proof. intros. rewrite seqZ_app by lia. done. Qed.
Lemma positions_ge lo l p : maximal_ranges lo l -> p ∈ positions_of l -> lo <= p.
Proof.
  revert lo. induction l as [|r l IH]; intros lo Hm Hp; [by apply not_elem_of_nil in Hp|].
  destruct Hm as (H1 & H2 & H3). unfold positions_of in Hp. simpl in Hp. apply elem_of_app in Hp as [Hp|Hp].
  - apply elem_of_seqZ in Hp. lia.
  - specialize (IH _ H3 Hp). lia.
Qed.
Lemma positions_empty lo l : maximal_ranges lo l -> positions_of l = [] -> l = [].
Proof.
  destruct l as [|r l]; [done|]. intros (H1 & H2 & H3) Hp. unfold positions_of in Hp. simpl in Hp. apply app_eq_nil in Hp as [Hp _].
  rewrite seqZ_cons in Hp by lia. done.
Qed.
Lemma ranges_bound lo l B : maximal_ranges lo l -> lo <= B -> (forall p, p ∈ positions_of l -> p < B) -> alen l <= B - lo.
Proof.
  revert lo. induction l as [|r l IH]; intros lo Hm HB Hp; [unfold alen; simpl; lia|]. destruct Hm as (H1 & H2 & H3).
  assert (r.1 + r.2 - 1 < B) by (apply Hp; unfold positions_of; simpl; apply elem_of_app; left; apply elem_of_seqZ; lia).
  rewrite alen_cons. destruct (decide (r.1 + r.2 + 1 <= B)).
  - specialize (IH _ H3 l0). assert (alen l <= B - (r.1 + r.2 + 1)) by (apply IH; intros p Hpl; apply Hp; unfold positions_of in *; simpl; apply elem_of_app; by right). lia.
  - destruct l as [|s l]; [unfold alen; simpl; lia|]. destruct H3 as (H4 & H5 & _).
    assert (s.1 < B); [|lia]. apply Hp. unfold positions_of. simpl. apply elem_of_app. right. apply elem_of_app. left. apply elem_of_seqZ. lia.
Qed.


(** ** Adding a range to the list of ranges *)
Lemma positions_cons r l : positions_of (r :: l) = seqZ r.1 r.2 ++ positions_of l.
Proof. done. Qed.
(** A range disjoint from the others ends before the next one, and starts after the one before. *)
Lemma disjoint_next pos count x l : 0 < count -> 0 < x.2 -> pos < x.1 -> (forall p, pos <= p < pos + count -> p ∉ positions_of (x :: l)) -> pos + count <= x.1.
Proof.
  intros Hc Hx Hp Hd. destruct (decide (pos + count <= x.1)); [done|]. destruct (Hd x.1); [lia|]. rewrite positions_cons, elem_of_app, elem_of_seqZ. left. lia.
Qed.
Lemma disjoint_prev pos count x l : 0 < count -> x.1 <= pos -> (forall p, pos <= p < pos + count -> p ∉ positions_of (x :: l)) -> x.1 + x.2 <= pos.
Proof.
  intros Hc Hp Hd. destruct (decide (x.1 + x.2 <= pos)); [done|]. destruct (Hd pos); [lia|]. rewrite positions_cons, elem_of_app, elem_of_seqZ. left. lia.
Qed.
(** [l1] are the ranges from at most [pos], [l2] those from more than [pos]. *)
Definition new_ranges (l1 l2 : list hl_free_bucket) (pos count : Z) (l : list hl_free_bucket) : Prop :=
  maximal_ranges 0 l /\ positions_of l ≡ₚ seqZ pos count ++ positions_of (l1 ++ l2).

Section add_ranges.
Context (l1 l2 : list hl_free_bucket) (pos count : Z).
Hypothesis Hmax : maximal_ranges 0 (l1 ++ l2).
Hypothesis Hpos : 0 <= pos.
Hypothesis Hcount : 0 < count.
Hypothesis Hle : Forall (fun r : hl_free_bucket => r.1 <= pos) l1.
Hypothesis Hgt : match l2 with [] => True | x :: _ => pos < x.1 end.
Hypothesis Hdis : forall p, pos <= p < pos + count -> p ∉ positions_of (l1 ++ l2).

Lemma next_after x l : l2 = x :: l -> pos + count <= x.1 /\ 0 < x.2 /\ maximal_ranges (x.1 + x.2 + 1) l.
Proof.
  intros El. apply maximal_app in Hmax as [_ Hm]. rewrite El in Hm, Hgt. destruct Hm as (_ & Hx & Hm). split; [|done].
  apply (disjoint_next pos count x l); try done. intros p Hp Hin. apply (Hdis p Hp). rewrite El, positions_app. apply elem_of_app. by right.
Qed.
Lemma prev_before l y : l1 = l ++ [y] -> y.1 + y.2 <= pos /\ maximal_ranges 0 l /\ 0 < y.2 /\ match last l with Some r => r.1 + r.2 + 1 | None => 0 end <= y.1.
Proof.
  intros El. apply maximal_app in Hmax as [Hm _]. rewrite El in Hm. apply maximal_app in Hm as (Hml & Hy & Hy2 & _).
  split; [|done]. apply (disjoint_prev pos count y l2); [done| |].
  - rewrite El in Hle. apply Forall_app in Hle as [_ Hle]. by inversion Hle.
  - intros p Hp Hin. apply (Hdis p Hp). rewrite El, <- app_assoc, positions_app. apply elem_of_app. by right.
Qed.
Lemma prev_gap : ~ (exists l y, l1 = l ++ [y] /\ y.1 + y.2 = pos) ->
  maximal_ranges 0 l1 /\ match last l1 with Some r => r.1 + r.2 + 1 | None => 0 end <= pos.
Proof.
  intros Hno. split; [by apply maximal_app in Hmax as [? _]|]. destruct (last_snoc_case l1) as [->|(l & y & El)]; [simpl; lia|].
  destruct (prev_before l y El) as (Hy & _). rewrite El, last_snoc. destruct (decide (y.1 + y.2 = pos)); [destruct Hno; eauto|lia].
Qed.
Lemma add_next x l : l2 = x :: l -> x.1 = pos + count -> ~ (exists l y, l1 = l ++ [y] /\ y.1 + y.2 = pos) ->
  new_ranges l1 l2 pos count (l1 ++ (pos, count + x.2) :: l).
Proof.
  intros El Hx Hno. destruct (next_after x l El) as (_ & Hx2 & Hm). destruct (prev_gap Hno) as [Hm1 Hlast]. split.
  - apply maximal_app. split; [done|]. cbn [maximal_ranges fst snd]. split; [done|]. split; [lia|]. by replace (pos + (count + x.2) + 1) with (x.1 + x.2 + 1) by lia.
  - rewrite El, !positions_app, !positions_cons. cbn [fst snd]. rewrite <- seqZ_join by lia. rewrite Hx. rewrite <- app_assoc. by rewrite Permutation_app_swap_app.
Qed.
Lemma add_both x l l' y : l2 = x :: l -> x.1 = pos + count -> l1 = l' ++ [y] -> y.1 + y.2 = pos ->
  new_ranges l1 l2 pos count (l' ++ (y.1, y.2 + (count + x.2)) :: l).
Proof.
  intros El Hx El1 Hy. destruct (next_after x l El) as (_ & Hx2 & Hm). destruct (prev_before l' y El1) as (_ & Hm1 & Hy2 & Hlast). split.
  - apply maximal_app. split; [done|]. cbn [maximal_ranges fst snd]. split; [done|]. split; [lia|]. by replace (y.1 + (y.2 + (count + x.2)) + 1) with (x.1 + x.2 + 1) by lia.
  - rewrite El, El1, !positions_app, !positions_cons. cbn [fst snd positions_of fmap list_fmap concat]. rewrite <- !seqZ_join by lia. rewrite Hx, Hy, app_nil_r, <- !app_assoc.
    rewrite (Permutation_app_swap_app (seqZ y.1 y.2) (seqZ pos count)). by rewrite (Permutation_app_swap_app _ (seqZ pos count)).
Qed.
Lemma add_prev l' y : l1 = l' ++ [y] -> y.1 + y.2 = pos -> ~ (exists x l, l2 = x :: l /\ x.1 = pos + count) ->
  new_ranges l1 l2 pos count (l' ++ (y.1, y.2 + count) :: l2).
Proof.
  intros El1 Hy Hno. destruct (prev_before l' y El1) as (_ & Hm1 & Hy2 & Hlast). split.
  - apply maximal_app. split; [done|]. cbn [maximal_ranges fst snd]. split; [done|]. split; [lia|]. pose proof next_after as Hnext. destruct l2 as [|x l] eqn:El; [done|].
    destruct (Hnext x l eq_refl) as (Hx & Hx2 & Hm). split; [|done]. destruct (decide (x.1 = pos + count)); [destruct Hno; eauto|lia].
  - rewrite El1, !positions_app, !positions_cons. cbn [fst snd positions_of fmap list_fmap concat]. rewrite <- !seqZ_join by lia. rewrite Hy, app_nil_r, <- !app_assoc.
    rewrite (Permutation_app_swap_app (seqZ y.1 y.2) (seqZ pos count)). by rewrite (Permutation_app_swap_app _ (seqZ pos count)).
Qed.
Lemma add_between : ~ (exists l y, l1 = l ++ [y] /\ y.1 + y.2 = pos) -> ~ (exists x l, l2 = x :: l /\ x.1 = pos + count) ->
  new_ranges l1 l2 pos count (l1 ++ (pos, count) :: l2).
Proof.
  intros Hno1 Hno2. destruct (prev_gap Hno1) as [Hm1 Hlast]. split.
  - apply maximal_app. split; [done|]. cbn [maximal_ranges fst snd]. split; [done|]. split; [done|]. pose proof next_after as Hnext. destruct l2 as [|x l] eqn:El; [done|].
    destruct (Hnext x l eq_refl) as (Hx & Hx2 & Hm). split; [|done]. destruct (decide (x.1 = pos + count)); [destruct Hno2; eauto|lia].
  - rewrite !positions_app, positions_cons. cbn [fst snd]. by rewrite Permutation_app_swap_app.
Qed.
End add_ranges.


(** ** The operations *)
Lemma find_bucket_spec rs tl pos : exists l1 l2, rs = l1 ++ l2 /\ find_bucket (rs ++ tl) (alen rs) pos = Some (alen l1) /\
  Forall (fun r : hl_free_bucket => r.1 <= pos) l1 /\ match l2 with [] => True | x :: _ => pos < x.1 end.
Proof.
  pose proof (alen_nonneg rs) as Hrs.
  edestruct (loop_total (fun b => if b <? alen rs then x ← aget (rs ++ tl) b; if x.1 >? pos then Some (inr b) else Some (inl (b + 1)) else Some (inr b))
    (fun b => exists l1 l2, rs = l1 ++ l2 /\ b = alen l1 /\ Forall (fun r : hl_free_bucket => r.1 <= pos) l1)
    (fun b => exists l1 l2, rs = l1 ++ l2 /\ b = alen l1 /\ Forall (fun r : hl_free_bucket => r.1 <= pos) l1 /\ match l2 with [] => True | x :: _ => pos < x.1 end)
    (fun b => Z.to_nat (alen rs - b))) as (b & Hb & l1 & l2 & Hrs' & -> & H); [| | |exists l1, l2; split; [done|]; split; [exact Hb|done]].
  - intros b (l1 & l2 & -> & -> & Hl1). destruct l2 as [|x l2].
    + right. exists (alen l1). rewrite app_nil_r. destruct (Z.ltb_spec (alen l1) (alen l1)); [lia|]. split; [done|]. exists l1, []. by rewrite app_nil_r.
    + destruct (Z.ltb_spec (alen l1) (alen (l1 ++ x :: l2))) as [_|Hge]; [|rewrite alen_app, alen_cons in Hge; pose proof (alen_nonneg l2); lia].
      rewrite <- app_assoc. cbn [app]. rewrite aget_mid by done. cbn [mbind option_bind]. destruct (Z.gtb_spec x.1 pos).
      * right. eexists. split; [done|]. exists l1, (x :: l2). split; [done|]. split; [done|]. split; [done|]. lia.
      * left. eexists. split; [done|]. split; [|rewrite alen_app, alen_cons; pose proof (alen_nonneg l2); lia]. exists (l1 ++ [x]), l2.
        rewrite <- app_assoc. split; [done|]. split; [rewrite alen_app; done|]. apply Forall_app. split; [done|]. constructor; [lia|done].
  - exists [], rs. split; [done|]. split; [done|constructor].
  - lia.
Qed.
Lemma prev_ends_spec l1 l p : exists b, prev_ends_at (l1 ++ l) (alen l1) p = Some b /\
  (if b then exists l' y, l1 = l' ++ [y] /\ y.1 + y.2 = p else ~ exists l' y, l1 = l' ++ [y] /\ y.1 + y.2 = p).
Proof.
  unfold prev_ends_at. destruct (last_snoc_case l1) as [->|(l' & y & ->)].
  - exists false. split; [done|]. intros (l' & y & Hl & _). by destruct l'.
  - rewrite <- app_assoc, alen_app. change (alen [y]) with 1. pose proof (alen_nonneg l'). destruct (Z.eqb_spec (alen l' + 1) 0); [lia|].
    cbn [app]. rewrite aget_mid by lia. cbn [mbind option_bind]. eexists. split; [done|]. destruct (Z.eqb_spec (y.1 + y.2) p); [eauto|].
    intros (l2 & z & Hl & Hz). apply app_inj_tail in Hl as [-> ->]. done.
Qed.
Lemma grow_prev_mid l' y l count b : b = alen l' + 1 -> grow_prev (l' ++ y :: l) b count = Some (l' ++ (y.1, y.2 + count) :: l).
Proof. intros ->. unfold grow_prev. rewrite aget_mid by lia. cbn [mbind option_bind]. by rewrite (aset_mid l') by lia. Qed.

Section free_list_ok.
Context (junk : hl_free_bucket).

(** A list with buckets [bs], of which the first [head] are [rs]. *)
Definition with_ranges (f : hl_free_list) (rs : list hl_free_bucket) : Prop :=
  exists tl, buckets f = Some (rs ++ tl) /\ head f = alen rs /\ nbuckets f = alen (rs ++ tl) /\ 0 < nbuckets f.
Lemma with_ranges_ok f rs : with_ranges f rs -> ranges f = rs /\ (fl_ok f <-> maximal_ranges 0 rs).
Proof.
  intros (tl & Hb & Hh & Hn & Hp). assert (ranges f = rs) as Hr. { unfold ranges. rewrite Hb, Hh. apply take_app_length'. unfold alen. lia. }
  split; [done|]. unfold fl_ok. rewrite Hr, Hb. rewrite Hn, Hh in *. pose proof (alen_nonneg rs). pose proof (alen_nonneg tl). rewrite alen_app in *. naive_solver lia.
Qed.
Lemma freelist_resize_spec f rs newsize : with_ranges f rs -> alen rs <= newsize -> 0 < newsize ->
  exists f', hl_freelist_resize junk f newsize = Some f' /\ with_ranges f' rs /\ nbuckets f' = newsize.
Proof.
  intros (tl & Hb & Hh & Hn & Hp) Hle Hpos. unfold hl_freelist_resize. rewrite Hb, Hh. cbn [default from_option id]. pose proof (alen_nonneg rs). pose proof (alen_nonneg tl).
  unfold acopy. rewrite alen_replicate, alen_app, decide_True by lia. cbn [mbind option_bind]. eexists. split; [done|]. split; [|done].
  change (Z.to_nat 0) with 0%nat. rewrite take_0, drop_0. cbn [app]. rewrite take_app_length' by (unfold alen; lia).
  eexists. cbn [buckets head nbuckets]. split; [done|]. split; [done|]. split; [|done]. rewrite alen_app. unfold alen in *. rewrite length_drop, length_replicate. lia.
Qed.
Lemma insert_bucket_spec f l1 l2 pos count : with_ranges f (l1 ++ l2) -> alen (l1 ++ l2) * 3 + 1 <= INT_MAX ->
  exists f', insert_bucket junk f (alen l1) pos count = Some f' /\ with_ranges f' (l1 ++ (pos, count) :: l2).
Proof.
  intros Hf Hmax. unfold insert_bucket.
  assert (exists f', (if head f =? nbuckets f then n3 ← int_of (nbuckets f * 3 + 1); hl_freelist_resize junk f (Z.shiftr n3 1) else Some f) = Some f' /\ with_ranges f' (l1 ++ l2) /\ head f' < nbuckets f') as (f' & -> & Hf' & Hroom).
  { destruct (Z.eqb_spec (head f) (nbuckets f)) as [E|E].
    - pose proof Hf as (tl & Hb & Hh & Hn & Hp). rewrite int_of_Some by (unfold in_i32, INT_MAX, INT_MIN in *; lia). cbn [mbind option_bind].
      assert (nbuckets f + 1 <= Z.shiftr (nbuckets f * 3 + 1) 1) by (rewrite shiftr_div by lia; change (2 ^ 1) with 2; z_div).
      destruct (freelist_resize_spec f _ (Z.shiftr (nbuckets f * 3 + 1) 1) Hf) as (f' & Hr & Hf' & Hn'); [lia|lia|]. exists f'. split; [done|]. split; [done|].
      destruct Hf' as (? & _ & Hh' & _). lia.
    - exists f. split; [done|]. split; [done|]. destruct Hf as (tl & Hb & Hh & Hn & Hp). rewrite (alen_app (l1 ++ l2) tl) in Hn. pose proof (alen_nonneg tl). lia. }
  cbn [mbind option_bind]. destruct Hf' as (tl & Hb & Hh & Hn & Hp). rewrite Hb. cbn [default from_option id]. destruct tl as [|z tl]; [rewrite app_nil_r in Hn; lia|].
  rewrite <- app_assoc. destruct (amove_insert l1 l2 z tl (alen l1) (head f' - alen l1)) as [w ->]; [done|rewrite Hh, alen_app; lia|].
  cbn [mbind option_bind]. rewrite aset_mid by done. cbn [mbind option_bind]. eexists. split; [done|].
  exists tl. cbn [buckets head nbuckets]. rewrite <- app_assoc. split; [done|]. rewrite Hh, Hn. alens.
Qed.
Lemma extend_down_spec f l1 x l2 pos count : with_ranges f (l1 ++ x :: l2) -> x.1 = pos + count ->
  exists f' rs, (forall bs, buckets f = Some bs -> extend_down f bs (alen l1) count = Some f') /\ with_ranges f' rs /\
    ((~ (exists l y, l1 = l ++ [y] /\ y.1 + y.2 = pos) /\ rs = l1 ++ (pos, count + x.2) :: l2) \/
     (exists l y, l1 = l ++ [y] /\ y.1 + y.2 = pos /\ rs = l ++ (y.1, y.2 + (count + x.2)) :: l2)).
Proof.
  intros (tl & Hb & Hh & Hn & Hp) Hx. rewrite <- app_assoc in Hb, Hn. cbn [app] in Hb, Hn.
  destruct (prev_ends_spec l1 ((pos, count + x.2) :: l2 ++ tl) pos) as (m & Hm & Hcase).
  destruct m.
  - destruct Hcase as (l & y & El & Hy). subst l1. rewrite (alen_app l [y]) in *. change (alen [y]) with 1 in *.
    destruct (amove_delete (l ++ [(y.1, y.2 + (count + x.2))]) (pos, count + x.2) l2 tl (alen l + 1) (head f - (alen l + 1 + 1))) as (t & Ht & Htl);
      [alens|alens|].
    eexists _, _. split; [intros bs Hbs; rewrite Hb in Hbs; injection Hbs as <-|split; [|right; eexists _, _; split; [done|]; split; [done|reflexivity]]].
    + unfold extend_down. rewrite aget_mid by (by rewrite alen_app). cbn [mbind option_bind]. cbv zeta. cbn [fst snd].
      rewrite (aset_mid (l ++ [y])) by (by rewrite alen_app). cbn [mbind option_bind]. replace (x.1 - count) with pos by lia. replace (x.2 + count) with (count + x.2) by lia.
      rewrite Hm. cbn [mbind option_bind]. rewrite <- app_assoc. cbn [app]. rewrite grow_prev_mid by done. cbn [mbind option_bind].
      rewrite <- app_assoc in Ht. cbn [app] in Ht. rewrite Ht. cbn [mbind option_bind]. reflexivity.
    + exists t. cbn [buckets head nbuckets]. rewrite <- !app_assoc. cbn [app]. split; [done|].
      rewrite Hh, Hn. alens.
  - eexists _, _. split; [intros bs Hbs; rewrite Hb in Hbs; injection Hbs as <-|split; [|left; split; [done|reflexivity]]].
    + unfold extend_down. rewrite aget_mid by done. cbn [mbind option_bind]. cbv zeta. cbn [fst snd].
      rewrite aset_mid by done. cbn [mbind option_bind]. replace (x.1 - count) with pos by lia. replace (x.2 + count) with (count + x.2) by lia.
      rewrite Hm. cbn [mbind option_bind]. reflexivity.
    + exists tl. cbn [buckets head nbuckets]. rewrite <- app_assoc. cbn [app]. split; [done|]. rewrite Hh, Hn. alens.
Qed.
End free_list_ok.

Section free_list_spec.
Context (junk : hl_free_bucket).

(** A range disjoint from the free positions, all of them below 2^29. *)
Definition fresh_range (f : hl_free_list) (pos count : Z) : Prop :=
  0 <= pos /\ 0 < count /\ (forall p, pos <= p < pos + count -> p ∉ positions f) /\ (forall p, p ∈ positions f -> p < 2 ^ 29).
Definition added (f f' : hl_free_list) (pos count : Z) : Prop := fl_ok f' /\ positions f' ≡ₚ seqZ pos count ++ positions f.

Lemma add_to_buckets_spec f rs bs pos count : with_ranges f rs -> buckets f = Some bs -> fl_ok f -> fresh_range f pos count ->
  exists f', add_to_buckets junk f bs pos count = Some f' /\ added f f' pos count /\ is_Some (buckets f').
Proof.
  intros Hf Hbs Hok (Hpos & Hcount & Hdis & Hsmall). destruct (with_ranges_ok f rs Hf) as [Hr Hokr]. apply Hokr in Hok as Hmax.
  unfold positions in Hdis, Hsmall. rewrite Hr in Hdis, Hsmall.
  assert (forall f' rs', with_ranges f' rs' -> maximal_ranges 0 rs' /\ positions_of rs' ≡ₚ seqZ pos count ++ positions_of rs -> added f f' pos count /\ is_Some (buckets f')) as Hadd.
  { intros f' rs' Hf' [Hm Hp]. destruct (with_ranges_ok f' rs' Hf') as [Hr' Hok']. split; [|by destruct Hf' as (? & -> & _)]. split; [by apply Hok'|]. unfold positions. by rewrite Hr, Hr'. }
  pose proof Hf as (tl & Hb & Hh & Hn & Hp). rewrite Hbs in Hb. injection Hb as ->.
  destruct (find_bucket_spec rs tl pos) as (l1 & l2 & -> & Hfind & Hle & Hgt). unfold add_to_buckets. rewrite Hh, Hfind. cbn [mbind option_bind].
  destruct (prev_ends_spec l1 (l2 ++ tl) pos) as (mp & Hprev & Hcase). rewrite (app_assoc l1) in Hprev.
  assert (alen (l1 ++ l2) <= 2 ^ 29) as Hlen. { pose proof (ranges_bound 0 (l1 ++ l2) (2 ^ 29) Hmax). assert (alen (l1 ++ l2) <= 2 ^ 29 - 0); [|lia]. apply H; [lia|]. done. }
  change (2 ^ 29) with 536870912 in Hlen. pose proof (insert_bucket_spec junk f l1 l2 pos count Hf ltac:(unfold INT_MAX; lia)) as Hins.
  assert (forall x l, l2 = x :: l -> aget ((l1 ++ l2) ++ tl) (alen l1) = Some x) as Hget by (intros x l ->; rewrite <- app_assoc; by apply aget_mid).
  assert ((exists x l, l2 = x :: l /\ x.1 = pos + count) \/ ~ (exists x l, l2 = x :: l /\ x.1 = pos + count)) as [(x & l & -> & Hx)|Hno].
  { destruct l2 as [|x l]; [right; naive_solver|]. destruct (decide (x.1 = pos + count)); [left; eauto|right; naive_solver]. }
  - rewrite (Hget x l eq_refl). destruct (Z.ltb_spec (alen l1) (alen (l1 ++ x :: l))); [|exfalso; pose proof (alen_nonneg l); alens]. cbn [mbind option_bind].
    rewrite (proj2 (Z.eqb_eq _ _) Hx). destruct (extend_down_spec f l1 x l pos count Hf Hx) as (f' & rs' & Hext & Hf' & Hrs').
    rewrite (Hext _ Hbs). exists f'. split; [done|]. apply (Hadd f' rs' Hf'). destruct Hrs' as [[Hno ->]|(l' & y & Hl1 & Hy & ->)].
    + by apply (add_next _ _ pos count Hmax Hpos Hcount Hle Hgt Hdis x l).
    + by apply (add_both _ _ pos count Hmax Hcount Hle Hgt Hdis x l l' y).
  - assert ((if alen l1 <? alen (l1 ++ l2) then x ← aget ((l1 ++ l2) ++ tl) (alen l1); Some (x.1 =? pos + count) else Some false) = Some false) as ->.
    { destruct (Z.ltb_spec (alen l1) (alen (l1 ++ l2))) as [Hlt|]; [|done]. destruct l2 as [|x l]; [rewrite app_nil_r in Hlt; lia|].
      rewrite (Hget x l eq_refl). cbn [mbind option_bind]. f_equal. apply Z.eqb_neq. intros Hx. apply Hno. eauto. }
    cbn [mbind option_bind]. rewrite Hprev. cbn [mbind option_bind]. destruct mp.
    + destruct Hcase as (l' & y & -> & Hy). rewrite <- !app_assoc. cbn [app]. rewrite grow_prev_mid by alens. cbn [mbind option_bind]. eexists. split; [done|].
      apply (Hadd _ (l' ++ (y.1, y.2 + count) :: l2)); [|by apply (add_prev _ _ pos count Hmax Hcount Hle Hgt Hdis l' y)].
      exists tl. cbn [buckets head nbuckets]. rewrite <- app_assoc. split; [done|]. rewrite Hn. alens.
    + destruct Hins as (f' & -> & Hf'). exists f'. split; [done|]. by apply (Hadd _ _ Hf'), add_between.
Qed.
End free_list_spec.

Lemma fl_ok_with_ranges f bs : fl_ok f -> buckets f = Some bs -> with_ranges f (ranges f).
Proof.
  intros [_ Hb] Hbs. rewrite Hbs in Hb. unfold ranges. rewrite Hbs. exists (drop (Z.to_nat (head f)) bs). rewrite take_drop.
  split; [done|]. split; [|lia]. unfold alen in *. rewrite length_take. lia.
Qed.
Lemma positions_single a n : positions_of [(a, n)] = seqZ a n.
Proof. unfold positions_of. cbn. apply app_nil_r. Qed.

Lemma hl_freelist_init_ok : fl_ok hl_freelist_init /\ positions hl_freelist_init = [].
Proof. split; [|done]. split; [done|]. cbn. lia. Qed.

Lemma hl_freelist_add_range_spec junk f pos count : fl_ok f -> fresh_range f pos count ->
  exists f', hl_freelist_add_range junk f pos count = Some f' /\ added f f' pos count.
Proof.
  intros Hok Hfresh. unfold hl_freelist_add_range. destruct (buckets f) as [bs|] eqn:Hb.
  { destruct (add_to_buckets_spec junk f (ranges f) bs pos count) as (f' & ? & ? & _); try done; [by eapply fl_ok_with_ranges|eauto]. }
  destruct Hfresh as (Hpos & Hcount & Hdis & Hsmall). pose proof Hok as [Hm Hn]. rewrite Hb in Hn. unfold ranges in Hm. rewrite Hb in Hm.
  assert (forall a n, 0 <= a -> 0 < n -> seqZ a n ≡ₚ seqZ pos count ++ positions f -> added f (FL None a n) pos count) as Hadd.
  { intros a n Ha Hn' Hp. unfold added, fl_ok, positions, ranges. cbn [buckets head nbuckets]. destruct (Z.eqb_spec n 0); [lia|]. rewrite positions_single. split; [|done]. cbn. repeat split; lia. }
  unfold positions, ranges in Hdis, Hsmall, Hadd. rewrite Hb in *.
  destruct (Z.eqb_spec (nbuckets f) 0) as [E|E].
  { eexists. split; [done|]. apply Hadd; [lia|lia|]. change (positions_of []) with (@nil Z). by rewrite app_nil_r. }
  rewrite positions_single in *. destruct Hm as (Hhead & Hnb & _). cbn [fst snd] in *.
  destruct (Z.eqb_spec (head f + nbuckets f) pos) as [Ea|Ea].
  { eexists. split; [done|]. apply Hadd; [lia|lia|]. rewrite <- seqZ_join by lia. rewrite Ea. apply Permutation_app_comm. }
  destruct (Z.eqb_spec (pos + count) (head f)) as [Ec|Ec].
  { eexists. split; [done|]. apply Hadd; [lia|lia|]. replace (nbuckets f + count) with (count + nbuckets f) by lia.
    rewrite <- (seqZ_join _ count (nbuckets f)) by lia. replace (head f - count) with pos by lia. by rewrite Ec. }
  clear Hadd. unfold hl_freelist_resize. cbn [buckets head default from_option id]. unfold acopy. rewrite decide_True by (repeat split; vm_compute; discriminate).
  cbn [mbind option_bind]. cbv zeta. cbn [negb].
  match goal with |- context [FL (Some ?b) 0 2] => change b with [junk; junk] end. set (f0 := FL (Some [junk; junk]) 0 2).
  destruct (add_to_buckets_spec junk f0 [] [junk; junk] (head f) (nbuckets f)) as (f1 & Hf1 & [Hok1 Hp1] & [bs1 Hb1]).
  - exists [junk; junk]. repeat split.
  - done.
  - split; [done|]. cbn. repeat split; lia.
  - split; [lia|]. split; [lia|]. split; [intros p _; apply not_elem_of_nil|]. intros p Hp. by apply not_elem_of_nil in Hp.
  - change (default [] (buckets f0)) with [junk; junk]. rewrite Hf1. cbn [mbind option_bind]. change (positions f0) with (@nil Z) in Hp1. rewrite app_nil_r in Hp1.
    rewrite Hb1. cbn [default from_option id].
    destruct (add_to_buckets_spec junk f1 (ranges f1) bs1 pos count) as (f2 & -> & [Hok2 Hp2] & _); [by eapply fl_ok_with_ranges|done|done| |].
    + split; [lia|]. split; [lia|]. split; intros p; rewrite Hp1; [apply Hdis|apply Hsmall].
    + exists f2. split; [done|]. split; [done|]. rewrite Hp2, Hp1. unfold positions, ranges. rewrite Hb, (proj2 (Z.eqb_neq _ _) E). by rewrite positions_single.
Qed.
(** C36. Freeing keeps the free list in normal form.  Adding a range of positions, none of
    them free before, makes exactly these positions free as well, and the list keeps its
    ranges not empty, in increasing order and maximal (two ranges never touch), in either
    of its forms; it always succeeds. *)
Theorem hl_freelist_add_range_normal junk f pos count : fl_ok f -> fresh_range f pos count ->
  exists f', hl_freelist_add_range junk f pos count = Some f' /\ added f f' pos count.
Proof. apply hl_freelist_add_range_spec. Qed.
Lemma hl_freelist_add_range_normal_witness :
  exists f', hl_freelist_add_range (7, 7) (FL None 3 2) 8 1 = Some f' /\ added (FL None 3 2) f' 8 1.
Proof.
  apply (hl_freelist_add_range_normal (7, 7) (FL None 3 2) 8 1); [repeat split; vm_compute; discriminate|].
  split; [lia|]. split; [lia|]. change (positions (FL None 3 2)) with (seqZ 3 2 ++ []). rewrite app_nil_r.
  split; intros p Hp; [intros Hin; apply elem_of_seqZ in Hin; lia|apply elem_of_seqZ in Hp; change (2 ^ 29) with 536870912; lia].
Defined.

Lemma seqZ_last a n : 0 < n -> seqZ a n = seqZ a (n - 1) ++ [a + (n - 1)].
Proof. intros. replace n with (n - 1 + 1) at 1 by lia. by rewrite <- (seqZ_join a (n - 1) 1) by lia. Qed.

Lemma hl_freelist_get_spec junk f : fl_ok f ->
  exists p f', hl_freelist_get junk f = Some (p, f') /\ fl_ok f' /\
    ((p = -1 /\ f' = f /\ positions f = []) \/ (0 <= p /\ positions f ≡ₚ p :: positions f')).
Proof.
  intros Hok. unfold hl_freelist_get. destruct (buckets f) as [bs|] eqn:Hb.
  - pose proof (fl_ok_with_ranges f bs Hok Hb) as Hf. destruct (with_ranges_ok f _ Hf) as [_ Hokr]. apply Hokr in Hok as Hm.
    pose proof Hf as (tl & Hb' & Hh & Hn & Hp). rewrite Hb in Hb'. injection Hb' as ->. unfold positions.
    destruct (last_snoc_case (ranges f)) as [E|(rs & x & E)]; rewrite E in *.
    { rewrite Hh. change (alen [] =? 0) with true. exists (-1), f. split; [done|]. split; [done|]. by left. }
    assert (alen (rs ++ [x]) = alen rs + 1) as Hl by (rewrite alen_app; done). pose proof (alen_nonneg rs).
    rewrite Hh, Hl. destruct (Z.eqb_spec (alen rs + 1) 0); [lia|]. rewrite <- app_assoc in *. cbn [app] in *. rewrite aget_mid by lia. cbn [mbind option_bind]. cbv zeta.
    rewrite aset_mid by lia. cbn [mbind option_bind]. pose proof (proj1 (maximal_app _ _ _) Hm) as (Hm1 & Hx1 & Hx2 & _).
    assert (positions_of (rs ++ [x]) ≡ₚ (x.1 + (x.2 - 1)) :: positions_of (rs ++ [(x.1, x.2 - 1)])) as Hperm.
    { rewrite !positions_app. destruct x as [a k]. rewrite !positions_single. cbn [fst snd] in *. rewrite (seqZ_last a k) by lia. rewrite app_assoc. symmetry. apply Permutation_cons_append. }
    assert (0 <= x.1 + (x.2 - 1)) as Hx0 by (apply (positions_ge 0 (rs ++ [x])); [done|]; rewrite Hperm; left).
    destruct (Z.eqb_spec (x.2 - 1) 0) as [E1|E1]; cbn [head nbuckets].
    + rewrite E1, Z.add_0_r in *. assert (with_ranges (FL (Some (rs ++ (x.1, 0) :: tl)) (alen rs + 1 - 1) (nbuckets f)) rs) as Hf1.
      { exists ((x.1, 0) :: tl). cbn [buckets head nbuckets]. split; [done|]. split; [lia|]. rewrite Hn. split; [alens|]. rewrite Hn in Hp. alens. }
      rewrite (positions_app rs [(x.1, 0)]), positions_single in Hperm. change (seqZ x.1 0) with (@nil Z) in Hperm. rewrite app_nil_r in Hperm.
      assert (exists f', (if alen rs + 1 - 1 <? Z.shiftr (nbuckets f) 1 then f0 ← hl_freelist_resize junk (FL (Some (rs ++ (x.1, 0) :: tl)) (alen rs + 1 - 1) (nbuckets f)) (Z.shiftr (nbuckets f) 1); Some (x.1, f0)
        else Some (x.1, FL (Some (rs ++ (x.1, 0) :: tl)) (alen rs + 1 - 1) (nbuckets f))) = Some (x.1, f') /\ with_ranges f' rs) as (f' & -> & Hf').
      { destruct (Z.ltb_spec (alen rs + 1 - 1) (Z.shiftr (nbuckets f) 1)) as [Hlt|]; [|by eexists].
        destruct (freelist_resize_spec junk _ rs (Z.shiftr (nbuckets f) 1) Hf1) as (f' & -> & Hf' & _); [lia|lia|]. cbn [mbind option_bind]. by eexists. }
      destruct (with_ranges_ok f' _ Hf') as [Hr' Hok']. exists x.1, f'. split; [done|]. split; [by apply Hok'|]. right. split; [done|]. by rewrite Hr', Hperm.
    + assert (with_ranges (FL (Some (rs ++ (x.1, x.2 - 1) :: tl)) (alen rs + 1) (nbuckets f)) (rs ++ [(x.1, x.2 - 1)])) as Hf1.
      { exists tl. cbn [buckets head nbuckets]. rewrite <- app_assoc. split; [done|]. rewrite alen_app. split; [done|]. rewrite Hn in *. alens. }
      destruct (with_ranges_ok _ _ Hf1) as [Hr' Hok']. eexists _, _. split; [done|]. split.
      * apply Hok'. apply maximal_app. split; [done|]. cbn. repeat split; [done|lia].
      * right. split; [lia|]. by rewrite Hr', Hperm.
  - destruct Hok as [Hm Hn]. rewrite Hb in Hn. unfold positions, ranges in *. rewrite Hb in *. destruct (Z.eqb_spec (nbuckets f) 0) as [E|E].
    { exists (-1), f. split; [done|]. split; [|by left]. unfold fl_ok, ranges. rewrite Hb, E. split; [done|lia]. }
    destruct Hm as (Hh & Hc & _). cbn [fst snd] in *. eexists _, _. split; [done|]. split; [split; cbn|right; split; [done|]]; cbn [buckets head nbuckets].
    + destruct (Z.eqb_spec (nbuckets f - 1) 0); [done|]. cbn. repeat split; lia.
    + lia.
    + rewrite positions_single, seqZ_cons by lia. destruct (Z.eqb_spec (nbuckets f - 1) 0) as [E2|E2]; [|by rewrite positions_single].
      replace (Z.pred (nbuckets f)) with 0 by lia. done.
Qed.
(** Taking a position returns one of the free positions, which is then no longer free,
    or -1 exactly when none is; the list stays in normal form. *)
Theorem hl_freelist_get_takes junk f : fl_ok f ->
  exists p f', hl_freelist_get junk f = Some (p, f') /\ fl_ok f' /\
    ((p = -1 /\ f' = f /\ positions f = []) \/ (0 <= p /\ positions f ≡ₚ p :: positions f')).
Proof. apply hl_freelist_get_spec. Qed.
Lemma hl_freelist_get_takes_witness :
  exists p f', hl_freelist_get (7, 7) (FL (Some [(1, 1); (5, 1); (7, 7); (7, 7)]) 2 4) = Some (p, f') /\ fl_ok f' /\
    ((p = -1 /\ f' = FL (Some [(1, 1); (5, 1); (7, 7); (7, 7)]) 2 4 /\ positions (FL (Some [(1, 1); (5, 1); (7, 7); (7, 7)]) 2 4) = []) \/
     (0 <= p /\ positions (FL (Some [(1, 1); (5, 1); (7, 7); (7, 7)]) 2 4) ≡ₚ p :: positions f')).
Proof. apply (hl_freelist_get_takes (7, 7) (FL (Some [(1, 1); (5, 1); (7, 7); (7, 7)]) 2 4)). repeat split; vm_compute; first [discriminate|reflexivity]. Defined.
