(* ===== verification/HashMap.v ===== *)
(** * Hash maps ([src/std/maps.h], [src/std/maps.c])

    [maps.h] is a template: each inclusion gives a map for one kind of key.  A map has
    [ncells] chains; [cells] holds the first entry of each chain and [nexts] the next one of
    each entry, -1 at the end.  Both are arrays of [signed char] while there are fewer than
    128 entries, and of [int] afterwards: an array remembers the width it was written with,
    and reading it at the other width is undefined.  The entries not in a chain are in the
    free list.

    The macros of an inclusion ([_MMATCH], [_MKEY], [_MSET], [_MERASE], hash and filter) are
    the methods of [map_kind]; [map_kind_ok] is what the theorems need of them. *)
From S2P Require Import Prelude Ustr Lookup FreeList.
From S2P Require Reader.

(** [t_entry] is [E]; [t_value] is a key part [P] and the value. *)
Class map_kind (K E P : Type) := MapKind {
  filter_key : K -> option K;
  hash_key : K -> option Z;
  mmatch : E -> P -> K -> Z -> option bool;
  mkey : E -> P -> option K;
  mset : E -> P -> K -> Z -> E * P;
  merase : P -> P;
  zero_entry : E;
  zero_part : P }.

Definition _MLIMIT : Z := 128.
Definition _MCLEAR_KEEP_ENTRIES : Z := 65536.
Definition H_SIZE_INIT : Z := 3.
Definition H_PRIMES : list Z :=
  [7; 17; 37; 79; 163; 331; 673; 1361; 2729; 5471; 10949; 21911; 43853; 87613; 175229; 350459; 700919; 1401857; 2803727;
   5607457; 11214943; 22429903; 44859823; 89719661; 179424673; 373587883; 776531401; 1611623773].

(** An array of [signed char] or of [int]. *)
Record karray := KArray { k_wide : bool; k_cells : list Z }.
(** [maxentries < _MLIMIT] decides the width of every access. *)
Definition wide_index (maxentries : Z) : bool := negb (maxentries <? _MLIMIT).
(** [_MINDEX] and [_MNEXT]. *)
Definition kget (maxentries : Z) (a : option karray) (i : Z) : option Z :=
  a ← a; if Bool.eqb (k_wide a) (wide_index maxentries) then aget (k_cells a) i else None.
Definition kset (maxentries : Z) (a : option karray) (i c : Z) : option karray :=
  a ← a;
  if Bool.eqb (k_wide a) (wide_index maxentries) then
    l ← aset (k_cells a) i (if wide_index maxentries then c else i8 c); Some (KArray (k_wide a) l)
  else None.

Section hash_map.
Context {K E P V : Type} {kd : map_kind K E P} (vnull : V).
(** What fresh memory holds. *)
Context (junkb : hl_free_bucket) (junkc : Z) (junke : E) (junkp : P * V).

Record t_map := Map {
  m_cells : option karray; m_nexts : option karray; m_entries : list E; m_values : option (list (P * V));
  m_lfree : hl_free_list; m_ncells : Z; m_nentries : Z; m_maxentries : Z }.
Definition m_alloc : t_map := Map None None [] None hl_freelist_init 0 0 0.
Definition with_lfree (m : t_map) (f : hl_free_list) : t_map :=
  Map (m_cells m) (m_nexts m) (m_entries m) (m_values m) f (m_ncells m) (m_nentries m) (m_maxentries m).

(** [hash % ((unsigned)m->ncells)] *)
Definition cell_of (m : t_map) (hash : Z) : option Z :=
  if u32 (m_ncells m) =? 0 then None else Some (hash mod u32 (m_ncells m)).
(** The loop over a chain, of [find], [set_impl] and [remove]: the entry found and the one before
    it, if any; only [remove] uses the latter. *)
Definition search_chain (m : t_map) (values : list (P * V)) (key : K) (hash c : Z) : option (option (Z * Z)) :=
  loop (fun '(c, prev) =>
      if c >=? 0 then
        e ← aget (m_entries m) c; v ← aget values c; b ← mmatch e v.1 key hash;
        if (b : bool) then Some (inr (Some (c, prev)))
        else c' ← kget (m_maxentries m) (m_nexts m) c; Some (inl (c', c))
      else Some (inr None)) (S (S (Z.to_nat (m_maxentries m)))) (c, -1).
(** The index of the entry; the code returns a pointer to its value. *)
Definition m_find (m : t_map) (key : K) : option (option Z) :=
  match m_values m with
  | None => Some None
  | Some values =>
      hash ← hash_key key; ckey ← cell_of m hash; c ← kget (m_maxentries m) (m_cells m) ckey;
      r ← search_chain m values key hash c; Some (fmap (M := option) fst r)
  end.

(** The end of [set_impl]: the free entry [c] becomes the first of chain [ckey]. *)
Definition store_entry (m : t_map) (c ckey : Z) (key : K) (hash : Z) (value : V) : option t_map :=
  values ← m_values m; e ← aget (m_entries m) c; v ← aget values c;
  let '(e, p) := mset e v.1 key hash in
  entries ← aset (m_entries m) c e;
  first ← kget (m_maxentries m) (m_cells m) ckey;
  nexts ← kset (m_maxentries m) (m_nexts m) c first;
  cells ← kset (m_maxentries m) (m_cells m) ckey c;
  values ← aset values c (p, value);
  nentries ← int_of (m_nentries m + 1);
  Some (Map (Some cells) (Some nexts) entries (Some values) (m_lfree m) (m_ncells m) nentries (m_maxentries m)).
Definition set_with (resize : t_map -> outcome t_map) (m : t_map) (key : K) (value : V) : outcome t_map :=
  hash ← ub (hash_key key);
  '(ckey, found) ← ub (match m_values m with
     | None => Some (0, None)
     | Some values =>
         ckey ← cell_of m hash; c ← kget (m_maxentries m) (m_cells m) ckey;
         r ← search_chain m values key hash c; Some (ckey, fmap (M := option) fst r)
     end);
  match (found : option Z) with
  | Some c =>
      ub (values ← m_values m; v ← aget values c; values ← aset values c (v.1, value);
          Some (Map (m_cells m) (m_nexts m) (m_entries m) (Some values) (m_lfree m) (m_ncells m) (m_nentries m) (m_maxentries m)))
  | None =>
      '(c, f) ← ub (hl_freelist_get junkb (m_lfree m));
      if c <? 0 then
        m ← resize (with_lfree m f);
        ckey ← ub (cell_of m hash);
        '(c, f) ← ub (hl_freelist_get junkb (m_lfree m));
        ub (store_entry (with_lfree m f) c ckey key hash value)
      else ub (store_entry (with_lfree m f) c ckey key hash value)
  end.

(** ** Growing *)
(** [while( H_PRIMES[i] < ncells ) i++] *)
Fixpoint next_prime (primes : list Z) (ncells : Z) : option Z :=
  match primes with [] => None | p :: primes => if p <? ncells then next_prime primes ncells else Some p end.
Definition next_size (maxentries : Z) : option Z :=
  if maxentries =? 0 then Some H_SIZE_INIT else n ← int_of (maxentries * 3); n ← int_of (n + 1); Some (Z.shiftr n 1).
(** "simply expand": the chains stay as they are. *)
Definition expand (old : t_map) (nentries : Z) : option t_map :=
  let grown := nentries - m_maxentries old in
  nx ← m_nexts old;
  if negb (Bool.eqb (k_wide nx) (wide_index nentries)) then None else
  nexts ← acopy (replicate (Z.to_nat nentries) junkc) 0 (k_cells nx) 0 (m_maxentries old);
  entries ← acopy (replicate (Z.to_nat nentries) junke) 0 (m_entries old) 0 (m_maxentries old);
  oldv ← m_values old;
  values ← acopy (replicate (Z.to_nat nentries) junkp) 0 oldv 0 (m_maxentries old);
  values ← acopy values (m_maxentries old) (replicate (Z.to_nat grown) (zero_part, vnull)) 0 grown;
  f ← hl_freelist_add_range junkb (m_lfree old) (m_maxentries old) grown;
  Some (Map (m_cells old) (Some (KArray (wide_index nentries) nexts)) entries (Some values) f (m_ncells old) (m_nentries old) nentries).
(** An empty table of the new size. *)
Definition fresh_table (ncells nentries : Z) : option t_map :=
  f ← hl_freelist_add_range junkb hl_freelist_init 0 nentries;
  Some (Map (Some (KArray (wide_index nentries) (replicate (Z.to_nat ncells) (-1))))
            (Some (KArray (wide_index nentries) (replicate (Z.to_nat nentries) junkc)))
            (replicate (Z.to_nat nentries) junke) (Some (replicate (Z.to_nat nentries) (zero_part, vnull))) f ncells 0 nentries).
(** [while( c >= 0 )] of [resize]: the entries of one chain of [old] go to [m]. *)
Fixpoint remap_chain (set_impl : t_map -> K -> V -> outcome t_map) (fuel : nat) (old : t_map) (c : Z) (m : t_map) : outcome t_map :=
  match fuel with
  | O => Undef
  | S fuel =>
      if c >=? 0 then
        e ← ub (aget (m_entries old) c); v ← ub (values ← m_values old; aget values c); k ← ub (mkey e v.1);
        m ← set_impl m k v.2; c ← ub (kget (m_maxentries old) (m_nexts old) c);
        remap_chain set_impl fuel old c m
      else Done m
  end.
Fixpoint remap_cells (set_impl : t_map -> K -> V -> outcome t_map) (n : nat) (i : Z) (old m : t_map) : outcome t_map :=
  match n with
  | O => Done m
  | S n => c ← ub (kget (m_maxentries old) (m_cells old) i); m ← remap_chain set_impl (S (S (Z.to_nat (m_maxentries old)))) old c m;
      remap_cells set_impl n (i + 1) old m
  end.
Definition resize_with (set_impl : t_map -> K -> V -> outcome t_map) (old : t_map) : outcome t_map :=
  if negb (m_nentries old =? m_maxentries old) then Raise "assert"%string else
  nentries ← ub (next_size (m_maxentries old));
  ncells ← ub (next_prime H_PRIMES (Z.shiftr nentries 2));
  if (m_ncells old =? ncells) && ((nentries <? _MLIMIT) || (m_maxentries old >=? _MLIMIT)) then ub (expand old nentries)
  else m ← ub (fresh_table ncells nentries); remap_cells set_impl (Z.to_nat (m_ncells old)) 0 old m.
(** [set_impl] and [resize] call each other; the inner [set_impl] finds room. *)
Fixpoint set_impl (depth : nat) (m : t_map) (key : K) (value : V) : outcome t_map :=
  match depth with O => Undef | S depth => set_with (resize_with (set_impl depth)) m key value end.

(** ** The operations *)
Definition m_set (m : t_map) (key : K) (value : V) : outcome t_map := key ← ub (filter_key key); set_impl 2 m key value.
Definition m_exists (m : t_map) (key : K) : option bool := key ← filter_key key; r ← m_find m key; Some (bool_decide (is_Some r)).
Definition m_get (m : t_map) (key : K) : option V :=
  key ← filter_key key; r ← m_find m key;
  match (r : option Z) with None => Some vnull | Some c => values ← m_values m; v ← aget values c; Some v.2 end.
(** The entry [c], found after [prev] in chain [ckey], is freed. *)
Definition unlink (m : t_map) (values : list (P * V)) (c prev ckey : Z) : option t_map :=
  f ← hl_freelist_add junkb (m_lfree m) c;
  v ← aget values c;
  values ← aset values c (merase v.1, vnull);
  next ← kget (m_maxentries m) (m_nexts m) c;
  if prev >=? 0 then
    nexts ← kset (m_maxentries m) (m_nexts m) prev next;
    Some (Map (m_cells m) (Some nexts) (m_entries m) (Some values) f (m_ncells m) (m_nentries m - 1) (m_maxentries m))
  else
    cells ← kset (m_maxentries m) (m_cells m) ckey next;
    Some (Map (Some cells) (m_nexts m) (m_entries m) (Some values) f (m_ncells m) (m_nentries m - 1) (m_maxentries m)).
Definition m_remove (m : t_map) (key : K) : option (bool * t_map) :=
  match m_cells m with
  | None => Some (false, m)
  | Some _ =>
      key ← filter_key key; hash ← hash_key key; ckey ← cell_of m hash; c ← kget (m_maxentries m) (m_cells m) ckey;
      values ← m_values m; r ← search_chain m values key hash c;
      match (r : option (Z * Z)) with None => Some (false, m) | Some (c, prev) => m ← unlink m values c prev ckey; Some (true, m) end
  end.
(** The loops of [keys] and [values]: [store p c a] puts something of entry [c] at [a[p]]. *)
Definition walk_chain {A} (m : t_map) (store : Z -> Z -> list A -> option (list A)) (c : Z) (st : list A * Z) : option (list A * Z) :=
  loop (fun '(c, (a, p)) =>
      if c >=? 0 then a ← store p c a; c ← kget (m_maxentries m) (m_nexts m) c; Some (inl (c, (a, p + 1)))
      else Some (inr (a, p))) (S (S (Z.to_nat (m_maxentries m)))) (c, st).
Definition walk {A} (m : t_map) (store : Z -> Z -> list A -> option (list A)) (a : list A) : option (list A) :=
  r ← afor (fun i st => c ← kget (m_maxentries m) (m_cells m) i; walk_chain m store c st) (Z.to_nat (m_ncells m)) 0 (a, 0); Some r.1.
(** A new array holds zeros. *)
Definition m_keys (m : t_map) : option (list (option K)) :=
  walk m (fun p c a => e ← aget (m_entries m) c; values ← m_values m; v ← aget values c; k ← mkey e v.1; aset a p (Some k))
    (replicate (Z.to_nat (m_nentries m)) None).
Definition m_vals (m : t_map) : option (list V) :=
  walk m (fun p c a => values ← m_values m; v ← aget values c; aset a p v.2) (replicate (Z.to_nat (m_nentries m)) vnull).
Definition m_clear (m : t_map) : option t_map :=
  match m_values m with
  | Some values =>
      if m_maxentries m <=? _MCLEAR_KEEP_ENTRIES then
        a ← m_cells m;
        if negb (Bool.eqb (k_wide a) (wide_index (m_maxentries m))) then None else
        cells ← acopy (k_cells a) 0 (replicate (Z.to_nat (m_ncells m)) (-1)) 0 (m_ncells m);
        entries ← acopy (m_entries m) 0 (replicate (Z.to_nat (m_maxentries m)) zero_entry) 0 (m_maxentries m);
        values ← acopy values 0 (replicate (Z.to_nat (m_maxentries m)) (zero_part, vnull)) 0 (m_maxentries m);
        f ← hl_freelist_add_range junkb hl_freelist_init 0 (m_maxentries m);
        Some (Map (Some (KArray (k_wide a) cells)) (m_nexts m) entries (Some values) f (m_ncells m) 0 (m_maxentries m))
      else Some m_alloc
  | None => Some m_alloc
  end.
(** A block of [n] cells of its own with the first [n] cells of [src]. *)
Definition dup {A} (junk : A) (src : list A) (n : Z) : option (list A) := acopy (replicate (Z.to_nat n) junk) 0 src 0 n.
Definition dup_karray (maxentries : Z) (a : option karray) (n : Z) : option karray :=
  a ← a; if Bool.eqb (k_wide a) (wide_index maxentries) then l ← dup junkc (k_cells a) n; Some (KArray (k_wide a) l) else None.
Definition m_copy (m : t_map) : option t_map :=
  match m_values m with
  | None => Some m
  | Some values =>
      entries ← dup junke (m_entries m) (m_maxentries m);
      values ← dup junkp values (m_maxentries m);
      cells ← dup_karray (m_maxentries m) (m_cells m) (m_ncells m);
      nexts ← dup_karray (m_maxentries m) (m_nexts m) (m_maxentries m);
      f ← (match buckets (m_lfree m) with
           | None => Some (m_lfree m)
           | Some bs => bs ← acopy (replicate (Z.to_nat (nbuckets (m_lfree m))) junkb) 0 bs 0 (head (m_lfree m));
                        Some (FL (Some bs) (head (m_lfree m)) (nbuckets (m_lfree m)))
           end);
      Some (Map (Some cells) (Some nexts) entries (Some values) f (m_ncells m) (m_nentries m) (m_maxentries m))
  end.
Definition m_size (m : t_map) : Z := m_nentries m.
End hash_map.

(** * The kinds of key of [maps.c] *)
(** Integer keys, [hl_hi]; the key is in the entry. *)
Definition int_kind : map_kind Z Z unit := {|
  filter_key k := Some k; hash_key k := Some (u32 k); mmatch e _ key _ := Some (e =? key);
  mkey e _ := Some e; mset _ p key _ := (key, p); merase p := p; zero_entry := 0; zero_part := tt |}.
(** 64-bit keys, [hl_hi64]. *)
Definition hl_hi64hash (h : Z) : Z := Z.lxor (u32 h) (u32 (Z.shiftr h 32)).
Definition int64_kind : map_kind Z Z unit := {|
  filter_key k := Some k; hash_key k := Some (hl_hi64hash k); mmatch e _ key _ := Some (e =? key);
  mkey e _ := Some e; mset _ p key _ := (key, p); merase p := p; zero_entry := 0; zero_part := tt |}.
(** String keys, [hl_hb]: a key is the memory at the pointer; the hash is in the entry and
    the pointer in the value. *)
Definition hl_hbhash (key : list Z) : option Z := r ← hl_hash_gen 0 (FieldLookup [] 0 0) hl_cache_init key false; Some (u32 r.1).
Definition bytes_kind : map_kind (list Z) Z (option (list Z)) := {|
  filter_key k := Some k; hash_key := hl_hbhash;
  mmatch e p key hash := if e =? hash then p ← p; d ← ucmp p key; Some (d =? 0) else Some false;
  mkey _ p := p; mset _ _ key hash := (hash, Some key); merase _ := None; zero_entry := 0; zero_part := None |}.
(** Object keys, [hl_ho]: a key is an address.  [deref] gives the kind and the pointer value
    of the dynamic value at an address, [hl_virtual_make_value] the object of a virtual. *)
Definition hl_hofilter (deref : Z -> option (Z * Z)) (hl_virtual_make_value : Z -> option Z) (key : Z) : option Z :=
  if key =? 0 then Some key else
  '(kind, ptr) ← deref key;
  if kind =? Reader.HVIRTUAL then hl_virtual_make_value key
  else if (kind =? Reader.HBYTES) || (kind =? Reader.HTYPE) || (kind =? Reader.HABSTRACT) || (kind =? Reader.HREF) then Some ptr
  else Some key.
Definition obj_kind (filter : Z -> option Z) : map_kind Z unit Z := {|
  filter_key := filter; hash_key k := Some (u32 k); mmatch _ p key _ := Some (p =? key);
  mkey _ p := Some p; mset _ _ key _ := (tt, key); merase _ := 0; zero_entry := tt; zero_part := 0 |}.
(** Addresses mapped to [int]s, [hl_mlookup_]; it has no filter. *)
Definition mlookup_kind : map_kind Z Z unit := {|
  filter_key k := Some k; hash_key k := Some (u32 k); mmatch e _ key _ := Some (e =? key);
  mkey e _ := Some e; mset _ p key _ := (key, p); merase p := p; zero_entry := 0; zero_part := tt |}.
