(* ===== verification/HashMapProps.v ===== *)
(** * Hash maps refine finite maps

    [table m M] : the table [m] is in order and holds the finite map [M].  The entries are
    partitioned between the chains and the free list; each chain is linked through [nexts]
    and holds the keys of its cell.  Each operation is proved against [table] once, for any
    kind of key that satisfies [map_kind_ok]. *)
From S2P Require Import Prelude Ustr Lookup FreeList HashMap.

(** What a kind of key must satisfy: [norm] says which keys are the same. *)
Class map_kind_ok {K E P} (kd : map_kind K E P) (N : Type) `{Countable N} := {
  norm : K -> N;
  valid : K -> Prop;
  stored : E -> P -> K -> Prop;
  hash_ok k : valid k -> exists h, hash_key k = Some h /\ 0 <= h < 2 ^ 32;
  hash_norm k k' h : valid k -> valid k' -> norm k = norm k' -> hash_key k = Some h -> hash_key k' = Some h;
  mset_ok e p k h : valid k -> hash_key k = Some h -> stored (mset e p k h).1 (mset e p k h).2 k;
  mmatch_ok e p k k' h : valid k -> valid k' -> stored e p k -> hash_key k' = Some h -> mmatch e p k' h = Some (bool_decide (norm k = norm k'));
  mkey_ok e p k : stored e p k -> mkey e p = Some k }.

Lemma list_elem_of_concat {A} (x : A) (ls : list (list A)) : x ∈ concat ls <-> exists l, x ∈ l /\ l ∈ ls.
Proof. rewrite list_elem_of_In, in_concat. setoid_rewrite list_elem_of_In. naive_solver. Qed.

(** ** Arrays of small integers *)
Definition karray_ok (maxentries : Z) (a : option karray) (l : list Z) : Prop := a = Some (KArray (wide_index maxentries) l).
Lemma kget_ok max a l i : karray_ok max a l -> kget max a i = aget l i.
Proof. intros ->. unfold kget. cbn [mbind option_bind k_wide k_cells]. by rewrite eqb_reflx. Qed.
Lemma kset_ok max a l i c l' : karray_ok max a l -> -1 <= c < max -> aset l i c = Some l' ->
  exists a', kset max a i c = Some a' /\ karray_ok max (Some a') l'.
Proof.
  intros -> Hc Hs. unfold kset. cbn [mbind option_bind k_wide k_cells]. rewrite eqb_reflx.
  replace (if wide_index max then c else i8 c) with c; [by rewrite Hs; cbn [mbind option_bind]; eexists|].
  unfold wide_index, _MLIMIT. destruct (Z.ltb_spec max 128); cbn [negb]; [|done]. symmetry. apply wrapN_small; [lia|]. change (2 ^ (8 - 1)) with 128. lia.
Qed.

(** ** Chains *)
Fixpoint chain (nx : list Z) (c : Z) (l : list Z) : Prop :=
  match l with
  | [] => c = -1
  | x :: l => c = x /\ 0 <= c /\ exists c', aget nx c = Some c' /\ chain nx c' l
  end.
Lemma chain_frame nx nx' c l : chain nx c l -> (forall x, x ∈ l -> aget nx' x = aget nx x) -> chain nx' c l.
Proof.
  revert c. induction l as [|x l IH]; intros c Hc Heq; [done|]. destruct Hc as (-> & Hx & c' & Hc' & Hl). split; [done|]. split; [done|].
  exists c'. rewrite Heq by left. split; [done|]. apply IH; [done|]. intros y Hy. apply Heq. by right.
Qed.
Lemma chain_first nx c l : chain nx c l -> c = -1 /\ l = [] \/ c ∈ l.
Proof. destruct l; simpl; [naive_solver|]. intros (-> & _). right. left. Qed.
(** Unlinking the middle of a chain. *)
Lemma chain_unlink nx nx' c l1 x l2 y c' : chain nx c (l1 ++ [y] ++ x :: l2) -> NoDup (l1 ++ [y] ++ x :: l2) -> aget nx x = Some c' ->
  aget nx' y = Some c' -> (forall z, z <> y -> aget nx' z = aget nx z) -> chain nx' c (l1 ++ [y] ++ l2).
Proof.
  intros Hc Hnd Hx Hy Heq. revert c Hc Hnd. induction l1 as [|z l1 IH]; intros c Hc Hnd; cbn [app chain] in *.
  - destruct Hc as (-> & Hc0 & d & Hd & -> & Hx0 & e & He & Hl). split; [done|]. split; [done|]. exists c'. split; [done|].
    apply (chain_frame nx); [congruence|]. intros z Hz. apply Heq. intros ->. inversion Hnd as [|? ? Hni _]; subst. apply Hni. by right.
  - destruct Hc as (-> & Hc0 & d & Hd & Hl). split; [done|]. split; [done|]. inversion Hnd as [|? ? Hni Hnd']; subst. exists d. rewrite Heq; [split; [done|]; by apply IH|].
    intros ->. apply Hni. apply elem_of_app. right. left.
Qed.

Section hash_map_ok.
Context {K E P V N : Type} `{Countable N} {kd : map_kind K E P} `{!map_kind_ok kd N} (vnull : V).
Context (junkb : hl_free_bucket) (junkc : Z) (junke : E) (junkp : P * V).
Implicit Types (m : @t_map E P V) (M : gmap N V).

(** An entry in use. *)
Record node := Node { n_at : Z; n_key : K; n_val : V }.
Definition n_norm (n : node) : N := norm (n_key n).
Definition contents (l : list node) : gmap N V := list_to_map ((fun n => (n_norm n, n_val n)) <$> l).
Definition node_ok (entries : list E) (values : list (P * V)) (n : node) : Prop :=
  valid (n_key n) /\ exists e p, aget entries (n_at n) = Some e /\ aget values (n_at n) = Some (p, n_val n) /\ stored e p (n_key n).
Definition in_cell (ncells i : Z) (n : node) : Prop := exists h, hash_key (n_key n) = Some h /\ h mod ncells = i.

(** [taken] are the entries that are neither in a chain nor free. *)
Record table_ok (m : t_map) (taken : list Z) (cells nexts : list Z) (values : list (P * V)) (chains : list (list node)) : Prop := TableOk {
  t_cells : karray_ok (m_maxentries m) (m_cells m) cells;
  t_nexts : karray_ok (m_maxentries m) (m_nexts m) nexts;
  t_values : m_values m = Some values;
  t_lens : alen cells = m_ncells m /\ alen nexts = m_maxentries m /\ alen (m_entries m) = m_maxentries m /\ alen values = m_maxentries m;
  t_sizes : 0 < m_ncells m < 2 ^ 31 /\ 0 < m_maxentries m <= 2 ^ 27;
  t_chains : Forall2 (fun c l => chain nexts c (n_at <$> l)) cells chains;
  t_nodes : Forall (node_ok (m_entries m) values) (concat chains);
  t_hash : forall i l, aget chains i = Some l -> Forall (in_cell (m_ncells m) i) l;
  t_nodup : NoDup (n_norm <$> concat chains);
  t_parts : (n_at <$> concat chains) ++ taken ++ positions (m_lfree m) ≡ₚ seqZ 0 (m_maxentries m);
  t_free : fl_ok (m_lfree m);
  t_count : m_nentries m = alen (concat chains) }.
Definition table_with (taken : list Z) (m : t_map) (l : list node) : Prop :=
  exists cells nexts values chains, table_ok m taken cells nexts values chains /\ l = concat chains.
Definition table (m : t_map) (M : gmap N V) : Prop := exists l, table_with [] m l /\ M = contents l.
(** A map is either new or a table. *)
Definition map_repr (m : t_map) (M : gmap N V) : Prop := (m = m_alloc /\ M = ∅) \/ table m M.

(** ** The finite map of a list of nodes *)
Lemma contents_perm l l' : NoDup (n_norm <$> l) -> l ≡ₚ l' -> contents l = contents l'.
Proof. intros Hnd Hp. apply list_to_map_proper; [|by rewrite Hp]. by rewrite <- list_fmap_compose. Qed.
Lemma contents_middle l1 n l2 : NoDup (n_norm <$> l1 ++ n :: l2) -> contents (l1 ++ n :: l2) = <[n_norm n := n_val n]> (contents (l1 ++ l2)).
Proof. intros Hnd. rewrite (contents_perm _ (n :: l1 ++ l2)); [done|done|]. by rewrite Permutation_middle. Qed.
Lemma contents_None l k : contents l !! k = None <-> k ∉ n_norm <$> l.
Proof. unfold contents. rewrite <- not_elem_of_list_to_map. by rewrite <- list_fmap_compose. Qed.
Lemma contents_Some l k v : NoDup (n_norm <$> l) -> contents l !! k = Some v <-> exists n, n ∈ l /\ n_norm n = k /\ n_val n = v.
Proof.
  intros Hnd. unfold contents. rewrite <- elem_of_list_to_map by by rewrite <- list_fmap_compose. rewrite list_elem_of_fmap. naive_solver.
Qed.
Lemma contents_to_list l : NoDup (n_norm <$> l) -> map_to_list (contents l) ≡ₚ (fun n => (n_norm n, n_val n)) <$> l.
Proof. intros Hnd. apply map_to_list_to_map. by rewrite <- list_fmap_compose. Qed.
Lemma contents_size l : NoDup (n_norm <$> l) -> Z.of_nat (size (contents l)) = alen l.
Proof. intros Hnd. rewrite <- length_map_to_list, contents_to_list by done. unfold alen. by rewrite length_fmap. Qed.

(** ** Tables *)
Section table_facts.
Context m taken cells nexts values chains (T : table_ok m taken cells nexts values chains).
Lemma table_nodup : NoDup ((n_at <$> concat chains) ++ taken ++ positions (m_lfree m)).
Proof. rewrite (t_parts _ _ _ _ _ _ T). apply NoDup_seqZ. Qed.
Lemma table_at x : x ∈ (n_at <$> concat chains) ++ taken ++ positions (m_lfree m) <-> 0 <= x < m_maxentries m.
Proof. rewrite (t_parts _ _ _ _ _ _ T), elem_of_seqZ. lia. Qed.
Lemma table_node_at n : n ∈ concat chains -> 0 <= n_at n < m_maxentries m.
Proof. intros Hn. apply table_at. apply elem_of_app. left. by apply list_elem_of_fmap_2. Qed.
Lemma table_length l : l ⊆ concat chains -> NoDup (n_at <$> l) -> alen l <= m_maxentries m.
Proof.
  intros Hsub Hnd. assert (length (n_at <$> l) <= length (seqZ 0 (m_maxentries m)))%nat as Hlen.
  { apply submseteq_length, NoDup_submseteq; [done|]. intros x Hx. rewrite <- (t_parts _ _ _ _ _ _ T). apply elem_of_app. left.
    apply list_elem_of_fmap in Hx as (n & -> & Hn). apply list_elem_of_fmap_2. by apply Hsub. }
  rewrite length_fmap, length_seqZ in Hlen. pose proof (t_sizes _ _ _ _ _ _ T). unfold alen. lia.
Qed.
Lemma table_chain i l : aget chains i = Some l -> l ⊆ concat chains /\ NoDup (n_at <$> l) /\ exists c, aget cells i = Some c /\ chain nexts c (n_at <$> l).
Proof.
  intros Hl. pose proof (aget_Some_range _ _ _ Hl). pose proof Hl as Hl'. rewrite aget_lookup in Hl' by lia.
  destruct (Forall2_lookup_r _ _ _ _ _ (t_chains _ _ _ _ _ _ T) Hl') as (c & Hc & Hch).
  apply list_elem_of_split_length in Hl' as (pre & post & Hch' & _). assert (concat chains = concat pre ++ l ++ concat post) as Hcat by (rewrite Hch', concat_app; done).
  split; [|split; [|exists c; by rewrite aget_lookup by lia]].
  - intros n Hn. rewrite Hcat. set_solver.
  - pose proof table_nodup as Hnd. apply NoDup_app in Hnd as [Hnd _]. rewrite Hcat, !fmap_app in Hnd. apply NoDup_app in Hnd as (_ & _ & Hnd). by apply NoDup_app in Hnd as [Hnd _].
Qed.
(** The chain of a hash. *)
Lemma table_cell h : 0 <= h -> exists i l c, cell_of m h = Some i /\ i = h mod m_ncells m /\ aget chains i = Some l /\
  kget (m_maxentries m) (m_cells m) i = Some c /\ chain nexts c (n_at <$> l).
Proof.
  intros Hh. pose proof (t_sizes _ _ _ _ _ _ T) as [Hn _]. unfold cell_of. change (2 ^ 31) with 2147483648 in Hn.
  rewrite uN_small by (change (2 ^ 32) with 4294967296; lia). destruct (Z.eqb_spec (m_ncells m) 0); [lia|]. pose proof (Z.mod_pos_bound h (m_ncells m) ltac:(lia)) as Hm.
  destruct (t_lens _ _ _ _ _ _ T) as (Hc & _). pose proof (Forall2_length _ _ _ (t_chains _ _ _ _ _ _ T)) as Hcl.
  destruct (aget_is_Some chains (h mod m_ncells m)) as [l Hl]; [unfold alen in *; lia|]. destruct (table_chain _ _ Hl) as (_ & _ & c & Hcc & Hch).
  exists (h mod m_ncells m), l, c. split; [done|]. split; [done|]. split; [done|]. rewrite (kget_ok _ _ _ _ (t_cells _ _ _ _ _ _ T)). done.
Qed.
(** Searching a chain finds the node with the same key, and the node before it. *)
Lemma search_chain_spec l c key h : l ⊆ concat chains -> NoDup (n_at <$> l) -> chain nexts c (n_at <$> l) -> valid key -> hash_key key = Some h ->
  exists r, search_chain m values key h c = Some r /\
    match r with
    | None => norm key ∉ n_norm <$> l
    | Some (c, prev) => exists l1 n l2, l = l1 ++ n :: l2 /\ c = n_at n /\ n_norm n = norm key /\ prev = match last l1 with Some n => n_at n | None => -1 end
    end.
Proof.
  intros Hsub Hnd Hch Hk Hh. pose proof (table_length l Hsub Hnd) as Hlen. unfold search_chain.
  match goal with |- context [loop ?f _ _] => set (step := f) end.
  assert (forall fuel l2 l1 c prev, l = l1 ++ l2 -> norm key ∉ n_norm <$> l1 -> prev = match last l1 with Some n => n_at n | None => -1 end ->
    chain nexts c (n_at <$> l2) -> (length l2 < fuel)%nat -> exists r, loop step fuel (c, prev) = Some r /\
    match r with
    | None => norm key ∉ n_norm <$> l
    | Some (c, prev) => exists l1 n l2, l = l1 ++ n :: l2 /\ c = n_at n /\ n_norm n = norm key /\ prev = match last l1 with Some n => n_at n | None => -1 end
    end) as Hloop; [|apply (Hloop _ l []); [done|apply not_elem_of_nil|done|done|unfold alen in *; lia]].
  clear c Hch. induction fuel as [|fuel IH]; intros l2 l1 c prev El Hl1 Hprev Hch Hf; [lia|]. cbn [loop]. destruct l2 as [|n l2].
  - cbn in Hch. subst c. exists None. split; [done|]. by rewrite El, app_nil_r.
  - destruct Hch as (-> & Hc0 & c' & Hc' & Hch). assert (n ∈ concat chains) as Hn by (apply Hsub; rewrite El; set_solver).
    pose proof (t_nodes _ _ _ _ _ _ T) as Hnodes. rewrite Forall_forall in Hnodes. destruct (Hnodes n Hn) as (Hvk & e & p & He & Hp & Hst).
    unfold step at 1. destruct (Z.geb_spec (n_at n) 0); [|lia]. rewrite He. cbn [mbind option_bind]. rewrite Hp. cbn [mbind option_bind fst].
    rewrite (mmatch_ok e p (n_key n) key h Hvk Hk Hst Hh). cbn [mbind option_bind]. case_bool_decide as Heq.
    + eexists. split; [done|]. exists l1, n, l2. done.
    + rewrite (kget_ok _ _ _ _ (t_nexts _ _ _ _ _ _ T)), Hc'. cbn [mbind option_bind]. apply (IH l2 (l1 ++ [n])).
      * by rewrite <- app_assoc.
      * rewrite fmap_app, elem_of_app. intros [?|Hin]; [done|]. apply list_elem_of_singleton in Hin. done.
      * by rewrite last_snoc.
      * done.
      * simpl in Hf. lia.
Qed.
(** A key hashes to the chain that holds it. *)
Lemma key_in_chain key h i l : valid key -> hash_key key = Some h -> i = h mod m_ncells m -> aget chains i = Some l ->
  norm key ∈ n_norm <$> concat chains -> norm key ∈ n_norm <$> l.
Proof.
  intros Hk Hh -> Hl Hin. apply list_elem_of_fmap in Hin as (n & Hn & Hin). apply list_elem_of_concat in Hin as (l' & Hnl & Hl').
  apply list_elem_of_lookup in Hl' as (j & Hj). pose proof (t_hash _ _ _ _ _ _ T (Z.of_nat j) l') as Hcell. rewrite aget_nat in Hcell. specialize (Hcell Hj).
  rewrite Forall_forall in Hcell. destruct (Hcell n Hnl) as (h' & Hh' & Hm). pose proof (t_nodes _ _ _ _ _ _ T) as Hnodes. rewrite Forall_forall in Hnodes.
  destruct (Hnodes n) as (Hvk & _); [apply list_elem_of_concat; exists l'; split; [done|by eapply list_elem_of_lookup_2]|].
  assert (hash_key (n_key n) = Some h) as Eh by (apply (hash_norm key); done). rewrite Hh' in Eh. injection Eh as ->.
  rewrite Hm, aget_nat, Hj in Hl. injection Hl as ->. rewrite Hn. by apply list_elem_of_fmap_2.
Qed.
End table_facts.

(** Finding a key. *)
Lemma find_spec m taken l key : table_with taken m l -> valid key ->
  exists r, m_find m key = Some r /\
    match r with
    | None => contents l !! norm key = None
    | Some c => exists l1 n l2, l = l1 ++ n :: l2 /\ c = n_at n /\ n_norm n = norm key
    end.
Proof.
  intros (cells & nexts & values & chains & T & ->) Hk. unfold m_find. rewrite (t_values _ _ _ _ _ _ T).
  destruct (hash_ok key Hk) as (h & Hh & Hr). rewrite Hh. cbn [mbind option_bind].
  destruct (table_cell _ _ _ _ _ _ T h ltac:(lia)) as (i & l & c & -> & Hi & Hl & Hc & Hch). cbn [mbind option_bind]. rewrite Hc. cbn [mbind option_bind].
  destruct (table_chain _ _ _ _ _ _ T i l Hl) as (Hsub & Hnd & _).
  destruct (search_chain_spec _ _ _ _ _ _ T l c key h Hsub Hnd Hch Hk Hh) as (r & -> & Hres). cbn [mbind option_bind]. eexists. split; [done|].
  destruct r as [[c' prev]|]; cbn [fmap option_fmap option_map fst].
  - destruct Hres as (l1 & n & l2 & -> & -> & Hn & _). assert (n ∈ concat chains) as Hin by (apply Hsub; set_solver).
    apply list_elem_of_split in Hin as (k1 & k2 & ->). exists k1, n, k2. done.
  - apply contents_None. intros Hin. apply Hres. by eapply key_in_chain.
Qed.

(** ** Changing one chain *)
Lemma concat_split {A} (ls : list (list A)) l1 x l2 : concat ls = l1 ++ x :: l2 ->
  exists pre a b post, ls = pre ++ (a ++ x :: b) :: post /\ l1 = concat pre ++ a /\ l2 = b ++ concat post.
Proof.
  revert l1. induction ls as [|l ls IH]; intros l1 Heq; [by destruct l1|]. cbn [concat] in Heq.
  apply app_eq_app in Heq as (k & [[-> Hk]|[-> Hk]]).
  - destruct k as [|y k].
    + cbn in Hk. destruct (IH [] ltac:(by rewrite <- Hk)) as (pre & a & b & post & -> & Ha & ->). exists (l1 :: pre), a, b, post. rewrite app_nil_r. cbn. by rewrite <- app_assoc, <- Ha, app_nil_r.
    + injection Hk as -> ->. exists [], l1, k, ls. done.
  - destruct (IH k Hk) as (pre & a & b & post & -> & -> & ->). exists (l :: pre), a, b, post. cbn. by rewrite app_assoc.
Qed.
Lemma aget_middle_ne {A} (pre : list A) x y post i : i <> alen pre -> aget (pre ++ x :: post) i = aget (pre ++ y :: post) i.
Proof.
  intros Hi. destruct (decide (0 <= i)); [|unfold aget; by rewrite !decide_False].
  destruct (decide (i < alen pre)); [by rewrite !aget_app_l by lia|]. rewrite !aget_app_r by lia. rewrite !aget_lookup by lia.
  destruct (Z.to_nat (i - alen pre)) eqn:Ez; [lia|done].
Qed.
Lemma table_update m taken cells nexts values pre l post m' taken' cells' nexts' values' c' l' :
  table_ok m taken cells nexts values (pre ++ l :: post) ->
  m_maxentries m' = m_maxentries m -> m_ncells m' = m_ncells m ->
  karray_ok (m_maxentries m') (m_cells m') cells' -> karray_ok (m_maxentries m') (m_nexts m') nexts' -> m_values m' = Some values' ->
  (alen cells' = m_ncells m /\ alen nexts' = m_maxentries m /\ alen (m_entries m') = m_maxentries m /\ alen values' = m_maxentries m) ->
  (forall i, i <> alen pre -> aget cells' i = aget cells i) -> aget cells' (alen pre) = Some c' -> chain nexts' c' (n_at <$> l') ->
  (forall n, n ∈ concat pre ++ concat post -> aget nexts' (n_at n) = aget nexts (n_at n)) ->
  (forall n, n ∈ concat pre ++ concat post -> aget (m_entries m') (n_at n) = aget (m_entries m) (n_at n) /\ aget values' (n_at n) = aget values (n_at n)) ->
  Forall (node_ok (m_entries m') values') l' -> Forall (in_cell (m_ncells m) (alen pre)) l' ->
  NoDup (n_norm <$> concat pre ++ l' ++ concat post) ->
  (n_at <$> concat pre ++ l' ++ concat post) ++ taken' ++ positions (m_lfree m') ≡ₚ seqZ 0 (m_maxentries m) ->
  fl_ok (m_lfree m') -> m_nentries m' = alen (concat pre ++ l' ++ concat post) ->
  table_ok m' taken' cells' nexts' values' (pre ++ l' :: post).
Proof.
  intros T Em En Hc Hn Hv Hlens Hci Hcp Hch Hnx Hent Hnodes Hcell Hnd Hparts Hfree Hcount.
  assert (forall k : list node, concat (pre ++ k :: post) = concat pre ++ k ++ concat post) as Hcat by (intros k; by rewrite concat_app).
  pose proof (t_sizes _ _ _ _ _ _ T) as Hs.
  assert (length (pre ++ l' :: post) = length (pre ++ l :: post)) as Hlen by (rewrite !length_app; done).
  split; rewrite ?Em, ?En, ?Hcat in *; try done.
  - apply Forall2_same_length_lookup_2.
    { rewrite Hlen, <- (Forall2_length _ _ _ (t_chains _ _ _ _ _ _ T)). destruct (t_lens _ _ _ _ _ _ T). unfold alen in *. lia. }
    intros i c k Hi Hk. rewrite <- aget_nat in Hi; rewrite <- aget_nat in Hk. destruct (decide (Z.of_nat i = alen pre)) as [Ei|Ei].
    + rewrite Ei in Hi, Hk. rewrite aget_mid in Hk by done. rewrite Hcp in Hi. by simplify_eq.
    + rewrite Hci in Hi by done. rewrite (aget_middle_ne _ _ l) in Hk by done. rewrite aget_nat in Hi.
      pose proof Hk as Hk'. rewrite aget_nat in Hk'.
      apply (chain_frame nexts); [exact (Forall2_lookup_lr _ _ _ _ _ _ (t_chains _ _ _ _ _ _ T) Hi Hk')|]. intros x Hx. apply list_elem_of_fmap in Hx as (n & -> & Hx).
      apply Hnx. rewrite <- concat_app. apply list_elem_of_concat. exists k. split; [done|].
      assert (k ∈ pre ++ l :: post) as Hin by by eapply list_elem_of_lookup_2.
      rewrite aget_nat in Hk. destruct (decide (i < length pre)%nat).
      * rewrite lookup_app_l in Hk by done. apply elem_of_app. left. by eapply list_elem_of_lookup_2.
      * rewrite lookup_app_r in Hk by lia. unfold alen in Ei. destruct (i - length pre)%nat eqn:Ez; [lia|]. apply elem_of_app. right. by eapply list_elem_of_lookup_2.
  - pose proof (t_nodes _ _ _ _ _ _ T) as Hold. rewrite Hcat, !Forall_app in Hold. destruct Hold as (Ha & _ & Hb). rewrite !Forall_app.
    assert (forall k, k ⊆ concat pre ++ concat post -> Forall (node_ok (m_entries m) values) k -> Forall (node_ok (m_entries m') values') k) as Hkeep.
    { intros k Hsub Hk. rewrite Forall_forall in *. intros n Hin. destruct (Hk n Hin) as (Hvk & e & p & He & Hp & Hst). split; [done|]. exists e, p.
      destruct (Hent n) as [-> ->]; [by apply Hsub|done]. }
    split; [apply Hkeep; [set_solver|done]|]. split; [done|]. apply Hkeep; [set_solver|done].
  - intros i k Hk. destruct (decide (i = alen pre)) as [->|Hne]; [rewrite aget_mid in Hk by done; by simplify_eq|].
    rewrite (aget_middle_ne _ _ l) in Hk by done. exact (t_hash _ _ _ _ _ _ T i k Hk).
Qed.

(** Assigning the value of a key that is there. *)
Lemma assign_spec m taken l1 n l2 value : table_with taken m (l1 ++ n :: l2) ->
  exists m', (values ← m_values m; v ← aget values (n_at n); values ← aset values (n_at n) (v.1, value);
     Some (Map (m_cells m) (m_nexts m) (m_entries m) (Some values) (m_lfree m) (m_ncells m) (m_nentries m) (m_maxentries m))) = Some m' /\
    table_with taken m' (l1 ++ Node (n_at n) (n_key n) value :: l2) /\ m_maxentries m' = m_maxentries m.
Proof.
  intros (cells & nexts & values & chains & T & El). symmetry in El. destruct (concat_split _ _ _ _ El) as (pre & a & b & post & -> & -> & ->).
  rewrite (t_values _ _ _ _ _ _ T). cbn [mbind option_bind]. pose proof (t_nodes _ _ _ _ _ _ T) as Hnodes. rewrite El, Forall_app, Forall_cons in Hnodes.
  destruct Hnodes as (Hn1 & (Hvk & e & p & He & Hp & Hst) & Hn2). rewrite Hp. cbn [mbind option_bind fst].
  destruct (aset_total values (n_at n) (p, value)) as (values' & -> & Hl' & Hg); [by eapply aget_Some_range|]. cbn [mbind option_bind]. eexists. split; [done|]. split; [|done].
  assert (forall k : list node, concat (pre ++ k :: post) = concat pre ++ k ++ concat post) as Hcat by (intros k; by rewrite concat_app).
  set (n' := Node (n_at n) (n_key n) value).
  assert ((concat pre ++ a) ++ n' :: b ++ concat post = concat pre ++ (a ++ n' :: b) ++ concat post) as Hnew by by rewrite <- !app_assoc.
  pose proof (table_nodup _ _ _ _ _ _ T) as Hnd. apply NoDup_app in Hnd as [Hnd _]. rewrite El, fmap_app, fmap_cons in Hnd.
  assert (forall y, y ∈ (concat pre ++ a) ++ b ++ concat post -> n_at y <> n_at n) as Hother.
  { intros y Hy Heq. rewrite <- Permutation_middle in Hnd. apply NoDup_cons in Hnd as [Hni _]. apply Hni. rewrite <- Heq, <- fmap_app. by apply list_elem_of_fmap_2. }
  exists cells, nexts, values', (pre ++ (a ++ n' :: b) :: post). split; [|by rewrite Hcat].
  pose proof (table_chain _ _ _ _ _ _ T (alen pre) (a ++ n :: b) (aget_mid _ _ _ _ eq_refl)) as (_ & _ & c & Hc & Hch).
  destruct (t_lens _ _ _ _ _ _ T) as (? & ? & ? & ?).
  apply (table_update m taken cells nexts values pre (a ++ n :: b) post _ taken cells nexts values' c (a ++ n' :: b)); try done; cbn [m_maxentries m_ncells m_cells m_nexts m_values m_entries m_lfree m_nentries].
  - exact (t_cells _ _ _ _ _ _ T).
  - exact (t_nexts _ _ _ _ _ _ T).
  - repeat split; try done. lia.
  - by rewrite fmap_app, fmap_cons in *.
  - intros y Hy. split; [done|]. rewrite Hg. rewrite decide_False; [done|]. intros Heq. apply (Hother y); [set_solver|done].
  - assert (forall k, k ⊆ (concat pre ++ a) ++ b ++ concat post -> Forall (node_ok (m_entries m) values) k -> Forall (node_ok (m_entries m) values') k) as Hkeep.
    { intros k Hsub Hk. rewrite Forall_forall in *. intros y Hin. destruct (Hk y Hin) as (Hvy & e' & p' & He' & Hp' & Hst'). split; [done|]. exists e', p'.
      rewrite Hg, decide_False; [done|]. intros Heq. apply (Hother y); [by apply Hsub|done]. }
    rewrite Forall_app in Hn1. rewrite Forall_app in Hn2. apply Forall_app. split; [apply Hkeep; [set_solver|apply Hn1]|]. constructor; [|apply Hkeep; [set_solver|apply Hn2]].
    split; [done|]. exists e, p. split; [done|]. split; [|done]. rewrite Hg. cbn [n_at]. by rewrite decide_True.
  - pose proof (t_hash _ _ _ _ _ _ T (alen pre) _ (aget_mid _ _ _ _ eq_refl)) as Hcell. rewrite Forall_app, Forall_cons in *. done.
  - rewrite <- Hnew. pose proof (t_nodup _ _ _ _ _ _ T) as Hn. rewrite El in Hn. by rewrite !fmap_app, !fmap_cons in *.
  - rewrite <- Hnew. pose proof (t_parts _ _ _ _ _ _ T) as Hn. rewrite El in Hn. by rewrite !fmap_app, !fmap_cons in *.
  - exact (t_free _ _ _ _ _ _ T).
  - rewrite <- Hnew. rewrite (t_count _ _ _ _ _ _ T), El. unfold alen. rewrite !length_app. done.
Qed.

(** ** Adding an entry *)
Lemma store_entry_spec m c l ckey key h value : table_with [c] m l -> valid key -> hash_key key = Some h -> 0 <= h -> norm key ∉ n_norm <$> l ->
  cell_of m h = Some ckey ->
  exists m' l', store_entry m c ckey key h value = Some m' /\ table_with [] m' l' /\ l' ≡ₚ Node c key value :: l /\ m_maxentries m' = m_maxentries m.
Proof.
  intros (cells & nexts & values & chains & T & ->) Hk Hh Hh0 Hnew Hcell.
  destruct (table_cell _ _ _ _ _ _ T h Hh0) as (i & l & first & Hci & Ei & Hl & Hc & Hch). rewrite Hcell in Hci. injection Hci as <-.
  pose proof (aget_Some_range _ _ _ Hl) as Hir. pose proof Hl as Hl'. rewrite aget_lookup in Hl' by lia. apply list_elem_of_split_length in Hl' as (pre & post & -> & Hpre).
  assert (ckey = alen pre) as -> by (unfold alen; lia).
  destruct (t_lens _ _ _ _ _ _ T) as (Lc & Ln & Le & Lv). pose proof (t_sizes _ _ _ _ _ _ T) as [Hs1 Hs2]. change (2 ^ 27) with 134217728 in *.
  assert (0 <= c < m_maxentries m) as Hcr by (apply (table_at _ _ _ _ _ _ T); set_solver).
  assert (forall k : list node, concat (pre ++ k :: post) = concat pre ++ k ++ concat post) as Hcat by (intros k; by rewrite concat_app).
  assert (forall n, n ∈ concat (pre ++ l :: post) -> n_at n <> c) as Hother.
  { intros n Hn Heq. pose proof (table_nodup _ _ _ _ _ _ T) as Hnd. apply NoDup_app in Hnd as (_ & Hnd & _). apply (Hnd c); [rewrite <- Heq; by apply list_elem_of_fmap_2|left]. }
  unfold store_entry. rewrite (t_values _ _ _ _ _ _ T). cbn [mbind option_bind].
  destruct (aget_is_Some (m_entries m) c) as [e He]; [lia|]. rewrite He. cbn [mbind option_bind].
  destruct (aget_is_Some values c) as [[p v] Hv]; [lia|]. rewrite Hv. cbn [mbind option_bind fst].
  pose proof (mset_ok e p key h Hk Hh) as Hst. destruct (mset e p key h) as [e' p'].  cbn [fst snd] in Hst.
  destruct (aset_total (m_entries m) c e') as (entries' & -> & Le' & Ge); [lia|]. cbn [mbind option_bind]. rewrite Hc. cbn [mbind option_bind].
  destruct (aset_total nexts c first) as (nexts' & Hn' & Ln' & Gn); [lia|].
  destruct (table_chain _ _ _ _ _ _ T _ l Hl) as (Hsub & Hndl & c0 & Hc0 & _). rewrite (kget_ok _ _ _ _ (t_cells _ _ _ _ _ _ T)) in Hc. rewrite Hc in Hc0. injection Hc0 as <-.
  assert (-1 <= first < m_maxentries m) as Hfr.
  { destruct (chain_first _ _ _ Hch) as [[-> _]|Hin]; [lia|]. apply list_elem_of_fmap in Hin as (n & -> & Hin). pose proof (table_node_at _ _ _ _ _ _ T n (Hsub _ Hin)). lia. }
  destruct (kset_ok _ _ _ c first nexts' (t_nexts _ _ _ _ _ _ T) Hfr Hn') as (nx & -> & Hnx). cbn [mbind option_bind].
  destruct (aset_total cells (alen pre) c) as (cells' & Hc' & Lc' & Gc); [pose proof (aget_Some_range _ _ _ Hc); lia|].
  destruct (kset_ok _ _ _ (alen pre) c cells' (t_cells _ _ _ _ _ _ T) ltac:(lia) Hc') as (cx & -> & Hcx). cbn [mbind option_bind].
  destruct (aset_total values c (p', value)) as (values' & -> & Lv' & Gv); [lia|]. cbn [mbind option_bind].
  pose proof (t_count _ _ _ _ _ _ T) as Hcount. pose proof (alen_nonneg (concat (pre ++ l :: post))).
  assert (alen (concat (pre ++ l :: post)) <= m_maxentries m) as Hmax.
  { apply (table_length _ _ _ _ _ _ T); [done|]. pose proof (table_nodup _ _ _ _ _ _ T) as Hnd. by apply NoDup_app in Hnd as [Hnd _]. }
  rewrite int_of_Some by (unfold in_i32, INT_MIN, INT_MAX; lia). cbn [mbind option_bind].
  set (n' := Node c key value).
  assert (concat pre ++ (n' :: l) ++ concat post ≡ₚ n' :: concat (pre ++ l :: post)) as Hperm by (rewrite Hcat; symmetry; apply Permutation_middle).
  eexists _, (concat pre ++ (n' :: l) ++ concat post). split; [done|]. split; [|split; [done|done]].
  exists cells', nexts', values', (pre ++ (n' :: l) :: post). split; [|by rewrite Hcat].
  apply (table_update m [c] cells nexts values pre l post _ [] cells' nexts' values' c (n' :: l)); try done; cbn [m_maxentries m_ncells m_cells m_nexts m_values m_entries m_lfree m_nentries].
  - lia.
  - intros j Hj. rewrite Gc. by rewrite decide_False.
  - rewrite Gc. by rewrite decide_True.
  - cbn [fmap list_fmap chain n_at n']. split; [done|]. split; [lia|]. exists first. split; [rewrite Gn; by rewrite decide_True|].
    apply (chain_frame nexts); [done|]. intros x Hx. apply list_elem_of_fmap in Hx as (n & -> & Hn). rewrite Gn, decide_False; [done|]. intros Heq. apply (Hother n); [by apply Hsub|done].
  - intros n Hn. rewrite Gn, decide_False; [done|]. intros Heq. apply (Hother n); [rewrite Hcat; set_solver|done].
  - intros n Hn. rewrite Ge, Gv, !decide_False; [done|..]; intros Heq; (apply (Hother n); [rewrite Hcat; set_solver|done]).
  - constructor.
    + split; [done|]. exists e', p'. rewrite Ge, Gv. cbn [n_at n_val n']. by rewrite !decide_True.
    + pose proof (t_nodes _ _ _ _ _ _ T) as Hnodes. rewrite Forall_forall in *. intros n Hn. destruct (Hnodes n (Hsub _ Hn)) as (Hvk & e1 & p1 & He1 & Hp1 & Hst1).
      split; [done|]. exists e1, p1. rewrite Ge, Gv, !decide_False; [done|..]; intros Heq; (apply (Hother n); [by apply Hsub|done]).
  - constructor; [exists h; done|]. exact (t_hash _ _ _ _ _ _ T _ _ Hl).
  - rewrite Hperm. cbn [fmap list_fmap]. apply NoDup_cons. split; [done|exact (t_nodup _ _ _ _ _ _ T)].
  - rewrite Hperm. cbn [fmap list_fmap app]. rewrite <- (t_parts _ _ _ _ _ _ T). cbn [app]. apply Permutation_middle.
  - exact (t_free _ _ _ _ _ _ T).
  - rewrite Hcount. unfold alen. rewrite (Permutation_length Hperm). cbn [length]. lia.
Qed.

(** Taking a free entry. *)
Lemma take_entry m l : table_with [] m l -> alen l < m_maxentries m ->
  exists c f, hl_freelist_get junkb (m_lfree m) = Some (c, f) /\ 0 <= c /\ table_with [c] (with_lfree m f) l.
Proof.
  intros (cells & nexts & values & chains & T & ->) Hroom. destruct (hl_freelist_get_spec junkb (m_lfree m) (t_free _ _ _ _ _ _ T)) as (c & f & Hg & Hf & Hc).
  exists c, f. split; [done|]. destruct Hc as [(-> & -> & Hnone)|[Hc Hp]].
  - exfalso. pose proof (t_parts _ _ _ _ _ _ T) as Hparts. rewrite Hnone, !app_nil_r in Hparts. apply Permutation_length in Hparts.
    rewrite length_fmap, length_seqZ in Hparts. unfold alen in Hroom. lia.
  - split; [done|]. exists cells, nexts, values, chains. split; [|done]. destruct T as [? ? ? ? ? ? ? ? ? Hparts ? ?]. split; try done. cbn [m_lfree with_lfree].
    cbn [app] in *. rewrite <- Hp. done.
Qed.
Lemma no_entry m l : table_with [] m l -> alen l = m_maxentries m -> hl_freelist_get junkb (m_lfree m) = Some (-1, m_lfree m).
Proof.
  intros (cells & nexts & values & chains & T & ->) Hfull. destruct (hl_freelist_get_spec junkb (m_lfree m) (t_free _ _ _ _ _ _ T)) as (c & f & -> & Hf & Hc).
  destruct Hc as [(-> & -> & Hnone)|[Hc Hp]]; [done|]. exfalso. pose proof (t_parts _ _ _ _ _ _ T) as Hparts. rewrite Hp in Hparts. apply Permutation_length in Hparts.
  rewrite !length_app, length_fmap, length_seqZ in Hparts. unfold alen in Hfull. cbn in Hparts. lia.
Qed.
Lemma table_with_nodup taken m l : table_with taken m l -> NoDup (n_norm <$> l).
Proof. intros (? & ? & ? & ? & T & ->). exact (t_nodup _ _ _ _ _ _ T). Qed.
Lemma table_with_count taken m l : table_with taken m l -> m_nentries m = alen l /\ alen l <= m_maxentries m.
Proof.
  intros (? & ? & ? & ? & T & ->). split; [exact (t_count _ _ _ _ _ _ T)|]. apply (table_length _ _ _ _ _ _ T); [done|]. pose proof (table_nodup _ _ _ _ _ _ T) as Hnd. by apply NoDup_app in Hnd as [Hnd _].
Qed.

(** Setting a key, when it is there or there is room: no resize. *)
Lemma set_room resize m l key value : table_with [] m l -> valid key -> norm key ∈ n_norm <$> l \/ alen l < m_maxentries m ->
  exists m' l', set_with junkb resize m key value = Done m' /\ table_with [] m' l' /\ contents l' = <[norm key := value]> (contents l) /\ m_maxentries m' = m_maxentries m /\ alen l' <= alen l + 1.
Proof.
  intros T Hk Hroom. pose proof (table_with_nodup _ _ _ T) as Hnd. unfold set_with. destruct (hash_ok key Hk) as (h & Hh & Hr). rewrite Hh. cbn [ub mbind outcome_bind].
  pose proof T as (cells & nexts & values & chains & T' & El). rewrite (t_values _ _ _ _ _ _ T').
  destruct (table_cell _ _ _ _ _ _ T' h ltac:(lia)) as (i & k & c & Hci & Ei & Hl & Hc & Hch). rewrite Hci. cbn [mbind option_bind]. rewrite Hc. cbn [mbind option_bind].
  destruct (table_chain _ _ _ _ _ _ T' i k Hl) as (Hsub & Hndk & _).
  destruct (search_chain_spec _ _ _ _ _ _ T' k c key h Hsub Hndk Hch Hk Hh) as (r & -> & Hres). cbn [mbind option_bind ub outcome_bind].
  destruct r as [[c' prev]|]; cbn [fmap option_fmap option_map fst].
  - destruct Hres as (k1 & n & k2 & -> & -> & Hn & _). assert (n ∈ l) as Hin by (rewrite El; apply Hsub; set_solver).
    apply list_elem_of_split in Hin as (l1 & l2 & ->). destruct (assign_spec _ _ _ _ _ value T) as (m' & Hm' & Tm' & Hmax). rewrite (t_values _ _ _ _ _ _ T') in Hm'. cbn [mbind option_bind] in Hm'.
    rewrite Hm'. cbn [ub]. eexists _, _. split; [done|]. split; [done|]. split; [|split; [done|unfold alen; rewrite !length_app; cbn [length]; lia]].
    rewrite contents_middle by (by eapply table_with_nodup). rewrite (contents_middle l1 n) by done. unfold n_norm in *. cbn [n_key n_val]. by rewrite <- Hn, insert_insert_eq.
  - assert (norm key ∉ n_norm <$> l) as Hno. { intros Hin. apply Hres. rewrite El in Hin. by eapply (key_in_chain m [] cells nexts values chains T'). }
    destruct Hroom as [|Hroom]; [done|]. destruct (take_entry m l T Hroom) as (c1 & f & -> & Hc1 & Tf). cbn [ub mbind outcome_bind].
    destruct (Z.ltb_spec c1 0); [lia|]. destruct (store_entry_spec _ _ _ i key h value Tf Hk Hh ltac:(lia) Hno Hci) as (m' & l' & -> & Tm' & Hp & Hmax). cbn [ub].
    eexists _, _. split; [done|]. split; [done|]. split; [|split; [done|unfold alen; rewrite (Permutation_length Hp); cbn [length]; lia]].
    by rewrite (contents_perm l' _ (table_with_nodup _ _ _ Tm') Hp).
Qed.

(** ** Growing *)
Lemma next_size_spec max : 0 <= max <= 2 ^ 26 -> exists n, next_size max = Some n /\ max < n <= 2 ^ 27 /\ n <= 2 * max + 3.
Proof.
  change (2 ^ 26) with 67108864. change (2 ^ 27) with 134217728. intros Hm. unfold next_size, H_SIZE_INIT. destruct (Z.eqb_spec max 0); [exists 3; split; [done|lia]|].
  rewrite int_of_Some by (unfold in_i32, INT_MIN, INT_MAX; lia). cbn [mbind option_bind]. rewrite int_of_Some by (unfold in_i32, INT_MIN, INT_MAX; lia). cbn [mbind option_bind].
  eexists. split; [done|]. rewrite shiftr_div by lia. change (2 ^ 1) with 2. z_div.
Qed.
Lemma next_prime_spec l x q : q ∈ l -> x <= q -> exists p, next_prime l x = Some p /\ p ∈ l /\ x <= p.
Proof.
  induction l as [|p l IH]; intros Hq Hx; [by apply not_elem_of_nil in Hq|]. cbn [next_prime]. destruct (Z.ltb_spec p x).
  - apply elem_of_cons in Hq as [->|Hq]; [lia|]. destruct (IH Hq Hx) as (p' & ? & ? & ?). exists p'. split; [done|]. split; [by right|done].
  - exists p. split; [done|]. split; [left|done].
Qed.
Lemma prime_spec x : x <= 2 ^ 27 -> exists p, next_prime H_PRIMES x = Some p /\ 0 < p < 2 ^ 31 /\ x <= p.
Proof.
  intros Hx. destruct (next_prime_spec H_PRIMES x 1611623773) as (p & Hp & Hin & Hle); [apply list_elem_of_In; cbn; tauto|change (2 ^ 27) with 134217728 in *; lia|].
  exists p. split; [done|]. split; [|done]. assert (Forall (fun p => 0 < p < 2 ^ 31) H_PRIMES) as Hall by (repeat constructor). rewrite Forall_forall in Hall. by apply Hall.
Qed.
Lemma expand_spec m l n : table_with [] m l -> alen l = m_maxentries m -> m_maxentries m < n <= 2 ^ 27 -> wide_index n = wide_index (m_maxentries m) ->
  exists m', expand vnull junkb junkc junke junkp m n = Some m' /\ table_with [] m' l /\ m_maxentries m' = n.
Proof.
  intros (cells & nexts & values & chains & T & ->) Hfull Hn Hw. unfold expand.
  destruct (t_lens _ _ _ _ _ _ T) as (Lc & Ln & Le & Lv). pose proof (t_sizes _ _ _ _ _ _ T) as [Hs1 Hs2]. change (2 ^ 27) with 134217728 in *.
  rewrite (t_nexts _ _ _ _ _ _ T). cbn [mbind option_bind k_wide k_cells]. rewrite Hw, eqb_reflx. cbn [negb].
  destruct (acopy_total (replicate (Z.to_nat n) junkc) 0 nexts 0 (m_maxentries m)) as (nexts' & -> & Ln' & Gn); [rewrite ?alen_replicate; lia..|]. cbn [mbind option_bind].
  destruct (acopy_total (replicate (Z.to_nat n) junke) 0 (m_entries m) 0 (m_maxentries m)) as (entries' & -> & Le' & Ge); [rewrite ?alen_replicate; lia..|]. cbn [mbind option_bind].
  rewrite (t_values _ _ _ _ _ _ T). cbn [mbind option_bind].
  destruct (acopy_total (replicate (Z.to_nat n) junkp) 0 values 0 (m_maxentries m)) as (values1 & -> & Lv1 & Gv1); [rewrite ?alen_replicate; lia..|]. cbn [mbind option_bind].
  rewrite alen_replicate in Ln' by lia; rewrite alen_replicate in Le' by lia; rewrite alen_replicate in Lv1 by lia.
  destruct (acopy_total values1 (m_maxentries m) (replicate (Z.to_nat (n - m_maxentries m)) (zero_part, vnull)) 0 (n - m_maxentries m)) as (values' & -> & Lv' & Gv);
    [rewrite ?alen_replicate; lia..|]. cbn [mbind option_bind].
  assert (positions (m_lfree m) = []) as Hnone.
  { pose proof (t_parts _ _ _ _ _ _ T) as Hparts. apply Permutation_length in Hparts. rewrite !length_app, length_fmap, length_seqZ in Hparts. unfold alen in Hfull. apply length_zero_iff_nil. cbn [length] in Hparts. lia. }
  destruct (hl_freelist_add_range_spec junkb (m_lfree m) (m_maxentries m) (n - m_maxentries m) (t_free _ _ _ _ _ _ T)) as (f & -> & Hf & Hp).
  { unfold fresh_range. rewrite Hnone. split; [lia|]. split; [lia|]. split; [intros; apply not_elem_of_nil|]. intros p Hp. by apply not_elem_of_nil in Hp. }
  cbn [mbind option_bind]. rewrite Hnone, app_nil_r in Hp.
  assert (forall x, 0 <= x < m_maxentries m -> aget nexts' x = aget nexts x /\ aget entries' x = aget (m_entries m) x /\ aget values' x = aget values x) as Hold.
  { intros x Hx. rewrite Gn, Ge, Gv, Gv1, !(decide_True (P := 0 <= x < 0 + m_maxentries m)) by lia. rewrite decide_False by lia. rewrite !Z.add_0_l, Z.sub_0_r. done. }
  eexists. split; [done|]. split; [|done]. exists cells, nexts', values', chains. split; [|done].
  split; cbn [m_maxentries m_ncells m_cells m_nexts m_values m_entries m_lfree m_nentries]; try done.
  - unfold karray_ok. rewrite Hw. exact (t_cells _ _ _ _ _ _ T).
  - unfold karray_ok. by rewrite Hw.
  - repeat split; try done; lia.
  - split; [done|]. change (2 ^ 27) with 134217728. lia.
  - apply Forall2_same_length_lookup_2; [exact (Forall2_length _ _ _ (t_chains _ _ _ _ _ _ T))|]. intros i c k Hi Hk.
    apply (chain_frame nexts); [exact (Forall2_lookup_lr _ _ _ _ _ _ (t_chains _ _ _ _ _ _ T) Hi Hk)|]. intros x Hx. apply list_elem_of_fmap in Hx as (nd & -> & Hx).
    apply Hold. apply (table_node_at _ _ _ _ _ _ T). apply list_elem_of_concat. exists k. split; [done|]. by eapply list_elem_of_lookup_2.
  - pose proof (t_nodes _ _ _ _ _ _ T) as Hnodes. rewrite Forall_forall in *. intros nd Hin. destruct (Hnodes nd Hin) as (Hvk & e & p & He & Hpv & Hst).
    destruct (Hold (n_at nd)) as (_ & E1 & E2); [by apply (table_node_at _ _ _ _ _ _ T)|]. split; [done|]. exists e, p. by rewrite E1, E2.
  - exact (t_hash _ _ _ _ _ _ T).
  - exact (t_nodup _ _ _ _ _ _ T).
  - pose proof (t_parts _ _ _ _ _ _ T) as Hparts. rewrite Hnone in Hparts. cbn [app] in *. rewrite app_nil_r in Hparts. rewrite Hparts, Hp.
    replace n with (m_maxentries m + (n - m_maxentries m)) at 2 by lia. rewrite <- (seqZ_join 0 (m_maxentries m)) by lia. done.
  - exact (t_count _ _ _ _ _ _ T).
Qed.
Lemma concat_nils {A} n : concat (replicate n (@nil A)) = [].
Proof. by induction n. Qed.
Lemma fresh_table_spec ncells n : 0 < ncells < 2 ^ 31 -> 0 < n <= 2 ^ 27 ->
  exists m, fresh_table vnull junkb junkc junke ncells n = Some m /\ table_with [] m [] /\ m_maxentries m = n.
Proof.
  intros Hc Hn. unfold fresh_table. destruct hl_freelist_init_ok as [Hf0 Hp0]. change (2 ^ 27) with 134217728 in *.
  destruct (hl_freelist_add_range_spec junkb hl_freelist_init 0 n Hf0) as (f & -> & Hf & Hp).
  { unfold fresh_range. rewrite Hp0. split; [lia|]. split; [lia|]. split; [intros; apply not_elem_of_nil|]. intros p Hp. by apply not_elem_of_nil in Hp. }
  cbn [mbind option_bind]. rewrite Hp0, app_nil_r in Hp. eexists. split; [done|]. split; [|done].
  eexists _, _, _, (replicate (Z.to_nat ncells) []). rewrite concat_nils. split; [|done].
  split; cbn [m_maxentries m_ncells m_cells m_nexts m_values m_entries m_lfree m_nentries]; rewrite ?concat_nils; try done.
  - rewrite !alen_replicate. lia.
  - apply Forall2_replicate. done.
  - intros i l Hl. pose proof (aget_Some_range _ _ _ Hl). rewrite aget_lookup in Hl by lia. apply lookup_replicate in Hl as [-> _]. constructor.
  - constructor.
Qed.

(** *** Moving the entries of [old] *)
Definition ins (M : gmap N V) (n : node) : gmap N V := <[n_norm n := n_val n]> M.
Lemma foldl_ins l2 : forall l1, NoDup (n_norm <$> l1 ++ l2) -> foldl ins (contents l1) l2 = contents (l1 ++ l2).
Proof.
  induction l2 as [|n l2 IH]; intros l1 Hnd; [by rewrite app_nil_r|]. cbn [foldl]. change (ins (contents l1) n) with (contents (n :: l1)).
  assert ((n :: l1) ++ l2 ≡ₚ l1 ++ n :: l2) as Hp by apply Permutation_middle.
  rewrite IH by (by rewrite Hp). apply contents_perm; [by rewrite Hp|done].
Qed.
Section remap.
Context old taken cells nexts values chains (T : table_ok old taken cells nexts values chains).
Context (set' : @t_map E P V -> K -> V -> outcome (@t_map E P V)).
(** What moving one entry needs of [set_impl]. *)
Hypothesis set'_room : forall m l key value, table_with [] m l -> valid key -> norm key ∈ n_norm <$> l \/ alen l < m_maxentries m ->
  exists m' l', set' m key value = Done m' /\ table_with [] m' l' /\ contents l' = <[norm key := value]> (contents l) /\ m_maxentries m' = m_maxentries m /\ alen l' <= alen l + 1.
Lemma remap_chain_spec k : forall fuel c m l, k ⊆ concat chains -> chain nexts c (n_at <$> k) -> (length k < fuel)%nat -> table_with [] m l -> alen l + alen k <= m_maxentries m ->
  exists m' l', remap_chain set' fuel old c m = Done m' /\ table_with [] m' l' /\ contents l' = foldl ins (contents l) k /\ m_maxentries m' = m_maxentries m /\ alen l' <= alen l + alen k.
Proof.
  induction k as [|n k IH]; intros [|fuel] c m l Hsub Hch Hf Tm Hroom; cbn [length] in Hf; try lia; cbn [remap_chain].
  - cbn in Hch. subst c. exists m, l. split; [done|]. split; [done|]. split; [done|]. split; [done|]. unfold alen. lia.
  - destruct Hch as (-> & Hc0 & c' & Hc' & Hch). destruct (Z.geb_spec (n_at n) 0); [|lia].
    pose proof (t_nodes _ _ _ _ _ _ T) as Hnodes. rewrite Forall_forall in Hnodes. destruct (Hnodes n) as (Hvk & e & p & He & Hp & Hst); [apply Hsub; left|].
    rewrite He. cbn [ub mbind outcome_bind]. rewrite (t_values _ _ _ _ _ _ T). cbn [mbind option_bind]. rewrite Hp. cbn [ub mbind outcome_bind fst snd]. rewrite (mkey_ok e p _ Hst). cbn [ub mbind outcome_bind].
    rewrite alen_cons in *. pose proof (alen_nonneg k). destruct (set'_room m l (n_key n) (n_val n) Tm Hvk) as (m1 & l1 & -> & T1 & E1 & Em & Hl1); [right; lia|]. cbn [mbind outcome_bind].
    rewrite (kget_ok _ _ _ _ (t_nexts _ _ _ _ _ _ T)), Hc'. cbn [ub mbind outcome_bind].
    destruct (IH fuel c' m1 l1) as (m2 & l2 & -> & T2 & E2 & Em2 & Hl2); [set_solver|done|lia|done|lia|]. exists m2, l2. split; [done|]. split; [done|]. split; [|split; [congruence|lia]].
    rewrite E2, E1. done.
Qed.
Lemma remap_cells_spec rest : forall pre i m l, chains = pre ++ rest -> i = alen pre -> table_with [] m l -> alen l + alen (concat rest) <= m_maxentries m ->
  exists m' l', remap_cells set' (length rest) i old m = Done m' /\ table_with [] m' l' /\ contents l' = foldl ins (contents l) (concat rest) /\ m_maxentries m' = m_maxentries m.
Proof.
  induction rest as [|k rest IH]; intros pre i m l Ech Ei Tm Hroom; cbn [length remap_cells concat].
  - exists m, l. done.
  - assert (aget chains i = Some k) as Hk by (rewrite Ech; by apply aget_mid). destruct (table_chain _ _ _ _ _ _ T i k Hk) as (Hsub & Hnd & c & Hc & Hch).
    rewrite (kget_ok _ _ _ _ (t_cells _ _ _ _ _ _ T)), Hc. cbn [ub mbind outcome_bind]. cbn [concat] in Hroom. rewrite alen_app in Hroom. pose proof (alen_nonneg (concat rest)).
    pose proof (table_length _ _ _ _ _ _ T k Hsub Hnd) as Hlen.
    destruct (remap_chain_spec k (S (S (Z.to_nat (m_maxentries old)))) c m l Hsub Hch) as (m1 & l1 & -> & T1 & E1 & Em & Hl1); [unfold alen in Hlen; lia|done|lia|]. cbn [mbind outcome_bind].
    destruct (IH (pre ++ [k]) (i + 1) m1 l1) as (m2 & l2 & -> & T2 & E2 & Em2); [by rewrite <- app_assoc|rewrite alen_app; change (alen [k]) with 1; lia|done|lia|].
    exists m2, l2. split; [done|]. split; [done|]. split; [|congruence]. by rewrite E2, E1, foldl_app.
Qed.
End remap.

(** A full table, or a new map, grows. *)
Definition full (m : t_map) (l : list node) : Prop := (m = m_alloc /\ l = []) \/ (table_with [] m l /\ alen l = m_maxentries m).
Lemma resize_spec depth m l : full m l -> m_maxentries m <= 2 ^ 26 ->
  exists m' l', resize_with vnull junkb junkc junke junkp (set_impl vnull junkb junkc junke junkp (S depth)) m = Done m' /\
    table_with [] m' l' /\ contents l' = contents l /\ alen l < m_maxentries m' <= 2 * alen l + 3 /\ alen l' <= alen l.
Proof.
  intros Hfull Hmax. unfold resize_with.
  assert (m_nentries m = m_maxentries m /\ alen l = m_maxentries m) as [Hcount Hlen].
  { destruct Hfull as [[-> ->]|[T Hl]]; [done|]. destruct (table_with_count _ _ _ T). split; lia. }
  rewrite (proj2 (Z.eqb_eq _ _) Hcount). cbn [negb]. pose proof (alen_nonneg l).
  destruct (next_size_spec (m_maxentries m)) as (n & -> & Hn); [lia|]. cbn [ub mbind outcome_bind].
  destruct (prime_spec (Z.shiftr n 2)) as (p & -> & Hp & Hpn).
  { change (2 ^ 27) with 134217728 in *. rewrite shiftr_div by lia. change (2 ^ 2) with 4. z_div. }
  cbn [ub mbind outcome_bind].
  destruct ((m_ncells m =? p) && ((n <? _MLIMIT) || (m_maxentries m >=? _MLIMIT))) eqn:Hsame.
  - apply andb_true_iff in Hsame as [E1 E2]. apply Z.eqb_eq in E1.
    destruct Hfull as [[-> ->]|[T Hl]]; [cbn [m_alloc m_ncells] in E1; lia|].
    destruct (expand_spec m l n T Hl ltac:(lia)) as (m' & -> & T' & Em').
    { unfold wide_index, _MLIMIT in *. apply orb_true_iff in E2. destruct (Z.ltb_spec n 128), (Z.ltb_spec (m_maxentries m) 128); try done; [lia|]. destruct E2 as [E2|E2]; [done|]. apply Z.geb_le in E2. lia. }
    cbn [ub]. exists m', l. split; [done|]. split; [done|]. split; [done|]. lia.
  - clear Hsame. destruct (fresh_table_spec p n Hp ltac:(lia)) as (m0 & -> & T0 & Em0). cbn [ub mbind outcome_bind].
    destruct Hfull as [[-> ->]|[T Hl]].
    { cbn [m_alloc m_ncells]. change (Z.to_nat 0) with 0%nat. cbn [remap_cells]. exists m0, []. split; [done|]. split; [done|]. split; [done|]. cbn [m_alloc m_maxentries] in *. change (alen []) with 0. lia. }
    pose proof (table_with_nodup _ _ _ T) as Hnd. destruct T as (cells & nexts & values & chains & T & ->).
    destruct (t_lens _ _ _ _ _ _ T) as (Lc & _). pose proof (Forall2_length _ _ _ (t_chains _ _ _ _ _ _ T)) as Hcl.
    replace (Z.to_nat (m_ncells m)) with (length chains) by (unfold alen in Lc; lia).
    destruct (remap_cells_spec m [] cells nexts values chains T (set_impl vnull junkb junkc junke junkp (S depth))) with (rest := chains) (pre := @nil (list node)) (i := 0) (m := m0) (l := @nil node)
      as (m' & l' & Hm' & T' & E' & Em'); [intros m1 l1 key value T1 Hk Hroom; cbn [set_impl]; by apply set_room|done|done|done|change (alen []) with 0; lia|].
    exists m', l'. split; [done|]. split; [done|]. rewrite (foldl_ins _ []) in E' by done. cbn [app] in E'. split; [done|].
    assert (alen l' = alen (concat chains)) as Hll.
    { rewrite <- (contents_size l' (table_with_nodup _ _ _ T')), E'. by apply contents_size. }
    lia.
Qed.

(** ** The operations on maps *)
Lemma set_impl_spec m M key value : map_repr m M -> valid key -> m_maxentries m <= 2 ^ 26 ->
  exists m', set_impl vnull junkb junkc junke junkp 2 m key value = Done m' /\ map_repr m' (<[norm key := value]> M) /\
    m_maxentries m' <= Z.max (m_maxentries m) (2 * Z.of_nat (size M) + 3).
Proof.
  intros Hm Hk Hmax. change (set_impl vnull junkb junkc junke junkp 2) with (set_with junkb (resize_with vnull junkb junkc junke junkp (set_impl vnull junkb junkc junke junkp 1))).
  assert (exists l, M = contents l /\ ((table_with [] m l /\ (norm key ∈ n_norm <$> l \/ alen l < m_maxentries m)) \/
     (full m l /\ (norm key ∉ n_norm <$> l) /\ hl_freelist_get junkb (m_lfree m) = Some (-1, m_lfree m)))) as (l & -> & Hcase).
  { destruct Hm as [[-> ->]|(l & T & ->)].
    - exists []. split; [done|]. right. split; [by left|]. split; [apply not_elem_of_nil|done].
    - exists l. split; [done|]. destruct (table_with_count _ _ _ T) as [_ Hle]. destruct (decide (norm key ∈ n_norm <$> l)) as [Hin|Hni]; [by left; split; [|left]|].
      destruct (decide (alen l = m_maxentries m)) as [Hf|]; [right|left; split; [done|right; lia]]. split; [by right|]. split; [done|]. by eapply no_entry. }
  destruct Hcase as [[T Hroom]|(Hfull & Hni & Hget)].
  { destruct (set_room (resize_with vnull junkb junkc junke junkp (set_impl vnull junkb junkc junke junkp 1)) m l key value T Hk Hroom) as (m' & l' & -> & T' & <- & Em' & _).
    exists m'. split; [done|]. split; [right; by exists l'|lia]. }
  destruct (resize_spec 0 m l Hfull Hmax) as (m1 & l1 & Hres & T1 & E1 & Hmax1 & Hl1). destruct (hash_ok key Hk) as (h & Hh & Hr).
  assert (norm key ∉ n_norm <$> l1) as Hni1 by (apply contents_None; rewrite E1; by apply contents_None).
  destruct (take_entry m1 l1 T1 ltac:(lia)) as (c & f & Hgc & Hc & Tc).
  pose proof Tc as (cells & nexts & values & chains & Tc' & El). destruct (table_cell _ _ _ _ _ _ Tc' h ltac:(lia)) as (i & _ & _ & Hci & _).
  destruct (store_entry_spec _ _ _ i key h value Tc Hk Hh ltac:(lia) Hni1 Hci) as (m' & l' & Hst & T' & Hp & Em').
  exists m'. split.
  - unfold set_with. rewrite Hh. cbn [ub mbind outcome_bind].
    assert (exists ckey, (match m_values m with None => Some (0, None) | Some values => ckey ← cell_of m h; c ← kget (m_maxentries m) (m_cells m) ckey;
         r ← search_chain m values key h c; Some (ckey, fmap (M := option) fst r) end) = Some (ckey, None)) as (ckey & ->).
    { destruct Hfull as [[-> _]|[T _]]; [by eexists|]. destruct T as (cells0 & nexts0 & values0 & chains0 & T0 & El0). rewrite (t_values _ _ _ _ _ _ T0).
      destruct (table_cell _ _ _ _ _ _ T0 h ltac:(lia)) as (i0 & k & c0 & -> & Ei & Hl & Hc0 & Hch). cbn [mbind option_bind]. rewrite Hc0. cbn [mbind option_bind].
      destruct (table_chain _ _ _ _ _ _ T0 i0 k Hl) as (Hsub & Hndk & _).
      destruct (search_chain_spec _ _ _ _ _ _ T0 k c0 key h Hsub Hndk Hch Hk Hh) as (r & -> & Hr0). cbn [mbind option_bind]. destruct r as [[c' prev]|]; [|by eexists].
      exfalso. destruct Hr0 as (k1 & nd & k2 & -> & -> & Hn & _). apply Hni. rewrite El0, <- Hn. apply list_elem_of_fmap_2. apply Hsub. set_solver. }
    cbn [ub mbind outcome_bind]. rewrite Hget. cbn [ub mbind outcome_bind]. change (-1 <? 0) with true. cbv iota.
    replace (with_lfree m (m_lfree m)) with m by by destruct m. rewrite Hres. cbn [mbind outcome_bind].
    change (cell_of (with_lfree m1 f) h) with (cell_of m1 h) in Hci. rewrite Hci. cbn [ub mbind outcome_bind]. rewrite Hgc. cbn [ub mbind outcome_bind]. by rewrite Hst.
  - split; [right; exists l'; split; [done|]; rewrite <- E1; by rewrite (contents_perm l' _ (table_with_nodup _ _ _ T') Hp)|].
    cbn [with_lfree m_maxentries] in Em'. rewrite contents_size; [lia|]. destruct Hfull as [[_ ->]|[T _]]; [constructor|by eapply table_with_nodup].
Qed.
End hash_map_ok.
