(* ===== verification/HashMapSound.v ===== *)
(** * What the operations of a hash map do

    The remaining operations (removal, enumeration, clearing, copying) keep the invariant of
    [HashMapProps]; the kinds of key of [maps.c] satisfy [map_kind_ok]; the theorems put
    the operations together. *)
From S2P Require Import Prelude Ustr Lookup FreeList HashMap HashMapProps.

Section hash_map_ops.
Context {K E P V N : Type} `{Countable N} {kd : map_kind K E P} `{!map_kind_ok kd N} (vnull : V).
Context (junkb : hl_free_bucket) (junkc : Z) (junke : E) (junkp : P * V).
Implicit Types (m : @t_map E P V) (M : gmap N V).

(** ** Removing *)
Lemma unlink_spec m cells nexts values pre k1 n k2 post : table_ok m [] cells nexts values (pre ++ (k1 ++ n :: k2) :: post) ->
  exists m', unlink vnull junkb m values (n_at n) (match last k1 with Some n => n_at n | None => -1 end) (alen pre) = Some m' /\
    table_with [] m' (concat pre ++ (k1 ++ k2) ++ concat post) /\ m_maxentries m' = m_maxentries m.
Proof.
  intros T. destruct (t_lens _ _ _ _ _ _ T) as (Lc & Ln & Le & Lv). pose proof (t_sizes _ _ _ _ _ _ T) as [Hs1 Hs2]. change (2 ^ 27) with 134217728 in *.
  assert (forall k : list (@node K V), concat (pre ++ k :: post) = concat pre ++ k ++ concat post) as Hcat by (intros k; by rewrite concat_app).
  assert (n ∈ concat (pre ++ (k1 ++ n :: k2) :: post)) as Hn by (rewrite Hcat; set_solver).
  pose proof (table_node_at _ _ _ _ _ _ T n Hn) as Hnr. pose proof (table_nodup _ _ _ _ _ _ T) as Hnd. rewrite Hcat in Hnd.
  assert (concat pre ++ (k1 ++ n :: k2) ++ concat post ≡ₚ n :: concat pre ++ (k1 ++ k2) ++ concat post) as Hperm.
  { rewrite <- !app_assoc. cbn [app]. rewrite (app_assoc (concat pre)), <- Permutation_middle. by rewrite <- app_assoc. }
  assert (forall y, y ∈ concat pre ++ (k1 ++ k2) ++ concat post -> n_at y <> n_at n) as Hother.
  { intros y Hy Heq. rewrite Hperm in Hnd. cbn [fmap list_fmap app] in Hnd. apply NoDup_cons in Hnd as [Hni _]. apply Hni. rewrite <- Heq. apply elem_of_app. left. by apply list_elem_of_fmap_2. }
  unfold unlink. destruct (hl_freelist_add_range_spec junkb (m_lfree m) (n_at n) 1 (t_free _ _ _ _ _ _ T)) as (f & Hf & Hfok & Hfp).
  { split; [lia|]. split; [lia|]. split.
    - intros p Hp Hin. assert (p = n_at n) as -> by lia. rewrite Hperm in Hnd. cbn [fmap list_fmap app] in Hnd. apply NoDup_cons in Hnd as [Hni _]. apply Hni. by apply elem_of_app; right.
    - intros p Hp. assert (0 <= p < m_maxentries m); [|change (2 ^ 29) with 536870912; lia]. apply (table_at _ _ _ _ _ _ T). cbn [app]. apply elem_of_app. by right. }
  unfold hl_freelist_add. rewrite Hf. cbn [mbind option_bind].
  destruct (aget_is_Some values (n_at n)) as [v Hv]; [lia|]. rewrite Hv. cbn [mbind option_bind].
  destruct (aset_total values (n_at n) (merase v.1, vnull)) as (values' & -> & Lv' & Gv); [lia|]. cbn [mbind option_bind].
  rewrite (kget_ok _ _ _ _ (t_nexts _ _ _ _ _ _ T)). destruct (table_chain _ _ _ _ _ _ T (alen pre) (k1 ++ n :: k2) (aget_mid _ _ _ _ eq_refl)) as (Hsub & Hndk & c & Hc & Hch).
  rewrite fmap_app, fmap_cons in Hndk, Hch.
  assert (exists next, aget nexts (n_at n) = Some next /\ chain nexts next (n_at <$> k2)) as (next & Hnext & Hch2).
  { clear -Hch. revert c Hch. induction k1 as [|y k IH]; intros c Hch; cbn [fmap list_fmap app chain] in Hch; [naive_solver|]. destruct Hch as (_ & _ & c' & _ & Hch). by apply (IH c'). }
  assert (-1 <= next < m_maxentries m) as Hnr2.
  { destruct (chain_first _ _ _ Hch2) as [[-> _]|Hin]; [lia|]. apply list_elem_of_fmap in Hin as (y & -> & Hy). pose proof (table_node_at _ _ _ _ _ _ T y (Hsub y ltac:(set_solver))). lia. }
  rewrite Hnext. cbn [mbind option_bind].
  (* what table_update needs in both cases *)
  assert (forall cells' nexts' c', alen cells' = m_ncells m -> alen nexts' = m_maxentries m ->
    (forall i, i <> alen pre -> aget cells' i = aget cells i) -> aget cells' (alen pre) = Some c' -> chain nexts' c' (n_at <$> k1 ++ k2) ->
    (forall y, y ∈ concat pre ++ concat post -> aget nexts' (n_at y) = aget nexts (n_at y)) ->
    forall m', m' = Map (Some (KArray (wide_index (m_maxentries m)) cells')) (Some (KArray (wide_index (m_maxentries m)) nexts')) (m_entries m) (Some values') f (m_ncells m) (m_nentries m - 1) (m_maxentries m) ->
    table_with [] m' (concat pre ++ (k1 ++ k2) ++ concat post)) as Hupd.
  { intros cells' nexts' c' Lc' Ln' Gc Gcp Hch' Gn m' ->. exists cells', nexts', values', (pre ++ (k1 ++ k2) :: post). split; [|by rewrite Hcat].
    apply (table_update m [] cells nexts values pre (k1 ++ n :: k2) post _ [] cells' nexts' values' c' (k1 ++ k2)); try done; cbn [m_maxentries m_ncells m_cells m_nexts m_values m_entries m_lfree m_nentries].
    - repeat split; try done; lia.
    - intros y Hy. split; [done|]. rewrite Gv, decide_False; [done|]. intros Heq. apply (Hother y); [set_solver|done].
    - pose proof (t_nodes _ _ _ _ _ _ T) as Hnodes. rewrite Forall_forall in *. intros y Hy. destruct (Hnodes y) as (Hvk & e1 & p1 & He1 & Hp1 & Hst1); [apply Hsub; set_solver|].
      split; [done|]. exists e1, p1. rewrite Gv, decide_False; [done|]. intros Heq. apply (Hother y); [set_solver|done].
    - pose proof (t_hash _ _ _ _ _ _ T _ _ (aget_mid pre (k1 ++ n :: k2) post _ eq_refl)) as Hcell. rewrite Forall_forall in *. intros y Hy. apply Hcell. set_solver.
    - pose proof (t_nodup _ _ _ _ _ _ T) as Hnn. rewrite Hcat, Hperm in Hnn. cbn [fmap list_fmap] in Hnn. by apply NoDup_cons in Hnn as [_ Hnn].
    - cbn [app]. rewrite Hfp, <- (t_parts _ _ _ _ _ _ T), Hcat, Hperm. cbn [fmap list_fmap app]. 
      rewrite (seqZ_cons (n_at n) 1) by lia. cbn [app]. symmetry. apply Permutation_middle.
    - rewrite (t_count _ _ _ _ _ _ T), Hcat. unfold alen. rewrite (Permutation_length Hperm). cbn [length]. lia. }
  destruct (last_snoc_case k1) as [->|(k & y & ->)].
  - cbn [last]. destruct (Z.geb_spec (-1) 0); [lia|].
    destruct (aset_total cells (alen pre) next) as (cells' & Hc' & Lc' & Gc); [pose proof (aget_Some_range _ _ _ Hc); lia|].
    destruct (kset_ok _ _ _ (alen pre) next cells' (t_cells _ _ _ _ _ _ T) Hnr2 Hc') as (cx & -> & Hcx). injection Hcx as ->. cbn [mbind option_bind]. eexists. split; [done|]. split; [|done].
    apply (Hupd cells' nexts next); try done; [lia|..].
    + intros i Hi. by rewrite Gc, decide_False.
    + by rewrite Gc, decide_True.
    + by rewrite (t_nexts _ _ _ _ _ _ T).
  - rewrite last_snoc. assert (y ∈ concat (pre ++ ((k ++ [y]) ++ n :: k2) :: post)) as Hy by (rewrite Hcat; set_solver). pose proof (table_node_at _ _ _ _ _ _ T y Hy) as Hyr.
    destruct (Z.geb_spec (n_at y) 0); [|lia]. destruct (aset_total nexts (n_at y) next) as (nexts' & Hn' & Ln' & Gn); [lia|].
    destruct (kset_ok _ _ _ (n_at y) next nexts' (t_nexts _ _ _ _ _ _ T) Hnr2 Hn') as (nx & -> & Hnx). injection Hnx as ->. cbn [mbind option_bind]. eexists. split; [done|]. split; [|done].
    rewrite fmap_app in Hch, Hndk. cbn [fmap list_fmap] in Hch, Hndk. rewrite <- app_assoc in Hch, Hndk. cbn [app] in Hch, Hndk.
    apply (Hupd cells nexts' c); try done; [lia|..].
    + rewrite <- app_assoc, fmap_app. cbn [app fmap list_fmap]. apply (chain_unlink nexts nexts' c (n_at <$> k) (n_at n) (n_at <$> k2) (n_at y) next); try done.
      * rewrite Gn. by rewrite decide_True.
      * intros z Hz. by rewrite Gn, decide_False.
    + intros z Hz. rewrite Gn, decide_False; [done|]. intros Heq. apply NoDup_app in Hnd as [Hnd _].
      assert (concat pre ++ ((k ++ [y]) ++ n :: k2) ++ concat post ≡ₚ y :: concat pre ++ (k ++ n :: k2) ++ concat post) as Hp2.
      { rewrite <- !app_assoc. cbn [app]. rewrite (app_assoc (concat pre)), <- Permutation_middle. by rewrite <- !app_assoc. }
      rewrite Hp2 in Hnd. cbn [fmap list_fmap] in Hnd. apply NoDup_cons in Hnd as [Hni _]. apply Hni. rewrite Heq. apply list_elem_of_fmap_2. set_solver.
    + by rewrite (t_cells _ _ _ _ _ _ T).
Qed.
Lemma remove_spec m M key key' : map_repr m M -> (m_cells m <> None -> filter_key key = Some key') -> valid key' ->
  exists m', m_remove vnull junkb m key = Some (bool_decide (is_Some (M !! norm key')), m') /\ map_repr m' (delete (norm key') M) /\ m_maxentries m' = m_maxentries m.
Proof.
  intros Hm Hfil Hk. unfold m_remove. destruct Hm as [[-> ->]|(l & T & ->)].
  { cbn [m_alloc m_cells]. exists m_alloc. rewrite lookup_empty, delete_empty. split; [done|]. split; [by left|done]. }
  pose proof T as (cells & nexts & values & chains & T' & El). rewrite (t_cells _ _ _ _ _ _ T'). rewrite Hfil by (rewrite (t_cells _ _ _ _ _ _ T'); done). cbn [mbind option_bind].
  destruct (hash_ok key' Hk) as (h & Hh & Hr). rewrite Hh. cbn [mbind option_bind].
  destruct (table_cell _ _ _ _ _ _ T' h ltac:(lia)) as (i & k & c & -> & Ei & Hl & Hc & Hch). cbn [mbind option_bind]. rewrite <- (t_cells _ _ _ _ _ _ T'). rewrite Hc. cbn [mbind option_bind].
  rewrite (t_values _ _ _ _ _ _ T'). cbn [mbind option_bind].
  destruct (table_chain _ _ _ _ _ _ T' i k Hl) as (Hsub & Hndk & _).
  destruct (search_chain_spec _ _ _ _ _ _ T' k c key' h Hsub Hndk Hch Hk Hh) as (r & -> & Hres). cbn [mbind option_bind].
  pose proof (table_with_nodup _ _ _ T) as Hnd.
  destruct r as [[c' prev]|].
  - destruct Hres as (k1 & n & k2 & -> & -> & Hn & ->). pose proof (aget_Some_range _ _ _ Hl) as Hir. rewrite aget_lookup in Hl by lia.
    apply list_elem_of_split_length in Hl as (pre & post & -> & Hpre). assert (i = alen pre) as Ei' by (unfold alen; lia). rewrite Ei' in *.
    destruct (unlink_spec m cells nexts values pre k1 n k2 post T') as (m' & -> & T1 & Em1). cbn [mbind option_bind]. rewrite concat_app in El. cbn [concat] in El.
    assert (l = (concat pre ++ k1) ++ n :: k2 ++ concat post) as El' by (rewrite El, <- !app_assoc; done).
    assert (contents l = <[norm key' := n_val n]> (contents (concat pre ++ (k1 ++ k2) ++ concat post))) as Econt.
    { rewrite El', contents_middle by (rewrite <- El'; done). rewrite Hn, <- !app_assoc. done. }
    rewrite Econt, lookup_insert_eq, delete_insert_eq. exists m'. split; [done|]. split; [|done]. right. eexists. split; [done|].
    apply delete_id. apply contents_None. rewrite El' in Hnd. rewrite fmap_app, fmap_cons, <- Permutation_middle in Hnd. apply NoDup_cons in Hnd as [Hni _].
    rewrite Hn, <- fmap_app, <- !app_assoc in Hni. by rewrite <- !app_assoc.
  - assert (contents l !! norm key' = None) as Hno. { apply contents_None. intros Hin. apply Hres. rewrite El in Hin. by eapply (key_in_chain m [] cells nexts values chains T'). }
    rewrite Hno, delete_id by done. exists m. split; [done|]. split; [|done]. right. by exists l.
Qed.

(** ** Enumerating *)
Section walk.
Context {A : Type} (d : A) (g : @node K V -> A) (store : Z -> Z -> list A -> option (list A)).
Context m taken cells nexts values chains (T : table_ok m taken cells nexts values chains).
Hypothesis store_ok : forall p n a, n ∈ concat chains -> store p (n_at n) a = aset a p (g n).
Definition filled (done : list (@node K V)) (r : nat) : list A := (g <$> done) ++ replicate r d.
Lemma walk_chain_spec k : forall c done r, k ⊆ concat chains -> NoDup (n_at <$> k) -> chain nexts c (n_at <$> k) ->
  walk_chain m store c (filled done (length k + r), alen done) = Some (filled (done ++ k) r, alen (done ++ k)).
Proof.
  intros c done r Hsub Hnd Hch. pose proof (table_length _ _ _ _ _ _ T k Hsub Hnd) as Hlen. unfold walk_chain. match goal with |- loop ?f _ _ = _ => set (step := f) end.
  assert (forall fuel c done, chain nexts c (n_at <$> k) -> (length k < fuel)%nat -> loop step fuel (c, (filled done (length k + r), alen done)) = Some (filled (done ++ k) r, alen (done ++ k))) as Hloop;
    [|apply Hloop; [done|unfold alen in *; lia]].
  clear c done Hch Hlen Hnd. induction k as [|n k IH]; intros [|fuel] c done Hch Hf; cbn [length] in Hf; try lia; cbn [loop].
  - cbn in Hch. subst c. rewrite app_nil_r. done.
  - destruct Hch as (-> & Hc0 & c' & Hc' & Hch). unfold step at 1. destruct (Z.geb_spec (n_at n) 0); [|lia]. rewrite store_ok by (apply Hsub; left).
    unfold filled. cbn [length Nat.add replicate]. rewrite aset_mid by (unfold alen; by rewrite length_fmap). cbn [mbind option_bind].
    rewrite (kget_ok _ _ _ _ (t_nexts _ _ _ _ _ _ T)), Hc'. cbn [mbind option_bind].
    specialize (IH ltac:(set_solver) fuel c' (done ++ [n]) Hch ltac:(lia)). unfold filled in IH. rewrite fmap_app, <- !app_assoc in IH. cbn [app fmap list_fmap] in IH.
    rewrite alen_app in IH at 1. change (alen [n]) with 1 in IH. unfold filled. rewrite <- IH. done.
Qed.
Lemma walk_cells rest : forall pre done r, chains = pre ++ rest ->
  afor (fun i st => c ← kget (m_maxentries m) (m_cells m) i; walk_chain m store c st) (length rest) (alen pre) (filled done (length (concat rest) + r), alen done)
    = Some (filled (done ++ concat rest) r, alen (done ++ concat rest)).
Proof.
  induction rest as [|k rest IH]; intros pre done r Ech; cbn [length afor concat].
  - by rewrite app_nil_r.
  - assert (aget chains (alen pre) = Some k) as Hk by (rewrite Ech; by apply aget_mid). destruct (table_chain _ _ _ _ _ _ T _ k Hk) as (Hsub & Hnd & c & Hc & Hch).
    rewrite (kget_ok _ _ _ _ (t_cells _ _ _ _ _ _ T)), Hc. cbn [mbind option_bind]. rewrite length_app, <- Nat.add_assoc, walk_chain_spec by done. cbn [mbind option_bind].
    specialize (IH (pre ++ [k]) (done ++ k) r ltac:(by rewrite <- app_assoc)). rewrite <- app_assoc in IH. rewrite alen_app in IH at 1. exact IH.
Qed.
Lemma walk_spec : walk m store (replicate (Z.to_nat (m_nentries m)) d) = Some (g <$> concat chains).
Proof.
  unfold walk. destruct (t_lens _ _ _ _ _ _ T) as (Lc & _). pose proof (Forall2_length _ _ _ (t_chains _ _ _ _ _ _ T)) as Hcl.
  replace (Z.to_nat (m_ncells m)) with (length chains) by (unfold alen in Lc; lia). rewrite (t_count _ _ _ _ _ _ T). unfold alen. rewrite Nat2Z.id.
  pose proof (walk_cells chains [] [] 0 eq_refl) as Hw. rewrite Nat.add_0_r in Hw. unfold filled in Hw. cbn [app fmap list_fmap replicate] in Hw. change (alen []) with 0 in Hw.
  rewrite Hw. cbn [mbind option_bind fst]. by rewrite app_nil_r.
Qed.
End walk.
Lemma enum_spec m l : table_with [] m l -> m_keys m = Some ((fun n => Some (n_key n)) <$> l) /\ m_vals vnull m = Some (n_val <$> l).
Proof.
  intros (cells & nexts & values & chains & T & ->). pose proof (t_nodes _ _ _ _ _ _ T) as Hnodes. rewrite Forall_forall in Hnodes.
  split; eapply (walk_spec _ _ _ _ _ _ _ _ _ T); intros p n a Hn; destruct (Hnodes n Hn) as (Hvk & e & p' & He & Hp & Hst).
  - rewrite He. cbn [mbind option_bind]. rewrite (t_values _ _ _ _ _ _ T). cbn [mbind option_bind]. rewrite Hp. cbn [mbind option_bind fst]. by rewrite (mkey_ok _ _ _ Hst).
  - rewrite (t_values _ _ _ _ _ _ T). cbn [mbind option_bind]. by rewrite Hp.
Qed.

(** ** Looking up *)
Lemma get_spec m M key key' : map_repr m M -> filter_key key = Some key' -> valid key' ->
  m_get vnull m key = Some (default vnull (M !! norm key')) /\ m_exists m key = Some (bool_decide (is_Some (M !! norm key'))).
Proof.
  intros Hm Hfil Hk. unfold m_get, m_exists. rewrite Hfil. cbn [mbind option_bind]. destruct Hm as [[-> ->]|(l & T & ->)].
  { cbn [m_alloc m_find m_values mbind option_bind]. by rewrite lookup_empty. }
  destruct (find_spec m [] l key' T Hk) as (r & -> & Hr). cbn [mbind option_bind]. destruct r as [c|].
  - destruct Hr as (l1 & n & l2 & -> & -> & Hn). pose proof (table_with_nodup _ _ _ T) as Hnd.
    assert (contents (l1 ++ n :: l2) !! norm key' = Some (n_val n)) as -> by (apply contents_Some; [done|]; exists n; split; [set_solver|done]).
    destruct T as (cells & nexts & values & chains & T & El). rewrite (t_values _ _ _ _ _ _ T). cbn [mbind option_bind].
    pose proof (t_nodes _ _ _ _ _ _ T) as Hnodes. rewrite <- El, Forall_app, Forall_cons in Hnodes. destruct Hnodes as (_ & (_ & e & p & _ & Hp & _) & _). by rewrite Hp.
  - by rewrite Hr.
Qed.

(** ** Clearing and copying *)
Lemma new_map : map_repr (N := N) (@m_alloc E P V) ∅.
Proof. by left. Qed.
Lemma acopy_whole {A} (junk : A) (l : list A) n : alen l = n -> dup junk l n = Some l.
Proof.
  intros <-. unfold dup. destruct (acopy_total (replicate (Z.to_nat (alen l)) junk) 0 l 0 (alen l)) as (l' & -> & Hl & Hg); [try apply alen_nonneg; rewrite ?alen_replicate; pose proof (alen_nonneg l); lia..|].
  f_equal. rewrite alen_replicate in Hl. pose proof (alen_nonneg l). apply aget_ext; [lia|]. intros i Hi. rewrite Hg, decide_True by lia. by rewrite Z.sub_0_r.
Qed.
Lemma clear_spec m M : map_repr m M -> exists m', m_clear vnull junkb m = Some m' /\ map_repr (N := N) m' ∅ /\ (m_maxentries m' = m_maxentries m \/ m' = m_alloc).
Proof.
  intros [[-> ->]|(l & T & ->)]; [exists m_alloc; split; [done|]; split; [apply new_map|by left]|]. unfold m_clear, _MCLEAR_KEEP_ENTRIES.
  destruct T as (cells & nexts & values & chains & T & ->). rewrite (t_values _ _ _ _ _ _ T). destruct (Z.leb_spec (m_maxentries m) 65536).
  2: { exists m_alloc. split; [done|]. split; [apply new_map|by right]. }
  rewrite (t_cells _ _ _ _ _ _ T). cbn [mbind option_bind k_wide k_cells]. rewrite eqb_reflx. cbn [negb].
  destruct (t_lens _ _ _ _ _ _ T) as (Lc & Ln & Le & Lv). pose proof (t_sizes _ _ _ _ _ _ T) as [Hs1 Hs2]. change (2 ^ 27) with 134217728 in *.
  destruct (acopy_total cells 0 (replicate (Z.to_nat (m_ncells m)) (-1)) 0 (m_ncells m)) as (cells' & -> & Lc' & Gc); [rewrite ?alen_replicate; lia..|]. cbn [mbind option_bind].
  destruct (acopy_total (m_entries m) 0 (replicate (Z.to_nat (m_maxentries m)) zero_entry) 0 (m_maxentries m)) as (entries' & -> & Le' & Ge); [rewrite ?alen_replicate; lia..|]. cbn [mbind option_bind].
  destruct (acopy_total values 0 (replicate (Z.to_nat (m_maxentries m)) (zero_part, vnull)) 0 (m_maxentries m)) as (values' & -> & Lv' & Gv); [rewrite ?alen_replicate; lia..|]. cbn [mbind option_bind].
  destruct hl_freelist_init_ok as [Hf0 Hp0]. destruct (hl_freelist_add_range_spec junkb hl_freelist_init 0 (m_maxentries m) Hf0) as (f & -> & Hf & Hp).
  { unfold fresh_range. rewrite Hp0. split; [lia|]. split; [lia|]. split; [intros; apply not_elem_of_nil|]. intros p Hp. by apply not_elem_of_nil in Hp. }
  cbn [mbind option_bind]. rewrite Hp0, app_nil_r in Hp. eexists. split; [done|]. split; [|by left]. right. exists []. split; [|done].
  exists cells', nexts, values', (replicate (length chains) []). rewrite concat_nils. split; [|done].
  split; cbn [m_maxentries m_ncells m_cells m_nexts m_values m_entries m_lfree m_nentries]; rewrite ?concat_nils; try done.
  - exact (t_nexts _ _ _ _ _ _ T).
  - repeat split; try done; lia.
  - apply Forall2_same_length_lookup_2; [rewrite length_replicate, <- (Forall2_length _ _ _ (t_chains _ _ _ _ _ _ T)); unfold alen in *; lia|].
    intros i c k Hi Hk. apply lookup_replicate in Hk as [-> _]. cbn. rewrite <- aget_nat, Gc in Hi. destruct (decide (0 <= Z.of_nat i < 0 + m_ncells m)) as [Hir|Hir].
    + rewrite aget_lookup in Hi by lia. apply lookup_replicate in Hi. by destruct Hi.
    + pose proof (aget_Some_range _ _ _ Hi). lia.
  - intros i l Hl. pose proof (aget_Some_range _ _ _ Hl). rewrite aget_lookup in Hl by lia. apply lookup_replicate in Hl as [-> _]. constructor.
  - constructor.
Qed.
Lemma copy_spec m M : map_repr m M -> exists m', m_copy junkb junkc junke junkp m = Some m' /\ map_repr m' M /\ m_maxentries m' = m_maxentries m /\ m_keys m' = m_keys m /\ m_vals vnull m' = m_vals vnull m.
Proof.
  intros [[-> ->]|(l & T0 & ->)]; [exists m_alloc; split; [done|]; split; [apply new_map|done]|]. unfold m_copy.
  destruct (enum_spec m l T0) as [-> ->]. pose proof T0 as (cells & nexts & values & chains & T & ->). rewrite (t_values _ _ _ _ _ _ T).
  destruct (t_lens _ _ _ _ _ _ T) as (Lc & Ln & Le & Lv). rewrite (acopy_whole junke _ _ Le). cbn [mbind option_bind]. rewrite (acopy_whole junkp _ _ Lv). cbn [mbind option_bind].
  unfold dup_karray. rewrite (t_cells _ _ _ _ _ _ T), (t_nexts _ _ _ _ _ _ T). cbn [mbind option_bind k_wide k_cells]. rewrite !eqb_reflx.
  rewrite (acopy_whole junkc _ _ Lc). cbn [mbind option_bind]. rewrite (acopy_whole junkc _ _ Ln). cbn [mbind option_bind].
  assert (exists f, (match buckets (m_lfree m) with None => Some (m_lfree m) | Some bs => bs ← acopy (replicate (Z.to_nat (nbuckets (m_lfree m))) junkb) 0 bs 0 (head (m_lfree m));
       Some (FL (Some bs) (head (m_lfree m)) (nbuckets (m_lfree m))) end) = Some f /\ fl_ok f /\ positions f = positions (m_lfree m)) as (f & -> & Hf & Hp).
  { pose proof (t_free _ _ _ _ _ _ T) as Hf. destruct (buckets (m_lfree m)) as [bs|] eqn:Hb; [|by exists (m_lfree m)].
    pose proof (fl_ok_with_ranges _ _ Hf Hb) as Hw. destruct (with_ranges_ok _ _ Hw) as [_ Hwok]. apply Hwok in Hf. pose proof Hw as (tl & Hb' & Hh & Hn & Hpos).
    destruct (freelist_resize_spec junkb (m_lfree m) _ (nbuckets (m_lfree m)) Hw) as (f & Hr & Hf' & _); [rewrite Hn, alen_app; pose proof (alen_nonneg tl); lia|lia|].
    unfold hl_freelist_resize in Hr. rewrite Hb in Hr. cbn [default from_option id] in Hr. rewrite Hr. exists f. split; [done|]. destruct (with_ranges_ok _ _ Hf') as [Er Hok]. split; [by apply Hok|]. unfold positions. by rewrite Er. }
  cbn [mbind option_bind]. eexists. split; [done|].
  match goal with |- map_repr ?m' _ /\ _ => assert (table_with [] m' (concat chains)) as T' end.
  { exists cells, nexts, values, chains. split; [|done]. destruct T as [? ? ? ? ? ? ? ? ? Hparts ? ?]. split; cbn [m_maxentries m_ncells m_cells m_nexts m_values m_entries m_lfree m_nentries]; try done. by rewrite Hp. }
  destruct (enum_spec _ _ T') as [-> ->]. split; [|split; done]. right. by exists (concat chains).
Qed.
End hash_map_ops.

(** * The kinds of key *)
Lemma u32_bounds z : 0 <= u32 z < 2 ^ 32.
Proof. apply uN_range. lia. Qed.
Lemma eqb_bool_decide x y : (x =? y) = bool_decide (x = y).
Proof. destruct (Z.eqb_spec x y); by case_bool_decide. Qed.
#[export] Instance int_kind_ok : map_kind_ok int_kind Z.
Proof.
  refine {| norm := fun k : Z => k; valid := fun _ => True; stored := fun e (_ : unit) k => e = k |}.
  - intros k _. exists (u32 k). split; [done|apply u32_bounds].
  - by intros k k' h _ _ ->.
  - done.
  - intros e p k k' h _ _ -> _. cbn. by rewrite eqb_bool_decide.
  - by intros e p k ->.
Defined.
#[export] Instance int64_kind_ok : map_kind_ok int64_kind Z.
Proof.
  refine {| norm := fun k : Z => k; valid := fun _ => True; stored := fun e (_ : unit) k => e = k |}.
  - intros k _. exists (hl_hi64hash k). split; [done|]. unfold hl_hi64hash. pose proof (u32_bounds k). pose proof (u32_bounds (Z.shiftr k 32)).
    assert (0 <= Z.lxor (u32 k) (u32 (Z.shiftr k 32))) by (apply Z.lxor_nonneg; lia). split; [done|].
    destruct (decide (Z.lxor (u32 k) (u32 (Z.shiftr k 32)) = 0)) as [->|]; [by change (2 ^ 32) with 4294967296|]. apply Z.log2_lt_pow2; [lia|].
    assert (forall z, 0 <= z < 2 ^ 32 -> Z.log2 z < 32) as Hlog.
    { intros z Hz. destruct (decide (z = 0)) as [->|]; [done|]. apply Z.log2_lt_pow2; lia. }
    pose proof (Hlog (u32 k) ltac:(done)). pose proof (Hlog (u32 (Z.shiftr k 32)) ltac:(done)). pose proof (Z.log2_lxor (u32 k) (u32 (Z.shiftr k 32))). lia.
  - by intros k k' h _ _ ->.
  - done.
  - intros e p k k' h _ _ -> _. cbn. by rewrite eqb_bool_decide.
  - by intros e p k ->.
Defined.
#[export] Instance obj_kind_ok filter : map_kind_ok (obj_kind filter) Z.
Proof.
  refine {| norm := fun k : Z => k; valid := fun _ => True; stored := fun (_ : unit) p k => p = k |}.
  - intros k _. exists (u32 k). split; [done|apply u32_bounds].
  - by intros k k' h _ _ ->.
  - done.
  - intros e p k k' h _ _ -> _. cbn. by rewrite eqb_bool_decide.
  - by intros e p k ->.
Defined.
(** Strings are the same key when their texts are, wherever they are in memory. *)
Fixpoint text (m : list Z) : list Z := match m with [] => [] | c :: m => if c =? 0 then [] else c :: text m end.
Lemma text_spec m s : cstring m s -> text m = s.
Proof.
  revert m. induction s as [|c s IH]; intros m Hm.
  - by apply cstring_nil in Hm as (m' & ->).
  - apply cstring_cons in Hm as (m' & -> & Hc & Hm). cbn [text]. rewrite (proj2 (Z.eqb_neq c 0)) by done. by rewrite (IH m').
Qed.
Definition is_text (m : list Z) : Prop := exists s, cstring m s /\ uchars s.
Lemma hbhash_spec m s : cstring m s -> hl_hbhash m = Some (u32 (hash0 s)).
Proof. intros Hm. unfold hl_hbhash, hl_hash_gen. by rewrite (hash_chars_spec m s 0 Hm). Qed.
#[export] Instance bytes_kind_ok : map_kind_ok bytes_kind (list Z).
Proof.
  refine {| norm := text; valid := is_text; stored := fun e p k => p = Some k /\ hl_hbhash k = Some e |}.
  - intros k (s & Hk & _). exists (u32 (hash0 s)). split; [by apply hbhash_spec|apply u32_bounds].
  - intros k k' h (s & Hk & _) (s' & Hk' & _) Heq. rewrite (text_spec k s Hk), (text_spec k' s' Hk') in Heq. subst s'. cbn [hash_key bytes_kind].
    by rewrite (hbhash_spec k s Hk), (hbhash_spec k' s Hk').
  - intros e p k h _ Hh. done.
  - intros e p k k' h (s & Hk & Us) (s' & Hk' & Us') [-> He] Hh. cbn [mmatch bytes_kind]. cbn [hash_key bytes_kind] in Hh.
    rewrite (text_spec k s Hk), (text_spec k' s' Hk'). destruct (Z.eqb_spec e h) as [->|Hne].
    + cbn [mbind option_bind]. rewrite (ucmp_spec k k' s s' Hk Hk' Us Us'). cbn [mbind option_bind]. f_equal. rewrite eqb_bool_decide. apply bool_decide_ext.
      destruct Hk as [Hs _], Hk' as [Hs' _]. by apply lexcmp_eq.
    + f_equal. symmetry. apply bool_decide_eq_false_2. intros <-. apply Hne. rewrite (hbhash_spec k s Hk) in He. rewrite (hbhash_spec k' s Hk') in Hh. congruence.
  - by intros e p k [-> _].
Defined.

(** * Histories *)
Section histories.
Context {K E P V N : Type} `{Countable N} {kd : map_kind K E P} `{!map_kind_ok kd N} (vnull : V).
Context (junkb : hl_free_bucket) (junkc : Z) (junke : E) (junkp : P * V).
Implicit Types (m : @t_map E P V) (M : gmap N V).
(** Calls of the exported functions, and what they return.  After [OCopy] the program goes
    on with the copy. *)
Inductive op := OSet (key : K) (value : V) | OGet (key : K) | OExists (key : K) | ORemove (key : K) | OClear | OCopy | OSize.
Inductive answer := AUnit | ABool (b : bool) | AVal (v : V) | AInt (z : Z).
Definition run_op (m : @t_map E P V) (o : op) : outcome (answer * t_map) :=
  match o with
  | OSet k v => m ← m_set vnull junkb junkc junke junkp m k v; Done (AUnit, m)
  | OGet k => v ← ub (m_get vnull m k); Done (AVal v, m)
  | OExists k => b ← ub (m_exists m k); Done (ABool b, m)
  | ORemove k => '(b, m) ← ub (m_remove vnull junkb m k); Done (ABool b, m)
  | OClear => m ← ub (m_clear vnull junkb m); Done (AUnit, m)
  | OCopy => m ← ub (m_copy junkb junkc junke junkp m); Done (AUnit, m)
  | OSize => Done (AInt (m_size m), m)
  end.
Fixpoint run_ops (m : @t_map E P V) (os : list op) : outcome (list answer * t_map) :=
  match os with [] => Done ([], m) | o :: os => '(a, m) ← run_op m o; '(l, m) ← run_ops m os; Done (a :: l, m) end.
(** The same calls on a finite map; [None] in the key's place is a key the filter rejects. *)
Definition filtered (k : K) : N := match filter_key k with Some k => norm k | None => norm k end.
Definition spec_op (M : gmap N V) (o : op) : answer * gmap N V :=
  match o with
  | OSet k v => (AUnit, <[filtered k := v]> M)
  | OGet k => (AVal (default vnull (M !! filtered k)), M)
  | OExists k => (ABool (bool_decide (is_Some (M !! filtered k))), M)
  | ORemove k => (ABool (bool_decide (is_Some (M !! filtered k))), delete (filtered k) M)
  | OClear => (AUnit, ∅)
  | OCopy => (AUnit, M)
  | OSize => (AInt (Z.of_nat (size M)), M)
  end.
Fixpoint spec_ops (M : gmap N V) (os : list op) : list answer * gmap N V :=
  match os with [] => ([], M) | o :: os => let '(a, M) := spec_op M o in let '(l, M) := spec_ops M os in (a :: l, M) end.
Definition key_ok (k : K) : Prop := exists k', filter_key k = Some k' /\ valid k'.
Definition op_ok (o : op) : Prop := match o with OSet k _ | OGet k | OExists k | ORemove k => key_ok k | _ => True end.

Lemma map_size m M : map_repr (N := N) m M -> m_size m = Z.of_nat (size M).
Proof. intros [[-> ->]|(l & T & ->)]; [done|]. unfold m_size. rewrite (proj1 (table_with_count _ _ _ T)). symmetry. apply contents_size. by eapply table_with_nodup. Qed.
Lemma map_max m M : map_repr (N := N) m M -> Z.of_nat (size M) <= m_maxentries m.
Proof. intros [[-> ->]|(l & T & ->)]; [done|]. rewrite contents_size by by eapply table_with_nodup. apply (table_with_count _ _ _ T). Qed.
(** One call. *)
Lemma run_op_spec m M o B : map_repr m M -> op_ok o -> Z.of_nat (size M) <= B -> m_maxentries m <= 2 * B + 3 -> 2 * B + 3 <= 2 ^ 26 ->
  exists m', run_op m o = Done ((spec_op M o).1, m') /\ map_repr m' (spec_op M o).2 /\ Z.of_nat (size (spec_op M o).2) <= B + 1 /\ m_maxentries m' <= 2 * (B + 1) + 3.
Proof.
  intros Hm Ho HB Hmax Hbig. destruct o as [k v|k|k|k| | |]; cbn [op_ok] in Ho; cbn [run_op spec_op fst snd].
  - destruct Ho as (k' & Hf & Hk). unfold m_set, filtered. rewrite Hf. cbn [ub mbind outcome_bind].
    destruct (set_impl_spec vnull junkb junkc junke junkp m M k' v Hm Hk ltac:(lia)) as (m' & -> & Hm' & Hmax'). cbn [mbind outcome_bind]. exists m'. split; [done|]. split; [done|].
    split; [|lia]. destruct (decide (is_Some (M !! norm k'))) as [Hs|Hs]; [rewrite map_size_insert_Some by done; lia|].
    rewrite map_size_insert_None by by apply eq_None_not_Some. lia.
  - destruct Ho as (k' & Hf & Hk). unfold filtered. rewrite Hf. rewrite (proj1 (get_spec vnull m M k k' Hm Hf Hk)). cbn [ub mbind outcome_bind]. exists m. split; [done|]. split; [done|]. lia.
  - destruct Ho as (k' & Hf & Hk). unfold filtered. rewrite Hf. rewrite (proj2 (get_spec vnull m M k k' Hm Hf Hk)). cbn [ub mbind outcome_bind]. exists m. split; [done|]. split; [done|]. lia.
  - destruct Ho as (k' & Hf & Hk). unfold filtered. rewrite Hf. destruct (remove_spec vnull junkb m M k k' Hm ltac:(done) Hk) as (m' & Hr & Hm' & Hmax'). rewrite Hr. cbn [ub mbind outcome_bind].
    exists m'. split; [done|]. split; [done|]. split; [|lia]. rewrite map_size_delete. destruct (M !! norm k'); unfold id; lia.
  - destruct (clear_spec vnull junkb m M Hm) as (m' & -> & Hm' & Hmax'). cbn [ub mbind outcome_bind]. exists m'. split; [done|]. split; [done|]. rewrite map_size_empty. pose proof (map_max m M Hm). destruct Hmax' as [| ->]; cbn [m_alloc m_maxentries]; lia.
  - destruct (copy_spec vnull junkb junkc junke junkp m M Hm) as (m' & -> & Hm' & Hmax' & _). cbn [ub mbind outcome_bind]. exists m'. split; [done|]. split; [done|]. lia.
  - rewrite (map_size m M Hm). exists m. split; [done|]. split; [done|]. lia.
Qed.
Lemma run_ops_spec os : forall m M B, map_repr m M -> Forall op_ok os -> Z.of_nat (size M) <= B -> m_maxentries m <= 2 * B + 3 -> 2 * (B + alen os) + 3 <= 2 ^ 26 ->
  exists m', run_ops m os = Done ((spec_ops M os).1, m') /\ map_repr m' (spec_ops M os).2.
Proof.
  induction os as [|o os IH]; intros m M B Hm Ho HB Hmax Hbig; [by exists m|]. inversion Ho as [|? ? Ho1 Ho2]; subst. rewrite alen_cons in Hbig. pose proof (alen_nonneg os).
  destruct (run_op_spec m M o B Hm Ho1 HB Hmax ltac:(lia)) as (m1 & Hr & Hm1 & HB1 & Hmax1). cbn [run_ops spec_ops]. rewrite Hr. cbn [mbind outcome_bind].
  destruct (spec_op M o) as [a M1]. cbn [fst snd] in *. destruct (IH m1 M1 (B + 1) Hm1 Ho2 HB1 Hmax1 ltac:(lia)) as (m2 & -> & Hm2). cbn [mbind outcome_bind].
  destruct (spec_ops M1 os) as [l M2]. by exists m2.
Qed.
(** C6. Hash maps are finite maps.  For every kind of key, a new map answers any history of
    calls exactly as a finite map does: [get] and [exists] what was last set, [remove]
    whether the key was there, [size] the number of keys; through every growth, rehashing,
    change of index width, clearing and copying, whatever fresh memory holds.  No call
    fails or reads outside its arrays, the assertion of [resize] included. *)
Theorem hash_map_refines_map os : Forall op_ok os -> alen os <= 2 ^ 25 - 2 ->
  exists m, run_ops m_alloc os = Done ((spec_ops ∅ os).1, m) /\ map_repr m (spec_ops ∅ os).2.
Proof.
  intros Ho Hlen. apply (run_ops_spec os m_alloc ∅ 0 (new_map (N := N)) Ho); [done|cbn; lia|]. change (2 ^ 25) with 33554432 in *. change (2 ^ 26) with 67108864. lia.
Qed.
(** C35. Enumerating a map lists it.  For a map in order, [keys] and [values] return arrays
    of exactly [size] elements, and position by position they are the keys and values of
    the finite map the table represents, each once. *)
Theorem hash_map_enumerates m M : map_repr (N := N) m M ->
  exists ks vs, m_keys m = Some (Some <$> ks) /\ m_vals vnull m = Some vs /\ alen ks = m_size m /\ length vs = length ks /\
    zip (norm <$> ks) vs ≡ₚ map_to_list M.
Proof.
  intros Hm. pose proof (map_size m M Hm) as Hs. destruct Hm as [[-> ->]|(l & T & ->)]; [by exists [], []|].
  pose proof (table_with_nodup _ _ _ T) as Hnd. destruct (enum_spec vnull m l T) as [Hks Hvs]. exists (n_key <$> l), (n_val <$> l).
  rewrite <- list_fmap_compose, !length_fmap. split; [done|]. split; [done|]. split; [by rewrite Hs, contents_size by done; unfold alen; rewrite length_fmap|]. split; [done|].
  rewrite <- list_fmap_compose, contents_to_list by done. clear. induction l as [|n l IH]; [done|]. cbn. by rewrite IH.
Qed.
End histories.

Definition some_ops : list (@op (list Z) Z) :=
  [OSet [97; 0] 1; OSet [98; 0; 9] 2; OSet [97; 0; 5] 3; OGet [97; 0]; ORemove [98; 0]; OExists [98; 0]; OCopy; OSize; OClear; OSize].
Lemma hash_map_refines_map_witness :
  exists m, run_ops (kd := bytes_kind) 0 (7, 7) 7 7 (None, 7) m_alloc some_ops =
      Done ((spec_ops (kd := bytes_kind) (N := list Z) 0 ∅ some_ops).1, m) /\ map_repr (kd := bytes_kind) m (spec_ops (kd := bytes_kind) (N := list Z) 0 ∅ some_ops).2.
Proof.
  apply (hash_map_refines_map (kd := bytes_kind) 0 (7, 7) 7 7 (None, 7) some_ops); [|vm_compute; discriminate].
  unfold some_ops. repeat apply Forall_cons_2; try exact (Forall_nil_2 _); try exact I; cbn [op_ok]; eexists; (split; [reflexivity|]);
    solve [exists [97]; split; [split; [repeat constructor; discriminate|eexists; reflexivity]|repeat constructor; discriminate]
          |exists [98]; split; [split; [repeat constructor; discriminate|eexists; reflexivity]|repeat constructor; discriminate]].
Defined.
Lemma hash_map_enumerates_witness :
  exists m (M : gmap Z Z), M !! 5 = Some 7 /\ map_repr (kd := int_kind) m M /\
    exists ks vs, m_keys (kd := int_kind) m = Some (Some <$> ks) /\ m_vals 0 m = Some vs /\ alen ks = m_size m /\ length vs = length ks /\ zip (norm (kd := int_kind) <$> ks) vs ≡ₚ map_to_list M.
Proof.
  destruct (set_impl_spec (kd := int_kind) 0 (9, 9) 9 9 (tt, 9) m_alloc (∅ : gmap Z Z) 5 7) as (m & _ & Hm & _); [apply new_map|exact I|discriminate|].
  exists m, (<[5 := 7]> ∅). split; [reflexivity|]. split; [exact Hm|]. exact (hash_map_enumerates (kd := int_kind) 0 m _ Hm).
Defined.
(** A map of 200 integers: through four prime sizes and the change of width at 128. *)
Example many_keys : (v ← run_ops (kd := int_kind) 0 (9, 9) 9 9 (tt, 9) m_alloc ((fun i => OSet (i * i - 300) i) <$> seqZ 1 200); Done (m_ncells v.2, m_nentries v.2, m_maxentries v.2, m_get (kd := int_kind) 0 v.2 (150 * 150 - 300)))
  = Done (79, 200, 210, Some 150).
Proof. vm_compute. reflexivity. Qed.
(** Removed entries are reused, the last of them first. *)
Example reuse : (v ← run_ops (kd := int_kind) 0 (9, 9) 9 9 (tt, 9) m_alloc [OSet 1 10; OSet 2 20; OSet 3 30; ORemove 1; ORemove 3; OSet 4 40]; Done (m_keys (kd := int_kind) v.2, m_vals 0 v.2, positions (m_lfree v.2)))
  = Done (Some [Some 2; Some 4], Some [20; 40], [0]).
Proof. vm_compute. reflexivity. Qed.
