(* ===== verification/Allocator.v ===== *)
(** * The block allocator of the collector ([src/allocator.c], [src/allocator.h])

    Memory comes in pages of equal blocks.  A page with a size table serves objects of
    several blocks (the table gives the number of blocks at the first block of an object
    and 0 elsewhere); a page without one serves objects of one block.  The free blocks of a
    page are runs, of which those before [current] are used up.  After marking, a page
    waits ([need_flush]) until the next allocation in it rebuilds its runs from the mark
    bits.

    A page is a record; its memory is the interval of addresses [base, base + page_size),
    in which block [bid] is at [base + bid * block_size].  The lists of one page id
    ([gc_pages[pid]] and [gc_free_pages[pid]]) are a list of pages and the number of pages
    from the free pointer to the end, which does not change when a page is put in front.
    The cache of run arrays ([cached_slots]) is not modelled: an array of runs is fresh
    memory. *)
From S2P Require Import Prelude.

Definition GC_PAGE_SIZE : Z := Z.shiftl 1 16.
Definition SIZES_PADDING : Z := 8.
Definition GC_PARTITIONS : Z := 9.
Definition GC_FIXED_PARTS : Z := 5.
Definition GC_LARGE_PART : Z := GC_PARTITIONS - 1.
Definition GC_LARGE_BLOCK : Z := Z.shiftl 1 20.
Definition GC_SBITS : list Z := [0; 0; 0; 0; 0; 3; 6; 13; 0].
Definition GC_SIZES : list Z := [8; 16; 24; 32; 40; 8; 64; Z.shiftl 1 13; 0].
Definition GC_ALIGN_BITS : Z := 3.
Definition GC_ALIGN : Z := Z.shiftl 1 GC_ALIGN_BITS.

(** A run: [pos] and [count], unsigned. *)
Abbreviation gc_fl := (Z * Z)%type (only parsing).
Record gc_freelist := Fl { current : Z; count : Z; size_bits : Z; data : list gc_fl }.
Record gc_pheader := Page {
  base : Z; page_size : Z; bmp : option (list Z);
  block_size : Z; block_bits : Z; max_blocks : Z; first_block : Z;
  free : gc_freelist; sizes : option (list Z); need_flush : bool }.
(** The end of a run. *)
Definition run_end (r : gc_fl) : Z := u32 (r.1 + r.2).

Section allocator.
(** What [malloc] returns. *)
Context (junk : gc_fl).

Definition alloc_freelist (size : Z) : gc_freelist := Fl 0 0 size (replicate (Z.to_nat (Z.shiftl 1 size)) junk).
Definition freelist_grow (fl : gc_freelist) : option gc_freelist :=
  if count fl =? Z.shiftl 1 (size_bits fl) then
    let fl2 := alloc_freelist (size_bits fl + 1) in
    d ← acopy (data fl2) 0 (data fl) 0 (count fl);
    Some (Fl (current fl) (count fl) (size_bits fl + 1) d)
  else Some fl.
Definition freelist_append (fl : gc_freelist) (pos n : Z) : option gc_freelist :=
  fl ← freelist_grow fl;
  d ← aset (data fl) (count fl) (u32 pos, u32 n);
  Some (Fl (current fl) (count fl + 1) (size_bits fl) d).

(** ** Mark bits *)
Definition bmp_test (bmp : list Z) (bid : Z) : option bool :=
  b ← aget bmp (Z.shiftr bid 3); Some (negb (Z.land b (Z.shiftl 1 (Z.land bid 7)) =? 0)).
Definition bmp_set (bmp : list Z) (bid : Z) : option (list Z) :=
  b ← aget bmp (Z.shiftr bid 3); aset bmp (Z.shiftr bid 3) (u8 (Z.lor b (Z.shiftl 1 (Z.land bid 7)))).

(** ** A new page *)
(** [while( num_pages > 8 && (size<<1) / block <= GC_PAGE_SIZE )]: larger pages when there are many. *)
Definition grow_page (num_pages block size : Z) : option Z :=
  loop (fun '(n, size) =>
      if n >? 8 then
        twice ← int_of (Z.shiftl size 1);
        if Z.quot twice block <=? GC_PAGE_SIZE then Some (inl (Z.quot n 3, twice)) else Some (inr size)
      else Some (inr size)) (S (Z.to_nat num_pages)) (num_pages, size).
(** The exponent of a power of two, else 0. *)
Definition exact_log2 (block : Z) : option Z :=
  bits ← loop (fun b => if block >? u32 (Z.shiftl 1 b) then Some (inl (b + 1)) else Some (inr b)) 33 0;
  Some (if block =? u32 (Z.shiftl 1 bits) then bits else 0).
Definition freelist_bits (max_blocks : Z) : option Z :=
  loop (fun b => if (b <? 8) && (Z.shiftl 1 b <? Z.shiftr max_blocks 3) then Some (inl (b + 1)) else Some (inr b)) 8 1.
(** The size table: its end, when it is inside the page. *)
Definition sizes_end (varsize : bool) (max_blocks : Z) : Z :=
  if varsize then if max_blocks <=? SIZES_PADDING then 0 else max_blocks + Z.land (- max_blocks) 63 else 0.
Definition align_block (start_pos block : Z) : Z :=
  let m := Z.rem start_pos block in if negb (m =? 0) then start_pos + (block - m) else start_pos.
(** [gc_alloc_page] gives memory of the size asked for, at [new_base size], and, while the
    incremental collector is active, a clear bitmap; [num_pages] is the number of pages of the
    list. *)
Definition gc_allocator_new_page (num_pages : Z) (new_base : Z -> Z) (incremental : bool) (block size : Z) (varsize : bool) : outcome gc_pheader :=
  size ← ub (if block <? 256 then grow_page num_pages block size else Some size);
  let max_blocks := Z.quot size block in
  if max_blocks >? GC_PAGE_SIZE then Raise "Too many blocks for this page"%string else
  let bmp := if incremental then Some (replicate (Z.to_nat (Z.shiftr (max_blocks + 7) 3 * 2)) 0) else None in
  bits ← ub (exact_log2 block);
  let start_pos := align_block (sizes_end varsize max_blocks) block in
  let first := wrapN 16 (Z.quot start_pos block) in
  fl_bits ← ub (freelist_bits max_blocks);
  fl ← ub (freelist_append (alloc_freelist fl_bits) first (max_blocks - first));
  Done (Page (new_base size) size bmp block bits max_blocks first fl
    (if varsize then Some (replicate (Z.to_nat max_blocks) 0) else None) false).

(** ** Rebuilding the runs from the marks *)
(** [cur_pos && cur_pos->pos + cur_pos->count == bid]; [cur_pos] is the index of a run. *)
Definition ends_at (fl : gc_freelist) (cur_pos : option Z) (bid : Z) : option bool :=
  match cur_pos with None => Some false | Some i => r ← aget (data fl) i; Some (run_end r =? bid) end.
(** The blocks from [bid] on go to the last run, or to a new one. *)
Definition add_run (fl : gc_freelist) (cur_pos : option Z) (bid pos n : Z) : option (gc_freelist * option Z) :=
  join ← ends_at fl cur_pos bid;
  if (join : bool) then
    i ← cur_pos; r ← aget (data fl) i; d ← aset (data fl) i (r.1, u32 (r.2 + n));
    Some (Fl (current fl) (count fl) (size_bits fl) d, cur_pos)
  else
    fl ← freelist_append fl pos n; Some (fl, Some (count fl - 1)).
(** [reuse_index < old_fl.count ? GET_FL(&old_fl,reuse_index++) : NULL] *)
Definition next_reuse (old : gc_freelist) (i : Z) : option (option gc_fl * Z) :=
  if i <? count old then r ← aget (data old) i; Some (Some r, i + 1) else Some (None, i).
Definition flush_step (last : Z) (old : gc_freelist) (bmp : list Z)
    (st : Z * gc_freelist * option Z * option gc_fl * Z * option (list Z)) :
    option ((Z * gc_freelist * option Z * option gc_fl * Z * option (list Z)) + (gc_freelist * option (list Z))) :=
  let '(bid, fl, cur_pos, reuse, reuse_index, sz) := st in
  if bid <? last then
    let next_bid := match reuse with Some r => r.1 | None => -1 end in
    if bid =? next_bid then
      r ← reuse;
      '(fl, cur_pos) ← add_run fl cur_pos bid r.1 r.2;
      '(reuse, reuse_index) ← next_reuse old reuse_index;
      i ← cur_pos; c ← aget (data fl) i;
      Some (inl (run_end c, fl, cur_pos, reuse, reuse_index, sz))
    else
      n ← (match sz with Some s => n ← aget s bid; Some (if n =? 0 then 1 else n) | None => Some 1 end);
      marked ← bmp_test bmp bid;
      if (marked : bool) then Some (inl (bid + n, fl, cur_pos, reuse, reuse_index, sz))
      else
        sz ← (match sz with Some s => s ← aset s bid 0; Some (Some s) | None => Some None end);
        '(fl, cur_pos) ← add_run fl cur_pos bid bid n;
        Some (inl (bid + n, fl, cur_pos, reuse, reuse_index, sz))
  else Some (inr (fl, sz)).
Definition flush_free_list (ph : gc_pheader) : option gc_pheader :=
  let old := free ph in
  b ← bmp ph;
  '(reuse, reuse_index) ← next_reuse old (current old);
  r ← loop (flush_step (max_blocks ph) old b) (S (Z.to_nat (max_blocks ph - first_block ph) + Z.to_nat (count old)))
        (first_block ph, alloc_freelist (size_bits old), None, reuse, reuse_index, sizes ph);
  let '(fl, sz) := r in
  Some (Page (base ph) (page_size ph) (bmp ph) (block_size ph) (block_bits ph) (max_blocks ph) (first_block ph) fl sz false).
Definition flush_if_needed (ph : gc_pheader) : option gc_pheader := if need_flush ph then flush_free_list ph else Some ph.

(** ** Allocating in a page *)
Definition set_free (ph : gc_pheader) (fl : gc_freelist) : gc_pheader :=
  Page (base ph) (page_size ph) (bmp ph) (block_size ph) (block_bits ph) (max_blocks ph) (first_block ph) fl (sizes ph) (need_flush ph).
(** [c->pos += n; c->count -= n] on run [k]; [next] is whether [current] moves when the run is used up. *)
Definition take_from (fl : gc_freelist) (k n : Z) : option gc_freelist :=
  c ← aget (data fl) k;
  d ← aset (data fl) k (u32 (c.1 + n), u32 (c.2 - n));
  Some (Fl (if u32 (c.2 - n) =? 0 then current fl + 1 else current fl) (count fl) (size_bits fl) d).
(** The same on the first run of a new page, where [current] stays. *)
Definition take_first (fl : gc_freelist) (n : Z) : option gc_freelist :=
  c ← aget (data fl) 0; d ← aset (data fl) 0 (u32 (c.1 + n), u32 (c.2 - n)); Some (Fl (current fl) (count fl) (size_bits fl) d).
(** The loop over the pages of [gc_alloc_fixed_run]: the page used, as a number of pages from it to
    the end, the block and how many were taken. *)
Fixpoint scan_fixed (pages : list gc_pheader) (want : Z) : option (list gc_pheader * option (Z * gc_pheader * Z * Z)) :=
  match pages with
  | [] => Some ([], None)
  | ph :: rest =>
      ph ← flush_if_needed ph;
      let fl := free ph in
      if current fl <? count fl then
        c ← aget (data fl) (current fl);
        let taken := if c.2 <? want then c.2 else want in
        fl ← take_from fl (current fl) taken;
        Some (set_free ph fl :: rest, Some (alen rest + 1, set_free ph fl, c.1, taken))
      else '(rest, r) ← scan_fixed rest want; Some (ph :: rest, r)
  end.
(** The lists of one page id. *)
Record page_list := Pages { pages : list gc_pheader; free_from : Z }.
(** The pages from the free pointer on, and those before it. *)
Definition before_free (l : page_list) : list gc_pheader := take (Z.to_nat (alen (pages l) - free_from l)) (pages l).
Definition from_free (l : page_list) : list gc_pheader := drop (Z.to_nat (alen (pages l) - free_from l)) (pages l).
Definition gc_alloc_fixed_run (l : page_list) (new_base : Z -> Z) (incremental : bool) (part want : Z) : outcome (Z * Z * page_list) :=
  '(rest, r) ← ub (scan_fixed (from_free l) want);
  '(ph, bid, taken, l) ←
    (match (r : option (Z * gc_pheader * Z * Z)) with
     | Some (at_, ph, bid, taken) => Done (ph, bid, taken, Pages (before_free l ++ rest) at_)
     | None =>
         block ← ub (aget GC_SIZES part);
         let old := before_free l ++ rest in
         ph ← gc_allocator_new_page (alen old) new_base incremental block GC_PAGE_SIZE false;
         c ← ub (aget (data (free ph)) 0);
         let taken := if c.2 <? want then c.2 else want in
         fl ← ub (take_first (free ph) taken);
         Done (set_free ph fl, c.1, taken, Pages (set_free ph fl :: old) (alen old + 1))
     end);
  if (taken <=? 0) || (taken >? want) then Raise "GC took an empty or oversized run from a free list"%string
  else Done (base ph + bid * block_size ph, taken, l).
Definition gc_alloc_fixed (l : page_list) (new_base : Z -> Z) (incremental : bool) (part : Z) : outcome (Z * page_list) :=
  '(ptr, _, l) ← gc_alloc_fixed_run l new_base incremental part 1; Done (ptr, l).

(** The loop over the runs of a page of [gc_alloc_var]: the first one with [nblocks] blocks. *)
Definition find_run (fl : gc_freelist) (nblocks : Z) : option (option Z) :=
  loop (fun k => if k <? count fl then c ← aget (data fl) k; if c.2 >=? nblocks then Some (inr (Some k)) else Some (inl (k + 1)) else Some (inr None))
    (S (Z.to_nat (count fl))) (current fl).
(** From [alloc_var:] on: the mark bit and the size table. *)
Definition finish_var (ph : gc_pheader) (bid nblocks : Z) : option gc_pheader :=
  b ← (match bmp ph with Some b => b ← bmp_set b bid; Some (Some b) | None => Some None end);
  s ← sizes ph;
  s ← (if nblocks >? 1 then acopy s bid (replicate (Z.to_nat nblocks) 0) 0 nblocks else Some s);
  s ← aset s bid (u8 nblocks);
  Some (Page (base ph) (page_size ph) b (block_size ph) (block_bits ph) (max_blocks ph) (first_block ph) (free ph) (Some s) (need_flush ph)).
Fixpoint scan_var (pages : list gc_pheader) (nblocks : Z) : option (list gc_pheader * option (Z * gc_pheader * Z)) :=
  match pages with
  | [] => Some ([], None)
  | ph :: rest =>
      ph ← flush_if_needed ph;
      k ← find_run (free ph) nblocks;
      match (k : option Z) with
      | Some k =>
          c ← aget (data (free ph)) k; fl ← take_from (free ph) k nblocks;
          ph ← finish_var (set_free ph fl) c.1 nblocks;
          Some (ph :: rest, Some (alen rest + 1, ph, c.1))
      | None => '(rest, r) ← scan_var rest nblocks; Some (ph :: rest, r)
      end
  end.
(** [while( psize < size + 1024 ) psize <<= 1] *)
Definition page_size_for (size : Z) : option Z :=
  need ← int_of (size + 1024);
  loop (fun psize => if psize <? need then psize ← int_of (Z.shiftl psize 1); Some (inl psize) else Some (inr psize)) 32 GC_PAGE_SIZE.
Definition gc_alloc_var (l : page_list) (new_base : Z -> Z) (incremental : bool) (part size : Z) : outcome (Z * page_list) :=
  sbits ← ub (aget GC_SBITS part);
  let nblocks := u32 (Z.shiftr size sbits) in
  '(rest, r) ← ub (scan_var (from_free l) nblocks);
  match (r : option (Z * gc_pheader * Z)) with
  | Some (at_, ph, bid) => Done (base ph + bid * block_size ph, Pages (before_free l ++ rest) at_)
  | None =>
      psize ← ub (page_size_for size); block ← ub (aget GC_SIZES part);
      let old := before_free l ++ rest in
      ph ← gc_allocator_new_page (alen old) new_base incremental block psize true;
      let bid := first_block ph in
      fl ← ub (take_first (free ph) nblocks);
      ph ← ub (finish_var (set_free ph fl) bid nblocks);
      Done (base ph + bid * block_size ph, Pages (ph :: old) (alen old + 1))
  end.
Definition gc_alloc_large (l : page_list) (new_base : Z -> Z) (incremental : bool) (sz : Z) : outcome (Z * page_list) :=
  ph ← gc_allocator_new_page (alen (pages l)) new_base incremental sz sz false;
  Done (base ph, Pages (ph :: pages l) (free_from l)).

(** ** The page lists
    [gc_pages] and [gc_free_pages] by page id. *)
Definition PAGE_KIND_BITS : Z := 2.
Definition MEM_KIND_FINALIZER : Z := 3.
Definition GC_PAGE_CLASSES : Z := 18.
Definition GC_ALL_PAGES : Z := Z.shiftl GC_PARTITIONS PAGE_KIND_BITS.
Definition GC_PAGE_SLOTS : Z := GC_PAGE_CLASSES * GC_ALL_PAGES.
Definition GC_PID (oc part kind : Z) : Z := oc * GC_ALL_PAGES + Z.lor (Z.shiftl part PAGE_KIND_BITS) kind.
Definition GC_PID_PART (pid : Z) : Z := Z.shiftr (Z.rem pid GC_ALL_PAGES) PAGE_KIND_BITS.
Definition heap := Z -> page_list.
Definition empty_heap : heap := fun _ => Pages [] 0.
Definition set_pid (h : heap) (pid : Z) (l : page_list) : heap := fun i => if i =? pid then l else h i.

(** ** Size classes *)
(** What [gc_allocator_alloc] decides: the partition, whether its pages have a size table, and the size
    given to the object. *)
Inductive size_class := Large (size : Z) | Fixed (part size : Z) | Var (part size : Z) | NoClass.
Definition var_class (sz : Z) : option size_class :=
  loop (fun p =>
      if p <? GC_PARTITIONS then
        block ← aget GC_SIZES p;
        let query := sz + Z.land (- sz) (block - 1) in
        if query <? block * 255 then Some (inr (Var p query)) else Some (inl (p + 1))
      else Some (inr NoClass)) 5 GC_FIXED_PARTS.
Definition class_of (size : Z) (finalizer : bool) : option size_class :=
  sz ← int_of (size + Z.land (- size) (GC_ALIGN - 1));
  if sz >=? GC_LARGE_BLOCK then sz ← int_of (sz + Z.land (- sz) (GC_PAGE_SIZE - 1)); Some (Large sz)
  else
    small ← aget GC_SIZES (GC_FIXED_PARTS - 1);
    if (sz <=? small) && negb finalizer then
      let part := Z.shiftr sz GC_ALIGN_BITS - 1 in s ← aget GC_SIZES part; Some (Fixed part s)
    else var_class sz.

(** The memory and the size given; nothing when there is no class for the size. *)
Definition gc_allocator_alloc (h : heap) (new_base : Z -> Z) (incremental : bool) (size page_kind oc : Z) : outcome (option (Z * Z) * heap) :=
  c ← ub (class_of size (page_kind =? MEM_KIND_FINALIZER));
  match (c : size_class) with
  | Large sz =>
      let pid := GC_PID oc GC_LARGE_PART page_kind in
      '(ptr, l) ← gc_alloc_large (h pid) new_base incremental sz; Done (Some (ptr, sz), set_pid h pid l)
  | Fixed part sz =>
      let pid := GC_PID oc part page_kind in
      '(ptr, l) ← gc_alloc_fixed (h pid) new_base incremental part; Done (Some (ptr, sz), set_pid h pid l)
  | Var part sz =>
      let pid := GC_PID oc part page_kind in
      '(ptr, l) ← gc_alloc_var (h pid) new_base incremental part sz; Done (Some (ptr, sz), set_pid h pid l)
  | NoClass => Done (None, h)
  end.

(** ** Allocation buffers ([gc.c])
    A thread's buffer of one page id: blocks of a run that are taken but not handed out yet. *)
Definition GC_TLAB_RUN : Z := 2048.
Record gc_tlab_slot := Slot { slot_cur : Z; slot_end : Z }.
Definition tlab_refill (h : heap) (new_base : Z -> Z) (pid part block : Z) (slot : gc_tlab_slot) : outcome (gc_tlab_slot * heap) :=
  if slot_cur slot >=? slot_end slot then
    if negb (slot_cur slot =? slot_end slot) then Raise "GC allocation buffer overran its run"%string else
    '(run, got, l) ← gc_alloc_fixed_run (h pid) new_base false part (Z.quot GC_TLAB_RUN block);
    Done (Slot run (run + got * block), set_pid h pid l)
  else Done (slot, h).
Definition tlab_part (size : Z) : Z := Z.shiftr (size + Z.land (- size) (GC_ALIGN - 1)) GC_ALIGN_BITS - 1.
Definition gc_tlab_alloc (h : heap) (new_base : Z -> Z) (slot : gc_tlab_slot) (size kind oc : Z) : outcome (Z * gc_tlab_slot * heap) :=
  let part := tlab_part size in
  block ← ub (aget GC_SIZES part);
  '(slot, h) ← tlab_refill h new_base (GC_PID oc part kind) part block slot;
  Done (slot_cur slot, Slot (slot_cur slot + block) (slot_end slot), h).

(** ** Pointers to blocks *)
Definition gc_allocator_get_block_id (ph : gc_pheader) (block : Z) : option Z :=
  let offset := i32 (block - base ph) in
  let bid := if negb (block_bits ph =? 0) then Z.shiftr offset (block_bits ph) else Z.quot offset (block_size ph) in
  let back := if negb (block_bits ph =? 0) then Z.shiftl bid (block_bits ph) else bid * block_size ph in
  if negb (back =? offset) then Some (-1)
  else if bid >=? max_blocks ph then Some (-1)
  else match sizes ph with
       | None => Some bid
       | Some s => if bid <? first_block ph then Some (-1) else n ← aget s bid; if n =? 0 then Some (-1) else Some bid
       end.
(** The block around an address, and its address. *)
Definition gc_allocator_get_block_interior (ph : gc_pheader) (block : Z) : option (Z * Z) :=
  let offset := i32 (block - base ph) in
  let bid := Z.quot offset (block_size ph) in
  if bid >=? max_blocks ph then Some (-1, block)
  else match sizes ph with
       | None => Some (bid, base ph + bid * block_size ph)
       | Some s =>
           if bid <? first_block ph then Some (-1, block) else
           found ← loop (fun b => n ← aget s b; if n =? 0 then if b =? first_block ph then Some (inr None) else Some (inl (b - 1)) else Some (inr (Some (b, n))))
                     (S (Z.to_nat bid)) bid;
           match (found : option (Z * Z)) with
           | None => Some (-1, block)
           | Some (b, n) => if bid - b >=? n then Some (-1, block) else Some (b, base ph + b * block_size ph)
           end
       end.
Definition gc_allocator_fast_block_size (ph : gc_pheader) (block : Z) : option Z :=
  match sizes ph with
  | Some s => n ← aget s (Z.quot (i32 (block - base ph)) (block_size ph)); Some (n * block_size ph)
  | None => Some (block_size ph)
  end.

(** ** Around marking *)
(** One list; each page gets its part of the mark area. *)
Fixpoint before_mark (pages : list gc_pheader) (bits : list (list Z)) : option (list gc_pheader) :=
  match pages, bits with
  | ph :: pages, b :: bits =>
      rest ← before_mark pages bits;
      Some (Page (base ph) (page_size ph) (Some b) (block_size ph) (block_bits ph) (max_blocks ph) (first_block ph) (free ph) (sizes ph) true :: rest)
  | [], _ => Some []
  | _, [] => None
  end.
Definition before_mark_list (l : page_list) (bits : list (list Z)) : option page_list :=
  ps ← before_mark (pages l) bits; Some (Pages ps (alen ps)).
(** All the lists: [bits pid] has the mark bits of the pages of [pid], as marking leaves them. *)
Definition gc_allocator_before_mark (h : heap) (bits : Z -> list (list Z)) : option heap :=
  afor (fun pid h => l ← before_mark_list (h pid) (bits pid); Some (set_pid h pid l)) (Z.to_nat GC_PAGE_SLOTS) 0 h.
(** The finalizers called, in order: those of the blocks that are not marked and have one. *)
Definition finalize_block (finalizer : Z -> Z) (b : list Z) (base block_size : Z) (bid : Z) (st : list Z * list Z) : option (list Z * list Z) :=
  let '(called, s) := st in
  n ← aget s bid;
  if n =? 0 then Some (called, s) else
  marked ← bmp_test b bid;
  if (marked : bool) then Some (called, s) else
  let ptr := base + bid * block_size in
  s ← aset s bid 0;
  Some (if negb (finalizer ptr =? 0) then called ++ [ptr] else called, s).
Definition page_finalizers (finalizer : Z -> Z) (ph : gc_pheader) : option (list Z * gc_pheader) :=
  s ← sizes ph; b ← bmp ph;
  '(called, s) ← afor (finalize_block finalizer b (base ph) (block_size ph)) (Z.to_nat (max_blocks ph - first_block ph)) (first_block ph) ([], s);
  Some (called, Page (base ph) (page_size ph) (bmp ph) (block_size ph) (block_bits ph) (max_blocks ph) (first_block ph) (free ph) (Some s) (need_flush ph)).
Fixpoint list_finalizers (finalizer : Z -> Z) (ps : list gc_pheader) : option (list Z * list gc_pheader) :=
  match ps with
  | [] => Some ([], [])
  | ph :: ps => '(c1, ph) ← page_finalizers finalizer ph; '(c2, ps) ← list_finalizers finalizer ps; Some (c1 ++ c2, ph :: ps)
  end.
(** The lists of objects with a finalizer: [for(i=MEM_KIND_FINALIZER;i<GC_PAGE_SLOTS;i+=1<<PAGE_KIND_BITS)]. *)
Definition gc_call_finalizers (finalizer : Z -> Z) (h : heap) : option (list Z * heap) :=
  afor (fun k '(called, h) =>
      let pid := MEM_KIND_FINALIZER + k * Z.shiftl 1 PAGE_KIND_BITS in
      '(c, ps) ← list_finalizers finalizer (pages (h pid)); Some (called ++ c, set_pid h pid (Pages ps (free_from (h pid)))))
    (Z.to_nat (Z.shiftr GC_PAGE_SLOTS PAGE_KIND_BITS)) 0 ([], h).
Definition gc_free_memory (ph : gc_pheader) : option (Z * gc_pheader) :=
  ph ← flush_if_needed ph;
  let fl := free ph in
  n ← afor (fun k n => c ← aget (data fl) k; Some (n + c.2 * block_size ph)) (Z.to_nat (count fl - current fl)) (current fl) 0;
  Some (n, ph).
End allocator.

(** ** Counting marked blocks *)
Definition gc_popcount8 (x : Z) : Z :=
  let x := u32 (x - Z.land (Z.shiftr x 1) 0x55) in
  let x := u32 (Z.land x 0x33 + Z.land (Z.shiftr x 2) 0x33) in
  Z.land (u32 (x + Z.shiftr x 4)) 0x0F.
(** One page of [gc_allocator_class_live_blocks]. *)
Definition page_live_blocks (ph : gc_pheader) : option Z :=
  match bmp ph with
  | None => Some 0
  | Some b =>
      let first := first_block ph in
      let last := Z.shiftr (max_blocks ph + 7) 3 in
      let lo := Z.shiftr first 3 in
      afor (fun byte n =>
          bits ← aget b byte;
          let bits := if byte =? lo then Z.land bits (u32 (Z.shiftl 0xFF (Z.land first 7))) else bits in
          let bits := if (byte =? last - 1) && negb (Z.land (max_blocks ph) 7 =? 0) then Z.land bits (u32 (Z.shiftl 1 (Z.land (max_blocks ph) 7)) - 1) else bits in
          Some (n + gc_popcount8 bits)) (Z.to_nat (last - lo)) lo 0
  end.
Definition list_live_blocks (l : list gc_pheader) : option Z :=
  foldr (fun ph n => n ← n; k ← page_live_blocks ph; Some (k + n)) (Some 0) l.
Definition gc_allocator_class_live_blocks (h : heap) (oc : Z) : option Z :=
  afor (fun pid n => k ← list_live_blocks (pages (h pid)); Some (n + k)) (Z.to_nat GC_ALL_PAGES) (oc * GC_ALL_PAGES) 0.
(** [gc_page_is_empty] *)
Definition gc_page_is_empty (ph : gc_pheader) : option bool :=
  match bmp ph with
  | None => Some false
  | Some b =>
      let lo := Z.shiftr (first_block ph) 3 in
      s ← aslice b lo (Z.shiftr (max_blocks ph + 7) 3 - lo); Some (forallb (fun x => x =? 0) s)
  end.

(** ** Giving empty pages back *)
(** The pages of one page id, in [gc_empty_sweep_slice] without a deadline: what is left, the free
    pointer and the bytes of empty pages kept. *)
Fixpoint sweep_pages (deferred : bool) (part budget : Z) (l : list gc_pheader) (from retained : Z) : option (list gc_pheader * Z * Z) :=
  match l with
  | [] => Some ([], from, retained)
  | ph :: rest =>
      empty ← (if negb deferred || need_flush ph then gc_page_is_empty ph else Some false);
      if (empty : bool) then
        if negb (part =? GC_LARGE_PART) && (page_size ph <=? budget - retained) then
          '(rest, from, retained) ← sweep_pages deferred part budget rest from (retained + page_size ph);
          Some (ph :: rest, from, retained)
        else sweep_pages deferred part budget rest (if alen (ph :: rest) <=? from then from - 1 else from) retained
      else
        '(rest, from, retained) ← sweep_pages deferred part budget rest from retained;
        Some (ph :: rest, from, retained)
  end.
Definition sweep_pid (deferred : bool) (budget : Z) (pid : Z) (st : heap * Z) : option (heap * Z) :=
  let '(h, retained) := st in
  '(ps, from, retained) ← sweep_pages deferred (GC_PID_PART pid) budget (pages (h pid)) (free_from (h pid)) retained;
  Some (set_pid h pid (Pages ps from), retained).
(** The sweep at the end of a collection of the stopped world. *)
Definition gc_flush_empty_pages (h : heap) (budget : Z) : option heap :=
  '(h, _) ← afor (sweep_pid false budget) (Z.to_nat GC_PAGE_SLOTS) 0 (h, 0); Some h.
(** The budget of [gc_empty_sweep_begin]: [recent] has the bytes allocated in the last four
    collections, of which this is number [collection]. *)
Definition empty_budget (keep : bool) (cap : Z) (recent : list Z) (collection demand : Z) : option (Z * list Z) :=
  if keep then
    recent ← aset recent (Z.land collection 3) demand;
    top ← afor (fun i top => r ← aget recent i; Some (if r >? top then r else top)) 4 0 0;
    Some (if top >? cap then cap else top, recent)
  else Some (0, recent).
Definition gc_allocator_release_class (h : heap) (oc : Z) : heap :=
  fun pid => if (oc * GC_ALL_PAGES <=? pid) && (pid <? (oc + 1) * GC_ALL_PAGES) then Pages [] 0 else h pid.
