(* ===== verification/AllocatorPage.v ===== *)
(** * One page of the allocator: what is in it, and rebuilding its runs

    The blocks of a page, from [first_block] to [max_blocks], are a sequence of items:
    objects, free runs, and lost blocks, which are free but in no run ([gc_alloc_var] moves
    [current] past a run that still has blocks when it uses up a later one; the next
    rebuild finds them again).  [page_ok] says that the arrays of the page describe such a
    sequence. *)
From S2P Require Import Prelude Allocator.

Inductive item := Obj (pos n : Z) | Run (pos n : Z) | Lost (pos : Z).
Definition item_pos (i : item) : Z := match i with Obj p _ | Run p _ | Lost p => p end.
Definition item_len (i : item) : Z := match i with Obj _ n | Run _ n => n | Lost _ => 1 end.
Definition item_ok (i : item) : Prop := match i with Obj _ n => 0 < n | Run _ n => 0 <= n | Lost _ => True end.
(** The items follow each other from [b] to [e]. *)
Fixpoint covers (b : Z) (l : list item) (e : Z) : Prop :=
  match l with [] => b = e | i :: l => item_pos i = b /\ item_ok i /\ covers (b + item_len i) l e end.
Definition run_of (i : item) : option gc_fl := match i with Run p n => Some (p, n) | _ => None end.
Definition obj_of (i : item) : option (Z * Z) := match i with Obj p n => Some (p, n) | _ => None end.
Definition runs (l : list item) : list gc_fl := omap run_of l.
Definition objs (l : list item) : list (Z * Z) := omap obj_of l.
(** What the size table says of an item; without a table, objects are single blocks. *)
Definition size_ok (s : option (list Z)) (i : item) : Prop :=
  match s with
  | Some s =>
      match i with
      | Obj p n => n <= 255 /\ aget s p = Some n /\ forall j, p < j < p + n -> aget s j = Some 0
      | Run p n => forall j, p <= j < p + n -> aget s j = Some 0
      | Lost p => aget s p = Some 0
      end
  | None => match i with Obj _ n => n = 1 | Run _ n => 0 < n | Lost _ => False end
  end.
(** An array of runs: the first [count] are in use. *)
Definition fl_wf (fl : gc_freelist) : Prop :=
  0 <= size_bits fl <= 17 /\ 0 <= current fl <= count fl /\ count fl <= Z.shiftl 1 (size_bits fl) /\ alen (data fl) = Z.shiftl 1 (size_bits fl).
Definition fl_all (fl : gc_freelist) : list gc_fl := take (Z.to_nat (count fl)) (data fl).
Definition fl_runs (fl : gc_freelist) : list gc_fl := drop (Z.to_nat (current fl)) (fl_all fl).
Record page_ok (ph : gc_pheader) (l : list item) : Prop := PageOk {
  pg_range : 0 <= first_block ph < max_blocks ph /\ max_blocks ph <= GC_PAGE_SIZE;
  pg_covers : covers (first_block ph) l (max_blocks ph);
  pg_fl : fl_wf (free ph) /\ fl_runs (free ph) = runs l;
  pg_sizes : Forall (size_ok (sizes ph)) l /\ (forall s, sizes ph = Some s -> alen s = max_blocks ph);
  pg_bmp : (forall b, bmp ph = Some b -> Z.shiftr (max_blocks ph + 7) 3 <= alen b /\ Forall (fun x => 0 <= x < 256) b) /\ (need_flush ph = true -> bmp ph <> None) }.

(** ** Sequences of items *)
Lemma covers_app b l1 l2 e : covers b (l1 ++ l2) e <-> exists m, covers b l1 m /\ covers m l2 e.
Proof. revert b. induction l1 as [|i l1 IH]; intros b; cbn [app covers]; [naive_solver|]. rewrite IH. naive_solver. Qed.
Lemma covers_snoc b l i e : covers b (l ++ [i]) e <-> covers b l (item_pos i) /\ item_ok i /\ e = item_pos i + item_len i.
Proof. rewrite covers_app. cbn [covers]. naive_solver lia. Qed.
Lemma item_len_nonneg i : item_ok i -> 0 <= item_len i.
Proof. destruct i; simpl; lia. Qed.
Lemma covers_le b l e : covers b l e -> b <= e.
Proof. revert b. induction l as [|i l IH]; intros b; cbn [covers]; [lia|]. intros (_ & Hi & Hl). pose proof (item_len_nonneg i Hi). specialize (IH _ Hl). lia. Qed.
Lemma covers_in b l e i : covers b l e -> i ∈ l -> b <= item_pos i /\ item_pos i + item_len i <= e /\ item_ok i.
Proof.
  revert b. induction l as [|j l IH]; intros b Hc Hi; [by apply not_elem_of_nil in Hi|]. destruct Hc as (Hp & Hj & Hl). pose proof (item_len_nonneg j Hj). pose proof (covers_le _ _ _ Hl).
  apply elem_of_cons in Hi as [->|Hi]; [split; [lia|]; split; [lia|done]|]. destruct (IH _ Hl Hi) as (? & ? & ?). split; [lia|]. split; [lia|done].
Qed.
Lemma runs_app l1 l2 : runs (l1 ++ l2) = runs l1 ++ runs l2.
Proof. unfold runs. apply omap_app. Qed.
Lemma objs_app l1 l2 : objs (l1 ++ l2) = objs l1 ++ objs l2.
Proof. unfold objs. apply omap_app. Qed.
Lemma objs_in l p n : (p, n) ∈ objs l <-> Obj p n ∈ l.
Proof. unfold objs. rewrite list_elem_of_omap. split; [intros (i & Hi & Ho); destruct i; simplify_eq/=; done|intros Hi; by exists (Obj p n)]. Qed.
Lemma runs_in l p n : (p, n) ∈ runs l <-> Run p n ∈ l.
Proof. unfold runs. rewrite list_elem_of_omap. split; [intros (i & Hi & Ho); destruct i; simplify_eq/=; done|intros Hi; by exists (Run p n)]. Qed.

(** ** Arrays of runs *)
Section arrays_of_runs.
Context (junk : gc_fl).
Lemma shiftl_pow2 k : 0 <= k -> Z.shiftl 1 k = 2 ^ k.
Proof. intros. rewrite Z.shiftl_mul_pow2 by done. lia. Qed.
Lemma alloc_freelist_spec k : 0 <= k <= 17 -> fl_wf (alloc_freelist junk k) /\ fl_all (alloc_freelist junk k) = [] /\ current (alloc_freelist junk k) = 0.
Proof.
  intros Hk. pose proof (Z.pow_pos_nonneg 2 k). unfold fl_wf, fl_all, alloc_freelist. cbn [size_bits current count data]. rewrite alen_replicate, shiftl_pow2 by lia.
  repeat split; try lia.
Qed.
Lemma fl_all_eq fl : fl_wf fl -> data fl = fl_all fl ++ drop (Z.to_nat (count fl)) (data fl) /\ alen (fl_all fl) = count fl.
Proof. intros (Hs & Hc & Hle & Hl). unfold fl_all. split; [by rewrite take_drop|]. unfold alen in *. rewrite length_take. lia. Qed.
Lemma u32_small z : 0 <= z < 2 ^ 32 -> u32 z = z.
Proof. apply uN_small. Qed.
Lemma freelist_grow_spec fl : fl_wf fl -> (count fl = Z.shiftl 1 (size_bits fl) -> size_bits fl < 17) ->
  exists fl1, freelist_grow junk fl = Some fl1 /\ fl_wf fl1 /\ fl_all fl1 = fl_all fl /\ current fl1 = current fl /\ count fl1 = count fl /\ count fl1 < Z.shiftl 1 (size_bits fl1).
Proof.
  intros Hwf Hroom. pose proof Hwf as (Hs & Hc & Hle & Hl). unfold freelist_grow.
  destruct (Z.eqb_spec (count fl) (Z.shiftl 1 (size_bits fl))) as [E|E]; [|exists fl; repeat split; try done; lia].
  cbv zeta. cbn [alloc_freelist data]. specialize (Hroom E). rewrite !shiftl_pow2 in * by lia. pose proof (Z.pow_succ_r 2 (size_bits fl) ltac:(lia)) as Hpow. unfold Z.succ in Hpow. pose proof (Z.pow_pos_nonneg 2 (size_bits fl)).
  unfold acopy. rewrite decide_True by (rewrite alen_replicate; lia). cbn [mbind option_bind]. eexists. split; [done|]. unfold fl_wf, fl_all. cbn [size_bits current count data].
  change (Z.to_nat 0) with 0%nat. rewrite take_0, drop_0, Z.add_0_l. cbn [app]. rewrite shiftl_pow2 by lia. split; [|split; [rewrite take_app_le by (rewrite length_take; unfold alen in *; lia); by rewrite take_take, Nat.min_id|split; [done|split; [done|lia]]]].
  repeat split; try lia. unfold alen in *. rewrite length_app, length_take, length_drop, length_replicate. lia.
Qed.
Lemma freelist_append_spec fl pos n : fl_wf fl -> 0 <= pos < 2 ^ 32 -> 0 <= n < 2 ^ 32 -> (count fl = Z.shiftl 1 (size_bits fl) -> size_bits fl < 17) ->
  exists fl', freelist_append junk fl pos n = Some fl' /\ fl_wf fl' /\ fl_all fl' = fl_all fl ++ [(pos, n)] /\ current fl' = current fl /\ count fl' = count fl + 1.
Proof.
  intros Hwf Hpos Hn Hroom. pose proof Hwf as (Hs & Hc & Hle & Hl). unfold freelist_append.
  destruct (freelist_grow_spec fl Hwf Hroom) as (fl1 & -> & Hwf1 & Hall & Hcur & Hcount & Hroom1).
  cbn [mbind option_bind]. destruct (fl_all_eq fl1 Hwf1) as [Hd Hal]. pose proof Hwf1 as (Hs1 & Hc1 & Hle1 & Hl1).
  destruct (drop (Z.to_nat (count fl1)) (data fl1)) as [|x rest] eqn:Ed.
  { exfalso. rewrite Hd, app_nil_r in Hl1. lia. }
  rewrite Hd, aset_mid by done. cbn [mbind option_bind]. rewrite !u32_small by done. eexists. split; [done|]. unfold fl_wf, fl_all. cbn [size_bits current count data].
  split; [|split; [|split; [done|lia]]].
  - rewrite Hd in Hl1. repeat split; try lia. fold (fl_all fl1). alens.
  - fold (fl_all fl1) (fl_all fl). rewrite <- Hall. replace (fl_all fl1 ++ (pos, n) :: rest) with ((fl_all fl1 ++ [(pos, n)]) ++ rest) by by rewrite <- app_assoc.
    apply take_app_length'. rewrite length_app. cbn [length]. unfold alen in Hal. lia.
Qed.
End arrays_of_runs.

(** ** Rebuilding the runs *)
Definition found (i : item) : Prop := match i with Lost _ => False | _ => True end.
(** The rebuilt prefix [done] of a page, up to block [bid]. *)
Record rebuilt (first bid : Z) (done : list item) (fl : gc_freelist) (cur : option Z) (s : option (list Z)) : Prop := Rebuilt {
  rb_covers : covers first done bid;
  rb_fl : fl_wf fl /\ current fl = 0 /\ fl_all fl = runs done;
  rb_cur : cur = match runs done with [] => None | _ => Some (count fl - 1) end;
  rb_sizes : Forall (size_ok s) done;
  rb_found : Forall found done;
  rb_count : match last (runs done) with Some r => count fl <= r.1 - first + 1 | None => True end }.

Section rebuild.
Context (junk : gc_fl) (first last_ : Z).
Hypothesis Hrange : 0 <= first /\ last_ <= GC_PAGE_SIZE.
Lemma last_case (l : list item) : l = [] \/ (exists d q m, l = d ++ [Run q m]) \/ exists d i, l = d ++ [i] /\ run_of i = None.
Proof. destruct (last_snoc_case l) as [->|(d & i & ->)]; [by left|right]. destruct i as [p n|p n|p]; [right|left|right]; eauto. Qed.
(** The runs of a prefix end before its end when its last item is not one. *)
Lemma covers_run_before b d i e p n : covers b (d ++ [i]) e -> run_of i = None -> Run p n ∈ d -> p + n < e.
Proof.
  intros Hc Hi Hr. apply covers_snoc in Hc as (Hd & Hok & ->). destruct (covers_in _ _ _ _ Hd Hr) as (_ & Hle & _). cbn [item_pos item_len] in Hle.
  destruct i as [q m|q m|q]; cbn in *; [lia|done|lia].
Qed.
Lemma add_run_spec bid done fl cur s n : rebuilt first bid done fl cur s -> size_ok s (Run bid n) -> 0 <= n -> bid + n <= last_ ->
  exists fl' cur' done', add_run junk fl cur bid bid n = Some (fl', Some cur') /\ rebuilt first (bid + n) done' fl' (Some cur') s /\ objs done' = objs done /\
    exists r, aget (data fl') cur' = Some r /\ run_end r = bid + n.
Proof.
  intros R Hs Hn Hbid. destruct R as [Hc (Hwf & Hcur & Hall) Ecur Hsz Hfound Hcount]. destruct Hrange as [Hf Hl]. change GC_PAGE_SIZE with 65536 in Hl.
  pose proof (covers_le _ _ _ Hc) as Hfb. destruct (fl_all_eq fl Hwf) as [Hd Hal]. pose proof Hwf as (Hbits & Hcc & Hle & Hlen).
  assert (forall r, r ∈ runs done -> 0 <= r.1 /\ 0 <= r.2 /\ r.1 + r.2 <= bid) as Hruns.
  { intros [p m] Hr. apply runs_in in Hr. destruct (covers_in _ _ _ _ Hc Hr) as (H1 & H2 & H3). cbn in *. lia. }
  assert (forall r, r ∈ runs done -> run_end r = r.1 + r.2) as Hend.
  { intros r Hr. destruct (Hruns r Hr) as (? & ? & ?). apply u32_small. change (2 ^ 32) with 4294967296. lia. }
  (* appending a run *)
  assert (ends_at fl cur bid = Some false -> (forall r, last (runs done) = Some r -> r.1 < bid) -> exists fl' cur' done', add_run junk fl cur bid bid n = Some (fl', Some cur') /\ rebuilt first (bid + n) done' fl' (Some cur') s /\ objs done' = objs done /\
    exists r, aget (data fl') cur' = Some r /\ run_end r = bid + n) as Happend.
  { intros Hends Hlast. unfold add_run. rewrite Hends. cbn [mbind option_bind].
    assert (count fl <= bid - first) as Hcnt. { destruct (last (runs done)) as [r|] eqn:El; [specialize (Hlast r eq_refl); lia|]. apply last_None in El. rewrite El in Hall. rewrite Hall in Hal. rewrite alen_nil in Hal. lia. }
    destruct (freelist_append_spec junk fl bid n Hwf) as (fl' & -> & Hwf' & Hall' & Hcur' & Hcount'); [change (2 ^ 32) with 4294967296; lia|change (2 ^ 32) with 4294967296; lia| |].
    { intros E. rewrite E, shiftl_pow2 in Hcnt by lia. destruct (decide (size_bits fl < 17)); [done|]. replace (size_bits fl) with 17 in Hcnt by lia. change (2 ^ 17) with 131072 in Hcnt. lia. }
    cbn [mbind option_bind]. exists fl', (count fl' - 1), (done ++ [Run bid n]). split; [done|]. rewrite objs_app, app_nil_r. split; [|split; [done|]].
    - assert (runs (done ++ [Run bid n]) = runs done ++ [(bid, n)]) as Er by by rewrite runs_app. split; rewrite ?Er, ?last_snoc.
      + apply covers_snoc. done.
      + split; [done|]. split; [congruence|]. by rewrite Hall', Hall.
      + by destruct (runs done).
      + apply Forall_app. split; [done|]. by constructor.
      + apply Forall_app. split; [done|]. by constructor.
      + cbn. lia.
    - destruct (fl_all_eq fl' Hwf') as [Hd' Hal']. exists (bid, n). rewrite Hd', Hall', <- app_assoc. split; [apply aget_mid; rewrite Hal; lia|]. apply u32_small. cbn. change (2 ^ 32) with 4294967296. lia. }
  assert (forall d r, runs done = d ++ [r] -> cur = Some (count fl - 1) /\ data fl = (d ++ [r]) ++ drop (Z.to_nat (count fl)) (data fl) /\ alen d = count fl - 1 /\ ends_at fl cur bid = Some (run_end r =? bid)) as Hcurlast.
  { intros d r Er. rewrite Er in *. assert (cur = Some (count fl - 1)) as -> by (rewrite Ecur; by destruct d). rewrite <- Hall, <- Hd. assert (alen d = count fl - 1) as Hdl by (rewrite Hall in Hal; alens; change (alen [r]) with 1 in *; lia).
    split; [done|]. split; [done|]. split; [done|]. cbn [ends_at]. rewrite Hd, Hall, <- app_assoc. cbn [app]. by rewrite aget_mid. }
  destruct (last_case done) as [->|[(d & q & m & ->)|(d & i & -> & Hi)]].
  - apply Happend; [by rewrite Ecur|]. done.
  - (* the last item is a run: it grows *)
    clear Happend. destruct (Hcurlast (runs d) (q, m)) as (-> & Hdata & Hdl & Hends); [by rewrite runs_app|]. assert ((q, m) ∈ runs (d ++ [Run q m])) as Hin by (rewrite runs_app; set_solver).
    apply covers_snoc in Hc as (Hcd & Hm & Eb). cbn in Hm, Eb, Hcd. rewrite (Hend _ Hin) in Hends. cbn [fst snd] in Hends. rewrite <- Eb, Z.eqb_refl in Hends.
    unfold add_run. rewrite Hends. cbn [mbind option_bind]. rewrite <- app_assoc in Hdata. cbn [app] in Hdata. rewrite Hdata, aget_mid by done. cbn [mbind option_bind]. cbn [fst snd].
    rewrite aset_mid by done. cbn [mbind option_bind]. destruct (Hruns _ Hin) as (Hq0 & _ & _). cbn [fst] in Hq0. rewrite u32_small by (change (2 ^ 32) with 4294967296; lia).
    exists (Fl (current fl) (count fl) (size_bits fl) (runs d ++ (q, m + n) :: drop (Z.to_nat (count fl)) (data fl))), (count fl - 1), (d ++ [Run q (m + n)]). split; [done|].
    rewrite !objs_app. split; [|split; [done|]].
    + assert (runs (d ++ [Run q (m + n)]) = runs d ++ [(q, m + n)]) as Er by by rewrite runs_app. split; rewrite ?Er, ?last_snoc.
      * apply covers_snoc. cbn. split; [done|]. lia.
      * split; [|split; [done|]]; unfold fl_wf, fl_all; cbn [size_bits current count data].
        -- rewrite Hdata in Hlen. repeat split; try lia. clear -Hlen. alens.
        -- replace (runs d ++ (q, m + n) :: drop (Z.to_nat (count fl)) (data fl)) with ((runs d ++ [(q, m + n)]) ++ drop (Z.to_nat (count fl)) (data fl)) by by rewrite <- app_assoc.
           apply take_app_length'. rewrite length_app. cbn [length]. unfold alen in Hdl. lia.
      * by destruct (runs d).
      * apply Forall_app in Hsz as [Hsd Hsr]. apply Forall_app. split; [done|]. constructor; [|done]. inversion Hsr as [|? ? Hr _]; subst. clear -Hs Hr Hm Hn. destruct s as [s|]; cbn in *; [|lia].
        intros j Hj. destruct (decide (j < q + m)); [apply Hr; lia|apply Hs; lia].
      * apply Forall_app in Hfound as [? _]. apply Forall_app. split; [done|]. by constructor.
      * rewrite (runs_app d [Run q m] : _ = runs d ++ [(q, m)]), last_snoc in Hcount. exact Hcount.
    + exists (q, m + n). cbn [data]. split; [by apply aget_mid|]. unfold run_end. cbn [fst snd]. rewrite u32_small by (change (2 ^ 32) with 4294967296; lia). lia.
  - (* the last item is an object *)
    assert (forall r, r ∈ runs (d ++ [i]) -> r.1 + r.2 < bid) as Hbefore.
    { intros [p m] Hr. rewrite runs_app in Hr. unfold runs at 2 in Hr. cbn in Hr. rewrite Hi, app_nil_r in Hr. apply runs_in in Hr. by eapply covers_run_before in Hr. }
    apply Happend.
    + destruct (last_snoc_case (runs (d ++ [i]))) as [E|(d' & r & E)]; [by rewrite Ecur, E|]. destruct (Hcurlast d' r E) as (_ & _ & _ & ->). f_equal. apply Z.eqb_neq.
      assert (r ∈ runs (d ++ [i])) as Hr by (rewrite E; set_solver). rewrite (Hend r Hr). specialize (Hbefore r Hr). lia.
    + intros r Hr. apply last_Some in Hr as [l' E]. assert (r ∈ runs (d ++ [i])) as Hr by (rewrite E; set_solver). destruct (Hruns r Hr) as (_ & ? & _). specialize (Hbefore r Hr). lia.
Qed.
End rebuild.

(** Whether block [p] is marked. *)
Definition is_marked (b : list Z) (p : Z) : bool := match bmp_test b p with Some m => m | None => false end.
Definition kept (b : list Z) (l : list (Z * Z)) : list (Z * Z) := filter (fun o => is_marked b o.1 = true) l.
(** No bit is set at a lost block: the size table has 0 there, so no pointer marks it. *)
Definition lost_unmarked (b : list Z) (i : item) : Prop := match i with Lost p => is_marked b p = false | _ => True end.
Definition with_sizes (s s' : option (list Z)) : Prop := match s, s' with Some s, Some s' => alen s' = alen s | None, None => True | _, _ => False end.

Lemma size_ok_frame s s' i : size_ok (Some s) i -> item_ok i -> (forall j, item_pos i <= j < item_pos i + item_len i -> aget s' j = aget s j) -> size_ok (Some s') i.
Proof.
  destruct i as [p n|p n|p]; cbn; intros Hs Hok Heq.
  - destruct Hs as (Hn & Hp & Hz). split; [done|]. rewrite Heq by lia. split; [done|]. intros j Hj. rewrite Heq by lia. by apply Hz.
  - intros j Hj. rewrite Heq by lia. by apply Hs.
  - rewrite Heq by lia. done.
Qed.
Lemma sizes_frame s s' b l e : covers b l e -> Forall (size_ok (Some s)) l -> (forall j, b <= j < e -> aget s' j = aget s j) -> Forall (size_ok (Some s')) l.
Proof.
  intros Hc Hs Heq. rewrite Forall_forall in *. intros i Hi. destruct (covers_in _ _ _ _ Hc Hi) as (H1 & H2 & H3). apply (size_ok_frame s); [by apply Hs|done|]. intros j Hj. apply Heq. lia.
Qed.
Lemma covers_none b l : covers b l b -> objs l = [].
Proof.
  intros Hc. destruct (objs l) as [|[p n] o] eqn:E; [done|]. assert (Obj p n ∈ l) as Hin by (apply objs_in; rewrite E; left). destruct (covers_in _ _ _ _ Hc Hin) as (H1 & H2 & H3). cbn in *. lia.
Qed.
Lemma bmp_test_total b p max : 0 <= p < max -> Z.shiftr (max + 7) 3 <= alen b -> bmp_test b p = Some (is_marked b p).
Proof.
  intros Hp Hb. unfold is_marked, bmp_test. rewrite !shiftr_div in * by lia. change (2 ^ 3) with 8 in *. destruct (aget_is_Some b (p / 8)) as [x Hx]; [z_div|]. by rewrite Hx.
Qed.

Section flush.
Context (junk : gc_fl) (old : gc_freelist) (bmp : list Z) (first last_ : Z).
Hypothesis Hold : fl_wf old.
Hypothesis Hrange : 0 <= first /\ last_ <= GC_PAGE_SIZE.
Hypothesis Hbmp : Z.shiftr (last_ + 7) 3 <= alen bmp.
(** The runs still to come. *)
Definition reusing (reuse : option gc_fl) (ri : Z) (rs : list gc_fl) : Prop :=
  match rs with [] => reuse = None | r :: rs => reuse = Some r /\ 0 <= ri <= count old /\ drop (Z.to_nat ri) (fl_all old) = rs end.
Lemma next_reuse_spec i rs : 0 <= i <= count old -> drop (Z.to_nat i) (fl_all old) = rs -> exists reuse ri, next_reuse old i = Some (reuse, ri) /\ reusing reuse ri rs.
Proof.
  intros Hi Hrs. unfold next_reuse. destruct (fl_all_eq old Hold) as [Hd Hal]. destruct (Z.ltb_spec i (count old)).
  - destruct (aget_is_Some (fl_all old) i) as [r Hr]; [lia|]. assert (aget (data old) i = Some r) as -> by (rewrite Hd, aget_app_l by lia; done). cbn [mbind option_bind]. eexists _, _. split; [done|].
    rewrite aget_lookup in Hr by lia. rewrite (drop_S _ _ _ Hr) in Hrs. subst rs. split; [done|]. split; [lia|]. f_equal. lia.
  - eexists _, _. split; [done|]. rewrite drop_ge in Hrs by (unfold alen in Hal; lia). by subst rs.
Qed.
Lemma flush_loop items : forall fuel bid done fl cur reuse ri s, rebuilt first bid done fl cur s -> covers bid items last_ -> Forall (size_ok s) items -> Forall (lost_unmarked bmp) items ->
  reusing reuse ri (runs items) -> first <= bid -> (Z.to_nat (last_ - bid) + length (runs items) < fuel)%nat -> (forall s', s = Some s' -> last_ <= alen s') ->
  exists fl' s' done' cur', loop (flush_step junk last_ old bmp) fuel (bid, fl, cur, reuse, ri, s) = Some (fl', s') /\ rebuilt first last_ done' fl' cur' s' /\
    objs done' = objs done ++ kept bmp (objs items) /\ with_sizes s s'.
Proof.
  induction items as [|i items IH]; intros [|fuel] bid done fl cur reuse ri s R Hc Hsz Hlost Hre Hfb Hf Hsl; try lia; cbn [loop]; unfold flush_step at 1.
  { cbn in Hc. subst bid. destruct (Z.ltb_spec last_ last_); [lia|]. exists fl, s, done, cur. split; [done|]. split; [done|]. cbn. rewrite app_nil_r. split; [done|]. by destruct s. }
  pose proof (covers_le _ _ _ Hc) as Hle. destruct (Z.ltb_spec bid last_) as [Hlt|Hge].
  2: { replace bid with last_ in * by lia. exists fl, s, done, cur. split; [done|]. split; [done|]. rewrite (covers_none _ _ Hc). cbn. rewrite app_nil_r. split; [done|]. by destruct s. }
  destruct Hc as (Hp & Hok & Hc). pose proof (covers_le _ _ _ Hc) as Hle2. inversion Hsz as [|? ? Hs1 Hs2]; subst. inversion Hlost as [|? ? Hl1 Hl2]; subst.
  destruct (decide (is_Some (run_of i))) as [Hr|Hnr].
  - destruct i as [|p n|]; [by destruct Hr| |by destruct Hr]. cbn [item_pos item_len item_ok] in *. clear Hr. cbn [runs omap list_omap run_of] in Hre. destruct Hre as (-> & Hri & Hdrop). cbn [fst]. rewrite Z.eqb_refl. cbn [mbind option_bind fst snd].
    destruct (add_run_spec junk first last_ Hrange p done fl cur s n R Hs1 Hok Hle2) as (fl' & cur' & done' & -> & R' & Ho & r & Hr & Hend). cbn [mbind option_bind].
    destruct (next_reuse_spec ri (runs items) Hri Hdrop) as (reuse' & ri' & -> & Hre'). cbn [mbind option_bind]. rewrite Hr. cbn [mbind option_bind]. rewrite Hend.
    destruct (IH fuel (p + n) done' fl' (Some cur') reuse' ri' s R' Hc Hs2 Hl2 Hre' ltac:(lia)) as (fl2 & s2 & done2 & cur2 & Hloop & R2 & Ho2 & Hw); [cbn [runs omap list_omap run_of length] in Hf; unfold runs; lia|done|].
    exists fl2, s2, done2, cur2. split; [done|]. split; [done|]. split; [|done]. rewrite Ho2, Ho. done.
  - (* an object or a lost block *)
    set (bid := item_pos i) in *. assert (0 < item_len i) as Hlen by (destruct i; cbn in *; [lia|exfalso; apply Hnr; by eexists|lia]).
    assert (runs (i :: items) = runs items) as Er by (destruct i; [done|exfalso; apply Hnr; by eexists|done]). rewrite Er in *.
    assert ((bid =? match reuse with Some r => r.1 | None => -1 end) = false) as ->.
    { apply Z.eqb_neq. destruct (runs items) as [|[p n] rs] eqn:E; cbn in Hre; [subst reuse; lia|]. destruct Hre as (-> & _). cbn.
      assert (Run p n ∈ items) as Hin by (apply runs_in; rewrite E; left). destruct (covers_in _ _ _ _ Hc Hin) as (Hb & _). cbn in Hb. lia. }
    assert ((match s with Some s0 => n ← aget s0 bid; Some (if n =? 0 then 1 else n) | None => Some 1 end) = Some (item_len i)) as ->.
    { destruct i as [p n|p n|p]; [|by exfalso; apply Hnr; by eexists|]; destruct s as [s|]; unfold bid; cbn in Hs1, Hlen |- *; try done.
      - destruct Hs1 as (_ & -> & _). cbn. by rewrite (proj2 (Z.eqb_neq n 0)) by lia.
      - by rewrite Hs1.
      - by rewrite Hs1. }
    cbn [mbind option_bind]. rewrite (bmp_test_total bmp bid last_) by lia. cbn [mbind option_bind].
    destruct (is_marked bmp bid) eqn:Hm.
    + (* kept *)
      destruct i as [p n|p n|p]; [|by exfalso; apply Hnr; by eexists|cbn in Hl1; unfold bid in Hm; cbn in Hm; congruence]. cbn [item_len] in *.
      assert (rebuilt first (bid + n) (done ++ [Obj p n]) fl cur s) as R'.
      { destruct R as [Rc Rf Rcur Rs Rfo Rcnt]. assert (runs (done ++ [Obj p n]) = runs done) as E by by rewrite runs_app, app_nil_r. split; rewrite ?E; try done.
        - apply covers_snoc. done.
        - apply Forall_app. split; [done|]. by constructor.
        - apply Forall_app. split; [done|]. by constructor. }
      destruct (IH fuel (bid + n) _ fl cur reuse ri s R' Hc Hs2 Hl2 Hre ltac:(lia)) as (fl2 & s2 & done2 & cur2 & Hloop & R2 & Ho2 & Hw); [lia|done|].
      exists fl2, s2, done2, cur2. split; [done|]. split; [done|]. split; [|done]. rewrite Ho2, objs_app, <- app_assoc. cbn [objs omap list_omap obj_of app]. f_equal.
      unfold kept. rewrite filter_cons_True by done. done.
    + (* freed *)
      assert (exists s', (match s with Some s0 => s1 ← aset s0 bid 0; Some (Some s1) | None => Some None end) = Some s' /\ with_sizes s s' /\ size_ok s' (Run bid (item_len i)) /\ Forall (size_ok s') items /\ Forall (size_ok s') done) as (s' & -> & Hw & Hs' & Hsi & Hsd).
      { pose proof (rb_covers _ _ _ _ _ _ R) as Rc. pose proof (rb_sizes _ _ _ _ _ _ R) as Rs. destruct s as [s|].
        - destruct (aset_total s bid 0) as (s' & -> & Hl & Hg); [specialize (Hsl s eq_refl); lia|]. cbn [mbind option_bind]. exists (Some s'). split; [done|]. split; [done|].
          split; [|split; [apply (sizes_frame s s' _ _ _ Hc Hs2)|apply (sizes_frame s s' _ _ _ Rc Rs)]; intros j Hj; by rewrite Hg, decide_False by lia].
          intros j Hj. rewrite Hg. destruct (decide (bid = j)) as [->|Hne]; [done|]. destruct i as [p n|p n|p]; cbn in *; [|by exfalso; apply Hnr; by eexists|unfold bid in *; lia].
          destruct Hs1 as (_ & _ & Hz). apply Hz. unfold bid in *. cbn in *. lia.
        - exists None. split; [done|]. split; [done|]. done. }
      cbn [mbind option_bind].
      assert (rebuilt first bid done fl cur s') as R0 by (destruct R; split; done).
      destruct (add_run_spec junk first last_ Hrange bid done fl cur s' (item_len i) R0 Hs' ltac:(lia) Hle2) as (fl' & cur' & done' & -> & R' & Ho & _). cbn [mbind option_bind].
      destruct (IH fuel (bid + item_len i) done' fl' (Some cur') reuse ri s' R' Hc Hsi Hl2 Hre ltac:(lia)) as (fl2 & s2 & done2 & cur2 & Hloop & R2 & Ho2 & Hw2); [lia| |].
      { intros s1 ->. destruct s as [s|]; [|done]. cbn in Hw. rewrite Hw. by apply Hsl. }
      exists fl2, s2, done2, cur2. split; [done|]. split; [done|]. split; [|destruct s, s', s2; cbn in *; try done; congruence]. rewrite Ho2, Ho. f_equal.
      destruct i as [p n|p n|p]; [|by exfalso; apply Hnr; by eexists|done]. cbn [objs omap list_omap obj_of]. unfold kept. rewrite filter_cons_False; [done|]. cbn. unfold bid in Hm. cbn in Hm. congruence.
Qed.
End flush.

(** Rebuilding keeps the marked objects and makes everything else free, in runs, none lost. *)
Lemma flush_free_list_spec junk ph l b : page_ok ph l -> bmp ph = Some b -> Forall (lost_unmarked b) l ->
  exists ph' l', flush_free_list junk ph = Some ph' /\ page_ok ph' l' /\ objs l' = kept b (objs l) /\ Forall found l' /\
    need_flush ph' = false /\ base ph' = base ph /\ block_size ph' = block_size ph /\ page_size ph' = page_size ph /\ first_block ph' = first_block ph /\ max_blocks ph' = max_blocks ph /\ bmp ph' = bmp ph /\
    block_bits ph' = block_bits ph /\ with_sizes (sizes ph) (sizes ph').
Proof.
  intros [Hrange Hc [Hwf Hruns] [Hsz Hsl] [Hbm Hnf]] Hb Hlost. unfold flush_free_list. rewrite Hb. cbn [mbind option_bind]. destruct (Hbm b Hb) as [Hbl Hbb].
  pose proof Hwf as (Hbits & Hcc & Hle & Hlen).
  destruct (next_reuse_spec (free ph) Hwf (current (free ph)) (runs l) Hcc Hruns) as (reuse & ri & -> & Hre). cbn [mbind option_bind].
  destruct (alloc_freelist_spec junk (size_bits (free ph)) Hbits) as (Hwf0 & Hall0 & Hcur0).
  assert (rebuilt (first_block ph) (first_block ph) [] (alloc_freelist junk (size_bits (free ph))) None (sizes ph)) as R0 by (split; try done; constructor).
  destruct (flush_loop junk (free ph) b (first_block ph) (max_blocks ph) Hwf ltac:(lia) Hbl l (S (Z.to_nat (max_blocks ph - first_block ph) + Z.to_nat (count (free ph)))) (first_block ph) [] _ None reuse ri (sizes ph) R0 Hc Hsz Hlost Hre ltac:(lia))
    as (fl' & s' & l' & cur' & -> & R & Ho & Hw).
  { rewrite <- Hruns. unfold fl_runs. rewrite length_drop. destruct (fl_all_eq _ Hwf) as [_ Hal]. unfold alen in Hal. lia. }
  { intros s0 Hs0. rewrite (Hsl s0 Hs0). lia. }
  cbn [mbind option_bind]. destruct R as [Rc (Rwf & Rcur & Rall) _ Rs Rf _]. eexists _, l'. split; [done|].
  split; [|split; [done|]; split; [done|]; repeat split; done].
  split; cbn [first_block max_blocks free sizes bmp need_flush]; try done.
  - split; [done|]. unfold fl_runs. rewrite Rcur, Rall. done.
  - split; [done|]. intros s0 ->. destruct (sizes ph) as [s1|] eqn:E; [|done]. cbn in Hw. rewrite Hw. by apply Hsl.
  - split; [|done]. intros b0 [= <-]. done.
Qed.
