(* ===== verification/AllocatorAlloc.v ===== *)
(** * Allocating in one page, and new pages *)
From S2P Require Import Prelude Allocator AllocatorPage.

(** ** Taking blocks from a run *)
Definition lost_blocks (q r : Z) : list item := Lost <$> seqZ q r.
Lemma covers_lost q r : 0 <= r -> covers q (lost_blocks q r) (q + r).
Proof.
  intros Hr. unfold lost_blocks. remember (Z.to_nat r) as n eqn:En. revert q r Hr En. induction n as [|n IH]; intros q r Hr En.
  - replace r with 0 by lia. rewrite Z.add_0_r. done.
  - rewrite seqZ_cons by lia. cbn. split; [done|]. split; [done|]. replace (q + r) with (q + 1 + Z.pred r) by lia. replace (Z.succ q) with (q + 1) by lia. apply IH; lia.
Qed.
Lemma runs_none l : (forall i, i ∈ l -> run_of i = None) -> runs l = [].
Proof. induction l as [|i l IH]; intros Hl; [done|]. unfold runs. cbn. rewrite (Hl i) by left. apply IH. intros j Hj. apply Hl. by right. Qed.
Lemma objs_none l : (forall i, i ∈ l -> obj_of i = None) -> objs l = [].
Proof. induction l as [|i l IH]; intros Hl; [done|]. unfold objs. cbn. rewrite (Hl i) by left. apply IH. intros j Hj. apply Hl. by right. Qed.
Lemma lost_spec q r : runs (lost_blocks q r) = [] /\ objs (lost_blocks q r) = [].
Proof. split; [apply runs_none|apply objs_none]; intros i Hi; apply list_elem_of_fmap in Hi as (j & -> & _); done. Qed.
Lemma first_run l : runs l = [] \/ exists a q r c, l = a ++ Run q r :: c /\ runs a = [].
Proof.
  induction l as [|i l IH]; [by left|]. destruct (run_of i) as [[q r]|] eqn:E.
  - right. destruct i; simplify_eq/=. by exists [], q, r, l.
  - destruct IH as [IH|(a & q & r & c & -> & Ha)].
    + left. unfold runs in *. cbn. by rewrite E.
    + right. exists (i :: a), q, r, c. split; [done|]. unfold runs in *. cbn. by rewrite E.
Qed.
Lemma fl_runs_all fl : fl_wf fl -> fl_all fl = take (Z.to_nat (current fl)) (fl_all fl) ++ fl_runs fl.
Proof. intros _. unfold fl_runs. by rewrite take_drop. Qed.

Section take_from.
Context (s : option (list Z)) (fl : gc_freelist) (first last_ p m n : Z) (l1 l2 : list item).
Hypothesis Hwf : fl_wf fl.
Hypothesis Hruns : fl_runs fl = runs (l1 ++ Run p m :: l2).
Hypothesis Hc : covers first (l1 ++ Run p m :: l2) last_.
Hypothesis Hrange : 0 <= first /\ last_ <= GC_PAGE_SIZE.
Hypothesis Hn : 0 < n <= m.
Hypothesis Hsz : Forall (size_ok s) (l1 ++ Run p m :: l2).
Hypothesis Hone : s = None -> runs l1 = [].
(** Taking the first [n] blocks of a run.  What is before it keeps its objects; what is left of the
    run follows. *)
Lemma take_from_spec : exists fl' l1' tl, take_from fl (current fl + alen (runs l1)) n = Some fl' /\ fl_wf fl' /\ fl_runs fl' = runs (l1' ++ tl ++ l2) /\
  covers first l1' p /\ covers (p + n) (tl ++ l2) last_ /\ objs l1' = objs l1 /\ objs tl = [] /\ Forall (size_ok s) l1' /\ Forall (size_ok s) (tl ++ l2) /\
  aget (data fl) (current fl + alen (runs l1)) = Some (p, m).
Proof.
  pose proof Hwf as (Hb & Hcur & Hle & Hlen). destruct (fl_all_eq fl Hwf) as [Hd Hal]. pose proof (fl_runs_all fl Hwf) as Hfa. rewrite Hruns, runs_app in Hfa. cbn [runs omap list_omap run_of] in Hfa. fold (runs l1) (runs l2) in Hfa.
  set (pre := take (Z.to_nat (current fl)) (fl_all fl)) in *. assert (alen pre = current fl) as Hpre by (unfold pre, alen in *; rewrite length_take; lia).
  set (post := drop (Z.to_nat (count fl)) (data fl)) in *.
  assert (data fl = (pre ++ runs l1) ++ (p, m) :: runs l2 ++ post) as Hdata by (rewrite Hd, Hfa, <- !app_assoc; done).
  apply covers_app in Hc as (p' & Hc1 & Hp & Hok & Hc2). cbn in Hp, Hok, Hc2. subst p'. pose proof (covers_le _ _ _ Hc1). pose proof (covers_le _ _ _ Hc2). destruct Hrange as [Hf Hl]. change GC_PAGE_SIZE with 65536 in Hl.
  apply Forall_app in Hsz as [Hs1 Hs2]. inversion Hs2 as [|? ? Hsr Hs3]; subst. unfold take_from.
  assert (aget (data fl) (current fl + alen (runs l1)) = Some (p, m)) as Hget by (rewrite Hdata; apply aget_mid; rewrite alen_app; lia).
  rewrite Hget. cbn [mbind option_bind fst snd]. rewrite Hdata, aset_mid by (rewrite alen_app; lia). cbn [mbind option_bind]. rewrite !u32_small by (change (2 ^ 32) with 4294967296; lia).
  set (d' := (pre ++ runs l1) ++ (p + n, m - n) :: runs l2 ++ post).
  assert (alen d' = Z.shiftl 1 (size_bits fl)) as Hlen' by (rewrite <- Hlen, Hdata; unfold d'; alens).
  assert (take (Z.to_nat (count fl)) d' = pre ++ runs l1 ++ (p + n, m - n) :: runs l2) as Hall.
  { unfold d'. replace ((pre ++ runs l1) ++ (p + n, m - n) :: runs l2 ++ post) with ((pre ++ runs l1 ++ (p + n, m - n) :: runs l2) ++ post) by by rewrite <- !app_assoc.
    apply take_app_length'. rewrite Hfa in Hal. unfold alen in Hal. rewrite !length_app in *. cbn [length] in *. lia. }
  assert (size_ok s (Run (p + n) (m - n)) \/ m - n = 0) as Htl.
  { destruct s as [s0|]; cbn in *; [left; intros j Hj; apply Hsr; lia|lia]. }
  destruct (Z.eqb_spec (m - n) 0) as [E|E].
  - (* the run is used up: [current] moves past the first run *)
    destruct (first_run l1) as [E1|(a & q & r & c & El1 & Ha)].
    + eexists _, l1, []. split; [done|]. cbn [app]. assert (fl_wf (Fl (current fl + 1) (count fl) (size_bits fl) d')) as Hwf'.
      { unfold fl_wf. cbn [size_bits current count data]. repeat split; try lia. rewrite Hfa, !alen_app, alen_cons in Hal. rewrite E1 in Hal. change (alen []) with 0 in Hal. pose proof (alen_nonneg (runs l2)). lia. }
      split; [done|]. split; [|split; [done|]; split; [replace (p + n) with (p + m) by lia; done|]; split; [done|]; split; [done|]; split; [done|]; split; done].
      unfold fl_runs, fl_all. cbn [current count data]. rewrite Hall, E1, runs_app, E1. cbn [app]. replace (pre ++ (p + n, m - n) :: runs l2) with ((pre ++ [(p + n, m - n)]) ++ runs l2) by by rewrite <- app_assoc.
      apply drop_app_length'. rewrite length_app. unfold alen in Hpre. cbn [length]. lia.
    + subst l1. assert (s <> None) as Hsn. { intros Es. specialize (Hone Es). rewrite runs_app in Hone. cbn in Hone. by apply app_eq_nil in Hone as [_ ?]. }
      rewrite runs_app in *. rewrite Ha in *. cbn [runs omap list_omap run_of app] in Hall, Hfa. fold (runs c) in *.
      eexists _, (a ++ lost_blocks q r ++ c), [Run (p + n) (m - n)]. split; [done|]. assert (fl_wf (Fl (current fl + 1) (count fl) (size_bits fl) d')) as Hwf'.
      { unfold fl_wf. cbn [size_bits current count data]. repeat split; try lia. rewrite Hfa, !alen_app, !alen_cons in Hal. pose proof (alen_nonneg (runs l2)). pose proof (alen_nonneg (runs c ++ (p, m) :: runs l2)). lia. }
      apply covers_app in Hc1 as (q' & Hca & Hq & Hqok & Hcc). cbn in Hq, Hqok, Hcc. subst q'. destruct (lost_spec q r) as [Lr Lo].
      split; [done|]. split; [|split; [|split; [|split; [|split; [done|split; [|split]]]]]].
      * unfold fl_runs, fl_all. cbn [current count data]. rewrite Hall, !runs_app, Ha, Lr. cbn [app runs omap list_omap run_of]. fold (runs c) (runs l2).
        rewrite cons_middle, app_assoc. apply drop_app_length'. rewrite length_app. unfold alen in Hpre. cbn [length]. lia.
      * apply covers_app. exists q. split; [done|]. apply covers_app. exists (q + r). split; [by apply covers_lost|done].
      * cbn. split; [done|]. split; [lia|]. replace (p + n + (m - n)) with (p + m) by lia. done.
      * by rewrite !objs_app, Lo.
      * rewrite !Forall_app in *. destruct Hs1 as [Hsa Hsc]. inversion Hsc as [|? ? Hsq Hsc']; subst. split; [done|]. split; [|done]. apply Forall_forall. intros i Hi. apply list_elem_of_fmap in Hi as (j & -> & Hj). apply elem_of_seqZ in Hj.
        destruct s as [s0|]; [|done]. cbn in *. apply Hsq. lia.
      * cbn [app]. constructor; [|done]. destruct Htl as [|E0]; [done|]. destruct s as [s0|]; [|done]. intros j Hj. lia.
      * done.
  - (* part of the run is left *)
    eexists _, l1, [Run (p + n) (m - n)]. split; [done|]. assert (fl_wf (Fl (current fl) (count fl) (size_bits fl) d')) as Hwf'. { unfold fl_wf. cbn [size_bits current count data]. repeat split; lia. }
    split; [done|]. split; [|split; [done|split; [|split; [done|split; [done|split; [done|split; [|done]]]]]]].
    + unfold fl_runs, fl_all. cbn [current count data]. rewrite Hall, !runs_app. cbn [app runs omap list_omap run_of]. fold (runs l2). apply drop_app_length'. unfold alen in Hpre. lia.
    + cbn. split; [done|]. split; [lia|]. replace (p + n + (m - n)) with (p + m) by lia. done.
    + cbn [app]. constructor; [|done]. destruct Htl as [|E0]; [done|lia].
Qed.
End take_from.

(** ** The page with the blocks taken *)
Definition same_sizes_but (s s' : option (list Z)) (p n : Z) : Prop :=
  match s, s' with Some s, Some s' => alen s' = alen s /\ forall j, ~ p <= j < p + n -> aget s' j = aget s j | None, None => True | _, _ => False end.
Lemma sizes_but_frame s s' p n b l e : same_sizes_but s s' p n -> covers b l e -> e <= p \/ p + n <= b -> Forall (size_ok s) l -> Forall (size_ok s') l.
Proof.
  intros Hs Hc Hout Hl. destruct s as [s|], s' as [s'|]; try done. destruct Hs as [_ Hs]. apply (sizes_frame s s' b l e Hc Hl). intros j Hj. apply Hs. lia.
Qed.
Lemma page_put ph l1 p m l2 n fl' l1' tl new s' b' : page_ok ph (l1 ++ Run p m :: l2) -> fl_wf fl' -> fl_runs fl' = runs (l1' ++ tl ++ l2) ->
  covers (first_block ph) l1' p -> covers (p + n) (tl ++ l2) (max_blocks ph) -> Forall (size_ok (sizes ph)) l1' -> Forall (size_ok (sizes ph)) (tl ++ l2) ->
  covers p new (p + n) -> runs new = [] -> same_sizes_but (sizes ph) s' p n -> Forall (size_ok s') new ->
  (forall b, b' = Some b -> Z.shiftr (max_blocks ph + 7) 3 <= alen b /\ Forall (fun x => 0 <= x < 256) b) ->
  page_ok (Page (base ph) (page_size ph) b' (block_size ph) (block_bits ph) (max_blocks ph) (first_block ph) fl' s' false) (l1' ++ new ++ tl ++ l2).
Proof.
  intros [Hr Hc Hf [Hs Hsl] Hb] Hwf Hruns Hc1 Hc2 Hs1 Hs2 Hcn Hrn Hss Hsn Hb'. split; cbn [first_block max_blocks free sizes bmp need_flush]; [done| | | |].
  - apply covers_app. exists p. split; [done|]. apply covers_app. by exists (p + n).
  - split; [done|]. rewrite Hruns. rewrite !runs_app, Hrn. done.
  - split.
    + rewrite Forall_app. split; [apply (sizes_but_frame (sizes ph) s' p n (first_block ph) l1' p Hss Hc1); [lia|done]|]. rewrite Forall_app. split; [done|].
      apply (sizes_but_frame (sizes ph) s' p n (p + n) (tl ++ l2) (max_blocks ph) Hss Hc2); [lia|done].
    + intros s ->. destruct (sizes ph) as [s0|] eqn:E; [|done]. destruct Hss as [-> _]. by apply Hsl.
  - split; [done|]. done.
Qed.
Definition singles (p n : Z) : list (Z * Z) := (fun i => (i, 1)) <$> seqZ p n.
Lemma singles_items p n : 0 <= n -> covers p ((fun i => Obj i 1) <$> seqZ p n) (p + n) /\ runs ((fun i => Obj i 1) <$> seqZ p n) = [] /\ objs ((fun i => Obj i 1) <$> seqZ p n) = singles p n.
Proof.
  intros Hn. split; [|split].
  - remember (Z.to_nat n) as k eqn:Ek. revert p n Hn Ek. induction k as [|k IH]; intros p n Hn Ek.
    + replace n with 0 by lia. rewrite Z.add_0_r. done.
    + rewrite seqZ_cons by lia. cbn. split; [done|]. split; [lia|]. replace (p + n) with (p + 1 + Z.pred n) by lia. replace (Z.succ p) with (p + 1) by lia. apply IH; lia.
  - apply runs_none. intros i Hi. apply list_elem_of_fmap in Hi as (j & -> & _). done.
  - unfold singles. generalize (seqZ p n) as k. induction k as [|x k IH]; [done|]. cbn. f_equal. exact IH.
Qed.
(** [c = fl->data + fl->current] in a page of single blocks. *)
Lemma fixed_page_spec ph l want : page_ok ph l -> sizes ph = None -> current (free ph) < count (free ph) -> 0 < want ->
  exists p m fl' l', aget (data (free ph)) (current (free ph)) = Some (p, m) /\ 0 < m /\ take_from (free ph) (current (free ph)) (Z.min m want) = Some fl' /\
    page_ok (Page (base ph) (page_size ph) (bmp ph) (block_size ph) (block_bits ph) (max_blocks ph) (first_block ph) fl' (sizes ph) false) l' /\
    objs l' ≡ₚ singles p (Z.min m want) ++ objs l.
Proof.
  intros Hok Hs Hcur Hw. pose proof Hok as [Hr Hc [Hwf Hruns] [Hsz Hsl] [Hb _]]. destruct (fl_all_eq _ Hwf) as [Hd Hal].
  destruct (first_run l) as [E|(l1 & p & m & l2 & -> & E1)].
  { exfalso. rewrite E in Hruns. unfold fl_runs in Hruns. apply (f_equal length) in Hruns. rewrite length_drop in Hruns. destruct Hwf as (_ & ? & _). unfold alen in Hal. cbn in Hruns. lia. }
  assert (0 < m) as Hm. { rewrite Hs in Hsz. apply Forall_app in Hsz as [_ Hsz]. by inversion Hsz. }
  destruct (take_from_spec (sizes ph) (free ph) (first_block ph) (max_blocks ph) p m (Z.min m want) l1 l2 Hwf Hruns Hc ltac:(lia) ltac:(lia) Hsz ltac:(done))
    as (fl' & l1' & tl & Htake & Hwf' & Hruns' & Hc1 & Hc2 & Ho1 & Ho2 & Hs1 & Hs2 & Hget).
  rewrite E1 in Htake, Hget. rewrite alen_nil, Z.add_0_r in Htake, Hget.
  destruct (singles_items p (Z.min m want)) as (Hn1 & Hn2 & Hn3); [lia|].
  exists p, m, fl', (l1' ++ ((fun i => Obj i 1) <$> seqZ p (Z.min m want)) ++ tl ++ l2). split; [done|]. split; [done|]. split; [done|]. split.
  - apply (page_put ph l1 p m l2 (Z.min m want) fl' l1' tl); try done.
    + by rewrite Hs.
    + rewrite Hs. apply Forall_forall. intros i Hi. apply list_elem_of_fmap in Hi as (j & -> & _). done.
  - rewrite !objs_app, Hn3, Ho1, Ho2. cbn [app objs omap list_omap obj_of]. fold (objs l2). apply Permutation_app_swap_app.
Qed.
(** The search for a run that is large enough. *)
Lemma find_run_spec ph l n : page_ok ph l -> exists r, find_run (free ph) n = Some r /\
  match r with
  | None => forall p m, Run p m ∈ l -> m < n
  | Some k => exists l1 p m l2, l = l1 ++ Run p m :: l2 /\ k = current (free ph) + alen (runs l1) /\ n <= m
  end.
Proof.
  intros [Hr Hc [Hwf Hruns] _ _]. destruct (fl_all_eq _ Hwf) as [Hd Hal]. pose proof (fl_runs_all _ Hwf) as Hfa. rewrite Hruns in Hfa. pose proof Hwf as (_ & Hcur & _).
  assert (alen (take (Z.to_nat (current (free ph))) (fl_all (free ph))) = current (free ph)) as Hpre by (unfold alen in *; rewrite length_take; lia).
  unfold find_run. eapply (loop_total _ (fun k => exists l1 l2, l = l1 ++ l2 /\ k = current (free ph) + alen (runs l1) /\ forall p m, Run p m ∈ l1 -> m < n)
     (fun r => match r with None => forall p m, Run p m ∈ l -> m < n | Some k => exists l1 p m l2, l = l1 ++ Run p m :: l2 /\ k = current (free ph) + alen (runs l1) /\ n <= m end)
     (fun k => Z.to_nat (count (free ph) - k))).
  - intros k (l1 & l2 & -> & -> & Hl1). rewrite runs_app in Hfa. assert (count (free ph) = current (free ph) + alen (runs l1) + alen (runs l2)) as Hcount by (rewrite <- Hal, Hfa, !alen_app, Hpre; lia).
    destruct (first_run l2) as [E2|(a & p & m & c & -> & Ea)].
    + rewrite E2 in *. change (alen []) with 0 in Hcount. destruct (Z.ltb_spec (current (free ph) + alen (runs l1)) (count (free ph))); [lia|]. right. exists None. split; [done|].
      intros p m Hin. apply elem_of_app in Hin as [Hin|Hin]; [by apply (Hl1 p)|]. apply runs_in in Hin. rewrite E2 in Hin. by apply not_elem_of_nil in Hin.
    + rewrite runs_app, Ea in *. cbn [app runs omap list_omap run_of] in Hfa, Hcount. fold (runs c) in *. rewrite alen_cons in Hcount. pose proof (alen_nonneg (runs c)).
      destruct (Z.ltb_spec (current (free ph) + alen (runs l1)) (count (free ph))); [|lia].
      assert (aget (data (free ph)) (current (free ph) + alen (runs l1)) = Some (p, m)) as ->.
      { rewrite Hd, Hfa, <- !app_assoc. rewrite (app_assoc _ (runs l1)). apply aget_mid. rewrite alen_app, Hpre. lia. }
      cbn [mbind option_bind snd]. destruct (Z.geb_spec m n).
      * right. eexists. split; [done|]. exists (l1 ++ a), p, m, c. rewrite <- app_assoc, runs_app, Ea, app_nil_r. done.
      * left. eexists. split; [done|]. split; [|lia]. exists (l1 ++ a ++ [Run p m]), c. rewrite <- !app_assoc. split; [done|]. rewrite !runs_app, Ea. cbn [app]. rewrite alen_app. split; [change (alen (runs [Run p m])) with 1; lia|].
        intros q r Hin. rewrite !elem_of_app in Hin. destruct Hin as [Hin|[Hin|Hin]]; [by apply (Hl1 q)| |apply list_elem_of_singleton in Hin; naive_solver lia].
        apply runs_in in Hin. rewrite Ea in Hin. by apply not_elem_of_nil in Hin.
  - exists [], l. split; [done|]. split; [change (alen (runs [])) with 0; lia|]. intros p m Hin. by apply not_elem_of_nil in Hin.
  - lia.
Qed.
Lemma bmp_set_spec b p max : 0 <= p < max -> Z.shiftr (max + 7) 3 <= alen b -> Forall (fun x => 0 <= x < 256) b ->
  exists b', bmp_set b p = Some b' /\ alen b' = alen b /\ Forall (fun x => 0 <= x < 256) b'.
Proof.
  intros Hp Hb Hbytes. unfold bmp_set. rewrite !shiftr_div in * by lia. change (2 ^ 3) with 8 in *. destruct (aget_is_Some b (p / 8)) as [x Hx]; [z_div|]. rewrite Hx. cbn [mbind option_bind].
  rewrite aset_Some by z_div. eexists. split; [done|]. split; [apply alen_insert|]. apply Forall_insert; [done|]. pose proof (uN_range 8 (Z.lor x (Z.shiftl 1 (Z.land p 7))) ltac:(lia)) as Hu. by change (2 ^ 8) with 256 in Hu.
Qed.
(** The size table and the mark bit of an object whose blocks were taken from the runs. *)
Lemma finish_var_spec ph l1 p m l2 n fl' l1' tl : page_ok ph (l1 ++ Run p m :: l2) -> sizes ph <> None -> 0 < n <= 255 -> need_flush ph = false ->
  fl_wf fl' -> fl_runs fl' = runs (l1' ++ tl ++ l2) -> covers (first_block ph) l1' p -> covers (p + n) (tl ++ l2) (max_blocks ph) ->
  objs l1' = objs l1 -> objs tl = [] -> Forall (size_ok (sizes ph)) l1' -> Forall (size_ok (sizes ph)) (tl ++ l2) ->
  exists ph' l', finish_var (set_free ph fl') p n = Some ph' /\ page_ok ph' l' /\ objs l' ≡ₚ (p, n) :: objs (l1 ++ Run p m :: l2) /\
    need_flush ph' = false /\ base ph' = base ph /\ block_size ph' = block_size ph /\ page_size ph' = page_size ph /\ first_block ph' = first_block ph /\ max_blocks ph' = max_blocks ph /\ block_bits ph' = block_bits ph /\ with_sizes (sizes ph) (sizes ph').
Proof.
  intros Hok Hsn Hn255 Hnf Hwf' Hruns' Hc1 Hc2 Ho1 Ho2 Hs1 Hs2. pose proof Hok as [Hr Hc [Hwf Hruns] [Hsz Hsl] [Hb _]]. pose proof (covers_le _ _ _ Hc1). pose proof (covers_le _ _ _ Hc2).
  destruct (sizes ph) as [s|] eqn:Es; [|done]. specialize (Hsl s eq_refl).
  unfold finish_var. cbn [set_free bmp sizes base page_size block_size block_bits max_blocks first_block free need_flush].
  assert (exists b', (match bmp ph with Some b => b ← bmp_set b p; Some (Some b) | None => Some None end) = Some b' /\
    (forall b, b' = Some b -> Z.shiftr (max_blocks ph + 7) 3 <= alen b /\ Forall (fun x => 0 <= x < 256) b)) as (b' & -> & Hb').
  { destruct (bmp ph) as [b|] eqn:Eb; [|by exists None]. destruct (Hb b eq_refl) as [Hbl Hbb]. destruct (bmp_set_spec b p (max_blocks ph) ltac:(lia) Hbl Hbb) as (b1 & -> & Hl & Hbb').
    cbn [mbind option_bind]. exists (Some b1). split; [done|]. intros b2 [= <-]. split; [lia|done]. }
  cbn [mbind option_bind]. rewrite Es. cbn [mbind option_bind].
  assert (exists s1, (if n >? 1 then acopy s p (replicate (Z.to_nat n) 0) 0 n else Some s) = Some s1 /\ alen s1 = alen s /\ (forall j, ~ p <= j < p + n -> aget s1 j = aget s j) /\ forall j, p < j < p + n -> aget s1 j = Some 0) as (s1 & -> & Hl1 & Hout & Hin).
  { destruct (Z.gtb_spec n 1).
    - destruct (acopy_total s p (replicate (Z.to_nat n) 0) 0 n) as (s1 & -> & Hl & Hg); [rewrite ?alen_replicate; lia..|]. exists s1. split; [done|]. split; [done|]. split; intros j Hj; rewrite Hg; [by rewrite decide_False by lia|].
      rewrite decide_True by lia. rewrite aget_lookup by lia. apply lookup_replicate_2. lia.
    - exists s. split; [done|]. split; [done|]. split; [done|]. intros j Hj. lia. }
  cbn [mbind option_bind]. rewrite uN_small by (change (2 ^ 8) with 256; lia). destruct (aset_total s1 p n) as (s2 & -> & Hl2 & Hg2); [lia|]. cbn [mbind option_bind].
  eexists _, (l1' ++ [Obj p n] ++ tl ++ l2). split; [done|]. split; [|split; [|repeat split; try done; cbn; lia]].
  - rewrite Hnf. apply (page_put ph l1 p m l2 n fl' l1' tl [Obj p n]); rewrite ?Es; try done.
    + cbn. split; [done|]. split; [lia|done].
    + split; [lia|]. intros j Hj. rewrite Hg2, decide_False by lia. by apply Hout.
    + constructor; [|done]. split; [lia|]. split; [by rewrite Hg2, decide_True|]. intros j Hj. rewrite Hg2, decide_False by lia. by apply Hin.
  - rewrite !objs_app, Ho1, Ho2. cbn [app objs omap list_omap obj_of]. fold (objs l2). by rewrite <- Permutation_middle.
Qed.

(** Allocating [n] blocks from run [k] of a page with a size table. *)
Lemma var_page_spec ph l1 p m l2 n : page_ok ph (l1 ++ Run p m :: l2) -> sizes ph <> None -> 0 < n <= m -> n <= 255 -> need_flush ph = false ->
  exists fl' ph' l', take_from (free ph) (current (free ph) + alen (runs l1)) n = Some fl' /\ aget (data (free ph)) (current (free ph) + alen (runs l1)) = Some (p, m) /\
    finish_var (set_free ph fl') p n = Some ph' /\ page_ok ph' l' /\ objs l' ≡ₚ (p, n) :: objs (l1 ++ Run p m :: l2) /\
    need_flush ph' = false /\ base ph' = base ph /\ block_size ph' = block_size ph /\ page_size ph' = page_size ph /\ first_block ph' = first_block ph /\ max_blocks ph' = max_blocks ph /\ block_bits ph' = block_bits ph /\ with_sizes (sizes ph) (sizes ph').
Proof.
  intros Hok Hsn Hn Hn255 Hnf. pose proof Hok as [Hr Hc [Hwf Hruns] [Hsz Hsl] [Hb _]].
  destruct (take_from_spec (sizes ph) (free ph) (first_block ph) (max_blocks ph) p m n l1 l2 Hwf Hruns Hc ltac:(lia) Hn Hsz ltac:(done))
    as (fl' & l1' & tl & Htake & Hwf' & Hruns' & Hc1 & Hc2 & Ho1 & Ho2 & Hs1 & Hs2 & Hget).
  destruct (finish_var_spec ph l1 p m l2 n fl' l1' tl Hok Hsn ltac:(lia) Hnf Hwf' Hruns' Hc1 Hc2 Ho1 Ho2 Hs1 Hs2) as (ph' & l' & Hfin & Hrest).
  exists fl', ph', l'. done.
Qed.
(** The first run of a new page. *)
Lemma take_first_spec fl p m n s last_ : fl_wf fl -> current fl = 0 -> fl_runs fl = [(p, m)] -> 0 <= p -> p + m = last_ -> last_ <= GC_PAGE_SIZE -> 0 < n <= m -> Forall (size_ok (Some s)) [Run p m] ->
  exists fl', take_first fl n = Some fl' /\ fl_wf fl' /\ fl_runs fl' = [(p + n, m - n)] /\ covers (p + n) [Run (p + n) (m - n)] last_ /\ Forall (size_ok (Some s)) [Run (p + n) (m - n)].
Proof.
  intros Hwf Hcur Hruns Hp <- Hle Hn Hs. change GC_PAGE_SIZE with 65536 in Hle. pose proof Hwf as (Hb & Hcc & Hcnt & Hlen). destruct (fl_all_eq fl Hwf) as [Hd Hal]. unfold fl_runs in Hruns. rewrite Hcur, drop_0 in Hruns. rewrite Hruns in Hd, Hal.
  change (alen [(p, m)]) with 1 in Hal. rewrite <- Hal in Hd. unfold take_first. rewrite Hd in *. cbn [app]. set (rest := drop _ _).
  rewrite (aget_mid [] (p, m) rest 0 eq_refl : aget ((p, m) :: rest) 0 = _). cbn [mbind option_bind fst snd].
  rewrite (aset_mid [] (p, m) rest 0 _ eq_refl : aset ((p, m) :: rest) 0 _ = _). cbn [mbind option_bind app].
  rewrite !u32_small by (change (2 ^ 32) with 4294967296; lia). eexists. split; [done|]. split; [|split; [|split]].
  - unfold fl_wf. cbn [size_bits current count data]. cbn [app] in Hlen. rewrite alen_cons in *. repeat split; try lia. exact Hlen.
  - unfold fl_runs, fl_all. cbn [current count data]. rewrite Hcur, <- Hal. done.
  - cbn. split; [done|]. lia.
  - constructor; [|done]. inversion Hs as [|? ? Hr _]; subst. intros j Hj. apply Hr. lia.
Qed.

(** ** New pages *)
Lemma grow_page_spec n block size : 0 <= n -> 0 < block < 256 -> 0 < size -> Z.quot size block <= GC_PAGE_SIZE ->
  exists size', grow_page n block size = Some size' /\ size <= size' /\ Z.quot size' block <= GC_PAGE_SIZE.
Proof.
  intros Hn Hb Hs Hq. unfold grow_page. eapply (loop_total _ (fun '(n, sz) => 0 <= n /\ size <= sz /\ Z.quot sz block <= GC_PAGE_SIZE) (fun sz => size <= sz /\ Z.quot sz block <= GC_PAGE_SIZE) (fun '(n, _) => Z.to_nat n)).
  - intros [k sz] (Hk & Hsz & Hqs). change GC_PAGE_SIZE with 65536 in *. destruct (Z.gtb_spec k 8).
    + rewrite Z.quot_div_nonneg in Hqs by lia. assert (sz < 65537 * 256) by (pose proof (Z.div_mod sz block ltac:(lia)); pose proof (Z.mod_pos_bound sz block ltac:(lia)); pose proof (Z.div_pos sz block ltac:(lia) ltac:(lia)); nia). rewrite shiftl_mul by lia. change (2 ^ 1) with 2.
      rewrite int_of_Some by (unfold in_i32, INT_MIN, INT_MAX; lia). cbn [mbind option_bind]. destruct (Z.leb_spec (Z.quot (sz * 2) block) 65536).
      * left. eexists. split; [done|]. assert (0 <= Z.quot k 3 < k) by (rewrite Z.quot_div_nonneg by lia; z_div). split; [split; [lia|]; split; [lia|done]|lia].
      * right. eexists. split; [done|]. rewrite Z.quot_div_nonneg by lia. done.
    + right. eexists. split; [done|]. done.
  - done.
  - lia.
Qed.
Lemma exact_log2_spec block : 0 < block <= 2 ^ 31 -> exists k, exact_log2 block = Some k /\ 0 <= k <= 31 /\ (k <> 0 -> block = 2 ^ k).
Proof.
  change (2 ^ 31) with 2147483648. intros Hb. unfold exact_log2.
  assert (forall k, 0 <= k <= 31 -> u32 (Z.shiftl 1 k) = 2 ^ k) as Hu.
  { intros k Hk. rewrite shiftl_pow2 by lia. pose proof (Z.pow_le_mono_r 2 k 31 ltac:(lia) ltac:(lia)). apply uN_small. change (2 ^ 31) with 2147483648 in *. change (2 ^ 32) with 4294967296. pose proof (Z.pow_nonneg 2 k). lia. }
  destruct (fun H => loop_total (fun b => if block >? u32 (Z.shiftl 1 b) then Some (inl (b + 1)) else Some (inr b)) (fun b => 0 <= b <= 31) (fun b => 0 <= b <= 31) (fun b => Z.to_nat (31 - b)) H 33%nat 0) as (k & -> & Hr).
  - intros b Hbb. rewrite Hu by done. destruct (Z.gtb_spec block (2 ^ b)).
    + left. eexists. split; [done|]. destruct (decide (b = 31)) as [->|]; [change (2 ^ 31) with 2147483648 in *; lia|]. lia.
    + right. by eexists.
  - lia.
  - lia.
  - cbn [mbind option_bind]. rewrite Hu by done. eexists. split; [done|]. destruct (Z.eqb_spec block (2 ^ k)); [done|]. lia.
Qed.
Lemma freelist_bits_spec max : exists b, freelist_bits max = Some b /\ 1 <= b <= 8.
Proof.
  unfold freelist_bits. eapply (loop_total _ (fun b => 1 <= b <= 8) (fun b => 1 <= b <= 8) (fun b => Z.to_nat (8 - b))); [|lia|lia].
  intros b Hb. destruct (Z.ltb_spec b 8); cbn [andb]; [|right; by eexists]. destruct (_ <? _); [left|right]; eexists; (split; [done|]); lia.
Qed.
(** Where the blocks start: after the size table, on a block boundary. *)
Definition start_block (varsize : bool) (max block : Z) : Z := Z.quot (align_block (sizes_end varsize max) block) block.
Lemma start_block_spec varsize max block : 0 < max <= GC_PAGE_SIZE -> 0 < block -> (varsize = true -> block = 8 \/ block = 64 \/ block = 8192) ->
  let first := start_block varsize max block in
  0 <= first < max /\ first < 2 ^ 15 /\ sizes_end varsize max <= first * block /\ (varsize = false -> first = 0) /\
  (varsize = true -> (1024 <= max -> block < 256 -> 255 <= max - first) /\ (max <= 8 -> first = 0) /\ (block = 8192 -> max <= 256 -> first <= 1)).
Proof.
  change GC_PAGE_SIZE with 65536. change (2 ^ 15) with 32768. intros Hm Hb Hv. cbv zeta. unfold start_block, align_block, sizes_end. destruct varsize.
  2: { rewrite Z.rem_0_l by lia. cbn [negb Z.eqb]. change (0 =? 0) with true. cbn [negb]. rewrite Z.quot_0_l by lia. repeat split; try done; lia. }
  specialize (Hv eq_refl). unfold SIZES_PADDING. rewrite (land_mask 6) by done. change (2 ^ 6) with 64. set (e := if max <=? 8 then 0 else max + (- max) mod 64).
  assert (0 <= e /\ (max <= 8 -> e = 0) /\ (8 < max -> e mod 64 = 0 /\ max <= e <= max + 63)) as (He0 & He1 & He2).
  { unfold e. destruct (Z.leb_spec max 8); [split; [lia|]; split; [done|lia]|]. split; [z_div|]. split; [lia|]. intros _. split; z_div. }
  clearbody e. rewrite Z.rem_mod_nonneg by lia.
  assert (exists f, (if negb (e mod block =? 0) then e + (block - e mod block) else e) = f * block /\ 0 <= f /\ e <= f * block < e + block) as (f & -> & Hf & Hfb).
  { destruct (Z.eqb_spec (e mod block) 0) as [E|E]; cbn [negb].
    - exists (e / block). pose proof (Z.div_mod e block ltac:(lia)). pose proof (Z.div_pos e block ltac:(lia) ltac:(lia)). lia.
    - exists (e / block + 1). pose proof (Z.div_mod e block ltac:(lia)). pose proof (Z.mod_pos_bound e block ltac:(lia)). pose proof (Z.div_pos e block ltac:(lia) ltac:(lia)). lia. }
  rewrite Z.quot_mul by lia. destruct (decide (max <= 8)) as [Hs|Hs]; [specialize (He1 Hs); subst e|destruct (He2 ltac:(lia)) as [H64 Hmax]; clear He1 He2];
    destruct Hv as [->|[->| ->]]; repeat split; intros; try lia; try z_div.
Qed.
Lemma new_page_spec junk num_pages new_base incremental block size varsize : 0 <= num_pages -> 0 < block <= size -> size <= INT_MAX ->
  Z.quot size block <= GC_PAGE_SIZE -> (varsize = true -> block = 8 \/ block = 64 \/ block = 8192) ->
  exists ph, gc_allocator_new_page junk num_pages new_base incremental block size varsize = Done ph /\
    page_ok ph [Run (first_block ph) (max_blocks ph - first_block ph)] /\ need_flush ph = false /\ base ph = new_base (page_size ph) /\ block_size ph = block /\
    size <= page_size ph /\ (256 <= block -> page_size ph = size) /\ max_blocks ph = Z.quot (page_size ph) block /\ first_block ph = start_block varsize (max_blocks ph) block /\
    (block_bits ph <> 0 -> block = 2 ^ block_bits ph) /\ 0 <= block_bits ph /\ (sizes ph = None <-> varsize = false) /\ current (free ph) = 0 /\ aget (data (free ph)) 0 = Some (first_block ph, max_blocks ph - first_block ph).
Proof.
  intros Hnp Hb Hsize Hq Hv. unfold INT_MAX in Hsize. unfold gc_allocator_new_page.
  assert (exists size', (if block <? 256 then grow_page num_pages block size else Some size) = Some size' /\ size <= size' /\ Z.quot size' block <= GC_PAGE_SIZE /\ (256 <= block -> size' = size)) as (sz & -> & Hsz & Hqs & Hsame).
  { destruct (Z.ltb_spec block 256); [|exists size; repeat split; [lia|done]]. destruct (grow_page_spec num_pages block size) as (sz & -> & ? & ?); [lia..|done|]. exists sz. repeat split; try done. lia. }
  cbn [ub mbind outcome_bind]. cbv zeta. change GC_PAGE_SIZE with 65536 in *. destruct (Z.gtb_spec (Z.quot sz block) 65536); [lia|].
  destruct (exact_log2_spec block) as (bits & -> & Hbits & Hpow); [change (2 ^ 31) with 2147483648; lia|]. cbn [ub mbind outcome_bind].
  assert (0 < Z.quot sz block) as Hmax0 by (rewrite Z.quot_div_nonneg by lia; apply Z.div_str_pos; lia).
  destruct (start_block_spec varsize (Z.quot sz block) block ltac:(done) ltac:(lia) Hv) as (Hf & Hf15 & Hend & Hfix & Hvar). fold (start_block varsize (Z.quot sz block) block).
  set (max := Z.quot sz block) in *. set (first := start_block varsize max block) in *.
  rewrite wrapN_small by (change (2 ^ (16 - 1)) with 32768; change (2 ^ 15) with 32768 in Hf15; lia).
  destruct (freelist_bits_spec max) as (fb & -> & Hfb). cbn [ub mbind outcome_bind].
  destruct (alloc_freelist_spec junk fb ltac:(lia)) as (Hwf0 & Hall0 & Hcur0).
  destruct (freelist_append_spec junk (alloc_freelist junk fb) first (max - first) Hwf0) as (fl & -> & Hwf & Hall & Hcur & Hcount); [change (2 ^ 32) with 4294967296; lia|change (2 ^ 32) with 4294967296; lia|cbn [alloc_freelist size_bits]; lia|].
  cbn [ub mbind outcome_bind]. eexists. split; [done|]. cbn [need_flush base block_size page_size max_blocks first_block sizes free block_bits].
  rewrite Hall0 in Hall. cbn [app] in Hall. rewrite Hcur0 in Hcur.
  split; [|repeat split; try done; try lia; [destruct varsize; done|by intros ->|]].
  - split; cbn [first_block max_blocks free sizes bmp need_flush]; try done.
    + cbn. split; [done|]. split; lia.
    + split; [done|]. unfold fl_runs. rewrite Hcur, Hall. done.
    + split; [constructor; [|done]|].
      * destruct varsize; cbn; [|lia]. intros j Hj. rewrite aget_lookup by lia. apply lookup_replicate_2. lia.
      * intros s. destruct varsize; [|done]. intros [= <-]. rewrite alen_replicate. lia.
    + split; [|done]. intros b. destruct incremental; [|done]. intros [= <-]. rewrite alen_replicate, shiftr_div by lia. change (2 ^ 3) with 8. split; [z_div|]. apply Forall_replicate. lia.
  - destruct (fl_all_eq fl Hwf) as [Hd _]. rewrite Hd, Hall. done.
Qed.
