(* ===== verification/AllocatorHeap.v ===== *)
(** * The pages of one page id: live objects, and what the allocating calls do to them

    An object is an interval of addresses.  The live objects of a page are its objects, or,
    while it waits for a rebuild, those of them that the last marking has marked.  A page of
    the large partition is one object; the code never takes it from its run.  The
    specifications say that an allocating call adds the intervals it returns to the live
    objects of the list and changes no other, and that the list keeps its invariant, from
    which live objects are disjoint. *)
From S2P Require Import Prelude Allocator AllocatorPage AllocatorAlloc.

(** ** Disjoint intervals *)
Definition apart (a b : Z * Z) : Prop := a.1 + a.2 <= b.1 \/ b.1 + b.2 <= a.1.
#[export] Instance apart_sym : Symmetric apart.
Proof. intros a b. unfold apart. tauto. Qed.
Definition inside (a b : Z * Z) : Prop := b.1 <= a.1 /\ a.1 + a.2 <= b.1 + b.2.
Lemma apart_inside a b a' b' : apart a b -> inside a' a -> inside b' b -> apart a' b'.
Proof. unfold apart, inside. lia. Qed.
(** Every two elements at different positions are related. *)
Fixpoint pairwise {A} (R : A -> A -> Prop) (l : list A) : Prop := match l with [] => True | x :: l => Forall (R x) l /\ pairwise R l end.
Section pairwise.
Context {A : Type} (R : A -> A -> Prop) `{!Symmetric R}.
Lemma pairwise_app l1 l2 : pairwise R (l1 ++ l2) <-> pairwise R l1 /\ pairwise R l2 /\ forall x y, x ∈ l1 -> y ∈ l2 -> R x y.
Proof.
  induction l1 as [|z l1 IH]; cbn [app pairwise].
  - split; [intros H; repeat split; [done|]; intros x y Hx; by apply not_elem_of_nil in Hx|tauto].
  - rewrite IH, Forall_app, !Forall_forall. set_solver.
Qed.
#[export] Instance pairwise_perm : Proper ((≡ₚ) ==> iff) (pairwise R).
Proof.
  intros l1 l2 Hp. assert (forall l1 l2, l1 ≡ₚ l2 -> pairwise R l1 -> pairwise R l2) as H; [|split; apply H; by symmetry in Hp || exact Hp].
  clear l1 l2 Hp. intros l1 l2 Hp. induction Hp as [|x l1 l2 Hp IH|x y l|l1 l2 l3 H1 IH1 H2 IH2]; cbn [pairwise]; [done| | |tauto].
  - intros [Hx Hl]. split; [by rewrite <- Hp|by apply IH].
  - rewrite !Forall_cons. intros ([? ?] & ? & ?). by repeat split.
Qed.
Lemma pairwise_submseteq l1 l2 : l1 ⊆+ l2 -> pairwise R l2 -> pairwise R l1.
Proof. intros [k Hk]%submseteq_Permutation H. rewrite Hk in H. by apply pairwise_app in H as [? _]. Qed.
End pairwise.
Lemma pairwise_fmap {A B} (R : A -> A -> Prop) (S : B -> B -> Prop) (f : A -> B) l : (forall x y, x ∈ l -> y ∈ l -> R x y -> S (f x) (f y)) -> pairwise R l -> pairwise S (f <$> l).
Proof.
  induction l as [|x l IH]; intros Hf; cbn [pairwise fmap list_fmap]; [done|]. intros [Hx Hl]. split; [|apply IH; [intros y z Hy Hz; apply Hf; by right|done]].
  rewrite Forall_forall in Hx. apply Forall_forall. intros y Hy. apply list_elem_of_fmap in Hy as (z & -> & Hz). apply Hf; [left|by right|by apply Hx].
Qed.

(** ** One page *)
Definition var_part (part : Z) : bool := (GC_FIXED_PARTS <=? part) && (part <? GC_LARGE_PART).
(** No bit is set where the size table has 0: [gc_allocator_get_block_id] answers -1 there. *)
Definition marks_ok (ph : gc_pheader) (b : list Z) : Prop :=
  match sizes ph with Some s => forall p, first_block ph <= p < max_blocks ph -> is_marked b p = true -> aget s p <> Some 0 | None => True end.
Record page_inv (part : Z) (ph : gc_pheader) (l : list item) : Prop := PageInv {
  pi_ok : page_ok ph l;
  pi_block : if part =? GC_LARGE_PART then block_size ph = page_size ph /\ objs l = [] else aget GC_SIZES part = Some (block_size ph);
  pi_pos : 0 < block_size ph <= page_size ph;
  pi_max : max_blocks ph = Z.quot (page_size ph) (block_size ph);
  pi_bits : 0 <= block_bits ph /\ (block_bits ph <> 0 -> block_size ph = 2 ^ block_bits ph);
  pi_first : sizes_end (var_part part) (max_blocks ph) <= first_block ph * block_size ph;
  pi_sizes : sizes ph = None <-> var_part part = false;
  pi_marks : need_flush ph = true -> forall b, bmp ph = Some b -> marks_ok ph b }.
(** The objects of a page, and the live ones. *)
Definition page_objs (part : Z) (l : list item) : list (Z * Z) := if part =? GC_LARGE_PART then [(0, 1)] else objs l.
Definition page_live (part : Z) (ph : gc_pheader) (l : list item) : list (Z * Z) :=
  if need_flush ph then match bmp ph with Some b => kept b (page_objs part l) | None => [] end else page_objs part l.
Definition place (ph : gc_pheader) : Z * Z := (base ph, page_size ph).
Definition span (ph : gc_pheader) (o : Z * Z) : Z * Z := (base ph + o.1 * block_size ph, o.2 * block_size ph).
Definition spans (part : Z) (ph : gc_pheader) (l : list item) : list (Z * Z) := span ph <$> page_live part ph l.

Lemma covers_objs_apart b l e : covers b l e -> pairwise apart (objs l).
Proof.
  revert b. induction l as [|i l IH]; intros b; cbn [covers]; [done|]. intros (Hp & Hok & Hl). specialize (IH _ Hl). destruct i as [p n|p n|p]; cbn [objs omap list_omap obj_of]; [|exact IH|exact IH].
  split; [|exact IH]. apply Forall_forall. intros [q m] Hq. apply objs_in in Hq. destruct (covers_in _ _ _ _ Hl Hq) as (Hb & _). cbn in *. left. cbn. lia.
Qed.
Lemma page_objs_in part ph l p n : page_inv part ph l -> (p, n) ∈ page_objs part l -> first_block ph <= p /\ 0 < n /\ p + n <= max_blocks ph.
Proof.
  intros [[Hr Hc _ _ _] Hb Hpos Hmax _ _ _ _] Hin. unfold page_objs in Hin. case_if_bool.
  - destruct Hb as [Hb _]. apply list_elem_of_singleton in Hin as [= -> ->]. rewrite Hb, Z.quot_same in Hmax by lia. lia.
  - apply objs_in in Hin. destruct (covers_in _ _ _ _ Hc Hin) as (H1 & H2 & H3). cbn in *. lia.
Qed.
Lemma page_objs_apart part ph l : page_inv part ph l -> pairwise apart (page_objs part l).
Proof. intros Hi. unfold page_objs. case_if_bool; [by repeat constructor|]. eapply covers_objs_apart, pg_covers, pi_ok, Hi. Qed.
Lemma page_live_objs part ph l : page_live part ph l ⊆+ page_objs part l.
Proof. unfold page_live, kept. destruct (need_flush ph); [|done]. destruct (bmp ph); [|apply submseteq_nil_l]. apply sublist_submseteq. induction (page_objs part l) as [|o k IH]; [done|]. rewrite filter_cons. destruct (decide _); by constructor. Qed.
Lemma page_live_in part ph l o : o ∈ page_live part ph l -> o ∈ page_objs part l.
Proof. intros Ho. eapply elem_of_submseteq; [done|apply page_live_objs]. Qed.
Lemma page_live_range part ph l p n : page_inv part ph l -> (p, n) ∈ page_live part ph l ->
  0 <= first_block ph <= p /\ 0 < n /\ p + n <= max_blocks ph /\ max_blocks ph * block_size ph <= page_size ph.
Proof.
  intros Hi Ho. destruct (page_objs_in part ph l p n Hi (page_live_in _ _ _ _ Ho)) as (? & ? & ?). destruct Hi as [[Hr _ _ _ _] _ Hpos Hmax _ _ _ _].
  repeat split; try lia. rewrite Hmax, Z.quot_div_nonneg, Z.mul_comm by lia. apply Z.mul_div_le. lia.
Qed.
Lemma spans_inside part ph l s : page_inv part ph l -> s ∈ spans part ph l -> 0 < s.2 /\ inside s (place ph) /\ base ph + first_block ph * block_size ph <= s.1.
Proof.
  intros Hi Hs. apply list_elem_of_fmap in Hs as ([p n] & -> & Ho). apply (page_live_range _ _ _ _ _ Hi) in Ho as (H0 & H1 & H2 & H3).
  destruct Hi as [_ _ Hpos _ _ _ _ _]. unfold inside, span, place. cbn. nia.
Qed.
Lemma spans_apart part ph l : page_inv part ph l -> pairwise apart (spans part ph l).
Proof.
  intros Hi. apply (pairwise_fmap apart); [|apply (pairwise_submseteq _ _ _ (page_live_objs _ _ _)), (page_objs_apart _ _ _ Hi)].
  intros [p n] [q m] Ho Ho' Ha. destruct Hi as [_ _ Hpos _ _ _ _ _]. unfold apart, span in *. cbn in *. nia.
Qed.

(** *** Rebuilding *)
Lemma lost_unmarked_marks part ph l b : page_inv part ph l -> marks_ok ph b -> Forall (lost_unmarked b) l.
Proof.
  intros [[Hr Hc _ [Hsz _] _] Hb _ _ _ _ _ _] Hm. rewrite Forall_forall in *. intros [p n|p n|p] Hin; try done. cbn. destruct (covers_in _ _ _ _ Hc Hin) as (H1 & H2 & _). cbn in *.
  specialize (Hsz _ Hin). unfold marks_ok in Hm. destruct (sizes ph) as [s|]; cbn in Hsz; [|done]. destruct (is_marked b p) eqn:E; [|done]. exfalso. apply (Hm p); [lia|done|done].
Qed.
Definition same_place (ph ph' : gc_pheader) : Prop := base ph' = base ph /\ page_size ph' = page_size ph /\ block_size ph' = block_size ph.
Lemma flush_inv junk part ph l : part <> GC_LARGE_PART -> page_inv part ph l -> exists ph' l', flush_if_needed junk ph = Some ph' /\ page_inv part ph' l' /\
  need_flush ph' = false /\ page_live part ph' l' = page_live part ph l /\ same_place ph ph'.
Proof.
  intros Hpart%Z.eqb_neq Hi. pose proof Hi as [Hok Hb Hpos Hmax Hbits Hfirst Hsizes Hmarks]. unfold flush_if_needed, page_live. destruct (need_flush ph) eqn:En; [|by exists ph, l; rewrite En].
  pose proof (pg_bmp _ _ Hok) as [_ Hbm]. destruct (bmp ph) as [b|] eqn:Eb; [|by destruct (Hbm En)]. clear Hbm. specialize (Hmarks eq_refl b eq_refl).
  destruct (flush_free_list_spec junk ph l b Hok Eb (lost_unmarked_marks _ _ _ _ Hi Hmarks)) as (ph' & l' & Hf & Hok' & Ho & _ & Hn & Hba & Hbl & Hps & Hfb & Hmx & Hbmp & Hbb & Hw).
  exists ph', l'. split; [done|]. rewrite Hn. split; [|split; [done|]; split; [|done]].
  - split; rewrite ?Hbl, ?Hps, ?Hmx, ?Hfb, ?Hbb, ?Hn; try done.
    + by rewrite Hpart in *.
    + rewrite <- Hsizes. destruct (sizes ph), (sizes ph'); done.
  - unfold page_objs. by rewrite Hpart.
Qed.

(** ** Lists of pages *)
Definition blocks (a size n : Z) : list (Z * Z) := (fun i => (a + i * size, size)) <$> seqZ 0 n.
Definition list_live (part : Z) (ps : list gc_pheader) (ls : list (list item)) : list (Z * Z) := concat (zip_with (spans part) ps ls).
Lemma span_singles ph p n : span ph <$> singles p n = blocks (base ph + p * block_size ph) (block_size ph) n.
Proof.
  unfold singles, blocks. rewrite <- list_fmap_compose, <- (Z.add_0_r p), <- fmap_add_seqZ, Z.add_0_r, <- list_fmap_compose. apply list_fmap_ext. intros _ i _. unfold span. cbn. f_equal; lia.
Qed.
Lemma page_live_now part ph l : part <> GC_LARGE_PART -> need_flush ph = false -> page_live part ph l = objs l.
Proof. intros Hp%Z.eqb_neq Hn. unfold page_live, page_objs. by rewrite Hn, Hp. Qed.
Lemma list_live_cons part ph l ps ls : list_live part (ph :: ps) (l :: ls) = spans part ph l ++ list_live part ps ls.
Proof. done. Qed.
Lemma same_place_trans p q r : same_place p q -> same_place q r -> same_place p r.
Proof. unfold same_place. intuition congruence. Qed.
Lemma same_place_span p q o : same_place p q -> span q o = span p o.
Proof. intros (Hb & _ & Hs). unfold span. by rewrite Hb, Hs. Qed.
Lemma same_place_spans part p q l l' : same_place p q -> page_live part q l' = page_live part p l -> spans part q l' = spans part p l.
Proof. intros Hs Hl. unfold spans. rewrite Hl. apply list_fmap_ext. intros _ o _. by apply same_place_span. Qed.
Lemma same_places_place ps qs : Forall2 same_place ps qs -> place <$> qs = place <$> ps.
Proof. induction 1 as [|p q ps qs (Hb & Hs & _) _ IH]; [done|]. cbn. rewrite IH. unfold place. by rewrite Hb, Hs. Qed.
Lemma same_places_refl ps : Forall2 same_place ps ps.
Proof. by apply Forall_Forall2_diag, Forall_forall. Qed.

(** *** Single blocks *)
Lemma fixed_part_not_large part : 0 <= part < GC_FIXED_PARTS -> part <> GC_LARGE_PART /\ var_part part = false.
Proof. change GC_FIXED_PARTS with 5. change GC_LARGE_PART with 8. intros Hp. split; [lia|]. unfold var_part. change GC_FIXED_PARTS with 5. destruct (Z.leb_spec 5 part); [lia|done]. Qed.
(** The page a run was taken from. *)
Lemma fixed_take_inv part ph l want : 0 <= part < GC_FIXED_PARTS -> page_inv part ph l -> need_flush ph = false -> current (free ph) < count (free ph) -> 0 < want ->
  exists p m fl l', aget (data (free ph)) (current (free ph)) = Some (p, m) /\ 0 < m /\ take_from (free ph) (current (free ph)) (Z.min m want) = Some fl /\
    page_inv part (set_free ph fl) l' /\ spans part (set_free ph fl) l' ≡ₚ blocks (base ph + p * block_size ph) (block_size ph) (Z.min m want) ++ spans part ph l.
Proof.
  intros Hpart Hi Hn Hcur Hw. destruct (fixed_part_not_large part Hpart) as [Hlarge Hv]. pose proof Hi as [Hok Hb Hpos Hmax Hbits Hfirst Hsizes Hmarks].
  destruct (fixed_page_spec ph l want Hok) as (p & m & fl & l' & Hget & Hm & Htake & Hok' & Ho); [by apply Hsizes|done|done|].
  exists p, m, fl, l'. split; [done|]. split; [done|]. split; [done|]. split.
  - split; try done; [by unfold set_free; rewrite Hn|]. by rewrite (proj2 (Z.eqb_neq _ _) Hlarge) in *.
  - unfold spans. rewrite !page_live_now by done. change (span (set_free ph fl)) with (span ph). by rewrite Ho, fmap_app, span_singles.
Qed.
Lemma scan_fixed_spec junk part want ps ls : 0 <= part < GC_FIXED_PARTS -> 0 < want -> Forall2 (page_inv part) ps ls ->
  exists ps' ls' r, scan_fixed junk ps want = Some (ps', r) /\ Forall2 (page_inv part) ps' ls' /\ Forall2 same_place ps ps' /\
  match r with
  | None => list_live part ps' ls' = list_live part ps ls
  | Some (at_, ph, bid, taken) => 0 < at_ <= alen ps /\ 0 < taken <= want /\ aget GC_SIZES part = Some (block_size ph) /\
      list_live part ps' ls' ≡ₚ blocks (base ph + bid * block_size ph) (block_size ph) taken ++ list_live part ps ls
  end.
Proof.
  intros Hpart Hw. destruct (fixed_part_not_large part Hpart) as [Hlarge Hv]. induction 1 as [|ph l ps ls Hi Hps IH]; cbn [scan_fixed].
  { exists [], [], None. done. }
  destruct (flush_inv junk part ph l Hlarge Hi) as (ph1 & l1 & -> & Hi1 & Hn1 & Hlive & Hsame). cbn [mbind option_bind]. rewrite !list_live_cons, <- (same_place_spans _ _ _ _ _ Hsame Hlive).
  destruct (Z.ltb_spec (current (free ph1)) (count (free ph1))) as [Hc|Hc].
  - destruct (fixed_take_inv part ph1 l1 want Hpart Hi1 Hn1 Hc Hw) as (p & m & fl & l' & -> & Hm & Ht & Hi' & Hl'). cbn [mbind option_bind fst snd].
    replace (if m <? want then m else want) with (Z.min m want) by (destruct (Z.ltb_spec m want); lia). rewrite Ht. cbn [mbind option_bind].
    eexists _, (l' :: ls), _. split; [done|]. split; [by constructor|]. split; [constructor; [done|apply same_places_refl]|]. rewrite alen_cons. split; [pose proof (alen_nonneg ps); lia|]. split; [lia|].
    split; [pose proof (pi_block _ _ _ Hi') as Hb; by rewrite (proj2 (Z.eqb_neq _ _) Hlarge) in Hb|]. rewrite list_live_cons. cbn [set_free base block_size]. rewrite Hl'. by rewrite app_assoc.
  - destruct IH as (ps' & ls' & r & -> & Hps' & Hsp & Hr). cbn [mbind option_bind]. eexists (ph1 :: ps'), (l1 :: ls'), r. split; [done|]. split; [by constructor|]. split; [by constructor|].
    destruct r as [[[[at_ ph'] bid] taken]|].
    + destruct Hr as (Ha & Ht & Hb & Hl). rewrite alen_cons. split; [lia|]. split; [done|]. split; [done|]. rewrite list_live_cons, Hl. apply Permutation_app_swap_app.
    + by rewrite list_live_cons, Hr.
Qed.

(** *** New pages *)
Lemma var_blocks part block : 0 <= part <= GC_LARGE_PART -> var_part part = true -> aget GC_SIZES part = Some block -> block = 8 \/ block = 64 \/ block = 8192.
Proof.
  unfold var_part. change GC_LARGE_PART with 8. change GC_FIXED_PARTS with 5. intros Hp Hv Hb. zbool. assert (part = 5 \/ part = 6 \/ part = 7) as [->|[->| ->]] by lia; vm_compute in Hb; simplify_eq; auto.
Qed.
Lemma new_page_inv junk part num nb inc block size : 0 <= part <= GC_LARGE_PART -> 0 <= num -> 0 < block <= size -> size <= INT_MAX -> Z.quot size block <= GC_PAGE_SIZE ->
  (if part =? GC_LARGE_PART then block = size /\ 256 <= block else aget GC_SIZES part = Some block) ->
  exists ph, gc_allocator_new_page junk num nb inc block size (var_part part) = Done ph /\ page_inv part ph [Run (first_block ph) (max_blocks ph - first_block ph)] /\
    need_flush ph = false /\ base ph = nb (page_size ph) /\ block_size ph = block /\ size <= page_size ph /\ max_blocks ph = Z.quot (page_size ph) block /\ first_block ph = start_block (var_part part) (max_blocks ph) block /\
    (256 <= block -> page_size ph = size) /\ current (free ph) = 0 /\ aget (data (free ph)) 0 = Some (first_block ph, max_blocks ph - first_block ph).
Proof.
  intros Hpart Hnum Hb Hs Hq Hcl. assert (var_part part = true -> block = 8 \/ block = 64 \/ block = 8192) as Hv.
  { intros Hv. destruct (Z.eqb_spec part GC_LARGE_PART) as [->|]; [done|]. by apply (var_blocks part). }
  destruct (new_page_spec junk num nb inc block size (var_part part) Hnum Hb Hs Hq Hv) as (ph & Hnew & Hok & Hn & Hba & Hbl & Hps & Hsame & Hmax & Hfirst & Hbits & Hbits0 & Hsz & Hcur & Hget).
  exists ph. split; [done|]. split; [|by repeat split]. pose proof (pg_range _ _ Hok) as Hr. split; try done; rewrite ?Hbl; try done.
  - case_if_bool; [|done]. destruct Hcl as [-> H256]. split; [symmetry; by apply Hsame|done].
  - lia.
  - rewrite Hfirst. apply (start_block_spec (var_part part) (max_blocks ph) block); [lia|lia|done].
  - by rewrite Hn.
Qed.
Lemma new_page_live part ph : part <> GC_LARGE_PART -> need_flush ph = false -> spans part ph [Run (first_block ph) (max_blocks ph - first_block ph)] = [].
Proof. intros Hp Hn. unfold spans. by rewrite page_live_now. Qed.

(** ** The invariant of a list *)
Record list_inv (part : Z) (l : page_list) (ls : list (list item)) : Prop := ListInv {
  li_pages : Forall2 (page_inv part) (pages l) ls;
  li_apart : pairwise apart (place <$> pages l);
  li_from : 0 <= free_from l <= alen (pages l) }.
(** The memory of a new page is none of the allocator's. *)
Definition new_memory (nb : Z -> Z) (l : page_list) : Prop := forall size, 0 < size -> Forall (apart (nb size, size)) (place <$> pages l).
Lemma list_live_app part ps1 ps2 ls1 ls2 : length ps1 = length ls1 -> list_live part (ps1 ++ ps2) (ls1 ++ ls2) = list_live part ps1 ls1 ++ list_live part ps2 ls2.
Proof. intros Hl. unfold list_live. by rewrite zip_with_app, concat_app. Qed.
Lemma list_inv_split part l ls : list_inv part l ls -> exists l1 l2, ls = l1 ++ l2 /\ Forall2 (page_inv part) (before_free l) l1 /\ Forall2 (page_inv part) (from_free l) l2 /\
  pages l = before_free l ++ from_free l /\ alen (from_free l) = free_from l.
Proof.
  intros [Hps _ Hf]. assert (pages l = before_free l ++ from_free l) as E by (unfold before_free, from_free; by rewrite take_drop). rewrite E in Hps.
  apply Forall2_app_inv_l in Hps as (l1 & l2 & H1 & H2 & ->). exists l1, l2. repeat split; try done. unfold from_free, alen in *. rewrite length_drop. lia.
Qed.
Lemma list_inv_update part l ls1 rest ls2 ls2' at_ : list_inv part l (ls1 ++ ls2) -> Forall2 (page_inv part) (before_free l) ls1 -> Forall2 (page_inv part) rest ls2' ->
  Forall2 same_place (from_free l) rest -> 0 <= at_ <= alen (before_free l ++ rest) -> list_inv part (Pages (before_free l ++ rest) at_) (ls1 ++ ls2').
Proof.
  intros Hl H1 H2 Hs Hat. destruct (list_inv_split _ _ _ Hl) as (_ & _ & _ & _ & _ & E & _). destruct Hl as [_ Ha _]. split; cbn [pages free_from]; [by apply Forall2_app| |done].
  rewrite fmap_app, (same_places_place _ _ Hs), <- fmap_app, <- E. done.
Qed.
Lemma list_inv_push part ph l ps ls : page_inv part ph l -> Forall2 (page_inv part) ps ls -> pairwise apart (place <$> ps) -> Forall (apart (place ph)) (place <$> ps) ->
  list_inv part (Pages (ph :: ps) (alen ps + 1)) (l :: ls).
Proof. intros Hi Hps Ha Hp. pose proof (alen_nonneg ps). split; cbn [pages free_from]; [by constructor|done|rewrite alen_cons; lia]. Qed.
(** A call adds at most one page, in new memory. *)
Definition grown (nb : Z -> Z) (l l' : page_list) : Prop :=
  place <$> pages l' = place <$> pages l \/ exists size, 0 < size /\ place <$> pages l' = (nb size, size) :: (place <$> pages l).

(** ** Allocating *)
Lemma take_first_from fl p m n : current fl = 0 -> aget (data fl) 0 = Some (p, m) -> 0 <= m -> m < 2 ^ 32 -> 0 < n < m -> take_first fl n = take_from fl (current fl) n.
Proof.
  intros Hc Hg Hm Hm32 Hn. unfold take_first, take_from. rewrite Hc, Hg. cbn [mbind option_bind snd fst]. rewrite (u32_small (m - n)) by lia. by rewrite (proj2 (Z.eqb_neq (m - n) 0)) by lia.
Qed.
Lemma fl_runs_head fl r rs : fl_wf fl -> fl_runs fl = r :: rs -> current fl < count fl /\ aget (data fl) (current fl) = Some r.
Proof.
  intros Hwf Hr. destruct (fl_all_eq fl Hwf) as [Hd Hal]. pose proof (fl_runs_all fl Hwf) as Ha. pose proof Hwf as (_ & Hc & _). rewrite Hr in Ha.
  assert (alen (take (Z.to_nat (current fl)) (fl_all fl)) = current fl) as Hp by (unfold alen in *; rewrite length_take; lia).
  split; [rewrite <- Hal, Ha, alen_app, alen_cons, Hp; pose proof (alen_nonneg rs); lia|]. rewrite Hd, Ha, <- app_assoc. by apply aget_mid.
Qed.
Lemma fixed_block part : 0 <= part < GC_FIXED_PARTS -> exists block, aget GC_SIZES part = Some block /\ 8 <= block <= 40.
Proof.
  change GC_FIXED_PARTS with 5. intros Hp. assert (part = 0 \/ part = 1 \/ part = 2 \/ part = 3 \/ part = 4) as [->|[->|[->|[->| ->]]]] by lia; eexists; (split; [reflexivity|lia]).
Qed.
Lemma quot_lower a b c : 0 < b -> 0 <= c -> c * b <= a -> c <= Z.quot a b.
Proof. intros Hb Hc Ha. rewrite Z.quot_div_nonneg by nia. apply Z.div_le_lower_bound; lia. Qed.
Lemma gc_alloc_fixed_run_spec junk part l ls nb inc want : 0 <= part < GC_FIXED_PARTS -> 0 < want <= 256 -> list_inv part l ls -> new_memory nb l ->
  exists ptr taken l' ls' block, gc_alloc_fixed_run junk l nb inc part want = Done (ptr, taken, l') /\ 0 < taken <= want /\ aget GC_SIZES part = Some block /\
    list_inv part l' ls' /\ list_live part (pages l') ls' ≡ₚ blocks ptr block taken ++ list_live part (pages l) ls /\ grown nb l l'.
Proof.
  intros Hpart Hw Hl Hnb. destruct (fixed_part_not_large part Hpart) as [Hlarge Hv]. destruct (list_inv_split part l ls Hl) as (ls1 & ls2 & -> & H1 & H2 & Epages & Efrom).
  pose proof (Forall2_length _ _ _ H1) as Hlen1. unfold gc_alloc_fixed_run.
  destruct (scan_fixed_spec junk part want (from_free l) ls2 Hpart ltac:(lia) H2) as (rest & ls2' & r & -> & Hrest & Hsame & Hr). cbn [ub mbind outcome_bind].
  assert (place <$> (before_free l ++ rest) = place <$> pages l) as Eplace by (rewrite fmap_app, (same_places_place _ _ Hsame), <- fmap_app, <- Epages; done).
  pose proof (Forall2_length _ _ _ Hsame) as Hlen2. pose proof (alen_nonneg (before_free l)) as Hbf.
  destruct r as [[[[at_ ph] bid] taken]|]; cbn [mbind outcome_bind].
  - destruct Hr as (Hat & Ht & Hb & Hlive). destruct (Z.leb_spec taken 0); [lia|]. destruct (Z.gtb_spec taken want); [lia|]. cbn [orb].
    eexists _, _, _, (ls1 ++ ls2'), (block_size ph). split; [done|]. split; [done|]. split; [done|]. split; [|split; [|by left]].
    + apply (list_inv_update part l ls1 rest ls2 ls2' at_ Hl); [done..|]. rewrite alen_app. unfold alen in *. lia.
    + cbn [pages]. rewrite Epages, !list_live_app by done. rewrite Hlive. apply Permutation_app_swap_app.
  - destruct (fixed_block part Hpart) as (block & Hb & Hblock). rewrite Hb. cbn [ub mbind outcome_bind]. rewrite <- Hv.
    destruct (new_page_inv junk part (alen (before_free l ++ rest)) nb inc block GC_PAGE_SIZE) as (ph & -> & Hi & Hn & Hba & Hbl & Hps & Hmax & Hfirst & _ & Hcur & Hget).
    { change GC_LARGE_PART with 8. change GC_FIXED_PARTS with 5 in Hpart. lia. } { apply alen_nonneg. } { change GC_PAGE_SIZE with 65536. lia. } { unfold INT_MAX. change GC_PAGE_SIZE with 65536. lia. }
    { change GC_PAGE_SIZE with 65536. rewrite Z.quot_div_nonneg by lia. apply Z.div_le_upper_bound; lia. } { by rewrite (proj2 (Z.eqb_neq _ _) Hlarge). }
    cbn [ub mbind outcome_bind]. rewrite Hget. cbn [ub mbind outcome_bind fst snd]. pose proof (pg_range _ _ (pi_ok _ _ _ Hi)) as [Hr1 Hr2]. change GC_PAGE_SIZE with 65536 in *.
    assert (first_block ph = 0) as Hf0. { rewrite Hfirst, Hv. destruct (start_block_spec false (max_blocks ph) block) as (_ & _ & _ & Hz & _); [change GC_PAGE_SIZE with 65536; lia|lia|done|by apply Hz]. }
    assert (1000 <= max_blocks ph) as Hbig by (rewrite Hmax; apply quot_lower; lia).
    destruct (pg_fl _ _ (pi_ok _ _ _ Hi)) as [Hwf Hruns]. destruct (fl_runs_head _ _ _ Hwf Hruns) as [Hcc Hgc].
    destruct (fixed_take_inv part ph _ want Hpart Hi Hn Hcc ltac:(lia)) as (p & m & fl & l' & Hget' & Hm & Ht & Hi' & Hl'). rewrite Hgc in Hget'. injection Hget' as <- <-.
    rewrite Z.min_r in Ht, Hl' by lia. destruct (Z.ltb_spec (max_blocks ph - first_block ph) want); [lia|].
    rewrite (take_first_from (free ph) (first_block ph) (max_blocks ph - first_block ph)) by (first [done|change (2 ^ 32) with 4294967296; lia]). rewrite Ht. cbn [ub mbind outcome_bind].
    destruct (Z.leb_spec want 0); [lia|]. destruct (Z.gtb_spec want want); [lia|]. cbn [orb set_free base block_size].
    eexists _, _, _, (l' :: ls1 ++ ls2'), block. split; [done|]. split; [lia|]. split; [done|]. split; [|split].
    + apply list_inv_push; [done|by apply Forall2_app|rewrite Eplace; apply Hl|]. rewrite Eplace. unfold place at 1. cbn [set_free base page_size]. rewrite Hba. apply Hnb. lia.
    + cbn [pages]. rewrite list_live_cons, Hl', new_page_live by done. rewrite app_nil_r, Hbl, Epages, !list_live_app, Hr by done. done.
    + right. exists (page_size ph). split; [lia|]. cbn [pages]. change (place <$> set_free ph fl :: before_free l ++ rest) with (place ph :: (place <$> (before_free l ++ rest))). rewrite Eplace. unfold place at 1. by rewrite Hba.
Qed.

(** *** Objects of several blocks *)
Lemma var_part_range part : var_part part = true -> GC_FIXED_PARTS <= part < GC_LARGE_PART.
Proof. unfold var_part. intros Hv. by zbool. Qed.
Lemma var_put part ph l ph' l' p n : var_part part = true -> page_inv part ph l -> need_flush ph = false -> page_ok ph' l' -> objs l' ≡ₚ (p, n) :: objs l ->
  need_flush ph' = false -> base ph' = base ph -> block_size ph' = block_size ph -> page_size ph' = page_size ph -> first_block ph' = first_block ph -> max_blocks ph' = max_blocks ph -> block_bits ph' = block_bits ph -> with_sizes (sizes ph) (sizes ph') ->
  page_inv part ph' l' /\ spans part ph' l' ≡ₚ (base ph + p * block_size ph, n * block_size ph) :: spans part ph l /\ same_place ph ph'.
Proof.
  intros Hv Hi Hn Hok Ho Hn' Hba Hbl Hps Hf Hm Hbb Hw. pose proof (var_part_range part Hv) as Hrange. assert (part <> GC_LARGE_PART) as Hlarge by lia. destruct Hi as [Hok0 Hb Hpos Hmax Hbits Hfirst Hsizes Hmarks].
  split; [|split; [|done]].
  - split; rewrite ?Hbl, ?Hps, ?Hm, ?Hf, ?Hbb, ?Hn'; try done; [by rewrite (proj2 (Z.eqb_neq _ _) Hlarge) in *|]. rewrite <- Hsizes. by destruct (sizes ph), (sizes ph').
  - unfold spans. rewrite !page_live_now, Ho by done. cbn. unfold span at 1. cbn. rewrite Hba, Hbl. f_equiv. apply Permutation_refl'. apply list_fmap_ext. intros _ o _. unfold span. by rewrite Hba, Hbl.
Qed.
Lemma scan_var_spec junk part n ps ls : var_part part = true -> 0 < n <= 255 -> Forall2 (page_inv part) ps ls ->
  exists ps' ls' r, scan_var junk ps n = Some (ps', r) /\ Forall2 (page_inv part) ps' ls' /\ Forall2 same_place ps ps' /\
  match r with
  | None => list_live part ps' ls' = list_live part ps ls
  | Some (at_, ph, bid) => 0 < at_ <= alen ps /\ aget GC_SIZES part = Some (block_size ph) /\
      list_live part ps' ls' ≡ₚ (base ph + bid * block_size ph, n * block_size ph) :: list_live part ps ls
  end.
Proof.
  intros Hv Hn. pose proof (var_part_range part Hv) as Hrange. assert (part <> GC_LARGE_PART) as Hlarge by lia. induction 1 as [|ph l ps ls Hi Hps IH]; cbn [scan_var].
  { exists [], [], None. done. }
  destruct (flush_inv junk part ph l Hlarge Hi) as (ph1 & l1 & -> & Hi1 & Hn1 & Hlive & Hsame). cbn [mbind option_bind]. rewrite !list_live_cons, <- (same_place_spans _ _ _ _ _ Hsame Hlive).
  destruct (find_run_spec ph1 l1 n (pi_ok _ _ _ Hi1)) as (k & -> & Hk). cbn [mbind option_bind]. destruct k as [k|].
  - destruct Hk as (a & p & m & c & -> & -> & Hm). assert (sizes ph1 <> None) as Hsz by (intros E; apply (pi_sizes _ _ _ Hi1) in E; congruence).
    destruct (var_page_spec ph1 a p m c n (pi_ok _ _ _ Hi1) Hsz ltac:(lia) ltac:(lia) Hn1) as (fl & ph2 & l2 & -> & -> & Hfin & Hok & Ho & Hn2 & Hba & Hbl & Hpsz & Hf & Hmx & Hbb & Hw).
    cbn [mbind option_bind fst]. rewrite Hfin. cbn [mbind option_bind]. destruct (var_put part ph1 _ ph2 l2 p n Hv Hi1 Hn1 Hok Ho Hn2 Hba Hbl Hpsz Hf Hmx Hbb Hw) as (Hi2 & Hsp & Hsame2).
    eexists _, (l2 :: ls), _. split; [done|]. split; [by constructor|]. split; [constructor; [by apply (same_place_trans _ ph1)|apply same_places_refl]|]. rewrite alen_cons. split; [pose proof (alen_nonneg ps); lia|].
    split; [pose proof (pi_block _ _ _ Hi2) as Hb; by rewrite (proj2 (Z.eqb_neq _ _) Hlarge) in Hb|]. rewrite list_live_cons, Hsp, Hba, Hbl. done.
  - destruct IH as (ps' & ls' & r & -> & Hps' & Hsp & Hr). cbn [mbind option_bind]. eexists (ph1 :: ps'), (l1 :: ls'), r. split; [done|]. split; [by constructor|]. split; [by constructor|].
    destruct r as [[[at_ ph'] bid]|].
    + destruct Hr as (Ha & Hb & Hl). rewrite alen_cons. split; [lia|]. split; [done|]. rewrite list_live_cons, Hl. by rewrite <- Permutation_middle.
    + by rewrite list_live_cons, Hr.
Qed.
Lemma var_geometry part : var_part part = true -> exists block k, aget GC_SIZES part = Some block /\ aget GC_SBITS part = Some k /\ block = 2 ^ k /\ 3 <= k <= 13 /\ (block = 8 \/ block = 64 \/ block = 8192).
Proof.
  intros Hv%var_part_range. change GC_FIXED_PARTS with 5 in *. change GC_LARGE_PART with 8 in *. assert (part = 5 \/ part = 6 \/ part = 7) as [->|[->| ->]] by lia;
    [exists 8, 3|exists 64, 6|exists 8192, 13]; repeat split; auto; lia.
Qed.
Lemma page_size_for_spec size : 0 <= size <= 254 * 8192 -> exists k, page_size_for size = Some (65536 * 2 ^ k) /\ 0 <= k <= 5 /\ size + 1024 <= 65536 * 2 ^ k /\ (size + 1024 <= 65536 -> k = 0).
Proof.
  intros Hs. unfold page_size_for. rewrite int_of_Some by (unfold in_i32, INT_MIN, INT_MAX; lia). cbn [mbind option_bind]. change GC_PAGE_SIZE with 65536.
  destruct (fun H => loop_total (fun psize => if psize <? size + 1024 then psize ← int_of (Z.shiftl psize 1); Some (inl psize) else Some (inr psize))
    (fun ps => exists k, ps = 65536 * 2 ^ k /\ 0 <= k <= 5 /\ (k <> 0 -> 65536 < size + 1024)) (fun ps => exists k, ps = 65536 * 2 ^ k /\ 0 <= k <= 5 /\ (k <> 0 -> 65536 < size + 1024) /\ size + 1024 <= ps) (fun ps => Z.to_nat (5 - Z.log2 (ps / 65536))) H 32%nat 65536) as (ps & -> & k & -> & Hk & Hk0 & Hle).
  - intros ps (k & -> & Hk & Hk0). assert (Z.log2 (65536 * 2 ^ k / 65536) = k) as -> by (rewrite Z.mul_comm, Z.div_mul by lia; apply Z.log2_pow2; lia).
    destruct (Z.ltb_spec (65536 * 2 ^ k) (size + 1024)).
    + left. assert (k < 5) by (destruct (decide (k = 5)) as [->|]; [change (2 ^ 5) with 32 in *; lia|lia]). pose proof (Z.pow_le_mono_r 2 k 4 ltac:(lia) ltac:(lia)) as Hp. change (2 ^ 4) with 16 in Hp. pose proof (Z.pow_pos_nonneg 2 k ltac:(lia) ltac:(lia)).
      rewrite shiftl_mul by lia. change (2 ^ 1) with 2. rewrite int_of_Some by (unfold in_i32, INT_MIN, INT_MAX; lia). cbn [mbind option_bind]. assert (65536 * 2 ^ k * 2 = 65536 * 2 ^ (k + 1)) as -> by (rewrite Z.pow_add_r by lia; change (2 ^ 1) with 2; lia).
      eexists. split; [done|]. split; [exists (k + 1); split; [done|]; lia|]. rewrite Z.mul_comm, Z.div_mul by lia. rewrite Z.log2_pow2 by lia. lia.
    + right. eexists. split; [done|]. exists k. repeat split; try done; lia.
  - exists 0. split; [done|]. lia.
  - change (65536 / 65536) with 1. change (Z.log2 1) with 0. lia.
  - exists k. split; [done|]. split; [done|]. split; [done|]. intros. destruct (decide (k = 0)); [done|]. lia.
Qed.
(** A new page has room for the object it is made for. *)
Lemma new_page_room part block k n psize page first max : var_part part = true -> aget GC_SIZES part = Some block -> 1 <= n <= 254 -> psize = 65536 * 2 ^ k -> 0 <= k <= 5 -> n * block + 1024 <= psize ->
  (n * block + 1024 <= 65536 -> k = 0) -> psize <= page -> (256 <= block -> page = psize) -> max = Z.quot page block -> max <= GC_PAGE_SIZE -> first = start_block true max block -> n <= max - first.
Proof.
  intros Hv Hb Hn -> Hk Hneed Hk0 Hpage Hsame Hmax Hle Hfirst. destruct (var_geometry part Hv) as (block' & j & Hb' & _ & _ & _ & Hcases). rewrite Hb in Hb'. injection Hb' as <-. pose proof (Z.pow_pos_nonneg 2 k ltac:(lia) ltac:(lia)) as Hpos.
  assert (0 < max) as Hm0 by (rewrite Hmax; enough (1 <= Z.quot page block) by lia; apply quot_lower; lia).
  destruct (start_block_spec true max block) as (Hf & Hf15 & Hend & _ & Hvar); [lia|lia|done|]. destruct (Hvar eq_refl) as (Hsmall & H8 & H81). rewrite <- Hfirst in *. clear Hvar.
  destruct (decide (block < 256)) as [Hlt|Hge].
  - assert (1024 <= max) by (rewrite Hmax; apply quot_lower; destruct Hcases as [->|[->| ->]]; lia). specialize (Hsmall ltac:(lia) Hlt). lia.
  - assert (block = 8192) as -> by lia. rewrite Hsame in Hmax by lia. replace (65536 * 2 ^ k) with (8 * 2 ^ k * 8192) in * by lia. rewrite Z.quot_mul in Hmax by lia.
    assert (n + 1 <= max) by lia. destruct (decide (max <= 8)) as [H8'|H8']; [specialize (H8 H8'); lia|].
    pose proof (Z.pow_le_mono_r 2 k 5 ltac:(lia) ltac:(lia)) as H5. change (2 ^ 5) with 32 in H5. specialize (H81 eq_refl ltac:(lia)). lia.
Qed.
Lemma gc_alloc_var_spec junk part l ls nb inc n block : var_part part = true -> aget GC_SIZES part = Some block -> 1 <= n <= 254 -> list_inv part l ls -> new_memory nb l ->
  exists ptr l' ls', gc_alloc_var junk l nb inc part (n * block) = Done (ptr, l') /\ list_inv part l' ls' /\
    list_live part (pages l') ls' ≡ₚ (ptr, n * block) :: list_live part (pages l) ls /\ grown nb l l'.
Proof.
  intros Hv Hb Hn Hl Hnb. destruct (var_geometry part Hv) as (block' & j & Hb' & Hj & Hpow & Hj13 & Hcases). rewrite Hb in Hb'. injection Hb' as <-.
  pose proof (var_part_range part Hv) as Hrange. assert (part <> GC_LARGE_PART) as Hlarge by lia. change GC_FIXED_PARTS with 5 in Hrange. change GC_LARGE_PART with 8 in Hrange.
  destruct (list_inv_split part l ls Hl) as (ls1 & ls2 & -> & H1 & H2 & Epages & Efrom). pose proof (Forall2_length _ _ _ H1) as Hlen1.
  unfold gc_alloc_var. rewrite Hj. cbn [ub mbind outcome_bind]. assert (u32 (Z.shiftr (n * block) j) = n) as ->.
  { rewrite shiftr_div, Hpow, Z.div_mul by lia. apply u32_small. change (2 ^ 32) with 4294967296. lia. }
  destruct (scan_var_spec junk part n (from_free l) ls2 Hv ltac:(lia) H2) as (rest & ls2' & r & -> & Hrest & Hsame & Hr). cbn [ub mbind outcome_bind].
  assert (place <$> (before_free l ++ rest) = place <$> pages l) as Eplace by (rewrite fmap_app, (same_places_place _ _ Hsame), <- fmap_app, <- Epages; done).
  pose proof (Forall2_length _ _ _ Hsame) as Hlen2. pose proof (alen_nonneg (before_free l)) as Hbf.
  destruct r as [[[at_ ph] bid]|].
  - destruct Hr as (Hat & Hb' & Hlive). rewrite Hb in Hb'. injection Hb' as Hb'. eexists _, _, (ls1 ++ ls2'). split; [done|]. split; [|split; [|by left]].
    + apply (list_inv_update part l ls1 rest ls2 ls2' at_ Hl); [done..|]. rewrite alen_app. unfold alen in *. lia.
    + cbn [pages]. rewrite Epages, !list_live_app by done. rewrite Hlive, <- Hb'. by rewrite <- Permutation_middle.
  - destruct (page_size_for_spec (n * block)) as (k & -> & Hk & Hneed & Hk0); [destruct Hcases as [->|[->| ->]]; lia|]. cbn [ub mbind outcome_bind]. rewrite Hb. cbn [ub mbind outcome_bind].
    assert (65536 * 2 ^ k <= 2097152) as Hps2 by (pose proof (Z.pow_le_mono_r 2 k 5 ltac:(lia) ltac:(lia)) as H5; change (2 ^ 5) with 32 in H5; lia).
    pose proof (new_page_inv junk part (alen (before_free l ++ rest)) nb inc block (65536 * 2 ^ k)) as Hnew. rewrite Hv in Hnew.
    destruct Hnew as (ph & -> & Hi & Hn' & Hba & Hbl & Hps & Hmax & Hfirst & Hsame' & Hcur & Hget).
    { change GC_LARGE_PART with 8. lia. } { apply alen_nonneg. } { destruct Hcases as [->|[->| ->]]; lia. } { unfold INT_MAX. lia. }
    { change GC_PAGE_SIZE with 65536. assert (block = 8 -> k = 0) by (intros ->; apply Hk0; lia). assert (block = 64 -> k = 0) by (intros ->; apply Hk0; lia).
      rewrite Z.quot_div_nonneg by lia. destruct Hcases as [E|[E|E]]; [rewrite (H E), E|rewrite (H0 E), E|rewrite E; apply Z.div_le_upper_bound; lia]; by vm_compute. }
    { by rewrite (proj2 (Z.eqb_neq _ _) Hlarge). }
    cbn [ub mbind outcome_bind]. pose proof (pg_range _ _ (pi_ok _ _ _ Hi)) as [Hr1 Hr2].
    pose proof (new_page_room part block k n _ (page_size ph) (first_block ph) (max_blocks ph) Hv Hb Hn eq_refl Hk Hneed Hk0 Hps Hsame' Hmax Hr2 Hfirst) as Hroom.
    destruct (pg_fl _ _ (pi_ok _ _ _ Hi)) as [Hwf Hruns]. destruct (sizes ph) as [s|] eqn:Es; [|apply (pi_sizes _ _ _ Hi) in Es; congruence].
    destruct (pg_sizes _ _ (pi_ok _ _ _ Hi)) as [Hsz Hsl]. rewrite Es in Hsz.
    destruct (take_first_spec (free ph) (first_block ph) (max_blocks ph - first_block ph) n s (max_blocks ph) Hwf Hcur Hruns ltac:(lia) ltac:(lia) Hr2 ltac:(lia) Hsz) as (fl & -> & Hwf' & Hruns' & Hc' & Hsz'). cbn [ub mbind outcome_bind].
    destruct (finish_var_spec ph [] (first_block ph) (max_blocks ph - first_block ph) [] n fl [] [Run (first_block ph + n) (max_blocks ph - first_block ph - n)] (pi_ok _ _ _ Hi)) as (ph2 & l2 & -> & Hok & Ho & Hn2 & Hba2 & Hbl2 & Hps2' & Hf & Hmx & Hbb & Hw);
      [congruence|lia|done|done|done|done|done|done|done|constructor|by rewrite Es|].
    cbn [ub mbind outcome_bind]. destruct (var_put part ph _ ph2 l2 _ n Hv Hi Hn' Hok Ho Hn2 Hba2 Hbl2 Hps2' Hf Hmx Hbb Hw) as (Hi2 & Hsp & Hplace).
    eexists _, _, (l2 :: ls1 ++ ls2'). split; [done|]. assert (place ph2 = (nb (page_size ph), page_size ph)) as Ep by (unfold place; by rewrite Hba2, Hps2', Hba). split; [|split].
    + apply list_inv_push; [done|by apply Forall2_app|rewrite Eplace; apply Hl|]. rewrite Eplace, Ep. apply Hnb. lia.
    + cbn [pages]. rewrite list_live_cons, Hsp, new_page_live by done. rewrite Hba2, Hbl2, Hbl, Epages, !list_live_app, Hr by done. done.
    + right. exists (page_size ph). split; [lia|]. cbn [pages fmap list_fmap]. by rewrite Eplace, Ep.
Qed.
Lemma gc_alloc_large_spec junk l ls nb inc sz : 256 <= sz <= INT_MAX -> list_inv GC_LARGE_PART l ls -> new_memory nb l ->
  exists ptr l' ls', gc_alloc_large junk l nb inc sz = Done (ptr, l') /\ list_inv GC_LARGE_PART l' ls' /\
    list_live GC_LARGE_PART (pages l') ls' ≡ₚ (ptr, sz) :: list_live GC_LARGE_PART (pages l) ls /\ grown nb l l'.
Proof.
  intros Hsz Hl Hnb. unfold gc_alloc_large. assert (var_part GC_LARGE_PART = false) as Hv by done. pose proof (new_page_inv junk GC_LARGE_PART (alen (pages l)) nb inc sz sz) as Hnew. rewrite Hv in Hnew.
  destruct Hnew as (ph & -> & Hi & Hn & Hba & Hbl & Hps & Hmax & Hfirst & Hsame & _).
  { done. } { apply alen_nonneg. } { lia. } { lia. } { rewrite Z.quot_same by lia. done. } { rewrite Z.eqb_refl. lia. }
  cbn [ub mbind outcome_bind]. specialize (Hsame ltac:(lia)). eexists _, _, (_ :: ls). split; [done|]. pose proof (li_from _ _ _ Hl). split; [|split].
  - split; cbn [pages free_from]; [constructor; [exact Hi|apply Hl]| |rewrite alen_cons; lia]. split; [|apply Hl]. unfold place at 1. rewrite Hba. apply Hnb. lia.
  - cbn [pages]. rewrite list_live_cons. unfold spans, page_live, page_objs. rewrite Hn, Z.eqb_refl. cbn [fmap list_fmap app]. unfold span at 1. cbn [fst snd]. by rewrite Hbl, Z.mul_0_l, Z.add_0_r, Z.mul_1_l.
  - right. exists (page_size ph). split; [lia|]. cbn. unfold place at 1. by rewrite Hba.
Qed.
