(* ===== verification/AllocatorMark.v ===== *)
(** * After marking: mark bits, finalizers, empty pages, counts *)
From S2P Require Import Prelude Allocator AllocatorPage AllocatorAlloc AllocatorHeap.

(** ** Counted loops in parts *)
Lemma afor_split {S} (f : Z -> S -> option S) n1 n2 i s : afor f (n1 + n2) i s = s ← afor f n1 i s; afor f n2 (i + Z.of_nat n1) s.
Proof.
  revert i s. induction n1 as [|n1 IH]; intros i s; cbn [afor Nat.add]; [cbn; by rewrite Z.add_0_r|]. destruct (f i s) as [s'|]; [|done]. cbn [mbind option_bind]. rewrite IH. by replace (i + 1 + Z.of_nat n1) with (i + Z.of_nat (Datatypes.S n1)) by lia.
Qed.
Lemma afor_skip {S} (f : Z -> S -> option S) n i s : (forall j, i <= j < i + Z.of_nat n -> f j s = Some s) -> afor f n i s = Some s.
Proof. revert i. induction n as [|n IH]; intros i Hf; cbn [afor]; [done|]. rewrite Hf by lia. cbn [mbind option_bind]. apply IH. intros j Hj. apply Hf. lia. Qed.

(** ** The marks of a page *)
Definition marks_wf (ph : gc_pheader) : Prop := forall b, bmp ph = Some b -> Z.shiftr (max_blocks ph + 7) 3 <= alen b /\ Forall (fun x => 0 <= x < 256) b /\ marks_ok ph b.
Definition with_marks (ph : gc_pheader) (b : list Z) : gc_pheader :=
  Page (base ph) (page_size ph) (Some b) (block_size ph) (block_bits ph) (max_blocks ph) (first_block ph) (free ph) (sizes ph) true.
Lemma with_marks_inv part ph l b : page_inv part ph l -> marks_wf (with_marks ph b) -> page_inv part (with_marks ph b) l.
Proof.
  intros [[Hr Hc Hf Hs _] Hb Hpos Hmax Hbits Hfirst Hsizes Hmarks] Hm. destruct (Hm b eq_refl) as (Hl & Hbytes & Hmo). split; cbn [with_marks block_size page_size max_blocks first_block block_bits sizes need_flush bmp]; try done.
  - split; cbn [with_marks first_block max_blocks free sizes bmp need_flush]; try done. split; [by intros b' [= <-]|done].
  - by intros _ b' [= <-].
Qed.
Lemma before_mark_spec part ps ls bits ps' : Forall2 (page_inv part) ps ls -> before_mark ps bits = Some ps' -> Forall marks_wf ps' ->
  Forall2 (page_inv part) ps' ls /\ Forall2 (fun ph ph' => exists b, ph' = with_marks ph b) ps ps'.
Proof.
  intros Hps. revert bits ps'. induction Hps as [|ph l ps ls Hi Hps IH]; intros bits ps'; cbn [before_mark].
  { intros [= <-] _. done. }
  destruct bits as [|b bits]; [done|]. destruct (before_mark ps bits) as [rest|] eqn:E; [|done]. cbn [mbind option_bind]. intros [= <-] Hm. inversion Hm as [|? ? Hm1 Hm2]; subst.
  destruct (IH bits rest E Hm2) as [H1 H2]. split; constructor; try done; [by apply with_marks_inv|by exists b].
Qed.
(** An object that the new marks keep is live. *)
Lemma marked_live part ph l b o : page_inv part ph l -> o ∈ spans part ph l -> is_marked b ((o.1 - base ph) / block_size ph) = true -> o ∈ spans part (with_marks ph b) l.
Proof.
  intros Hi Ho Hm. apply list_elem_of_fmap in Ho as ([p n] & -> & Ho). pose proof (page_live_in _ _ _ _ Ho) as Hobj. pose proof (pi_pos _ _ _ Hi). unfold span in Hm. cbn [fst snd] in Hm.
  replace (base ph + p * block_size ph - base ph) with (p * block_size ph) in Hm by lia. rewrite Z.div_mul in Hm by lia.
  apply list_elem_of_fmap. exists (p, n). split; [done|]. unfold page_live. cbn [with_marks need_flush bmp]. unfold kept. apply list_elem_of_filter. done.
Qed.

(** ** Empty pages *)
Lemma is_marked_zero b p lo last_ : forallb (fun x => x =? 0) (take (Z.to_nat (last_ - lo)) (drop (Z.to_nat lo) b)) = true -> 0 <= lo <= Z.shiftr p 3 -> Z.shiftr p 3 < last_ -> is_marked b p = false.
Proof.
  intros Hz Hlo Hlast. unfold is_marked, bmp_test. destruct (aget b (Z.shiftr p 3)) as [x|] eqn:E; [|done]. cbn [mbind option_bind]. enough (x = 0) as -> by (by rewrite Z.land_0_l).
  rewrite forallb_forall in Hz. apply Z.eqb_eq, Hz, list_elem_of_In. pose proof (aget_Some_range _ _ _ E). rewrite aget_lookup in E by lia. apply list_elem_of_lookup. exists (Z.to_nat (Z.shiftr p 3 - lo)).
  rewrite lookup_take_lt by lia. rewrite lookup_drop. rewrite <- E. f_equal. lia.
Qed.
Lemma page_empty_spec part ph l : page_inv part ph l -> need_flush ph = true -> exists e, gc_page_is_empty ph = Some e /\ (e = true -> spans part ph l = []).
Proof.
  intros Hi Hn. pose proof Hi as [[Hr Hc _ _ [Hb Hnf]] _ _ _ _ _ _ _]. unfold gc_page_is_empty. destruct (bmp ph) as [b|] eqn:Eb; [|by destruct (Hnf Hn)]. destruct (Hb b eq_refl) as [Hbl _].
  rewrite !shiftr_div in * by lia. change (2 ^ 3) with 8 in *. rewrite aslice_Some by z_div. cbn [mbind option_bind]. eexists. split; [done|]. intros Hz. unfold spans, page_live. rewrite Hn, Eb.
  destruct (kept b (page_objs part l)) as [|[p n] k] eqn:Ek; [done|]. exfalso. assert ((p, n) ∈ kept b (page_objs part l)) as Hin by (rewrite Ek; left). unfold kept in Hin. apply list_elem_of_filter in Hin as [Hm Hin]. cbn in Hm.
  destruct (page_objs_in part ph l p n Hi Hin) as (H1 & H2 & H3). rewrite (is_marked_zero b p _ _ Hz) in Hm; [done| |]; rewrite shiftr_div by lia; change (2 ^ 3) with 8; z_div.
Qed.
Lemma sweep_pages_spec part budget deferred ps ls : Forall2 (page_inv part) ps ls -> (deferred = false -> Forall (fun ph => need_flush ph = true) ps) ->
  forall from retained, 0 <= from -> exists ps' from' retained' ls', sweep_pages deferred part budget ps from retained = Some (ps', from', retained') /\
    Forall2 (page_inv part) ps' ls' /\ list_live part ps' ls' = list_live part ps ls /\ ps' `sublist_of` ps /\ (retained <= budget -> retained <= retained' <= budget) /\
    0 <= from' /\ (from <= alen ps -> from' <= alen ps') /\ (alen ps <= from -> from' - alen ps' = from - alen ps).
Proof.
  induction 1 as [|ph l ps ls Hi Hps IH]; intros Hd from retained Hf; cbn [sweep_pages].
  { exists [], from, retained, []. repeat split; try done; lia. }
  assert (deferred = false -> Forall (fun ph => need_flush ph = true) ps) as Hd' by (intros E; specialize (Hd E); by inversion Hd). specialize (IH Hd'). pose proof (alen_nonneg ps). rewrite alen_cons.
  assert (exists e, (if negb deferred || need_flush ph then gc_page_is_empty ph else Some false) = Some e /\ (e = true -> spans part ph l = [])) as (e & -> & He).
  { destruct (negb deferred || need_flush ph) eqn:E; [|by exists false]. apply (page_empty_spec part ph l Hi). destruct deferred; cbn in E; [done|]. specialize (Hd eq_refl). by inversion Hd. }
  cbn [mbind option_bind].
  (* the page stays *)
  assert (forall r, (retained <= budget -> retained <= r <= budget) -> exists ps' from' retained' ls',
    ('(rest, from, retained) ← sweep_pages deferred part budget ps from r; Some (ph :: rest, from, retained)) = Some (ps', from', retained') /\
    Forall2 (page_inv part) ps' ls' /\ list_live part ps' ls' = list_live part (ph :: ps) (l :: ls) /\ ps' `sublist_of` ph :: ps /\ (retained <= budget -> retained <= retained' <= budget) /\
    0 <= from' /\ (from <= 1 + alen ps -> from' <= alen ps') /\ (1 + alen ps <= from -> from' - alen ps' = from - (1 + alen ps))) as Hkeep.
  { intros r Hr. destruct (IH from r Hf) as (ps' & from' & r' & ls' & -> & Hps' & Hl & Hsub & Hret & H0 & H1 & H2). cbn [mbind option_bind]. exists (ph :: ps'), from', r', (l :: ls'). rewrite alen_cons.
    split; [done|]. split; [by constructor|]. split; [by rewrite !list_live_cons, Hl|]. split; [by constructor|]. repeat split; try lia. }
  destruct e; [|by apply Hkeep; lia]. case_if_bool.
  - apply Hkeep. pose proof (pi_pos _ _ _ Hi). lia.
  - specialize (He eq_refl).
    destruct (IH (if 1 + alen ps <=? from then from - 1 else from) retained) as (ps' & from' & r' & ls' & -> & Hps' & Hl & Hsub & Hret & H0 & H1 & H2); [case_if_bool; lia|].
    exists ps', from', r', ls'. split; [done|]. split; [done|]. split; [by rewrite list_live_cons, He|]. split; [by constructor|]. split; [done|]. split; [done|]. clear -H1 H2. split; intros; case_if_bool; lia.
Qed.

(** ** Finalizers *)
Section finalizers.
Context (finalizer : Z -> Z) (b : list Z) (base_ block last_ : Z).
Definition finalized (i : item) : list item := match i with Obj p n => if is_marked b p then [i] else lost_blocks p n | _ => [i] end.
(** The addresses of the dead objects, and those that have a finalizer. *)
Definition dead (l : list item) : list Z := (fun o => base_ + o.1 * block) <$> filter (fun o => is_marked b o.1 = false) (objs l).
Definition to_call (l : list item) : list Z := filter (fun a => finalizer a <> 0) (dead l).
Lemma dead_obj p n l : dead (Obj p n :: l) = (if is_marked b p then [] else [base_ + p * block]) ++ dead l.
Proof. unfold dead. cbn [objs omap list_omap obj_of]. fold (objs l). rewrite filter_cons. cbn [fst]. destruct (is_marked b p); [by rewrite decide_False by done|by rewrite decide_True by done]. Qed.
Abbreviation finalize_block := (finalize_block finalizer b base_ block) (only parsing).
Hypothesis Hb : Z.shiftr (last_ + 7) 3 <= alen b.
Lemma finalize_zero n bid st : (forall j, bid <= j < bid + Z.of_nat n -> aget st.2 j = Some 0) -> afor finalize_block n bid st = Some st.
Proof. intros Hz. apply afor_skip. intros j Hj. destruct st as [called s]. unfold Allocator.finalize_block. cbn in Hz. by rewrite Hz. Qed.
Lemma covers_finalized i : item_ok i -> covers (item_pos i) (finalized i) (item_pos i + item_len i) /\ runs (finalized i) = runs [i] /\ objs (finalized i) = kept b (objs [i]).
Proof.
  destruct i as [p n|p n|p]; intros Hok; [|done|done]. cbn [item_pos item_len finalized objs omap list_omap obj_of]. cbn in Hok. unfold kept. destruct (is_marked b p) eqn:Hm.
  - rewrite filter_cons_True by done. done.
  - rewrite filter_cons_False by (cbn; congruence). destruct (lost_spec p n) as [Hr Ho]. split; [apply covers_lost; lia|]. split; [exact Hr|exact Ho].
Qed.
Lemma finalize_loop l : forall bid called s, covers bid l last_ -> Forall (size_ok (Some s)) l -> 0 <= bid -> last_ <= alen s ->
  exists s', afor finalize_block (Z.to_nat (last_ - bid)) bid (called, s) = Some (called ++ to_call l, s') /\ alen s' = alen s /\
    (forall j, j < bid \/ is_marked b j = true -> aget s' j = aget s j) /\ Forall (size_ok (Some s')) (l ≫= finalized) /\ covers bid (l ≫= finalized) last_ /\ runs (l ≫= finalized) = runs l /\ objs (l ≫= finalized) = kept b (objs l).
Proof.
  induction l as [|i l IH]; intros bid called s Hc Hs H0 Hlen.
  { cbn in Hc. subst bid. rewrite Z.sub_diag. exists s. cbn. rewrite app_nil_r. done. }
  destruct Hc as (Hp & Hok & Hc). pose proof (item_len_nonneg i Hok) as Hi0. pose proof (covers_le _ _ _ Hc) as Hle. inversion Hs as [|? ? Hs1 Hs2]; subst.
  replace (Z.to_nat (last_ - item_pos i)) with (Z.to_nat (item_len i) + Z.to_nat (last_ - (item_pos i + item_len i)))%nat by lia. rewrite afor_split, Z2Nat.id by lia.
  (* the blocks of the item *)
  assert (exists s1, afor finalize_block (Z.to_nat (item_len i)) (item_pos i) (called, s) = Some (called ++ to_call [i], s1) /\ alen s1 = alen s /\
    (forall j, ~ item_pos i <= j < item_pos i + item_len i \/ is_marked b j = true -> aget s1 j = aget s j) /\ Forall (size_ok (Some s1)) (finalized i)) as (s1 & -> & Hl1 & Hout & Hf1).
  { destruct i as [p n|p n|p]; cbn [item_pos item_len item_ok finalized] in *.
    - destruct Hs1 as (Hn255 & Hpn & Hz). replace (Z.to_nat n) with (1 + Z.to_nat (n - 1))%nat by lia. rewrite afor_split. cbn [afor]. unfold Allocator.finalize_block at 2. rewrite Hpn. cbn [mbind option_bind].
      rewrite (proj2 (Z.eqb_neq n 0)) by lia. rewrite (bmp_test_total b p last_) by lia. cbn [mbind option_bind]. unfold to_call. rewrite dead_obj. change (dead []) with (@nil Z). rewrite app_nil_r. destruct (is_marked b p) eqn:Hmp.
      + cbn [mbind option_bind]. rewrite finalize_zero by (intros j Hj; apply Hz; lia). exists s. rewrite app_nil_r. repeat split; try done. constructor; [|done]. done.
      + destruct (aset_total s p 0) as (s1 & -> & Hl1 & Hg1); [apply aget_Some_range in Hpn; lia|]. cbn [mbind option_bind].
        assert (forall j, p <= j < p + n -> aget s1 j = Some 0) as Hz1. { intros j Hj. rewrite Hg1. case_decide; [done|]. apply Hz. lia. }
        rewrite finalize_zero by (intros j Hj; apply Hz1; lia). exists s1. split; [|split; [done|split; [intros j Hj; rewrite Hg1, decide_False; [done|]; destruct Hj; [lia|congruence]|]]].
        * do 2 f_equal. rewrite filter_cons. destruct (Z.eqb_spec (finalizer (base_ + p * block)) 0) as [E|E]; cbn [negb]; [by rewrite decide_False, app_nil_r by tauto|by rewrite decide_True].
        * apply Forall_forall. intros i Hi. apply list_elem_of_fmap in Hi as (j & -> & Hj). apply elem_of_seqZ in Hj. cbn. apply Hz1. lia.
    - rewrite finalize_zero by (intros j Hj; apply Hs1; lia). exists s. rewrite app_nil_r. repeat split; try done. by constructor.
    - rewrite finalize_zero by (intros j Hj; replace j with p by (change (Z.to_nat 1) with 1%nat in Hj; lia); done). exists s. rewrite app_nil_r. repeat split; try done. by constructor. }
  cbn [mbind option_bind].
  destruct (IH (item_pos i + item_len i) (called ++ to_call [i]) s1 Hc) as (s2 & -> & Hl2 & Hout2 & Hf2 & Hc2 & Hr2 & Ho2); [|lia|lia|].
  { apply (sizes_frame s s1 _ _ _ Hc Hs2). intros j Hj. apply Hout. lia. }
  destruct (covers_finalized i Hok) as (Hci & Hri & Hoi). cbn [mbind list_bind]. fold (mbind finalized l). exists s2. split; [|split; [lia|split; [|split; [|split; [|split]]]]].
  - rewrite <- app_assoc. do 3 f_equal. unfold to_call. rewrite <- filter_app. f_equal. unfold dead. rewrite <- fmap_app, <- filter_app, <- objs_app. done.
  - intros j Hj. destruct Hj; [rewrite Hout2 by lia; apply Hout; lia|]. rewrite Hout2 by tauto. apply Hout. tauto.
  - apply Forall_app. split; [|done]. apply (sizes_frame s1 s2 _ _ _ Hci Hf1). intros j Hj. apply Hout2. lia.
  - apply covers_app. eexists. split; [exact Hci|exact Hc2].
  - rewrite runs_app, Hri, Hr2. by rewrite <- runs_app.
  - rewrite objs_app, Hoi, Ho2. unfold kept. rewrite <- filter_app, <- objs_app. done.
Qed.
End finalizers.
Lemma page_finalizers_spec finalizer part ph l b : var_part part = true -> page_inv part ph l -> need_flush ph = true -> bmp ph = Some b ->
  exists ph' l', page_finalizers finalizer ph = Some (to_call finalizer b (base ph) (block_size ph) l, ph') /\ page_inv part ph' l' /\ spans part ph' l' = spans part ph l /\ same_place ph ph' /\ need_flush ph' = true /\
    bmp ph' = Some b /\ objs l' = kept b (objs l).
Proof.
  intros Hv Hi Hn Hb. pose proof (var_part_range part Hv) as Hrange. assert ((part =? GC_LARGE_PART) = false) as Hlarge by (apply Z.eqb_neq; lia).
  pose proof Hi as [[Hr Hc Hf [Hsz Hsl] [Hbm Hnf]] Hbl Hpos Hmax Hbits Hfirst Hsizes Hmarks]. unfold page_finalizers. destruct (sizes ph) as [s|] eqn:Es; [|by rewrite (proj1 Hsizes eq_refl) in Hv]. cbn [mbind option_bind]. rewrite Hb. cbn [mbind option_bind].
  destruct (Hbm b Hb) as [Hlen Hbytes]. specialize (Hsl s eq_refl).
  destruct (finalize_loop finalizer b (base ph) (block_size ph) (max_blocks ph) Hlen l (first_block ph) [] s Hc Hsz ltac:(lia) ltac:(lia)) as (s' & -> & Hl' & Hout & Hs' & Hc' & Hruns & Hobjs). cbn [mbind option_bind app].
  eexists _, (l ≫= finalized b). split; [done|].
  assert (page_inv part (Page (base ph) (page_size ph) (Some b) (block_size ph) (block_bits ph) (max_blocks ph) (first_block ph) (free ph) (Some s') (need_flush ph)) (l ≫= finalized b)) as Hi'.
  { split; cbn [block_size page_size max_blocks first_block block_bits sizes need_flush bmp]; try done; [|by rewrite Hlarge in *|split; [done|congruence]|].
    - split; cbn [first_block max_blocks free sizes bmp need_flush]; try done.
      + by rewrite Hruns.
      + split; [done|]. intros s2 [= <-]. lia.
      + split; [by intros b' [= <-]|done].
    - intros _ b' [= <-]. specialize (Hmarks Hn b Hb). unfold marks_ok in *. rewrite Es in Hmarks. cbn [sizes first_block max_blocks]. intros p Hp Hm. rewrite Hout by tauto. by apply Hmarks. }
  split; [done|]. split; [|by repeat split]. unfold spans, page_live, page_objs. cbn [need_flush bmp]. rewrite Hn, Hb, Hlarge, Hobjs. unfold kept. rewrite list_filter_filter. f_equal. apply list_filter_iff. tauto.
Qed.
Lemma list_finalizers_spec finalizer part ps ls : var_part part = true -> Forall2 (page_inv part) ps ls -> Forall (fun ph => need_flush ph = true) ps ->
  exists called ps' ls', list_finalizers finalizer ps = Some (called, ps') /\ Forall2 (page_inv part) ps' ls' /\ list_live part ps' ls' = list_live part ps ls /\ Forall2 same_place ps ps' /\ Forall (fun ph => need_flush ph = true) ps' /\
    called = concat (zip_with (fun ph l => match bmp ph with Some b => to_call finalizer b (base ph) (block_size ph) l | None => [] end) ps ls).
Proof.
  intros Hv. induction 1 as [|ph l ps ls Hi Hps IH]; intros Hn; cbn [list_finalizers]; [by exists [], [], []|]. inversion Hn as [|? ? Hn1 Hn2]; subst.
  destruct (bmp ph) as [b|] eqn:Eb; [|by destruct (proj2 (pg_bmp _ _ (pi_ok _ _ _ Hi)) Hn1)].
  destruct (page_finalizers_spec finalizer part ph l b Hv Hi Hn1 Eb) as (ph' & l' & -> & Hi' & Hs' & Hp' & Hn' & _). destruct (IH Hn2) as (called & ps' & ls' & -> & Hps' & Hl' & Hsp & Hns & ->). cbn [mbind option_bind].
  eexists _, (ph' :: ps'), (l' :: ls'). split; [done|]. split; [by constructor|]. split; [by rewrite !list_live_cons, Hs', Hl'|]. split; [by constructor|]. split; [by constructor|]. cbn. by rewrite Eb.
Qed.

(** ** Counting the marked blocks *)
Definition bit_count (x : Z) : Z := foldr (fun i n => Z.b2z (Z.testbit x i) + n) 0 (seqZ 0 8).
Lemma popcount8_bits x : 0 <= x < 256 -> gc_popcount8 x = bit_count x.
Proof. intros Hx. apply Z.eqb_eq. apply (range_forall (fun x => gc_popcount8 x =? bit_count x) 0 256); [by vm_compute|lia]. Qed.
(** The number of the integers from [lo] on, [n] of them, with a property. *)
Fixpoint how_many (P : Z -> bool) (lo : Z) (n : nat) : Z := match n with O => 0 | S n => Z.b2z (P lo) + how_many P (lo + 1) n end.
Lemma how_many_app P lo n m : how_many P lo (n + m) = how_many P lo n + how_many P (lo + Z.of_nat n) m.
Proof. revert lo. induction n as [|n IH]; intros lo; cbn [how_many Nat.add]; [by rewrite Z.add_0_l, Z.add_0_r|]. rewrite IH. replace (lo + 1 + Z.of_nat n) with (lo + Z.of_nat (S n)) by lia. lia. Qed.
Lemma how_many_ext P Q lo n : (forall i, lo <= i < lo + Z.of_nat n -> P i = Q i) -> how_many P lo n = how_many Q lo n.
Proof. revert lo. induction n as [|n IH]; intros lo H; cbn [how_many]; [done|]. rewrite (H lo) by lia. by rewrite IH by (intros i Hi; apply H; lia). Qed.
Lemma how_many_none P lo n : (forall i, lo <= i < lo + Z.of_nat n -> P i = false) -> how_many P lo n = 0.
Proof. intros H. rewrite (how_many_ext P (fun _ => false)) by done. clear H. revert lo. induction n as [|n IH]; intros lo; cbn [how_many]; [done|]. by rewrite IH. Qed.
Lemma how_many_nonneg P lo n : 0 <= how_many P lo n.
Proof. revert lo. induction n as [|n IH]; intros lo; cbn [how_many]; [done|]. specialize (IH (lo + 1)). destruct (P lo); cbn; lia. Qed.
Lemma how_many_update P Q n j : P j = true -> Q j = false -> forall lo, lo <= j < lo + Z.of_nat n -> (forall i, lo <= i < lo + Z.of_nat n -> i <> j -> Q i = P i) -> how_many Q lo n + 1 = how_many P lo n.
Proof.
  intros HP HQ. induction n as [|n IH]; intros lo Hj Hi; [lia|]. cbn [how_many]. destruct (decide (lo = j)) as [->|Hne].
  - rewrite HP, HQ. cbn [Z.b2z]. rewrite (how_many_ext Q P); [lia|]. intros i Hi'. apply Hi; lia.
  - rewrite (Hi lo) by lia. specialize (IH (lo + 1) ltac:(lia) ltac:(intros i Hr; apply Hi; lia)). lia.
Qed.
Lemma how_many_zero P lo n : how_many P lo n = 0 -> forall i, lo <= i < lo + Z.of_nat n -> P i = false.
Proof.
  pose proof (how_many_nonneg P) as Hpos.
  revert lo. induction n as [|n IH]; intros lo; cbn [how_many]; [lia|]. intros H i Hi. specialize (Hpos (lo + 1) n). destruct (P lo) eqn:E; cbn in H; [lia|]. destruct (decide (i = lo)) as [->|]; [done|]. apply (IH (lo + 1)); lia.
Qed.
Lemma bit_count_how_many x P lo : (forall i, 0 <= i < 8 -> Z.testbit x i = P (lo + i)) -> bit_count x = how_many P lo 8.
Proof.
  intros H. unfold bit_count. change (seqZ 0 8) with [0; 1; 2; 3; 4; 5; 6; 7]. cbn [foldr how_many]. rewrite !H by lia. rewrite Z.add_0_r.
  replace (lo + 1 + 1) with (lo + 2) by lia. replace (lo + 2 + 1) with (lo + 3) by lia. replace (lo + 3 + 1) with (lo + 4) by lia. replace (lo + 4 + 1) with (lo + 5) by lia. replace (lo + 5 + 1) with (lo + 6) by lia. replace (lo + 6 + 1) with (lo + 7) by lia. done.
Qed.
Lemma is_marked_bit b byte x i : aget b byte = Some x -> 0 <= i < 8 -> is_marked b (8 * byte + i) = Z.testbit x i.
Proof.
  intros Hx Hi. unfold is_marked, bmp_test. rewrite shiftr_div by lia. change (2 ^ 3) with 8. replace ((8 * byte + i) / 8) with byte by z_div. rewrite Hx. cbn [mbind option_bind].
  rewrite (land_mask 3 (8 * byte + i) 7) by done. change (2 ^ 3) with 8. replace ((8 * byte + i) mod 8) with i by z_div. apply bit_test. lia.
Qed.
Lemma land_byte x y : 0 <= x < 256 -> 0 <= Z.land x y < 256.
Proof.
  intros Hx. assert (Z.land x y = Z.land x y mod 2 ^ 8) as -> by (rewrite <- Z.land_ones, <- Z.land_assoc, (Z.land_comm y), Z.land_assoc, Z.land_ones, Z.mod_small by (change (2 ^ 8) with 256; lia); done).
  apply Z.mod_pos_bound. done.
Qed.
Lemma mask_from k i : 0 <= k < 8 -> 0 <= i < 8 -> Z.testbit (u32 (Z.shiftl 0xFF k)) i = (k <=? i).
Proof.
  intros Hk Hi. apply eqb_prop. revert i Hi. apply (range_forall (fun i => Bool.eqb (Z.testbit (u32 (Z.shiftl 0xFF k)) i) (k <=? i)) 0 8).
  revert k Hk. apply (range_forall (fun k => forallb (fun i => Bool.eqb (Z.testbit (u32 (Z.shiftl 0xFF k)) i) (k <=? i)) (seqZ 0 8)) 0 8). by vm_compute.
Qed.
Lemma mask_to k i : 0 <= k < 8 -> 0 <= i < 8 -> Z.testbit (u32 (Z.shiftl 1 k) - 1) i = (i <? k).
Proof.
  intros Hk Hi. apply eqb_prop. revert i Hi. apply (range_forall (fun i => Bool.eqb (Z.testbit (u32 (Z.shiftl 1 k) - 1) i) (i <? k)) 0 8).
  revert k Hk. apply (range_forall (fun k => forallb (fun i => Bool.eqb (Z.testbit (u32 (Z.shiftl 1 k) - 1) i) (i <? k)) (seqZ 0 8)) 0 8). by vm_compute.
Qed.
Lemma page_live_blocks_spec part ph l b : page_inv part ph l -> bmp ph = Some b -> page_live_blocks ph = Some (how_many (is_marked b) (first_block ph) (Z.to_nat (max_blocks ph - first_block ph))).
Proof.
  intros [[Hr Hc _ _ [Hbm Hnf]] _ _ _ _ _ _ _] Hb. destruct (Hbm b Hb) as [Hlen Hbytes]. unfold page_live_blocks. rewrite Hb. cbv zeta. change GC_PAGE_SIZE with 65536 in Hr.
  set (first := first_block ph) in *. set (max := max_blocks ph) in *. rewrite !shiftr_div in * by lia. change (2 ^ 3) with 8 in *.
  set (P := fun p => (first <=? p) && (p <? max) && is_marked b p).
  match goal with |- afor ?f _ _ _ = _ => set (step := f) end.
  assert (forall n, (n <= Z.to_nat ((max + 7) / 8 - first / 8))%nat -> afor step n (first / 8) 0 = Some (how_many P (8 * (first / 8)) (8 * n))) as Hloop.
  { induction n as [|n IH]; intros Hn; [done|]. replace (S n) with (n + 1)%nat by lia. rewrite afor_split, IH by lia. cbn [mbind option_bind afor]. set (byte := first / 8 + Z.of_nat n).
    unfold step at 1. destruct (aget_is_Some b byte) as [x Hx]; [unfold byte; z_div|]. rewrite Hx. cbn [mbind option_bind]. f_equal.
    replace (8 * (n + 1))%nat with (8 * n + 8)%nat by lia. rewrite how_many_app. f_equal. replace (8 * (first / 8) + Z.of_nat (8 * n)) with (8 * byte) by (unfold byte; lia).
    assert (0 <= x < 256) as Hxr by (rewrite Forall_forall in Hbytes; apply Hbytes; rewrite aget_lookup in Hx by (unfold byte; z_div); by apply list_elem_of_lookup_2 in Hx).
    rewrite !(land_mask 3 _ 7) by done. change (2 ^ 3) with 8. set (x1 := if byte =? first / 8 then _ else x). assert (0 <= x1 < 256) as Hx1r by (unfold x1; case_if_bool; [by apply land_byte|done]).
    assert (forall i, 0 <= i < 8 -> Z.testbit x1 i = (first <=? 8 * byte + i) && is_marked b (8 * byte + i)) as Hx1.
    { intros i Hi. rewrite (is_marked_bit b byte x i Hx Hi). unfold x1. destruct (Z.eqb_spec byte (first / 8)) as [E|E].
      - rewrite Z.land_spec, mask_from by z_div. rewrite andb_comm. f_equal. apply Bool.eq_iff_eq_true. rewrite !Z.leb_le. rewrite E. z_div.
      - rewrite (proj2 (Z.leb_le first _)) by (unfold byte in *; z_div). done. }
    set (x2 := if (byte =? (max + 7) / 8 - 1) && negb (max mod 8 =? 0) then _ else x1). assert (0 <= x2 < 256) as Hx2r by (unfold x2; case_if_bool; [by apply land_byte|done]).
    rewrite popcount8_bits by done. apply bit_count_how_many. intros i Hi. unfold P. rewrite (andb_comm (first <=? _)), <- andb_assoc, <- Hx1 by done. unfold x2.
    destruct (Z.eqb_spec byte ((max + 7) / 8 - 1)) as [E|E]; cbn [andb]; [destruct (Z.eqb_spec (max mod 8) 0) as [E0|E0]; cbn [negb]|].
    + rewrite (proj2 (Z.ltb_lt _ max)) by z_div. done.
    + rewrite Z.land_spec, mask_to by z_div. rewrite andb_comm. f_equal. apply Bool.eq_iff_eq_true. rewrite !Z.ltb_lt. z_div.
    + rewrite (proj2 (Z.ltb_lt _ max)) by (unfold byte in *; z_div). done. }
  rewrite Hloop by lia. f_equal.
  replace (8 * Z.to_nat ((max + 7) / 8 - first / 8))%nat with (Z.to_nat (first - 8 * (first / 8)) + (Z.to_nat (max - first) + Z.to_nat (8 * ((max + 7) / 8) - max)))%nat by z_div.
  rewrite !how_many_app, (how_many_none _ _ (Z.to_nat (first - _))), (how_many_none _ _ (Z.to_nat (8 * _ - max))).
  - rewrite Z.add_0_l, Z.add_0_r. replace (8 * (first / 8) + Z.of_nat (Z.to_nat (first - 8 * (first / 8)))) with first by z_div. apply how_many_ext. intros i Hi. unfold P.
    rewrite (proj2 (Z.leb_le _ _)), (proj2 (Z.ltb_lt _ _)) by lia. done.
  - intros i Hi. unfold P. rewrite (proj2 (Z.ltb_ge _ _)) by z_div. by rewrite andb_false_r.
  - intros i Hi. unfold P. rewrite (proj2 (Z.leb_gt _ _)) by z_div. done.
Qed.
