(* ===== verification/AllocatorSound.v ===== *)
(** * The whole allocator: size classes, live memory, collections

    A state is the page lists and the objects the program holds.  A step is an allocation, a
    run taken for a thread's buffer, or the phases of a collection of the stopped world:
    marking (after which the program holds some of the marked objects), finalizers, giving
    empty pages back, giving back the pages of a retired owner. *)
From S2P Require Import Prelude Allocator AllocatorPage AllocatorAlloc AllocatorHeap AllocatorMark.

(** ** Size classes *)
Definition class_ok (size : Z) (finalizer : bool) (c : size_class) : Prop :=
  match c with
  | Large sz => GC_LARGE_BLOCK < size + GC_ALIGN /\ size <= sz <= INT_MAX /\ GC_LARGE_BLOCK <= sz /\ sz mod GC_PAGE_SIZE = 0
  | Fixed part sz => finalizer = false /\ 0 <= part < GC_FIXED_PARTS /\ aget GC_SIZES part = Some sz /\ size <= sz < size + GC_ALIGN
  | Var part sz => var_part part = true /\ exists block n, aget GC_SIZES part = Some block /\ sz = n * block /\ 1 <= n <= 254 /\ size <= sz < size + GC_ALIGN + block
  | NoClass => False
  end.
Lemma round_up k x : 0 <= k -> exists q, x + Z.land (- x) (2 ^ k - 1) = q * 2 ^ k /\ x <= x + Z.land (- x) (2 ^ k - 1) < x + 2 ^ k.
Proof.
  intros Hk. pose proof (Z.pow_pos_nonneg 2 k ltac:(lia) Hk) as Hp.
  assert (Z.land (- x) (2 ^ k - 1) = (- x) mod 2 ^ k) as -> by (rewrite <- Z.land_ones, Z.ones_equiv by lia; f_equal; lia).
  pose proof (Z.mod_pos_bound (- x) (2 ^ k) Hp). pose proof (Z.div_mod (- x) (2 ^ k) ltac:(lia)). exists (- (- x / 2 ^ k)). split; lia.
Qed.
Lemma var_class_ok size : 0 < size < GC_LARGE_BLOCK -> exists part sz block n, var_class size = Some (Var part sz) /\ var_part part = true /\ aget GC_SIZES part = Some block /\ sz = n * block /\ 1 <= n <= 254 /\ size <= sz < size + block.
Proof.
  change GC_LARGE_BLOCK with 1048576. intros Hs.
  assert (forall k block, block = 2 ^ k -> 0 <= k -> size + Z.land (- size) (block - 1) < block * 255 -> exists n, size + Z.land (- size) (block - 1) = n * block /\ 1 <= n <= 254 /\ size <= n * block < size + block) as Hround.
  { intros k block -> Hk Hq. destruct (round_up k size Hk) as (n & E & Hb). rewrite E in *. pose proof (Z.pow_pos_nonneg 2 k ltac:(lia) Hk). exists n. split; [done|]. split; [nia|done]. }
  unfold var_class. set (q5 := size + Z.land (- size) (8 - 1)). set (q6 := size + Z.land (- size) (64 - 1)). set (q7 := size + Z.land (- size) (8192 - 1)).
  cbn [loop]. change (GC_FIXED_PARTS <? GC_PARTITIONS) with true. cbn iota. change (aget GC_SIZES GC_FIXED_PARTS) with (Some 8). cbn [mbind option_bind]. cbv zeta. fold q5.
  destruct (Z.ltb_spec q5 (8 * 255)) as [H5|_].
  { destruct (Hround 3 8 eq_refl ltac:(lia) H5) as (n & E & Hn). fold q5 in E. exists GC_FIXED_PARTS, q5, 8, n. do 3 (split; [done|]). lia. }
  change (GC_FIXED_PARTS + 1) with 6. change (6 <? GC_PARTITIONS) with true. cbn iota. change (aget GC_SIZES 6) with (Some 64). cbn [mbind option_bind]. cbv zeta. fold q6.
  destruct (Z.ltb_spec q6 (64 * 255)) as [H6|_].
  { destruct (Hround 6 64 eq_refl ltac:(lia) H6) as (n & E & Hn). fold q6 in E. exists 6, q6, 64, n. do 3 (split; [done|]). lia. }
  change (6 + 1) with 7. change (7 <? GC_PARTITIONS) with true. cbn iota. change (aget GC_SIZES 7) with (Some 8192). cbn [mbind option_bind]. cbv zeta. fold q7.
  destruct (round_up 13 size ltac:(lia)) as (m & Em & Hm). change (2 ^ 13) with 8192 in *. fold q7 in Em, Hm.
  destruct (Z.ltb_spec q7 (8192 * 255)) as [H7|]; [|lia].
  destruct (Hround 13 8192 eq_refl ltac:(lia) H7) as (n & E & Hn). fold q7 in E. exists 7, q7, 8192, n. do 3 (split; [done|]). lia.
Qed.
Lemma class_of_ok size finalizer : 0 < size <= INT_MAX - 65543 -> exists c, class_of size finalizer = Some c /\ class_ok size finalizer c.
Proof.
  intros Hs. unfold class_of. destruct (round_up 3 size ltac:(lia)) as (m & Em & Hm). change (2 ^ 3) with 8 in *. change GC_ALIGN with 8 in *. set (sz := size + Z.land (- size) (8 - 1)) in *. clearbody sz.
  unfold INT_MAX in Hs. rewrite int_of_Some by (unfold in_i32, INT_MIN, INT_MAX; lia). cbn [mbind option_bind].
  change GC_LARGE_BLOCK with 1048576. destruct (Z.geb_spec sz 1048576) as [Hl|Hl].
  - destruct (round_up 16 sz ltac:(lia)) as (k & Ek & Hk). change (2 ^ 16) with 65536 in *. change GC_PAGE_SIZE with 65536 in *. rewrite Ek. rewrite int_of_Some by (unfold in_i32, INT_MIN, INT_MAX; lia). cbn [mbind option_bind].
    eexists. split; [done|]. unfold class_ok, INT_MAX. change GC_LARGE_BLOCK with 1048576. change GC_PAGE_SIZE with 65536. change GC_ALIGN with 8. split; [lia|]. split; [lia|]. split; [lia|]. apply Z.mod_mul. lia.
  - change (aget GC_SIZES (GC_FIXED_PARTS - 1)) with (Some 40). cbn [mbind option_bind]. destruct (_ && _) eqn:E; zbool.
    + change GC_ALIGN_BITS with 3. rewrite shiftr_div by lia. change (2 ^ 3) with 8. assert (sz / 8 = m) as -> by (rewrite Em; apply Z.div_mul; lia).
      assert (aget GC_SIZES (m - 1) = Some sz) as Hget. { rewrite Em. assert (m = 1 \/ m = 2 \/ m = 3 \/ m = 4 \/ m = 5) as [->|[->|[->|[->| ->]]]] by lia; reflexivity. }
      rewrite Hget. cbn [mbind option_bind]. eexists. split; [done|]. split; [by destruct finalizer|]. split; [change GC_FIXED_PARTS with 5; lia|]. change GC_ALIGN with 8. split; [done|lia].
    + destruct (var_class_ok sz) as (part & q & block & n & -> & Hv & Hb & Hq & Hn & Hr); [change GC_LARGE_BLOCK with 1048576; lia|]. eexists. split; [done|]. split; [done|]. exists block, n. change GC_ALIGN with 8. repeat split; try done; lia.
Qed.

(** ** The state *)
Definition pid_ok (pid : Z) : Prop := 0 <= pid < GC_PAGE_SLOTS.
Lemma pid_part_range pid : 0 <= pid -> 0 <= GC_PID_PART pid <= GC_LARGE_PART.
Proof. intros Hp. unfold GC_PID_PART. change GC_ALL_PAGES with 36. change GC_LARGE_PART with 8. change PAGE_KIND_BITS with 2. rewrite Z.rem_mod_nonneg, shiftr_div by lia. change (2 ^ 2) with 4. z_div. Qed.
Lemma pid_part oc part kind : 0 <= oc < GC_PAGE_CLASSES -> 0 <= part <= GC_LARGE_PART -> 0 <= kind < 4 -> pid_ok (GC_PID oc part kind) /\ GC_PID_PART (GC_PID oc part kind) = part.
Proof.
  change GC_LARGE_PART with 8. intros Ho Hp Hk. unfold pid_ok, GC_PID_PART, GC_PID. change GC_PAGE_SLOTS with 648. change GC_PAGE_CLASSES with 18 in Ho. change GC_ALL_PAGES with 36. change PAGE_KIND_BITS with 2. rewrite shiftl_mul by lia. change (2 ^ 2) with 4.
  rewrite (lor_add 2) by (change (2 ^ 2) with 4; first [lia|apply Z.mod_mul; lia]). split; [lia|]. rewrite Z.rem_mod_nonneg, shiftr_div by lia. change (2 ^ 2) with 4. z_div.
Qed.
Lemma pid_kind oc part kind : 0 <= kind < 4 -> GC_PID oc part kind mod 4 = kind.
Proof.
  intros Hk. unfold GC_PID. change GC_ALL_PAGES with 36. change PAGE_KIND_BITS with 2. rewrite shiftl_mul by lia. change (2 ^ 2) with 4. rewrite (lor_add 2) by (change (2 ^ 2) with 4; first [lia|apply Z.mod_mul; lia]). z_div.
Qed.
(** Objects with a finalizer are in pages with a size table. *)
Definition final_ok (pid : Z) (l : page_list) : Prop := pid mod 4 = MEM_KIND_FINALIZER -> var_part (GC_PID_PART pid) = false -> pages l = [].
Record heap_inv (h : heap) (ls : Z -> list (list item)) : Prop := HeapInv {
  hv_lists : forall pid, pid_ok pid -> list_inv (GC_PID_PART pid) (h pid) (ls pid);
  hv_final : forall pid, pid_ok pid -> final_ok pid (h pid);
  hv_apart : forall pid pid' a b, pid_ok pid -> pid_ok pid' -> pid <> pid' -> a ∈ place <$> pages (h pid) -> b ∈ place <$> pages (h pid') -> apart a b }.
Definition heap_live (h : heap) (ls : Z -> list (list item)) (pid : Z) : list (Z * Z) := list_live (GC_PID_PART pid) (pages (h pid)) (ls pid).
(** What the system gives is none of the memory in use. *)
Definition os_memory (nb : Z -> Z) (h : heap) : Prop := forall pid, pid_ok pid -> new_memory nb (h pid).
(** The program's objects. *)
Definition holds (h : heap) (ls : Z -> list (list item)) (live : list (Z * Z)) : Prop :=
  pairwise apart live /\ forall o, o ∈ live -> exists pid, pid_ok pid /\ o ∈ heap_live h ls pid.
Lemma empty_heap_inv : heap_inv empty_heap (fun _ => []).
Proof. split; [intros pid Hp; split; [apply Forall2_nil_2|done|done]|done|intros pid pid' a b _ _ _ Ha; by apply not_elem_of_nil in Ha]. Qed.
Lemma list_live_in part ps ls o : Forall2 (page_inv part) ps ls -> o ∈ list_live part ps ls <-> exists ph l, (ph, l) ∈ zip ps ls /\ o ∈ spans part ph l.
Proof.
  intros Hps. induction Hps as [|ph l ps ls Hi Hps IH].
  - split; [intros Ho; by apply not_elem_of_nil in Ho|intros (ph & l & Hin & _); by apply not_elem_of_nil in Hin].
  - rewrite list_live_cons, elem_of_app, IH. cbn [zip zip_with]. split.
    + intros [Ho|(ph' & l' & Hin & Ho)]; [exists ph, l; split; [left|done]|exists ph', l'; split; [by right|done]].
    + intros (ph' & l' & Hin & Ho). apply elem_of_cons in Hin as [[= -> ->]|Hin]; [by left|right; by exists ph', l'].
Qed.
Lemma zip_inv part ps ls ph l : Forall2 (page_inv part) ps ls -> (ph, l) ∈ zip ps ls -> page_inv part ph l /\ ph ∈ ps.
Proof.
  induction 1 as [|ph' l' ps ls Hi Hps IH]; intros Hin; [by apply not_elem_of_nil in Hin|]. cbn in Hin. apply elem_of_cons in Hin as [[= -> ->]|Hin]; [split; [done|left]|]. destruct (IH Hin). split; [done|by right].
Qed.
(** Where live objects are: in a page, after its size table. *)
Lemma live_place part l ls o : list_inv part l ls -> o ∈ list_live part (pages l) ls -> exists ph, ph ∈ pages l /\ 0 < o.2 /\ inside o (place ph) /\ base ph + first_block ph * block_size ph <= o.1.
Proof.
  intros Hl Ho. apply (list_live_in _ _ _ _ (li_pages _ _ _ Hl)) in Ho as (ph & l' & Hin & Ho). destruct (zip_inv _ _ _ _ _ (li_pages _ _ _ Hl) Hin) as [Hi Hph]. exists ph. split; [done|]. by apply (spans_inside part ph l').
Qed.
Lemma list_live_apart part ps ls : Forall2 (page_inv part) ps ls -> pairwise apart (place <$> ps) -> pairwise apart (list_live part ps ls).
Proof.
  induction 1 as [|ph l ps ls Hi Hps IH]; [done|]. cbn [fmap list_fmap pairwise]. intros [Hp Hps']. rewrite list_live_cons. apply pairwise_app; [apply _|]. split; [by apply (spans_apart part)|]. split; [by apply IH|].
  intros x y Hx Hy. destruct (spans_inside _ _ _ _ Hi Hx) as (_ & Hin & _). apply (list_live_in _ _ _ _ Hps) in Hy as (ph' & l' & Hin' & Hy). destruct (zip_inv _ _ _ _ _ Hps Hin') as [Hi' Hph']. destruct (spans_inside _ _ _ _ Hi' Hy) as (_ & Hin2 & _).
  rewrite Forall_forall in Hp. apply (apart_inside (place ph) (place ph')); [|done|done]. apply Hp. by apply list_elem_of_fmap_2.
Qed.
Lemma heap_live_apart h ls pid pid' x y : heap_inv h ls -> pid_ok pid -> pid_ok pid' -> pid <> pid' -> x ∈ heap_live h ls pid -> y ∈ heap_live h ls pid' -> apart x y.
Proof.
  intros Hh Hp Hp' Hne Hx Hy. destruct (live_place _ _ _ _ (hv_lists _ _ Hh pid Hp) Hx) as (ph & Hph & _ & Hin & _). destruct (live_place _ _ _ _ (hv_lists _ _ Hh pid' Hp') Hy) as (ph' & Hph' & _ & Hin' & _).
  apply (apart_inside (place ph) (place ph')); [|done|done]. apply (hv_apart _ _ Hh pid pid'); try done; by apply list_elem_of_fmap_2.
Qed.

(** *** One list changes *)
Definition set_items (ls : Z -> list (list item)) (pid : Z) (l : list (list item)) : Z -> list (list item) := fun i => if i =? pid then l else ls i.
Lemma set_same {A} (f : Z -> A) pid x : (fun i => if i =? pid then x else f i) pid = x.
Proof. cbn. by rewrite Z.eqb_refl. Qed.
(** The pages of [l'] were pages of the list, or are apart from the other lists. *)
Definition in_memory (h : heap) (pid : Z) (l' : page_list) : Prop :=
  forall a, a ∈ place <$> pages l' -> a ∈ place <$> pages (h pid) \/ forall i, pid_ok i -> i <> pid -> Forall (apart a) (place <$> pages (h i)).
Lemma grown_in_memory nb h pid l' : os_memory nb h -> grown nb (h pid) l' -> in_memory h pid l'.
Proof.
  intros Hos [Hg|(size & Hs & Hg)] a Ha; rewrite Hg in Ha; [by left|]. apply elem_of_cons in Ha as [->|Ha]; [right|by left]. intros i Hi _. by apply Hos.
Qed.
Lemma heap_inv_set h ls pid l' ls' : heap_inv h ls -> pid_ok pid -> list_inv (GC_PID_PART pid) l' ls' -> final_ok pid l' -> in_memory h pid l' -> heap_inv (set_pid h pid l') (set_items ls pid ls').
Proof.
  intros [Hl Hfin Ha] Hp Hl' Hf' Hg. split.
  - intros i Hi. unfold set_pid, set_items. destruct (Z.eqb_spec i pid) as [->|]; [done|by apply Hl].
  - intros i Hi. unfold set_pid. destruct (Z.eqb_spec i pid) as [->|]; [done|by apply Hfin].
  - assert (forall i a b, pid_ok i -> i <> pid -> a ∈ place <$> pages l' -> b ∈ place <$> pages (h i) -> apart a b) as Hnew.
    { intros i a b Hi Hne Hin Hb. destruct (Hg a Hin) as [Hin'|Hos]; [by apply (Ha pid i)|]. specialize (Hos i Hi Hne). rewrite Forall_forall in Hos. by apply Hos. }
    intros i j a b Hi Hj Hne. unfold set_pid. destruct (Z.eqb_spec i pid) as [->|Hi'], (Z.eqb_spec j pid) as [->|Hj']; [done| | |by apply Ha].
    + apply Hnew; [done|by intros ->].
    + intros Hin Hb. symmetry. by apply (Hnew i b a).
Qed.
(** A step that changes no live object. *)
Definition quiet (h : heap) (ls : Z -> list (list item)) (h' : heap) (ls' : Z -> list (list item)) : Prop :=
  heap_inv h' ls' /\ forall i, heap_live h' ls' i = heap_live h ls i.
Lemma quiet_refl h ls : heap_inv h ls -> quiet h ls h ls.
Proof. by intros Hh. Qed.
Lemma quiet_trans h1 ls1 h2 ls2 h3 ls3 : quiet h1 ls1 h2 ls2 -> quiet h2 ls2 h3 ls3 -> quiet h1 ls1 h3 ls3.
Proof. intros [_ H12] [H3 H23]. split; [done|]. intros i. by rewrite H23. Qed.
Lemma set_quiet h ls pid l' ls' : heap_inv h ls -> pid_ok pid -> list_inv (GC_PID_PART pid) l' ls' -> final_ok pid l' -> (forall a, a ∈ place <$> pages l' -> a ∈ place <$> pages (h pid)) ->
  list_live (GC_PID_PART pid) (pages l') ls' = heap_live h ls pid -> quiet h ls (set_pid h pid l') (set_items ls pid ls').
Proof.
  intros Hh Hp Hl' Hf' Hin Hlive. split; [apply heap_inv_set; try done; intros a Ha; left; by apply Hin|]. intros i. unfold heap_live at 1, set_pid, set_items. destruct (Z.eqb_spec i pid) as [->|]; done.
Qed.
Lemma holds_quiet h ls h' ls' live : quiet h ls h' ls' -> holds h ls live -> holds h' ls' live.
Proof. intros [_ Hq] [Ha Hi]. split; [done|]. intros o Ho. destruct (Hi o Ho) as (pid & Hp & Hin). exists pid. by rewrite Hq. Qed.
(** A call that adds the objects [new] to the list [pid]. *)
Definition adds (h : heap) (ls : Z -> list (list item)) (h' : heap) (ls' : Z -> list (list item)) (new : list (Z * Z)) : Prop :=
  heap_inv h' ls' /\ exists pid, pid_ok pid /\ heap_live h' ls' pid ≡ₚ new ++ heap_live h ls pid /\ forall i, i <> pid -> heap_live h' ls' i = heap_live h ls i.
Lemma set_adds nb h ls pid l' ls' new : heap_inv h ls -> pid_ok pid -> list_inv (GC_PID_PART pid) l' ls' -> final_ok pid l' -> os_memory nb h -> grown nb (h pid) l' ->
  list_live (GC_PID_PART pid) (pages l') ls' ≡ₚ new ++ heap_live h ls pid -> adds h ls (set_pid h pid l') (set_items ls pid ls') new.
Proof.
  intros Hh Hp Hl' Hf' Hos Hg Hnew. split; [apply heap_inv_set; [done|done|done|done|by apply (grown_in_memory nb)]|]. exists pid. split; [done|]. unfold heap_live at 1 3, set_pid, set_items. rewrite Z.eqb_refl. split; [done|]. intros i Hi. by rewrite (proj2 (Z.eqb_neq _ _) Hi).
Qed.
Lemma holds_adds h ls h' ls' new live : adds h ls h' ls' new -> holds h ls live -> holds h' ls' (new ++ live).
Proof.
  intros (Hh & pid & Hp & Hnew & Hother) (Ha & Hin).
  assert (pairwise apart (heap_live h' ls' pid)) as Hpw by apply (list_live_apart _ _ _ (li_pages _ _ _ (hv_lists _ _ Hh pid Hp)) (li_apart _ _ _ (hv_lists _ _ Hh pid Hp))).
  rewrite Hnew in Hpw. apply pairwise_app in Hpw as (Hp1 & Hp2 & Hp3); [|apply _].
  assert (forall o, o ∈ live -> exists pid', pid_ok pid' /\ o ∈ heap_live h' ls' pid') as Hin'.
  { intros o Ho. destruct (Hin o Ho) as (i & Hi & Hoi). exists i. split; [done|]. destruct (decide (i = pid)) as [->|Hne]; [rewrite Hnew; apply elem_of_app; by right|by rewrite Hother]. }
  split.
  - apply pairwise_app; [apply _|]. split; [done|]. split; [done|]. intros x y Hx Hy. destruct (Hin y Hy) as (i & Hi & Hyi). destruct (decide (i = pid)) as [->|Hne]; [by apply Hp3|].
    apply (heap_live_apart h' ls' pid i); try done; [rewrite Hnew; apply elem_of_app; by left|by rewrite Hother].
  - intros o Ho. apply elem_of_app in Ho as [Ho|Ho]; [|by apply Hin']. exists pid. split; [done|]. rewrite Hnew. apply elem_of_app. by left.
Qed.


(** ** The operations *)
Definition MAX_ALLOC : Z := INT_MAX - 65543.
(** A request the runtime makes: objects with a finalizer are not large. *)
Definition request_ok (size kind oc : Z) : Prop := 0 < size <= MAX_ALLOC /\ 0 <= kind < 4 /\ 0 <= oc < GC_PAGE_CLASSES /\ (kind = MEM_KIND_FINALIZER -> size < GC_LARGE_BLOCK - GC_ALIGN).
Lemma request_final size kind oc part l : request_ok size kind oc -> 0 <= part <= GC_LARGE_PART -> (kind = MEM_KIND_FINALIZER -> var_part part = true) -> final_ok (GC_PID oc part kind) l.
Proof. intros (_ & Hk & Ho & _) Hp Hv. intros Hkind Hvar. rewrite pid_kind in Hkind by done. rewrite (proj2 (pid_part oc part kind Ho Hp Hk)) in Hvar. by rewrite Hv in Hvar. Qed.
Lemma gc_allocator_alloc_spec junk h ls nb inc size kind oc : heap_inv h ls -> os_memory nb h -> request_ok size kind oc ->
  exists ptr sz h' ls', gc_allocator_alloc junk h nb inc size kind oc = Done (Some (ptr, sz), h') /\ size <= sz /\ adds h ls h' ls' [(ptr, sz)].
Proof.
  intros Hh Hos Hreq. pose proof Hreq as (Hs & Hk & Ho & Hfin). unfold gc_allocator_alloc. destruct (class_of_ok size (kind =? MEM_KIND_FINALIZER) Hs) as (c & Hc & Hok). rewrite Hc. cbn [ub mbind outcome_bind].
  assert (forall part, 0 <= part <= GC_LARGE_PART -> pid_ok (GC_PID oc part kind) /\ list_inv part (h (GC_PID oc part kind)) (ls (GC_PID oc part kind)) /\ heap_live h ls (GC_PID oc part kind) = list_live part (pages (h (GC_PID oc part kind))) (ls (GC_PID oc part kind)) /\ new_memory nb (h (GC_PID oc part kind)) /\ GC_PID_PART (GC_PID oc part kind) = part) as Hpid.
  { intros part Hp. destruct (pid_part oc part kind Ho Hp Hk) as [Hpid Hpart]. pose proof (hv_lists _ _ Hh _ Hpid) as Hl. unfold heap_live. rewrite Hpart in *. split; [done|]. split; [done|]. split; [done|]. split; [by apply Hos|done]. }
  destruct c as [sz|part sz|part sz|]; [| | |done].
  - destruct Hok as (Hbig & Hsz & Hl & _). destruct (Hpid GC_LARGE_PART) as (Hp & Hl0 & Hlive & Hnb & Hpart); [done|].
    change GC_LARGE_BLOCK with 1048576 in *. destruct (gc_alloc_large_spec junk _ _ nb inc sz ltac:(lia) Hl0 Hnb) as (ptr & l' & ls' & -> & Hl' & Hlive' & Hg). cbn [mbind outcome_bind].
    eexists _, _, _, _. split; [done|]. split; [lia|]. apply (set_adds nb _ _ _ _ ls'); rewrite ?Hpart; try done.
    + apply (request_final size); [done|done|]. intros E. specialize (Hfin E). lia.
    + by rewrite Hlive', Hlive.
  - destruct Hok as (Hnf & Hp5 & Hb & Hsz). assert (0 <= part <= GC_LARGE_PART) as Hpl by (change GC_LARGE_PART with 8; change GC_FIXED_PARTS with 5 in Hp5; lia). destruct (Hpid part Hpl) as (Hp & Hl0 & Hlive & Hnb & Hpart).
    unfold gc_alloc_fixed. destruct (gc_alloc_fixed_run_spec junk part _ _ nb inc 1 Hp5 ltac:(lia) Hl0 Hnb) as (ptr & taken & l' & ls' & block & -> & Ht & Hb' & Hl' & Hlive' & Hg). cbn [mbind outcome_bind].
    rewrite Hb in Hb'. injection Hb' as <-. assert (taken = 1) as -> by lia. eexists _, _, _, _. split; [done|]. split; [lia|]. apply (set_adds nb _ _ _ _ ls'); rewrite ?Hpart; try done.
    + apply (request_final size); [done|done|]. intros E. by rewrite E in Hnf.
    + rewrite Hlive', Hlive. unfold blocks. change (seqZ 0 1) with [0]. cbn. by rewrite Z.add_0_r.
  - destruct Hok as (Hv & block & n & Hb & -> & Hn & Hsz). pose proof (var_part_range part Hv) as Hrange. assert (0 <= part <= GC_LARGE_PART) as Hpl by (change GC_FIXED_PARTS with 5 in Hrange; lia). destruct (Hpid part Hpl) as (Hp & Hl0 & Hlive & Hnb & Hpart).
    destruct (gc_alloc_var_spec junk part _ _ nb inc n block Hv Hb Hn Hl0 Hnb) as (ptr & l' & ls' & -> & Hl' & Hlive' & Hg). cbn [mbind outcome_bind].
    eexists _, _, _, _. split; [done|]. split; [lia|]. apply (set_adds nb _ _ _ _ ls'); rewrite ?Hpart; try done; [by apply (request_final size)|by rewrite Hlive', Hlive].
Qed.

(** *** Allocation buffers *)
Abbreviation slots := (gmap (Z * Z) gc_tlab_slot) (only parsing).
(** The blocks left in a buffer, and in all of them; a key is a thread and a page id. *)
Definition slot_blocks (k : Z * Z) (s : gc_tlab_slot) : list (Z * Z) :=
  match aget GC_SIZES (GC_PID_PART k.2) with Some block => blocks (slot_cur s) block (Z.quot (slot_end s - slot_cur s) block) | None => [] end.
Definition reserved (m : slots) : list (Z * Z) := map_to_list m ≫= fun '(k, s) => slot_blocks k s.
(** A buffer ends on a block boundary. *)
Definition slot_ok (k : Z * Z) (s : gc_tlab_slot) : Prop :=
  exists block n, aget GC_SIZES (GC_PID_PART k.2) = Some block /\ 0 < block /\ 0 <= n /\ slot_end s = slot_cur s + n * block.
Definition slots_ok (m : slots) : Prop := forall k s, m !! k = Some s -> slot_ok k s.
Definition no_slot : gc_tlab_slot := Slot 0 0.
Definition the_slot (m : slots) (k : Z * Z) : gc_tlab_slot := default no_slot (m !! k).
Lemma reserved_split m k : reserved m ≡ₚ slot_blocks k (the_slot m k) ++ reserved (delete k m).
Proof.
  unfold reserved, the_slot. destruct (m !! k) as [s|] eqn:E; cbn [default].
  - by rewrite <- (map_to_list_delete m k s E).
  - rewrite delete_id by done. unfold slot_blocks, no_slot. cbn. destruct (aget GC_SIZES _) as [b|]; [|done]. by destruct b.
Qed.
Lemma reserved_insert m k s : reserved (<[k := s]> m) ≡ₚ slot_blocks k s ++ reserved (delete k m).
Proof. unfold reserved. rewrite <- (map_to_list_delete (<[k := s]> m) k s) by apply lookup_insert_eq. by rewrite delete_insert_eq. Qed.
Lemma blocks_snoc a size n : 0 <= n -> blocks a size (n + 1) = (a, size) :: blocks (a + size) size n.
Proof.
  intros Hn. unfold blocks. rewrite seqZ_cons by lia. cbn [fmap list_fmap]. replace (a + 0 * size) with a by lia. f_equal. replace (Z.pred (n + 1)) with n by lia. change (Z.succ 0) with 1.
  rewrite <- (Z.add_0_r 1) at 1. rewrite <- fmap_add_seqZ, <- list_fmap_compose. apply list_fmap_ext. intros _ i _. cbn. f_equal. lia.
Qed.
Lemma slot_blocks_cons k block a n : aget GC_SIZES (GC_PID_PART k.2) = Some block -> 0 < block -> 0 <= n ->
  slot_blocks k (Slot a (a + (n + 1) * block)) = (a, block) :: slot_blocks k (Slot (a + block) (a + (n + 1) * block)).
Proof.
  intros Hb Hp Hn. unfold slot_blocks. rewrite Hb. cbn [slot_cur slot_end]. replace (a + (n + 1) * block - a) with ((n + 1) * block) by lia. replace (a + (n + 1) * block - (a + block)) with (n * block) by lia.
  rewrite !Z.quot_mul by lia. by apply blocks_snoc.
Qed.
Lemma slot_blocks_empty k s : slot_ok k s -> slot_cur s >= slot_end s -> slot_cur s = slot_end s /\ slot_blocks k s = [].
Proof.
  intros (block & n & Hb & Hp & Hn & He) Hc. assert (n = 0) as -> by nia. split; [lia|]. unfold slot_blocks. rewrite Hb, He. replace (slot_cur s + 0 * block - slot_cur s) with 0 by lia. by rewrite Z.quot_0_l by lia.
Qed.
Lemma the_slot_ok m k : slots_ok m -> (exists block, aget GC_SIZES (GC_PID_PART k.2) = Some block /\ 0 < block) -> slot_ok k (the_slot m k).
Proof. intros Hm (block & Hb & Hp). unfold the_slot. destruct (m !! k) as [s|] eqn:E; [by apply Hm|]. exists block, 0. done. Qed.
(** Small sizes and their partition. *)
Definition small_ok (size kind oc : Z) : Prop := 0 < size <= 40 /\ 0 <= kind < MEM_KIND_FINALIZER /\ 0 <= oc < GC_PAGE_CLASSES.
Lemma small_part size : 0 < size <= 40 -> exists block, 0 <= tlab_part size < GC_FIXED_PARTS /\ aget GC_SIZES (tlab_part size) = Some block /\ size <= block /\ 8 <= block <= 40.
Proof.
  intros Hs. unfold tlab_part.
  destruct (round_up 3 size ltac:(lia)) as (m & Em & Hm). change (2 ^ 3) with 8 in *. change GC_ALIGN with 8 in *. rewrite Em in *. change GC_ALIGN_BITS with 3. change GC_FIXED_PARTS with 5. rewrite shiftr_div by lia. change (2 ^ 3) with 8. rewrite Z.div_mul by lia.
  exists (m * 8). split; [lia|]. split; [|lia]. assert (m = 1 \/ m = 2 \/ m = 3 \/ m = 4 \/ m = 5) as [->|[->|[->|[->| ->]]]] by lia; reflexivity.
Qed.
Lemma holds_sub h ls l1 l2 : l2 ⊆+ l1 -> holds h ls l1 -> holds h ls l2.
Proof. intros Hp [Ha Hi]. split; [by apply (pairwise_submseteq _ _ l1)|]. intros o Ho. apply Hi. by eapply elem_of_submseteq. Qed.
Lemma holds_perm h ls l1 l2 : l1 ≡ₚ l2 -> holds h ls l1 -> holds h ls l2.
Proof. intros Hp [Ha Hi]. split; [by rewrite <- Hp|]. intros o Ho. apply Hi. by rewrite Hp. Qed.
Lemma gc_tlab_alloc_spec junk h ls nb m th size kind oc live : heap_inv h ls -> os_memory nb h -> small_ok size kind oc -> slots_ok m -> holds h ls (live ++ reserved m) ->
  let part := tlab_part size in
  exists ptr s h' ls', size <= slot_cur s - ptr /\ gc_tlab_alloc junk h nb (the_slot m (th, GC_PID oc part kind)) size kind oc = Done (ptr, s, h') /\
    heap_inv h' ls' /\ slots_ok (<[(th, GC_PID oc part kind) := s]> m) /\ holds h' ls' (((ptr, slot_cur s - ptr) :: live) ++ reserved (<[(th, GC_PID oc part kind) := s]> m)).
Proof.
  intros Hh Hos (Hs & Hk & Ho) Hm Hlive. cbv zeta. destruct (small_part size Hs) as (block & Hp & Hb & Hsz & Hblock). unfold gc_tlab_alloc. set (part := tlab_part size) in *. rewrite Hb. cbn [ub mbind outcome_bind].
  change MEM_KIND_FINALIZER with 3 in Hk. destruct (pid_part oc part kind Ho ltac:(change GC_LARGE_PART with 8; change GC_FIXED_PARTS with 5 in Hp; lia) ltac:(lia)) as [Hpid Hpart]. set (pid := GC_PID oc part kind) in *. set (k := (th, pid)).
  assert (aget GC_SIZES (GC_PID_PART k.2) = Some block) as Hkb by (cbn; by rewrite Hpart).
  pose proof (the_slot_ok m k Hm ltac:(exists block; split; [done|lia])) as Hslot.
  (* a buffer with a block *)
  assert (forall h1 ls1 a n, heap_inv h1 ls1 -> holds h1 ls1 (live ++ slot_blocks k (Slot a (a + (n + 1) * block)) ++ reserved (delete k m)) -> 0 <= n ->
    heap_inv h1 ls1 /\ slots_ok (<[k := Slot (a + block) (a + (n + 1) * block)]> m) /\ holds h1 ls1 (((a, block) :: live) ++ reserved (<[k := Slot (a + block) (a + (n + 1) * block)]> m))) as Hgive.
  { intros h1 ls1 a n Hh1 Hl1 Hn. split; [done|]. split.
    - intros k' s' Hs'. destruct (decide (k' = k)) as [->|Hne]; [rewrite lookup_insert_eq in Hs'; injection Hs' as <-|rewrite lookup_insert_ne in Hs' by done; by apply Hm]. exists block, n. cbn [slot_cur slot_end]. split; [done|]. lia.
    - rewrite slot_blocks_cons in Hl1 by (done || lia). eapply holds_perm; [|exact Hl1]. rewrite reserved_insert. cbn [app]. by rewrite <- Permutation_middle. }
  destruct Hslot as (block' & n & Hb' & Hp' & Hn & He). rewrite Hkb in Hb'. injection Hb' as <-. unfold tlab_refill. destruct (Z.geb_spec (slot_cur (the_slot m k)) (slot_end (the_slot m k))) as [Hge|Hlt].
  - (* a new run *)
    destruct (slot_blocks_empty k (the_slot m k)) as [Heq Hempty]; [exists block, n; done|lia|]. rewrite Heq, Z.eqb_refl. cbn [negb].
    pose proof (hv_lists _ _ Hh pid Hpid) as Hl. rewrite Hpart in Hl.
    assert (0 < Z.quot GC_TLAB_RUN block <= 256) as Hwant. { change GC_TLAB_RUN with 2048. rewrite Z.quot_div_nonneg by lia. split; [apply Z.div_str_pos; lia|apply Z.div_le_upper_bound; lia]. }
    destruct (gc_alloc_fixed_run_spec junk part _ _ nb false _ Hp Hwant Hl (Hos pid Hpid)) as (run & got & l' & ls' & block' & -> & Hgot & Hb' & Hl' & Hlive' & Hg). rewrite Hb in Hb'. injection Hb' as <-. cbn [mbind outcome_bind slot_cur slot_end].
    assert (adds h ls (set_pid h pid l') (set_items ls pid ls') (blocks run block got)) as Hadds.
    { apply (set_adds nb); rewrite ?Hpart; try done; [|unfold heap_live; by rewrite Hpart]. intros Hkind. unfold pid in Hkind. rewrite pid_kind in Hkind by lia. change MEM_KIND_FINALIZER with 3 in Hkind. lia. }
    pose proof (holds_adds _ _ _ _ _ _ Hadds Hlive) as Hlive2. replace got with (got - 1 + 1) by lia.
    eexists run, (Slot (run + block) _), _, _. cbn [slot_cur]. replace (run + block - run) with block by lia. split; [done|]. split; [done|]. apply Hgive; [apply Hadds| |lia]. eapply holds_perm; [|exact Hlive2].
    rewrite (reserved_split m k), Hempty. cbn [app]. unfold slot_blocks. rewrite Hkb. cbn [slot_cur slot_end]. replace (run + (got - 1 + 1) * block - run) with (got * block) by lia. rewrite Z.quot_mul by lia. by rewrite Permutation_app_swap_app.
  - destruct (the_slot m k) as [a e] eqn:Es. cbn [slot_cur slot_end] in *. assert (exists n', n = n' + 1 /\ 0 <= n') as (n' & -> & Hn') by (exists (n - 1); nia). subst e. cbn [mbind outcome_bind slot_cur slot_end].
    eexists a, (Slot (a + block) _), _, _. cbn [slot_cur]. replace (a + block - a) with block by lia. split; [done|]. split; [done|]. apply Hgive; [done| |done]. eapply holds_perm; [|exact Hlive]. by rewrite (reserved_split m k), Es.
Qed.


(** *** Collections *)
Definition waiting (l : page_list) : Prop := Forall (fun ph => need_flush ph = true) (pages l).
Definition all_waiting (h : heap) : Prop := forall pid, pid_ok pid -> waiting (h pid).
Lemma afor_lists (g : Z -> page_list -> option page_list) n : forall i h h', afor (fun pid h => l ← g pid (h pid); Some (set_pid h pid l)) n i h = Some h' ->
  forall pid, (i <= pid < i + Z.of_nat n -> g pid (h pid) = Some (h' pid)) /\ (~ i <= pid < i + Z.of_nat n -> h' pid = h pid).
Proof.
  induction n as [|n IH]; intros i h h'; cbn [afor]; [intros [= <-] pid; split; [lia|done]|]. destruct (g i (h i)) as [l|] eqn:E; [|done]. cbn [mbind option_bind]. intros Hr pid. destruct (IH _ _ _ Hr pid) as [H1 H2]. unfold set_pid in H1, H2. split.
  - intros Hp. destruct (decide (pid = i)) as [Heq|Hne]; [subst pid; rewrite Z.eqb_refl in H2; by rewrite H2 by lia|]. rewrite (proj2 (Z.eqb_neq pid i) Hne) in H1. apply H1. lia.
  - intros Hp. rewrite H2 by lia. by rewrite (proj2 (Z.eqb_neq pid i)) by lia.
Qed.
(** The page that contains an object marks it. *)
Definition marked (h : heap) (o : Z * Z) : Prop :=
  forall pid ph b, pid_ok pid -> ph ∈ pages (h pid) -> inside o (place ph) -> bmp ph = Some b -> is_marked b ((o.1 - base ph) / block_size ph) = true.
Definition heap_marks_wf (h : heap) : Prop := forall pid, pid_ok pid -> Forall marks_wf (pages (h pid)).
Lemma with_marks_list ps ps' : Forall2 (fun ph ph' => exists b, ph' = with_marks ph b) ps ps' -> Forall2 same_place ps ps' /\ Forall (fun ph => need_flush ph = true) ps'.
Proof. induction 1 as [|ph ph' ps ps' [b ->] _ [IH1 IH2]]; [done|]. split; by constructor. Qed.
Lemma gc_allocator_before_mark_spec h ls bits h' : heap_inv h ls -> gc_allocator_before_mark h bits = Some h' -> heap_marks_wf h' ->
  heap_inv h' ls /\ all_waiting h' /\ (forall pid, pid_ok pid -> Forall2 (fun ph ph' => exists b, ph' = with_marks ph b) (pages (h pid)) (pages (h' pid))).
Proof.
  intros [Hl Hfin Ha] Hb Hm. assert (forall pid, pid_ok pid -> list_inv (GC_PID_PART pid) (h' pid) (ls pid) /\ Forall2 (fun ph ph' => exists b, ph' = with_marks ph b) (pages (h pid)) (pages (h' pid))) as Hall.
  { intros pid Hp. destruct (afor_lists (fun pid l => before_mark_list l (bits pid)) _ _ _ _ Hb pid) as [Hg _]. specialize (Hg ltac:(unfold pid_ok in Hp; lia)). unfold before_mark_list in Hg. destruct (before_mark (pages (h pid)) (bits pid)) as [ps|] eqn:E; [|done]. cbn [mbind option_bind] in Hg. injection Hg as Hg.
    specialize (Hm pid Hp). specialize (Hl pid Hp). rewrite <- Hg in Hm |- *. cbn [pages] in Hm |- *. destruct (before_mark_spec _ _ _ _ _ (li_pages _ _ _ Hl) E Hm) as [H1 H2]. split; [|done].
    split; cbn [pages free_from]; [done| |pose proof (alen_nonneg ps); lia]. destruct (with_marks_list _ _ H2) as [Hs _]. rewrite (same_places_place _ _ Hs). apply Hl. }
  assert (forall pid, pid_ok pid -> place <$> pages (h' pid) = place <$> pages (h pid)) as Hplace.
  { intros pid Hp. apply same_places_place. by apply with_marks_list, Hall. }
  split; [split|split].
  - intros pid Hp. by apply Hall.
  - intros pid Hp Hk Hv. specialize (Hfin pid Hp Hk Hv). destruct (Hall pid Hp) as [_ H2]. rewrite Hfin in H2. by apply Forall2_nil_inv_l in H2.
  - intros pid pid' a b Hp Hp' Hne. rewrite !Hplace by done. by apply Ha.
  - intros pid Hp. by apply (with_marks_list (pages (h pid))), Hall.
  - intros pid Hp. by apply Hall.
Qed.
Lemma holds_marked h ls bits h' live live' : heap_inv h ls -> gc_allocator_before_mark h bits = Some h' -> heap_marks_wf h' -> holds h ls live -> live' ⊆+ live -> (forall o, o ∈ live' -> marked h' o) -> holds h' ls live'.
Proof.
  intros Hh Hb Hm [Ha Hi] Hsub Hmark. destruct (gc_allocator_before_mark_spec h ls bits h' Hh Hb Hm) as (Hh' & _ & Hw). split; [by apply (pairwise_submseteq _ _ live)|].
  intros o Ho. destruct (Hi o) as (pid & Hp & Hin); [by eapply elem_of_submseteq|]. exists pid. split; [done|]. unfold heap_live in *. specialize (Hw pid Hp). pose proof (hv_lists _ _ Hh pid Hp) as Hl. pose proof (li_pages _ _ _ Hl) as Hps.
  assert (forall ph, ph ∈ pages (h' pid) -> inside o (place ph) -> forall b, bmp ph = Some b -> is_marked b ((o.1 - base ph) / block_size ph) = true) as Hmo by (intros ph Hph Hio b Hb'; by apply (Hmark o Ho pid)).
  clear -Hps Hw Hin Hmo. revert Hw Hin Hmo. generalize (pages (h' pid)) as ps'. induction Hps as [|ph l ps ls' Hi Hps IH]; intros ps' Hw Hin Hmo; [by apply not_elem_of_nil in Hin|].
  inversion Hw as [|? ph' ? ps2 [b ->] Hw2]; subst. rewrite list_live_cons in *. apply elem_of_app in Hin as [Hin|Hin].
  - apply elem_of_app. left. apply marked_live; try done. apply (Hmo (with_marks ph b)); [left| |done]. by destruct (spans_inside _ _ _ _ Hi Hin) as (_ & ? & _).
  - apply elem_of_app. right. apply IH; try done. intros ph' Hph'. apply Hmo. by right.
Qed.
Lemma gc_call_finalizers_spec finalizer h ls : heap_inv h ls -> all_waiting h ->
  exists called h' ls', gc_call_finalizers finalizer h = Some (called, h') /\ quiet h ls h' ls' /\ all_waiting h'.
Proof.
  intros Hh Hw. unfold gc_call_finalizers.
  destruct (afor_total (fun k '(called, h) => let pid := MEM_KIND_FINALIZER + k * Z.shiftl 1 PAGE_KIND_BITS in
      '(c, ps) ← list_finalizers finalizer (pages (h pid)); Some (called ++ c, set_pid h pid (Pages ps (free_from (h pid)))))
    (fun _ st => exists ls', quiet h ls st.2 ls' /\ all_waiting st.2) (Z.to_nat (Z.shiftr GC_PAGE_SLOTS PAGE_KIND_BITS)) 0 ([], h)) as ([called h'] & Hr & ls' & Hq & Hw').
  - exists ls. by split; [apply quiet_refl|].
  - change (Z.of_nat (Z.to_nat (Z.shiftr GC_PAGE_SLOTS PAGE_KIND_BITS))) with 162. intros k [called h1] Hk (ls1 & Hq & Hw1). cbn [snd] in *. change MEM_KIND_FINALIZER with 3. change (Z.shiftl 1 PAGE_KIND_BITS) with 4. cbv zeta. set (pid := 3 + k * 4).
    assert (pid_ok pid) as Hp by (unfold pid_ok, pid; change GC_PAGE_SLOTS with 648; lia). assert (pid mod 4 = MEM_KIND_FINALIZER) as Hkind by (unfold pid; change MEM_KIND_FINALIZER with 3; z_div).
    pose proof Hq as [Hh1 _]. pose proof (hv_lists _ _ Hh1 pid Hp) as Hl. pose proof (hv_final _ _ Hh1 pid Hp Hkind) as Hfin.
    assert (exists c ps' ls2, list_finalizers finalizer (pages (h1 pid)) = Some (c, ps') /\ Forall2 (page_inv (GC_PID_PART pid)) ps' ls2 /\ list_live (GC_PID_PART pid) ps' ls2 = heap_live h1 ls1 pid /\ Forall2 same_place (pages (h1 pid)) ps' /\ Forall (fun ph => need_flush ph = true) ps') as (c & ps' & ls2 & -> & Hps' & Hlive & Hsame & Hwait).
    { destruct (var_part (GC_PID_PART pid)) eqn:Hv.
      - destruct (list_finalizers_spec finalizer _ _ _ Hv (li_pages _ _ _ Hl) (Hw1 pid Hp)) as (c & ps' & ls2 & H1 & H2 & H3 & H4 & H5 & _). by exists c, ps', ls2.
      - specialize (Hfin eq_refl). unfold heap_live. pose proof (li_pages _ _ _ Hl) as Hps. rewrite Hfin in *. apply Forall2_nil_inv_l in Hps as ->. exists [], [], []. done. }
    cbn [mbind option_bind]. eexists. split; [done|]. cbn [snd]. exists (set_items ls1 pid ls2). split.
    + apply (quiet_trans _ _ h1 ls1); [done|]. apply set_quiet; try done.
      * destruct Hl as [_ Ha Hf]. split; cbn [pages free_from]; [done|by rewrite (same_places_place _ _ Hsame)|]. pose proof (Forall2_length _ _ _ Hsame). unfold alen in *. lia.
      * intros _ Hv. cbn [pages]. rewrite (Hfin Hv) in Hsame. by apply Forall2_nil_inv_l in Hsame.
      * cbn [pages]. by rewrite (same_places_place _ _ Hsame).
    + intros i Hi. unfold set_pid. destruct (Z.eqb_spec i pid) as [->|]; [done|by apply Hw1].
  - exists called, h', ls'. done.
Qed.
Lemma gc_flush_empty_pages_spec budget h ls : heap_inv h ls -> all_waiting h ->
  exists h' ls', gc_flush_empty_pages h budget = Some h' /\ quiet h ls h' ls' /\ all_waiting h'.
Proof.
  intros Hh Hw. unfold gc_flush_empty_pages.
  destruct (afor_total (sweep_pid false budget) (fun _ st => exists ls', quiet h ls st.1 ls' /\ all_waiting st.1) (Z.to_nat GC_PAGE_SLOTS) 0 (h, 0)) as ([h' r] & -> & ls' & Hq & Hw').
  - exists ls. by split; [apply quiet_refl|].
  - change (Z.of_nat (Z.to_nat GC_PAGE_SLOTS)) with 648. intros pid [h1 retained] Hpid (ls1 & Hq & Hw1). cbn [fst] in *. assert (pid_ok pid) as Hp by (unfold pid_ok; change GC_PAGE_SLOTS with 648; lia).
    pose proof Hq as [Hh1 _]. pose proof (hv_lists _ _ Hh1 pid Hp) as Hl. unfold sweep_pid. pose proof (li_from _ _ _ Hl) as Hf.
    destruct (sweep_pages_spec (GC_PID_PART pid) budget false _ _ (li_pages _ _ _ Hl) ltac:(intros _; by apply Hw1) (free_from (h1 pid)) retained ltac:(lia)) as (ps' & from' & r' & ls2 & -> & Hps' & Hlive & Hsub & _ & H0 & H1 & _).
    cbn [mbind option_bind]. eexists. split; [done|]. cbn [fst]. exists (set_items ls1 pid ls2). split.
    + apply (quiet_trans _ _ h1 ls1); [done|]. apply set_quiet; try done.
      * split; cbn [pages free_from]; [done| |lia]. apply (pairwise_submseteq _ _ (place <$> pages (h1 pid))); [|apply Hl]. by apply fmap_submseteq, sublist_submseteq.
      * intros Hk Hv. cbn [pages]. rewrite (hv_final _ _ Hh1 pid Hp Hk Hv) in Hsub. by apply sublist_nil_r in Hsub.
      * cbn [pages]. intros a Ha. eapply elem_of_submseteq; [exact Ha|]. by apply fmap_submseteq, sublist_submseteq.
    + intros i Hi. unfold set_pid. destruct (Z.eqb_spec i pid) as [->|]; [|by apply Hw1]. unfold waiting. cbn [pages]. specialize (Hw1 pid Hp). unfold waiting in Hw1. rewrite Forall_forall in *. intros ph Hph. apply Hw1. by eapply elem_of_submseteq, sublist_submseteq.
  - cbn [mbind option_bind]. exists h', ls'. done.
Qed.
Lemma list_live_blocks_spec part ps ls : Forall2 (page_inv part) ps ls -> Forall (fun ph => need_flush ph = true) ps ->
  exists n, list_live_blocks ps = Some n /\ 0 <= n /\ (n = 0 -> list_live part ps ls = []).
Proof.
  induction 1 as [|ph l ps ls Hi Hps IH]; intros Hw; [by exists 0|]. inversion Hw as [|? ? Hn Hw2]; subst. destruct (IH Hw2) as (n & Hl & H0 & Hz). unfold list_live_blocks in *. cbn [foldr]. rewrite Hl. cbn [mbind option_bind].
  destruct (bmp ph) as [b|] eqn:Eb; [|by destruct (proj2 (pg_bmp _ _ (pi_ok _ _ _ Hi)) Hn)]. rewrite (page_live_blocks_spec part ph l b Hi Eb). cbn [mbind option_bind]. eexists. split; [done|].
  pose proof (how_many_nonneg (is_marked b) (first_block ph) (Z.to_nat (max_blocks ph - first_block ph))). split; [lia|]. intros E. rewrite list_live_cons, Hz, app_nil_r by lia.
  destruct (spans part ph l) as [|o k] eqn:Es; [done|]. exfalso. assert (o ∈ spans part ph l) as Ho by (rewrite Es; left). apply list_elem_of_fmap in Ho as ([p m] & _ & Ho). pose proof (page_live_range _ _ _ _ _ Hi Ho) as Hr.
  unfold page_live in Ho. rewrite Hn, Eb in Ho. unfold kept in Ho. apply list_elem_of_filter in Ho as [Hm _]. cbn in Hm.
  assert (how_many (is_marked b) (first_block ph) (Z.to_nat (max_blocks ph - first_block ph)) = 0) as E0 by lia. rewrite (how_many_zero _ _ _ E0 p) in Hm by lia. done.
Qed.
Lemma class_pid oc pid : 0 <= oc < GC_PAGE_CLASSES -> oc * GC_ALL_PAGES <= pid < (oc + 1) * GC_ALL_PAGES -> pid_ok pid.
Proof. unfold pid_ok. change GC_PAGE_CLASSES with 18. change GC_ALL_PAGES with 36. change GC_PAGE_SLOTS with 648. lia. Qed.
Lemma gc_allocator_class_live_blocks_spec h ls oc : heap_inv h ls -> all_waiting h -> 0 <= oc < GC_PAGE_CLASSES ->
  exists n, gc_allocator_class_live_blocks h oc = Some n /\ 0 <= n /\ (n = 0 -> forall pid, oc * GC_ALL_PAGES <= pid < (oc + 1) * GC_ALL_PAGES -> heap_live h ls pid = []).
Proof.
  intros Hh Hw Hoc. unfold gc_allocator_class_live_blocks.
  destruct (afor_total (fun pid n => k ← list_live_blocks (pages (h pid)); Some (n + k)) (fun j n => 0 <= n /\ (n = 0 -> forall pid, oc * GC_ALL_PAGES <= pid < j -> heap_live h ls pid = []))
    (Z.to_nat GC_ALL_PAGES) (oc * GC_ALL_PAGES) 0) as (n & -> & H0 & Hz).
  - split; [done|]. intros _ pid Hp. lia.
  - change (Z.of_nat (Z.to_nat GC_ALL_PAGES)) with 36. intros pid n Hp (H0 & Hz). assert (pid_ok pid) as Hpid by (apply (class_pid oc); [done|]; change GC_ALL_PAGES with 36 in *; lia).
    destruct (list_live_blocks_spec _ _ _ (li_pages _ _ _ (hv_lists _ _ Hh pid Hpid)) (Hw pid Hpid)) as (k & -> & Hk & Hkz). cbn [mbind option_bind]. eexists. split; [done|]. split; [lia|].
    intros E i Hi. destruct (decide (i = pid)) as [->|]; [apply Hkz; lia|apply Hz; lia].
  - exists n. split; [done|]. split; [done|]. intros E pid Hp. apply (Hz E). change (Z.of_nat (Z.to_nat GC_ALL_PAGES)) with 36. change GC_ALL_PAGES with 36 in *. lia.
Qed.
Lemma release_class_quiet h ls oc : heap_inv h ls -> all_waiting h -> 0 <= oc < GC_PAGE_CLASSES -> gc_allocator_class_live_blocks h oc = Some 0 ->
  exists ls', quiet h ls (gc_allocator_release_class h oc) ls' /\ all_waiting (gc_allocator_release_class h oc).
Proof.
  intros Hh Hw Hoc Hn. destruct (gc_allocator_class_live_blocks_spec h ls oc Hh Hw Hoc) as (n & Hn' & _ & Hz). rewrite Hn in Hn'. injection Hn' as <-. specialize (Hz eq_refl).
  exists (fun pid => if (oc * GC_ALL_PAGES <=? pid) && (pid <? (oc + 1) * GC_ALL_PAGES) then [] else ls pid).
  assert (forall pid, gc_allocator_release_class h oc pid = Pages [] 0 \/ gc_allocator_release_class h oc pid = h pid) as Hcase by (intros pid; unfold gc_allocator_release_class; case_if_bool; tauto).
  split; [split; [split|]|].
  - intros pid Hp. unfold gc_allocator_release_class. case_if_bool; [split; [apply Forall2_nil_2|done|done]|by apply Hh].
  - intros pid Hp Hk Hv. destruct (Hcase pid) as [->| ->]; [done|by apply Hh].
  - intros pid pid' a b Hp Hp' Hne. destruct (Hcase pid) as [->| ->]; [intros Ha; by apply not_elem_of_nil in Ha|]. destruct (Hcase pid') as [->| ->]; [intros _ Hb; by apply not_elem_of_nil in Hb|]. by apply Hh.
  - intros pid. unfold heap_live, gc_allocator_release_class. case_if_bool; [|done]. symmetry. apply Hz. lia.
  - intros pid Hp. destruct (Hcase pid) as [->| ->]; [constructor|by apply Hw].
Qed.

(** ** Steps *)
Record alloc_state := State { st_heap : heap; st_slots : gmap (Z * Z) gc_tlab_slot; st_live : list (Z * Z) }.
Section steps.
Context (junk : gc_fl).
Inductive alloc_step : alloc_state -> alloc_state -> Prop :=
  | step_alloc h m live nb inc size kind oc ptr sz h' : os_memory nb h -> request_ok size kind oc ->
      gc_allocator_alloc junk h nb inc size kind oc = Done (Some (ptr, sz), h') ->
      alloc_step (State h m live) (State h' m ((ptr, sz) :: live))
  | step_tlab h m live nb th size kind oc ptr slot h' : os_memory nb h -> small_ok size kind oc ->
      let part := tlab_part size in
      gc_tlab_alloc junk h nb (the_slot m (th, GC_PID oc part kind)) size kind oc = Done (ptr, slot, h') ->
      alloc_step (State h m live) (State h' (<[(th, GC_PID oc part kind) := slot]> m) ((ptr, slot_cur slot - ptr) :: live))
  | step_mark h m live bits h' live' : gc_allocator_before_mark h bits = Some h' -> heap_marks_wf h' -> live' ⊆+ live -> (forall o, o ∈ live' -> marked h' o) ->
      alloc_step (State h m live) (State h' ∅ live')
  | step_finalize h m live finalizer called h' : all_waiting h -> gc_call_finalizers finalizer h = Some (called, h') -> alloc_step (State h m live) (State h' m live)
  | step_sweep h m live budget h' : all_waiting h -> gc_flush_empty_pages h budget = Some h' -> alloc_step (State h m live) (State h' m live)
  | step_release h m live oc : all_waiting h -> 0 <= oc < GC_PAGE_CLASSES -> gc_allocator_class_live_blocks h oc = Some 0 -> alloc_step (State h m live) (State (gc_allocator_release_class h oc) m live).
Definition start : alloc_state := State empty_heap ∅ [].
Inductive reachable : alloc_state -> Prop :=
  | reach_start : reachable start
  | reach_step s s' : reachable s -> alloc_step s s' -> reachable s'.
Definition state_inv (s : alloc_state) (ls : Z -> list (list item)) : Prop :=
  heap_inv (st_heap s) ls /\ slots_ok (st_slots s) /\ holds (st_heap s) ls (st_live s ++ reserved (st_slots s)).
Lemma start_inv : state_inv start (fun _ => []).
Proof. unfold state_inv, start. cbn [st_heap st_slots st_live]. split; [apply empty_heap_inv|]. split; [intros k s Hk; by rewrite lookup_empty in Hk|]. unfold reserved. rewrite map_to_list_empty. split; [done|]. intros o Ho. by apply not_elem_of_nil in Ho. Qed.
Lemma step_inv s s' ls : state_inv s ls -> alloc_step s s' -> exists ls', state_inv s' ls'.
Proof.
  intros (Hh & Hm & Hl) Hstep. destruct Hstep as [h m live nb inc size kind oc ptr sz h' Hos Hreq Hr|h m live nb th size kind oc ptr slot h' Hos Hreq part Hr|h m live bits h' live' Hr Hwf Hsub Hmk|h m live fin called h' Hw Hr|h m live budget h' Hw Hr|h m live oc Hw Hoc Hn];
    unfold state_inv in *; cbn [st_heap st_slots st_live] in *.
  - destruct (gc_allocator_alloc_spec junk h ls nb inc size kind oc Hh Hos Hreq) as (ptr' & sz' & h2 & ls' & Hr' & _ & Hadds). rewrite Hr in Hr'. injection Hr' as <- <- <-. exists ls'. split; [apply Hadds|]. split; [done|]. exact (holds_adds _ _ _ _ _ _ Hadds Hl).
  - destruct (gc_tlab_alloc_spec junk h ls nb m th size kind oc live Hh Hos Hreq Hm Hl) as (ptr' & slot' & h2 & ls' & _ & Hr' & Hh' & Hm' & Hl'). fold part in Hr'. rewrite Hr in Hr'. injection Hr' as <- <- <-. by exists ls'.
  - exists ls. split; [by apply (gc_allocator_before_mark_spec h ls bits)|]. split; [intros k s Hk; by rewrite lookup_empty in Hk|]. unfold reserved. rewrite map_to_list_empty. cbn. rewrite app_nil_r.
    apply (holds_marked h ls bits h' live); try done. by apply (holds_sub h ls (live ++ reserved m)); [apply submseteq_inserts_r|].
  - destruct (gc_call_finalizers_spec fin h ls Hh Hw) as (called' & h2 & ls' & Hr' & Hq & _). rewrite Hr in Hr'. injection Hr' as <- <-. exists ls'. split; [apply Hq|]. split; [done|]. by apply (holds_quiet h ls).
  - destruct (gc_flush_empty_pages_spec budget h ls Hh Hw) as (h2 & ls' & Hr' & Hq & _). rewrite Hr in Hr'. injection Hr' as <-. exists ls'. split; [apply Hq|]. split; [done|]. by apply (holds_quiet h ls).
  - destruct (release_class_quiet h ls oc Hh Hw Hoc Hn) as (ls' & Hq & _). exists ls'. split; [apply Hq|]. split; [done|]. by apply (holds_quiet h ls).
Qed.
Lemma reachable_inv s : reachable s -> exists ls, state_inv s ls.
Proof. induction 1 as [|s s' _ [ls Hls] Hstep]; [eexists; apply start_inv|by apply (step_inv s s' ls)]. Qed.
End steps.
