(* ===== verification/AllocatorProps.v ===== *)
(** * What the block allocator guarantees *)
From S2P Require Import Prelude Allocator AllocatorPage AllocatorAlloc AllocatorHeap AllocatorMark AllocatorSound.

(** ** Size classes *)
(** [gc_allocator_alloc] has a class for every positive size up to [MAX_ALLOC]: a large
    block of whole 64 KB units from 1 MB on, a fixed block for at most 40 bytes without
    finalizer, else at most 254 blocks of a partition with a size table; the size given is at
    least the size asked for, and less than a block more. *)
Theorem class_of_serves size finalizer : 0 < size <= MAX_ALLOC -> exists c, class_of size finalizer = Some c /\ class_ok size finalizer c.
Proof. exact (class_of_ok size finalizer). Qed.
Theorem class_of_serves_witness : 0 < 100000 <= MAX_ALLOC /\ class_of 100000 false = Some (Var 7 106496) /\ exists c, class_of 100000 false = Some c /\ class_ok 100000 false c.
Proof. assert (0 < 100000 <= MAX_ALLOC) as H by (unfold MAX_ALLOC, INT_MAX; lia). split; [exact H|]. split; [reflexivity|]. exact (class_of_serves 100000 false H). Defined.

(** ** Live memory *)
(** The memory of an object is inside a page, after its size table. *)
Definition in_page (h : heap) (o : Z * Z) : Prop :=
  0 < o.2 /\ exists pid ph, pid_ok pid /\ ph ∈ pages (h pid) /\ base ph + sizes_end (var_part (GC_PID_PART pid)) (max_blocks ph) <= o.1 /\ o.1 + o.2 <= base ph + page_size ph.
Lemma holds_in_page h ls live o : heap_inv h ls -> holds h ls live -> o ∈ live -> in_page h o.
Proof.
  intros Hh [_ Hi] Ho. destruct (Hi o Ho) as (pid & Hp & Hin). pose proof (hv_lists _ _ Hh pid Hp) as Hl. apply (list_live_in _ _ _ _ (li_pages _ _ _ Hl)) in Hin as (ph & l & Hz & Hs). destruct (zip_inv _ _ _ _ _ (li_pages _ _ _ Hl) Hz) as [Hpi Hph].
  destruct (spans_inside _ _ _ _ Hpi Hs) as (H0 & [_ H1] & H2). split; [done|]. exists pid, ph. pose proof (pi_first _ _ _ Hpi). cbn in H1. split; [done|]. split; [done|]. lia.
Qed.
(** C4. In every reachable state, the objects the program holds and the blocks reserved in the
    allocation buffers of its threads do not overlap, and each of them is inside the memory of
    a page, after its size table: allocations, refills, marking, finalizers, giving back empty
    pages and the pages of retired owners never hand out, move or release memory in use. *)
Theorem live_memory_disjoint junk s : reachable junk s ->
  pairwise apart (st_live s ++ reserved (st_slots s)) /\ Forall (in_page (st_heap s)) (st_live s ++ reserved (st_slots s)).
Proof. intros Hs. destruct (reachable_inv junk s Hs) as (ls & Hh & Hm & Hl). split; [apply Hl|]. apply Forall_forall. intros o Ho. by apply (holds_in_page _ ls (st_live s ++ reserved (st_slots s))). Qed.

(** C9. In every reachable state, every request is served: [gc_allocator_alloc] returns memory
    of at least the size asked for, and a small allocation out of a thread's buffer, refilled
    or not, returns a block of at least that size; neither leaves through an error. *)
Theorem requests_are_served junk s nb : reachable junk s -> os_memory nb (st_heap s) ->
  (forall inc size kind oc, request_ok size kind oc -> exists ptr sz h', gc_allocator_alloc junk (st_heap s) nb inc size kind oc = Done (Some (ptr, sz), h') /\ size <= sz) /\
  (forall th size kind oc, small_ok size kind oc -> exists ptr slot h', gc_tlab_alloc junk (st_heap s) nb (the_slot (st_slots s) (th, GC_PID oc (tlab_part size) kind)) size kind oc = Done (ptr, slot, h') /\ size <= slot_cur slot - ptr).
Proof.
  intros Hs Hos. destruct (reachable_inv junk s Hs) as (ls & Hh & Hm & Hl). split.
  - intros inc size kind oc Hreq. destruct (gc_allocator_alloc_spec junk _ ls nb inc size kind oc Hh Hos Hreq) as (ptr & sz & h' & _ & Hr & Hsz & _). by exists ptr, sz, h'.
  - intros th size kind oc Hreq. destruct (gc_tlab_alloc_spec junk _ ls nb _ th size kind oc _ Hh Hos Hreq Hm Hl) as (ptr & slot & h' & _ & Hsz & Hr & _). by exists ptr, slot, h'.
Qed.
(** A state after the first small allocation: 24-byte blocks, one handed out, 84 in the buffer. *)
Definition ex_junk : gc_fl := (0, 0).
Definition ex_base : Z -> Z := fun _ => 1048576.
Definition ex_page : gc_pheader := Page 1048576 65536 None 24 0 2730 0 (Fl 0 1 8 ((85, 2645) :: replicate 255 ex_junk)) None false.
Definition ex_heap : heap := set_pid empty_heap (GC_PID 0 2 0) (Pages [ex_page] 1).
Definition ex_slot : gc_tlab_slot := Slot (1048576 + 24) (1048576 + 2040).
Definition ex_state : alloc_state := State ex_heap {[ (1, GC_PID 0 2 0) := ex_slot ]} [(1048576, 24)].
Lemma ex_tlab : gc_tlab_alloc ex_junk empty_heap ex_base no_slot 20 0 0 = Done (1048576, ex_slot, ex_heap).
Proof.
  assert (gc_alloc_fixed_run ex_junk (Pages [] 0) ex_base false 2 85 = Done (1048576, 85, Pages [ex_page] 1)) as Hr by (vm_compute; reflexivity).
  unfold gc_tlab_alloc. change (tlab_part 20) with 2. change (aget GC_SIZES 2) with (Some 24). cbn [ub mbind outcome_bind]. unfold tlab_refill. change (slot_cur no_slot >=? slot_end no_slot) with true. change (slot_cur no_slot =? slot_end no_slot) with true. cbn [negb].
  change (Z.quot GC_TLAB_RUN 24) with 85. change (empty_heap (GC_PID 0 2 0)) with (Pages [] 0). rewrite Hr. reflexivity.
Qed.
Lemma empty_memory nb : os_memory nb empty_heap.
Proof. intros pid _ size _. constructor. Qed.
Lemma ex_reachable : reachable ex_junk ex_state.
Proof.
  apply (reach_step ex_junk start); [constructor|]. unfold ex_state, start. change {[ (1, GC_PID 0 2 0) := ex_slot ]} with (<[(1, GC_PID 0 (tlab_part 20) 0) := ex_slot]> (∅ : gmap (Z * Z) gc_tlab_slot)). change [(1048576, 24)] with [(1048576, slot_cur ex_slot - 1048576)].
  apply (step_tlab ex_junk empty_heap ∅ [] ex_base 1 20 0 0 1048576 ex_slot ex_heap); [apply empty_memory|unfold small_ok; change MEM_KIND_FINALIZER with 3; change GC_PAGE_CLASSES with 18; lia|].
  change (the_slot ∅ (1, GC_PID 0 (tlab_part 20) 0)) with no_slot. apply ex_tlab.
Qed.
Theorem live_memory_disjoint_witness : reachable ex_junk ex_state /\ pairwise apart (st_live ex_state ++ reserved (st_slots ex_state)) /\ Forall (in_page (st_heap ex_state)) (st_live ex_state ++ reserved (st_slots ex_state)).
Proof. split; [apply ex_reachable|apply (live_memory_disjoint ex_junk), ex_reachable]. Defined.
Definition ex_base2 : Z -> Z := fun _ => 16777216.
Lemma ex_memory2 : os_memory ex_base2 (st_heap ex_state).
Proof. intros pid _ size _. unfold ex_state, ex_heap, set_pid. cbn [st_heap]. destruct (pid =? GC_PID 0 2 0); [|constructor]. constructor; [|constructor]. right. unfold ex_base2, place, ex_page. cbn. lia. Qed.
Theorem requests_are_served_witness : reachable ex_junk ex_state /\ os_memory ex_base2 (st_heap ex_state) /\ request_ok 100 0 0 /\ exists ptr sz h', gc_allocator_alloc ex_junk (st_heap ex_state) ex_base2 false 100 0 0 = Done (Some (ptr, sz), h') /\ 100 <= sz.
Proof.
  assert (request_ok 100 0 0) as Hreq by (unfold request_ok, MAX_ALLOC, INT_MAX; change GC_PAGE_CLASSES with 18; repeat split; try lia; intros Hf; discriminate Hf).
  split; [apply ex_reachable|]. split; [apply ex_memory2|]. split; [exact Hreq|]. apply (requests_are_served ex_junk ex_state ex_base2 ex_reachable ex_memory2). exact Hreq.
Defined.

(** ** Pointers to blocks *)
Lemma covers_at b l e p : covers b l e -> b <= p < e -> exists i, i ∈ l /\ item_pos i <= p < item_pos i + item_len i.
Proof.
  revert b. induction l as [|i l IH]; intros b; cbn [covers]; [lia|]. intros (Hp & Hok & Hl) Hr. destruct (decide (p < b + item_len i)); [exists i; split; [left|lia]|].
  destruct (IH _ Hl) as (j & Hj & Hpj); [lia|]. exists j. split; [by right|done].
Qed.
Section pointers.
Context (part : Z) (ph : gc_pheader) (l : list item) (s : list Z).
Hypothesis Hinv : page_inv part ph l.
Hypothesis Hs : sizes ph = Some s.
Lemma size_at p : first_block ph <= p < max_blocks ph -> exists n, aget s p = Some n /\ (n <> 0 -> Obj p n ∈ l).
Proof.
  intros Hp. destruct Hinv as [[Hr Hc _ [Hsz Hsl] _] _ _ _ _ _ _ _]. rewrite Hs in *. destruct (covers_at _ _ _ _ Hc Hp) as (i & Hi & Hpi). rewrite Forall_forall in Hsz. specialize (Hsz i Hi). destruct i as [q m|q m|q]; cbn in *.
  - destruct Hsz as (_ & Hq & Hz). destruct (decide (p = q)) as [->|Hne]; [by exists m|]. exists 0. split; [apply Hz; lia|done].
  - exists 0. split; [apply Hsz; lia|done].
  - exists 0. split; [replace p with q by lia; done|done].
Qed.
Lemma obj_size p n : Obj p n ∈ l -> aget s p = Some n /\ n <> 0 /\ first_block ph <= p /\ p + n <= max_blocks ph /\ forall j, p < j < p + n -> aget s j = Some 0.
Proof.
  intros Ho. destruct Hinv as [[Hr Hc _ [Hsz Hsl] _] _ _ _ _ _ _ _]. rewrite Hs in *. rewrite Forall_forall in Hsz. destruct (Hsz _ Ho) as (_ & Hp & Hz). destruct (covers_in _ _ _ _ Hc Ho) as (H1 & H2 & H3). cbn in *. repeat split; try done; lia.
Qed.
Lemma var_page_small : 0 < block_size ph <= 8192 /\ page_size ph <= INT_MAX.
Proof.
  destruct Hinv as [[Hr Hc _ _ _] Hb Hpos Hmax _ _ Hsz _]. assert (var_part part = true) as Hv by (destruct (var_part part); [done|]; destruct Hsz as [_ Hsz]; rewrite Hsz in Hs by done; done).
  pose proof (var_part_range part Hv) as Hrange. rewrite (proj2 (Z.eqb_neq part GC_LARGE_PART)) in Hb by lia. destruct (var_geometry part Hv) as (block & k & Hb' & _ & _ & _ & Hcases). rewrite Hb in Hb'. injection Hb' as <-.
  split; [lia|]. rewrite Z.quot_div_nonneg in Hmax by lia. change GC_PAGE_SIZE with 65536 in Hr. unfold INT_MAX. pose proof (Z.div_mod (page_size ph) (block_size ph) ltac:(lia)). pose proof (Z.mod_pos_bound (page_size ph) (block_size ph) ltac:(lia)). nia.
Qed.
Variable a : Z.
Hypothesis Ha : base ph <= a < base ph + page_size ph.
Lemma offset_small : i32 (a - base ph) = a - base ph.
Proof. pose proof var_page_small. apply i32_small. unfold in_i32, INT_MIN, INT_MAX in *. lia. Qed.
(** Division by the block size, whether it is a shift or not. *)
Lemma block_div off : 0 <= off -> (if negb (block_bits ph =? 0) then Z.shiftr off (block_bits ph) else Z.quot off (block_size ph)) = off / block_size ph.
Proof.
  intros Ho. pose proof (pi_pos _ _ _ Hinv). destruct (pi_bits _ _ _ Hinv) as [Hb0 Hb]. destruct (Z.eqb_spec (block_bits ph) 0) as [E|E]; cbn [negb]; [by rewrite Z.quot_div_nonneg by lia|]. by rewrite shiftr_div, <- Hb by done.
Qed.
Lemma block_mul p : (if negb (block_bits ph =? 0) then Z.shiftl p (block_bits ph) else p * block_size ph) = p * block_size ph.
Proof. destruct (pi_bits _ _ _ Hinv) as [Hb0 Hb]. destruct (Z.eqb_spec (block_bits ph) 0) as [E|E]; cbn [negb]; [done|]. by rewrite shiftl_mul, <- Hb by done. Qed.
Lemma get_block_id_spec : exists r, gc_allocator_get_block_id ph a = Some r /\
  ((exists n, Obj r n ∈ l /\ a = base ph + r * block_size ph) \/ (r = -1 /\ forall p n, Obj p n ∈ l -> a <> base ph + p * block_size ph)).
Proof.
  pose proof (pi_pos _ _ _ Hinv) as Hpos. unfold gc_allocator_get_block_id. rewrite offset_small, block_div, block_mul by lia. set (p := (a - base ph) / block_size ph).
  pose proof (Z.div_mod (a - base ph) (block_size ph) ltac:(lia)) as Hd. fold p in Hd. pose proof (Z.mod_pos_bound (a - base ph) (block_size ph) ltac:(lia)) as Hm.
  assert (forall q n, Obj q n ∈ l -> a = base ph + q * block_size ph -> p = q /\ p * block_size ph = a - base ph /\ first_block ph <= p < max_blocks ph /\ aget s p = Some n /\ n <> 0) as Hobj.
  { intros q n Ho E. destruct (obj_size q n Ho) as (Hsz & Hn & Hf & Hmx & _). assert (p = q) as -> by (unfold p; rewrite E; replace (base ph + q * block_size ph - base ph) with (q * block_size ph) by lia; apply Z.div_mul; lia).
    pose proof (covers_in _ _ _ _ (pg_covers _ _ (pi_ok _ _ _ Hinv)) Ho) as (_ & _ & Hok). cbn in Hok. repeat split; try done; lia. }
  destruct (Z.eqb_spec (p * block_size ph) (a - base ph)) as [E|E]; cbn [negb]; [|exists (-1); split; [done|]; right; split; [done|]; intros q n Ho Ea; destruct (Hobj q n Ho Ea) as (-> & ? & _); lia].
  destruct (Z.geb_spec p (max_blocks ph)); [exists (-1); split; [done|]; right; split; [done|]; intros q n Ho Ea; destruct (Hobj q n Ho Ea) as (-> & ? & ? & _); lia|].
  rewrite Hs. destruct (Z.ltb_spec p (first_block ph)); [exists (-1); split; [done|]; right; split; [done|]; intros q n Ho Ea; destruct (Hobj q n Ho Ea) as (-> & ? & ? & _); lia|].
  destruct (size_at p) as (n & Hn & Ho); [lia|]. rewrite Hn. cbn [mbind option_bind]. destruct (Z.eqb_spec n 0) as [En|En].
  - exists (-1). split; [done|]. right. split; [done|]. intros q m Hq Ea. destruct (Hobj q m Hq Ea) as (-> & _ & _ & Hsz & Hm0). rewrite Hn in Hsz. congruence.
  - exists p. split; [done|]. left. exists n. split; [by apply Ho|]. lia.
Qed.
Lemma get_block_interior_spec : exists r a', gc_allocator_get_block_interior ph a = Some (r, a') /\
  ((exists n, Obj r n ∈ l /\ a' = base ph + r * block_size ph /\ a' <= a < a' + n * block_size ph) \/
   (r = -1 /\ a' = a /\ forall p n, Obj p n ∈ l -> ~ base ph + p * block_size ph <= a < base ph + (p + n) * block_size ph)).
Proof.
  pose proof (pi_pos _ _ _ Hinv) as Hpos. unfold gc_allocator_get_block_interior. rewrite offset_small, Z.quot_div_nonneg by lia. set (p := (a - base ph) / block_size ph).
  pose proof (Z.div_mod (a - base ph) (block_size ph) ltac:(lia)) as Hd. fold p in Hd. pose proof (Z.mod_pos_bound (a - base ph) (block_size ph) ltac:(lia)) as Hm.
  assert (forall q n, base ph + q * block_size ph <= a < base ph + (q + n) * block_size ph <-> q <= p < q + n) as Hin by (intros q n; nia).
  destruct (Z.geb_spec p (max_blocks ph)); [exists (-1), a; split; [done|]; right; split; [done|]; split; [done|]; intros q n Ho; rewrite Hin; destruct (obj_size q n Ho) as (_ & _ & _ & ? & _); lia|].
  rewrite Hs. destruct (Z.ltb_spec p (first_block ph)); [exists (-1), a; split; [done|]; right; split; [done|]; split; [done|]; intros q n Ho; rewrite Hin; destruct (obj_size q n Ho) as (_ & _ & ? & _); lia|].
  destruct (fun H => loop_total (fun b => n ← aget s b; if n =? 0 then if b =? first_block ph then Some (inr None) else Some (inl (b - 1)) else Some (inr (Some (b, n))))
    (fun b => first_block ph <= b <= p /\ forall j, b < j <= p -> aget s j = Some 0)
    (fun r => match r with None => forall j, first_block ph <= j <= p -> aget s j = Some 0 | Some (b, n) => first_block ph <= b <= p /\ aget s b = Some n /\ n <> 0 /\ Obj b n ∈ l /\ forall j, b < j <= p -> aget s j = Some 0 end)
    (fun b => Z.to_nat (b - first_block ph)) H (S (Z.to_nat p)) p) as (r & -> & Hr).
  - intros b (Hb & Hz). destruct (size_at b) as (n & Hn & Ho); [lia|]. rewrite Hn. cbn [mbind option_bind]. destruct (Z.eqb_spec n 0) as [->|En].
    + assert (forall j, b <= j <= p -> aget s j = Some 0) as Hz' by (intros j Hj; destruct (decide (j = b)) as [->|]; [done|apply Hz; lia]). destruct (Z.eqb_spec b (first_block ph)) as [->|].
      * right. eexists. split; [done|]. done.
      * left. eexists. split; [done|]. split; [|lia]. split; [lia|]. intros j Hj. apply Hz'. lia.
    + right. eexists. split; [done|]. repeat split; try done; try lia. by apply Ho.
  - split; [lia|]. intros j Hj. lia.
  - pose proof (pg_range _ _ (pi_ok _ _ _ Hinv)). lia.
  - cbn [mbind option_bind]. destruct r as [[b n]|].
    + destruct Hr as (Hb & Hn & Hn0 & Ho & Hz). destruct (Z.geb_spec (p - b) n).
      * exists (-1), a. split; [done|]. right. split; [done|]. split; [done|]. intros q m Hq. rewrite Hin. intros Hqp. destruct (obj_size q m Hq) as (Hsz & Hm0 & _ & _ & Hzq).
        destruct (decide (q = b)) as [->|]; [rewrite Hn in Hsz; injection Hsz as ->; lia|]. destruct (decide (b < q)); [rewrite Hz in Hsz by lia; congruence|]. rewrite Hzq in Hn by lia. congruence.
      * exists b, (base ph + b * block_size ph). split; [done|]. left. exists n. split; [done|]. split; [done|]. destruct (Hin b n) as [_ Hi]. lia.
    + exists (-1), a. split; [done|]. right. split; [done|]. split; [done|]. intros q m Hq. rewrite Hin. intros Hqp. destruct (obj_size q m Hq) as (Hsz & Hm0 & Hf & _). rewrite Hr in Hsz by lia. congruence.
Qed.
End pointers.

(** Given any address in a page with a size table, [gc_allocator_get_block_id] answers the
    first block of an object exactly when the address is where the object starts, and
    [gc_allocator_get_block_interior] answers the object that contains the address and where
    it starts, or -1 when no object does.  So marking sets bits only where the size table is
    not 0, which is what rebuilding the runs relies on. *)
Theorem pointers_find_objects part ph l s a : page_inv part ph l -> sizes ph = Some s -> base ph <= a < base ph + page_size ph ->
  (exists r, gc_allocator_get_block_id ph a = Some r /\
    ((exists n, Obj r n ∈ l /\ a = base ph + r * block_size ph) \/ (r = -1 /\ forall p n, Obj p n ∈ l -> a <> base ph + p * block_size ph))) /\
  (exists r a', gc_allocator_get_block_interior ph a = Some (r, a') /\
    ((exists n, Obj r n ∈ l /\ a' = base ph + r * block_size ph /\ a' <= a < a' + n * block_size ph) \/
     (r = -1 /\ a' = a /\ forall p n, Obj p n ∈ l -> ~ base ph + p * block_size ph <= a < base ph + (p + n) * block_size ph))).
Proof. intros Hi Hs Ha. split; [by apply (get_block_id_spec part ph l s)|by apply (get_block_interior_spec part ph l s)]. Qed.
(** A page of eight 8 KB blocks: an object of two blocks, a marked one of one block, five free blocks. *)
Definition ex_var_page : gc_pheader := Page 65536 65536 (Some [4]) 8192 13 8 0 (Fl 0 1 1 [(3, 5); ex_junk]) (Some [2; 0; 1; 0; 0; 0; 0; 0]) true.
Definition ex_items : list item := [Obj 0 2; Obj 2 1; Run 3 5].
Lemma below_8 p : 0 <= p < 8 -> p = 0 \/ p = 1 \/ p = 2 \/ p = 3 \/ p = 4 \/ p = 5 \/ p = 6 \/ p = 7.
Proof. lia. Qed.
Lemma ex_var_inv : page_inv 7 ex_var_page ex_items.
Proof.
  split; try done.
  - split; try done.
    + split; [|by intros s [= <-]]. constructor; [|constructor; [|constructor; [|done]]]; cbn.
      * split; [lia|]. split; [done|]. intros j Hj. by replace j with 1 by lia.
      * split; [lia|]. split; [done|]. intros j Hj. lia.
      * intros j Hj. destruct (below_8 j) as [->|[->|[->|[->|[->|[->|[->| ->]]]]]]]; (done || lia).
    + split; [|done]. intros b [= <-]. split; [done|]. repeat constructor; lia.
  - intros _ b [= <-] p Hp Hm. cbn in Hp. destruct (below_8 p Hp) as [->|[->|[->|[->|[->|[->|[->| ->]]]]]]]; (discriminate Hm || done).
Qed.
Theorem pointers_find_objects_witness : page_inv 7 ex_var_page ex_items /\
  (exists r, gc_allocator_get_block_id ex_var_page (65536 + 16384) = Some r /\
    ((exists n, Obj r n ∈ ex_items /\ 65536 + 16384 = base ex_var_page + r * block_size ex_var_page) \/ (r = -1 /\ forall p n, Obj p n ∈ ex_items -> 65536 + 16384 <> base ex_var_page + p * block_size ex_var_page))).
Proof. split; [exact ex_var_inv|]. apply (pointers_find_objects 7 ex_var_page ex_items [2; 0; 1; 0; 0; 0; 0; 0] (65536 + 16384) ex_var_inv eq_refl). cbn. lia. Defined.

(** ** Rebuilding the free runs *)
Lemma covers_unique b l e i j p : covers b l e -> i ∈ l -> j ∈ l -> item_pos i <= p < item_pos i + item_len i -> item_pos j <= p < item_pos j + item_len j -> i = j.
Proof.
  revert b. induction l as [|k l IH]; intros b Hc Hi Hj Hpi Hpj; [by apply not_elem_of_nil in Hi|]. destruct Hc as (Hk & Hok & Hc).
  apply elem_of_cons in Hi as [->|Hi], Hj as [->|Hj]; [done| | |by apply (IH _ Hc)].
  - destruct (covers_in _ _ _ _ Hc Hj) as (? & _). lia.
  - destruct (covers_in _ _ _ _ Hc Hi) as (? & _). lia.
Qed.
Definition in_blocks (p : Z) (r : Z * Z) : Prop := r.1 <= p < r.1 + r.2.
Lemma flush_frees_spec junk part ph l b : page_inv part ph l -> need_flush ph = true -> bmp ph = Some b ->
  exists ph', flush_free_list junk ph = Some ph' /\ need_flush ph' = false /\
    forall p, first_block ph <= p < max_blocks ph -> Exists (in_blocks p) (fl_runs (free ph')) <-> ~ Exists (in_blocks p) (kept b (objs l)).
Proof.
  intros Hi Hn Hb. destruct (flush_free_list_spec junk ph l b (pi_ok _ _ _ Hi) Hb (lost_unmarked_marks _ _ _ _ Hi (pi_marks _ _ _ Hi Hn b Hb))) as (ph' & l' & Hf & Hok & Ho & Hfound & Hn' & _ & _ & _ & Hfb & Hmx & _).
  exists ph'. split; [done|]. split; [done|]. intros p Hp. pose proof (pg_covers _ _ Hok) as Hc. rewrite Hfb, Hmx in Hc. rewrite (proj2 (pg_fl _ _ Hok)), <- Ho, !Exists_exists. split.
  - intros ([q n] & Hq & Hpq) ([r m] & Hr & Hpr). apply runs_in in Hq. apply objs_in in Hr. discriminate (covers_unique _ _ _ _ _ p Hc Hq Hr Hpq Hpr).
  - intros Hno. destruct (covers_at _ _ _ p Hc Hp) as (i & Hin & Hpi). rewrite Forall_forall in Hfound. specialize (Hfound i Hin). destruct i as [q n|q n|q]; [|exists (q, n); split; [by apply runs_in|done]|done].
    exfalso. apply Hno. exists (q, n). split; [by apply objs_in|done].
Qed.
(** Rebuilding the runs of a page from its mark bits makes free exactly the blocks that are
    in no marked object: the dead objects and the blocks lost since the last collection come
    back, the marked objects stay, whatever the order of the old runs, objects and marks. *)
Theorem flush_frees_the_unmarked junk part ph l b : page_inv part ph l -> need_flush ph = true -> bmp ph = Some b ->
  exists ph', flush_free_list junk ph = Some ph' /\ need_flush ph' = false /\
    forall p, first_block ph <= p < max_blocks ph -> Exists (in_blocks p) (fl_runs (free ph')) <-> ~ Exists (in_blocks p) (kept b (objs l)).
Proof. exact (flush_frees_spec junk part ph l b). Qed.
Theorem flush_frees_the_unmarked_witness : page_inv 7 ex_var_page ex_items /\ option_map (fun ph => fl_runs (free ph)) (flush_free_list ex_junk ex_var_page) = Some [(0, 2); (3, 5)] /\
  exists ph', flush_free_list ex_junk ex_var_page = Some ph' /\ need_flush ph' = false /\
    forall p, 0 <= p < 8 -> Exists (in_blocks p) (fl_runs (free ph')) <-> ~ Exists (in_blocks p) (kept [4] (objs ex_items)).
Proof. split; [exact ex_var_inv|]. split; [vm_compute; reflexivity|]. exact (flush_frees_the_unmarked ex_junk 7 ex_var_page ex_items [4] ex_var_inv eq_refl eq_refl). Defined.

(** ** Finalizers *)
Lemma objs_NoDup b l e : covers b l e -> NoDup (objs l).
Proof.
  revert b. induction l as [|i l IH]; intros b; [constructor|]. intros (Hp & Hok & Hc). specialize (IH _ Hc). destruct i as [p n|p n|p]; cbn [objs omap list_omap obj_of]; [|exact IH|exact IH]. constructor; [|exact IH].
  intros Hin. apply objs_in in Hin. destruct (covers_in _ _ _ _ Hc Hin) as (H1 & _). cbn in *. lia.
Qed.
Lemma dead_in b base_ block l a : a ∈ dead b base_ block l <-> exists p n, Obj p n ∈ l /\ is_marked b p = false /\ a = base_ + p * block.
Proof.
  unfold dead. rewrite list_elem_of_fmap. split.
  - intros ([p n] & -> & Hin). apply list_elem_of_filter in Hin as [Hm Hin]. apply objs_in in Hin. by exists p, n.
  - intros (p & n & Hin & Hm & ->). exists (p, n). split; [done|]. apply list_elem_of_filter. split; [done|]. by apply objs_in.
Qed.
(** C37. After marking, the finalizers of a page called are exactly those of its unmarked
    objects that have one, each once, and a second pass calls none. *)
Theorem finalizers_run_once finalizer part ph l b : var_part part = true -> page_inv part ph l -> need_flush ph = true -> bmp ph = Some b ->
  exists called ph', page_finalizers finalizer ph = Some (called, ph') /\ NoDup called /\
    (forall a, a ∈ called <-> finalizer a <> 0 /\ exists p n, Obj p n ∈ l /\ is_marked b p = false /\ a = base ph + p * block_size ph) /\
    exists ph'', page_finalizers finalizer ph' = Some ([], ph'').
Proof.
  intros Hv Hi Hn Hb. destruct (page_finalizers_spec finalizer part ph l b Hv Hi Hn Hb) as (ph' & l' & Hf & Hi' & _ & Hp & Hn' & Hb' & Ho). exists (to_call finalizer b (base ph) (block_size ph) l), ph'. split; [done|].
  pose proof (pg_covers _ _ (pi_ok _ _ _ Hi)) as Hc. pose proof (pi_pos _ _ _ Hi) as Hpos. split; [|split].
  - apply NoDup_filter. unfold dead. apply NoDup_fmap_2_strong; [|apply NoDup_filter; by eapply objs_NoDup].
    intros [p n] [q m] Hin Hin' E. apply list_elem_of_filter in Hin as [_ Hin], Hin' as [_ Hin']. apply objs_in in Hin, Hin'. cbn in E. assert (p = q) as -> by nia.
    destruct (covers_in _ _ _ _ Hc Hin) as (_ & _ & H1), (covers_in _ _ _ _ Hc Hin') as (_ & _ & H2). cbn in H1, H2. assert (Obj q n = Obj q m) as E2 by (apply (covers_unique _ _ _ _ _ q Hc Hin Hin'); cbn; lia). by injection E2 as ->.
  - intros a. unfold to_call. rewrite list_elem_of_filter, dead_in. done.
  - destruct (page_finalizers_spec finalizer part ph' l' b Hv Hi' Hn' Hb') as (ph'' & _ & Hf2 & _). exists ph''. rewrite Hf2. do 2 f_equal. unfold to_call.
    destruct (dead b (base ph') (block_size ph') l') as [|a k] eqn:E; [done|]. exfalso. assert (a ∈ dead b (base ph') (block_size ph') l') as Ha by (rewrite E; left). apply dead_in in Ha as (p & n & Hin & Hm & _).
    apply objs_in in Hin. rewrite Ho in Hin. apply list_elem_of_filter in Hin as [Hm2 _]. cbn in Hm2. congruence.
Qed.
Theorem finalizers_run_once_witness : page_inv 7 ex_var_page ex_items /\ option_map fst (page_finalizers (fun _ => 1) ex_var_page) = Some [65536] /\
  exists called ph', page_finalizers (fun _ => 1) ex_var_page = Some (called, ph') /\ NoDup called /\
    (forall a, a ∈ called <-> 1 <> 0 /\ exists p n, Obj p n ∈ ex_items /\ is_marked [4] p = false /\ a = 65536 + p * 8192) /\
    exists ph'', page_finalizers (fun _ => 1) ph' = Some ([], ph'').
Proof. split; [exact ex_var_inv|]. split; [vm_compute; reflexivity|]. exact (finalizers_run_once (fun _ => 1) 7 ex_var_page ex_items [4] eq_refl ex_var_inv eq_refl eq_refl). Defined.

(** The live blocks counted byte by byte of a page's mark bits, with the masks of the first
    and the last byte, are its marked blocks; so a retired owner counted with none has no live
    object. *)
Theorem live_blocks_counts_marks part ph l b : page_inv part ph l -> bmp ph = Some b ->
  page_live_blocks ph = Some (how_many (is_marked b) (first_block ph) (Z.to_nat (max_blocks ph - first_block ph))).
Proof. exact (page_live_blocks_spec part ph l b). Qed.
Theorem live_blocks_counts_marks_witness : page_inv 7 ex_var_page ex_items /\ page_live_blocks ex_var_page = Some (how_many (is_marked [4]) 0 8).
Proof. split; [exact ex_var_inv|]. exact (live_blocks_counts_marks 7 ex_var_page ex_items [4] ex_var_inv eq_refl). Defined.

(** ** Findings *)
(** An object with a finalizer of 1 MB or more is in a page without a size table, and the next
    collection has no defined behaviour in [gc_call_finalizers]. *)
Definition large_finalizer_run : option (option (list Z * heap)) :=
  match gc_allocator_alloc ex_junk empty_heap ex_base false 1048576 MEM_KIND_FINALIZER 0 with
  | Done (Some _, h) => h ← gc_allocator_before_mark h (fun pid => if pid =? 35 then [[0]] else []); Some (gc_call_finalizers (fun _ => 0) h)
  | _ => None
  end.
Lemma large_finalizer_undefined : large_finalizer_run = Some None.
Proof. vm_compute. reflexivity. Qed.
(** Using up a run that is not the first one moves [current] past the first: its blocks are in no
    run until the next rebuild. *)
Lemma later_run_loses_blocks : exists fl, find_run (Fl 0 2 1 [(10, 2); (20, 5)]) 5 = Some (Some 1) /\ take_from (Fl 0 2 1 [(10, 2); (20, 5)]) 1 5 = Some fl /\ fl_runs fl = [(25, 0)].
Proof. eexists. split; [reflexivity|]. split; reflexivity. Qed.
