(* ===== verification/PageMap.v ===== *)
(** * The page map ([src/gc.c])

    From an address to the page that contains it: two levels of tables indexed by a hash of
    the address, filled by [gc_alloc_page] and cleared by [gc_free_page].  A page is known by
    the address of its header; [pages] holds the base and the size of the headers in use.  The
    levels that are absent are [gc_level1_null], and the entries that are absent are null. *)
From S2P Require Import Prelude Allocator AllocatorPage.

Definition GC_MASK_BITS : Z := 16.
Definition GC_LEVEL0_BITS : Z := 10.
Definition GC_LEVEL1_BITS : Z := 10.
Definition GC_LEVEL1_MASK : Z := Z.shiftl 1 GC_LEVEL1_BITS - 1.
Definition gc_hash (v : Z) : Z := Z.land (Z.lxor v (Z.shiftl (Z.shiftr v 33) 28)) 0xFFFFFFFFF.
Definition level0_index (p : Z) : Z := Z.shiftr (gc_hash p) (GC_MASK_BITS + GC_LEVEL1_BITS).
Definition level1_index (p : Z) : Z := Z.land (Z.shiftr (gc_hash p) GC_MASK_BITS) GC_LEVEL1_MASK.
Abbreviation level := (gmap Z Z) (only parsing).
Record page_map := PageMap { levels : gmap Z (gmap Z Z); free_pheaders : list Z; pages : gmap Z (Z * Z) }.
Definition GC_GET_PAGE (m : gmap Z (gmap Z Z)) (p : Z) : option Z := l ← m !! level0_index p; l !! level1_index p.
(** [GC_GET_PAGE(ptr) = h], with a new level when there is none; and [GC_GET_PAGE(ptr) = NULL]. *)
Definition set_page (m : gmap Z (gmap Z Z)) (p h : Z) : gmap Z (gmap Z Z) := <[level0_index p := <[level1_index p := h]> (default ∅ (m !! level0_index p))]> m.
Definition clear_page (m : gmap Z (gmap Z Z)) (p : Z) : option (gmap Z (gmap Z Z)) := l ← m !! level0_index p; Some (<[level0_index p := delete (level1_index p) l]> m).
(** The addresses of the 64 KB chunks of a page. *)
Definition chunks (base size : Z) : list Z := (fun i => base + Z.shiftl i GC_MASK_BITS) <$> seqZ 0 (Z.shiftr size GC_MASK_BITS).
Definition gc_will_collide (m : gmap Z (gmap Z Z)) (base size : Z) : bool := existsb (fun p => match GC_GET_PAGE m p with Some _ => true | None => false end) (chunks base size).
(** A header: the first free one, or the first of a chunk of 100 of which the last is not linked. *)
Definition PHEADER_CHUNK : nat := 100.
Definition chunk_headers (fresh : Z -> Z) : list Z := fresh <$> seqZ 0 (Z.of_nat PHEADER_CHUNK - 1).
Definition take_header (fresh : Z -> Z) (free : list Z) : option (Z * list Z) := match free with [] => match chunk_headers fresh with h :: free => Some (h, free) | [] => None end | h :: free => Some (h, free) end.
(** [gc_alloc_page]: [bases] is what [gc_alloc_page_memory] returns, one address per call.  When
    a chunk of the memory collides with a page in the map, the memory and the header are given
    up and another one is asked for. *)
Fixpoint gc_alloc_page (fresh : nat -> Z -> Z) (bases : list Z) (size : Z) (s : page_map) : option (Z * page_map) :=
  match bases with
  | [] => None
  | base :: bases =>
      '(h, free) ← take_header (fresh (length bases)) (free_pheaders s);
      if gc_will_collide (levels s) base size then gc_alloc_page fresh bases size (PageMap (levels s) free (pages s))
      else if negb (Z.land base (Z.shiftl 1 GC_MASK_BITS - 1) =? 0) then None
      else Some (h, PageMap (foldl (fun m p => set_page m p h) (levels s) (chunks base size)) free (<[h := (base, size)]> (pages s)))
  end.
Definition gc_free_page (h : Z) (s : page_map) : option page_map :=
  '(base, size) ← pages s !! h;
  m ← foldl (fun m p => m ← m; clear_page m p) (Some (levels s)) (chunks base size);
  Some (PageMap m (h :: free_pheaders s) (delete h (pages s))).
(** [hl_gc_get_page]: the page of an address, if it has one. *)
Definition in_page_of (p : Z) (bs : Z * Z) : bool := (p >=? bs.1) && (p <? bs.1 + bs.2).
Definition hl_gc_get_page (s : page_map) (p : Z) : option Z :=
  h ← GC_GET_PAGE (levels s) p; bs ← pages s !! h; if in_page_of p bs then Some h else None.

(** ** The hash depends on the 64 KB chunk of the address *)
Definition chunk_hash (c : Z) : Z := Z.land (Z.lxor c (Z.shiftl (Z.shiftr c 17) 12)) 0xFFFFF.
Lemma gc_hash_chunk p : 0 <= p -> Z.shiftr (gc_hash p) 16 = chunk_hash (Z.shiftr p 16).
Proof.
  intros Hp. unfold gc_hash, chunk_hash. rewrite Z.shiftr_land, Z.shiftr_lxor. change (Z.shiftr 0xFFFFFFFFF 16) with 0xFFFFF. do 2 f_equal. rewrite Z.shiftr_shiftr by lia. change (16 + 17) with 33.
  apply Z.bits_inj'. intros k Hk. rewrite Z.shiftr_spec by lia. destruct (decide (k < 12)).
  - rewrite !Z.shiftl_spec_low by lia. done.
  - rewrite !Z.shiftl_spec by lia. f_equal. lia.
Qed.
(** The place of an address in the tables. *)
Definition slot (p : Z) : Z * Z := (level0_index p, level1_index p).
Definition chunk_slot (c : Z) : Z * Z := (Z.shiftr (chunk_hash c) 10, Z.land (chunk_hash c) 1023).
Lemma slot_chunk p : 0 <= p -> slot p = chunk_slot (Z.shiftr p 16).
Proof.
  intros Hp. unfold slot, chunk_slot, level0_index, level1_index. change (GC_MASK_BITS + GC_LEVEL1_BITS) with (16 + 10). change GC_MASK_BITS with 16. change GC_LEVEL1_MASK with 1023. rewrite <- (Z.shiftr_shiftr _ 16 10) by lia. by rewrite gc_hash_chunk.
Qed.
(** The indices are inside the tables. *)
Lemma slot_in_tables p : 0 <= level0_index p < Z.shiftl 1 GC_LEVEL0_BITS /\ 0 <= level1_index p < Z.shiftl 1 GC_LEVEL1_BITS.
Proof.
  unfold level0_index, level1_index, gc_hash. change (Z.shiftl 1 GC_LEVEL0_BITS) with 1024. change (Z.shiftl 1 GC_LEVEL1_BITS) with 1024. change (GC_MASK_BITS + GC_LEVEL1_BITS) with 26. change GC_MASK_BITS with 16. change GC_LEVEL1_MASK with (Z.ones 10). change 0xFFFFFFFFF with (Z.ones 36).
  rewrite !Z.land_ones by lia. rewrite !shiftr_div by lia. set (x := Z.lxor _ _). pose proof (Z.mod_pos_bound x (2 ^ 36) ltac:(lia)). change (2 ^ 36) with 68719476736 in *. change (2 ^ 26) with 67108864. change (2 ^ 16) with 65536. change (2 ^ 10) with 1024. split; z_div.
Qed.

(** ** Reading and writing entries *)
Definition at_slot (m : gmap Z (gmap Z Z)) (s : Z * Z) : option Z := l ← m !! s.1; l !! s.2.
Lemma GC_GET_PAGE_slot m p : GC_GET_PAGE m p = at_slot m (slot p).
Proof. done. Qed.
Lemma at_set_page m p h s : at_slot (set_page m p h) s = if decide (s = slot p) then Some h else at_slot m s.
Proof.
  destruct s as [a b]. unfold at_slot, set_page, slot. cbn [fst snd]. destruct (decide (a = level0_index p)) as [->|Ha].
  - rewrite lookup_insert_eq. cbn [mbind option_bind]. destruct (decide (b = level1_index p)) as [->|Hb].
    + rewrite lookup_insert_eq, decide_True by done. done.
    + rewrite lookup_insert_ne by done. rewrite decide_False by congruence. by destruct (m !! level0_index p); [|cbn; rewrite lookup_empty].
  - rewrite lookup_insert_ne by done. by rewrite decide_False by congruence.
Qed.
Lemma clear_page_spec m p : is_Some (m !! level0_index p) -> exists m', clear_page m p = Some m' /\ (forall a, is_Some (m !! a) -> is_Some (m' !! a)) /\ forall s, at_slot m' s = if decide (s = slot p) then None else at_slot m s.
Proof.
  intros [l E]. unfold at_slot, clear_page, slot. rewrite E. eexists. split; [done|]. split.
  { intros a Ha. destruct (decide (a = level0_index p)) as [->|]; [by rewrite lookup_insert_eq|by rewrite lookup_insert_ne]. }
  intros [a b]. cbn [fst snd]. destruct (decide (a = level0_index p)) as [->|Ha].
  - rewrite lookup_insert_eq, E. cbn [mbind option_bind]. destruct (decide (b = level1_index p)) as [->|Hb]; [by rewrite lookup_delete_eq, decide_True|]. rewrite lookup_delete_ne by done. by rewrite decide_False by congruence.
  - rewrite lookup_insert_ne by done. by rewrite decide_False by congruence.
Qed.
Lemma set_pages_spec h l : forall m s, at_slot (foldl (fun m p => set_page m p h) m l) s = if decide (s ∈ slot <$> l) then Some h else at_slot m s.
Proof.
  induction l as [|p l IH]; intros m s; cbn [foldl]; [done|]. rewrite IH, at_set_page. rewrite fmap_cons. destruct (decide (s ∈ slot <$> l)); [by rewrite decide_True by (by right)|].
  destruct (decide (s = slot p)); [by rewrite decide_True by (apply elem_of_cons; by left)|]. rewrite decide_False; [done|]. intros [?|?]%elem_of_cons; done.
Qed.
Lemma clear_pages_spec l : forall m, (forall p, p ∈ l -> is_Some (m !! level0_index p)) -> exists m', foldl (fun m p => m ← m; clear_page m p) (Some m) l = Some m' /\ forall s, at_slot m' s = if decide (s ∈ slot <$> l) then None else at_slot m s.
Proof.
  induction l as [|p l IH]; intros m Hl; cbn [foldl]; [by exists m|]. cbn [mbind option_bind]. destruct (clear_page_spec m p) as (m1 & -> & Hkeep & Hat); [apply Hl; left|].
  destruct (IH m1) as (m2 & Hm2 & Hat2); [intros q Hq; apply Hkeep, Hl; by right|]. exists m2. split; [exact Hm2|]. intros s. rewrite Hat2, Hat, fmap_cons. destruct (decide (s ∈ slot <$> l)); [by rewrite decide_True by (by right)|].
  destruct (decide (s = slot p)); [by rewrite decide_True by (apply elem_of_cons; by left)|]. rewrite decide_False; [done|]. intros [?|?]%elem_of_cons; done.
Qed.

(** ** The invariant *)
Definition GC_CHUNK : Z := 65536.
Definition page_place_ok (bs : Z * Z) : Prop := 0 <= bs.1 /\ bs.1 mod GC_CHUNK = 0 /\ 0 < bs.2 /\ bs.2 mod GC_CHUNK = 0.
Record map_ok (s : page_map) : Prop := MapOk {
  mo_slots : forall sl h, at_slot (levels s) sl = Some h <-> exists bs, pages s !! h = Some bs /\ sl ∈ slot <$> chunks bs.1 bs.2;
  mo_places : map_Forall (fun _ bs => page_place_ok bs) (pages s);
  mo_headers : NoDup (free_pheaders s) /\ forall h, h ∈ free_pheaders s -> pages s !! h = None }.
(** The slots of a page are those of the addresses inside it. *)
Lemma chunks_in base size p : page_place_ok (base, size) -> base <= p < base + size -> slot p ∈ slot <$> chunks base size.
Proof.
  intros (H0 & H1 & H2 & H3) Hp. cbn [fst snd] in *. unfold GC_CHUNK in *. apply list_elem_of_fmap. exists (base + Z.shiftl ((p - base) / 65536) GC_MASK_BITS). unfold chunks, GC_MASK_BITS. split.
  - rewrite !slot_chunk by (rewrite ?Z.shiftl_mul_pow2 by lia; change (2 ^ 16) with 65536; z_div). f_equal. rewrite !shiftr_div, Z.shiftl_mul_pow2 by lia. change (2 ^ 16) with 65536. z_div.
  - apply list_elem_of_fmap. exists ((p - base) / 65536). split; [done|]. apply elem_of_seqZ. rewrite shiftr_div by lia. change (2 ^ 16) with 65536. z_div.
Qed.
Lemma hl_gc_get_page_spec s p h : map_ok s -> 0 <= p -> hl_gc_get_page s p = Some h <-> exists base size, pages s !! h = Some (base, size) /\ base <= p < base + size.
Proof.
  intros [Hs Hp _] H0. unfold hl_gc_get_page. rewrite GC_GET_PAGE_slot. split.
  - destruct (at_slot (levels s) (slot p)) as [h'|]; [|done]. cbn [mbind option_bind]. destruct (pages s !! h') as [[base size]|] eqn:E; [|done]. cbn [mbind option_bind]. unfold in_page_of. cbn [fst snd].
    destruct (Z.geb_spec p base), (Z.ltb_spec p (base + size)); cbn [andb]; try done. intros [= ->]. by exists base, size.
  - intros (base & size & E & Hin). assert (at_slot (levels s) (slot p) = Some h) as ->; [apply Hs; exists (base, size); split; [done|]; apply chunks_in; [by apply (Hp h)|done]|]. cbn [mbind option_bind]. rewrite E. cbn [mbind option_bind]. unfold in_page_of. cbn [fst snd].
    destruct (Z.geb_spec p base), (Z.ltb_spec p (base + size)); try lia. done.
Qed.
(** Two pages never share memory: their chunks would collide. *)
Lemma map_pages_apart s h1 h2 b1 s1 b2 s2 p : map_ok s -> pages s !! h1 = Some (b1, s1) -> pages s !! h2 = Some (b2, s2) -> b1 <= p < b1 + s1 -> b2 <= p < b2 + s2 -> h1 = h2.
Proof.
  intros Hok H1 H2 Hp1 Hp2. assert (0 <= p) as H0 by (destruct (mo_places _ Hok _ _ H1) as [H0 _]; cbn in H0; lia).
  assert (hl_gc_get_page s p = Some h1) as E1 by (apply hl_gc_get_page_spec; [done|done|by exists b1, s1]). assert (hl_gc_get_page s p = Some h2) as E2 by (apply hl_gc_get_page_spec; [done|done|by exists b2, s2]). congruence.
Qed.
Lemma gc_free_page_spec s h bs : map_ok s -> pages s !! h = Some bs -> exists m, gc_free_page h s = Some (PageMap m (h :: free_pheaders s) (delete h (pages s))) /\ map_ok (PageMap m (h :: free_pheaders s) (delete h (pages s))).
Proof.
  intros [Hs Hp [Hn Hf]] E. destruct bs as [base size]. unfold gc_free_page. rewrite E. cbn [mbind option_bind].
  assert (forall p, p ∈ chunks base size -> at_slot (levels s) (slot p) = Some h) as Hat by (intros p Hin; apply Hs; exists (base, size); split; [done|]; apply list_elem_of_fmap; by exists p).
  destruct (clear_pages_spec (chunks base size) (levels s)) as (m & Hm & Hat2); [intros p Hin; specialize (Hat p Hin); unfold at_slot, slot in Hat; cbn in Hat; destruct (levels s !! level0_index p); [by eexists|done]|].
  rewrite Hm. cbn [mbind option_bind]. exists m. split; [done|]. split; cbn [levels pages free_pheaders].
  - intros sl h'. rewrite Hat2. destruct (decide (sl ∈ slot <$> chunks base size)) as [Hin|Hin].
    + split; [done|]. intros (bs & E' & Hin'). rewrite lookup_delete_Some in E'. destruct E' as [Hne E']. exfalso. apply list_elem_of_fmap in Hin as (p & -> & Hin). specialize (Hat p Hin). assert (at_slot (levels s) (slot p) = Some h') by (apply Hs; by exists bs). congruence.
    + rewrite Hs. split; intros (bs & E' & Hin'); exists bs; (split; [|done]).
      * rewrite lookup_delete_Some. split; [|done]. intros ->. rewrite E in E'. injection E' as <-. done.
      * by rewrite lookup_delete_Some in E'; destruct E'.
  - by apply map_Forall_delete.
  - split.
    + constructor; [|done]. intros Hin. specialize (Hf _ Hin). congruence.
    + intros h' [->|Hin]%elem_of_cons; [by rewrite lookup_delete_eq|]. rewrite lookup_delete_None. right. by apply Hf.
Qed.
(** ** Allocation *)
Definition fresh_ok (s : page_map) (fresh : nat -> Z -> Z) : Prop := forall k, NoDup (chunk_headers (fresh k)) /\ forall h, h ∈ chunk_headers (fresh k) -> pages s !! h = None.
Definition headers_ok (pages : gmap Z (Z * Z)) (free : list Z) : Prop := NoDup free /\ forall h, h ∈ free -> pages !! h = None.
Lemma take_header_spec s fresh k free : fresh_ok s fresh -> headers_ok (pages s) free -> exists h free', take_header (fresh k) free = Some (h, free') /\ pages s !! h = None /\ (h ∉ free') /\ headers_ok (pages s) free'.
Proof.
  intros Hf [Hn Hp]. destruct free as [|h free].
  - destruct (Hf k) as [Hn' Hp']. unfold take_header. destruct (chunk_headers (fresh k)) as [|h free'] eqn:E; [discriminate E|]. exists h, free'. split; [done|]. apply NoDup_cons in Hn' as [H1 H2]. split; [apply Hp'; left|]. split; [done|]. split; [done|]. intros h' Hin. apply Hp'. by right.
  - exists h, free. split; [done|]. apply NoDup_cons in Hn as [H1 H2]. split; [apply Hp; left|]. split; [done|]. split; [done|]. intros h' Hin. apply Hp. by right.
Qed.
Lemma gc_will_collide_spec m base size : gc_will_collide m base size = false <-> forall sl, sl ∈ slot <$> chunks base size -> at_slot m sl = None.
Proof.
  unfold gc_will_collide. split.
  - intros Hc sl Hin. apply list_elem_of_fmap in Hin as (p & -> & Hin). destruct (at_slot m (slot p)) as [h|] eqn:E; [|done]. exfalso. assert (existsb (fun p => match GC_GET_PAGE m p with Some _ => true | None => false end) (chunks base size) = true) as Ht; [|congruence].
    apply existsb_exists. exists p. split; [by apply list_elem_of_In|]. rewrite GC_GET_PAGE_slot. by rewrite E.
  - intros Hc. destruct (existsb _ _) eqn:E; [|done]. apply existsb_exists in E as (p & Hin & Hp). apply list_elem_of_In in Hin. rewrite GC_GET_PAGE_slot in Hp. rewrite (Hc (slot p)) in Hp; [done|]. apply list_elem_of_fmap. by exists p.
Qed.
Lemma map_ok_add s h free base size : map_ok s -> pages s !! h = None -> h ∉ free -> headers_ok (pages s) free -> page_place_ok (base, size) -> gc_will_collide (levels s) base size = false ->
  map_ok (PageMap (foldl (fun m p => set_page m p h) (levels s) (chunks base size)) free (<[h := (base, size)]> (pages s))).
Proof.
  intros [Hs Hp _] Hh Hnf [Hn Hf] Hplace Hc. pose proof (proj1 (gc_will_collide_spec _ _ _) Hc) as Hnone. clear Hc. rename Hnone into Hc. split; cbn [levels pages free_pheaders].
  - intros sl h'. rewrite set_pages_spec. destruct (decide (sl ∈ slot <$> chunks base size)) as [Hin|Hin].
    + split; [intros [= <-]; exists (base, size); by rewrite lookup_insert_eq|]. intros (bs & E & Hin'). destruct (decide (h' = h)) as [->|Hne]; [done|]. rewrite lookup_insert_ne in E by done. exfalso. assert (at_slot (levels s) sl = Some h') by (apply Hs; by exists bs). rewrite Hc in H; done.
    + rewrite Hs. split; intros (bs & E & Hin').
      * exists bs. split; [|done]. rewrite lookup_insert_ne; [done|]. intros ->. congruence.
      * destruct (decide (h' = h)) as [->|Hne]; [rewrite lookup_insert_eq in E; injection E as <-; done|]. rewrite lookup_insert_ne in E by done. by exists bs.
  - by apply map_Forall_insert_2.
  - split; [done|]. intros h' Hin. rewrite lookup_insert_ne by (intros ->; done). by apply Hf.
Qed.
(** Allocation returns a page whose memory is one of the addresses the system gave, or, when none
    of them is usable, nothing: all were in use by the map. *)
Lemma gc_alloc_page_spec fresh bases size : 0 < size -> size mod GC_CHUNK = 0 -> Forall (fun b => 0 <= b /\ b mod GC_CHUNK = 0) bases -> forall s, map_ok s -> fresh_ok s fresh ->
  match gc_alloc_page fresh bases size s with
  | Some (h, s') => map_ok s' /\ pages s !! h = None /\ exists base, base ∈ bases /\ pages s' = <[h := (base, size)]> (pages s)
  | None => Forall (fun b => gc_will_collide (levels s) b size = true) bases
  end.
Proof.
  intros Hsize Hmod Hbases. induction bases as [|base bases IH]; intros s Hok Hfresh; cbn [gc_alloc_page]; [done|]. apply Forall_cons in Hbases as [[Hb0 Hbm] Hbases]. specialize (IH Hbases).
  destruct (take_header_spec s fresh (length bases) (free_pheaders s) Hfresh (mo_headers _ Hok)) as (h & free & -> & Hh & Hnf & Hhok). cbn [mbind option_bind]. destruct (gc_will_collide (levels s) base size) eqn:Ec.
  - assert (map_ok (PageMap (levels s) free (pages s))) as Hok' by (destruct Hok as [H1 H2 H3]; by split). specialize (IH _ Hok' Hfresh). destruct (gc_alloc_page fresh bases size _) as [[h' s']|] eqn:E.
    + destruct IH as (H1 & H2 & b & Hin & H3). split; [done|]. split; [done|]. exists b. split; [by right|done].
    + constructor; [done|exact IH].
  - rewrite (land_mask 16 base (Z.shiftl 1 GC_MASK_BITS - 1)) by done. change (2 ^ 16) with GC_CHUNK. rewrite Hbm. change (negb (0 =? 0)) with false. cbv iota. split; [|split; [done|exists base; split; [left|done]]].
    by apply map_ok_add.
Qed.

(** ** Histories *)
Inductive map_step : page_map -> page_map -> Prop :=
  | map_alloc s fresh bases size h s' : 0 < size -> size mod GC_CHUNK = 0 -> Forall (fun b => 0 <= b /\ b mod GC_CHUNK = 0) bases -> fresh_ok s fresh -> gc_alloc_page fresh bases size s = Some (h, s') -> map_step s s'
  | map_release s h s' : gc_free_page h s = Some s' -> map_step s s'.
Definition empty_map : page_map := PageMap ∅ [] ∅.
Lemma empty_map_ok : map_ok empty_map.
Proof.
  split; cbn.
  - intros sl h. unfold at_slot. rewrite lookup_empty. split; [done|]. intros (bs & E & _). by rewrite lookup_empty in E.
  - apply map_Forall_empty.
  - split; [constructor|]. intros h Hh. by apply not_elem_of_nil in Hh.
Qed.
Lemma map_step_ok s s' : map_step s s' -> map_ok s -> map_ok s'.
Proof.
  intros [s0 fresh bases size h s1 H0 Hm Hb Hf E|s0 h s1 E] Hok.
  - pose proof (gc_alloc_page_spec fresh bases size H0 Hm Hb s0 Hok Hf) as H. rewrite E in H. by destruct H.
  - unfold gc_free_page in E. destruct (pages s0 !! h) as [bs|] eqn:Eh; [|done]. destruct (gc_free_page_spec s0 h bs Hok Eh) as (m & Hfree & Hok'). unfold gc_free_page in Hfree. rewrite Eh in Hfree. rewrite E in Hfree. by injection Hfree as ->.
Qed.
Lemma map_reachable_ok s : rtc map_step empty_map s -> map_ok s.
Proof.
  intros H. cut (forall a b, rtc map_step a b -> map_ok a -> map_ok b); [intros Hc; apply (Hc _ _ H), empty_map_ok|]. induction 1 as [|a b c Hab _ IH]; [done|]. intros Ha. by apply IH, (map_step_ok a).
Qed.
(** C39. The page map finds the page of any address.  After any history of pages allocated and
    freed, whatever addresses the system gives for them, an address is looked up to a page
    exactly when it is inside that page, pages do not share memory, every page can be freed,
    and an allocation fails only if every address offered collides with a page. *)
Theorem page_map_finds s : rtc map_step empty_map s ->
  (forall p h, 0 <= p -> hl_gc_get_page s p = Some h <-> exists base size, pages s !! h = Some (base, size) /\ base <= p < base + size) /\
  (forall h1 h2 b1 s1 b2 s2 p, pages s !! h1 = Some (b1, s1) -> pages s !! h2 = Some (b2, s2) -> b1 <= p < b1 + s1 -> b2 <= p < b2 + s2 -> h1 = h2) /\
  (forall h, is_Some (pages s !! h) -> is_Some (gc_free_page h s)) /\
  (forall fresh bases size, 0 < size -> size mod GC_CHUNK = 0 -> Forall (fun b => 0 <= b /\ b mod GC_CHUNK = 0) bases -> fresh_ok s fresh -> gc_alloc_page fresh bases size s = None -> Forall (fun b => gc_will_collide (levels s) b size = true) bases).
Proof.
  intros Hs. pose proof (map_reachable_ok s Hs) as Hok. split; [|split; [|split]].
  - intros p h Hp. by apply hl_gc_get_page_spec.
  - intros h1 h2 b1 s1 b2 s2 p. by apply map_pages_apart.
  - intros h [bs Hb]. destruct (gc_free_page_spec s h bs Hok Hb) as (m & -> & _). by eexists.
  - intros fresh bases size H0 Hm Hb Hf E. pose proof (gc_alloc_page_spec fresh bases size H0 Hm Hb s Hok Hf) as H. by rewrite E in H.
Qed.
(** Two pages; the first address offered for the second has the hash of the first page. *)
Definition ex_fresh (a : Z) (k : nat) (i : Z) : Z := a + i.
Definition ex_base1 : Z := 0x7F0012340000.
Definition ex_base2 : Z := 0x7F4202340000.
Definition ex_base3 : Z := 0x7F0012380000.
Definition alloc_in (fresh : nat -> Z -> Z) (bases : list Z) (size : Z) (s : page_map) : page_map := match gc_alloc_page fresh bases size s with Some (_, s) => s | None => s end.
Definition ex_map1 : page_map := alloc_in (ex_fresh 1000) [ex_base1] 0x20000 empty_map.
Definition ex_map2 : page_map := alloc_in (ex_fresh 2000) [ex_base2; ex_base3] 0x10000 ex_map1.
Lemma ex_fresh_ok a s : Forall (fun h => h < a) (map fst (map_to_list (pages s))) -> fresh_ok s (ex_fresh a).
Proof.
  intros Hs k. assert (chunk_headers (ex_fresh a k) = (fun i => a + i) <$> seqZ 0 99) as -> by done. split.
  - apply NoDup_fmap_2; [intros x y E; lia|apply NoDup_seqZ].
  - intros h Hh. apply list_elem_of_fmap in Hh as (i & -> & Hi). apply elem_of_seqZ in Hi. destruct (pages s !! (a + i)) as [bs|] eqn:E; [|done]. exfalso. rewrite Forall_forall in Hs. assert (a + i < a); [|lia]. apply Hs. apply list_elem_of_fmap. exists (a + i, bs). split; [done|]. by apply elem_of_map_to_list.
Qed.
Lemma ex_map_reachable : rtc map_step empty_map ex_map2.
Proof.
  eapply rtc_l; [|eapply rtc_l; [|apply rtc_refl]].
  - apply (map_alloc _ (ex_fresh 1000) [ex_base1] 0x20000 1000 ex_map1); [done|done|by repeat constructor|apply ex_fresh_ok; vm_compute; constructor|vm_compute; reflexivity].
  - apply (map_alloc _ (ex_fresh 2000) [ex_base2; ex_base3] 0x10000 1002 ex_map2); [done|done|by repeat constructor|apply ex_fresh_ok; vm_compute; by repeat constructor|vm_compute; reflexivity].
Qed.
Theorem page_map_finds_witness : rtc map_step empty_map ex_map2 /\ map_to_list (pages ex_map2) = [(1002, (ex_base3, 0x10000)); (1000, (ex_base1, 0x20000))] /\ gc_hash ex_base2 = gc_hash ex_base1 /\
  hl_gc_get_page ex_map2 (ex_base1 + 0x10008) = Some 1000 /\ hl_gc_get_page ex_map2 ex_base2 = None /\
  (hl_gc_get_page ex_map2 ex_base3 = Some 1002 <-> exists base size, pages ex_map2 !! 1002 = Some (base, size) /\ base <= ex_base3 < base + size).
Proof.
  split; [exact ex_map_reachable|]. split; [vm_compute; reflexivity|]. split; [vm_compute; reflexivity|]. split; [vm_compute; reflexivity|]. split; [vm_compute; reflexivity|].
  apply (proj1 (page_map_finds ex_map2 ex_map_reachable)). unfold ex_base3. lia.
Defined.
