(* ===== verification/RootTable.v ===== *)
(** * The table of roots ([src/gc.c])

    [hl_add_root_owner] and [hl_remove_root] keep the addresses of the roots in an array with
    the owners beside it, and find an address through chains, one per bucket of a hash, linked
    both ways by indices.  A removed root is replaced by the last one of the array.  Growing
    allocates new arrays ([junk] is what they hold before they are written). *)
From S2P Require Import Prelude.

Definition size_t (x : Z) : Z := x mod 2 ^ 64.
Record root_table := RootTable {
  gc_roots : list Z; gc_root_owners : list Z; gc_root_buckets : list Z; gc_root_next : list Z; gc_root_previous : list Z;
  gc_roots_count : Z; gc_roots_max : Z }.
Definition no_roots : root_table := RootTable [] [] [] [] [] 0 0.
Definition gc_root_bucket (t : root_table) (r : Z) : Z :=
  let value := Z.lxor r (Z.shiftr r 16) in
  let value := size_t (value * 2654435761) in
  let value := Z.lxor value (Z.shiftr value 16) in
  Z.land (u32 value) (u32 (gc_roots_max t * 2 - 1)).
Definition with_chains (t : root_table) (buckets next previous : list Z) : root_table :=
  RootTable (gc_roots t) (gc_root_owners t) buckets next previous (gc_roots_count t) (gc_roots_max t).
Definition gc_root_link (t : root_table) (index : Z) : option root_table :=
  r ← aget (gc_roots t) index;
  let bucket := gc_root_bucket t r in
  head ← aget (gc_root_buckets t) bucket;
  previous ← aset (gc_root_previous t) index (-1);
  next ← aset (gc_root_next t) index head;
  previous ← (if head >=? 0 then aset previous head index else Some previous);
  buckets ← aset (gc_root_buckets t) bucket index;
  Some (with_chains t buckets next previous).
Definition gc_root_unlink (t : root_table) (index : Z) : option root_table :=
  previous ← aget (gc_root_previous t) index;
  next ← aget (gc_root_next t) index;
  '(nexts, buckets) ← (if previous >=? 0 then n ← aset (gc_root_next t) previous next; Some (n, gc_root_buckets t)
                       else r ← aget (gc_roots t) index; b ← aset (gc_root_buckets t) (gc_root_bucket t r) next; Some (gc_root_next t, b));
  previouses ← (if next >=? 0 then aset (gc_root_previous t) next previous else Some (gc_root_previous t));
  Some (with_chains t buckets nexts previouses).
Section fresh_memory.
Context (junk : Z -> Z).
Definition fresh (n : Z) : list Z := junk <$> seqZ 0 n.
(** The table is full: twice the size, and the chains are built again. *)
Definition grow_roots (t : root_table) : option root_table :=
  nroots ← (if gc_roots_max t =? 0 then Some 16 else int_of (gc_roots_max t * 2));
  nbuckets ← int_of (nroots * 2);
  roots ← acopy (fresh nroots) 0 (gc_roots t) 0 (gc_roots_count t);
  owners ← acopy (fresh nroots) 0 (gc_root_owners t) 0 (gc_roots_count t);
  buckets ← afor (fun i b => aset b i (-1)) (Z.to_nat nbuckets) 0 (fresh nbuckets);
  afor (fun i t => gc_root_link t i) (Z.to_nat (gc_roots_count t)) 0 (RootTable roots owners buckets (fresh nroots) (fresh nroots) (gc_roots_count t) nroots).
Definition hl_add_root_owner (t : root_table) (r owner : Z) : option root_table :=
  t ← (if gc_roots_count t =? gc_roots_max t then grow_roots t else Some t);
  roots ← aset (gc_roots t) (gc_roots_count t) r;
  owners ← aset (gc_root_owners t) (gc_roots_count t) owner;
  t ← gc_root_link (RootTable roots owners (gc_root_buckets t) (gc_root_next t) (gc_root_previous t) (gc_roots_count t) (gc_roots_max t)) (gc_roots_count t);
  count ← int_of (gc_roots_count t + 1);
  Some (RootTable (gc_roots t) (gc_root_owners t) (gc_root_buckets t) (gc_root_next t) (gc_root_previous t) count (gc_roots_max t)).
Definition hl_add_root (t : root_table) (r : Z) : option root_table := hl_add_root_owner t r 0.
End fresh_memory.
(** The last index of the chain whose root is [v]. *)
Fixpoint find_root (fuel : nat) (t : root_table) (v i found : Z) : option Z :=
  if i <? 0 then Some found else
  match fuel with
  | O => None
  | S fuel =>
      r ← aget (gc_roots t) i; n ← aget (gc_root_next t) i;
      find_root fuel t v n (if (r =? v) && (i >? found) then i else found)
  end.
(** The last root takes the place [found]. *)
Definition move_last (t : root_table) (found last : Z) : option root_table :=
  r ← aget (gc_roots t) last; roots ← aset (gc_roots t) found r;
  o ← aget (gc_root_owners t) last; owners ← aset (gc_root_owners t) found o;
  previous ← aget (gc_root_previous t) last; next ← aget (gc_root_next t) last;
  previouses ← aset (gc_root_previous t) found previous;
  nexts ← aset (gc_root_next t) found next;
  '(nexts, buckets) ← (if previous >=? 0 then n ← aset nexts previous found; Some (n, gc_root_buckets t)
                       else r ← aget roots found; b ← aset (gc_root_buckets t) (gc_root_bucket t r) found; Some (nexts, b));
  previouses ← (if next >=? 0 then aset previouses next found else Some previouses);
  Some (RootTable roots owners buckets nexts previouses (gc_roots_count t) (gc_roots_max t)).
Definition hl_remove_root (t : root_table) (v : Z) : option root_table :=
  found ← (if gc_roots_count t >? 0 then
             i ← aget (gc_root_buckets t) (gc_root_bucket t v); find_root (S (length (gc_roots t))) t v i (-1)
           else Some (-1));
  if found >=? 0 then
    t ← gc_root_unlink t found;
    let last := gc_roots_count t - 1 in
    let t := RootTable (gc_roots t) (gc_root_owners t) (gc_root_buckets t) (gc_root_next t) (gc_root_previous t) last (gc_roots_max t) in
    if negb (found =? last) then move_last t found last else Some t
  else Some t.
Definition hl_gc_owner_root_count (t : root_table) (owner : Z) : option Z :=
  if owner =? 0 then Some 0 else
  afor (fun i count => o ← aget (gc_root_owners t) i; Some (if o =? owner then count + 1 else count)) (Z.to_nat (gc_roots_count t)) 0 0.

(** ** What the table means
    A list of roots with their owners; removal looks from the end. *)
Definition spec_add (l : list (Z * Z)) (r owner : Z) : list (Z * Z) := l ++ [(r, owner)].
Fixpoint last_index (l : list (Z * Z)) (v : Z) : option nat :=
  match l with [] => None | x :: l => match last_index l v with Some i => Some (S i) | None => if x.1 =? v then Some O else None end end.
Definition spec_remove (l : list (Z * Z)) (v : Z) : list (Z * Z) :=
  match last_index l v, last l with
  | Some i, Some x => removelast (<[i := x]> l)
  | _, _ => l
  end.
Definition contents (t : root_table) : list (Z * Z) := take (Z.to_nat (gc_roots_count t)) (zip (gc_roots t) (gc_root_owners t)).
Example ex_table : option_map contents
    (t ← hl_add_root_owner (fun _ => 7) no_roots 1000 1; t ← hl_add_root_owner (fun _ => 7) t 2000 1; t ← hl_add_root_owner (fun _ => 7) t 1000 2; t ← hl_add_root_owner (fun _ => 7) t 3000 1; hl_remove_root t 1000)
  = Some (spec_remove [(1000, 1); (2000, 1); (1000, 2); (3000, 1)] 1000).
Proof. vm_compute. reflexivity. Qed.
