(* ===== verification/Marking.v ===== *)
(** * Marking ([src/gc.c])

    The tracing part of a collection of the stopped world: roots and stacks are scanned for
    pointers, marked blocks that may hold pointers go to a mark stack, and the workers take
    blocks from their stacks and scan them until all are empty.  The words of memory ([mem])
    and what the types in memory say ([type_info]: the kind and the pointer bitmap of the
    type at an address) do not change while the world is stopped.  [GC_GET_PAGE] is a search
    of the page that contains the address: [gc_alloc_page] gives up memory whose addresses
    collide in the page map. *)
From S2P Require Import Prelude Reader Allocator.

Definition MEM_KIND_DYNAMIC : Z := 0.
Definition MEM_HAS_PTR (kind : Z) : bool := Z.land kind 2 =? 0.
(** A page and its kind. *)
Record gpage := GPage { head : gc_pheader; page_kind : Z }.
Definition INPAGE (p : Z) (g : gpage) : bool := (p >=? base (head g)) && (p <? base (head g) + page_size (head g)).
(** The page of an address, with its index in the list of all pages. *)
Fixpoint get_page (ps : list gpage) (p : Z) : option (nat * gpage) :=
  match ps with
  | [] => None
  | g :: ps => if INPAGE p g then Some (0%nat, g) else '(i, g) ← get_page ps p; Some (S i, g)
  end.
Definition set_bmp (g : gpage) (b : list Z) : gpage :=
  let ph := head g in
  GPage (Page (base ph) (page_size ph) (Some b) (block_size ph) (block_bits ph) (max_blocks ph) (first_block ph) (free ph) (sizes ph) (need_flush ph)) (page_kind g).
(** A mark stack, top first; the null pointer at the bottom is not kept. *)
Definition mark_stack : Type := list Z.

Section marking.
Context (mem : Z -> Z) (type_info : Z -> option (Z * option (list Z))).

(** The test and set of the bit of block [bid], and [GC_PUSH_GEN]. *)
Definition set_mark (ps : list gpage) (st : mark_stack) (i : nat) (g : gpage) (bid p : Z) : option (list gpage * mark_stack) :=
  b ← bmp (head g);
  marked ← bmp_test b bid;
  if (marked : bool) then Some (ps, st) else
  b ← bmp_set b bid;
  Some (<[i := set_bmp g b]> ps, if MEM_HAS_PTR (page_kind g) then p :: st else st).
(** What the loops over the roots and over the words of a block do with a value. *)
Definition mark_word (ps : list gpage) (st : mark_stack) (p : Z) : option (list gpage * mark_stack) :=
  if p =? 0 then Some (ps, st) else
  match get_page ps p with
  | None => Some (ps, st)
  | Some (i, g) =>
      bid ← gc_allocator_get_block_id (head g) p;
      if bid >=? 0 then set_mark ps st i g bid p else Some (ps, st)
  end.
(** What [gc_mark_stack] does with a word: the pointer can be into the middle of a block. *)
Definition mark_stack_word (ps : list gpage) (st : mark_stack) (p : Z) : option (list gpage * mark_stack) :=
  match get_page ps p with
  | None => Some (ps, st)
  | Some (i, g) =>
      '(bid, p) ← gc_allocator_get_block_interior (head g) p;
      if bid >=? 0 then set_mark ps st i g bid p else Some (ps, st)
  end.
Definition mark_words (ps : list gpage) (st : mark_stack) (ws : list Z) : option (list gpage * mark_stack) :=
  foldl (fun s p => '(ps, st) ← s; mark_word ps st p) (Some (ps, st)) ws.
Definition gc_mark_stack (ps : list gpage) (st : mark_stack) (ws : list Z) : option (list gpage * mark_stack) :=
  foldl (fun s p => '(ps, st) ← s; mark_stack_word ps st p) (Some (ps, st)) ws.

(** How a block is scanned: the bitmap, the address of the first word, its number and the end. *)
Record scan := Scan { sc_bits : option (list Z); sc_addr : Z; sc_pos : Z; sc_end : Z }.
Definition scan_plan (kind block nwords : Z) : option (option scan) :=
  if kind =? MEM_KIND_DYNAMIC then
    let t := mem block in
    if t =? 0 then Some None else
    '(k, bits) ← type_info t;
    match (bits : option (list Z)) with
    | Some bs =>
        if negb (k =? HFUN) then
          if k =? HENUM then
            let index := i32 (mem (block + 8)) in
            if decide (0 <= index <= alen bs) then Some (Some (Scan (Some (drop (Z.to_nat index) bs)) (block + 16) 0 (nwords - 2))) else None
          else Some (Some (Scan (Some bs) (block + 8) 1 nwords))
        else Some (Some (Scan None block 0 nwords))
    | None => Some (Some (Scan None block 0 nwords))
    end
  else Some (Some (Scan None block 0 nwords)).
(** Word [pos]: null when the bitmap says it is not a pointer. *)
Definition word_at (sc : scan) (pos : Z) : option Z :=
  match sc_bits sc with
  | Some bs => w ← aget bs (Z.shiftr pos 5); Some (if Z.land w (Z.shiftl 1 (Z.land pos 31)) =? 0 then 0 else mem (sc_addr sc + (pos - sc_pos sc) * 8))
  | None => Some (mem (sc_addr sc + (pos - sc_pos sc) * 8))
  end.
Definition scan_block (ps : list gpage) (st : mark_stack) (block : Z) : option (list gpage * mark_stack) :=
  '(_, g) ← get_page ps block;
  size ← gc_allocator_fast_block_size (head g) block;
  plan ← scan_plan (page_kind g) block (Z.quot size 8);
  match (plan : option scan) with
  | None => Some (ps, st)
  | Some sc => afor (fun pos '(ps, st) => p ← word_at sc pos; mark_word ps st p) (Z.to_nat (sc_end sc - sc_pos sc)) (sc_pos sc) (ps, st)
  end.
(** One worker, until its stack is empty. *)
Fixpoint gc_flush_mark (fuel : nat) (ps : list gpage) (st : mark_stack) : option (list gpage) :=
  match st with
  | [] => Some ps
  | block :: st => match fuel with O => None | S fuel => '(ps, st) ← scan_block ps st block; gc_flush_mark fuel ps st end
  end.
(** [gc_mark] with one worker, after [gc_allocator_before_mark]: the roots, the pinned lists, stacks and registers. *)
Definition gc_mark (fuel : nat) (ps : list gpage) (roots stacks : list Z) : option (list gpage) :=
  '(ps, st) ← mark_words ps [] roots;
  '(ps, st) ← gc_mark_stack ps st stacks;
  gc_flush_mark fuel ps st.

(** ** Several workers
    The words of a block, then the steps of the workers: one takes a block from its stack,
    handles the next word of the block it is scanning (the test and set is atomic), or gives
    the top of its stack to a worker that has nothing to do ([gc_dispatch_mark]). *)
Definition block_words (g : gpage) (block : Z) : option (list Z) :=
  size ← gc_allocator_fast_block_size (head g) block;
  plan ← scan_plan (page_kind g) block (Z.quot size 8);
  match (plan : option scan) with
  | None => Some []
  | Some sc => mapM (word_at sc) (seqZ (sc_pos sc) (sc_end sc - sc_pos sc))
  end.
Record worker := Worker { w_stack : mark_stack; w_words : list Z }.
Inductive mark_step : list gpage * list worker -> list gpage * list worker -> Prop :=
  | mark_pop ps ws i st block words n g : ws !! i = Some (Worker (block :: st) []) -> get_page ps block = Some (n, g) -> block_words g block = Some words ->
      mark_step (ps, ws) (ps, <[i := Worker st words]> ws)
  | mark_one ps ws i st p words ps' st' : ws !! i = Some (Worker st (p :: words)) -> mark_word ps st p = Some (ps', st') ->
      mark_step (ps, ws) (ps', <[i := Worker st' words]> ws).
Inductive dispatch_step : list gpage * list worker -> list gpage * list worker -> Prop :=
  | mark_dispatch ps ws i j a b words : i <> j -> ws !! i = Some (Worker (a ++ b) words) -> ws !! j = Some (Worker [] []) ->
      dispatch_step (ps, ws) (ps, <[j := Worker a []]> (<[i := Worker b words]> ws)).
(** All the workers have nothing left. *)
Definition finished (ws : list worker) : Prop := Forall (fun w => w = Worker [] []) ws.
End marking.

(** ** Sharing a stack among the workers
    [hl_gc_mark_grow]: the size of the stack that replaces a full one; the entries are
    copied, with the null pointer at the bottom of a new one. *)
Definition hl_gc_mark_grow (size : Z) : option Z :=
  if size =? 0 then Some 256 else n ← int_of (size * 3); Some (Z.land (Z.shiftr n 1) (Z.lnot 1)).
(** [while( t->stack.size <= push ) hl_gc_mark_grow(&t->stack)] *)
Fixpoint grow_for (fuel : nat) (push size : Z) : option Z :=
  if size <=? push then match fuel with O => None | S fuel => size ← hl_gc_mark_grow size; grow_for fuel push size end else Some size.
Record gc_mthread := MThread { t_stack : mark_stack; t_size : Z }.
(** The mark stack that is shared, the workers, [mark_threads_active] and [mark_threads_pending]. *)
Record sharing := Sharing { sh_stack : mark_stack; sh_threads : list gc_mthread; sh_active : Z; sh_pending : Z }.
Definition gc_mark_threads (ts : list gc_mthread) : Z := alen ts.
Definition is_active (active i : Z) : bool := negb (Z.land active (Z.shiftl 1 i) =? 0).
Definition inactive_threads (n : nat) (active : Z) : option Z :=
  afor (fun i nthreads => Some (if is_active active i then nthreads else nthreads + 1)) n 0 0.
Definition dispatch_count (all : bool) (total nthreads : Z) : Z := if all then Z.quot (total + nthreads - 1) nthreads else Z.quot total (nthreads + 1).
Definition GROW_FUEL : nat := 64.
(** What one inactive worker gets: up to [count] blocks from the top of the stack. *)
Definition dispatch_to (count i : Z) (s : sharing) : outcome sharing :=
  if is_active (sh_active s) i then Done s else
  let st := sh_stack s in
  let push := if alen st >? count then count else alen st in
  t ← ub (aget (sh_threads s) i);
  size ← ub (grow_for GROW_FUEL push (t_size t));
  if negb (alen (t_stack t) =? 0) then Raise "assert" else
  ts ← ub (aset (sh_threads s) i (MThread (take (Z.to_nat push) st ++ t_stack t) size));
  Done (Sharing (drop (Z.to_nat push) st) ts (u8 (Z.lor (sh_active s) (u8 (Z.shiftl 1 i)))) (sh_pending s + 1)).
Fixpoint dispatch_all (n : nat) (count i : Z) (s : sharing) : outcome sharing :=
  match n with O => Done s | S n => s ← dispatch_to count i s; dispatch_all n count (i + 1) s end.
Definition gc_dispatch_mark (all : bool) (s : sharing) : outcome sharing :=
  let n := gc_mark_threads (sh_threads s) in
  if sh_active s =? Z.shiftl 1 n - 1 then Done s else
  nthreads ← ub (inactive_threads (Z.to_nat n) (sh_active s));
  if nthreads =? 0 then Done s else
  let count := dispatch_count all (alen (sh_stack s)) nthreads in
  if count =? 0 then Done s else
  s ← dispatch_all (Z.to_nat n) count 0 s;
  if all && negb (nthreads =? n) then Raise "assert" else Done s.
(** [gc_wait_mark_threads] and the end of a worker's turn ([mark_thread_main]). *)
Definition worker_done (i : Z) (s : sharing) : outcome sharing :=
  if negb (is_active (sh_active s) i) || (sh_pending s <=? 0) then Raise "assert" else
  Done (Sharing (sh_stack s) (sh_threads s) (Z.land (sh_active s) (Z.lnot (u8 (Z.shiftl 1 i)))) (sh_pending s - 1)).

(** [hl_gc_profile]: switching profiling off is meant to clear its flag. *)
Definition GC_PROFILE : Z := 1.
Definition hl_gc_profile (b : bool) (gc_flags : Z) : Z := if b then Z.lor gc_flags GC_PROFILE else Z.land gc_flags GC_PROFILE.
