(* ===== verification/MarkingSound.v ===== *)
(** * Marking finds what is reachable

    The blocks of the pages are a graph: a block points to the blocks its scanned words are
    the addresses of.  Whatever the number of workers and the order of their steps, marking
    stops, and then the marked blocks are those reachable from the roots. *)
From S2P Require Import Prelude Reader Allocator AllocatorPage AllocatorAlloc AllocatorHeap AllocatorMark AllocatorProps Marking.

(** ** Mark bits *)
Lemma bmp_set_marked b bid b' j : Forall (fun x => 0 <= x < 256) b -> 0 <= bid -> bmp_set b bid = Some b' -> 0 <= j -> is_marked b' j = is_marked b j || (j =? bid).
Proof.
  intros Hbytes Hbid Hset Hj. unfold bmp_set in Hset. rewrite shiftr_div in Hset by lia. change (2 ^ 3) with 8 in Hset. rewrite (land_mask 3 bid 7) in Hset by done. change (2 ^ 3) with 8 in Hset.
  destruct (aget b (bid / 8)) as [x|] eqn:Hx; [|done]. cbn [mbind option_bind] in Hset. pose proof (aget_Some_range _ _ _ Hx) as Hr.
  destruct (aset_total b (bid / 8) (u8 (Z.lor x (Z.shiftl 1 (bid mod 8))))) as (b2 & E & Hl & Hg); [done|]. rewrite Hset in E. injection E as <-.
  assert (0 <= x < 256) as Hxr by (rewrite Forall_forall in Hbytes; apply Hbytes; rewrite aget_lookup in Hx by lia; by apply list_elem_of_lookup_2 in Hx).
  replace j with (8 * (j / 8) + j mod 8) by z_div. assert (0 <= j mod 8 < 8) as Hjm by z_div. destruct (decide (j / 8 = bid / 8)) as [Ej|Ej].
  - assert (aget b' (j / 8) = Some (u8 (Z.lor x (Z.shiftl 1 (bid mod 8))))) as Hx' by (rewrite Hg, decide_True; done). rewrite <- Ej in Hx. rewrite (is_marked_bit _ _ _ _ Hx' Hjm), (is_marked_bit _ _ _ _ Hx Hjm).
    unfold uN. rewrite Z.mod_pow2_bits_low by lia. rewrite Z.lor_spec. f_equal. rewrite shiftl_pow2 by z_div. destruct (Z.eqb_spec (8 * (j / 8) + j mod 8) bid) as [E|E].
    + replace (bid mod 8) with (j mod 8) by z_div. apply Z.pow2_bits_true. lia.
    + apply Z.pow2_bits_false. z_div.
  - rewrite (proj2 (Z.eqb_neq (8 * (j / 8) + j mod 8) bid)) by z_div. rewrite orb_false_r. destruct (aget b (j / 8)) as [y|] eqn:Hy.
    + assert (aget b' (j / 8) = Some y) as Hy' by (rewrite Hg, decide_False; [done|congruence]). by rewrite (is_marked_bit _ _ _ _ Hy' Hjm), (is_marked_bit _ _ _ _ Hy Hjm).
    + assert (aget b' (j / 8) = None) as Hy' by (rewrite Hg, decide_False; [done|congruence]). unfold is_marked, bmp_test. rewrite !shiftr_div by lia. change (2 ^ 3) with 8. replace ((8 * (j / 8) + j mod 8) / 8) with (j / 8) by z_div. by rewrite Hy, Hy'.
Qed.

(** ** Pages while marking *)
Record page_ready (g : gpage) : Prop := PageReady {
  pr_inv : exists part l, page_inv part (head g) l;
  pr_size : page_size (head g) <= INT_MAX;
  pr_base : 0 < base (head g);
  pr_bmp : need_flush (head g) = true /\ bmp (head g) <> None }.
Abbreviation ready := (Forall page_ready).
Lemma INPAGE_spec p g : INPAGE p g = true <-> base (head g) <= p < base (head g) + page_size (head g).
Proof. unfold INPAGE. rewrite andb_true_iff, Z.geb_leb, Z.leb_le, Z.ltb_lt. done. Qed.
Lemma block_id_cases part ph l p : page_inv part ph l -> page_size ph <= INT_MAX -> base ph <= p < base ph + page_size ph ->
  exists r, gc_allocator_get_block_id ph p = Some r /\ (r < 0 \/ 0 <= r < max_blocks ph /\ p = base ph + r * block_size ph /\ forall s, sizes ph = Some s -> first_block ph <= r /\ aget s r <> Some 0).
Proof.
  intros Hi Hsize Hp. pose proof (pi_pos _ _ _ Hi) as Hpos. unfold gc_allocator_get_block_id. rewrite i32_small by (unfold in_i32, INT_MIN, INT_MAX in *; lia).
  rewrite (block_div part ph l Hi), (block_mul part ph l Hi) by lia. set (r := (p - base ph) / block_size ph).
  assert (0 <= r) by (apply Z.div_pos; lia). destruct (Z.eqb_spec (r * block_size ph) (p - base ph)); cbn [negb]; [|exists (-1); split; [done|lia]].
  destruct (Z.geb_spec r (max_blocks ph)); [exists (-1); split; [done|lia]|]. destruct (sizes ph) as [s|] eqn:Es.
  - destruct (Z.ltb_spec r (first_block ph)); [exists (-1); split; [done|lia]|]. destruct (aget_is_Some s r) as [n Hn]; [rewrite (proj2 (pg_sizes _ _ (pi_ok _ _ _ Hi)) s Es); lia|]. rewrite Hn. cbn [mbind option_bind].
    destruct (Z.eqb_spec n 0); [exists (-1); split; [done|lia]|]. exists r. split; [done|]. right. split; [lia|]. split; [lia|]. intros s' [= <-]. split; [lia|congruence].
  - exists r. split; [done|]. right. split; [lia|]. split; [lia|]. done.
Qed.
(** Marking a block keeps the page. *)
Lemma set_bmp_ready g b b' bid : page_ready g -> bmp (head g) = Some b -> bmp_set b bid = Some b' -> 0 <= bid < max_blocks (head g) ->
  (forall s, sizes (head g) = Some s -> first_block (head g) <= bid /\ aget s bid <> Some 0) -> page_ready (set_bmp g b').
Proof.
  intros [(part & l & Hi) Hsize Hbase [Hn Hbm]] Hb Hset Hbid Hs. split; try done. exists part, l. destruct Hi as [[Hr Hc Hf Hsz [Hbmp Hnf]] Hbl Hpos Hmax Hbits Hfirst Hsizes Hmarks].
  destruct (Hbmp b Hb) as [Hlen Hbytes]. destruct (bmp_set_spec b bid (max_blocks (head g)) Hbid Hlen Hbytes) as (b2 & E & Hlen' & Hbytes'). rewrite Hset in E. injection E as <-.
  split; cbn [set_bmp head block_size page_size max_blocks first_block block_bits sizes need_flush bmp]; try done.
  - split; cbn [first_block max_blocks free sizes bmp need_flush]; try done. split; [|done]. intros b2 [= <-]. split; [lia|done].
  - intros _ b2 [= <-]. specialize (Hmarks Hn b Hb). unfold marks_ok in *. cbn [sizes first_block max_blocks]. destruct (sizes (head g)) as [s|] eqn:Es; [|done]. intros p Hp Hm. rewrite (bmp_set_marked b bid b' p Hbytes) in Hm by (lia || done).
    apply orb_true_iff in Hm as [Hm|Hm%Z.eqb_eq]; [by apply Hmarks|]. subst p. by apply Hs.
Qed.
(** The same pages, up to their mark bits. *)
Definition same_pages : list gpage -> list gpage -> Prop := Forall2 (fun g g' => g' = g \/ exists b, g' = set_bmp g b).
Lemma same_pages_refl ps : same_pages ps ps.
Proof. apply Forall_Forall2_diag, Forall_forall. by left. Qed.
Lemma same_pages_trans ps1 ps2 ps3 : same_pages ps1 ps2 -> same_pages ps2 ps3 -> same_pages ps1 ps3.
Proof.
  intros H12. revert ps3. induction H12 as [|g1 g2 ps1 ps2 Hg H12 IH]; intros ps3 H23; inversion H23 as [|? g3 ? ps3' Hg' H23']; subst; [done|]. constructor; [|by apply IH].
  destruct Hg as [->|[b ->]]; [done|]. right. destruct Hg' as [->|[b' ->]]; [by exists b|by exists b'].
Qed.
Lemma get_page_lookup ps p i g : get_page ps p = Some (i, g) -> ps !! i = Some g /\ INPAGE p g = true.
Proof.
  revert i. induction ps as [|h ps IH]; intros i; cbn [get_page]; [done|]. destruct (INPAGE p h) eqn:E; [intros [= <- <-]; done|]. destruct (get_page ps p) as [[j k]|]; [|done]. cbn. intros [= <- <-]. by apply IH.
Qed.
Lemma get_page_same ps ps' p : same_pages ps ps' -> match get_page ps p with None => get_page ps' p = None | Some (i, g) => exists g', get_page ps' p = Some (i, g') /\ (g' = g \/ exists b, g' = set_bmp g b) end.
Proof.
  induction 1 as [|g g' ps ps' Hg Hps IH]; cbn [get_page]; [done|]. assert (INPAGE p g' = INPAGE p g) as -> by (destruct Hg as [->|[b ->]]; done).
  destruct (INPAGE p g); [by exists g'|]. destruct (get_page ps p) as [[i h]|]; [destruct IH as (h' & -> & Hh); by exists h'|by rewrite IH].
Qed.
Lemma get_page_ready ps p i g : ready ps -> get_page ps p = Some (i, g) -> page_ready g.
Proof. intros Hr Hg. apply get_page_lookup in Hg as [Hg _]. rewrite Forall_forall in Hr. by apply Hr, (list_elem_of_lookup_2 _ i). Qed.

(** ** The graph of blocks *)
(** The block at an address: the index of its page, the page and its number. *)
Definition block_of (ps : list gpage) (p : Z) : option (nat * gpage * Z) :=
  if p =? 0 then None else '(i, g) ← get_page ps p; r ← gc_allocator_get_block_id (head g) p; if r >=? 0 then Some (i, g, r) else None.
Definition is_block (ps : list gpage) (p : Z) : bool := match block_of ps p with Some _ => true | None => false end.
Definition marked_at (ps : list gpage) (p : Z) : bool :=
  match block_of ps p with Some (_, g, r) => match bmp (head g) with Some b => is_marked b r | None => false end | None => false end.
Definition has_ptr (ps : list gpage) (p : Z) : bool := match get_page ps p with Some (_, g) => MEM_HAS_PTR (page_kind g) | None => false end.
Lemma block_of_same ps ps' p : same_pages ps ps' -> match block_of ps p with None => block_of ps' p = None | Some (i, g, r) => exists g', block_of ps' p = Some (i, g', r) /\ (g' = g \/ exists b, g' = set_bmp g b) end.
Proof.
  intros Hs. unfold block_of. destruct (p =? 0); [done|]. pose proof (get_page_same ps ps' p Hs) as Hg. destruct (get_page ps p) as [[i g]|]; [|by rewrite Hg]. destruct Hg as (g' & -> & Hg). cbn [mbind option_bind].
  assert (gc_allocator_get_block_id (head g') p = gc_allocator_get_block_id (head g) p) as -> by (destruct Hg as [->|[b ->]]; done).
  destruct (gc_allocator_get_block_id (head g) p) as [r|]; cbn [mbind option_bind]; [|done]. destruct (r >=? 0); [by exists g'|done].
Qed.
Lemma is_block_same ps ps' p : same_pages ps ps' -> is_block ps' p = is_block ps p.
Proof. intros Hs. unfold is_block. pose proof (block_of_same ps ps' p Hs) as H. destruct (block_of ps p) as [[[i g] r]|]; [by destruct H as (g' & -> & _)|by rewrite H]. Qed.
Lemma has_ptr_same ps ps' p : same_pages ps ps' -> has_ptr ps' p = has_ptr ps p.
Proof. intros Hs. unfold has_ptr. pose proof (get_page_same ps ps' p Hs) as H. destruct (get_page ps p) as [[i g]|]; [|by rewrite H]. destruct H as (g' & -> & [->|[b ->]]); done. Qed.
Lemma block_of_spec ps p i g r : ready ps -> block_of ps p = Some (i, g, r) -> p <> 0 /\ get_page ps p = Some (i, g) /\ gc_allocator_get_block_id (head g) p = Some r /\ page_ready g /\
  0 <= r < max_blocks (head g) /\ p = base (head g) + r * block_size (head g) /\ forall s, sizes (head g) = Some s -> first_block (head g) <= r /\ aget s r <> Some 0.
Proof.
  intros Hr. unfold block_of. destruct (Z.eqb_spec p 0); [done|]. destruct (get_page ps p) as [[j h]|] eqn:Eg; [|done]. cbn [mbind option_bind]. pose proof (get_page_ready _ _ _ _ Hr Eg) as Hp.
  destruct (gc_allocator_get_block_id (head h) p) as [q|] eqn:Eq; [|done]. cbn [mbind option_bind]. destruct (Z.geb_spec q 0); [|done]. intros [= -> -> ->].
  destruct Hp as [(part & l & Hi) Hsz Hb Hbm]. apply get_page_lookup in Eg as [_ Hin%INPAGE_spec]. destruct (block_id_cases part (head g) l p Hi Hsz Hin) as (r' & Hr' & Hcase). rewrite Eq in Hr'. injection Hr' as <-.
  destruct Hcase as [|(H1 & H2 & H3)]; [lia|]. split; [done|]. split; [done|]. split; [done|]. split; [split; [by exists part, l|done..]|]. done.
Qed.
(** The blocks not marked yet. *)
Definition unmarked_blocks (g : gpage) : Z := match bmp (head g) with Some b => how_many (fun r => negb (is_marked b r)) 0 (Z.to_nat (max_blocks (head g))) | None => 0 end.
Definition unmarked (ps : list gpage) : Z := foldr (fun g n => unmarked_blocks g + n) 0 ps.
Lemma unmarked_blocks_nonneg g : 0 <= unmarked_blocks g.
Proof. unfold unmarked_blocks. destruct (bmp (head g)); [apply how_many_nonneg|done]. Qed.
Lemma unmarked_cons g ps : unmarked (g :: ps) = unmarked_blocks g + unmarked ps.
Proof. done. Qed.
Lemma unmarked_nonneg ps : 0 <= unmarked ps.
Proof. induction ps as [|g ps IH]; [done|]. rewrite unmarked_cons. pose proof (unmarked_blocks_nonneg g). lia. Qed.
Lemma unmarked_insert ps i g g' : ps !! i = Some g -> unmarked (<[i := g']> ps) = unmarked ps - unmarked_blocks g + unmarked_blocks g'.
Proof.
  revert i. induction ps as [|h ps IH]; intros [|i]; [done|done|intros [= ->]; change (<[0%nat := g']> (g :: ps)) with (g' :: ps); rewrite !unmarked_cons; lia|].
  intros Hi. change (<[S i := g']> (h :: ps)) with (h :: <[i := g']> ps). rewrite !unmarked_cons, IH by done. lia.
Qed.
(** ** Marking one value *)
Lemma insert_same_pages ps i g b : ps !! i = Some g -> same_pages ps (<[i := set_bmp g b]> ps).
Proof.
  revert i. induction ps as [|h ps IH]; intros [|i]; [done|done| |].
  - intros [= ->]. constructor; [right; by exists b|apply same_pages_refl].
  - intros Hi. constructor; [by left|by apply IH].
Qed.
Lemma get_page_insert ps i g b p q j h : get_page ps p = Some (i, g) -> get_page ps q = Some (j, h) -> get_page (<[i := set_bmp g b]> ps) q = Some (j, if decide (j = i) then set_bmp g b else h).
Proof.
  revert i j. induction ps as [|k ps IH]; intros i j; cbn [get_page]; [done|]. destruct (INPAGE p k) eqn:Ep.
  - intros [= <- <-]. cbn. assert (INPAGE q (set_bmp k b) = INPAGE q k) as -> by done. destruct (INPAGE q k); [by intros [= <- <-]|]. destruct (get_page ps q) as [[j' h']|]; [|done]. cbn. intros [= <- <-]. done.
  - destruct (get_page ps p) as [[i' g']|] eqn:E; [|done]. cbn. intros [= <- <-]. change (<[S i' := set_bmp g' b]> (k :: ps)) with (k :: <[i' := set_bmp g' b]> ps). cbn [get_page]. destruct (INPAGE q k); [by intros [= <- <-]|].
    destruct (get_page ps q) as [[j' h']|] eqn:E2; [|done]. cbn [mbind option_bind]. intros [= <- <-]. rewrite (IH i' j' eq_refl eq_refl). cbn [mbind option_bind]. destruct (decide (j' = i')), (decide (S j' = S i')); congruence.
Qed.
(** What handling a value does: it marks the block at that address, and pushes it when the block was
    not marked and may hold pointers. *)
Definition fresh (ps : list gpage) (p : Z) : bool := is_block ps p && negb (marked_at ps p).
Record marks_one (ps : list gpage) (st : mark_stack) (p : Z) (ps' : list gpage) (st' : mark_stack) : Prop := MarksOne {
  mo_ready : ready ps';
  mo_same : same_pages ps ps';
  mo_marked : forall q, marked_at ps' q = marked_at ps q || ((q =? p) && is_block ps p);
  mo_stack : st' = if fresh ps p && has_ptr ps p then p :: st else st;
  mo_count : unmarked ps' = unmarked ps - Z.b2z (fresh ps p) }.
Lemma marks_nothing ps st p : ready ps -> fresh ps p = false -> marks_one ps st p ps st.
Proof.
  intros Hr Hf. split; rewrite ?Hf; try done; [apply same_pages_refl| |cbn; lia]. intros q. destruct (Z.eqb_spec q p) as [->|]; [|by rewrite orb_false_r]. unfold fresh in Hf. destruct (is_block ps p), (marked_at ps p); done.
Qed.
Lemma bit_marks ps st p i g r : ready ps -> block_of ps p = Some (i, g, r) -> exists ps' st', set_mark ps st i g r p = Some (ps', st') /\ marks_one ps st p ps' st'.
Proof.
  intros Hr Hb. destruct (block_of_spec ps p i g r Hr Hb) as (Hp0 & Hg & Hid & Hpr & Hrange & Haddr & Hsz). pose proof Hpr as [(part & l & Hi) Hsize Hbase [Hn Hbm]].
  unfold set_mark. destruct (bmp (head g)) as [b|] eqn:Eb; [|done]. cbn [mbind option_bind]. destruct (proj1 (pg_bmp _ _ (pi_ok _ _ _ Hi)) b Eb) as [Hlen Hbytes].
  rewrite (bmp_test_total b r (max_blocks (head g))) by done. cbn [mbind option_bind].
  assert (marked_at ps p = is_marked b r) as Hma by (unfold marked_at; by rewrite Hb, Eb). assert (is_block ps p = true) as Hib by (unfold is_block; by rewrite Hb).
  destruct (is_marked b r) eqn:Em; [exists ps, st; split; [done|]; apply marks_nothing; [done|]; unfold fresh; by rewrite Hma, Hib|].
  destruct (bmp_set_spec b r (max_blocks (head g)) Hrange Hlen Hbytes) as (b' & Hset & Hlen' & Hbytes'). rewrite Hset. cbn [mbind option_bind].
  apply get_page_lookup in Hg as Hlook. destruct Hlook as [Hlook Hin].
  assert (fresh ps p = true) as Hfresh by (unfold fresh; by rewrite Hma, Hib). eexists _, _. split; [done|]. split.
  - apply Forall_insert; [done|]. by apply (set_bmp_ready g b b' r).
  - by apply insert_same_pages.
  - intros q. rewrite Hib, andb_true_r. unfold marked_at, block_of. destruct (Z.eqb_spec q 0) as [->|Hq0]; [by rewrite (proj2 (Z.eqb_neq 0 p)) by lia|].
    pose proof (get_page_same ps _ q (insert_same_pages ps i g b' Hlook)) as Hsame. destruct (get_page ps q) as [[j h]|] eqn:Eq.
    2: { rewrite Hsame. cbn. destruct (Z.eqb_spec q p) as [->|]; [congruence|done]. }
    clear Hsame. rewrite (get_page_insert ps i g b' p q j h Hg Eq). cbn [mbind option_bind]. destruct (decide (j = i)) as [->|Hne].
    + assert (h = g) as -> by (apply get_page_lookup in Eq as [Eq _]; congruence). change (gc_allocator_get_block_id (head (set_bmp g b')) q) with (gc_allocator_get_block_id (head g) q).
      apply get_page_lookup in Eq as [_ Hinq%INPAGE_spec]. destruct (block_id_cases part (head g) l q Hi Hsize Hinq) as (r' & Er & Hcase). rewrite Er. cbn [mbind option_bind].
      destruct (Z.geb_spec r' 0) as [Hr0|Hr0]; [|destruct (Z.eqb_spec q p) as [->|]; [|done]; rewrite Hid in Er; injection Er as <-; lia].
      cbn [set_bmp head bmp]. rewrite Eb, (bmp_set_marked b r b' r') by (done || lia). f_equal. destruct Hcase as [|(_ & Hq & _)]; [lia|]. pose proof (pi_pos _ _ _ Hi). apply Bool.eq_iff_eq_true. rewrite !Z.eqb_eq. split; [intros ->; lia|intros ->; nia].
    + destruct (gc_allocator_get_block_id (head h) q) as [r'|]; cbn [mbind option_bind]; [|destruct (Z.eqb_spec q p) as [->|]; [|done]; congruence].
      destruct (Z.eqb_spec q p) as [->|]; [congruence|]. by rewrite orb_false_r.
  - unfold has_ptr. by rewrite Hfresh, Hg.
  - rewrite (unmarked_insert ps i g) by done. rewrite Hfresh. cbn [Z.b2z]. unfold unmarked_blocks. cbn [set_bmp head bmp max_blocks]. rewrite Eb.
    pose proof (how_many_update (fun r => negb (is_marked b r)) (fun r => negb (is_marked b' r)) (Z.to_nat (max_blocks (head g))) r) as Hu. cbn beta in Hu. rewrite Em, (bmp_set_marked b r b' r), Z.eqb_refl, orb_true_r in Hu by (done || lia).
    specialize (Hu eq_refl eq_refl 0 ltac:(lia)). rewrite <- Hu; [lia|]. intros j Hj Hne. rewrite (bmp_set_marked b r b' j), (proj2 (Z.eqb_neq j r) Hne), orb_false_r by (done || lia). done.
Qed.
Lemma word_marks ps st p : ready ps -> exists ps' st', mark_word ps st p = Some (ps', st') /\ marks_one ps st p ps' st'.
Proof.
  intros Hr. unfold mark_word. destruct (Z.eqb_spec p 0) as [->|Hp].
  { exists ps, st. split; [done|]. by apply marks_nothing. }
  destruct (get_page ps p) as [[i g]|] eqn:Eg.
  2: { exists ps, st. split; [done|]. apply marks_nothing; [done|]. unfold fresh, is_block, block_of. by rewrite (proj2 (Z.eqb_neq p 0) Hp), Eg. }
  pose proof (get_page_ready _ _ _ _ Hr Eg) as [(part & l & Hi) Hsize _ _]. apply get_page_lookup in Eg as Hin. destruct Hin as [_ Hin%INPAGE_spec].
  destruct (block_id_cases part (head g) l p Hi Hsize Hin) as (r & Er & _). rewrite Er. cbn [mbind option_bind].
  assert (block_of ps p = if r >=? 0 then Some (i, g, r) else None) as Hb by (unfold block_of; rewrite (proj2 (Z.eqb_neq p 0) Hp), Eg; cbn [mbind option_bind]; by rewrite Er). destruct (r >=? 0).
  - by apply bit_marks.
  - exists ps, st. split; [done|]. apply marks_nothing; [done|]. unfold fresh, is_block. by rewrite Hb.
Qed.

(** *** Words of stacks *)
Definition apart_pages (ps : list gpage) : Prop := pairwise apart ((fun g => place (head g)) <$> ps).
Lemma apart_pages_same ps ps' : same_pages ps ps' -> apart_pages ps -> apart_pages ps'.
Proof.
  intros Hs. unfold apart_pages. assert ((fun g => place (head g)) <$> ps' = (fun g => place (head g)) <$> ps) as ->; [|done]. induction Hs as [|g g' ps ps' Hg _ IH]; [done|]. cbn. rewrite IH. by destruct Hg as [->|[b ->]].
Qed.
Lemma get_page_apart ps i g a : apart_pages ps -> ps !! i = Some g -> INPAGE a g = true -> get_page ps a = Some (i, g).
Proof.
  unfold apart_pages. revert i. induction ps as [|h ps IH]; intros [|i] Ha; [done|done| |].
  - intros [= ->] Hin. cbn [get_page]. by rewrite Hin.
  - intros Hi Hin. cbn [fmap list_fmap pairwise] in Ha. destruct Ha as [Ha Hps]. cbn [get_page]. destruct (INPAGE a h) eqn:E; [exfalso|by rewrite (IH i Hps Hi Hin)].
    rewrite Forall_forall in Ha. specialize (Ha (place (head g)) ltac:(apply list_elem_of_fmap; exists g; split; [done|by apply (list_elem_of_lookup_2 _ i)])). apply INPAGE_spec in E, Hin. unfold apart, place in Ha. cbn in Ha. lia.
Qed.
Lemma block_id_at part ph l r : page_inv part ph l -> page_size ph <= INT_MAX -> 0 <= r < max_blocks ph -> (forall s, sizes ph = Some s -> first_block ph <= r /\ aget s r <> Some 0) ->
  base ph <= base ph + r * block_size ph < base ph + page_size ph /\ gc_allocator_get_block_id ph (base ph + r * block_size ph) = Some r.
Proof.
  intros Hi Hsize Hr Hs. pose proof (pi_pos _ _ _ Hi) as Hpos. assert (0 <= r * block_size ph < page_size ph) as Hin.
  { pose proof (pi_max _ _ _ Hi) as Hmax. rewrite Z.quot_div_nonneg in Hmax by lia. pose proof (Z.mul_div_le (page_size ph) (block_size ph) ltac:(lia)). nia. }
  split; [lia|]. unfold gc_allocator_get_block_id. replace (base ph + r * block_size ph - base ph) with (r * block_size ph) by lia. rewrite i32_small by (unfold in_i32, INT_MIN, INT_MAX in *; lia).
  rewrite (block_div part ph l Hi), (block_mul part ph l Hi) by lia. rewrite Z.div_mul, Z.eqb_refl by lia. cbn [negb]. destruct (Z.geb_spec r (max_blocks ph)); [lia|].
  destruct (sizes ph) as [s|] eqn:Es; [|done]. destruct (Hs s eq_refl) as [Hf Hn]. destruct (Z.ltb_spec r (first_block ph)); [lia|].
  destruct (aget_is_Some s r) as [n Hsr]; [rewrite (proj2 (pg_sizes _ _ (pi_ok _ _ _ Hi)) s Es); lia|]. rewrite Hsr. cbn [mbind option_bind]. destruct (Z.eqb_spec n 0) as [->|]; [by destruct Hn|done].
Qed.
Lemma interior_block part ph l p : page_inv part ph l -> page_size ph <= INT_MAX -> base ph <= p < base ph + page_size ph ->
  exists r a, gc_allocator_get_block_interior ph p = Some (r, a) /\ (r < 0 \/ 0 <= r < max_blocks ph /\ a = base ph + r * block_size ph /\ forall s, sizes ph = Some s -> first_block ph <= r /\ aget s r <> Some 0).
Proof.
  intros Hi Hsize Hp. pose proof (pi_pos _ _ _ Hi) as Hpos. destruct (sizes ph) as [s|] eqn:Es.
  - destruct (get_block_interior_spec part ph l s Hi Es p Hp) as (r & a & -> & Hcase). exists r, a. split; [done|]. destruct Hcase as [(n & Ho & -> & Hr)|(-> & _)]; [right|by left].
    destruct (obj_size part ph l s Hi Es r n Ho) as (Hn & Hn0 & Hf & Hm & _). pose proof (pg_range _ _ (pi_ok _ _ _ Hi)). destruct (covers_in _ _ _ _ (pg_covers _ _ (pi_ok _ _ _ Hi)) Ho) as (_ & _ & Hok). cbn in Hok.
    split; [lia|]. split; [done|]. intros s' [= <-]. split; [done|]. rewrite Hn. congruence.
  - unfold gc_allocator_get_block_interior. rewrite i32_small by (unfold in_i32, INT_MIN, INT_MAX in *; lia). rewrite Z.quot_div_nonneg, Es by lia. set (r := (p - base ph) / block_size ph). assert (0 <= r) by (apply Z.div_pos; lia).
    destruct (Z.geb_spec r (max_blocks ph)); eexists _, _; (split; [done|]); [left; lia|right]. split; [lia|]. done.
Qed.
(** The block a word of a stack keeps: the one that contains the address; 0 when there is none. *)
Definition stack_target (ps : list gpage) (p : Z) : Z :=
  match get_page ps p with
  | Some (_, g) => match gc_allocator_get_block_interior (head g) p with Some (r, a) => if r >=? 0 then a else 0 | None => 0 end
  | None => 0
  end.
Lemma stack_target_same ps ps' p : same_pages ps ps' -> stack_target ps' p = stack_target ps p.
Proof. intros Hs. unfold stack_target. pose proof (get_page_same ps ps' p Hs) as H. destruct (get_page ps p) as [[i g]|]; [|by rewrite H]. destruct H as (g' & -> & [->|[b ->]]); done. Qed.
Lemma mark_stack_word_spec ps st p : ready ps -> apart_pages ps -> exists ps' st', mark_stack_word ps st p = Some (ps', st') /\ marks_one ps st (stack_target ps p) ps' st'.
Proof.
  intros Hr Ha. unfold mark_stack_word, stack_target. destruct (get_page ps p) as [[i g]|] eqn:Eg; [|exists ps, st; split; [done|]; by apply marks_nothing].
  pose proof (get_page_ready _ _ _ _ Hr Eg) as [(part & l & Hi) Hsize Hbase _]. apply get_page_lookup in Eg as [Hlook Hin%INPAGE_spec]. destruct (interior_block part (head g) l p Hi Hsize Hin) as (r & a & -> & Hcase). cbn [mbind option_bind].
  destruct (Z.geb_spec r 0); [|exists ps, st; split; [done|]; by apply marks_nothing]. destruct Hcase as [|(Hrm & -> & Hs)]; [lia|]. destruct (block_id_at part (head g) l r Hi Hsize Hrm Hs) as [Hin2 Hid].
  apply bit_marks; [done|]. unfold block_of. rewrite (proj2 (Z.eqb_neq _ 0)) by lia. rewrite (get_page_apart ps i g _ Ha Hlook) by by apply INPAGE_spec. cbn [mbind option_bind]. rewrite Hid. cbn [mbind option_bind]. by destruct (Z.geb_spec r 0); [|lia].
Qed.

(** ** Reachability *)
Section graph.
Context (mem : Z -> Z) (type_info : Z -> option (Z * option (list Z))).
Abbreviation block_words := (block_words mem type_info).
Lemma block_words_same g g' p : g' = g \/ (exists b, g' = set_bmp g b) -> block_words g' p = block_words g p.
Proof. by intros [->|[b ->]]. Qed.
(** The words scanned in a block. *)
Definition refs (ps : list gpage) (p : Z) : list Z := match get_page ps p with Some (_, g) => default [] (block_words g p) | None => [] end.
Lemma refs_same ps ps' p : same_pages ps ps' -> refs ps' p = refs ps p.
Proof. intros Hs. unfold refs. pose proof (get_page_same ps ps' p Hs) as H. destruct (get_page ps p) as [[i g]|]; [|by rewrite H]. destruct H as (g' & -> & Hg). by rewrite (block_words_same g g'). Qed.
Inductive reach (ps : list gpage) (roots : Z -> Prop) : Z -> Prop :=
  | reach_root p : roots p -> is_block ps p = true -> reach ps roots p
  | reach_word p q : reach ps roots p -> has_ptr ps p = true -> q ∈ refs ps p -> is_block ps q = true -> reach ps roots q.
(** The words of every block a worker can meet are defined: its type has a bitmap that covers it. *)
Definition typed (ps : list gpage) (roots : Z -> Prop) : Prop := forall p, reach ps roots p -> has_ptr ps p = true -> forall i g, get_page ps p = Some (i, g) -> block_words g p <> None.

Context (ps0 : list gpage) (roots : Z -> Prop).
Hypothesis Htyped : typed ps0 roots.
Definition on_stack (ws : list worker) (q : Z) : Prop := Exists (fun w => q ∈ w_stack w) ws.
Definition in_words (ws : list worker) (q : Z) : Prop := Exists (fun w => q ∈ w_words w) ws.
Record mark_inv (ps : list gpage) (ws : list worker) : Prop := MarkInv {
  mi_ready : ready ps;
  mi_same : same_pages ps0 ps;
  mi_sound : forall q, marked_at ps q = true -> reach ps0 roots q;
  mi_stack : forall q, on_stack ws q -> marked_at ps q = true /\ has_ptr ps0 q = true;
  mi_words : forall q, in_words ws q -> is_block ps0 q = true -> reach ps0 roots q;
  mi_scanned : forall p, marked_at ps p = true -> has_ptr ps0 p = true -> on_stack ws p \/ forall q, q ∈ refs ps0 p -> is_block ps0 q = true -> marked_at ps q = true \/ in_words ws q;
  mi_roots : forall q, roots q -> is_block ps0 q = true -> marked_at ps q = true }.
Lemma marked_block ps q : marked_at ps q = true -> is_block ps q = true.
Proof. unfold marked_at, is_block. by destruct (block_of ps q). Qed.
(** At the end the marked blocks are the reachable ones. *)
Lemma finished_marks ps ws : mark_inv ps ws -> finished ws -> forall q, marked_at ps q = true <-> reach ps0 roots q.
Proof.
  intros [Hr Hs Hsound Hst Hw Hsc Hro] Hf q. split; [apply Hsound|].
  assert ((forall q, ~ on_stack ws q) /\ forall q, ~ in_words ws q) as [Hns Hnw].
  { split; intros x Hx; apply Exists_exists in Hx as (w & Hin & Hx); unfold finished in Hf; rewrite Forall_forall in Hf; rewrite (Hf w Hin) in Hx; by apply not_elem_of_nil in Hx. }
  induction 1 as [p Hp Hb|p q Hp IH Hptr Hin Hb]; [by apply Hro|]. destruct (Hsc p IH Hptr) as [Hon|Hrefs]; [by destruct (Hns p)|]. destruct (Hrefs q Hin Hb) as [|Hw']; [done|by destruct (Hnw q)].
Qed.
Lemma worker_split (ws : list worker) i w : ws !! i = Some w -> exists l1 l2, ws = l1 ++ w :: l2 /\ forall w', <[i := w']> ws = l1 ++ w' :: l2.
Proof.
  intros Hi. exists (take i ws), (drop (S i) ws). split; [symmetry; by apply take_drop_middle|]. intros w'. apply insert_take_drop. by apply lookup_lt_Some in Hi.
Qed.
Lemma on_stack_mid l1 w l2 q : on_stack (l1 ++ w :: l2) q <-> q ∈ w_stack w \/ on_stack (l1 ++ l2) q.
Proof. unfold on_stack. rewrite !Exists_app, Exists_cons. tauto. Qed.
Lemma in_words_mid l1 w l2 q : in_words (l1 ++ w :: l2) q <-> q ∈ w_words w \/ in_words (l1 ++ l2) q.
Proof. unfold in_words. rewrite !Exists_app, Exists_cons. tauto. Qed.
Lemma step_mark_inv ps ws ps' ws' : mark_inv ps ws -> mark_step mem type_info (ps, ws) (ps', ws') -> mark_inv ps' ws'.
Proof.
  intros [Hr Hs Hsound Hst Hw Hsc Hro] Hstep. inversion Hstep as [? ? i st block words n g Hi Hg Hbw|? ? i st p words ? st' Hi Hmw]; subst; destruct (worker_split ws i _ Hi) as (l1 & l2 & -> & Hins); rewrite Hins; clear Hstep Hi Hins.
  - (* taking a block *)
    assert (marked_at ps' block = true /\ has_ptr ps0 block = true) as [Hmb Hpb] by (apply Hst, on_stack_mid; left; left).
    assert (refs ps0 block = words) as Hrefs by (rewrite <- (refs_same ps0 ps' block Hs); unfold refs; rewrite Hg, Hbw; done).
    split; try done.
    + intros q. rewrite on_stack_mid. cbn [w_stack]. intros Hq. apply Hst, on_stack_mid. cbn [w_stack]. destruct Hq; [left; by right|by right].
    + intros q. rewrite in_words_mid. cbn [w_words]. intros [Hq|Hq] Hb; [|apply Hw; [apply in_words_mid; by right|done]]. apply (reach_word _ _ block); [by apply Hsound|done|by rewrite Hrefs|done].
    + intros q Hm Hp. destruct (Hsc q Hm Hp) as [Hon|Hq].
      * apply on_stack_mid in Hon as [Hon|Hon]; [|left; apply on_stack_mid; by right]. cbn [w_stack] in Hon. apply elem_of_cons in Hon as [->|Hon]; [right|left; apply on_stack_mid; by left].
        intros r Hin _. right. apply in_words_mid. left. by rewrite Hrefs in Hin.
      * right. intros r Hin Hb. destruct (Hq r Hin Hb) as [|Hin']; [by left|right]. apply in_words_mid. apply in_words_mid in Hin' as [Hin'|]; [by apply not_elem_of_nil in Hin'|by right].
  - (* one word *)
    destruct (word_marks ps st p Hr) as (ps2 & st2 & E & [Hr' Hs' Hm' Hst' _]). rewrite Hmw in E. injection E as <- <-. pose proof (is_block_same ps0 ps p Hs) as Hib. rewrite Hib in Hm'.
    assert (forall q, marked_at ps q = true -> marked_at ps' q = true) as Hmono by (intros q Hq; by rewrite Hm', Hq).
    assert (is_block ps0 p = true -> marked_at ps' p = true) as Hpm by (intros Hb; rewrite Hm', Hb, Z.eqb_refl; by destruct (marked_at ps p)).
    split; try done.
    + by apply (same_pages_trans ps0 ps).
    + intros q. rewrite Hm'. intros Hq. apply orb_true_iff in Hq as [Hq|Hq]; [by apply Hsound|]. apply andb_true_iff in Hq as [->%Z.eqb_eq Hb]. apply Hw; [apply in_words_mid; left; left|done].
    + intros q. rewrite on_stack_mid. cbn [w_stack]. intros [Hq|Hq]; [|destruct (Hst q) as [? ?]; [apply on_stack_mid; by right|by split; [apply Hmono|]]].
      rewrite Hst' in Hq. destruct (fresh ps p && has_ptr ps p) eqn:E; [|destruct (Hst q) as [? ?]; [apply on_stack_mid; by left|by split; [apply Hmono|]]].
      apply elem_of_cons in Hq as [->|Hq]; [|destruct (Hst q) as [? ?]; [apply on_stack_mid; by left|by split; [apply Hmono|]]].
      apply andb_true_iff in E as [E1 E2]. unfold fresh in E1. apply andb_true_iff in E1 as [E1 _]. rewrite Hib in E1. rewrite (has_ptr_same ps0 ps p Hs) in E2. split; [by apply Hpm|done].
    + intros q. rewrite in_words_mid. cbn [w_words]. intros Hq Hb. apply Hw; [|done]. apply in_words_mid. cbn [w_words]. destruct Hq; [left; by right|by right].
    + assert (forall q, on_stack (l1 ++ Worker st (p :: words) :: l2) q -> on_stack (l1 ++ Worker st' words :: l2) q) as Hon.
      { intros q. rewrite !on_stack_mid. cbn [w_stack]. rewrite Hst'. intros [Hq|Hq]; [left|by right]. destruct (_ && _); [by right|done]. }
      assert (forall q, is_block ps0 q = true -> marked_at ps q = true \/ in_words (l1 ++ Worker st (p :: words) :: l2) q -> marked_at ps' q = true \/ in_words (l1 ++ Worker st' words :: l2) q) as Hiw.
      { intros q Hb [Hq|Hq]; [left; by apply Hmono|]. apply in_words_mid in Hq. cbn [w_words] in Hq. destruct Hq as [Hq|Hq]; [|right; apply in_words_mid; by right]. apply elem_of_cons in Hq as [->|Hq]; [left; by apply Hpm|right; apply in_words_mid; by left]. }
      intros q Hm Hp. rewrite Hm' in Hm. destruct (marked_at ps q) eqn:Emq.
      * destruct (Hsc q Emq Hp) as [|Hq]; [left; by apply Hon|right]. intros r Hin Hb. apply Hiw; [done|by apply Hq].
      * cbn in Hm. apply andb_true_iff in Hm as [->%Z.eqb_eq Hb]. left. apply on_stack_mid. left. cbn [w_stack]. rewrite Hst'. unfold fresh. rewrite Hib, Hb, Emq, (has_ptr_same ps0 ps p Hs), Hp. cbn. left.
    + intros q Hq Hb. apply Hmono. by apply Hro.
Qed.
Lemma dispatch_mark_inv ps ws ps' ws' : mark_inv ps ws -> dispatch_step (ps, ws) (ps', ws') -> mark_inv ps' ws'.
Proof.
  intros Hinv Hstep. inversion Hstep as [? ? i j a b words Hne Hi Hj]; subst.
  assert ((forall q, on_stack (<[j := Worker a []]> (<[i := Worker b words]> ws)) q <-> on_stack ws q) /\ forall q, in_words (<[j := Worker a []]> (<[i := Worker b words]> ws)) q <-> in_words ws q) as [Hon Hiw].
  { destruct (worker_split (<[i := Worker b words]> ws) j (Worker [] [])) as (l1 & l2 & E & Hins); [rewrite list_lookup_insert_ne by done; exact Hj|]. rewrite Hins.
    destruct (worker_split ws i _ Hi) as (k1 & k2 & E2 & Hins2). rewrite Hins2 in E. split; intros q.
    - rewrite on_stack_mid. cbn [w_stack]. rewrite E2, on_stack_mid. cbn [w_stack]. rewrite elem_of_app.
      assert (on_stack (k1 ++ Worker b words :: k2) q <-> on_stack (l1 ++ Worker [] [] :: l2) q) as H by by rewrite E. rewrite !on_stack_mid in H. cbn [w_stack] in H. pose proof (not_elem_of_nil q). tauto.
    - rewrite in_words_mid. cbn [w_words]. rewrite E2, in_words_mid. cbn [w_words].
      assert (in_words (k1 ++ Worker b words :: k2) q <-> in_words (l1 ++ Worker [] [] :: l2) q) as H by by rewrite E. rewrite !in_words_mid in H. cbn [w_words] in H. pose proof (not_elem_of_nil q). tauto. }
  destruct Hinv as [Hr Hs Hsound Hst Hw Hsc Hro]. split; try done.
  - intros q. rewrite Hon. apply Hst.
  - intros q. rewrite Hiw. apply Hw.
  - intros p Hm Hp. rewrite Hon. destruct (Hsc p Hm Hp) as [|Hq]; [by left|right]. intros q Hin Hb. rewrite Hiw. by apply Hq.
Qed.

(** *** Progress and termination *)
Lemma mark_progress ps ws : mark_inv ps ws -> ~ finished ws -> exists s, mark_step mem type_info (ps, ws) s.
Proof.
  intros [Hr Hs Hsound Hst Hw Hsc Hro] Hf. destruct (decide (Exists (fun w => w_stack w <> [] \/ w_words w <> []) ws)) as [He|He].
  - apply Exists_exists in He as (w & Hin & Hne). apply list_elem_of_lookup in Hin as (i & Hi). destruct w as [st [|p words]]; cbn in Hne.
    + destruct st as [|block st]; [naive_solver|]. assert (on_stack ws block) as Hon by (apply Exists_exists; eexists; split; [by apply (list_elem_of_lookup_2 _ i)|left]). destruct (Hst block Hon) as [Hm Hp].
      pose proof (Hsound block Hm) as Hreach. assert (has_ptr ps block = true) as Hp' by by rewrite (has_ptr_same ps0 ps block Hs). unfold has_ptr in Hp'. destruct (get_page ps block) as [[n g]|] eqn:Eg; [|done].
      pose proof (get_page_same ps0 ps block Hs) as Hg. destruct (get_page ps0 block) as [[n0 g0]|] eqn:Eg0; [|congruence]. destruct Hg as (g' & Eg' & Hgg). rewrite Eg in Eg'. injection Eg' as <- <-.
      destruct (block_words g block) as [words|] eqn:Ew; [eexists; by eapply mark_pop|]. exfalso. apply (Htyped block Hreach Hp n g0 Eg0). by rewrite <- Ew, (block_words_same g0 g block Hgg).
    + destruct (word_marks ps st p Hr) as (ps' & st' & Hmw & _). eexists. by eapply mark_one.
  - exfalso. apply Hf. unfold finished. apply not_Exists_Forall in He; [|intros w; apply _]. eapply Forall_impl; [exact He|]. intros [[|x st] [|y words]] Hw'; cbn in Hw'; [done|exfalso; apply Hw'; naive_solver..].
Qed.
Definition stack_size (ws : list worker) : nat := length (concat (w_stack <$> ws)).
Definition words_size (ws : list worker) : nat := length (concat (w_words <$> ws)).
Lemma size_mid l1 w l2 : stack_size (l1 ++ w :: l2) = (length (w_stack w) + stack_size (l1 ++ l2))%nat /\ words_size (l1 ++ w :: l2) = (length (w_words w) + words_size (l1 ++ l2))%nat.
Proof. unfold stack_size, words_size. rewrite !fmap_app, !concat_app, !length_app. cbn [fmap list_fmap concat]. rewrite !length_app. lia. Qed.
(** A step marks a block, or takes one from a stack, or handles a word. *)
Lemma step_smaller ps ws ps' ws' : mark_inv ps ws -> mark_step mem type_info (ps, ws) (ps', ws') ->
  unmarked ps' < unmarked ps \/ unmarked ps' = unmarked ps /\ ((stack_size ws' < stack_size ws)%nat \/ stack_size ws' = stack_size ws /\ (words_size ws' < words_size ws)%nat).
Proof.
  intros Hinv Hstep. inversion Hstep as [? ? i st block words n g Hi Hg Hbw|? ? i st p words ? st' Hi Hmw]; subst; destruct (worker_split ws i _ Hi) as (l1 & l2 & -> & ->).
  - right. split; [done|]. left. rewrite !(proj1 (size_mid _ _ _)). cbn. lia.
  - destruct (word_marks ps st p (mi_ready _ _ Hinv)) as (ps2 & st2 & E & [_ _ _ Hst' Hcount]). rewrite Hmw in E. injection E as <- <-. rewrite Hcount, !(proj1 (size_mid _ _ _)), !(proj2 (size_mid _ _ _)). cbn [w_stack w_words length].
    destruct (fresh ps p) eqn:Ef; cbn [Z.b2z]; [left; lia|right; split; [lia|right]]. cbn [andb] in Hst'. subst st'. lia.
Qed.
Lemma marking_terminates ps ws : mark_inv ps ws -> Acc (fun s' s => mark_step mem type_info s s') (ps, ws).
Proof.
  remember (Z.to_nat (unmarked ps)) as n eqn:En. revert ps ws En. induction n as [n IHn] using lt_wf_ind. intros ps ws En. remember (stack_size ws) as m eqn:Em. revert ps ws En Em. induction m as [m IHm] using lt_wf_ind. intros ps ws En Em.
  remember (words_size ws) as k eqn:Ek. revert ps ws En Em Ek. induction k as [k IHk] using lt_wf_ind. intros ps ws En Em Ek Hinv. constructor. intros [ps' ws'] Hstep. pose proof (step_mark_inv _ _ _ _ Hinv Hstep) as Hinv'. pose proof (unmarked_nonneg ps'). pose proof (unmarked_nonneg ps).
  destruct (step_smaller _ _ _ _ Hinv Hstep) as [Hlt|[Heq [Hlt|[Heq2 Hlt]]]].
  - apply (IHn (Z.to_nat (unmarked ps'))); [lia|done|done].
  - apply (IHm (stack_size ws')); [lia|lia|done|done].
  - apply (IHk (words_size ws')); [lia|lia|lia|done|done].
Qed.

(** *** The roots *)
Record root_inv (targets : Z -> Prop) (ps : list gpage) (st : mark_stack) : Prop := RootInv {
  ri_ready : ready ps;
  ri_same : same_pages ps0 ps;
  ri_marked : forall q, marked_at ps q = true <-> targets q /\ is_block ps0 q = true;
  ri_stack : forall q, q ∈ st <-> marked_at ps q = true /\ has_ptr ps0 q = true;
  ri_count : Z.of_nat (length st) + unmarked ps <= unmarked ps0 }.
Lemma root_inv_one targets ps st p ps' st' : root_inv targets ps st -> marks_one ps st p ps' st' -> root_inv (fun q => targets q \/ q = p) ps' st'.
Proof.
  intros [Hr Hs Hm Hst Hc] [Hr' Hs' Hm' Hst' Hc']. pose proof (is_block_same ps0 ps p Hs) as Hib. rewrite Hib in Hm'. split; try done.
  - by apply (same_pages_trans ps0 ps).
  - intros q. rewrite Hm', orb_true_iff, andb_true_iff, Z.eqb_eq, Hm. split; [intros [[? ?]|[-> ?]]; tauto|]. intros [[?| ->] ?]; tauto.
  - intros q. rewrite Hm', Hst', orb_true_iff, andb_true_iff, Z.eqb_eq. unfold fresh. rewrite Hib, (has_ptr_same ps0 ps p Hs).
    destruct (is_block ps0 p) eqn:Eb, (marked_at ps p) eqn:Em, (has_ptr ps0 p) eqn:Ep; cbn [negb andb]; rewrite ?elem_of_cons, Hst; try (split; [intros [? ?]; tauto|]; intros [[?|[-> ?]] ?]; [tauto|congruence]).
    + split; [tauto|]. intros [[?|[-> _]] ?]; tauto.
    + split; [intros [->|[? ?]]; tauto|]. intros [[?|[-> _]] ?]; tauto.
  - rewrite Hc', Hst'. destruct (fresh ps p) eqn:E; cbn; [destruct (has_ptr ps p); cbn; lia|lia].
Qed.
Lemma mark_words_roots ws : forall targets ps st, root_inv targets ps st -> exists ps' st', mark_words ps st ws = Some (ps', st') /\ root_inv (fun q => targets q \/ q ∈ ws) ps' st'.
Proof.
  induction ws as [|p ws IH]; intros targets ps st Hinv; cbn [mark_words].
  { exists ps, st. split; [done|]. destruct Hinv as [Hr Hs Hm Hst Hc]. split; try done. intros q. rewrite Hm. pose proof (not_elem_of_nil q). tauto. }
  destruct (word_marks ps st p (ri_ready _ _ _ Hinv)) as (ps' & st' & Hmw & Hone). unfold mark_words. cbn [foldl]. cbn [mbind option_bind]. rewrite Hmw.
  destruct (IH _ _ _ (root_inv_one _ _ _ _ _ _ Hinv Hone)) as (ps2 & st2 & Hmw2 & Hinv2). exists ps2, st2. split; [exact Hmw2|]. destruct Hinv2 as [Hr Hs Hm Hst Hc]. split; try done. intros q. rewrite Hm, elem_of_cons. tauto.
Qed.
Lemma gc_mark_stack_roots ws : forall targets ps st, apart_pages ps0 -> root_inv targets ps st -> exists ps' st', gc_mark_stack ps st ws = Some (ps', st') /\ root_inv (fun q => targets q \/ exists w, w ∈ ws /\ q = stack_target ps0 w) ps' st'.
Proof.
  induction ws as [|p ws IH]; intros targets ps st Ha Hinv.
  { exists ps, st. split; [done|]. destruct Hinv as [Hr Hs Hm Hst Hc]. split; try done. intros q. rewrite Hm. split; [tauto|]. intros [[|(w & Hw & _)] ?]; [done|by apply not_elem_of_nil in Hw]. }
  destruct (mark_stack_word_spec ps st p (ri_ready _ _ _ Hinv) (apart_pages_same _ _ (ri_same _ _ _ Hinv) Ha)) as (ps' & st' & Hmw & Hone). rewrite (stack_target_same ps0 ps p (ri_same _ _ _ Hinv)) in Hone.
  unfold gc_mark_stack. cbn [foldl]. cbn [mbind option_bind]. rewrite Hmw.
  destruct (IH _ _ _ Ha (root_inv_one _ _ _ _ _ _ Hinv Hone)) as (ps2 & st2 & Hmw2 & Hinv2). exists ps2, st2. split; [exact Hmw2|]. destruct Hinv2 as [Hr Hs Hm Hst Hc]. split; try done. intros q. rewrite Hm. clear -p. set_solver.
Qed.
Lemma root_inv_start ws0 targets ps st : root_inv targets ps st -> (forall q, targets q -> roots q) -> (forall q, roots q -> targets q) -> Forall (fun w => w = Worker [] []) ws0 -> mark_inv ps (Worker st [] :: ws0).
Proof.
  intros [Hr Hs Hm Hst Hc] H1 H2 Hws. assert (forall q, on_stack (Worker st [] :: ws0) q <-> q ∈ st) as Hon.
  { intros q. unfold on_stack. rewrite Exists_cons. cbn [w_stack]. split; [|tauto]. intros [|He]; [done|]. apply Exists_exists in He as (w & Hin & Hq). rewrite Forall_forall in Hws. rewrite (Hws w Hin) in Hq. by apply not_elem_of_nil in Hq. }
  assert (forall q, ~ in_words (Worker st [] :: ws0) q) as Hnw.
  { intros q He. apply Exists_exists in He as (w & Hin & Hq). apply elem_of_cons in Hin as [->|Hin]; [by apply not_elem_of_nil in Hq|]. rewrite Forall_forall in Hws. rewrite (Hws w Hin) in Hq. by apply not_elem_of_nil in Hq. }
  split; try done.
  - intros q Hq. apply Hm in Hq as [Ht Hb]. apply reach_root; [by apply H1|done].
  - intros q. rewrite Hon. by apply Hst.
  - intros q Hq. by destruct (Hnw q).
  - intros q Hq Hp. left. apply Hon. by apply Hst.
  - intros q Hq Hb. apply Hm. split; [by apply H2|done].
Qed.
End graph.

(** *** One worker *)
Section one_worker.
Context (mem : Z -> Z) (type_info : Z -> option (Z * option (list Z))).
Abbreviation step := (mark_step mem type_info).
Lemma mark_words_cons ps st p ws : mark_words ps st (p :: ws) = '(ps, st) ← mark_word ps st p; mark_words ps st ws.
Proof.
  unfold mark_words. cbn [foldl mbind option_bind]. destruct (mark_word ps st p) as [[ps' st']|]; [done|]. cbn [mbind option_bind]. by induction ws as [|q ws IH].
Qed.
(** The loop of [gc_flush_mark] over a block handles the words of the block in order. *)
Lemma scan_loop_words sc n : forall pos ps st ws, mapM (word_at mem sc) (seqZ pos (Z.of_nat n)) = Some ws ->
  afor (fun pos '(ps, st) => p ← word_at mem sc pos; mark_word ps st p) n pos (ps, st) = mark_words ps st ws.
Proof.
  induction n as [|n IH]; intros pos ps st ws Hm.
  { rewrite seqZ_nil in Hm by lia. by injection Hm as <-. }
  rewrite seqZ_cons in Hm by lia. cbn [mapM] in Hm. destruct (word_at mem sc pos) as [p|] eqn:Ep; [|done]. cbn [mbind option_bind] in Hm.
  replace (Z.succ pos) with (pos + 1) in Hm by lia. replace (Z.pred (Z.of_nat (S n))) with (Z.of_nat n) in Hm by lia.
  destruct (mapM (word_at mem sc) (seqZ (pos + 1) (Z.of_nat n))) as [ws'|] eqn:Em; [|done]. injection Hm as <-.
  cbn [afor]. rewrite Ep. cbn [mbind option_bind]. rewrite mark_words_cons. destruct (mark_word ps st p) as [[ps' st']|]; [|done]. cbn [mbind option_bind]. by apply IH.
Qed.
Lemma scan_block_words ps st block i g ws : get_page ps block = Some (i, g) -> block_words mem type_info g block = Some ws -> scan_block mem type_info ps st block = mark_words ps st ws.
Proof.
  intros Hg Hw. unfold scan_block. rewrite Hg. cbn [mbind option_bind]. unfold block_words in Hw. destruct (gc_allocator_fast_block_size (head g) block) as [size|]; [|done]. cbn [mbind option_bind] in Hw |- *.
  destruct (scan_plan mem type_info (page_kind g) block (Z.quot size 8)) as [[sc|]|]; cbn [mbind option_bind] in Hw |- *; [|by injection Hw as <-|done].
  apply scan_loop_words. destruct (decide (0 <= sc_end sc - sc_pos sc)); [by rewrite Z2Nat.id|]. rewrite seqZ_nil in Hw by lia. rewrite seqZ_nil by lia. done.
Qed.
(** Handling a list of words is a run of steps of the worker that holds them. *)
Lemma mark_words_run ws : forall ps st, ready ps -> exists ps' st', mark_words ps st ws = Some (ps', st') /\ ready ps' /\ rtc step (ps, [Worker st ws]) (ps', [Worker st' []]) /\
  Z.of_nat (length st') + unmarked ps' <= Z.of_nat (length st) + unmarked ps.
Proof.
  induction ws as [|p ws IH]; intros ps st Hr; [exists ps, st; split; [done|]; split; [done|]; split; [apply rtc_refl|lia]|].
  destruct (word_marks ps st p Hr) as (ps1 & st1 & Hmw & [Hr1 _ _ Hst1 Hc1]). destruct (IH ps1 st1 Hr1) as (ps' & st' & Hmws & Hr' & Hrun & Hc). exists ps', st'.
  rewrite mark_words_cons, Hmw. split; [done|]. split; [done|]. split.
  - eapply rtc_l; [|exact Hrun]. by apply (mark_one mem type_info ps [Worker st (p :: ws)] 0 st p ws ps1 st1).
  - rewrite Hst1 in Hc. destruct (fresh ps p), (has_ptr ps p); cbn in *; lia.
Qed.
(** With fuel for the blocks of the stack and those that can still be pushed, [gc_flush_mark]
    ends: it is a run of the steps of one worker, until its stack is empty. *)
Lemma gc_flush_mark_run ps0 roots : typed mem type_info ps0 roots -> forall fuel ps st, mark_inv mem type_info ps0 roots ps [Worker st []] -> Z.of_nat (length st) + unmarked ps <= Z.of_nat fuel ->
  exists ps', gc_flush_mark mem type_info fuel ps st = Some ps' /\ rtc step (ps, [Worker st []]) (ps', [Worker [] []]).
Proof.
  intros Ht. induction fuel as [|fuel IH]; intros ps [|block st] Hinv Hf.
  1, 3: exists ps; split; [done|apply rtc_refl].
  - cbn [length] in Hf. pose proof (unmarked_nonneg ps). lia.
  - destruct (mark_progress mem type_info ps0 roots Ht ps _ Hinv) as ([ps1 ws1] & Hstep); [by intros H; apply Forall_cons in H as [H _]|].
    inversion Hstep as [? ? i st' b words n g Hi Hg Hbw|? ? i st' p words ? st2 Hi Hmw]; subst; destruct i as [|i]; cbn in Hi; try done. injection Hi as <- <-. cbn [list_insert insert] in Hstep. cbn [gc_flush_mark].
    rewrite (scan_block_words _ st block n g words Hg Hbw). destruct (mark_words_run words ps1 st (mi_ready _ _ _ _ _ _ Hinv)) as (ps' & st' & Hmw & Hr' & Hrun & Hc). rewrite Hmw. cbn [mbind option_bind].
    assert (mark_inv mem type_info ps0 roots ps' [Worker st' []]) as Hinv'.
    { cut (forall s s', rtc step s s' -> mark_inv mem type_info ps0 roots s.1 s.2 -> mark_inv mem type_info ps0 roots s'.1 s'.2); [intros Hcut; apply (Hcut _ _ Hrun); exact (step_mark_inv mem type_info ps0 roots _ _ _ _ Hinv Hstep)|].
      induction 1 as [|[a b] [c d] e Hs _ IHr]; [done|]. intros Hi. apply IHr. exact (step_mark_inv mem type_info ps0 roots a b c d Hi Hs). }
    destruct (IH ps' st' Hinv') as (ps'' & Hfl & Hrun2); [cbn [length] in Hf; lia|]. exists ps''. split; [done|]. eapply rtc_l; [exact Hstep|]. by etrans.
Qed.
End one_worker.

(** ** When the words of a block are defined
    The bitmap of a type covers the words of the blocks of that type. *)
Section when_typed.
Context (mem : Z -> Z) (type_info : Z -> option (Z * option (list Z))).
Lemma fast_block_size_total ps p i g r : ready ps -> block_of ps p = Some (i, g, r) -> exists size, gc_allocator_fast_block_size (head g) p = Some size.
Proof.
  intros Hr Hb. destruct (block_of_spec ps p i g r Hr Hb) as (_ & Hg & _ & Hpr & Hrange & -> & Hs). destruct Hpr as [(part & l & Hi) Hsize _ _]. pose proof (pi_pos _ _ _ Hi) as Hpos. unfold gc_allocator_fast_block_size.
  destruct (sizes (head g)) as [s|] eqn:Es; [|by eexists]. destruct (block_id_at part (head g) l r Hi Hsize Hrange) as [Hin _]; [rewrite Es; exact Hs|].
  replace (base (head g) + r * block_size (head g) - base (head g)) with (r * block_size (head g)) by lia. rewrite i32_small by (unfold in_i32, INT_MIN, INT_MAX in *; lia). rewrite Z.quot_mul by lia.
  destruct (aget_is_Some s r) as [n ->]; [rewrite (proj2 (pg_sizes _ _ (pi_ok _ _ _ Hi)) s Es); lia|]. by eexists.
Qed.
(** The bitmap of the type of a block has a bit for each word that is scanned. *)
Definition bitmap_covers (kind p size : Z) : Prop := kind = MEM_KIND_DYNAMIC -> mem p <> 0 -> exists k bits, type_info (mem p) = Some (k, bits) /\
  forall bs, bits = Some bs -> k <> HFUN -> if k =? HENUM then 0 <= i32 (mem (p + 8)) <= alen bs /\ Z.quot size 8 - 2 <= 32 * (alen bs - i32 (mem (p + 8))) else Z.quot size 8 <= 32 * alen bs.
Lemma words_total sc : 0 <= sc_pos sc -> (forall bs, sc_bits sc = Some bs -> sc_end sc <= 32 * alen bs) -> mapM (word_at mem sc) (seqZ (sc_pos sc) (sc_end sc - sc_pos sc)) <> None.
Proof.
  intros Hp Hb H. assert (exists ws, mapM (word_at mem sc) (seqZ (sc_pos sc) (sc_end sc - sc_pos sc)) = Some ws) as [ws Hws]; [|congruence]. clear H. apply mapM_is_Some_2, Forall_forall. intros j Hj. apply elem_of_seqZ in Hj.
  change (is_Some (word_at mem sc j)). unfold word_at. destruct (sc_bits sc) as [bs|]; [|by eexists]. specialize (Hb bs eq_refl). destruct (aget_is_Some bs (Z.shiftr j 5)) as [w ->]; [rewrite shiftr_div by lia; change (2 ^ 5) with 32; z_div|]. by eexists.
Qed.
Lemma covered_words g p size : gc_allocator_fast_block_size (head g) p = Some size -> bitmap_covers (page_kind g) p size -> block_words mem type_info g p <> None.
Proof.
  intros Hsize Hc. unfold block_words. rewrite Hsize. cbn [mbind option_bind]. unfold scan_plan. destruct (Z.eqb_spec (page_kind g) MEM_KIND_DYNAMIC) as [Ek|_]; [|cbn [mbind option_bind]; by apply words_total].
  destruct (Z.eqb_spec (mem p) 0) as [|Hm]; [done|]. destruct (Hc Ek Hm) as (k & bits & -> & Hbits). cbn [mbind option_bind]. destruct bits as [bs|]; [|cbn [mbind option_bind]; by apply words_total].
  specialize (Hbits bs eq_refl). destruct (Z.eqb_spec k HFUN) as [|Hk]; cbn [negb]; [cbn [mbind option_bind]; by apply words_total|]. specialize (Hbits Hk). destruct (Z.eqb_spec k HENUM).
  - destruct Hbits as [H1 H2]. rewrite decide_True by done. cbn [mbind option_bind]. apply words_total; cbn [sc_pos sc_bits sc_end]; [lia|]. intros b [= <-]. unfold alen in *. rewrite length_drop. lia.
  - cbn [mbind option_bind]. apply words_total; cbn [sc_pos sc_bits sc_end]; [lia|]. intros b [= <-]. done.
Qed.
Lemma reach_block ps roots p : reach mem type_info ps roots p -> is_block ps p = true.
Proof. by destruct 1. Qed.
Lemma typed_when ps roots : ready ps -> (forall i g r p size, block_of ps p = Some (i, g, r) -> MEM_HAS_PTR (page_kind g) = true -> gc_allocator_fast_block_size (head g) p = Some size -> bitmap_covers (page_kind g) p size) -> typed mem type_info ps roots.
Proof.
  intros Hr Hall p Hp Hptr i g Hg. apply reach_block in Hp. unfold is_block in Hp. destruct (block_of ps p) as [[[j h] r]|] eqn:Hb; [|done]. destruct (block_of_spec ps p j h r Hr Hb) as (_ & Hg' & _). rewrite Hg in Hg'. injection Hg' as <- <-.
  destruct (fast_block_size_total ps p i g r Hr Hb) as [size Hsize]. apply (covered_words g p size Hsize). apply (Hall i g r p size Hb); [|done]. unfold has_ptr in Hptr. by rewrite Hg in Hptr.
Qed.
End when_typed.
