(* ===== verification/MarkingShare.v ===== *)
(** * Sharing the mark stack among the workers

    [gc_dispatch_mark] splits a mark stack among the workers that have nothing to do; the
    invariant [sharing_inv] relates the active mask, the pending count and the stacks. *)
From S2P Require Import Prelude Allocator AllocatorPage AllocatorMark Marking.

(** ** Growing a stack *)
Lemma land_lnot_1 x : Z.land x (Z.lnot 1) = x - x mod 2.
Proof.
  rewrite <- Z.ldiff_land. change 1 with (Z.ones 1). rewrite Z.ldiff_ones_r by lia. rewrite Z.shiftl_mul_pow2, Z.shiftr_div_pow2 by lia. change (2 ^ 1) with 2. z_div.
Qed.
Definition stack_limit : Z := 2 ^ 28.
Lemma hl_gc_mark_grow_spec size : 256 <= size <= stack_limit -> exists size', hl_gc_mark_grow size = Some size' /\ size * 5 <= size' * 4 /\ size' <= 2 * size.
Proof.
  intros Hs. unfold stack_limit in Hs. unfold hl_gc_mark_grow. destruct (Z.eqb_spec size 0); [lia|]. rewrite int_of_Some by (unfold in_i32, INT_MIN, INT_MAX; lia). cbn [mbind option_bind].
  eexists. split; [done|]. rewrite land_lnot_1, shiftr_div by lia. change (2 ^ 1) with 2. split; z_div.
Qed.
Lemma grow_for_spec push fuel : 0 <= push <= stack_limit -> forall size, 256 <= size -> push * 4 ^ Z.of_nat fuel < size * 5 ^ Z.of_nat fuel -> exists size', grow_for fuel push size = Some size' /\ push < size' /\ 256 <= size'.
Proof.
  intros Hp. induction fuel as [|fuel IH]; intros size Hs Hlt; cbn [grow_for].
  - destruct (Z.leb_spec size push); [lia|]. by exists size.
  - destruct (Z.leb_spec size push); [|by exists size]. destruct (hl_gc_mark_grow_spec size ltac:(lia)) as (size' & -> & H5 & _). cbn [mbind option_bind]. apply IH; [lia|].
    rewrite Nat2Z.inj_succ, !Z.pow_succ_r in Hlt by lia. pose proof (Z.pow_pos_nonneg 5 (Z.of_nat fuel) ltac:(lia) ltac:(lia)). nia.
Qed.
(** The stack of a worker always becomes large enough. *)
Lemma grow_for_total push size : 0 <= push <= stack_limit -> size = 0 \/ 256 <= size -> exists size', grow_for GROW_FUEL push size = Some size' /\ push < size' /\ 256 <= size'.
Proof.
  intros Hp [->|Hs].
  - unfold GROW_FUEL. cbn [grow_for]. destruct (Z.leb_spec 0 push); [|lia]. change (hl_gc_mark_grow 0) with (Some 256). cbn [mbind option_bind]. apply (grow_for_spec push 63 Hp); [lia|]. unfold stack_limit in Hp. change (4 ^ Z.of_nat 63) with (4 ^ 63). change (5 ^ Z.of_nat 63) with (5 ^ 63). lia.
  - apply grow_for_spec; [done|done|]. unfold stack_limit, GROW_FUEL in *. change (4 ^ Z.of_nat 64) with (4 ^ 64). change (5 ^ Z.of_nat 64) with (5 ^ 64). lia.
Qed.

(** ** The active mask *)
Lemma is_active_bit a i : 0 <= i -> is_active a i = Z.testbit a i.
Proof. apply bit_test. Qed.
Lemma activate a i j : 0 <= i < 8 -> 0 <= j < 8 -> is_active (u8 (Z.lor a (u8 (Z.shiftl 1 i)))) j = is_active a j || (j =? i).
Proof.
  intros Hi Hj. rewrite !is_active_bit by lia. unfold uN. rewrite Z.mod_pow2_bits_low, Z.lor_spec by lia. f_equal. rewrite Z.mod_pow2_bits_low by lia. rewrite shiftl_pow2 by lia. destruct (Z.eqb_spec j i) as [->|]; [apply Z.pow2_bits_true; lia|apply Z.pow2_bits_false; lia].
Qed.
Lemma deactivate a i j : 0 <= i < 8 -> 0 <= j < 8 -> is_active (Z.land a (Z.lnot (u8 (Z.shiftl 1 i)))) j = is_active a j && negb (j =? i).
Proof.
  intros Hi Hj. rewrite !is_active_bit by lia. rewrite Z.land_spec, Z.lnot_spec by lia. f_equal. f_equal. unfold uN. rewrite Z.mod_pow2_bits_low by lia. rewrite shiftl_pow2 by lia. destruct (Z.eqb_spec j i) as [->|]; [apply Z.pow2_bits_true; lia|apply Z.pow2_bits_false; lia].
Qed.
Lemma inactive_threads_spec n a : inactive_threads n a = Some (how_many (fun i => negb (is_active a i)) 0 n).
Proof.
  unfold inactive_threads. cut (forall i k, afor (fun i nthreads => Some (if is_active a i then nthreads else nthreads + 1)) n i k = Some (k + how_many (fun i => negb (is_active a i)) i n)); [intros H; by rewrite H|].
  induction n as [|n IH]; intros i k; cbn [afor how_many]; [f_equal; lia|]. cbn [mbind option_bind]. rewrite IH. f_equal. destruct (is_active a i); cbn [negb Z.b2z]; lia.
Qed.
Lemma how_many_split P lo n : how_many P lo n + how_many (fun i => negb (P i)) lo n = Z.of_nat n.
Proof. revert lo. induction n as [|n IH]; intros lo; cbn [how_many]; [done|]. specialize (IH (lo + 1)). destruct (P lo); cbn [negb Z.b2z]; lia. Qed.

(** ** The invariant *)
Definition thread_ok (active : bool) (t : gc_mthread) : Prop :=
  (active = false -> t_stack t = []) /\ (t_size t = 0 \/ 256 <= t_size t) /\ (t_stack t = [] \/ alen (t_stack t) < t_size t).
Fixpoint threads_ok (a i : Z) (ts : list gc_mthread) : Prop := match ts with [] => True | t :: ts => thread_ok (is_active a i) t /\ threads_ok a (i + 1) ts end.
(** Workers that are not active have empty stacks, and the pending count is the number of
    active workers. *)
Record sharing_inv (s : sharing) : Prop := SharingInv {
  si_few : 0 < gc_mark_threads (sh_threads s) <= 8;
  si_active : 0 <= sh_active s < 2 ^ gc_mark_threads (sh_threads s);
  si_threads : threads_ok (sh_active s) 0 (sh_threads s);
  si_pending : sh_pending s = how_many (is_active (sh_active s)) 0 (length (sh_threads s)) }.
(** What the workers that were not active have got. *)
Fixpoint given (a i : Z) (ts : list gc_mthread) : list mark_stack :=
  match ts with [] => [] | t :: ts => if is_active a i then given a (i + 1) ts else t_stack t :: given a (i + 1) ts end.
Lemma threads_ok_ext a b i ts : (forall j, i <= j < i + alen ts -> is_active a j = is_active b j) -> threads_ok a i ts -> threads_ok b i ts.
Proof.
  revert i. induction ts as [|t ts IH]; intros i Hj; [done|]. intros [Ht Hts]. cbn [threads_ok]. rewrite alen_cons in Hj. pose proof (alen_nonneg ts). rewrite <- Hj by lia. split; [done|]. apply IH; [intros j Hr; apply Hj; lia|done].
Qed.
Lemma given_ext a b i ts : (forall j, i <= j < i + alen ts -> is_active a j = is_active b j) -> given a i ts = given b i ts.
Proof. revert i. induction ts as [|t ts IH]; intros i Hj; [done|]. cbn [given]. rewrite alen_cons in Hj. pose proof (alen_nonneg ts). rewrite Hj by lia. rewrite IH by (intros j Hr; apply Hj; lia). done. Qed.
Lemma threads_ok_app a i l1 l2 : threads_ok a i (l1 ++ l2) <-> threads_ok a i l1 /\ threads_ok a (i + alen l1) l2.
Proof.
  revert i. induction l1 as [|t l1 IH]; intros i; cbn [app threads_ok]; [rewrite alen_nil, Z.add_0_r; tauto|]. rewrite IH, alen_cons. replace (i + 1 + alen l1) with (i + (1 + alen l1)) by lia. replace (i + (alen l1 + 1)) with (i + (1 + alen l1)) by lia. tauto.
Qed.

(** ** One dispatch *)
Lemma u8_range x : 0 <= u8 x < 2 ^ 8.
Proof. unfold uN. apply Z.mod_pos_bound. lia. Qed.
Lemma mask_below a n : 0 <= n <= 8 -> 0 <= a < 2 ^ 8 -> (forall j, n <= j < 8 -> is_active a j = false) -> a < 2 ^ n.
Proof.
  intros Hn Ha Hj. replace a with (a mod 2 ^ n); [apply Z.mod_pos_bound; lia|]. apply Z.bits_inj'. intros k Hk. destruct (decide (k < n)).
  - by rewrite Z.mod_pow2_bits_low.
  - rewrite Z.mod_pow2_bits_high by lia. destruct (decide (k < 8)); [rewrite <- is_active_bit by lia; by rewrite Hj by lia|]. rewrite Z.bits_above_log2; [done|lia|]. destruct (decide (a = 0)) as [->|]; [cbn; lia|]. apply Z.log2_lt_pow2; [lia|]. apply Z.lt_le_trans with (2 ^ 8); [lia|]. apply Z.pow_le_mono_r; lia.
Qed.
(** A worker that is not active takes up to [count] blocks from the top of the stack. *)
Record dispatched (count i : Z) (t : gc_mthread) (s : sharing) (t' : gc_mthread) (s' : sharing) : Prop := Dispatched {
  di_stack : if is_active (sh_active s) i then t' = t /\ sh_stack s' = sh_stack s else t_stack t' ++ sh_stack s' = sh_stack s /\ alen (t_stack t') = Z.min count (alen (sh_stack s));
  di_active : forall j, 0 <= j < 8 -> is_active (sh_active s') j = is_active (sh_active s) j || (j =? i);
  di_range : 0 <= sh_active s' < 2 ^ 8;
  di_pending : sh_pending s' = sh_pending s + Z.b2z (negb (is_active (sh_active s) i));
  di_thread : thread_ok true t' }.
Lemma dispatch_to_spec count st l1 t l2 a pending : alen l1 < 8 -> 0 <= a < 2 ^ 8 -> 0 <= count <= stack_limit -> thread_ok (is_active a (alen l1)) t ->
  exists t' s', dispatch_to count (alen l1) (Sharing st (l1 ++ t :: l2) a pending) = Done s' /\ sh_threads s' = l1 ++ t' :: l2 /\ dispatched count (alen l1) t (Sharing st (l1 ++ t :: l2) a pending) t' s'.
Proof.
  intros Hi Ha Hc Ht. pose proof (alen_nonneg l1). pose proof (alen_nonneg st) as Hst. unfold dispatch_to. cbn [sh_active sh_stack sh_threads sh_pending]. destruct (is_active a (alen l1)) eqn:E.
  - exists t, (Sharing st (l1 ++ t :: l2) a pending). split; [done|]. split; [done|]. split; cbn [sh_active sh_stack sh_pending]; rewrite ?E; try done.
    + intros j Hj. destruct (Z.eqb_spec j (alen l1)) as [->|]; [by rewrite E|by rewrite orb_false_r].
    + cbn. lia.
  - set (push := if alen st >? count then count else alen st). assert (push = Z.min count (alen st)) as Hpush by (unfold push; destruct (Z.gtb_spec (alen st) count); lia).
    rewrite aget_mid by done. cbn [ub mbind outcome_bind]. destruct Ht as (H1 & H2 & _). specialize (H1 eq_refl). destruct (grow_for_total push (t_size t) ltac:(lia) H2) as (size & Hg & Hs1 & Hs2). rewrite Hg. cbn [ub mbind outcome_bind].
    rewrite H1, alen_nil. rewrite aset_mid by done. cbn [ub mbind outcome_bind Z.eqb negb]. change (negb (0 =? 0)) with false. cbv iota. rewrite app_nil_r.
    assert (alen (take (Z.to_nat push) st) = push) as Htake by (unfold alen in *; rewrite length_take; lia).
    eexists (MThread _ _), _. split; [done|]. split; [done|]. split; cbn [sh_active sh_stack sh_pending t_stack]; rewrite ?E.
    + split; [apply take_drop|]. by rewrite Htake.
    + intros j Hj. by apply activate.
    + apply u8_range.
    + cbn. lia.
    + split; [done|]. cbn [t_stack t_size]. split; [by right|]. right. by rewrite Htake.
Qed.
Lemma how_many_cons P lo n : how_many P lo (S n) = Z.b2z (P lo) + how_many P (lo + 1) n.
Proof. done. Qed.
(** The loop over the workers: what they get, in order, is the top of the stack. *)
Lemma dispatch_all_spec count : 0 <= count <= stack_limit -> forall l2 l1 st a pending, alen l1 + alen l2 <= 8 -> 0 <= a < 2 ^ 8 -> threads_ok a (alen l1) l2 ->
  exists l2' s', dispatch_all (length l2) count (alen l1) (Sharing st (l1 ++ l2) a pending) = Done s' /\ sh_threads s' = l1 ++ l2' /\ alen l2' = alen l2 /\
    (forall j, 0 <= j < 8 -> is_active (sh_active s') j = is_active a j || ((alen l1 <=? j) && (j <? alen l1 + alen l2))) /\ 0 <= sh_active s' < 2 ^ 8 /\
    sh_pending s' = pending + how_many (fun i => negb (is_active a i)) (alen l1) (length l2) /\ Forall (thread_ok true) l2' /\
    (forall j, alen l1 <= j -> is_active a j = true -> aget (l1 ++ l2') j = aget (l1 ++ l2) j) /\
    concat (given a (alen l1) l2') ++ sh_stack s' = st /\
    alen (sh_stack s') = Z.max 0 (alen st - count * how_many (fun i => negb (is_active a i)) (alen l1) (length l2)).
Proof.
  intros Hc. induction l2 as [|t l2 IH]; intros l1 st a pending Hn Ha Hok; pose proof (alen_nonneg l1).
  - exists [], (Sharing st (l1 ++ []) a pending). pose proof (alen_nonneg st). split; [done|]. split; [done|]. split; [done|]. cbn [sh_active sh_stack sh_pending how_many length]. change (alen (@nil gc_mthread)) with 0. split.
    { intros j Hj. destruct (Z.leb_spec (alen l1) j), (Z.ltb_spec j (alen l1 + 0)); try lia; by rewrite orb_false_r. }
    split; [done|]. split; [lia|]. split; [done|]. split; [done|]. split; [done|]. lia.
  - rewrite alen_cons in Hn. pose proof (alen_nonneg l2). destruct Hok as [Ht Hts]. destruct (dispatch_to_spec count st l1 t l2 a pending ltac:(lia) Ha Hc Ht) as (t' & s1 & Hd & Hth & [Hst Hact Hrange Hpend Hto]).
    cbn [sh_active sh_stack sh_pending] in *. cbn [length dispatch_all]. rewrite Hd. cbn [mbind outcome_bind]. destruct s1 as [st1 ts1 a1 p1]. cbn [sh_active sh_stack sh_pending sh_threads] in *. subst ts1 p1.
    assert (alen (l1 ++ [t']) = alen l1 + 1) as El by alens. rewrite <- El. replace (l1 ++ t' :: l2) with ((l1 ++ [t']) ++ l2) by (by rewrite <- app_assoc).
    assert (forall j, alen l1 + 1 <= j < 8 -> is_active a1 j = is_active a j) as Hsame by (intros j Hj; rewrite Hact by lia; rewrite (proj2 (Z.eqb_neq j (alen l1))) by lia; by rewrite orb_false_r).
    destruct (IH (l1 ++ [t']) st1 a1 (pending + Z.b2z (negb (is_active a (alen l1))))) as (l2' & s' & Hd2 & Hth2 & Hlen2 & Hact2 & Hr2 & Hp2 & Hok2 & Hkeep2 & Hg2 & Hs2); [alens|done|rewrite El; eapply threads_ok_ext; [|exact Hts]; intros j Hj; symmetry; apply Hsame; lia|].
    rewrite El in *. exists (t' :: l2'), s'. split; [exact Hd2|]. split; [by rewrite Hth2, <- app_assoc|]. split; [by rewrite !alen_cons, Hlen2|].
    assert (how_many (fun i => negb (is_active a1 i)) (alen l1 + 1) (length l2) = how_many (fun i => negb (is_active a i)) (alen l1 + 1) (length l2)) as Ehm by (apply how_many_ext; intros j Hj; rewrite Hsame; [done|]; unfold alen in *; lia).
    split; [|split; [done|split; [|split; [|split; [|split]]]]].
    + intros j Hj. rewrite Hact2, Hact, alen_cons by done. destruct (Z.eqb_spec j (alen l1)), (Z.leb_spec (alen l1) j), (Z.leb_spec (alen l1 + 1) j), (Z.ltb_spec j (alen l1 + 1 + alen l2)), (Z.ltb_spec j (alen l1 + (1 + alen l2))); try lia; by rewrite ?orb_true_r, ?orb_false_r, ?orb_assoc.
    + rewrite Hp2, how_many_cons, Ehm. lia.
    + by constructor.
    + intros j Hj Haj. destruct (decide (j = alen l1)) as [->|].
      * rewrite Haj in Hst. destruct Hst as [-> _]. by rewrite !aget_mid.
      * specialize (Hkeep2 j ltac:(lia)). rewrite <- !app_assoc in Hkeep2. cbn [app] in Hkeep2. destruct (decide (j < alen l1 + 1 + alen l2)).
        -- rewrite Hkeep2 by (rewrite Hsame; [done|lia]). rewrite !aget_app_r by lia. rewrite !aget_lookup by lia. replace (Z.to_nat (j - alen l1)) with (S (Z.to_nat (j - alen l1 - 1))) by lia. done.
        -- rewrite !(proj2 (aget_None _ _)); [done|alens..].
    + cbn [given]. rewrite (given_ext a a1) by (intros j Hj; symmetry; apply Hsame; lia). destruct (is_active a (alen l1)); [destruct Hst as [_ <-]; exact Hg2|]. destruct Hst as [Hst _]. cbn [concat]. by rewrite <- app_assoc, Hg2.
    + rewrite Hs2, how_many_cons, Ehm. pose proof (how_many_nonneg (fun i => negb (is_active a i)) (alen l1 + 1) (length l2)) as Hnn. pose proof (alen_nonneg st). destruct (is_active a (alen l1)); cbn [negb Z.b2z]; destruct Hst as [E1 E2].
      * by rewrite E2.
      * assert (alen st = alen (t_stack t') + alen st1) as E by (rewrite <- E1; alens). nia.
Qed.

Lemma how_many_full P n : how_many P 0 n = Z.of_nat n -> forall i, 0 <= i < Z.of_nat n -> P i = true.
Proof.
  intros H i Hi. pose proof (how_many_split P 0 n) as Hs. assert (how_many (fun i => negb (P i)) 0 n = 0) as H0 by lia. pose proof (how_many_zero _ _ _ H0 i ltac:(lia)) as Hz. cbn in Hz. by apply negb_false_iff.
Qed.
Lemma ones_bits n i : 0 <= i < n -> is_active (Z.shiftl 1 n - 1) i = true.
Proof. intros Hi. rewrite is_active_bit, shiftl_pow2 by lia. replace (2 ^ n - 1) with (Z.ones n) by (rewrite Z.ones_equiv; lia). apply Z.ones_spec_low; lia. Qed.
Lemma given_active a i ts : (forall j, i <= j < i + alen ts -> is_active a j = true) -> given a i ts = [].
Proof. revert i. induction ts as [|t ts IH]; intros i Hj; [done|]. rewrite alen_cons in Hj. pose proof (alen_nonneg ts). cbn [given]. rewrite Hj by lia. apply IH. intros j Hr. apply Hj. lia. Qed.
Lemma given_idle a i ts : threads_ok a i ts -> concat (given a i ts) = [].
Proof. revert i. induction ts as [|t ts IH]; intros i; [done|]. intros [[Ht _] Hts]. cbn [given]. destruct (is_active a i); [by apply IH|]. cbn [concat]. by rewrite Ht, IH. Qed.
Lemma threads_ok_all a i ts : (forall j, i <= j < i + alen ts -> is_active a j = true) -> Forall (thread_ok true) ts -> threads_ok a i ts.
Proof. revert i. induction ts as [|t ts IH]; intros i Hj Hf; [done|]. rewrite alen_cons in Hj. pose proof (alen_nonneg ts). apply Forall_cons in Hf as [Ht Hf]. split; [by rewrite Hj by lia|]. apply IH; [intros j Hr; apply Hj; lia|done]. Qed.
Lemma dispatch_count_range all total n : 0 <= total <= stack_limit -> 0 < n <= 8 -> 0 <= dispatch_count all total n <= stack_limit /\ (all = true -> total <= dispatch_count all total n * n).
Proof. intros Ht Hn. unfold stack_limit in *. unfold dispatch_count. destruct all; rewrite Z.quot_div_nonneg by lia; (assert (n = 1 \/ n = 2 \/ n = 3 \/ n = 4 \/ n = 5 \/ n = 6 \/ n = 7 \/ n = 8) as Hcases by lia); destruct Hcases as [->|[->|[->|[->|[->|[->|[->| ->]]]]]]]; (split; [z_div|]; intros E; (discriminate E || z_div)). Qed.
(** What a dispatch gives back, when something is shared or not. *)
Record shares (all : bool) (s s' : sharing) : Prop := Shares {
  ss_inv : sharing_inv s';
  ss_split : concat (given (sh_active s) 0 (sh_threads s')) ++ sh_stack s' = sh_stack s;
  ss_kept : forall i, is_active (sh_active s) i = true -> aget (sh_threads s') i = aget (sh_threads s) i;
  ss_all : all = true -> sh_active s = 0 -> sh_stack s' = [] }.
Lemma shares_none all s : sharing_inv s -> (all = true -> sh_active s = 0 -> sh_stack s = []) -> shares all s s.
Proof. intros Hi Ha. split; try done. by rewrite given_idle by apply Hi. Qed.
Lemma gc_dispatch_mark_spec all s : sharing_inv s -> alen (sh_stack s) <= stack_limit -> (all = true -> sh_active s = 0) -> exists s', gc_dispatch_mark all s = Done s' /\ shares all s s'.
Proof.
  intros Hinv Hst Hall. pose proof Hinv as [Hfew Hact Hth Hpend]. destruct s as [st ts a p]. cbn [sh_stack sh_threads sh_active sh_pending] in *. unfold gc_mark_threads in *. pose proof (alen_nonneg st). unfold gc_dispatch_mark. cbn [sh_threads sh_active sh_stack]. unfold gc_mark_threads.
  assert (2 ^ alen ts <= 2 ^ 8) as Hp8 by (apply Z.pow_le_mono_r; lia). destruct (Z.eqb_spec a (Z.shiftl 1 (alen ts) - 1)) as [Ea|Ea].
  { exists (Sharing st ts a p). split; [done|]. apply shares_none; [done|]. cbn. intros Ht Ha. exfalso. rewrite Ha, shiftl_pow2 in Ea by lia. pose proof (Z.pow_lt_mono_r 2 0 (alen ts) ltac:(lia) ltac:(lia) ltac:(lia)). lia. }
  replace (Z.to_nat (alen ts)) with (length ts) by (unfold alen; lia). rewrite inactive_threads_spec. cbn [ub mbind outcome_bind]. pose proof (how_many_split (is_active a) 0 (length ts)) as Hsplit. pose proof (how_many_nonneg (is_active a) 0 (length ts)) as Hnn. pose proof (how_many_nonneg (fun i => negb (is_active a i)) 0 (length ts)) as Hnn2.
  set (idle := how_many (fun i => negb (is_active a i)) 0 (length ts)) in *. assert (Z.of_nat (length ts) = alen ts) as Hlen by done. destruct (Z.eqb_spec idle 0) as [E0|E0].
  { exists (Sharing st ts a p). split; [done|]. apply shares_none; [done|]. cbn. intros Ht Ha. exfalso. subst a. assert (how_many (is_active 0) 0 (length ts) = 0) by (apply how_many_none; intros i Hi; rewrite is_active_bit by lia; apply Z.testbit_0_l). lia. }
  destruct (dispatch_count_range all (alen st) idle) as [Hcr Hca]; [lia|lia|]. set (count := dispatch_count all (alen st) idle) in *. destruct (Z.eqb_spec count 0) as [Ec|Ec].
  { exists (Sharing st ts a p). split; [done|]. apply shares_none; [done|]. cbn. intros Ht _. specialize (Hca Ht). destruct st; [done|]. rewrite alen_cons in *. pose proof (alen_nonneg st). lia. }
  destruct (dispatch_all_spec count Hcr ts [] st a p) as (ts' & s' & Hd & Hts' & Hlen' & Hact' & Hr' & Hp' & Hok' & Hkeep & Hgiven & Hrest); [change (alen (@nil gc_mthread)) with 0; lia|lia|exact Hth|]. cbn [app] in *. change (alen (@nil gc_mthread)) with 0 in *. rewrite Hd. cbn [mbind outcome_bind].
  assert ((all && negb (idle =? alen ts)) = false) as ->.
  { destruct all; [|done]. rewrite (Hall eq_refl) in *. assert (how_many (is_active 0) 0 (length ts) = 0) as Hz by (apply how_many_none; intros i Hi; rewrite is_active_bit by lia; apply Z.testbit_0_l). rewrite (proj2 (Z.eqb_eq idle (alen ts))) by lia. done. }
  assert (forall j, 0 <= j < alen ts -> is_active (sh_active s') j = true) as Hall' by (intros j Hj; rewrite Hact' by lia; destruct (Z.leb_spec 0 j), (Z.ltb_spec j (0 + alen ts)); try lia; by rewrite orb_true_r).
  exists s'. split; [done|]. split; cbn [sh_active sh_threads sh_stack].
  - split; rewrite ?Hts'; unfold gc_mark_threads; rewrite ?Hlen'.
    + done.
    + split; [lia|]. apply mask_below; [lia|done|]. intros j Hj. rewrite Hact' by lia. destruct (Z.ltb_spec j (0 + alen ts)); [lia|]. rewrite andb_false_r, orb_false_r. rewrite is_active_bit by lia. destruct (decide (a = 0)) as [->|]; [apply Z.testbit_0_l|]. apply Z.bits_above_log2; [lia|]. apply Z.lt_le_trans with (alen ts); [|lia]. apply Z.log2_lt_pow2; lia.
    + apply threads_ok_all; [intros j Hj; apply Hall'; lia|done].
    + rewrite Hp', Hpend. assert (length ts' = length ts) as -> by (unfold alen in Hlen'; lia). fold idle. rewrite (how_many_ext (is_active (sh_active s')) (fun _ => true)) by (intros i Hi; apply Hall'; lia). rewrite <- (how_many_split (fun _ => true) 0 (length ts)) in Hsplit. cbn [negb] in Hsplit. rewrite (how_many_none (fun _ => false)) in Hsplit by done. lia.
  - by rewrite Hts'.
  - intros i Hi. rewrite Hts'. destruct (decide (0 <= i)); [by apply Hkeep|]. by rewrite !(proj2 (aget_None _ _)) by lia.
  - intros Ht Ha. specialize (Hca Ht). assert (alen (sh_stack s') = 0) as Hz by lia. destruct (sh_stack s') as [|x l]; [done|]. rewrite alen_cons in Hz. pose proof (alen_nonneg l). lia.
Qed.
(** The end of a worker's turn: it was active with an empty stack. *)
Lemma threads_ok_at a i ts j t : threads_ok a i ts -> aget ts j = Some t -> thread_ok (is_active a (i + j)) t.
Proof.
  revert i j. induction ts as [|u ts IH]; intros i j Hok Hj; pose proof (aget_Some_range _ _ _ Hj) as Hr; [unfold alen in Hr; cbn [length] in Hr; lia|]. destruct Hok as [Hu Hts]. rewrite alen_cons in Hr. rewrite aget_lookup in Hj by lia. destruct (decide (j = 0)) as [->|].
  - injection Hj as <-. by rewrite Z.add_0_r.
  - replace (Z.to_nat j) with (S (Z.to_nat (j - 1))) in Hj by lia. change (ts !! Z.to_nat (j - 1) = Some t) in Hj. rewrite <- aget_lookup in Hj by lia. replace (i + j) with (i + 1 + (j - 1)) by lia. by apply IH.
Qed.
Lemma threads_ok_intro a i ts : (forall j t, aget ts j = Some t -> thread_ok (is_active a (i + j)) t) -> threads_ok a i ts.
Proof.
  revert i. induction ts as [|u ts IH]; intros i H; [done|]. split; [rewrite <- (Z.add_0_r i); by apply H|]. apply IH. intros j t Hj. pose proof (aget_Some_range _ _ _ Hj). replace (i + 1 + j) with (i + (1 + j)) by lia. apply H. rewrite aget_lookup in Hj |- * by lia. by replace (Z.to_nat (1 + j)) with (S (Z.to_nat j)) by lia.
Qed.
Lemma land_below a m : 0 <= a -> Z.land a m <= a.
Proof.
  intros Ha. apply (Z.ldiff_le (Z.land a m) a Ha). apply Z.bits_inj'. intros k Hk. rewrite Z.ldiff_spec, Z.land_spec, Z.bits_0. by destruct (Z.testbit a k), (Z.testbit m k).
Qed.
Lemma worker_done_spec i t s : sharing_inv s -> is_active (sh_active s) i = true -> aget (sh_threads s) i = Some t -> t_stack t = [] -> exists s', worker_done i s = Done s' /\ sharing_inv s'.
Proof.
  intros [Hfew Hact Hth Hpend] Hi Ht Hempty. unfold gc_mark_threads in *. pose proof (aget_Some_range _ _ _ Ht) as Hr. unfold worker_done. rewrite Hi. cbn [negb orb].
  assert (2 ^ alen (sh_threads s) <= 2 ^ 8) as Hp8 by (apply Z.pow_le_mono_r; lia). assert (Z.of_nat (length (sh_threads s)) = alen (sh_threads s)) as Hlen by done.
  assert (forall j, 0 <= j < 8 -> is_active (Z.land (sh_active s) (Z.lnot (u8 (Z.shiftl 1 i)))) j = is_active (sh_active s) j && negb (j =? i)) as Hbits by (intros j Hj; apply deactivate; lia).
  pose proof (how_many_update (is_active (sh_active s)) (is_active (Z.land (sh_active s) (Z.lnot (u8 (Z.shiftl 1 i))))) (length (sh_threads s)) i Hi) as Hu.
  specialize (Hu ltac:(rewrite Hbits, Z.eqb_refl by lia; apply andb_false_r) 0 ltac:(lia)). specialize (Hu ltac:(intros j Hj Hne; rewrite Hbits, (proj2 (Z.eqb_neq j i) Hne) by lia; apply andb_true_r)). pose proof (how_many_nonneg (is_active (Z.land (sh_active s) (Z.lnot (u8 (Z.shiftl 1 i))))) 0 (length (sh_threads s))).
  destruct (Z.leb_spec (sh_pending s) 0); [lia|]. eexists. split; [done|]. split; cbn [sh_threads sh_active sh_pending]; unfold gc_mark_threads; [done| | |lia].
  - assert (0 <= Z.land (sh_active s) (Z.lnot (u8 (Z.shiftl 1 i)))) by (apply Z.land_nonneg; lia). split; [done|]. pose proof (land_below (sh_active s) (Z.lnot (u8 (Z.shiftl 1 i)))). lia.
  - apply threads_ok_intro. intros j u Hj. pose proof (aget_Some_range _ _ _ Hj). rewrite Z.add_0_l, Hbits by lia. destruct (threads_ok_at _ 0 _ _ _ Hth Hj) as (Hemp & Hsz & Hfit). split; [|done]. intros Ha. apply andb_false_iff in Ha as [Ha|Ha]; [by apply Hemp|]. apply negb_false_iff, Z.eqb_eq in Ha. subst j. congruence.
Qed.
