(* ===== verification/MarkingProps.v ===== *)
(** * What marking guarantees *)
From S2P Require Import Prelude Reader Types TypesProps Layout Allocator AllocatorPage AllocatorAlloc AllocatorHeap AllocatorMark AllocatorSound AllocatorProps Marking MarkingSound MarkingShare PageMap.

(** ** The roots *)
(** What keeps blocks alive: the values of the roots and the blocks the words of the stacks point into. *)
Definition root_set (ps : list gpage) (roots stacks : list Z) (q : Z) : Prop := q ∈ roots \/ exists w, w ∈ stacks /\ q = stack_target ps w.
(** The pages when marking starts, after [gc_allocator_before_mark]. *)
Record marking_starts (mem : Z -> Z) (type_info : Z -> option (Z * option (list Z))) (ps : list gpage) (roots stacks : list Z) : Prop := MarkingStarts {
  ms_ready : Forall page_ready ps;
  ms_apart : apart_pages ps;
  ms_none : forall q, marked_at ps q = false;
  ms_typed : typed mem type_info ps (root_set ps roots stacks) }.
Section starts.
Context mem type_info ps roots stacks (Hs : marking_starts mem type_info ps roots stacks).
Lemma roots_done : exists ps1 st, mark_words ps [] roots ≫= (fun '(ps, st) => gc_mark_stack ps st stacks) = Some (ps1, st) /\ root_inv ps (root_set ps roots stacks) ps1 st.
Proof.
  destruct Hs as [Hr Ha Hn Ht]. assert (root_inv ps (fun _ => False) ps []) as H0.
  { split; [done|apply same_pages_refl|intros q; rewrite Hn; split; [done|tauto]| |cbn; lia]. intros q. rewrite Hn. split; [intros H; by apply not_elem_of_nil in H|by intros [? _]]. }
  destruct (mark_words_roots ps roots _ _ _ H0) as (ps1 & st1 & Hm & H1). destruct (gc_mark_stack_roots ps stacks _ _ _ Ha H1) as (ps2 & st2 & Hm2 & H2). exists ps2, st2. rewrite Hm. split; [exact Hm2|].
  destruct H2 as [Hr2 Hs2 Hm3 Hst Hc]. split; try done. intros q. rewrite Hm3. unfold root_set. tauto.
Qed.
Lemma workers_start ps1 st n : root_inv ps (root_set ps roots stacks) ps1 st -> mark_inv mem type_info ps (root_set ps roots stacks) ps1 (Worker st [] :: replicate n (Worker [] [])).
Proof. intros H. apply (root_inv_start mem type_info ps (root_set ps roots stacks) _ (root_set ps roots stacks)); try done. apply Forall_replicate. done. Qed.
(** The steps of the workers, and sharing. *)
Definition any_step (s s' : list gpage * list worker) : Prop := mark_step mem type_info s s' \/ dispatch_step s s'.
Lemma any_step_inv s s' : rtc any_step s s' -> mark_inv mem type_info ps (root_set ps roots stacks) s.1 s.2 -> mark_inv mem type_info ps (root_set ps roots stacks) s'.1 s'.2.
Proof.
  induction 1 as [|[a b] [c d] e [Hstep|Hstep] _ IH]; [done| |]; intros Hi; apply IH; [exact (step_mark_inv _ _ _ _ _ _ _ _ Hi Hstep)|exact (dispatch_mark_inv _ _ _ _ _ _ _ _ Hi Hstep)].
Qed.
End starts.
(** A step of a worker after any sharing. *)
Definition mark_round mem type_info (s s' : list gpage * list worker) : Prop := exists m, rtc dispatch_step s m /\ mark_step mem type_info m s'.
Lemma dispatch_sizes ps ws ps' ws' : dispatch_step (ps, ws) (ps', ws') -> ps' = ps /\ stack_size ws' = stack_size ws /\ words_size ws' = words_size ws.
Proof.
  intros Hstep. inversion Hstep as [? ? i j a b words Hne Hi Hj]; subst. split; [done|]. destruct (worker_split (<[i := Worker b words]> ws) j (Worker [] [])) as (l1 & l2 & E & Hins); [rewrite list_lookup_insert_ne by done; exact Hj|]. rewrite Hins.
  destruct (worker_split ws i _ Hi) as (k1 & k2 & E2 & Hins2). rewrite Hins2 in E. destruct (size_mid l1 (Worker a []) l2) as [-> ->]. destruct (size_mid l1 (Worker [] []) l2) as [H1 H2]. rewrite <- E in H1. rewrite <- E in H2.
  destruct (size_mid k1 (Worker b words) k2) as [H3 H4]. rewrite E2. destruct (size_mid k1 (Worker (a ++ b) words) k2) as [-> ->]. cbn [w_stack w_words length] in *. rewrite length_app. lia.
Qed.
Lemma dispatches_sizes s s' : rtc dispatch_step s s' -> s'.1 = s.1 /\ stack_size s'.2 = stack_size s.2 /\ words_size s'.2 = words_size s.2.
Proof. induction 1 as [|[a b] [c d] e Hstep _ IH]; [done|]. apply dispatch_sizes in Hstep as (-> & H1 & H2). cbn in IH |- *. destruct IH as (-> & -> & ->). done. Qed.
Lemma rounds_end mem type_info ps0 roots s : mark_inv mem type_info ps0 roots s.1 s.2 -> Acc (fun s' s => mark_round mem type_info s s') s.
Proof.
  destruct s as [ps ws]. cbn [fst snd]. remember (Z.to_nat (unmarked ps)) as n eqn:En. revert ps ws En. induction n as [n IHn] using lt_wf_ind. intros ps ws En. remember (stack_size ws) as m eqn:Em. revert ps ws En Em. induction m as [m IHm] using lt_wf_ind. intros ps ws En Em.
  remember (words_size ws) as k eqn:Ek. revert ps ws En Em Ek. induction k as [k IHk] using lt_wf_ind. intros ps ws En Em Ek Hinv. constructor. intros [ps' ws'] ([ps1 ws1] & Hd & Hstep).
  assert (mark_inv mem type_info ps0 roots ps1 ws1) as Hinv1.
  { cut (forall s s', rtc dispatch_step s s' -> mark_inv mem type_info ps0 roots s.1 s.2 -> mark_inv mem type_info ps0 roots s'.1 s'.2); [intros Hcut; exact (Hcut _ _ Hd Hinv)|]. induction 1 as [|[a b] [c d] e Hs _ IH]; [done|]. intros Hi. apply IH. exact (dispatch_mark_inv _ _ _ _ _ _ _ _ Hi Hs). }
  destruct (dispatches_sizes _ _ Hd) as (E1 & E2 & E3). cbn [fst snd] in *. subst ps1. pose proof (step_mark_inv _ _ _ _ _ _ _ _ Hinv1 Hstep) as Hinv'. pose proof (unmarked_nonneg ps'). pose proof (unmarked_nonneg ps).
  destruct (step_smaller _ _ _ _ _ _ _ _ Hinv1 Hstep) as [Hlt|[Heq [Hlt|[Heq2 Hlt]]]].
  - apply (IHn (Z.to_nat (unmarked ps'))); [lia|done|done].
  - apply (IHm (stack_size ws')); [lia|lia|done|done].
  - apply (IHk (words_size ws')); [lia|lia|lia|done|done].
Qed.

(** ** An example: a page of eight 8 KB blocks
    The object at block 0 has two blocks and a type whose bitmap says that word 1 is a
    pointer; it points to the object at block 2, whose type is not set. *)
Definition ex_clear : gc_pheader := Page 65536 65536 (Some [0]) 8192 13 8 0 (Fl 0 1 1 [(3, 5); ex_junk]) (Some [2; 0; 1; 0; 0; 0; 0; 0]) true.
Definition ex_pages : list gpage := [GPage ex_clear MEM_KIND_DYNAMIC].
Definition ex_mem (a : Z) : Z := if a =? 65536 then 100 else if a =? 65544 then 81920 else 0.
Definition ex_type (t : Z) : option (Z * option (list Z)) := if t =? 100 then Some (HOBJ, Some (2 :: replicate 63 0)) else None.
Lemma ex_clear_inv : page_inv 7 ex_clear ex_items.
Proof.
  destruct ex_var_inv as [[H1 H2 H3 H4 _] H5 H6 H7 H8 H9 H10 _]. split; try done.
  - split; try done. split; [|done]. intros b [= <-]. split; [done|]. repeat constructor; lia.
  - intros _ b [= <-] p Hp Hm. cbn in Hp. destruct (below_8 p Hp) as [->|[->|[->|[->|[->|[->|[->| ->]]]]]]]; discriminate Hm.
Qed.
Lemma ex_ready : Forall page_ready ex_pages.
Proof. constructor; [|constructor]. split; [exists 7, ex_items; exact ex_clear_inv|vm_compute; congruence|done|done]. Qed.
Lemma ex_no_marks q : marked_at ex_pages q = false.
Proof.
  unfold marked_at. destruct (block_of ex_pages q) as [[[i g] r]|] eqn:E; [|done]. destruct (block_of_spec _ _ _ _ _ ex_ready E) as (_ & Hg & _ & _ & Hr & _ & _). apply get_page_lookup in Hg as [Hg _].
  apply list_elem_of_lookup_2, list_elem_of_singleton in Hg. subst g. cbn in Hr |- *. destruct (below_8 r Hr) as [->|[->|[->|[->|[->|[->|[->| ->]]]]]]]; reflexivity.
Qed.
Lemma ex_typed roots : typed ex_mem ex_type ex_pages roots.
Proof.
  apply typed_when; [exact ex_ready|]. intros i g r p size Hb _ Hsize _ Hm. destruct (block_of_spec _ _ _ _ _ ex_ready Hb) as (_ & Hg & _ & _ & Hr & -> & _). apply get_page_lookup in Hg as [Hg _]. apply list_elem_of_lookup_2, list_elem_of_singleton in Hg. subst g.
  cbn [head ex_clear base block_size max_blocks] in *. destruct (below_8 r Hr) as [->|[->|[->|[->|[->|[->|[->| ->]]]]]]]; try (exfalso; apply Hm; reflexivity).
  assert (size = 16384) as -> by (vm_compute in Hsize; congruence). exists HOBJ, (Some (2 :: replicate 63 0)). split; [reflexivity|]. intros bs [= <-] _. vm_compute. congruence.
Qed.
Lemma ex_starts : marking_starts ex_mem ex_type ex_pages [65536] [65636; 7].
Proof. split; [exact ex_ready|by split|exact ex_no_marks|apply ex_typed]. Qed.

(** C8. Parallel marking ends and marks what is reachable.  From the roots and the stacks, with
    any number of workers, in any order of their steps and of the sharing of their stacks:
    while a worker has something left a step is possible, there is no infinite sequence of
    steps, and when no worker has anything left a block is marked exactly when it is
    reachable from the roots. *)
Theorem marking_finds_reachable mem type_info ps roots stacks n : marking_starts mem type_info ps roots stacks ->
  exists ps1 st, mark_words ps [] roots ≫= (fun '(ps, st) => gc_mark_stack ps st stacks) = Some (ps1, st) /\
    forall s, rtc (any_step mem type_info) (ps1, Worker st [] :: replicate n (Worker [] [])) s ->
      (finished s.2 -> forall q, marked_at s.1 q = true <-> reach mem type_info ps (root_set ps roots stacks) q) /\
      (~ finished s.2 -> exists s', mark_step mem type_info s s') /\
      Acc (fun s' s => mark_round mem type_info s s') s.
Proof.
  intros Hs. destruct (roots_done _ _ _ _ _ Hs) as (ps1 & st & Hm & Hi). exists ps1, st. split; [exact Hm|]. intros s Hrun.
  assert (mark_inv mem type_info ps (root_set ps roots stacks) s.1 s.2) as Hinv by (eapply any_step_inv; [exact Hrun|]; by apply workers_start). split; [|split].
  - by apply finished_marks.
  - destruct s as [ps' ws']. apply (mark_progress mem type_info ps (root_set ps roots stacks)); [by apply Hs|done].
  - by apply (rounds_end mem type_info ps (root_set ps roots stacks)).
Qed.
Theorem marking_finds_reachable_witness : marking_starts ex_mem ex_type ex_pages [65536] [65636; 7] /\
  exists ps1 st, mark_words ex_pages [] [65536] ≫= (fun '(ps, st) => gc_mark_stack ps st [65636; 7]) = Some (ps1, st) /\ st = [65536] /\
    forall s, rtc (any_step ex_mem ex_type) (ps1, Worker st [] :: replicate 3 (Worker [] [])) s -> finished s.2 -> marked_at s.1 81920 = true <-> reach ex_mem ex_type ex_pages (root_set ex_pages [65536] [65636; 7]) 81920.
Proof.
  split; [exact ex_starts|]. destruct (marking_finds_reachable ex_mem ex_type ex_pages [65536] [65636; 7] 3 ex_starts) as (ps1 & st & Hm & Hall). exists ps1, st. split; [exact Hm|].
  split; [vm_compute in Hm; congruence|]. intros s Hrun Hf. destruct (Hall s Hrun) as [H _]. by apply H.
Defined.
(** Marking with one worker. *)
Lemma gc_mark_spec mem type_info fuel ps roots stacks : marking_starts mem type_info ps roots stacks -> unmarked ps <= Z.of_nat fuel ->
  exists ps', gc_mark mem type_info fuel ps roots stacks = Some ps' /\ Forall page_ready ps' /\ same_pages ps ps' /\ forall q, marked_at ps' q = true <-> reach mem type_info ps (root_set ps roots stacks) q.
Proof.
  intros Hs Hf. destruct (roots_done _ _ _ _ _ Hs) as (ps1 & st & Hm & Hi). pose proof (workers_start mem type_info ps roots stacks ps1 st 0 Hi) as Hinv. cbn [replicate] in Hinv.
  destruct (gc_flush_mark_run mem type_info ps _ (ms_typed _ _ _ _ _ Hs) fuel ps1 st Hinv) as (ps' & Hfl & Hrun); [pose proof (ri_count _ _ _ _ Hi); lia|]. exists ps'.
  assert (mark_inv mem type_info ps (root_set ps roots stacks) ps' [Worker [] []]) as Hinv'.
  { apply (any_step_inv mem type_info ps roots stacks (ps1, [Worker st []]) (ps', [Worker [] []])); [|exact Hinv]. clear -Hrun. induction Hrun as [|x y z Hxy _ IH]; [apply rtc_refl|]. eapply rtc_l; [left; exact Hxy|exact IH]. }
  split; [|split; [apply Hinv'|split; [apply Hinv'|]]].
  - unfold gc_mark. destruct (mark_words ps [] roots) as [[ps2 st2]|]; [|done]. cbn [mbind option_bind] in Hm |- *. rewrite Hm. exact Hfl.
  - apply (finished_marks mem type_info _ _ _ _ Hinv'). by apply Forall_singleton.
Qed.

(** ** One collection *)
Lemma marks_of_page ps i g part l b r n : Forall page_ready ps -> apart_pages ps -> ps !! i = Some g -> page_inv part (head g) l -> bmp (head g) = Some b -> Obj r n ∈ l ->
  marked_at ps (base (head g) + r * block_size (head g)) = is_marked b r.
Proof.
  intros Hr Ha Hg Hi Hb Ho. assert (page_ready g) as [_ Hsize Hbase _] by (rewrite Forall_forall in Hr; by apply Hr, (list_elem_of_lookup_2 _ i)). pose proof (pi_pos _ _ _ Hi) as Hpos. pose proof (pg_range _ _ (pi_ok _ _ _ Hi)) as Hrange.
  destruct (covers_in _ _ _ _ (pg_covers _ _ (pi_ok _ _ _ Hi)) Ho) as (H1 & H2 & H3). cbn in H1, H2, H3.
  destruct (block_id_at part (head g) l r Hi Hsize) as [Hin Hid]; [lia|intros s Hs; destruct (obj_size part (head g) l s Hi Hs r n Ho) as (E & Hn & Hf & _); split; [done|congruence]|].
  unfold marked_at, block_of. rewrite (proj2 (Z.eqb_neq _ 0)) by nia. rewrite (get_page_apart ps i g _ Ha Hg) by by apply INPAGE_spec. cbn [mbind option_bind]. rewrite Hid. cbn [mbind option_bind]. destruct (Z.geb_spec r 0); [|lia]. by rewrite Hb.
Qed.
Lemma kept_exists b l e lo r n q : covers lo l e -> Obj r n ∈ l -> r <= q < r + n -> Exists (in_blocks q) (kept b (objs l)) <-> is_marked b r = true.
Proof.
  intros Hc Ho Hq. rewrite Exists_exists. split.
  - intros ([r' n'] & Hin & Hq'). apply list_elem_of_filter in Hin as [Hm Hin]. apply objs_in in Hin. assert (Obj r n = Obj r' n') as E by (apply (covers_unique _ _ _ _ _ q Hc Ho Hin); [done|exact Hq']). by injection E as -> ->.
  - intros Hm. exists (r, n). split; [|done]. apply list_elem_of_filter. split; [done|]. by apply objs_in.
Qed.
(** C3. A collection frees exactly what is unreachable.  After marking with one worker, with fuel
    for the blocks not marked yet, rebuilding the free runs of any page makes each block of
    each object free when the object is not reachable from the roots and keeps it when it is. *)
Theorem collection_frees_the_unreachable junk mem type_info fuel ps roots stacks : marking_starts mem type_info ps roots stacks -> unmarked ps <= Z.of_nat fuel ->
  exists ps', gc_mark mem type_info fuel ps roots stacks = Some ps' /\
    forall i g, ps' !! i = Some g -> (exists part l, page_inv part (head g) l) /\ forall part l, page_inv part (head g) l ->
      exists ph, flush_free_list junk (head g) = Some ph /\ forall r n q, Obj r n ∈ l -> r <= q < r + n ->
        Exists (in_blocks q) (fl_runs (free ph)) <-> ~ reach mem type_info ps (root_set ps roots stacks) (base (head g) + r * block_size (head g)).
Proof.
  intros Hs Hf. destruct (gc_mark_spec mem type_info fuel ps roots stacks Hs Hf) as (ps' & Hm & Hr & Hsame & Hmarks). exists ps'. split; [exact Hm|]. intros i g Hg. assert (page_ready g) as Hp by (rewrite Forall_forall in Hr; by apply Hr, (list_elem_of_lookup_2 _ i)).
  split; [apply Hp|]. intros part l Hi. destruct (pr_bmp _ Hp) as [Hn Hb]. destruct (bmp (head g)) as [b|] eqn:Eb; [|done]. destruct (flush_frees_spec junk part (head g) l b Hi Hn Eb) as (ph & Hfl & _ & Hfree). exists ph. split; [exact Hfl|].
  intros r n q Ho Hq. pose proof (pg_covers _ _ (pi_ok _ _ _ Hi)) as Hc. destruct (covers_in _ _ _ _ Hc Ho) as (H1 & H2 & _). cbn in H1, H2. rewrite Hfree by lia. rewrite (kept_exists b l _ _ r n q Hc Ho Hq).
  by rewrite <- Hmarks, (marks_of_page ps' i g part l b r n Hr (apart_pages_same _ _ Hsame (ms_apart _ _ _ _ _ Hs)) Hg Hi Eb Ho).
Qed.

Theorem collection_frees_the_unreachable_witness : marking_starts ex_mem ex_type ex_pages [65536] [65636; 7] /\ unmarked ex_pages = 8 /\
  option_map (map (fun g => bmp (head g))) (gc_mark ex_mem ex_type 8 ex_pages [65536] [65636; 7]) = Some [Some [5]] /\
  option_map (map (fun g => bmp (head g))) (gc_mark ex_mem ex_type 8 ex_pages [] [81920 + 9]) = Some [Some [4]] /\
  exists ps', gc_mark ex_mem ex_type 8 ex_pages [65536] [65636; 7] = Some ps' /\ forall i g, ps' !! i = Some g -> exists part l, page_inv part (head g) l.
Proof.
  split; [exact ex_starts|]. split; [vm_compute; reflexivity|]. split; [vm_compute; reflexivity|]. split; [vm_compute; reflexivity|].
  destruct (collection_frees_the_unreachable ex_junk ex_mem ex_type 8 ex_pages [65536] [65636; 7] ex_starts) as (ps' & Hm & Hall); [vm_compute; congruence|]. exists ps'. split; [exact Hm|]. intros i g Hg. by destruct (Hall i g Hg) as [H _].
Defined.

(** ** The pages of the model and the page map *)
Lemma get_page_none ps p i g : get_page ps p = None -> ps !! i = Some g -> INPAGE p g = false.
Proof.
  revert i. induction ps as [|h ps IH]; intros i; [done|]. cbn [get_page]. destruct (INPAGE p h) eqn:E; [done|]. destruct (get_page ps p) as [[j k]|] eqn:Eg; [done|]. intros _. destruct i as [|i]; [by intros [= ->]|]. by apply IH.
Qed.
(** Searching the list of pages gives what the page map gives, when the map has the pages of
    the list under the addresses of their headers. *)
Lemma get_page_is_the_map s ps header p : map_ok s -> 0 <= p -> (forall h b n, pages s !! h = Some (b, n) <-> exists i g, ps !! i = Some g /\ header i = h /\ b = base (head g) /\ n = page_size (head g)) ->
  hl_gc_get_page s p = option_map (fun '(i, _) => header i) (get_page ps p).
Proof.
  intros Hok Hp Hpages. destruct (get_page ps p) as [[i g]|] eqn:E; cbn [option_map].
  - apply get_page_lookup in E as [Hi Hin%INPAGE_spec]. apply hl_gc_get_page_spec; [done|done|]. exists (base (head g)), (page_size (head g)). split; [|done]. apply Hpages. by exists i, g.
  - destruct (hl_gc_get_page s p) as [h|] eqn:Eh; [|done]. apply hl_gc_get_page_spec in Eh as (b & n & Hb & Hin); [|done|done]. apply Hpages in Hb as (i & g & Hi & _ & -> & ->). apply INPAGE_spec in Hin. rewrite (get_page_none ps p i g E Hi) in Hin. done.
Qed.

(** ** Sharing *)
(** C38. Sharing a mark stack keeps every block.  When the active mask, the pending count and the
    stacks agree, [gc_dispatch_mark] does not fail: the stacks of the workers that were idle,
    in order, and what is left are the stack that was shared, active workers keep theirs, and
    nothing is left when all were idle and asked for; the end of a worker's turn does not
    fail; both keep the agreement. *)
Theorem sharing_keeps_the_blocks all s : sharing_inv s -> alen (sh_stack s) <= stack_limit -> (all = true -> sh_active s = 0) ->
  (exists s', gc_dispatch_mark all s = Done s' /\ sharing_inv s' /\ concat (given (sh_active s) 0 (sh_threads s')) ++ sh_stack s' = sh_stack s /\
    (forall i, is_active (sh_active s) i = true -> aget (sh_threads s') i = aget (sh_threads s) i) /\ (all = true -> sh_stack s' = [])) /\
  forall i t, is_active (sh_active s) i = true -> aget (sh_threads s) i = Some t -> t_stack t = [] -> exists s', worker_done i s = Done s' /\ sharing_inv s'.
Proof.
  intros Hinv Hst Hall. split.
  - destruct (gc_dispatch_mark_spec all s Hinv Hst Hall) as (s' & Hd & [H1 H2 H3 H4]). exists s'. split; [done|]. split; [done|]. split; [done|]. split; [done|]. intros Ha. by apply H4, Hall.
  - intros i t. by apply worker_done_spec.
Qed.
Definition ex_sharing : sharing := Sharing [10; 20; 30; 40; 50] [MThread [] 0; MThread [60] 256; MThread [] 256] 2 1.
Theorem sharing_keeps_the_blocks_witness : sharing_inv ex_sharing /\
  gc_dispatch_mark false ex_sharing = Done (Sharing [30; 40; 50] [MThread [10] 256; MThread [60] 256; MThread [20] 256] 7 3) /\
  exists s', gc_dispatch_mark false ex_sharing = Done s' /\ sharing_inv s'.
Proof.
  assert (sharing_inv ex_sharing) as Hi.
  { split; [split; vm_compute; congruence|split; vm_compute; congruence| |reflexivity]. split; [|split; [|split; [|done]]]; (split; [done|]); (split; [first [by left|right; vm_compute; congruence]|]); first [by left|right; vm_compute; congruence]. }
  split; [exact Hi|]. split; [vm_compute; reflexivity|]. destruct (sharing_keeps_the_blocks false ex_sharing Hi) as [(s' & Hd & Hs & _) _]; [vm_compute; congruence|done|]. by exists s'.
Defined.

(** ** A bitmap that is too short
    Blocks of more than 2032 bytes have a multiple of 64 bytes, and the words of an enum value
    are counted from 0 after its header of two words: a constructor with 255 pointers has a
    bitmap of 8 words, its blocks have 262 words to scan, so the collector reads a word after
    the bitmap. *)
Definition full_enum_heap : Types.heap := Types.Heap [Type_ HVOID TNone; Type_ HDYN TNone; Type_ HENUM (TEnum 0)] [] [] [TypeEnum None [EnumConstruct (named 31 "Full") (replicate 255 1)] None].
Definition full_enum_mem (a : Z) : Z := if a =? 65536 then 2 else if a =? 65544 then 0 else 65536.
Definition full_enum_type (t : Z) : option (Z * option (list Z)) := if t =? 2 then option_map (fun '(_, mark) => (HENUM, Some mark)) (hl_init_enum full_enum_heap 2) else None.
Lemma enum_scan_past_bitmap :
  option_map (fun '(ls, mark) => (map c_size ls, alen mark)) (hl_init_enum full_enum_heap 2) = Some ([2056], 8) /\ class_of 2056 false = Some (Var 6 2112) /\
  match scan_plan full_enum_mem full_enum_type MEM_KIND_DYNAMIC 65536 (Z.quot 2112 8) with
  | Some (Some sc) => sc_pos sc = 0 /\ sc_end sc = 262 /\ word_at full_enum_mem sc 254 = Some 65536 /\ word_at full_enum_mem sc 256 = None
  | _ => False
  end.
Proof. vm_compute. repeat split; reflexivity. Qed.

(** ** The flag of the profiler
    Switching profiling off keeps its flag, and clears all the others. *)
Lemma hl_gc_profile_stays_on flags : Z.testbit (hl_gc_profile false (hl_gc_profile true flags)) 0 = true /\ forall k, 0 < k -> Z.testbit (hl_gc_profile false flags) k = false.
Proof.
  unfold hl_gc_profile, GC_PROFILE. split; [by rewrite Z.land_spec, Z.lor_spec, orb_true_r|]. intros k Hk. rewrite Z.land_spec. change 1 with (2 ^ 0). rewrite Z.pow2_bits_false by lia. apply andb_false_r.
Qed.
