(* ===== verification/RootTableProps.v ===== *)
(** * The table of roots is a list

    [chains] relates the arrays of indices to the list of each bucket; each operation on the
    links is an operation on these lists. *)
From S2P Require Import Prelude MarkingShare RootTable.

(** ** Segments of doubly linked lists *)
Definition last_or (p : Z) (l : list Z) : Z := default p (last l).
Fixpoint seg (nx pv : list Z) (p : Z) (l : list Z) (e : Z) : Prop :=
  match l with [] => True | i :: l => aget pv i = Some p /\ aget nx i = Some (hd e l) /\ seg nx pv i l e end.
Lemma last_or_cons p i l : last_or p (i :: l) = last_or i l.
Proof. unfold last_or. rewrite last_cons. by destruct (last l). Qed.
Lemma seg_app nx pv p l1 l2 e : seg nx pv p (l1 ++ l2) e <-> seg nx pv p l1 (hd e l2) /\ seg nx pv (last_or p l1) l2 e.
Proof.
  revert p. induction l1 as [|i l1 IH]; intros p; cbn [app seg]; [tauto|]. rewrite IH, last_or_cons. assert (hd e (l1 ++ l2) = hd (hd e l2) l1) as -> by by destruct l1. tauto.
Qed.
Lemma seg_frame nx pv nx' pv' p l e : (forall j, j ∈ l -> aget nx' j = aget nx j /\ aget pv' j = aget pv j) -> seg nx pv p l e -> seg nx' pv' p l e.
Proof.
  revert p. induction l as [|i l IH]; intros p Hf; [done|]. intros (H1 & H2 & H3). destruct (Hf i ltac:(left)) as [E1 E2]. cbn [seg]. rewrite E1, E2. split; [done|]. split; [done|]. apply IH; [|done]. intros j Hj. apply Hf. by right.
Qed.
Lemma last_or_in p l : last_or p l = p /\ l = [] \/ last_or p l ∈ l.
Proof. unfold last_or. destruct (last l) as [x|] eqn:E; [right; by apply last_Some_elem_of|left; split; [done|by apply last_None]]. Qed.
Lemma hd_in e (l : list Z) : hd e l = e /\ l = [] \/ hd e l ∈ l.
Proof. destruct l; [by left|right; left]. Qed.
(** The next of the last, or the bucket. *)
Lemma seg_end nx pv nx' p l e e' : NoDup l -> (forall j, aget nx' j = if decide (last l = Some j) then Some e' else aget nx j) -> seg nx pv p l e -> seg nx' pv p l e'.
Proof.
  revert p. induction l as [|i l IH]; intros p Hnd Hn; [done|]. apply NoDup_cons in Hnd as [Hi Hnd]. intros (H1 & H2 & H3). cbn [seg]. split; [done|]. destruct l as [|j l].
  - rewrite Hn, decide_True by done. done.
  - rewrite Hn, decide_False; [|intros E; apply Hi; rewrite last_cons_cons in E; by apply last_Some_elem_of]. split; [done|]. apply IH; [done| |done]. intros k. rewrite Hn. by rewrite last_cons_cons.
Qed.
(** The previous of the first. *)
Lemma seg_start nx pv pv' p p' l e : NoDup l -> (forall j, aget pv' j = if decide (head l = Some j) then Some p' else aget pv j) -> seg nx pv p l e -> seg nx pv' p' l e.
Proof.
  destruct l as [|i l]; [done|]. intros Hnd Hp (H1 & H2 & H3). apply NoDup_cons in Hnd as [Hi Hnd]. cbn [seg]. rewrite Hp, decide_True by done. split; [done|]. split; [done|]. eapply seg_frame; [|exact H3]. intros j Hj. split; [done|]. rewrite Hp, decide_False; [done|]. cbn. congruence.
Qed.
Lemma opt_aset (a : list Z) (o : option Z) v k : k = default (-1) o -> (forall x, o = Some x -> 0 <= x < alen a) -> exists a', (if k >=? 0 then aset a k v else Some a) = Some a' /\ alen a' = alen a /\ forall j, aget a' j = if decide (o = Some j) then Some v else aget a j.
Proof.
  intros -> Ho. destruct o as [x|]; cbn [from_option id].
  - specialize (Ho x eq_refl). destruct (Z.geb_spec x 0); [|lia]. destruct (aset_total a x v Ho) as (a' & -> & Hl & Hg). exists a'. split; [done|]. split; [done|]. intros j. rewrite Hg. destruct (decide (x = j)), (decide (Some x = Some j)); congruence.
  - exists a. split; [done|]. split; [done|]. done.
Qed.
Lemma hd_head e (l : list Z) : hd e l = default e (head l).
Proof. by destruct l. Qed.

(** ** The chains *)
Definition root_at (t : root_table) (i : Z) : Z := default 0 (aget (gc_roots t) i).
Record chains (t : root_table) (D : Z -> Prop) (C : Z -> list Z) : Prop := Chains {
  ch_max : 0 < gc_roots_max t;
  ch_lens : alen (gc_roots t) = gc_roots_max t /\ alen (gc_root_owners t) = gc_roots_max t /\ alen (gc_root_next t) = gc_roots_max t /\ alen (gc_root_previous t) = gc_roots_max t /\ alen (gc_root_buckets t) = 2 * gc_roots_max t;
  ch_dom : forall i, D i -> 0 <= i < gc_roots_max t;
  ch_head : forall b, 0 <= b < 2 * gc_roots_max t -> aget (gc_root_buckets t) b = Some (hd (-1) (C b));
  ch_seg : forall b, 0 <= b < 2 * gc_roots_max t -> seg (gc_root_next t) (gc_root_previous t) (-1) (C b) (-1);
  ch_nodup : forall b, 0 <= b < 2 * gc_roots_max t -> NoDup (C b);
  ch_in : forall b i, 0 <= b < 2 * gc_roots_max t -> i ∈ C b <-> D i /\ gc_root_bucket t (root_at t i) = b }.
Lemma bucket_range t r : 0 < gc_roots_max t <= 2 ^ 29 -> 0 <= gc_root_bucket t r < 2 * gc_roots_max t.
Proof.
  intros Hm. unfold gc_root_bucket. set (v := u32 (Z.lxor _ _)). assert (u32 (gc_roots_max t * 2 - 1) = gc_roots_max t * 2 - 1) as -> by (unfold uN; rewrite Z.mod_small; [done|lia]). pose proof (land_below (gc_roots_max t * 2 - 1) v ltac:(lia)) as H. rewrite Z.land_comm in H.
  assert (0 <= Z.land v (gc_roots_max t * 2 - 1)) by (apply Z.land_nonneg; right; lia). lia.
Qed.
Lemma root_at_aget t D C i : chains t D C -> 0 <= i < gc_roots_max t -> aget (gc_roots t) i = Some (root_at t i).
Proof. intros Hc Hi. unfold root_at. destruct (aget_is_Some (gc_roots t) i) as [r ->]; [destruct (ch_lens _ _ _ Hc); lia|done]. Qed.
Definition upd (C : Z -> list Z) (b : Z) (l : list Z) (x : Z) : list Z := if decide (x = b) then l else C x.
(** A member of one chain is in no other. *)
Lemma chain_other t D C b b' i : chains t D C -> 0 <= b < 2 * gc_roots_max t -> 0 <= b' < 2 * gc_roots_max t -> b' <> b -> i ∈ C b -> i ∈ C b' -> False.
Proof. intros Hc Hb Hb' Hne Hi Hi'. apply (ch_in _ _ _ Hc) in Hi as [_ <-], Hi' as [_ <-]; done. Qed.
Lemma chain_range t D C b i : chains t D C -> 0 <= b < 2 * gc_roots_max t -> i ∈ C b -> 0 <= i < gc_roots_max t.
Proof. intros Hc Hb Hi. apply (ch_in _ _ _ Hc) in Hi as [Hi _]; [|done]. by apply (ch_dom _ _ _ Hc). Qed.
Definition same_roots (t t' : root_table) : Prop := gc_roots t' = gc_roots t /\ gc_root_owners t' = gc_root_owners t /\ gc_roots_count t' = gc_roots_count t /\ gc_roots_max t' = gc_roots_max t.
(** Changing the lists of one bucket. *)
Lemma chains_update t D C t' D' b l : chains t D C -> gc_roots_max t <= 2 ^ 29 -> gc_roots_max t' = gc_roots_max t -> 0 <= b < 2 * gc_roots_max t ->
  alen (gc_roots t') = alen (gc_roots t) -> alen (gc_root_owners t') = alen (gc_root_owners t) -> alen (gc_root_next t') = alen (gc_root_next t) -> alen (gc_root_previous t') = alen (gc_root_previous t) -> alen (gc_root_buckets t') = alen (gc_root_buckets t) ->
  (forall i, D' i -> 0 <= i < gc_roots_max t) -> (forall x, aget (gc_root_buckets t') x = if decide (x = b) then Some (hd (-1) l) else aget (gc_root_buckets t) x) ->
  seg (gc_root_next t') (gc_root_previous t') (-1) l (-1) -> NoDup l ->
  (forall b' j, 0 <= b' < 2 * gc_roots_max t -> b' <> b -> j ∈ C b' -> aget (gc_root_next t') j = aget (gc_root_next t) j /\ aget (gc_root_previous t') j = aget (gc_root_previous t) j) ->
  (forall x i, 0 <= x < 2 * gc_roots_max t -> i ∈ upd C b l x <-> D' i /\ gc_root_bucket t' (root_at t' i) = x) -> chains t' D' (upd C b l).
Proof.
  intros Hc Hm Em Hb E1 E2 E3 E4 E5 Hdom Hhead Hseg Hnd Hframe Hin. pose proof Hc as [H0 (L1 & L2 & L3 & L4 & L5) H2 H3 H4 H5 H6]. split; rewrite ?Em; try done.
  - repeat split; congruence.
  - intros x Hx. rewrite Hhead. unfold upd. destruct (decide (x = b)); [done|]. by apply H3.
  - intros x Hx. unfold upd. destruct (decide (x = b)) as [|Hne]; [done|]. eapply seg_frame; [|by apply H4]. intros j Hj. by apply (Hframe x).
  - intros x Hx. unfold upd. destruct (decide (x = b)); [done|]. by apply H5.
Qed.
Lemma link_spec t D C i : chains t D C -> gc_roots_max t <= 2 ^ 29 -> 0 <= i < gc_roots_max t -> ~ D i ->
  exists t', gc_root_link t i = Some t' /\ same_roots t t' /\ chains t' (fun j => D j \/ j = i) (upd C (gc_root_bucket t (root_at t i)) (i :: C (gc_root_bucket t (root_at t i)))).
Proof.
  intros Hc Hm Hi Hn. pose proof Hc as [H0 (L1 & L2 & L3 & L4 & L5) H2 H3 H4 H5 H6]. unfold gc_root_link. rewrite (root_at_aget t D C i Hc Hi). cbn [mbind option_bind]. cbv zeta. set (b := gc_root_bucket t (root_at t i)).
  assert (0 <= b < 2 * gc_roots_max t) as Hb by (apply bucket_range; lia). rewrite H3 by done. cbn [mbind option_bind]. assert (i ∉ C b) as Hni by (intros Hin; apply H6 in Hin as [Hd _]; done).
  destruct (aset_total (gc_root_previous t) i (-1) ltac:(lia)) as (pv & -> & Lp & Gp). cbn [mbind option_bind]. destruct (aset_total (gc_root_next t) i (hd (-1) (C b)) ltac:(lia)) as (nx & -> & Ln & Gn). cbn [mbind option_bind].
  destruct (opt_aset pv (head (C b)) i (hd (-1) (C b)) (hd_head _ _)) as (pv' & Ep & Lp' & Gp'); [intros x Hx; rewrite Lp, L4; apply (chain_range t D C b); [done|done|]; destruct (C b); [done|]; injection Hx as ->; left|].
  rewrite Ep. cbn [mbind option_bind]. destruct (aset_total (gc_root_buckets t) b i ltac:(lia)) as (bk & -> & Lb & Gb). cbn [mbind option_bind].
  eexists. split; [done|]. split; [done|]. apply (chains_update t D); cbn [with_chains gc_roots gc_root_owners gc_root_buckets gc_root_next gc_root_previous gc_roots_max gc_roots_count]; try done; try congruence.
  - intros j [Hj| ->]; [by apply H2|done].
  - intros x. rewrite Gb. cbn [hd]. destruct (decide (b = x)), (decide (x = b)); congruence.
  - cbn [seg]. split; [rewrite Gp', decide_False by (destruct (C b); [done|]; intros [= ->]; apply Hni; left); by rewrite Gp, decide_True by done|]. split; [by rewrite Gn, decide_True by done|].
    apply (seg_start nx pv pv' (-1) i); [by apply H5|intros j; apply Gp'|]. eapply seg_frame; [|by apply H4]. intros j Hj. assert (i <> j) by (intros ->; done). by rewrite Gn, Gp, !decide_False by done.
  - constructor; [done|by apply H5].
  - intros b' j Hb' Hne Hj. assert (i <> j) by (intros ->; by apply Hn, (H6 b')). split; [by rewrite Gn, decide_False by done|]. rewrite Gp', decide_False; [by rewrite Gp, decide_False by done|]. intros Hh. apply (chain_other t D C b b' j); try done. destruct (C b); [done|]. injection Hh as ->. left.
  - intros x j Hx. unfold upd. destruct (decide (x = b)) as [->|Hne].
    + rewrite elem_of_cons, (H6 b j Hb). split; [intros [->|[? ?]]; [split; [by right|done]|split; [by left|done]]|intros [[Hd| ->] E]; [by right|by left]].
    + rewrite (H6 x j Hx). split; [intros [? ?]; split; [by left|done]|]. intros [[Hd| ->] E]; [done|]. exfalso. apply Hne. by rewrite <- E.
Qed.
(** The entry that leads to the place after [l1]: the next of its last, or the bucket. *)
Lemma entry_spec t (nx bk roots l1 : list Z) b k y : 0 <= b < alen bk -> (r ← aget roots k; Some (gc_root_bucket t r)) = Some b -> (forall j, j ∈ l1 -> 0 <= j < alen nx) ->
  exists nx' bk', (if last_or (-1) l1 >=? 0 then n ← aset nx (last_or (-1) l1) y; Some (n, bk) else r ← aget roots k; b ← aset bk (gc_root_bucket t r) y; Some (nx, b)) = Some (nx', bk') /\
    alen nx' = alen nx /\ alen bk' = alen bk /\ (forall j, aget nx' j = if decide (last l1 = Some j) then Some y else aget nx j) /\
    forall x, aget bk' x = if decide (l1 = [] /\ x = b) then Some y else aget bk x.
Proof.
  intros Hb Hr Hl. unfold last_or. destruct (last l1) as [x|] eqn:E; cbn [from_option id].
  - pose proof (Hl x (last_Some_elem_of _ _ E)) as Hx. destruct (Z.geb_spec x 0); [|lia]. destruct (aset_total nx x y Hx) as (nx' & -> & L & G). cbn [mbind option_bind]. exists nx', bk. split; [done|]. split; [done|]. split; [done|]. split.
    + intros j. rewrite G. destruct (decide (x = j)), (decide (Some x = Some j)); congruence.
    + intros j. rewrite decide_False; [done|]. intros [-> _]. done.
  - apply last_None in E. subst l1. change (-1 >=? 0) with false. cbv iota. destruct (aget roots k) as [r|]; [|done]. cbn [mbind option_bind] in Hr |- *. injection Hr as Hr. rewrite Hr. destruct (aset_total bk b y Hb) as (bk' & -> & L & G). cbn [mbind option_bind]. exists nx, bk'. split; [done|]. split; [done|]. split; [done|]. split; [done|].
    intros x. rewrite G. destruct (decide (b = x)), (decide ([] = [] /\ x = b)) as [|Hn]; try done; [exfalso; apply Hn; by split|by destruct a].
Qed.
Lemma mid_entry t D C b l1 i l2 : chains t D C -> 0 <= b < 2 * gc_roots_max t -> C b = l1 ++ i :: l2 ->
  aget (gc_root_previous t) i = Some (last_or (-1) l1) /\ aget (gc_root_next t) i = Some (hd (-1) l2) /\ seg (gc_root_next t) (gc_root_previous t) (-1) l1 i /\ seg (gc_root_next t) (gc_root_previous t) i l2 (-1) /\
  NoDup l1 /\ NoDup l2 /\ (i ∉ l1) /\ (i ∉ l2) /\ (forall j, j ∈ l1 -> j ∉ l2) /\ (forall j, j ∈ l1 ++ l2 -> 0 <= j < gc_roots_max t) /\ NoDup (l1 ++ l2).
Proof.
  intros Hc Hb E. pose proof (ch_seg _ _ _ Hc b Hb) as Hs. pose proof (ch_nodup _ _ _ Hc b Hb) as Hn. assert (forall j, j ∈ C b -> 0 <= j < gc_roots_max t) as Hr by (intros j; by apply (chain_range t D C b)). rewrite E in *. apply seg_app in Hs as [Hs1 Hs2]. cbn [hd seg] in Hs1, Hs2. destruct Hs2 as (Hp & Hx & Hs2).
  apply NoDup_app in Hn as (N1 & N2 & N3). apply NoDup_cons in N3 as [N3 N4]. do 6 (split; [done|]). split; [intros Hi; apply (N2 i Hi); left|]. split; [done|]. split; [intros j Hj Hj2; apply (N2 j Hj); by right|]. split.
  - intros j Hj. apply Hr. apply elem_of_app in Hj. apply elem_of_app. destruct Hj; [by left|right; by right].
  - apply NoDup_app. split; [done|]. split; [|done]. intros j Hj Hj2. apply (N2 j Hj). by right.
Qed.
Lemma root_unlink_spec t D C i : chains t D C -> gc_roots_max t <= 2 ^ 29 -> D i ->
  exists t' C', gc_root_unlink t i = Some t' /\ same_roots t t' /\ chains t' (fun j => D j /\ j <> i) C'.
Proof.
  intros Hc Hm Hd. pose proof Hc as [H0 (L1 & L2 & L3 & L4 & L5) H2 H3 H4 H5 H6]. pose proof (H2 i Hd) as Hi. set (b := gc_root_bucket t (root_at t i)). assert (0 <= b < 2 * gc_roots_max t) as Hb by (apply bucket_range; lia).
  assert (i ∈ C b) as Hin by (apply H6; [done|by split]). apply list_elem_of_split in Hin as (l1 & l2 & E). destruct (mid_entry t D C b l1 i l2 Hc Hb E) as (Hp & Hx & Hs1 & Hs2 & N1 & N2 & Ni1 & Ni2 & N12 & Hrange & Nd).
  unfold gc_root_unlink. rewrite Hp, Hx. cbn [mbind option_bind].
  destruct (entry_spec t (gc_root_next t) (gc_root_buckets t) (gc_roots t) l1 b i (hd (-1) l2)) as (nx' & bk' & -> & Ln & Lb & Gn & Gb); [lia|by rewrite (root_at_aget t D C i Hc Hi)|intros j Hj; rewrite L3; apply Hrange, elem_of_app; by left|]. cbn [mbind option_bind].
  destruct (opt_aset (gc_root_previous t) (head l2) (last_or (-1) l1) (hd (-1) l2) (hd_head _ _)) as (pv' & -> & Lp & Gp); [intros x Hh; rewrite L4; apply Hrange, elem_of_app; right; destruct l2; [done|]; injection Hh as ->; left|]. cbn [mbind option_bind].
  eexists _, (upd C b (l1 ++ l2)). split; [done|]. split; [done|]. apply (chains_update t D); cbn [with_chains gc_roots gc_root_owners gc_root_buckets gc_root_next gc_root_previous gc_roots_max gc_roots_count]; try done.
  - intros j [Hj _]. by apply H2.
  - intros x. rewrite Gb. destruct (decide (x = b)) as [->|]; [|rewrite decide_False; [done|by intros [_ ?]]]. rewrite H3, E by done. destruct l1 as [|j l1]; [by rewrite decide_True by done|by rewrite decide_False by (by intros [? _])].
  - apply seg_app. split.
    + apply (seg_end (gc_root_next t) _ nx' _ _ i); [done|exact Gn|]. eapply seg_frame; [|exact Hs1]. intros j Hj. split; [done|]. rewrite Gp, decide_False; [done|]. intros Hh. apply (N12 j Hj). destruct l2; [done|]. injection Hh as ->. left.
    + apply (seg_start _ (gc_root_previous t) pv' i); [done|exact Gp|]. eapply seg_frame; [|exact Hs2]. intros j Hj. split; [|done]. rewrite Gn, decide_False; [done|]. intros Hl. apply (N12 j); [by apply last_Some_elem_of|done].
  - intros b' j Hb' Hne Hj. split.
    + rewrite Gn, decide_False; [done|]. intros Hl. apply (chain_other t D C b b' j); try done. rewrite E. apply elem_of_app. left. by apply last_Some_elem_of.
    + rewrite Gp, decide_False; [done|]. intros Hh. apply (chain_other t D C b b' j); try done. rewrite E. apply elem_of_app. right. right. destruct l2; [done|]. injection Hh as ->. left.
  - intros x j Hxr. unfold upd. destruct (decide (x = b)) as [->|Hne].
    + change (gc_root_bucket _ (root_at _ j)) with (gc_root_bucket t (root_at t j)). split.
      * intros Hj. assert (j ∈ C b) as Hjc by (rewrite E; apply elem_of_app in Hj; apply elem_of_app; destruct Hj; [by left|right; by right]). apply (H6 b j Hb) in Hjc as [? ?]. split; [|done]. split; [done|]. intros ->. apply elem_of_app in Hj as [?|?]; done.
      * intros [[Hj Hne] Eb]. assert (j ∈ C b) as Hjc by (by apply (H6 b j Hb)). rewrite E in Hjc. apply elem_of_app in Hjc as [?|Hjc]; [apply elem_of_app; by left|]. apply elem_of_cons in Hjc as [->|?]; [done|]. apply elem_of_app. by right.
    + change (gc_root_bucket _ (root_at _ j)) with (gc_root_bucket t (root_at t j)). rewrite (H6 x j Hxr). split; [intros [? Ex]; split; [|done]; split; [done|]; intros ->; by apply Hne|by intros [[? _] ?]].
Qed.
Lemma move_spec t D C found lst : chains t D C -> gc_roots_max t <= 2 ^ 29 -> D lst -> ~ D found -> 0 <= found < gc_roots_max t ->
  exists t' C' ro ow, move_last t found lst = Some t' /\ gc_roots_count t' = gc_roots_count t /\ gc_roots_max t' = gc_roots_max t /\
    (aget (gc_roots t) lst = Some ro /\ aget (gc_root_owners t) lst = Some ow /\ aset (gc_roots t) found ro = Some (gc_roots t') /\ aset (gc_root_owners t) found ow = Some (gc_root_owners t')) /\
    chains t' (fun j => D j /\ j <> lst \/ j = found) C'.
Proof.
  intros Hc Hm Hd Hnf Hf. pose proof Hc as [H0 (L1 & L2 & L3 & L4 & L5) H2 H3 H4 H5 H6]. pose proof (H2 lst Hd) as Hi. set (b := gc_root_bucket t (root_at t lst)). assert (0 <= b < 2 * gc_roots_max t) as Hb by (apply bucket_range; lia).
  assert (lst ∈ C b) as Hin by (apply H6; [done|by split]). apply list_elem_of_split in Hin as (l1 & l2 & E). destruct (mid_entry t D C b l1 lst l2 Hc Hb E) as (Hp & Hx & Hs1 & Hs2 & N1 & N2 & Ni1 & Ni2 & N12 & Hrange & Nd).
  assert (forall x, 0 <= x < 2 * gc_roots_max t -> found ∉ C x) as Hnc by (intros x Hxr Hfx; apply H6 in Hfx as [Hfx _]; done). assert ((found ∉ l1) /\ (found ∉ l2)) as [Nf1 Nf2] by (pose proof (Hnc b Hb) as Hn; rewrite E in Hn; split; intros ?; apply Hn, elem_of_app; [by left|right; by right]).
  unfold move_last. rewrite (root_at_aget t D C lst Hc Hi). cbn [mbind option_bind]. destruct (aset_total (gc_roots t) found (root_at t lst) ltac:(lia)) as (roots & Er & Lr & Gr). rewrite Er. cbn [mbind option_bind].
  destruct (aget_is_Some (gc_root_owners t) lst ltac:(lia)) as [ow How]. rewrite How. cbn [mbind option_bind]. destruct (aset_total (gc_root_owners t) found ow ltac:(lia)) as (owners & Eo & Lo & Go). rewrite Eo. cbn [mbind option_bind]. rewrite Hp, Hx. cbn [mbind option_bind].
  destruct (aset_total (gc_root_previous t) found (last_or (-1) l1) ltac:(lia)) as (pv & -> & Lp & Gp). cbn [mbind option_bind]. destruct (aset_total (gc_root_next t) found (hd (-1) l2) ltac:(lia)) as (nx & -> & Ln & Gn). cbn [mbind option_bind].
  destruct (entry_spec t nx (gc_root_buckets t) roots l1 b found found) as (nx' & bk' & -> & Ln' & Lb & Gn' & Gb); [lia|rewrite Gr, decide_True by done; done|intros j Hj; rewrite Ln, L3; apply Hrange, elem_of_app; by left|]. cbn [mbind option_bind].
  destruct (opt_aset pv (head l2) found (hd (-1) l2) (hd_head _ _)) as (pv' & -> & Lp' & Gp'); [intros x Hh; rewrite Lp, L4; apply Hrange, elem_of_app; right; destruct l2; [done|]; injection Hh as ->; left|]. cbn [mbind option_bind].
  eexists _, (upd C b (l1 ++ found :: l2)), (root_at t lst), ow. split; [done|]. split; [done|]. split; [done|]. split; [by repeat split|].
  assert (forall j, root_at (RootTable roots owners bk' nx' pv' (gc_roots_count t) (gc_roots_max t)) j = if decide (j = found) then root_at t lst else root_at t j) as Hroot.
  { intros j. unfold root_at at 1. cbn [gc_roots]. rewrite Gr. destruct (decide (found = j)), (decide (j = found)); try congruence; done. }
  assert (forall j, j ∈ l1 \/ j ∈ l2 -> found <> j) as Hfl by (intros j Hj ->; destruct Hj; done).
  apply (chains_update t D); cbn [gc_roots gc_root_owners gc_root_buckets gc_root_next gc_root_previous gc_roots_max gc_roots_count]; try done; try congruence.
  - intros j [[Hj _]| ->]; [by apply H2|done].
  - intros x. rewrite Gb. destruct (decide (x = b)) as [->|]; [|rewrite decide_False; [done|by intros [_ ?]]]. rewrite H3, E by done. destruct l1 as [|j l1]; [by rewrite decide_True by done|by rewrite decide_False by (by intros [? _])].
  - apply seg_app. cbn [hd seg]. assert (last l1 <> Some found) as Hlf by (intros Hl; by apply Nf1, last_Some_elem_of). assert (head l2 <> Some found) as Hhf by (intros Hh; apply Nf2; destruct l2; [done|]; injection Hh as ->; left). split; [|split; [|split]].
    + apply (seg_end nx _ nx' _ _ lst); [done|exact Gn'|]. eapply seg_frame; [|exact Hs1]. intros j Hj. rewrite Gn, decide_False by (apply Hfl; by left). split; [done|]. rewrite Gp', decide_False; [rewrite Gp, decide_False; [done|apply Hfl; by left]|]. intros Hh. apply (N12 j Hj). destruct l2; [done|]. injection Hh as ->. left.
    + by rewrite Gp', decide_False, Gp, decide_True by done.
    + by rewrite Gn', decide_False, Gn, decide_True by done.
    + apply (seg_start _ pv pv' lst); [done|exact Gp'|]. eapply seg_frame; [|exact Hs2]. intros j Hj. rewrite Gp, decide_False by (apply Hfl; by right). split; [|done]. rewrite Gn', decide_False; [rewrite Gn, decide_False; [done|apply Hfl; by right]|]. intros Hl. apply (N12 j); [by apply last_Some_elem_of|done].
  - apply NoDup_app. split; [done|]. split; [intros j Hj [->|Hj2]%elem_of_cons; [done|by apply (N12 j)]|]. by constructor.
  - intros b' j Hb' Hne Hj. assert (found <> j) as Hfj by (intros ->; by apply (Hnc b')). split.
    + rewrite Gn', decide_False; [by rewrite Gn, decide_False|]. intros Hl. apply (chain_other t D C b b' j); try done. rewrite E. apply elem_of_app. left. by apply last_Some_elem_of.
    + rewrite Gp', decide_False; [by rewrite Gp, decide_False|]. intros Hh. apply (chain_other t D C b b' j); try done. rewrite E. apply elem_of_app. right. right. destruct l2; [done|]. injection Hh as ->. left.
  - intros x j Hxr. rewrite Hroot. change (gc_root_bucket (RootTable _ _ _ _ _ _ _)) with (gc_root_bucket t). unfold upd. destruct (decide (x = b)) as [->|Hne].
    + rewrite elem_of_app, elem_of_cons. destruct (decide (j = found)) as [->|Hjf].
      * split; [intros _; split; [by right|done]|]. intros _. right. by left.
      * assert (j ∈ C b <-> D j /\ gc_root_bucket t (root_at t j) = b) as Hj by by apply H6. rewrite E, elem_of_app, elem_of_cons in Hj. split.
        -- intros Hjl. assert (j <> lst) by (intros ->; destruct Hjl as [?|[?|?]]; done). assert (D j /\ gc_root_bucket t (root_at t j) = b) as [? ?] by (apply Hj; tauto). split; [left; done|done].
        -- intros [[[Hdj Hjl]|?] Eb]; [|done]. destruct (proj2 Hj (conj Hdj Eb)) as [?|[?|?]]; [by left|done|by right; right].
    + destruct (decide (j = found)) as [->|Hjf].
      * split; [intros Hfx; by destruct (Hnc x Hxr)|]. intros [_ Ex]. by destruct Hne.
      * rewrite (H6 x j Hxr). split; [intros [? Ex]; split; [|done]; left; split; [done|]; intros ->; by apply Hne|]. intros [[[? _]|?] ?]; [done|done].
Qed.

(** ** Searching a chain *)
Definition better (t : root_table) (v f j : Z) : Z := if (root_at t j =? v) && (j >? f) then j else f.
Lemma find_root_spec t v fuel : forall l p found, seg (gc_root_next t) (gc_root_previous t) p l (-1) -> (forall j, j ∈ l -> 0 <= j /\ aget (gc_roots t) j = Some (root_at t j)) -> (length l <= fuel)%nat ->
  find_root fuel t v (hd (-1) l) found = Some (foldl (better t v) found l).
Proof.
  induction fuel as [|fuel IH]; intros [|j l] p found Hs Hl Hf; cbn [length] in Hf; try (done || lia).
  destruct (Hl j ltac:(left)) as [Hj Hr]. destruct Hs as (_ & Hn & Hs). cbn [hd find_root foldl]. destruct (Z.ltb_spec j 0); [lia|]. rewrite Hr, Hn. cbn [mbind option_bind]. apply (IH l j); [done|intros k Hk; apply Hl; by right|lia].
Qed.
Lemma better_spec t v l : forall f, let r := foldl (better t v) f l in f <= r /\ (r = f \/ r ∈ l /\ root_at t r = v) /\ forall j, j ∈ l -> root_at t j = v -> j <= r.
Proof.
  induction l as [|j l IH]; intros f; cbn [foldl]; [split; [lia|split; [by left|intros j Hj; by apply not_elem_of_nil in Hj]]|]. destruct (IH (better t v f j)) as (H1 & H2 & H3).
  assert (f <= better t v f j /\ (better t v f j = f \/ better t v f j = j /\ root_at t j = v) /\ (root_at t j = v -> j <= better t v f j)) as (B1 & B2 & B3).
  { unfold better. destruct (Z.eqb_spec (root_at t j) v), (Z.gtb_spec j f); cbn [andb]; (split; [lia|]); (split; [tauto|]); intros ?; (done || lia). }
  set (r := foldl (better t v) (better t v f j) l) in *. split; [lia|]. split.
  - destruct H2 as [H2|[? ?]]; [|right; split; [by right|done]]. destruct B2 as [B2|[B2 Hv]]; [left; congruence|]. right. rewrite H2, B2. split; [left|done].
  - intros k [->|Hk]%elem_of_cons Hv; [specialize (B3 Hv); lia|by apply H3].
Qed.
Lemma chain_length t D C b : chains t D C -> 0 <= b < 2 * gc_roots_max t -> (length (C b) <= length (gc_roots t))%nat.
Proof.
  intros Hc Hb. assert (length (C b) <= length (seqZ 0 (gc_roots_max t)))%nat as H.
  { apply submseteq_length, NoDup_submseteq; [by apply (ch_nodup _ _ _ Hc)|]. intros j Hj. apply elem_of_seqZ. pose proof (chain_range t D C b j Hc Hb Hj). lia. }
  rewrite length_seqZ in H. destruct (ch_lens _ _ _ Hc) as [L _]. unfold alen in L. lia.
Qed.
Lemma chains_iff t D D' C : (forall i, D i <-> D' i) -> chains t D C -> chains t D' C.
Proof. intros Hd [H0 H1 H2 H3 H4 H5 H6]. split; try done; [intros i Hi; by apply H2, Hd|]. intros b i Hb. rewrite H6 by done. by rewrite Hd. Qed.

Lemma chains_with_count t D C c : chains t D C -> chains (RootTable (gc_roots t) (gc_root_owners t) (gc_root_buckets t) (gc_root_next t) (gc_root_previous t) c (gc_roots_max t)) D C.
Proof. by intros [H0 H1 H2 H3 H4 H5 H6]; split. Qed.

(** ** The invariant of the table *)
Definition upto (n : Z) (i : Z) : Prop := 0 <= i < n.
Record table_inv (t : root_table) (l : list (Z * Z)) : Prop := TableInv {
  ti_count : gc_roots_count t = alen l /\ alen l <= gc_roots_max t <= 2 ^ 29;
  ti_chains : gc_roots_max t = 0 \/ exists C, chains t (upto (gc_roots_count t)) C;
  ti_lens : alen (gc_roots t) = gc_roots_max t /\ alen (gc_root_owners t) = gc_roots_max t;
  ti_roots : forall i x, aget l i = Some x -> aget (gc_roots t) i = Some x.1 /\ aget (gc_root_owners t) i = Some x.2 }.
Lemma table_inv_contents t l : table_inv t l -> contents t = l.
Proof.
  intros [[Hc Hm] _ [L1 L2] Hr]. unfold contents. rewrite Hc. apply list_eq. intros i. unfold alen in *. destruct (decide (i < length l)%nat) as [Hi|Hi].
  - rewrite lookup_take_lt by lia. destruct (lookup_lt_is_Some_2 l i Hi) as [x Hx]. rewrite Hx. rewrite <- aget_nat in Hx. apply Hr in Hx as [H1 H2]. rewrite aget_nat in H1, H2. apply lookup_zip_with_Some. exists x.1, x.2. split; [by destruct x|done].
  - rewrite lookup_take_ge by lia. symmetry. apply lookup_ge_None_2. lia.
Qed.
Lemma no_roots_inv : table_inv no_roots [].
Proof. split; cbn; try done; [by left|]. intros i x Hx. apply aget_Some_range in Hx. unfold alen in Hx. cbn in Hx. lia. Qed.
Lemma root_at_list t l i x : table_inv t l -> aget l i = Some x -> root_at t i = x.1.
Proof. intros Ht Hx. apply (ti_roots _ _ Ht) in Hx as [H _]. unfold root_at. by rewrite H. Qed.

(** ** Growing *)
Section fresh_memory.
Context (junk : Z -> Z).
Lemma fresh_len n : 0 <= n -> alen (fresh junk n) = n.
Proof. intros Hn. unfold fresh, alen. rewrite length_fmap, length_seqZ. lia. Qed.
Lemma minus_ones (n : nat) bk : alen bk = Z.of_nat n -> exists bk', afor (fun i b => aset b i (-1)) n 0 bk = Some bk' /\ alen bk' = alen bk /\ forall x, 0 <= x < Z.of_nat n -> aget bk' x = Some (-1).
Proof.
  intros Hl. destruct (afor_total (fun i b => aset b i (-1)) (fun i b => alen b = alen bk /\ forall x, 0 <= x < i -> aget b x = Some (-1)) n 0 bk) as (bk' & E & H1 & H2).
  - split; [done|]. intros x Hx. lia.
  - intros j b Hj [H1 H2]. destruct (aset_total b j (-1) ltac:(lia)) as (b' & -> & L & G). exists b'. split; [done|]. split; [lia|]. intros x Hx. rewrite G. destruct (decide (j = x)); [done|]. apply H2. lia.
  - exists bk'. split; [done|]. split; [done|]. intros x Hx. apply H2. lia.
Qed.
(** Linking the first [m] roots again. *)
Lemma relink_spec t0 : chains t0 (fun _ => False) (fun _ => []) -> gc_roots_max t0 <= 2 ^ 29 -> forall m : nat, Z.of_nat m <= gc_roots_max t0 -> exists t C, afor (fun i t => gc_root_link t i) m 0 t0 = Some t /\ same_roots t0 t /\ chains t (upto (Z.of_nat m)) C.
Proof.
  intros Hc Hm m Hl. destruct (afor_total (fun i t => gc_root_link t i) (fun i t => same_roots t0 t /\ exists C, chains t (upto i) C) m 0 t0) as (t & E & Hs & C & HC).
  - split; [done|]. exists (fun _ => []). eapply chains_iff; [|exact Hc]. intros i. unfold upto. split; [done|lia].
  - intros j t Hj [(S1 & S2 & S3 & S4) (C & HC)]. destruct (link_spec t (upto j) C j HC) as (t' & -> & (S1' & S2' & S3' & S4') & HC'); [lia|lia|unfold upto; lia|]. exists t'. split; [done|]. split; [repeat split; congruence|]. eexists. eapply chains_iff; [|exact HC']. intros i. unfold upto. cbn. lia.
  - exists t, C. split; [done|]. split; [done|]. by replace (Z.of_nat m) with (0 + Z.of_nat m) by lia.
Qed.
Lemma grow_roots_spec t l : table_inv t l -> gc_roots_count t = gc_roots_max t -> alen l < 2 ^ 28 -> exists t', grow_roots junk t = Some t' /\ table_inv t' l /\ gc_roots_count t' < gc_roots_max t'.
Proof.
  intros [[Hc Hm] _ [L1 L2] Hr] Hfull Hl. pose proof (alen_nonneg l). unfold grow_roots. set (n := if gc_roots_max t =? 0 then 16 else gc_roots_max t * 2). assert (alen l < n <= 2 ^ 29) as Hn by (unfold n; destruct (Z.eqb_spec (gc_roots_max t) 0); lia).
  assert ((if gc_roots_max t =? 0 then Some 16 else int_of (gc_roots_max t * 2)) = Some n) as -> by (unfold n in *; destruct (gc_roots_max t =? 0); [done|]; apply int_of_Some; unfold in_i32, INT_MIN, INT_MAX; lia). cbn [mbind option_bind].
  rewrite int_of_Some by (unfold in_i32, INT_MIN, INT_MAX; lia). cbn [mbind option_bind]. pose proof (fresh_len n ltac:(lia)) as Lf. pose proof (fresh_len (n * 2) ltac:(lia)) as Lf2.
  destruct (acopy_total (fresh junk n) 0 (gc_roots t) 0 (gc_roots_count t)) as (ro & -> & Lro & Gro); [lia..|]. cbn [mbind option_bind]. destruct (acopy_total (fresh junk n) 0 (gc_root_owners t) 0 (gc_roots_count t)) as (ow & -> & Low & Gow); [lia..|]. cbn [mbind option_bind].
  destruct (minus_ones (Z.to_nat (n * 2)) (fresh junk (n * 2))) as (bk & -> & Lbk & Gbk); [lia|]. cbn [mbind option_bind]. set (t0 := RootTable ro ow bk (fresh junk n) (fresh junk n) (gc_roots_count t) n).
  assert (chains t0 (fun _ => False) (fun _ => [])) as H0.
  { split; cbn [t0 gc_roots gc_root_owners gc_root_buckets gc_root_next gc_root_previous gc_roots_max gc_roots_count]; try done; [lia|repeat split; lia| | |].
    - intros b Hb. apply Gbk. lia.
    - intros b _. constructor.
    - intros b i _. split; [intros Hi; by apply not_elem_of_nil in Hi|by intros [? _]]. }
  destruct (relink_spec t0 H0 (proj2 Hn) (Z.to_nat (gc_roots_count t))) as (t' & C & E & (S1 & S2 & S3 & S4) & HC); [cbn; lia|]. exists t'. split; [exact E|]. cbn [t0 gc_roots gc_root_owners gc_roots_max gc_roots_count] in S1, S2, S3, S4. split; [|lia].
  split; rewrite ?S1, ?S2, ?S3, ?S4; [lia| |lia|].
  - right. exists C. by rewrite Z2Nat.id in HC by lia.
  - intros i x Hx. pose proof (aget_Some_range _ _ _ Hx). destruct (Hr i x Hx) as [Hr1 Hr2]. rewrite Gro, Gow, !decide_True by lia. by replace (0 + (i - 0)) with i by lia.
Qed.
Lemma add_inv t l r owner : table_inv t l -> gc_roots_count t < gc_roots_max t -> exists t', 
  (roots ← aset (gc_roots t) (gc_roots_count t) r; owners ← aset (gc_root_owners t) (gc_roots_count t) owner;
   t ← gc_root_link (RootTable roots owners (gc_root_buckets t) (gc_root_next t) (gc_root_previous t) (gc_roots_count t) (gc_roots_max t)) (gc_roots_count t);
   count ← int_of (gc_roots_count t + 1);
   Some (RootTable (gc_roots t) (gc_root_owners t) (gc_root_buckets t) (gc_root_next t) (gc_root_previous t) count (gc_roots_max t))) = Some t' /\ table_inv t' (spec_add l r owner).
Proof.
  intros [[Hc Hm] Hch [L1 L2] Hr] Hlt. pose proof (alen_nonneg l). destruct Hch as [|[C HC]]; [lia|]. destruct (aset_total (gc_roots t) (gc_roots_count t) r ltac:(lia)) as (ro & -> & Lro & Gro). cbn [mbind option_bind].
  destruct (aset_total (gc_root_owners t) (gc_roots_count t) owner ltac:(lia)) as (ow & -> & Low & Gow). cbn [mbind option_bind]. set (t1 := RootTable ro ow _ _ _ _ _).
  assert (chains t1 (upto (gc_roots_count t)) C) as HC1.
  { destruct HC as [H0 (K1 & K2 & K3 & K4 & K5) H2 H3 H4 H5 H6]. split; cbn [t1 gc_roots gc_root_owners gc_root_buckets gc_root_next gc_root_previous gc_roots_max gc_roots_count]; try done; [repeat split; lia|].
    intros b i Hb. rewrite (H6 b i Hb). assert (upto (gc_roots_count t) i -> root_at t1 i = root_at t i) as Hroot by (unfold upto; intros Hi; unfold root_at; cbn [t1 gc_roots]; by rewrite Gro, decide_False by lia). change (gc_root_bucket t1) with (gc_root_bucket t).
    split; intros [Hu E]; specialize (Hroot Hu); (split; [done|congruence]). }
  destruct (link_spec t1 (upto (gc_roots_count t)) C (gc_roots_count t) HC1) as (t2 & E2 & (S1 & S2 & S3 & S4) & HC2); [cbn; lia|cbn; lia|unfold upto; lia|]. rewrite E2. cbn [mbind option_bind]. rewrite S3. cbn [t1 gc_roots_count].
  rewrite int_of_Some by (unfold in_i32, INT_MIN, INT_MAX; lia). cbn [mbind option_bind]. eexists. split; [done|]. cbn [t1 gc_roots gc_root_owners gc_roots_max] in S1, S2, S4.
  split; cbn [gc_roots gc_root_owners gc_roots_max gc_roots_count]; unfold spec_add.
  - rewrite S4, alen_app, alen_cons, alen_nil. lia.
  - right. eexists. apply chains_with_count. eapply chains_iff; [|exact HC2]. intros i. unfold upto. cbn [t1 gc_roots_count]. lia.
  - rewrite S1, S2, S4. lia.
  - intros i x Hx. rewrite S1, S2, Gro, Gow. assert (0 <= i < alen l + 1) as Hi by (apply aget_Some_range in Hx; unfold alen in *; rewrite length_app in Hx; cbn [length] in Hx; lia). destruct (decide (gc_roots_count t = i)) as [<-|].
    + rewrite Hc, aget_app_r, Z.sub_diag in Hx by lia. by injection Hx as <-.
    + rewrite aget_app_l in Hx by lia. by apply Hr.
Qed.
Lemma hl_add_root_owner_spec t l r owner : table_inv t l -> alen l < 2 ^ 28 -> exists t', hl_add_root_owner junk t r owner = Some t' /\ table_inv t' (spec_add l r owner).
Proof.
  intros Ht Hl. pose proof Ht as [[Hc Hm] _ _ _]. unfold hl_add_root_owner. destruct (Z.eqb_spec (gc_roots_count t) (gc_roots_max t)) as [E|E].
  - destruct (grow_roots_spec t l Ht E Hl) as (t1 & -> & H1 & Hlt). cbn [mbind option_bind]. by apply add_inv.
  - cbn [mbind option_bind]. apply add_inv; [done|lia].
Qed.
End fresh_memory.

(** ** Removing *)
Lemma last_index_spec l v : match last_index l v with
  | Some k => exists x, l !! k = Some x /\ x.1 = v /\ forall j y, l !! j = Some y -> y.1 = v -> (j <= k)%nat
  | None => forall j y, l !! j = Some y -> y.1 <> v end.
Proof.
  induction l as [|x l IH]; cbn [last_index]; [done|]. destruct (last_index l v) as [k|].
  - destruct IH as (y & H1 & H2 & H3). exists y. split; [done|]. split; [done|]. intros [|j] z Hz Hv; [lia|]. specialize (H3 j z Hz Hv). lia.
  - destruct (Z.eqb_spec x.1 v) as [E|E].
    + exists x. split; [done|]. split; [done|]. intros [|j] z Hz Hv; [done|]. by destruct (IH j z Hz).
    + intros [|j] z Hz; [injection Hz as <-; done|]. by apply (IH j).
Qed.
(** What the search of the chains finds. *)
Lemma found_spec t l C v : table_inv t l -> chains t (upto (gc_roots_count t)) C -> exists r,
  (i ← aget (gc_root_buckets t) (gc_root_bucket t v); find_root (S (length (gc_roots t))) t v i (-1)) = Some r /\
  match last_index l v with Some k => r = Z.of_nat k | None => r = -1 end.
Proof.
  intros Ht Hc. pose proof Ht as [[Hn Hm] _ _ Hr]. set (b := gc_root_bucket t v). pose proof (ch_max _ _ _ Hc). assert (0 <= b < 2 * gc_roots_max t) as Hb by (apply bucket_range; lia). rewrite (ch_head _ _ _ Hc b Hb). cbn [mbind option_bind].
  eexists. split.
  - apply (find_root_spec t v _ (C b) (-1)); [by apply (ch_seg _ _ _ Hc)| |pose proof (chain_length t _ C b Hc Hb); lia]. intros j Hj. pose proof (chain_range _ _ _ _ _ Hc Hb Hj). split; [lia|]. by apply (root_at_aget t (upto (gc_roots_count t)) C).
  - destruct (better_spec t v (C b) (-1)) as (B1 & B2 & B3). set (r := foldl (better t v) (-1) (C b)) in *.
    assert (forall j x, l !! j = Some x -> x.1 = v -> Z.of_nat j <= r) as Hle.
    { intros j x Hx Hv. rewrite <- aget_nat in Hx. pose proof (root_at_list t l _ _ Ht Hx) as E. apply B3; [|congruence]. apply (ch_in _ _ _ Hc b _ Hb). split; [apply aget_Some_range in Hx; unfold upto; lia|]. by rewrite E, Hv. }
    assert (0 <= r -> exists x, l !! Z.to_nat r = Some x /\ x.1 = v) as Hin.
    { intros H0. destruct B2 as [->|[B2 Hv]]; [lia|]. apply (ch_in _ _ _ Hc b _ Hb) in B2 as [Hu _]. unfold upto in Hu. destruct (aget_is_Some l r ltac:(lia)) as [x Hx]. exists x. split; [by rewrite <- aget_lookup by lia|]. rewrite <- Hv. symmetry. by apply (root_at_list t l). }
    pose proof (last_index_spec l v) as Hli. destruct (last_index l v) as [k|].
    + destruct Hli as (x & Hx & Hv & Hmax). pose proof (Hle k x Hx Hv). destruct Hin as (y & Hy & Hyv); [lia|]. specialize (Hmax _ _ Hy Hyv). lia.
    + destruct (decide (0 <= r)) as [H0|]; [|lia]. destruct (Hin H0) as (x & Hx & Hv). by destruct (Hli _ _ Hx).
Qed.
Lemma aget_removelast {A} (l : list A) i : aget (removelast l) i = if decide (i = alen l - 1) then None else aget l i.
Proof.
  destruct l as [|x l] using rev_ind; [cbn; case_decide; by rewrite ?(proj2 (aget_None _ _)) by (unfold alen; cbn; lia)|]. rewrite removelast_last. clear IHl.
  assert (alen (l ++ [x]) = alen l + 1) as -> by (unfold alen; rewrite length_app; cbn; lia). destruct (decide (i = alen l + 1 - 1)) as [->|]; [apply aget_None; lia|]. destruct (decide (i < alen l)); [by rewrite aget_app_l by lia|].
  rewrite !(proj2 (aget_None _ _)); [done| |lia]. unfold alen in *. rewrite length_app. cbn. lia.
Qed.
Lemma removed_at (l : list (Z * Z)) k x i y : 0 <= k < alen l -> aget (removelast (<[Z.to_nat k := x]> l)) i = Some y -> 0 <= i < alen l - 1 /\ (i = k /\ y = x \/ i <> k /\ aget l i = Some y).
Proof.
  intros Hk. rewrite aget_removelast, alen_insert. destruct (decide (i = alen l - 1)); [done|]. intros Hy. pose proof (aget_Some_range _ _ _ Hy) as Hi. rewrite alen_insert in Hi. split; [lia|].
  destruct (decide (i = k)) as [->|]; [rewrite aget_insert_eq in Hy by done; injection Hy as <-; by left|]. rewrite aget_insert_ne in Hy by lia. by right.
Qed.
Lemma alen_removelast {A} (l : list A) : 0 < alen l -> alen (removelast l) = alen l - 1.
Proof. destruct l as [|x l _] using rev_ind; [unfold alen; cbn; lia|]. intros _. rewrite removelast_last. unfold alen. rewrite length_app. cbn. lia. Qed.
Lemma aget_last (l : list (Z * Z)) x : last l = Some x -> aget l (alen l - 1) = Some x.
Proof. destruct l as [|y l _] using rev_ind; [done|]. rewrite last_snoc. intros [= ->]. unfold alen at 1. rewrite length_app. cbn [length]. rewrite aget_mid; [done|]. unfold alen. lia. Qed.
(** The removed root is found, unlinked, and the last one takes its place. *)
Lemma remove_at t l C k x : table_inv t l -> chains t (upto (gc_roots_count t)) C -> 0 <= k < alen l -> last l = Some x -> exists t',
  (t ← gc_root_unlink t k; let last := gc_roots_count t - 1 in
   let t := RootTable (gc_roots t) (gc_root_owners t) (gc_root_buckets t) (gc_root_next t) (gc_root_previous t) last (gc_roots_max t) in
   if negb (k =? last) then move_last t k last else Some t) = Some t' /\ table_inv t' (removelast (<[Z.to_nat k := x]> l)).
Proof.
  intros Ht Hc Hk Hx. pose proof Ht as [[Hn Hm] _ [L1 L2] Hr]. apply aget_last in Hx. destruct (root_unlink_spec t _ C k Hc) as (t1 & C1 & -> & (S1 & S2 & S3 & S4) & H1); [lia|unfold upto; lia|]. cbn [mbind option_bind]. cbv zeta. rewrite S3.
  set (lst := gc_roots_count t - 1). set (t2 := RootTable _ _ _ _ _ lst _). pose proof (chains_with_count _ _ _ lst H1) as H2. fold t2 in H2. destruct (Z.eqb_spec k lst) as [E|E]; cbn [negb].
  - exists t2. split; [done|]. split; cbn [t2 gc_roots gc_root_owners gc_roots_max gc_roots_count].
    + rewrite alen_removelast, alen_insert, S4 by (rewrite alen_insert; lia). unfold lst. lia.
    + right. exists C1. eapply chains_iff; [|exact H2]. intros i. unfold upto. cbn. lia.
    + rewrite S1, S2, S4. lia.
    + intros i y Hy. rewrite S1, S2. destruct (removed_at l k x i y Hk Hy) as [Hi [[-> _]|[_ Hy']]]; [lia|]. by apply Hr.
  - destruct (move_spec t2 _ C1 k lst H2) as (t' & C' & ro & ow & -> & M1 & M2 & (M3 & M4 & M5 & M6) & H3); [cbn; lia|unfold upto; lia|intros [_ ?]; done|cbn; lia|]. cbn [t2 gc_roots gc_root_owners gc_roots_max gc_roots_count] in M1, M2, M3, M4, M5, M6.
    exists t'. split; [done|]. rewrite S1 in M3, M5. rewrite S2 in M4, M6. split.
    + rewrite alen_removelast, alen_insert, M1, M2, S4 by (rewrite alen_insert; lia). unfold lst. lia.
    + right. exists C'. rewrite M1. eapply chains_iff; [|exact H3]. intros i. unfold upto. cbn. lia.
    + rewrite (aset_len _ _ _ _ M5), (aset_len _ _ _ _ M6), M2, S4. done.
    + intros i y Hy. assert (ro = x.1 /\ ow = x.2) as [-> ->] by (replace (alen l - 1) with lst in Hx by lia; apply Hr in Hx as [Hx1 Hx2]; split; congruence).
      destruct (removed_at l k x i y Hk Hy) as [Hi [[-> ->]|[Hne Hy']]]; [split; [apply (aget_aset_eq _ _ _ _ M5)|apply (aget_aset_eq _ _ _ _ M6)]|].
      rewrite (aget_aset_ne _ _ _ _ _ M5), (aget_aset_ne _ _ _ _ _ M6) by lia. by apply Hr.
Qed.
Lemma hl_remove_root_spec t l v : table_inv t l -> exists t', hl_remove_root t v = Some t' /\ table_inv t' (spec_remove l v).
Proof.
  intros Ht. pose proof Ht as [[Hn Hm] Hch _ _]. unfold hl_remove_root. destruct (Z.gtb_spec (gc_roots_count t) 0) as [H0|H0].
  2: { cbn [mbind option_bind]. change (-1 >=? 0) with false. cbv iota. exists t. split; [done|]. assert (l = []) as -> by (destruct l; [done|]; rewrite alen_cons in Hn; pose proof (alen_nonneg l); lia). done. }
  destruct Hch as [|[C HC]]; [lia|]. destruct (found_spec t l C v Ht HC) as (r & -> & Hr). cbn [mbind option_bind]. unfold spec_remove. destruct (last_index l v) as [k|] eqn:Ek.
  - subst r. pose proof (last_index_spec l v) as Hli. rewrite Ek in Hli. destruct Hli as (y & Hy & _). apply lookup_lt_Some in Hy. destruct (Z.geb_spec (Z.of_nat k) 0); [|lia]. destruct (last l) as [x|] eqn:Ex; [|apply last_None in Ex; subst l; cbn in Hy; lia].
    destruct (remove_at t l C (Z.of_nat k) x Ht HC ltac:(unfold alen; lia) Ex) as (t' & Hrem & Ht'). exists t'. split; [exact Hrem|]. by rewrite Nat2Z.id in Ht'.
  - subst r. change (-1 >=? 0) with false. cbv iota. by exists t.
Qed.

(** ** Histories *)
Inductive root_op := Add (r owner : Z) | Remove (r : Z).
Definition run_root_op (junk : Z -> Z) (t : root_table) (o : root_op) : option root_table := match o with Add r owner => hl_add_root_owner junk t r owner | Remove r => hl_remove_root t r end.
Definition spec_root_op (l : list (Z * Z)) (o : root_op) : list (Z * Z) := match o with Add r owner => spec_add l r owner | Remove r => spec_remove l r end.
Definition run_root_ops (junk : Z -> Z) (ops : list root_op) : option root_table := foldl (fun t o => t ← t; run_root_op junk t o) (Some no_roots) ops.
Lemma spec_remove_length l v : (length (spec_remove l v) <= length l)%nat.
Proof.
  unfold spec_remove. destruct (last_index l v), (last l); try lia. assert (forall m : list (Z * Z), (length (removelast m) <= length m)%nat) as Hm; [|etrans; [apply Hm|by rewrite length_insert]].
  intros m. destruct m as [|y m _] using rev_ind; [done|]. rewrite removelast_last, length_app. lia.
Qed.
Lemma spec_op_length l o : (length (spec_root_op l o) <= S (length l))%nat.
Proof. destruct o; cbn; [unfold spec_add; rewrite length_app; cbn; lia|]. pose proof (spec_remove_length l r). lia. Qed.
(** A registration is removed, and the others stay. *)
Lemma spec_remove_one l v : match last_index l v with Some k => exists o, l !! k = Some (v, o) /\ l ≡ₚ (v, o) :: spec_remove l v | None => spec_remove l v = l end.
Proof.
  unfold spec_remove. pose proof (last_index_spec l v) as Hli. destruct (last_index l v) as [k|]; [|done]. destruct Hli as ([v' o] & Hk & Hv & _). cbn in Hv. subst v'. exists o. split; [done|].
  destruct l as [|x l _] using rev_ind; [done|]. rewrite last_snoc. destruct (decide (k < length l)%nat) as [Hlt|Hge].
  - rewrite insert_app_l by done. rewrite removelast_last. rewrite lookup_app_l in Hk by done. rewrite (insert_take_drop l k x) by done. rewrite <- (take_drop_middle l k (v, o)) at 1 by done. rewrite <- app_assoc. cbn [app]. rewrite <- Permutation_middle. apply Permutation_skip, Permutation_app_head. symmetry. apply Permutation_cons_append.
  - assert (k = length l) as -> by (apply lookup_lt_Some in Hk; rewrite length_app in Hk; cbn in Hk; lia). rewrite lookup_app_r, Nat.sub_diag in Hk by lia. injection Hk as ->. rewrite insert_app_r_alt, Nat.sub_diag by lia. cbn. rewrite removelast_last. by rewrite <- Permutation_cons_append.
Qed.
Lemma run_root_ops_spec junk ops : forall t l, table_inv t l -> Z.of_nat (length ops) + alen l < 2 ^ 28 -> exists t', foldl (fun t o => t ← t; run_root_op junk t o) (Some t) ops = Some t' /\ table_inv t' (foldl spec_root_op l ops).
Proof.
  induction ops as [|o ops IH]; intros t l Ht Hl; cbn [foldl]; [by exists t|]. cbn [length] in Hl. cbn [mbind option_bind].
  assert (exists t', run_root_op junk t o = Some t' /\ table_inv t' (spec_root_op l o)) as (t' & E & Ht') by (destruct o; cbn [run_root_op spec_root_op]; [apply hl_add_root_owner_spec; [done|lia]|by apply hl_remove_root_spec]).
  rewrite E. apply IH; [done|]. pose proof (spec_op_length l o). unfold alen in *. lia.
Qed.
(** The roots of an owner. *)
Lemma owner_count_spec t l owner : table_inv t l -> hl_gc_owner_root_count t owner = Some (if owner =? 0 then 0 else Z.of_nat (length (filter (fun x => x.2 = owner) l))).
Proof.
  intros Ht. pose proof Ht as [[Hn Hm] _ _ Hr]. unfold hl_gc_owner_root_count. destruct (owner =? 0); [done|].
  destruct (afor_total (fun i count => o ← aget (gc_root_owners t) i; Some (if o =? owner then count + 1 else count)) (fun i count => count = Z.of_nat (length (filter (fun x => x.2 = owner) (take (Z.to_nat i) l)))) (Z.to_nat (gc_roots_count t)) 0 0) as (c & -> & Hc); [done| |].
  - intros j c Hj ->. destruct (aget_is_Some l j ltac:(lia)) as [x Hx]. destruct (Hr j x Hx) as [_ ->]. cbn [mbind option_bind]. eexists. split; [done|]. rewrite aget_lookup in Hx by lia. replace (Z.to_nat (j + 1)) with (S (Z.to_nat j)) by lia. rewrite (take_S_r _ _ _ Hx), filter_app, length_app. cbn [filter list_filter].
    destruct (Z.eqb_spec x.2 owner); [rewrite decide_True by done; cbn; lia|rewrite decide_False by done; cbn; lia].
  - rewrite Hc. rewrite take_ge; [done|]. unfold alen in Hn. lia.
Qed.
(** C40. The table of roots is the list of the registrations.  Any history of fewer than 2^28 calls
    of [hl_add_root_owner] and [hl_remove_root] succeeds, whatever fresh memory holds, and
    leaves the array a search from its end and moving the last root into the hole would
    leave; a removal takes away the latest of the array for that address, or nothing, and keeps the
    others; the count of an owner is the number of its registrations. *)
Theorem root_table_is_a_list junk ops : Z.of_nat (length ops) < 2 ^ 28 -> exists t, run_root_ops junk ops = Some t /\
  let l := foldl spec_root_op [] ops in contents t = l /\
  (forall v, match last_index l v with Some k => exists o, l !! k = Some (v, o) /\ l ≡ₚ (v, o) :: spec_remove l v | None => spec_remove l v = l end) /\
  forall owner, owner <> 0 -> hl_gc_owner_root_count t owner = Some (Z.of_nat (length (filter (fun x => x.2 = owner) l))).
Proof.
  intros Hl. destruct (run_root_ops_spec junk ops no_roots [] no_roots_inv) as (t & E & Ht); [unfold alen; cbn; lia|]. exists t. split; [exact E|]. cbv zeta. split; [by apply table_inv_contents|]. split; [apply spec_remove_one|].
  intros owner Ho. rewrite (owner_count_spec t _ owner Ht). by rewrite (proj2 (Z.eqb_neq owner 0) Ho).
Qed.
Definition ex_root_ops : list root_op := (fun i => Add (1000 + 8 * (i mod 20)) (1 + i mod 3)) <$> seqZ 0 40.
Theorem root_table_is_a_list_witness : Z.of_nat (length (ex_root_ops ++ [Remove 1016; Remove 1; Remove 1016])) < 2 ^ 28 /\
  exists t, run_root_ops (fun i => i) (ex_root_ops ++ [Remove 1016; Remove 1; Remove 1016]) = Some t /\ gc_roots_count t = 38 /\ gc_roots_max t = 64 /\ contents t = foldl spec_root_op [] (ex_root_ops ++ [Remove 1016; Remove 1; Remove 1016]) /\ ~ (1016, 3) ∈ contents t.
Proof.
  assert (Z.of_nat (length (ex_root_ops ++ [Remove 1016; Remove 1; Remove 1016])) < 2 ^ 28) as Hl by (vm_compute; congruence). split; [exact Hl|]. destruct (root_table_is_a_list (fun i => i) _ Hl) as (t & E & Hc & _). exists t. split; [exact E|].
  assert (gc_roots_count t = 38 /\ gc_roots_max t = 64) as [H1 H2] by (vm_compute in E; injection E as <-; done). split; [exact H1|]. split; [exact H2|]. split; [exact Hc|]. rewrite Hc. vm_compute. intros H. repeat (apply elem_of_cons in H as [H|H]; [discriminate H|]). by apply not_elem_of_nil in H.
Defined.
