(* ===== verification/Incremental.v ===== *)
(** * Incremental collection ([src/gc_incremental.c], [src/gc_write_tracking.c])

    A cycle is a sequence of slices between which the program runs.  The first slices give
    every page a clear bitmap; the next ones mark from the roots, with a stack of blocks to
    scan; the pages written to since the last capture are queued and their marked blocks
    scanned again.  New objects are marked when they are allocated.  The cycle is complete
    when nothing is left to scan after a capture and a scan of the roots in the same pause.

    Pages are numbered; a pointer to a page is its number, and pages are only added during a
    cycle.  A pointer into a list of pages is what is left of the list.  [incremental_bmp] is
    [bmp] of the pages prepared in the cycle, whose bitmap has twice the bytes of a marking
    bitmap: the second half has a bit for each block in the worklist.  Linux keeps a bit for
    each page of the operating system written to ([/proc/self/pagemap], [clear_refs]): [soft]
    is the set of their numbers.  What the outside world answers is a function of the number of
    questions asked in the slice: [late] for [hl_sys_time() >= deadline], [works] for reads of
    the page map and for clearing.  The profile of scans, the statistics and the test mode
    without the system's bits are not modelled. *)
From S2P Require Import Prelude PageMap Allocator Marking.

(** The bytes of a marking bitmap, and the place of the bit of [queued] in [incremental_bmp]. *)
Definition bmp_bytes (ph : gc_pheader) : Z := Z.shiftr (max_blocks ph + 7) 3.
Definition queued_bit (ph : gc_pheader) (bid : Z) : Z := 8 * bmp_bytes ph + bid.
Definition bmp_clear (bmp : list Z) (bid : Z) : option (list Z) :=
  b ← aget bmp (Z.shiftr bid 3); aset bmp (Z.shiftr bid 3) (u8 (Z.land b (Z.lnot (Z.shiftl 1 (Z.land bid 7))))).

(** ** Visiting pointers *)
Definition gc_inc_enqueue (ps : list gpage) (st : mark_stack) (i : nat) (g : gpage) (bid : Z) : option (list gpage * mark_stack) :=
  if negb (MEM_HAS_PTR (page_kind g)) then Some (ps, st) else
  b ← bmp (head g);
  queued ← bmp_test b (queued_bit (head g) bid);
  if (queued : bool) then Some (ps, st) else
  b ← bmp_set b (queued_bit (head g) bid);
  Some (<[i := set_bmp g b]> ps, base (head g) + bid * block_size (head g) :: st).
Definition gc_inc_visit_page (ps : list gpage) (st : mark_stack) (ptr : Z) (i : nat) (g : gpage) (interior : bool) : option (list gpage * mark_stack) :=
  bid ← (if interior then '(bid, _) ← gc_allocator_get_block_interior (head g) ptr; Some bid else gc_allocator_get_block_id (head g) ptr);
  if bid <? 0 then Some (ps, st) else
  b ← bmp (head g);
  marked ← bmp_test b bid;
  if (marked : bool) then Some (ps, st) else
  b ← bmp_set b bid;
  let g := set_bmp g b in
  gc_inc_enqueue (<[i := g]> ps) st i g bid.
Definition gc_inc_visit (ps : list gpage) (st : mark_stack) (ptr : Z) (interior : bool) : option (list gpage * mark_stack) :=
  if ptr =? 0 then Some (ps, st) else
  match get_page ps ptr with
  | None => Some (ps, st)
  | Some (i, g) => gc_inc_visit_page ps st ptr i g interior
  end.
(** The values of the roots, then the words of the pinned lists, stacks and registers. *)
Fixpoint gc_inc_roots (ps : list gpage) (st : mark_stack) (ws : list Z) : option (list gpage * mark_stack) :=
  match ws with [] => Some (ps, st) | w :: ws => '(ps, st) ← gc_inc_visit ps st w true; gc_inc_roots ps st ws end.

(** ** Scanning blocks
    The pages, the stack, [gc_inc_block], [gc_inc_cursor] and [gc_inc_end]. *)
Record tracer := Tracer { tr_pages : list gpage; tr_stack : mark_stack; tr_block : Z; tr_cursor : Z; tr_end : Z }.
Definition with_marked (tr : tracer) (r : list gpage * mark_stack) : tracer := Tracer r.1 r.2 (tr_block tr) (tr_cursor tr) (tr_end tr).
Definition total_blocks (ps : list gpage) : Z := foldr (fun g n => max_blocks (head g) + n) 0 ps.

Section slice.
Context (mem : Z -> Z) (late works : nat -> bool).

(** The page of a word, with the page of the last hit ([target_page]) tried first. *)
Definition drain_page (ps : list gpage) (target : option nat) (ptr : Z) : option (option (nat * gpage) * option nat) :=
  let search := match get_page ps ptr with Some (i, g) => (Some (i, g), Some i) | None => (None, target) end in
  match target with
  | None => Some search
  | Some i => g ← ps !! i; Some (if u64 (ptr - base (head g)) >=? page_size (head g) then search else (Some (i, g), target))
  end.
Definition drain_word (ps : list gpage) (st : mark_stack) (target : option nat) (ptr : Z) : option (list gpage * mark_stack * option nat) :=
  if ptr =? 0 then Some (ps, st, target) else
  '(page, target) ← drain_page ps target ptr;
  match (page : option (nat * gpage)) with
  | None => Some (ps, st, target)
  | Some (i, g) => '(ps, st) ← gc_inc_visit_page ps st ptr i g false; Some (ps, st, target)
  end.
(** [while( cursor < end )], [n] words: whether the time is over is asked every 256 words. *)
Fixpoint drain_words (n : nat) (tr : tracer) (target : option nat) (words : Z) (now : nat) : option (tracer * option nat * Z * nat * bool) :=
  match n with
  | O => Some (tr, target, words, now, false)
  | S n =>
      '(ps, st, target) ← drain_word (tr_pages tr) (tr_stack tr) target (u64 (mem (tr_cursor tr)));
      let tr := Tracer ps st (tr_block tr) (tr_cursor tr + 8) (tr_end tr) in
      let words := u32 (words + 1) in
      if Z.land words 255 =? 0 then if late now then Some (tr, target, words, S now, true) else drain_words n tr target words (S now)
      else drain_words n tr target words now
  end.
Definition drain_bid (ph : gc_pheader) (block : Z) : Z :=
  let offset := i32 (block - base ph) in
  if negb (block_bits ph =? 0) then Z.shiftr offset (block_bits ph) else Z.quot offset (block_size ph).
(** A block from the stack when none is being scanned. *)
Definition drain_pop (tr : tracer) : option tracer :=
  if negb (tr_cursor tr =? 0) then Some tr else
  match tr_stack tr with
  | [] => None
  | block :: st =>
      '(_, g) ← get_page (tr_pages tr) block;
      size ← (match sizes (head g) with Some s => n ← aget s (drain_bid (head g) block); int_of (block_size (head g) * n) | None => Some (block_size (head g)) end);
      Some (Tracer (tr_pages tr) st block block (block + 8 * Z.quot size 8))
  end.
(** The end of a block: its bit of [queued] is cleared. *)
Definition drain_finish (tr : tracer) : option tracer :=
  '(i, g) ← get_page (tr_pages tr) (tr_block tr);
  b ← bmp (head g);
  b ← bmp_clear b (queued_bit (head g) (drain_bid (head g) (tr_block tr)));
  Some (Tracer (<[i := set_bmp g b]> (tr_pages tr)) (tr_stack tr) 0 0 0).
Definition drain_step (s : tracer * option nat * Z * Z * nat) : option ((tracer * option nat * Z * Z * nat) + (tracer * nat * bool)) :=
  let '(tr, target, words, objects, now) := s in
  if (tr_cursor tr =? 0) && (alen (tr_stack tr) =? 0) then Some (inr (tr, now, true)) else
  tr ← drain_pop tr;
  '(tr, target, words, now, stop) ← drain_words (Z.to_nat (Z.quot (tr_end tr - tr_cursor tr) 8)) tr target words now;
  if (stop : bool) then Some (inr (tr, now, false)) else
  tr ← drain_finish tr;
  let objects := u32 (objects + 1) in
  if Z.land objects 63 =? 0 then if late now then Some (inr (tr, S now, false)) else Some (inl (tr, target, words, objects, S now))
  else Some (inl (tr, target, words, objects, now)).
Definition gc_inc_drain (tr : tracer) (now : nat) : option (tracer * nat * bool) :=
  loop drain_step (3 + length (tr_stack tr) + Z.to_nat (total_blocks (tr_pages tr))) (tr, None, 0, 0, now).

(** ** Pages written to
    The flags [software_dirty], the incoming notifications, the batch being drained and their
    number. *)
Record dirty_queue := Dirty { dq_flags : list bool; dq_incoming : list nat; dq_batch : list nat; dq_count : Z }.
Definition gc_dirty_enqueue (dq : dirty_queue) (i : nat) (g : gpage) : option dirty_queue :=
  if negb (MEM_HAS_PTR (page_kind g)) then Some dq else
  f ← dq_flags dq !! i;
  Some (if (f : bool) then dq else Dirty (<[i := true]> (dq_flags dq)) (i :: dq_incoming dq) (dq_batch dq) (u32 (dq_count dq + 1))).
Definition gc_dirty_capture_done (dq : dirty_queue) : outcome dirty_queue :=
  if negb (alen (dq_batch dq) =? 0) then Raise "Dirty capture with unfinished batch"%string else Done (Dirty (dq_flags dq) [] (dq_incoming dq) (dq_count dq)).
Definition gc_dirty_pop (dq : dirty_queue) : option nat * dirty_queue :=
  match dq_batch dq with [] => (None, dq) | i :: rest => (Some i, Dirty (<[i := false]> (dq_flags dq)) (dq_incoming dq) rest (u32 (dq_count dq - 1))) end.

(** *** Scanning them again
    [gc_inc_rescan_cursor] and [gc_inc_rescan_bid]. *)
Record rescan := Rescan { rs_page : option nat; rs_bid : Z }.
(** A block of the page: the block being scanned starts again, any other marked one is queued. *)
Definition rescan_block (i : nat) (bid : Z) (tr : tracer) : option tracer :=
  g ← tr_pages tr !! i;
  b ← bmp (head g);
  marked ← bmp_test b bid;
  if (marked : bool) then
    let block := base (head g) + bid * block_size (head g) in
    if block =? tr_block tr then Some (Tracer (tr_pages tr) (tr_stack tr) (tr_block tr) block (tr_end tr))
    else r ← gc_inc_enqueue (tr_pages tr) (tr_stack tr) i g bid; Some (with_marked tr r)
  else Some tr.
Fixpoint rescan_blocks (n : nat) (i : nat) (bid : Z) (tr : tracer) (blocks : Z) (now : nat) : option (tracer * Z * Z * nat * bool) :=
  match n with
  | O => Some (tr, bid, blocks, now, false)
  | S n =>
      tr ← rescan_block i bid tr;
      let blocks := u32 (blocks + 1) in
      if Z.land blocks 63 =? 0 then if late now then Some (tr, bid + 1, blocks, S now, true) else rescan_blocks n i (bid + 1) tr blocks (S now)
      else rescan_blocks n i (bid + 1) tr blocks now
  end.
Definition rescan_next (ps : list gpage) (dq : dirty_queue) (rs : rescan) : option (option nat * Z * dirty_queue) :=
  match rs_page rs with
  | Some i => Some (Some i, rs_bid rs, dq)
  | None =>
      match gc_dirty_pop dq with
      | (None, dq) => Some (None, rs_bid rs, dq)
      | (Some i, dq) => g ← ps !! i; Some (Some i, first_block (head g), dq)
      end
  end.
Definition rescan_step (s : tracer * dirty_queue * rescan * Z * nat) : option ((tracer * dirty_queue * rescan * Z * nat) + (tracer * dirty_queue * rescan * nat * bool)) :=
  let '(tr, dq, rs, blocks, now) := s in
  '(page, bid, dq) ← rescan_next (tr_pages tr) dq rs;
  match (page : option nat) with
  | None => Some (inr (tr, dq, Rescan None bid, now, true))
  | Some i =>
      g ← tr_pages tr !! i;
      '(tr, bid, blocks, now, stop) ← rescan_blocks (Z.to_nat (max_blocks (head g) - bid)) i bid tr blocks now;
      if (stop : bool) then Some (inr (tr, dq, Rescan (Some i) bid, now, false)) else
      if late now then Some (inr (tr, dq, Rescan None bid, S now, false)) else Some (inl (tr, dq, Rescan None bid, blocks, S now))
  end.
Definition gc_inc_rescan_dirty (tr : tracer) (dq : dirty_queue) (rs : rescan) (now : nat) : option (tracer * dirty_queue * rescan * nat * bool) :=
  loop rescan_step (3 + length (dq_batch dq)) (tr, dq, rs, 0, now).
Definition gc_inc_trace_slice (roots : list Z) (tr : tracer) (dq : dirty_queue) (rs : rescan) (now : nat) : option (tracer * dirty_queue * rescan * nat * bool) :=
  r ← gc_inc_roots (tr_pages tr) (tr_stack tr) roots;
  '(tr, dq, rs, now, clean) ← gc_inc_rescan_dirty (with_marked tr r) dq rs now;
  if (clean : bool) then '(tr, now, done_) ← gc_inc_drain tr now; Some (tr, dq, rs, now, done_) else Some (tr, dq, rs, now, false).

(** *** Reading the bits of the system
    [gc_inc_os_page] is the size of its pages; [lists] are the lists of pages of [gc_pages]. *)
Context (os_page : Z) (soft : gset Z) (lists : list (list nat)) (ps : list gpage).
(** Up to 256 pages of the system: whether the read worked, the new offset and whether a bit is set. *)
Definition gc_inc_capture_chunk (g : gpage) (offset : Z) (dirty : bool) (now : nat) : bool * Z * bool * nat :=
  let count := Z.quot (page_size (head g) - offset) os_page in
  let count := if count >? 256 then 256 else count in
  if count <=? 0 then (false, offset, dirty, now) else
  if negb (works now) then (false, offset, dirty, S now) else
  let first := Z.quot (base (head g) + offset) os_page in
  (true, offset + count * os_page, dirty || existsb (fun e => bool_decide (e ∈ soft)) (seqZ first count), S now).
(** A page of [gc_inc_capture_all]: whether the reads worked and whether a bit is set. *)
Definition capture_page (g : gpage) (now : nat) : option (bool * bool * nat) :=
  loop (fun '(offset, dirty, now) =>
      if (offset <? page_size (head g)) && negb dirty then
        let '(ok, offset, dirty, now) := gc_inc_capture_chunk g offset dirty now in
        if ok then Some (inl (offset, dirty, now)) else Some (inr (false, dirty, now))
      else Some (inr (true, dirty, now))) (2 + Z.to_nat (Z.quot (page_size (head g)) os_page)) (0, false, now).
Fixpoint capture_pages (l : list nat) (dq : dirty_queue) (now : nat) : option (bool * dirty_queue * nat) :=
  match l with
  | [] => Some (true, dq, now)
  | i :: l =>
      g ← ps !! i;
      if negb (MEM_HAS_PTR (page_kind g)) then capture_pages l dq now else
      '(ok, dirty, now) ← capture_page g now;
      if negb ok then Some (false, dq, now) else
      dq ← (if (dirty : bool) then gc_dirty_enqueue dq i g else Some dq);
      capture_pages l dq now
  end.
Definition gc_inc_capture_all (dq : dirty_queue) (now : nat) : option (bool * dirty_queue * nat) := capture_pages (concat lists) dq now.

(** The walk of [gc_inc_collect_dirty]: [gc_inc_dirty_pid], [_cursor], [_offset], [_walk] and [_spanned]. *)
Record walk := Walk { wk_pid : Z; wk_cursor : list nat; wk_offset : Z; wk_walk : bool; wk_spanned : bool }.
Definition gc_inc_dirty_reset : walk := Walk 0 [] 0 false false.
(** The page of the cursor: whether its read worked. *)
Definition walk_page (wk : walk) (i : nat) (rest : list nat) (dq : dirty_queue) (now : nat) : option (bool * walk * dirty_queue * nat) :=
  g ← ps !! i;
  let '(ok, offset, dirty, now) := if MEM_HAS_PTR (page_kind g) then gc_inc_capture_chunk g (wk_offset wk) false now else (true, wk_offset wk, false, now) in
  if negb ok then Some (false, wk, dq, now) else
  dq ← (if (dirty : bool) then gc_dirty_enqueue dq i g else Some dq);
  let next := dirty || negb (MEM_HAS_PTR (page_kind g)) || (offset >=? page_size (head g)) in
  Some (true, Walk (wk_pid wk) (if next then rest else wk_cursor wk) (if next then 0 else offset) (wk_walk wk) (wk_spanned wk), dq, now).
(** The result: whether the capture worked and whether it is complete. *)
Definition walk_step (s : walk * dirty_queue * nat) : option ((walk * dirty_queue * nat) + (walk * dirty_queue * nat * bool * bool)) :=
  let '(wk, dq, now) := s in
  match wk_cursor wk with
  | [] =>
      if wk_pid wk <? GC_PAGE_SLOTS then
        l ← aget lists (wk_pid wk); Some (inl (Walk (wk_pid wk + 1) l (wk_offset wk) (wk_walk wk) (wk_spanned wk), dq, now))
      else if wk_spanned wk then
        '(ok, dq, now) ← gc_inc_capture_all dq now;
        if (ok : bool) then Some (inr (gc_inc_dirty_reset, dq, now, true, true)) else Some (inr (wk, dq, now, false, false))
      else Some (inr (gc_inc_dirty_reset, dq, now, true, true))
  | i :: rest =>
      '(ok, wk, dq, now) ← walk_page wk i rest dq now;
      if negb ok then Some (inr (wk, dq, now, false, false)) else
      if late now then Some (inr (Walk (wk_pid wk) (wk_cursor wk) (wk_offset wk) (wk_walk wk) true, dq, S now, true, false))
      else Some (inl (wk, dq, S now))
  end.
(** The reads of the pages of some lists. *)
Definition chunks (l : list nat) : Z := foldr (fun i n => match ps !! i with Some g => Z.quot (page_size (head g)) os_page + n | None => n end) 0 l.
Definition gc_inc_collect_dirty (wk : walk) (dq : dirty_queue) (now : nat) : option (walk * dirty_queue * nat * bool * bool) :=
  let wk := if negb (wk_walk wk) then Walk 0 [] 0 true false else wk in
  loop walk_step (2 + Z.to_nat GC_PAGE_SLOTS + length (wk_cursor wk) + length (concat lists) + Z.to_nat (chunks (wk_cursor wk) + chunks (concat lists))) (wk, dq, now).
End slice.

(** ** The state of a cycle
    Between slices the program and the collector share the pages ([tr_pages]), their
    [incremental_epoch], whether their bitmap is an [incremental_bmp] of their own, the lists,
    the words of memory, [soft] and [hl_gc_write_barrier_active]. *)
Record inc_state := Inc {
  in_tracer : tracer; in_epochs : list Z; in_own : list bool; in_lists : list (list nat);
  in_mem : Z -> Z; in_soft : gset Z; in_barrier : bool;
  in_dirty : dirty_queue; in_rescan : rescan; in_walk : walk;
  in_pid : Z; in_cursor : list nat;
  in_active : bool; in_preparing : bool; in_discovering : bool; in_epoch : Z }.
Definition in_pages (s : inc_state) : list gpage := tr_pages (in_tracer s).

Section cycle.
Context (junk : gc_fl) (os_page : Z).

(** ** Preparing pages *)
Definition with_bmp (ph : gc_pheader) (b : option (list Z)) (flush : bool) : gc_pheader :=
  Page (base ph) (page_size ph) b (block_size ph) (block_bits ph) (max_blocks ph) (first_block ph) (free ph) (sizes ph) flush.
(** The pages, their epochs and their ownership of bitmaps. *)
Record prepared := Prep { pp_pages : list gpage; pp_epochs : list Z; pp_own : list bool }.
Definition gc_inc_prepare_page (epoch : Z) (s : prepared) (i : nat) : option prepared :=
  g ← pp_pages s !! i;
  e ← pp_epochs s !! i;
  if e =? epoch then Some s else
  ph ← flush_if_needed junk (head g);
  let ph := with_bmp ph (Some (replicate (Z.to_nat (bmp_bytes ph * 2)) 0)) (need_flush ph) in
  Some (Prep (<[i := GPage ph (page_kind g)]> (pp_pages s)) (<[i := epoch]> (pp_epochs s)) (<[i := true]> (pp_own s))).
(** [gc_inc_prepare_slice], with [gc_inc_prepare_pid] and [gc_inc_prepare_cursor]: whether it is done. *)
Definition prepare_step (late : nat -> bool) (lists : list (list nat)) (epoch : Z) (s : Z * list nat * prepared * nat) : option ((Z * list nat * prepared * nat) + (Z * list nat * prepared * nat * bool)) :=
  let '(pid, cursor, p, now) := s in
  match cursor with
  | [] => if pid <? GC_PAGE_SLOTS then l ← aget lists pid; Some (inl (pid + 1, l, p, now)) else Some (inr (pid, [], p, now, true))
  | i :: rest =>
      p ← gc_inc_prepare_page epoch p i;
      if late now then Some (inr (pid, rest, p, S now, false)) else Some (inl (pid, rest, p, S now))
  end.
Definition gc_inc_prepare_slice (late : nat -> bool) (lists : list (list nat)) (epoch pid : Z) (cursor : list nat) (p : prepared) (now : nat) : option (Z * list nat * prepared * nat * bool) :=
  loop (prepare_step late lists epoch) (2 + Z.to_nat GC_PAGE_SLOTS + length cursor + length (concat lists)) (pid, cursor, p, now).
Definition in_prepared (s : inc_state) : prepared := Prep (in_pages s) (in_epochs s) (in_own s).
Definition with_prepared (s : inc_state) (p : prepared) (pid : Z) (cursor : list nat) (preparing : bool) : inc_state :=
  let tr := in_tracer s in
  Inc (Tracer (pp_pages p) (tr_stack tr) (tr_block tr) (tr_cursor tr) (tr_end tr)) (pp_epochs p) (pp_own p) (in_lists s) (in_mem s) (in_soft s) (in_barrier s)
    (in_dirty s) (in_rescan s) (in_walk s) pid cursor (in_active s) preparing (in_discovering s) (in_epoch s).

(** ** One slice *)
(** The start of a cycle: [gc_inc_linux_begin] clears the flags and queues, then the system's
    bits; [ok] is whether that worked. *)
Definition clear_flags (lists : list (list nat)) (flags : list bool) : list bool := foldl (fun f i => <[i := false]> f) flags (concat lists).
Definition inc_begin (works : nat -> bool) (s : inc_state) (now : nat) : outcome (inc_state * nat * bool) :=
  let epoch := u64 (in_epoch s + 1) in
  if epoch =? 0 then Raise "Incremental GC epoch overflow"%string else
  let ok := works now in
  Done (Inc (in_tracer s) (in_epochs s) (in_own s) (in_lists s) (in_mem s) (if ok then ∅ else in_soft s) true
    (Dirty (clear_flags (in_lists s) (dq_flags (in_dirty s))) [] [] 0) (in_rescan s) gc_inc_dirty_reset 0 [] true true (in_discovering s) epoch, S now, ok).
Definition with_traced (s : inc_state) (tr : tracer) (dq : dirty_queue) (rs : rescan) : inc_state :=
  Inc tr (in_epochs s) (in_own s) (in_lists s) (in_mem s) (in_soft s) (in_barrier s) dq rs (in_walk s) (in_pid s) (in_cursor s) (in_active s) (in_preparing s) (in_discovering s) (in_epoch s).
Definition trace_slice (late : nat -> bool) (roots : list Z) (s : inc_state) (now : nat) : option (inc_state * nat * bool) :=
  '(tr, dq, rs, now, done_) ← gc_inc_trace_slice (in_mem s) late roots (in_tracer s) (in_dirty s) (in_rescan s) now;
  Some (with_traced s tr dq rs, now, done_).
Definition with_captured (s : inc_state) (soft : gset Z) (dq : dirty_queue) (wk : walk) (discovering : bool) : inc_state :=
  Inc (in_tracer s) (in_epochs s) (in_own s) (in_lists s) (in_mem s) soft (in_barrier s) dq (in_rescan s) wk (in_pid s) (in_cursor s) (in_active s) (in_preparing s) discovering (in_epoch s).
(** [gc_inc_capture_slice]: collecting, and when that is complete clearing the system's bits and
    freezing the batch; whether it worked and whether it is complete. *)
Definition gc_inc_capture_slice (late works : nat -> bool) (s : inc_state) (now : nat) : outcome (inc_state * nat * bool * bool) :=
  '(wk, dq, now, ok, captured) ← ub (gc_inc_collect_dirty late works os_page (in_soft s) (in_lists s) (in_pages s) (in_walk s) (in_dirty s) now);
  if ok && captured then
    if works now then
      dq ← gc_dirty_capture_done dq; Done (with_captured s ∅ dq wk false, S now, true, true)
    else Done (with_captured s (in_soft s) dq wk false, S now, false, true)
  else Done (with_captured s (in_soft s) dq wk (ok && negb captured), now, ok, captured).

(** [gc_inc_publish_marks] on every page, and the end of tracking. *)
Definition publish (ps : list gpage) (l : list nat) : option (list gpage) :=
  foldl (fun ps i => ps ← ps; g ← ps !! i; Some (<[i := GPage (with_bmp (head g) (bmp (head g)) true) (page_kind g)]> ps)) (Some ps) l.
Definition tracking_end (dq : dirty_queue) : dirty_queue := Dirty (dq_flags dq) [] [] 0.
Definition inc_complete (s : inc_state) : option inc_state :=
  ps ← publish (in_pages s) (concat (in_lists s));
  let tr := in_tracer s in
  Some (Inc (Tracer ps (tr_stack tr) (tr_block tr) (tr_cursor tr) (tr_end tr)) (in_epochs s) (in_own s) (in_lists s) (in_mem s) (in_soft s) false
    (tracking_end (in_dirty s)) (in_rescan s) (in_walk s) (in_pid s) (in_cursor s) false (in_preparing s) (in_discovering s) (in_epoch s)).
(** [gc_inc_release_bitmap] on every page, and [gc_incremental_discard] in an active cycle. *)
Definition release (p : list gpage * list bool) (l : list nat) : option (list gpage * list bool) :=
  foldl (fun p i => '(ps, own) ← p; g ← ps !! i; o ← own !! i;
    Some (if (o : bool) then (<[i := GPage (with_bmp (head g) None (need_flush (head g))) (page_kind g)]> ps, <[i := false]> own) else (ps, own))) (Some p) l.
Definition gc_incremental_discard (s : inc_state) : option inc_state :=
  '(ps, own) ← release (in_pages s, in_own s) (concat (in_lists s));
  Some (Inc (Tracer ps [] 0 0 0) (in_epochs s) own (in_lists s) (in_mem s) (in_soft s) false (tracking_end (in_dirty s)) (Rescan None 0) (in_walk s) 0 [] false false false (in_epoch s)).

(** What a slice ends with: work is left, the cycle is complete and its marks are published, or
    tracking failed and a collection of the stopped world follows ([gc_major]), which first
    discards the cycle. *)
Inductive verdict := More | Complete | Fallback.
(** Tracing, and when nothing is left a capture and tracing again, in the same pause. *)
Definition trace_and_capture (late works : nat -> bool) (roots : list Z) (captured : bool) (s : inc_state) (now : nat) : outcome (inc_state * bool * bool) :=
  '(s, now, done_) ← ub (trace_slice late roots s now);
  if done_ && negb captured then
    '(s, now, ok, captured) ← gc_inc_capture_slice late works s now;
    if ok && captured then '(s, _, done_) ← ub (trace_slice late roots s now); Done (s, true, done_) else Done (s, ok, false)
  else Done (s, true, done_).
Definition inc_trace (late works : nat -> bool) (roots : list Z) (s : inc_state) (now : nat) : outcome (inc_state * bool * bool) :=
  if in_discovering s then
    '(s, now, ok, captured) ← gc_inc_capture_slice late works s now;
    if ok && negb (in_discovering s) then trace_and_capture late works roots captured s now else Done (s, ok, false)
  else trace_and_capture late works roots false s now.
(** [gc_incremental_step_unbudgeted_locked] from the stop of the world on: [roots] are the values
    of the roots and the words of the pinned lists, stacks and registers. *)
Definition gc_incremental_step (late works : nat -> bool) (roots : list Z) (s : inc_state) : outcome (inc_state * verdict) :=
  '(s, now, ok) ← (if in_active s then Done (s, 0%nat, true) else inc_begin works s 0);
  '(s, ok, done_) ←
    (if (ok : bool) then
      if in_preparing s then
        '(pid, cursor, p, _, done_) ← ub (gc_inc_prepare_slice late (in_lists s) (in_epoch s) (in_pid s) (in_cursor s) (in_prepared s) now);
        Done (with_prepared s p pid cursor (negb done_), true, false)
      else inc_trace late works roots s now
    else Done (s, false, false));
  if negb (ok : bool) then s ← ub (gc_incremental_discard s); Done (s, Fallback) else
  if (done_ : bool) then s ← ub (inc_complete s); Done (s, Complete) else Done (s, More).

(** ** The program between slices *)
(** [gc_incremental_allocated]: a new object is marked, in a page that is prepared first. *)
Definition gc_incremental_allocated (epoch : Z) (p : prepared) (ptr : Z) : outcome prepared :=
  '(i, _) ← ub (get_page (pp_pages p) ptr);
  p ← ub (gc_inc_prepare_page epoch p i);
  g ← ub (pp_pages p !! i);
  bid ← ub (gc_allocator_get_block_id (head g) ptr);
  match bmp (head g) with
  | None => Raise "Invalid incremental allocation"%string
  | Some b =>
      if bid <? 0 then Raise "Invalid incremental allocation"%string else
      b ← ub (bmp_set b bid); Done (Prep (<[i := set_bmp g b]> (pp_pages p)) (pp_epochs p) (pp_own p))
  end.
(** A request: the partition, and for a partition with a size table the number of blocks, for a
    large block its size. *)
Inductive request := RFixed (part : Z) | RVar (part nblocks : Z) | RLarge (size : Z).
Definition request_part (r : request) : Z := match r with RFixed part | RVar part _ => part | RLarge _ => GC_LARGE_PART end.
(** A page of the list that has room: [gc_alloc_fixed_run] and [gc_alloc_var] look at the pages
    one by one.  The page and the block taken. *)
Definition take_in (ph : gc_pheader) (r : request) : option (option (gc_pheader * Z)) :=
  match r with
  | RFixed _ => '(_, r) ← scan_fixed junk [ph] 1; Some (option_map (fun '(_, ph, bid, _) => (ph, bid)) r)
  | RVar _ nblocks => '(_, r) ← scan_var junk [ph] nblocks; Some (option_map (fun '(_, ph, bid) => (ph, bid)) r)
  | RLarge _ => Some None
  end.
(** A new page for the request, and the block taken; [num] is the number of pages of the list. *)
Definition take_new (num : Z) (new_base : Z -> Z) (r : request) : outcome (gc_pheader * Z) :=
  match r with
  | RFixed part =>
      block ← ub (aget GC_SIZES part);
      ph ← gc_allocator_new_page junk num new_base true block GC_PAGE_SIZE false;
      c ← ub (aget (data (free ph)) 0); fl ← ub (take_first (free ph) 1); Done (set_free ph fl, c.1)
  | RVar part nblocks =>
      block ← ub (aget GC_SIZES part); psize ← ub (page_size_for (nblocks * block));
      ph ← gc_allocator_new_page junk num new_base true block psize true;
      fl ← ub (take_first (free ph) nblocks);
      let bid := first_block ph in
      ph ← ub (finish_var (set_free ph fl) bid nblocks); Done (ph, bid)
  | RLarge size => ph ← gc_allocator_new_page junk num new_base true size size false; Done (ph, 0)
  end.
Definition with_pages (s : inc_state) (p : prepared) : inc_state := with_prepared s p (in_pid s) (in_cursor s) (in_preparing s).
Definition alloc_old (s : inc_state) (i : nat) (r : request) : outcome (option (inc_state * Z)) :=
  g ← ub (in_pages s !! i);
  t ← ub (take_in (head g) r);
  match (t : option (gc_pheader * Z)) with
  | None => Done None
  | Some (ph, bid) =>
      let ptr := base ph + bid * block_size ph in
      p ← gc_incremental_allocated (in_epoch s) (Prep (<[i := GPage ph (page_kind g)]> (in_pages s)) (in_epochs s) (in_own s)) ptr;
      Done (Some (with_pages s p, ptr))
  end.
(** A new page, in front of its list, is prepared. *)
Definition alloc_new (s : inc_state) (pid num : Z) (new_base : Z -> Z) (r : request) : outcome (inc_state * Z) :=
  '(ph, bid) ← take_new num new_base r;
  l ← ub (aget (in_lists s) pid);
  lists ← ub (aset (in_lists s) pid (length (in_pages s) :: l));
  let ptr := base ph + bid * block_size ph in
  p ← gc_incremental_allocated (in_epoch s) (Prep (in_pages s ++ [GPage ph (Z.land pid 3)]) (in_epochs s ++ [in_epoch s]) (in_own s ++ [true])) ptr;
  let s := with_pages s p in
  let dq := in_dirty s in
  Done (Inc (in_tracer s) (in_epochs s) (in_own s) lists (in_mem s) (in_soft s) (in_barrier s)
    (Dirty (dq_flags dq ++ [false]) (dq_incoming dq) (dq_batch dq) (dq_count dq)) (in_rescan s) (in_walk s) (in_pid s) (in_cursor s) (in_active s) (in_preparing s) (in_discovering s) (in_epoch s), ptr).

(** The barrier of the program: the page of each 64 KB unit written to. *)
Definition barrier_page (ps : list gpage) (dq : dirty_queue) (p : Z) : option dirty_queue :=
  match get_page ps p with Some (i, g) => gc_dirty_enqueue dq i g | None => Some dq end.
Definition hl_gc_write_barrier (active : bool) (ps : list gpage) (dq : dirty_queue) (address bytes : Z) : option dirty_queue :=
  if negb active || (bytes =? 0) then Some dq else
  let last := u64 (address + bytes - 1) in
  if last <? address then Some dq else
  loop (fun '(first, dq) =>
      dq ← barrier_page ps dq first;
      Some (if Z.shiftr first GC_MASK_BITS =? Z.shiftr last GC_MASK_BITS then inr dq else inl (Z.shiftl (Z.shiftr first GC_MASK_BITS + 1) GC_MASK_BITS, dq)))
    (S (Z.to_nat (Z.shiftr last GC_MASK_BITS - Z.shiftr address GC_MASK_BITS))) (address, dq).

(** The steps of the program.  A write changes words of memory and sets the bits of their pages
    (the system may set others).  The memory of a new object is cleared, or filled by its owner,
    before [gc_incremental_allocated]. *)
Definition written (soft : gset Z) (ptr size : Z) : Prop := forall a, ptr <= a < ptr + size -> Z.quot a os_page ∈ soft.
Definition with_memory (s : inc_state) (mem : Z -> Z) (soft : gset Z) : inc_state :=
  Inc (in_tracer s) (in_epochs s) (in_own s) (in_lists s) mem soft (in_barrier s) (in_dirty s) (in_rescan s) (in_walk s) (in_pid s) (in_cursor s) (in_active s) (in_preparing s) (in_discovering s) (in_epoch s).
(** The bytes given to a request. *)
Definition request_bytes (r : request) : option Z :=
  match r with RFixed part => aget GC_SIZES part | RVar part n => block ← aget GC_SIZES part; Some (n * block) | RLarge size => Some size end.
Definition request_valid (r : request) : Prop :=
  match r with RFixed part => 0 <= part < GC_FIXED_PARTS | RVar part n => GC_FIXED_PARTS <= part < GC_LARGE_PART /\ 1 <= n <= 254 | RLarge size => GC_LARGE_BLOCK <= size <= INT_MAX /\ size mod GC_PAGE_SIZE = 0 end.
(** The memory of a new page: aligned, and none of the other pages'. *)
Definition fresh_memory (ps : list gpage) (nb : Z -> Z) : Prop := forall size, 0 < size <= INT_MAX ->
  0 < nb size /\ nb size mod GC_PAGE_SIZE = 0 /\ nb size + size <= 2 ^ 64 /\ forall g, g ∈ ps -> nb size + size <= base (head g) \/ base (head g) + page_size (head g) <= nb size.
Inductive mutate (s : inc_state) : inc_state -> Prop :=
  | mut_write mem soft : (forall a, mem a <> in_mem s a -> Z.quot a os_page ∈ soft) -> in_soft s ⊆ soft -> mutate s (with_memory s mem soft)
  | mut_barrier address bytes dq : 0 <= address < 2 ^ 64 -> 0 <= bytes < 2 ^ 64 -> hl_gc_write_barrier (in_barrier s) (in_pages s) (in_dirty s) address bytes = Some dq ->
      mutate s (with_traced s (in_tracer s) dq (in_rescan s))
  | mut_flush i g ph : in_pages s !! i = Some g -> block_size (head g) <> page_size (head g) -> flush_if_needed junk (head g) = Some ph ->
      mutate s (with_pages s (Prep (<[i := GPage ph (page_kind g)]> (in_pages s)) (in_epochs s) (in_own s)))
  | mut_alloc pid l i r s' ptr n : request_valid r -> aget (in_lists s) pid = Some l -> i ∈ l -> GC_PID_PART pid = request_part r ->
      request_bytes r = Some n -> alloc_old s i r = Done (Some (s', ptr)) -> written (in_soft s) ptr n -> mutate s s'
  | mut_page pid num nb r s' ptr n : request_valid r -> 0 <= pid < GC_PAGE_SLOTS -> 0 <= num -> GC_PID_PART pid = request_part r -> fresh_memory (in_pages s) nb ->
      request_bytes r = Some n -> alloc_new s pid num nb r = Done (s', ptr) -> written (in_soft s) ptr n -> mutate s s'.
End cycle.
