(* ===== verification/IncrementalPages.v ===== *)
(** * Pages during an incremental cycle: marks, the worklist and what the tracer scans

    [tinv] is the invariant of the tracer: the blocks of the stack and the block being scanned
    are marked, and every word of a marked block that may hold pointers either is waiting
    (its block is on the stack, it is still before the cursor, or something outside the tracer,
    [O], will look at it again) or points to no block in use that is not marked. *)
From S2P Require Import Prelude PageMap Allocator AllocatorPage AllocatorAlloc AllocatorHeap AllocatorMark AllocatorProps Marking MarkingSound Incremental.

(** ** Bits *)
Lemma bmp_bytes_spec ph : 0 <= max_blocks ph -> 0 <= bmp_bytes ph /\ max_blocks ph <= 8 * bmp_bytes ph.
Proof. intros. unfold bmp_bytes. rewrite shiftr_div by lia. change (2 ^ 3) with 8. z_div. Qed.
(** The byte and the bit of a position. *)
Lemma bit_position k : 0 <= k -> k = 8 * Z.shiftr k 3 + Z.land k 7 /\ 0 <= Z.land k 7 < 8 /\ 0 <= Z.shiftr k 3.
Proof. intros. rewrite shiftr_div by lia. rewrite (land_mask 3 k 7) by done. change (2 ^ 3) with 8. z_div. Qed.
Lemma bmp_clear_spec b k : 0 <= k < 8 * alen b -> Forall (fun x => 0 <= x < 256) b ->
  exists b', bmp_clear b k = Some b' /\ alen b' = alen b /\ Forall (fun x => 0 <= x < 256) b' /\ forall j, 0 <= j -> is_marked b' j = is_marked b j && negb (j =? k).
Proof.
  intros Hk Hb. destruct (bit_position k ltac:(lia)) as (Ek & Hbit & Hpos). unfold bmp_clear. set (byte := Z.shiftr k 3) in *. set (bt := Z.land k 7) in *.
  destruct (aget_is_Some b byte) as [x Hx]; [lia|]. rewrite Hx. cbn [mbind option_bind].
  assert (0 <= x < 256) as Hxr by (rewrite Forall_forall in Hb; apply Hb; rewrite aget_lookup in Hx by lia; by apply list_elem_of_lookup_2 in Hx).
  set (y := u8 (Z.land x (Z.lnot (Z.shiftl 1 bt)))). destruct (aset_total b byte y) as (b' & E & Hl & Hg); [lia|]. exists b'. split; [exact E|]. split; [done|]. split.
  - apply aset_inv in E as [_ ->]. apply Forall_insert; [done|]. unfold y. pose proof (uN_range 8 (Z.land x (Z.lnot (Z.shiftl 1 bt)))). change (2 ^ 8) with 256 in *. lia.
  - intros j Hj. destruct (bit_position j Hj) as (Ej & Hjb & Hjp). rewrite Ej. set (jb := Z.shiftr j 3) in *. set (ji := Z.land j 7) in *. destruct (decide (jb = byte)) as [->|Hne].
    + assert (aget b' byte = Some y) as Hy by (rewrite Hg, decide_True; done). rewrite (is_marked_bit _ _ _ _ Hy Hjb), (is_marked_bit _ _ _ _ Hx Hjb). unfold y, uN. rewrite Z.mod_pow2_bits_low by lia.
      rewrite Z.land_spec, Z.lnot_spec by lia. f_equal. f_equal. rewrite shiftl_pow2 by lia. destruct (Z.eqb_spec (8 * byte + ji) k) as [E2|E2]; [replace ji with bt by lia; apply Z.pow2_bits_true; lia|apply Z.pow2_bits_false; lia].
    + rewrite (proj2 (Z.eqb_neq _ k)) by lia. rewrite andb_true_r. destruct (aget b jb) as [z|] eqn:Hz.
      * assert (aget b' jb = Some z) as Hz' by (rewrite Hg, decide_False; [done|congruence]). by rewrite (is_marked_bit _ _ _ _ Hz' Hjb), (is_marked_bit _ _ _ _ Hz Hjb).
      * assert (aget b' jb = None) as Hz' by (rewrite Hg, decide_False; [done|congruence]). unfold is_marked, bmp_test. rewrite <- Ej. fold jb. by rewrite Hz, Hz'.
Qed.
Lemma bmp_set_bits b k : 0 <= k < 8 * alen b -> Forall (fun x => 0 <= x < 256) b ->
  exists b', bmp_set b k = Some b' /\ alen b' = alen b /\ Forall (fun x => 0 <= x < 256) b' /\ forall j, 0 <= j -> is_marked b' j = is_marked b j || (j =? k).
Proof.
  intros Hk Hb. destruct (bmp_set_spec b k (8 * alen b)) as (b' & E & Hl & Hb'); [done| |done|].
  { rewrite shiftr_div by lia. change (2 ^ 3) with 8. z_div. }
  exists b'. split; [done|]. split; [done|]. split; [done|]. intros j Hj. by apply (bmp_set_marked b k b' j Hb); [lia|done..].
Qed.
Lemma bmp_test_bits b k : 0 <= k < 8 * alen b -> bmp_test b k = Some (is_marked b k).
Proof. intros Hk. apply (bmp_test_total b k (8 * alen b)); [done|]. rewrite shiftr_div by lia. change (2 ^ 3) with 8. z_div. Qed.

(** ** Pages *)
Record ipage (part : Z) (g : gpage) : Prop := IPage {
  ip_inv : exists l, page_inv part (head g) l;
  ip_size : page_size (head g) <= INT_MAX;
  ip_base : 0 < base (head g) /\ base (head g) + page_size (head g) <= 2 ^ 64 /\ base (head g) mod GC_PAGE_SIZE = 0 /\ GC_PAGE_SIZE <= page_size (head g);
  ip_first : sizes (head g) = None -> first_block (head g) = 0 }.
(** A page prepared in the cycle. *)
Record iready (g : gpage) : Prop := IReady {
  ir_flush : need_flush (head g) = false;
  ir_bmp : exists b, bmp (head g) = Some b /\ alen b = 2 * bmp_bytes (head g) /\ Forall (fun x => 0 <= x < 256) b /\ marks_ok (head g) b }.
Record tpage (g : gpage) : Prop := TPage { tp_page : exists part, ipage part g; tp_ready : iready g }.
(** A block that [gc_allocator_get_block_id] can answer. *)
Definition valid (ph : gc_pheader) (r : Z) : Prop := 0 <= r < max_blocks ph /\ forall s, sizes ph = Some s -> first_block ph <= r /\ aget s r <> Some 0.
(** Mark bits and bits of [queued], by page and block. *)
Definition gbit (g : gpage) (k : Z) : bool := match bmp (head g) with Some b => is_marked b k | None => false end.
Definition qbit (g : gpage) (r : Z) : bool := gbit g (queued_bit (head g) r).
Definition gaddr (g : gpage) (r : Z) : Z := base (head g) + r * block_size (head g).
(** The words the tracer scans in a block. *)
Definition block_bytes (ph : gc_pheader) (r : Z) : Z := match sizes ph with Some s => block_size ph * default 0 (aget s r) | None => block_size ph end.
Definition nwords (g : gpage) (r : Z) : Z := Z.quot (block_bytes (head g) r) 8.
Definition has_word (g : gpage) (r a : Z) : Prop := exists k, 0 <= k < nwords g r /\ a = gaddr g r + 8 * k.
(** A block in no free run; in a page without size table the free blocks have numbers too. *)
Definition is_free (ph : gc_pheader) (r : Z) : bool :=
  match sizes ph with
  | Some _ => false
  | None => negb (block_size ph =? page_size ph) && existsb (fun c => (c.1 <=? r) && (r <? c.1 + c.2)) (fl_runs (free ph))
  end.

Section page.
Context (g : gpage) (part : Z) (Hg : ipage part g).
Lemma ipage_range : 0 <= first_block (head g) < max_blocks (head g) /\ 0 < block_size (head g) /\ max_blocks (head g) * block_size (head g) <= page_size (head g).
Proof using Hg.
  destruct Hg as [(l & Hi) _ _ _]. destruct (pg_range _ _ (pi_ok _ _ _ Hi)) as [Hr _]. pose proof (pi_pos _ _ _ Hi) as Hp. split; [done|]. split; [lia|]. rewrite (pi_max _ _ _ Hi), Z.quot_div_nonneg by lia.
  pose proof (Z.mul_div_le (page_size (head g)) (block_size (head g))). lia.
Qed.
Lemma gaddr_in r : valid (head g) r -> INPAGE (gaddr g r) g = true /\ gc_allocator_get_block_id (head g) (gaddr g r) = Some r /\ gaddr g r <> 0.
Proof using Hg.
  intros [Hr Hs]. destruct Hg as [(l & Hi) Hsize (Hbase & _ & _) _]. destruct (block_id_at part (head g) l r Hi Hsize Hr Hs) as [Hin Hid]. split; [by apply INPAGE_spec|]. split; [exact Hid|]. unfold gaddr. lia.
Qed.
Lemma block_id_valid w : INPAGE w g = true -> exists r, gc_allocator_get_block_id (head g) w = Some r /\ (r < 0 \/ valid (head g) r /\ w = gaddr g r).
Proof using Hg.
  intros Hin%INPAGE_spec. destruct Hg as [(l & Hi) Hsize _ _]. destruct (block_id_cases part (head g) l w Hi Hsize Hin) as (r & Hr & Hcase). exists r. split; [done|]. destruct Hcase as [|(H1 & H2 & H3)]; [by left|right; by split].
Qed.
Lemma interior_valid w : INPAGE w g = true -> exists r a, gc_allocator_get_block_interior (head g) w = Some (r, a) /\ (r < 0 \/ valid (head g) r /\ a = gaddr g r).
Proof using Hg.
  intros Hin%INPAGE_spec. destruct Hg as [(l & Hi) Hsize _ _]. destruct (interior_block part (head g) l w Hi Hsize Hin) as (r & a & Hr & Hcase). exists r, a. split; [done|]. destruct Hcase as [|(H1 & H2 & H3)]; [by left|right; by split].
Qed.
Lemma drain_bid_valid r : valid (head g) r -> drain_bid (head g) (gaddr g r) = r.
Proof using Hg.
  intros Hv. pose proof ipage_range as (_ & Hb & Hm). destruct (gaddr_in r Hv) as (Hin%INPAGE_spec & _ & _). destruct Hv as [Hr _]. destruct Hg as [(l & Hi) Hsize _ _]. unfold drain_bid.
  replace (gaddr g r - base (head g)) with (r * block_size (head g)) by (unfold gaddr; lia). rewrite i32_small by (unfold gaddr in Hin; unfold in_i32, INT_MIN, INT_MAX in *; nia).
  rewrite (block_div part (head g) l Hi) by nia. by apply Z.div_mul; lia.
Qed.
(** The bytes of a block are inside the page, and all the blocks of an object in a size table are after it. *)
Lemma block_bytes_in r : valid (head g) r -> 0 <= block_bytes (head g) r /\ gaddr g r + block_bytes (head g) r <= base (head g) + page_size (head g) /\
  forall s, sizes (head g) = Some s -> exists n, aget s r = Some n /\ 0 <= n /\ block_bytes (head g) r = block_size (head g) * n.
Proof using Hg.
  intros [Hr Hs]. pose proof ipage_range as (Hf & Hb & Hm). destruct Hg as [(l & Hi) Hsize _ _]. unfold block_bytes, gaddr. destruct (sizes (head g)) as [s|] eqn:Es.
  - destruct (Hs s eq_refl) as [Hfr Hn]. destruct (size_at part (head g) l s Hi Es r) as (n & En & Ho); [lia|]. rewrite En. change (default 0 (Some n)) with n. destruct (obj_size part (head g) l s Hi Es r n) as (_ & _ & _ & Hend & _); [apply Ho; congruence|].
    destruct (covers_in _ _ _ _ (pg_covers _ _ (pi_ok _ _ _ Hi)) (Ho ltac:(congruence))) as (_ & _ & Hpos). cbn in Hpos. split; [nia|]. split; [nia|]. intros s' [= <-]. exists n. split; [done|]. split; [lia|done].
  - split; [lia|]. split; [nia|]. done.
Qed.
End page.

(** A bit set or cleared in the bitmap of a page. *)
Lemma set_bmp_tpage g b' : tpage g -> alen b' = 2 * bmp_bytes (head g) -> Forall (fun x => 0 <= x < 256) b' -> marks_ok (head g) b' -> tpage (set_bmp g b').
Proof.
  intros [(part & [(l & Hi) Hs Hb Hf]) [Hn (b & Eb & Hl & Hbytes & Hm)]] Hl' Hbytes' Hm'. split.
  - exists part. split; try done. exists l. destruct Hi as [[Hr Hc Hfl Hsz [Hbmp Hnf]] Hbl Hpos Hmax Hbits Hfirst Hsizes Hmarks].
    split; cbn [set_bmp head block_size page_size max_blocks first_block block_bits sizes need_flush bmp]; try done; [|by rewrite Hn].
    split; cbn [first_block max_blocks free sizes bmp need_flush]; try done. split; [|by rewrite Hn]. intros b2 [= <-]. split; [|done]. fold (bmp_bytes (head g)). pose proof (bmp_bytes_spec (head g) ltac:(lia)). lia.
  - split; [done|]. exists b'. done.
Qed.
Lemma marks_ok_le ph b b' : (forall r, valid ph r \/ is_marked b r = true \/ ~ first_block ph <= r < max_blocks ph \/ is_marked b' r = false) -> marks_ok ph b -> marks_ok ph b'.
Proof.
  unfold marks_ok, valid. intros Hle Hm. destruct (sizes ph) as [s|]; [|done]. intros p Hp Hb. destruct (Hle p) as [[_ Hv]|[Hb'|[?|?]]]; [by apply Hv|by apply Hm|done|congruence].
Qed.
Lemma tpage_bits g : tpage g -> exists b, bmp (head g) = Some b /\ Forall (fun x => 0 <= x < 256) b /\ forall r, 0 <= r < max_blocks (head g) -> 0 <= r < 8 * alen b /\ 0 <= queued_bit (head g) r < 8 * alen b /\ max_blocks (head g) <= queued_bit (head g) r.
Proof.
  intros [(part & Hp) [_ (b & Eb & Hl & Hbytes & _)]]. exists b. split; [done|]. split; [done|]. intros r Hr. destruct (bmp_bytes_spec (head g)) as [H1 H2]; [lia|]. unfold queued_bit. lia.
Qed.
(** The two bits of a block of a prepared page: setting and clearing. *)
Definition set_bits (g g' : gpage) (f : Z -> bool -> bool) : Prop := (exists b, g' = set_bmp g b) /\ tpage g' /\ forall k, 0 <= k -> gbit g' k = f k (gbit g k).
Lemma set_mark_bit g r : tpage g -> valid (head g) r -> exists b b', bmp (head g) = Some b /\ bmp_test b r = Some (gbit g r) /\ bmp_set b r = Some b' /\ set_bits g (set_bmp g b') (fun k m => m || (k =? r)).
Proof.
  intros Hg Hv. destruct (tpage_bits g Hg) as (b & Eb & Hbytes & Hr). destruct (Hr r (proj1 Hv)) as (H1 & _ & _). destruct (bmp_set_bits b r H1 Hbytes) as (b' & Es & Hl & Hb' & Hbits). exists b, b'.
  split; [done|]. split; [unfold gbit; rewrite Eb; by apply bmp_test_bits|]. split; [done|]. split; [by exists b'|]. destruct (ir_bmp _ (tp_ready _ Hg)) as (b0 & Eb0 & Hl0 & _ & Hm). rewrite Eb in Eb0. injection Eb0 as <-. split.
  - apply set_bmp_tpage; [done|lia|done|]. apply (marks_ok_le _ b); [|done]. intros j. destruct (decide (j = r)) as [->|]; [by left|]. destruct (decide (0 <= j)); [|right; right; left; destruct (tp_page _ Hg) as [part Hp]; pose proof (ipage_range g part Hp); lia].
    rewrite Hbits by done. rewrite (proj2 (Z.eqb_neq j r)) by done. rewrite orb_false_r. destruct (is_marked b j); auto.
  - intros k Hk. unfold gbit. cbn [set_bmp head bmp]. rewrite Eb. by apply Hbits.
Qed.
(** A bit of the second half: the marks stay. *)
Lemma other_bit g k b b' (f : Z -> bool -> bool) : tpage g -> max_blocks (head g) <= k -> bmp (head g) = Some b -> alen b' = alen b -> Forall (fun x => 0 <= x < 256) b' ->
  (forall j, 0 <= j -> is_marked b' j = f j (is_marked b j)) -> (forall j m, j < k -> f j m = m) -> set_bits g (set_bmp g b') f.
Proof.
  intros Hg Hk Eb Hl Hb' Hbits Hf. destruct (ir_bmp _ (tp_ready _ Hg)) as (b0 & Eb0 & Hl0 & _ & Hm). rewrite Eb in Eb0. injection Eb0 as <-. split; [by exists b'|]. split.
  - apply set_bmp_tpage; [done|lia|done|]. apply (marks_ok_le _ b); [|done]. intros j. destruct (decide (first_block (head g) <= j < max_blocks (head g))) as [Hj|]; [|tauto]. destruct (tp_page _ Hg) as [part Hp]. pose proof (ipage_range g part Hp).
    rewrite Hbits, Hf by lia. destruct (is_marked b j); auto.
  - intros j Hj. unfold gbit. cbn [set_bmp head bmp]. rewrite Eb. by apply Hbits.
Qed.
Lemma set_queued_bit g r : tpage g -> 0 <= r < max_blocks (head g) ->
  exists b b', bmp (head g) = Some b /\ bmp_test b (queued_bit (head g) r) = Some (qbit g r) /\ bmp_set b (queued_bit (head g) r) = Some b' /\ set_bits g (set_bmp g b') (fun k m => m || (k =? queued_bit (head g) r)).
Proof.
  intros Hg Hr. destruct (tpage_bits g Hg) as (b & Eb & Hbytes & Hb). destruct (Hb r Hr) as (_ & H1 & H2). destruct (bmp_set_bits b _ H1 Hbytes) as (b' & Es & Hl & Hb' & Hbits). exists b, b'.
  split; [done|]. split; [unfold qbit, gbit; rewrite Eb; by apply bmp_test_bits|]. split; [done|]. apply (other_bit g (queued_bit (head g) r) b b'); try done. intros j m Hj. rewrite (proj2 (Z.eqb_neq _ _)) by lia. apply orb_false_r.
Qed.
Lemma clear_queued_bit g r : tpage g -> 0 <= r < max_blocks (head g) ->
  exists b b', bmp (head g) = Some b /\ bmp_clear b (queued_bit (head g) r) = Some b' /\ set_bits g (set_bmp g b') (fun k m => m && negb (k =? queued_bit (head g) r)).
Proof.
  intros Hg Hr. destruct (tpage_bits g Hg) as (b & Eb & Hbytes & Hb). destruct (Hb r Hr) as (_ & H1 & H2). destruct (bmp_clear_spec b _ H1 Hbytes) as (b' & Es & Hl & Hb' & Hbits). exists b, b'.
  split; [done|]. split; [done|]. apply (other_bit g (queued_bit (head g) r) b b'); try done. intros j m Hj. rewrite (proj2 (Z.eqb_neq _ _)) by lia. apply andb_true_r.
Qed.

(** ** Lists of pages *)
Lemma same_lookup ps ps' i g : same_pages ps ps' -> ps !! i = Some g -> exists g', ps' !! i = Some g' /\ (g' = g \/ exists b, g' = set_bmp g b).
Proof. intros Hs Hg. destruct (Forall2_lookup_l _ _ _ _ _ Hs Hg) as (g' & Hg' & H). by exists g'. Qed.
Lemma same_lookup_back ps ps' i g' : same_pages ps ps' -> ps' !! i = Some g' -> exists g, ps !! i = Some g /\ (g' = g \/ exists b, g' = set_bmp g b).
Proof. intros Hs Hg. destruct (Forall2_lookup_r _ _ _ _ _ Hs Hg) as (g & Hg' & H). by exists g. Qed.
Lemma tpages_at ps i g : Forall tpage ps -> ps !! i = Some g -> tpage g.
Proof. rewrite Forall_forall. intros H Hg. by apply H, (list_elem_of_lookup_2 _ i). Qed.
Definition marked (ps : list gpage) (i : nat) (r : Z) : Prop := exists g, ps !! i = Some g /\ valid (head g) r /\ gbit g r = true.
(** Marked blocks that may hold pointers are scanned. *)
Definition scanned (ps : list gpage) (i : nat) (g : gpage) (r : Z) : Prop := ps !! i = Some g /\ valid (head g) r /\ gbit g r = true /\ MEM_HAS_PTR (page_kind g) = true.
Record grows (ps ps' : list gpage) : Prop := Grows { gr_same : same_pages ps ps'; gr_marked : forall i r, marked ps i r -> marked ps' i r }.
#[export] Instance grows_preorder : PreOrder grows.
Proof.
  split; [intros ps; split; [apply same_pages_refl|done]|]. intros ps1 ps2 ps3 [H1 H2] [H3 H4]. split; [by apply (same_pages_trans _ ps2)|auto].
Qed.
Lemma block_of_valid ps w i g r : Forall tpage ps -> block_of ps w = Some (i, g, r) -> w <> 0 /\ ps !! i = Some g /\ get_page ps w = Some (i, g) /\ valid (head g) r /\ w = gaddr g r.
Proof.
  intros Hps. unfold block_of. destruct (Z.eqb_spec w 0); [done|]. destruct (get_page ps w) as [[j h]|] eqn:Eg; [|done]. cbn [mbind option_bind]. apply get_page_lookup in Eg as [Hl Hin]. destruct (tp_page _ (tpages_at _ _ _ Hps Hl)) as [part Hp].
  destruct (block_id_valid h part Hp w Hin) as (q & Hq & Hcase). rewrite Hq. cbn [mbind option_bind]. destruct (Z.geb_spec q 0); [|done]. intros [= -> -> ->]. destruct Hcase as [|[Hv Ha]]; [lia|]. done.
Qed.
Lemma block_of_addr ps i g r : Forall tpage ps -> apart_pages ps -> ps !! i = Some g -> valid (head g) r -> get_page ps (gaddr g r) = Some (i, g) /\ block_of ps (gaddr g r) = Some (i, g, r).
Proof.
  intros Hps Ha Hg Hv. destruct (tp_page _ (tpages_at _ _ _ Hps Hg)) as [part Hp]. destruct (gaddr_in g part Hp r Hv) as (Hin & Hid & Hnz). pose proof (get_page_apart ps i g _ Ha Hg Hin) as E. split; [done|].
  unfold block_of. rewrite (proj2 (Z.eqb_neq _ 0)) by done. rewrite E. cbn [mbind option_bind]. rewrite Hid. cbn [mbind option_bind]. destruct (Z.geb_spec r 0); [done|]. destruct Hv. lia.
Qed.
Lemma addr_unique ps i g r j h k : Forall tpage ps -> apart_pages ps -> ps !! i = Some g -> valid (head g) r -> ps !! j = Some h -> valid (head h) k -> gaddr g r = gaddr h k -> j = i /\ h = g /\ k = r.
Proof.
  intros Hps Ha Hg Hv Hh Hk E. destruct (block_of_addr ps i g r Hps Ha Hg Hv) as [_ H1]. destruct (block_of_addr ps j h k Hps Ha Hh Hk) as [_ H2]. rewrite E, H2 in H1. by injection H1 as -> -> ->.
Qed.
(** One page replaced by itself with other bits. *)
Lemma set_bits_pages ps i g g' f : Forall tpage ps -> apart_pages ps -> ps !! i = Some g -> set_bits g g' f -> Forall tpage (<[i := g']> ps) /\ apart_pages (<[i := g']> ps) /\ same_pages ps (<[i := g']> ps).
Proof.
  intros Hps Ha Hg ([b ->] & Ht & _). pose proof (insert_same_pages ps i g b Hg) as Hs. split; [by apply Forall_insert|]. split; [by apply (apart_pages_same ps)|done].
Qed.
Lemma set_bits_lookup (ps : list gpage) i g g' j h' : ps !! i = Some g -> <[i := g']> ps !! j = Some h' -> j = i /\ h' = g' \/ j <> i /\ ps !! j = Some h'.
Proof.
  intros Hg. destruct (decide (j = i)) as [->|Hne]; [rewrite list_lookup_insert_eq by by apply lookup_lt_Some in Hg|rewrite list_lookup_insert_ne by done]; [intros [= <-]; by left|by right].
Qed.

(** ** The tracer *)
Section tinv.
Context (mem : Z -> Z).
(** The block a word points to is marked, if it is in use. *)
Definition fine (ps : list gpage) (a : Z) : Prop := forall j h k, block_of ps (u64 (mem a)) = Some (j, h, k) -> is_free (head h) k = false -> marked ps j k.
Definition waiting (O : nat -> Z -> Z -> Prop) (st : mark_stack) (block cursor : Z) (i : nat) (g : gpage) (r a : Z) : Prop :=
  gaddr g r ∈ st \/ (gaddr g r = block /\ cursor <> 0 /\ cursor <= a) \/ O i r a.
Record tinv (O : nat -> Z -> Z -> Prop) (ps : list gpage) (st : mark_stack) (block cursor end_ : Z) : Prop := TInv {
  ti_pages : Forall tpage ps;
  ti_apart : apart_pages ps;
  ti_stack : forall p, p ∈ st -> exists i g r, scanned ps i g r /\ p = gaddr g r;
  ti_cursor : cursor = 0 /\ block = 0 \/ exists i g r k, scanned ps i g r /\ block = gaddr g r /\ 0 <= k <= nwords g r /\ cursor = block + 8 * k /\ end_ = block + 8 * nwords g r;
  ti_queued : forall i g r, ps !! i = Some g -> 0 <= r < max_blocks (head g) -> qbit g r = true -> gaddr g r ∈ st \/ gaddr g r = block;
  ti_scanned : forall i g r a, scanned ps i g r -> has_word g r a -> waiting O st block cursor i g r a \/ fine ps a }.
Lemma fine_grows ps ps' a : grows ps ps' -> fine ps a -> fine ps' a.
Proof.
  intros [Hs Hm] Hf j h k Hb Hfree. pose proof (block_of_same ps ps' (u64 (mem a)) Hs) as Hsame. unfold fine in Hf. destruct (block_of ps (u64 (mem a))) as [[[i g] r]|]; [|congruence].
  destruct Hsame as (g' & E & Hg). rewrite Hb in E. injection E as -> -> ->. apply Hm, (Hf _ _ _ eq_refl). destruct Hg as [->|[b ->]]; done.
Qed.
Lemma tinv_outside O O' ps st block cursor end_ : tinv O ps st block cursor end_ ->
  (forall i g r a, scanned ps i g r -> has_word g r a -> O i r a -> waiting O' st block cursor i g r a \/ fine ps a) -> tinv O' ps st block cursor end_.
Proof.
  intros [H1 H2 H3 H4 H5 H6] HO. split; try done. intros i g r a Hs Hw. destruct (H6 i g r a Hs Hw) as [[H|[H|H]]|H]; [left; by left|left; right; by left|by apply HO|by right].
Qed.
Lemma block_not_addr O ps st block cursor end_ i g r : tinv O ps st block cursor end_ -> ps !! i = Some g -> valid (head g) r -> gbit g r = false -> gaddr g r <> block.
Proof.
  intros [H1 H2 _ H4 _ _] Hg Hv Hb E. destruct H4 as [[_ ->]|(j & h & k & n & (Hh & Hvk & Hbk & _) & -> & _)].
  - destruct (tp_page _ (tpages_at _ _ _ H1 Hg)) as [part Hp]. by destruct (gaddr_in g part Hp r Hv) as (_ & _ & ?).
  - destruct (addr_unique ps i g r j h k H1 H2 Hg Hv Hh Hvk E) as (-> & -> & ->). congruence.
Qed.
End tinv.
