(* ===== verification/IncrementalTrace.v ===== *)
(** * The tracer keeps its invariant

    Visiting a pointer, queueing a block, scanning a block and rescanning a page: each keeps
    [tinv], and each ends with the work it says. *)
From S2P Require Import Prelude PageMap Allocator AllocatorPage AllocatorAlloc AllocatorHeap AllocatorMark AllocatorProps Marking MarkingSound Incremental IncrementalPages.

Lemma unmarked_set_bits ps i g g' f : ps !! i = Some g -> set_bits g g' f -> tpage g -> unmarked (<[i := g']> ps) = unmarked ps - unmarked_blocks g + unmarked_blocks g'.
Proof. intros Hg _ _. by apply unmarked_insert. Qed.
Lemma unmarked_blocks_bits g : tpage g -> unmarked_blocks g = how_many (fun r => negb (gbit g r)) 0 (Z.to_nat (max_blocks (head g))).
Proof. intros Hg. destruct (tpage_bits g Hg) as (b & Eb & _). unfold unmarked_blocks, gbit. by rewrite Eb. Qed.
(** Marking a block leaves one block less to mark. *)
Lemma unmarked_blocks_mark g g' r : tpage g -> valid (head g) r -> gbit g r = false -> set_bits g g' (fun k m => m || (k =? r)) -> unmarked_blocks g' = unmarked_blocks g - 1.
Proof.
  intros Hg [Hr _] Hb ([b ->] & Ht & Hbits). rewrite !unmarked_blocks_bits by done. change (max_blocks (head (set_bmp g b))) with (max_blocks (head g)).
  rewrite <- (how_many_update (fun r => negb (gbit g r)) (fun k => negb (gbit (set_bmp g b) k)) (Z.to_nat (max_blocks (head g))) r); [lia|by rewrite Hb|rewrite Hbits, Z.eqb_refl, orb_true_r by lia; done|lia|].
  intros k Hk Hne. rewrite Hbits, (proj2 (Z.eqb_neq k r)) by (lia || done). by rewrite orb_false_r.
Qed.
Lemma unmarked_blocks_same g g' f : tpage g -> set_bits g g' f -> (forall k m, 0 <= k < max_blocks (head g) -> f k m = m) -> unmarked_blocks g' = unmarked_blocks g.
Proof.
  intros Hg ([b ->] & Ht & Hbits) Hf. rewrite !unmarked_blocks_bits by done. apply how_many_ext. intros k Hk. rewrite Hbits, Hf by (cbn in Hk; lia). done.
Qed.

Section steps.
Context (mem : Z -> Z).
Abbreviation tinv := (tinv mem).
Abbreviation fine := (fine mem).

(** Bits of one page change: what is left to check. *)
Lemma tinv_set O O' ps st st' block block' cursor cursor' end_ end' i g g' f : tinv O ps st block cursor end_ -> ps !! i = Some g -> set_bits g g' f ->
  (forall k, valid (head g) k -> gbit g k = true -> gbit g' k = true) ->
  (forall p, p ∈ st' -> p ∈ st \/ exists r, p = gaddr g r /\ valid (head g) r /\ gbit g' r = true /\ MEM_HAS_PTR (page_kind g) = true) ->
  (block' = block /\ cursor' = cursor /\ end' = end_ \/ cursor' = 0 /\ block' = 0) ->
  (forall j h r, ps !! j = Some h -> 0 <= r < max_blocks (head h) -> (if decide (j = i) then qbit g' r else qbit h r) = true -> gaddr h r ∈ st' \/ gaddr h r = block') ->
  (grows ps (<[i := g']> ps) -> forall j h r a, ps !! j = Some h -> valid (head h) r -> MEM_HAS_PTR (page_kind h) = true -> (if decide (j = i) then gbit g' r else gbit h r) = true -> has_word h r a ->
    waiting O' st' block' cursor' j h r a \/ fine (<[i := g']> ps) a) ->
  tinv O' (<[i := g']> ps) st' block' cursor' end' /\ grows ps (<[i := g']> ps).
Proof.
  intros [Hps Ha Hst Hcur _ _] Hg Hset Hmono Hst' Hcur' Hq Hsc. pose proof (set_bits_pages ps i g g' f Hps Ha Hg Hset) as (Hps' & Ha' & Hsame). destruct Hset as ([b ->] & Ht & Hbits).
  assert (grows ps (<[i := set_bmp g b]> ps)) as Hgrow.
  { split; [done|]. intros j r (h & Hh & Hv & Hb). destruct (decide (j = i)) as [->|Hne].
    - assert (h = g) as -> by congruence. exists (set_bmp g b). rewrite list_lookup_insert_eq by by apply lookup_lt_Some in Hg. auto.
    - exists h. rewrite list_lookup_insert_ne by done. done. }
  assert (forall j h r, scanned ps j h r -> exists h', scanned (<[i := set_bmp g b]> ps) j h' r /\ gaddr h' r = gaddr h r /\ nwords h' r = nwords h r) as Hscan.
  { intros j h r (Hh & Hv & Hb & Hp). destruct (decide (j = i)) as [->|Hne].
    - assert (h = g) as -> by congruence. exists (set_bmp g b). unfold scanned. rewrite list_lookup_insert_eq by by apply lookup_lt_Some in Hg. split; [|done]. exact (conj eq_refl (conj Hv (conj (Hmono r Hv Hb) Hp))).
    - exists h. unfold scanned. rewrite list_lookup_insert_ne by done. done. }
  split; [|done]. split; [done|done| | | |].
  - intros p Hp. destruct (Hst' p Hp) as [H|(r & -> & Hv & Hb & Hk)].
    + destruct (Hst p H) as (j & h & r & Hs & ->). destruct (Hscan j h r Hs) as (h' & Hs' & E & _). by exists j, h', r.
    + exists i, (set_bmp g b), r. unfold scanned. rewrite list_lookup_insert_eq by by apply lookup_lt_Some in Hg. done.
  - destruct Hcur' as [(-> & -> & ->)|[-> ->]]; [|by left]. destruct Hcur as [Hc|(j & h & r & k & Hs & -> & Hk & Hc)]; [by left|]. right. destruct (Hscan j h r Hs) as (h' & Hs' & E & En). exists j, h', r, k. by rewrite E, En.
  - intros j h' r Hh' Hr Hb. destruct (set_bits_lookup ps i g _ j h' Hg Hh') as [[-> ->]|[Hne Hh]].
    + apply (Hq i g r Hg Hr). by rewrite decide_True.
    + apply (Hq j h' r Hh Hr). by rewrite decide_False.
  - intros j h' r a (Hh' & Hv & Hb & Hk) Hw. destruct (set_bits_lookup ps i g _ j h' Hg Hh') as [[-> ->]|[Hne Hh]].
    + apply (Hsc Hgrow i g r a Hg Hv Hk); [by rewrite decide_True|done].
    + apply (Hsc Hgrow j h' r a Hh Hv Hk); [by rewrite decide_False|done].
Qed.
(** The block [r] of page [i]. *)
Definition at_block (i : nat) (r : Z) (j : nat) (k : Z) : Prop := j = i /\ k = r.
(** A new mark: the block has to be looked at. *)
Lemma mark_tinv O ps st block cursor end_ i g r g' : tinv O ps st block cursor end_ -> ps !! i = Some g -> valid (head g) r -> gbit g r = false -> set_bits g g' (fun k m => m || (k =? r)) ->
  tinv (fun j k a => O j k a \/ at_block i r j k) (<[i := g']> ps) st block cursor end_ /\ grows ps (<[i := g']> ps) /\ marked (<[i := g']> ps) i r /\ unmarked (<[i := g']> ps) = unmarked ps - 1.
Proof.
  intros Hi Hg Hv Hb Hset. pose proof Hi as [Hps Ha Hst Hcur Hq Hsc]. pose proof (tpages_at ps i g Hps Hg) as Hp. pose proof (unmarked_blocks_mark g g' r Hp Hv Hb Hset) as Hun. destruct Hset as ([b E] & Ht & Hbits).
  assert (forall k, valid (head g) k -> gbit g' k = gbit g k || (k =? r)) as Hgb by (intros k [? _]; apply Hbits; lia).
  assert (forall k, 0 <= k < max_blocks (head g) -> qbit g' k = qbit g k) as Hqb.
  { intros k Hk. unfold qbit. rewrite E at 2. change (queued_bit (head (set_bmp g b)) k) with (queued_bit (head g) k). destruct (tpage_bits g Hp) as (b0 & _ & _ & Hr). destruct (Hr k Hk) as (_ & H1 & H2). rewrite Hbits by lia.
    destruct Hv as [Hv _]. rewrite (proj2 (Z.eqb_neq _ r)) by lia. apply orb_false_r. }
  destruct (tinv_set O (fun j k a => O j k a \/ at_block i r j k) ps st st block block cursor cursor end_ end_ i g g' (fun k m => m || (k =? r)) Hi Hg (conj (ex_intro _ b E) (conj Ht Hbits))) as [Hi' Hgrow].
  - intros k Hvk Hk. by rewrite Hgb, Hk.
  - by left.
  - by left.
  - intros j h k Hh Hk Hb'. apply (Hq j h k Hh Hk). case_decide as Hj; [|done]. subst j. assert (h = g) as -> by congruence. by rewrite <- Hqb.
  - intros Hgrow j h k a Hh Hvk Hkind Hb' Hw. assert (gbit h k = true \/ at_block i r j k) as [Hold|Hnew].
    { case_decide as Hj; [|by left]. subst j. assert (h = g) as -> by congruence. rewrite Hgb in Hb' by done. apply orb_true_iff in Hb' as [?|?%Z.eqb_eq]; [by left|by right]. }
    + destruct (Hsc j h k a (conj Hh (conj Hvk (conj Hold Hkind))) Hw) as [[?|[?|?]]|Hf]; [left; by left|left; right; by left|left; right; right; by left|right; by apply (fine_grows mem ps)].
    + left. right. right. by right.
  - split; [done|]. split; [done|]. split.
    + exists g'. rewrite list_lookup_insert_eq by by apply lookup_lt_Some in Hg. subst g'. split; [done|]. split; [done|]. rewrite Hgb, Z.eqb_refl by done. apply orb_true_r.
    + rewrite (unmarked_insert ps i g g' Hg). lia.
Qed.
(** Queueing it. *)
Lemma queue_tinv O ps st block cursor end_ i g r g' : tinv (fun j k a => O j k a \/ at_block i r j k) ps st block cursor end_ -> scanned ps i g r -> set_bits g g' (fun k m => m || (k =? queued_bit (head g) r)) ->
  tinv O (<[i := g']> ps) (gaddr g r :: st) block cursor end_ /\ grows ps (<[i := g']> ps) /\ unmarked (<[i := g']> ps) = unmarked ps.
Proof.
  intros Hi (Hg & Hv & Hb & Hkind) Hset. pose proof Hi as [Hps Ha Hst Hcur Hq Hsc]. pose proof (tpages_at ps i g Hps Hg) as Hp. destruct (tpage_bits g Hp) as (b0 & _ & _ & Hbound).
  assert (forall k m, 0 <= k < max_blocks (head g) -> m || (k =? queued_bit (head g) r) = m) as Hsame.
  { intros k m Hk. destruct (Hbound r (proj1 Hv)) as (_ & _ & H2). rewrite (proj2 (Z.eqb_neq k _)) by lia. apply orb_false_r. }
  pose proof (unmarked_blocks_same g g' _ Hp Hset Hsame) as Hun. destruct Hset as ([b E] & Ht & Hbits).
  assert (forall k, valid (head g) k -> gbit g' k = gbit g k) as Hgb by (intros k [? _]; rewrite Hbits by lia; by apply Hsame).
  destruct (tinv_set _ O ps st (gaddr g r :: st) block block cursor cursor end_ end_ i g g' (fun k m => m || (k =? queued_bit (head g) r)) Hi Hg (conj (ex_intro _ b E) (conj Ht Hbits))) as [Hi' Hgrow].
  - intros k Hvk Hk. by rewrite Hgb.
  - intros p [->|Hin]%elem_of_cons; [right; exists r; by rewrite Hgb|by left].
  - by left.
  - intros j h k Hh Hk Hb'. case_decide as Hj.
    + subst j. assert (h = g) as -> by congruence. unfold qbit in Hb'. rewrite E in Hb' at 2. change (queued_bit (head (set_bmp g b)) k) with (queued_bit (head g) k) in Hb'. destruct (Hbound k Hk) as (_ & H1 & _). rewrite Hbits in Hb' by lia.
      apply orb_true_iff in Hb' as [Hb'|Hb'%Z.eqb_eq]; [destruct (Hq i g k Hg Hk Hb'); [left; by right|by right]|]. left. unfold queued_bit in Hb'. replace k with r by lia. by left.
    + destruct (Hq j h k Hh Hk Hb'); [left; by right|by right].
  - intros Hgrow j h k a Hh Hvk Hk Hb' Hw. assert (gbit h k = true) as Hold by (case_decide as Hj; [subst j; assert (h = g) as -> by congruence; by rewrite <- Hgb|done]).
    destruct (Hsc j h k a (conj Hh (conj Hvk (conj Hold Hk))) Hw) as [[?|[?|[?|[-> ->]]]]|Hf]; [left; left; by right|left; right; by left|left; right; by right| |right; by apply (fine_grows mem ps)].
    assert (h = g) as -> by congruence. left. left. by left.
  - split; [done|]. split; [done|]. rewrite (unmarked_insert ps i g g' Hg). lia.
Qed.
Definition work (ps : list gpage) (st : mark_stack) : Z := Z.of_nat (length st) + unmarked ps.
(** [gc_inc_enqueue] on a marked block that is not being scanned. *)
Lemma gc_inc_enqueue_spec O ps st block cursor end_ i g r : tinv (fun j k a => O j k a \/ at_block i r j k) ps st block cursor end_ -> ps !! i = Some g -> valid (head g) r -> gbit g r = true -> gaddr g r <> block ->
  exists ps' st', gc_inc_enqueue ps st i g r = Some (ps', st') /\ tinv O ps' st' block cursor end_ /\ grows ps ps' /\ work ps' st' <= work ps st + 1 /\ unmarked ps' = unmarked ps.
Proof.
  intros Hi Hg Hv Hb Hne. pose proof (ti_pages _ _ _ _ _ _ _ Hi) as Hps. pose proof (tpages_at ps i g Hps Hg) as Hp. unfold gc_inc_enqueue. destruct (MEM_HAS_PTR (page_kind g)) eqn:Hk; cbn [negb].
  - destruct (set_queued_bit g r Hp (proj1 Hv)) as (b & b' & -> & Ht & Hs & Hset). cbn [mbind option_bind]. rewrite Ht. cbn [mbind option_bind]. destruct (qbit g r) eqn:Hq.
    + exists ps, st. split; [done|]. split; [|split; [done|unfold work; lia]]. apply (tinv_outside mem _ O _ _ _ _ _ Hi). intros j h k a (Hh & _) _ [HO|[-> ->]]; [left; right; by right|]. assert (h = g) as -> by congruence. left. left.
      destruct (ti_queued _ _ _ _ _ _ _ Hi i g r Hg (proj1 Hv) Hq); [done|congruence].
    + rewrite Hs. cbn [mbind option_bind]. destruct (queue_tinv O ps st block cursor end_ i g r _ Hi (conj Hg (conj Hv (conj Hb Hk))) Hset) as (H1 & H2 & H3).
      exists (<[i := set_bmp g b']> ps), (gaddr g r :: st). split; [done|]. split; [exact H1|]. split; [exact H2|].
      unfold work. cbn [length]. rewrite H3. lia.
  - exists ps, st. split; [done|]. split; [|split; [done|unfold work; lia]]. apply (tinv_outside mem _ O _ _ _ _ _ Hi). intros j h k a (Hh & _ & _ & Hkh) _ [HO|[-> ->]]; [left; right; by right|]. assert (h = g) as -> by congruence. congruence.
Qed.
(** Visiting: the block found is marked. *)
Lemma gc_inc_visit_page_spec O ps st block cursor end_ ptr i g (interior : bool) bid : tinv O ps st block cursor end_ -> ps !! i = Some g ->
  (if interior then exists a, gc_allocator_get_block_interior (head g) ptr = Some (bid, a) else gc_allocator_get_block_id (head g) ptr = Some bid) -> bid < 0 \/ valid (head g) bid ->
  exists ps' st', gc_inc_visit_page ps st ptr i g interior = Some (ps', st') /\ tinv O ps' st' block cursor end_ /\ grows ps ps' /\ work ps' st' <= work ps st /\ (0 <= bid -> marked ps' i bid).
Proof.
  intros Hi Hg Hid Hcase. pose proof (ti_pages _ _ _ _ _ _ _ Hi) as Hps. pose proof (tpages_at ps i g Hps Hg) as Hp. unfold gc_inc_visit_page.
  match goal with |- context [mbind _ ?m] => assert (m = Some bid) as -> by (destruct interior; [by destruct Hid as [a ->]|exact Hid]) end.
  cbn [mbind option_bind]. destruct (Z.ltb_spec bid 0) as [Hneg|Hpos]; [exists ps, st; split; [done|]; split; [done|]; split; [done|]; split; lia|]. destruct Hcase as [|Hv]; [lia|].
  destruct (set_mark_bit g bid Hp Hv) as (b & b' & -> & Ht & Hs & Hset). cbn [mbind option_bind]. rewrite Ht. cbn [mbind option_bind]. destruct (gbit g bid) eqn:Hb.
  { exists ps, st. split; [done|]. split; [done|]. split; [done|]. split; [lia|]. intros _. by exists g. }
  rewrite Hs. cbn [mbind option_bind]. pose proof (block_not_addr mem O ps st block cursor end_ i g bid Hi Hg Hv Hb) as Hne. destruct (mark_tinv O ps st block cursor end_ i g bid _ Hi Hg Hv Hb Hset) as (Hi' & Hgrow & Hm & Hun).
  destruct Hset as (_ & _ & Hbits). cbv zeta.
  destruct (gc_inc_enqueue_spec O _ st block cursor end_ i (set_bmp g b') bid Hi') as (ps' & st' & -> & Hi2 & Hgrow2 & Hw & Hun2); [by rewrite list_lookup_insert_eq by by apply lookup_lt_Some in Hg|exact Hv|rewrite Hbits by apply Hv; rewrite Z.eqb_refl; apply orb_true_r|exact Hne|].
  exists ps', st'. split; [done|]. split; [done|]. split; [by etrans|]. split; [unfold work in *; lia|]. intros _. by apply Hgrow2.
Qed.

(** ** Roots *)
(** The block a root points into, even in its middle, is marked. *)
Definition rooted (ps : list gpage) (w : Z) : Prop := forall i g r a, w <> 0 -> get_page ps w = Some (i, g) -> gc_allocator_get_block_interior (head g) w = Some (r, a) -> 0 <= r -> marked ps i r.
Lemma rooted_grows ps ps' w : grows ps ps' -> rooted ps w -> rooted ps' w.
Proof.
  intros [Hs Hm] Hr i g r a Hw Hg Hb Hpos. pose proof (get_page_same ps ps' w Hs) as Hsame. destruct (get_page ps w) as [[j h]|] eqn:E; [|congruence]. destruct Hsame as (h' & E' & Hh). rewrite E' in Hg. injection Hg as -> ->.
  apply Hm, (Hr i h r a Hw E); [|done]. destruct Hh as [->|[b ->]]; done.
Qed.
Lemma gc_inc_visit_spec O ps st block cursor end_ w : tinv O ps st block cursor end_ ->
  exists ps' st', gc_inc_visit ps st w true = Some (ps', st') /\ tinv O ps' st' block cursor end_ /\ grows ps ps' /\ work ps' st' <= work ps st /\ rooted ps' w.
Proof.
  intros Hi. unfold gc_inc_visit. destruct (Z.eqb_spec w 0) as [->|Hw]; [exists ps, st; split; [done|]; split; [done|]; split; [done|]; split; [lia|by intros ???? ?]|].
  destruct (get_page ps w) as [[i g]|] eqn:Eg; [|exists ps, st; split; [done|]; split; [done|]; split; [done|]; split; [lia|intros ???? _; congruence]].
  apply get_page_lookup in Eg as Hl. destruct Hl as [Hg Hin]. destruct (tp_page _ (tpages_at _ _ _ (ti_pages _ _ _ _ _ _ _ Hi) Hg)) as [part Hp]. destruct (interior_valid g part Hp w Hin) as (r & a & Hr & Hcase).
  destruct (gc_inc_visit_page_spec O ps st block cursor end_ w i g true r Hi Hg) as (ps' & st' & Hv & Hi' & Hgrow & Hwork & Hm); [by exists a|tauto|]. exists ps', st'. split; [done|]. split; [done|]. split; [done|]. split; [done|].
  intros j h k b _ Hj Hk Hpos. pose proof (get_page_same ps ps' w (gr_same _ _ Hgrow)) as Hsame. rewrite Eg in Hsame. destruct Hsame as (g' & Eg' & Hg'). rewrite Hj in Eg'. injection Eg' as -> ->.
  assert (gc_allocator_get_block_interior (head g') w = gc_allocator_get_block_interior (head g) w) as Hsame by (destruct Hg' as [->|[b' ->]]; done). rewrite Hsame, Hr in Hk. injection Hk as -> ->. by apply Hm.
Qed.
Lemma gc_inc_roots_spec O block cursor end_ ws : forall ps st, tinv O ps st block cursor end_ ->
  exists ps' st', gc_inc_roots ps st ws = Some (ps', st') /\ tinv O ps' st' block cursor end_ /\ grows ps ps' /\ forall w, w ∈ ws -> rooted ps' w.
Proof.
  induction ws as [|w ws IH]; intros ps st Hi; cbn [gc_inc_roots]; [exists ps, st; split; [done|]; split; [done|]; split; [done|]; by intros w ?%elem_of_nil|].
  destruct (gc_inc_visit_spec O ps st block cursor end_ w Hi) as (ps1 & st1 & -> & Hi1 & Hg1 & _ & Hr1). cbn [mbind option_bind]. destruct (IH ps1 st1 Hi1) as (ps2 & st2 & Hr & Hi2 & Hg2 & Hr2). exists ps2, st2.
  split; [done|]. split; [done|]. split; [by etrans|]. intros v [->|Hv]%elem_of_cons; [by apply (rooted_grows ps1)|by apply Hr2].
Qed.

(** ** Scanning *)
(** The cached page is a page of the list; trying it first changes nothing. *)
Definition target_ok (ps : list gpage) (target : option nat) : Prop := match target with Some i => is_Some (ps !! i) | None => True end.
Lemma target_ok_grows ps ps' target : grows ps ps' -> target_ok ps target -> target_ok ps' target.
Proof. intros [Hs _]. destruct target as [i|]; [|done]. intros [g Hg]. destruct (same_lookup ps ps' i g Hs Hg) as (g' & Hg' & _). by exists g'. Qed.
Lemma drain_page_spec ps target ptr : Forall tpage ps -> apart_pages ps -> target_ok ps target -> 0 <= ptr < 2 ^ 64 -> exists target', drain_page ps target ptr = Some (get_page ps ptr, target') /\ target_ok ps target'.
Proof.
  intros Hps Ha Ht Hptr. unfold drain_page.
  assert (exists t, (match get_page ps ptr with Some (i, g) => (Some (i, g), Some i) | None => (None, target) end) = (get_page ps ptr, t) /\ target_ok ps t) as (t & Et & Hok).
  { destruct (get_page ps ptr) as [[i g]|] eqn:Eg; [|by exists target]. exists (Some i). split; [done|]. apply get_page_lookup in Eg as [Hg _]. by exists g. }
  cbv zeta. rewrite Et. destruct target as [i|]; [|by exists t]. destruct Ht as [g Hg]. rewrite Hg. cbn [mbind option_bind]. destruct (tp_page _ (tpages_at ps i g Hps Hg)) as (part & Hp). pose proof (ipage_range g part Hp). destruct Hp as [_ Hsize (Hb & Hend & _) _].
  destruct (Z.geb_spec (u64 (ptr - base (head g))) (page_size (head g))) as [Hge|Hlt]; [by exists t|]. assert (INPAGE ptr g = true) as Hin.
  { apply INPAGE_spec. unfold uN in Hlt. change (2 ^ 64) with 18446744073709551616 in *. destruct (Z.le_gt_cases (base (head g)) ptr); [rewrite Z.mod_small in Hlt by nia; lia|].
    rewrite <- (Z.mod_add _ 1) in Hlt by lia. rewrite Z.mod_small in Hlt by nia. nia. }
  exists (Some i). rewrite (get_page_apart ps i g ptr Ha Hg Hin). split; [done|]. by exists g.
Qed.
Lemma drain_word_spec O ps st block cursor end_ target ptr : tinv O ps st block cursor end_ -> target_ok ps target -> 0 <= ptr < 2 ^ 64 ->
  exists ps' st' target', drain_word ps st target ptr = Some (ps', st', target') /\ tinv O ps' st' block cursor end_ /\ grows ps ps' /\ work ps' st' <= work ps st /\ target_ok ps' target' /\
    forall j h k, block_of ps' ptr = Some (j, h, k) -> marked ps' j k.
Proof.
  intros Hi Ht Hptr. unfold drain_word. destruct (Z.eqb_spec ptr 0) as [->|Hnz]; [exists ps, st, target; split; [done|]; split; [done|]; split; [done|]; split; [lia|]; split; [done|]; intros j h k Hb; discriminate Hb|].
  pose proof (ti_pages _ _ _ _ _ _ _ Hi) as Hps. destruct (drain_page_spec ps target ptr Hps (ti_apart _ _ _ _ _ _ _ Hi) Ht Hptr) as (t & -> & Hok). cbn [mbind option_bind].
  destruct (get_page ps ptr) as [[i g]|] eqn:Eg.
  - apply get_page_lookup in Eg as Hl. destruct Hl as [Hg Hin]. destruct (tp_page _ (tpages_at _ _ _ Hps Hg)) as [part Hp]. destruct (block_id_valid g part Hp ptr Hin) as (r & Hr & Hcase).
    destruct (gc_inc_visit_page_spec O ps st block cursor end_ ptr i g false r Hi Hg Hr) as (ps' & st' & -> & Hi' & Hgrow & Hwork & Hm); [tauto|]. cbn [mbind option_bind]. exists ps', st', t. split; [done|]. split; [done|]. split; [done|]. split; [done|].
    split; [by apply (target_ok_grows ps)|]. intros j h k Hb. pose proof (block_of_same ps ps' ptr (gr_same _ _ Hgrow)) as Hsame. unfold block_of at 1 in Hsame. rewrite (proj2 (Z.eqb_neq ptr 0) Hnz), Eg in Hsame. cbn [mbind option_bind] in Hsame.
    rewrite Hr in Hsame. cbn [mbind option_bind] in Hsame. destruct (Z.geb_spec r 0) as [Hpos|]; [|congruence]. destruct Hsame as (g' & E & _). rewrite Hb in E. injection E as -> -> ->. by apply Hm.
  - exists ps, st, t. split; [done|]. split; [done|]. split; [done|]. split; [lia|]. split; [done|]. intros j h k Hb. apply (block_of_valid ps ptr) in Hb as (_ & _ & E & _); [congruence|done].
Qed.
(** The word at the cursor is done. *)
Lemma advance_tinv O ps st block cursor end_ : tinv O ps st block cursor end_ -> cursor <> 0 -> cursor < end_ -> fine ps cursor -> tinv O ps st block (cursor + 8) end_.
Proof.
  intros [H1 H2 H3 H4 H5 H6] Hnz Hlt Hf. destruct H4 as [[? _]|(i & g & r & k & Hs & -> & Hk & Hc & He)]; [done|]. split; try done.
  - right. exists i, g, r, (k + 1). split; [done|]. split; [done|]. lia.
  - intros j h n a Hs' Hw. destruct (H6 j h n a Hs' Hw) as [[?|[(E & _ & Hle)|?]]|?]; [left; by left| |left; right; by right|by right]. destruct (decide (a = cursor)) as [->|Hne]; [by right|]. left. right. left.
    split; [done|]. destruct Hw as (m & Hm & ->). destruct (tp_page _ (tpages_at ps i g H1 (proj1 Hs))) as [part Hp]. destruct (gaddr_in g part Hp r (proj1 (proj2 Hs))) as (Hin%INPAGE_spec & _ & _). pose proof (ip_base _ _ Hp). lia.
Qed.
End steps.
