(* ===== verification/IncrementalDrain.v ===== *)
(** * Draining the worklist and scanning again the pages written to

    [gc_inc_drain] ends, and says it is done only when no block is left to scan;
    [gc_inc_rescan_dirty] puts every marked block of a page of the batch on the stack, or
    starts it again when it is the block being scanned. *)
From S2P Require Import Prelude PageMap Allocator AllocatorPage AllocatorAlloc AllocatorHeap AllocatorMark AllocatorProps Marking MarkingSound Incremental IncrementalPages IncrementalTrace.

Definition tinvt (mem : Z -> Z) (O : nat -> Z -> Z -> Prop) (tr : tracer) : Prop := tinv mem O (tr_pages tr) (tr_stack tr) (tr_block tr) (tr_cursor tr) (tr_end tr).
Definition workt (tr : tracer) : Z := work (tr_pages tr) (tr_stack tr).
Definition growst (tr tr' : tracer) : Prop := grows (tr_pages tr) (tr_pages tr').
#[export] Instance growst_preorder : PreOrder growst.
Proof. split; [intros tr; apply grows_preorder|]. intros a b c. apply grows_preorder. Qed.
(** The clock never says that the time is over. *)
Definition on_time (late : nat -> bool) : Prop := forall n, late n = false.

Section drain.
Context (mem : Z -> Z) (late : nat -> bool) (O : nat -> Z -> Z -> Prop).
Abbreviation tinvt := (tinvt mem O).
Lemma drain_words_spec n : forall tr target words now, tinvt tr -> tr_cursor tr <> 0 -> tr_end tr = tr_cursor tr + 8 * Z.of_nat n -> target_ok (tr_pages tr) target ->
  exists tr' target' words' now' stop, drain_words mem late n tr target words now = Some (tr', target', words', now', stop) /\ tinvt tr' /\ growst tr tr' /\ workt tr' <= workt tr /\ target_ok (tr_pages tr') target' /\
    tr_cursor tr' <> 0 /\ (stop = false -> tr_cursor tr' = tr_end tr') /\ (on_time late -> stop = false).
Proof.
  induction n as [|n IH]; intros tr target words now Hi Hnz He Ht; cbn [drain_words].
  { exists tr, target, words, now, false. split; [done|]. split; [done|]. split; [done|]. split; [lia|]. split; [done|]. split; [done|]. split; [lia|done]. }
  destruct (drain_word_spec mem O _ _ _ _ _ target (u64 (mem (tr_cursor tr))) Hi Ht) as (ps & st & t & -> & Hi1 & Hg1 & Hw1 & Ht1 & Hm); [apply uN_range; lia|]. cbn [mbind option_bind].
  set (tr1 := Tracer ps st (tr_block tr) (tr_cursor tr + 8) (tr_end tr)). assert (tinvt tr1) as Hi2 by (apply (advance_tinv mem O ps st _ _ _ Hi1 Hnz); [lia|intros j h k Hb _; by apply (Hm j h k)]).
  assert (growst tr tr1) as Hgr by exact Hg1. assert (workt tr1 <= workt tr) as Hwk by exact Hw1.
  assert (tr_cursor tr1 <> 0) as Hnz1.
  { destruct Hi2 as [_ _ _ [[Hc Hb]|(i & g & r & k & Hs & Hb & Hk & Hc & _)] _ _]; [|pose proof (ti_pages _ _ _ _ _ _ _ Hi1) as Hps; destruct (tp_page _ (tpages_at ps i g Hps (proj1 Hs))) as [part Hp]; destruct (gaddr_in g part Hp r (proj1 (proj2 Hs))) as (Hin%INPAGE_spec & _ & _); pose proof (ip_base _ _ Hp); lia].
    exfalso. destruct Hi as [_ _ _ [[? _]|(i & g & r & k & Hs & Hb' & Hk & Hc' & _)] _ _]; [done|]. cbn in Hc, Hb. lia. }
  destruct (IH tr1 t (u32 (words + 1)) (S now) Hi2 Hnz1) as (tr' & t' & w' & n' & stop & Hrun & Hi' & Hg' & Hw' & Ht' & Hnz' & Hend & Hlate); [cbn; lia|done|].
  destruct (IH tr1 t (u32 (words + 1)) now Hi2 Hnz1) as (tr2 & t2 & w2 & n2 & stop2 & Hrun2 & Hi3 & Hg3 & Hw3 & Ht3 & Hnz3 & Hend3 & Hlate3); [cbn; lia|done|].
  cbv zeta. destruct (Z.land (u32 (words + 1)) 255 =? 0).
  - destruct (late now) eqn:El.
    + exists tr1, t, (u32 (words + 1)), (S now), true. repeat (split; [done|]). intros Hon. by rewrite Hon in El.
    + exists tr', t', w', n', stop. split; [done|]. split; [done|]. split; [by etrans|]. split; [lia|]. done.
  - exists tr2, t2, w2, n2, stop2. split; [done|]. split; [done|]. split; [by etrans|]. split; [lia|]. done.
Qed.
Lemma drain_pop_spec tr : tinvt tr -> tr_cursor tr <> 0 \/ tr_stack tr <> [] ->
  exists tr', drain_pop tr = Some tr' /\ tinvt tr' /\ tr_pages tr' = tr_pages tr /\ tr_cursor tr' <> 0 /\ (exists n, tr_end tr' = tr_cursor tr' + 8 * Z.of_nat n) /\ workt tr' + (if tr_cursor tr =? 0 then 1 else 0) <= workt tr.
Proof.
  intros Hi Hsome. unfold drain_pop. destruct (Z.eqb_spec (tr_cursor tr) 0) as [Ec|Hnz]; cbn [negb].
  - destruct Hsome as [|Hst]; [done|]. destruct (tr_stack tr) as [|p st] eqn:Est; [done|]. pose proof Hi as [H1 H2 H3 H4 H5 H6]. rewrite Est in *. destruct (H3 p) as (i & g & r & Hs & ->); [by left|]. pose proof Hs as (Hg & Hv & Hb & Hk).
    destruct H4 as [[_ Eb]|(j & h & k & m & Hsj & Ebj & Hm & Ecj & _)].
    2:{ exfalso. destruct (tp_page _ (tpages_at _ j h H1 (proj1 Hsj))) as [part Hp]. destruct (gaddr_in h part Hp k (proj1 (proj2 Hsj))) as (Hin%INPAGE_spec & _ & _). pose proof (ip_base _ _ Hp). lia. }
    destruct (tp_page _ (tpages_at _ i g H1 Hg)) as [part Hp]. destruct (block_of_addr _ i g r H1 H2 Hg Hv) as [-> _]. cbn [mbind option_bind]. rewrite (drain_bid_valid g part Hp r Hv). destruct (gaddr_in g part Hp r Hv) as (Hin%INPAGE_spec & _ & Hnz). destruct (block_bytes_in g part Hp r Hv) as (Hb0 & Hbend & Hbs).
    assert ((match sizes (head g) with Some s => n ← aget s r; int_of (block_size (head g) * n) | None => Some (block_size (head g)) end) = Some (block_bytes (head g) r)) as ->.
    { destruct (sizes (head g)) as [s|] eqn:Es; [|unfold block_bytes; by rewrite Es]. destruct (Hbs s eq_refl) as (n & -> & Hn & E). cbn [mbind option_bind]. rewrite <- E. apply int_of_Some. pose proof (ip_size _ _ Hp). unfold in_i32, INT_MIN, INT_MAX in *. lia. }
    cbn [mbind option_bind]. fold (nwords g r). eexists. split; [done|]. assert (0 <= nwords g r) as Hn by (unfold nwords; apply Z.quot_pos; lia). split; [|split; [done|split; [done|split; [exists (Z.to_nat (nwords g r)); cbn; lia|]]]].
    + split; cbn [tr_pages tr_stack tr_block tr_cursor tr_end]; try done.
      * intros q Hq. apply H3. by right.
      * right. exists i, g, r, 0. split; [done|]. split; [done|]. split; [lia|]. split; [lia|done].
      * intros j h k Hh Hkr Hq. destruct (H5 j h k Hh Hkr Hq) as [[E|Hin2]%elem_of_cons|E]; [by right|by left|]. exfalso. rewrite Eb in E. destruct (tp_page _ (tpages_at _ j h H1 Hh)) as [part' Hp']. pose proof (ipage_range h part' Hp'). pose proof (ip_base _ _ Hp'). unfold gaddr in E. nia.
      * intros j h k a Hsj Hw. destruct (H6 j h k a Hsj Hw) as [[[E|Hin2]%elem_of_cons|[[E _]|HO]]|Hf]; [|left; by left| |left; right; by right|by right].
        -- left. right. left. split; [done|]. split; [done|]. destruct Hw as (m & Hm & ->). lia.
        -- exfalso. rewrite Eb in E. destruct (tp_page _ (tpages_at _ j h H1 (proj1 Hsj))) as [part' Hp']. by destruct (gaddr_in h part' Hp' k (proj1 (proj2 Hsj))) as (_ & _ & ?).
    + unfold workt, work. cbn [tr_pages tr_stack]. rewrite Est. cbn [length]. lia.
  - exists tr. split; [done|]. split; [done|]. split; [done|]. split; [done|]. split; [|lia]. destruct Hi as [_ _ _ [[? _]|(i & g & r & k & Hs & Hb & Hk & Hc & He)] _ _]; [done|]. exists (Z.to_nat (nwords g r - k)). lia.
Qed.
Lemma drain_finish_spec tr : tinvt tr -> tr_cursor tr <> 0 -> tr_cursor tr = tr_end tr -> exists tr', drain_finish tr = Some tr' /\ tinvt tr' /\ growst tr tr' /\ tr_cursor tr' = 0 /\ workt tr' = workt tr.
Proof.
  intros Hi Hnz Hend. pose proof Hi as [H1 H2 H3 H4 H5 H6]. destruct H4 as [[? _]|(i & g & r & k & Hs & Hb & Hk & Hc & He)]; [done|]. pose proof Hs as (Hg & Hv & Hm & Hkind). pose proof (tpages_at _ i g H1 Hg) as Htp. destruct (tp_page _ Htp) as [part Hp].
  unfold drain_finish. rewrite Hb. destruct (block_of_addr _ i g r H1 H2 Hg Hv) as [-> _]. cbn [mbind option_bind]. rewrite (drain_bid_valid g part Hp r Hv). destruct (clear_queued_bit g r Htp (proj1 Hv)) as (b & b' & -> & Hcl & Hset). cbn [mbind option_bind]. rewrite Hcl. cbn [mbind option_bind].
  eexists. split; [done|]. destruct (tpage_bits g Htp) as (b0 & _ & _ & Hbound).
  assert (forall j m, 0 <= j < max_blocks (head g) -> m && negb (j =? queued_bit (head g) r) = m) as Hsame by (intros j m Hj; destruct (Hbound r (proj1 Hv)) as (_ & _ & H); rewrite (proj2 (Z.eqb_neq j _)) by lia; apply andb_true_r).
  pose proof (unmarked_blocks_same g _ _ Htp Hset Hsame) as Hun. pose proof Hset as (_ & _ & Hbits). assert (forall j, valid (head g) j -> gbit (set_bmp g b') j = gbit g j) as Hgb by (intros j [? _]; rewrite Hbits by lia; by apply Hsame).
  destruct (tinv_set mem O O _ (tr_stack tr) (tr_stack tr) (tr_block tr) 0 (tr_cursor tr) 0 (tr_end tr) 0 i g _ _ Hi Hg Hset) as [Hi' Hgrow]; [|by left|by right| | |].
  - intros j Hvj Hj. by rewrite Hgb.
  - intros j h m Hh Hmr Hq. case_decide as Hj.
    + subst j. assert (h = g) as -> by congruence. unfold qbit in Hq. change (queued_bit (head (set_bmp g b')) m) with (queued_bit (head g) m) in Hq. destruct (Hbound m Hmr) as (_ & Hq0 & _). rewrite Hbits in Hq by lia. apply andb_true_iff in Hq as [Hq Hne]. apply negb_true_iff, Z.eqb_neq in Hne.
      destruct (H5 i g m Hg Hmr Hq) as [?|E]; [by left|]. exfalso. rewrite Hb in E. unfold gaddr in E. pose proof (ipage_range g part Hp) as (_ & Hbs & _). unfold queued_bit in Hne. nia.
    + destruct (H5 j h m Hh Hmr Hq) as [?|E]; [by left|]. exfalso. apply Hj. rewrite Hb in E. destruct (tp_page _ (tpages_at _ j h H1 Hh)) as [part' Hp']. destruct (ipage_range h part' Hp') as (_ & Hbs' & Hmx').
      assert (INPAGE (gaddr h m) h = true) as Hin by (apply INPAGE_spec; unfold gaddr; nia). pose proof (get_page_apart _ j h _ H2 Hh Hin) as Hgp. rewrite E in Hgp. destruct (block_of_addr _ i g r H1 H2 Hg Hv) as [Hgp' _]. congruence.
  - intros Hgrow j h m a Hh Hvm Hkm Hbm Hw. assert (gbit h m = true) as Hold by (case_decide as Hj; [subst j; assert (h = g) as -> by congruence; by rewrite <- Hgb|done]).
    destruct (H6 j h m a (conj Hh (conj Hvm (conj Hold Hkm))) Hw) as [[?|[(E & _ & Hle)|?]]|Hf]; [left; by left| |left; right; by right|right; by apply (fine_grows mem (tr_pages tr))].
    exfalso. rewrite Hb in E. destruct (addr_unique _ i g r j h m H1 H2 Hg Hv Hh Hvm (eq_sym E)) as (-> & -> & ->). destruct Hw as (q & Hq & ->). lia.
  - split; [exact Hi'|]. split; [exact Hgrow|]. split; [done|]. unfold workt, work. cbn [tr_pages tr_stack]. rewrite (unmarked_insert _ i g _ Hg). lia.
Qed.
End drain.

(** ** Draining ends *)
Lemma how_many_le P lo n : how_many P lo n <= Z.of_nat n.
Proof. revert lo. induction n as [|n IH]; intros lo; cbn [how_many]; [lia|]. specialize (IH (lo + 1)). destruct (P lo); cbn [Z.b2z]; lia. Qed.
Lemma unmarked_total ps : Forall tpage ps -> unmarked ps <= total_blocks ps.
Proof.
  induction 1 as [|g ps Hg _ IH]; [done|]. rewrite unmarked_cons. change (total_blocks (g :: ps)) with (max_blocks (head g) + total_blocks ps). destruct (tp_page _ Hg) as [part Hp]. pose proof (ipage_range g part Hp).
  rewrite (unmarked_blocks_bits g Hg). pose proof (how_many_le (fun r => negb (gbit g r)) 0 (Z.to_nat (max_blocks (head g)))). lia.
Qed.
(** The blocks left to scan, at most. *)
Definition drain_left (tr : tracer) : Z := workt tr + (if tr_cursor tr =? 0 then 0 else 1).
Lemma drain_left_nonneg tr : 0 <= drain_left tr.
Proof. unfold drain_left, workt, work. pose proof (unmarked_nonneg (tr_pages tr)). destruct (tr_cursor tr =? 0); lia. Qed.
(** What the loop ends with. *)
Definition drained mem late O tr (r : tracer * nat * bool) : Prop :=
  let '(tr', _, done_) := r in tinvt mem O tr' /\ growst tr tr' /\ (done_ = true -> tr_stack tr' = [] /\ tr_cursor tr' = 0) /\ (on_time late -> done_ = true).
Lemma drain_step_spec mem late O tr t target words objects nw : tinvt mem O t -> growst tr t -> target_ok (tr_pages t) target -> tr_cursor t <> 0 \/ tr_stack t <> [] ->
  (exists t' target' words' objects' nw', drain_step mem late (t, target, words, objects, nw) = Some (inl (t', target', words', objects', nw')) /\ tinvt mem O t' /\ growst tr t' /\ target_ok (tr_pages t') target' /\ drain_left t' < drain_left t)
  \/ exists r, drain_step mem late (t, target, words, objects, nw) = Some (inr r) /\ drained mem late O tr r.
Proof.
  intros Ht Hg Hok Hsome. unfold drain_step.
  assert ((tr_cursor t =? 0) && (alen (tr_stack t) =? 0) = false) as ->.
  { destruct (Z.eqb_spec (tr_cursor t) 0); [|done]. destruct Hsome as [|Hst]; [done|]. destruct (tr_stack t); [done|]. cbn [andb]. apply Z.eqb_neq. unfold alen. cbn [length]. lia. }
  destruct (drain_pop_spec mem O t Ht Hsome) as (t1 & -> & Ht1 & Hp1 & Hnz1 & (n & Hend1) & Hw1). cbn [mbind option_bind].
  replace (Z.to_nat (Z.quot (tr_end t1 - tr_cursor t1) 8)) with n by (rewrite Hend1; replace (tr_cursor t1 + 8 * Z.of_nat n - tr_cursor t1) with (Z.of_nat n * 8) by lia; rewrite Z.quot_mul by lia; lia).
  destruct (drain_words_spec mem late O n t1 target words nw Ht1 Hnz1 Hend1) as (t2 & tg2 & w2 & n2 & stop & -> & Ht2 & Hg2 & Hwk2 & Hok2 & Hnz2 & Hend2 & Hon2); [by rewrite Hp1|]. cbn [mbind option_bind].
  assert (growst tr t2) as Hg12 by (etrans; [exact Hg|]; unfold growst in *; by rewrite <- Hp1). destruct stop.
  { right. eexists. split; [done|]. split; [done|]. split; [done|]. split; [done|]. intros Hon. by discriminate (Hon2 Hon). }
  destruct (drain_finish_spec mem O t2 Ht2 Hnz2 (Hend2 eq_refl)) as (t3 & -> & Ht3 & Hg3 & Hc3 & Hw3). cbn [mbind option_bind]. cbv zeta. assert (growst tr t3) as Hg13 by (by etrans).
  assert (drain_left t3 < drain_left t) as Hm by (unfold drain_left; rewrite Hc3; change (0 =? 0) with true; cbn iota; destruct (tr_cursor t =? 0); lia).
  destruct (Z.land (u32 (objects + 1)) 63 =? 0); [destruct (late n2) eqn:El|].
  - right. eexists. split; [done|]. split; [done|]. split; [done|]. split; [done|]. intros Hon. by rewrite Hon in El.
  - left. eexists _, _, _, _, _. split; [done|]. split; [done|]. split; [done|]. split; [by apply (target_ok_grows (tr_pages t2))|done].
  - left. eexists _, _, _, _, _. split; [done|]. split; [done|]. split; [done|]. split; [by apply (target_ok_grows (tr_pages t2))|done].
Qed.
Lemma gc_inc_drain_spec mem late O tr now : tinvt mem O tr -> exists r, gc_inc_drain mem late tr now = Some r /\ drained mem late O tr r.
Proof.
  intros Hi. unfold gc_inc_drain.
  apply (loop_total (drain_step mem late) (fun '(t, target, _, _, _) => tinvt mem O t /\ growst tr t /\ target_ok (tr_pages t) target) (drained mem late O tr) (fun '(t, _, _, _, _) => Z.to_nat (drain_left t))).
  - intros [[[[t target] words] objects] nw] (Ht & Hg & Hok).
    destruct (decide (tr_cursor t = 0 /\ tr_stack t = [])) as [[Ec Es]|Hsome].
    + right. eexists. split; [unfold drain_step; rewrite Ec, Es; reflexivity|]. split; [done|]. split; [done|]. split; done.
    + destruct (drain_step_spec mem late O tr t target words objects nw Ht Hg Hok) as [(t' & tg & w & ob & n & E & H1 & H2 & H3 & H4)|?]; [destruct (decide (tr_cursor t = 0)); [right; tauto|by left]| |by right].
      left. eexists. split; [exact E|]. split; [done|]. pose proof (drain_left_nonneg t'). lia.
  - split; [done|]. split; [reflexivity|done].
  - pose proof (unmarked_total _ (ti_pages _ _ _ _ _ _ _ Hi)). unfold drain_left, workt, work. destruct (tr_cursor tr =? 0); lia.
Qed.

(** ** Scanning again *)
Section rescan.
Context (mem : Z -> Z) (late : nat -> bool).
Abbreviation tinvt := (tinvt mem).
(** The blocks of page [i] from [bid] on. *)
Definition from_block (i : nat) (bid : Z) (j : nat) (k : Z) : Prop := j = i /\ bid <= k.
Lemma rescan_block_spec O tr i g bid : tinvt (fun j k a => O j k a \/ from_block i bid j k) tr -> tr_pages tr !! i = Some g -> first_block (head g) <= bid < max_blocks (head g) ->
  exists tr', rescan_block i bid tr = Some tr' /\ tinvt (fun j k a => O j k a \/ from_block i (bid + 1) j k) tr' /\ growst tr tr'.
Proof.
  intros Hi Hg Hbid. pose proof (ti_pages _ _ _ _ _ _ _ Hi) as Hps. pose proof (tpages_at _ i g Hps Hg) as Htp. destruct (tp_page _ Htp) as [part Hp]. pose proof (ipage_range g part Hp) as (Hfirst & Hbs & _).
  unfold rescan_block. rewrite Hg. cbn [mbind option_bind]. destruct (ir_bmp _ (tp_ready _ Htp)) as (b & Eb & Hl & Hbytes & Hok). destruct (tpage_bits g Htp) as (b0 & Eb0 & _ & Hbound). rewrite Eb in Eb0. injection Eb0 as <-. rewrite Eb. cbn [mbind option_bind].
  rewrite (bmp_test_bits b bid) by (by apply Hbound; lia). cbn [mbind option_bind]. assert (gbit g bid = is_marked b bid) as Egb by (unfold gbit; by rewrite Eb).
  assert (tinvt (fun j k a => (O j k a \/ from_block i (bid + 1) j k) \/ at_block i bid j k) tr) as Hi'.
  { apply (tinv_outside mem _ _ _ _ _ _ _ Hi). intros j h k a _ _ [HO|[-> Hle]]; left; right; right; [left; by left|]. destruct (decide (k = bid)) as [->|]; [by right|]. left. right. split; [done|lia]. }
  destruct (is_marked b bid) eqn:Em.
  - assert (valid (head g) bid) as Hv by (split; [lia|]; intros s Es; split; [lia|]; unfold marks_ok in Hok; rewrite Es in Hok; apply Hok; [lia|done]).
    destruct (Z.eqb_spec (base (head g) + bid * block_size (head g)) (tr_block tr)) as [E|Hne].
    + eexists. split; [done|]. split; [|by apply grows_preorder]. fold (gaddr g bid) in E |- *. pose proof Hi' as [H1 H2 H3 H4 H5 H6]. destruct (gaddr_in g part Hp bid Hv) as (_ & _ & Hnz). split; cbn [tr_pages tr_stack tr_block tr_cursor tr_end]; try done.
      * destruct H4 as [[_ E0]|(j & h & k & n & Hs & Eb2 & Hn & Hc & He)]; [congruence|]. right. exists j, h, k, 0. split; [done|]. split; [done|]. split; [lia|]. split; [lia|done].
      * intros j h k a Hs Hw. destruct (H6 j h k a Hs Hw) as [[?|[(Ea & _ & Hle)|[?|[-> ->]]]]|Hf]; [left; by left| |left; right; by right| |by right].
        -- left. right. left. split; [done|]. split; [done|]. rewrite E, <- Ea. destruct Hw as (m & Hm & ->). lia.
        -- assert (h = g) as -> by (destruct Hs; congruence). left. right. left. split; [done|]. split; [done|]. destruct Hw as (m & Hm & ->). lia.
    + destruct (gc_inc_enqueue_spec mem _ _ _ _ _ _ i g bid Hi' Hg Hv) as (ps' & st' & -> & Hi2 & Hgrow & _); [by rewrite Egb|exact Hne|]. cbn [mbind option_bind]. eexists. split; [done|]. split; [exact Hi2|exact Hgrow].
  - exists tr. split; [done|]. split; [|by apply grows_preorder]. apply (tinv_outside mem _ _ _ _ _ _ _ Hi'). intros j h k a (Hh & _ & Hb & _) _ [HO|[-> ->]]; [left; right; by right|]. assert (h = g) as -> by congruence. congruence.
Qed.
Lemma rescan_blocks_spec O n : forall tr i g bid blocks now, tinvt (fun j k a => O j k a \/ from_block i bid j k) tr -> tr_pages tr !! i = Some g -> first_block (head g) <= bid -> bid + Z.of_nat n = max_blocks (head g) ->
  exists tr' bid' blocks' now' stop, rescan_blocks late n i bid tr blocks now = Some (tr', bid', blocks', now', stop) /\ tinvt (fun j k a => O j k a \/ from_block i bid' j k) tr' /\ growst tr tr' /\
    first_block (head g) <= bid' <= max_blocks (head g) /\ (stop = false -> tinvt O tr') /\ (on_time late -> stop = false).
Proof.
  induction n as [|n IH]; intros tr i g bid blocks now Hi Hg Hfirst Hn; cbn [rescan_blocks].
  { exists tr, bid, blocks, now, false. split; [done|]. split; [done|]. split; [done|]. split; [lia|]. split; [|done]. intros _. apply (tinv_outside mem _ _ _ _ _ _ _ Hi). intros j h k a (Hh & [Hk _] & _) _ [HO|[-> Hle]]; [left; right; by right|].
    assert (h = g) as -> by congruence. lia. }
  destruct (rescan_block_spec O tr i g bid Hi Hg ltac:(lia)) as (tr1 & -> & Hi1 & Hg1). cbn [mbind option_bind]. destruct (same_lookup _ _ i g (gr_same _ _ Hg1) Hg) as (g' & Hg' & Hsame).
  assert (first_block (head g') = first_block (head g) /\ max_blocks (head g') = max_blocks (head g)) as [Ef Em] by (destruct Hsame as [->|[b ->]]; done).
  assert (forall bl nw, exists tr' bid' blocks' now' stop, rescan_blocks late n i (bid + 1) tr1 bl nw = Some (tr', bid', blocks', now', stop) /\ tinvt (fun j k a => O j k a \/ from_block i bid' j k) tr' /\ growst tr tr' /\
    first_block (head g) <= bid' <= max_blocks (head g) /\ (stop = false -> tinvt O tr') /\ (on_time late -> stop = false)) as Hrest.
  { intros bl nw. destruct (IH tr1 i g' (bid + 1) bl nw Hi1 Hg') as (tr' & bid' & bl' & nw' & stop & Hr & Hi' & Hgr & Hrange & Hst & Hon); [lia|lia|]. exists tr', bid', bl', nw', stop. split; [done|]. split; [done|]. split; [by etrans|]. split; [lia|]. done. }
  cbv zeta. destruct (Z.land (u32 (blocks + 1)) 63 =? 0); [|apply Hrest]. destruct (late now) eqn:El; [|apply Hrest].
  exists tr1, (bid + 1), (u32 (blocks + 1)), (S now), true. split; [done|]. split; [done|]. split; [done|]. split; [lia|]. split; [done|]. intros Hon. by rewrite Hon in El.
Qed.
End rescan.
