(* ===== verification/IncrementalDirty.v ===== *)
(** * Pages written to: the queues, the walk over the system's bits, and a slice of tracing

    A page is on at most one of the two queues, and is flagged exactly then.  A complete walk
    of [gc_inc_collect_dirty] leaves every page of which a bit is set on a queue, even when the
    walk spans several slices and the program writes in between. *)
From S2P Require Import Prelude PageMap Allocator AllocatorPage AllocatorAlloc AllocatorHeap AllocatorMark AllocatorProps Marking MarkingSound Incremental IncrementalPages IncrementalTrace IncrementalDrain.

(** ** The queues *)
Definition queued_pages (dq : dirty_queue) : list nat := dq_incoming dq ++ dq_batch dq.
Record dinv (n : nat) (dq : dirty_queue) : Prop := DInv {
  di_len : length (dq_flags dq) = n;
  di_once : NoDup (queued_pages dq);
  di_flags : forall i, dq_flags dq !! i = Some true <-> i ∈ queued_pages dq;
  di_count : dq_count dq = u32 (alen (queued_pages dq)) }.
Lemma u32_add a b : u32 (u32 a + b) = u32 (a + b).
Proof. unfold uN. by rewrite Zplus_mod_idemp_l. Qed.
Lemma gc_dirty_enqueue_spec n dq i g : dinv n dq -> (i < n)%nat -> exists dq', gc_dirty_enqueue dq i g = Some dq' /\ dinv n dq' /\ dq_batch dq' = dq_batch dq /\
  (forall j, j ∈ queued_pages dq -> j ∈ queued_pages dq') /\ (MEM_HAS_PTR (page_kind g) = true -> i ∈ queued_pages dq').
Proof.
  intros Hd Hi. pose proof Hd as [Hl Ho Hf Hc]. unfold gc_dirty_enqueue. destruct (MEM_HAS_PTR (page_kind g)); cbn [negb]; [|exists dq; done].
  destruct (lookup_lt_is_Some_2 (dq_flags dq) i ltac:(lia)) as [[|] E]; rewrite E; cbn [mbind option_bind].
  - exists dq. split; [done|]. split; [done|]. split; [done|]. split; [done|]. intros _. by apply Hf.
  - eexists. split; [done|]. assert (i ∉ queued_pages dq) as Hnot by (intros Hin%Hf; congruence). unfold queued_pages in *. cbn [dq_incoming dq_batch dq_flags dq_count].
    split; [|split; [done|split; [intros j Hj; by right|intros _; by left]]]. split; cbn [dq_flags dq_count]; unfold queued_pages; cbn [dq_incoming dq_batch].
    + by rewrite length_insert.
    + cbn [app]. by apply NoDup_cons.
    + intros j. cbn [app]. rewrite elem_of_cons. destruct (decide (j = i)) as [->|Hne]; [rewrite list_lookup_insert_eq by lia; naive_solver|]. rewrite list_lookup_insert_ne by done. rewrite Hf. naive_solver.
    + rewrite Hc, u32_add. cbn [app]. rewrite alen_cons. f_equal. lia.
Qed.
Lemma gc_dirty_capture_done_spec n dq : dinv n dq -> dq_batch dq = [] -> exists dq', gc_dirty_capture_done dq = Done dq' /\ dinv n dq' /\ dq_incoming dq' = [] /\ dq_batch dq' = dq_incoming dq.
Proof.
  intros [Hl Ho Hf Hc] Hb. unfold gc_dirty_capture_done. rewrite Hb. change (alen (@nil nat) =? 0) with true. cbn [negb]. eexists. split; [done|]. unfold queued_pages in *. rewrite Hb, app_nil_r in *.
  split; [|done]. split; unfold queued_pages; cbn [dq_flags dq_incoming dq_batch dq_count app]; done.
Qed.
Lemma gc_dirty_pop_spec n dq : dinv n dq ->
  match gc_dirty_pop dq with
  | (None, dq') => dq' = dq /\ dq_batch dq = []
  | (Some i, dq') => dinv n dq' /\ dq_incoming dq' = dq_incoming dq /\ dq_batch dq = i :: dq_batch dq' /\ (i < n)%nat
  end.
Proof.
  intros [Hl Ho Hf Hc]. unfold gc_dirty_pop. destruct (dq_batch dq) as [|i rest] eqn:Eb; [done|]. unfold queued_pages in *. rewrite Eb in *.
  assert (dq_flags dq !! i = Some true) as Hi by (apply Hf, elem_of_app; right; by left). split; [|split; [done|split; [done|apply lookup_lt_Some in Hi; lia]]].
  rewrite <- Permutation_middle in Ho. apply NoDup_cons in Ho as [Hnot Ho]. split; unfold queued_pages; cbn [dq_flags dq_incoming dq_batch dq_count].
  - by rewrite length_insert.
  - done.
  - intros j. destruct (decide (j = i)) as [->|Hne]; [apply lookup_lt_Some in Hi; rewrite list_lookup_insert_eq by done; naive_solver|]. rewrite list_lookup_insert_ne by done. rewrite Hf, !elem_of_app, elem_of_cons. naive_solver.
  - rewrite Hc, <- Z.add_opp_r, u32_add. rewrite !alen_app, alen_cons. f_equal. lia.
Qed.

(** ** Draining the batch *)
Section batch.
Context (mem : Z -> Z) (late : nat -> bool) (O : nat -> Z -> Z -> Prop) (n : nat).
(** The pages of the batch, and the rest of the page being scanned again. *)
Definition rescanning (dq : dirty_queue) (rs : rescan) (j : nat) (k : Z) : Prop := j ∈ dq_batch dq \/ (rs_page rs = Some j /\ rs_bid rs <= k).
Definition rs_open (rs : rescan) : nat := match rs_page rs with Some _ => 1 | None => 0 end.
Definition rescan_ok (ps : list gpage) (rs : rescan) : Prop := forall i, rs_page rs = Some i -> exists g, ps !! i = Some g /\ first_block (head g) <= rs_bid rs <= max_blocks (head g).
Definition binv (tr : tracer) (dq : dirty_queue) (rs : rescan) : Prop :=
  tinvt mem (fun j k a => O j k a \/ rescanning dq rs j k) tr /\ dinv n dq /\ rescan_ok (tr_pages tr) rs /\ length (tr_pages tr) = n.
Definition rescanned (tr : tracer) (dq : dirty_queue) (r : tracer * dirty_queue * rescan * nat * bool) : Prop :=
  let '(tr', dq', rs', _, clean) := r in binv tr' dq' rs' /\ growst tr tr' /\ dq_incoming dq' = dq_incoming dq /\ (clean = true -> dq_batch dq' = [] /\ rs_page rs' = None) /\ (on_time late -> clean = true).
Lemma grows_length tr tr' : growst tr tr' -> length (tr_pages tr') = length (tr_pages tr).
Proof. intros [Hs _]. symmetry. by apply (Forall2_length _ _ _ Hs). Qed.
Lemma rescan_next_spec tr dq rs : binv tr dq rs -> exists page bid dq', rescan_next (tr_pages tr) dq rs = Some (page, bid, dq') /\ dinv n dq' /\ dq_incoming dq' = dq_incoming dq /\
  match page with
  | None => dq_batch dq = [] /\ rs_page rs = None /\ dq' = dq
  | Some i => exists g, tr_pages tr !! i = Some g /\ first_block (head g) <= bid <= max_blocks (head g) /\ tinvt mem (fun j k a => (O j k a \/ rescanning dq' (Rescan None 0) j k) \/ from_block i bid j k) tr /\
      (length (dq_batch dq') + 1 <= length (dq_batch dq) + rs_open rs)%nat
  end.
Proof.
  intros (Hi & Hd & Hr & Hn). unfold rescan_next. destruct (rs_page rs) as [i|] eqn:Ep.
  - exists (Some i), (rs_bid rs), dq. split; [done|]. split; [done|]. split; [done|]. destruct (Hr i Ep) as (g & Hg & Hb). exists g. split; [done|]. split; [done|]. split; [|unfold rs_open; rewrite Ep; lia].
    apply (tinv_outside mem _ _ _ _ _ _ _ Hi). intros j h k a _ _ [HO|[Hin|[Hp Hle]]]; left; right; right; [left; by left|left; right; by left|right; split; [congruence|done]].
  - pose proof (gc_dirty_pop_spec n dq Hd) as Hpop. destruct (gc_dirty_pop dq) as [[i|] dq'].
    + destruct Hpop as (Hd' & Hin & Eb & Hlt). destruct (lookup_lt_is_Some_2 (tr_pages tr) i ltac:(lia)) as [g Hg]. rewrite Hg. cbn [mbind option_bind]. eexists _, _, _. split; [done|]. split; [done|]. split; [done|]. exists g. split; [done|].
      destruct (tp_page _ (tpages_at _ i g (ti_pages _ _ _ _ _ _ _ Hi) Hg)) as [part Hp]. pose proof (ipage_range g part Hp). split; [lia|]. split; [|unfold rs_open; rewrite Ep, Eb; cbn [length]; lia].
      apply (tinv_outside mem _ _ _ _ _ _ _ Hi). intros j h k a (Hh & [Hv Hs] & _) _ [HO|[Hb|[Hp' _]]]; [left; right; right; left; by left| |congruence]. rewrite Eb in Hb. apply elem_of_cons in Hb as [->|Hb]; left; right; right; [right|left; right; by left].
      assert (h = g) as -> by congruence. split; [done|]. destruct (sizes (head g)) as [s|] eqn:Es; [by apply (Hs s)|]. rewrite (ip_first _ _ Hp Es). lia.
    + destruct Hpop as [-> Eb]. exists None, (rs_bid rs), dq. done.
Qed.
Lemma gc_inc_rescan_dirty_spec tr dq rs now : binv tr dq rs -> exists r, gc_inc_rescan_dirty late tr dq rs now = Some r /\ rescanned tr dq r.
Proof.
  intros Hb. unfold gc_inc_rescan_dirty.
  apply (loop_total (rescan_step late) (fun '(t, d, r, _, _) => binv t d r /\ growst tr t /\ dq_incoming d = dq_incoming dq) (rescanned tr dq) (fun '(_, d, r, _, _) => length (dq_batch d) + rs_open r)%nat).
  - intros [[[[t d] r] blocks] nw] (Hbt & Hg & Hin). unfold rescan_step. destruct (rescan_next_spec t d r Hbt) as (page & bid & d' & -> & Hd' & Hin' & Hpage). cbn [mbind option_bind]. destruct page as [i|].
    + destruct Hpage as (g & Hgi & Hbid & Hi & Hlen). rewrite Hgi. cbn [mbind option_bind].
      destruct (rescan_blocks_spec mem late _ (Z.to_nat (max_blocks (head g) - bid)) t i g bid blocks nw Hi Hgi) as (t' & bid' & bl' & nw' & stop & -> & Hi' & Hg' & Hrange & Hdone & Hon); [lia|lia|]. cbn [mbind option_bind].
      assert (growst tr t') as Hg2 by (by etrans). assert (length (tr_pages t') = n) as Hlen' by (rewrite (grows_length _ _ Hg'); apply Hbt). destruct stop.
      * right. eexists. split; [done|]. split; [|split; [done|split; [by etrans|split; [done|intros H; by discriminate (Hon H)]]]]. split; [|split; [done|split; [|done]]].
        -- apply (tinv_outside mem _ _ _ _ _ _ _ Hi'). intros j h k a _ _ [[HO|[Hq|[Hq _]]]|[-> Hle]]; [left; right; right; by left|left; right; right; right; by left|done|left; right; right; right; right; done].
        -- intros j [= <-]. destruct (same_lookup _ _ i g (gr_same _ _ Hg') Hgi) as (g' & Hgi' & Hs). exists g'. split; [done|]. cbn [rs_bid]. destruct Hs as [->|[b ->]]; exact Hrange.
      * assert (binv t' d' (Rescan None bid')) as Hb'.
        { split; [|split; [done|split; [done|done]]]. apply (tinv_outside mem _ _ _ _ _ _ _ (Hdone eq_refl)). intros j h k a _ _ [HO|[Hq|[Hq _]]]; [left; right; right; by left|left; right; right; right; by left|done]. }
        destruct (late nw') eqn:El.
        -- right. eexists. split; [done|]. split; [done|]. split; [done|]. split; [by etrans|]. split; [done|]. intros Hot. by rewrite Hot in El.
        -- left. eexists. split; [done|]. split; [split; [done|]; split; [done|by etrans]|]. unfold rs_open in *. cbn [rs_page]. lia.
    + destruct Hpage as (Eb & Ep & ->). right. eexists. split; [done|]. split; [|split; [done|split; [done|done]]].
      destruct Hbt as (Hi & Hd & Hr & Hn). split; [|split; [done|split; [done|done]]]. apply (tinv_outside mem _ _ _ _ _ _ _ Hi). intros j h k a _ _ [HO|[Hq|[Hq _]]]; [left; right; right; by left|left; right; right; right; by left|congruence].
  - split; [done|]. split; [reflexivity|done].
  - unfold rs_open. destruct (rs_page rs); lia.
Qed.

(** ** A slice of tracing *)
Definition traced (roots : list Z) (tr : tracer) (dq : dirty_queue) (r : tracer * dirty_queue * rescan * nat * bool) : Prop :=
  let '(tr', dq', rs', _, done_) := r in binv tr' dq' rs' /\ growst tr tr' /\ dq_incoming dq' = dq_incoming dq /\ (forall w, w ∈ roots -> rooted (tr_pages tr') w) /\
    (done_ = true -> dq_batch dq' = [] /\ rs_page rs' = None /\ tr_stack tr' = [] /\ tr_cursor tr' = 0) /\ (on_time late -> done_ = true).
Lemma rescan_ok_grows tr tr' rs : growst tr tr' -> rescan_ok (tr_pages tr) rs -> rescan_ok (tr_pages tr') rs.
Proof. intros Hg Hr i Hi. destruct (Hr i Hi) as (g & Hgi & Hb). destruct (same_lookup _ _ i g (gr_same _ _ Hg) Hgi) as (g' & Hg' & Hs). exists g'. split; [done|]. destruct Hs as [->|[b ->]]; exact Hb. Qed.
Lemma gc_inc_trace_slice_spec roots tr dq rs now : binv tr dq rs -> exists r, gc_inc_trace_slice mem late roots tr dq rs now = Some r /\ traced roots tr dq r.
Proof.
  intros (Hi & Hd & Hr & Hn). unfold gc_inc_trace_slice. destruct (gc_inc_roots_spec mem _ _ _ _ roots _ _ Hi) as (ps & st & -> & Hi1 & Hg1 & Hroots). cbn [mbind option_bind]. set (tr1 := with_marked tr (ps, st)).
  assert (growst tr tr1) as Hgr by exact Hg1. assert (binv tr1 dq rs) as Hb1 by (split; [exact Hi1|split; [done|split; [by apply (rescan_ok_grows tr)|by rewrite (grows_length _ _ Hgr)]]]).
  destruct (gc_inc_rescan_dirty_spec tr1 dq rs now Hb1) as ([[[[tr2 dq2] rs2] now2] clean] & -> & Hb2 & Hg2 & Hin2 & Hclean & Hon2). cbn [mbind option_bind].
  assert (growst tr tr2) as Hgr2 by (by etrans). assert (forall w, w ∈ roots -> rooted (tr_pages tr2) w) as Hroots2 by (intros w Hw; by apply (rooted_grows ps), Hroots). destruct clean.
  - destruct Hb2 as (Hi2 & Hd2 & Hr2 & Hn2). destruct (gc_inc_drain_spec mem late _ tr2 now2 Hi2) as ([[tr3 now3] d] & -> & Hi3 & Hg3 & Hdone & Hon3). cbn [mbind option_bind]. eexists. split; [done|]. destruct (Hclean eq_refl) as [Eb Ep].
    split; [split; [done|split; [done|split; [by apply (rescan_ok_grows tr2)|by rewrite (grows_length _ _ Hg3)]]]|]. split; [by etrans|]. split; [done|]. split; [intros w Hw; by apply (rooted_grows (tr_pages tr2)), Hroots2|]. split; [|done].
    intros Hd3. split; [done|]. split; [done|]. by apply Hdone.
  - eexists. split; [done|]. split; [done|]. split; [done|]. split; [done|]. split; [done|]. split; [done|]. intros Hot. by discriminate (Hon2 Hot).
Qed.
End batch.

(** ** The bits of the system *)
Section walk.
Context (late works : nat -> bool) (os_page : Z) (soft : gset Z) (lists : list (list nat)) (ps : list gpage).
Hypothesis Hos : 0 < os_page /\ GC_PAGE_SIZE mod os_page = 0.
Hypothesis Hps : forall i g, ps !! i = Some g -> exists part, ipage part g.
(** Every page of a bit that is set in part of a page is on a queue. *)
Definition clean_upto (dq : dirty_queue) (i : nat) (g : gpage) (off : Z) : Prop := forall a, base (head g) <= a < base (head g) + off -> Z.quot a os_page ∈ soft -> i ∈ queued_pages dq.
Definition clean (dq : dirty_queue) (i : nat) (g : gpage) : Prop := clean_upto dq i g (page_size (head g)).
(** Nothing stops the reads. *)
Definition readable : Prop := (forall n, works n = true) /\ forall i g, ps !! i = Some g -> page_size (head g) mod os_page = 0.
Lemma mod_divides a b : 0 < b -> a mod b = 0 -> (b | a).
Proof. intros. apply Z.mod_divide; lia. Qed.
Lemma base_aligned i g : ps !! i = Some g -> 0 < base (head g) /\ base (head g) mod os_page = 0.
Proof.
  intros Hg. destruct (Hps i g Hg) as [part Hp]. destruct (ip_base _ _ Hp) as (Hb & _ & Hal & _). split; [done|]. destruct Hos as [Hpos Hdiv]. apply mod_divides in Hdiv, Hal; [|done..].
  apply Z.mod_divide; [lia|]. by apply (Z.divide_trans _ GC_PAGE_SIZE).
Qed.
Lemma chunk_spec i g offset dirty now : ps !! i = Some g -> 0 <= offset < page_size (head g) -> offset mod os_page = 0 ->
  exists ok offset' dirty' now', gc_inc_capture_chunk works os_page soft g offset dirty now = (ok, offset', dirty', now') /\ (readable -> ok = true) /\
    (ok = true -> offset + os_page <= offset' <= page_size (head g) /\ offset' mod os_page = 0 /\ (dirty' = false -> dirty = false /\ forall a, base (head g) + offset <= a < base (head g) + offset' -> Z.quot a os_page ∉ soft)).
Proof.
  intros Hg Hoff Hal. destruct (base_aligned i g Hg) as [Hb Hbal]. unfold gc_inc_capture_chunk. set (c := Z.quot (page_size (head g) - offset) os_page). set (count := if c >? 256 then 256 else c).
  assert (c * os_page <= page_size (head g) - offset) as Hc by (unfold c; rewrite Z.quot_div_nonneg by lia; rewrite Z.mul_comm; apply Z.mul_div_le; lia). assert (count <= c) as Hle by (unfold count; destruct (Z.gtb_spec c 256); lia).
  destruct (Z.leb_spec count 0) as [Hz|Hpos].
  - eexists _, _, _, _. split; [done|]. split; [|done]. intros [_ Hsz]. exfalso. specialize (Hsz i g Hg). apply mod_divides in Hsz as [u Hu], Hal as [v Hv]; [|lia..].
    assert (c = u - v) as E by (unfold c; rewrite Hu, Hv; replace (u * os_page - v * os_page) with ((u - v) * os_page) by lia; apply Z.quot_mul; lia). unfold count in Hz. destruct (Z.gtb_spec c 256); nia.
  - destruct (works now) eqn:Ew; cbn [negb].
    + eexists _, _, _, _. split; [done|]. split; [done|]. intros _. split; [nia|]. split; [rewrite Z.mod_add by lia; done|]. intros Hd. apply orb_false_iff in Hd as [-> Hex]. split; [done|]. intros a Ha Hin.
      apply not_true_iff_false in Hex. apply Hex, existsb_exists. exists (Z.quot a os_page). split; [|by apply bool_decide_eq_true]. apply list_elem_of_In, elem_of_seqZ. rewrite !Z.quot_div_nonneg by nia.
      apply mod_divides in Hal as [v Hv], Hbal as [u Hu]; [|lia..]. rewrite Hv, Hu in *. rewrite <- Z.mul_add_distr_r, Z.div_mul by lia. split; [apply Z.div_le_lower_bound; nia|apply Z.div_lt_upper_bound; nia].
    + eexists _, _, _, _. split; [done|]. split; [intros [Hw _]; by rewrite Hw in Ew|done].
Qed.
(** One page of [gc_inc_capture_all]. *)
Lemma capture_page_spec i g now : ps !! i = Some g -> exists ok dirty now', capture_page works os_page soft g now = Some (ok, dirty, now') /\ (readable -> ok = true) /\
  (ok = true -> dirty = false -> forall a, base (head g) <= a < base (head g) + page_size (head g) -> Z.quot a os_page ∉ soft).
Proof.
  intros Hg. destruct (Hps i g Hg) as [part Hp]. pose proof (ipage_range g part Hp) as Hr. unfold capture_page.
  match goal with |- context [loop ?f ?steps ?init] => set (step := f); destruct (loop_total step
    (fun '(off, dirty, _) => 0 <= off <= page_size (head g) /\ off mod os_page = 0 /\ (dirty = false -> forall a, base (head g) <= a < base (head g) + off -> Z.quot a os_page ∉ soft))
    (fun '(ok, dirty, _) => (readable -> ok = true) /\ (ok = true -> dirty = false -> forall a, base (head g) <= a < base (head g) + page_size (head g) -> Z.quot a os_page ∉ soft))
    (fun '(off, _, _) => Z.to_nat (Z.quot (page_size (head g)) os_page - Z.quot off os_page)) ) with (fuel := steps) (s := init) as ([[ok dirty] now'] & E & Hq) end.
  - intros [[off dirty] nw] (Hoff & Hal & Hd). unfold step. destruct (Z.ltb_spec off (page_size (head g))) as [Hlt|Hge]; cbn [andb].
    + destruct dirty; cbn [negb]; [right; eexists; split; [done|done]|]. destruct (chunk_spec i g off false nw Hg ltac:(lia) Hal) as (ok & off' & dirty' & now' & -> & Hread & Hok). destruct ok.
      * left. eexists. split; [done|]. destruct (Hok eq_refl) as (Hoff' & Hal' & Hcl). split; [split; [lia|]; split; [done|]|].
        -- intros Hd' a Ha. destruct (Hcl Hd') as [_ Hn]. destruct (Z.lt_ge_cases a (base (head g) + off)); [apply Hd; [done|lia]|apply Hn; lia].
        -- apply mod_divides in Hal as [u ->], Hal' as [v ->]; [|lia..]. rewrite !Z.quot_mul by lia. assert (v <= Z.quot (page_size (head g)) os_page) by (rewrite Z.quot_div_nonneg by lia; apply Z.div_le_lower_bound; lia). nia.
      * right. eexists. split; [done|]. split; [intros Hre; by discriminate (Hread Hre)|done].
    + right. eexists. split; [by destruct dirty|]. split; [done|]. intros _ Hd' a Ha. apply Hd; [done|lia].
  - split; [nia|]. split; [by rewrite Z.mod_0_l by lia|]. intros _ a Ha. lia.
  - rewrite Z.quot_0_l by lia. lia.
  - exists ok, dirty, now'. split; [exact E|exact Hq].
Qed.
Lemma capture_pages_spec n l : forall dq now, n = length ps -> dinv n dq -> (forall i, i ∈ l -> (i < n)%nat) ->
  exists ok dq' now', capture_pages works os_page soft ps l dq now = Some (ok, dq', now') /\ dinv n dq' /\ dq_batch dq' = dq_batch dq /\ (forall j, j ∈ queued_pages dq -> j ∈ queued_pages dq') /\
    (readable -> ok = true) /\ (ok = true -> forall i g, i ∈ l -> ps !! i = Some g -> MEM_HAS_PTR (page_kind g) = true -> clean dq' i g).
Proof.
  intros dq now ->. revert dq now. induction l as [|i l IH]; intros dq now Hd Hl; cbn [capture_pages].
  { exists true, dq, now. repeat (split; [done|]). by intros _ i g ?%elem_of_nil. }
  destruct (lookup_lt_is_Some_2 ps i) as [g Hg]; [apply Hl; by left|]. rewrite Hg. cbn [mbind option_bind]. destruct (MEM_HAS_PTR (page_kind g)) eqn:Ek; cbn [negb].
  - destruct (capture_page_spec i g now Hg) as (ok & dirty & now1 & -> & Hread & Hclean). cbn [mbind option_bind]. destruct ok; cbn [negb].
    + assert (exists dq1, (if dirty then gc_dirty_enqueue dq i g else Some dq) = Some dq1 /\ dinv (length ps) dq1 /\ dq_batch dq1 = dq_batch dq /\ (forall j, j ∈ queued_pages dq -> j ∈ queued_pages dq1) /\ clean dq1 i g) as (dq1 & -> & Hd1 & Hb1 & Hm1 & Hc1).
      { destruct dirty.
        - destruct (gc_dirty_enqueue_spec (length ps) dq i g Hd) as (dq1 & E & H1 & H2 & H3 & H4); [by apply lookup_lt_Some in Hg|]. exists dq1. repeat (split; [done|]). intros a _ _. by apply H4.
        - exists dq. repeat (split; [done|]). intros a Ha Hin. by destruct (Hclean eq_refl eq_refl a Ha). }
      cbn [mbind option_bind]. destruct (IH dq1 now1 Hd1) as (ok & dq2 & now2 & E & Hd2 & Hb2 & Hm2 & Hr2 & Hc2); [intros j Hj; apply Hl; by right|]. exists ok, dq2, now2. split; [done|]. split; [done|]. split; [congruence|]. split; [auto|]. split; [done|].
      intros Hok j h [->|Hj]%elem_of_cons Hh Hkh; [|by apply Hc2]. assert (h = g) as -> by congruence. intros a Ha Hin. by apply Hm2, (Hc1 a).
    + exists false, dq, now1. by repeat (split; [done|]).
  - destruct (IH dq now Hd) as (ok & dq2 & now2 & E & Hd2 & Hb2 & Hm2 & Hr2 & Hc2); [intros j Hj; apply Hl; by right|]. exists ok, dq2, now2. repeat (split; [done|]).
    intros Hok j h [->|Hj]%elem_of_cons Hh Hkh; [|by apply Hc2]. congruence.
Qed.

(** ** The walk *)
Hypothesis Hlists : alen lists = GC_PAGE_SLOTS /\ (forall l i, l ∈ lists -> i ∈ l -> (i < length ps)%nat) /\ forall i, (i < length ps)%nat -> exists l, l ∈ lists /\ i ∈ l.
(** The cursor is in the lists, its offset inside its page. *)
Record walk_ok (wk : walk) : Prop := WalkOk {
  wo_pid : 0 <= wk_pid wk <= GC_PAGE_SLOTS;
  wo_cursor : forall i, i ∈ wk_cursor wk -> (i < length ps)%nat;
  wo_offset : wk_offset wk mod os_page = 0 /\ 0 <= wk_offset wk /\ match wk_cursor wk with [] => wk_offset wk = 0 | i :: _ => forall g, ps !! i = Some g -> wk_offset wk < page_size (head g) end }.
(** What the walk has still to look at. *)
Definition remaining (wk : walk) : list nat := wk_cursor wk ++ concat (drop (Z.to_nat (wk_pid wk)) lists).
(** Of a walk that has not been interrupted: what it has passed is clean. *)
Definition passed (dq : dirty_queue) (wk : walk) : Prop := wk_spanned wk = false ->
  (forall i g, ps !! i = Some g -> MEM_HAS_PTR (page_kind g) = true -> clean dq i g \/ i ∈ remaining wk) /\
  match wk_cursor wk with [] => True | i :: _ => forall g, ps !! i = Some g -> MEM_HAS_PTR (page_kind g) = true -> clean_upto dq i g (wk_offset wk) end.
Definition cost (l : list nat) : Z := alen l + chunks os_page ps l.
Definition walk_cost (wk : walk) : Z := GC_PAGE_SLOTS - wk_pid wk + cost (remaining wk) - Z.quot (wk_offset wk) os_page.
Lemma chunks_cons i l g : ps !! i = Some g -> chunks os_page ps (i :: l) = Z.quot (page_size (head g)) os_page + chunks os_page ps l.
Proof. intros Hg. unfold chunks. cbn [foldr]. by rewrite Hg. Qed.
Lemma chunks_nonneg l : 0 <= chunks os_page ps l.
Proof.
  induction l as [|i l IH]; [done|]. unfold chunks in *. cbn [foldr]. destruct (ps !! i) as [g|] eqn:E; [|done]. destruct (Hps i g E) as [part Hp]. pose proof (ipage_range g part Hp). pose proof (Z.quot_pos (page_size (head g)) os_page ltac:(nia) ltac:(lia)). lia.
Qed.
Lemma chunks_app l1 l2 : chunks os_page ps (l1 ++ l2) = chunks os_page ps l1 + chunks os_page ps l2.
Proof. induction l1 as [|i l1 IH]; [done|]. unfold chunks in *. cbn [app foldr]. destruct (ps !! i); lia. Qed.
Lemma cost_app l1 l2 : cost (l1 ++ l2) = cost l1 + cost l2.
Proof. unfold cost. rewrite alen_app, chunks_app. lia. Qed.
Lemma cost_nonneg l : 0 <= cost l.
Proof. unfold cost. pose proof (chunks_nonneg l). pose proof (alen_nonneg l). lia. Qed.
Lemma cost_drop k : cost (concat (drop k lists)) <= cost (concat lists).
Proof. rewrite <- (take_drop k lists) at 2. rewrite concat_app, cost_app. pose proof (cost_nonneg (concat (take k lists))). lia. Qed.
Lemma clean_mono dq dq' i g off : (forall j, j ∈ queued_pages dq -> j ∈ queued_pages dq') -> clean_upto dq i g off -> clean_upto dq' i g off.
Proof. intros Hm Hc a Ha Hin. by apply Hm, (Hc a). Qed.
(** The page of the cursor. *)
Lemma walk_page_spec wk i rest dq now : walk_ok wk -> dinv (length ps) dq -> passed dq wk -> wk_cursor wk = i :: rest ->
  exists ok wk' dq' now', walk_page works os_page soft ps wk i rest dq now = Some (ok, wk', dq', now') /\ dinv (length ps) dq' /\ dq_batch dq' = dq_batch dq /\ (forall j, j ∈ queued_pages dq -> j ∈ queued_pages dq') /\
    (readable -> ok = true) /\ (ok = true -> walk_ok wk' /\ passed dq' wk' /\ wk_walk wk' = wk_walk wk /\ wk_spanned wk' = wk_spanned wk /\ 0 <= walk_cost wk' < walk_cost wk).
Proof.
  intros [Hpid Hcur (Hal & Hoff & Hlt)] Hd Hpass Ec. rewrite Ec in *. destruct (lookup_lt_is_Some_2 ps i) as [g Hg]; [apply Hcur; by left|]. specialize (Hlt g Hg). unfold walk_page. rewrite Hg. cbn [mbind option_bind].
  assert (exists ok off dirty now', (if MEM_HAS_PTR (page_kind g) then gc_inc_capture_chunk works os_page soft g (wk_offset wk) false now else (true, wk_offset wk, false, now)) = (ok, off, dirty, now') /\ (readable -> ok = true) /\
    (ok = true -> if MEM_HAS_PTR (page_kind g) then wk_offset wk + os_page <= off <= page_size (head g) /\ off mod os_page = 0 /\ (dirty = false -> forall a, base (head g) + wk_offset wk <= a < base (head g) + off -> Z.quot a os_page ∉ soft) else off = wk_offset wk /\ dirty = false)) as (ok & off & dirty & now' & -> & Hread & Hok).
  { destruct (MEM_HAS_PTR (page_kind g)); [|by eexists _, _, _, _]. destruct (chunk_spec i g (wk_offset wk) false now Hg ltac:(lia) Hal) as (ok & off & dirty & now' & -> & Hr & Hok). exists ok, off, dirty, now'. split; [done|]. split; [done|]. intros E. destruct (Hok E) as (H1 & H2 & H3).
    split; [done|]. split; [done|]. intros E2. by apply H3. }
  destruct ok; cbn [negb]; [|exists false, wk, dq, now'; by repeat (split; [done|])].
  assert (exists dq1, (if dirty then gc_dirty_enqueue dq i g else Some dq) = Some dq1 /\ dinv (length ps) dq1 /\ dq_batch dq1 = dq_batch dq /\ (forall j, j ∈ queued_pages dq -> j ∈ queued_pages dq1) /\ (dirty = true -> MEM_HAS_PTR (page_kind g) = true -> i ∈ queued_pages dq1)) as (dq1 & -> & Hd1 & Hb1 & Hm1 & Hq1).
  { destruct dirty; [|by exists dq]. destruct (gc_dirty_enqueue_spec (length ps) dq i g Hd) as (dq1 & E & H1 & H2 & H3 & H4); [by apply lookup_lt_Some in Hg|]. exists dq1. repeat (split; [done|]). done. }
  cbn [mbind option_bind]. eexists true, _, dq1, now'. split; [done|]. split; [done|]. split; [done|]. split; [done|]. split; [done|]. intros _. specialize (Hok eq_refl).
  assert (wk_spanned wk = false -> MEM_HAS_PTR (page_kind g) = true -> clean_upto dq1 i g off) as Hclean.
  { intros Hsp Hk. rewrite Hk in Hok. destruct Hok as (H1 & H2 & H3). intros a Ha Hin. destruct dirty; [by apply Hq1|]. destruct (Z.lt_ge_cases a (base (head g) + wk_offset wk)); [|by destruct (H3 eq_refl a); [lia|]].
    destruct (Hpass Hsp) as [_ Hhead]. rewrite Ec in Hhead. apply Hm1, (Hhead g Hg Hk a); [lia|done]. }
  assert (walk_cost wk = GC_PAGE_SLOTS - wk_pid wk + (1 + Z.quot (page_size (head g)) os_page + cost rest) + cost (concat (drop (Z.to_nat (wk_pid wk)) lists)) - Z.quot (wk_offset wk) os_page) as Ecost.
  { unfold walk_cost, remaining. rewrite Ec, cost_app. unfold cost. rewrite alen_cons, (chunks_cons i rest g Hg). lia. }
  pose proof (Z.quot_le_mono (wk_offset wk) (page_size (head g)) os_page ltac:(lia) ltac:(lia)) as Hq. pose proof (cost_nonneg rest). pose proof (cost_nonneg (concat (drop (Z.to_nat (wk_pid wk)) lists))).
  destruct (dirty || negb (MEM_HAS_PTR (page_kind g)) || (off >=? page_size (head g))) eqn:Enext.
  - split; [split; cbn [wk_pid wk_cursor wk_offset]; [done|intros j Hj; apply Hcur; by right|]|].
    { split; [by rewrite Z.mod_0_l by lia|]. split; [lia|]. destruct rest as [|j rest]; [done|]. intros h Hh. destruct (Hps j h Hh) as [part Hp]. pose proof (ipage_range h part Hp). nia. }
    split; [|split; [done|split; [done|]]].
    + intros Hsp. cbn [wk_spanned wk_cursor wk_pid wk_offset] in *. destruct (Hpass Hsp) as [Hp _]. unfold remaining in *. cbn [wk_cursor wk_pid]. rewrite Ec in Hp. split.
      * intros j h Hh Hk. destruct (Hp j h Hh Hk) as [Hc|Hin]; [left; by apply (clean_mono dq)|]. cbn [app] in Hin. apply elem_of_cons in Hin as [->|Hin]; [|by right]. left. assert (h = g) as -> by congruence. rewrite Hk in Hok, Enext. cbn [negb] in Enext. rewrite orb_false_r in Enext.
        intros a Ha Hin. apply orb_true_iff in Enext as [Hdirty|Hoffge]; [by apply Hq1|]. rewrite Z.geb_leb in Hoffge. apply Z.leb_le in Hoffge. apply (Hclean Hsp Hk a); [lia|done].
      * destruct rest; [done|]. intros h Hh Hk a Ha. lia.
    + unfold walk_cost at 1 2, remaining. cbn [wk_pid wk_cursor wk_offset]. rewrite cost_app, Z.quot_0_l by lia. lia.
  - apply orb_false_iff in Enext as [[-> Hk]%orb_false_iff Hge]. apply negb_false_iff in Hk. rewrite Hk in Hok. destruct Hok as (H1 & H2 & H3). rewrite Z.geb_leb in Hge. apply Z.leb_gt in Hge.
    split; [split; cbn [wk_pid wk_cursor wk_offset]; rewrite ?Ec; [done|done|]|].
    { split; [done|]. split; [lia|]. intros h Hh. assert (h = g) as -> by congruence. lia. }
    split; [|split; [done|split; [done|]]].
    + intros Hsp. cbn [wk_spanned wk_cursor wk_pid wk_offset] in *. destruct (Hpass Hsp) as [Hp _]. unfold remaining in *. cbn [wk_cursor wk_pid]. split; [|rewrite Ec; intros h Hh _; assert (h = g) as -> by congruence; by apply Hclean].
      intros j h Hh Hkh. destruct (Hp j h Hh Hkh) as [Hc|Hin]; [left; by apply (clean_mono dq)|by right].
    + unfold walk_cost at 1 2, remaining. cbn [wk_pid wk_cursor wk_offset]. rewrite Ecost, Ec, cost_app. unfold cost at 1 3. rewrite alen_cons, (chunks_cons i rest g Hg). unfold cost in *. apply mod_divides in Hal as [u Hu], H2 as [v Hv]; [|lia..]. rewrite Hu, Hv in *. rewrite !Z.quot_mul by lia.
      assert (v <= Z.quot (page_size (head g)) os_page) by (rewrite Z.quot_div_nonneg by lia; apply Z.div_le_lower_bound; lia). nia.
Qed.
(** What the walk ends with.  A complete one has every page of a bit that is set on a queue. *)
Definition collected (dq : dirty_queue) (r : walk * dirty_queue * nat * bool * bool) : Prop :=
  let '(wk', dq', _, ok, complete) := r in dinv (length ps) dq' /\ dq_batch dq' = dq_batch dq /\ (forall j, j ∈ queued_pages dq -> j ∈ queued_pages dq') /\
    (ok = true -> walk_ok wk' /\ (wk_walk wk' = true -> wk_spanned wk' = true)) /\
    (ok = true -> complete = true -> forall i g, ps !! i = Some g -> MEM_HAS_PTR (page_kind g) = true -> clean dq' i g) /\ (on_time late -> readable -> ok = true /\ complete = true).
Lemma listed i : (i < length ps)%nat <-> i ∈ concat lists.
Proof. destruct Hlists as (_ & H1 & H2). rewrite list_elem_of_In, in_concat. split; [intros (l & Hl & Hi)%H2; exists l; by rewrite <- !list_elem_of_In|intros (l & Hl & Hi); by apply (H1 l); rewrite list_elem_of_In]. Qed.
Lemma reset_ok : walk_ok gc_inc_dirty_reset /\ (wk_walk gc_inc_dirty_reset = true -> wk_spanned gc_inc_dirty_reset = true).
Proof. split; [|done]. split; cbn; [change GC_PAGE_SLOTS with 648; lia|by intros i ?%elem_of_nil|split; [apply Z.mod_0_l; lia|lia]]. Qed.
Lemma gc_inc_collect_dirty_spec wk dq now : walk_ok wk -> (wk_walk wk = true -> wk_spanned wk = true) -> dinv (length ps) dq -> exists r, gc_inc_collect_dirty late works os_page soft lists ps wk dq now = Some r /\ collected dq r.
Proof.
  intros Hwk Hsp Hd. unfold gc_inc_collect_dirty. set (wk0 := if negb (wk_walk wk) then Walk 0 [] 0 true false else wk).
  assert (walk_ok wk0 /\ passed dq wk0 /\ wk_walk wk0 = true) as (Hw0 & Hp0 & Hon0).
  { unfold wk0. destruct (wk_walk wk) eqn:E; cbn [negb]; [split; [done|]; split; [intros F; rewrite Hsp in F by done; done|done]|]. split; [split; cbn; [change GC_PAGE_SLOTS with 648; lia|by intros i ?%elem_of_nil|split; [apply Z.mod_0_l; lia|lia]]|]. split; [|done].
    intros _. split; [|done]. intros i g Hg _. right. unfold remaining. cbn [wk_cursor wk_pid app]. change (drop (Z.to_nat 0) lists) with lists. apply lookup_lt_Some in Hg. by apply listed. }
  apply (loop_total (walk_step late works os_page soft lists ps) (fun '(w, d, _) => walk_ok w /\ passed d w /\ dinv (length ps) d /\ dq_batch d = dq_batch dq /\ (forall j, j ∈ queued_pages dq -> j ∈ queued_pages d))
    (collected dq) (fun '(w, _, _) => Z.to_nat (walk_cost w))).
  - intros [[w d] nw] (Hw & Hp & Hdd & Hb & Hm). unfold walk_step. destruct (wk_cursor w) as [|i rest] eqn:Ec.
    + pose proof Hw as [Hpid _ (_ & _ & Hoff)]. rewrite Ec in Hoff. destruct (Z.ltb_spec (wk_pid w) GC_PAGE_SLOTS) as [Hlt|Hge].
      * left. destruct (aget_is_Some lists (wk_pid w)) as [l Hl]; [destruct Hlists as [-> _]; lia|]. rewrite Hl. cbn [mbind option_bind]. eexists. split; [done|]. rewrite aget_lookup in Hl by lia.
        assert (concat (drop (Z.to_nat (wk_pid w)) lists) = l ++ concat (drop (Z.to_nat (wk_pid w + 1)) lists)) as Econ by (rewrite (drop_S _ _ _ Hl); by replace (Z.to_nat (wk_pid w + 1)) with (S (Z.to_nat (wk_pid w))) by lia).
        split; [split; [|split; [|done]]|].
        -- split; cbn [wk_pid wk_cursor wk_offset]; [lia| |].
           ++ intros j Hj. destruct Hlists as (_ & H & _). apply (H l); [by apply list_elem_of_lookup_2 in Hl|done].
           ++ rewrite Hoff. split; [apply Z.mod_0_l; lia|]. split; [lia|]. destruct l as [|j l]; [done|]. intros h Hh. destruct (Hps j h Hh) as [part Hpp]. pose proof (ipage_range h part Hpp). nia.
        -- intros Hs. destruct (Hp Hs) as [H1 _]. unfold remaining in *. cbn [wk_cursor wk_pid wk_offset wk_spanned] in *. rewrite Ec, Econ in H1. split; [exact H1|]. destruct l; [done|]. intros h _ _ a Ha. lia.
        -- pose proof (cost_nonneg (l ++ concat (drop (Z.to_nat (wk_pid w + 1)) lists))). unfold walk_cost, remaining. cbn [wk_cursor wk_pid wk_offset]. rewrite Ec, Hoff, Z.quot_0_l by lia. cbn [app]. rewrite Econ. lia.
      * right. assert (drop (Z.to_nat (wk_pid w)) lists = []) as Ed by (apply drop_ge; destruct Hlists as [Hl _]; unfold alen in Hl; lia).
        destruct (wk_spanned w) eqn:Es.
        -- destruct (capture_pages_spec (length ps) (concat lists) d nw eq_refl Hdd) as (ok & d' & nw' & E & Hd' & Hb' & Hm' & Hr' & Hc'); [intros i; apply listed|]. unfold gc_inc_capture_all. rewrite E. cbn [mbind option_bind].
           destruct ok; eexists; (split; [done|]); (split; [done|]); (split; [congruence|]); (split; [auto|]).
           ++ split; [intros _; apply reset_ok|]. split; [|done]. intros _ _ i g Hg Hk. apply (Hc' eq_refl i g); [apply lookup_lt_Some in Hg; by apply listed|done|done].
           ++ split; [done|]. split; [done|]. intros _ Hre. by discriminate (Hr' Hre).
        -- eexists. split; [done|]. split; [done|]. split; [done|]. split; [done|]. split; [intros _; apply reset_ok|]. split; [|done]. intros _ _ i g Hg Hk. destruct (Hp Es) as [H1 _]. destruct (H1 i g Hg Hk) as [H|H]; [done|]. unfold remaining in H. rewrite Ec, Ed in H. by apply elem_of_nil in H.
    + destruct (walk_page_spec w i rest d nw Hw Hdd Hp Ec) as (ok & w' & d' & nw' & -> & Hd' & Hb' & Hm' & Hr' & Hok). cbn [mbind option_bind]. destruct ok; cbn [negb].
      * destruct (Hok eq_refl) as (Hw' & Hp' & Hwalk & Hspan & Hcost). destruct (late nw') eqn:El.
        -- right. eexists. split; [done|]. split; [done|]. split; [congruence|]. split; [auto|]. split; [intros _; split; [destruct Hw'; by split|done]|]. split; [done|]. intros Hot. by rewrite Hot in El.
        -- left. eexists. split; [done|]. split; [split; [done|]; split; [done|]; split; [done|]; split; [congruence|auto]|]. lia.
      * right. eexists. split; [done|]. split; [done|]. split; [congruence|]. split; [auto|]. split; [done|]. split; [done|]. intros _ Hre. by discriminate (Hr' Hre).
  - done.
  - unfold walk_cost, remaining. rewrite cost_app. pose proof (cost_drop (Z.to_nat (wk_pid wk0))). unfold cost in *. destruct Hw0 as [Hpid _ (_ & Hoff & _)]. pose proof (Z.quot_pos (wk_offset wk0) os_page Hoff ltac:(lia)).
    pose proof (chunks_nonneg (wk_cursor wk0)). pose proof (chunks_nonneg (concat lists)). unfold alen in *. change GC_PAGE_SLOTS with 648 in *. lia.
Qed.
End walk.
