(* ===== verification/IncrementalAlloc.v ===== *)
(** * Allocation during a cycle

    An allocation takes a block of a page, or of a new page, and marks it.  Of the blocks in use
    afterwards only that one was not in use before, so the invariant of the tracer stays when
    the words of the new object are waiting for their bits to be read. *)
From S2P Require Import Prelude PageMap Allocator AllocatorPage AllocatorAlloc AllocatorHeap AllocatorMark AllocatorProps Marking MarkingSound Incremental IncrementalPages IncrementalTrace IncrementalDrain IncrementalDirty.

(** ** The same page *)
Record same_geometry (ph ph' : gc_pheader) : Prop := SameGeometry {
  sg_base : base ph' = base ph; sg_page : page_size ph' = page_size ph; sg_block : block_size ph' = block_size ph;
  sg_max : max_blocks ph' = max_blocks ph; sg_first : first_block ph' = first_block ph; sg_sizes : sizes ph' = None <-> sizes ph = None }.
#[export] Instance same_geometry_preorder : PreOrder same_geometry.
Proof. split; [by intros ph|]. intros p q r [] []. split; [congruence..|]. by etrans. Qed.
Lemma ipage_same part g ph' l' k : ipage part g -> page_inv part ph' l' -> same_geometry (head g) ph' -> ipage part (GPage ph' k).
Proof. intros [_ Hs (Hb & He & Ha) Hf] Hi [E1 E2 E3 E4 E5 E6]. split; cbn [head]; rewrite ?E1, ?E2, ?E5; [by exists l'|done|done|]. intros Hn. apply Hf. by apply E6. Qed.
(** Rebuilding the runs of a page, of any partition. *)
Lemma flush_page junk part g : ipage part g -> exists ph, flush_if_needed junk (head g) = Some ph /\ ipage part (GPage ph (page_kind g)) /\ need_flush ph = false /\ same_geometry (head g) ph.
Proof.
  intros Hg. pose proof Hg as [(l & Hi) _ _ _]. pose proof Hi as [Hok Hb Hpos Hmax Hbits Hfirst Hsizes Hmarks]. unfold flush_if_needed. destruct (need_flush (head g)) eqn:En.
  - pose proof (pg_bmp _ _ Hok) as [_ Hbm]. destruct (bmp (head g)) as [b|] eqn:Eb; [|by destruct (Hbm En)]. clear Hbm. specialize (Hmarks eq_refl b eq_refl).
    destruct (flush_free_list_spec junk (head g) l b Hok Eb (lost_unmarked_marks _ _ _ _ Hi Hmarks)) as (ph & l' & Hf & Hok' & Ho & _ & Hn & Hba & Hbl & Hps & Hfb & Hmx & Hbmp & Hbb & Hw).
    assert (same_geometry (head g) ph) as Hsame by (split; try done; by destruct (sizes (head g)), (sizes ph)). exists ph. split; [done|]. split; [|done]. apply (ipage_same part g ph l'); [done| |done].
    split; rewrite ?Hbl, ?Hps, ?Hmx, ?Hfb, ?Hbb, ?Hn; try done.
    + destruct (part =? GC_LARGE_PART); [|done]. destruct Hb as [-> Hnone]. split; [done|]. by rewrite Ho, Hnone.
    + rewrite <- Hsizes. apply Hsame.
  - exists (head g). split; [done|]. split; [by destruct g|]. split; [done|]. reflexivity.
Qed.

(** ** The blocks in use *)
Lemma var_valid part ph l r s : page_inv part ph l -> sizes ph = Some s -> valid ph r <-> exists n, Obj r n ∈ l.
Proof.
  intros Hi Es. unfold valid. pose proof (pg_range _ _ (pi_ok _ _ _ Hi)) as [Hr _]. rewrite Es. split.
  - intros [Hrange Hs]. destruct (Hs s eq_refl) as [Hf Hn]. destruct (size_at part ph l s Hi Es r) as (n & En & Ho); [lia|]. exists n. apply Ho. congruence.
  - intros (n & Ho). destruct (obj_size part ph l s Hi Es r n Ho) as (En & Hn & Hf & He & _). destruct (covers_in _ _ _ _ (pg_covers _ _ (pi_ok _ _ _ Hi)) Ho) as (_ & _ & Hpos). cbn in Hpos. split; [lia|]. intros s' [= <-]. split; [done|congruence].
Qed.
Lemma part_block part block : aget GC_SIZES part = Some block -> block <= 8192.
Proof.
  intros Hb. pose proof (aget_Some_range _ _ _ Hb) as Hr. change (alen GC_SIZES) with 9 in Hr.
  assert (part = 0 \/ part = 1 \/ part = 2 \/ part = 3 \/ part = 4 \/ part = 5 \/ part = 6 \/ part = 7 \/ part = 8) as E by lia. destruct_or! E; subst part; vm_compute in Hb; injection Hb as <-; done.
Qed.
Lemma fixed_used part ph l r : GC_PAGE_SIZE <= page_size ph -> page_inv part ph l -> sizes ph = None -> part <> GC_LARGE_PART -> first_block ph <= r < max_blocks ph -> is_free ph r = false <-> exists n, Obj r n ∈ l.
Proof.
  intros Hbig Hi Es Hlarge Hr. pose proof (pg_covers _ _ (pi_ok _ _ _ Hi)) as Hc. destruct (pg_sizes _ _ (pi_ok _ _ _ Hi)) as [Hsz _]. destruct (pg_fl _ _ (pi_ok _ _ _ Hi)) as [_ Hruns]. pose proof (pi_block _ _ _ Hi) as Hb. rewrite (proj2 (Z.eqb_neq _ _) Hlarge) in Hb.
  assert (block_size ph <> page_size ph) as Hne.
  { apply part_block in Hb. change GC_PAGE_SIZE with 65536 in Hbig. lia. }
  unfold is_free. rewrite Es, (proj2 (Z.eqb_neq _ _) Hne), Hruns. cbn [negb andb]. rewrite <- not_true_iff_false. split.
  - intros Hnot. destruct (covers_at _ _ _ r Hc Hr) as (i & Hin & Hir). rewrite Forall_forall in Hsz. pose proof (Hsz i Hin) as Hi'. rewrite Es in Hi'. destruct i as [p n|p n|p]; cbn in Hi', Hir; [|exfalso; apply Hnot|done].
    + subst n. assert (p = r) as -> by lia. by exists 1.
    + apply existsb_exists. exists (p, n). rewrite <- list_elem_of_In. split; [by apply runs_in|]. cbn. apply andb_true_iff. rewrite Z.leb_le, Z.ltb_lt. lia.
  - intros (n & Ho) Hex. apply existsb_exists in Hex as ([p m] & Hin & Hb'). rewrite <- list_elem_of_In in Hin. apply runs_in in Hin. cbn in Hb'. apply andb_true_iff in Hb' as [H1%Z.leb_le H2%Z.ltb_lt].
    destruct (covers_in _ _ _ _ Hc Ho) as (_ & _ & Hpos). cbn in Hpos. by pose proof (covers_unique _ _ _ _ _ r Hc Ho Hin ltac:(cbn; lia) ltac:(cbn; lia)).
Qed.

(** ** Taking a block *)
Record taken (ph ph' : gc_pheader) (bid : Z) : Prop := Taken {
  tk_geometry : same_geometry ph ph';
  tk_valid : forall r, valid ph r -> valid ph' r /\ block_bytes ph' r = block_bytes ph r;
  tk_new : valid ph' bid;
  tk_used : forall r, valid ph' r -> r = bid \/ valid ph r /\ (is_free ph' r = false -> is_free ph r = false);
  tk_bmp : match bmp ph with None => bmp ph' = None | Some b => exists b', bmp ph' = Some b' /\ (b' = b \/ bmp_set b bid = Some b') end }.
Lemma fixed_taken part ph l ph' l' p : GC_PAGE_SIZE <= page_size ph -> part <> GC_LARGE_PART -> page_inv part ph l -> page_inv part ph' l' -> sizes ph = None -> first_block ph = 0 -> same_geometry ph ph' -> bmp ph' = bmp ph ->
  objs l' ≡ₚ (p, 1) :: objs l -> taken ph ph' p.
Proof.
  intros Hbig Hlarge Hi Hi' Es Hf Hsame Hb Ho. pose proof Hsame as [E1 E2 E3 E4 E5 E6]. assert (sizes ph' = None) as Es' by by apply E6.
  assert (forall r n, Obj r n ∈ l' -> r = p \/ Obj r n ∈ l) as Hback.
  { intros r n Hin. apply objs_in in Hin. rewrite Ho in Hin. apply elem_of_cons in Hin as [[= -> ->]|Hin]; [by left|right; by apply objs_in]. }
  assert (Obj p 1 ∈ l') as Hp by (apply objs_in; rewrite Ho; by left).
  split; [done| | | |].
  - intros r [Hr _]. unfold valid, block_bytes. rewrite Es, Es', E3, E4. done.
  - unfold valid. rewrite Es'. destruct (covers_in _ _ _ _ (pg_covers _ _ (pi_ok _ _ _ Hi')) Hp) as (H1 & H2 & _). cbn in H1, H2. rewrite E5, Hf in H1. split; [lia|done].
  - intros r [Hr Hs]. destruct (decide (r = p)) as [|Hne]; [by left|]. right. unfold valid. rewrite Es. rewrite E4 in Hr. split; [done|]. intros Hfree. apply (fixed_used part ph' l' r) in Hfree as (n & Hin); [|lia|done..|lia].
    apply (fixed_used part ph l r Hbig Hi Es Hlarge); [lia|]. destruct (Hback r n Hin); [done|by exists n].
  - rewrite Hb. destruct (bmp ph) as [b|]; [|done]. exists b. auto.
Qed.
Lemma var_taken part ph l ph' l' s s' p n : page_inv part ph l -> page_inv part ph' l' -> sizes ph = Some s -> sizes ph' = Some s' -> same_geometry ph ph' -> objs l' ≡ₚ (p, n) :: objs l ->
  match bmp ph with None => bmp ph' = None | Some b => exists b', bmp ph' = Some b' /\ (b' = b \/ bmp_set b p = Some b') end -> taken ph ph' p /\ block_bytes ph' p = n * block_size ph.
Proof.
  intros Hi Hi' Es Es' Hsame Ho Hb. pose proof Hsame as [E1 E2 E3 E4 E5 E6]. assert (Obj p n ∈ l') as Hp by (apply objs_in; rewrite Ho; by left).
  destruct (obj_size part ph' l' s' Hi' Es' p n Hp) as (En & _). split.
  - split; [done| | | |done].
    + intros r (m & Hin)%(var_valid part ph l r s Hi Es). assert (Obj r m ∈ l') as Hin' by (apply objs_in; rewrite Ho; right; by apply objs_in). split; [apply (var_valid part ph' l' r s' Hi' Es'); by exists m|].
      destruct (obj_size part ph l s Hi Es r m Hin) as (H1 & _). destruct (obj_size part ph' l' s' Hi' Es' r m Hin') as (H2 & _). unfold block_bytes. by rewrite Es, Es', H1, H2, E3.
    + apply (var_valid part ph' l' p s' Hi' Es'). by exists n.
    + intros r (m & Hin)%(var_valid part ph' l' r s' Hi' Es'). apply objs_in in Hin. rewrite Ho in Hin. apply elem_of_cons in Hin as [[= -> ->]|Hin]; [by left|right]. split; [apply (var_valid part ph l r s Hi Es); exists m; by apply objs_in|]. unfold is_free. by rewrite Es.
  - unfold block_bytes. rewrite Es', En, E3. change (default 0 (Some n)) with n. lia.
Qed.
(** [finish_var] sets the mark bit of the block, when there is a bitmap. *)
Lemma finish_var_marks ph bid n ph' : finish_var ph bid n = Some ph' -> match bmp ph with None => bmp ph' = None | Some b => exists b', bmp ph' = Some b' /\ (b' = b \/ bmp_set b bid = Some b') end.
Proof.
  unfold finish_var. destruct (bmp ph) as [b|].
  - destruct (bmp_set b bid) as [b'|]; [|done]. cbn [mbind option_bind]. destruct (sizes ph) as [s|]; [|done]. cbn [mbind option_bind]. destruct (if n >? 1 then _ else _) as [s'|]; [|done]. cbn [mbind option_bind]. destruct (aset s' bid (u8 n)); [|done]. intros [= <-]. exists b'. auto.
  - cbn [mbind option_bind]. destruct (sizes ph) as [s|]; [|done]. cbn [mbind option_bind]. destruct (if n >? 1 then _ else _) as [s'|]; [|done]. cbn [mbind option_bind]. destruct (aset s' bid (u8 n)); [|done]. by intros [= <-].
Qed.
(** Taking [n] blocks of a page with a size table from its run [k]. *)
Lemma var_take part ph l1 p m l2 n : var_part part = true -> page_inv part ph (l1 ++ Run p m :: l2) -> need_flush ph = false -> 0 < n <= m -> n <= 255 ->
  exists fl ph' l', aget (data (free ph)) (current (free ph) + alen (runs l1)) = Some (p, m) /\ take_from (free ph) (current (free ph) + alen (runs l1)) n = Some fl /\ finish_var (set_free ph fl) p n = Some ph' /\
    page_inv part ph' l' /\ need_flush ph' = false /\ taken ph ph' p /\ block_bytes ph' p = n * block_size ph.
Proof.
  intros Hv Hi Hn Hnm Hn255. assert (sizes ph <> None) as Hsz by (intros E; apply (pi_sizes _ _ _ Hi) in E; congruence).
  destruct (var_page_spec ph l1 p m l2 n (pi_ok _ _ _ Hi) Hsz Hnm Hn255 Hn) as (fl & ph2 & l' & Htake & Hget & Hfin & Hok & Ho & Hn2 & Hba & Hbl & Hpsz & Hf & Hmx & Hbb & Hw).
  destruct (var_put part ph _ ph2 l' p n Hv Hi Hn Hok Ho Hn2 Hba Hbl Hpsz Hf Hmx Hbb Hw) as (Hi2 & _ & _). exists fl, ph2, l'. split; [done|]. split; [done|]. split; [done|]. split; [done|]. split; [done|].
  destruct (sizes ph) as [s|] eqn:Es; [|done]. destruct (sizes ph2) as [s2|] eqn:Es2; [|done]. apply (var_taken part ph _ ph2 l' s s2 p n Hi Hi2 Es Es2); [by split; rewrite ?Es, ?Es2|done|]. exact (finish_var_marks _ _ _ _ Hfin).
Qed.
Lemma take_in_spec junk part g r : ipage part g -> request_valid r -> request_part r = part ->
  exists res, take_in junk (head g) r = Some res /\ match res with None => True | Some (ph, bid) =>
    exists ph1, flush_if_needed junk (head g) = Some ph1 /\ taken ph1 ph bid /\ ipage part (GPage ph (page_kind g)) /\ need_flush ph = false /\ request_bytes r = Some (block_bytes ph bid) end.
Proof.
  intros Hg Hr Hpart. destruct (flush_page junk part g Hg) as (ph1 & Hflush & Hg1 & Hn1 & Hsame). pose proof Hg1 as [(l1 & Hi1) Hs1 Hb1 Hf1]. cbn [head] in *. destruct r as [p|p n|size]; cbn [take_in request_part request_bytes] in *; [| |by exists None].
  - subst p. cbn [request_valid] in Hr. destruct (fixed_part_not_large part Hr) as [Hlarge Hv]. assert (sizes ph1 = None) as Es by by apply (pi_sizes _ _ _ Hi1). cbn [scan_fixed]. rewrite Hflush. cbn [mbind option_bind].
    destruct (Z.ltb_spec (current (free ph1)) (count (free ph1))) as [Hc|Hc]; [|cbn; by exists None].
    destruct (fixed_page_spec ph1 l1 1 (pi_ok _ _ _ Hi1) Es Hc) as (q & m & fl & l' & Hget & Hm & Htake & Hok & Ho); [lia|]. rewrite Hget. cbn [mbind option_bind fst snd]. replace (if m <? 1 then m else 1) with (Z.min m 1) by (destruct (Z.ltb_spec m 1); lia). rewrite Htake. cbn [mbind option_bind option_map].
    eexists. split; [done|]. exists ph1. split; [done|]. rewrite Z.min_r in Ho by lia. change (singles q 1) with [(q, 1)] in Ho. cbn [app] in Ho.
    assert (page_inv part (set_free ph1 fl) l') as Hi'.
    { destruct Hi1 as [Hok1 Hbk Hpos Hmax Hbits Hfirst Hsizes Hmarks]. split; try done; [by unfold set_free; rewrite Hn1|]. by rewrite (proj2 (Z.eqb_neq _ _) Hlarge) in *. }
    assert (same_geometry ph1 (set_free ph1 fl)) as Hgeo by done. split; [|split; [by apply (ipage_same part (GPage ph1 (page_kind g)) _ l')|split; [done|]]].
    + apply (fixed_taken part ph1 l1 _ l' q); try done; [apply Hb1|by apply Hf1].
    + pose proof (pi_block _ _ _ Hi1) as Hbk. rewrite (proj2 (Z.eqb_neq _ _) Hlarge) in Hbk. rewrite Hbk. unfold block_bytes, set_free. cbn [sizes block_size]. by rewrite Es.
  - destruct Hr as [Hrange Hn]. subst p. assert (var_part part = true) as Hv by (unfold var_part; apply andb_true_iff; rewrite Z.leb_le, Z.ltb_lt; lia). assert (part <> GC_LARGE_PART) as Hlarge by lia. cbn [scan_var]. rewrite Hflush. cbn [mbind option_bind].
    destruct (find_run_spec ph1 l1 n (pi_ok _ _ _ Hi1)) as (k & -> & Hk). cbn [mbind option_bind]. destruct k as [k|]; [|cbn; by exists None]. destruct Hk as (a & q & m & c & -> & -> & Hm).
    destruct (var_take part ph1 a q m c n Hv Hi1 Hn1 ltac:(lia) ltac:(lia)) as (fl & ph2 & l2 & -> & -> & Hfin & Hi2 & Hn2 & Htk & Hbytes). cbn [mbind option_bind fst]. rewrite Hfin. cbn [mbind option_bind option_map].
    eexists. split; [done|]. exists ph1. split; [done|]. split; [done|]. split; [by apply (ipage_same part (GPage ph1 (page_kind g)) _ l2); [..|apply Htk]|]. split; [done|].
    pose proof (pi_block _ _ _ Hi1) as Hbk. rewrite (proj2 (Z.eqb_neq _ _) Hlarge) in Hbk. rewrite Hbk. cbn [mbind option_bind]. by rewrite Hbytes.
Qed.

(** ** New pages *)
Lemma new_page_bmp junk num nb block size v ph : gc_allocator_new_page junk num nb true block size v = Done ph -> bmp ph = Some (replicate (Z.to_nat (bmp_bytes ph * 2)) 0).
Proof.
  unfold gc_allocator_new_page. intros (sz & _ & H)%outcome_bind_Done. destruct (Z.quot sz block >? GC_PAGE_SIZE); [done|]. apply outcome_bind_Done in H as (bits & _ & H). apply outcome_bind_Done in H as (fb & _ & H).
  apply outcome_bind_Done in H as (fl & _ & H). by injection H as <-.
Qed.
Lemma is_marked_replicate n j : is_marked (replicate n 0) j = false.
Proof.
  unfold is_marked, bmp_test. destruct (aget (replicate n 0) (Z.shiftr j 3)) as [x|] eqn:E; cbn [mbind option_bind]; [|done]. unfold aget in E. destruct (decide (0 <= Z.shiftr j 3)); [|done]. apply lookup_replicate in E as [-> _]. by rewrite Z.land_0_l.
Qed.
(** The clear bitmap of a cycle. *)
Lemma clear_bitmap ph : 0 <= max_blocks ph -> let b := replicate (Z.to_nat (bmp_bytes ph * 2)) 0 in alen b = 2 * bmp_bytes ph /\ Forall (fun x => 0 <= x < 256) b /\ forall j, is_marked b j = false.
Proof. intros Hm. cbv zeta. pose proof (bmp_bytes_spec ph Hm). rewrite alen_replicate. split; [lia|]. split; [by apply Forall_replicate|]. intros j. apply is_marked_replicate. Qed.
(** A page with one block taken: its bitmap is clear, up to the mark of that block. *)
Record new_taken (nb : Z -> Z) (part : Z) (ph : gc_pheader) (bid : Z) : Prop := NewTaken {
  nt_page : forall k, ipage part (GPage ph k);
  nt_flush : need_flush ph = false;
  nt_valid : valid ph bid;
  nt_used : forall r, valid ph r -> is_free ph r = false -> r = bid;
  nt_bmp : exists b, bmp ph = Some b /\ alen b = 2 * bmp_bytes ph /\ Forall (fun x => 0 <= x < 256) b /\ forall j, 0 <= j -> is_marked b j = true -> j = bid;
  nt_base : base ph = nb (page_size ph) /\ 0 < page_size ph <= INT_MAX }.
Lemma new_taken_from nb part ph0 ph bid : (forall k, ipage part (GPage ph k)) -> need_flush ph = false -> taken ph0 ph bid ->
  bmp ph0 = Some (replicate (Z.to_nat (bmp_bytes ph0 * 2)) 0) -> 0 <= max_blocks ph0 -> 0 <= bid -> base ph = nb (page_size ph) -> 0 < page_size ph <= INT_MAX -> (forall r, valid ph0 r -> is_free ph0 r = true) -> new_taken nb part ph bid.
Proof.
  intros Hp Hn Htk Eb Hmax Hbid Hbase Hsize Hfree. destruct (clear_bitmap ph0 Hmax) as (Hl & Hbytes & Hclear). destruct Htk as [Hgeo Hval Hnew Hused Hbmp]. split; try done.
  - intros r Hv Hu. destruct (Hused r Hv) as [|[Hv0 Hu0]]; [done|]. rewrite Hfree in Hu0 by done. by discriminate (Hu0 Hu).
  - assert (bmp_bytes ph = bmp_bytes ph0) as Ebytes by (unfold bmp_bytes; by rewrite (sg_max _ _ Hgeo)). rewrite Eb in Hbmp. destruct Hbmp as (b & Hb & [->|Hset]).
    + eexists. split; [exact Hb|]. split; [lia|]. split; [done|]. intros j _ Hj. by rewrite Hclear in Hj.
    + exists b. destruct Hnew as [Hr _]. rewrite (sg_max _ _ Hgeo) in Hr. destruct (bmp_bytes_spec ph0 Hmax). destruct (bmp_set_bits _ bid ltac:(rewrite Hl; lia) Hbytes) as (b' & E & Hl' & Hbytes' & Hbits). rewrite Hset in E. injection E as <-.
      split; [done|]. split; [lia|]. split; [done|]. intros j Hj Hm. rewrite Hbits, Hclear in Hm by done. by apply Z.eqb_eq.
Qed.
Section take_new.
Context (junk : gc_fl) (num : Z) (nb : Z -> Z) (ps : list gpage).
Hypothesis Hnum : 0 <= num.
Hypothesis Hmem : fresh_memory ps nb.
Lemma fresh_ipage part ph l k : page_inv part ph l -> base ph = nb (page_size ph) -> GC_PAGE_SIZE <= page_size ph <= INT_MAX -> (sizes ph = None -> first_block ph = 0) -> ipage part (GPage ph k).
Proof. intros Hi Hb Hs Hf. destruct (Hmem (page_size ph)) as (H1 & H2 & H3 & _); [change GC_PAGE_SIZE with 65536 in *; lia|]. split; cbn [head]; [by exists l|lia|rewrite Hb; split; [done|]; split; [done|]; split; [done|lia]|done]. Qed.
Lemma page_size_bound block size pg max : 0 < block <= size -> size <= INT_MAX -> size <= pg -> (256 <= block -> pg = size) -> max = Z.quot pg block -> max <= GC_PAGE_SIZE -> pg <= INT_MAX.
Proof.
  intros Hb Hs Hle Hbig -> Hmax. destruct (Z.le_gt_cases 256 block) as [H|H]; [by rewrite Hbig|]. change GC_PAGE_SIZE with 65536 in Hmax. rewrite Z.quot_div_nonneg in Hmax by lia. pose proof (Z.mul_succ_div_gt pg block ltac:(lia)). unfold INT_MAX. nia.
Qed.
Lemma new_fixed part : 0 <= part < GC_FIXED_PARTS -> exists ph bid, take_new junk num nb (RFixed part) = Done (ph, bid) /\ new_taken nb part ph bid /\ request_bytes (RFixed part) = Some (block_bytes ph bid).
Proof using Hnum Hmem.
  intros Hpart. destruct (fixed_part_not_large part Hpart) as [Hlarge Hv]. destruct (fixed_block part Hpart) as (block & Hb & Hblock). unfold take_new. rewrite Hb. cbn [ub mbind outcome_bind]. rewrite <- Hv.
  destruct (new_page_inv junk part num nb true block GC_PAGE_SIZE) as (ph & Enew & Hi & Hn & Hba & Hbl & Hps & Hmax & Hfirst & Hbig & Hcur & Hget).
  { change GC_LARGE_PART with 8. change GC_FIXED_PARTS with 5 in Hpart. lia. } { done. } { change GC_PAGE_SIZE with 65536. lia. } { unfold INT_MAX. change GC_PAGE_SIZE with 65536. lia. }
  { change GC_PAGE_SIZE with 65536. rewrite Z.quot_div_nonneg by lia. apply Z.div_le_upper_bound; lia. } { by rewrite (proj2 (Z.eqb_neq _ _) Hlarge). }
  rewrite Enew. pose proof (new_page_bmp _ _ _ _ _ _ _ Enew) as Ebmp. cbn [ub mbind outcome_bind]. rewrite Hget. cbn [ub mbind outcome_bind fst]. pose proof (pg_range _ _ (pi_ok _ _ _ Hi)) as [Hr1 Hr2].
  assert (page_size ph <= INT_MAX) as Hint by (apply (page_size_bound block GC_PAGE_SIZE (page_size ph) (max_blocks ph)); first [done|change GC_PAGE_SIZE with 65536 in *; unfold INT_MAX; lia]). change GC_PAGE_SIZE with 65536 in *.
  assert (first_block ph = 0) as Hf0. { rewrite Hfirst, Hv. destruct (start_block_spec false (max_blocks ph) block) as (_ & _ & _ & Hz & _); [change GC_PAGE_SIZE with 65536; lia|lia|done|by apply Hz]. }
  assert (1000 <= max_blocks ph) as Hmany by (rewrite Hmax; apply quot_lower; lia). assert (sizes ph = None) as Es by by apply (pi_sizes _ _ _ Hi).
  destruct (pg_fl _ _ (pi_ok _ _ _ Hi)) as [Hwf Hruns]. destruct (fl_runs_head _ _ _ Hwf Hruns) as [Hcc Hgc].
  destruct (fixed_page_spec ph _ 1 (pi_ok _ _ _ Hi) Es Hcc) as (q & m & fl & l' & Hget' & Hm & Htake & Hok & Ho); [lia|]. rewrite Hgc in Hget'. injection Hget' as <- <-. rewrite Z.min_r in Htake, Ho by lia.
  rewrite (take_first_from (free ph) (first_block ph) (max_blocks ph - first_block ph)) by (first [done|change (2 ^ 32) with 4294967296; lia]). rewrite Htake. cbn [ub mbind outcome_bind].
  change (singles (first_block ph) 1) with [(first_block ph, 1)] in Ho. cbn [app] in Ho. eexists _, _. split; [done|].
  assert (page_inv part (set_free ph fl) l') as Hi'.
  { destruct Hi as [Hok1 Hbk Hpos Hmax1 Hbits Hfirst1 Hsizes Hmarks]. split; try done; [by unfold set_free; rewrite Hn|]. by rewrite (proj2 (Z.eqb_neq _ _) Hlarge) in *. }
  assert (taken ph (set_free ph fl) (first_block ph)) as Htk by (apply (fixed_taken part ph [Run (first_block ph) (max_blocks ph - first_block ph)] _ l'); try done; change GC_PAGE_SIZE with 65536; lia). split.
  - apply (new_taken_from nb part ph); try done; [|lia|lia|change (page_size (set_free ph fl)) with (page_size ph); lia|].
    + intros k. apply (fresh_ipage part _ l'); [done|done|cbn [set_free page_size]; change GC_PAGE_SIZE with 65536; lia|done].
    + intros r [Hr _]. apply not_false_iff_true. intros Hu. apply (fixed_used part ph [Run (first_block ph) (max_blocks ph - first_block ph)] r) in Hu as (n & Hin); [by apply list_elem_of_singleton in Hin|change GC_PAGE_SIZE with 65536; lia|done..|lia].
  - cbn [request_bytes]. rewrite Hb. unfold block_bytes, set_free. cbn [sizes block_size]. by rewrite Es, Hbl.
Qed.
Lemma new_var part n : GC_FIXED_PARTS <= part < GC_LARGE_PART -> 1 <= n <= 254 -> exists ph bid, take_new junk num nb (RVar part n) = Done (ph, bid) /\ new_taken nb part ph bid /\ request_bytes (RVar part n) = Some (block_bytes ph bid).
Proof using Hnum Hmem.
  intros Hrange Hn. assert (var_part part = true) as Hv by (unfold var_part; apply andb_true_iff; rewrite Z.leb_le, Z.ltb_lt; lia). assert (part <> GC_LARGE_PART) as Hlarge by lia. change GC_FIXED_PARTS with 5 in Hrange. change GC_LARGE_PART with 8 in Hrange.
  destruct (var_geometry part Hv) as (block & j & Hb & Hj & Hpow & Hj13 & Hcases). cbn [take_new]. rewrite Hb. cbn [ub mbind outcome_bind].
  destruct (page_size_for_spec (n * block)) as (k & -> & Hk & Hneed & Hk0); [destruct Hcases as [->|[->| ->]]; lia|]. cbn [ub mbind outcome_bind].
  assert (65536 * 2 ^ k <= 2097152) as Hps2 by (pose proof (Z.pow_le_mono_r 2 k 5 ltac:(lia) ltac:(lia)) as H5; change (2 ^ 5) with 32 in H5; lia). pose proof (Z.pow_le_mono_r 2 0 k ltac:(lia) ltac:(lia)) as Hk1. change (2 ^ 0) with 1 in Hk1.
  pose proof (new_page_inv junk part num nb true block (65536 * 2 ^ k)) as Hnew. rewrite Hv in Hnew.
  destruct Hnew as (ph & Enew & Hi & Hn' & Hba & Hbl & Hps & Hmax & Hfirst & Hsame' & Hcur & Hget).
  { change GC_LARGE_PART with 8. lia. } { done. } { destruct Hcases as [->|[->| ->]]; lia. } { unfold INT_MAX. lia. }
  { change GC_PAGE_SIZE with 65536. assert (block = 8 -> k = 0) by (intros ->; apply Hk0; lia). assert (block = 64 -> k = 0) by (intros ->; apply Hk0; lia).
    rewrite Z.quot_div_nonneg by lia. destruct Hcases as [E|[E|E]]; [rewrite (H E), E|rewrite (H0 E), E|rewrite E; apply Z.div_le_upper_bound; lia]; by vm_compute. }
  { by rewrite (proj2 (Z.eqb_neq _ _) Hlarge). }
  rewrite Enew. pose proof (new_page_bmp _ _ _ _ _ _ _ Enew) as Ebmp. cbn [ub mbind outcome_bind]. pose proof (pg_range _ _ (pi_ok _ _ _ Hi)) as [Hr1 Hr2].
  assert (page_size ph <= INT_MAX) as Hint by (apply (page_size_bound block (65536 * 2 ^ k) (page_size ph) (max_blocks ph)); first [done|change GC_PAGE_SIZE with 65536 in *; unfold INT_MAX; destruct Hcases as [->|[->| ->]]; lia]).
  pose proof (new_page_room part block k n _ (page_size ph) (first_block ph) (max_blocks ph) Hv Hb Hn eq_refl Hk Hneed Hk0 Hps Hsame' Hmax Hr2 Hfirst) as Hroom.
  destruct (pg_fl _ _ (pi_ok _ _ _ Hi)) as [Hwf Hruns]. destruct (sizes ph) as [s|] eqn:Es; [|apply (pi_sizes _ _ _ Hi) in Es; congruence].
  destruct (pg_sizes _ _ (pi_ok _ _ _ Hi)) as [Hsz Hsl]. rewrite Es in Hsz.
  destruct (take_first_spec (free ph) (first_block ph) (max_blocks ph - first_block ph) n s (max_blocks ph) Hwf Hcur Hruns ltac:(lia) ltac:(lia) Hr2 ltac:(lia) Hsz) as (fl & -> & Hwf' & Hruns' & Hc' & Hsz'). cbn [ub mbind outcome_bind].
  destruct (finish_var_spec ph [] (first_block ph) (max_blocks ph - first_block ph) [] n fl [] [Run (first_block ph + n) (max_blocks ph - first_block ph - n)] (pi_ok _ _ _ Hi)) as (ph2 & l2 & Hfin & Hok & Ho & Hn2 & Hba2 & Hbl2 & Hps2' & Hf & Hmx & Hbb & Hw);
    [congruence|lia|done|done|done|done|done|done|done|constructor|by rewrite Es|].
  rewrite Hfin. cbn [ub mbind outcome_bind]. destruct (var_put part ph _ ph2 l2 _ n Hv Hi Hn' Hok Ho Hn2 Hba2 Hbl2 Hps2' Hf Hmx Hbb Hw) as (Hi2 & _ & _).
  rewrite Es in Hw. destruct (sizes ph2) as [s2|] eqn:Es2; [|done].
  destruct (var_taken part ph _ ph2 l2 s s2 (first_block ph) n Hi Hi2 Es Es2) as [Htk Hbytes]; [by split; rewrite ?Es, ?Es2|done|exact (finish_var_marks _ _ _ _ Hfin)|].
  eexists _, _. split; [done|]. split.
  - apply (new_taken_from nb part ph); try done; [|lia|lia|by rewrite Hba2, Hps2'|rewrite Hps2'; lia|].
    + intros kk. apply (fresh_ipage part _ l2); [done|by rewrite Hba2, Hps2'|rewrite Hps2'; change GC_PAGE_SIZE with 65536; lia|by rewrite Es2].
    + intros r (m & Hin)%(var_valid part ph _ r s Hi Es). by apply list_elem_of_singleton in Hin.
  - cbn [request_bytes]. rewrite Hb. cbn [mbind option_bind]. by rewrite Hbytes, Hbl.
Qed.
Lemma new_large size : GC_LARGE_BLOCK <= size <= INT_MAX -> exists ph bid, take_new junk num nb (RLarge size) = Done (ph, bid) /\ new_taken nb GC_LARGE_PART ph bid /\ request_bytes (RLarge size) = Some (block_bytes ph bid).
Proof using Hnum Hmem.
  change GC_LARGE_BLOCK with 1048576. intros Hsize. cbn [take_new]. change false with (var_part GC_LARGE_PART).
  destruct (new_page_inv junk GC_LARGE_PART num nb true size size) as (ph & Enew & Hi & Hn & Hba & Hbl & Hps & Hmax & Hfirst & Hbig & _).
  { change GC_LARGE_PART with 8. lia. } { done. } { lia. } { lia. } { change GC_PAGE_SIZE with 65536. rewrite Z.quot_same by lia. lia. } { change (GC_LARGE_PART =? GC_LARGE_PART) with true. cbn iota. lia. }
  rewrite Enew. pose proof (new_page_bmp _ _ _ _ _ _ _ Enew) as Ebmp. cbn [ub mbind outcome_bind]. eexists _, _. split; [done|]. rewrite (Hbig ltac:(lia)), Z.quot_same in Hmax by lia. pose proof (pg_range _ _ (pi_ok _ _ _ Hi)) as [Hr _].
  assert (sizes ph = None) as Es by by apply (pi_sizes _ _ _ Hi). destruct (clear_bitmap ph ltac:(lia)) as (Hl & Hbytes & Hclear). split.
  - split; try done.
    + intros k. apply (fresh_ipage _ _ _ k Hi Hba); [change GC_PAGE_SIZE with 65536; lia|lia].
    + unfold valid. rewrite Es. split; [lia|done].
    + intros r [Hr' _] _. lia.
    + eexists. split; [exact Ebmp|]. split; [done|]. split; [done|]. intros j _ Hj. by rewrite Hclear in Hj.
    + split; [done|lia].
  - cbn [request_bytes]. unfold block_bytes. by rewrite Es, Hbl.
Qed.
Lemma take_new_spec r : request_valid r -> exists ph bid, take_new junk num nb r = Done (ph, bid) /\ new_taken nb (request_part r) ph bid /\ request_bytes r = Some (block_bytes ph bid).
Proof using Hnum Hmem. destruct r as [part|part n|size]; cbn [request_valid request_part]; [apply new_fixed|intros [H1 H2]; by apply new_var|intros [H _]; by apply new_large]. Qed.
End take_new.

(** ** Preparing a page, marking a new object *)
Lemma ipage_set_bmp part g b : ipage part g -> Z.shiftr (max_blocks (head g) + 7) 3 <= alen b -> Forall (fun x => 0 <= x < 256) b -> need_flush (head g) = false -> ipage part (set_bmp g b).
Proof.
  intros [(l & Hi) Hs Hb Hf] Hl Hbytes Hn. split; try done. exists l. destruct Hi as [[Hr Hc Hfl Hsz [Hbmp Hnf]] Hbl Hpos Hmax Hbits Hfirst Hsizes Hmarks].
  split; cbn [set_bmp head block_size page_size max_blocks first_block block_bits sizes need_flush bmp]; try done; [|by rewrite Hn].
  split; cbn [first_block max_blocks free sizes bmp need_flush]; try done. split; [by intros b2 [= <-]|by rewrite Hn].
Qed.
Lemma set_bmp_same g b : same_geometry (head g) (head (set_bmp g b)).
Proof. done. Qed.
(** A page with a clear bitmap. *)
Definition blank (g : gpage) : Prop := tpage g /\ forall k, gbit g k = false.
Lemma blank_page part g : ipage part g -> need_flush (head g) = false -> blank (set_bmp g (replicate (Z.to_nat (bmp_bytes (head g) * 2)) 0)).
Proof.
  intros Hg Hn. pose proof (ipage_range g part Hg) as (Hr & _). destruct (clear_bitmap (head g) ltac:(lia)) as (Hl & Hbytes & Hclear). destruct (bmp_bytes_spec (head g) ltac:(lia)) as [H1 H2]. split.
  - split; [exists part; apply ipage_set_bmp; try done; fold (bmp_bytes (head g)); lia|]. split; [done|]. eexists. split; [done|]. split; [done|]. split; [done|]. unfold marks_ok. destruct (sizes _); [|done]. intros q _ Hq. by rewrite Hclear in Hq.
  - intros k. unfold gbit. cbn [set_bmp head bmp]. apply Hclear.
Qed.
Lemma gc_inc_prepare_page_spec junk epoch p i g e part : pp_pages p !! i = Some g -> pp_epochs p !! i = Some e -> ipage part g ->
  exists g' own, gc_inc_prepare_page junk epoch p i = Some (Prep (<[i := g']> (pp_pages p)) (<[i := epoch]> (pp_epochs p)) own) /\ length own = length (pp_own p) /\
    if decide (e = epoch) then g' = g else ipage part g' /\ blank g' /\ same_geometry (head g) (head g') /\ page_kind g' = page_kind g /\ (need_flush (head g) = false -> exists b, g' = set_bmp g b).
Proof.
  intros Hg He Hp. unfold gc_inc_prepare_page. rewrite Hg. cbn [mbind option_bind]. rewrite He. cbn [mbind option_bind]. destruct (Z.eqb_spec e epoch) as [->|Hne].
  - exists g, (pp_own p). destruct (decide (epoch = epoch)); [|done]. split; [|done]. rewrite !list_insert_id by done. by destruct p.
  - destruct (flush_page junk part g Hp) as (ph & Hf & Hph & Hn & Hgeo). rewrite Hf. cbn [mbind option_bind]. cbv zeta. destruct (decide (e = epoch)); [done|]. eexists _, _. split; [done|]. split; [apply length_insert|].
    change (GPage (with_bmp ph (Some (replicate (Z.to_nat (bmp_bytes ph * 2)) 0)) (need_flush ph)) (page_kind g)) with (set_bmp (GPage ph (page_kind g)) (replicate (Z.to_nat (bmp_bytes ph * 2)) 0)).
    pose proof (blank_page part (GPage ph (page_kind g)) Hph Hn) as Hb. split; [|split; [exact Hb|split; [destruct Hgeo; by split|split; [done|]]]].
    + pose proof (ipage_range _ part Hph) as (Hr & _). cbn [head] in Hr. destruct (clear_bitmap ph ltac:(lia)) as (Hl & Hbytes & _). destruct (bmp_bytes_spec ph ltac:(lia)). apply ipage_set_bmp; try done. cbn [head]. fold (bmp_bytes ph). lia.
    + intros Hn0. unfold flush_if_needed in Hf. rewrite Hn0 in Hf. injection Hf as <-. destruct g. by eexists.
Qed.
(** The result of marking a new block. *)
Definition marked_new (g g' : gpage) (bid : Z) (bits : Z -> bool) : Prop := (exists b, g' = set_bmp g b) /\ tpage g' /\ gbit g' bid = true /\ forall k, 0 <= k -> k <> bid -> gbit g' k = bits k.
Lemma gc_incremental_allocated_spec junk epoch p i g e part bid : apart_pages (pp_pages p) -> pp_pages p !! i = Some g -> pp_epochs p !! i = Some e -> ipage part g -> valid (head g) bid -> need_flush (head g) = false -> (e = epoch -> tpage g) ->
  exists g' own, gc_incremental_allocated junk epoch p (gaddr g bid) = Done (Prep (<[i := g']> (pp_pages p)) (<[i := epoch]> (pp_epochs p)) own) /\ length own = length (pp_own p) /\ marked_new g g' bid (fun k => if decide (e = epoch) then gbit g k else false).
Proof.
  intros Ha Hg He Hp Hv Hn Ht. destruct (gaddr_in g part Hp bid Hv) as (Hin & Hid & _). unfold gc_incremental_allocated. rewrite (get_page_apart _ i g _ Ha Hg Hin). cbn [ub mbind outcome_bind].
  destruct (gc_inc_prepare_page_spec junk epoch p i g e part Hg He Hp) as (g1 & own & -> & Hown & Hcase). cbn [ub mbind outcome_bind pp_pages pp_epochs pp_own]. pose proof (lookup_lt_Some _ _ _ Hg) as Hi. rewrite list_lookup_insert_eq by done. cbn [ub mbind outcome_bind].
  assert ((exists b, g1 = set_bmp g b) /\ tpage g1 /\ forall k, gbit g1 k = if decide (e = epoch) then gbit g k else false) as ((b1 & ->) & Ht1 & Hb1).
  { destruct (decide (e = epoch)) as [E|E]; [subst g1; split; [|by split; [apply Ht|]]|destruct Hcase as (_ & [Hb Hbits] & _ & _ & Hset); split; [by apply Hset|done]].
    destruct (ir_bmp _ (tp_ready _ (Ht E))) as (b & Eb & _). exists b. unfold set_bmp. rewrite <- Eb. by destruct g as [[] k]. }
  cbn [set_bmp head bmp]. change (gc_allocator_get_block_id _ (gaddr g bid)) with (gc_allocator_get_block_id (head g) (gaddr g bid)). rewrite Hid. cbn [ub mbind outcome_bind]. destruct (Z.ltb_spec bid 0); [destruct Hv; lia|].
  destruct (set_mark_bit (set_bmp g b1) bid Ht1 Hv) as (b & b' & Eb & _ & Es & Hset & Ht' & Hbits). injection Eb as ->. rewrite Es. cbn [ub mbind outcome_bind]. eexists _, own. split; [rewrite list_insert_insert_eq; reflexivity|]. split; [done|].
  split; [by exists b'|]. split; [exact Ht'|]. change (set_bmp (set_bmp g b) b') with (set_bmp g b') in Hbits. split.
  - change (GPage _ _) with (set_bmp g b'). rewrite Hbits, Z.eqb_refl by lia. apply orb_true_r.
  - intros k Hk Hne. change (GPage _ _) with (set_bmp g b'). rewrite Hbits, Hb1, (proj2 (Z.eqb_neq _ _) Hne) by done. apply orb_false_r.
Qed.

(** ** The tracer and new objects *)
Record allocated (g g' : gpage) (bid : Z) : Prop := Allocated {
  al_geometry : same_geometry (head g) (head g');
  al_kind : page_kind g' = page_kind g;
  al_page : tpage g';
  al_bits : forall k, 0 <= k -> k <> bid -> gbit g' k = gbit g k;
  al_valid : forall r, valid (head g) r -> valid (head g') r /\ nwords g' r = nwords g r;
  al_new : valid (head g') bid /\ gbit g' bid = true;
  al_used : forall r, valid (head g') r -> r = bid \/ valid (head g) r /\ (is_free (head g') r = false -> is_free (head g) r = false) }.
Lemma allocated_of g ph g' bid : tpage g -> taken (head g) ph bid -> marked_new (GPage ph (page_kind g)) g' bid (gbit (GPage ph (page_kind g))) -> allocated g g' bid.
Proof.
  intros Hg [Hgeo Hval Hnew Hused Hbmp] ([b ->] & Ht & Hb & Hbits). destruct (ir_bmp _ (tp_ready _ Hg)) as (b0 & Eb & Hl & Hbytes & _). rewrite Eb in Hbmp. destruct Hbmp as (b1 & Eb1 & Hcase).
  split; try done.
  - destruct Hgeo. by split.
  - intros k Hk Hne. rewrite Hbits by done. unfold gbit. cbn [head]. rewrite Eb, Eb1. destruct Hcase as [->|Hset]; [done|]. destruct Hnew as [Hr _]. rewrite (sg_max _ _ Hgeo) in Hr. destruct (bmp_bytes_spec (head g) ltac:(lia)).
    destruct (bmp_set_bits b0 bid ltac:(rewrite Hl; lia) Hbytes) as (b' & E & _ & _ & Hb'). rewrite Hset in E. injection E as <-. rewrite Hb', (proj2 (Z.eqb_neq _ _) Hne) by done. apply orb_false_r.
  - intros r Hr. destruct (Hval r Hr) as [H1 H2]. split; [exact H1|]. unfold nwords. change (block_bytes (head (set_bmp (GPage ph (page_kind g)) b)) r) with (block_bytes ph r). by rewrite H2.
Qed.
Lemma taken_tpage part g ph bid : tpage g -> taken (head g) ph bid -> ipage part (GPage ph (page_kind g)) -> need_flush ph = false -> tpage (GPage ph (page_kind g)).
Proof.
  intros Hg Htk Hph Hn. destruct (tp_page _ Hg) as [part0 Hp]. destruct (ir_bmp _ (tp_ready _ Hg)) as (b & Eb & Hl & Hbytes & Hok). pose proof (tk_bmp _ _ _ Htk) as Hbmp. rewrite Eb in Hbmp. destruct Hbmp as (b' & Eb' & Hcase). pose proof (tk_geometry _ _ _ Htk) as Hgeo.
  pose proof (ipage_range g _ Hp) as (Hrg & _). destruct (bmp_bytes_spec (head g) ltac:(lia)) as [B1 B2]. assert (bmp_bytes ph = bmp_bytes (head g)) as Ebb by (unfold bmp_bytes; by rewrite (sg_max _ _ Hgeo)). pose proof (tk_new _ _ _ Htk) as Hnew.
  split; [by exists part|]. split; [done|]. exists b'. cbn [head].
  assert (alen b' = alen b /\ Forall (fun x => 0 <= x < 256) b' /\ forall j, 0 <= j -> is_marked b' j = true -> is_marked b j = true \/ j = bid) as (Hl' & Hb' & Hmk).
  { destruct Hcase as [->|Hset]; [by auto|]. destruct Hnew as [Hrn _]. rewrite (sg_max _ _ Hgeo) in Hrn. destruct (bmp_set_bits b bid ltac:(rewrite Hl; lia) Hbytes) as (b2 & E2 & Hl2 & Hb2 & Hbits2). rewrite Hset in E2. injection E2 as <-.
    split; [done|]. split; [done|]. intros j Hj Hm. rewrite Hbits2 in Hm by done. apply orb_true_iff in Hm as [?|?%Z.eqb_eq]; auto. }
  split; [done|]. split; [lia|]. split; [done|]. unfold marks_ok. destruct (sizes ph) as [s2|] eqn:Es2; [|done]. intros q Hq Hm. rewrite (sg_max _ _ Hgeo), (sg_first _ _ Hgeo) in Hq.
  assert (valid ph q) as [_ Hv]; [|by apply Hv]. destruct (Hmk q ltac:(lia) Hm) as [Hold| ->]; [|done]. apply (tk_valid _ _ _ Htk). split; [lia|]. intros s1 Es1. split; [lia|]. unfold marks_ok in Hok. rewrite Es1 in Hok. by apply Hok.
Qed.
Lemma same_geometry_page g g' : same_geometry (head g) (head g') -> (forall w, INPAGE w g' = INPAGE w g) /\ (forall r, gaddr g' r = gaddr g r) /\ (forall r, queued_bit (head g') r = queued_bit (head g) r) /\ place (head g') = place (head g).
Proof. intros [E1 E2 E3 E4 E5 E6]. unfold INPAGE, gaddr, queued_bit, bmp_bytes, place. by rewrite E1, E2, E3, E4. Qed.
Lemma get_page_insert_geometry (ps : list gpage) i g g' w : ps !! i = Some g -> (forall w, INPAGE w g' = INPAGE w g) -> get_page (<[i := g']> ps) w = (fun '(j, h) => (j, if decide (j = i) then g' else h)) <$> get_page ps w.
Proof.
  intros Hg Hin. revert i Hg. induction ps as [|h ps IH]; intros i Hg; [done|]. destruct i as [|i].
  - injection Hg as ->. change (<[0%nat := g']> (g :: ps)) with (g' :: ps). cbn [get_page]. rewrite Hin. destruct (INPAGE w g); [by cbn; rewrite decide_True|]. destruct (get_page ps w) as [[j k]|]; [|done]. cbn. by rewrite decide_False.
  - change (<[S i := g']> (h :: ps)) with (h :: <[i := g']> ps). cbn [get_page]. destruct (INPAGE w h); [by cbn; rewrite decide_False|]. rewrite (IH i Hg). destruct (get_page ps w) as [[j k]|]; [|done]. cbn. destruct (decide (j = i)) as [->|]; [by rewrite decide_True|by rewrite decide_False by congruence].
Qed.
Lemma apart_insert_geometry (ps : list gpage) i g g' : ps !! i = Some g -> place (head g') = place (head g) -> apart_pages ps -> apart_pages (<[i := g']> ps).
Proof. intros Hg Hpl. unfold apart_pages. by rewrite list_fmap_insert, Hpl, (list_insert_id ((fun g => place (head g)) <$> ps)) by (by rewrite list_lookup_fmap, Hg). Qed.
Section objects.
Context (mem : Z -> Z) (O : nat -> Z -> Z -> Prop).
Abbreviation tinv := (tinv mem O).
Abbreviation fine := (fine mem).
Lemma tinv_alloc ps st block cursor end_ i g g' bid : tinv ps st block cursor end_ -> ps !! i = Some g -> allocated g g' bid -> (forall a, has_word g' bid a -> O i bid a) ->
  tinv (<[i := g']> ps) st block cursor end_ /\ forall j r, marked ps j r -> marked (<[i := g']> ps) j r.
Proof.
  intros [Hps Ha Hst Hcur Hq Hsc] Hg [Hgeo Hkind Ht Hbits Hval [Hnew Hmark] Hused] HO. destruct (same_geometry_page g g' Hgeo) as (Hin & Haddr & Hqb & Hpl). pose proof (tpages_at ps i g Hps Hg) as Htg. pose proof (lookup_lt_Some _ _ _ Hg) as Hi.
  assert (Forall tpage (<[i := g']> ps)) as Hps' by by apply Forall_insert. pose proof (apart_insert_geometry ps i g g' Hg Hpl Ha) as Ha'.
  assert (forall j r, marked ps j r -> marked (<[i := g']> ps) j r) as Hmarked.
  { intros j r (h & Hh & Hv & Hb). destruct (decide (j = i)) as [->|Hne]; [|exists h; by rewrite list_lookup_insert_ne]. assert (h = g) as -> by congruence. exists g'. rewrite list_lookup_insert_eq by done. split; [done|]. split; [by apply Hval|].
    destruct (decide (r = bid)) as [->|]; [done|]. destruct Hv. by rewrite Hbits by lia. }
  assert (forall j h r, scanned ps j h r -> exists h', scanned (<[i := g']> ps) j h' r /\ gaddr h' r = gaddr h r /\ nwords h' r = nwords h r) as Hscan.
  { intros j h r (Hh & Hv & Hb & Hk). destruct (decide (j = i)) as [->|Hne]; [|exists h; unfold scanned; by rewrite list_lookup_insert_ne]. assert (h = g) as -> by congruence. exists g'. destruct (Hmarked i r) as (g2 & Hg2 & Hv2 & Hb2); [by exists g|].
    assert (g2 = g') as -> by (rewrite list_lookup_insert_eq in Hg2 by done; congruence). unfold scanned. rewrite Hkind. split; [done|]. split; [apply Haddr|]. by apply Hval. }
  assert (forall a, fine ps a -> fine (<[i := g']> ps) a) as Hfine.
  { intros a Hf j h k Hb Hfree. unfold block_of in Hb. destruct (u64 (mem a) =? 0) eqn:E0; [done|]. rewrite (get_page_insert_geometry ps i g g' _ Hg Hin) in Hb. destruct (get_page ps (u64 (mem a))) as [[j0 h0]|] eqn:Eg; [|done]. cbn in Hb.
    apply get_page_lookup in Eg as Hl. destruct Hl as [Hh0 Hin0]. destruct (decide (j0 = i)) as [->|Hne].
    - assert (h0 = g) as -> by congruence. destruct (tp_page _ Ht) as [part' Hp']. destruct (block_id_valid g' part' Hp' (u64 (mem a))) as (q & Hqid & Hcase); [by rewrite Hin|]. rewrite Hqid in Hb. cbn [mbind option_bind] in Hb. destruct (Z.geb_spec q 0); [|done]. injection Hb as -> -> ->.
      destruct Hcase as [|[Hvk Ea]]; [lia|]. destruct (Hused k Hvk) as [->|[Hvg Hfg]]; [exists h; by rewrite list_lookup_insert_eq|]. apply Hmarked, (Hf j g k); [|by apply Hfg]. rewrite Ea, Haddr. by apply block_of_addr.
    - apply Hmarked, (Hf j h k); [|done]. unfold block_of. by rewrite E0, Eg. }
  split; [|done]. split; [done|done| | | |].
  - intros p Hp. destruct (Hst p Hp) as (j & h & r & Hs & ->). destruct (Hscan j h r Hs) as (h' & Hs' & E & _). by exists j, h', r.
  - destruct Hcur as [Hc|(j & h & r & k & Hs & -> & Hk & Hc)]; [by left|]. right. destruct (Hscan j h r Hs) as (h' & Hs' & E & En). exists j, h', r, k. by rewrite E, En.
  - intros j h' r Hh' Hr Hb. destruct (set_bits_lookup ps i g _ j h' Hg Hh') as [[-> ->]|[Hne Hh]]; [|by apply (Hq j h' r)]. rewrite Haddr. apply (Hq i g r Hg); [by rewrite <- (sg_max _ _ Hgeo)|]. unfold qbit in *. rewrite Hqb, Hbits in Hb; [done| |].
    + destruct (tpage_bits g Htg) as (b & _ & _ & Hbd). destruct (Hbd r) as (_ & H & _); [by rewrite <- (sg_max _ _ Hgeo)|]. lia.
    + destruct (tpage_bits g Htg) as (b & _ & _ & Hbd). destruct (Hbd r) as (_ & _ & H); [by rewrite <- (sg_max _ _ Hgeo)|]. destruct Hnew as [Hnew _]. rewrite (sg_max _ _ Hgeo) in Hnew. lia.
  - intros j h' r a (Hh' & Hv & Hb & Hk) Hw. destruct (set_bits_lookup ps i g _ j h' Hg Hh') as [[-> ->]|[Hne Hh]].
    + destruct (Hused r Hv) as [->|[Hvg _]]; [left; right; right; by apply HO|]. destruct (decide (r = bid)) as [->|Hnb]; [left; right; right; by apply HO|]. rewrite Hbits in Hb by (destruct Hvg; lia || done).
      destruct (Hsc i g r a (conj Hg (conj Hvg (conj Hb (eq_trans (f_equal MEM_HAS_PTR (eq_sym Hkind)) Hk))))) as [[H|[H|H]]|H].
      * destruct Hw as (m & Hm & ->). exists m. destruct (Hval r Hvg) as [_ <-]. by rewrite Haddr.
      * left. left. by rewrite Haddr.
      * left. right. left. by rewrite Haddr.
      * left. by right; right.
      * right. by apply Hfine.
    + destruct (Hsc j h' r a (conj Hh (conj Hv (conj Hb Hk))) Hw) as [H|H]; [by left|right; by apply Hfine].
Qed.
Lemma get_page_snoc ps (g : gpage) w : get_page (ps ++ [g]) w = match get_page ps w with Some x => Some x | None => if INPAGE w g then Some (length ps, g) else None end.
Proof.
  induction ps as [|h ps IH]; cbn [app get_page length]; [by destruct (INPAGE w g)|]. destruct (INPAGE w h); [done|]. rewrite IH. destruct (get_page ps w) as [[j k]|]; [done|]. by destruct (INPAGE w g).
Qed.
Lemma snoc_lookup (ps : list gpage) g j h : (ps ++ [g]) !! j = Some h -> ps !! j = Some h \/ j = length ps /\ h = g.
Proof. intros H. apply lookup_app_Some in H as [H|[H1 H2]]; [by left|right]. apply list_lookup_singleton_Some in H2 as [H2 <-]. split; [lia|done]. Qed.
Lemma tinv_new ps st block cursor end_ g bid : tinv ps st block cursor end_ -> tpage g -> apart_pages (ps ++ [g]) -> (forall k, 0 <= k -> k <> bid -> gbit g k = false) -> valid (head g) bid -> gbit g bid = true ->
  (forall r, valid (head g) r -> is_free (head g) r = false -> r = bid) -> (forall a, has_word g bid a -> O (length ps) bid a) -> tinv (ps ++ [g]) st block cursor end_ /\ forall j r, marked ps j r -> marked (ps ++ [g]) j r.
Proof.
  intros [Hps Ha Hst Hcur Hq Hsc] Ht Ha' Hbits Hv Hb Hused HO.
  assert (forall j (h : gpage), ps !! j = Some h -> (ps ++ [g]) !! j = Some h) as Hl by (intros j h Hh; by apply lookup_app_l_Some).
  assert (forall j r, marked ps j r -> marked (ps ++ [g]) j r) as Hmarked by (intros j r (h & Hh & H); exists h; split; [by apply Hl|done]).
  assert (forall j h r, scanned ps j h r -> scanned (ps ++ [g]) j h r) as Hscan by (intros j h r (Hh & H); split; [by apply Hl|done]).
  assert ((ps ++ [g]) !! length ps = Some g) as Hlast by (rewrite lookup_app_r, Nat.sub_diag by done; done).
  assert (forall a, fine ps a -> fine (ps ++ [g]) a) as Hfine.
  { intros a Hf j h k Hbo Hfree. unfold block_of in Hbo. destruct (u64 (mem a) =? 0) eqn:E0; [done|]. rewrite get_page_snoc in Hbo. destruct (get_page ps (u64 (mem a))) as [[j0 h0]|] eqn:Eg.
    - apply Hmarked, (Hf j h k); [|done]. unfold block_of. by rewrite E0, Eg.
    - destruct (INPAGE (u64 (mem a)) g) eqn:Ein; [|done]. cbn [mbind option_bind] in Hbo. destruct (tp_page _ Ht) as [part Hp]. destruct (block_id_valid g part Hp _ Ein) as (q & Hqid & Hcase). rewrite Hqid in Hbo. cbn [mbind option_bind] in Hbo.
      destruct (Z.geb_spec q 0); [|done]. injection Hbo as <- <- <-. destruct Hcase as [|[Hvq _]]; [lia|]. rewrite (Hused q Hvq Hfree). by exists g. }
  split; [|done]. split; [by apply Forall_app_2; [|constructor]|done| | | |].
  - intros p Hp. destruct (Hst p Hp) as (j & h & r & Hs & ->). exists j, h, r. auto.
  - destruct Hcur as [Hc|(j & h & r & k & Hs & H)]; [by left|right]. exists j, h, r, k. auto.
  - intros j h r Hh Hr Hqb. apply snoc_lookup in Hh as [Hh|[-> ->]]; [by apply (Hq j h r)|]. unfold qbit in Hqb. destruct (tpage_bits g Ht) as (b & _ & _ & Hbd). destruct (Hbd r Hr) as (_ & H1 & H2). destruct Hv as [Hv _]. rewrite Hbits in Hqb by lia. done.
  - intros j h r a (Hh & Hvr & Hbr & Hk) Hw. apply snoc_lookup in Hh as [Hh|[-> ->]].
    + destruct (Hsc j h r a (conj Hh (conj Hvr (conj Hbr Hk))) Hw) as [H|H]; [by left|right; by apply Hfine].
    + destruct (decide (r = bid)) as [->|Hne]; [left; right; right; by apply HO|]. destruct Hvr. rewrite Hbits in Hbr by lia || done. done.
Qed.
End objects.
