(* ===== verification/IncrementalSound.v ===== *)
(** * The invariant of a cycle

    [cycle] holds between slices, whatever the program does: while pages are being prepared no
    page is marked but by allocation, and the words of marked blocks are in pages written to;
    then the tracer has its invariant, with what the dirty queues and the system's bits cover
    outside it. *)
From S2P Require Import Prelude PageMap Allocator AllocatorPage AllocatorAlloc AllocatorHeap AllocatorMark AllocatorProps Marking MarkingSound Incremental IncrementalPages IncrementalTrace IncrementalDrain IncrementalDirty IncrementalAlloc.

(** ** The pages and their lists *)
Record sinv (lists : list (list nat)) (ps : list gpage) (epochs : list Z) (own : list bool) : Prop := SInv {
  si_slots : alen lists = GC_PAGE_SLOTS;
  si_pages : forall pid l i, aget lists pid = Some l -> i ∈ l -> exists g, ps !! i = Some g /\ ipage (GC_PID_PART pid) g;
  si_once : forall pid pid' l l' i, aget lists pid = Some l -> aget lists pid' = Some l' -> i ∈ l -> i ∈ l' -> pid' = pid;
  si_all : forall i, (i < length ps)%nat -> exists pid l, aget lists pid = Some l /\ i ∈ l;
  si_apart : apart_pages ps;
  si_len : length epochs = length ps /\ length own = length ps }.
Section structure.
Context (lists : list (list nat)) (ps : list gpage) (epochs : list Z) (own : list bool).
Hypothesis Hs : sinv lists ps epochs own.
Lemma sinv_page i g : ps !! i = Some g -> exists pid l, aget lists pid = Some l /\ i ∈ l /\ ipage (GC_PID_PART pid) g.
Proof using Hs. intros Hg. destruct (si_all _ _ _ _ Hs i) as (pid & l & Hl & Hi); [by apply lookup_lt_Some in Hg|]. destruct (si_pages _ _ _ _ Hs pid l i Hl Hi) as (g' & Hg' & Hp). exists pid, l. assert (g' = g) as -> by congruence. done. Qed.
Lemma sinv_epoch i g : ps !! i = Some g -> exists e, epochs !! i = Some e.
Proof using Hs. intros Hg. apply lookup_lt_Some in Hg. destruct (si_len _ _ _ _ Hs) as [He _]. destruct (lookup_lt_is_Some_2 epochs i) as [e E]; [lia|]. by exists e. Qed.
Lemma sinv_insert i g g' epochs' own' : ps !! i = Some g -> (forall pid l, aget lists pid = Some l -> i ∈ l -> ipage (GC_PID_PART pid) g -> ipage (GC_PID_PART pid) g') -> place (head g') = place (head g) ->
  length epochs' = length epochs -> length own' = length own -> sinv lists (<[i := g']> ps) epochs' own'.
Proof using Hs.
  intros Hg Hp Hpl He Ho. destruct Hs as [H1 H2 H3 H4 H5 [H6 H7]]. split; [done| |done| | |rewrite length_insert; lia].
  - intros pid l j Hl Hj. destruct (H2 pid l j Hl Hj) as (h & Hh & Hph). destruct (decide (j = i)) as [->|Hne]; [|exists h; by rewrite list_lookup_insert_ne]. exists g'. rewrite list_lookup_insert_eq by by apply lookup_lt_Some in Hg. split; [done|]. assert (h = g) as -> by congruence. by apply (Hp pid l).
  - intros j. rewrite length_insert. apply H4.
  - by apply (apart_insert_geometry ps i g).
Qed.
Lemma in_some_list i : (i < length ps)%nat <-> i ∈ concat lists.
Proof using Hs.
  rewrite list_elem_of_In, in_concat. split.
  - intros (pid & l & Hl & Hi)%(si_all _ _ _ _ Hs). exists l. rewrite <- !list_elem_of_In. split; [|done]. pose proof (aget_Some_range _ _ _ Hl). rewrite aget_lookup in Hl by lia. by apply list_elem_of_lookup_2 in Hl.
  - intros (l & Hl & Hi). apply list_elem_of_In in Hl. apply list_elem_of_In in Hi. apply list_elem_of_lookup_1 in Hl as [k Hk]. rewrite <- aget_nat in Hk. destruct (si_pages _ _ _ _ Hs _ l i Hk Hi) as (g & Hg & _). by apply lookup_lt_Some in Hg.
Qed.
Lemma sinv_lists : alen lists = GC_PAGE_SLOTS /\ (forall l i, l ∈ lists -> i ∈ l -> (i < length ps)%nat) /\ forall i, (i < length ps)%nat -> exists l, l ∈ lists /\ i ∈ l.
Proof using Hs.
  split; [apply Hs|]. split.
  - intros l i Hl Hi. apply in_some_list. rewrite list_elem_of_In, in_concat. exists l. by rewrite <- !list_elem_of_In.
  - intros i Hi. apply in_some_list in Hi. rewrite list_elem_of_In, in_concat in Hi. destruct Hi as (l & Hl & Hi). exists l. by rewrite !list_elem_of_In.
Qed.
Lemma sinv_ipage i g : ps !! i = Some g -> exists part, ipage part g.
Proof using Hs. intros Hg. destruct (sinv_page i g Hg) as (pid & l & _ & _ & H). by exists (GC_PID_PART pid). Qed.
(** The lists from a page id on: those before keep their heads. *)
Lemma in_drop_lists pid l i k : aget lists pid = Some l -> i ∈ l -> (k <= pid)%Z -> i ∈ concat (drop (Z.to_nat k) lists).
Proof. intros Hl Hi Hk. pose proof (aget_Some_range _ _ _ Hl). rewrite aget_lookup in Hl by lia. rewrite list_elem_of_In, in_concat. exists l. rewrite <- !list_elem_of_In. split; [|done]. apply (list_elem_of_lookup_2 _ (Z.to_nat pid - Z.to_nat k)). rewrite lookup_drop. rewrite <- Hl. f_equal. lia. Qed.
End structure.

Section cycle.
Context (junk : gc_fl) (os_page : Z).
Hypothesis Hos : 0 < os_page /\ GC_PAGE_SIZE mod os_page = 0.
Definition structured (s : inc_state) : Prop := sinv (in_lists s) (in_pages s) (in_epochs s) (in_own s).
Definition in_n (s : inc_state) : nat := length (in_pages s).
(** What looks at a word again outside the tracer. *)
Definition outside (s : inc_state) (i : nat) (r a : Z) : Prop := i ∈ dq_incoming (in_dirty s) \/ Z.quot a os_page ∈ in_soft s.
Definition is_prepared (s : inc_state) (i : nat) : Prop := in_epochs s !! i = Some (in_epoch s).
#[export] Instance is_prepared_dec s i : Decision (is_prepared s i).
Proof. unfold is_prepared. apply _. Defined.
Record running (s : inc_state) : Prop := Running {
  ru_structured : structured s;
  ru_active : in_active s = true /\ in_barrier s = true;
  ru_dirty : dinv (in_n s) (in_dirty s);
  ru_walk : walk_ok os_page (in_pages s) (in_walk s) /\ (wk_walk (in_walk s) = true -> wk_spanned (in_walk s) = true) }.
(** A page prepared while others are not: only new objects are marked, and their words are in pages written to. *)
Definition new_marks (soft : gset Z) (g : gpage) : Prop := tpage g /\ (forall r, 0 <= r < max_blocks (head g) -> qbit g r = false) /\ forall r a, valid (head g) r -> gbit g r = true -> has_word g r a -> Z.quot a os_page ∈ soft.
Definition idle_tracer (tr : tracer) (rs : rescan) : Prop := tr_stack tr = [] /\ tr_block tr = 0 /\ tr_cursor tr = 0 /\ rs_page rs = None.
Record preparing (s : inc_state) : Prop := Preparing {
  pr_running : running s;
  pr_phase : in_preparing s = true /\ in_discovering s = false;
  pr_idle : idle_tracer (in_tracer s) (in_rescan s) /\ dq_batch (in_dirty s) = [];
  pr_pages : forall i g, is_prepared s i -> in_pages s !! i = Some g -> new_marks (in_soft s) g;
  pr_left : 0 <= in_pid s <= GC_PAGE_SLOTS /\ (forall i, i ∈ in_cursor s -> (i < in_n s)%nat) /\
    forall i, (i < in_n s)%nat -> is_prepared s i \/ i ∈ in_cursor s ++ concat (drop (Z.to_nat (in_pid s)) (in_lists s)) }.
Record tracing (s : inc_state) : Prop := Tracing {
  tc_running : running s;
  tc_phase : in_preparing s = false /\ (in_discovering s = true -> dq_batch (in_dirty s) = []);
  tc_prepared : forall i, (i < in_n s)%nat -> is_prepared s i;
  tc_inv : binv (in_mem s) (outside s) (in_n s) (in_tracer s) (in_dirty s) (in_rescan s) }.
Definition cycle (s : inc_state) : Prop := preparing s \/ tracing s.
Lemma cycle_running s : cycle s -> running s.
Proof. intros [H|H]; apply H. Qed.

(** ** Writes *)
Lemma tinv_memory mem mem' O O' ps st block cursor end_ : tinv mem O ps st block cursor end_ -> (forall i r a, O i r a -> O' i r a) -> (forall i r a, mem' a <> mem a -> O' i r a) -> tinv mem' O' ps st block cursor end_.
Proof.
  intros [H1 H2 H3 H4 H5 H6] HO Hm. split; try done. intros i g r a Hs Hw. destruct (decide (mem' a = mem a)) as [E|Hne]; [|left; right; right; by apply Hm].
  destruct (H6 i g r a Hs Hw) as [[?|[?|?]]|Hf]; [left; by left|left; right; by left|left; right; right; by apply HO|right]. intros j h k. unfold fine in Hf. rewrite E. apply Hf.
Qed.
Lemma binv_outside mem mem' O O' n tr dq rs : binv mem O n tr dq rs -> (forall i r a, O i r a -> O' i r a) -> (forall i r a, mem' a <> mem a -> O' i r a) -> binv mem' O' n tr dq rs.
Proof. intros (Hi & H) HO Hm. split; [|done]. apply (tinv_memory mem mem' _ _ _ _ _ _ _ Hi); intros i r a; [intros [?|?]; [left; by apply HO|by right]|intros; left; by apply Hm]. Qed.
Lemma write_cycle s mem soft : cycle s -> (forall a, mem a <> in_mem s a -> Z.quot a os_page ∈ soft) -> in_soft s ⊆ soft -> cycle (with_memory s mem soft).
Proof.
  intros [[Hr Hph Hid Hp Hl]|[Hr Hph Hp Hi]] Hmem Hsoft.
  - left. split; [destruct Hr; by split|done|done| |done]. intros i g Hi Hg. destruct (Hp i g Hi Hg) as (H1 & H2 & H3). split; [done|]. split; [done|]. intros r a Hv Hb Hw. by apply Hsoft, (H3 r a).
  - right. split; [destruct Hr; by split|done|done|]. apply (binv_outside (in_mem s) _ (outside s) _ _ _ _ _ Hi); [intros i r a [?|?]; [by left|right; by apply Hsoft]|intros i r a Hne; right; by apply Hmem].
Qed.

(** ** The barrier *)
Lemma barrier_spec active ps dq address bytes : dinv (length ps) dq -> 0 <= address < 2 ^ 64 ->
  exists dq', hl_gc_write_barrier active ps dq address bytes = Some dq' /\ dinv (length ps) dq' /\ dq_batch dq' = dq_batch dq /\ forall j, j ∈ queued_pages dq -> j ∈ queued_pages dq'.
Proof.
  intros Hd Ha. unfold hl_gc_write_barrier. destruct (negb active || (bytes =? 0)); [by exists dq|]. cbv zeta. set (last_ := u64 (address + bytes - 1)). destruct (Z.ltb_spec last_ address) as [Hlt|Hle]; [by exists dq|].
  match goal with |- context [loop ?f ?steps ?init] => set (step := f); apply (loop_total step
    (fun '(first, d) => 0 <= first /\ Z.shiftr first GC_MASK_BITS <= Z.shiftr last_ GC_MASK_BITS /\ dinv (length ps) d /\ dq_batch d = dq_batch dq /\ forall j, j ∈ queued_pages dq -> j ∈ queued_pages d)
    (fun d => dinv (length ps) d /\ dq_batch d = dq_batch dq /\ forall j, j ∈ queued_pages dq -> j ∈ queued_pages d)
    (fun '(first, _) => Z.to_nat (Z.shiftr last_ GC_MASK_BITS - Z.shiftr first GC_MASK_BITS))) end.
  - intros [first d] (Hf & Hsh & Hdd & Hb & Hm). unfold step.
    assert (exists d', barrier_page ps d first = Some d' /\ dinv (length ps) d' /\ dq_batch d' = dq_batch d /\ forall j, j ∈ queued_pages d -> j ∈ queued_pages d') as (d' & -> & Hd' & Hb' & Hm').
    { unfold barrier_page. destruct (get_page ps first) as [[i g]|] eqn:Eg; [|by exists d]. apply get_page_lookup in Eg as [Hg _]. destruct (gc_dirty_enqueue_spec (length ps) d i g Hdd) as (d' & E & H1 & H2 & H3 & _); [by apply lookup_lt_Some in Hg|]. by exists d'. }
    cbn [mbind option_bind]. destruct (Z.eqb_spec (Z.shiftr first GC_MASK_BITS) (Z.shiftr last_ GC_MASK_BITS)) as [E|Hne].
    + right. eexists. split; [done|]. split; [done|]. split; [congruence|auto].
    + left. eexists. split; [done|]. rewrite !shiftr_div in * by (vm_compute; congruence). change (2 ^ GC_MASK_BITS) with 65536 in *. rewrite Z.shiftl_mul_pow2 by (vm_compute; congruence). change (2 ^ GC_MASK_BITS) with 65536.
      rewrite Z.div_mul by lia. split; [|lia]. split; [z_div|]. split; [lia|]. split; [done|]. split; [congruence|auto].
  - split; [lia|]. split; [|done]. rewrite !shiftr_div by (vm_compute; congruence). apply Z.div_le_mono; [vm_compute; done|lia].
  - lia.
Qed.
Lemma barrier_cycle s address bytes dq : cycle s -> 0 <= address < 2 ^ 64 -> hl_gc_write_barrier (in_barrier s) (in_pages s) (in_dirty s) address bytes = Some dq -> cycle (with_traced s (in_tracer s) dq (in_rescan s)).
Proof.
  intros Hc Ha E. pose proof (cycle_running s Hc) as [Hst Hact Hd Hw]. destruct (barrier_spec (in_barrier s) (in_pages s) (in_dirty s) address bytes Hd Ha) as (dq' & E' & Hd' & Hb & Hm). rewrite E in E'. injection E' as <-.
  assert (running (with_traced s (in_tracer s) dq (in_rescan s))) as Hr' by by split. destruct Hc as [[Hr Hph Hid Hp Hl]|[Hr Hph Hp (Hi & Hdd & Hrs & Hn)]].
  - left. split; [done|done|by cbn; rewrite Hb|done|done].
  - right. split; [done|cbn; by rewrite Hb|done|]. split; [|done]. apply (tinv_outside _ _ _ _ _ _ _ _ Hi). intros i g r a _ _ [[Hin|?]|[Hin|?]]; left; right; right; [| left; by right | |by right; right].
    + assert (i ∈ queued_pages dq) as [?|?]%elem_of_app by (apply Hm, elem_of_app; by left); [left; by left|right; by left].
    + right. left. cbn. by rewrite Hb.
Qed.

(** ** Changes of a page *)
Lemma walk_ok_pages ps ps' wk : walk_ok os_page ps wk -> (length ps <= length ps')%nat -> (forall i g', (i < length ps)%nat -> ps' !! i = Some g' -> exists g, ps !! i = Some g /\ page_size (head g') = page_size (head g)) -> walk_ok os_page ps' wk.
Proof.
  intros [H1 H2 (H3 & H4 & H5)] Hlen Hg. split; [done|intros i Hi; specialize (H2 i Hi); lia|]. split; [done|]. split; [done|]. destruct (wk_cursor wk) as [|i rest]; [done|]. intros g' Hg'. destruct (Hg i g' (H2 i ltac:(by left)) Hg') as (g & Hgi & ->). by apply H5.
Qed.
Lemma walk_ok_insert (ps : list gpage) i g g' wk : walk_ok os_page ps wk -> ps !! i = Some g -> page_size (head g') = page_size (head g) -> walk_ok os_page (<[i := g']> ps) wk.
Proof.
  intros Hw Hg Hs. apply (walk_ok_pages ps); [done|by rewrite length_insert|]. intros j h _ Hh. destruct (set_bits_lookup ps i g g' j h Hg Hh) as [[-> ->]|[_ Hj]]; [by exists g|by exists h].
Qed.
(** The pages of a state changed at one page. *)
Definition page_changed (s : inc_state) (i : nat) (g' : gpage) (epoch : Z) (own : list bool) : inc_state := with_pages s (Prep (<[i := g']> (in_pages s)) (<[i := epoch]> (in_epochs s)) own).
Lemma running_change s i g g' epoch own : running s -> in_pages s !! i = Some g -> (forall pid l, aget (in_lists s) pid = Some l -> i ∈ l -> ipage (GC_PID_PART pid) g -> ipage (GC_PID_PART pid) g') -> same_geometry (head g) (head g') ->
  length own = length (in_own s) -> running (page_changed s i g' epoch own).
Proof.
  intros [Hst Hact Hd [Hw Hsp]] Hg Hp Hgeo Ho. split; [|done| |split; [|done]].
  - apply (sinv_insert _ _ _ _ Hst i g g'); [done|done|by apply same_geometry_page|cbn; by rewrite length_insert|done].
  - unfold in_n. cbn. by rewrite length_insert.
  - cbn. apply (walk_ok_insert (in_pages s) i g); [done|done|apply Hgeo].
Qed.
Lemma preparing_change s i g g' own : preparing s -> in_pages s !! i = Some g -> (forall pid l, aget (in_lists s) pid = Some l -> i ∈ l -> ipage (GC_PID_PART pid) g -> ipage (GC_PID_PART pid) g') -> same_geometry (head g) (head g') ->
  length own = length (in_own s) -> new_marks (in_soft s) g' -> preparing (page_changed s i g' (in_epoch s) own).
Proof.
  intros [Hr Hph Hid Hp Hl] Hg Hip Hgeo Ho Hnew. split; [by apply (running_change s i g)|done|done| |].
  - intros j h Hj Hh. cbn in Hh. unfold is_prepared in Hj. cbn in Hj. destruct (set_bits_lookup (in_pages s) i g g' j h Hg Hh) as [[-> ->]|[Hne Hhj]]; [done|]. rewrite list_lookup_insert_ne in Hj by done. by apply (Hp j).
  - destruct Hl as (H1 & H2 & H3). unfold in_n, is_prepared in *. cbn. rewrite length_insert. split; [done|]. split; [done|]. intros j Hj. destruct (H3 j Hj) as [He|Hin]; [left|by right]. destruct (decide (j = i)) as [->|]; [|by rewrite list_lookup_insert_ne].
    rewrite list_lookup_insert_eq; [done|]. by apply lookup_lt_Some in He.
Qed.
(** A page that is rebuilt: in a page prepared there is nothing to do. *)
Lemma flush_prepared g ph : tpage g -> flush_if_needed junk (head g) = Some ph -> GPage ph (page_kind g) = g.
Proof. intros [_ [Hn _]] E. unfold flush_if_needed in E. rewrite Hn in E. injection E as <-. by destruct g. Qed.
Lemma same_pages_state s i g : in_pages s !! i = Some g -> with_pages s (Prep (<[i := g]> (in_pages s)) (in_epochs s) (in_own s)) = s.
Proof. intros Hg. unfold with_pages, with_prepared. cbn. rewrite list_insert_id by done. by destruct s as [[] ? ? ? ? ? ? ? ? ? ? ? ? ? ? ?]. Qed.
Lemma flush_cycle s i g ph : cycle s -> in_pages s !! i = Some g -> flush_if_needed junk (head g) = Some ph -> cycle (with_pages s (Prep (<[i := GPage ph (page_kind g)]> (in_pages s)) (in_epochs s) (in_own s))).
Proof.
  intros Hc Hg E. destruct (decide (is_prepared s i)) as [Hp|Hp].
  - assert (tpage g) as Ht by (destruct Hc as [H|H]; [by apply (pr_pages _ H i g Hp)|destruct (tc_inv _ H) as (Hi & _); exact (tpages_at _ i g (ti_pages _ _ _ _ _ _ _ Hi) Hg)]). rewrite (flush_prepared g ph Ht E), same_pages_state; done.
  - destruct Hc as [Hc|Hc]; [|exfalso; apply Hp, (tc_prepared _ Hc); by apply lookup_lt_Some in Hg]. left. destruct Hc as [Hr Hph Hid Hpp Hl]. destruct (sinv_epoch _ _ _ _ (ru_structured _ Hr) i g Hg) as [e He].
    assert (forall part, ipage part g -> ipage part (GPage ph (page_kind g)) /\ same_geometry (head g) ph) as Hpart by (intros part Hpp'; destruct (flush_page junk part g Hpp') as (ph' & E' & H1 & _ & H2); rewrite E in E'; by injection E' as <-).
    destruct (sinv_ipage _ _ _ _ (ru_structured _ Hr) i g Hg) as [part Hpg]. destruct (Hpart part Hpg) as [_ Hgeo]. pose proof (running_change s i g (GPage ph (page_kind g)) e (in_own s) Hr Hg (fun pid l _ _ H => proj1 (Hpart _ H)) Hgeo eq_refl) as Hr'.
    unfold page_changed in Hr'. rewrite (list_insert_id (in_epochs s)) in Hr' by done. split; [exact Hr'|done|done| |].
    + intros j h Hj Hh. cbn in Hh. destruct (set_bits_lookup (in_pages s) i g _ j h Hg Hh) as [[-> ->]|[Hne Hhj]]; [done|]. by apply (Hpp j).
    + unfold in_n. cbn. rewrite length_insert. exact Hl.
Qed.

(** ** Allocation in a page *)
(** The words of a block are inside its bytes. *)
Lemma has_word_written part g r a n : ipage part g -> valid (head g) r -> block_bytes (head g) r = n -> has_word g r a -> gaddr g r <= a < gaddr g r + n.
Proof.
  intros Hp Hv <- (k & Hk & ->). destruct (block_bytes_in g part Hp r Hv) as (Hb & _). unfold nwords in Hk. rewrite Z.quot_div_nonneg in Hk by lia. pose proof (Z.mul_div_le (block_bytes (head g) r) 8 ltac:(lia)). lia.
Qed.
(** The page of a new object has only new marks. *)
Lemma new_marks_allocated soft g g' bid : new_marks soft g -> allocated g g' bid -> (forall a, has_word g' bid a -> Z.quot a os_page ∈ soft) -> new_marks soft g'.
Proof.
  intros (Ht & Hq & Hs) [Hgeo Hkind Ht' Hbits Hval [Hnew Hb] Hused] Hw. split; [done|]. destruct (same_geometry_page g g' Hgeo) as (_ & Haddr & Hqb & _). split.
  - intros r Hr. rewrite (sg_max _ _ Hgeo) in Hr. destruct (tpage_bits g Ht) as (b & _ & _ & Hbd). destruct (Hbd r Hr) as (_ & H1 & H2). destruct Hnew as [Hn _]. rewrite (sg_max _ _ Hgeo) in Hn. unfold qbit. rewrite Hqb, Hbits by lia. by apply Hq.
  - intros r a Hv Hm Ha. destruct (Hused r Hv) as [->|[Hvg _]]; [by apply Hw|]. destruct (decide (r = bid)) as [->|Hne]; [by apply Hw|]. rewrite Hbits in Hm by (destruct Hvg; lia || done). apply (Hs r a Hvg Hm). destruct Ha as (k & Hk & ->). exists k. destruct (Hval r Hvg) as [_ <-]. by rewrite Haddr.
Qed.
Lemma new_marks_blank soft g g' bid : marked_new g g' bid (fun _ => false) -> valid (head g') bid -> (forall a, has_word g' bid a -> Z.quot a os_page ∈ soft) -> new_marks soft g'.
Proof.
  intros (_ & Ht & Hb & Hbits) Hv Hw. split; [done|]. split.
  - intros r Hr. destruct (tpage_bits g' Ht) as (b & _ & _ & Hbd). destruct (Hbd r Hr) as (_ & H1 & H2). destruct Hv as [Hv _]. unfold qbit. apply Hbits; lia.
  - intros r a Hvr Hm Ha. destruct (decide (r = bid)) as [->|Hne]; [by apply Hw|]. destruct Hvr. rewrite Hbits in Hm by lia || done. done.
Qed.
Lemma cycle_tpage s i g : cycle s -> is_prepared s i -> in_pages s !! i = Some g -> tpage g.
Proof. intros [H|H] Hp Hg; [by apply (pr_pages _ H i g Hp)|destruct (tc_inv _ H) as (Hi & _); exact (tpages_at _ i g (ti_pages _ _ _ _ _ _ _ Hi) Hg)]. Qed.
(** The block taken and its page marked. *)
Lemma allocated_cycle s i g g' bid own : cycle s -> in_pages s !! i = Some g -> (forall pid l, aget (in_lists s) pid = Some l -> i ∈ l -> ipage (GC_PID_PART pid) g -> ipage (GC_PID_PART pid) g') -> same_geometry (head g) (head g') -> length own = length (in_own s) ->
  (is_prepared s i -> allocated g g' bid) -> (~ is_prepared s i -> new_marks (in_soft s) g') -> (forall a, has_word g' bid a -> Z.quot a os_page ∈ in_soft s) -> cycle (page_changed s i g' (in_epoch s) own).
Proof.
  intros Hc Hg Hip Hgeo Ho Hal Hnew Hsoft. pose proof (lookup_lt_Some _ _ _ Hg) as Hlt. destruct Hc as [Hc|Hc]; [left|right].
  - apply (preparing_change s i g); try done. destruct (decide (is_prepared s i)) as [Hp|Hp]; [|by apply Hnew]. apply (new_marks_allocated _ g g' bid); [by apply (pr_pages _ Hc i)|by apply Hal|done].
  - pose proof Hc as [Hr0 Hph0 Hp0 (Hi0 & Hd0 & Hrs0 & Hn0)]. specialize (Hal (Hp0 i Hlt)). split; [by apply (running_change s i g)|done| |].
    + intros j Hj. unfold in_n, is_prepared in *. cbn in *. rewrite length_insert in Hj. specialize (Hp0 j Hj). destruct (decide (j = i)) as [->|]; [rewrite list_lookup_insert_eq; [done|by apply lookup_lt_Some in Hp0]|by rewrite list_lookup_insert_ne].
    + destruct (tinv_alloc _ _ _ _ _ _ _ i g g' bid Hi0 Hg Hal) as [Hi1 _]; [intros a Hw; left; right; by apply Hsoft|]. split; [exact Hi1|]. unfold in_n. cbn. rewrite length_insert. split; [done|]. split; [|done].
      intros j Hj. destruct (Hrs0 j Hj) as (h & Hh & Hb). destruct (decide (j = i)) as [->|]; [|exists h; by rewrite list_lookup_insert_ne]. exists g'. rewrite list_lookup_insert_eq by done. split; [done|]. assert (h = g) as -> by (unfold in_pages in Hg; congruence). by rewrite (sg_first _ _ Hgeo), (sg_max _ _ Hgeo).
Qed.
(** The object at an address is marked. *)
Definition marked_object (s : inc_state) (ptr : Z) : Prop := exists i g bid, in_pages s !! i = Some g /\ valid (head g) bid /\ gbit g bid = true /\ ptr = gaddr g bid.
Lemma alloc_old_spec s pid l i r n : cycle s -> request_valid r -> aget (in_lists s) pid = Some l -> i ∈ l -> GC_PID_PART pid = request_part r -> request_bytes r = Some n ->
  exists res, alloc_old junk s i r = Done res /\ match res with None => True | Some (s', ptr) => marked_object s' ptr /\ (written os_page (in_soft s) ptr n -> cycle s') end.
Proof.
  intros Hc Hr Hl Hi Hpart Hn. pose proof (cycle_running s Hc) as Hrun. destruct (si_pages _ _ _ _ (ru_structured _ Hrun) pid l i Hl Hi) as (g & Hg & Hp). unfold alloc_old. rewrite Hg. cbn [ub mbind outcome_bind].
  destruct (take_in_spec junk _ g r Hp Hr (eq_sym Hpart)) as (res & -> & Hres). cbn [ub mbind outcome_bind]. destruct res as [[ph bid]|]; [|by exists None]. destruct Hres as (ph1 & Hflush & Htk & Hph & Hnf & Hbytes).
  destruct (sinv_epoch _ _ _ _ (ru_structured _ Hrun) i g Hg) as [e He]. pose proof (lookup_lt_Some _ _ _ Hg) as Hlt. set (g1 := GPage ph (page_kind g)) in *.
  destruct (flush_page junk _ g Hp) as (ph1' & E1 & _ & _ & Hgeo1). rewrite Hflush in E1. injection E1 as <-. assert (same_geometry (head g) ph) as Hgeo by (etrans; [exact Hgeo1|apply Htk]).
  assert (e = in_epoch s -> tpage g /\ taken (head g) ph bid) as Hprep.
  { intros ->. pose proof (cycle_tpage s i g Hc He Hg) as Ht. split; [done|]. pose proof (flush_prepared g ph1 Ht Hflush) as Eg. rewrite <- Eg. exact Htk. }
  destruct (gc_incremental_allocated_spec junk (in_epoch s) (Prep (<[i := g1]> (in_pages s)) (in_epochs s) (in_own s)) i g1 e (GC_PID_PART pid) bid) as (g' & own & E & Hown & Hmarked);
    [apply (apart_insert_geometry _ i g); [done|by apply (same_geometry_page g g1)|apply (ru_structured _ Hrun)]|cbn; by rewrite list_lookup_insert_eq|done|exact Hph|exact (tk_new _ _ _ Htk)|done|intros Ee; destruct (Hprep Ee); by apply (taken_tpage (GC_PID_PART pid) g ph bid)|].
  change (gaddr g1 bid) with (base ph + bid * block_size ph) in E. cbn [pp_pages pp_epochs pp_own] in E, Hown. rewrite E. cbn [mbind outcome_bind]. eexists. split; [done|].
  pose proof Hmarked as ([b Eg'] & Ht' & Hmb & Hbits). split.
  { exists i, g', bid. unfold in_pages. cbn. rewrite list_insert_insert_eq, list_lookup_insert_eq by done. split; [done|]. subst g'. split; [exact (tk_new _ _ _ Htk)|done]. }
  intros Hwr. rewrite list_insert_insert_eq. fold (page_changed s i g' (in_epoch s) own).
  assert (forall a, has_word g' bid a -> Z.quot a os_page ∈ in_soft s) as Hsoft.
  { intros a Hw. apply Hwr. rewrite Hbytes in Hn. injection Hn as <-. subst g'. change (gaddr g1 bid <= a < gaddr g1 bid + block_bytes (head g1) bid). apply (has_word_written _ g1 bid a _ Hph (tk_new _ _ _ Htk) eq_refl). exact Hw. }
  apply (allocated_cycle s i g g' bid own Hc Hg).
  - intros pid' l' Hl' Hi' _. rewrite (si_once _ _ _ _ (ru_structured _ Hrun) pid pid' l l' i Hl Hl' Hi Hi'). subst g'. destruct (ir_bmp _ (tp_ready _ Ht')) as (b2 & Eb2 & Hlb & Hbb & _). injection Eb2 as <-. apply ipage_set_bmp; [done| |done|done].
    pose proof (ipage_range g1 _ Hph) as (Hrg & _). destruct (bmp_bytes_spec (head g1) ltac:(lia)). fold (bmp_bytes (head g1)). change (bmp_bytes (head (set_bmp g1 b))) with (bmp_bytes (head g1)) in Hlb. lia.
  - subst g'. destruct Hgeo. by split.
  - exact Hown.
  - intros Hpr. assert (e = in_epoch s) as Ee by (unfold is_prepared in Hpr; congruence). destruct (Hprep Ee) as [Ht Htk']. apply (allocated_of g ph g' bid Ht Htk'). split; [by exists b|]. split; [done|]. split; [done|]. intros k Hk Hkn. rewrite Hbits by done. by destruct (decide (e = in_epoch s)).
  - intros Hpr. apply (new_marks_blank _ g1 g' bid); [|subst g'; exact (tk_new _ _ _ Htk)|done]. split; [by exists b|]. split; [done|]. split; [done|]. intros k Hk Hkn. rewrite Hbits by done. destruct (decide (e = in_epoch s)) as [->|]; [|done]. done.
  - exact Hsoft.
Qed.

(** ** Allocation in a new page *)
Lemma new_taken_tpage nb part ph bid k : new_taken nb part ph bid -> tpage (GPage ph k) /\ forall j, 0 <= j -> j <> bid -> gbit (GPage ph k) j = false.
Proof.
  intros [Hp Hn Hv Hu (b & Eb & Hl & Hbytes & Hm) _]. split; [split; [exists part; apply Hp|split; [done|]]|].
  - exists b. split; [done|]. split; [done|]. split; [done|]. unfold marks_ok. destruct (sizes (head (GPage ph k))) as [s|] eqn:Es; [|done]. cbn in Es. intros q Hq Hqm. pose proof (ipage_range _ part (Hp k)) as (Hr & _). cbn in Hr, Hq. rewrite (Hm q ltac:(lia) Hqm). destruct Hv as [_ Hv]. by apply Hv.
  - intros j Hj Hne. unfold gbit. cbn [head]. rewrite Eb. apply not_true_iff_false. intros Hj'. by apply Hne, Hm.
Qed.
Section new_page.
Context (s : inc_state) (pid : Z) (l : list nat) (g : gpage).
Hypothesis Hl : aget (in_lists s) pid = Some l.
(** The state with the page in front of its list. *)
Definition page_added (own : list bool) : inc_state :=
  let dq := in_dirty s in
  let s := with_pages s (Prep (in_pages s ++ [g]) (in_epochs s ++ [in_epoch s]) own) in
  Inc (in_tracer s) (in_epochs s) (in_own s) (<[Z.to_nat pid := (length (in_pages s) - 1)%nat :: l]> (in_lists s)) (in_mem s) (in_soft s) (in_barrier s)
    (Dirty (dq_flags dq ++ [false]) (dq_incoming dq) (dq_batch dq) (dq_count dq)) (in_rescan s) (in_walk s) (in_pid s) (in_cursor s) (in_active s) (in_preparing s) (in_discovering s) (in_epoch s).
Abbreviation lists' := (<[Z.to_nat pid := length (in_pages s) :: l]> (in_lists s)).
Lemma lists_added pid' l' : aget lists' pid' = Some l' -> pid' = pid /\ l' = length (in_pages s) :: l \/ pid' <> pid /\ aget (in_lists s) pid' = Some l'.
Proof using Hl.
  pose proof (aget_Some_range _ _ _ Hl) as Hr. destruct (decide (pid' = pid)) as [->|Hne]; [rewrite aget_insert_eq by done; intros [= <-]; by left|rewrite aget_insert_ne by lia || done; by right].
Qed.
Lemma drop_lists_added k i : i ∈ concat (drop k (in_lists s)) -> i ∈ concat (drop k lists').
Proof using Hl.
  pose proof (aget_Some_range _ _ _ Hl) as Hr. rewrite aget_lookup in Hl by lia. rewrite !list_elem_of_In, !in_concat. intros (m & Hm & Hi). apply list_elem_of_In in Hm. apply list_elem_of_In in Hi. apply list_elem_of_lookup_1 in Hm as [q Hq]. rewrite lookup_drop in Hq.
  destruct (decide (k + q = Z.to_nat pid)%nat) as [E|Hne].
  - exists (length (in_pages s) :: l). rewrite <- !list_elem_of_In. split; [|right; congruence]. apply (list_elem_of_lookup_2 _ q). rewrite lookup_drop, E. apply list_lookup_insert_eq. unfold alen in Hr. lia.
  - exists m. rewrite <- !list_elem_of_In. split; [|done]. apply (list_elem_of_lookup_2 _ q). by rewrite lookup_drop, list_lookup_insert_ne.
Qed.
Lemma running_added own : running s -> ipage (GC_PID_PART pid) g -> apart_pages (in_pages s ++ [g]) -> length own = S (length (in_own s)) -> running (page_added own).
Proof using Hl.
  intros [[H1 H2 H3 H4 H5 [H6 H7]] Hact Hd [Hw Hsp]] Hg Ha Ho. unfold page_added. cbn [with_pages with_prepared in_lists in_tracer in_epochs in_own tr_pages pp_pages pp_epochs pp_own in_epoch in_mem].
  replace (length _ - 1)%nat with (length (in_pages s)) by (unfold in_pages; cbn; rewrite length_app; cbn; lia).
  assert (forall i, (i < length (in_pages s))%nat -> (in_pages s ++ [g]) !! i = in_pages s !! i) as Hold by (intros i Hi; by apply lookup_app_l).
  assert ((in_pages s ++ [g]) !! length (in_pages s) = Some g) as Hnew by (rewrite lookup_app_r, Nat.sub_diag by done; done).
  assert (forall pid' l' i, aget (in_lists s) pid' = Some l' -> i ∈ l' -> (i < length (in_pages s))%nat) as Hlt by (intros pid' l' i Hl' Hi; destruct (H2 pid' l' i Hl' Hi) as (h & Hh & _); by apply lookup_lt_Some in Hh).
  split; [|done| |].
  - unfold structured, in_pages. cbn. fold (in_pages s). split.
    + by rewrite alen_insert.
    + intros pid' l' i [[-> ->]|[Hne Hl']]%lists_added Hi; [apply elem_of_cons in Hi as [->|Hi]; [by exists g|]|].
      * destruct (H2 pid l i Hl Hi) as (h & Hh & Hp). exists h. by rewrite Hold by by apply (Hlt pid l).
      * destruct (H2 pid' l' i Hl' Hi) as (h & Hh & Hp). exists h. by rewrite Hold by by apply (Hlt pid' l').
    + intros p1 p2 l1 l2 i [[-> ->]|[N1 L1]]%lists_added [[-> ->]|[N2 L2]]%lists_added I1 I2; [done| | |by apply (H3 p1 p2 l1 l2 i)].
      * apply elem_of_cons in I1 as [->|I1]; [specialize (Hlt _ _ _ L2 I2); lia|by apply (H3 pid p2 l l2 i)].
      * apply elem_of_cons in I2 as [->|I2]; [specialize (Hlt _ _ _ L1 I1); lia|by apply (H3 p1 pid l1 l i)].
    + intros i. rewrite length_app. cbn [length]. intros Hi. pose proof (aget_Some_range _ _ _ Hl) as Hr. destruct (decide (i = length (in_pages s))) as [->|Hne].
      * exists pid, (length (in_pages s) :: l). rewrite aget_insert_eq by done. split; [done|by left].
      * destruct (H4 i) as (p & m & Hm & Hin); [lia|]. destruct (decide (p = pid)) as [->|Hp]; [exists pid, (length (in_pages s) :: l); rewrite aget_insert_eq by done; split; [done|right; congruence]|exists p, m; by rewrite aget_insert_ne by lia || done].
    + done.
    + rewrite !length_app. cbn [length]. lia.
  - unfold in_n, in_pages. cbn. fold (in_pages s). rewrite length_app. destruct Hd as [D1 D2 D3 D4]. split; [cbn; rewrite length_app; unfold in_n in D1; cbn; lia|done| |done]. cbn [dq_flags]. intros i. unfold queued_pages in *. cbn [dq_incoming dq_batch]. rewrite <- D3. split.
    + intros [?|[_ E]]%lookup_app_Some; [done|]. apply list_lookup_singleton_Some in E as [_ ?]. done.
    + intros E. by apply lookup_app_l_Some.
  - split; [|done]. unfold in_pages. cbn. fold (in_pages s). apply (walk_ok_pages (in_pages s)); [done|rewrite length_app; lia|]. intros i h Hi Hh. rewrite Hold in Hh by done. by exists h.
Qed.
Lemma cycle_added own bid : cycle s -> ipage (GC_PID_PART pid) g -> apart_pages (in_pages s ++ [g]) -> length own = S (length (in_own s)) -> tpage g -> (forall k, 0 <= k -> k <> bid -> gbit g k = false) -> valid (head g) bid -> gbit g bid = true ->
  (forall r, valid (head g) r -> is_free (head g) r = false -> r = bid) -> (forall a, has_word g bid a -> Z.quot a os_page ∈ in_soft s) -> cycle (page_added own).
Proof using Hl.
  intros Hc Hg Ha Ho Ht Hbits Hv Hb Hused Hw. pose proof (running_added own (cycle_running s Hc) Hg Ha Ho) as Hr. pose proof (si_len _ _ _ _ (ru_structured _ (cycle_running s Hc))) as [Hlen _].
  assert (in_pages (page_added own) = in_pages s ++ [g]) as Ep by done.
  assert (in_lists (page_added own) = lists') as El by (unfold page_added; cbn [in_lists with_pages with_prepared]; unfold in_pages; cbn; fold (in_pages s); rewrite length_app; cbn [length]; by replace (length (in_pages s) + 1 - 1)%nat with (length (in_pages s)) by lia).
  destruct Hc as [[_ Hph Hid Hp Hleft]|[_ Hph Hp (Hi & Hd & Hrs & Hn)]].
  - left. split; [done|done|done| |].
    + intros i h Hip Hh. rewrite Ep in Hh. apply snoc_lookup in Hh as [Hh|[-> ->]].
      * apply (Hp i h); [|done]. unfold is_prepared in *. cbn in Hip. rewrite lookup_app_l in Hip by (apply lookup_lt_Some in Hh; lia). done.
      * apply (new_marks_blank _ g g bid); [|done|done]. split; [destruct (ir_bmp _ (tp_ready _ Ht)) as (b & Eb & _); exists b; unfold set_bmp; rewrite <- Eb; by destruct g as [[] ?]|]. split; [done|]. split; [done|]. exact Hbits.
    + destruct Hleft as (H1 & H2 & H3). unfold in_n in *. rewrite Ep, El, length_app. cbn [length]. split; [done|]. split; [intros i Hi; specialize (H2 i Hi); lia|]. intros i Hi. unfold is_prepared in *. cbn [page_added with_pages with_prepared in_epochs in_epoch in_cursor in_pid pp_epochs].
      destruct (decide (i = length (in_pages s))) as [->|Hne]; [left; rewrite lookup_app_r by lia; by rewrite Hlen, Nat.sub_diag|]. destruct (H3 i ltac:(lia)) as [He|[Hin|Hin]%elem_of_app]; [left; by apply lookup_app_l_Some|right; apply elem_of_app; by left|right; apply elem_of_app; right; by apply drop_lists_added].
  - right. split; [done|done| |].
    + intros i. unfold in_n, is_prepared in *. rewrite Ep, length_app. cbn [length]. intros Hi'. cbn [page_added with_pages with_prepared in_epochs in_epoch pp_epochs]. destruct (decide (i = length (in_pages s))) as [->|Hne]; [rewrite lookup_app_r by lia; by rewrite Hlen, Nat.sub_diag|apply lookup_app_l_Some, Hp; lia].
    + destruct (tinv_new _ _ _ _ _ _ _ g bid Hi Ht Ha Hbits Hv Hb Hused) as [Hi1 _]; [intros a Hwa; left; right; by apply Hw|]. split; [exact Hi1|]. split; [exact (ru_dirty _ Hr)|]. split; [|done].
      intros i Hip. destruct (Hrs i Hip) as (h & Hh & Hbd). exists h. split; [|done]. by apply lookup_app_l_Some.
Qed.
End new_page.
Lemma alloc_new_spec s pid num nb r n : cycle s -> request_valid r -> 0 <= pid < GC_PAGE_SLOTS -> 0 <= num -> GC_PID_PART pid = request_part r -> fresh_memory (in_pages s) nb -> request_bytes r = Some n ->
  exists s' ptr, alloc_new junk s pid num nb r = Done (s', ptr) /\ marked_object s' ptr /\ (written os_page (in_soft s) ptr n -> cycle s').
Proof.
  intros Hc Hr Hpid Hnum Hpart Hmem Hn. pose proof (cycle_running s Hc) as Hrun. destruct (aget_is_Some (in_lists s) pid) as [l Hl]; [by rewrite (si_slots _ _ _ _ (ru_structured _ Hrun))|]. destruct (take_new_spec junk num nb (in_pages s) Hnum Hmem r Hr) as (ph & bid & Ht & Hnew & Hbytes).
  unfold alloc_new. rewrite Ht. cbn [mbind outcome_bind]. rewrite Hl. cbn [ub mbind outcome_bind]. rewrite aset_Some by by apply aget_Some_range in Hl. cbn [ub mbind outcome_bind].
  set (g0 := GPage ph (Z.land pid 3)). destruct (new_taken_tpage nb _ ph bid (Z.land pid 3) Hnew) as [Htp Hbits0]. pose proof (si_len _ _ _ _ (ru_structured _ Hrun)) as [Hlen1 Hlen2].
  assert (apart_pages (in_pages s ++ [g0])) as Ha.
  { unfold apart_pages. rewrite fmap_app. apply pairwise_app; [apply _|]. split; [apply (ru_structured _ Hrun)|]. split; [done|]. intros x y Hx Hy. apply list_elem_of_fmap in Hx as (g & -> & Hg). apply list_elem_of_singleton in Hy as ->. destruct (nt_base _ _ _ _ Hnew) as [Eb Hsz].
    destruct (Hmem (page_size ph) Hsz) as (_ & _ & _ & Hd). destruct (Hd g Hg); unfold apart, place; cbn; lia. }
  assert ((in_pages s ++ [g0]) !! length (in_pages s) = Some g0) as Hlast by (rewrite lookup_app_r, Nat.sub_diag by done; done).
  destruct (gc_incremental_allocated_spec junk (in_epoch s) (Prep (in_pages s ++ [g0]) (in_epochs s ++ [in_epoch s]) (in_own s ++ [true])) (length (in_pages s)) g0 (in_epoch s) (request_part r) bid Ha Hlast) as (g' & own & E & Hown & Hset & Ht' & Hb & Hbits);
    [cbn; rewrite lookup_app_r by lia; by rewrite Hlen1, Nat.sub_diag|apply Hnew|apply Hnew|apply Hnew|done|].
  change (gaddr g0 bid) with (base ph + bid * block_size ph) in E. cbn [pp_pages pp_epochs pp_own] in E, Hown. rewrite E. cbn [mbind outcome_bind].
  rewrite insert_app_r_alt, Nat.sub_diag by done. replace (<[length (in_pages s) := in_epoch s]> (in_epochs s ++ [in_epoch s])) with (in_epochs s ++ [in_epoch s]) by (rewrite insert_app_r_alt by lia; rewrite Hlen1, Nat.sub_diag; done).
  change (<[0%nat := g']> [g0]) with [g']. eexists _, _. split; [reflexivity|]. split.
  { exists (length (in_pages s)), g', bid. unfold in_pages at 1. cbn. rewrite lookup_app_r, Nat.sub_diag by done. split; [done|]. destruct Hset as [b ->]. split; [exact (nt_valid _ _ _ _ Hnew)|done]. }
  intros Hwr.
  assert (cycle (page_added s pid l g' own)) as Hcy.
  { destruct Hset as [b ->]. apply (cycle_added s pid l _ Hl own bid Hc).
    - destruct (ir_bmp _ (tp_ready _ Ht')) as (b2 & Eb2 & Hlb & Hbb & _). injection Eb2 as <-. rewrite Hpart. apply ipage_set_bmp; [apply Hnew| |done|apply Hnew]. pose proof (ipage_range g0 _ (nt_page _ _ _ _ Hnew _)) as (Hrg & _). destruct (bmp_bytes_spec (head g0) ltac:(lia)). fold (bmp_bytes (head g0)). change (bmp_bytes (head (set_bmp g0 b))) with (bmp_bytes (head g0)) in Hlb. lia.
    - unfold apart_pages in *. rewrite fmap_app in *. exact Ha.
    - rewrite Hown, length_app. cbn. lia.
    - exact Ht'.
    - intros k Hk Hne. rewrite Hbits by done. destruct (decide (in_epoch s = in_epoch s)); [|done]. by apply Hbits0.
    - exact (nt_valid _ _ _ _ Hnew).
    - exact Hb.
    - exact (nt_used _ _ _ _ Hnew).
    - intros a Hw. apply Hwr. rewrite Hbytes in Hn. injection Hn as <-. apply (has_word_written (request_part r) g0 bid a _ (nt_page _ _ _ _ Hnew _) (nt_valid _ _ _ _ Hnew) eq_refl). exact Hw. }
  unfold page_added in Hcy. cbn [with_pages with_prepared in_lists in_tracer in_epochs in_own tr_pages pp_pages pp_epochs pp_own in_epoch in_mem in_soft in_barrier in_dirty in_rescan in_walk in_pid in_cursor in_active in_preparing in_discovering] in Hcy |- *.
  replace (length _ - 1)%nat with (length (in_pages s)) in Hcy by (unfold in_pages; cbn; rewrite length_app; cbn; lia). exact Hcy.
Qed.

(** Whatever the program does between two slices, the invariant holds. *)
Lemma mutate_cycle s s' : cycle s -> mutate junk os_page s s' -> cycle s'.
Proof.
  intros Hc [mem soft Hm Hs|address bytes dq Ha _ E|i g ph Hg _ E|pid l i r s2 ptr n Hr Hl Hi Hp Hn E Hw|pid num nb r s2 ptr n Hr Hpid Hnum Hp Hm Hn E Hw].
  - by apply write_cycle.
  - by apply (barrier_cycle s address bytes).
  - by apply (flush_cycle s i g).
  - destruct (alloc_old_spec s pid l i r n Hc Hr Hl Hi Hp Hn) as (res & E' & H). rewrite E in E'. injection E' as <-. by apply H.
  - destruct (alloc_new_spec s pid num nb r n Hc Hr Hpid Hnum Hp Hm Hn) as (s3 & ptr' & E' & H). rewrite E in E'. injection E' as <- <-. by apply H.
Qed.
End cycle.
