(* ===== verification/IncrementalCycle.v ===== *)
(** * Slices of a cycle

    Each slice keeps the invariant of the cycle: a start, a slice of preparing pages, a slice of
    capturing what was written, a slice of tracing. *)
From S2P Require Import Prelude PageMap Allocator AllocatorPage AllocatorAlloc AllocatorHeap AllocatorMark AllocatorProps Marking MarkingSound Incremental IncrementalPages IncrementalTrace IncrementalDrain IncrementalDirty IncrementalAlloc IncrementalSound.

(** ** The flags of the pages *)
Lemma clear_flags_spec lists flags : length (clear_flags lists flags) = length flags /\ forall i, i ∈ concat lists -> clear_flags lists flags !! i <> Some true.
Proof.
  unfold clear_flags. revert flags. induction (concat lists) as [|i l IH]; intros flags; [split; [done|by intros i ?%elem_of_nil]|]. cbn [foldl]. destruct (IH (<[i := false]> flags)) as [Hl Hf]. split; [by rewrite Hl, length_insert|].
  intros j [->|Hj]%elem_of_cons; [|by apply Hf]. destruct (decide (i ∈ l)) as [|Hnot]; [by apply Hf|]. clear IH Hl Hf. assert (forall f : list bool, foldl (fun f i => <[i := false]> f) f l !! i = f !! i) as ->.
  { induction l as [|k l IHl]; intros f; [done|]. apply not_elem_of_cons in Hnot as [Hne Hnot]. cbn [foldl]. rewrite IHl by done. by rewrite list_lookup_insert_ne. }
  destruct (decide (i < length flags)%nat); [by rewrite list_lookup_insert_eq|]. rewrite lookup_ge_None_2; [done|]. rewrite length_insert. lia.
Qed.
Lemma no_flags n flags : length flags = n -> (forall i, flags !! i <> Some true) -> dinv n (Dirty flags [] [] 0).
Proof. intros Hl Hf. split; [done|apply NoDup_nil_2| |done]. intros i. split; [intros Hi; by destruct (Hf i)|by intros ?%elem_of_nil]. Qed.

Section cycle.
Context (junk : gc_fl) (os_page : Z).
Hypothesis Hos : 0 < os_page /\ GC_PAGE_SIZE mod os_page = 0.

(** ** The start *)
(** Between cycles: the tracer is idle and no page has the epoch of the next cycle. *)
Record startable (s : inc_state) : Prop := Startable {
  sb_structured : structured s;
  sb_idle : in_active s = false /\ in_discovering s = false /\ idle_tracer (in_tracer s) (in_rescan s);
  sb_flags : length (dq_flags (in_dirty s)) = in_n s;
  sb_epochs : 0 <= in_epoch s < 2 ^ 64 - 1 /\ forall e, e ∈ in_epochs s -> e <= in_epoch s }.
Lemma begin_spec works s now : startable s -> exists s', inc_begin works s now = Done (s', S now, works now) /\ preparing os_page s' /\ structured s' /\ in_pages s' = in_pages s.
Proof.
  intros [Hst (Ha & Hd & Hid) Hf [He Hes]]. unfold inc_begin. assert (u64 (in_epoch s + 1) = in_epoch s + 1) as -> by (apply uN_small; lia).
  destruct (Z.eqb_spec (in_epoch s + 1) 0); [lia|]. eexists. split; [done|]. split; [|split; [exact Hst|done]]. split.
  - split; [exact Hst|done| |].
    + destruct (clear_flags_spec (in_lists s) (dq_flags (in_dirty s))) as [Hl Hc]. apply no_flags; [by rewrite Hl|]. intros i E. destruct (Hc i) as []; [|exact E]. apply (in_some_list _ _ _ _ Hst). apply lookup_lt_Some in E. unfold in_n in Hf. lia.
    + by apply (reset_ok os_page (in_pages s)).
  - done.
  - done.
  - intros i g Hi. exfalso. apply list_elem_of_lookup_2 in Hi. apply Hes in Hi. cbn in Hi. lia.
  - change (in_pid _) with 0. split; [change GC_PAGE_SLOTS with 648; lia|]. split; [by intros i ?%elem_of_nil|]. intros i Hi. right. cbn. rewrite drop_0. by apply (in_some_list _ _ _ _ Hst).
Qed.

(** ** Preparing pages *)
Definition at_prepared (s : inc_state) (p : prepared) (pid : Z) (cursor : list nat) : inc_state := with_prepared s p pid cursor true.
Definition all_prepared (s : inc_state) : Prop := forall i, (i < in_n s)%nat -> is_prepared s i.
Lemma preparing_moved s pid cursor : preparing os_page s -> 0 <= pid <= GC_PAGE_SLOTS -> (forall i, i ∈ cursor -> (i < in_n s)%nat) ->
  (forall i, i ∈ in_cursor s ++ concat (drop (Z.to_nat (in_pid s)) (in_lists s)) -> is_prepared s i \/ i ∈ cursor ++ concat (drop (Z.to_nat pid) (in_lists s))) ->
  preparing os_page (at_prepared s (in_prepared s) pid cursor).
Proof.
  intros [Hr Hph Hid Hp (H1 & H2 & H3)] Hpid Hc Hleft. split; [destruct Hr; by split|by destruct Hph|done|exact Hp|]. split; [done|]. split; [exact Hc|]. intros i Hi. destruct (H3 i Hi) as [?|Hin]; [by left|]. by apply Hleft.
Qed.
Lemma at_own s : in_preparing s = true -> at_prepared s (in_prepared s) (in_pid s) (in_cursor s) = s.
Proof. destruct s as [[] ? ? ? ? ? ? ? ? ? ? ? ? ? ? ?]. cbn. by intros ->. Qed.
(** The page of the cursor. *)
Lemma prepare_page_step s i rest : preparing os_page s -> in_cursor s = i :: rest -> exists p, gc_inc_prepare_page junk (in_epoch s) (in_prepared s) i = Some p /\ preparing os_page (at_prepared s p (in_pid s) rest).
Proof.
  intros Hp Ec. pose proof Hp as [Hr [Hph Hdc] Hid Hpg (H1 & H2 & H3)]. destruct (lookup_lt_is_Some_2 (in_pages s) i) as [g Hg]; [apply H2; rewrite Ec; by left|].
  destruct (sinv_epoch _ _ _ _ (ru_structured _ _ Hr) i g Hg) as [e He]. destruct (sinv_page _ _ _ _ (ru_structured _ _ Hr) i g Hg) as (pid & l & Hl & Hi & Hpart).
  destruct (gc_inc_prepare_page_spec junk (in_epoch s) (in_prepared s) i g e (GC_PID_PART pid) Hg He Hpart) as (g' & own & E & Hown & Hcase). exists (Prep (<[i := g']> (in_pages s)) (<[i := in_epoch s]> (in_epochs s)) own). split; [exact E|].
  assert (ipage (GC_PID_PART pid) g' /\ same_geometry (head g) (head g') /\ new_marks os_page (in_soft s) g') as (Hp' & Hgeo & Hnew).
  { destruct (decide (e = in_epoch s)) as [->|Hne]; [subst g'; split; [done|]; split; [done|]; by apply (Hpg i)|]. destruct Hcase as (Ha & [Ht Hb] & Hgeo & _). split; [done|]. split; [done|]. split; [done|]. split; [intros r _; apply Hb|]. intros r a _ Hm. by rewrite Hb in Hm. }
  assert (preparing os_page (page_changed s i g' (in_epoch s) own)) as Hc.
  { apply (preparing_change os_page s i g); try done. intros pid' l' Hl' Hi' _. by rewrite (si_once _ _ _ _ (ru_structured _ _ Hr) pid pid' l l' i Hl Hl' Hi Hi'). }
  assert (at_prepared s (Prep (<[i := g']> (in_pages s)) (<[i := in_epoch s]> (in_epochs s)) own) (in_pid s) rest = at_prepared (page_changed s i g' (in_epoch s) own) (in_prepared (page_changed s i g' (in_epoch s) own)) (in_pid s) rest) as -> by done.
  apply preparing_moved; [done|done| |].
  - intros j Hj. unfold in_n. cbn. rewrite length_insert. apply H2. rewrite Ec. by right.
  - cbn [page_changed with_pages with_prepared in_cursor in_pid in_lists]. rewrite Ec. intros j [->|Hj]%elem_of_cons; [left|by right]. unfold is_prepared. cbn. apply list_lookup_insert_eq. by apply lookup_lt_Some in He.
Qed.
Definition prepared_to (late : nat -> bool) (s : inc_state) (r : Z * list nat * prepared * nat * bool) : Prop :=
  let '(pid, cursor, p, _, done_) := r in preparing os_page (at_prepared s p pid cursor) /\ (done_ = true -> all_prepared (at_prepared s p pid cursor)) /\ (on_time late -> done_ = true).
Lemma gc_inc_prepare_slice_spec late s now : preparing os_page s -> exists r, gc_inc_prepare_slice junk late (in_lists s) (in_epoch s) (in_pid s) (in_cursor s) (in_prepared s) now = Some r /\ prepared_to late s r.
Proof.
  intros Hp. pose proof Hp as [Hr [Hph _] _ _ (Hpid & _)]. destruct (sinv_lists _ _ _ _ (ru_structured _ _ Hr)) as [Hlen Hls].
  apply (loop_total (prepare_step junk late (in_lists s) (in_epoch s)) (fun '(pid, cursor, p, _) => preparing os_page (at_prepared s p pid cursor)) (prepared_to late s)
    (fun '(pid, cursor, _, _) => Z.to_nat (GC_PAGE_SLOTS - pid) + length cursor + length (concat (drop (Z.to_nat pid) (in_lists s))))%nat).
  - intros [[[pid cursor] p] nw] Hc. pose proof (pr_left _ _ Hc) as (Hpd & Hcur & Hleft). change (in_pid _) with pid in Hpd, Hleft. change (in_lists _) with (in_lists s) in Hleft. change (in_cursor _) with cursor in Hcur, Hleft. unfold prepare_step. destruct cursor as [|i rest].
    + destruct (Z.ltb_spec pid GC_PAGE_SLOTS) as [Hlt|Hge].
      * left. destruct (aget_is_Some (in_lists s) pid) as [l Hl]; [lia|]. rewrite Hl. cbn [mbind option_bind]. eexists. split; [done|]. rewrite aget_lookup in Hl by lia.
        assert (concat (drop (Z.to_nat pid) (in_lists s)) = l ++ concat (drop (Z.to_nat (pid + 1)) (in_lists s))) as Econ by (rewrite (drop_S _ _ _ Hl); by replace (Z.to_nat (pid + 1)) with (S (Z.to_nat pid)) by lia).
        split; [|rewrite Econ, length_app; cbn [length]; lia].
        change (at_prepared s p (pid + 1) l) with (at_prepared (at_prepared s p pid []) (in_prepared (at_prepared s p pid [])) (pid + 1) l). apply preparing_moved; [done|lia| |].
        -- intros j Hj. pose proof (ru_structured _ _ (pr_running _ _ Hc)) as Hst. apply (in_some_list _ _ _ _ Hst). rewrite list_elem_of_In, in_concat. exists l. rewrite <- !list_elem_of_In. split; [by apply list_elem_of_lookup_2 in Hl|done].
        -- intros j Hj. right. change (in_cursor _) with (@nil nat) in Hj. change (in_pid _) with pid in Hj. change (in_lists _) with (in_lists s) in Hj |- *. rewrite Econ in Hj. exact Hj.
      * right. eexists. split; [done|]. split; [done|]. split; [|done]. intros _ i Hi. destruct (Hleft i Hi) as [?|Hin]; [done|]. rewrite drop_ge in Hin by (unfold alen in Hlen; lia). by apply elem_of_nil in Hin.
    + destruct (prepare_page_step (at_prepared s p pid (i :: rest)) i rest Hc eq_refl) as (p' & E & Hp'). change (in_epoch _) with (in_epoch s) in E. assert (in_prepared (at_prepared s p pid (i :: rest)) = p) as Ep by by destruct p. rewrite Ep in E. rewrite E. cbn [mbind option_bind].
      change (at_prepared (at_prepared s p pid (i :: rest)) p' (in_pid (at_prepared s p pid (i :: rest))) rest) with (at_prepared s p' pid rest) in Hp'. destruct (late nw) eqn:El.
      * right. eexists. split; [done|]. split; [done|]. split; [done|]. intros Hot. by rewrite Hot in El.
      * left. eexists. split; [done|]. split; [done|]. cbn [length]. lia.
  - by rewrite at_own.
  - assert (length (concat (drop (Z.to_nat (in_pid s)) (in_lists s))) <= length (concat (in_lists s)))%nat; [|change GC_PAGE_SLOTS with 648 in *; lia]. rewrite <- (take_drop (Z.to_nat (in_pid s)) (in_lists s)) at 2. rewrite concat_app, length_app. lia.
Qed.
(** When every page is prepared marking starts: nothing is marked but new objects, which are in pages written to. *)
Lemma start_tracing s p pid cursor : preparing os_page (at_prepared s p pid cursor) -> all_prepared (at_prepared s p pid cursor) -> tracing os_page (with_prepared s p pid cursor false).
Proof.
  intros [Hr [_ Hd] [Hid Hb] Hp _] Hall. split; [destruct Hr; by split|cbn in Hd |- *; by rewrite Hd|exact Hall|]. destruct Hid as (Hst & Hbk & Hcu & Hrs). pose proof (ru_structured _ _ Hr) as Hstr.
  assert (forall i g, pp_pages p !! i = Some g -> new_marks os_page (in_soft s) g) as Hnew by (intros i g Hg; apply (Hp i g); [apply Hall; by apply lookup_lt_Some in Hg|done]).
  split; [|split; [exact (ru_dirty _ _ Hr)|split; [|done]]].
  - unfold tinvt. change (tr_pages _) with (pp_pages p). change (tr_stack (in_tracer s) = []) in Hst. change (tr_block (in_tracer s) = 0) in Hbk. change (tr_cursor (in_tracer s) = 0) in Hcu. cbn [with_prepared in_tracer tr_stack tr_block tr_cursor tr_end]. rewrite Hst, Hbk, Hcu. split.
    + apply Forall_lookup_2. intros i g Hg. apply (Hnew i g Hg).
    + apply Hstr.
    + by intros q ?%elem_of_nil.
    + by left.
    + intros i g r Hg Hr' Hq. destruct (Hnew i g Hg) as (_ & Hn & _). by rewrite Hn in Hq.
    + intros i g r a (Hg & Hv & Hm & _) Hw. left. right. right. left. right. by apply (Hnew i g Hg) with (r := r).
  - intros i E. change (rs_page (in_rescan s) = Some i) in E. change (rs_page (in_rescan s) = None) in Hrs. congruence.
Qed.

(** ** Capturing *)
Lemma structured_walk s : structured s -> (forall i g, in_pages s !! i = Some g -> exists part, ipage part g).
Proof. intros Hst i g Hg. by apply (sinv_ipage _ _ _ _ Hst i). Qed.
(** The words of a scanned block are in its page. *)
Lemma scanned_word_in ps i g r a : Forall tpage ps -> scanned ps i g r -> has_word g r a -> ps !! i = Some g /\ MEM_HAS_PTR (page_kind g) = true /\ base (head g) <= a < base (head g) + page_size (head g).
Proof.
  intros Hps (Hg & Hv & _ & Hk) Hw. destruct (tp_page _ (tpages_at _ _ _ Hps Hg)) as [part Hp]. split; [done|]. split; [done|]. pose proof (has_word_written part g r a _ Hp Hv eq_refl Hw). destruct (block_bytes_in g part Hp r Hv) as (_ & Hend & _). pose proof (ipage_range g part Hp). destruct Hv as [Hv _]. unfold gaddr in *. nia.
Qed.
(** Nothing outside the tracer is left to look at. *)
Definition no_outside (s : inc_state) : Prop := forall i r a, ~ outside os_page s i r a.
Definition captured_to (late works : nat -> bool) (s : inc_state) (r : inc_state * nat * bool * bool) : Prop :=
  let '(s', _, ok, captured) := r in structured s' /\ in_active s' = true /\ in_lists s' = in_lists s /\ in_mem s' = in_mem s /\ in_tracer s' = in_tracer s /\
    (ok = true -> tracing os_page s' /\ in_discovering s' = negb captured /\ (captured = true -> no_outside s')) /\
    (on_time late -> readable works os_page (in_pages s) -> ok = true /\ captured = true).
Lemma gc_inc_capture_slice_spec late works s now : tracing os_page s -> dq_batch (in_dirty s) = [] -> exists r, gc_inc_capture_slice os_page late works s now = Done r /\ captured_to late works s r.
Proof.
  intros [[Hst [Hact Hbar] Hd [Hw Hsp]] [Hph Hdisc] Hprep (Hi & _ & Hrs & Hn)] Hb. unfold gc_inc_capture_slice.
  destruct (gc_inc_collect_dirty_spec late works os_page (in_soft s) (in_lists s) (in_pages s) Hos (structured_walk s Hst) (sinv_lists _ _ _ _ Hst) (in_walk s) (in_dirty s) now Hw Hsp Hd) as ([[[[wk dq] nw] ok] captured] & -> & Hd' & Hb' & Hm & Hwk & Hclean & Hon).
  rewrite Hb in Hb'. cbn [ub mbind outcome_bind].
  assert (forall j, j ∈ dq_incoming (in_dirty s) -> j ∈ dq_incoming dq) as Hin.
  { intros j Hj. assert (j ∈ queued_pages dq) as Hq by (apply Hm, elem_of_app; by left). unfold queued_pages in Hq. by rewrite Hb', app_nil_r in Hq. }
  destruct (ok && captured) eqn:Ec.
  - apply andb_true_iff in Ec as [-> ->]. destruct (works nw) eqn:Ew.
    + destruct (gc_dirty_capture_done_spec _ dq Hd' Hb') as (dq2 & -> & Hd2 & Hin2 & Hb2). cbn [mbind outcome_bind]. eexists. split; [done|]. split; [exact Hst|]. split; [done|]. split; [done|]. split; [done|]. split; [done|]. split; [|done]. intros _.
      assert (no_outside (with_captured s ∅ dq2 wk false)) as Hno by (intros i r a [H|H]; [cbn in H; rewrite Hin2 in H; by apply elem_of_nil in H|by apply elem_of_empty in H]).
      split; [|done]. split; [split; [exact Hst|done|exact Hd2|exact (Hwk eq_refl)]|done|exact Hprep|]. split; [|done]. apply (tinv_outside _ _ _ _ _ _ _ _ Hi). intros i g r a Hs Hwd HO.
      assert (i ∈ dq_batch dq2 \/ (rs_page (in_rescan s) = Some i /\ rs_bid (in_rescan s) <= r)) as H; [|left; right; right; right; exact H]. rewrite Hb2. destruct HO as [[HO|HO]|[HO|HO]]; [left; by apply Hin| |by rewrite Hb in HO; apply elem_of_nil in HO|by right].
      left. destruct (scanned_word_in _ _ _ _ _ (ti_pages _ _ _ _ _ _ _ Hi) Hs Hwd) as (Hg & Hk & Ha). pose proof (Hclean eq_refl eq_refl i g Hg Hk a Ha HO) as Hq. unfold queued_pages in Hq. by rewrite Hb', app_nil_r in Hq.
    + eexists. split; [done|]. split; [exact Hst|]. split; [done|]. split; [done|]. split; [done|]. split; [done|]. split; [done|]. intros _ [Hwk' _]. by rewrite Hwk' in Ew.
  - eexists. split; [done|]. split; [exact Hst|]. split; [done|]. split; [done|]. split; [done|]. split; [done|]. split; [|intros H1 H2; destruct (Hon H1 H2) as [-> ->]; done]. intros ->. cbn in Ec. subst captured. split; [|done].
    split; [split; [exact Hst|done|exact Hd'|exact (Hwk eq_refl)]|by split|exact Hprep|]. split; [|done]. apply (tinv_outside _ _ _ _ _ _ _ _ Hi). intros i g r a Hs Hwd HO. left. right. right.
    destruct HO as [[HO|HO]|[HO|HO]]; [left; left; by apply Hin|left; by right|by rewrite Hb in HO; apply elem_of_nil in HO|right; by right].
Qed.

(** ** Tracing *)
Lemma sinv_grows lists ps ps' epochs own : sinv lists ps epochs own -> grows ps ps' -> Forall tpage ps' -> apart_pages ps' -> sinv lists ps' epochs own.
Proof.
  intros [H1 H2 H3 H4 H5 H6] [Hs _] Ht Ha. pose proof (Forall2_length _ _ _ Hs) as Hlen. split; [done| |done| |done|by rewrite <- Hlen].
  - intros pid l i Hl Hi. destruct (H2 pid l i Hl Hi) as (g & Hg & Hp). destruct (same_lookup _ _ i g Hs Hg) as (g' & Hg' & Hc). exists g'. split; [done|]. pose proof (tpages_at _ _ _ Ht Hg') as Htg. destruct Hc as [->|[b ->]]; [done|].
    destruct (ir_bmp _ (tp_ready _ Htg)) as (b' & Eb & Hlb & Hbb & _). injection Eb as <-. pose proof (ipage_range g _ Hp) as (Hr & _). destruct (bmp_bytes_spec (head g) ltac:(lia)). fold (bmp_bytes (head g)). change (bmp_bytes (head (set_bmp g b))) with (bmp_bytes (head g)) in Hlb.
    apply ipage_set_bmp; [done|fold (bmp_bytes (head g)); lia|done|exact (ir_flush _ (tp_ready _ Htg))].
  - intros i. rewrite <- Hlen. apply H4.
Qed.
Definition traced_to (late : nat -> bool) (roots : list Z) (s : inc_state) (r : inc_state * nat * bool) : Prop :=
  let '(s', _, done_) := r in tracing os_page s' /\ in_discovering s' = false /\ in_lists s' = in_lists s /\ in_mem s' = in_mem s /\ growst (in_tracer s) (in_tracer s') /\ (no_outside s -> no_outside s') /\
    (done_ = true -> dq_batch (in_dirty s') = [] /\ idle_tracer (in_tracer s') (in_rescan s') /\ forall w, w ∈ roots -> rooted (in_pages s') w) /\ (on_time late -> done_ = true).
Lemma trace_slice_spec late roots s now : tracing os_page s -> in_discovering s = false -> exists r, trace_slice late roots s now = Some r /\ traced_to late roots s r.
Proof.
  intros [[Hst Hact Hd [Hw Hsp]] [Hph Hdisc] Hprep Hb] Hnd. unfold trace_slice. destruct (gc_inc_trace_slice_spec (in_mem s) late (outside os_page s) (in_n s) roots _ _ _ now Hb) as ([[[[tr dq] rs] nw] done_] & -> & Hb' & Hgr & Hin & Hroots & Hdone & Hon). cbn [mbind option_bind].
  eexists. split; [done|]. pose proof Hb' as (Hi' & Hd' & Hrs' & Hn').
  assert (forall i r a, outside os_page (with_traced s tr dq rs) i r a <-> outside os_page s i r a) as Hout by (intros i r a; unfold outside; cbn; by rewrite Hin).
  split; [|split; [done|split; [done|split; [done|split; [exact Hgr|split; [intros Hno i r a H; by apply (Hno i r a), Hout|split; [|done]]]]]]].
  - split; [split; [|done|unfold in_n in *; cbn; unfold in_pages in *; cbn; by rewrite Hn'|split; [|done]]|by split; [|cbn; rewrite Hnd]| |].
    + apply (sinv_grows _ (in_pages s)); [exact Hst|exact Hgr|apply Hi'|apply Hi'].
    + apply (walk_ok_pages os_page (in_pages s)); [exact Hw|unfold in_pages; cbn; unfold in_n, in_pages in Hn'; lia|]. intros i g' _ Hg'. destruct (same_lookup_back _ _ i g' (gr_same _ _ Hgr) Hg') as (g & Hg & Hc). exists g. split; [exact Hg|]. by destruct Hc as [->|[b ->]].
    + intros i Hlt. apply Hprep. unfold in_n, in_pages in *. cbn in Hlt. lia.
    + unfold in_n, in_pages. cbn. rewrite Hn'. apply (binv_outside (in_mem s) _ (outside os_page s)); [exact Hb'|by intros i r a ?%Hout|done].
  - intros Hd1. destruct (Hdone Hd1) as (E1 & E2 & E3 & E4). split; [done|]. split; [|done]. split; [done|]. split; [|split; [done|done]]. destruct (ti_cursor _ _ _ _ _ _ _ Hi') as [[_ ?]|(i & g & r & k & Hs & Ebk & Hk & Ecu & _)]; [done|]. exfalso.
    destruct Hs as (Hg & Hv & _). destruct (tp_page _ (tpages_at _ _ _ (ti_pages _ _ _ _ _ _ _ Hi') Hg)) as [part Hp]. destruct (gaddr_in g part Hp r Hv) as (Hin'%INPAGE_spec & _). destruct (ip_base _ _ Hp) as [Hbs _]. lia.
Qed.
End cycle.
