(* ===== verification/IncrementalStep.v ===== *)
(** * A slice as a whole: what it ends with

    A slice of a cycle leaves the cycle's invariant, or completes it, or discards it when
    tracking failed.  It is never undefined or fatal. *)
From S2P Require Import Prelude PageMap Allocator AllocatorPage AllocatorAlloc AllocatorHeap AllocatorMark AllocatorProps Marking MarkingSound Incremental IncrementalPages IncrementalTrace IncrementalDrain IncrementalDirty IncrementalAlloc IncrementalSound IncrementalCycle.

(** ** Publishing and releasing *)
Definition published (g : gpage) : gpage := GPage (with_bmp (head g) (bmp (head g)) true) (page_kind g).
Lemma publish_spec l : forall ps, (forall i, i ∈ l -> (i < length ps)%nat) ->
  exists ps', publish ps l = Some ps' /\ length ps' = length ps /\ forall i, ps' !! i = (if decide (i ∈ l) then published <$> ps !! i else ps !! i).
Proof.
  unfold publish. induction l as [|i l IH]; intros ps Hl; cbn [foldl]; [by exists ps|]. destruct (lookup_lt_is_Some_2 ps i) as [g Hg]; [apply Hl; by left|]. cbn [mbind option_bind]. rewrite Hg. cbn [mbind option_bind]. fold (published g).
  destruct (IH (<[i := published g]> ps)) as (ps' & -> & Hlen & Hps'); [intros j Hj; rewrite length_insert; apply Hl; by right|]. rewrite length_insert in Hlen. exists ps'. split; [done|]. split; [done|]. intros j. rewrite Hps'. pose proof (lookup_lt_Some _ _ _ Hg) as Hi.
  destruct (decide (j = i)) as [->|Hne]; [rewrite list_lookup_insert_eq by done; destruct (decide (i ∈ i :: l)) as [_|[]]; [|by left]; rewrite Hg; by destruct (decide (i ∈ l))|]. rewrite list_lookup_insert_ne by done.
  destruct (decide (j ∈ l)) as [Hj|Hj]; (destruct (decide (j ∈ i :: l)) as [Hj2|Hj2]; [|done || by destruct Hj2; right]); [done|]. by apply elem_of_cons in Hj2 as [?|?].
Qed.
Lemma published_ipage part g : ipage part g -> iready g -> ipage part (published g).
Proof.
  intros [(l & Hi) Hs Hb Hf] [Hn (b & Eb & Hl & Hbytes & Hm)]. split; try done. exists l. destruct Hi as [[Hr Hc Hfl Hsz [Hbmp Hnf]] Hbl Hpos Hmax Hbits Hfirst Hsizes Hmarks].
  split; cbn [published head with_bmp block_size page_size max_blocks first_block block_bits sizes need_flush bmp]; try done.
  - split; cbn [with_bmp first_block max_blocks free sizes bmp need_flush]; try done. split; [exact Hbmp|]. rewrite Eb. done.
  - intros _ b' Eb'. assert (b' = b) as -> by congruence. exact Hm.
Qed.
(** A page without its bitmap. *)
Definition unmarked_page (g : gpage) : gpage := GPage (with_bmp (head g) None (need_flush (head g))) (page_kind g).
Lemma release_spec l : forall ps own, length own = length ps -> (forall i, i ∈ l -> (i < length ps)%nat) ->
  exists ps' own', release (ps, own) l = Some (ps', own') /\ length ps' = length ps /\ length own' = length own /\ (forall i, own' !! i = (if decide (i ∈ l) then (fun _ => false) <$> own !! i else own !! i)) /\
    (forall i, ps' !! i = ps !! i \/ ps' !! i = unmarked_page <$> ps !! i /\ own !! i = Some true).
Proof.
  unfold release. induction l as [|i l IH]; intros ps own Hlen Hl; cbn [foldl]; [exists ps, own; do 4 (split; [done|]); by left|].
  destruct (lookup_lt_is_Some_2 ps i) as [g Hg]; [apply Hl; by left|]. pose proof (lookup_lt_Some _ _ _ Hg) as Hi. destruct (lookup_lt_is_Some_2 own i) as [o Ho]; [lia|]. cbn [mbind option_bind]. rewrite Hg. cbn [mbind option_bind]. rewrite Ho. cbn [mbind option_bind]. fold (unmarked_page g).
  set (ps1 := if o then <[i := unmarked_page g]> ps else ps). set (own1 := if o then <[i := false]> own else own).
  assert ((if o then (<[i := unmarked_page g]> ps, <[i := false]> own) else (ps, own)) = (ps1, own1)) as -> by by destruct o.
  assert (length ps1 = length ps /\ length own1 = length own) as [L1 L2] by (unfold ps1, own1; destruct o; by rewrite ?length_insert).
  destruct (IH ps1 own1) as (ps' & own' & -> & E1 & E2 & Hown & Hps); [lia|intros j Hj; rewrite L1; apply Hl; by right|]. exists ps', own'. split; [done|]. split; [lia|]. split; [lia|].
  assert (forall j, j ≠ i -> ps1 !! j = ps !! j /\ own1 !! j = own !! j) as Hne by (intros j Hj; unfold ps1, own1; destruct o; by rewrite ?list_lookup_insert_ne).
  assert (own1 !! i = Some false) as Hoi by (unfold own1; destruct o; [by rewrite list_lookup_insert_eq by lia|done]). split.
  - intros j. rewrite Hown. destruct (decide (j = i)) as [->|Hj].
    + rewrite Hoi, Ho. destruct (decide (i ∈ i :: l)) as [_|[]]; [|by left]. by destruct (decide (i ∈ l)).
    + destruct (Hne j Hj) as [_ ->]. destruct (decide (j ∈ l)) as [Hi1|Hi1]; (destruct (decide (j ∈ i :: l)) as [Hi2|Hi2]; [|done || by destruct Hi2; right]); [done|]. by apply elem_of_cons in Hi2 as [?|?].
  - intros j. destruct (decide (j = i)) as [->|Hj]; [|destruct (Hne j Hj) as [<- <-]; apply Hps]. destruct (Hps i) as [->|[_ E]]; [|congruence]. unfold ps1. destruct o; [right; by rewrite list_lookup_insert_eq, Hg|by left].
Qed.

Section cycle.
Context (junk : gc_fl) (os_page : Z).
Hypothesis Hos : 0 < os_page /\ GC_PAGE_SIZE mod os_page = 0.

(** ** What a slice ends with *)
(** Nothing is left to scan. *)
Record finished (roots : list Z) (s : inc_state) : Prop := Finished {
  fi_tracing : tracing os_page s;
  fi_discovering : in_discovering s = false;
  fi_outside : no_outside os_page s;
  fi_idle : dq_batch (in_dirty s) = [] /\ idle_tracer (in_tracer s) (in_rescan s);
  fi_roots : forall w, w ∈ roots -> rooted (in_pages s) w }.
(** The marks of a finished state are published: the pages keep their place and their objects. *)
Definition completed (roots : list Z) (s s' : inc_state) : Prop := exists s1, finished roots s1 /\ growst (in_tracer s) (in_tracer s1) /\ in_mem s1 = in_mem s /\
  in_pages s' = published <$> in_pages s1 /\ in_mem s' = in_mem s1 /\ in_lists s' = in_lists s1 /\ in_epochs s' = in_epochs s1 /\ in_own s' = in_own s1 /\ in_epoch s' = in_epoch s1 /\
  in_active s' = false /\ in_barrier s' = false /\ in_discovering s' = false /\ idle_tracer (in_tracer s') (in_rescan s') /\ length (dq_flags (in_dirty s')) = in_n s'.
(** Tracking is over and no page has a bitmap of the cycle. *)
Record discarded (s : inc_state) : Prop := Discarded {
  dc_flags : in_active s = false /\ in_barrier s = false /\ in_preparing s = false /\ in_discovering s = false;
  dc_idle : queued_pages (in_dirty s) = [] /\ idle_tracer (in_tracer s) (in_rescan s);
  dc_own : forall o, o ∈ in_own s -> o = false }.
Lemma inc_complete_spec roots s0 s : finished roots s -> growst (in_tracer s0) (in_tracer s) -> in_mem s = in_mem s0 -> exists s', inc_complete s = Some s' /\ completed roots s0 s'.
Proof.
  intros Hf Hg Hm. pose proof Hf as [[[Hst _ Hd _] _ _ _] Hdi _ [_ Hid] _]. unfold inc_complete. destruct (publish_spec (concat (in_lists s)) (in_pages s)) as (ps & -> & Hlen & Hps); [intros i Hi; by apply (in_some_list _ _ _ _ Hst)|]. cbn [mbind option_bind]. eexists. split; [done|].
  assert (ps = published <$> in_pages s) as ->.
  { apply list_eq. intros i. rewrite Hps, list_lookup_fmap. destruct (decide (i ∈ concat (in_lists s))) as [|Hnot]; [done|]. rewrite lookup_ge_None_2; [done|]. apply Nat.le_ngt. intros Hlt. by apply Hnot, (in_some_list _ _ _ _ Hst). }
  exists s. do 11 (split; [done|]). split; [done|]. split; [exact Hid|]. unfold in_n, in_pages. cbn. rewrite length_fmap. apply Hd.
Qed.
Lemma gc_incremental_discard_spec s : structured s -> exists s', gc_incremental_discard s = Some s' /\ discarded s'.
Proof.
  intros Hst. unfold gc_incremental_discard. pose proof (si_len _ _ _ _ Hst) as [_ Hlen]. destruct (release_spec (concat (in_lists s)) (in_pages s) (in_own s) Hlen) as (ps & own & -> & _ & Hl & Hown & _); [intros i Hi; by apply (in_some_list _ _ _ _ Hst)|]. cbn [mbind option_bind].
  eexists. split; [done|]. split; [done|done|]. cbn [in_own]. intros o [i Hi]%list_elem_of_lookup_1. pose proof (lookup_lt_Some _ _ _ Hi) as Hlt. rewrite Hown in Hi. destruct (decide (i ∈ concat (in_lists s))) as [|Hnot]; [|destruct Hnot; apply (in_some_list _ _ _ _ Hst); lia].
  destruct (in_own s !! i); [by injection Hi|done].
Qed.

(** ** Tracing and capturing in one pause *)
Lemma readable_grows works (ps ps' : list gpage) : grows ps ps' -> readable works os_page ps -> readable works os_page ps'.
Proof. intros Hg [H1 H2]. split; [done|]. intros i g' Hg'. destruct (same_lookup_back _ _ i g' (gr_same _ _ Hg) Hg') as (g & Hgi & Hc). specialize (H2 i g Hgi). by destruct Hc as [->|[b ->]]. Qed.
Definition traced_out (late works : nat -> bool) (roots : list Z) (s : inc_state) (r : inc_state * bool * bool) : Prop :=
  let '(s', ok, done_) := r in structured s' /\ in_mem s' = in_mem s /\ growst (in_tracer s) (in_tracer s') /\ (ok = true -> tracing os_page s') /\ (done_ = true -> ok = true /\ finished roots s') /\
    (on_time late -> readable works os_page (in_pages s) -> ok = true /\ done_ = true).
Lemma trace_and_capture_spec late works roots captured s now : tracing os_page s -> in_discovering s = false -> (captured = true -> no_outside os_page s) ->
  exists r, trace_and_capture os_page late works roots captured s now = Done r /\ traced_out late works roots s r.
Proof.
  intros Ht Hnd Hcap. unfold trace_and_capture. destruct (trace_slice_spec os_page late roots s now Ht Hnd) as ([[s1 now1] d1] & -> & Ht1 & Hnd1 & Hl1 & Hm1 & Hg1 & Hno1 & Hd1 & Hon1). cbn [ub mbind outcome_bind].
  pose proof (ru_structured _ _ (tc_running _ _ Ht1)) as Hst1. destruct (d1 && negb captured) eqn:E.
  - apply andb_true_iff in E as [-> Hc]. destruct (Hd1 eq_refl) as (Hb1 & Hid1 & Hr1). destruct (gc_inc_capture_slice_spec os_page Hos late works s1 now1 Ht1 Hb1) as ([[[s2 now2] ok] c2] & -> & Hst2 & _ & _ & Hm2 & Etr & Hok2 & Hon2). cbn [mbind outcome_bind].
    assert (on_time late -> readable works os_page (in_pages s) -> ok = true /\ c2 = true) as Hlive by (intros H1 H2; apply (Hon2 H1); by apply (readable_grows works (in_pages s))). destruct (ok && c2) eqn:E2.
    + apply andb_true_iff in E2 as [-> ->]. destruct (Hok2 eq_refl) as (Ht2 & Hd2 & Hno2). destruct (trace_slice_spec os_page late roots s2 now2 Ht2 Hd2) as ([[s3 now3] d3] & -> & Ht3 & Hnd3 & Hl3 & Hm3 & Hg3 & Hno3 & Hd3 & Hon3). cbn [ub mbind outcome_bind].
      eexists. split; [done|]. split; [apply Ht3|]. split; [congruence|]. split; [etrans; [exact Hg1|]; unfold growst in *; by rewrite <- Etr|]. split; [done|]. split; [|intros Hot _; split; [done|by apply Hon3]]. intros Hd. destruct (Hd3 Hd) as (? & ? & ?). split; [done|]. split; try done. by apply Hno3, Hno2.
    + eexists. split; [done|]. split; [done|]. split; [congruence|]. split; [unfold growst in *; by rewrite Etr|]. split; [by intros ->; apply Hok2|]. split; [done|]. intros H1 H2. destruct (Hlive H1 H2) as [-> ->]. done.
  - eexists. split; [done|]. split; [done|]. split; [done|]. split; [done|]. split; [done|]. split; [|intros Hot _; split; [done|by apply Hon1]]. intros ->. split; [done|]. cbn in E. apply negb_false_iff in E. destruct (Hd1 eq_refl) as (? & ? & ?). split; try done. by apply Hno1, Hcap.
Qed.
Lemma inc_trace_spec late works roots s now : tracing os_page s -> exists r, inc_trace os_page late works roots s now = Done r /\ traced_out late works roots s r.
Proof.
  intros Ht. unfold inc_trace. destruct (in_discovering s) eqn:Ed; [|by apply trace_and_capture_spec]. pose proof (tc_phase _ _ Ht) as [_ Hb].
  destruct (gc_inc_capture_slice_spec os_page Hos late works s now Ht (Hb Ed)) as ([[[s1 now1] ok] c1] & -> & Hst1 & _ & _ & Hm1 & Etr & Hok1 & Hon1). cbn [mbind outcome_bind]. destruct (ok && negb (in_discovering s1)) eqn:E.
  - apply andb_true_iff in E as [-> Hnd%negb_true_iff]. destruct (Hok1 eq_refl) as (Ht1 & Hd1 & Hno1). destruct (trace_and_capture_spec late works roots c1 s1 now1 Ht1 Hnd Hno1) as ([[s2 ok2] d2] & -> & Hst2 & Hm2 & Hg2 & Hok2 & Hd2 & Hon2).
    eexists. split; [done|]. split; [done|]. split; [congruence|]. split; [unfold growst in *; by rewrite <- Etr|]. split; [done|]. split; [done|]. intros H1 H2. apply Hon2; [done|]. unfold in_pages. by rewrite Etr.
  - eexists. split; [done|]. split; [done|]. split; [done|]. split; [unfold growst; by rewrite Etr|]. split; [by intros ->; apply Hok1|]. split; [done|]. intros H1 H2. destruct (Hon1 H1 H2) as [-> ->]. destruct (Hok1 eq_refl) as (_ & E2 & _). by rewrite E2 in E.
Qed.

(** ** The slice *)
Definition stepped (late works : nat -> bool) (roots : list Z) (s : inc_state) (r : inc_state * verdict) : Prop :=
  let '(s', v) := r in match v with More => cycle os_page s' | Complete => tracing os_page s /\ completed roots s s' | Fallback => discarded s' end.
Definition step_tail (s1 : inc_state) (ok done_ : bool) : outcome (inc_state * verdict) :=
  if negb (ok : bool) then s ← ub (gc_incremental_discard s1); Done (s, Fallback) else if (done_ : bool) then s ← ub (inc_complete s1); Done (s, Complete) else Done (s1, More).
Lemma active_step late works roots s now : cycle os_page s -> exists r,
  ('(s1, ok, done_) ← (if in_preparing s then '(pid, cursor, p, _, done_) ← ub (gc_inc_prepare_slice junk late (in_lists s) (in_epoch s) (in_pid s) (in_cursor s) (in_prepared s) now); Done (with_prepared s p pid cursor (negb done_), true, false)
    else inc_trace os_page late works roots s now); step_tail s1 ok done_) = Done r /\ stepped late works roots s r /\
  (on_time late -> readable works os_page (in_pages s) -> if in_preparing s then exists s', r = (s', More) /\ tracing os_page s' /\ in_discovering s' = false else r.2 = Complete).
Proof.
  intros [Hp|Ht].
  - pose proof (pr_phase _ _ Hp) as [Hph Hnd]. rewrite Hph. destruct (gc_inc_prepare_slice_spec junk os_page late s now Hp) as ([[[[pid cursor] p] nw] d] & -> & Hp' & Hall & Hon). cbn [ub mbind outcome_bind]. eexists. split; [done|]. destruct d; cbn [negb].
    + assert (tracing os_page (with_prepared s p pid cursor false)) as Htr by by apply start_tracing, Hall. split; [by right|]. intros _ _. eexists. split; [done|]. by split.
    + split; [by left|]. intros Hot _. by discriminate (Hon Hot).
  - pose proof (tc_phase _ _ Ht) as [Hph _]. rewrite Hph. destruct (inc_trace_spec late works roots s now Ht) as ([[s1 ok] d] & -> & Hst & Hm & Hg & Hok & Hd & Hon). cbn [mbind outcome_bind]. unfold step_tail. destruct ok; cbn [negb].
    + destruct d.
      * destruct (Hd eq_refl) as [_ Hf]. destruct (inc_complete_spec roots s s1 Hf Hg Hm) as (s' & -> & Hc). cbn [ub mbind outcome_bind]. eexists. split; [done|]. by split.
      * eexists. split; [done|]. split; [right; by apply Hok|]. intros H1 H2. by destruct (Hon H1 H2).
    + destruct (gc_incremental_discard_spec s1 Hst) as (s' & -> & Hc). cbn [ub mbind outcome_bind]. eexists. split; [done|]. split; [done|]. intros H1 H2. by destruct (Hon H1 H2).
Qed.
Lemma gc_incremental_step_spec late works roots s : cycle os_page s -> exists r, gc_incremental_step junk os_page late works roots s = Done r /\ stepped late works roots s r /\
  (on_time late -> readable works os_page (in_pages s) -> if in_preparing s then exists s', r = (s', More) /\ tracing os_page s' /\ in_discovering s' = false else r.2 = Complete).
Proof.
  intros Hc. destruct (active_step late works roots s 0 Hc) as (r & E & H). exists r. split; [|exact H]. unfold gc_incremental_step. destruct (ru_active _ _ (cycle_running _ _ Hc)) as [-> _]. exact E.
Qed.
(** The first slice. *)
Lemma first_step_spec late works roots s : startable s -> exists s' v, gc_incremental_step junk os_page late works roots s = Done (s', v) /\ match v with More => cycle os_page s' | Complete => False | Fallback => discarded s' end /\
  (on_time late -> readable works os_page (in_pages s) -> v = More /\ tracing os_page s').
Proof.
  intros Hs. unfold gc_incremental_step. destruct (sb_idle _ Hs) as [-> _]. destruct (begin_spec os_page Hos works s 0 Hs) as (s1 & -> & Hp & Hst & Epg). cbn [mbind outcome_bind]. destruct (works 0%nat) eqn:Ew.
  - destruct (active_step late works roots s1 1 (or_introl Hp)) as ([s' v] & E & Hstep & Hon). exists s', v. split; [exact E|]. destruct (pr_phase _ _ Hp) as [T _]. split; [|intros H1 H2; rewrite T in Hon; destruct Hon as (s2 & [= -> ->] & ? & _); [done|by rewrite Epg|done]].
    destruct v; [done| |done]. destruct Hstep as [Ht _]. destruct (tc_phase _ _ Ht) as [F _]. congruence.
  - cbn [mbind outcome_bind negb]. destruct (gc_incremental_discard_spec s1 Hst) as (s' & -> & Hd). cbn [ub mbind outcome_bind negb]. exists s', Fallback. split; [done|]. split; [done|]. intros _ [Hw _]. by rewrite Hw in Ew.
Qed.
End cycle.
