(* ===== verification/IncrementalProps.v ===== *)
(** * Properties of incremental collection

    A history is a sequence of slices and of the program's steps between them.  Whatever it
    is, the slice that completes the cycle has marked every object that is reachable then, and
    no page frees one of them; no slice and no allocation is undefined or fatal; a slice that
    is not out of time completes the cycle. *)
From S2P Require Import Prelude PageMap Allocator AllocatorPage AllocatorAlloc AllocatorHeap AllocatorMark AllocatorProps Marking MarkingSound MarkingProps Incremental IncrementalPages IncrementalTrace IncrementalDrain IncrementalDirty IncrementalAlloc IncrementalSound IncrementalCycle IncrementalStep.

(** ** Reachable objects
    From the interior of a block for a root, from its address for a word of a reachable block;
    page and block. *)
Inductive in_reach (mem : Z -> Z) (ps : list gpage) (roots : list Z) : nat -> Z -> Prop :=
  | in_reach_root w i g r a : w ∈ roots -> w <> 0 -> get_page ps w = Some (i, g) -> gc_allocator_get_block_interior (head g) w = Some (r, a) -> 0 <= r -> in_reach mem ps roots i r
  | in_reach_word i g r a j h k : in_reach mem ps roots i r -> ps !! i = Some g -> MEM_HAS_PTR (page_kind g) = true -> has_word g r a ->
      block_of ps (u64 (mem a)) = Some (j, h, k) -> is_free (head h) k = false -> in_reach mem ps roots j k.

Section history.
Context (junk : gc_fl) (os_page : Z).
Hypothesis Hos : 0 < os_page /\ GC_PAGE_SIZE mod os_page = 0.
Inductive history : inc_state -> Prop :=
  | history_start s : startable s -> history s
  | history_program s s' : history s -> in_active s = true -> mutate junk os_page s s' -> history s'
  | history_slice late works roots s s' : history s -> gc_incremental_step junk os_page late works roots s = Done (s', More) -> history s'.
Lemma history_cycle s : history s -> startable s \/ cycle os_page s.
Proof using Hos.
  induction 1 as [s Hs|s s' _ [Hs|Hc] Ha Hm|late works roots s s' _ [Hs|Hc] E]; [by left| | | |].
  - destruct (sb_idle _ Hs) as [F _]. congruence.
  - right. by apply (mutate_cycle junk os_page Hos s).
  - right. destruct (first_step_spec junk os_page Hos late works roots s Hs) as (s2 & v & E2 & Hv & _). rewrite E in E2. by injection E2 as <- <-.
  - right. destruct (gc_incremental_step_spec junk os_page Hos late works roots s Hc) as (r & E2 & Hr & _). rewrite E in E2. by injection E2 as <-.
Qed.
Lemma history_active s : history s -> in_active s = true -> cycle os_page s.
Proof using Hos. intros [Hs|Hc]%history_cycle Ha; [|done]. destruct (sb_idle _ Hs) as [F _]. congruence. Qed.

(** ** The marks of a finished state *)
Lemma finished_fine roots s i g r a : finished os_page roots s -> scanned (in_pages s) i g r -> has_word g r a -> fine (in_mem s) (in_pages s) a.
Proof.
  intros [[_ _ _ (Hi & _)] _ Hno [Hb (Hst & Hbk & Hcu & Hrs)] _] Hs Hw. unfold in_pages in *. destruct (ti_scanned _ _ _ _ _ _ _ Hi i g r a Hs Hw) as [[H|[(_ & H & _)|[H|[H|[H _]]]]]|H]; [|done| | | |done].
  - rewrite Hst in H. by apply elem_of_nil in H.
  - by destruct (Hno _ _ _ H).
  - rewrite Hb in H. by apply elem_of_nil in H.
  - congruence.
Qed.
Lemma finished_reach roots s s1 i r : finished os_page roots s1 -> growst (in_tracer s) (in_tracer s1) -> in_mem s1 = in_mem s -> in_reach (in_mem s) (in_pages s) roots i r -> marked (in_pages s1) i r.
Proof.
  intros Hf Hg Hm Hr. induction Hr as [w i g r a Hw Hnz Hp Hb Hr|i g r a j h k _ IH Hi Hk Hw Hb Hfree].
  - pose proof (get_page_same (in_pages s) (in_pages s1) w (gr_same _ _ Hg)) as Hsame. unfold in_pages in *. rewrite Hp in Hsame. destruct Hsame as (g' & Hp' & Hc). apply (fi_roots _ _ _ Hf w Hw i g' r a Hnz Hp'); [|done]. destruct Hc as [->|[b ->]]; exact Hb.
  - destruct IH as (g1 & Hg1 & Hv1 & Hb1). destruct (same_lookup _ _ i g (gr_same _ _ Hg) Hi) as (g2 & Hg2 & Hc). assert (g2 = g1) as -> by (unfold in_pages in *; congruence).
    assert (scanned (in_pages s1) i g1 r) as Hs by (split; [done|split; [done|split; [done|]]]; by destruct Hc as [->|[b ->]]). assert (has_word g1 r a) as Hw1 by (by destruct Hc as [->|[b ->]]).
    pose proof (finished_fine roots s1 i g1 r a Hf Hs Hw1) as Hfine. pose proof (block_of_same (in_pages s) (in_pages s1) (u64 (in_mem s a)) (gr_same _ _ Hg)) as Hsame. rewrite Hb in Hsame. destruct Hsame as (h' & Hb' & Hc'). rewrite <- Hm in Hb'.
    apply (Hfine j h' k Hb'). destruct Hc' as [->|[b ->]]; exact Hfree.
Qed.
Lemma completed_pages roots s s' i g' : completed os_page roots s s' -> in_pages s' !! i = Some g' -> exists s1 g, finished os_page roots s1 /\ growst (in_tracer s) (in_tracer s1) /\ in_mem s1 = in_mem s /\ in_pages s1 !! i = Some g /\ g' = published g.
Proof. intros (s1 & Hf & Hg & Hm & Hp & _) Hi. rewrite Hp, list_lookup_fmap in Hi. destruct (in_pages s1 !! i) as [g|] eqn:E; [|done]. injection Hi as <-. by exists s1, g. Qed.
Lemma completed_reach roots s s' i r : completed os_page roots s s' -> in_reach (in_mem s) (in_pages s) roots i r -> exists g', in_pages s' !! i = Some g' /\ need_flush (head g') = true /\ valid (head g') r /\ gbit g' r = true.
Proof.
  intros (s1 & Hf & Hg & Hm & Hp & _) Hr. destruct (finished_reach roots s s1 i r Hf Hg Hm Hr) as (g & Hi & Hv & Hb). exists (published g). rewrite Hp, list_lookup_fmap, Hi. by repeat (split; [done|]).
Qed.
(** A completed cycle can be followed by another one. *)
Lemma completed_startable roots s s' : completed os_page roots s s' -> 0 <= in_epoch s' < 2 ^ 64 - 1 -> startable s'.
Proof.
  intros (s1 & [[[[H1 H2 H3 H4 H5 [H6 H7]] _ _ _] _ Hprep (Hi & _)] _ _ _ _] & _ & _ & Ep & Em & El & Ee & Eo & Eep & Ha & _ & Hd & Hid & Hf) He. split; [|done|done|].
  - unfold structured. rewrite Ep, El, Ee, Eo. split; [done| |done| | |by rewrite length_fmap].
    + intros pid l i Hl Hin. destruct (H2 pid l i Hl Hin) as (g & Hg & Hp). exists (published g). rewrite list_lookup_fmap, Hg. split; [done|]. apply published_ipage; [done|]. exact (tp_ready _ (tpages_at _ _ _ (ti_pages _ _ _ _ _ _ _ Hi) Hg)).
    + intros i. rewrite length_fmap. apply H4.
    + unfold apart_pages in *. rewrite <- list_fmap_compose. exact H5.
  - split; [done|]. intros e. rewrite Ee, Eep. intros [i Hei]%list_elem_of_lookup_1. pose proof (lookup_lt_Some _ _ _ Hei) as Hlt. specialize (Hprep i). unfold is_prepared, in_n in Hprep. rewrite Hprep in Hei by lia. injection Hei as <-. lia.
Qed.
End history.

(** ** An example
    A page of eight 8 KB blocks with an object of two blocks at block 0 and one at block 2.  The
    first slice prepares the page; the program moves the only pointer to the second object; the
    second slice completes the cycle. *)
Definition ex_used : gc_pheader := Page 65536 65536 None 8192 13 8 0 (Fl 0 1 1 [(3, 5); ex_junk]) (Some [2; 0; 1; 0; 0; 0; 0; 0]) false.
Definition ex_start : inc_state :=
  Inc (Tracer [GPage ex_used MEM_KIND_DYNAMIC] [] 0 0 0) [0] [false] (<[28%nat := [0%nat]]> (replicate 648 [])) ex_mem ∅ false (Dirty [false] [] [] 0) (Rescan None 0) gc_inc_dirty_reset 0 [] false false false 0.
Lemma step_result (o : outcome (inc_state * verdict)) s1 s2 v1 v2 : o = Done (s1, v1) -> o = Done (s2, v2) -> s1 = s2 /\ v1 = v2.
Proof. intros -> [= -> ->]. done. Qed.
Definition never (n : nat) : bool := false.
Definition always (n : nat) : bool := true.
Abbreviation ex_step s := (gc_incremental_step ex_junk 4096 never always [65636] s).
Definition ex_after (s : inc_state) : inc_state := match ex_step s with Done (s', _) => s' | _ => s end.
Definition ex_moved_mem (a : Z) : Z := if a =? 65552 then 81920 else 0.
Definition ex_moved : inc_state := with_memory (ex_after ex_start) ex_moved_mem {[16]}.
Lemma ex_used_page : ipage 7 (GPage ex_used MEM_KIND_DYNAMIC).
Proof.
  split; [exists ex_items|done|done|done]. destruct ex_clear_inv as [[H1 H2 H3 H4 _] H5 H6 H7 H8 H9 H10 _]. split; try done.
Qed.
Lemma ex_lists pid l i : aget (in_lists ex_start) pid = Some l -> i ∈ l -> pid = 28 /\ i = 0%nat.
Proof.
  intros Hl Hi. pose proof (aget_Some_range _ _ _ Hl) as Hr. rewrite aget_lookup in Hl by lia. cbn [ex_start in_lists] in Hl. apply list_lookup_insert_Some in Hl as [(E & <- & _)|[_ Hl]].
  - apply list_elem_of_singleton in Hi. split; [lia|done].
  - apply lookup_replicate in Hl as [-> _]. by apply elem_of_nil in Hi.
Qed.
Lemma ex_startable : startable ex_start.
Proof.
  split; [|done|done|by split; [done|]; intros e ->%list_elem_of_singleton]. split.
  - reflexivity.
  - intros pid l i Hl Hi. destruct (ex_lists pid l i Hl Hi) as [-> ->]. exists (GPage ex_used MEM_KIND_DYNAMIC). split; [done|exact ex_used_page].
  - intros p1 p2 l1 l2 i H1 H2 I1 I2. destruct (ex_lists p1 l1 i H1 I1) as [-> _]. by destruct (ex_lists p2 l2 i H2 I2) as [-> _].
  - intros i Hi. exists 28, [0%nat]. split; [reflexivity|]. change (length _) with 1%nat in Hi. destruct i; [by left|lia].
  - by split.
  - done.
Qed.
Lemma ex_first : ex_step ex_start = Done (ex_after ex_start, More).
Proof. vm_compute. reflexivity. Qed.
Lemma ex_second : ex_step ex_moved = Done (ex_after ex_moved, Complete).
Proof. vm_compute. reflexivity. Qed.
Lemma ex_history : history ex_junk 4096 ex_moved.
Proof.
  apply (history_program _ _ (ex_after ex_start)); [apply (history_slice _ _ never always [65636] ex_start _ (history_start _ _ _ ex_startable) ex_first)|vm_compute; reflexivity|].
  apply mut_write; [|vm_compute; done]. assert (in_mem (ex_after ex_start) = ex_mem) as -> by (vm_compute; reflexivity).
  unfold ex_moved_mem, ex_mem. intros a Ha. apply elem_of_singleton. destruct (Z.eqb_spec a 65552) as [E|]; [by rewrite E|]. destruct (Z.eqb_spec a 65536) as [E|]; [by rewrite E|]. destruct (Z.eqb_spec a 65544) as [E|]; [by rewrite E|done].
Qed.
Lemma ex_reach_0 : in_reach (in_mem ex_moved) (in_pages ex_moved) [65636] 0 0.
Proof. eapply (in_reach_root _ _ _ 65636 0%nat); [by left|done|vm_compute; reflexivity|vm_compute; reflexivity|done]. Qed.
Lemma ex_reach_2 : in_reach (in_mem ex_moved) (in_pages ex_moved) [65636] 0 2.
Proof.
  eapply (in_reach_word _ _ _ 0%nat _ 0 65552 0%nat _ 2); [exact ex_reach_0|vm_compute; reflexivity|vm_compute; reflexivity| |vm_compute; reflexivity|vm_compute; reflexivity].
  exists 2. split; [split; [lia|vm_compute; reflexivity]|vm_compute; reflexivity].
Qed.

(** ** Safety *)
(** C2. An incremental cycle marks what is reachable.  Between slices the program may write to
    its memory, call the write barrier and allocate in old and new pages.  Whatever history
    there was, and whatever the clock and the reads of the system's bits answer, the next slice
    is defined and not fatal, and when it completes the cycle every object reachable from the
    roots of that slice is marked in a page whose marks are published; memory has not changed,
    and another cycle can start.  When tracking fails the cycle is discarded. *)
Theorem incremental_cycle_marks_reachable junk os_page late works roots s : 0 < os_page /\ GC_PAGE_SIZE mod os_page = 0 -> history junk os_page s ->
  exists s' v, gc_incremental_step junk os_page late works roots s = Done (s', v) /\
    match v with
    | More => in_active s' = true
    | Fallback => discarded s'
    | Complete => in_mem s' = in_mem s /\ (0 <= in_epoch s' < 2 ^ 64 - 1 -> startable s') /\
        forall i r, in_reach (in_mem s) (in_pages s) roots i r -> exists g, in_pages s' !! i = Some g /\ need_flush (head g) = true /\ valid (head g) r /\ gbit g r = true
    end.
Proof.
  intros Hos Hh. apply history_cycle in Hh as [Hs|Hc]; [| |done].
  - destruct (first_step_spec junk os_page Hos late works roots s Hs) as (s' & v & E & Hv & _). exists s', v. split; [exact E|]. destruct v; [|done|done]. by destruct (ru_active _ _ (cycle_running _ _ Hv)).
  - destruct (gc_incremental_step_spec junk os_page Hos late works roots s Hc) as ([s' v] & E & Hr & _). exists s', v. split; [exact E|]. destruct v; [by destruct (ru_active _ _ (cycle_running _ _ Hr))| |done]. destruct Hr as [_ Hr].
    split; [|split; [by apply (completed_startable os_page roots s)|intros j k; by apply (completed_reach os_page roots s)]]. destruct Hr as (s1 & _ & _ & E1 & _ & E2 & _). congruence.
Qed.
Theorem incremental_cycle_marks_reachable_witness : history ex_junk 4096 ex_moved /\ ex_step ex_moved = Done (ex_after ex_moved, Complete) /\ map (fun g => bmp (head g)) (in_pages (ex_after ex_moved)) = [Some [5; 0]] /\
  in_reach (in_mem ex_moved) (in_pages ex_moved) [65636] 0 2 /\ exists g, in_pages (ex_after ex_moved) !! 0%nat = Some g /\ need_flush (head g) = true /\ valid (head g) 2 /\ gbit g 2 = true.
Proof.
  split; [exact ex_history|]. split; [exact ex_second|]. split; [vm_compute; reflexivity|]. split; [exact ex_reach_2|].
  destruct (incremental_cycle_marks_reachable ex_junk 4096 never always [65636] ex_moved) as (s' & v & E & H); [split; [lia|reflexivity]|exact ex_history|]. destruct (step_result _ _ _ _ _ ex_second E) as [<- <-]. destruct H as (_ & _ & H). apply H. exact ex_reach_2.
Defined.

Lemma marked_not_empty part ph l b r : page_inv part ph l -> need_flush ph = true -> bmp ph = Some b -> first_block ph <= r < max_blocks ph -> is_marked b r = true -> gc_page_is_empty ph = Some false.
Proof.
  intros Hi Hn Hb Hr Hm. pose proof Hi as [[Hrg _ _ _ [Hbm _]] _ _ _ _ _ _ _]. destruct (Hbm b Hb) as [Hbl _]. destruct (page_empty_spec part ph l Hi Hn) as (e & E & _). rewrite E. destruct e; [|done]. exfalso. unfold gc_page_is_empty in E. rewrite Hb in E.
  rewrite !shiftr_div in * by lia. change (2 ^ 3) with 8 in *. rewrite aslice_Some in E by z_div. cbn [mbind option_bind] in E. injection E as E. rewrite (is_marked_zero b r _ _ E) in Hm; [done| |]; rewrite shiftr_div by lia; change (2 ^ 3) with 8; z_div.
Qed.
(** C5. An incremental collection frees no reachable object.  After the slice that completes a
    cycle a page with a reachable object is not empty, so it is not unmapped, and rebuilding its
    free runs, which allocation does before it uses the page, leaves every block of the object
    out of them. *)
Theorem incremental_collection_keeps_reachable junk os_page late works roots s s' i r : 0 < os_page /\ GC_PAGE_SIZE mod os_page = 0 -> history junk os_page s ->
  gc_incremental_step junk os_page late works roots s = Done (s', Complete) -> in_reach (in_mem s) (in_pages s) roots i r ->
  exists g, in_pages s' !! i = Some g /\ gc_page_is_empty (head g) = Some false /\ (exists part l, page_inv part (head g) l) /\ forall part l, page_inv part (head g) l ->
    exists ph, flush_free_list junk (head g) = Some ph /\ forall n q, Obj r n ∈ l -> r <= q < r + n -> ~ Exists (in_blocks q) (fl_runs (free ph)).
Proof.
  intros Hos Hh E Hr. apply history_cycle in Hh as [Hs|Hc]; [| |done].
  { destruct (first_step_spec junk os_page Hos late works roots s Hs) as (s2 & v & E2 & Hv & _). rewrite E in E2. by injection E2 as <- <-. }
  destruct (gc_incremental_step_spec junk os_page Hos late works roots s Hc) as (res & E2 & Hres & _). rewrite E in E2. injection E2 as <-. destruct Hres as [_ Hd]. destruct (completed_reach os_page roots s s' i r Hd Hr) as (g' & Hg & Hn & Hv & Hm). exists g'. split; [done|].
  destruct (completed_pages os_page roots s s' i g' Hd Hg) as (s1 & g & [[_ _ _ (Hi1 & _)] _ _ _ _] & _ & _ & Hg1 & ->). pose proof (tpages_at _ _ _ (ti_pages _ _ _ _ _ _ _ Hi1) Hg1) as [[part Hp] Hready].
  pose proof (published_ipage part g Hp Hready) as Hp2. pose proof (ipage_range _ part Hp2) as (Hrange & _). destruct (ip_inv _ _ Hp2) as [l Hi]. destruct (ir_bmp _ Hready) as (b & Eb & _). assert (bmp (head (published g)) = Some b) as Eb2 by exact Eb. unfold gbit in Hm. rewrite Eb2 in Hm.
  assert (first_block (head (published g)) <= r < max_blocks (head (published g))) as Hrr by (destruct Hv as [Hv Hs]; split; [|lia]; destruct (sizes (head (published g))) as [sz|] eqn:Es; [by apply (Hs sz)|rewrite (ip_first _ _ Hp2 Es); lia]).
  split; [by apply (marked_not_empty part _ l b r)|]. split; [by exists part, l|]. intros part2 l2 Hi2. destruct (flush_frees_spec junk part2 _ l2 b Hi2 Hn Eb2) as (ph & Hf & _ & Hfree). exists ph. split; [exact Hf|]. intros n q Ho Hq.
  pose proof (pg_covers _ _ (pi_ok _ _ _ Hi2)) as Hcov. destruct (covers_in _ _ _ _ Hcov Ho) as (H1 & H2 & _). cbn [item_pos item_len] in H1, H2. rewrite Hfree by lia. intros Hno. by apply Hno, (kept_exists b l2 _ _ r n q Hcov Ho Hq).
Qed.
Theorem incremental_collection_keeps_reachable_witness : history ex_junk 4096 ex_moved /\ ex_step ex_moved = Done (ex_after ex_moved, Complete) /\ in_reach (in_mem ex_moved) (in_pages ex_moved) [65636] 0 2 /\
  map (fun g => option_map (fun ph => fl_runs (free ph)) (flush_free_list ex_junk (head g))) (in_pages (ex_after ex_moved)) = [Some [(3, 5)]] /\
  exists g, in_pages (ex_after ex_moved) !! 0%nat = Some g /\ gc_page_is_empty (head g) = Some false.
Proof.
  split; [exact ex_history|]. split; [exact ex_second|]. split; [exact ex_reach_2|]. split; [vm_compute; reflexivity|].
  destruct (incremental_collection_keeps_reachable ex_junk 4096 never always [65636] ex_moved (ex_after ex_moved) 0 2) as (g & Hg & He & _); [split; [lia|reflexivity]|exact ex_history|exact ex_second|exact ex_reach_2|]. exists g. split; [exact Hg|exact He].
Defined.

(** ** Progress *)
(** C10. A cycle ends.  When the time is never over and the system's bits can be read, the first
    slice that finds pages to prepare prepares all of them, and any other slice completes the
    cycle: it never returns with work left. *)
Theorem incremental_cycle_ends junk os_page late works roots s : 0 < os_page /\ GC_PAGE_SIZE mod os_page = 0 -> history junk os_page s -> on_time late -> readable works os_page (in_pages s) ->
  exists s' v, gc_incremental_step junk os_page late works roots s = Done (s', v) /\
    if in_active s && negb (in_preparing s) then v = Complete /\ in_active s' = false /\ in_barrier s' = false else v = More /\ in_active s' = true /\ in_preparing s' = false.
Proof.
  intros Hos Hh Hot Hre. apply history_cycle in Hh as [Hs|Hc]; [| |done].
  - destruct (first_step_spec junk os_page Hos late works roots s Hs) as (s' & v & E & _ & Hon). exists s', v. split; [exact E|]. destruct (sb_idle _ Hs) as [-> _]. cbn [andb]. destruct (Hon Hot Hre) as [-> Ht]. destruct (ru_active _ _ (tc_running _ _ Ht)) as [Ha _]. destruct (tc_phase _ _ Ht) as [Hp _]. done.
  - destruct (gc_incremental_step_spec junk os_page Hos late works roots s Hc) as ([s' v] & E & Hr & Hon). exists s', v. split; [exact E|]. destruct (ru_active _ _ (cycle_running _ _ Hc)) as [-> _]. cbn [andb]. specialize (Hon Hot Hre). destruct (in_preparing s); cbn [negb].
    + destruct Hon as (s2 & [= -> ->] & Ht & _). destruct (ru_active _ _ (tc_running _ _ Ht)) as [Ha _]. destruct (tc_phase _ _ Ht) as [Hp _]. done.
    + cbn in Hon. subst v. destruct Hr as [_ (s1 & _ & _ & _ & _ & _ & _ & _ & _ & _ & Ha & Hb & _)]. done.
Qed.
Lemma ex_readable s : map (fun g => page_size (head g)) (in_pages s) = [65536] -> readable always 4096 (in_pages s).
Proof.
  intros E. split; [done|]. intros i g Hg. assert (page_size (head g) ∈ [65536]) as H by (rewrite <- E; apply list_elem_of_In, (in_map (fun g => page_size (head g))), list_elem_of_In; by apply list_elem_of_lookup_2 in Hg). apply list_elem_of_singleton in H as ->. reflexivity.
Qed.
Theorem incremental_cycle_ends_witness : history ex_junk 4096 ex_moved /\ readable always 4096 (in_pages ex_moved) /\ exists s', ex_step ex_moved = Done (s', Complete) /\ in_active s' = false.
Proof.
  split; [exact ex_history|]. split; [apply ex_readable; vm_compute; reflexivity|].
  destruct (incremental_cycle_ends ex_junk 4096 never always [65636] ex_moved) as (s' & v & E & H); [split; [lia|reflexivity]|exact ex_history|done|apply ex_readable; vm_compute; reflexivity|].
  assert (in_active ex_moved && negb (in_preparing ex_moved) = true) as F by (vm_compute; reflexivity). rewrite F in H. destruct H as (-> & Ha & _). exists s'. split; [exact E|exact Ha].
Defined.

(** ** Allocation *)
(** C11. Allocation during a cycle.  In any state of a cycle a request is answered without
    undefined behaviour and without the fatal "Invalid incremental allocation", in a page of the
    request's list or in a new page, and the new object is marked.  When its memory has been
    written since the last capture, as clearing it does, the history goes on. *)
Theorem incremental_allocation_is_marked junk os_page s pid r n : 0 < os_page /\ GC_PAGE_SIZE mod os_page = 0 -> history junk os_page s -> in_active s = true ->
  request_valid r -> 0 <= pid < GC_PAGE_SLOTS -> GC_PID_PART pid = request_part r -> request_bytes r = Some n ->
  (forall l i, aget (in_lists s) pid = Some l -> i ∈ l -> exists res, alloc_old junk s i r = Done res /\
    forall s' ptr, res = Some (s', ptr) -> marked_object s' ptr /\ (written os_page (in_soft s) ptr n -> history junk os_page s')) /\
  (forall num nb, 0 <= num -> fresh_memory (in_pages s) nb -> exists s' ptr, alloc_new junk s pid num nb r = Done (s', ptr) /\ marked_object s' ptr /\ (written os_page (in_soft s) ptr n -> history junk os_page s')).
Proof.
  intros Hos Hh Ha Hr Hpid Hpart Hn. assert (cycle os_page s) as Hc by by apply (history_active junk os_page Hos). split.
  - intros l i Hl Hi. destruct (alloc_old_spec junk os_page s pid l i r n Hc Hr Hl Hi Hpart Hn) as (res & E & Hres). exists res. split; [exact E|]. intros s' ptr ->. destruct Hres as [Hm _]. split; [exact Hm|]. intros Hw.
    apply (history_program _ _ s s' Hh Ha). by apply (mut_alloc _ _ _ pid l i r s' ptr n).
  - intros num nb Hnum Hf. destruct (alloc_new_spec junk os_page s pid num nb r n Hc Hr Hpid Hnum Hpart Hf Hn) as (s' & ptr & E & Hm & _). exists s', ptr. split; [exact E|]. split; [exact Hm|]. intros Hw. apply (history_program _ _ s s' Hh Ha). by apply (mut_page _ _ _ pid num nb r s' ptr n).
Qed.
Theorem incremental_allocation_is_marked_witness : history ex_junk 4096 ex_moved /\ in_active ex_moved = true /\
  match alloc_old ex_junk ex_moved 0 (RVar 7 2) with Done (Some (s', ptr)) => ptr = 90112 /\ map (fun g => bmp (head g)) (in_pages s') = [Some [8; 0]] | _ => False end /\
  exists res, alloc_old ex_junk ex_moved 0 (RVar 7 2) = Done res.
Proof.
  split; [exact ex_history|]. split; [vm_compute; reflexivity|]. split; [vm_compute; by split|].
  destruct (incremental_allocation_is_marked ex_junk 4096 ex_moved 28 (RVar 7 2) 16384) as [H _]; [split; [lia|reflexivity]|exact ex_history|vm_compute; reflexivity|vm_compute; intuition congruence|vm_compute; intuition congruence|vm_compute; reflexivity|vm_compute; reflexivity|].
  destruct (H [0%nat] 0%nat) as (res & E & _); [vm_compute; reflexivity|by left|]. exists res. exact E.
Defined.
