(* ===== verification/Patch.v ===== *)
(** * Patches of a running program: their functions and the checks on them ([src/hlpatch.c])

    A patch replaces functions of a loaded module.  Before anything of it is compiled, every
    function is checked: its operands name registers, constants and functions that exist, its
    branches stay inside it, and its try regions are balanced on every path, since the
    compiler tracks them in the order of the instructions.

    A function of the module is known to the checks by its type and its slot: [indexes] maps a
    slot to its place among the functions and the natives.  Operands come from [read_index] and
    have at most 29 bits, so the sums [i + 1 + p] are not computed modulo anything. *)
From S2P Require Import Prelude Opcodes.

(** ** Instructions and functions *)
Record hl_patch_instruction := Instruction { opcode : Z; operand_count : Z; operands : list Z }.
Record hl_source_span := SourceSpan { sp_file : Z; sp_line : Z; sp_column : Z; sp_end_line : Z; sp_end_column : Z; sp_source_hash : Z; sp_start : Z; sp_end : Z; sp_flags : Z }.
(** [relocation_instructions] and [relocation_stable_ids] are one list of pairs. *)
Record hl_patch_function := PatchFunction {
  pf_type : Z; pf_stable_id : Z; pf_findex : Z; pf_registers : list Z; pf_instructions : list hl_patch_instruction;
  pf_relocations : list (Z * Z); pf_debug_spans : list hl_source_span }.
(** The counts of [opcode_operand_counts]. *)
Definition operand_row (row : Z * Z * Z) : Z :=
  let '(a, b, c) := row in
  if c =? OpKinds.VAR_ARGS then -1 else if b =? OpKinds.AR then c else
  (if a =? OpKinds.X then 0 else 1) + (if b =? OpKinds.X then 0 else 1) + (if c =? OpKinds.X then 0 else 1).
Definition opcode_operands (op : Z) : Z := match op_of_Z op with Some o => operand_row (OpKinds.hl_op_args o) | None => -2 end.
(** The opcodes [hl_patch_read] takes a number of arguments for. *)
Definition is_variadic (op : Z) : bool := match op_of_Z op with Some (OCallN | OCallMethod | OCallThis | OCallClosure | OMakeEnum) => true | _ => false end.

(** ** Try regions ([validate_traps]) *)
Definition PATCH_MAX_TRAPS : Z := 32.
Definition is_trap (op : hl_patch_instruction) : bool := match op_of_Z (opcode op) with Some (OTrap | OCleanupTrap) => true | _ => false end.
(** The number of regions open at each instruction, in their order: [open] has the handlers of
    the open regions, the innermost first. *)
Fixpoint trap_regions (i : Z) (open : list Z) (l : list hl_patch_instruction) : option (string + list Z) :=
  match l with
  | [] => Some (inr [])
  | op :: l =>
      let open := match open with t :: rest => if t =? i then rest else open | [] => [] end in
      opened ← (if is_trap op then
        if alen open =? PATCH_MAX_TRAPS then Some (inl "Too many nested patch traps"%string) else p ← aget (operands op) 1; Some (inr (i + 1 + p :: open))
        else Some (inr open));
      match (opened : string + list Z) with
      | inl e => Some (inl e)
      | inr opened =>
          rest ← trap_regions (i + 1) opened l;
          Some (match (rest : string + list Z) with inl e => inl e | inr rest => inr (alen open :: rest) end)
      end
  end.
(** Where control goes from instruction [i], reached at depth [d] with the traps [mask] for
    cleanups: places, depths and masks. *)
Definition trap_flow (i d mask : Z) (op : hl_patch_instruction) : option (string + list (Z * Z * Z)) :=
  let at_ k := aget (operands op) k in
  let end_trap (cleanup : bool) :=
    if d =? 0 then Some (inl "Invalid end-trap operands"%string) else
    let bit := Z.shiftl 1 (d - 1) in
    if negb (Bool.eqb (negb (Z.land mask bit =? 0)) cleanup) then Some (inl "Mismatched cleanup trap"%string) else
    Some (inr [(i + 1, d - 1, Z.land mask (u32 (Z.lnot bit)))]) in
  let begin_trap (cleanup : bool) :=
    if d =? PATCH_MAX_TRAPS then Some (inl "Too many nested patch traps"%string) else
    p ← at_ 1; Some (inr [(i + 1 + p, d, mask); (i + 1, d + 1, if cleanup then Z.lor mask (Z.shiftl 1 d) else mask)]) in
  match op_of_Z (opcode op) with
  | Some (OJTrue | OJFalse | OJNull | OJNotNull) => p ← at_ 1; Some (inr [(i + 1 + p, d, mask); (i + 1, d, mask)])
  | Some (OJSLt | OJSGte | OJSGt | OJSLte | OJULt | OJUGte | OJNotLt | OJNotGte | OJEq | OJNotEq) => p ← at_ 2; Some (inr [(i + 1 + p, d, mask); (i + 1, d, mask)])
  | Some OJAlways => p ← at_ 0; Some (inr [(i + 1 + p, d, mask)])
  | Some ORet => Some (if d =? 0 then inr [] else inl "Unbalanced patch traps"%string)
  | Some (OThrow | ORethrow) => Some (inr [])
  | Some OTrap => begin_trap false
  | Some OCleanupTrap => begin_trap true
  | Some OEndTrap => end_trap false
  | Some OEndCleanupTrap => end_trap true
  | _ => Some (inr [(i + 1, d, mask)])
  end.
(** The arrays [depth] and [guards] and the stack [pending]. *)
Record trap_walk := TrapWalk { tw_depth : list Z; tw_guards : list Z; tw_pending : list Z }.
Definition reach_instruction (w : trap_walk) (to : Z * Z * Z) : option (string + trap_walk) :=
  let '(t, d, mask) := to in
  let n := alen (tw_depth w) in
  if t >=? n then Some (inr w) else
  dt ← aget (tw_depth w) t;
  if dt <? 0 then
    depth ← aset (tw_depth w) t d; guards ← aset (tw_guards w) t mask;
    if alen (tw_pending w) <? n then Some (inr (TrapWalk depth guards (t :: tw_pending w))) else None
  else
    g ← aget (tw_guards w) t;
    Some (if negb (dt =? d) || negb (g =? mask) then inl "Inconsistent patch trap state"%string else inr w).
Fixpoint reach_instructions (w : trap_walk) (l : list (Z * Z * Z)) : option (string + trap_walk) :=
  match l with
  | [] => Some (inr w)
  | to :: l => r ← reach_instruction w to; match (r : string + trap_walk) with inl e => Some (inl e) | inr w => reach_instructions w l end
  end.
Definition trap_walk_step (code : list hl_patch_instruction) (regions : list Z) (w : trap_walk) : option (trap_walk + option string) :=
  match tw_pending w with
  | [] => Some (inr None)
  | i :: rest =>
      d ← aget (tw_depth w) i; mask ← aget (tw_guards w) i; op ← aget code i; region ← aget regions i;
      if region <? d then Some (inr (Some "Patch trap outside its try region"%string)) else
      flow ← trap_flow i d mask op;
      match (flow : string + list (Z * Z * Z)) with
      | inl e => Some (inr (Some e))
      | inr l => r ← reach_instructions (TrapWalk (tw_depth w) (tw_guards w) rest) l; Some (match (r : string + trap_walk) with inl e => inr (Some e) | inr w => inl w end)
      end
  end.
(** [None] when the function is accepted, or the error; [junk] is what fresh memory holds. *)
Definition validate_traps (junk : Z) (code : list hl_patch_instruction) : option (option string) :=
  regions ← trap_regions 0 [] code;
  match (regions : string + list Z) with
  | inl e => Some (Some e)
  | inr regions =>
      let n := length code in
      let w := match code with [] => TrapWalk [] [] [] | _ => TrapWalk (0 :: replicate (n - 1) (-1)) (0 :: replicate (n - 1) junk) [0] end in
      loop (trap_walk_step code regions) (S n) w
  end.

(** ** Operands ([validate_function]) *)
(** What a patch is checked against: the functions of the layout, by the index of their type,
    and their slots; the slots that have code; the natives and the globals of the module; the
    sizes of the pools after the patch. *)
Record patch_layout := Layout { l_functions : list Z; l_indexes : list Z; l_slots : Z }.
Record patch_module := Module_ { m_functions_ptrs : list bool; m_nnatives : Z; m_nglobals : Z; m_npatchglobals : Z }.
Record patch_pools := Pools { n_types : Z; n_ints : Z; n_floats : Z; n_strings : Z; n_globals : Z }.
Definition layout_function (l : patch_layout) (findex : Z) : option (option Z) :=
  index ← (if (findex <? 0) || (findex >=? l_slots l) then Some (-1) else aget (l_indexes l) findex);
  if (index <? 0) || (index >=? alen (l_functions l)) then Some None else t ← aget (l_functions l) index; Some (Some t).
(** [a && b], where [b] is not evaluated when [a] fails. *)
Definition both (a b : option bool) : option bool := x ← a; if (x : bool) then b else Some false.

Section checks.
Context (m : patch_module) (l : patch_layout) (p : patch_pools) (f : hl_patch_function).
Definition valid_reg (reg : Z) : bool := (reg >=? 0) && (reg <? alen (pf_registers f)).
Definition valid_call_target (index : Z) : option bool :=
  if (index >=? 0) && (index <? l_slots l) then aget (m_functions_ptrs m) index else Some false.
Definition valid_function_target (index : Z) : option bool :=
  both (valid_call_target index) (t ← layout_function l index; Some (match t with Some _ => true | None => false end)).
Definition valid_closure_target (index : Z) : option bool :=
  both (valid_call_target index)
    (k ← aget (l_indexes l) index; t ← layout_function l index;
     let native := k - alen (l_functions l) in Some (match t with Some _ => true | None => (native >=? 0) && (native <? m_nnatives m) end)).
(** An instruction: [None] in the result when it is accepted. *)
Definition check_instruction (i : Z) (op : hl_patch_instruction) : option (option string) :=
  let at_ k (P : Z -> bool) := x ← aget (operands op) k; Some (P x) in
  let reg k := at_ k valid_reg in
  let call k (P : Z -> option bool) := x ← aget (operands op) k; P x in
  let target k := at_ k (fun x => negb ((i + 1 + x <? 0) || (i + 1 + x >=? alen (pf_instructions f)))) in
  let below n k := at_ k (fun x => negb ((x <? 0) || (x >=? n))) in
  let natural k := at_ k (fun x => negb (x <? 0)) in
  let count := at_ 2 (fun x => negb ((x <? 0) || negb (x =? operand_count op - 3))) in
  let check (c : option bool) (msg : string) (next : option (option string)) := x ← c; if (x : bool) then next else Some (Some msg) in
  let args from := foldr (fun k r => both (reg k) r) (Some true) (seqZ from (operand_count op - from)) in
  let accept := Some (None : option string) in
  match op_of_Z (opcode op) with
  | Some OLabel => accept
  | Some OMov => check (both (reg 0) (reg 1)) "Invalid move operands"%string accept
  | Some OInt => check (both (reg 0) (below (n_ints p) 1)) "Invalid Int operands"%string accept
  | Some OFloat => check (both (reg 0) (below (n_floats p) 1)) "Invalid Float operands"%string accept
  | Some OString => check (both (reg 0) (below (n_strings p) 1)) "Invalid String operands"%string accept
  | Some OBool => check (both (reg 0) (at_ 1 (fun x => (x =? 0) || (x =? 1)))) "Invalid Bool operands"%string accept
  | Some (OAdd | OSub | OMul | OSDiv | OSMod | OShl | OSShr | OUShr | OAnd | OOr | OXor) => check (both (reg 0) (both (reg 1) (reg 2))) "Invalid arithmetic operands"%string accept
  | Some (OCall0 | OCall1 | OCall2 | OCall3 | OCall4) => check (both (reg 0) (call 1 valid_call_target)) "Invalid call target"%string (check (args 2) "Invalid call argument"%string accept)
  | Some OCallN => check (both (reg 0) (both (call 1 valid_call_target) count)) "Invalid variadic call"%string (check (args 3) "Invalid call argument"%string accept)
  | Some (OCallMethod | OCallThis) => check (both (reg 0) (both (natural 1) count)) "Invalid method call"%string (check (args 3) "Invalid call argument"%string accept)
  | Some OCallClosure => check (both (reg 0) (both (reg 1) count)) "Invalid closure call"%string (check (args 3) "Invalid call argument"%string accept)
  | Some OStaticClosure => check (both (reg 0) (call 1 valid_closure_target)) "Invalid static closure"%string accept
  | Some OInstanceClosure => check (both (reg 0) (both (call 1 valid_function_target) (reg 2))) "Invalid instance closure"%string accept
  | Some OField => check (both (reg 0) (both (reg 1) (natural 2))) "Invalid field read"%string accept
  | Some OSetField => check (both (reg 0) (both (natural 1) (reg 2))) "Invalid field write"%string accept
  | Some OGetArray => check (both (reg 0) (both (reg 1) (reg 2))) "Invalid array read"%string accept
  | Some OSetArray => check (both (reg 0) (both (reg 1) (reg 2))) "Invalid array write"%string accept
  | Some OArraySize => check (both (reg 0) (reg 1)) "Invalid array size"%string accept
  | Some ONew => check (reg 0) "Invalid object allocation"%string accept
  | Some OMakeEnum => check (both (reg 0) (both (natural 1) count)) "Invalid enum construction"%string (check (args 3) "Invalid enum argument"%string accept)
  | Some (OEnumAlloc | OEnumIndex) => check (both (reg 0) (reg 1)) "Invalid enum operation"%string accept
  | Some OEnumField => check (both (reg 0) (both (reg 1) (both (natural 2) (natural 3)))) "Invalid enum field"%string accept
  | Some OType => check (both (reg 0) (below (n_types p) 1)) "Invalid type literal"%string accept
  | Some OGetGlobal => check (both (reg 0) (below (m_nglobals m + n_globals p) 1)) "Invalid global read"%string accept
  | Some OSetGlobal => check (both (below (m_nglobals m - m_npatchglobals m) 0) (reg 1)) "Invalid global write"%string accept
  | Some (ONull | OGetThis | OSetThis | OToDyn | OToSFloat | OToUFloat | OToInt | OSafeCast | OUnsafeCast | OToVirtual) =>
      check (both (reg 0) (if operand_count op >? 1 then reg 1 else Some true)) "Invalid unary operation"%string accept
  | Some (OJTrue | OJFalse | OJNull | OJNotNull) => check (both (reg 0) (target 1)) "Invalid conditional branch"%string accept
  | Some (OJSLt | OJSGte | OJSGt | OJSLte | OJULt | OJUGte | OJNotLt | OJNotGte | OJEq | OJNotEq) => check (both (reg 0) (both (reg 1) (target 2))) "Invalid comparison branch"%string accept
  | Some OJAlways => check (target 0) "Invalid branch"%string accept
  | Some ORet => check (reg 0) "Invalid return register"%string accept
  | Some (OThrow | ORethrow) => check (reg 0) "Invalid throw register"%string accept
  | Some ONullCheck => check (reg 0) "Invalid null check register"%string accept
  | Some (OIncr | ODecr) => check (reg 0) "Invalid register operand"%string accept
  | Some (ONeg | ONot | OGetType | OGetTID | ORef | OUnref | OSetref | ORefData) => check (both (reg 0) (reg 1)) "Invalid register operands"%string accept
  | Some (OUDiv | OUMod | OGetI8 | OGetI16 | OGetMem | OSetI8 | OSetI16 | OSetMem | ORefOffset) => check (both (reg 0) (both (reg 1) (reg 2))) "Invalid register operands"%string accept
  | Some (OTrap | OCleanupTrap) => check (both (reg 0) (both (natural 1) (at_ 1 (fun x => negb (i + 1 + x >=? alen (pf_instructions f)))))) "Invalid trap operands"%string accept
  | Some (OEndTrap | OEndCleanupTrap) => check (reg 0) "Invalid end-trap operands"%string accept
  | _ => Some (Some "Unsupported patch opcode"%string)
  end.
Fixpoint check_instructions (i : Z) (ops : list hl_patch_instruction) : option (option string) :=
  match ops with
  | [] => Some None
  | op :: ops => r ← check_instruction i op; match (r : option string) with None => check_instructions (i + 1) ops | Some e => Some (Some e) end
  end.
Definition validate_function (junk : Z) : option (option string) :=
  live ← layout_function l (pf_findex f);
  match (live : option Z) with
  | None => Some (Some "Unknown stable function slot"%string)
  | Some live =>
      if (pf_type f <? 0) || (pf_type f >=? n_types p) || negb (live =? pf_type f) then Some (Some "Patch function signature changed"%string) else
      if existsb (fun r => (r <? 0) || (r >=? n_types p)) (pf_registers f) then Some (Some "Invalid patch register type"%string) else
      r ← check_instructions 0 (pf_instructions f);
      match (r : option string) with None => validate_traps junk (pf_instructions f) | Some e => Some (Some e) end
  end.
End checks.
(** The functions of a patch in turn, each in a slot that the ones [before] do not have. *)
Fixpoint validate_patch_functions (m : patch_module) (l : patch_layout) (p : patch_pools) (junk : Z) (before fs : list hl_patch_function) : option (option string) :=
  match fs with
  | [] => Some None
  | f :: fs =>
      if existsb (fun g => pf_findex g =? pf_findex f) before then Some (Some "Duplicate stable function slot"%string) else
      r ← validate_function m l p f junk;
      match (r : option string) with None => validate_patch_functions m l p junk (f :: before) fs | Some e => Some (Some e) end
  end.
