(* ===== verification/PatchTraps.v ===== *)
(** * Balanced try regions

    The machine that a function's control flow is: a place and the stack of the traps that are
    active, each a try or a cleanup.  [validate_traps] accepts exactly the functions in which
    every instruction is reached with one stack, ends the traps it begins, returns outside them
    and lies inside as many regions, in the order of the instructions, as traps are active. *)
From S2P Require Import Prelude Opcodes Patch.

(** ** The machine *)
(** The operand that holds the offset of a branch. *)
Definition jump_operand (o : hl_op) : option Z :=
  match o with
  | OJTrue | OJFalse | OJNull | OJNotNull | OTrap | OCleanupTrap => Some 1
  | OJSLt | OJSGte | OJSGt | OJSLte | OJULt | OJUGte | OJNotLt | OJNotGte | OJEq | OJNotEq => Some 2
  | OJAlways => Some 0
  | _ => None
  end.
(** The stack with which control goes on to the next instruction: [true] is a cleanup. *)
Definition falls_through (o : hl_op) (s : list bool) : option (list bool) :=
  match o with
  | ORet | OThrow | ORethrow | OJAlways => None
  | OTrap => Some (false :: s)
  | OCleanupTrap => Some (true :: s)
  | OEndTrap | OEndCleanupTrap => Some (tail s)
  | _ => Some s
  end.
Definition jump_offset (op : hl_patch_instruction) : option Z := k ← op_of_Z (opcode op) ≫= jump_operand; aget (operands op) k.
(** A branch, and a trap whose handler is entered, keep the stack. *)
Definition trap_moves (i : Z) (op : hl_patch_instruction) (s : list bool) : list (Z * list bool) :=
  (match jump_offset op with Some p => [(i + 1 + p, s)] | None => [] end) ++
  match op_of_Z (opcode op) with Some o => match falls_through o s with Some s' => [(i + 1, s')] | None => [] end | None => [(i + 1, s)] end.
(** What the stack must be for the instruction. *)
Definition trap_allowed (op : hl_patch_instruction) (s : list bool) : Prop :=
  match op_of_Z (opcode op) with
  | Some ORet => s = []
  | Some (OTrap | OCleanupTrap) => alen s < PATCH_MAX_TRAPS
  | Some OEndTrap => exists s', s = false :: s'
  | Some OEndCleanupTrap => exists s', s = true :: s'
  | _ => True
  end.
Inductive trap_reach (code : list hl_patch_instruction) : Z -> list bool -> Prop :=
  | trap_start : 0 < alen code -> trap_reach code 0 []
  | trap_next i s op j s' : trap_reach code i s -> aget code i = Some op -> (j, s') ∈ trap_moves i op s -> j < alen code -> trap_reach code j s'.
Record balanced_in (code : list hl_patch_instruction) (regions : list Z) : Prop := Balanced {
  ba_allowed : forall i s op, trap_reach code i s -> aget code i = Some op -> trap_allowed op s;
  ba_region : forall i s r, trap_reach code i s -> aget regions i = Some r -> alen s <= r;
  ba_once : forall i s s', trap_reach code i s -> trap_reach code i s' -> s = s' }.
Definition balanced (code : list hl_patch_instruction) : Prop := exists regions, trap_regions 0 [] code = Some (inr regions) /\ balanced_in code regions.
(** Branches have their operand and do not go before the first instruction. *)
Definition branches_ok (code : list hl_patch_instruction) : Prop := forall i op k, aget code i = Some op -> op_of_Z (opcode op) ≫= jump_operand = Some k -> exists p, aget (operands op) k = Some p /\ 0 <= i + 1 + p.

(** ** Stacks as numbers
    [depth] has the height of the stack, [guards] the bits of its cleanups. *)
Fixpoint cleanup_mask (s : list bool) : Z := match s with [] => 0 | b :: s => cleanup_mask s + Z.b2z b * 2 ^ alen s end.
Lemma cleanup_mask_range s : 0 <= cleanup_mask s < 2 ^ alen s.
Proof. induction s as [|b s IH]; [done|]. cbn [cleanup_mask]. pose proof (alen_nonneg s). rewrite alen_cons, (Z.add_comm 1), Z.pow_add_r, Z.pow_1_r by lia. destruct b; cbn [Z.b2z]; lia. Qed.
Lemma cleanup_mask_inj s s' : alen s = alen s' -> cleanup_mask s = cleanup_mask s' -> s = s'.
Proof.
  revert s'. induction s as [|b s IH]; intros [|b' s']; [done|rewrite alen_cons, alen_nil; pose proof (alen_nonneg s'); lia|rewrite alen_cons, alen_nil; pose proof (alen_nonneg s); lia|]. rewrite !alen_cons. cbn [cleanup_mask]. intros Hl Hm. assert (alen s = alen s') as Hls by lia.
  pose proof (cleanup_mask_range s). pose proof (cleanup_mask_range s'). rewrite Hls in *. destruct b, b'; cbn [Z.b2z] in Hm; [|lia|lia|]; f_equal; apply IH; lia.
Qed.
Lemma cleanup_mask_bit s b : Z.testbit (cleanup_mask (b :: s)) (alen s) = b.
Proof.
  cbn [cleanup_mask]. pose proof (cleanup_mask_range s). pose proof (alen_nonneg s). rewrite <- (Z.add_0_l (alen s)) at 2. rewrite <- Z.shiftr_spec, Z.shiftr_div_pow2, Z.div_add, Z.div_small by lia. by destruct b.
Qed.
Lemma cleanup_mask_push s : Z.lor (cleanup_mask s) (Z.shiftl 1 (alen s)) = cleanup_mask (true :: s).
Proof. pose proof (cleanup_mask_range s). pose proof (alen_nonneg s). rewrite Z.lor_comm, Z.shiftl_1_l, (lor_add (alen s)) by (try apply Z.mod_same; lia). cbn [cleanup_mask Z.b2z]. lia. Qed.
Lemma cleanup_mask_pop s b : alen s < 32 -> Z.land (cleanup_mask (b :: s)) (u32 (Z.lnot (Z.shiftl 1 (alen s)))) = cleanup_mask s.
Proof.
  intros Hs. pose proof (cleanup_mask_range s). pose proof (alen_nonneg s). rewrite Z.shiftl_1_l. cbn [cleanup_mask]. apply Z.bits_inj'. intros j Hj. rewrite Z.land_spec. unfold uN.
  assert (0 <= cleanup_mask s + Z.b2z b * 2 ^ alen s < 2 ^ (alen s + 1)) as Hr by (rewrite Z.pow_add_r, Z.pow_1_r by lia; destruct b; cbn [Z.b2z]; lia).
  assert (forall x n, 0 <= x < 2 ^ n -> n <= j -> Z.testbit x j = false) as Hhigh.
  { intros x n Hx Hn. destruct (decide (x = 0)) as [->|]; [apply Z.bits_0|]. apply Z.bits_above_log2; [lia|]. apply Z.log2_lt_pow2; [lia|]. assert (2 ^ n <= 2 ^ j) by (apply Z.pow_le_mono_r; lia). lia. }
  destruct (Z.lt_trichotomy j (alen s)) as [Hlt|[->|Hgt]].
  - rewrite Z.mod_pow2_bits_low, Z.lnot_spec, Z.pow2_bits_false, andb_true_r by lia. rewrite <- (Z.mod_pow2_bits_low (_ + _) (alen s)) by lia. by rewrite Z.mod_add, Z.mod_small by lia.
  - rewrite Z.mod_pow2_bits_low, Z.lnot_spec, Z.pow2_bits_true, andb_false_r by lia. symmetry. by apply (Hhigh _ (alen s)).
  - rewrite (Hhigh _ (alen s + 1)) by lia. symmetry. apply (Hhigh _ (alen s)); lia.
Qed.
Definition as_numbers (c : Z * list bool) : Z * Z * Z := (c.1, alen c.2, cleanup_mask c.2).
Lemma trap_flow_spec i op s : (forall k, op_of_Z (opcode op) ≫= jump_operand = Some k -> exists p, aget (operands op) k = Some p) -> alen s <= 32 ->
  exists res, trap_flow i (alen s) (cleanup_mask s) op = Some res /\ match res with inl _ => ~ trap_allowed op s | inr l => trap_allowed op s /\ l = map as_numbers (trap_moves i op s) end.
Proof.
  intros Hop Hs. unfold trap_flow, trap_allowed, trap_moves, jump_offset. pose proof (alen_nonneg s) as Hnn.
  assert (forall cleanup, exists res, (if alen s =? 0 then Some (inl "Invalid end-trap operands"%string) else
      if negb (Bool.eqb (negb (Z.land (cleanup_mask s) (Z.shiftl 1 (alen s - 1)) =? 0)) cleanup) then Some (inl "Mismatched cleanup trap"%string) else Some (inr [(i + 1, alen s - 1, Z.land (cleanup_mask s) (u32 (Z.lnot (Z.shiftl 1 (alen s - 1)))))])) = Some res /\
    match res with inl _ => ~ (exists s', s = cleanup :: s') | inr l => (exists s', s = cleanup :: s') /\ l = [as_numbers (i + 1, tail s)] end) as Hend.
  { intros cleanup. destruct s as [|b s]; [eexists; split; [done|]; by intros [? ?]|]. rewrite !alen_cons in *. pose proof (alen_nonneg s). destruct (Z.eqb_spec (1 + alen s) 0); [lia|]. replace (1 + alen s - 1) with (alen s) by lia. rewrite bit_test, cleanup_mask_bit by done.
    destruct (Bool.eqb b cleanup) eqn:E; cbn [negb].
    - apply Bool.eqb_prop in E as ->. eexists. split; [done|]. split; [by exists s|]. unfold as_numbers. cbn [fst snd tail]. by rewrite cleanup_mask_pop by lia.
    - eexists. split; [done|]. intros [s' [= ->]]. by rewrite Bool.eqb_reflx in E. }
  destruct (op_of_Z (opcode op)) as [o|]; [|eexists; split; [done|]; done]. cbn [mbind option_bind] in *.
  destruct o; cbn [jump_operand falls_through mbind option_bind] in *;
    first [ exact (Hend false) | exact (Hend true)
          | (eexists; split; [reflexivity|]; by split)
          | (destruct (Hop _ eq_refl) as [p ->]; cbn [mbind option_bind]; eexists; split; [reflexivity|]; by split)
          | idtac ].
  - destruct s as [|b s]; [eexists; split; [done|]; done|]. rewrite alen_cons in *. pose proof (alen_nonneg s). destruct (Z.eqb_spec (1 + alen s) 0); [lia|]. eexists. split; [done|]. done.
  - destruct (Hop _ eq_refl) as [p ->]. unfold PATCH_MAX_TRAPS. destruct (Z.eqb_spec (alen s) 32) as [E|]; cbn [mbind option_bind]; eexists; (split; [done|]); [intros Hlt; lia|]. split; [lia|]. cbn [map app as_numbers fst snd]. unfold as_numbers. cbn [fst snd cleanup_mask Z.b2z]. by rewrite alen_cons, (Z.add_comm (alen s)), Z.mul_0_l, Z.add_0_r.
  - destruct (Hop _ eq_refl) as [p ->]. unfold PATCH_MAX_TRAPS. destruct (Z.eqb_spec (alen s) 32) as [E|]; cbn [mbind option_bind]; eexists; (split; [done|]); [intros Hlt; lia|]. split; [lia|]. cbn [map app as_numbers fst snd]. unfold as_numbers. cbn [fst snd]. rewrite cleanup_mask_push, alen_cons. by rewrite (Z.add_comm (alen s)).
Qed.

(** ** The regions in the order of the instructions *)
Lemma trap_regions_spec l : (forall op, op ∈ l -> is_trap op = true -> exists p, aget (operands op) 1 = Some p) -> forall i open, alen open <= 32 ->
  exists res, trap_regions i open l = Some res /\ match res with inl _ => True | inr r => alen r = alen l /\ Forall (fun n => n <= 32) r end.
Proof.
  induction l as [|op l IH]; intros Hl i open Ho; cbn [trap_regions]; [by eexists|]. cbv zeta. set (open' := match open with t :: rest => if t =? i then rest else open | [] => [] end).
  assert (alen open' <= 32) as Ho' by (unfold open'; destruct open as [|t rest]; [done|]; destruct (t =? i); [rewrite alen_cons in Ho; lia|done]).
  assert (forall o2, alen o2 <= 32 -> exists res, (rest ← trap_regions (i + 1) o2 l; Some (match (rest : string + list Z) with inl e => inl e | inr rest => inr (alen open' :: rest) end)) = Some res /\
    match res with inl _ => True | inr r => alen r = alen (op :: l) /\ Forall (fun n => n <= 32) r end) as Hrest.
  { intros o2 H2. destruct (IH ltac:(intros; apply Hl; [by right|done]) (i + 1) o2 H2) as (res & -> & Hres). cbn [mbind option_bind]. eexists. split; [done|]. destruct res as [|r]; [done|]. destruct Hres as [E F]. rewrite !alen_cons. split; [lia|]. by constructor. }
  destruct (is_trap op) eqn:Et; cbn [mbind option_bind]; [|by apply Hrest]. unfold PATCH_MAX_TRAPS. destruct (Z.eqb_spec (alen open') 32); cbn [mbind option_bind]; [by eexists|].
  destruct (Hl op ltac:(by left) Et) as [p ->]. cbn [mbind option_bind]. apply Hrest. rewrite alen_cons. lia.
Qed.
Lemma is_trap_operand op : is_trap op = true -> op_of_Z (opcode op) ≫= jump_operand = Some 1.
Proof. unfold is_trap. destruct (op_of_Z (opcode op)) as [o|]; [|done]. by destruct o. Qed.

(** ** The walk *)
Section walk.
Context (code : list hl_patch_instruction) (regions : list Z).
Hypothesis Hcode : branches_ok code.
Hypothesis Hregions : alen regions = alen code /\ Forall (fun n => n <= 32) regions.
Definition visited (w : trap_walk) (i : Z) (s : list bool) : Prop := aget (tw_depth w) i = Some (alen s) /\ aget (tw_guards w) i = Some (cleanup_mask s) /\ trap_reach code i s /\ alen s <= 32.
(** The places still to be looked at are [todo]; the others have been, and so have their successors been reached. *)
Record walk_inv (w : trap_walk) (todo : list Z) : Prop := WalkInv {
  wi_len : alen (tw_depth w) = alen code /\ alen (tw_guards w) = alen code;
  wi_visited : forall i d, aget (tw_depth w) i = Some d -> 0 <= d -> exists s, visited w i s;
  wi_todo : NoDup todo /\ forall i, i ∈ todo -> exists s, visited w i s;
  wi_done : forall i s, visited w i s -> i ∉ todo -> exists op r, aget code i = Some op /\ aget regions i = Some r /\ alen s <= r /\ trap_allowed op s /\ forall j s', (j, s') ∈ trap_moves i op s -> j < alen code -> visited w j s' }.
Lemma visited_fun w i s s' : visited w i s -> visited w i s' -> s = s'.
Proof. intros (H1 & H2 & _) (H3 & H4 & _). apply cleanup_mask_inj; congruence. Qed.
Definition unvisited (l : list Z) : nat := length (filter (fun d => d < 0) l).
Lemma unvisited_insert l i x d : l !! i = Some x -> x < 0 -> 0 <= d -> S (unvisited (<[i := d]> l)) = unvisited l.
Proof.
  revert i. unfold unvisited. induction l as [|y l IH]; intros i Hi Hx Hd; [done|]. destruct i as [|i].
  - injection Hi as ->. change (<[0%nat := d]> (x :: l)) with (d :: l). rewrite filter_cons_False by lia. by rewrite filter_cons_True by lia.
  - change (<[S i := d]> (y :: l)) with (y :: <[i := d]> l). destruct (decide (y < 0)); [rewrite !filter_cons_True by done; cbn [length]; by rewrite IH|rewrite !filter_cons_False by done; by apply IH].
Qed.
Definition walk_left (w : trap_walk) : nat := unvisited (tw_depth w) + length (tw_pending w).
(** Two stacks at one place. *)
Definition conflicting : Prop := exists i s s', trap_reach code i s /\ trap_reach code i s' /\ s <> s'.
Lemma reach_instruction_spec w i j s : walk_inv w (i :: tw_pending w) -> i ∉ tw_pending w -> 0 <= j -> (j < alen code -> trap_reach code j s) -> alen s <= 32 ->
  exists res, reach_instruction w (as_numbers (j, s)) = Some res /\ match res with
    | inl _ => conflicting
    | inr w' => walk_inv w' (i :: tw_pending w') /\ ~ (i ∈ tw_pending w') /\ walk_left w' = walk_left w /\ (forall k t, visited w k t -> visited w' k t) /\ (j < alen code -> visited w' j s) end.
Proof using Hcode.
  intros Hw Hi Hj Hr Hs. pose proof Hw as [[Hl1 Hl2] Hv [Hnd Htodo] Hdone]. unfold reach_instruction, as_numbers. cbn [fst snd]. rewrite Hl1. destruct (Z.geb_spec j (alen code)) as [Hge|Hlt].
  { eexists. split; [done|]. split; [done|]. split; [done|]. split; [done|]. split; [done|]. lia. }
  specialize (Hr Hlt). destruct (aget_is_Some (tw_depth w) j) as [dt Hdt]; [lia|]. rewrite Hdt. cbn [mbind option_bind]. destruct (Z.ltb_spec dt 0) as [Hneg|Hpos].
  - rewrite !aset_Some by lia. cbn [mbind option_bind]. pose proof (alen_nonneg s) as Hsn.
    assert (j ∉ i :: tw_pending w) as Hnew by (intros Hin; destruct (Htodo j Hin) as (s0 & E & _); pose proof (alen_nonneg s0); rewrite Hdt in E; injection E; lia).
    assert (alen (tw_pending w) < alen code) as Hlen.
    { assert (NoDup (j :: tw_pending w)) as Hnd2 by (apply NoDup_cons; split; [intros ?; by apply Hnew; right|by apply NoDup_cons in Hnd as [_ ?]]).
      assert (length (j :: tw_pending w) <= length (seqZ 0 (alen code)))%nat as Hle.
      { apply submseteq_length, NoDup_submseteq; [done|]. intros k [->|Hk]%elem_of_cons; apply elem_of_seqZ; [lia|]. destruct (Htodo k ltac:(by right)) as (s0 & E & _). apply aget_Some_range in E. lia. }
      rewrite length_seqZ in Hle. cbn [length] in Hle. unfold alen in *. lia. }
    rewrite (proj2 (Z.ltb_lt _ _) Hlen). eexists. split; [done|]. cbn [tw_pending]. set (w' := TrapWalk _ _ _).
    assert (visited w' j s) as Hvj by (split; [cbn; by rewrite aget_insert_eq by lia|split; [cbn; by rewrite aget_insert_eq by lia|done]]).
    assert (forall k t, k <> j -> (visited w' k t <-> visited w k t)) as Hother by (intros k t Hk; unfold visited; cbn; by rewrite !aget_insert_ne by lia).
    assert (forall k t, visited w k t -> visited w' k t) as Hmono by (intros k t Hkt; apply Hother; [|done]; intros ->; destruct Hkt as (E & _); pose proof (alen_nonneg t); rewrite Hdt in E; injection E; lia).
    split; [|split; [|split; [|done]]].
    + split.
      * cbn. by rewrite !alen_insert.
      * intros k d Hk Hd. destruct (decide (k = j)) as [->|Hne]; [by exists s|]. cbn in Hk. rewrite aget_insert_ne in Hk by lia. destruct (Hv k d Hk Hd) as [t Ht]. exists t. by apply Hmono.
      * split; [apply NoDup_cons in Hnd as [_ Hnd]; apply NoDup_cons; split; [intros [->|?]%elem_of_cons; [apply Hnew; by left|done]|apply NoDup_cons; split; [intros ?; by apply Hnew; right|done]]|].
        intros k [->|[->|Hk]%elem_of_cons]%elem_of_cons; [destruct (Htodo i ltac:(by left)) as [t Ht]|by exists s|destruct (Htodo k ltac:(by right)) as [t Ht]]; exists t; by apply Hmono.
      * intros k t Hk Hnot. assert (k <> j) as Hne by (intros ->; apply Hnot; right; by left). apply Hother in Hk; [|done]. destruct (Hdone k t Hk) as (op & r & H1 & H2 & H3 & H4 & H5); [intros [->|?]%elem_of_cons; apply Hnot; [by left|right; by right]|]. exists op, r. do 4 (split; [done|]). intros k2 t2 H6 H7. by apply Hmono, H5.
    + intros [->|?]%elem_of_cons; [apply Hnew; by left|done].
    + unfold walk_left. cbn [w' tw_depth tw_pending length]. rewrite aget_lookup in Hdt by lia. pose proof (unvisited_insert _ _ _ (alen s) Hdt Hneg Hsn). lia.
  - destruct (aget_is_Some (tw_guards w) j) as [g Hg]; [lia|]. rewrite Hg. cbn [mbind option_bind]. destruct (Hv j dt Hdt Hpos) as (s0 & E1 & E2 & E3 & E4). assert (dt = alen s0) as -> by congruence. assert (g = cleanup_mask s0) as -> by congruence.
    destruct (Z.eqb_spec (alen s0) (alen s)) as [El|Hne]; cbn [negb orb].
    + destruct (Z.eqb_spec (cleanup_mask s0) (cleanup_mask s)) as [Em|Hne]; cbn [negb]; eexists; (split; [done|]).
      * assert (s0 = s) as -> by by apply cleanup_mask_inj. by repeat (split; [done|]).
      * exists j, s0, s. split; [done|]. split; [done|]. by intros ->.
    + eexists. split; [done|]. exists j, s0, s. split; [done|]. split; [done|]. by intros ->.
Qed.
Lemma reach_instructions_spec l : forall w i, walk_inv w (i :: tw_pending w) -> i ∉ tw_pending w -> (forall j s, (j, s) ∈ l -> 0 <= j /\ (j < alen code -> trap_reach code j s) /\ alen s <= 32) ->
  exists res, reach_instructions w (map as_numbers l) = Some res /\ match res with
    | inl _ => conflicting
    | inr w' => walk_inv w' (i :: tw_pending w') /\ walk_left w' = walk_left w /\ (forall k t, visited w k t -> visited w' k t) /\ forall j s, (j, s) ∈ l -> j < alen code -> visited w' j s end.
Proof using Hcode.
  induction l as [|[j s] l IH]; intros w i Hw Hi Hl; cbn [map reach_instructions]; [eexists; split; [done|]; do 3 (split; [done|]); by intros j s ?%elem_of_nil|]. destruct (Hl j s ltac:(by left)) as (H1 & H2 & H3).
  destruct (reach_instruction_spec w i j s Hw Hi H1 H2 H3) as (res & -> & Hres). cbn [mbind option_bind]. destruct res as [e|w1]; [by eexists|]. destruct Hres as (Hw1 & Hi1 & Hleft & Hm & Hv).
  destruct (IH w1 i Hw1 Hi1) as (res & -> & Hres); [intros j' s' Hin; apply Hl; by right|]. eexists. split; [done|]. destruct res as [e|w2]; [done|]. destruct Hres as (Hw2 & Hleft2 & Hm2 & Hv2). split; [done|]. split; [congruence|]. split; [auto|].
  intros j' s' [[= -> ->]|Hin]%elem_of_cons Hlt; [by apply Hm2, Hv|by apply Hv2].
Qed.
(** Nothing is wrong with any stack that reaches an instruction. *)
Definition walk_ends (r : option string) : Prop := r = None <-> balanced_in code regions.
Lemma moves_reach i op s : trap_reach code i s -> aget code i = Some op -> trap_allowed op s -> alen s <= 32 -> forall j s', (j, s') ∈ trap_moves i op s -> 0 <= j /\ (j < alen code -> trap_reach code j s') /\ alen s' <= 32.
Proof using Hcode.
  intros Hr Hop Hal Hs j s' Hin. pose proof (aget_Some_range _ _ _ Hop) as Hi. split; [|split; [intros Hlt; by apply (trap_next code i s op)|]].
  - apply elem_of_app in Hin as [Hin|Hin].
    + unfold jump_offset in Hin. destruct (op_of_Z (opcode op) ≫= jump_operand) as [k|] eqn:Ek; [|by apply elem_of_nil in Hin]. destruct (Hcode i op k Hop Ek) as (p & Ep & Hp). cbn [mbind option_bind] in Hin. rewrite Ep in Hin. apply list_elem_of_singleton in Hin. injection Hin as -> _. done.
    + destruct (op_of_Z (opcode op)) as [o|]; [|apply list_elem_of_singleton in Hin; injection Hin as -> _; lia]. destruct (falls_through o s); [|by apply elem_of_nil in Hin]. apply list_elem_of_singleton in Hin. injection Hin as -> _. lia.
  - apply elem_of_app in Hin as [Hin|Hin].
    + destruct (jump_offset op); [|by apply elem_of_nil in Hin]. apply list_elem_of_singleton in Hin. by injection Hin as _ ->.
    + unfold trap_allowed in Hal. destruct (op_of_Z (opcode op)) as [o|]; [|apply list_elem_of_singleton in Hin; by injection Hin as _ ->]. destruct (falls_through o s) as [s2|] eqn:Ef; [|by apply elem_of_nil in Hin]. apply list_elem_of_singleton in Hin. injection Hin as _ ->.
      unfold PATCH_MAX_TRAPS in Hal. destruct o; cbn in Ef; try discriminate Ef; injection Ef as <-; try done; rewrite ?alen_cons; try lia; destruct Hal as [t ->]; cbn [tail]; rewrite alen_cons in Hs; lia.
Qed.
Lemma conflicting_end e : conflicting -> walk_ends (Some e).
Proof. intros (i & s & s' & H1 & H2 & Hne). split; [done|]. intros [_ _ H]. by destruct Hne, (H i s s'). Qed.
(** When nothing is left every place that is reached is the one that was looked at. *)
Lemma walk_done w : walk_inv w [] -> (0 < alen code -> visited w 0 []) -> walk_ends None.
Proof.
  intros [_ _ _ Hdone] H0. split; [|done]. intros _. assert (forall i s, trap_reach code i s -> visited w i s) as Hall.
  { induction 1 as [Hpos|i s op j s' _ IH Hop Hin Hj]; [by apply H0|]. destruct (Hdone i s IH) as (op' & r & E & _ & _ & _ & Hm); [by intros ?%elem_of_nil|]. assert (op' = op) as -> by congruence. by apply Hm. }
  split.
  - intros i s op Hr Hop. destruct (Hdone i s (Hall i s Hr)) as (op' & r & E & _ & _ & Hal & _); [by intros ?%elem_of_nil|]. assert (op' = op) as -> by congruence. exact Hal.
  - intros i s r Hr Hreg. destruct (Hdone i s (Hall i s Hr)) as (op' & r' & _ & E & Hle & _); [by intros ?%elem_of_nil|]. assert (r' = r) as -> by congruence. exact Hle.
  - intros i s s' H1 H2. by apply (visited_fun w i); apply Hall.
Qed.
Lemma trap_walk_step_spec w : walk_inv w (tw_pending w) -> (0 < alen code -> visited w 0 []) ->
  (exists w', trap_walk_step code regions w = Some (inl w') /\ (walk_inv w' (tw_pending w') /\ (0 < alen code -> visited w' 0 [])) /\ (walk_left w' < walk_left w)%nat) \/ exists r, trap_walk_step code regions w = Some (inr r) /\ walk_ends r.
Proof using Hcode Hregions.
  intros Hw H0. unfold trap_walk_step. destruct w as [depth guards [|i rest]]; cbn [tw_pending tw_depth tw_guards] in *.
  { right. eexists. split; [done|]. by apply (walk_done (TrapWalk depth guards [])). }
  pose proof Hw as [[Hl1 Hl2] Hv [Hnd Htodo] Hdone]. destruct (Htodo i ltac:(by left)) as (s & Hvis). pose proof Hvis as (E1 & E2 & Hr & Hs). cbn [tw_depth tw_guards] in E1, E2. rewrite E1. cbn [mbind option_bind]. rewrite E2. cbn [mbind option_bind].
  pose proof (aget_Some_range _ _ _ E1) as Hi. cbn in Hl1. destruct (aget_is_Some code i) as [op Hop]; [lia|]. rewrite Hop. cbn [mbind option_bind]. destruct Hregions as [Hrl _]. destruct (aget_is_Some regions i) as [r Hreg]; [lia|]. rewrite Hreg. cbn [mbind option_bind].
  destruct (Z.ltb_spec r (alen s)) as [Hout|Hin]; [right; eexists; split; [done|]; split; [done|]; intros [_ Hba _]; specialize (Hba i s r Hr Hreg); lia|].
  destruct (trap_flow_spec i op s) as (flow & -> & Hflow); [intros k Hk; destruct (Hcode i op k Hop Hk) as (p & Ep & _); by exists p|done|]. cbn [mbind option_bind]. destruct flow as [e|l]; [right; eexists; split; [done|]; split; [done|]; intros [Hba _ _]; destruct Hflow; by apply (Hba i)|]. destruct Hflow as [Hal ->].
  assert (walk_inv (TrapWalk depth guards rest) (i :: rest)) as Hw1 by (destruct Hw as [X1 X2 X3 X4]; split; [exact X1|exact X2|exact X3|exact X4]). apply NoDup_cons in Hnd as [Hnot Hnd].
  destruct (reach_instructions_spec (trap_moves i op s) (TrapWalk depth guards rest) i Hw1 Hnot (moves_reach i op s Hr Hop Hal Hs)) as (res & -> & Hres). cbn [mbind option_bind]. destruct res as [e|w2]; [right; eexists; split; [done|]; by apply conflicting_end|].
  destruct Hres as (Hw2 & Hleft & Hm & Hv2). left. eexists. split; [done|]. split; [|rewrite Hleft; unfold walk_left; cbn [tw_depth tw_pending length]; lia]. split; [|intros Hpos; apply Hm; exact (H0 Hpos)].
  destruct Hw2 as [H1 H2 [H3 H4] H5]. apply NoDup_cons in H3 as [_ H3]. split; [done|done|split; [done|intros k Hk; apply H4; by right]|]. intros k t Hk Hnk. destruct (decide (k = i)) as [->|Hne]; [|apply H5; [done|by intros [?|?]%elem_of_cons]].
  assert (t = s) as -> by (apply (visited_fun w2 i); [done|apply Hm; exact Hvis]). exists op, r. do 4 (split; [done|]). exact Hv2.
Qed.
End walk.
Lemma unvisited_replicate n : unvisited (replicate n (-1)) = n.
Proof. unfold unvisited. induction n as [|n IH]; [done|]. cbn [replicate]. rewrite filter_cons_True by lia. cbn [length]. by rewrite IH. Qed.
Lemma validate_traps_spec junk code : branches_ok code -> exists r, validate_traps junk code = Some r /\ (r = None <-> balanced code).
Proof.
  intros Hcode. unfold validate_traps. destruct (trap_regions_spec code) with (i := 0) (open := @nil Z) as (res & E & Hres); [|change (alen nil) with 0; lia|].
  { intros op Hop Ht. apply list_elem_of_lookup_1 in Hop as [k Hk]. rewrite <- aget_nat in Hk. destruct (Hcode _ op 1 Hk (is_trap_operand op Ht)) as (p & Ep & _). by exists p. }
  rewrite E. cbn [mbind option_bind]. destruct res as [e|regions]; [eexists; split; [done|]; split; [done|]; intros (regions & E2 & _); congruence|].
  assert (balanced code <-> balanced_in code regions) as Hbal by (split; [intros (r2 & E2 & H); assert (r2 = regions) as -> by congruence; exact H|intros H; by exists regions]).
  cbv zeta. set (w0 := match code with [] => _ | _ => _ end). set (n := length code).
  assert (walk_inv code regions w0 (tw_pending w0) /\ (0 < alen code -> visited code w0 0 []) /\ (walk_left w0 < S n)%nat) as (H1 & H2 & H3).
  { unfold w0, n. destruct code as [|op l]; [split; [|split; [intros H; change (alen (@nil hl_patch_instruction)) with 0 in H; lia|unfold walk_left, unvisited; cbn; lia]]; split; [done|intros i d Hd; change (aget (@nil Z) i = Some d) in Hd; by rewrite aget_nil in Hd|split; [by apply NoDup_nil|by intros i ?%elem_of_nil]|intros i s (Hd & _); change (aget (@nil Z) i = Some (alen s)) in Hd; by rewrite aget_nil in Hd]|].
    set (w := TrapWalk _ _ _). assert (visited (op :: l) w 0 []) as Hv0 by (split; [done|split; [done|split; [apply trap_start; rewrite alen_cons; pose proof (alen_nonneg l); lia|change (alen nil) with 0; lia]]]).
    assert (forall i d, aget (tw_depth w) i = Some d -> 0 <= d -> i = 0) as Honly.
    { intros i d Hd Hpos. destruct (decide (i = 0)) as [|Hne]; [done|]. pose proof (aget_Some_range _ _ _ Hd) as Hr. cbn [w tw_depth] in Hd. rewrite aget_lookup in Hd by lia. destruct (Z.to_nat i) as [|k] eqn:Ek; [lia|]. cbn [lookup list_lookup] in Hd. apply lookup_replicate in Hd as [-> _]. lia. }
    split; [split|split].
    - cbn [w tw_depth tw_guards length]. rewrite !alen_cons, !alen_replicate, Nat.sub_succ, Nat.sub_0_r. done.
    - intros i d Hd Hpos. rewrite (Honly i d Hd Hpos). by exists [].
    - cbn [w tw_pending]. split; [apply NoDup_singleton|]. intros i ->%list_elem_of_singleton. by exists [].
    - intros i s (Hd & _) Hnot. pose proof (alen_nonneg s). rewrite (Honly i _ Hd) in Hnot by lia. destruct Hnot. by left.
    - by intros _.
    - unfold walk_left. cbn [w tw_depth tw_pending length]. rewrite Nat.sub_succ, Nat.sub_0_r. unfold unvisited. rewrite filter_cons_False by lia. fold (unvisited (replicate (length l) (-1))). rewrite unvisited_replicate. lia. }
  destruct (loop_total (trap_walk_step code regions) (fun w => walk_inv code regions w (tw_pending w) /\ (0 < alen code -> visited code w 0 [])) (walk_ends code regions) walk_left) with (fuel := S n) (s := w0) as (r & Er & Hr).
  - intros w [Hw Hv]. by apply trap_walk_step_spec.
  - by split.
  - exact H3.
  - exists r. split; [exact Er|]. by rewrite Hbal.
Qed.
