(* ===== verification/PatchChecks.v ===== *)
(** * What the checks of a function establish

    An accepted function is described from the rows of [opcodes.h]: every operand that is a
    register of the row is a register of the function, branches stay inside, arguments are
    registers, indices are below the pools they index, called slots have code. *)
From S2P Require Import Prelude Opcodes Patch PatchTraps.

(** ** Checks as propositions *)
Lemma both_true a b : both a b = Some true <-> a = Some true /\ b = Some true.
Proof. unfold both. destruct a as [[|]|]; cbn; naive_solver. Qed.
Lemma at_true (l : list Z) k (P : Z -> bool) : (x ← aget l k; Some (P x)) = Some true <-> exists x, aget l k = Some x /\ P x = true.
Proof. destruct (aget l k) as [x|]; cbn; (split; [intros H; simplify_eq; eauto|intros (y & E & H); simplify_eq; congruence]). Qed.
Lemma check_true (c : option bool) (e : string) (next : option (option string)) : (x ← c; if (x : bool) then next else Some (Some e)) = Some None <-> c = Some true /\ next = Some None.
Proof. destruct c as [[|]|]; cbn; (split; [intros H; by simplify_eq|intros [E H]; by simplify_eq]). Qed.
Lemma bind_call (l : list Z) k (P : Z -> option bool) : (x ← aget l k; P x) = Some true <-> exists x, aget l k = Some x /\ P x = Some true.
Proof.
  destruct (aget l k) as [x|]; cbn; (split; [intros H|intros (y & E & H)]); [by exists x|by injection E as <-|discriminate H|discriminate E].
Qed.
Lemma regs_true (P : Z -> option bool) ks : foldr (fun k r => both (P k) r) (Some true) ks = Some true <-> forall k, k ∈ ks -> P k = Some true.
Proof.
  induction ks as [|k ks IH]; cbn [foldr]; [split; [by intros _ k ?%elem_of_nil|done]|]. rewrite both_true, IH. split.
  - intros [H1 H2] j [->|Hj]%elem_of_cons; [done|by apply H2].
  - intros H. split; [apply H; by left|]. intros j Hj. apply H. by right.
Qed.
Lemma valid_call_target_true m l x : valid_call_target m l x = Some true -> aget (m_functions_ptrs m) x = Some true.
Proof. unfold valid_call_target. destruct (_ && _); [done|discriminate]. Qed.

(** ** A sound instruction *)
Definition reg_kind (k : Z) : bool := (k =? OpKinds.R) || (k =? OpKinds.R_NW).
(** The first operand that is an argument of a call or of a constructor. *)
Definition first_argument (o : hl_op) : option Z :=
  match o with OCall0 | OCall1 | OCall2 | OCall3 | OCall4 => Some 2 | OCallN | OCallMethod | OCallThis | OCallClosure | OMakeEnum => Some 3 | _ => None end.
(** The size of what operand 1 indexes. *)
Definition pool_size (m : patch_module) (p : patch_pools) (o : hl_op) : option Z :=
  match o with OInt => Some (n_ints p) | OFloat => Some (n_floats p) | OString => Some (n_strings p) | OType => Some (n_types p) | OGetGlobal => Some (m_nglobals m + n_globals p) | _ => None end.
Definition calls_slot (o : hl_op) : bool := match o with OCall0 | OCall1 | OCall2 | OCall3 | OCall4 | OCallN | OStaticClosure | OInstanceClosure => true | _ => false end.
Section sound.
Context (m : patch_module) (l : patch_layout) (p : patch_pools) (f : hl_patch_function).
Definition register_at (op : hl_patch_instruction) (k : Z) : Prop := exists x, aget (operands op) k = Some x /\ 0 <= x < alen (pf_registers f).
Record instruction_sound (i : Z) (op : hl_patch_instruction) (o : hl_op) : Prop := Sound {
  is_op : op_of_Z (opcode op) = Some o;
  is_registers : let '(a, b, c) := OpKinds.hl_op_args o in (reg_kind a = true -> register_at op 0) /\ (reg_kind b = true -> register_at op 1) /\ (reg_kind c = true -> register_at op 2);
  is_target : forall k, jump_operand o = Some k -> exists x, aget (operands op) k = Some x /\ 0 <= i + 1 + x < alen (pf_instructions f);
  is_arguments : forall k n, first_argument o = Some k -> k <= n < operand_count op -> register_at op n;
  is_pool : forall n, pool_size m p o = Some n -> exists x, aget (operands op) 1 = Some x /\ 0 <= x < n;
  is_callee : calls_slot o = true -> exists x, aget (operands op) 1 = Some x /\ aget (m_functions_ptrs m) x = Some true;
  is_written : o = OSetGlobal -> exists x, aget (operands op) 0 = Some x /\ 0 <= x < m_nglobals m - m_npatchglobals m }.
Lemma register_true op k : (x ← aget (operands op) k; Some (valid_reg f x)) = Some true -> register_at op k.
Proof. rewrite at_true. intros (x & E & H). exists x. split; [done|]. unfold valid_reg in H. apply andb_true_iff in H as [H1 H2]. rewrite Z.geb_leb in H1. lia. Qed.
Ltac checks :=
  repeat match goal with
  | H : (_ ← _; _) = Some None |- _ => apply check_true in H as [? ?]
  | H : both _ _ = Some true |- _ => apply both_true in H as [? ?]
  end.
Ltac facts :=
  repeat match goal with
  | H : (if true then ?c else _) = Some true |- _ => change (c = Some true) in H
  | H : (x ← aget _ _; Some (valid_reg _ x)) = Some true |- _ => apply register_true in H
  | H : (x ← aget _ _; Some _) = Some true |- _ => apply at_true in H as (? & ? & ?)
  | H : foldr _ _ _ = Some true |- _ => rewrite regs_true in H
  | H : (x ← aget _ _; valid_call_target _ _ x) = Some true |- _ => apply bind_call in H as (? & ? & H); apply valid_call_target_true in H
  | H : (x ← aget _ _; valid_function_target _ _ x) = Some true |- _ => apply bind_call in H as (? & ? & H); unfold valid_function_target in H; apply both_true in H as [H _]; apply valid_call_target_true in H
  | H : (x ← aget _ _; valid_closure_target _ _ x) = Some true |- _ => apply bind_call in H as (? & ? & H); unfold valid_closure_target in H; apply both_true in H as [H _]; apply valid_call_target_true in H
  end.
Ltac use_bound := match goal with
  | E : aget _ ?k = Some ?x |- exists y, aget _ ?k = Some y /\ _ => exists x; split; [exact E|]; rewrite ?negb_true_iff, ?orb_false_iff, ?Z.ltb_ge, ?Z.geb_leb, ?Z.leb_gt in *; lia
  end.
(** What [hl_patch_read] reads: as many operands as the row of the opcode has, or as the operand 2 of a variable one says. *)
Record instruction_read (op : hl_patch_instruction) : Prop := Read {
  has_operands : operand_count op = alen (operands op);
  fixed_operands : 0 <= opcode_operands (opcode op) -> operand_count op = opcode_operands (opcode op);
  variable_operands : opcode_operands (opcode op) < 0 -> is_variadic (opcode op) = true /\ 3 <= operand_count op }.
Ltac operand_number H :=
  match type of H with context [operand_row ?r] => let n := eval vm_compute in (operand_row r) in change (operand_row r) with n in H end.
Lemma check_instruction_sound i op : 0 <= i -> instruction_read op -> check_instruction m l p f i op = Some None -> exists o, instruction_sound i op o.
Proof.
  intros Hi [_ Hfixed _]. unfold opcode_operands in Hfixed. unfold check_instruction. destruct (op_of_Z (opcode op)) as [o|] eqn:Eo; [|discriminate]. intros H. exists o.
  destruct o; try discriminate H; cbv zeta in H; checks; operand_number Hfixed.
  all: try (rewrite Hfixed in * by lia; change (2 >? 1) with true in * ); facts.
  all: split; [done|cbn [OpKinds.hl_op_args]; repeat split; intros; try done; try discriminate|cbn [jump_operand]; intros; simplify_eq; try use_bound|cbn [first_argument]; intros; simplify_eq|cbn [pool_size]; intros; simplify_eq; try use_bound|cbn [calls_slot]; intros; simplify_eq; eauto|intros; simplify_eq; try use_bound].
  all: match goal with H : forall k, k ∈ _ -> _ |- _ => apply register_true, H, elem_of_seqZ; lia end.
Qed.

(** ** The checks read nothing they do not have *)
Lemma both_total a b : is_Some a -> is_Some b -> is_Some (both a b).
Proof. intros [[|] ->] Hb; cbn; eauto. Qed.
Lemma check_total (c : option bool) (e : string) (next : option (option string)) : is_Some c -> is_Some next -> is_Some (x ← c; if (x : bool) then next else Some (Some e)).
Proof. intros [[|] ->] Hn; cbn; eauto. Qed.
Lemma at_total (ops : list Z) k (P : Z -> bool) : 0 <= k < alen ops -> is_Some (x ← aget ops k; Some (P x)).
Proof. intros Hk. destruct (aget_is_Some ops k Hk) as [x ->]. cbn. eauto. Qed.
Lemma call_total (ops : list Z) k (P : Z -> option bool) : 0 <= k < alen ops -> (forall x, is_Some (P x)) -> is_Some (x ← aget ops k; P x).
Proof. intros Hk HP. destruct (aget_is_Some ops k Hk) as [x ->]. cbn. eauto. Qed.
Lemma regs_total (P : Z -> option bool) ks : (forall k, k ∈ ks -> is_Some (P k)) -> is_Some (foldr (fun k r => both (P k) r) (Some true) ks).
Proof. induction ks as [|k ks IH]; intros H; cbn [foldr]; [eauto|]. apply both_total; [apply H; by left|]. apply IH. intros j Hj. apply H. by right. Qed.
(** The arrays of the module and of the layout have an entry for every slot. *)
Record layout_ok : Prop := LayoutOk { ptrs_slots : l_slots l <= alen (m_functions_ptrs m); indexes_slots : l_slots l <= alen (l_indexes l) }.
Context (Hl : layout_ok).
Lemma layout_function_total x : is_Some (layout_function l x).
Proof.
  unfold layout_function. destruct (decide (0 <= x < l_slots l)) as [Hx|Hx].
  - rewrite (proj2 (orb_false_iff _ _)) by (rewrite Z.geb_leb; split; lia). destruct Hl as [_ Hi]. destruct (aget_is_Some (l_indexes l) x) as [k ->]; [lia|]. cbn.
    destruct (_ || _) eqn:E; [by eexists|]. apply orb_false_iff in E as [E1 E2]. rewrite Z.geb_leb in E2. destruct (aget_is_Some (l_functions l) k) as [t ->]; [lia|]. by eexists.
  - rewrite (proj2 (orb_true_iff _ _)) by (rewrite Z.geb_leb; lia). by eexists.
Qed.
Lemma valid_call_target_total x : is_Some (valid_call_target m l x).
Proof. unfold valid_call_target. destruct (_ && _) eqn:E; [|by eexists]. apply andb_true_iff in E as [E1 E2]. rewrite Z.geb_leb in E1. apply aget_is_Some. destruct Hl. lia. Qed.
Lemma valid_function_target_total x : is_Some (valid_function_target m l x).
Proof. apply both_total; [apply valid_call_target_total|]. destruct (layout_function_total x) as [t ->]. by eexists. Qed.
Lemma valid_closure_target_total x : is_Some (valid_closure_target m l x).
Proof.
  unfold valid_closure_target, valid_call_target. destruct (_ && _) eqn:E; [|by eexists]. apply andb_true_iff in E as [E1 E2]. rewrite Z.geb_leb in E1. destruct Hl.
  destruct (aget_is_Some (m_functions_ptrs m) x) as [b ->]; [lia|]. destruct (aget_is_Some (l_indexes l) x) as [k ->]; [lia|]. destruct (layout_function_total x) as [t ->]. destruct b; by eexists.
Qed.
Lemma check_instruction_total i op : instruction_read op -> is_Some (check_instruction m l p f i op).
Proof.
  intros [Hlen Hfixed Hvar]. unfold opcode_operands, is_variadic in *. unfold check_instruction. destruct (op_of_Z (opcode op)) as [o|] eqn:Eo; [|by eexists].
  destruct o; try (by eexists); cbv zeta; operand_number Hfixed; operand_number Hvar.
  all: repeat first
    [ apply check_total | apply both_total | apply call_total; [lia|] | apply at_total; lia | apply regs_total; intros ? ?%elem_of_seqZ
    | intros x; first [apply valid_call_target_total|apply valid_function_target_total|apply valid_closure_target_total] | by eexists ].
  all: destruct (_ >? 1) eqn:E; [|by eexists]; rewrite Z.gtb_lt in E; apply at_total; lia.
Qed.

(** ** A sound function *)
Lemma check_instructions_spec i ops : 0 <= i -> Forall instruction_read ops ->
  exists r, check_instructions m l p f i ops = Some r /\ (r = None -> forall k op, aget ops k = Some op -> exists o, instruction_sound (i + k) op o).
Proof.
  intros Hi H. revert i Hi. induction H as [|op ops Hop H IH]; intros i Hi; cbn [check_instructions].
  { eexists. split; [done|]. intros _ k op E. by rewrite aget_nil in E. }
  destruct (check_instruction_total i op Hop) as [[e|] E]; rewrite E; cbn [mbind option_bind]; [eexists; split; [done|discriminate]|].
  destruct (IH (i + 1)) as (r & Er & Hr); [lia|]. exists r. split; [exact Er|]. intros Hnone k op' Ek. pose proof (aget_Some_range _ _ _ Ek) as Hk.
  destruct (decide (k = 0)) as [->|Hne].
  - change (Some op = Some op') in Ek. injection Ek as <-. rewrite Z.add_0_r. by apply check_instruction_sound.
  - assert (aget ops (k - 1) = Some op') as Ek' by (rewrite aget_lookup in Ek |- * by lia; by replace (Z.to_nat k) with (S (Z.to_nat (k - 1))) in Ek by lia).
    destruct (Hr Hnone _ _ Ek') as [o Ho]. exists o. by replace (i + k) with (i + 1 + (k - 1)) by lia.
Qed.
(** What compiling the function relies on. *)
Record function_sound : Prop := FunctionSound {
  fs_slot : layout_function l (pf_findex f) = Some (Some (pf_type f));
  fs_type : 0 <= pf_type f < n_types p;
  fs_registers : Forall (fun r => 0 <= r < n_types p) (pf_registers f);
  fs_instructions : forall i op, aget (pf_instructions f) i = Some op -> exists o, instruction_sound i op o;
  fs_balanced : balanced (pf_instructions f) }.
Lemma validate_function_spec junk : Forall instruction_read (pf_instructions f) -> exists r, validate_function m l p f junk = Some r /\ (r = None -> function_sound).
Proof.
  intros Hread. unfold validate_function. destruct (layout_function_total (pf_findex f)) as [live E]. rewrite E. cbn [mbind option_bind].
  destruct live as [live|]; [|eexists; split; [done|discriminate]]. destruct (_ || _) eqn:Et; [eexists; split; [done|discriminate]|].
  apply orb_false_iff in Et as [Et Elive]. apply orb_false_iff in Et as [Et1 Et2]. apply negb_false_iff, Z.eqb_eq in Elive as ->. rewrite Z.geb_leb in Et2.
  destruct (existsb _ _) eqn:Er; [eexists; split; [done|discriminate]|].
  destruct (check_instructions_spec 0 (pf_instructions f)) as (r & E2 & Hr); [lia|done|]. rewrite E2. cbn [mbind option_bind].
  destruct r as [e|]; [eexists; split; [done|discriminate]|]. specialize (Hr eq_refl).
  destruct (validate_traps_spec junk (pf_instructions f)) as (r & E3 & Hb).
  { intros i op k Ei Ek. destruct (Hr i op Ei) as [o [Ho _ Htarget _ _ _ _]]. rewrite Ho in Ek. destruct (Htarget k Ek) as (x & Ex & Hx). exists x. split; [exact Ex|lia]. }
  exists r. split; [exact E3|]. intros Hnone. split; [exact E|lia| |exact Hr|by apply Hb].
  apply Forall_forall. intros x Hx. destruct (decide (0 <= x < n_types p)) as [|Hout]; [done|].
  rewrite (proj2 (existsb_exists _ _)) in Er; [discriminate|]. exists x. split; [by apply list_elem_of_In|]. rewrite Z.geb_leb. lia.
Qed.
End sound.

(** ** The functions of a patch *)
Section functions.
Context (m : patch_module) (l : patch_layout) (p : patch_pools) (junk : Z).
Lemma validate_patch_functions_spec before fs : layout_ok m l -> Forall (fun f => Forall instruction_read (pf_instructions f)) fs -> NoDup (pf_findex <$> before) ->
  exists r, validate_patch_functions m l p junk before fs = Some r /\ (r = None -> Forall (function_sound m l p) fs /\ NoDup (pf_findex <$> (rev before ++ fs))).
Proof.
  intros Hl Hread. revert before. induction Hread as [|f fs Hf Hread IH]; intros before Hnd; cbn [validate_patch_functions].
  { exists None. split; [done|]. intros _. split; [done|]. by rewrite app_nil_r, <- (Permutation_rev before). }
  destruct (existsb _ before) eqn:Ed; [eexists; split; [done|discriminate]|]. rewrite existsb_false in Ed.
  destruct (validate_function_spec m l p f Hl junk Hf) as (r & E & Hr). rewrite E. cbn [mbind option_bind]. destruct r as [e|]; [eexists; split; [done|discriminate]|].
  destruct (IH (f :: before)) as (r & Er & H).
  { apply NoDup_cons. split; [|done]. intros (g & Eg & Hg)%list_elem_of_fmap. specialize (Ed g Hg). lia. }
  exists r. split; [exact Er|]. intros Hnone. destruct (H Hnone) as [H1 H2]. split; [constructor; [by apply Hr|done]|]. cbn [rev] in H2. by rewrite <- app_assoc in H2.
Qed.
End functions.
