(* ===== verification/PatchRead.v ===== *)
(** * Reading a patch ([hl_patch_read] of [src/hlpatch.c])

    A patch is a header and sections, each with its length; the bytes may be anything.  A
    reader takes bytes from the front and returns a value, or the message of an error.  On an
    error [hl_patch_free] frees the part of the patch that was read: where it then goes through
    an array that a count already describes but that was not allocated, the process [Crash]es.

    Memory is assumed to be there: the results of [calloc] and [malloc] that the code tests are
    not null.  A section that is absent is [None], which is what the [have_] flags hold. *)
From S2P Require Import Prelude Opcodes Reader Patch.

(** ** Readers *)
Inductive outcome (A : Type) :=
  | Done (a : A) (rest : list Z)
  | Failed (message : string)
  | Crash.
Arguments Done {A} _ _.
Arguments Failed {A} _.
Arguments Crash {A}.
Definition parse (A : Type) : Type := list Z -> outcome A.
#[global] Instance parse_ret : MRet parse := fun A a s => Done a s.
#[global] Instance parse_bind : MBind parse := fun A B f m s => match m s with Done a s => f a s | Failed e => Failed e | Crash => Crash end.
Definition FAIL {A} (message : string) : parse A := fun _ => Failed message.
Definition crash {A} : parse A := fun _ => Crash.
(** [s.end - s.p] *)
Definition left_ : parse Z := fun s => Done (alen s) s.
Definition fail_if (b : bool) (message : string) : parse unit := if b then FAIL message else mret ().
Definition truncated : string := "Truncated HLP data".
(** [for(i=0;i<n;i++)] over a reader. *)
Fixpoint repeat_read {A} (m : parse A) (n : nat) : parse (list A) :=
  match n with O => mret [] | S n => x ← m; xs ← repeat_read m n; mret (x :: xs) end.
Definition read_array {A} (m : parse A) (n : Z) : parse (list A) := repeat_read m (Z.to_nat n).
(** The same where an element is checked against the ones before it, the latest first. *)
Fixpoint repeat_after {A} (m : list A -> parse A) (n : nat) (before : list A) : parse (list A) :=
  match n with O => mret (rev before) | S n => x ← m before; repeat_after m n (x :: before) end.

(** ** Primitive reads *)
Definition take_ (count : Z) : parse (list Z) := fun s =>
  if (count <? 0) || (alen s <? count) then Failed truncated else Done (take (Z.to_nat count) s) (drop (Z.to_nat count) s).
Definition read_byte : parse Z := fun s => match s with [] => Failed truncated | x :: s => Done x s end.
Definition read_index : parse Z :=
  first ← read_byte;
  if Z.land first 128 =? 0 then mret first else
  value ← (if Z.land first 64 =? 0 then a ← read_byte; mret (Z.lor a (Z.shiftl (Z.land first 31) 8))
           else a ← read_byte; b ← read_byte; c ← read_byte; mret (Z.lor (Z.lor (Z.lor (Z.shiftl (Z.land first 31) 24) (Z.shiftl a 16)) (Z.shiftl b 8)) c));
  mret (if Z.land first 32 =? 0 then value else - value).
Definition MAX_COUNT : Z := 16777216.
Definition read_count : parse Z := n ← read_index; if (n <? 0) || (n >? MAX_COUNT) then FAIL "Invalid HLP count"%string else mret n.
(** A count that [hl_patch_free] loops up to: it is stored before it is found invalid. *)
Definition read_freed_count : parse Z := n ← read_index; if n <? 0 then FAIL "Invalid HLP count"%string else if n >? MAX_COUNT then crash else mret n.
Definition bytes_value (l : list Z) : Z := foldr (fun b v => Z.lor b (Z.shiftl v 8)) 0 l.
Definition read_hash : parse Z := l ← take_ 4; mret (bytes_value l).
Definition read_i32 : parse Z := value ← read_hash; mret (i32 value).
(** [read_count] and that many bytes. *)
Definition read_string : parse (list Z) := count ← read_count; take_ count.

(** ** Types *)
(** An object, struct or virtual type, in table indices; [super] is -1 for none. *)
Record hl_patch_object_type := PatchObject {
  po_name : Z; po_super : Z; po_global : Z; po_fields : list (Z * Z); po_protos : list (Z * Z * Z); po_bindings : list (Z * Z) }.
Inductive patch_type_data :=
  | DNone
  | DFun (arguments : list Z) (result : Z)
  | DName (name : Z)
  | DParameter (parameter : Z)
  | DObj (obj : hl_patch_object_type).
Record hl_patch_type := PatchType { pt_tag : Z; pt_data : patch_type_data }.
Definition patch_type_is_class (tag : Z) : bool := (tag =? HOBJ) || (tag =? HSTRUCT).
Definition patch_type_is_object (tag : Z) : bool := patch_type_is_class tag || (tag =? HVIRTUAL).
Definition alloc_patch_records (count width : Z) : parse unit := n ← left_; fail_if (count >? n / width) truncated.
Definition read_pair {A B} (a : parse A) (b : parse B) : parse (A * B) := x ← a; y ← b; mret (x, y).
Definition read_patch_type_fields (count : Z) : parse (list (Z * Z)) := _ ← alloc_patch_records count 2; read_array (read_pair read_index read_index) count.
Definition read_patch_type_methods (count : Z) : parse (list (Z * Z * Z)) :=
  _ ← alloc_patch_records count 3; read_array (name ← read_index; findex ← read_index; pindex ← read_index; mret (name, findex, pindex)) count.
Definition read_patch_type_bindings (count : Z) : parse (list (Z * Z)) := _ ← alloc_patch_records count 2; read_array (read_pair read_index read_index) count.
Definition read_patch_object_type (tag : Z) : parse hl_patch_object_type :=
  if tag =? HVIRTUAL then count ← read_count; fields ← read_patch_type_fields count; mret (PatchObject 0 (-1) 0 fields [] []) else
  name ← read_index; super ← read_index; global ← read_count; field_count ← read_count; proto_count ← read_count; binding_count ← read_count;
  fields ← read_patch_type_fields field_count; protos ← read_patch_type_methods proto_count; bindings ← read_patch_type_bindings binding_count;
  mret (PatchObject name super global fields protos bindings).
Definition read_patch_type (version : Z) : parse hl_patch_type :=
  tag ← read_byte;
  if tag =? HFUN then count ← read_byte; arguments ← read_array read_index count; result ← read_index; mret (PatchType tag (DFun arguments result))
  else if tag =? HABSTRACT then name ← read_index; mret (PatchType tag (DName name))
  else if (tag =? HREF) || (tag =? HNULL) || ((version >=? 10) && (tag =? HPACKED)) then parameter ← read_index; mret (PatchType tag (DParameter parameter))
  else if (version >=? 10) && patch_type_is_object tag then obj ← read_patch_object_type tag; mret (PatchType tag (DObj obj))
  else if (tag <? HVOID) || (tag >? HGUID) || (tag =? HOBJ) || (tag =? HVIRTUAL) || (tag =? HENUM) || (tag =? HPACKED) then FAIL "Unsupported HLP type"%string
  else mret (PatchType tag DNone).

(** ** Symbols: section 1 *)
Record hl_patch_symbols := Symbols {
  int_prefix_hash : Z; base_int_count : Z; ints : list Z;
  float_prefix_hash : Z; base_float_count : Z; floats : list (list Z);
  string_prefix_hash : Z; base_string_count : Z; strings : list (list Z);
  type_prefix_hash : Z; base_type_count : Z; types : list hl_patch_type }.
(** [free] of each string before it is allocated is [free] of an array that was not. *)
Definition read_symbols (version : Z) : parse hl_patch_symbols :=
  int_hash ← read_hash; base_int ← read_count; int_count ← read_count; ints ← read_array read_i32 int_count;
  float_hash ← read_hash; base_float ← read_count; float_count ← read_count; floats ← read_array (take_ 8) float_count;
  string_hash ← read_hash; base_string ← read_count; string_count ← read_freed_count; strings ← read_array read_string string_count;
  type_hash ← read_hash; base_type ← read_count; type_count ← read_freed_count; types ← read_array (read_patch_type version) type_count;
  mret (Symbols int_hash base_int ints float_hash base_float floats string_hash base_string strings type_hash base_type types).

(** ** Functions: section 2 *)
Definition read_instruction : parse hl_patch_instruction :=
  op ← read_byte;
  let n := opcode_operands op in
  if n <? 0 then
    if negb (is_variadic op) then FAIL "Unsupported patch opcode"%string else
    fixed ← read_array read_index 3;
    let count := nth 2 fixed 0 in
    if (count <? 0) || (count >? MAX_COUNT) then FAIL "Invalid variable operand count"%string else
    extra ← read_array read_index count; mret (Instruction op (3 + count) (fixed ++ extra))
  else operands ← read_array read_index n; mret (Instruction op n operands).
(** A register that cannot be read leaves a count of instructions that were not allocated. *)
Definition read_registers (register_count instruction_count : Z) : parse (list Z) := fun s =>
  match read_array read_index register_count s with Failed e => if instruction_count >? 0 then Crash else Failed e | r => r end.
Definition read_function : parse hl_patch_function :=
  length ← read_count; start ← left_; _ ← fail_if (start <? length) truncated;
  stable_id ← read_count; type ← read_index; findex ← read_count; register_count ← read_count; instruction_count ← read_freed_count;
  registers ← read_registers register_count instruction_count; instructions ← read_array read_instruction instruction_count;
  relocation_count ← read_count; relocations ← read_array (read_pair read_count read_count) relocation_count;
  stop ← left_; _ ← fail_if (negb (stop =? start - length)) "Invalid patch function length"%string;
  mret (PatchFunction type stable_id findex registers instructions relocations []).
Definition read_functions : parse (list hl_patch_function) := count ← read_freed_count; read_array read_function count.

(** ** Debug information: section 3 *)
Definition read_span (debug_file_count : Z) : parse hl_source_span :=
  file ← read_count; line ← read_count; column ← read_count; end_line ← read_count; end_column ← read_count;
  source_hash ← read_i32; start1 ← read_index; end1 ← read_index; flags ← read_count;
  let start := start1 - 1 in let stop := end1 - 1 in
  _ ← fail_if ((file >=? debug_file_count) || (line <? 1) || (column <? 1) || (end_line <? line) || (end_column <? 1)
        || ((end_line =? line) && (end_column <? column))
        || negb (((start =? -1) && (stop =? -1)) || ((start >=? 0) && (stop >=? start)))) "Invalid HLP debug location"%string;
  mret (SourceSpan file line column end_line end_column source_hash start stop flags).
(** The places of the functions with a stable id. *)
Definition functions_of (fs : list hl_patch_function) (stable_id : Z) : list Z :=
  filter (fun j => from_option pf_stable_id (-1) (aget fs j) = stable_id) (seqZ 0 (alen fs)).
Definition set_debug_spans (f : hl_patch_function) (spans : list hl_source_span) : hl_patch_function :=
  PatchFunction (pf_type f) (pf_stable_id f) (pf_findex f) (pf_registers f) (pf_instructions f) (pf_relocations f) spans.
Definition read_function_debug (debug_file_count : Z) (fs : list hl_patch_function) : parse (list hl_patch_function) :=
  stable_id ← read_count; nops ← read_count;
  match functions_of fs stable_id with
  | [] => FAIL "Unknown HLP debug function"%string
  | found :: _ :: _ => FAIL "Duplicate HLP function debug metadata"%string
  | [found] =>
      match aget fs found with
      | None => crash
      | Some f =>
          _ ← fail_if (negb (alen (pf_debug_spans f) =? 0)) "Duplicate HLP function debug metadata"%string;
          _ ← fail_if (negb (nops =? alen (pf_instructions f))) "HLP debug opcode count mismatch"%string;
          spans ← read_array (read_span debug_file_count) nops; mret (<[Z.to_nat found := set_debug_spans f spans]> fs)
      end
  end.
Fixpoint read_functions_debug (debug_file_count : Z) (n : nat) (fs : list hl_patch_function) : parse (list hl_patch_function) :=
  match n with O => mret fs | S n => fs ← read_function_debug debug_file_count fs; read_functions_debug debug_file_count n fs end.
Definition read_debug (fs : list hl_patch_function) : parse (list (list Z) * list hl_patch_function) :=
  debug_file_count ← read_freed_count; debug_files ← read_array read_string debug_file_count;
  count ← read_count; _ ← fail_if (negb (count =? alen fs)) "HLP debug function count mismatch"%string;
  fs ← read_functions_debug debug_file_count (Z.to_nat count) fs; mret (debug_files, fs).

(** ** Source snapshots: section 4 *)
Record hl_source_snapshot := Snapshot { ss_hash : Z; ss_content : list Z }.
Definition snapshot_hash (content : list Z) : Z := foldl (fun hash b => u32 (Z.lxor hash b * 16777619)) 2166136261 content.
Definition read_snapshot (before : list hl_source_snapshot) : parse hl_source_snapshot :=
  hash ← read_i32; _ ← fail_if (hash =? 0) truncated; content ← read_string;
  _ ← fail_if (existsb (fun s => ss_hash s =? hash) before) "Duplicate HLP source snapshot"%string;
  _ ← fail_if (negb (i32 (snapshot_hash content) =? hash)) "Invalid HLP source snapshot hash"%string;
  mret (Snapshot hash content).
Definition read_snapshots : parse (list hl_source_snapshot) := count ← read_freed_count; repeat_after read_snapshot (Z.to_nat count) [].

(** ** Added functions: section 5 *)
Record hl_patch_added_function := AddedFunction { af_stable_id : Z; af_findex : Z; af_type : Z; af_name : list Z }.
Definition read_added_function (before : list hl_patch_added_function) : parse hl_patch_added_function :=
  stable_id ← read_count; findex ← read_count; type ← read_index; name ← read_string;
  _ ← fail_if (existsb (fun a => (af_stable_id a =? stable_id) || (af_findex a =? findex)) before) "Duplicate HLP added function"%string;
  mret (AddedFunction stable_id findex type name).
Definition read_added_functions : parse (list hl_patch_added_function) := count ← read_freed_count; repeat_after read_added_function (Z.to_nat count) [].

(** ** Globals: section 6 *)
(** [None] for a [field_count] of -1. *)
Record hl_patch_global := PatchGlobal { pg_type : Z; pg_fields : option (list Z) }.
Definition read_global (version : Z) : parse hl_patch_global :=
  kind ← (if version >=? 10 then read_byte else mret 1);
  if kind =? 0 then type ← read_count; mret (PatchGlobal type None) else
  _ ← fail_if (negb (kind =? 1)) "Invalid HLP global kind"%string;
  type ← read_count; field_count ← read_count; n ← left_; _ ← fail_if (field_count >? n) truncated;
  fields ← read_array read_count field_count; mret (PatchGlobal type (Some fields)).
Record hl_patch_globals := Globals { global_prefix_hash : Z; base_global_count : Z; globals : list hl_patch_global }.
(** Each element has at least [width] bytes: the count of an array that [hl_patch_free] goes through. *)
Definition bounded_count (count width : Z) (freed : bool) (message : string) : parse unit :=
  n ← left_; if count <=? 0 then FAIL message else if count >? n / width then (if freed then crash else FAIL message) else mret ().
Definition read_globals (version : Z) : parse hl_patch_globals :=
  hash ← read_hash; base ← read_count; count ← read_freed_count; _ ← bounded_count count 2 true "Invalid HLP globals section"%string;
  globals ← read_array (read_global version) count; mret (Globals hash base globals).

(** ** Fields of existing classes, migrations and guards: sections 7 to 9 *)
Record hl_patch_object_field := PatchField { of_type : Z; of_field : Z; of_name : Z; of_field_type : Z }.
Definition read_object_field (before : list hl_patch_object_field) : parse hl_patch_object_field :=
  type ← read_count; field ← read_count; name ← read_count; field_type ← read_count;
  _ ← fail_if (existsb (fun f => (of_type f =? type) && (of_field f =? field)) before) "Duplicate HLP object field"%string;
  mret (PatchField type field name field_type).
Definition read_object_fields : parse (list hl_patch_object_field) :=
  count ← read_count; _ ← bounded_count count 4 false "Invalid HLP object fields section"%string; repeat_after read_object_field (Z.to_nat count) [].
Record hl_patch_migration := Migration { mi_type : Z; mi_stable_id : Z; mi_findex : Z }.
Definition read_migration (before : list hl_patch_migration) : parse hl_patch_migration :=
  type ← read_count; stable_id ← read_count; _ ← fail_if (existsb (fun m => mi_type m =? type) before) "Duplicate HLP migration"%string;
  mret (Migration type stable_id (-1)).
Definition read_migrations : parse (list hl_patch_migration) :=
  count ← read_count; _ ← bounded_count count 2 false "Invalid HLP migrations section"%string; repeat_after read_migration (Z.to_nat count) [].
Record hl_patch_guard := Guard { gd_stable_id : Z; gd_findex : Z; gd_description : list Z }.
Record hl_patch_guards := Guards { guards : list hl_patch_guard; global_names : list (Z * list Z) }.
Definition read_guards : parse hl_patch_guards :=
  count ← read_freed_count; _ ← bounded_count count 2 true "Invalid HLP guards section"%string;
  guards ← read_array (stable_id ← read_count; description ← read_string; mret (Guard stable_id (-1) description)) count;
  name_count ← read_freed_count; n ← left_; _ ← (if name_count >? n / 2 then crash else mret ());
  names ← read_array (read_pair read_count read_string) name_count; mret (Guards guards names).

(** ** The patch *)
Record hl_patch := Patch {
  module_id : list Z; base_revision : Z; revision : Z; symbols : option hl_patch_symbols; functions : option (list hl_patch_function);
  debug_files : option (list (list Z)); source_snapshots : option (list hl_source_snapshot); added_functions : option (list hl_patch_added_function);
  patch_globals : option hl_patch_globals; object_fields : option (list hl_patch_object_field); migrations : option (list hl_patch_migration);
  patch_guards : option hl_patch_guards }.
(** The section [tag] of a patch read so far, from all the bytes of the section. *)
Definition once {A} (have : option A) (message : string) : parse unit := fail_if (match have with Some _ => true | None => false end) message.
Definition read_section (version tag : Z) (p : hl_patch) : parse hl_patch :=
  let '(Patch id base rev sym fs dbg snap add glob fields mig grd) := p in
  if tag =? 1 then _ ← once sym "Duplicate HLP symbols section"%string; x ← read_symbols version; mret (Patch id base rev (Some x) fs dbg snap add glob fields mig grd)
  else if tag =? 2 then _ ← once fs "Duplicate HLP functions section"%string; x ← read_functions; mret (Patch id base rev sym (Some x) dbg snap add glob fields mig grd)
  else if tag =? 3 then
    match dbg, fs with
    | None, Some fs => x ← read_debug fs; mret (Patch id base rev sym (Some (snd x)) (Some (fst x)) snap add glob fields mig grd)
    | _, _ => FAIL "Duplicate or misplaced HLP debug section"%string
    end
  else if tag =? 4 then _ ← once snap "Duplicate HLP source snapshot section"%string; x ← read_snapshots; mret (Patch id base rev sym fs dbg (Some x) add glob fields mig grd)
  else if tag =? 5 then _ ← once add "Duplicate HLP added functions section"%string; x ← read_added_functions; mret (Patch id base rev sym fs dbg snap (Some x) glob fields mig grd)
  else if tag =? 6 then _ ← once glob "Duplicate HLP globals section"%string; x ← read_globals version; mret (Patch id base rev sym fs dbg snap add (Some x) fields mig grd)
  else if tag =? 7 then _ ← once fields "Duplicate HLP object fields section"%string; x ← read_object_fields; mret (Patch id base rev sym fs dbg snap add glob (Some x) mig grd)
  else if tag =? 8 then _ ← once mig "Duplicate HLP migrations section"%string; x ← read_migrations; mret (Patch id base rev sym fs dbg snap add glob fields (Some x) grd)
  else if tag =? 9 then _ ← once grd "Duplicate HLP guards section"%string; x ← read_guards; mret (Patch id base rev sym fs dbg snap add glob fields mig (Some x))
  else fun _ => Done p [].
(** A reader of its own for the bytes of the section, which must be used up. *)
Definition within {A} (m : parse A) : parse A := x ← m; rest ← left_; _ ← fail_if (negb (rest =? 0)) "Invalid HLP section length"%string; mret x.
Fixpoint read_sections (version : Z) (n : nat) (p : hl_patch) : parse hl_patch :=
  match n with
  | O => mret p
  | S n =>
      tag ← read_byte; section_length ← read_count; bytes ← take_ section_length;
      match within (read_section version tag p) bytes with Done p _ => read_sections version n p | Failed e => FAIL e | Crash => crash end
  end.
Definition read_patch : parse hl_patch :=
  magic ← take_ 3; _ ← fail_if (negb (bool_decide (magic = [72; 76; 80]))) "Invalid HLP magic"%string;
  version ← read_byte; _ ← fail_if (negb (version =? 9) && negb (version =? 10)) "Unsupported HLP version"%string;
  id ← take_ 16; base ← read_count; rev ← read_count; _ ← fail_if (rev <=? base) "Invalid patch revision range"%string;
  section_count ← read_count; p ← read_sections version (Z.to_nat section_count) (Patch id base rev None None None None None None None None None);
  _ ← fail_if (match symbols p, functions p with Some _, Some _ => false | _, _ => true end) "Missing required HLP section"%string;
  rest ← left_; _ ← fail_if (negb (rest =? 0)) "Trailing HLP data"%string; mret p.
Inductive patch_result := PatchRead (p : hl_patch) | PatchError (message : string) | PatchCrash.
Definition hl_patch_read (data : list Z) : patch_result :=
  match read_patch data with Done p _ => PatchRead p | Failed e => PatchError e | Crash => PatchCrash end.
