(* ===== verification/PatchReadSound.v ===== *)
(** * What a patch that was read is known to be

    A triple [reads m P] says that what the reader [m] returns satisfies [P], whatever the bytes.
    It holds of every section, so a patch that [hl_patch_read] returns is well formed: its
    instructions have the operands of their opcodes, its debug information matches its
    functions, its tables have no duplicates and its snapshots the hash they are named by. *)
From S2P Require Import Prelude Opcodes Reader Patch PatchTraps PatchChecks PatchRead.

(** ** Triples of readers *)
Definition reads {A} (m : parse A) (P : A -> Prop) : Prop := forall s a rest, m s = Done a rest -> P a.
Lemma reads_ret {A} (a : A) (P : A -> Prop) : P a -> reads (mret a) P.
Proof. intros HP s a' rest E. by injection E as <- _. Qed.
Lemma reads_bind {A B} (m : parse A) (f : A -> parse B) (P : A -> Prop) (Q : B -> Prop) : reads m P -> (forall a, P a -> reads (f a) Q) -> reads (m ≫= f) Q.
Proof. intros Hm Hf s b rest E. unfold mbind, parse_bind in E. destruct (m s) as [a s'| |] eqn:Em; [|discriminate..]. exact (Hf a (Hm _ _ _ Em) _ _ _ E). Qed.
Lemma reads_any {A} (m : parse A) : reads m (fun _ => True).
Proof. done. Qed.
Lemma reads_FAIL {A} e (P : A -> Prop) : reads (FAIL e) P.
Proof. by intros s a rest E. Qed.
Lemma reads_crash {A} (P : A -> Prop) : reads crash P.
Proof. by intros s a rest E. Qed.
Lemma reads_weaken {A} (m : parse A) (P Q : A -> Prop) : reads m P -> (forall a, P a -> Q a) -> reads m Q.
Proof. intros Hm H s a rest E. exact (H _ (Hm _ _ _ E)). Qed.
Lemma reads_repeat {A} (m : parse A) (P : A -> Prop) n : reads m P -> reads (repeat_read m n) (fun l => Forall P l /\ length l = n).
Proof.
  intros Hm. induction n as [|n IH]; cbn [repeat_read]; [by apply reads_ret|].
  apply reads_bind with P; [done|]. intros x Hx. eapply reads_bind; [exact IH|]. intros xs [H1 H2]. apply reads_ret. split; [by constructor|cbn; congruence].
Qed.
Lemma reads_array {A} (m : parse A) (P : A -> Prop) n : reads m P -> reads (read_array m n) (fun l => Forall P l /\ (0 <= n -> alen l = n)).
Proof. intros Hm. eapply reads_weaken; [by apply reads_repeat|]. intros l [H1 H2]. split; [done|]. intros Hn. unfold alen. lia. Qed.
Lemma reads_after {A} (m : list A -> parse A) (I : list A -> Prop) n before : I before -> (forall before, I before -> reads (m before) (fun x => I (x :: before))) -> reads (repeat_after m n before) (fun l => I (rev l)).
Proof.
  intros HI Hm. revert before HI. induction n as [|n IH]; intros before HI; cbn [repeat_after]; [apply reads_ret; by rewrite rev_involutive|].
  eapply reads_bind; [by apply Hm|]. intros x Hx. by apply IH.
Qed.
Lemma reads_fail_if b e : reads (fail_if b e) (fun _ => b = false).
Proof. destruct b; [apply reads_FAIL|by apply reads_ret]. Qed.
Lemma reads_count : reads read_count (fun n => 0 <= n <= MAX_COUNT).
Proof. eapply reads_bind; [apply reads_any|]. intros n _. destruct (_ || _) eqn:E; [apply reads_FAIL|]. apply reads_ret. apply orb_false_iff in E as [E1 E2]. rewrite Z.gtb_ltb in E2. lia. Qed.
Lemma reads_freed_count : reads read_freed_count (fun n => 0 <= n <= MAX_COUNT).
Proof. eapply reads_bind; [apply reads_any|]. intros n _. destruct (n <? 0) eqn:E1; [apply reads_FAIL|]. destruct (n >? MAX_COUNT) eqn:E2; [apply reads_crash|]. apply reads_ret. rewrite Z.gtb_ltb in E2. lia. Qed.
Create HintDb reads.
#[export] Hint Resolve reads_count reads_freed_count reads_fail_if reads_FAIL reads_crash : reads.
(** One more read: by a known triple, or with nothing known of its value. *)
Ltac read_step := eapply reads_bind; [first [solve [eauto with reads]|apply reads_any]|cbv beta; intros ? ?].
Ltac read_all := repeat read_step.
Tactic Notation "branch" ident(E) := match goal with |- reads (if ?b then _ else _) _ => destruct b eqn:E end.


(** ** Functions *)
Lemma reads_instruction : reads read_instruction instruction_read.
Proof.
  unfold read_instruction. read_step. rename a into op. destruct (_ <? 0) eqn:En.
  - destruct (is_variadic op) eqn:Ev; cbn [negb]; [|apply reads_FAIL]. eapply reads_bind; [apply reads_array, reads_any|]. intros fixed [_ Hfixed]. cbv zeta.
    destruct (_ || _) eqn:Ec; [apply reads_FAIL|]. apply orb_false_iff in Ec as [Ec _].
    eapply reads_bind; [apply reads_array, reads_any|]. intros extra [_ Hextra]. apply reads_ret. split; cbn [operand_count operands opcode]; [|lia|intros _; split; [done|lia]].
    rewrite alen_app. lia.
  - eapply reads_bind; [apply reads_array, reads_any|]. intros ops [_ Hops]. apply reads_ret. split; cbn [operand_count operands opcode]; [|done|lia]. symmetry. apply Hops. lia.
Qed.
Record span_read (files : Z) (s : hl_source_span) : Prop := SpanRead {
  sr_file : 0 <= sp_file s < files; sr_line : 1 <= sp_line s <= sp_end_line s; sr_column : 1 <= sp_column s; sr_end_column : 1 <= sp_end_column s;
  sr_order : sp_line s = sp_end_line s -> sp_column s <= sp_end_column s;
  sr_offsets : sp_start s = -1 /\ sp_end s = -1 \/ 0 <= sp_start s <= sp_end s }.
Record function_read (files : Z) (f : hl_patch_function) : Prop := FunctionRead {
  fr_slot : 0 <= pf_stable_id f /\ 0 <= pf_findex f;
  fr_instructions : Forall instruction_read (pf_instructions f);
  fr_spans : Forall (span_read files) (pf_debug_spans f);
  fr_debug : pf_debug_spans f = [] \/ alen (pf_debug_spans f) = alen (pf_instructions f) }.
Lemma reads_registers n k : reads (read_registers n k) (fun _ => True).
Proof. done. Qed.
Lemma reads_function : reads read_function (function_read 0).
Proof.
  unfold read_function. do 9 read_step. eapply reads_bind; [apply reads_array, reads_instruction|]. intros l [His _]. read_all. apply reads_ret.
  split; [split; cbn; lia|exact His|done|by left].
Qed.
Lemma reads_functions : reads read_functions (Forall (function_read 0)).
Proof. unfold read_functions. read_step. eapply reads_weaken; [apply reads_array, reads_function|]. by intros l [Hl _]. Qed.

(** ** Debug information *)
Lemma function_read_more n f : 0 <= n -> function_read 0 f -> function_read n f.
Proof. intros Hn [H1 H2 H3 H4]. split; [done|done| |done]. eapply Forall_impl; [exact H3|]. intros s [[Ha Hb] _ _ _ _ _]. lia. Qed.
Lemma reads_span files : reads (read_span files) (span_read files).
Proof.
  unfold read_span. do 9 read_step. cbv zeta. read_step. apply reads_ret.
  match goal with H : _ || _ = false |- _ => repeat (apply orb_false_iff in H as [H ?]) end.
  repeat match goal with H : negb _ = false |- _ => apply negb_false_iff in H end. repeat rewrite Z.geb_leb in *.
  repeat match goal with
  | H : _ && _ = false |- _ => apply andb_false_iff in H as [H|H] | H : _ && _ = true |- _ => apply andb_true_iff in H as [H ?] | H : _ || _ = true |- _ => apply orb_true_iff in H as [H|H]
  end; split; cbn; lia.
Qed.
Lemma reads_function_debug files fs : 0 <= files -> Forall (function_read files) fs -> reads (read_function_debug files fs) (Forall (function_read files)).
Proof.
  intros Hfiles Hfs. unfold read_function_debug. do 2 read_step. destruct (functions_of fs a) as [|found [|? ?]]; [apply reads_FAIL| |apply reads_FAIL].
  destruct (aget fs found) as [f|] eqn:Ef; [|apply reads_crash]. read_step. read_step. eapply reads_bind; [apply reads_array, reads_span|]. intros spans [Hspans Hlen]. apply reads_ret.
  apply Forall_insert; [done|]. destruct (Forall_aget _ _ _ _ Hfs Ef) as [Hs Hi _ _]. match goal with H : negb (a0 =? _) = false |- _ => apply negb_false_iff, Z.eqb_eq in H end.
  split; [done|done|exact Hspans|]. right. cbn. rewrite Hlen; lia.
Qed.
Lemma reads_functions_debug files n fs : 0 <= files -> Forall (function_read files) fs -> reads (read_functions_debug files n fs) (Forall (function_read files)).
Proof.
  intros Hfiles. revert fs. induction n as [|n IH]; intros fs Hfs; cbn [read_functions_debug]; [by apply reads_ret|].
  eapply reads_bind; [by apply reads_function_debug|]. intros fs' Hfs'. by apply IH.
Qed.
Lemma reads_debug fs : Forall (function_read 0) fs -> reads (read_debug fs) (fun r => Forall (function_read (alen (fst r))) (snd r)).
Proof.
  intros Hfs. unfold read_debug. read_step. eapply reads_bind; [apply reads_array, reads_any|]. intros files [_ Hfiles]. read_step. read_step.
  eapply reads_bind; [apply (reads_functions_debug a)|]; [lia| |].
  - eapply Forall_impl; [exact Hfs|]. intros f Hf. apply function_read_more; [lia|done].
  - intros fs' Hfs'. apply reads_ret. cbn [fst snd]. rewrite Hfiles by lia. exact Hfs'.
Qed.

(** ** Types *)
Record type_read (version : Z) (t : hl_patch_type) : Prop := TypeRead {
  tr_tag : HVOID <= pt_tag t <= HGUID;
  tr_data : match pt_data t with
    | DNone => pt_tag t ∉ [HFUN; HABSTRACT; HREF; HNULL; HOBJ; HVIRTUAL; HENUM; HPACKED]
    | DFun _ _ => pt_tag t = HFUN
    | DName _ => pt_tag t = HABSTRACT
    | DParameter _ => pt_tag t = HREF \/ pt_tag t = HNULL \/ (pt_tag t = HPACKED /\ 10 <= version)
    | DObj o => 10 <= version /\ patch_type_is_object (pt_tag t) = true /\ (pt_tag t = HVIRTUAL -> po_super o = -1 /\ po_protos o = [] /\ po_bindings o = [])
    end }.
Lemma reads_object_type tag : reads (read_patch_object_type tag) (fun o => tag = HVIRTUAL -> po_super o = -1 /\ po_protos o = [] /\ po_bindings o = []).
Proof. unfold read_patch_object_type. destruct (tag =? HVIRTUAL) eqn:E; read_all; apply reads_ret; [done|lia]. Qed.
Lemma object_tag_range tag : patch_type_is_object tag = true -> HVOID <= tag <= HGUID.
Proof. unfold patch_type_is_object, patch_type_is_class, HOBJ, HSTRUCT, HVIRTUAL, HVOID, HGUID. lia. Qed.
Lemma reads_type version : reads (read_patch_type version) (type_read version).
Proof.
  unfold read_patch_type. read_step. rename a into tag.
  branch E1; [read_all; apply reads_ret; apply Z.eqb_eq in E1 as ->; by split|].
  branch E2; [read_all; apply reads_ret; apply Z.eqb_eq in E2 as ->; by split|].
  branch E3.
  { read_all. apply reads_ret. rewrite !orb_true_iff, andb_true_iff, !Z.eqb_eq, Z.geb_leb, Z.leb_le in E3. split; cbn; [unfold HVOID, HGUID, HREF, HNULL, HPACKED in *; lia|tauto]. }
  branch E4.
  { eapply reads_bind; [apply reads_object_type|]. intros o Ho. apply reads_ret. apply andb_true_iff in E4 as [E4 E5]. rewrite Z.geb_leb in E4. split; cbn; [by apply object_tag_range|]. split; [lia|done]. }
  branch E5; [apply reads_FAIL|]. apply reads_ret. rewrite Z.gtb_ltb in E5. split; cbn; unfold HVOID, HGUID in *; [lia|].
  repeat (apply not_elem_of_cons; split; [lia|]). apply not_elem_of_nil.
Qed.

(** ** Tables without duplicates *)
(** The readers add at the front, and the list is reversed at the end. *)
Definition distinct {A B} (key : A -> B) (l : list A) : Prop := NoDup (key <$> l).
Lemma distinct_rev {A B} (key : A -> B) l : distinct key l -> distinct key (rev l).
Proof. unfold distinct. intros H. by rewrite <- (Permutation_rev l). Qed.
Lemma distinct_cons {A B} (key : A -> B) (p : A -> bool) x l : (forall y, p y = false -> key y <> key x) -> existsb p l = false -> distinct key l -> distinct key (x :: l).
Proof. intros Hp E H. apply NoDup_cons. split; [|exact H]. intros (y & Ey & Hy)%list_elem_of_fmap. rewrite existsb_false in E. by destruct (Hp y (E y Hy)). Qed.
Lemma reads_table {A} (m : list A -> parse A) (I : list A -> Prop) n : I [] -> (forall l, I l -> I (rev l)) -> (forall before, I before -> reads (m before) (fun x => I (x :: before))) -> reads (repeat_after m n []) I.
Proof. intros H0 Hrev Hm. eapply reads_weaken; [by apply reads_after|]. intros l Hl. rewrite <- (rev_involutive l). by apply Hrev. Qed.
Definition snapshots_read (l : list hl_source_snapshot) : Prop := distinct ss_hash l /\ Forall (fun s => ss_hash s <> 0 /\ ss_hash s = i32 (snapshot_hash (ss_content s))) l.
Lemma reads_snapshots : reads read_snapshots snapshots_read.
Proof.
  unfold read_snapshots. read_step. apply reads_table.
  - split; [by apply NoDup_nil|done].
  - intros l [H1 H2]. split; [by apply distinct_rev|by apply Forall_rev].
  - intros l [H1 H2]. unfold read_snapshot. do 5 read_step. apply reads_ret.
    split; [eapply distinct_cons; [|eassumption|done]; cbn; lia|]. constructor; [|done]. cbn [ss_hash ss_content]. rewrite negb_false_iff, Z.eqb_eq in *. split; [lia|congruence].
Qed.
Definition added_read (l : list hl_patch_added_function) : Prop := distinct af_stable_id l /\ distinct af_findex l.
Lemma reads_added_functions : reads read_added_functions added_read.
Proof.
  unfold read_added_functions. read_step. apply reads_table.
  - split; by apply NoDup_nil.
  - intros l [H1 H2]. split; by apply distinct_rev.
  - intros l [H1 H2]. unfold read_added_function. do 5 read_step. apply reads_ret. split; (eapply distinct_cons; [|eassumption|done]; cbn; lia).
Qed.
Definition fields_read (l : list hl_patch_object_field) : Prop := distinct (fun f => (of_type f, of_field f)) l.
Lemma reads_object_fields : reads read_object_fields fields_read.
Proof.
  unfold read_object_fields. do 2 read_step. apply reads_table; [by apply NoDup_nil|intros l; apply distinct_rev|].
  intros l Hl. unfold read_object_field. do 5 read_step. apply reads_ret. eapply distinct_cons; [|eassumption|done]. intros y Hy Heq. cbn in Hy, Heq. injection Heq as ? ?. lia.
Qed.
Lemma reads_migrations : reads read_migrations (distinct mi_type).
Proof.
  unfold read_migrations. do 2 read_step. apply reads_table; [by apply NoDup_nil|intros l; apply distinct_rev|].
  intros l Hl. unfold read_migration. do 3 read_step. apply reads_ret. eapply distinct_cons; [|eassumption|done]. cbn. lia.
Qed.

(** ** Sections *)
Definition option_holds {A} (P : A -> Prop) (o : option A) : Prop := match o with Some x => P x | None => True end.
Record patch_ok (version : Z) (p : hl_patch) : Prop := PatchOk {
  pk_revision : 0 <= base_revision p < revision p;
  pk_types : option_holds (fun s => Forall (type_read version) (types s)) (symbols p);
  pk_functions : option_holds (Forall (function_read (from_option alen 0 (debug_files p)))) (functions p);
  pk_snapshots : option_holds snapshots_read (source_snapshots p);
  pk_added : option_holds added_read (added_functions p);
  pk_fields : option_holds fields_read (object_fields p);
  pk_migrations : option_holds (distinct mi_type) (migrations p) }.
Lemma reads_symbols version : reads (read_symbols version) (fun s => Forall (type_read version) (types s)).
Proof. unfold read_symbols. do 15 read_step. eapply reads_bind; [apply reads_array, reads_type|]. intros l [Hl _]. by apply reads_ret. Qed.
Lemma reads_once {A} (o : option A) e : reads (once o e) (fun _ => o = None).
Proof. destruct o; [apply reads_FAIL|by apply reads_ret]. Qed.
Ltac one_section T := eapply reads_bind; [apply reads_once|]; intros _ ->; eapply reads_bind; [apply T|]; intros x Hx; apply reads_ret; split; try done.
Lemma reads_section version tag p : patch_ok version p -> reads (read_section version tag p) (patch_ok version).
Proof.
  intros [H1 H2 H3 H4 H5 H6 H7]. destruct p as [id base rev sym fs dbg snap add glob fields mig grd]. unfold read_section.
  branch E1; [one_section reads_symbols|].
  branch E2; [one_section reads_functions|].
  { cbn in Hx |- *. eapply Forall_impl; [exact Hx|]. intros f Hf. apply function_read_more; [|done]. destruct dbg; cbn; [apply alen_nonneg|lia]. }
  branch E3.
  { destruct dbg as [|], fs as [fs|]; try apply reads_FAIL. eapply reads_bind; [by apply reads_debug|]. intros x Hx. apply reads_ret. by split. }
  branch E4; [one_section reads_snapshots|].
  branch E5; [one_section reads_added_functions|].
  branch E6; [one_section (reads_any (read_globals version))|].
  branch E7; [one_section reads_object_fields|].
  branch E8; [one_section reads_migrations|].
  branch E9; [one_section (reads_any read_guards)|].
  intros s x rest E. injection E as <- _. by split.
Qed.
Lemma reads_sections version n p : patch_ok version p -> reads (read_sections version n p) (patch_ok version).
Proof.
  revert p. induction n as [|n IH]; intros p Hp; cbn [read_sections]; [by apply reads_ret|]. do 3 read_step.
  assert (reads (within (read_section version a p)) (patch_ok version)) as Hw by (eapply reads_bind; [by apply reads_section|]; intros x Hx; do 2 read_step; by apply reads_ret).
  destruct (within _ _) as [p' rest| |] eqn:E; [|apply reads_FAIL|apply reads_crash]. apply IH. exact (Hw _ _ _ E).
Qed.
(** What [hl_patch_read] returns. *)
Record patch_read (version : Z) (p : hl_patch) : Prop := IsPatchRead {
  pr_version : version = 9 \/ version = 10;
  pr_ok : patch_ok version p;
  pr_symbols : symbols p <> None;
  pr_functions : functions p <> None }.
Lemma hl_patch_read_ok data p : hl_patch_read data = PatchRead p -> exists version, patch_read version p.
Proof.
  unfold hl_patch_read. destruct (read_patch data) as [q rest| |] eqn:E; [|discriminate..]. intros Hq. injection Hq as ->.
  assert (reads read_patch (fun p => exists version, patch_read version p)) as H; [|exact (H _ _ _ E)]. clear.
  unfold read_patch. do 8 read_step. rename a1 into version. read_step.
  eapply reads_bind; [apply (reads_sections version)|].
  { split; try done. cbn. lia. }
  intros p Hp. do 3 read_step. apply reads_ret. exists version. destruct (symbols p) eqn:E1, (functions p) eqn:E2; try discriminate. split; [lia|done|congruence..].
Qed.
