(* ===== verification/PatchLayout.v ===== *)
(** * The functions of a module, with those that a patch adds ([src/hlpatch.c])

    A module has functions and natives, each in a slot; a slot maps to its place among the
    functions, or past them.  [stage_patch_layout] builds the layout that the code of a patch is
    checked and compiled against: the loaded functions, the added ones in the next free slots,
    the natives after them all.  [publish_added_functions] makes them the module's own when the
    patch commits.  The tables of a module have room for [functions_capacity] functions and its
    natives; memory is assumed to be there. *)
From S2P Require Import Prelude Opcodes Reader Patch PatchTraps PatchChecks PatchRead PatchReadSound.

(** A function: its entries of [code->functions], [function_stable_ids] and [function_names]. *)
Record module_function := ModuleFunction { mf_type : Z; mf_findex : Z; mf_stable_id : Z; mf_name : list Z }.
(** The functions are the loaded ones and those of earlier patches, [nfunctions + npatchfunctions];
    [lm_patch_targets] is whether the module is patchable, [lm_natives] the slots of the natives. *)
Record live_module := LiveModule {
  lm_functions : list module_function; lm_functions_capacity : Z; lm_patch_targets : bool; lm_functions_indexes : list Z;
  lm_functions_types : list (option Z); lm_natives : list Z; lm_kinds : list Z }.
Definition module_slot_count (m : live_module) : Z := alen (lm_functions m) + alen (lm_natives m).
Definition added_of (p : hl_patch) : list hl_patch_added_function := default [] (added_functions p).
Definition functions_of_patch (p : hl_patch) : list hl_patch_function := default [] (functions p).
Definition base_types (p : hl_patch) : Z := from_option base_type_count 0 (symbols p).
Definition types_of (p : hl_patch) : list hl_patch_type := from_option types [] (symbols p).
(** The sizes of the pools with the patch's entries. *)
Definition pools_of (p : hl_patch) : patch_pools :=
  match symbols p with
  | Some s => Pools (base_type_count s + alen (types s)) (base_int_count s + alen (ints s)) (base_float_count s + alen (floats s)) (base_string_count s + alen (strings s)) (from_option (fun g => alen (globals g)) 0 (patch_globals p))
  | None => Pools 0 0 0 0 (from_option (fun g => alen (globals g)) 0 (patch_globals p))
  end.

Section stage.
Context (m : live_module) (p : hl_patch).
Fixpoint check_added_functions (i : Z) (l : list hl_patch_added_function) : option (option string) :=
  match l with
  | [] => Some None
  | a :: l =>
      if negb (af_findex a =? module_slot_count m + i) then Some (Some "Added function is not in the next free slot"%string) else
      if (af_type a <? 0) || (af_type a >=? base_types p + alen (types_of p)) then Some (Some "Invalid added function type"%string) else
      kind ← (if af_type a <? base_types p then aget (lm_kinds m) (af_type a) else t ← aget (types_of p) (af_type a - base_types p); Some (pt_tag t));
      if negb (kind =? HFUN) && negb (kind =? HMETHOD) then Some (Some "Invalid added function type"%string) else
      if negb (alen (filter (fun f => pf_findex f = af_findex a) (functions_of_patch p)) =? 1) then Some (Some "Added function has no body"%string) else
      check_added_functions (i + 1) l
  end.
(** [indexes[slot] = k] for the slots in turn, [k] counting up. *)
Fixpoint place (indexes : list Z) (k : Z) (slots : list Z) : option (list Z) :=
  match slots with [] => Some indexes | slot :: slots => indexes ← aset indexes slot k; place indexes (k + 1) slots end.
(** [junk] is what fresh memory holds. *)
Definition stage_patch_layout (junk : Z) : option (string + patch_layout) :=
  let loaded := alen (lm_functions m) in let added := added_of p in
  if (alen added >? 0) && negb (lm_patch_targets m) then Some (inl "Module cannot take added functions"%string) else
  if alen added >? lm_functions_capacity m - loaded then Some (inl "Added function capacity exceeded"%string) else
  checked ← check_added_functions 0 added;
  match (checked : option string) with
  | Some e => Some (inl e)
  | None =>
      let count := loaded + alen added in
      if alen (lm_functions_indexes m) <? module_slot_count m then None else
      indexes ← place (take (Z.to_nat (module_slot_count m)) (lm_functions_indexes m) ++ replicate (length added) junk) loaded (af_findex <$> added);
      indexes ← place indexes count (lm_natives m);
      Some (inr (Layout ((mf_type <$> lm_functions m) ++ (af_type <$> added)) indexes (module_slot_count m + alen added)))
  end.
End stage.

(** [strlen] of the name, which [hl_patch_read] ends with a zero. *)
Fixpoint c_string (l : list Z) : list Z := match l with [] => [] | c :: l => if c =? 0 then [] else c :: c_string l end.
Fixpoint publish_functions (m : live_module) (l : list hl_patch_added_function) : option live_module :=
  match l with
  | [] => Some m
  | a :: l =>
      let at_ := alen (lm_functions m) in
      if at_ >=? lm_functions_capacity m then None else
      indexes ← aset (lm_functions_indexes m) (af_findex a) at_;
      types ← aset (lm_functions_types m) (af_findex a) (Some (af_type a));
      publish_functions (LiveModule (lm_functions m ++ [ModuleFunction (af_type a) (af_findex a) (af_stable_id a) (c_string (af_name a))])
        (lm_functions_capacity m) (lm_patch_targets m) indexes types (lm_natives m) (lm_kinds m)) l
  end.
Definition publish_added_functions (m : live_module) (p : hl_patch) : option live_module := publish_functions m (added_of p).
(** The type of the function in a slot, as lookups by [functions_indexes] find it. *)
Definition slot_function (m : live_module) (slot : Z) : option Z :=
  k ← aget (lm_functions_indexes m) slot; mf_type <$> aget (lm_functions m) k.

(** ** Placing slots *)
Lemma place_spec ix k slots : Forall (fun s => 0 <= s < alen ix) slots ->
  exists r, place ix k slots = Some r /\ alen r = alen ix /\ (forall s, s ∉ slots -> aget r s = aget ix s) /\ (NoDup slots -> forall j s, aget slots j = Some s -> aget r s = Some (k + j)).
Proof.
  revert ix k. induction slots as [|s slots IH]; intros ix k H; cbn [place].
  { exists ix. split; [done|]. split; [done|]. split; [done|]. intros _ j s E. by rewrite aget_nil in E. }
  apply Forall_cons in H as [Hs H]. pose proof (aset_Some ix s k Hs) as E. set (ix' := <[_ := k]> ix) in E. rewrite E. cbn [mbind option_bind].
  assert (alen ix' = alen ix) as Hlen by exact (aset_len _ _ _ _ E).
  destruct (IH ix' (k + 1)) as (r & Er & H1 & H2 & H3); [by rewrite Hlen|]. exists r. split; [exact Er|]. split; [lia|]. split.
  - intros t [Hne Hnot]%not_elem_of_cons. rewrite H2 by done. by rewrite (aget_aset_ne _ _ _ _ _ E).
  - intros [Hnot Hnd]%NoDup_cons j t Ej. pose proof (aget_Some_range _ _ _ Ej). destruct (decide (j = 0)) as [->|Hne].
    + change (Some s = Some t) in Ej. injection Ej as <-. rewrite H2 by done. rewrite (aget_aset_eq _ _ _ _ E). f_equal. lia.
    + rewrite (H3 Hnd (j - 1) t); [f_equal; lia|]. rewrite aget_lookup in Ej |- * by lia. by replace (Z.to_nat j) with (S (Z.to_nat (j - 1))) in Ej by lia.
Qed.

(** ** The layout *)
(** The tables have a place for every slot, and the natives their own slots. *)
Record module_ok (m : live_module) : Prop := ModuleOk {
  mo_room : alen (lm_functions m) <= lm_functions_capacity m;
  mo_indexes : alen (lm_functions_indexes m) = lm_functions_capacity m + alen (lm_natives m);
  mo_types : alen (lm_functions_types m) = lm_functions_capacity m + alen (lm_natives m);
  mo_natives : Forall (fun s => 0 <= s < module_slot_count m) (lm_natives m);
  mo_distinct : NoDup (lm_natives m) }.
Record layout_staged (m : live_module) (p : hl_patch) (l : patch_layout) : Prop := Staged {
  ls_slots : l_slots l = module_slot_count m + alen (added_of p);
  ls_indexes : alen (l_indexes l) = l_slots l;
  ls_functions : l_functions l = (mf_type <$> lm_functions m) ++ (af_type <$> added_of p);
  ls_room : alen (lm_functions m) + alen (added_of p) <= lm_functions_capacity m;
  ls_added_slot : forall i a, aget (added_of p) i = Some a -> af_findex a = module_slot_count m + i;
  ls_added : forall i a, aget (added_of p) i = Some a -> aget (l_indexes l) (af_findex a) = Some (alen (lm_functions m) + i);
  ls_natives : forall i s, aget (lm_natives m) i = Some s -> aget (l_indexes l) s = Some (alen (l_functions l) + i);
  ls_kept : forall s, 0 <= s < module_slot_count m -> s ∉ lm_natives m -> aget (l_indexes l) s = aget (lm_functions_indexes m) s }.
Section staged.
Context (m : live_module) (p : hl_patch).
Lemma check_added_functions_spec i l r : check_added_functions m p i l = Some r -> r = None -> forall j a, aget l j = Some a -> af_findex a = module_slot_count m + i + j.
Proof.
  revert i. induction l as [|a l IH]; intros i E Hr j b Ej; [by rewrite aget_nil in Ej|]. cbn [check_added_functions] in E. subst r.
  destruct (af_findex a =? _) eqn:E1; cbn [negb] in E; [|discriminate]. destruct (_ || _) in E; [discriminate|]. destruct (if af_type a <? _ then _ else _) as [k|]; [|discriminate]. cbn [mbind option_bind] in E.
  destruct (_ && _) in E; [discriminate|]. destruct (negb _) in E; [discriminate|]. apply Z.eqb_eq in E1. pose proof (aget_Some_range _ _ _ Ej).
  destruct (decide (j = 0)) as [->|Hne]; [change (Some a = Some b) in Ej; injection Ej as <-; lia|].
  rewrite (IH (i + 1) E eq_refl (j - 1) b); [lia|]. rewrite aget_lookup in Ej |- * by lia. by replace (Z.to_nat j) with (S (Z.to_nat (j - 1))) in Ej by lia.
Qed.
(** The kinds that the checks read exist: the types before the patch's are the module's. *)
Lemma check_added_functions_total i l : base_types p <= alen (lm_kinds m) -> exists r, check_added_functions m p i l = Some r.
Proof.
  intros Hbase. revert i. induction l as [|a l IH]; intros i; cbn [check_added_functions]; [by eexists|].
  destruct (negb (_ =? _)); [by eexists|]. destruct (_ || _) eqn:E2; [by eexists|]. apply orb_false_iff in E2 as [E2 E3]. rewrite Z.geb_leb in E3.
  assert (exists k, (if af_type a <? base_types p then aget (lm_kinds m) (af_type a) else t ← aget (types_of p) (af_type a - base_types p); Some (pt_tag t)) = Some k) as [k ->].
  { destruct (af_type a <? base_types p) eqn:E4; [apply aget_is_Some; lia|]. destruct (aget_is_Some (types_of p) (af_type a - base_types p)) as [t ->]; [lia|]. by eexists. }
  cbn [mbind option_bind]. destruct (_ && _); [by eexists|]. destruct (negb _); [by eexists|]. apply IH.
Qed.
Lemma stage_patch_layout_spec junk : module_ok m -> base_types p <= alen (lm_kinds m) ->
  exists r, stage_patch_layout m p junk = Some r /\ (forall l, r = inr l -> layout_staged m p l).
Proof.
  intros [Hroom Hix _ Hnat Hdist] Hbase. unfold stage_patch_layout. cbv zeta.
  destruct (_ && _); [eexists; split; [done|discriminate]|]. destruct (_ >? _) eqn:Ecap; [eexists; split; [done|discriminate]|]. rewrite Z.gtb_ltb in Ecap.
  destruct (check_added_functions_total 0 (added_of p) Hbase) as [checked E]. rewrite E. cbn [mbind option_bind].
  destruct checked as [e|]; [eexists; split; [done|discriminate]|]. pose proof (check_added_functions_spec _ _ _ E eq_refl) as Hslot.
  pose proof (alen_nonneg (added_of p)). pose proof (alen_nonneg (lm_natives m)). pose proof (alen_nonneg (lm_functions m)). unfold module_slot_count in *.
  rewrite (proj2 (Z.ltb_ge _ _)) by lia. set (ix := _ ++ replicate _ junk).
  assert (alen ix = alen (lm_functions m) + alen (lm_natives m) + alen (added_of p)) as Hlen by (unfold ix; rewrite alen_app, alen_take, alen_replicate by lia; unfold alen; lia).
  assert (forall j s, aget (af_findex <$> added_of p) j = Some s -> s = alen (lm_functions m) + alen (lm_natives m) + j /\ 0 <= j < alen (added_of p)) as Hadd.
  { intros j s Ej. rewrite aget_fmap in Ej. destruct (aget (added_of p) j) as [a|] eqn:Ea; [|discriminate]. injection Ej as <-. rewrite (Hslot j a Ea). split; [lia|exact (aget_Some_range _ _ _ Ea)]. }
  destruct (place_spec ix (alen (lm_functions m)) (af_findex <$> added_of p)) as (ix1 & E1 & Hlen1 & Hkeep1 & Hset1).
  { apply Forall_forall. intros s Hs. apply elem_of_aget in Hs as [j Ej]. destruct (Hadd j s Ej). lia. }
  rewrite E1. cbn [mbind option_bind].
  destruct (place_spec ix1 (alen (lm_functions m) + alen (added_of p)) (lm_natives m)) as (ix2 & E2 & Hlen2 & Hkeep2 & Hset2).
  { eapply Forall_impl; [exact Hnat|]. cbn. lia. }
  rewrite E2. cbn [mbind option_bind]. eexists. split; [done|]. intros l Hl. injection Hl as <-.
  assert (NoDup (af_findex <$> added_of p)) as Hnd.
  { apply NoDup_aget. intros i j s Ei Ej. destruct (Hadd i s Ei), (Hadd j s Ej). lia. }
  split; cbn [l_slots l_indexes l_functions]; unfold module_slot_count.
  - done.
  - lia.
  - done.
  - lia.
  - intros i a Ei. rewrite (Hslot i a Ei). lia.
  - intros i a Ei. rewrite Hkeep2; [apply Hset1; [done|by rewrite aget_fmap, Ei]|]. intros Hin. rewrite Forall_forall in Hnat. specialize (Hnat _ Hin). rewrite (Hslot i a Ei) in Hnat. pose proof (aget_Some_range _ _ _ Ei). lia.
  - intros i s Ei. rewrite (Hset2 Hdist i s Ei), alen_app, !alen_fmap. done.
  - intros s Hs Hnot. rewrite Hkeep2 by done. rewrite Hkeep1.
    + unfold ix. rewrite aget_app_l, aget_take by (rewrite ?alen_take; lia). done.
    + intros Hin. apply elem_of_aget in Hin as [j Ej]. destruct (Hadd j s Ej). lia.
Qed.
End staged.
(** A native's slot has no function. *)
Lemma layout_native m p l : module_ok m -> layout_staged m p l -> forall i s, aget (lm_natives m) i = Some s -> layout_function l s = Some None.
Proof.
  intros [_ _ _ Hnat _] [Hslots _ _ _ _ _ Hn _] i s Ei. pose proof (Forall_aget _ _ _ _ Hnat Ei) as Hs. pose proof (aget_Some_range _ _ _ Ei). pose proof (alen_nonneg (added_of p)).
  unfold layout_function. rewrite Z.geb_leb, (proj2 (orb_false_iff _ _)) by (cbn in Hs; lia). rewrite (Hn i s Ei). cbn [mbind option_bind]. by rewrite Z.geb_leb, (proj2 (orb_true_iff _ _)) by lia.
Qed.

(** ** Committing the functions *)
Definition published (a : hl_patch_added_function) : module_function := ModuleFunction (af_type a) (af_findex a) (af_stable_id a) (c_string (af_name a)).
Lemma publish_functions_spec m l :
  Forall (fun s => 0 <= s < alen (lm_functions_indexes m)) (af_findex <$> l) -> alen (lm_functions_types m) = alen (lm_functions_indexes m) -> alen (lm_functions m) + alen l <= lm_functions_capacity m -> NoDup (af_findex <$> l) ->
  exists ix types, publish_functions m l = Some (LiveModule (lm_functions m ++ (published <$> l)) (lm_functions_capacity m) (lm_patch_targets m) ix types (lm_natives m) (lm_kinds m)) /\
    place (lm_functions_indexes m) (alen (lm_functions m)) (af_findex <$> l) = Some ix /\ alen types = alen (lm_functions_types m) /\
    (forall s, s ∉ af_findex <$> l -> aget types s = aget (lm_functions_types m) s) /\ (forall a, a ∈ l -> aget types (af_findex a) = Some (Some (af_type a))).
Proof.
  revert m. induction l as [|a l IH]; intros m Hs Hty Hroom Hnd; cbn [publish_functions fmap list_fmap place].
  { exists (lm_functions_indexes m), (lm_functions_types m). split; [rewrite app_nil_r; by destruct m|]. split; [done|]. split; [done|]. split; [done|]. by intros a ?%elem_of_nil. }
  rewrite alen_cons in Hroom. pose proof (alen_nonneg l). cbn [fmap list_fmap] in Hs, Hnd. apply Forall_cons in Hs as [Ha Hs]. apply NoDup_cons in Hnd as [Hnot Hnd].
  rewrite Z.geb_leb, (proj2 (Z.leb_gt _ _)) by lia. destruct (aset_total (lm_functions_indexes m) (af_findex a) (alen (lm_functions m)) Ha) as (ix & E1 & L1 & G1). rewrite E1. cbn [mbind option_bind].
  destruct (aset_total (lm_functions_types m) (af_findex a) (Some (af_type a))) as (ty & E2 & L2 & G2); [lia|]. rewrite E2. cbn [mbind option_bind].
  set (m1 := LiveModule _ _ _ ix ty _ _). destruct (IH m1) as (ix' & ty' & E & Ep & L & Hkeep & Hset); cbn [m1 lm_functions_indexes lm_functions_types lm_functions lm_functions_capacity]; [by rewrite L1|lia|rewrite alen_app, alen_cons, alen_nil; lia|done|].
  exists ix', ty'. rewrite E. split; [cbn [m1 lm_functions lm_functions_capacity lm_patch_targets lm_natives lm_kinds]; by rewrite <- app_assoc|].
  split; [rewrite <- Ep; cbn [m1 lm_functions lm_functions_indexes]; by rewrite alen_app, alen_cons, alen_nil, Z.add_0_r|]. split; [cbn in L; lia|]. split.
  - intros s [Hne Hns]%not_elem_of_cons. rewrite Hkeep by done. cbn [m1 lm_functions_types]. rewrite G2. by destruct (decide (af_findex a = s)).
  - intros b [->|Hb]%elem_of_cons; [|by apply Hset]. rewrite Hkeep by exact Hnot. cbn [m1 lm_functions_types]. rewrite G2. by destruct (decide (af_findex a = af_findex a)).
Qed.
Lemma layout_slot_function l s ix (fs : list module_function) : 0 <= s < l_slots l -> alen (l_indexes l) = l_slots l -> l_functions l = mf_type <$> fs -> aget (l_indexes l) s = aget ix s ->
  layout_function l s = Some (k ← aget ix s; mf_type <$> aget fs k).
Proof.
  intros Hs Hlen Hfs Hix. unfold layout_function. rewrite Z.geb_leb, (proj2 (orb_false_iff _ _)) by lia.
  destruct (aget_is_Some (l_indexes l) s) as [k E]; [lia|]. rewrite <- Hix, E. cbn [mbind option_bind]. rewrite Z.geb_leb, Hfs, alen_fmap.
  destruct (_ || _) eqn:Eb; [rewrite (proj2 (aget_None fs k)) by lia; done|]. destruct (aget_is_Some fs k) as [f Ef]; [lia|]. by rewrite aget_fmap, Ef.
Qed.
Lemma commit_spec m p l : module_ok m -> layout_staged m p l ->
  exists m', publish_added_functions m p = Some m' /\ module_ok m' /\ module_slot_count m' = l_slots l /\ lm_natives m' = lm_natives m /\
    (forall s, 0 <= s < l_slots l -> s ∉ lm_natives m -> layout_function l s = Some (slot_function m' s)) /\
    (forall a, a ∈ added_of p -> slot_function m' (af_findex a) = Some (af_type a) /\ aget (lm_functions_types m') (af_findex a) = Some (Some (af_type a))).
Proof.
  intros [Hroom Hix Hty Hnat Hdist] [Sslots Sindexes Sfunctions Sroom Saddslot Sadded Snatives Skept].
  pose proof (alen_nonneg (added_of p)). pose proof (alen_nonneg (lm_natives m)). pose proof (alen_nonneg (lm_functions m)). unfold module_slot_count in *.
  assert (forall j s, aget (af_findex <$> added_of p) j = Some s -> s = alen (lm_functions m) + alen (lm_natives m) + j /\ 0 <= j < alen (added_of p)) as Hadd.
  { intros j s Ej. rewrite aget_fmap in Ej. destruct (aget (added_of p) j) as [a|] eqn:Ea; [|discriminate]. injection Ej as <-. rewrite (Saddslot j a Ea). split; [lia|exact (aget_Some_range _ _ _ Ea)]. }
  assert (Forall (fun s => 0 <= s < alen (lm_functions_indexes m)) (af_findex <$> added_of p)) as Hin by (apply Forall_forall; intros s Hs; apply elem_of_aget in Hs as [j Ej]; destruct (Hadd j s Ej); lia).
  assert (NoDup (af_findex <$> added_of p)) as Hnd by (apply NoDup_aget; intros i j s Ei Ej; destruct (Hadd i s Ei), (Hadd j s Ej); lia).
  destruct (publish_functions_spec m (added_of p) Hin) as (ix & ty & E & Ep & Lty & Kty & Sty); [lia|lia|done|].
  destruct (place_spec (lm_functions_indexes m) (alen (lm_functions m)) (af_findex <$> added_of p) Hin) as (ix' & Ep' & Lix & Kix & Six). assert (ix' = ix) as -> by congruence. clear Ep'.
  set (m' := LiveModule _ _ _ ix ty _ _) in E. assert (alen (lm_functions m') = alen (lm_functions m) + alen (added_of p)) as Hcount by (cbn; rewrite alen_app, alen_fmap; done).
  exists m'. split; [exact E|]. split; [|split; [unfold module_slot_count; rewrite Hcount; cbn; lia|split; [done|split]]].
  - split; [rewrite Hcount; cbn; lia|cbn; lia|cbn; lia| |done]. eapply Forall_impl; [exact Hnat|]. unfold module_slot_count. rewrite Hcount. cbn. lia.
  - intros s Hs Hnot. apply layout_slot_function; [done|done| |].
    + rewrite Sfunctions. cbn [m' lm_functions]. rewrite fmap_app. f_equal. rewrite <- list_fmap_compose. done.
    + cbn [m' lm_functions_indexes]. destruct (decide (s < alen (lm_functions m) + alen (lm_natives m))) as [Hlt|Hge].
      * rewrite Skept by (lia || done). symmetry. apply Kix. intros [j Ej]%elem_of_aget. destruct (Hadd j s Ej). lia.
      * destruct (aget_is_Some (added_of p) (s - (alen (lm_functions m) + alen (lm_natives m)))) as [a Ea]; [lia|]. pose proof (Saddslot _ _ Ea) as Hfx.
        replace s with (af_findex a) by lia. rewrite (Sadded _ _ Ea). symmetry. apply Six; [done|]. by rewrite aget_fmap, Ea.
  - intros a Ha. apply elem_of_aget in Ha as Hi. destruct Hi as [i Ei]. split; [|by apply Sty]. unfold slot_function. cbn [m' lm_functions_indexes lm_functions].
    rewrite (Six Hnd i (af_findex a)) by (by rewrite aget_fmap, Ei). cbn [mbind option_bind]. pose proof (aget_Some_range _ _ _ Ei). rewrite aget_app_r by lia.
    rewrite aget_fmap. replace (_ - _) with i by lia. by rewrite Ei.
Qed.
