(* ===== verification/PatchTypes.v ===== *)
(** * The types that a patch appends ([src/hlpatch.c])

    The types of a patch go after the module's, in the table that loaded code points into.
    [validate_patch_types] checks them against the tables, [stage_patch_types] builds them and
    [link_patch_object_types] gives the classes their globals.  The module's types are the heap
    of [Types]; its table of names interns those of fields and methods ([hl_hash_gen]).  The
    runtime layouts of virtuals, which linking also builds, are those of [Layout]. *)
From S2P Require Import Prelude Ustr Buffer Lookup Reader Types TypesProps Opcodes Patch PatchTraps PatchChecks PatchRead PatchReadSound PatchLayout.

(** The members of the union [data], zeroes where it has another. *)
Definition object_of (d : patch_type_data) : hl_patch_object_type := match d with DObj o => o | _ => PatchObject 0 0 0 [] [] [] end.
Definition fun_of_data (d : patch_type_data) : list Z * Z := match d with DFun arguments result => (arguments, result) | _ => ([], 0) end.
Definition name_of_data (d : patch_type_data) : Z := match d with DName name => name | _ => 0 end.
Definition parameter_of_data (d : patch_type_data) : Z := match d with DParameter x => x | _ => 0 end.
Definition globals_of (p : hl_patch) : list hl_patch_global := from_option globals [] (patch_globals p).
Definition fails (b : bool) (message : string) (next : option (option string)) : option (option string) := if b then Some (Some message) else next.

(** ** The checks *)
Section validate.
Context (h : heap) (types_capacity nglobals string_count : Z) (p : hl_patch).
Definition total_types : Z := base_types p + alen (types_of p).
Definition patch_type_kind (index : Z) : option Z :=
  if index <? base_types p then kind_of h index else t ← aget (types_of p) (index - base_types p); Some (pt_tag t).
Definition validate_patch_object_type (index : Z) (t : hl_patch_type) : option (option string) :=
  let o := object_of (pt_data t) in
  fails (existsb (fun '(name, ty) => (name <? 0) || (name >=? string_count) || (ty <? 0) || (ty >=? total_types)) (po_fields o)) "Invalid appended object field"%string (
  if pt_tag t =? HVIRTUAL then Some None else
  fails ((po_name o <? 0) || (po_name o >=? string_count)) "Invalid appended object name"%string (
  base ← (if po_super o >=? 0 then if po_super o >=? index then Some true else k ← patch_type_kind (po_super o); Some (negb (k =? pt_tag t)) else Some false);
  fails base "Invalid appended object base"%string (
  fails (po_super o <? -1) "Invalid appended object base"%string (
  let g := po_global o - 1 - nglobals in
  fails (negb (po_global o =? 0) && ((g <? 0) || (g >=? alen (globals_of p)) ||
    match aget (globals_of p) g with Some gl => match pg_fields gl with Some _ => true | None => negb (pg_type gl =? index) end | None => false end)) "Invalid appended object global"%string (
  fails (existsb (fun '(name, _, pindex) => (name <? 0) || (name >=? string_count) || ((pindex <? -1) && negb ((pt_tag t =? HOBJ) && (pindex =? -2)))) (po_protos o)) "Invalid appended object method"%string (
  fails (existsb (fun b => b.1 <? 0) (po_bindings o)) "Invalid appended object binding"%string (Some None))))))).
Definition outside (t : Z) : bool := (t <? 0) || (t >=? total_types).
Definition validate_patch_type (index : Z) (t : hl_patch_type) : option (option string) :=
  let parameter := parameter_of_data (pt_data t) in
  if pt_tag t =? HFUN then
    let '(arguments, result) := fun_of_data (pt_data t) in
    fails (existsb outside arguments) "Invalid appended function argument type"%string (fails (outside result) "Invalid appended function result type"%string (Some None))
  else if pt_tag t =? HABSTRACT then
    let name := name_of_data (pt_data t) in fails ((name <? 0) || (name >=? string_count)) "Invalid appended abstract name"%string (Some None)
  else if (pt_tag t =? HREF) || (pt_tag t =? HNULL) then fails (outside parameter) "Invalid appended parameterized type reference"%string (Some None)
  else if pt_tag t =? HPACKED then
    if outside parameter then Some (Some "Invalid appended packed type"%string) else k ← patch_type_kind parameter; fails (negb (k =? HSTRUCT)) "Invalid appended packed type"%string (Some None)
  else if patch_type_is_object (pt_tag t) then validate_patch_object_type index t
  else fails ((pt_tag t <? HVOID) || (pt_tag t >? HGUID) || (pt_tag t =? HOBJ) || (pt_tag t =? HVIRTUAL) || (pt_tag t =? HENUM) || (pt_tag t =? HPACKED) || (pt_tag t =? HSTRUCT) || (pt_tag t =? HMETHOD)) "Unsupported HLP type"%string (Some None).
Fixpoint validate_types_from (index : Z) (l : list hl_patch_type) : option (option string) :=
  match l with
  | [] => Some None
  | t :: l => r ← validate_patch_type index t; match (r : option string) with None => validate_types_from (index + 1) l | Some e => Some (Some e) end
  end.
Definition validate_patch_types : option (option string) :=
  fails (total_types >? types_capacity) "Type arena capacity exceeded"%string (validate_types_from (base_types p) (types_of p)).
End validate.
(** The methods and bindings of the classes name functions of the layout. *)
Fixpoint validate_patch_object_methods (l : patch_layout) (ts : list hl_patch_type) : option (option string) :=
  match ts with
  | [] => Some None
  | t :: ts =>
      if negb (patch_type_is_class (pt_tag t)) then validate_patch_object_methods l ts else
      let missing (findex : Z) := f ← layout_function l findex; Some (match (f : option Z) with Some _ => false | None => true end) in
      let any := foldr (fun findex r => b ← missing findex; if (b : bool) then Some true else r) (Some false) in
      m ← any ((fun '(_, findex, _) => findex) <$> po_protos (object_of (pt_data t)));
      fails m "Invalid appended object method"%string (
      b ← any (snd <$> po_bindings (object_of (pt_data t)));
      fails b "Invalid appended object binding"%string (validate_patch_object_methods l ts))
  end.

(** ** Staging *)
Section stage.
Context (junk : Z) (junkl : hl_field_lookup (list Z)) (strings : list uname).
Fixpoint stage_fields (c : hash_cache) (l : list (Z * Z)) : option (list hl_obj_field * hash_cache) :=
  match l with
  | [] => Some ([], c)
  | (name, ty) :: l => n ← aget strings name; '(hash, c) ← hl_hash_gen junk junkl c (u_chars n) true; '(fs, c) ← stage_fields c l; Some (ObjField n ty hash :: fs, c)
  end.
Fixpoint stage_protos (c : hash_cache) (l : list (Z * Z * Z)) : option (list hl_obj_proto * hash_cache) :=
  match l with
  | [] => Some ([], c)
  | (name, findex, pindex) :: l => n ← aget strings name; '(hash, c) ← hl_hash_gen junk junkl c (u_chars n) true; '(ps, c) ← stage_protos c l; Some (ObjProto n findex pindex hash :: ps, c)
  end.
Definition with_type (h : heap) (tag : Z) (d : type_data) : heap := Heap (Types.types h ++ [Type_ tag d]) (objs h) (virts h) (enums h).
Definition stage_patch_object_type (h : heap) (c : hash_cache) (t : hl_patch_type) : option (heap * hash_cache) :=
  let o := object_of (pt_data t) in
  if pt_tag t =? HVIRTUAL then
    '(fields, c) ← stage_fields c (po_fields o);
    Some (with_type (Heap (Types.types h) (objs h) (virts h ++ [fields]) (enums h)) (pt_tag t) (TVirt (alen (virts h))), c)
  else
    name ← aget strings (po_name o);
    '(protos, c) ← stage_protos c (po_protos o);
    '(fields, c) ← stage_fields c (po_fields o);
    let obj := TypeObj name (if po_super o <? 0 then None else Some (po_super o)) fields protos (po_bindings o) None in
    Some (with_type (Heap (Types.types h) (objs h ++ [obj]) (virts h) (enums h)) (pt_tag t) (TObj (alen (objs h))), c).
Definition stage_patch_type (h : heap) (c : hash_cache) (t : hl_patch_type) : option (heap * hash_cache) :=
  if pt_tag t =? HFUN then let '(arguments, result) := fun_of_data (pt_data t) in Some (with_type h (pt_tag t) (TFun (TypeFun arguments result)), c)
  else if pt_tag t =? HABSTRACT then n ← aget strings (name_of_data (pt_data t)); Some (with_type h (pt_tag t) (TAbs n), c)
  else if (pt_tag t =? HREF) || (pt_tag t =? HNULL) || (pt_tag t =? HPACKED) then Some (with_type h (pt_tag t) (TParam (parameter_of_data (pt_data t))), c)
  else if patch_type_is_object (pt_tag t) then stage_patch_object_type h c t
  else Some (with_type h (pt_tag t) TNone, c).
Fixpoint stage_patch_types (h : heap) (c : hash_cache) (l : list hl_patch_type) : option (heap * hash_cache) :=
  match l with [] => Some (h, c) | t :: l => '(h, c) ← stage_patch_type h c t; stage_patch_types h c l end.
End stage.
(** A class's value is in the global before [po_global]. *)
Definition set_global (o : hl_type_obj) (g : option Z) : hl_type_obj := TypeObj (o_name o) (o_super o) (o_fields o) (o_proto o) (o_bindings o) g.
Fixpoint link_patch_object_types (h : heap) (index : Z) (l : list hl_patch_type) : option heap :=
  match l with
  | [] => Some h
  | t :: l =>
      if patch_type_is_class (pt_tag t) then
        k ← obj_ptr h index; o ← aget (objs h) k;
        let g := po_global (object_of (pt_data t)) in
        os ← aset (objs h) k (set_global o (if g =? 0 then None else Some (g - 1)));
        link_patch_object_types (Heap (Types.types h) os (virts h) (enums h)) (index + 1) l
      else link_patch_object_types h (index + 1) l
  end.
