(* ===== verification/PatchTypesSound.v ===== *)
(** * Staged types are well formed

    Staging the types of an accepted patch succeeds and extends a well-formed heap of types to a
    well-formed one ([heap_ok]), in which the base of an appended class comes before it.  While
    the types are staged one by one, those that are still missing are taken to be [HVOID]. *)
From S2P Require Import Prelude Ustr Buffer Lookup Reader Types TypesProps Opcodes Patch PatchTraps PatchChecks PatchRead PatchReadSound PatchLayout PatchTypes.

(** ** Names *)
Definition uname_ok (n : uname) : Prop := name_ok n /\ uchars (u_chars n).
(** The table of names grows by half, so it stays in proportion to what it holds. *)
Definition roomy (c : hash_cache) : Prop := hl_cache_size c <= 16 \/ 2 * hl_cache_size c <= 3 * hl_cache_count c.
Definition cache_ok (c : hash_cache) : Prop := (exists names, cache_repr c names) /\ roomy c.
Definition MAX_NAMES : Z := 268435456.
(** The value of the first [←] of an equation. *)
Tactic Notation "bound" hyp(E) ident(x) := match type of E with mbind _ ?m = Some _ => destruct m as [x|] eqn:?; [|discriminate E]; cbn [mbind option_bind] in E end.
Section names.
Context (junk : Z) (junkl : hl_field_lookup (list Z)).
Lemma cache_grow_roomy c c' : cache_grow junkl c = Some c' -> roomy c -> 0 <= hl_cache_count c -> hl_cache_count c' = hl_cache_count c /\ (hl_cache_size c' <= 16 \/ 2 * hl_cache_size c' <= 3 * hl_cache_count c).
Proof.
  unfold cache_grow, roomy. intros E Hr Hc. destruct (hl_cache_size c =? hl_cache_count c) eqn:Eg; [|injection E as <-; lia].
  bound E size. bound E l. injection E as <-. cbn [hl_cache_size hl_cache_count]. split; [done|]. destruct (hl_cache_size c =? 0) eqn:E0; [match goal with H : Some 16 = _ |- _ => injection H as <- end; lia|].
  match goal with H : _ = Some size |- _ => rename H into Es end. bound Es x. injection Es as <-. match goal with H : int_of _ = _ |- _ => apply int_of_inv in H as -> end.
  right. rewrite Z.shiftr_div_pow2 by lia. change (2 ^ 1) with 2. pose proof (Z.mul_div_le (hl_cache_size c * 3) 2). lia.
Qed.
Lemma hash_gen_roomy c m h c' : hl_hash_gen junk junkl c m true = Some (h, c') -> roomy c -> 0 <= hl_cache_count c -> roomy c'.
Proof.
  unfold hl_hash_gen. intros E Hr Hc. bound E x. bound E p. destruct p as [y found]. destruct found; [by injection E as _ <-|].
  bound E c1. bound E copy. bound E r. destruct r as [cache pos]. bound E n. injection E as _ <-.
  match goal with H : cache_grow _ _ = _ |- _ => destruct (cache_grow_roomy _ _ H Hr Hc) as [H1 H2] end. match goal with H : int_add _ _ = _ |- _ => apply int_of_inv in H as -> end. unfold roomy. cbn. lia.
Qed.
Lemma hash_total c n : cache_ok c -> hl_cache_count c < MAX_NAMES -> uname_ok n ->
  exists h c', hl_hash_gen junk junkl c (u_chars n) true = Some (h, c') /\ cache_ok c' /\ hl_cache_count c' <= hl_cache_count c + 1.
Proof.
  intros [[names Hc] Hr] Hcount [[s Hs] Hu]. unfold MAX_NAMES in *. assert (uchars s) as Hus by (destruct Hs as [_ [rest E]]; rewrite E in Hu; unfold uchars in *; by apply Forall_app in Hu as [Hu _]).
  destruct (hash_gen_spec junk junkl c names (u_chars n) s Hc) as (h & c' & names' & E & Hc' & _ & _ & _ & Hn); [unfold roomy, INT_MAX in *; lia|done|done|].
  exists h, c'. split; [exact E|]. split; [|lia]. split; [by exists names'|]. destruct Hc as [Hc _]. apply (hash_gen_roomy c (u_chars n) h c' E Hr). lia.
Qed.
End names.

(** ** Growing heaps *)
Definition heap_le (h h' : heap) : Prop :=
  alen (Types.types h) <= alen (Types.types h') /\ alen (objs h) <= alen (objs h') /\ alen (virts h) <= alen (virts h') /\ alen (enums h) <= alen (enums h') /\
  (forall t, is_class h t -> is_class h' t).
Section le.
Context (h h' : heap) (Hle : heap_le h h').
Lemma valid_le t : valid h t -> valid h' t.
Proof. destruct Hle as [H _]. unfold valid. lia. Qed.
Lemma Forall_valid_le l : Forall (valid h) l -> Forall (valid h') l.
Proof. intros H. eapply Forall_impl; [exact H|]. exact valid_le. Qed.
Lemma data_ok_le k d : data_ok h k d -> data_ok h' k d.
Proof.
  pose proof Hle as (H1 & H2 & H3 & H4 & _). destruct d; cbn [data_ok]; intros H; [done| | | |done| |].
  - destruct H as (Hk & Ha & Hr). split; [done|]. split; [by apply Forall_valid_le|by apply valid_le].
  - destruct H as [Hk Ho]. split; [done|lia].
  - destruct H as [Hk Ho]. split; [done|lia].
  - destruct H as [Hk Ho]. split; [done|lia].
  - destruct H as [Hk Ho]. split; [done|by apply valid_le].
Qed.
Lemma field_ok_le f : field_ok h f -> field_ok h' f.
Proof. intros [H1 H2]. split; [by apply valid_le|done]. Qed.
Lemma obj_ok_le o : obj_ok h o -> obj_ok h' o.
Proof. intros [H1 H2 H3]. pose proof Hle as (_ & _ & _ & _ & Hc). split; [done|intros s Hs; apply Hc, H2, Hs|]. eapply Forall_impl; [exact H3|exact field_ok_le]. Qed.
Lemma enum_ok_le e : enum_ok h e -> enum_ok h' e.
Proof. intros [H1 H2]. split; [done|]. eapply Forall_impl; [exact H2|]. intros c. apply Forall_valid_le. Qed.
End le.
Definition void_type : hl_type := Type_ HVOID TNone.
(** A heap with [n] types still to come. *)
Definition awaiting (n : nat) (h : heap) : heap := Heap (Types.types h ++ replicate n void_type) (objs h) (virts h) (enums h).
Lemma awaiting_ok n h : heap_ok h -> heap_ok (awaiting n h).
Proof.
  intros [H1 H2 H3 H4]. assert (heap_le h (awaiting n h)) as Hle.
  { unfold heap_le, awaiting. cbn [Types.types objs virts enums]. rewrite alen_app, alen_replicate. do 4 (split; [lia|]). intros t (k & o & E). exists k, o. unfold type_at in *. cbn [Types.types]. pose proof (aget_Some_range _ _ _ E). by rewrite aget_app_l by lia. }
  split; cbn [awaiting Types.types objs virts enums].
  - apply Forall_app. split; [|by apply Forall_replicate]. eapply Forall_impl; [exact H1|]. intros ty. by apply data_ok_le.
  - eapply Forall_impl; [exact H2|]. intros o. by apply obj_ok_le.
  - eapply Forall_impl; [exact H3|]. intros v Hv. eapply Forall_impl; [exact Hv|]. intros f. by apply field_ok_le.
  - eapply Forall_impl; [exact H4|]. intros e. by apply enum_ok_le.
Qed.
(** The next type arrives, with an object or the fields of a virtual. *)
Lemma arrival_le n h ty os vs : heap_le (awaiting (S n) h) (awaiting n (Heap (Types.types h ++ [ty]) (objs h ++ os) (virts h ++ vs) (enums h))).
Proof.
  unfold heap_le, awaiting. cbn [Types.types objs virts enums replicate]. rewrite !alen_app, !alen_cons, alen_nil. pose proof (alen_nonneg os). pose proof (alen_nonneg vs). do 4 (split; [lia|]).
  intros t (k & o & E). exists k, o. unfold type_at in *. cbn [Types.types] in *. rewrite <- app_assoc. pose proof (aget_Some_range _ _ _ E). destruct (decide (t < alen (Types.types h))) as [Hlt|Hge]; [by rewrite aget_app_l in E |- * by lia|].
  rewrite aget_app_r in E |- * by lia. cbn [app] in *. destruct (decide (t - alen (Types.types h) = 0)) as [E0|Hne]; [rewrite E0 in E; discriminate E|].
  rewrite aget_lookup in E |- * by lia. destruct (Z.to_nat (t - alen (Types.types h))) as [|m] eqn:Em; [lia|]. exact E.
Qed.
Lemma arrival_ok n h ty os vs : heap_ok (awaiting (S n) h) -> let h' := awaiting n (Heap (Types.types h ++ [ty]) (objs h ++ os) (virts h ++ vs) (enums h)) in
  data_ok h' (kind ty) (tdata ty) -> Forall (obj_ok h') os -> Forall (Forall (field_ok h')) vs -> heap_ok h'.
Proof.
  intros [H1 H2 H3 H4] h' Hd Ho Hv. pose proof (arrival_le n h ty os vs : heap_le _ h') as Hle. cbn [awaiting Types.types objs virts enums replicate] in H1, H2, H3, H4.
  apply Forall_app in H1 as [H1 H1']. apply Forall_cons in H1' as [_ H1'].
  split; cbn [h' awaiting Types.types objs virts enums].
  - rewrite <- app_assoc. apply Forall_app. split; [eapply Forall_impl; [exact H1|]; intros x; by apply data_ok_le|]. constructor; [exact Hd|]. by apply Forall_replicate.
  - apply Forall_app. split; [|exact Ho]. eapply Forall_impl; [exact H2|]. intros o. by apply obj_ok_le.
  - apply Forall_app. split; [|exact Hv]. eapply Forall_impl; [exact H3|]. intros v Hvv. eapply Forall_impl; [exact Hvv|]. intros f. by apply field_ok_le.
  - eapply Forall_impl; [exact H4|]. intros e. by apply enum_ok_le.
Qed.

(** ** Staging one type *)
Lemma fails_none b e next : fails b e next = Some None <-> b = false /\ next = Some None.
Proof. destruct b; cbn; [split; [discriminate|intros [? _]; discriminate]|tauto]. Qed.
Definition names_of (t : hl_patch_type) : Z := alen (po_fields (object_of (pt_data t))) + alen (po_protos (object_of (pt_data t))).
Section stage.
Context (junk : Z) (junkl : hl_field_lookup (list Z)) (strings : list uname) (Hstrings : Forall uname_ok strings).
Lemma string_at i : (i <? 0) || (i >=? alen strings) = false -> exists n, aget strings i = Some n /\ uname_ok n.
Proof. intros Hi. apply orb_false_iff in Hi as [H1 H2]. rewrite Z.geb_leb in H2. destruct (aget_is_Some strings i) as [n E]; [lia|]. exists n. split; [exact E|]. exact (Forall_aget uname_ok strings i n Hstrings E). Qed.
Lemma stage_fields_total c l : cache_ok c -> hl_cache_count c + alen l <= MAX_NAMES -> Forall (fun x => (x.1 <? 0) || (x.1 >=? alen strings) = false) l ->
  exists fs c', stage_fields junk junkl strings c l = Some (fs, c') /\ cache_ok c' /\ hl_cache_count c' <= hl_cache_count c + alen l /\
    Forall (fun f => name_ok (f_name f) /\ exists x, x ∈ l /\ f_t f = x.2) fs.
Proof.
  revert c. induction l as [|[name ty] l IH]; intros c Hc Hn Hl; cbn [stage_fields].
  { rewrite alen_nil. exists [], c. split; [done|]. split; [done|]. split; [lia|done]. }
  apply Forall_cons in Hl as [Hname Hl]. rewrite alen_cons in *. destruct (string_at name Hname) as (n & E & Hok). rewrite E. cbn [mbind option_bind]. pose proof (alen_nonneg l).
  destruct (hash_total junk junkl c n Hc) as (x & c1 & E1 & Hc1 & Hn1); [lia|done|]. rewrite E1. cbn [mbind option_bind].
  destruct (IH c1 Hc1) as (fs & c2 & E2 & Hc2 & Hn2 & Hfs); [lia|done|]. rewrite E2. cbn [mbind option_bind]. eexists _, c2. split; [done|]. split; [done|]. split; [lia|].
  constructor; [split; [by destruct Hok|]; exists (name, ty); split; [by left|done]|]. eapply Forall_impl; [exact Hfs|]. intros f (H1 & y & Hy & Ey). split; [done|]. exists y. split; [by right|done].
Qed.
Lemma stage_protos_total c l : cache_ok c -> hl_cache_count c + alen l <= MAX_NAMES -> Forall (fun x => (x.1.1 <? 0) || (x.1.1 >=? alen strings) = false) l ->
  exists ps c', stage_protos junk junkl strings c l = Some (ps, c') /\ cache_ok c' /\ hl_cache_count c' <= hl_cache_count c + alen l.
Proof.
  revert c. induction l as [|[[name findex] pindex] l IH]; intros c Hc Hn Hl; cbn [stage_protos].
  { rewrite alen_nil. exists [], c. split; [done|]. split; [done|lia]. }
  apply Forall_cons in Hl as [Hname Hl]. rewrite alen_cons in *. destruct (string_at name Hname) as (n & E & Hok). rewrite E. cbn [mbind option_bind]. pose proof (alen_nonneg l).
  destruct (hash_total junk junkl c n Hc) as (x & c1 & E1 & Hc1 & Hn1); [lia|done|]. rewrite E1. cbn [mbind option_bind].
  destruct (IH c1 Hc1) as (ps & c2 & E2 & Hc2 & Hn2); [lia|done|]. rewrite E2. cbn [mbind option_bind]. eexists _, c2. split; [done|]. split; [done|lia].
Qed.
Context (h0 : heap) (nglobals : Z) (p : hl_patch) (Hbase : base_types p = alen (Types.types h0)).
(** The types staged so far have the kinds of the patch. *)
Definition staged_kinds (before : list hl_patch_type) (h : heap) : Prop := kind <$> Types.types h = (kind <$> Types.types h0) ++ (pt_tag <$> before).
Lemma staged_count before h : staged_kinds before h -> alen (Types.types h) = base_types p + alen before.
Proof. intros H. rewrite Hbase, <- (alen_fmap kind (Types.types h)), H, alen_app, !alen_fmap. done. Qed.
Lemma staged_kind before t rest h s k : types_of p = before ++ t :: rest -> staged_kinds before h -> 0 <= s < alen (Types.types h) -> patch_type_kind h0 p s = Some k -> kind_of h s = Some k.
Proof.
  intros Hp Hk Hs E. pose proof (staged_count before h Hk) as Hn. unfold patch_type_kind in E. unfold kind_of, type_at in *. rewrite <- aget_fmap, Hk.
  destruct (s <? base_types p) eqn:Eb.
  - rewrite aget_app_l by (rewrite alen_fmap; lia). by rewrite aget_fmap.
  - rewrite aget_app_r by (rewrite alen_fmap; lia). rewrite aget_fmap, alen_fmap, <- Hbase. rewrite Hp, aget_app_l in E by lia. destruct (aget before _); [exact E|discriminate].
Qed.
(** A type whose kind is that of a class is one. *)
Lemma class_of_kind hh h s k : Forall (fun ty => data_ok hh (kind ty) (tdata ty)) (Types.types h) -> kind_of h s = Some k -> patch_type_is_class k = true -> exists o, type_at h s = Some (Type_ k (TObj o)).
Proof.
  intros Hok Hk Hc. unfold kind_of in Hk. destruct (type_at h s) as [[k' d]|] eqn:E; [|discriminate]. injection Hk as ->.
  pose proof (Forall_aget _ _ _ _ Hok E) as Hd. cbn [kind tdata] in Hd.
  unfold patch_type_is_class in Hc. apply orb_true_iff in Hc. rewrite !Z.eqb_eq in Hc. unfold HOBJ, HSTRUCT in Hc.
  destruct d; cbn [data_ok] in Hd; unfold plain_kind, HFUN, HMETHOD, HVIRTUAL, HABSTRACT, HENUM, HREF, HNULL, HPACKED in Hd; try lia; [|by eexists].
  apply bool_decide_eq_true in Hd. destruct Hc; subst k; set_unfold in Hd; unfold HVOID, HUI8, HUI16, HI32, HI64, HF32, HF64, HBOOL, HTYPE, HBYTES, HDYN, HARRAY, HDYNOBJ, HGUID in Hd; lia.
Qed.

(** ** One type *)
(** What one type adds to the heap. *)
Definition grown (h : heap) (ty : hl_type) (os : list hl_type_obj) (vs : list (list hl_obj_field)) : heap := Heap (Types.types h ++ [ty]) (objs h ++ os) (virts h ++ vs) (enums h).
(** The base of a class comes before it and has its kind. *)
Definition base_before (h : heap) (tag : Z) (o : hl_type_obj) : Prop := forall s, o_super o = Some s -> 0 <= s < alen (Types.types h) /\ kind_of h s = Some tag.
Lemma with_type_grown h tag d : with_type h tag d = grown h (Type_ tag d) [] [].
Proof. unfold with_type, grown. by rewrite !app_nil_r. Qed.
Section one.
Context (before rest : list hl_patch_type) (t : hl_patch_type) (h : heap) (c : hash_cache).
Context (Hp : types_of p = before ++ t :: rest) (Hk : staged_kinds before h) (Hok : heap_ok (awaiting (S (length rest)) h)) (Hc : cache_ok c) (Hn : hl_cache_count c + names_of t <= MAX_NAMES).
Definition stages (r : option (heap * hash_cache)) : Prop := exists d os vs c', r = Some (grown h (Type_ (pt_tag t) d) os vs, c') /\
  heap_ok (awaiting (length rest) (grown h (Type_ (pt_tag t) d) os vs)) /\ cache_ok c' /\ hl_cache_count c' <= hl_cache_count c + names_of t /\ Forall (base_before h (pt_tag t)) os /\
  (forall o, d = TObj o -> alen (objs h) <= o < alen (objs h ++ os)).
Lemma valid_grown ty os vs x : outside p x = false -> valid (awaiting (length rest) (grown h ty os vs)) x.
Proof.
  intros Hx. unfold outside, total_types in Hx. apply orb_false_iff in Hx as [H1 H2]. rewrite Z.geb_leb in H2. pose proof (staged_count before h Hk) as Hcount. rewrite Hp, alen_app, alen_cons in H2.
  unfold valid, awaiting, grown. cbn [Types.types]. rewrite !alen_app, alen_replicate. change (alen [ty]) with 1. unfold alen in *. lia.
Qed.
Lemma names_nonneg : 0 <= names_of t.
Proof. unfold names_of. pose proof (alen_nonneg (po_fields (object_of (pt_data t)))). pose proof (alen_nonneg (po_protos (object_of (pt_data t)))). lia. Qed.
Lemma stages_plain d : (forall o, d <> TObj o) -> (forall h', h' = awaiting (length rest) (grown h (Type_ (pt_tag t) d) [] []) -> data_ok h' (pt_tag t) d) -> stages (Some (with_type h (pt_tag t) d, c)).
Proof.
  intros Hobj Hd. exists d, [], [], c. rewrite with_type_grown. split; [done|]. split; [apply arrival_ok; [exact Hok|by apply Hd|done|done]|]. split; [done|]. split; [pose proof names_nonneg; lia|]. split; [done|]. intros o Ho. by destruct (Hobj o).
Qed.
Lemma stage_object_type : patch_type_is_object (pt_tag t) = true -> validate_patch_object_type h0 nglobals (alen strings) p (alen (Types.types h)) t = Some None ->
  stages (stage_patch_object_type junk junkl strings h c t).
Proof.
  intros Htag E. unfold validate_patch_object_type in E. cbv zeta in E. apply fails_none in E as [Ef E]. rewrite existsb_false in Ef. unfold names_of in Hn.
  pose proof (alen_nonneg (po_fields (object_of (pt_data t)))) as Hnf. pose proof (alen_nonneg (po_protos (object_of (pt_data t)))) as Hnp.
  assert (Forall (fun x => (x.1 <? 0) || (x.1 >=? alen strings) = false) (po_fields (object_of (pt_data t)))) as Hnames.
  { apply Forall_forall. intros [name ty] Hx. specialize (Ef _ Hx). cbn in Ef |- *. by do 2 (apply orb_false_iff in Ef as [Ef _]). }
  assert (forall ty os vs f x, x ∈ po_fields (object_of (pt_data t)) -> f_t f = x.2 -> name_ok (f_name f) -> field_ok (awaiting (length rest) (grown h ty os vs)) f) as Hfield.
  { intros ty os vs f [name x] Hx Ex Hname. split; [|done]. rewrite Ex. apply valid_grown. specialize (Ef _ Hx). cbn in Ef. unfold outside. apply orb_false_iff in Ef as [Ef H2]. apply orb_false_iff in Ef as [_ H1]. apply orb_false_iff. done. }
  unfold stage_patch_object_type. cbv zeta. destruct (pt_tag t =? HVIRTUAL) eqn:Ev.
  - destruct (stage_fields_total c (po_fields (object_of (pt_data t))) Hc) as (fs & c' & E1 & Hc' & Hn' & Hfs); [lia|exact Hnames|]. rewrite E1. cbn [mbind option_bind]. apply Z.eqb_eq in Ev.
    exists (TVirt (alen (virts h))), [], [fs], c'. split; [unfold with_type, grown; cbn [Types.types objs virts enums]; by rewrite app_nil_r|]. split; [|split; [done|split; [unfold names_of; lia|done]]].
    apply arrival_ok; [exact Hok| |done|].
    + cbn [kind tdata data_ok]. split; [exact Ev|]. unfold awaiting, grown. cbn [virts]. rewrite alen_app. change (alen [fs]) with 1. pose proof (alen_nonneg (virts h)). lia.
    + constructor; [|done]. eapply Forall_impl; [exact Hfs|]. intros f (Hname & x & Hx & Ex). by apply (Hfield _ _ _ f x).
  - apply fails_none in E as [Ename E]. bound E base. apply fails_none in E as [-> E]. apply fails_none in E as [Esuper E]. apply fails_none in E as [_ E]. apply fails_none in E as [Eproto _]. rewrite existsb_false in Eproto.
    match goal with H : _ = Some false |- _ => rename H into Ebase end.
    destruct (string_at _ Ename) as (name & E1 & Hname). rewrite E1. cbn [mbind option_bind].
    destruct (stage_protos_total c (po_protos (object_of (pt_data t))) Hc) as (ps & c1 & E2 & Hc1 & Hn1); [lia| |].
    { apply Forall_forall. intros [[pn findex] pindex] Hx. specialize (Eproto _ Hx). cbn in Eproto |- *. by apply orb_false_iff in Eproto as [Eproto _]. }
    rewrite E2. cbn [mbind option_bind]. destruct (stage_fields_total c1 (po_fields (object_of (pt_data t))) Hc1) as (fs & c2 & E3 & Hc2 & Hn2 & Hfs); [lia|exact Hnames|]. rewrite E3. cbn [mbind option_bind].
    assert (patch_type_is_class (pt_tag t) = true) as Hclass by (unfold patch_type_is_object in Htag; rewrite Ev, orb_false_r in Htag; exact Htag).
    set (obj := TypeObj _ _ _ _ _ _).
    assert (base_before h (pt_tag t) obj) as Hbefore.
    { intros s Hs. cbn in Hs. destruct (po_super _ <? 0) eqn:E0; [discriminate|]. injection Hs as <-. rewrite Z.geb_leb, (proj2 (Z.leb_le _ _)) in Ebase by lia. rewrite Z.geb_leb in Ebase.
      destruct (_ <=? _) eqn:E4; [discriminate|]. split; [lia|]. bound Ebase k. injection Ebase as Ek. apply negb_false_iff, Z.eqb_eq in Ek as ->. by apply (staged_kind before t rest); [done|done|lia|]. }
    exists (TObj (alen (objs h))), [obj], [], c2. split; [unfold with_type, grown; cbn [Types.types objs virts enums]; by rewrite app_nil_r|]. split; [|split; [done|split; [unfold names_of; lia|split; [by constructor|]]]].
    2: { intros o Ho. injection Ho as <-. rewrite alen_app. change (alen [obj]) with 1. lia. }
    apply arrival_ok; [exact Hok| | |done].
    + cbn [kind tdata data_ok]. unfold patch_type_is_class in Hclass. split; [lia|]. unfold awaiting, grown. cbn [objs]. rewrite alen_app. change (alen [obj]) with 1. pose proof (alen_nonneg (objs h)). lia.
    + constructor; [|done]. split; [exact Hname| |].
      * intros s Hs. destruct (Hbefore s Hs) as [Hr Hks]. destruct Hok as [Htypes _ _ _]. cbn [awaiting Types.types] in Htypes. apply Forall_app in Htypes as [Htypes _]. destruct (class_of_kind _ h s _ Htypes Hks Hclass) as [o Ho].
        destruct (arrival_le (length rest) h (Type_ (pt_tag t) (TObj (alen (objs h)))) [obj] []) as (_ & _ & _ & _ & Hmono). apply Hmono. exists (pt_tag t), o.
        unfold type_at in *. cbn [awaiting Types.types]. by rewrite aget_app_l by lia.
      * eapply Forall_impl; [exact Hfs|]. intros f (Hfn & x & Hx & Ex). by apply (Hfield _ _ _ f x).
Qed.
Lemma stage_type : validate_patch_type h0 nglobals (alen strings) p (alen (Types.types h)) t = Some None -> stages (stage_patch_type junk junkl strings h c t).
Proof.
  intros E. unfold validate_patch_type in E. unfold stage_patch_type. cbv zeta in E. destruct (pt_tag t =? HFUN) eqn:E1.
  { destruct (fun_of_data (pt_data t)) as [arguments result]. apply fails_none in E as [Ea E]. apply fails_none in E as [Er _]. rewrite existsb_false in Ea. apply stages_plain; [done|]. intros h' ->.
    split; [left; lia|]. cbn [args ret]. split; [|by apply valid_grown]. apply Forall_forall. intros x Hx. by apply valid_grown, Ea. }
  destruct (pt_tag t =? HABSTRACT) eqn:E2.
  { apply fails_none in E as [En _]. destruct (string_at _ En) as (n & Es & [Hn' _]). rewrite Es. cbn [mbind option_bind]. apply stages_plain; [done|]. intros h' _. split; [lia|done]. }
  destruct (_ || (pt_tag t =? HNULL)) eqn:E3; cbn [orb].
  { apply fails_none in E as [Ep _]. apply stages_plain; [done|]. intros h' ->. split; [lia|by apply valid_grown]. }
  destruct (pt_tag t =? HPACKED) eqn:E4.
  { destruct (outside p _) eqn:Ep; [discriminate|]. apply stages_plain; [done|]. intros h' ->. split; [lia|by apply valid_grown]. }
  destruct (patch_type_is_object (pt_tag t)) eqn:E5; [by apply stage_object_type|].
  apply fails_none in E as [E _]. apply stages_plain; [done|]. intros h' _. cbn [data_ok]. unfold plain_kind. apply bool_decide_eq_true. rewrite Z.gtb_ltb in E.
  unfold HVOID, HUI8, HUI16, HI32, HI64, HF32, HF64, HBOOL, HTYPE, HBYTES, HDYN, HARRAY, HDYNOBJ, HGUID, HFUN, HABSTRACT, HREF, HNULL, HOBJ, HVIRTUAL, HENUM, HPACKED, HSTRUCT, HMETHOD in *.
  rewrite !elem_of_cons. lia.
Qed.
End one.

(** ** All the types *)
Definition names_in (l : list hl_patch_type) : Z := foldr (fun t n => names_of t + n) 0 l.
(** The classes from type [n] on have objects from [m] on, and bases before them, of their kind. *)
Definition classes_from (h : heap) (n m : Z) : Prop := forall t k o, n <= t -> type_at h t = Some (Type_ k (TObj o)) ->
  m <= o /\ forall d s, aget (objs h) o = Some d -> o_super d = Some s -> 0 <= s < t /\ kind_of h s = Some k.
Lemma stage_types_from before l h c : types_of p = before ++ l -> staged_kinds before h -> heap_ok (awaiting (length l) h) -> cache_ok c -> hl_cache_count c + names_in l <= MAX_NAMES ->
  validate_types_from h0 nglobals (alen strings) p (alen (Types.types h)) l = Some None ->
  exists ts os vs c', let h' := Heap (Types.types h ++ ts) (objs h ++ os) (virts h ++ vs) (enums h) in
    stage_patch_types junk junkl strings h c l = Some (h', c') /\ heap_ok h' /\ cache_ok c' /\ kind <$> ts = pt_tag <$> l /\ classes_from h' (alen (Types.types h)) (alen (objs h)).
Proof.
  revert before h c. induction l as [|t l IH]; intros before h c Hp Hk Hok Hc Hn E; cbn [stage_patch_types].
  { exists [], [], [], c. cbv zeta. rewrite !app_nil_r. destruct h as [ts os vs es]. split; [done|]. unfold awaiting in Hok. simpl in Hok. rewrite app_nil_r in Hok. split; [exact Hok|]. split; [done|]. split; [done|].
    intros t k o Ht E2. pose proof (aget_Some_range _ _ _ E2) as Hr. cbn [Types.types] in Hr, Ht. lia. }
  cbn [validate_types_from] in E. bound E r. destruct r; [discriminate|]. cbn [names_in foldr] in Hn. fold (names_in l) in Hn. assert (0 <= names_in l) as Hl by (clear; induction l as [|t l IHl]; cbn [names_in foldr]; [lia|fold (names_in l); pose proof (names_nonneg t); lia]).
  destruct (stage_type before l t h c Hp Hk Hok Hc) as (d & os & vs & c1 & E1 & Hok1 & Hc1 & Hn1 & Hbase1 & Hnew); [lia|done|]. rewrite E1. cbn [mbind option_bind]. set (h1 := grown h _ os vs) in *.
  destruct (IH (before ++ [t]) h1 c1) as (ts & os2 & vs2 & c2 & E2 & Hok2 & Hc2 & Hkinds & Hbases); [by rewrite <- app_assoc| |exact Hok1|exact Hc1|lia| |].
  { unfold staged_kinds in *. cbn [h1 grown Types.types]. rewrite !fmap_app, Hk, <- app_assoc. done. }
  { cbn [h1 grown Types.types]. rewrite alen_app. exact E. }
  cbn [h1 grown Types.types objs virts enums] in E2, Hok2, Hbases. rewrite <- !app_assoc in E2, Hok2, Hbases. exists ([Type_ (pt_tag t) d] ++ ts), (os ++ os2), (vs ++ vs2), c2. cbv zeta.
  split; [exact E2|]. split; [exact Hok2|]. split; [done|]. split; [rewrite fmap_app, Hkinds; done|].
  intros i k o Hi Ei. destruct (decide (i = alen (Types.types h))) as [->|Hne].
  - unfold type_at in Ei. cbn [Types.types objs] in *. rewrite aget_app_r, Z.sub_diag in Ei by lia. change (Some (Type_ (pt_tag t) d) = Some (Type_ k (TObj o))) in Ei. injection Ei as <- ->.
    destruct (Hnew o eq_refl) as [Ho1 Ho2]. split; [exact Ho1|]. intros dd s Eo Es. rewrite app_assoc, aget_app_l, aget_app_r in Eo by lia. destruct (Forall_aget _ _ _ _ Hbase1 Eo s Es) as [Hs Hks]. split; [lia|].
    unfold kind_of, type_at in *. cbn [Types.types]. by rewrite aget_app_l by lia.
  - destruct (Hbases i k o) as [Ho Hb]; [rewrite alen_app; change (alen [Type_ (pt_tag t) d]) with 1; lia|exact Ei|]. split; [|exact Hb].
    rewrite alen_app in Ho. pose proof (alen_nonneg os). lia.
Qed.
(** Types of an accepted patch are staged. *)
Lemma stage_patch_types_ok capacity c : heap_ok h0 -> cache_ok c -> hl_cache_count c + names_in (types_of p) <= MAX_NAMES ->
  validate_patch_types h0 capacity nglobals (alen strings) p = Some None ->
  exists ts os vs c', let h' := Heap (Types.types h0 ++ ts) (objs h0 ++ os) (virts h0 ++ vs) (enums h0) in
    stage_patch_types junk junkl strings h0 c (types_of p) = Some (h', c') /\ heap_ok h' /\ cache_ok c' /\ kind <$> ts = pt_tag <$> types_of p /\ classes_from h' (alen (Types.types h0)) (alen (objs h0)) /\
    alen (Types.types h') <= capacity.
Proof.
  intros Hok Hc Hn E. unfold validate_patch_types in E. apply fails_none in E as [Ecap E]. rewrite Z.gtb_ltb in Ecap. rewrite Hbase in E.
  destruct (stage_types_from [] (types_of p) h0 c) as (ts & os & vs & c' & H1 & H2 & H3 & H4 & H5); [done| |by apply awaiting_ok|exact Hc|exact Hn|exact E|].
  { unfold staged_kinds. by rewrite app_nil_r. }
  exists ts, os, vs, c'. cbv zeta. do 5 (split; [done|]). cbn [Types.types]. rewrite alen_app, <- (alen_fmap kind ts), H4, alen_fmap, <- Hbase. unfold total_types in Ecap. lia.
Qed.
End stage.

(** ** Linking *)
Definition same_but_global (d d' : hl_type_obj) : Prop := exists g, d' = set_global d g.
Lemma link_ok m l : forall h index, heap_ok h -> (forall j t, aget l j = Some t -> kind_of h (index + j) = Some (pt_tag t)) -> (forall t k o, index <= t -> type_at h t = Some (Type_ k (TObj o)) -> m <= o) ->
  exists os, link_patch_object_types h index l = Some (Heap (Types.types h) os (virts h) (enums h)) /\ heap_ok (Heap (Types.types h) os (virts h) (enums h)) /\ Forall2 same_but_global (objs h) os /\ (forall i, i < m -> aget os i = aget (objs h) i).
Proof.
  induction l as [|t l IH]; intros h index Hok Hk Hm; cbn [link_patch_object_types].
  { exists (objs h). destruct h as [ts os vs es]. split; [done|]. split; [exact Hok|]. split; [|done]. apply Forall2_same_length_lookup_2; [done|]. intros i x y E1 E2. cbn in E1, E2. exists (o_global x). assert (x = y) as <- by congruence. by destruct x. }
  assert (forall h1, Types.types h1 = Types.types h -> forall j t', aget l j = Some t' -> kind_of h1 (index + 1 + j) = Some (pt_tag t')) as Hrest.
  { intros h1 E1 j t' Ej. pose proof (aget_Some_range _ _ _ Ej). unfold kind_of, type_at in *. rewrite E1. replace (index + 1 + j) with (index + (1 + j)) by lia. apply Hk. rewrite aget_lookup in Ej |- * by lia. by replace (Z.to_nat (1 + j)) with (S (Z.to_nat j)) by lia. }
  destruct (patch_type_is_class (pt_tag t)) eqn:Ec; [|apply IH; [exact Hok|by apply Hrest|intros t' kk o Ht; apply Hm; lia]].
  specialize (Hk 0 t eq_refl). rewrite Z.add_0_r in Hk. pose proof Hok as [H1 H2 H3 H4]. destruct (class_of_kind h h index _ H1 Hk Ec) as [k Et].
  pose proof (Forall_aget _ _ _ _ H1 Et) as [_ Hrange]. unfold obj_ptr. rewrite Et. cbn [mbind option_bind tdata]. destruct (aget_is_Some (objs h) k Hrange) as [d Ed]. rewrite Ed. cbn [mbind option_bind].
  set (g := if _ =? 0 then _ else _). rewrite aset_Some by exact Hrange. cbn [mbind option_bind]. set (os := <[_ := _]> (objs h)). set (h1 := Heap (Types.types h) os (virts h) (enums h)).
  assert (heap_le h h1) as Hle.
  { unfold heap_le, h1, os. cbn [Types.types objs virts enums]. rewrite alen_insert. do 4 (split; [lia|]). intros x (kk & o & E). by exists kk, o. }
  assert (heap_ok h1) as Hok1.
  { split; cbn [h1 Types.types objs virts enums].
    - eapply Forall_impl; [exact H1|]. intros x. by apply data_ok_le.
    - apply Forall_insert; [eapply Forall_impl; [exact H2|]; intros x; by apply obj_ok_le|]. destruct (Forall_aget _ _ _ _ H2 Ed) as [D1 D2 D3]. apply (obj_ok_le h h1 Hle). by split.
    - eapply Forall_impl; [exact H3|]. intros v Hv. eapply Forall_impl; [exact Hv|]. intros x. by apply field_ok_le.
    - eapply Forall_impl; [exact H4|]. intros x. by apply enum_ok_le. }
  destruct (IH h1 (index + 1) Hok1) as (os' & E & Hok' & Hsame & Hkeep); [by apply Hrest|intros t' kk o Ht; apply Hm; lia|]. exists os'. split; [exact E|]. split; [exact Hok'|].
  assert (m <= k) as Hmk by (apply (Hm index _ k) in Et; [exact Et|lia]). split; [|intros i Hi; rewrite Hkeep by done; cbn [h1 objs]; unfold os; destruct (decide (0 <= i)); [by rewrite aget_insert_ne by lia|by rewrite !(proj2 (aget_None _ _)) by lia]].
  apply Forall2_same_length_lookup_2.
  - apply Forall2_length in Hsame. cbn [h1 objs] in Hsame. unfold os in Hsame. by rewrite length_insert in Hsame.
  - intros i x y Ex Ey. destruct (decide (i = Z.to_nat k)) as [->|Hne].
    + assert (os !! Z.to_nat k = Some (set_global d g)) as Eos by (unfold os; apply list_lookup_insert_eq; by apply lookup_lt_Some in Ex).
      destruct (Forall2_lookup_lr _ _ _ _ _ _ Hsame Eos Ey) as [g' ->]. rewrite aget_lookup in Ed by lia. assert (x = d) as -> by congruence. by exists g'.
    + apply (Forall2_lookup_lr _ _ _ i x y Hsame); [|exact Ey]. cbn [h1 objs]. unfold os. by rewrite list_lookup_insert_ne by done.
Qed.

(** Staging and linking together. *)
Lemma stage_and_link junk junkl strings h p nglobals capacity c : heap_ok h -> Forall uname_ok strings -> base_types p = alen (Types.types h) -> cache_ok c -> hl_cache_count c + names_in (types_of p) <= MAX_NAMES ->
  validate_patch_types h capacity nglobals (alen strings) p = Some None ->
  exists staged c' linked ts, stage_patch_types junk junkl strings h c (types_of p) = Some (staged, c') /\ link_patch_object_types staged (base_types p) (types_of p) = Some linked /\
    heap_ok linked /\ cache_ok c' /\ Types.types linked = Types.types h ++ ts /\ kind <$> ts = pt_tag <$> types_of p /\ alen (Types.types linked) <= capacity /\
    (forall i, i < alen (objs h) -> aget (objs linked) i = aget (objs h) i) /\ classes_from linked (base_types p) (alen (objs h)).
Proof.
  intros Hok Hstrings Hbase Hc Hn E. destruct (stage_patch_types_ok junk junkl strings Hstrings h nglobals p Hbase capacity c Hok Hc Hn E) as (ts & os & vs & c' & H1 & H2 & H3 & H4 & H5 & H6). cbv zeta in *.
  set (staged := Heap (Types.types h ++ ts) _ _ _) in *. rewrite <- Hbase in H5.
  destruct (link_ok (alen (objs h)) (types_of p) staged (base_types p)) as (os' & E2 & Hok2 & Hsame & Hkeep); [exact H2| |intros t k o Ht Et; exact (proj1 (H5 t k o Ht Et))|].
  { intros j t Ej. pose proof (aget_Some_range _ _ _ Ej). unfold kind_of, type_at. cbn [staged Types.types]. rewrite aget_app_r by lia. rewrite <- aget_fmap, H4, aget_fmap. replace (_ - _) with j by lia. by rewrite Ej. }
  exists staged, c', (Heap (Types.types staged) os' (virts staged) (enums staged)), ts. do 4 (split; [done|]). split; [done|]. split; [done|]. split; [done|]. split.
  - intros i Hi. cbn [objs]. rewrite Hkeep by done. cbn [staged objs]. by rewrite aget_app_l by lia.
  - intros t k o Ht Et. destruct (H5 t k o Ht Et) as [Ho Hb]. split; [exact Ho|]. intros d s Ed Es. cbn [objs] in Ed. pose proof (aget_Some_range _ _ _ Ed).
    rewrite aget_lookup in Ed by lia. apply Forall2_flip in Hsame. destruct (Forall2_lookup_l _ _ _ _ _ Hsame Ed) as (d0 & Ed0 & [g ->]). apply (Hb d0 s); [by rewrite aget_lookup by lia|exact Es].
Qed.

(** ** The checks always end *)
Section total.
Context (h : heap) (nglobals string_count : Z) (p : hl_patch) (Hbase : base_types p = alen (Types.types h)).
Lemma patch_type_kind_total i : 0 <= i < total_types p -> exists k, patch_type_kind h p i = Some k.
Proof.
  unfold total_types, patch_type_kind, kind_of, type_at. intros Hi. destruct (i <? base_types p) eqn:E.
  - destruct (aget_is_Some (Types.types h) i) as [ty ->]; [lia|]. by eexists.
  - destruct (aget_is_Some (types_of p) (i - base_types p)) as [t ->]; [lia|]. by eexists.
Qed.
Lemma fails_total b e next : is_Some next -> is_Some (fails b e next).
Proof. destruct b; [by eexists|done]. Qed.
Lemma validate_patch_type_total i t : 0 <= i < total_types p -> is_Some (validate_patch_type h nglobals string_count p i t).
Proof.
  intros Hi. unfold validate_patch_type. cbv zeta. destruct (pt_tag t =? HFUN); [destruct (fun_of_data _); repeat apply fails_total; by eexists|].
  destruct (pt_tag t =? HABSTRACT); [apply fails_total; by eexists|]. destruct (_ || (pt_tag t =? HNULL)); [apply fails_total; by eexists|].
  destruct (pt_tag t =? HPACKED).
  { destruct (outside p _) eqn:Eo; [by eexists|]. unfold outside in Eo. rewrite Z.geb_leb in Eo. destruct (patch_type_kind_total (parameter_of_data (pt_data t))) as [k ->]; [lia|]. apply fails_total. by eexists. }
  destruct (patch_type_is_object _); [|apply fails_total; by eexists]. unfold validate_patch_object_type. cbv zeta. apply fails_total. destruct (_ =? _); [by eexists|]. apply fails_total.
  set (o := object_of _). assert (exists b, (if po_super o >=? 0 then if po_super o >=? i then Some true else k ← patch_type_kind h p (po_super o); Some (negb (k =? pt_tag t)) else Some false) = Some b) as [b ->].
  { rewrite !Z.geb_leb. destruct (0 <=? _) eqn:E0; [|by eexists]. destruct (i <=? _) eqn:E1; [by eexists|]. destruct (patch_type_kind_total (po_super o)) as [k ->]; [lia|]. by eexists. }
  cbn [mbind option_bind]. repeat apply fails_total. by eexists.
Qed.
Lemma validate_patch_types_total capacity : is_Some (validate_patch_types h capacity nglobals string_count p).
Proof.
  unfold validate_patch_types. apply fails_total. assert (forall l i, 0 <= i -> i + alen l <= total_types p -> is_Some (validate_types_from h nglobals string_count p i l)) as H; [|apply H; [rewrite Hbase; apply alen_nonneg|unfold total_types; lia]].
  induction l as [|t l IH]; intros i Hi Hn; cbn [validate_types_from]; [by eexists|]. rewrite alen_cons in Hn. pose proof (alen_nonneg l).
  destruct (validate_patch_type_total i t) as [r ->]; [lia|]. cbn [mbind option_bind]. destruct r; [by eexists|]. apply IH; lia.
Qed.
End total.
