(* ===== verification/PatchProps.v ===== *)
(** * Patches: properties

    Whatever bytes a patch comes from, what [hl_patch_read] returns is well formed; the checks
    on its functions read nothing they do not have, and the functions they accept are sound;
    [validate_traps] decides balance exactly; the types it appends extend a well-formed heap to
    a well-formed one; and a committed patch gives the module the functions that its code was
    checked against. *)
From S2P Require Import Prelude Ustr Lookup Reader Types TypesProps Layout Opcodes Patch PatchTraps PatchChecks PatchRead PatchReadSound PatchLayout PatchTypes PatchTypesSound.

(** ** A patch in bytes *)
(** A module with one function and one native; the patch adds a function in slot 2, whose code
    is [OInt], a try region with [OEndTrap] and [ORet]. *)
Definition sample_symbols : list Z := [0; 0; 0; 0; 1; 0] ++ [0; 0; 0; 0; 0; 0] ++ [0; 0; 0; 0; 0; 0] ++ [0; 0; 0; 0; 2; 1; HABSTRACT; 0].
Definition sample_code : list Z := [1; 0; 0; 72; 0; 2; 1; 0; 0; 73; 0; 67; 0].
Definition section_bytes (tag : Z) (bytes : list Z) : list Z := tag :: alen bytes :: bytes.
Definition sample_function (code : list Z) (n : Z) : list Z := let body := [5; 1; 2; 1; n; 0] ++ code ++ [0] in 1 :: alen body :: body.
Definition sample_added : list Z := [1; 5; 2; 1; 1; 102].
Definition sample_header (sections : Z) : list Z := [72; 76; 80; 9] ++ replicate 16 0 ++ [1; 2; sections].
Definition sample_patch (code : list Z) (n : Z) : list Z := sample_header 3 ++ section_bytes 1 sample_symbols ++ section_bytes 2 (sample_function code n) ++ section_bytes 5 sample_added.
Definition sample_module : live_module := LiveModule [ModuleFunction 1 0 9 [103]] 4 true [0; 1; -1; -1; -1] [Some 1; Some 1; None; None; None] [1] [HI32; HFUN].
Definition sample_ptrs : patch_module := Module_ [true; true; true; false; false] 1 0 0.
Definition read_sample : hl_patch := match hl_patch_read (sample_patch sample_code 5) with PatchRead p => p | _ => Patch [] 0 0 None None None None None None None None None end.

(** ** Reading *)
(** C23. Whatever the bytes, a patch that [hl_patch_read] returns has symbols and functions, a
    revision after its base, types whose data is that of their tag, instructions with as many
    operands as their opcodes say, debug spans for the functions that have any, one for each
    instruction, snapshots named by the hash of their content, and no two entries for one key
    among its snapshots, added functions, fields and migrations. *)
Theorem hl_patch_read_well_formed data p : hl_patch_read data = PatchRead p ->
  exists version s fs, (version = 9 \/ version = 10) /\ symbols p = Some s /\ functions p = Some fs /\ 0 <= base_revision p < revision p /\
    Forall (type_read version) (types s) /\ Forall (function_read (from_option alen 0 (debug_files p))) fs /\
    option_holds snapshots_read (source_snapshots p) /\ option_holds added_read (added_functions p) /\
    option_holds fields_read (object_fields p) /\ option_holds (distinct mi_type) (migrations p).
Proof.
  intros [version [Hv [H1 H2 H3 H4 H5 H6 H7] Hs Hf]]%hl_patch_read_ok. destruct (symbols p) as [s|] eqn:E1; [|done]. destruct (functions p) as [fs|] eqn:E2; [|done].
  exists version, s, fs. repeat split; try done; lia.
Qed.
Lemma hl_patch_read_well_formed_witness : exists p version s fs, hl_patch_read (sample_patch sample_code 5) = PatchRead p /\ (version = 9 \/ version = 10) /\ symbols p = Some s /\ functions p = Some fs.
Proof.
  exists read_sample. destruct (hl_patch_read_well_formed (sample_patch sample_code 5) read_sample) as (version & s & fs & Hv & Hs & Hf & _); [vm_compute; reflexivity|].
  exists version, s, fs. split; [vm_compute; reflexivity|]. split; [exact Hv|]. split; [exact Hs|exact Hf].
Defined.
(** A register that cannot be read leaves the process with instructions to free that were not
    allocated: instead of being refused, a truncated patch ends the program. *)
Example hl_patch_read_truncated_crashes : hl_patch_read (sample_header 1 ++ section_bytes 2 [1; 6; 5; 1; 2; 1; 9; 200]) = PatchCrash.
Proof. vm_compute. reflexivity. Qed.
(** So does a count that is too large. *)
Example hl_patch_read_count_crashes : hl_patch_read (sample_header 1 ++ section_bytes 2 [193; 0; 0; 1]) = PatchCrash.
Proof. vm_compute. reflexivity. Qed.

(** ** Try regions *)
(** C15. [validate_traps] accepts exactly the functions whose try regions are balanced: with
    branches that do not go before the function it always ends with a result, whatever the
    memory it is given held, and the result is acceptance when, on every path, each
    instruction is reached with one stack of tries and cleanups, an end-trap ends a trap of its
    kind, returns are outside traps, at most 32 are active, and each instruction lies inside as
    many regions, in the order of the instructions, as traps are active. *)
Theorem validate_traps_exact junk code : branches_ok code -> exists r, validate_traps junk code = Some r /\ (r = None <-> balanced code).
Proof. apply validate_traps_spec. Qed.
(** A try inside a cleanup; [last] ends the cleanup. *)
Definition nested_traps (last : Z) : list hl_patch_instruction :=
  [Instruction 102 2 [0; 4]; Instruction 72 2 [0; 1]; Instruction 73 1 [0]; Instruction last 1 [0]; Instruction 67 1 [0]; Instruction 67 1 [0]].
Lemma nested_branches_ok : branches_ok (nested_traps 103).
Proof.
  intros i op k Ei Ek. pose proof (aget_Some_range _ _ _ Ei) as Hi. change (alen (nested_traps 103)) with 6 in Hi.
  assert (i = 0 \/ i = 1 \/ i = 2 \/ i = 3 \/ i = 4 \/ i = 5) as Hc by lia.
  destruct Hc as [->|[->|[->|[->|[->| ->]]]]]; vm_compute in Ei; injection Ei as <-; vm_compute in Ek; try discriminate; injection Ek as <-; eexists; (split; [vm_compute; reflexivity|lia]).
Qed.
Lemma validate_traps_exact_witness : validate_traps 7 (nested_traps 103) = Some None /\ balanced (nested_traps 103).
Proof.
  destruct (validate_traps_exact 7 (nested_traps 103) nested_branches_ok) as (r & E & H).
  assert (validate_traps 7 (nested_traps 103) = Some None) as E2 by (vm_compute; reflexivity). split; [exact E2|]. apply H. rewrite E in E2. by injection E2.
Defined.
(** The end-trap of a try does not end a cleanup. *)
Example nested_traps_mismatched : validate_traps 7 (nested_traps 73) = Some (Some "Mismatched cleanup trap"%string).
Proof. vm_compute. reflexivity. Qed.

(** ** From bytes to accepted functions *)
Definition tables_ok (lm : live_module) (pm : patch_module) : Prop := alen (m_functions_ptrs pm) = lm_functions_capacity lm + alen (lm_natives lm).
Lemma staged_layout_ok lm p l pm : layout_staged lm p l -> tables_ok lm pm -> layout_ok pm l.
Proof. intros [H1 H2 _ H3 _ _ _ _] Hp. unfold tables_ok, module_slot_count in *. split; lia. Qed.
(** C14. The functions of a patch that was read from any bytes and whose layout was staged on a
    well-formed module are checked without a read outside an array and without looping; and
    when they are accepted they have distinct slots, and each has the type of its slot,
    registers of existing types, balanced try regions and only sound instructions: operands
    that are registers where their opcodes take registers, arguments that are registers,
    branches that stay inside, constants, types and globals within their pools with the
    patch's, called slots that have code, and no write to a global that a patch added. *)
Theorem patch_functions_checked data p lm l pm junk junk' :
  hl_patch_read data = PatchRead p -> module_ok lm -> base_types p <= alen (lm_kinds lm) -> tables_ok lm pm -> stage_patch_layout lm p junk' = Some (inr l) ->
  exists r, validate_patch_functions pm l (pools_of p) junk [] (functions_of_patch p) = Some r /\
    (r = None -> Forall (function_sound pm l (pools_of p)) (functions_of_patch p) /\ NoDup (pf_findex <$> functions_of_patch p)).
Proof.
  intros [version [_ Hok _ Hsome]]%hl_patch_read_ok Hlm Hbase Hpm Hl. destruct (stage_patch_layout_spec lm p junk' Hlm Hbase) as (r & E & Hr).
  apply validate_patch_functions_spec; [|clear Hl|by apply NoDup_nil].
  - apply (staged_layout_ok lm p l pm); [|done]. apply Hr. congruence.
  - destruct Hok as [_ _ Hfs _ _ _ _]. unfold functions_of_patch. destruct (functions p) as [fs|]; [|done]. eapply Forall_impl; [exact Hfs|]. by intros f [_ Hf _ _].
Qed.
Lemma sample_module_ok : module_ok sample_module.
Proof. split; [vm_compute; discriminate|done|done| |by apply NoDup_singleton]. constructor; [vm_compute; split; [discriminate|done]|done]. Qed.
Definition sample_layout : patch_layout := Layout [1; 1] [0; 2; 1] 3.
Lemma patch_functions_checked_witness : Forall (function_sound sample_ptrs sample_layout (pools_of read_sample)) (functions_of_patch read_sample) /\ NoDup (pf_findex <$> functions_of_patch read_sample).
Proof.
  destruct (patch_functions_checked (sample_patch sample_code 5) read_sample sample_module sample_layout sample_ptrs 99 77) as (r & E & H).
  - vm_compute. reflexivity.
  - exact sample_module_ok.
  - vm_compute. discriminate.
  - vm_compute. reflexivity.
  - vm_compute. reflexivity.
  - apply H. assert (validate_patch_functions sample_ptrs sample_layout (pools_of read_sample) 99 [] (functions_of_patch read_sample) = Some None) as E2 by (vm_compute; reflexivity).
    rewrite E in E2. by injection E2.
Defined.
(** The second operand of [OGetThis] is a field, but it is checked as a register: a function of
    one register cannot read field 5. *)
Example get_this_checked_as_register :
  check_instruction sample_ptrs sample_layout (pools_of read_sample) (PatchFunction 1 5 2 [0] [] [] []) 0 (Instruction 40 2 [0; 5]) = Some (Some "Invalid unary operation"%string).
Proof. vm_compute. reflexivity. Qed.

(** ** Committing *)
(** C22. Staging always ends with a layout or an error.  When a patch whose layout was staged is
    committed, publishing its functions succeeds within the tables of the module, keeps the
    module well formed, and gives it the functions that the patch was checked and compiled
    against: every slot that is not a native's has the function of the layout, the slots of
    the added functions have their types, and a native is past all functions of the layout. *)
Theorem commit_matches_layout lm p junk : module_ok lm -> base_types p <= alen (lm_kinds lm) ->
  exists r, stage_patch_layout lm p junk = Some r /\ forall l, r = inr l ->
    (forall i s, aget (lm_natives lm) i = Some s -> aget (l_indexes l) s = Some (alen (l_functions l) + i) /\ layout_function l s = Some None) /\
    exists lm', publish_added_functions lm p = Some lm' /\ module_ok lm' /\ module_slot_count lm' = l_slots l /\ lm_natives lm' = lm_natives lm /\
      (forall s, 0 <= s < l_slots l -> s ∉ lm_natives lm -> layout_function l s = Some (slot_function lm' s)) /\
      (forall a, a ∈ added_of p -> slot_function lm' (af_findex a) = Some (af_type a) /\ aget (lm_functions_types lm') (af_findex a) = Some (Some (af_type a))).
Proof.
  intros Hlm Hbase. destruct (stage_patch_layout_spec lm p junk Hlm Hbase) as (r & E & Hr). exists r. split; [exact E|]. intros l Hl. pose proof (Hr l Hl) as Hst. split.
  - intros i s Ei. split; [by apply (ls_natives _ _ _ Hst)|]. by apply (layout_native lm p l Hlm Hst i).
  - by apply commit_spec.
Qed.
Lemma commit_matches_layout_witness : exists lm', publish_added_functions sample_module read_sample = Some lm' /\ module_ok lm'.
Proof.
  destruct (commit_matches_layout sample_module read_sample 77 sample_module_ok) as (r & E & H); [vm_compute; discriminate|].
  assert (stage_patch_layout sample_module read_sample 77 = Some (inr sample_layout)) as E2 by (vm_compute; reflexivity). rewrite E in E2. injection E2 as E2.
  destruct (H _ E2) as (_ & lm' & Hp & Hok & _). exists lm'. split; [exact Hp|exact Hok].
Defined.

(** ** Appended types *)
(** C16. The checks on the types of a patch always end; when they accept, staging and linking the
    types succeed, within the capacity of the table, and extend the well-formed types of the
    module to well-formed ones: the new types have the kinds of the patch, the module's types
    and objects are the same as before, and the base of a new class is a class of its kind that
    comes before it.  The names of fields and methods are interned in a table with room for
    them (2^28 names). *)
Theorem staged_types_well_formed junk junkl strings h p nglobals capacity c :
  heap_ok h -> Forall uname_ok strings -> base_types p = alen (Types.types h) -> cache_ok c -> hl_cache_count c + names_in (types_of p) <= MAX_NAMES ->
  exists r, validate_patch_types h capacity nglobals (alen strings) p = Some r /\ (r = None ->
    exists staged c' linked ts, stage_patch_types junk junkl strings h c (types_of p) = Some (staged, c') /\ link_patch_object_types staged (base_types p) (types_of p) = Some linked /\
      heap_ok linked /\ cache_ok c' /\ Types.types linked = Types.types h ++ ts /\ kind <$> ts = pt_tag <$> types_of p /\ alen (Types.types linked) <= capacity /\
      (forall i, i < alen (objs h) -> aget (objs linked) i = aget (objs h) i) /\ classes_from linked (base_types p) (alen (objs h))).
Proof.
  intros Hok Hstrings Hbase Hc Hn. destruct (validate_patch_types_total h nglobals (alen strings) p Hbase capacity) as [r E]. exists r. split; [exact E|]. intros ->.
  by apply (stage_and_link junk junkl strings h p nglobals capacity c).
Qed.
Definition void_heap : heap := Heap [Type_ HVOID TNone] [] [] [].
Definition sample_strings : list uname := [UName 0 [97; 0]].
Definition type_patch (ts : list hl_patch_type) : hl_patch := Patch [] 1 2 (Some (Symbols 0 0 [] 0 0 [] 0 0 [] 0 1 ts)) (Some []) None None None None None None None.
(** A class with a method, one that extends it, and a function type. *)
Definition sample_types : list hl_patch_type :=
  [PatchType HOBJ (DObj (PatchObject 0 (-1) 0 [(0, 3)] [(0, 0, -1)] [])); PatchType HOBJ (DObj (PatchObject 0 1 0 [(0, 0)] [] [])); PatchType HFUN (DFun [2] 0)].
Lemma void_heap_ok : heap_ok void_heap.
Proof. split; [|constructor..]. constructor; [vm_compute; reflexivity|constructor]. Qed.
Lemma sample_strings_ok : Forall uname_ok sample_strings.
Proof.
  constructor; [|constructor]. split.
  - exists [97]. split; [constructor; [lia|constructor]|by exists []].
  - unfold uchars. cbn. repeat constructor; vm_compute; first [discriminate|reflexivity].
Qed.
Lemma empty_cache_ok : cache_ok hl_cache_init.
Proof. split; [exists ∅; apply init_repr|left; vm_compute; discriminate]. Qed.
Lemma staged_types_well_formed_witness : exists staged c' linked, stage_patch_types 0 (FieldLookup [] 0 0) sample_strings void_heap hl_cache_init sample_types = Some (staged, c') /\
  link_patch_object_types staged 1 sample_types = Some linked /\ heap_ok linked.
Proof.
  destruct (staged_types_well_formed 0 (FieldLookup [] 0 0) sample_strings void_heap (type_patch sample_types) 0 10 hl_cache_init) as (r & E & H).
  - exact void_heap_ok.
  - exact sample_strings_ok.
  - vm_compute. reflexivity.
  - exact empty_cache_ok.
  - vm_compute. discriminate.
  - assert (validate_patch_types void_heap 10 0 (alen sample_strings) (type_patch sample_types) = Some None) as E2 by (vm_compute; reflexivity). rewrite E in E2. injection E2 as E2.
    destruct (H E2) as (staged & c' & linked & ts & H1 & H2 & H3 & _). exists staged, c', linked. split; [exact H1|]. split; [exact H2|exact H3].
Defined.
(** A base comes first, but a structure may be packed into itself: type 1 is a structure whose
    field has the packed type 2 of type 1. *)
Definition looping_types : list hl_patch_type := [PatchType HSTRUCT (DObj (PatchObject 0 (-1) 0 [(0, 2)] [] [])); PatchType HPACKED (DParameter 1)].
Definition looping_class : hl_type_obj := TypeObj (UName 0 [97; 0]) None [ObjField (UName 0 [97; 0]) 2 97] [] [] None.
Definition looping_heap : heap := Heap [Type_ HVOID TNone; Type_ HSTRUCT (TObj 0); Type_ HPACKED (TParam 1)] [looping_class] [] [].
Lemma packed_into_itself_accepted : validate_patch_types void_heap 10 0 1 (type_patch looping_types) = Some None /\
  exists c', stage_patch_types 0 (FieldLookup [] 0 0) sample_strings void_heap hl_cache_init looping_types = Some (looping_heap, c').
Proof. split; [vm_compute; reflexivity|]. eexists. vm_compute. reflexivity. Qed.
(** No amount of fuel gives the runtime layout of such a structure: building it does not end. *)
Lemma packed_into_itself_loops functions_types unset fuel st : st_rt st !! 0 = None -> hl_get_obj_rt looping_heap functions_types unset fuel st 1 = None.
Proof.
  intros Hst. induction fuel as [|fuel IH]; cbn [hl_get_obj_rt]; change (obj_ptr looping_heap 1) with (Some 0); cbn [mbind option_bind];
    change (aget (objs looping_heap) 0) with (Some looping_class); cbn [mbind option_bind looping_class o_super]; rewrite Hst; [done|].
  unfold build_class. change (kind_of looping_heap 1) with (Some HSTRUCT). cbn [mbind option_bind fmap option_fmap option_map base_fields]. fold looping_class.
  change (int_of (alen (o_fields looping_class) + 0)) with (Some 1). cbn [mbind option_bind]. change (count_bindings looping_heap None looping_class) with (Some 0). cbn [mbind option_bind].
  change (length (o_fields looping_class)) with 1%nat. cbn [afor]. unfold field_step at 1, field_place. set (f := ObjField (UName 0 [97; 0]) 2 97). change (aget (o_fields looping_class) 0) with (Some f). cbn [mbind option_bind].
  change (kind_of looping_heap (f_t f)) with (Some HPACKED). cbn [mbind option_bind]. change (HPACKED =? HPACKED) with true. cbn iota.
  change (tparam looping_heap (f_t f)) with (Some 1). cbn [mbind option_bind fa_st]. by rewrite IH.
Qed.
